(* ===== verification/_CoqProject ===== *)
-Q . S2P
Prelude.v
Endian.v
Intset.v
Strnum.v
Listpack.v
ListpackCodec.v
ListpackSpec.v
ListpackOps.v
ListpackQuery.v
ListpackValid.v
ListpackThms.v
Lzf.v
Pqsort.v
PqsortThms.v
Glob.v
Bits.v
Server.v
Crc.v
CrcThms.v
CrcSpeed.v
Bitops.v
BitopsThms.v
BitfieldThms.v
BitCmds.v
BitCmdsThms.v
BitRangeThms.v
BitposThms.v
BitopThms.v
BitfieldCmds.v
BitfieldCmdThms.v
StringCmds.v
StringThms.v
Lcs.v
LcsThms.v
Sds.v
SdsThms.v
SdsText.v
SdsTextThms.v
SdsSplit.v
SdsFmt.v
Dict.v
DictInv.v
DictOps.v
DictRehash.v
DictThms.v
DictIter.v
Element.v
Keyspace.v
Hll.v
HllThms.v
HllSet.v
HllRegs.v
HllCmds.v
HllCmdThms.v
SetType.v
SetTypeThms.v
SetRun.v
HashType.v
HashTypeThms.v
HashCmds.v
HashCmdThms.v
SetCmds.v
SetCmdThms.v
SetInterThms.v
SetUnionThms.v
SetCmdRun.v
DictScan.v
Rio.v
Rdb.v
RdbThms.v
Resp.v
RespThms.v
RespSafe.v
Skiplist.v
SkiplistInv.v
SkiplistOps.v
SkiplistDel.v
SkiplistSpec.v
SkiplistThms.v
SkiplistRun.v
