(* ===== verification/Prelude.v ===== *)
(** A model of the C core of the Redis 7.2.4 server that this repository
    carries under src/.redis/redis-7.2.4/src, and what makes it correct.
    (The application around it is TypeScript and only talks to the server.)

    * What is modelled

    Each file of definitions follows one or two C files and keeps their names:
    a C function [f] is the definition [f], a loop of it [f_loop], a struct a
    [Record], a tagged pointer or an enum an [Inductive].

    - Machine level (this file, Endian.v): integers are [Z] with the conversions
      [u8] ... [i64] written where C converts or wraps; a block of memory is the
      list of its bytes, a pointer into it an offset; [rd], [rdn], [wrn]
      read and write it and give [None] outside of it.  endianconv.c is Endian.v;
      the byte order of the host is the class [Host].
    - Numbers and text of util.c: Strnum.v ([string2ll], [ll2string],
      [memtoull] ...), Glob.v ([stringmatchlen]).
    - Dynamic strings, sds.c: Sds.v (the header and the buffer), SdsText.v
      (split, join, quote, unquote, templates, [sdscatfmt]).
    - Compact containers: Intset.v (intset.c), Listpack.v (listpack.c).
    - Compression and checksums: Lzf.v (lzf_c.c, lzf_d.c), Crc.v (crc16.c,
      crc64.c, crcspeed.c, [keyHashSlot] of cluster.c); Bits.v is the algebra of
      bits they share with the bitmaps.
    - Hash tables, dict.c: Dict.v (tables, incremental rehashing, the
      operations), DictScan.v ([dictScan]), DictIter.v (the iterators),
      Element.v (the dictionaries of sets and hashes, whose keys are strings).
    - Sorted set skip list, t_zset.c: Skiplist.v, with the doubles of its scores.
    - Streams and dump fields: Rio.v (rio.h, rio.c), Rdb.v (rdb.c).
    - The request parser of networking.c: Resp.v.
    - The partial quick sort of SORT, pqsort.c: Pqsort.v, on the bytes of the
      array, for any comparison function.
    - The state that commands act on, Server.v (db.c, object.c), and the
      commands: BitCmds.v and BitfieldCmds.v over Bitops.v (bitops.c),
      StringCmds.v and Lcs.v (t_string.c), SetCmds.v over SetType.v (t_set.c),
      HashCmds.v over HashType.v (t_hash.c), HllCmds.v over Hll.v (hyperloglog.c).
      Element.v has the elements that sets and hashes share, Keyspace.v the keys
      that hold one of these values or a value of another type.

    * How the parts interact, and the interfaces between them

    - A back end of a stream is the class [Backend] (Rio.v) with its laws
      [BackendOk]; rdb.c is proved against the laws, and the memory buffer
      satisfies them.  Rdb.v calls Lzf.v and Strnum.v.
    - The type of a dictionary is a [Record] of functions, as in C
      ([dictType]), with its laws in the class [DictTypeOk] (DictInv.v); the
      theorems on dictionaries are proved for any lawful type; the class
      [StringDict] is the types whose keys are compared as strings, and those of
      sets and hashes are instances.
    - A set (SetType.v) is an intset, a listpack or a dictionary, a hash
      (HashType.v) a listpack of pairs or a dictionary, and both are proved from
      the specifications of these three, not from their definitions.
    - A group of commands is specified on abstract states, maps from keys to
      mathematical objects ([astate_of], Keyspace.v); how a state of the server
      represents one is generic in how a value represents an object.
    - The request parser takes the execution of a command as a parameter, a
      function from the client and its arguments to a result.
    - The commands share the state [srv_of V] of Server.v (keys, counter of
      changes, signalled keys, replies), for the type [V] of values they know.
    - Where the code reads memory it has not written, the content is a
      parameter ([junk], [llbuf], the hash table of lzf); so are the rounding of
      the allocator, addresses, hash functions, random heights and the
      configuration.  The theorems hold for all of them.

    * What is proved

    Every function that can leave its buffers, fail an assertion or not
    terminate returns an [option], and the theorems say that it is [Some]:
    safety and termination come with each of them.

    - Containers act as mathematical objects: an intset as a sorted list
      ([Intset.intset_refines_set]), a listpack as a list of entries
      (ListpackThms.v), a dictionary as an association list at any stage of
      rehashing ([DictThms.dict_refines_map]), a skip list as a sorted list
      (SkiplistRun.v), a set as a set through its three encodings
      ([SetRun.setType_refines_set]), a hash as a map (HashTypeThms.v), an sds as a list of bytes
      ([SdsThms.sds_refines_bytes]).  The representation predicates
      ([intset_rep], [lp_rep], [wf], [zsl_rep], [set_rep], [hash_rep],
      [sds_rep]) are the invariants, preserved by every operation.
    - A HyperLogLog, dense or sparse, acts as a list of 16384 registers
      ([hll_holds]); after any additions each has the largest count of its
      elements ([HllRegs.hll_adds_max]).
    - Round trips: LZF, dump fields, quoting, splitting and joining, numbers.
    - Untrusted input: the listpack and intset validators, the LZF
      decompressor, the loader of dump fields, [sdssplitargs] and the request
      parser stay in their buffers on every input; the parser executes the same
      commands however the bytes are cut into reads ([RespThms.resp_chunking]).
    - Equivalence of optimised routines with their definitions: CRC-64 by words
      against the polynomial remainder, bit counting and searching by words,
      BITOP by blocks, glob matching against its declarative meaning; the
      wanted range of pqsort against a full sort ([PqsortThms.pqsort_correct]).
    - Commands: each on every branch, errors included, against the list of the
      bits of the value (BitCmdsThms.v ...), the texts of the keys
      (StringThms.v), longest common subsequences (LcsThms.v), sets of strings
      ([SetCmdRun.set_commands_refine]) or maps from fields to values
      ([HashCmdThms.hash_commands_refine]), or lists of registers
      ([HllCmdThms.hll_commands_refine]).
    - Progress: rehashing ends ([DictThms.dictRehash_completes]), an iteration
      by [dictScan] ends and visits what stays ([DictScan.dictScan_completes]).

    * Loops, bounds and fuel

    A loop is structural where it follows a list; otherwise it takes fuel, and
    the caller's definition gives the amount: the length of the block or of the
    text for a loop that consumes at least one byte a turn, the number of
    elements or buckets for the walks of dictionaries and skip lists, the width
    for bit loops.  Running out is [None], so the theorems that say [Some] show
    that it is enough.  Sizes are bounded as the code needs them: listpacks by
    their 32 bit header (an operation that would exceed it returns NULL, and the
    theorems say when), intsets below 2^29 elements ([INTSET_BOUND]: the code
    wraps above it), dictionaries below 2^58, strings by 2^60, set elements
    and the fields and values of hashes by 2^31, elements added to a HyperLogLog by 2^31,
    the tokens of a split string by 5 * 2^28 ([max_tokens], where its array of
    [int] slots can no longer be doubled), LCS tables by 2^32 cells; the
    configured sizes of the listpack of a hash keep it below 4 GB.

    * What is not modelled

    - Code around system calls, clocks, threads and processes: the event loop,
      networking beyond the parser, AOF, replication, Sentinel, the cluster bus,
      configuration, modules, scripting, command line tools, benchmarks.
    - Random choices ([dictGetRandomKey], SPOP, SRANDMEMBER, HRANDFIELD): they
      draw from rand(), whose distribution is their purpose.
    - Times to live, eviction, keyspace notifications, access statistics and
      blocked clients: commands act on keys that have none.
    - Allocation failure (the server aborts), reference counts and the release
      of memory.
    - The estimate of a cardinality from the histogram of the registers
      ([hllSigma], [hllTau]): loops on doubles that call pow and sqrt, a
      parameter that maps the histogram of empty registers to 0.
    - The other value types: lists (quicklist), streams and the commands
      of sorted sets; floating point parsing and printing, which is
      the C library's; jemalloc, Lua, hiredis and the other dependencies.

    * This file

    Machine integers, bytes and byte buffers, checked reads and writes, little
    endian codecs, the option monad's tactics and the proof automation that the
    components share. *)
From stdpp Require Export prelude.
From Stdlib Require Export ZArith Lia.

#[global] Open Scope Z_scope.

(** * Machine integers *)

(** [wrapu n z] is the conversion of [z] to an [n]-bit unsigned type and
    [wraps n z] the (two's complement) conversion to an [n]-bit signed one. *)
Definition wrapu (n z : Z) : Z := z mod 2 ^ n.
Definition wraps (n z : Z) : Z := (z + 2 ^ (n - 1)) mod 2 ^ n - 2 ^ (n - 1).

Definition u8 (z : Z) : Z := z mod 256.
Definition u16 (z : Z) : Z := z mod 65536.
Definition u32 (z : Z) : Z := z mod 4294967296.
Definition u64 (z : Z) : Z := z mod 18446744073709551616.
Definition i64 (z : Z) : Z :=
  (z + 9223372036854775808) mod 18446744073709551616 - 9223372036854775808.
Definition i32 (z : Z) : Z := (z + 2147483648) mod 4294967296 - 2147483648.
Definition i16 (z : Z) : Z := (z + 32768) mod 65536 - 32768.

Definition LLONG_MAX : Z := 9223372036854775807.
Definition LLONG_MIN : Z := -9223372036854775808.
Definition ULLONG_MAX : Z := 18446744073709551615.

(** The range of [long long]/[int64_t] and of [uint64_t]. *)
Definition is_i64 (z : Z) : Prop := -9223372036854775808 <= z <= 9223372036854775807.
Definition is_u64 (z : Z) : Prop := 0 <= z <= 18446744073709551615.

Lemma wraps_small n z : 0 < n -> - 2 ^ (n - 1) <= z < 2 ^ (n - 1) -> wraps n z = z.
Proof.
  intros Hn Hz. unfold wraps.
  assert (2 ^ n = 2 * 2 ^ (n - 1)) as E.
  { rewrite <- Z.pow_succ_r by lia. f_equal. lia. }
  rewrite E, Z.mod_small; lia.
Qed.

Lemma wraps_mod n z : 0 < n -> wraps n (z mod 2 ^ n) = wraps n z.
Proof.
  intros Hn. unfold wraps. f_equal. now rewrite Zplus_mod_idemp_l.
Qed.

Lemma i64_id z : is_i64 z -> i64 z = z.
Proof. unfold i64, is_i64. intros. rewrite Z.mod_small; lia. Qed.

Lemma i64_u64 z : i64 (u64 z) = i64 z.
Proof. unfold i64, u64. now rewrite Zplus_mod_idemp_l. Qed.

Lemma i64_range z : is_i64 (i64 z).
Proof.
  unfold i64, is_i64.
  pose proof (Z.mod_pos_bound (z + 9223372036854775808) 18446744073709551616). lia.
Qed.

Lemma u64_id z : is_u64 z -> u64 z = z.
Proof. unfold u64, is_u64. intros. rewrite Z.mod_small; lia. Qed.

Lemma i32_id z : -2147483648 <= z <= 2147483647 -> i32 z = z.
Proof. unfold i32. intros. rewrite Z.mod_small; lia. Qed.

Lemma u32_id z : 0 <= z < 4294967296 -> u32 z = z.
Proof. unfold u32. intros. rewrite Z.mod_small; lia. Qed.

Lemma u8_id z : 0 <= z < 256 -> u8 z = z.
Proof. unfold u8. intros. rewrite Z.mod_small; lia. Qed.

(** * Bytes *)

Definition byte (b : Z) : Prop := 0 <= b < 256.
Definition bytes : list Z -> Prop := Forall byte.

#[global] Instance byte_dec b : Decision (byte b).
Proof. unfold byte. apply _. Defined.

Lemma u8_byte z : byte (u8 z).
Proof. unfold byte, u8. apply Z.mod_pos_bound. lia. Qed.

(** A boolean statement about a byte is decided by trying the 256 values. *)
Lemma byte_all (P : Z -> bool) :
  forallb P (seqZ 0 256) = true -> forall b, byte b -> P b = true.
Proof.
  intros H b Hb. rewrite forallb_forall in H. apply H.
  apply list_elem_of_In, elem_of_seqZ. unfold byte in Hb. lia.
Qed.

(** * Buffers: lists of bytes addressed by [Z] offsets *)

Definition zlen {A} (l : list A) : Z := Z.of_nat (length l).

(** A read or write outside the block has no defined result: [None]. *)
Definition rd (m : list Z) (i : Z) : option Z :=
  if 0 <=? i then m !! Z.to_nat i else None.

Definition rdn (m : list Z) (i n : Z) : option (list Z) :=
  if (0 <=? i) && (0 <=? n) && (i + n <=? zlen m)
  then Some (take (Z.to_nat n) (drop (Z.to_nat i) m)) else None.

Definition wrn (m : list Z) (i : Z) (bs : list Z) : option (list Z) :=
  if (0 <=? i) && (i + zlen bs <=? zlen m)
  then Some (take (Z.to_nat i) m ++ bs ++ drop (Z.to_nat (i + zlen bs)) m) else None.

(** [memmove(dst, src, n)] inside one block. *)
Definition memmove (m : list Z) (dst src n : Z) : option (list Z) :=
  bs ← rdn m src n; wrn m dst bs.

(** A C [assert]: the program stops when the condition is false. *)
Definition assert_ (b : bool) : option unit := if b then Some tt else None.

(** * Lemmas on lengths and on buffer access *)

Lemma zlen_nonneg {A} (l : list A) : 0 <= zlen l.
Proof. unfold zlen. lia. Qed.
Lemma zlen_nil {A} : zlen (@nil A) = 0.
Proof. reflexivity. Qed.
Lemma zlen_cons {A} (x : A) l : zlen (x :: l) = 1 + zlen l.
Proof. unfold zlen. simpl. lia. Qed.
Lemma zlen_app {A} (l k : list A) : zlen (l ++ k) = zlen l + zlen k.
Proof. unfold zlen. rewrite length_app. lia. Qed.
Lemma zlen_take {A} (l : list A) n : 0 <= n <= zlen l -> zlen (take (Z.to_nat n) l) = n.
Proof. unfold zlen. rewrite length_take. lia. Qed.
Lemma zlen_drop {A} (l : list A) n : 0 <= n <= zlen l -> zlen (drop (Z.to_nat n) l) = zlen l - n.
Proof. unfold zlen. rewrite length_drop. lia. Qed.
Lemma zlen_0 {A} (l : list A) : zlen l = 0 -> l = [].
Proof. destruct l; [done |]. rewrite zlen_cons. pose proof (zlen_nonneg l). lia. Qed.

Create Rewrite HintDb zlen.
#[export] Hint Rewrite @zlen_nil @zlen_cons @zlen_app : zlen.

(** [zl] solves linear arithmetic over buffer lengths. *)
Ltac zl_pose :=
  repeat match goal with
  | |- context [zlen ?l] =>
      lazymatch goal with H : 0 <= zlen l |- _ => fail | _ => pose proof (zlen_nonneg l) end
  | H0 : context [zlen ?l] |- _ =>
      lazymatch goal with H : 0 <= zlen l |- _ => fail | _ => pose proof (zlen_nonneg l) end
  end.
(** The same by rewriting the goal only. *)
Ltac zlens := repeat first [rewrite zlen_app | rewrite zlen_cons | rewrite (@zlen_nil Z)]; lia.
Ltac zl := autorewrite with zlen in *; zl_pose; lia.

Lemma rd_rdn m i : rd m i = (bs ← rdn m i 1; head bs).
Proof.
  unfold rd, rdn. destruct (Z.leb_spec 0 i); simpl; [| done].
  destruct (Z.leb_spec (i + 1) (zlen m)); simpl.
  - destruct (drop (Z.to_nat i) m) as [| x k] eqn:E.
    + apply (f_equal length) in E. rewrite length_drop in E. unfold zlen in *. simpl in *. lia.
    + simpl. rewrite <- (Nat.add_0_r (Z.to_nat i)), <- lookup_drop, E. done.
  - apply lookup_ge_None. unfold zlen in *. lia.
Qed.

Lemma rdn_Some m i n bs :
  rdn m i n = Some bs <-> exists a c, m = a ++ bs ++ c /\ zlen a = i /\ zlen bs = n.
Proof.
  unfold rdn. split.
  - destruct (_ && _) eqn:E; [| done]. rewrite !andb_true_iff, !Z.leb_le in E.
    destruct E as [[Hi Hn] Hm]. intros [= <-].
    exists (take (Z.to_nat i) m), (drop (Z.to_nat (i + n)) m).
    assert (zlen (drop (Z.to_nat i) m) = zlen m - i) as Hd by (apply zlen_drop; lia).
    rewrite zlen_take, zlen_take by lia. split; [| done].
    rewrite Z2Nat.inj_add by lia. rewrite <- drop_drop, take_drop, take_drop. done.
  - intros (a & c & -> & <- & <-).
    pose proof (zlen_nonneg a). pose proof (zlen_nonneg bs). pose proof (zlen_nonneg c).
    replace (_ && _) with true.
    2:{ symmetry. rewrite !andb_true_iff, !Z.leb_le, !zlen_app. lia. }
    unfold zlen. rewrite !Nat2Z.id, drop_app_length, take_app_length. done.
Qed.

Lemma wrn_Some m i bs m' :
  wrn m i bs = Some m' <->
  exists a b c, m = a ++ b ++ c /\ zlen a = i /\ zlen b = zlen bs /\ m' = a ++ bs ++ c.
Proof.
  unfold wrn. split.
  - destruct (_ && _) eqn:E; [| done]. rewrite !andb_true_iff, !Z.leb_le in E.
    destruct E as [Hi Hm]. intros [= <-]. pose proof (zlen_nonneg bs).
    exists (take (Z.to_nat i) m), (take (Z.to_nat (zlen bs)) (drop (Z.to_nat i) m)),
      (drop (Z.to_nat (i + zlen bs)) m).
    assert (zlen (drop (Z.to_nat i) m) = zlen m - i) as Hd by (apply zlen_drop; lia).
    rewrite zlen_take, zlen_take by lia. split; [| done].
    rewrite Z2Nat.inj_add by lia. rewrite <- drop_drop, take_drop, take_drop. done.
  - intros (a & b & c & -> & <- & Hb & ->).
    pose proof (zlen_nonneg a). pose proof (zlen_nonneg bs). pose proof (zlen_nonneg c).
    replace (_ && _) with true.
    2:{ symmetry. rewrite !andb_true_iff, !Z.leb_le, !zlen_app. lia. }
    rewrite <- Hb. unfold zlen. rewrite !Nat2Z.id.
    rewrite take_app_length. do 3 f_equal.
    rewrite Z2Nat.inj_add, !Nat2Z.id by lia.
    rewrite <- drop_drop, drop_app_length, drop_app_length. done.
Qed.

Lemma rdn_app a bs c i n :
  zlen a = i -> zlen bs = n -> rdn (a ++ bs ++ c) i n = Some bs.
Proof. intros. apply rdn_Some. eauto. Qed.

Lemma wrn_app a b bs c i :
  zlen a = i -> zlen b = zlen bs -> wrn (a ++ b ++ c) i bs = Some (a ++ bs ++ c).
Proof. intros. apply wrn_Some. eauto 10. Qed.

Lemma rd_app a x c i : zlen a = i -> rd (a ++ x :: c) i = Some x.
Proof.
  intros. rewrite rd_rdn. change (a ++ x :: c) with (a ++ [x] ++ c).
  rewrite (rdn_app a [x] c i 1); done.
Qed.

Lemma rdn_is_Some m i n : 0 <= i -> 0 <= n -> i + n <= zlen m -> exists bs, rdn m i n = Some bs.
Proof.
  intros. unfold rdn. eexists. rewrite (proj2 (andb_true_iff _ _)); [done |].
  rewrite andb_true_iff, !Z.leb_le. lia.
Qed.

Lemma rdn_length m i n bs : rdn m i n = Some bs -> zlen bs = n.
Proof. rewrite rdn_Some. intros (? & ? & ? & ? & ?). done. Qed.

Lemma rdn_bounds m i n bs : rdn m i n = Some bs -> 0 <= i /\ 0 <= n /\ i + n <= zlen m.
Proof. rewrite rdn_Some. intros (a & c & -> & <- & <-). zl. Qed.

Lemma rdn_bytes m i n bs : bytes m -> rdn m i n = Some bs -> bytes bs.
Proof.
  unfold bytes. rewrite rdn_Some. intros Hm (a & c & -> & _). rewrite !Forall_app in Hm. tauto.
Qed.

Lemma wrn_is_Some m i bs : 0 <= i -> i + zlen bs <= zlen m -> exists m', wrn m i bs = Some m'.
Proof.
  intros. unfold wrn. eexists. rewrite (proj2 (andb_true_iff _ _)); [done |].
  rewrite !Z.leb_le. lia.
Qed.

Lemma wrn_length m i bs m' : wrn m i bs = Some m' -> zlen m' = zlen m.
Proof. rewrite wrn_Some. intros (a & b & c & -> & _ & E & ->). zl. Qed.

Lemma wrn_bytes m i bs m' : bytes m -> bytes bs -> wrn m i bs = Some m' -> bytes m'.
Proof.
  unfold bytes. rewrite wrn_Some. intros Hm Hb (a & b & c & -> & _ & _ & ->).
  rewrite !Forall_app in *. tauto.
Qed.

(** What was written is read back, and disjoint ranges are not touched. *)
Lemma rdn_wrn_eq m i bs m' : wrn m i bs = Some m' -> rdn m' i (zlen bs) = Some bs.
Proof.
  rewrite wrn_Some, rdn_Some. intros (a & b & c & -> & <- & E & ->). eauto.
Qed.

Lemma rdn_lookup m i n bs :
  rdn m i n = Some bs <->
  0 <= i /\ 0 <= n /\ i + n <= zlen m /\ zlen bs = n /\
  forall j, 0 <= j < n -> bs !! Z.to_nat j = m !! Z.to_nat (i + j).
Proof.
  split.
  - rewrite rdn_Some. intros (a & c & -> & <- & <-). split_and!; try zl. intros j Hj.
    unfold zlen in *. replace (Z.to_nat (Z.of_nat (length a) + j)) with (length a + Z.to_nat j)%nat by lia.
    rewrite lookup_app_r by lia. rewrite lookup_app_l by lia. f_equal. lia.
  - intros (Hi & Hn & Hm & Hl & Hj). destruct (rdn_is_Some m i n) as [bs' E]; [done.. |].
    rewrite E. f_equal. apply rdn_Some in E as (a & c & -> & <- & <-).
    apply list_eq_same_length with (length bs); [done | unfold zlen in *; lia |].
    intros k x y Hk Hx Hy. specialize (Hj (Z.of_nat k)).
    unfold zlen in *. rewrite Nat2Z.id in Hj.
    replace (Z.to_nat (Z.of_nat (length a) + Z.of_nat k)) with (length a + k)%nat in Hj by lia.
    rewrite lookup_app_r in Hj by lia. rewrite lookup_app_l in Hj by lia.
    replace (length a + k - length a)%nat with k in Hj by lia.
    rewrite Hx, Hy in Hj. specialize (Hj ltac:(lia)). congruence.
Qed.

Lemma wrn_lookup_ne m i bs m' j :
  wrn m i bs = Some m' -> 0 <= j -> (j < i \/ i + zlen bs <= j) ->
  m' !! Z.to_nat j = m !! Z.to_nat j.
Proof.
  rewrite wrn_Some. intros (a & b & c & -> & <- & E & ->) Hj [H | H]; unfold zlen in *.
  - rewrite !lookup_app_l by lia. done.
  - rewrite !(lookup_app_r a) by lia. rewrite !lookup_app_r by lia. f_equal. lia.
Qed.

Lemma rdn_wrn_ne m i bs m' j n :
  wrn m i bs = Some m' -> (j + n <= i \/ i + zlen bs <= j) -> rdn m' j n = rdn m j n.
Proof.
  intros Hw Hd. assert (forall m1 m2 x, zlen m1 = zlen m2 ->
    (forall k, 0 <= k < n -> 0 <= j -> m1 !! Z.to_nat (j + k) = m2 !! Z.to_nat (j + k)) ->
    rdn m1 j n = Some x -> rdn m2 j n = Some x) as Haux.
  { intros m1 m2 x Hl Hk. rewrite !rdn_lookup. intros (? & ? & ? & ? & Hx).
    split_and!; try lia. intros k Hk'. rewrite Hx by lia. apply Hk; lia. }
  pose proof (wrn_length _ _ _ _ Hw).
  apply option_eq. intros x. split; apply Haux; try lia; intros k Hk Hj;
    [| symmetry]; eapply wrn_lookup_ne; eauto; lia.
Qed.

(** A sub-range of a range that was read. *)
Lemma rdn_sub m i n bs j k :
  rdn m i n = Some bs -> 0 <= j -> 0 <= k -> j + k <= n -> rdn m (i + j) k = rdn bs j k.
Proof.
  intros H Hj Hk Hn. apply rdn_Some in H as (a & c & -> & <- & <-).
  destruct (rdn_is_Some bs j k) as [x E]; [done.. |]. rewrite E.
  apply rdn_Some in E as (a' & c' & -> & <- & <-). apply rdn_Some.
  exists (a ++ a'), (c' ++ c). rewrite <- !app_assoc. split_and!; [done | zl | done].
Qed.

Lemma zlen_split_prefix (l : list Z) n : 0 <= n <= zlen l -> exists a b, l = a ++ b /\ zlen a = n.
Proof.
  intros. exists (take (Z.to_nat n) l), (drop (Z.to_nat n) l).
  split; [now rewrite take_drop | now apply zlen_take].
Qed.

(** * Local views of a block *)

(** From offset [p] on, the block [lp] reads like [l]. *)
Definition view (lp : list Z) (p : Z) (l : list Z) : Prop :=
  forall k, 0 <= k < zlen l -> rd lp (p + k) = rd l k.

Lemma rd_app_r a b k : 0 <= k -> rd (a ++ b) (zlen a + k) = rd b k.
Proof.
  intros Hk. unfold rd, zlen. rewrite (proj2 (Z.leb_le 0 k)), (proj2 (Z.leb_le 0 _)) by lia.
  replace (Z.to_nat (Z.of_nat (length a) + k)) with (length a + Z.to_nat k)%nat by lia.
  rewrite lookup_app_r by lia. f_equal. lia.
Qed.

Lemma rd_app_l a b k : k < zlen a -> rd (a ++ b) k = rd a k.
Proof.
  intros Hk. unfold rd, zlen in *. destruct (Z.leb_spec 0 k); [| done]. apply lookup_app_l. lia.
Qed.

Lemma view_app a l b : view (a ++ l ++ b) (zlen a) l.
Proof. intros k Hk. rewrite rd_app_r by lia. apply rd_app_l. lia. Qed.

Lemma view_app_l lp p l k : view lp p (l ++ k) -> view lp p l.
Proof.
  intros H i Hi. rewrite H by (rewrite zlen_app; pose proof (zlen_nonneg k); lia).
  apply rd_app_l. lia.
Qed.

Lemma view_app_r lp p l k : view lp p (l ++ k) -> view lp (p + zlen l) k.
Proof.
  intros H i Hi. pose proof (zlen_nonneg l). rewrite <- Z.add_assoc, H by (rewrite zlen_app; lia).
  apply rd_app_r. lia.
Qed.

Lemma view_rd lp p l k b : view lp p l -> 0 <= k -> rd l k = Some b -> rd lp (p + k) = Some b.
Proof.
  intros H Hk E. rewrite H; [done |]. split; [done |]. unfold rd in E.
  rewrite (proj2 (Z.leb_le 0 k)) in E by done. apply lookup_lt_Some in E. unfold zlen. lia.
Qed.

Lemma view_hd lp p b l : view lp p (b :: l) -> rd lp p = Some b.
Proof. intros H. rewrite <- (Z.add_0_r p). eapply view_rd; [exact H | lia | done]. Qed.

Lemma view_tl lp p b l : view lp p (b :: l) -> view lp (p + 1) l.
Proof. intros H. apply (view_app_r lp p [b] l). exact H. Qed.

Lemma view_rdn lp p l : view lp p l -> 0 <= p -> p + zlen l <= zlen lp -> rdn lp p (zlen l) = Some l.
Proof.
  intros H Hp Hb. pose proof (zlen_nonneg l). apply rdn_lookup.
  refine (conj Hp (conj _ (conj Hb (conj eq_refl _)))); [lia |].
  intros j Hj. specialize (H j Hj). unfold rd in H.
  rewrite !(proj2 (Z.leb_le 0 _)) in H by lia. done.
Qed.

Ltac is_Zlit n := lazymatch n with Z0 => idtac | Zpos _ => idtac | Zneg _ => idtac end.

(** Bytes of a view one after the other. *)
Ltac view_reads H :=
  lazymatch type of H with
  | view ?lp ?p (?b :: ?l) =>
      let E := fresh "R" in pose proof (view_hd lp p b l H) as E;
      let H' := fresh "V" in pose proof (view_tl lp p b l H) as H';
      rewrite <- ?Z.add_assoc in H';
      try match type of H' with context [?m + 1] =>
        is_Zlit m; let r := eval compute in (m + 1) in change (m + 1) with r in H' end;
      view_reads H'
  | _ => idtac
  end.

(** * Little endian codecs *)

Fixpoint le_enc (n : nat) (z : Z) : list Z :=
  match n with
  | O => []
  | S n => z mod 256 :: le_enc n (z / 256)
  end.

Fixpoint le_dec (l : list Z) : Z :=
  match l with
  | [] => 0
  | b :: l => b + 256 * le_dec l
  end.

Lemma length_le_enc n z : length (le_enc n z) = n.
Proof. revert z. induction n; intros; simpl; auto. Qed.

Lemma zlen_le_enc n z : zlen (le_enc n z) = Z.of_nat n.
Proof. unfold zlen. now rewrite length_le_enc. Qed.
#[export] Hint Rewrite zlen_le_enc : zlen.

Lemma le_enc_bytes n z : bytes (le_enc n z).
Proof.
  revert z. induction n; intros; simpl; constructor; [| apply IHn].
  apply Z.mod_pos_bound. lia.
Qed.

Lemma pow256_S n : 256 ^ Z.of_nat (S n) = 256 * 256 ^ Z.of_nat n.
Proof. rewrite Nat2Z.inj_succ, Z.pow_succ_r by lia. done. Qed.

Lemma le_dec_enc n z : le_dec (le_enc n z) = z mod 256 ^ Z.of_nat n.
Proof.
  revert z. induction n; intros z; [simpl; now rewrite Z.mod_1_r |].
  cbn [le_enc le_dec]. rewrite IHn, pow256_S.
  rewrite Z.rem_mul_r by lia. done.
Qed.

Lemma le_dec_bound l : bytes l -> 0 <= le_dec l < 256 ^ zlen l.
Proof.
  induction 1 as [| b l Hb Hl IH]; [unfold zlen; simpl; lia |].
  change (zlen (b :: l)) with (Z.of_nat (S (length l))). rewrite pow256_S.
  cbn [le_dec]. unfold byte, zlen in *. lia.
Qed.

Lemma le_enc_dec l : bytes l -> le_enc (length l) (le_dec l) = l.
Proof.
  induction 1 as [| b l Hb Hl IH]; [done |].
  cbn [length le_enc le_dec]. unfold byte in Hb. f_equal.
  - rewrite Z.mul_comm, Z.mod_add, Z.mod_small; lia.
  - rewrite Z.mul_comm, Z.div_add, (Z.div_small b), Z.add_0_l by lia. done.
Qed.

Lemma le_enc_mod n z : le_enc n (z mod 256 ^ Z.of_nat n) = le_enc n z.
Proof.
  rewrite <- le_dec_enc. rewrite <- (length_le_enc n z) at 1.
  apply le_enc_dec, le_enc_bytes.
Qed.

Lemma le_dec_app l k : le_dec (l ++ k) = le_dec l + 256 ^ zlen l * le_dec k.
Proof.
  induction l as [| b l IH]; [unfold zlen; simpl; lia |].
  change (zlen (b :: l)) with (Z.of_nat (S (length l))).
  rewrite pow256_S. cbn [app le_dec]. rewrite IH. unfold zlen. lia.
Qed.

(** * Bit operations with constant masks and shifts as arithmetic *)

Lemma lor_add_shift a b n : 0 <= n -> 0 <= a < 2 ^ n -> Z.lor a (b * 2 ^ n) = a + b * 2 ^ n.
Proof.
  intros Hn Ha.
  assert (Z.land a (b * 2 ^ n) = 0) as E.
  { apply Z.bits_inj'. intros i Hi. rewrite Z.land_spec, Z.bits_0.
    destruct (Z.ltb_spec i n).
    - rewrite Z.mul_pow2_bits_low by lia. apply andb_false_r.
    - rewrite <- (Z.mod_small a (2 ^ n)) by lia. rewrite Z.mod_pow2_bits_high by lia. done. }
  rewrite <- Z.lxor_lor by done. symmetry. now apply Z.add_nocarry_lxor.
Qed.


(** Rewrite [Z.land _ mask], [Z.shiftr _ k] and [Z.shiftl _ k] with literal
    mask [2^k-1] and literal [k] into [mod], [/] and [*]. *)
Ltac bits_to_arith_step :=
  match goal with
  | |- context [Z.shiftr ?x ?n] =>
      is_Zlit n; rewrite (Z.shiftr_div_pow2 x n) by lia;
      let p := eval compute in (2 ^ n) in change (2 ^ n) with p
  | |- context [Z.shiftl ?x ?n] =>
      is_Zlit n; rewrite (Z.shiftl_mul_pow2 x n) by lia;
      let p := eval compute in (2 ^ n) in change (2 ^ n) with p
  | |- context [Z.land ?x ?m] =>
      is_Zlit m;
      let k := eval compute in (Z.log2 (m + 1)) in
      let p := eval compute in (2 ^ k) in
      let e := eval compute in (Z.eqb p (m + 1)) in
      lazymatch e with true =>
        replace (Z.land x m) with (x mod p) by (symmetry; exact (Z.land_ones x k ltac:(lia)))
      end
  end.
Ltac bits_to_arith := repeat bits_to_arith_step.

(** [boolp] turns boolean comparisons in the goal into case distinctions. *)
Ltac boolp :=
  repeat match goal with
  | |- context [Z.ltb ?a ?b] => destruct (Z.ltb_spec a b)
  | |- context [Z.leb ?a ?b] => destruct (Z.leb_spec a b)
  | |- context [Z.eqb ?a ?b] => destruct (Z.eqb_spec a b)
  end.

Ltac dm := Z.div_mod_to_equations; lia.

(** Case analysis on the boolean scrutinee of an [if] in the goal, keeping
    the arithmetic fact it decides. *)
Ltac case_if :=
  match goal with
  | |- context [if Z.ltb ?a ?b then _ else _] => destruct (Z.ltb_spec a b)
  | |- context [if Z.leb ?a ?b then _ else _] => destruct (Z.leb_spec a b)
  | |- context [if Z.eqb ?a ?b then _ else _] => destruct (Z.eqb_spec a b)
  | |- context [if ?c then _ else _] => let E := fresh "E" in destruct c eqn:E
  end.

(** [Forall] over a literal list. *)
Ltac forall_lit tac := repeat (apply Forall_cons_2; [tac |]); apply Forall_nil_2.

(** * Unspecified memory

    The content of memory a C program has allocated but not yet written is
    unspecified: definitions that allocate take it as an argument. *)
Definition fresh_bytes (junk : nat -> Z) (n : Z) : list Z :=
  map junk (seq 0 (Z.to_nat n)).

Definition zrealloc (junk : nat -> Z) (m : list Z) (n : Z) : list Z :=
  take (Z.to_nat n) m ++ fresh_bytes junk (n - zlen m).

Lemma zlen_fresh_bytes junk n : zlen (fresh_bytes junk n) = Z.max 0 n.
Proof. unfold zlen, fresh_bytes. rewrite length_map, length_seq. lia. Qed.

Lemma zlen_zrealloc junk m n : 0 <= n -> zlen (zrealloc junk m n) = n.
Proof.
  intros. unfold zrealloc. rewrite zlen_app, zlen_fresh_bytes.
  unfold zlen. rewrite length_take. lia.
Qed.

Lemma zrealloc_grow junk m n :
  zlen m <= n -> zrealloc junk m n = m ++ fresh_bytes junk (n - zlen m).
Proof. intros. unfold zrealloc. rewrite take_ge; [done | unfold zlen in *; lia]. Qed.

Lemma zrealloc_shrink junk m n :
  0 <= n <= zlen m -> zrealloc junk m n = take (Z.to_nat n) m.
Proof.
  intros. unfold zrealloc, fresh_bytes.
  replace (Z.to_nat (n - zlen m)) with O by lia. apply app_nil_r.
Qed.

Lemma rdn_prefix m k i n bs : rdn m i n = Some bs -> rdn (m ++ k) i n = Some bs.
Proof.
  rewrite !rdn_Some. intros (a & c & -> & ? & ?). exists a, (c ++ k).
  rewrite <- !app_assoc. done.
Qed.

Lemma rdn_take m k i n : 0 <= k <= zlen m -> i + n <= k -> rdn (take (Z.to_nat k) m) i n = rdn m i n.
Proof.
  intros Hk Hin. rewrite <- (take_drop (Z.to_nat k) m) at 2.
  destruct (rdn (take (Z.to_nat k) m) i n) as [bs |] eqn:E.
  - symmetry. now apply rdn_prefix.
  - revert E. unfold rdn. rewrite zlen_take by lia. rewrite take_drop.
    destruct (Z.leb_spec 0 i), (Z.leb_spec 0 n), (Z.leb_spec (i + n) k); simpl; try done; lia.
Qed.

Lemma rdn_zrealloc junk m n i k :
  0 <= n -> i + k <= n -> i + k <= zlen m -> rdn (zrealloc junk m n) i k = rdn m i k.
Proof.
  intros. destruct (Z.le_gt_cases (zlen m) n).
  - rewrite zrealloc_grow by lia. destruct (rdn m i k) eqn:E; [now apply rdn_prefix |].
    revert E. unfold rdn. rewrite zlen_app.
    pose proof (zlen_nonneg (fresh_bytes junk (n - zlen m))).
    destruct (Z.leb_spec 0 i), (Z.leb_spec 0 k), (Z.leb_spec (i + k) (zlen m)); simpl; try done; lia.
  - rewrite zrealloc_shrink by lia. apply rdn_take; lia.
Qed.

(** * State *)

(** Code that threads a state and can go wrong (an access outside a buffer, a
    failed assertion). *)
Definition st (S A : Type) : Type := S -> option (S * A).
Definition st_ret {S A} (a : A) : st S A := fun s => Some (s, a).
Definition st_bind {S A B} (m : st S A) (f : A -> st S B) : st S B :=
  fun s => match m s with Some (s', a) => f a s' | None => None end.
Definition st_lift {S A} (o : option A) : st S A :=
  fun s => match o with Some a => Some (s, a) | None => None end.

Notation "x <-- m ;; k" := (st_bind m (fun x => k)) (at level 100, m at next level, right associativity).

(** * Counting loops *)

(** [for (i = a; ...; i++)] with [n] iterations. *)
Fixpoint for_ {S} (n : nat) (i : Z) (f : Z -> S -> option S) (s : S) : option S :=
  match n with
  | O => Some s
  | Datatypes.S n => s ← f i s; for_ n (i + 1) f s
  end.

(** The rule of the loop: an invariant that each iteration keeps. *)
Lemma for_inv {S} (P : Z -> S -> Prop) f n : forall i s, P i s ->
  (forall j s, i <= j < i + Z.of_nat n -> P j s -> exists s', f j s = Some s' /\ P (j + 1) s') ->
  exists s', for_ n i f s = Some s' /\ P (i + Z.of_nat n) s'.
Proof.
  induction n as [| n IH]; intros i s Hs Hf; cbn [for_].
  - exists s. split; [done |]. by rewrite Z.add_0_r.
  - destruct (Hf i s) as (s1 & E & H1); [lia | done |]. rewrite E. cbn [mbind option_bind].
    replace (i + Z.of_nat (Datatypes.S n)) with (i + 1 + Z.of_nat n) by lia.
    apply IH; [done |]. intros j s' Hj. apply Hf. lia.
Qed.

(** [while (go s) s = body s], with [fuel] an upper bound of the turns. *)
Fixpoint while_ {S} (fuel : nat) (go : S -> bool) (body : S -> option S) (s : S) : option S :=
  if go s then
    match fuel with
    | O => None
    | Datatypes.S fuel => s ← body s; while_ fuel go body s
    end
  else Some s.

(** The rule of the loop: an invariant and a measure that decreases; the fuel
    is enough when it is at least the measure. *)
Lemma while_inv {S} (P : S -> Prop) (left : S -> nat) go body :
  (forall s, P s -> go s = true -> exists s', body s = Some s' /\ P s' /\ (left s' < left s)%nat) ->
  forall fuel s, P s -> (left s <= fuel)%nat ->
  exists s', while_ fuel go body s = Some s' /\ P s' /\ go s' = false.
Proof.
  intros Hstep. induction fuel as [| fuel IH]; intros s Hs Hf; cbn [while_]; destruct (go s) eqn:Eg.
  - destruct (Hstep s Hs Eg) as (s' & _ & _ & Hl). lia.
  - by exists s.
  - destruct (Hstep s Hs Eg) as (s' & E & Hs' & Hl). rewrite E. cbn [mbind option_bind]. apply IH; [done | lia].
  - by exists s.
Qed.

(** * Parts of lists *)

(** The elements of [l] from position [lo] up to [hi]. *)
Definition slice {A} (lo hi : Z) (l : list A) : list A := take (Z.to_nat (hi - lo)) (drop (Z.to_nat lo) l).

Lemma slice_all {A} (l : list A) : slice 0 (zlen l) l = l.
Proof. unfold slice. rewrite drop_0, take_ge; [done | unfold zlen; lia]. Qed.

Lemma slice_empty {A} lo hi (l : list A) : hi <= lo -> slice lo hi l = [].
Proof. intros. unfold slice. by replace (Z.to_nat (hi - lo)) with 0%nat by lia. Qed.

Lemma zlen_slice {A} lo hi (l : list A) : 0 <= lo <= hi -> hi <= zlen l -> zlen (slice lo hi l) = hi - lo.
Proof. intros. unfold slice, zlen in *. rewrite length_take, length_drop. lia. Qed.

Lemma slice_split {A} lo mid hi (l : list A) : 0 <= lo <= mid -> mid <= hi -> slice lo hi l = slice lo mid l ++ slice mid hi l.
Proof.
  intros H1 H2. unfold slice. replace (Z.to_nat (hi - lo)) with (Z.to_nat (mid - lo) + Z.to_nat (hi - mid))%nat by lia.
  replace (Z.to_nat mid) with (Z.to_nat lo + Z.to_nat (mid - lo))%nat by lia.
  rewrite <- drop_drop. generalize (drop (Z.to_nat lo) l). intros k. by rewrite take_take_drop.
Qed.

(** * Filters *)

Lemma filter_all {T} (P : T -> Prop) `{forall x, Decision (P x)} l : Forall P l -> filter P l = l.
Proof. induction 1 as [| x l Hx _ IH]; [done |]. by rewrite filter_cons_True, IH. Qed.
Lemma filter_none {T} (P : T -> Prop) `{forall x, Decision (P x)} l : Forall (fun x => ~ P x) l -> filter P l = [].
Proof. induction 1 as [| x l Hx _ IH]; [done |]. by rewrite filter_cons_False. Qed.
(** Induction two elements at a time. *)
Lemma pairs_ind {A} (P : list A -> Prop) : P [] -> (forall x, P [x]) -> (forall x y l, P l -> P (x :: y :: l)) -> forall l, P l.
Proof.
  intros H0 H1 H2 l. assert (P l /\ forall x, P (x :: l)) as [? _]; [| done]. induction l as [| x l [IH IHx]]; [by split |].
  split; [apply IHx |]. intros y. by apply H2.
Qed.

Lemma filter_map {S T} (f : S -> T) (P : T -> Prop) `{forall x, Decision (P x)} l : filter P (map f l) = map f (filter (fun x => P (f x)) l).
Proof. induction l as [| x l IH]; [done |]. cbn [map]. rewrite !filter_cons. case_decide; cbn [map]; by rewrite IH. Qed.
Lemma count_split {T} (P : T -> Prop) `{forall x, Decision (P x)} k l :
  length (filter P l) = (length (filter P (take k l)) + length (filter P (drop k l)))%nat.
Proof. by rewrite <- length_app, <- filter_app, take_drop. Qed.

Lemma Forall_take_lookup {T} (P : T -> Prop) k l : (forall i x, (i < k)%nat -> l !! i = Some x -> P x) -> Forall P (take k l).
Proof. intros H. apply Forall_lookup_2. intros i x [Hx Hi]%lookup_take_Some. by apply (H i). Qed.
Lemma Forall_drop_lookup {T} (P : T -> Prop) k l : (forall i x, (k <= i)%nat -> l !! i = Some x -> P x) -> Forall P (drop k l).
Proof. intros H. apply Forall_lookup_2. intros i x Hx. rewrite lookup_drop in Hx. apply (H (k + i)%nat); [lia | done]. Qed.
