(* ===== verification/Endian.v ===== *)
(** endianconv.c / endianconv.h: byte-order conversion.

    A host is described by its byte order ([Host]).  An integer variable of
    [n] bytes is stored in memory as [native_enc n v]; the [memrev] functions
    swap the bytes of a memory block in place, the [intrev] functions convert
    a value by doing so on the variable that holds it, and the [ifbe] macros
    do it only on a big endian host. *)
From S2P Require Import Prelude.

(** [BYTE_ORDER == BIG_ENDIAN] of config.h. *)
Class Host := big_endian : bool.

(** Bytes of an [n]-byte integer variable in the memory of the host. *)
Definition native_enc `{Host} (n : nat) (v : Z) : list Z :=
  if big_endian then rev (le_enc n v) else le_enc n v.
Definition native_dec `{Host} (l : list Z) : Z :=
  if big_endian then le_dec (rev l) else le_dec l.

(** [t = x[i]; x[i] = x[j]; x[j] = t;] *)
Definition swap_bytes (i j : nat) (x : list Z) : list Z :=
  let t := x !!! i in
  let x := <[i := x !!! j]> x in
  <[j := t]> x.

Definition memrev16 (x : list Z) : list Z := swap_bytes 0 1 x.
Definition memrev32 (x : list Z) : list Z := swap_bytes 1 2 (swap_bytes 0 3 x).
Definition memrev64 (x : list Z) : list Z :=
  swap_bytes 3 4 (swap_bytes 2 5 (swap_bytes 1 6 (swap_bytes 0 7 x))).

Section host.
Context `{Host}.

Definition intrev16 (v : Z) : Z := native_dec (memrev16 (native_enc 2 v)).
Definition intrev32 (v : Z) : Z := native_dec (memrev32 (native_enc 4 v)).
Definition intrev64 (v : Z) : Z := native_dec (memrev64 (native_enc 8 v)).

Definition memrev16ifbe (p : list Z) : list Z := if big_endian then memrev16 p else p.
Definition memrev32ifbe (p : list Z) : list Z := if big_endian then memrev32 p else p.
Definition memrev64ifbe (p : list Z) : list Z := if big_endian then memrev64 p else p.
Definition intrev16ifbe (v : Z) : Z := if big_endian then intrev16 v else v.
Definition intrev32ifbe (v : Z) : Z := if big_endian then intrev32 v else v.
Definition intrev64ifbe (v : Z) : Z := if big_endian then intrev64 v else v.

(** Conversion to and from network byte order. *)
Definition htonu64 (v : Z) : Z := if big_endian then v else intrev64 v.
Definition ntohu64 (v : Z) : Z := if big_endian then v else intrev64 v.
End host.

(** * Lemmas *)

Lemma memrev16_rev x : length x = 2%nat -> memrev16 x = rev x.
Proof. intros E. do 2 (destruct x as [| ? x]; [simpl in E; lia |]). now destruct x. Qed.
Lemma memrev32_rev x : length x = 4%nat -> memrev32 x = rev x.
Proof. intros E. do 4 (destruct x as [| ? x]; [simpl in E; lia |]). now destruct x. Qed.
Lemma memrev64_rev x : length x = 8%nat -> memrev64 x = rev x.
Proof. intros E. do 8 (destruct x as [| ? x]; [simpl in E; lia |]). now destruct x. Qed.

Lemma length_native_enc `{Host} n v : length (native_enc n v) = n.
Proof. unfold native_enc. destruct big_endian; rewrite ?length_rev; apply length_le_enc. Qed.

Lemma native_enc_bytes `{Host} n v : bytes (native_enc n v).
Proof.
  unfold native_enc. pose proof (le_enc_bytes n v) as Hb.
  destruct big_endian; [apply Forall_rev |]; exact Hb.
Qed.

Lemma native_dec_enc `{Host} n v : native_dec (native_enc n v) = v mod 256 ^ Z.of_nat n.
Proof.
  unfold native_dec, native_enc. destruct big_endian; rewrite ?rev_involutive; apply le_dec_enc.
Qed.

Lemma native_enc_dec `{Host} l : bytes l -> native_enc (length l) (native_dec l) = l.
Proof.
  intros Hl. unfold native_dec, native_enc. destruct big_endian; [| now apply le_enc_dec].
  rewrite <- (length_rev l), le_enc_dec, rev_involutive; [done | now apply Forall_rev].
Qed.

(** The value of an [n]-byte word with its bytes reversed. *)
Definition byteswap (n : nat) (v : Z) : Z := le_dec (rev (le_enc n v)).

Lemma le_enc_byteswap n v : le_enc n (byteswap n v) = rev (le_enc n v).
Proof.
  unfold byteswap. rewrite <- (length_le_enc n v) at 1. rewrite <- length_rev.
  apply le_enc_dec, Forall_rev, le_enc_bytes.
Qed.

Lemma byteswap_bound n v : 0 <= byteswap n v < 256 ^ Z.of_nat n.
Proof.
  unfold byteswap. pose proof (le_dec_bound (rev (le_enc n v))) as Hb.
  unfold zlen in Hb. rewrite length_rev, length_le_enc in Hb.
  apply Hb, Forall_rev, le_enc_bytes.
Qed.

Lemma byteswap_involutive n v : byteswap n (byteswap n v) = v mod 256 ^ Z.of_nat n.
Proof.
  unfold byteswap at 1. rewrite le_enc_byteswap, rev_involutive. apply le_dec_enc.
Qed.

Lemma native_rev `{Host} n v : native_dec (rev (native_enc n v)) = byteswap n v.
Proof.
  unfold native_dec, native_enc, byteswap. destruct big_endian; [now rewrite rev_involutive |done].
Qed.

Lemma intrev16_byteswap `{Host} v : intrev16 v = byteswap 2 v.
Proof. unfold intrev16. rewrite memrev16_rev by apply length_native_enc. apply native_rev. Qed.
Lemma intrev32_byteswap `{Host} v : intrev32 v = byteswap 4 v.
Proof. unfold intrev32. rewrite memrev32_rev by apply length_native_enc. apply native_rev. Qed.
Lemma intrev64_byteswap `{Host} v : intrev64 v = byteswap 8 v.
Proof. unfold intrev64. rewrite memrev64_rev by apply length_native_enc. apply native_rev. Qed.

Create Rewrite HintDb endian.
#[export] Hint Rewrite @intrev16_byteswap @intrev32_byteswap @intrev64_byteswap : endian.

Lemma intrev32ifbe_involutive `{Host} v : 0 <= v < 4294967296 -> intrev32ifbe (intrev32ifbe v) = v.
Proof.
  intros Hv. unfold intrev32ifbe. destruct big_endian; [| done].
  autorewrite with endian. rewrite byteswap_involutive. apply Z.mod_small. exact Hv.
Qed.

Lemma intrev32ifbe_bound `{Host} v : 0 <= v < 4294967296 -> 0 <= intrev32ifbe v < 4294967296.
Proof.
  intros Hv. unfold intrev32ifbe. destruct big_endian; [| done].
  autorewrite with endian. apply (byteswap_bound 4).
Qed.

(** After the [ifbe] macro a variable loaded from memory holds the value
    whose little endian representation those bytes are, whatever the host. *)
Lemma load_le `{Host} n (f : list Z -> list Z) l :
  (forall x, length x = n -> f x = rev x) -> length l = n ->
  native_dec (if big_endian then f l else l) = le_dec l.
Proof.
  intros Hf Hl. unfold native_dec. destruct big_endian; [| done].
  now rewrite Hf, rev_involutive.
Qed.

Lemma store_le `{Host} n (f : list Z -> list Z) v :
  (forall x, length x = n -> f x = rev x) ->
  (if big_endian then f (native_enc n v) else native_enc n v) = le_enc n v.
Proof.
  intros Hf. rewrite Hf by apply length_native_enc.
  unfold native_enc. destruct big_endian; [apply rev_involutive | done].
Qed.

(** Byte-order conversion is host independent.  On every host a 64 bit
    variable passed through [memrev64ifbe] is laid out in memory in little
    endian order, one passed through [htonu64] in network (big endian) order,
    [ntohu64] undoes [htonu64], and [intrev64], [intrev32] and [intrev16] are
    their own inverses on values of their width. *)
Theorem endian_conversions `{Host} v :
  is_u64 v ->
  memrev64ifbe (native_enc 8 v) = le_enc 8 v /\
  native_enc 8 (htonu64 v) = rev (le_enc 8 v) /\
  ntohu64 (htonu64 v) = v /\
  intrev64 (intrev64 v) = v /\
  intrev32 (intrev32 (u32 v)) = u32 v /\
  intrev16 (intrev16 (u16 v)) = u16 v.
Proof.
  intros Hv. unfold is_u64, u32, u16 in *. unfold memrev64ifbe, ntohu64, htonu64, native_enc.
  split_and!; autorewrite with endian; rewrite ?byteswap_involutive.
  - apply store_le, memrev64_rev.
  - destruct big_endian; [done |]. autorewrite with endian. apply le_enc_byteswap.
  - destruct big_endian; [done |]. autorewrite with endian.
    rewrite byteswap_involutive. apply Z.mod_small. simpl. lia.
  - apply Z.mod_small. simpl. lia.
  - apply Z.mod_mod. lia.
  - apply Z.mod_mod. lia.
Qed.

Lemma endian_conversions_witness :
  let h : Host := false in
  is_u64 1311768467463790320 /\
  native_enc 8 (htonu64 1311768467463790320) = rev (le_enc 8 1311768467463790320).
Proof.
  intros h. split; [unfold is_u64; lia |].
  apply (endian_conversions (H := h) 1311768467463790320). unfold is_u64. lia.
Defined.
