(* ===== verification/Intset.v ===== *)
(** intset.c: sorted sets of integers stored as a packed array.

    The blob keeps an element width ([encoding]), a count ([length]) and the
    elements, little endian, in [contents].  [encoding] and [length] are the
    raw header fields (in the byte order the macros of endianconv.h give
    them).  The reallocated blob is a new [contents] list whose added bytes
    are unspecified ([junk]).  Every access to [contents] is checked: an
    operation that would touch memory outside the blob has result [None]. *)
From stdpp Require Import gmap.
From S2P Require Import Prelude Endian.

Record intset := mk_intset { encoding : Z; length_ : Z; contents : list Z }.

Definition INTSET_ENC_INT16 : Z := 2.
Definition INTSET_ENC_INT32 : Z := 4.
Definition INTSET_ENC_INT64 : Z := 8.

(** [sizeof(intset)]: the two header words. *)
Definition sizeof_intset : Z := 8.

Section intset.
Context `{Host} (junk : nat -> Z).

Definition set_encoding (iset : intset) (e : Z) : intset := mk_intset e (length_ iset) (contents iset).
Definition set_length (iset : intset) (n : Z) : intset := mk_intset (encoding iset) n (contents iset).
Definition set_contents (iset : intset) (c : list Z) : intset := mk_intset (encoding iset) (length_ iset) c.

Definition _intsetValueEncoding (v : Z) : Z :=
  if (v <? -2147483648) || (2147483647 <? v) then INTSET_ENC_INT64
  else if (v <? -32768) || (32767 <? v) then INTSET_ENC_INT32
  else INTSET_ENC_INT16.

Definition _intsetGetEncoded (iset : intset) (pos enc : Z) : option Z :=
  if enc =? INTSET_ENC_INT64 then
    v64 ← rdn (contents iset) (pos * 8) 8;
    Some (i64 (native_dec (memrev64ifbe v64)))
  else if enc =? INTSET_ENC_INT32 then
    v32 ← rdn (contents iset) (pos * 4) 4;
    Some (i32 (native_dec (memrev32ifbe v32)))
  else
    v16 ← rdn (contents iset) (pos * 2) 2;
    Some (i16 (native_dec (memrev16ifbe v16))).

Definition _intsetGet (iset : intset) (pos : Z) : option Z :=
  _intsetGetEncoded iset pos (intrev32ifbe (encoding iset)).

Definition _intsetSet (iset : intset) (pos value : Z) : option intset :=
  let encoding := intrev32ifbe (encoding iset) in
  if encoding =? INTSET_ENC_INT64 then
    c ← wrn (contents iset) (pos * 8) (memrev64ifbe (native_enc 8 value));
    Some (set_contents iset c)
  else if encoding =? INTSET_ENC_INT32 then
    c ← wrn (contents iset) (pos * 4) (memrev32ifbe (native_enc 4 value));
    Some (set_contents iset c)
  else
    c ← wrn (contents iset) (pos * 2) (memrev16ifbe (native_enc 2 value));
    Some (set_contents iset c).

Definition intsetNew : intset := mk_intset (intrev32ifbe INTSET_ENC_INT16) 0 [].

Definition intsetResize (iset : intset) (len : Z) : option intset :=
  let size := u64 (u32 len * intrev32ifbe (encoding iset)) in
  _ ← assert_ (size <=? ULLONG_MAX - sizeof_intset);
  Some (set_contents iset (zrealloc junk (contents iset) size)).

(** The binary search loop, [fuel] bounding its iterations: the final
    [min], [mid] and [cur]. *)
Fixpoint intsetSearch_loop (fuel : nat) (iset : intset) (value min max mid cur : Z)
    : option (Z * Z * Z) :=
  match fuel with
  | O => None
  | S fuel =>
      if min <=? max then
        let mid := Z.shiftr (u32 (u32 min + u32 max)) 1 in
        cur ← _intsetGet iset mid;
        if cur <? value then intsetSearch_loop fuel iset value (mid + 1) max mid cur
        else if value <? cur then intsetSearch_loop fuel iset value min (mid - 1) mid cur
        else Some (min, mid, cur)
      else Some (min, mid, cur)
  end.

(** Result: the returned flag and [*pos]. *)
Definition intsetSearch (iset : intset) (value : Z) : option (bool * Z) :=
  let len := intrev32ifbe (length_ iset) in
  let max := i32 (len - 1) in
  if len =? 0 then Some (false, 0)
  else
    vmax ← _intsetGet iset max;
    if vmax <? value then Some (false, len)
    else
      v0 ← _intsetGet iset 0;
      if value <? v0 then Some (false, 0)
      else
        '(min, mid, cur) ← intsetSearch_loop (S (Z.to_nat len)) iset value 0 max (-1) (-1);
        if value =? cur then Some (true, mid) else Some (false, min).

(** [while(length--)] of the upgrade. *)
Fixpoint intsetUpgrade_loop (n : nat) (iset : intset) (curenc prepend : Z) : option intset :=
  match n with
  | O => Some iset
  | S n =>
      v ← _intsetGetEncoded iset (Z.of_nat n) curenc;
      iset ← _intsetSet iset (Z.of_nat n + prepend) v;
      intsetUpgrade_loop n iset curenc prepend
  end.

Definition intsetUpgradeAndAdd (iset : intset) (value : Z) : option intset :=
  let curenc := u8 (intrev32ifbe (encoding iset)) in
  let newenc := _intsetValueEncoding value in
  let length := i32 (intrev32ifbe (length_ iset)) in
  let prepend := if value <? 0 then 1 else 0 in
  let iset := set_encoding iset (intrev32ifbe newenc) in
  iset ← intsetResize iset (intrev32ifbe (length_ iset) + 1);
  iset ← intsetUpgrade_loop (Z.to_nat length) iset curenc prepend;
  iset ← (if prepend =? 1 then _intsetSet iset 0 value
        else _intsetSet iset (i32 (intrev32ifbe (length_ iset))) value);
  Some (set_length iset (intrev32ifbe (u32 (intrev32ifbe (length_ iset) + 1)))).

Definition intsetMoveTail (iset : intset) (from to : Z) : option intset :=
  let bytes := u32 (intrev32ifbe (length_ iset) - from) in
  let encoding := intrev32ifbe (encoding iset) in
  let size := if encoding =? INTSET_ENC_INT64 then 8
              else if encoding =? INTSET_ENC_INT32 then 4 else 2 in
  c ← memmove (contents iset) (to * size) (from * size) (u32 (bytes * size));
  Some (set_contents iset c).

(** Result: the set and [*success]. *)
Definition intsetAdd (iset : intset) (value : Z) : option (intset * bool) :=
  let valenc := _intsetValueEncoding value in
  if intrev32ifbe (encoding iset) <? valenc then
    iset ← intsetUpgradeAndAdd iset value; Some (iset, true)
  else
    '(found, pos) ← intsetSearch iset value;
    if (found : bool) then Some (iset, false)
    else
      iset ← intsetResize iset (intrev32ifbe (length_ iset) + 1);
      iset ← (if pos <? intrev32ifbe (length_ iset)
            then intsetMoveTail iset pos (u32 (pos + 1)) else Some iset);
      iset ← _intsetSet iset (i32 pos) value;
      Some (set_length iset (intrev32ifbe (u32 (intrev32ifbe (length_ iset) + 1))), true).

Definition intsetRemove (iset : intset) (value : Z) : option (intset * bool) :=
  let valenc := _intsetValueEncoding value in
  if valenc <=? intrev32ifbe (encoding iset) then
    '(found, pos) ← intsetSearch iset value;
    if (found : bool) then
      let len := intrev32ifbe (length_ iset) in
      iset ← (if pos <? u32 (len - 1) then intsetMoveTail iset (u32 (pos + 1)) pos else Some iset);
      iset ← intsetResize iset (len - 1);
      Some (set_length iset (intrev32ifbe (u32 (len - 1))), true)
    else Some (iset, false)
  else Some (iset, false).

Definition intsetFind (iset : intset) (value : Z) : option bool :=
  let valenc := _intsetValueEncoding value in
  if valenc <=? intrev32ifbe (encoding iset) then
    '(found, _) ← intsetSearch iset value; Some found
  else Some false.

(** [rnd] is the value [rand()] returns. *)
Definition intsetRandom (rnd : Z) (iset : intset) : option Z :=
  let len := intrev32ifbe (length_ iset) in
  _ ← assert_ (negb (len =? 0));
  _intsetGet iset (i32 (rnd mod len)).

Definition intsetMax (iset : intset) : option Z :=
  let len := intrev32ifbe (length_ iset) in _intsetGet iset (i32 (len - 1)).

Definition intsetMin (iset : intset) : option Z := _intsetGet iset 0.

(** [None] inside: the function returned 0. *)
Definition intsetGet (iset : intset) (pos : Z) : option (option Z) :=
  if pos <? intrev32ifbe (length_ iset) then v ← _intsetGet iset (i32 pos); Some (Some v)
  else Some None.

Definition intsetLen (iset : intset) : Z := intrev32ifbe (length_ iset).

Definition intsetBlobLen (iset : intset) : Z :=
  u64 (sizeof_intset + intrev32ifbe (length_ iset) * intrev32ifbe (encoding iset)).

Fixpoint intsetValidate_loop (n : nat) (iset : intset) (i count prev : Z) : option bool :=
  match n with
  | O => Some true
  | S n =>
      if i <? count then
        cur ← _intsetGet iset (i32 i);
        if cur <=? prev then Some false else intsetValidate_loop n iset (i + 1) count cur
      else Some true
  end.

(** [p] is the blob being validated, of [size] bytes. *)
Definition intsetValidateIntegrity (p : list Z) (size : Z) (deep : bool) : option bool :=
  if size <? sizeof_intset then Some false
  else
    hdr_enc ← rdn p 0 4;
    hdr_len ← rdn p 4 4;
    let iset := mk_intset (native_dec hdr_enc) (native_dec hdr_len) (drop 8 p) in
    let encoding := intrev32ifbe (encoding iset) in
    if negb ((encoding =? INTSET_ENC_INT64) || (encoding =? INTSET_ENC_INT32)
             || (encoding =? INTSET_ENC_INT16)) then Some false
    else
      let record_size := encoding in
      let count := intrev32ifbe (length_ iset) in
      if negb (sizeof_intset + count * record_size =? size) then Some false
      else if count =? 0 then Some false
      else if negb deep then Some true
      else
        prev ← _intsetGet iset 0;
        intsetValidate_loop (Z.to_nat count) iset 1 count prev.
End intset.

(** * Cells: a buffer as an array of [e]-byte elements *)

Definition cell (c : list Z) (e i : Z) : option (list Z) := rdn c (i * e) e.

Section cells.
Context (e : Z) (He : 0 < e).

Lemma cell_wr_eq c i bs c' : zlen bs = e -> wrn c (i * e) bs = Some c' -> cell c' e i = Some bs.
Proof. intros <-. apply rdn_wrn_eq. Qed.

Lemma cell_wr_ne c i j bs c' :
  zlen bs = e -> wrn c (i * e) bs = Some c' -> i <> j -> cell c' e j = cell c e j.
Proof. intros Hl Hw Hij. eapply rdn_wrn_ne; [done |]. rewrite Hl. nia. Qed.

Lemma cell_wr_ok c i bs :
  zlen bs = e -> 0 <= i -> (i + 1) * e <= zlen c -> exists c', wrn c (i * e) bs = Some c'.
Proof. intros. apply wrn_is_Some; nia. Qed.

Lemma cell_realloc junk c n i :
  0 <= n -> i < n -> (i + 1) * e <= zlen c -> cell (zrealloc junk c (n * e)) e i = cell c e i.
Proof. intros. unfold cell. apply rdn_zrealloc; nia. Qed.

Lemma cell_memmove_ok c to from n :
  0 <= to -> 0 <= from -> 0 <= n -> (from + n) * e <= zlen c -> (to + n) * e <= zlen c ->
  exists c', memmove c (to * e) (from * e) (n * e) = Some c' /\ zlen c' = zlen c.
Proof.
  intros. unfold memmove. destruct (rdn_is_Some c (from * e) (n * e)) as [b E]; [nia.. |].
  rewrite E. simpl. pose proof (rdn_length _ _ _ _ E).
  destruct (wrn_is_Some c (to * e) b) as [c' E']; [nia | nia |].
  exists c'. split; [done |]. eapply wrn_length; eauto.
Qed.

Lemma cell_memmove_in c to from n c' k :
  memmove c (to * e) (from * e) (n * e) = Some c' -> 0 <= k < n ->
  cell c' e (to + k) = cell c e (from + k).
Proof.
  unfold memmove. intros H Hk. apply bind_Some in H as (b & E & W).
  pose proof (rdn_length _ _ _ _ E) as L. pose proof (rdn_wrn_eq _ _ _ _ W) as R.
  unfold cell.
  replace ((to + k) * e) with (to * e + k * e) by lia.
  replace ((from + k) * e) with (from * e + k * e) by lia.
  rewrite (rdn_sub _ _ _ _ _ _ R), (rdn_sub _ _ _ _ _ _ E); [done | nia..].
Qed.

Lemma cell_memmove_out c to from n c' i :
  memmove c (to * e) (from * e) (n * e) = Some c' -> 0 <= n -> (i < to \/ to + n <= i) ->
  cell c' e i = cell c e i.
Proof.
  unfold memmove. intros H Hn Hi. apply bind_Some in H as (b & E & W).
  pose proof (rdn_length _ _ _ _ E) as L. eapply rdn_wrn_ne; [done |]. rewrite L. nia.
Qed.
End cells.

(** * The representation invariant *)

Definition enc_ok (e : Z) : Prop := e = 2 \/ e = 4 \/ e = 8.
Definition fits (e x : Z) : Prop := - 2 ^ (8 * e - 1) <= x < 2 ^ (8 * e - 1).

Definition increasing (s : list Z) : Prop :=
  forall i j x y, (i < j)%nat -> s !! i = Some x -> s !! j = Some y -> x < y.

(** [intset_rep iset s]: the blob holds exactly the elements of [s], in
    increasing order, in a width every element fits. *)
Record intset_rep `{Host} (iset : intset) (s : list Z) : Prop := {
  rep_enc : enc_ok (intrev32ifbe (encoding iset));
  rep_len : intrev32ifbe (length_ iset) = zlen s;
  rep_size : zlen (contents iset) = zlen s * intrev32ifbe (encoding iset);
  rep_cell i x : s !! i = Some x ->
    cell (contents iset) (intrev32ifbe (encoding iset)) (Z.of_nat i)
    = Some (le_enc (Z.to_nat (intrev32ifbe (encoding iset))) x);
  rep_fits : Forall (fits (intrev32ifbe (encoding iset))) s;
  rep_sorted : increasing s;
}.

Lemma increasing_app s1 s2 :
  increasing (s1 ++ s2) <->
  increasing s1 /\ increasing s2 /\ forall x y, x ∈ s1 -> y ∈ s2 -> x < y.
Proof.
  unfold increasing. split.
  - intros H. split_and!.
    + intros i j x y Hij Hx Hy. eapply (H i j); eauto using lookup_app_l_Some.
    + intros i j x y Hij Hx Hy. apply (H (length s1 + i)%nat (length s1 + j)%nat); [lia | |];
        rewrite lookup_app_r by lia; rewrite Nat.add_comm, Nat.add_sub; done.
    + intros x y [i Hx]%list_elem_of_lookup [j Hy]%list_elem_of_lookup.
      pose proof (lookup_lt_Some _ _ _ Hx).
      apply (H i (length s1 + j)%nat); [lia | eauto using lookup_app_l_Some |].
      rewrite lookup_app_r by lia. rewrite Nat.add_comm, Nat.add_sub. done.
  - intros (H1 & H2 & H3) i j x y Hij [Hx | [Hi Hx]]%lookup_app_Some [Hy | [Hj Hy]]%lookup_app_Some.
    + eauto.
    + apply H3; eapply list_elem_of_lookup_2; eauto.
    + apply lookup_lt_Some in Hy. lia.
    + eapply (H2 (i - length s1)%nat (j - length s1)%nat); eauto. lia.
Qed.

Lemma increasing_cons x s : increasing (x :: s) <-> increasing s /\ forall y, y ∈ s -> x < y.
Proof.
  change (x :: s) with ([x] ++ s). rewrite increasing_app. split.
  - intros (_ & ? & Hx). split; [done |]. intros. apply Hx; set_solver.
  - intros [? Hx]. split_and!; [| done |].
    + intros [| i] [| j] a b Hij Ha Hb; simplify_eq/=; lia.
    + intros a b ->%list_elem_of_singleton. apply Hx.
Qed.

(** Two increasing lists with the same members are equal. *)
Lemma increasing_ext s1 s2 :
  increasing s1 -> increasing s2 -> (forall x, x ∈ s1 <-> x ∈ s2) -> s1 = s2.
Proof.
  revert s2. induction s1 as [| a s1 IH]; intros [| b s2]; intros H1 H2 Hm.
  - done.
  - exfalso. apply (not_elem_of_nil b), Hm. left.
  - exfalso. apply (not_elem_of_nil a), Hm. left.
  - rewrite increasing_cons in H1, H2. destruct H1 as [H1 Ha], H2 as [H2 Hb].
    assert (a = b) as ->.
    { pose proof (proj1 (Hm a) (list_elem_of_here _ _)) as Ea.
      pose proof (proj2 (Hm b) (list_elem_of_here _ _)) as Eb.
      rewrite elem_of_cons in Ea, Eb. destruct Ea as [| Ea]; [done |]. destruct Eb as [| Eb]; [done |].
      specialize (Ha _ Eb). specialize (Hb _ Ea). lia. }
    f_equal. apply IH; [done.. |]. intros x. specialize (Hm x).
    rewrite !elem_of_cons in Hm. split; intros Hx; [pose proof (Ha _ Hx) | pose proof (Hb _ Hx)];
      destruct Hm as [M1 M2]; [destruct (M1 (or_intror Hx)) | destruct (M2 (or_intror Hx))]; try done; lia.
Qed.

(** * Element access *)

Section access.
Context `{Host}.

Lemma i64_dec_enc x : fits 8 x -> i64 (le_dec (le_enc 8 x)) = x.
Proof. intros Hf. rewrite le_dec_enc. unfold fits in Hf. simpl in *. unfold i64. dm. Qed.
Lemma i32_dec_enc x : fits 4 x -> i32 (le_dec (le_enc 4 x)) = x.
Proof. intros Hf. rewrite le_dec_enc. unfold fits in Hf. simpl in *. unfold i32. dm. Qed.
Lemma i16_dec_enc x : fits 2 x -> i16 (le_dec (le_enc 2 x)) = x.
Proof. intros Hf. rewrite le_dec_enc. unfold fits in Hf. simpl in *. unfold i16. dm. Qed.

Lemma getEncoded_spec iset pos e x :
  enc_ok e -> fits e x -> cell (contents iset) e pos = Some (le_enc (Z.to_nat e) x) ->
  _intsetGetEncoded iset pos e = Some x.
Proof.
  unfold cell, _intsetGetEncoded. intros [-> | [-> | ->]] Hf E; simpl in *; rewrite E; simpl; f_equal.
  - unfold memrev16ifbe. rewrite (load_le 2) by auto using memrev16_rev. now apply i16_dec_enc.
  - unfold memrev32ifbe. rewrite (load_le 4) by auto using memrev32_rev. now apply i32_dec_enc.
  - unfold memrev64ifbe. rewrite (load_le 8) by auto using memrev64_rev. now apply i64_dec_enc.
Qed.

(** [_intsetSet] writes the little endian cell, whatever the host. *)
Lemma intsetSet_eq iset pos v :
  enc_ok (intrev32ifbe (encoding iset)) ->
  _intsetSet iset pos v =
    c ← wrn (contents iset) (pos * intrev32ifbe (encoding iset))
            (le_enc (Z.to_nat (intrev32ifbe (encoding iset))) v);
    Some (set_contents iset c).
Proof.
  unfold _intsetSet. intros [E | [E | E]]; rewrite !E; simpl.
  - unfold memrev16ifbe. rewrite (store_le 2) by apply memrev16_rev. done.
  - unfold memrev32ifbe. rewrite (store_le 4) by apply memrev32_rev. done.
  - unfold memrev64ifbe. rewrite (store_le 8) by apply memrev64_rev. done.
Qed.

Lemma intsetGet_rep iset s i x :
  intset_rep iset s -> s !! i = Some x -> _intsetGet iset (Z.of_nat i) = Some x.
Proof.
  intros Hr Hx. unfold _intsetGet. apply getEncoded_spec.
  - apply Hr.
  - eapply Forall_lookup_1; [apply Hr | done].
  - eapply rep_cell; eauto.
Qed.

Lemma intsetGet_repZ iset s i :
  intset_rep iset s -> 0 <= i < zlen s -> _intsetGet iset i = Some (s !!! Z.to_nat i).
Proof.
  intros Hr Hi. rewrite <- (Z2Nat.id i) at 1 by lia. eapply intsetGet_rep; [done |].
  apply list_lookup_lookup_total_lt. unfold zlen in Hi. lia.
Qed.

Lemma increasing_total s i j :
  increasing s -> 0 <= i -> i < j -> j < zlen s -> s !!! Z.to_nat i < s !!! Z.to_nat j.
Proof.
  intros Hs Hi Hij Hj. unfold zlen in Hj.
  apply (Hs (Z.to_nat i) (Z.to_nat j)); [lia | apply list_lookup_lookup_total_lt; lia..].
Qed.

Lemma increasing_total_le s i j :
  increasing s -> 0 <= i -> i <= j -> j < zlen s -> s !!! Z.to_nat i <= s !!! Z.to_nat j.
Proof.
  intros Hs ? ? ?. destruct (decide (i = j)) as [-> | ?]; [lia |].
  pose proof (increasing_total s i j Hs). lia.
Qed.

(** ** Binary search *)

(** The loop returns the position of [value], or the first position whose
    element is larger; [Z.to_nat (max - min + 1)] iterations are enough. *)
Lemma search_loop_spec iset s value :
  intset_rep iset s -> zlen s < 2147483648 ->
  forall fuel min max mid cur,
  0 <= min -> min <= max + 1 -> max < zlen s -> max - min + 1 < Z.of_nat fuel ->
  (forall i, 0 <= i < min -> s !!! Z.to_nat i < value) ->
  (forall i, max < i < zlen s -> value < s !!! Z.to_nat i) ->
  (min <= max \/ cur <> value) ->
  exists min' mid' cur',
    intsetSearch_loop fuel iset value min max mid cur = Some (min', mid', cur') /\
    ((cur' = value /\ 0 <= mid' < zlen s /\ s !!! Z.to_nat mid' = value) \/
     (cur' <> value /\ 0 <= min' <= zlen s /\
      (forall i, 0 <= i < min' -> s !!! Z.to_nat i < value) /\
      (forall i, min' <= i < zlen s -> value < s !!! Z.to_nat i))).
Proof.
  intros Hr Hlen. induction fuel as [| fuel IH]; intros min max mid cur H0 Hmm Hm Hf Hlo Hhi Hc; [lia |].
  cbn [intsetSearch_loop]. destruct (Z.leb_spec min max).
  - assert (Z.shiftr (u32 (u32 min + u32 max)) 1 = (min + max) / 2) as ->.
    { rewrite Z.shiftr_div_pow2 by lia. rewrite !(u32_id min), (u32_id max), u32_id by lia. done. }
    assert (min <= (min + max) / 2 <= max) as Hmid by dm.
    set (m := (min + max) / 2) in *.
    rewrite (intsetGet_repZ _ s) by (done || lia). cbn [mbind option_bind].
    pose proof (rep_sorted _ _ Hr) as Hs.
    destruct (Z.ltb_spec (s !!! Z.to_nat m) value).
    + apply IH; try lia; [| assumption].
      intros i Hi. pose proof (increasing_total_le s i m Hs). lia.
    + destruct (Z.ltb_spec value (s !!! Z.to_nat m)).
      * apply IH; try lia; [assumption |].
        intros i Hi. pose proof (increasing_total_le s m i Hs). lia.
      * do 3 eexists. split; [done |]. left. lia.
  - do 3 eexists. split; [done |]. right. split_and!; try lia; [assumption |].
    intros i Hi. apply Hhi. lia.
Qed.

Lemma not_elem_split s pos v :
  0 <= pos <= zlen s ->
  (forall i, 0 <= i < pos -> s !!! Z.to_nat i < v) ->
  (forall i, pos <= i < zlen s -> v < s !!! Z.to_nat i) -> v ∉ s.
Proof.
  intros Hp Hlo Hhi [i Hi]%list_elem_of_lookup.
  pose proof (lookup_lt_Some _ _ _ Hi). pose proof (list_lookup_total_correct _ _ _ Hi) as Ht.
  specialize (Hlo (Z.of_nat i)). specialize (Hhi (Z.of_nat i)). rewrite Nat2Z.id in Hlo, Hhi.
  unfold zlen in *. lia.
Qed.

(** [intsetSearch] finds a member's position, or the insertion position. *)
Lemma intsetSearch_spec iset s value :
  intset_rep iset s -> zlen s < 2147483648 ->
  exists pos, intsetSearch iset value = Some (bool_decide (value ∈ s), pos) /\
    0 <= pos <= zlen s /\
    (forall i, 0 <= i < pos -> s !!! Z.to_nat i < value) /\
    (forall i, pos < i < zlen s -> value < s !!! Z.to_nat i) /\
    (if bool_decide (value ∈ s) then pos < zlen s /\ s !!! Z.to_nat pos = value
     else pos < zlen s -> value < s !!! Z.to_nat pos).
Proof.
  intros Hr Hlen. pose proof (zlen_nonneg s). pose proof (rep_sorted _ _ Hr) as Hs.
  unfold intsetSearch. rewrite (rep_len _ _ Hr).
  assert (forall pos, 0 <= pos <= zlen s -> (forall i, 0 <= i < pos -> s !!! Z.to_nat i < value) ->
    (forall i, pos <= i < zlen s -> value < s !!! Z.to_nat i) ->
    exists p, Some (false, pos) = Some (bool_decide (value ∈ s), p) /\ 0 <= p <= zlen s /\
    (forall i, 0 <= i < p -> s !!! Z.to_nat i < value) /\
    (forall i, p < i < zlen s -> value < s !!! Z.to_nat i) /\
    (if bool_decide (value ∈ s) then p < zlen s /\ s !!! Z.to_nat p = value
     else p < zlen s -> value < s !!! Z.to_nat p)) as Hmiss.
  { intros pos Hp Hlo Hhi. exists pos.
    rewrite (bool_decide_eq_false_2 (value ∈ s)) by eauto using not_elem_split.
    split_and!; try done; try lia; intros; apply Hhi; lia. }
  destruct (Z.eqb_spec (zlen s) 0) as [E0 | E0]; [apply Hmiss; intros; lia |].
  rewrite (i32_id (zlen s - 1)), (intsetGet_repZ _ s (zlen s - 1)), (intsetGet_repZ _ s 0) by (done || lia).
  cbn [mbind option_bind].
  destruct (Z.ltb_spec (s !!! Z.to_nat (zlen s - 1)) value).
  { apply Hmiss; [lia | | lia]. intros i Hi. pose proof (increasing_total_le s i (zlen s - 1) Hs). lia. }
  destruct (Z.ltb_spec value (s !!! Z.to_nat 0)).
  { apply Hmiss; [lia | lia |]. intros i Hi. pose proof (increasing_total_le s 0 i Hs). lia. }
  destruct (search_loop_spec iset s value Hr Hlen (S (Z.to_nat (zlen s))) 0 (zlen s - 1) (-1) (-1))
    as (min' & mid' & cur' & -> & [(-> & Hm & Ev) | (Hc & Hm & Hlo & Hhi)]); try lia.
  - cbn [mbind option_bind]. rewrite Z.eqb_refl. exists mid'.
    assert (value ∈ s) as Hin.
    { rewrite <- Ev. eapply list_elem_of_lookup_total_2. unfold zlen in *. lia. }
    rewrite bool_decide_eq_true_2 by done. split_and!; try done; try lia; intros i Hi; rewrite <- Ev;
      apply increasing_total; done || lia.
  - cbn [mbind option_bind]. rewrite (proj2 (Z.eqb_neq value cur')) by lia. now apply Hmiss.
Qed.
End access.

(** * Insertion and removal *)

Lemma valueEncoding_ok v : enc_ok (_intsetValueEncoding v).
Proof. unfold _intsetValueEncoding, enc_ok. repeat case_if; auto. Qed.

Lemma valueEncoding_fits v : is_i64 v -> fits (_intsetValueEncoding v) v.
Proof.
  unfold _intsetValueEncoding, fits, is_i64, INTSET_ENC_INT16, INTSET_ENC_INT32, INTSET_ENC_INT64.
  intros Hv.
  destruct (Z.ltb_spec v (-2147483648)), (Z.ltb_spec 2147483647 v); simpl; try lia;
  destruct (Z.ltb_spec v (-32768)), (Z.ltb_spec 32767 v); simpl; lia.
Qed.

Lemma fits_mono e e' v : enc_ok e -> enc_ok e' -> e <= e' -> fits e v -> fits e' v.
Proof.
  unfold fits. intros [-> | [-> | ->]] [-> | [-> | ->]]; simpl; lia.
Qed.

Lemma fits_valueEncoding e v :
  enc_ok e -> is_i64 v -> (_intsetValueEncoding v <= e <-> fits e v).
Proof.
  intros He Hv. split.
  - intros Hle. exact (fits_mono _ _ _ (valueEncoding_ok v) He Hle (valueEncoding_fits v Hv)).
  - unfold _intsetValueEncoding, fits, is_i64, INTSET_ENC_INT16, INTSET_ENC_INT32, INTSET_ENC_INT64 in *.
    destruct He as [-> | [-> | ->]]; simpl; intros Hf;
      destruct (Z.ltb_spec v (-2147483648)), (Z.ltb_spec 2147483647 v); simpl; try lia;
      destruct (Z.ltb_spec v (-32768)), (Z.ltb_spec 32767 v); simpl; lia.
Qed.

(** The set with [v] inserted at (or removed from) position [p]. *)
Definition insert_at (p : nat) (v : Z) (s : list Z) : list Z := take p s ++ v :: drop p s.
Definition delete_at (p : nat) (s : list Z) : list Z := take p s ++ drop (S p) s.

Lemma length_insert_at p v s : (p <= length s)%nat -> length (insert_at p v s) = S (length s).
Proof. intros. unfold insert_at. rewrite length_app, length_take. simpl. rewrite length_drop. lia. Qed.

Lemma length_delete_at p s : (p < length s)%nat -> length (delete_at p s) = pred (length s).
Proof. intros. unfold delete_at. rewrite length_app, length_take, length_drop. lia. Qed.

Lemma lookup_insert_at p v s i : (p <= length s)%nat ->
  insert_at p v s !! i = if (i <? p)%nat then s !! i else if (i =? p)%nat then Some v else s !! pred i.
Proof.
  intros Hp. unfold insert_at. destruct (Nat.ltb_spec i p).
  - rewrite lookup_app_l by (rewrite length_take; lia). now rewrite lookup_take_lt.
  - rewrite lookup_app_r by (rewrite length_take; lia). rewrite length_take, Nat.min_l by lia.
    destruct (Nat.eqb_spec i p) as [-> |]; [now rewrite Nat.sub_diag |].
    replace (i - p)%nat with (S (i - p - 1)) by lia. simpl. rewrite lookup_drop. f_equal. lia.
Qed.

Lemma lookup_delete_at p s i : (p < length s)%nat ->
  delete_at p s !! i = if (i <? p)%nat then s !! i else s !! S i.
Proof.
  intros Hp. unfold delete_at. destruct (Nat.ltb_spec i p).
  - rewrite lookup_app_l by (rewrite length_take; lia). now rewrite lookup_take_lt.
  - rewrite lookup_app_r by (rewrite length_take; lia). rewrite length_take, Nat.min_l by lia.
    rewrite lookup_drop. f_equal. lia.
Qed.

Lemma elem_of_insert_at p v s x : x ∈ insert_at p v s <-> x = v \/ x ∈ s.
Proof.
  unfold insert_at. rewrite <- (take_drop p s) at 3. rewrite !elem_of_app, elem_of_cons. tauto.
Qed.

Lemma increasing_insert_at p v s :
  increasing s -> (p <= length s)%nat ->
  (forall i, 0 <= i < Z.of_nat p -> s !!! Z.to_nat i < v) ->
  (forall i, Z.of_nat p <= i < zlen s -> v < s !!! Z.to_nat i) ->
  increasing (insert_at p v s).
Proof.
  intros Hs Hp Hlo Hhi. rewrite <- (take_drop p s), increasing_app in Hs.
  destruct Hs as (H1 & H2 & H3).
  assert (forall x, x ∈ take p s -> x < v) as Hl.
  { intros x [i [Hi Hip]%lookup_take_Some]%list_elem_of_lookup.
    specialize (Hlo (Z.of_nat i)). rewrite Nat2Z.id in Hlo.
    rewrite (list_lookup_total_correct _ _ _ Hi) in Hlo. lia. }
  assert (forall x, x ∈ drop p s -> v < x) as Hr.
  { intros x [i Hi]%list_elem_of_lookup. rewrite lookup_drop in Hi.
    specialize (Hhi (Z.of_nat (p + i))). rewrite Nat2Z.id in Hhi.
    rewrite (list_lookup_total_correct _ _ _ Hi) in Hhi.
    apply lookup_lt_Some in Hi. unfold zlen in Hhi. lia. }
  apply increasing_app. split_and!; [done | now apply increasing_cons |].
  intros x y Hx [-> | Hy]%elem_of_cons; auto.
Qed.

Lemma elem_of_delete_at p s x v :
  increasing s -> s !! p = Some v -> (x ∈ delete_at p s <-> x ∈ s /\ x <> v).
Proof.
  intros Hs Hp. pose proof Hs as Hs'.
  rewrite <- (take_drop_middle s p v Hp), increasing_app in Hs'.
  destruct Hs' as (_ & H2 & H3). rewrite increasing_cons in H2. destruct H2 as [_ H2].
  rewrite <- (take_drop_middle s p v Hp) at 2. unfold delete_at.
  rewrite !elem_of_app, elem_of_cons. split.
  - intros [Hx | Hx]; [pose proof (H3 x v Hx (list_elem_of_here _ _)) | pose proof (H2 x Hx)];
      (split; [tauto | lia]).
  - tauto.
Qed.

Lemma increasing_delete_at p s : increasing s -> increasing (delete_at p s).
Proof.
  intros Hs i j x y Hij Hx Hy. destruct (decide (p < length s)%nat) as [Hp | Hp].
  - rewrite lookup_delete_at in Hx, Hy by done.
    destruct (Nat.ltb_spec i p), (Nat.ltb_spec j p); (eapply Hs; [| exact Hx | exact Hy]); lia.
  - unfold delete_at in *. rewrite take_ge, drop_ge, app_nil_r in * by lia. eauto.
Qed.

Lemma Forall_insert_at (P : Z -> Prop) p v s : P v -> Forall P s -> Forall P (insert_at p v s).
Proof. intros. rewrite Forall_forall in *. intros x [-> | ?]%elem_of_insert_at; auto. Qed.

Lemma Forall_delete_at (P : Z -> Prop) p s : Forall P s -> Forall P (delete_at p s).
Proof.
  intros. unfold delete_at. apply Forall_app. eauto using Forall_take, Forall_drop.
Qed.

Section operations.
Context `{Host} (junk : nat -> Z).

(** The bound on cardinality under which the 32 bit counters do not wrap;
    2^31-1 elements take at least 4 GB. *)
Definition small (s : list Z) : Prop := zlen s < 2147483647.

Lemma intsetNew_rep : intset_rep intsetNew [].
Proof.
  assert (intrev32ifbe (intrev32ifbe INTSET_ENC_INT16) = 2) as E
    by (apply intrev32ifbe_involutive; unfold INTSET_ENC_INT16; lia).
  split; simpl; rewrite ?E; try done.
  - left. done.
  - unfold intrev32ifbe. destruct big_endian; [| done]. now autorewrite with endian.
Qed.

Lemma intsetResize_eq iset len :
  enc_ok (intrev32ifbe (encoding iset)) -> 0 <= len < 4294967296 ->
  intsetResize junk iset len =
    Some (set_contents iset (zrealloc junk (contents iset) (len * intrev32ifbe (encoding iset)))).
Proof.
  intros He Hl. unfold intsetResize.
  assert (0 <= len * intrev32ifbe (encoding iset) <= 4294967296 * 8) by (unfold enc_ok in He; nia).
  rewrite u32_id, u64_id by (unfold is_u64; lia). unfold assert_, sizeof_intset, ULLONG_MAX.
  rewrite (proj2 (Z.leb_le _ _)) by lia. done.
Qed.

Lemma intsetMoveTail_eq iset from to :
  enc_ok (intrev32ifbe (encoding iset)) ->
  0 <= from <= intrev32ifbe (length_ iset) ->
  intrev32ifbe (length_ iset) * intrev32ifbe (encoding iset) < 4294967296 ->
  intsetMoveTail iset from to =
    c ← memmove (contents iset) (to * intrev32ifbe (encoding iset))
          (from * intrev32ifbe (encoding iset))
          ((intrev32ifbe (length_ iset) - from) * intrev32ifbe (encoding iset));
    Some (set_contents iset c).
Proof.
  intros He Hf Hb. unfold intsetMoveTail.
  assert (0 <= intrev32ifbe (length_ iset) - from < 4294967296) by (unfold enc_ok in He; nia).
  rewrite (u32_id (_ - _)) by done.
  destruct He as [E | [E | E]]; rewrite !E in *; cbv [INTSET_ENC_INT64 INTSET_ENC_INT32 Z.eqb Pos.eqb];
    rewrite u32_id by lia; done.
Qed.

(** Rebuilding the invariant after the elements have been placed. *)
Lemma rep_intro iset' s' :
  enc_ok (intrev32ifbe (encoding iset')) -> zlen s' < 4294967296 ->
  length_ iset' = intrev32ifbe (zlen s') ->
  zlen (contents iset') = zlen s' * intrev32ifbe (encoding iset') ->
  (forall i, 0 <= i < zlen s' -> cell (contents iset') (intrev32ifbe (encoding iset')) i
     = Some (le_enc (Z.to_nat (intrev32ifbe (encoding iset'))) (s' !!! Z.to_nat i))) ->
  Forall (fits (intrev32ifbe (encoding iset'))) s' -> increasing s' ->
  intset_rep iset' s'.
Proof.
  intros He Hl Hlen Hsz Hc Hf Hi. pose proof (zlen_nonneg s'). split; try done.
  - rewrite Hlen. apply intrev32ifbe_involutive. lia.
  - intros i x Hx. pose proof (lookup_lt_Some _ _ _ Hx). rewrite Hc by (unfold zlen; lia).
    rewrite Nat2Z.id. now rewrite (list_lookup_total_correct _ _ _ Hx).
Qed.

Lemma rep_cellZ iset s i :
  intset_rep iset s -> 0 <= i < zlen s ->
  cell (contents iset) (intrev32ifbe (encoding iset)) i
    = Some (le_enc (Z.to_nat (intrev32ifbe (encoding iset))) (s !!! Z.to_nat i)).
Proof.
  intros Hr Hi. rewrite <- (Z2Nat.id i) at 1 by lia. apply (rep_cell _ _ Hr).
  apply list_lookup_lookup_total_lt. unfold zlen in Hi. lia.
Qed.

Lemma insert_at_total p v s i :
  0 <= p <= zlen s -> 0 <= i ->
  insert_at (Z.to_nat p) v s !!! Z.to_nat i =
    if i <? p then s !!! Z.to_nat i else if i =? p then v else s !!! Z.to_nat (i - 1).
Proof.
  intros Hp Hi. unfold zlen in Hp. rewrite !list_lookup_total_alt, lookup_insert_at by lia.
  destruct (Nat.ltb_spec (Z.to_nat i) (Z.to_nat p)), (Z.ltb_spec i p); try lia.
  destruct (Nat.eqb_spec (Z.to_nat i) (Z.to_nat p)), (Z.eqb_spec i p); try lia.
  - done.
  - replace (Z.to_nat (i - 1)) with (pred (Z.to_nat i)) by lia. done.
Qed.

Lemma delete_at_total p s i :
  0 <= p < zlen s -> 0 <= i ->
  delete_at (Z.to_nat p) s !!! Z.to_nat i =
    if i <? p then s !!! Z.to_nat i else s !!! Z.to_nat (i + 1).
Proof.
  intros Hp Hi. unfold zlen in Hp. rewrite !list_lookup_total_alt, lookup_delete_at by lia.
  destruct (Nat.ltb_spec (Z.to_nat i) (Z.to_nat p)), (Z.ltb_spec i p); try lia.
  replace (Z.to_nat (i + 1)) with (S (Z.to_nat i)) by lia. done.
Qed.

Lemma zlen_insert_at p v s : 0 <= p <= zlen s -> zlen (insert_at (Z.to_nat p) v s) = zlen s + 1.
Proof. intros. unfold zlen in *. rewrite length_insert_at; lia. Qed.
Lemma zlen_delete_at p s : 0 <= p < zlen s -> zlen (delete_at (Z.to_nat p) s) = zlen s - 1.
Proof. intros. unfold zlen in *. rewrite length_delete_at; lia. Qed.

(** Making room at [p] in a buffer [c1] of [zlen s + 1] cells. *)
Lemma intset_room iset c1 n p :
  enc_ok (intrev32ifbe (encoding iset)) -> intrev32ifbe (length_ iset) = n ->
  zlen c1 = (n + 1) * intrev32ifbe (encoding iset) -> zlen c1 < 4294967296 -> 0 <= p <= n ->
  exists c2,
    (if p <? n then intsetMoveTail (set_contents iset c1) p (p + 1)
     else Some (set_contents iset c1)) = Some (set_contents iset c2) /\
    zlen c2 = zlen c1 /\
    (forall i, 0 <= i < p -> cell c2 (intrev32ifbe (encoding iset)) i
                             = cell c1 (intrev32ifbe (encoding iset)) i) /\
    (forall i, p < i <= n -> cell c2 (intrev32ifbe (encoding iset)) i
                             = cell c1 (intrev32ifbe (encoding iset)) (i - 1)).
Proof.
  intros He Hlen Hc1 Hb Hp.
  assert (0 < intrev32ifbe (encoding iset)) as Hpos by (unfold enc_ok in He; lia).
  destruct (Z.ltb_spec p n); [| exists c1; split_and!; try done; intros; lia].
  rewrite intsetMoveTail_eq; cbn [set_contents encoding length_ contents]; rewrite ?Hlen; try done; try nia.
  destruct (cell_memmove_ok _ Hpos c1 (p + 1) p (n - p)) as (c2 & E & Hl); try nia.
  rewrite E. exists c2. split_and!; [done | lia | |].
  - intros i Hi. apply (cell_memmove_out _ Hpos) with (1 := E); lia.
  - intros i Hi. replace i with (p + 1 + (i - p - 1)) at 1 by lia.
    replace (i - 1) with (p + (i - p - 1)) by lia. eapply cell_memmove_in; eauto; lia.
Qed.

(** Making room at [p], writing [v] there and counting it. *)
Lemma intset_place iset s p v :
  intset_rep iset s -> (zlen s + 1) * intrev32ifbe (encoding iset) < 4294967296 ->
  fits (intrev32ifbe (encoding iset)) v -> 0 <= p <= zlen s ->
  increasing (insert_at (Z.to_nat p) v s) ->
  exists iset',
    (iset1 ← intsetResize junk iset (intrev32ifbe (length_ iset) + 1);
     iset2 ← (if p <? intrev32ifbe (length_ iset1)
              then intsetMoveTail iset1 p (u32 (p + 1)) else Some iset1);
     iset3 ← _intsetSet iset2 (i32 p) v;
     Some (set_length iset3 (intrev32ifbe (u32 (intrev32ifbe (length_ iset3) + 1))))) = Some iset' /\
    encoding iset' = encoding iset /\
    intset_rep iset' (insert_at (Z.to_nat p) v s).
Proof.
  intros Hr Hb Hf Hp Hinc. pose proof (rep_enc _ _ Hr) as He. pose proof (rep_len _ _ Hr) as Hlen.
  pose proof (rep_size _ _ Hr) as Hsz. pose proof (zlen_nonneg s).
  set (e := intrev32ifbe (encoding iset)) in *.
  assert (0 < e /\ (e = 2 \/ e = 4 \/ e = 8)) as [Hpos He'] by (unfold enc_ok in He; lia).
  assert (zlen s < 2147483647) as Hbound by nia.
  rewrite intsetResize_eq by (done || lia). fold e. cbn [mbind option_bind]. rewrite Hlen.
  set (c1 := zrealloc junk (contents iset) ((zlen s + 1) * e)).
  assert (zlen c1 = (zlen s + 1) * e) as Hc1 by (apply zlen_zrealloc; nia).
  assert (forall i, 0 <= i < zlen s -> cell c1 e i = Some (le_enc (Z.to_nat e) (s !!! Z.to_nat i))) as Hcell1.
  { intros i Hi. unfold c1. rewrite cell_realloc by nia. now apply rep_cellZ. }
  rewrite (u32_id (p + 1)), (i32_id p) by lia. cbn [set_contents length_]. rewrite Hlen.
  destruct (intset_room iset c1 (zlen s) p) as (c2 & -> & Hc2 & Hlo & Hhi); fold e; try done; try lia.
  fold e in Hlo, Hhi. cbn [mbind option_bind].
  rewrite intsetSet_eq; cbn [set_contents encoding contents]; fold e; [| done].
  assert (zlen (le_enc (Z.to_nat e) v) = e) as Hle by (rewrite zlen_le_enc; lia).
  destruct (cell_wr_ok e Hpos c2 p (le_enc (Z.to_nat e) v)) as [c3 E]; try nia.
  rewrite E. cbn [mbind option_bind]. eexists. split; [done |]. split; [done |].
  apply rep_intro; cbn [set_length set_contents encoding length_ contents]; rewrite ?Hlen;
    fold e; rewrite ?zlen_insert_at by done; try done; try lia.
  - rewrite u32_id by lia. done.
  - rewrite (wrn_length _ _ _ _ E). lia.
  - intros i Hi. rewrite insert_at_total by lia.
    destruct (Z.ltb_spec i p); [| destruct (Z.eqb_spec i p) as [-> |]].
    + rewrite (cell_wr_ne e Hpos _ _ _ _ _ Hle E), Hlo, Hcell1 by lia. done.
    + eapply cell_wr_eq; [| exact Hle | exact E]; lia.
    + rewrite (cell_wr_ne e Hpos _ _ _ _ _ Hle E), Hhi, Hcell1 by lia. done.
  - apply Forall_insert_at; [done | apply (rep_fits _ _ Hr)].
Qed.
End operations.

Section upgrade.
Context `{Host} (junk : nat -> Z).

(** Upgrading back to front overwrites no element still to be moved. *)
Lemma upgrade_loop_spec iset s cur new prep :
  enc_ok cur -> enc_ok new -> cur < new -> 0 <= prep <= 1 -> Forall (fits cur) s ->
  intrev32ifbe (encoding iset) = new ->
  forall n c, (n <= length s)%nat -> zlen c = (zlen s + 1) * new ->
  (forall j, 0 <= j < Z.of_nat n -> cell c cur j = Some (le_enc (Z.to_nat cur) (s !!! Z.to_nat j))) ->
  (forall j, Z.of_nat n <= j < zlen s ->
     cell c new (j + prep) = Some (le_enc (Z.to_nat new) (s !!! Z.to_nat j))) ->
  exists c', intsetUpgrade_loop n (set_contents iset c) cur prep = Some (set_contents iset c') /\
    zlen c' = zlen c /\
    forall j, 0 <= j < zlen s ->
      cell c' new (j + prep) = Some (le_enc (Z.to_nat new) (s !!! Z.to_nat j)).
Proof.
  intros Hc Hn Hcn Hp Hf He. assert (0 < cur /\ 0 < new) as [Hc0 Hn0] by (unfold enc_ok in *; lia).
  induction n as [| n IH]; intros c Hl Hz Hlo Hhi.
  { exists c. split_and!; done. }
  cbn [intsetUpgrade_loop].
  assert (s !! n = Some (s !!! n)) as Hsn by (apply list_lookup_lookup_total_lt; lia).
  assert (cell c cur (Z.of_nat n) = Some (le_enc (Z.to_nat cur) (s !!! n))) as Hcn'
    by (rewrite Hlo by lia; now rewrite Nat2Z.id).
  rewrite (getEncoded_spec _ _ _ (s !!! n)) by (try done; eapply Forall_lookup_1; eauto).
  cbn [mbind option_bind]. rewrite intsetSet_eq by (cbn [set_contents encoding]; now rewrite He).
  cbn [set_contents encoding contents]. rewrite He.
  assert (zlen (le_enc (Z.to_nat new) (s !!! n)) = new) as Hle by (rewrite zlen_le_enc; lia).
  destruct (cell_wr_ok new Hn0 c (Z.of_nat n + prep) (le_enc (Z.to_nat new) (s !!! n)))
    as [c1 E]; try (unfold zlen in *; nia).
  rewrite E. cbn [mbind option_bind]. pose proof (wrn_length _ _ _ _ E) as Hc1.
  change (set_contents (set_contents iset c) c1) with (set_contents iset c1).
  destruct (IH c1) as (c' & -> & Hl' & Hall); try lia.
  - intros j Hj. rewrite <- Hlo by lia. eapply rdn_wrn_ne; [exact E |]. nia.
  - intros j Hj. destruct (decide (j = Z.of_nat n)) as [-> | Hne].
    + rewrite Nat2Z.id. eapply cell_wr_eq; [| exact Hle | exact E]; lia.
    + rewrite (cell_wr_ne new Hn0 _ _ _ _ _ Hle E) by lia. apply Hhi. lia.
  - exists c'. split_and!; [done | lia | done].
Qed.

(** A value that needs a wider encoding lies outside the range of the set. *)
Lemma wider_outside e s v x :
  enc_ok e -> ~ fits e v -> Forall (fits e) s -> x ∈ s -> if v <? 0 then v < x else x < v.
Proof.
  intros He Hv Hs Hx. rewrite Forall_forall in Hs. specialize (Hs x Hx). unfold fits in *.
  assert (0 < 2 ^ (8 * e - 1)) by (unfold enc_ok in He; apply Z.pow_pos_nonneg; lia).
  destruct (Z.ltb_spec v 0); lia.
Qed.

Lemma upgrade_increasing e s v :
  enc_ok e -> ~ fits e v -> Forall (fits e) s -> increasing s ->
  increasing (insert_at (Z.to_nat (if v <? 0 then 0 else zlen s)) v s).
Proof.
  intros He Hv Hf Hs. pose proof (wider_outside e s v) as Hw.
  destruct (Z.ltb_spec v 0).
  - change (insert_at (Z.to_nat 0) v s) with (v :: s). apply increasing_cons. split; [done |].
    intros y Hy. now apply (Hw y).
  - unfold insert_at, zlen. rewrite Nat2Z.id, take_ge, drop_ge by lia.
    apply increasing_app. split_and!; [done | now apply increasing_cons; split; [intros ? ? ? ? ? [] |set_solver] |].
    intros x y Hx ->%list_elem_of_singleton. now apply (Hw x).
Qed.

Lemma intsetUpgradeAndAdd_spec iset s v :
  intset_rep iset s -> small s -> is_i64 v -> intrev32ifbe (encoding iset) < _intsetValueEncoding v ->
  exists iset', intsetUpgradeAndAdd junk iset v = Some iset' /\
    intrev32ifbe (encoding iset') = _intsetValueEncoding v /\
    intset_rep iset' (insert_at (Z.to_nat (if v <? 0 then 0 else zlen s)) v s).
Proof.
  intros Hr Hsm Hv Henc. pose proof (rep_enc _ _ Hr) as He. pose proof (rep_len _ _ Hr) as Hlen.
  pose proof (rep_size _ _ Hr) as Hsz. pose proof (rep_fits _ _ Hr) as Hfit.
  pose proof (zlen_nonneg s). unfold small in Hsm.
  pose proof (valueEncoding_ok v) as Hne. pose proof (valueEncoding_fits v Hv) as Hvf.
  assert (~ fits (intrev32ifbe (encoding iset)) v) as Hnf
    by (intros Hx; apply fits_valueEncoding in Hx; [lia | done..]).
  pose proof (upgrade_increasing _ s v He Hnf Hfit (rep_sorted _ _ Hr)) as Hinc.
  unfold intsetUpgradeAndAdd. cbn [set_encoding length_ encoding].
  set (cur := intrev32ifbe (encoding iset)) in *. set (new := _intsetValueEncoding v) in *.
  assert (0 < cur /\ 0 < new /\ cur <= 8 /\ new <= 8) as (Hc0 & Hn0 & Hc8 & Hn8) by (unfold enc_ok in *; lia).
  assert (intrev32ifbe (intrev32ifbe new) = new) as Hrev by (apply intrev32ifbe_involutive; lia).
  rewrite Hlen, intsetResize_eq; cbn [set_encoding encoding contents]; rewrite ?Hrev; try done; try lia.
  cbn [mbind option_bind]. rewrite (u8_id cur), (i32_id (zlen s)) by lia.
  set (c1 := zrealloc junk (contents iset) ((zlen s + 1) * new)).
  assert (zlen c1 = (zlen s + 1) * new) as Hc1 by (apply zlen_zrealloc; nia).
  set (iset1 := set_encoding iset (intrev32ifbe new)).
  set (prep := if v <? 0 then 1 else 0). assert (0 <= prep <= 1) by (unfold prep; destruct (v <? 0); lia).
  destruct (upgrade_loop_spec iset1 s cur new prep) with (n := Z.to_nat (zlen s)) (c := c1)
    as (c2 & -> & Hc2 & Hcell); try done; try (unfold zlen in *; lia).
  { intros j Hj. unfold c1. unfold cell. rewrite rdn_zrealloc by nia.
    rewrite Z2Nat.id in Hj by lia. now apply rep_cellZ. }
  cbn [mbind option_bind]. cbn [set_contents length_]. change (length_ iset1) with (length_ iset).
  rewrite Hlen, (i32_id (zlen s)) by lia.
  (* the value itself *)
  set (pos := if v <? 0 then 0 else zlen s).
  assert ((if prep =? 1 then _intsetSet (set_contents iset1 c2) 0 v
           else _intsetSet (set_contents iset1 c2) (zlen s) v) = _intsetSet (set_contents iset1 c2) pos v) as ->
    by (unfold prep, pos; destruct (v <? 0); done).
  assert (0 <= pos <= zlen s) by (unfold pos; destruct (v <? 0); lia).
  rewrite intsetSet_eq by (cbn [set_contents iset1 set_encoding encoding]; now rewrite Hrev).
  cbn [set_contents iset1 set_encoding encoding contents]. rewrite Hrev.
  assert (zlen (le_enc (Z.to_nat new) v) = new) as Hle by (rewrite zlen_le_enc; lia).
  destruct (cell_wr_ok new Hn0 c2 pos (le_enc (Z.to_nat new) v)) as [c3 E]; try nia.
  rewrite E. cbn [mbind option_bind]. eexists. split; [done |]. split; [done |].
  apply rep_intro; cbn [set_length set_contents iset1 set_encoding encoding length_ contents];
    rewrite ?Hlen, ?Hrev, ?zlen_insert_at by done; try done; try lia.
  - rewrite u32_id by lia. done.
  - rewrite (wrn_length _ _ _ _ E). lia.
  - intros i Hi. rewrite insert_at_total by lia.
    destruct (Z.ltb_spec i pos); [| destruct (Z.eqb_spec i pos) as [-> |]].
    + rewrite (cell_wr_ne new Hn0 _ _ _ _ _ Hle E) by lia. rewrite <- Hcell by lia.
      f_equal. unfold prep, pos in *. destruct (v <? 0); lia.
    + eapply cell_wr_eq; [| exact Hle | exact E]; lia.
    + rewrite (cell_wr_ne new Hn0 _ _ _ _ _ Hle E) by lia. rewrite <- Hcell by lia.
      f_equal. unfold prep, pos in *. destruct (v <? 0); lia.
  - apply Forall_insert_at; [done |]. eapply Forall_impl; [exact Hfit |].
    intros x Hx. eapply fits_mono; [exact He | exact Hne | lia | exact Hx].
Qed.
End upgrade.

(** * Correctness of the operations *)

Section correctness.
Context `{Host} (junk : nat -> Z).

(** Moving the tail over the removed cell. *)
Lemma intset_close_gap iset n pos :
  enc_ok (intrev32ifbe (encoding iset)) -> intrev32ifbe (length_ iset) = n ->
  zlen (contents iset) = n * intrev32ifbe (encoding iset) ->
  zlen (contents iset) < 4294967296 -> 0 <= pos < n ->
  exists c2,
    (if pos <? n - 1 then intsetMoveTail iset (pos + 1) pos else Some iset)
      = Some (set_contents iset c2) /\
    zlen c2 = zlen (contents iset) /\
    forall i, 0 <= i < n - 1 ->
      cell c2 (intrev32ifbe (encoding iset)) i =
      cell (contents iset) (intrev32ifbe (encoding iset)) (if i <? pos then i else i + 1).
Proof.
  intros He Hlen Hc Hb Hp.
  assert (0 < intrev32ifbe (encoding iset)) as Hpos by (unfold enc_ok in He; lia).
  destruct (Z.ltb_spec pos (n - 1)).
  - rewrite intsetMoveTail_eq; rewrite ?Hlen; try done; try nia.
    destruct (cell_memmove_ok _ Hpos (contents iset) pos (pos + 1) (n - (pos + 1)))
      as (c2 & E & Hl); try nia.
    rewrite E. exists c2. split_and!; [done | lia |].
    intros i Hi. destruct (Z.ltb_spec i pos).
    + apply (cell_memmove_out _ Hpos) with (1 := E); lia.
    + replace i with (pos + (i - pos)) at 1 by lia. replace (i + 1) with (pos + 1 + (i - pos)) by lia.
      apply (cell_memmove_in _ Hpos) with (1 := E); lia.
  - exists (contents iset). split_and!; [now destruct iset | lia |]. intros i Hi.
    destruct (Z.ltb_spec i pos); [done | lia].
Qed.

Lemma intsetFind_spec iset s v :
  intset_rep iset s -> small s -> is_i64 v -> intsetFind iset v = Some (bool_decide (v ∈ s)).
Proof.
  intros Hr Hs Hv. unfold intsetFind, small in *. pose proof (rep_enc _ _ Hr) as He.
  destruct (Z.leb_spec (_intsetValueEncoding v) (intrev32ifbe (encoding iset))) as [Hle | Hlt].
  - destruct (intsetSearch_spec iset s v Hr) as (pos & -> & _); [lia | done].
  - rewrite bool_decide_eq_false_2; [done |]. intros Hin.
    pose proof (rep_fits _ _ Hr) as Hf. rewrite Forall_forall in Hf.
    pose proof (proj2 (fits_valueEncoding _ v He Hv) (Hf v Hin)). lia.
Qed.

Lemma intsetAdd_spec iset s v :
  intset_rep iset s -> (zlen s + 1) * 8 < 4294967296 -> is_i64 v ->
  exists iset' s', intsetAdd junk iset v = Some (iset', bool_decide (v ∉ s)) /\
    intset_rep iset' s' /\ (forall x, x ∈ s' <-> x = v \/ x ∈ s).
Proof.
  intros Hr Hsz Hv. assert (small s) as Hs by (unfold small; lia).
  unfold intsetAdd. pose proof (rep_enc _ _ Hr) as He.
  destruct (Z.ltb_spec (intrev32ifbe (encoding iset)) (_intsetValueEncoding v)) as [Hlt | Hle].
  - destruct (intsetUpgradeAndAdd_spec junk iset s v) as (iset' & -> & _ & Hr'); try done.
    eexists iset', _. split_and!; [| exact Hr' | apply elem_of_insert_at].
    rewrite bool_decide_eq_true_2; [done |]. intros Hin.
    pose proof (rep_fits _ _ Hr) as Hf. rewrite Forall_forall in Hf.
    pose proof (proj2 (fits_valueEncoding _ v He Hv) (Hf v Hin)). lia.
  - unfold small in Hs.
    destruct (intsetSearch_spec iset s v Hr) as (pos & -> & Hp & Hlo & Hhi & Hat); [lia |].
    cbn [mbind option_bind]. destruct (bool_decide (v ∈ s)) eqn:Hin.
    + apply bool_decide_eq_true in Hin. exists iset, s. split_and!; [| done | intros x; split; [auto | intros [-> |]; done]].
      rewrite bool_decide_eq_false_2; [done | tauto].
    + apply bool_decide_eq_false in Hin.
      apply fits_valueEncoding in Hle; [| done..].
      destruct (intset_place junk iset s pos v) as (iset' & E & _ & Hr'); try done.
      { unfold enc_ok in He. pose proof (zlen_nonneg s). nia. }
      { apply increasing_insert_at; [apply Hr | unfold zlen in Hp; lia | |]; rewrite Z2Nat.id by lia; [done |].
        intros i Hi. destruct (decide (i = pos)) as [-> | ?]; [apply Hat; lia | apply Hhi; lia]. }
      exists iset', (insert_at (Z.to_nat pos) v s).
      split_and!; [| done | apply elem_of_insert_at].
      rewrite (bool_decide_eq_true_2 (v ∉ s)) by done.
      apply bind_Some in E as (i1 & E1 & E). rewrite E1. cbn [mbind option_bind].
      apply bind_Some in E as (i2 & E2 & E). rewrite E2. cbn [mbind option_bind].
      apply bind_Some in E as (i3 & E3 & E). rewrite E3. cbn [mbind option_bind].
      congruence.
Qed.

Lemma intsetRemove_spec iset s v :
  intset_rep iset s -> (zlen s + 1) * 8 < 4294967296 -> is_i64 v ->
  exists iset' s', intsetRemove junk iset v = Some (iset', bool_decide (v ∈ s)) /\
    intset_rep iset' s' /\ (forall x, x ∈ s' <-> x ∈ s /\ x <> v).
Proof.
  intros Hr Hsz Hv. unfold intsetRemove. pose proof (rep_enc _ _ Hr) as He.
  pose proof (intsetFind_spec iset s v Hr ltac:(unfold small; lia) Hv) as Hfind.
  unfold intsetFind in Hfind.
  destruct (Z.leb_spec (_intsetValueEncoding v) (intrev32ifbe (encoding iset))) as [Hle | Hlt].
  2:{ injection Hfind as Hf. rewrite <- Hf. symmetry in Hf. apply bool_decide_eq_false in Hf.
      exists iset, s. split_and!; [done.. |].
      intros x. split; [intros Hx; split; [done | intros ->; done] | tauto]. }
  destruct (intsetSearch_spec iset s v Hr) as (pos & -> & Hp & Hlo & Hhi & Hat); [lia |].
  cbn [mbind option_bind]. clear Hfind. destruct (bool_decide (v ∈ s)) eqn:Hin.
  2:{ apply bool_decide_eq_false in Hin. exists iset, s. split_and!; [done.. |].
      intros x. split; [intros Hx; split; [done | intros ->; done] | tauto]. }
  destruct Hat as [Hpos Hv']. pose proof (rep_len _ _ Hr) as Hlen. pose proof (rep_size _ _ Hr) as Hcs.
  set (e := intrev32ifbe (encoding iset)) in *.
  assert (0 < e <= 8) as Hpe by (unfold enc_ok in He; lia).
  rewrite Hlen, (u32_id (zlen s - 1)), (u32_id (pos + 1)) by lia.
  destruct (intset_close_gap iset (zlen s) pos) as (c2 & -> & Hc2 & Hcell); fold e; try done; try nia.
  fold e in Hcell.
  cbn [mbind option_bind].
  rewrite intsetResize_eq by (cbn [set_contents encoding]; done || lia).
  cbn [mbind option_bind set_contents encoding contents]. fold e.
  eexists _, (delete_at (Z.to_nat pos) s). split; [done |].
  assert (s !! Z.to_nat pos = Some v) as Hsv.
  { rewrite <- Hv'. apply list_lookup_lookup_total_lt. unfold zlen in *. lia. }
  split; [| intros x; apply elem_of_delete_at; [apply Hr | done]].
  apply rep_intro; cbn [set_length set_contents encoding length_ contents]; fold e;
    rewrite ?zlen_delete_at by lia; try done; try lia.
  - apply zlen_zrealloc. nia.
  - intros i Hi. rewrite delete_at_total by lia. rewrite cell_realloc, Hcell by nia.
    destruct (Z.ltb_spec i pos); apply rep_cellZ; done || lia.
  - apply Forall_delete_at, (rep_fits _ _ Hr).
  - apply increasing_delete_at, (rep_sorted _ _ Hr).
Qed.
End correctness.

(** * Integrity check *)

Section validate.
Context `{Host} (junk : nat -> Z).

(** The intset header and contents found in a blob [p]. *)
Definition blob_intset (p : list Z) : intset :=
  mk_intset (native_dec (take 4 p)) (native_dec (take 4 (drop 4 p))) (drop 8 p).

Lemma signed_dec_fits e (sgn : Z -> Z) bs :
  enc_ok e -> bytes bs -> zlen bs = e ->
  (forall z, sgn z = (z + 2 ^ (8 * e - 1)) mod 2 ^ (8 * e) - 2 ^ (8 * e - 1)) ->
  fits e (sgn (le_dec bs)) /\ le_enc (Z.to_nat e) (sgn (le_dec bs)) = bs.
Proof.
  intros He Hb Hl Hs.
  assert (2 ^ (8 * e) = 2 * 2 ^ (8 * e - 1)) as E2
    by (rewrite <- Z.pow_succ_r by (unfold enc_ok in He; lia); f_equal; lia).
  assert (256 ^ Z.of_nat (Z.to_nat e) = 2 ^ (8 * e)) as E3.
  { rewrite Z2Nat.id by (unfold enc_ok in He; lia). change 256 with (2 ^ 8).
    rewrite <- Z.pow_mul_r; (unfold enc_ok in He; lia). }
  pose proof (le_dec_bound _ Hb) as Hd. unfold zlen in Hl.
  assert (0 < 2 ^ (8 * e - 1)) by (apply Z.pow_pos_nonneg; unfold enc_ok in He; lia).
  split.
  - unfold fits. rewrite Hs.
    pose proof (Z.mod_pos_bound (le_dec bs + 2 ^ (8 * e - 1)) (2 ^ (8 * e))). lia.
  - rewrite <- (le_enc_mod (Z.to_nat e)), E3, Hs, Zminus_mod_idemp_l, Z.add_simpl_r.
    rewrite <- E3, le_enc_mod. replace (Z.to_nat e) with (length bs) by lia. now apply le_enc_dec.
Qed.

(** Every in-range element of a buffer of bytes decodes. *)
Lemma getEncoded_total iset e pos :
  enc_ok e -> bytes (contents iset) -> 0 <= pos -> (pos + 1) * e <= zlen (contents iset) ->
  exists x, _intsetGetEncoded iset pos e = Some x /\ fits e x /\
    cell (contents iset) e pos = Some (le_enc (Z.to_nat e) x).
Proof.
  intros He Hb Hp Hr. assert (0 < e) by (unfold enc_ok in He; lia).
  destruct (rdn_is_Some (contents iset) (pos * e) e) as [bs E]; [nia.. |].
  pose proof (rdn_length _ _ _ _ E) as Hl. pose proof (rdn_bytes _ _ _ _ Hb E) as Hbs.
  assert (exists sgn, forall z, sgn z = (z + 2 ^ (8 * e - 1)) mod 2 ^ (8 * e) - 2 ^ (8 * e - 1))
    as [sgn Hsgn] by (eexists (fun z => _); done).
  destruct (signed_dec_fits e sgn bs He Hbs Hl Hsgn) as [Hf Henc].
  exists (sgn (le_dec bs)). assert (cell (contents iset) e pos = Some (le_enc (Z.to_nat e) (sgn (le_dec bs))))
    as Hc by (rewrite Henc; exact E).
  split; [| done]. now apply getEncoded_spec.
Qed.

(** The elements stored in the blob, decoded one by one. *)
Definition intset_elems (iset : intset) (count : Z) : list Z :=
  map (fun i => default 0 (_intsetGet iset i)) (seqZ 0 count).

Lemma intset_elems_length iset count : 0 <= count -> zlen (intset_elems iset count) = count.
Proof. intros. unfold zlen, intset_elems. rewrite length_map, length_seqZ. lia. Qed.

Lemma intset_elems_lookup iset count i x :
  intset_elems iset count !! i = Some x -> Z.of_nat i < count /\ x = default 0 (_intsetGet iset (Z.of_nat i)).
Proof.
  unfold intset_elems. rewrite list_lookup_fmap. intros Hx.
  apply fmap_Some in Hx as (z & Hz & ->). apply lookup_seqZ in Hz as [-> Hi].
  split; [lia | done].
Qed.

Lemma increasing_adjacent s :
  (forall i, 1 <= i < zlen s -> s !!! Z.to_nat (i - 1) < s !!! Z.to_nat i) <-> increasing s.
Proof.
  split.
  - intros Ha i j x y Hij Hx Hy. revert y Hy. induction Hij as [| j Hij IH]; intros y Hy.
    + pose proof (lookup_lt_Some _ _ _ Hy). specialize (Ha (Z.of_nat (S i))).
      replace (Z.to_nat (Z.of_nat (S i) - 1)) with i in Ha by lia. rewrite Nat2Z.id in Ha.
      rewrite (list_lookup_total_correct _ _ _ Hx), (list_lookup_total_correct _ _ _ Hy) in Ha.
      unfold zlen in Ha. lia.
    + pose proof (lookup_lt_Some _ _ _ Hy).
      destruct (lookup_lt_is_Some_2 s j) as [z Hz]; [lia |]. specialize (IH z Hz).
      specialize (Ha (Z.of_nat (S j))).
      replace (Z.to_nat (Z.of_nat (S j) - 1)) with j in Ha by lia. rewrite Nat2Z.id in Ha.
      rewrite (list_lookup_total_correct _ _ _ Hz), (list_lookup_total_correct _ _ _ Hy) in Ha.
      unfold zlen in Ha. lia.
  - intros Hs i Hi. apply increasing_total; done || lia.
Qed.

Lemma validate_loop_spec iset s :
  zlen s < 2147483648 ->
  (forall i, 0 <= i < zlen s -> _intsetGet iset i = Some (s !!! Z.to_nat i)) ->
  forall n i prev, 1 <= i -> zlen s - i <= Z.of_nat n -> prev = s !!! Z.to_nat (i - 1) ->
  exists b, intsetValidate_loop n iset i (zlen s) prev = Some b /\
    (b = true <-> forall j, i <= j < zlen s -> s !!! Z.to_nat (j - 1) < s !!! Z.to_nat j).
Proof.
  intros Hl Hget. induction n as [| n IH]; intros i prev Hi Hn Hprev; cbn [intsetValidate_loop].
  { exists true. split; [done |]. split; [intros _ j Hj; lia | done]. }
  destruct (Z.ltb_spec i (zlen s)).
  - rewrite i32_id, Hget by lia. cbn [mbind option_bind].
    destruct (Z.leb_spec (s !!! Z.to_nat i) prev).
    + exists false. split; [done |]. split; [done |]. intros Hall. specialize (Hall i). lia.
    + destruct (IH (i + 1) (s !!! Z.to_nat i)) as (b & -> & Hb); try lia.
      { do 2 f_equal. lia. }
      exists b. split; [done |]. rewrite Hb. split; intros Hall j Hj; [| apply Hall; lia].
      destruct (decide (j = i)) as [-> | ?]; [lia | apply Hall; lia].
  - exists true. split; [done |]. split; [intros _ j Hj; lia | done].
Qed.

Lemma blob_elems_rep p count e :
  bytes p -> enc_ok e -> intrev32ifbe (encoding (blob_intset p)) = e ->
  intrev32ifbe (length_ (blob_intset p)) = count -> 0 <= count ->
  zlen (contents (blob_intset p)) = count * e ->
  (forall i, 0 <= i < count ->
     _intsetGet (blob_intset p) i = Some (intset_elems (blob_intset p) count !!! Z.to_nat i)) /\
  (increasing (intset_elems (blob_intset p) count) <->
   exists s, intset_rep (blob_intset p) s).
Proof.
  intros Hb He Henc Hcount Hc0 Hsz. set (b := blob_intset p) in *.
  assert (bytes (contents b)) as Hbc by (apply Forall_drop; exact Hb).
  assert (0 < e) as Hpe by (unfold enc_ok in He; lia).
  assert (forall i x, intset_elems b count !! i = Some x ->
    _intsetGet b (Z.of_nat i) = Some x /\ fits e x /\
    cell (contents b) e (Z.of_nat i) = Some (le_enc (Z.to_nat e) x)) as Hel.
  { intros i x Hx. apply intset_elems_lookup in Hx as [Hi ->].
    destruct (getEncoded_total b e (Z.of_nat i)) as (x & E & Hf & Hcell); try done; try nia.
    unfold _intsetGet. rewrite Henc, E. done. }
  split.
  - intros i Hi. rewrite <- (Z2Nat.id i) at 1 by lia. apply Hel.
    apply list_lookup_lookup_total_lt. pose proof (intset_elems_length b count Hc0).
    unfold zlen in *. lia.
  - split.
    + intros Hinc. exists (intset_elems b count). split; rewrite ?Henc, ?intset_elems_length by done; try done.
      * intros i x Hx. now apply Hel.
      * apply Forall_lookup_2. intros i x Hx. now apply (Hel i x).
    + intros [s Hr]. replace (intset_elems b count) with s; [apply Hr |].
      apply list_eq_same_length with (length s); [| done |].
      { pose proof (intset_elems_length b count Hc0). pose proof (rep_len _ _ Hr). unfold zlen in *. lia. }
      intros i x y Hi Hx Hy. apply Hel in Hy as (Hy & _ & _).
      rewrite (intsetGet_rep b s i x Hr Hx) in Hy. congruence.
Qed.
End validate.

(** * Properties *)

(** [intsetSearch] on any well-formed set terminates and is a correct
    binary search: it reports membership, and [*pos] is the position of the
    value, or the position at which it has to be inserted (all elements before
    are smaller, all elements from there on are larger). *)
Theorem intsetSearch_correct `{Host} iset s value :
  intset_rep iset s -> zlen s < 2147483648 ->
  exists pos, intsetSearch iset value = Some (bool_decide (value ∈ s), pos) /\
    0 <= pos <= zlen s /\
    (forall i, 0 <= i < pos -> s !!! Z.to_nat i < value) /\
    (forall i, pos < i < zlen s -> value < s !!! Z.to_nat i) /\
    (value ∈ s -> s !! Z.to_nat pos = Some value) /\
    (value ∉ s -> pos < zlen s -> value < s !!! Z.to_nat pos).
Proof.
  intros Hr Hl. destruct (intsetSearch_spec iset s value Hr Hl) as (pos & E & Hp & Hlo & Hhi & Hat).
  exists pos. refine (conj E (conj Hp (conj Hlo (conj Hhi (conj _ _))))).
  - intros Hin. case_bool_decide; [| done]. destruct Hat as [? <-].
    apply list_lookup_lookup_total_lt. unfold zlen in *. lia.
  - intros Hin. case_bool_decide; [done | exact Hat].
Qed.

(** The operations of the interface, and their effect on a mathematical set. *)
Inductive intset_op := OpAdd (v : Z) | OpRemove (v : Z) | OpFind (v : Z).

Definition intset_exec `{Host} (junk : nat -> Z) (op : intset_op) (iset : intset)
    : option (intset * bool) :=
  match op with
  | OpAdd v => intsetAdd junk iset v
  | OpRemove v => intsetRemove junk iset v
  | OpFind v => b ← intsetFind iset v; Some (iset, b)
  end.

Definition op_value (op : intset_op) : Z :=
  match op with OpAdd v | OpRemove v | OpFind v => v end.

(** The abstract set before and after an operation, and its answer. *)
Definition set_exec (op : intset_op) (X : gset Z) : gset Z * bool :=
  match op with
  | OpAdd v => ({[v]} ∪ X, bool_decide (v ∉ X))
  | OpRemove v => (X ∖ {[v]}, bool_decide (v ∈ X))
  | OpFind v => (X, bool_decide (v ∈ X))
  end.

(** [iset] implements the set [X]. *)
Definition implements `{Host} (iset : intset) (X : gset Z) (n : Z) : Prop :=
  exists s, intset_rep iset s /\ (forall x, x ∈ s <-> x ∈ X) /\ zlen s <= n.

Fixpoint intset_run `{Host} (junk : nat -> Z) (ops : list intset_op) (iset : intset)
    : option (intset * list bool) :=
  match ops with
  | [] => Some (iset, [])
  | op :: ops =>
      '(iset, b) ← intset_exec junk op iset;
      '(iset, bs) ← intset_run junk ops iset;
      Some (iset, b :: bs)
  end.

Fixpoint set_run (ops : list intset_op) (X : gset Z) : gset Z * list bool :=
  match ops with
  | [] => (X, [])
  | op :: ops =>
      let '(X, b) := set_exec op X in
      let '(X, bs) := set_run ops X in (X, b :: bs)
  end.

Lemma rep_NoDup `{Host} iset s : intset_rep iset s -> NoDup s.
Proof.
  intros Hr. apply NoDup_alt. intros i j x Hi Hj.
  pose proof (rep_sorted _ _ Hr) as Hs.
  destruct (Nat.lt_trichotomy i j) as [Hlt | [-> | Hlt]]; [| done |].
  - pose proof (Hs i j x x Hlt Hi Hj). lia.
  - pose proof (Hs j i x x Hlt Hj Hi). lia.
Qed.

Lemma intset_exec_step `{Host} junk op iset X n :
  implements iset X n -> (n + 1) * 8 < 4294967296 -> is_i64 (op_value op) ->
  exists iset', intset_exec junk op iset = Some (iset', (set_exec op X).2) /\
    implements iset' (set_exec op X).1 (n + 1).
Proof.
  intros (s & Hr & HX & Hn) Hsz Hv. assert ((zlen s + 1) * 8 < 4294967296) by lia.
  destruct op as [v | v | v]; cbn [intset_exec set_exec op_value fst snd] in *.
  - destruct (intsetAdd_spec junk iset s v Hr) as (iset' & s' & -> & Hr' & Hs'); [done.. |].
    exists iset'. split; [do 2 f_equal; apply bool_decide_ext; now rewrite HX |].
    exists s'. split_and!; [done | intros x; rewrite Hs', HX; set_solver |].
    assert (length s' <= length (v :: s))%nat; [| unfold zlen in *; simpl in *; lia].
    apply submseteq_length, NoDup_submseteq; [eapply rep_NoDup; eauto |].
    intros x. rewrite Hs', elem_of_cons. done.
  - destruct (intsetRemove_spec junk iset s v Hr) as (iset' & s' & -> & Hr' & Hs'); [done.. |].
    exists iset'. split; [do 2 f_equal; apply bool_decide_ext; now rewrite HX |].
    exists s'. split_and!; [done | intros x; rewrite Hs', HX; set_solver |].
    assert (length s' <= length s)%nat; [| unfold zlen in *; lia].
    apply submseteq_length, NoDup_submseteq; [eapply rep_NoDup; eauto |].
    intros x. rewrite Hs'. tauto.
  - rewrite (intsetFind_spec iset s v Hr) by (unfold small; done || lia).
    exists iset. split; [cbn; do 2 f_equal; apply bool_decide_ext; now rewrite HX |].
    exists s. split_and!; [done.. | lia].
Qed.

(** C3: refinement.  Started from an intset that implements a set (the empty
    set for [intsetNew]), any sequence of additions, removals and lookups of
    64 bit integers runs without touching memory outside the blob, returns the
    same answers as on the mathematical set, and ends in a blob that
    implements the resulting set: width upgrades, reallocation, moving the
    tail and the byte order of the host are invisible.  The bound keeps the
    blob below 4 GB, where the 32 bit size computations of the code are exact. *)
Theorem intset_refines_set `{Host} junk ops iset X n :
  implements iset X n -> (n + zlen ops) * 8 < 4294967296 ->
  Forall (fun op => is_i64 (op_value op)) ops ->
  exists iset', intset_run junk ops iset = Some (iset', (set_run ops X).2) /\
    implements iset' (set_run ops X).1 (n + zlen ops).
Proof.
  intros Hi Hn Hops. revert iset X n Hi Hn. induction Hops as [| op ops Hv _ IH]; intros iset X n Hi Hn.
  - exists iset. rewrite zlen_nil, Z.add_0_r. done.
  - rewrite zlen_cons in *. cbn [intset_run set_run]. pose proof (zlen_nonneg ops).
    destruct (intset_exec_step junk op iset X n Hi) as (iset1 & -> & H1); [lia | done |].
    cbn [mbind option_bind]. destruct (set_exec op X) as [X1 b]. cbn [fst snd] in *.
    destruct (IH iset1 X1 (n + 1) H1) as (iset2 & -> & H2); [lia |].
    cbn [mbind option_bind]. destruct (set_run ops X1) as [X2 bs]. exists iset2.
    split; [done |]. now replace (n + (1 + zlen ops)) with (n + 1 + zlen ops) by lia.
Qed.

(** C4: [intsetValidateIntegrity] never reads outside a blob of bytes, whatever
    its content, and a deep check succeeds exactly on the blobs that are the
    representation of a non-empty set with a consistent size. *)
Theorem intsetValidateIntegrity_correct `{Host} p :
  bytes p -> zlen p < 4294967296 ->
  exists b, intsetValidateIntegrity p (zlen p) true = Some b /\
    (b = true <-> 8 <= zlen p /\ exists s, s <> [] /\ intset_rep (blob_intset p) s).
Proof.
  intros Hb Hl. unfold intsetValidateIntegrity, sizeof_intset.
  destruct (Z.ltb_spec (zlen p) 8).
  { exists false. split; [done |]. split; [done | lia]. }
  assert (rdn p 0 4 = Some (take 4 p) /\ rdn p 4 4 = Some (take 4 (drop 4 p))) as [-> ->].
  { unfold rdn. rewrite !(proj2 (Z.leb_le _ (zlen p))) by lia. done. }
  cbn [mbind option_bind]. fold (blob_intset p).
  change (native_dec (take 4 p)) with (encoding (blob_intset p)).
  set (e := intrev32ifbe (encoding (blob_intset p))).
  destruct (_ || _ || _) eqn:He; cbn [negb].
  2:{ exists false. split; [done |]. split; [done |]. intros (_ & s & _ & Hr).
      pose proof (rep_enc _ _ Hr) as He'. fold e in He'.
      rewrite !orb_false_iff, !Z.eqb_neq in He. unfold enc_ok, INTSET_ENC_INT16, INTSET_ENC_INT32, INTSET_ENC_INT64 in *. lia. }
  assert (enc_ok e) as Hok.
  { rewrite !orb_true_iff, !Z.eqb_eq in He. unfold enc_ok, INTSET_ENC_INT16, INTSET_ENC_INT32, INTSET_ENC_INT64 in *. lia. }
  set (count := intrev32ifbe (length_ (blob_intset p))).
  assert (0 <= count) as Hc0.
  { apply intrev32ifbe_bound. cbn [blob_intset length_].
    assert (length (take 4 (drop 4 p)) = 4%nat) as L by (rewrite length_take, length_drop; unfold zlen in *; lia).
    assert (bytes (take 4 (drop 4 p))) as B by (apply Forall_take, Forall_drop, Hb).
    unfold native_dec. destruct big_endian.
    - pose proof (le_dec_bound (rev (take 4 (drop 4 p)))) as Bd. unfold zlen in Bd.
      rewrite length_rev, L in Bd. apply Bd, Forall_rev, B.
    - pose proof (le_dec_bound _ B) as Bd. unfold zlen in Bd. rewrite L in Bd. exact Bd. }
  assert (zlen (contents (blob_intset p)) = zlen p - 8) as Hcl.
  { cbn [blob_intset contents]. unfold zlen in *. rewrite length_drop. lia. }
  change (intrev32ifbe (length_ _)) with count.
  destruct (Z.eqb_spec (8 + count * e) (zlen p)) as [Hsz | Hsz]; cbn [negb].
  2:{ exists false. split; [done |]. split; [done |]. intros (_ & s & _ & Hr).
      pose proof (rep_size _ _ Hr) as Hs. fold e in Hs. pose proof (rep_len _ _ Hr) as Hl'. fold count in Hl'. lia. }
  destruct (Z.eqb_spec count 0) as [Hz | Hz].
  { exists false. split; [done |]. split; [done |]. intros (_ & s & Hne & Hr).
    pose proof (rep_len _ _ Hr) as Hl'. fold count in Hl'. destruct Hne. apply zlen_0. lia. }
  destruct (blob_elems_rep p count e Hb Hok eq_refl eq_refl Hc0) as [Hget Hinc]; [lia |].
  rewrite Hget by lia. cbn [mbind option_bind].
  pose proof (intset_elems_length (blob_intset p) count Hc0) as Hel.
  destruct (validate_loop_spec (blob_intset p) (intset_elems (blob_intset p) count)) with (n := Z.to_nat count)
    (i := 1) (prev := intset_elems (blob_intset p) count !!! Z.to_nat 0) as (b & E & Hb'); try done; try lia.
  { unfold enc_ok in Hok. nia. }
  { rewrite Hel. exact Hget. }
  rewrite Hel in E. exists b. split; [exact E |]. rewrite Hb', increasing_adjacent, Hinc.
  split; [| naive_solver]. intros [s Hr]. split; [lia |]. exists s. split; [| done].
  intros ->. pose proof (rep_len _ _ Hr) as Hl'. fold count in Hl'. unfold zlen in Hl'. simpl in Hl'. lia.
Qed.

(** * Witnesses: the properties at concrete sets *)

(** {-5, 5, 260} in 16 bit cells, on a little endian host. *)
Definition demo_blob : list Z := [2; 0; 0; 0; 3; 0; 0; 0; 251; 255; 5; 0; 4; 1].

Lemma demo_rep (h := false : Host) : intset_rep (blob_intset demo_blob) [-5; 5; 260].
Proof.
  split; try reflexivity.
  - left. reflexivity.
  - intros [| [| [| i]]] x [= <-]; reflexivity.
  - forall_lit ltac:(split; vm_compute; first [reflexivity | discriminate]).
  - apply increasing_adjacent. intros i Hi. change (zlen [-5; 5; 260]) with 3 in Hi.
    assert (i = 1 \/ i = 2) as [-> | ->] by lia; reflexivity.
Qed.

Lemma intsetSearch_correct_witness (h := false : Host) :
  exists pos, intsetSearch (blob_intset demo_blob) 100 = Some (bool_decide (100 ∈ [-5; 5; 260]), pos).
Proof.
  destruct (intsetSearch_correct (blob_intset demo_blob) [-5; 5; 260] 100 demo_rep) as (pos & E & _).
  - reflexivity.
  - exists pos. exact E.
Defined.

Lemma intset_refines_set_witness (h := false : Host) :
  let ops := [OpAdd 5; OpAdd 70000; OpAdd (-1); OpRemove 5; OpFind 70000; OpFind 5] in
  exists iset', intset_run (fun _ => 0) ops intsetNew = Some (iset', (set_run ops ∅).2) /\
    implements iset' (set_run ops ∅).1 6.
Proof.
  intros ops. apply (intset_refines_set (fun _ => 0) ops intsetNew ∅ 0).
  - exists []. split; [apply intsetNew_rep |]. split; [set_solver | reflexivity].
  - reflexivity.
  - forall_lit ltac:(unfold is_i64; simpl; lia).
Defined.

Lemma intsetValidateIntegrity_correct_witness (h := false : Host) :
  exists b, intsetValidateIntegrity demo_blob 14 true = Some b /\
    (b = true <-> 8 <= 14 /\ exists s, s <> [] /\ intset_rep (blob_intset demo_blob) s).
Proof.
  apply (intsetValidateIntegrity_correct demo_blob); [| reflexivity].
  forall_lit ltac:(unfold byte; lia).
Defined.
