(* ===== verification/Strnum.v ===== *)
(** util.c, numbers and strings: decimal printing and parsing of 64 bit
    integers, memory sizes, and two small buffer scans.

    A C string or buffer is a [list Z] of character codes.  [ull2string] and
    [ll2string] write into a caller's buffer, which is modelled as the list of
    its bytes; the parsers take the characters between the pointer and its
    end, so a pointer increment is the tail of the list. *)
From Stdlib Require Import Strings.String Strings.Ascii.
From S2P Require Import Prelude.
Export Stdlib.Strings.String.StringSyntax.

(** Character codes of a literal. *)
Definition chars (s : string) : list Z :=
  map (fun a => Z.of_nat (nat_of_ascii a)) (list_ascii_of_string s).
Arguments chars s%_string_scope.

Definition LONG_STR_SIZE : Z := 21.

(** [digits10] calls itself on [v / 10^12]; a 64 bit value needs at most one
    such call. *)
Fixpoint digits10_fuel (fuel : nat) (v : Z) : Z :=
  if v <? 10 then 1 else
  if v <? 100 then 2 else
  if v <? 1000 then 3 else
  if v <? 1000000000000 then
    if v <? 100000000 then
      if v <? 1000000 then
        if v <? 10000 then 4 else 5 + Z.b2z (100000 <=? v)
      else 7 + Z.b2z (10000000 <=? v)
    else if v <? 10000000000 then 9 + Z.b2z (1000000000 <=? v)
    else 11 + Z.b2z (100000000000 <=? v)
  else match fuel with
       | O => 12
       | S fuel => 12 + digits10_fuel fuel (v / 1000000000000)
       end.
Definition digits10 (v : Z) : Z := digits10_fuel 1 v.

Definition sdigits10 (v : Z) : Z :=
  if v <? 0 then
    let uv := if negb (v =? LLONG_MIN) then u64 (- v) else u64 LLONG_MAX + 1 in
    digits10 uv + 1
  else digits10 v.

Definition digits : list Z := chars
  ("0001020304050607080910111213141516171819" ++
   "2021222324252627282930313233343536373839" ++
   "4041424344454647484950515253545556575859" ++
   "6061626364656667686970717273747576777879" ++
   "8081828384858687888990919293949596979899").

(** [while (value >= 100)]: the buffer, the remaining value and [next]. *)
Fixpoint ull2string_loop (fuel : nat) (dst : list Z) (value next : Z)
    : option (list Z * Z * Z) :=
  if 100 <=? value then
    match fuel with
    | O => None
    | S fuel =>
        let i := value mod 100 * 2 in
        let value := value / 100 in
        d1 ← rd digits (i + 1);
        dst ← wrn dst next [d1];
        d0 ← rd digits i;
        dst ← wrn dst (next - 1) [d0];
        ull2string_loop fuel dst value (next - 2)
    end
  else Some (dst, value, next).

(** Forces a terminator into the buffer on error. *)
Definition string_err (dst : list Z) (dstlen : Z) : option (list Z * Z) :=
  if 0 <? dstlen then dst ← wrn dst 0 [0]; Some (dst, 0) else Some (dst, 0).

(** The buffer and the returned length; [dstlen] is the size the caller
    declares. *)
Definition ull2string (dst : list Z) (dstlen value : Z) : option (list Z * Z) :=
  let length := digits10 value in
  if dstlen <=? length then string_err dst dstlen
  else
    let next := length - 1 in
    dst ← wrn dst (next + 1) [0];
    '(dst, value, next) ← ull2string_loop 10 dst value next;
    if value <? 10 then
      dst ← wrn dst next [48 + value]; Some (dst, length)
    else
      let i := value * 2 in
      d1 ← rd digits (i + 1);
      dst ← wrn dst next [d1];
      d0 ← rd digits i;
      dst ← wrn dst (next - 1) [d0];
      Some (dst, length).

Definition ll2string (dst : list Z) (dstlen svalue : Z) : option (list Z * Z) :=
  if svalue <? 0 then
    let value := if negb (svalue =? LLONG_MIN) then u64 (- svalue) else u64 LLONG_MAX + 1 in
    if dstlen <? 2 then string_err dst dstlen
    else
      dst ← wrn dst 0 [45];
      match dst with
      | [] => None
      | c :: rest =>   (* dst++, dstlen-- *)
          '(rest, length) ← ull2string rest (dstlen - 1) value;
          if length =? 0 then Some (c :: rest, 0) else Some (c :: rest, length + 1)
      end
  else
    '(dst, length) ← ull2string dst dstlen svalue;
    if length =? 0 then Some (dst, 0) else Some (dst, length).

Definition is_digit (c : Z) : bool := (48 <=? c) && (c <=? 57).

(** The digit loop of [string2ll]: [None] on overflow, otherwise the value and
    the characters not consumed. *)
Fixpoint string2ll_loop (p : list Z) (v : Z) : option (Z * list Z) :=
  match p with
  | c :: p' =>
      if is_digit c then
        if ULLONG_MAX / 10 <? v then None
        else
          let v := v * 10 in
          if ULLONG_MAX - (c - 48) <? v then None
          else string2ll_loop p' (v + (c - 48))
      else Some (v, p)
  | [] => Some (v, p)
  end.

(** [string2ll] after the sign: [p] is the rest of the string. *)
Definition string2ll_unsigned (negative : bool) (p : list Z) : option Z :=
  match p with
  | [] => None
  | c :: p =>
      if (49 <=? c) && (c <=? 57) then
        '(v, p) ← string2ll_loop p (c - 48);
        match p with
        | _ :: _ => None
        | [] =>
            if negative then
              if u64 (- (LLONG_MIN + 1)) + 1 <? v then None else Some (i64 (u64 (- v)))
            else if LLONG_MAX <? v then None else Some v
        end
      else None
  end.

(** [Some v]: returns 1 with [*value = v]; [None]: returns 0. *)
Definition string2ll (s : list Z) : option Z :=
  if (0 =? zlen s) || (LONG_STR_SIZE <=? zlen s) then None
  else if (zlen s =? 1) && (s !!! 0%nat =? 48) then Some 0
  else if s !!! 0%nat =? 45 then string2ll_unsigned true (tail s)
  else string2ll_unsigned false s.

(** [long] is 64 bits wide. *)
Definition string2l (s : list Z) : option Z :=
  llval ← string2ll s;
  if (llval <? LLONG_MIN) || (LLONG_MAX <? llval) then None else Some llval.

(** ** Memory sizes *)

Definition tolower (c : Z) : Z := if (65 <=? c) && (c <=? 90) then c + 32 else c.

(** [strcasecmp(u, lit) == 0] on a string without its terminator. *)
Definition strcaseeq (u : list Z) (lit : string) : bool :=
  bool_decide (map tolower u = map tolower (chars lit)).

(** The loop that skips digits: the digits skipped and [u]. *)
Fixpoint span_digits (p : list Z) : list Z * list Z :=
  match p with
  | c :: p' =>
      if is_digit c then let '(d, u) := span_digits p' in (c :: d, u) else ([], p)
  | [] => ([], [])
  end.

(** [strtoull] in base 10 on a string of digits: the value, saturated. *)
Definition strtoull_digits (d : list Z) : Z :=
  Z.min ULLONG_MAX (fold_left (fun a c => 10 * a + (c - 48)) d 0).

(** [Some n]: the size with [*err = 0]; [None]: 0 with [*err = 1].  [p] holds
    the characters before the terminator. *)
Definition memtoull (p : list Z) : option Z :=
  if (match p with c :: _ => c =? 45 | [] => false end) then None
  else
    let '(d, u) := span_digits p in
    mul ← (if bool_decide (u = []) || strcaseeq u "b" then Some 1
           else if strcaseeq u "k" then Some 1000
           else if strcaseeq u "kb" then Some 1024
           else if strcaseeq u "m" then Some (1000 * 1000)
           else if strcaseeq u "mb" then Some (1024 * 1024)
           else if strcaseeq u "g" then Some (1000 * 1000 * 1000)
           else if strcaseeq u "gb" then Some (1024 * 1024 * 1024)
           else None);
    if 128 <=? zlen d then None
    else Some (u64 (strtoull_digits d * mul)).

(** ** Buffer scans *)

(** [mempbrk]: offset of the first byte of [s] that is one of [chars]. *)
Fixpoint mempbrk_from (s : list Z) (set : list Z) (j : Z) : option Z :=
  match s with
  | [] => None
  | c :: s => if bool_decide (c ∈ set) then Some j else mempbrk_from s set (j + 1)
  end.
Definition mempbrk (s set : list Z) : option Z := mempbrk_from s set 0.

(** One byte of [memmapchars]: the first match of [from] decides. *)
Fixpoint mapchar (c : Z) (from to : list Z) : Z :=
  match from, to with
  | f :: from, t :: to => if c =? f then t else mapchar c from to
  | _, _ => c
  end.
Definition memmapchars (s from to : list Z) : list Z := map (fun c => mapchar c from to) s.

(** * Reference decimal notation *)

(** Value of a digit string read after a prefix of value [a]. *)
Definition dval (a : Z) (s : list Z) : Z := fold_left (fun a c => 10 * a + (c - 48)) s a.

Fixpoint udec_fuel (fuel : nat) (v : Z) : list Z :=
  match fuel with
  | O => []
  | S fuel => if v <? 10 then [48 + v] else udec_fuel fuel (v / 10) ++ [48 + v mod 10]
  end.

(** Decimal notation of an unsigned and of a signed 64 bit integer. *)
Definition udec (v : Z) : list Z := udec_fuel 20 v.
Definition sdec (v : Z) : list Z := if v <? 0 then 45 :: udec (- v) else udec v.

Definition all_digits (s : list Z) : Prop := Forall (fun c => 48 <= c <= 57) s.

Lemma is_digit_spec c : is_digit c = true <-> 48 <= c <= 57.
Proof. unfold is_digit. rewrite andb_true_iff, !Z.leb_le. done. Qed.

Lemma dval_app a s t : dval a (s ++ t) = dval (dval a s) t.
Proof. apply fold_left_app. Qed.

Lemma dval_snoc a s c : dval a (s ++ [c]) = 10 * dval a s + (c - 48).
Proof. rewrite dval_app. done. Qed.

Lemma dval_mono a s : all_digits s -> 0 <= a -> a <= dval a s.
Proof.
  intros Hs. revert a. induction Hs as [| c s Hc _ IH]; intros a Ha; [done |].
  change (dval a (c :: s)) with (dval (10 * a + (c - 48)) s).
  transitivity (10 * a + (c - 48)); [lia | apply IH; lia].
Qed.

(** [10^k <= dval a s < 10^(k+1)]-style bounds from the length. *)
Lemma dval_bounds a s : all_digits s -> 0 <= a ->
  a * 10 ^ zlen s <= dval a s < (a + 1) * 10 ^ zlen s.
Proof.
  intros Hs. revert a. induction Hs as [| c s Hc _ IH]; intros a Ha.
  - unfold zlen. simpl. lia.
  - change (dval a (c :: s)) with (dval (10 * a + (c - 48)) s).
    rewrite zlen_cons, Z.pow_add_r by (pose proof (zlen_nonneg s); lia).
    pose proof (Z.pow_pos_nonneg 10 (zlen s) ltac:(lia) (zlen_nonneg s)).
    specialize (IH (10 * a + (c - 48)) ltac:(lia)). nia.
Qed.

Lemma udec_fuel_digits n v : 0 <= v -> all_digits (udec_fuel n v).
Proof.
  revert v. induction n as [| n IH]; intros v Hv; cbn [udec_fuel]; [constructor |].
  destruct (Z.ltb_spec v 10).
  - constructor; [lia | constructor].
  - apply Forall_app. split; [apply IH; apply Z.div_pos; lia |].
    constructor; [| constructor]. pose proof (Z.mod_pos_bound v 10). lia.
Qed.

Lemma udec_fuel_val n v : 0 <= v < 10 ^ Z.of_nat n -> dval 0 (udec_fuel n v) = v.
Proof.
  revert v. induction n as [| n IH]; intros v Hv; cbn [udec_fuel]; [simpl in *; lia |].
  destruct (Z.ltb_spec v 10).
  - unfold dval. simpl. lia.
  - rewrite dval_snoc, IH; [dm |].
    rewrite Nat2Z.inj_succ, Z.pow_succ_r in Hv by lia. split; [apply Z.div_pos; lia |].
    apply Z.div_lt_upper_bound; lia.
Qed.

(** The notation has no leading zero. *)
Lemma udec_fuel_head n v : 0 <= v < 10 ^ Z.of_nat n -> (0 < n)%nat ->
  exists c t, udec_fuel n v = c :: t /\ (v = 0 /\ c = 48 /\ t = [] \/ 49 <= c <= 57).
Proof.
  revert v. induction n as [| n IH]; intros v Hv Hn; [lia |]. cbn [udec_fuel].
  destruct (Z.ltb_spec v 10).
  - exists (48 + v), []. split; [done |]. destruct (decide (v = 0)); [left; split_and!; [done | lia | done] | right; lia].
  - rewrite Nat2Z.inj_succ, Z.pow_succ_r in Hv by lia.
    assert (1 <= v / 10 < 10 ^ Z.of_nat n) as Hd.
    { split; [apply Z.div_le_lower_bound | apply Z.div_lt_upper_bound]; lia. }
    destruct n as [| n]; [simpl in Hd; lia |].
    destruct (IH (v / 10)) as (c & t & -> & Hc); [lia.. |].
    exists c, (t ++ [48 + v mod 10]). split; [done |]. right. destruct Hc as [Hc |]; lia.
Qed.

Lemma canonical_length s t :
  all_digits s -> all_digits t -> (exists c s', s = c :: s' /\ 49 <= c) ->
  zlen s < zlen t -> (exists c t', t = c :: t' /\ 49 <= c) -> dval 0 s < dval 0 t.
Proof.
  intros Hs Ht (c & s' & -> & Hc) Hlt (d & t' & -> & Hd).
  inversion Hs as [| ? ? Hc' Hs']; inversion Ht as [| ? ? Hd' Ht']; subst.
  change (dval 0 (c :: s')) with (dval (c - 48) s'). change (dval 0 (d :: t')) with (dval (d - 48) t').
  rewrite !zlen_cons in Hlt.
  pose proof (dval_bounds (c - 48) s' Hs' ltac:(lia)) as [_ B1].
  pose proof (dval_bounds (d - 48) t' Ht' ltac:(lia)) as [B2 _].
  pose proof (zlen_nonneg s').
  pose proof (Z.pow_le_mono_r 10 (1 + zlen s') (zlen t') ltac:(lia) ltac:(lia)) as Hp.
  rewrite Z.pow_add_r in Hp by lia.
  pose proof (Z.pow_pos_nonneg 10 (zlen s') ltac:(lia) ltac:(lia)). nia.
Qed.

Lemma dval_inj_length a b s t :
  all_digits s -> all_digits t -> length s = length t -> 0 <= a -> 0 <= b ->
  dval a s = dval b t -> a = b /\ s = t.
Proof.
  intros Hs. revert a b t. induction Hs as [| c s Hc _ IH]; intros a b t Ht Hl Ha Hb E.
  - destruct t; [| done]. done.
  - destruct Ht as [| d t Hd Ht]; [done |]. injection Hl as Hl.
    change (dval (10 * a + (c - 48)) s = dval (10 * b + (d - 48)) t) in E.
    apply IH in E as [E ->]; [| done | done | lia..]. split; [lia | f_equal; lia].
Qed.

(** A digit string without leading zero is the decimal notation of its value. *)
Lemma canonical_udec c s :
  all_digits (c :: s) -> 49 <= c -> dval 0 (c :: s) < 10 ^ 20 -> udec (dval 0 (c :: s)) = c :: s.
Proof.
  intros Hs Hc Hv. pose proof (dval_mono 0 _ Hs ltac:(lia)) as Hpos.
  set (v := dval 0 (c :: s)) in *.
  assert (dval 0 (udec v) = v) as Hval by (apply udec_fuel_val; simpl; lia).
  assert (all_digits (udec v)) as Hd by (apply udec_fuel_digits; lia).
  assert (0 < v) as Hv0.
  { unfold v. inversion Hs as [| ? ? ? Hs']; subst. change (dval 0 (c :: s)) with (dval (c - 48) s).
    pose proof (dval_mono (c - 48) s Hs' ltac:(lia)). lia. }
  destruct (udec_fuel_head 20 v) as (d & t & E & [Hh | Hh]); [simpl; lia | lia | lia |].
  fold (udec v) in E.
  destruct (Z.lt_trichotomy (zlen (c :: s)) (zlen (udec v))) as [Hl | [Hl | Hl]].
  - pose proof (canonical_length (c :: s) (udec v)) as Hlt. rewrite Hval in Hlt. fold v in Hlt.
    exfalso. enough (v < v) by lia. apply Hlt; eauto 6 with lia.
  - assert (length (udec v) = length (c :: s)) as Hl' by (unfold zlen in Hl; lia).
    destruct (dval_inj_length 0 0 (udec v) (c :: s) Hd Hs Hl' ltac:(lia) ltac:(lia)); [exact Hval | done].
  - pose proof (canonical_length (udec v) (c :: s)) as Hlt. rewrite Hval in Hlt. fold v in Hlt.
    exfalso. enough (v < v) by lia. apply Hlt; eauto 6 with lia.
Qed.

(** ** Steps and length of the notation *)

Lemma udec_fuel_mono n v : 0 <= v < 10 ^ Z.of_nat n -> (0 < n)%nat ->
  udec_fuel (S n) v = udec_fuel n v.
Proof.
  revert v. induction n as [| n IH]; intros v Hv Hn; [lia |].
  cbn [udec_fuel] in *. destruct (Z.ltb_spec v 10); [done |].
  rewrite Nat2Z.inj_succ, Z.pow_succ_r in Hv by lia.
  assert (1 <= v / 10 < 10 ^ Z.of_nat n) as Hd.
  { split; [apply Z.div_le_lower_bound | apply Z.div_lt_upper_bound]; lia. }
  destruct n as [| n]; [simpl in Hd; lia |].
  rewrite IH by lia. done.
Qed.

Lemma udec_fuel_S n v :
  udec_fuel (S n) v = if v <? 10 then [48 + v] else udec_fuel n (v / 10) ++ [48 + v mod 10].
Proof. reflexivity. Qed.

Lemma udec_small v : v < 10 -> udec v = [48 + v].
Proof. intros. unfold udec. rewrite udec_fuel_S, (proj2 (Z.ltb_lt v 10)) by done. done. Qed.

Lemma udec_step v : 10 <= v < 10 ^ 20 -> udec v = udec (v / 10) ++ [48 + v mod 10].
Proof.
  intros Hv. assert (0 <= v / 10 < 10 ^ Z.of_nat 19) as Hd.
  { split; [apply Z.div_pos; lia | apply Z.div_lt_upper_bound; simpl; lia]. }
  unfold udec at 1. rewrite udec_fuel_S, (proj2 (Z.ltb_ge v 10)) by lia.
  rewrite <- (udec_fuel_mono 19) by (done || lia). done.
Qed.

Lemma udec_step2 v : 100 <= v < 10 ^ 20 ->
  udec v = udec (v / 100) ++ [48 + v mod 100 / 10; 48 + (v mod 100) mod 10].
Proof.
  intros Hv. assert (10 <= v / 10 < 10 ^ 20) by (split; [apply Z.div_le_lower_bound | apply Z.div_lt_upper_bound]; lia).
  rewrite udec_step, (udec_step (v / 10)), <- app_assoc by lia.
  rewrite Z.div_div by lia. cbn [app]. do 3 f_equal; [dm | f_equal; dm].
Qed.

Lemma udec_digits v : 0 <= v -> all_digits (udec v).
Proof. apply udec_fuel_digits. Qed.
Lemma udec_val v : 0 <= v < 10 ^ 20 -> dval 0 (udec v) = v.
Proof. intros. apply udec_fuel_val. done. Qed.

Lemma udec_head v : 0 < v < 10 ^ 20 -> exists c t, udec v = c :: t /\ 49 <= c <= 57.
Proof.
  intros Hv. destruct (udec_fuel_head 20 v) as (c & t & E & [? | ?]); [simpl; lia | lia | lia | eauto].
Qed.

(** [10^(k-1) <= v < 10^k] iff the notation has [k] digits. *)
Lemma udec_length v k : 0 < k -> 0 < v < 10 ^ 20 -> 10 ^ (k - 1) <= v < 10 ^ k -> zlen (udec v) = k.
Proof.
  intros Hk Hv Hb. destruct (udec_head v Hv) as (c & t & E & Hc).
  pose proof (udec_digits v ltac:(lia)) as Hd. pose proof (udec_val v ltac:(lia)) as Hval.
  rewrite E in *. pose proof (Forall_inv_tail Hd) as Hd'.
  change (dval 0 (c :: t)) with (dval (c - 48) t) in Hval.
  pose proof (dval_bounds (c - 48) t Hd' ltac:(lia)) as [B1 B2]. rewrite Hval in *.
  rewrite zlen_cons. pose proof (zlen_nonneg t).
  pose proof (Z.pow_pos_nonneg 10 (zlen t) ltac:(lia) ltac:(lia)).
  destruct (Z.lt_trichotomy (zlen t) (k - 1)) as [Hl | [Hl | Hl]]; [exfalso | lia | exfalso].
  - pose proof (Z.pow_le_mono_r 10 (1 + zlen t) (k - 1) ltac:(lia) ltac:(lia)) as Hp.
    rewrite Z.pow_add_r in Hp by lia. nia.
  - pose proof (Z.pow_le_mono_r 10 k (zlen t) ltac:(lia) ltac:(lia)). nia.
Qed.

Lemma digits10_spec v : is_u64 v -> digits10 v = zlen (udec v).
Proof.
  unfold is_u64. intros Hv. destruct (Z.ltb_spec v 10).
  { rewrite udec_small by done. unfold digits10, digits10_fuel.
    rewrite (proj2 (Z.ltb_lt v 10)) by done. done. }
  assert (0 < v < 10 ^ 20) as Hv' by lia.
  assert (forall k, 0 < k -> 10 ^ (k - 1) <= v < 10 ^ k -> k = zlen (udec v)) as Hk
    by (intros; symmetry; apply udec_length; done).
  unfold digits10. cbn [digits10_fuel].
  destruct (Z.ltb_spec v 1000000000000) as [Hs | Hb].
  - boolp; cbn [Z.b2z Z.add Pos.add Pos.succ Pos.add_carry]; try lia; apply Hk; simpl; lia.
  - set (w := v / 1000000000000). assert (w * 1000000000000 <= v < (w + 1) * 1000000000000) as Hw by (unfold w; dm).
    boolp; cbn [Z.b2z Z.add Pos.add Pos.succ Pos.add_carry]; try lia; apply Hk; simpl; lia.
Qed.

(** ** Parsing *)

Lemma string2ll_loop_digits p v : all_digits p -> 0 <= v <= ULLONG_MAX ->
  string2ll_loop p v = if dval v p <=? ULLONG_MAX then Some (dval v p, []) else None.
Proof.
  intros Hp. revert v. induction Hp as [| c p Hc Hp IH]; intros v Hv; cbn [string2ll_loop].
  - cbn. destruct (Z.leb_spec v ULLONG_MAX); [done | lia].
  - rewrite (proj2 (is_digit_spec c)) by done.
    change (dval v (c :: p)) with (dval (10 * v + (c - 48)) p).
    pose proof (dval_mono (10 * v + (c - 48)) p Hp ltac:(lia)) as Hm. unfold ULLONG_MAX in *.
    change (18446744073709551615 / 10) with 1844674407370955161.
    destruct (Z.ltb_spec 1844674407370955161 v);
      [destruct (Z.leb_spec (dval (10 * v + (c - 48)) p) 18446744073709551615); [lia | done] |].
    destruct (Z.ltb_spec (18446744073709551615 - (c - 48)) (v * 10));
      [destruct (Z.leb_spec (dval (10 * v + (c - 48)) p) 18446744073709551615); [lia | done] |].
    rewrite IH by lia. replace (v * 10 + (c - 48)) with (10 * v + (c - 48)) by lia. done.
Qed.

Lemma string2ll_loop_inv p v v' : string2ll_loop p v = Some (v', []) -> all_digits p.
Proof.
  revert v. induction p as [| c p IH]; intros v E; [constructor |].
  cbn [string2ll_loop] in E. destruct (is_digit c) eqn:Hc; [| done].
  destruct (_ <? v); [done |]. destruct (_ <? _); [done |].
  constructor; [now apply is_digit_spec | exact (IH _ E)].
Qed.

Lemma udec_nonempty v : 0 <= v < 10 ^ 20 -> 1 <= zlen (udec v).
Proof.
  intros Hv. destruct (decide (v = 0)) as [-> | ?]; [done |].
  destruct (udec_head v) as (c & t & -> & _); [lia |]. rewrite zlen_cons. pose proof (zlen_nonneg t). lia.
Qed.

Lemma udec_length_le v k : 0 < k -> 0 <= v < 10 ^ 20 -> v < 10 ^ k -> zlen (udec v) <= k.
Proof.
  intros Hk Hv Hb. destruct (decide (v = 0)) as [-> | ?]; [change (zlen (udec 0)) with 1; lia |].
  destruct (udec_head v) as (c & t & E & Hc); [lia |].
  pose proof (udec_digits v ltac:(lia)) as Hd. pose proof (udec_val v ltac:(lia)) as Hval.
  rewrite E in *. pose proof (Forall_inv_tail Hd) as Hd'.
  change (dval 0 (c :: t)) with (dval (c - 48) t) in Hval.
  pose proof (dval_bounds (c - 48) t Hd' ltac:(lia)) as [B1 B2]. rewrite Hval in *.
  rewrite zlen_cons. pose proof (zlen_nonneg t).
  destruct (Z.le_gt_cases (1 + zlen t) k); [done | exfalso].
  pose proof (Z.pow_le_mono_r 10 k (zlen t) ltac:(lia) ltac:(lia)).
  pose proof (Z.pow_pos_nonneg 10 (zlen t) ltac:(lia) ltac:(lia)). nia.
Qed.

Lemma string2ll_unsigned_spec neg c t :
  all_digits (c :: t) -> 49 <= c ->
  string2ll_unsigned neg (c :: t) =
    if dval 0 (c :: t) <=? (if neg then 9223372036854775808 else 9223372036854775807)
    then Some (if neg then - dval 0 (c :: t) else dval 0 (c :: t)) else None.
Proof.
  intros Hd Hc. pose proof (Forall_inv_tail Hd) as Hd'. pose proof (Forall_inv Hd) as Hc'. cbv beta in Hc'.
  change (dval 0 (c :: t)) with (dval (c - 48) t). unfold string2ll_unsigned.
  rewrite (proj2 (Z.leb_le 49 c)), (proj2 (Z.leb_le c 57)) by lia. cbn [andb].
  pose proof (dval_mono (c - 48) t Hd' ltac:(lia)) as Hm.
  rewrite string2ll_loop_digits by (first [exact Hd' | unfold ULLONG_MAX; lia]).
  set (w := dval (c - 48) t) in *. change (u64 (- (LLONG_MIN + 1)) + 1) with 9223372036854775808.
  unfold ULLONG_MAX, LLONG_MAX.
  destruct (Z.leb_spec w 18446744073709551615); cbn [mbind option_bind].
  - destruct neg.
    + destruct (Z.ltb_spec 9223372036854775808 w), (Z.leb_spec w 9223372036854775808); try lia; [done |].
      rewrite i64_u64, i64_id by (unfold is_i64; lia). done.
    + destruct (Z.ltb_spec 9223372036854775807 w), (Z.leb_spec w 9223372036854775807); try lia; done.
  - destruct neg; case_if; done || lia.
Qed.

Lemma string2ll_unsigned_inv neg p v :
  string2ll_unsigned neg p = Some v -> exists c t, p = c :: t /\ all_digits (c :: t) /\ 49 <= c.
Proof.
  unfold string2ll_unsigned. destruct p as [| c t]; [done |].
  destruct (_ && _) eqn:Ec; [| done]. apply andb_true_iff in Ec as [Hc1 Hc2]. apply Z.leb_le in Hc1, Hc2.
  destruct (string2ll_loop t (c - 48)) as [[w [| ]] |] eqn:El; [| done | done]. intros _.
  exists c, t. split; [done |]. split; [| done]. constructor; [lia | exact (string2ll_loop_inv _ _ _ El)].
Qed.

(** [string2ll] on a signed canonical numeral. *)
Lemma string2ll_sdec v : is_i64 v -> string2ll (sdec v) = Some v.
Proof.
  unfold is_i64. intros Hv. destruct (decide (v = 0)) as [-> | Hnz]; [reflexivity |].
  destruct (udec_head (Z.abs v)) as (c & t & E & Hc); [lia |].
  pose proof (udec_digits (Z.abs v) ltac:(lia)) as Hd. pose proof (udec_val (Z.abs v) ltac:(lia)) as Hval.
  pose proof (udec_length_le (Z.abs v) 19 ltac:(lia) ltac:(lia) ltac:(lia)) as Hlen.
  rewrite E in Hd, Hval, Hlen.
  rewrite zlen_cons in Hlen. pose proof (zlen_nonneg t).
  unfold sdec, string2ll, LONG_STR_SIZE. destruct (Z.ltb_spec v 0).
  - replace (- v) with (Z.abs v) by lia. rewrite E, !zlen_cons.
    rewrite (proj2 (Z.eqb_neq 0 _)), (proj2 (Z.leb_gt 21 _)) by lia.
    rewrite (proj2 (Z.eqb_neq (1 + (1 + zlen t)) 1)) by lia.
    change ((45 :: c :: t) !!! 0%nat =? 45) with true. cbn [orb andb tail].
    rewrite string2ll_unsigned_spec, Hval by (done || lia).
    rewrite (proj2 (Z.leb_le _ _)) by lia. f_equal. lia.
  - replace v with (Z.abs v) by lia. rewrite E, !zlen_cons.
    rewrite (proj2 (Z.eqb_neq 0 _)), (proj2 (Z.leb_gt 21 _)) by lia.
    change ((c :: t) !!! 0%nat) with c.
    rewrite (proj2 (Z.eqb_neq c 48)), (proj2 (Z.eqb_neq c 45)), andb_false_r by lia. cbn [orb].
    rewrite string2ll_unsigned_spec, Hval by (done || lia).
    rewrite (proj2 (Z.leb_le _ _)) by lia. done.
Qed.

Lemma string2ll_inv s v : string2ll s = Some v -> is_i64 v /\ s = sdec v.
Proof.
  unfold string2ll. destruct (_ || _) eqn:E0; [done |].
  destruct (_ && _) eqn:E1.
  { intros [= <-]. apply andb_true_iff in E1 as [El Eh]. apply Z.eqb_eq in El, Eh.
    destruct s as [| c [| d s]]; [done | | rewrite !zlen_cons in El; pose proof (zlen_nonneg s); lia].
    change (c = 48) in Eh. subst. done. }
  destruct (s !!! 0%nat =? 45) eqn:Eneg; intros E.
  - apply Z.eqb_eq in Eneg. destruct s as [| c0 s]; [done |]. change (c0 = 45) in Eneg. subst c0.
    cbn [tail] in E. destruct (string2ll_unsigned_inv _ _ _ E) as (c & t & -> & Hd & Hc).
    rewrite string2ll_unsigned_spec in E by done.
    pose proof (dval_mono 0 _ (Forall_inv_tail Hd) ltac:(lia)) as Hm0.
    pose proof (dval_mono (c - 48) t (Forall_inv_tail Hd) ltac:(lia)) as Hm.
    pose proof (canonical_udec c t Hd Hc) as Hcan.
    change (dval (c - 48) t) with (dval 0 (c :: t)) in Hm. set (w := dval 0 (c :: t)) in *.
    destruct (Z.leb_spec w 9223372036854775808); [| done]. injection E as <-.
    split; [unfold is_i64; lia |]. unfold sdec.
    rewrite (proj2 (Z.ltb_lt _ 0)), Z.opp_involutive, Hcan by lia. done.
  - destruct (string2ll_unsigned_inv _ _ _ E) as (c & t & -> & Hd & Hc).
    rewrite string2ll_unsigned_spec in E by done.
    pose proof (dval_mono (c - 48) t (Forall_inv_tail Hd) ltac:(lia)) as Hm.
    pose proof (canonical_udec c t Hd Hc) as Hcan.
    change (dval (c - 48) t) with (dval 0 (c :: t)) in Hm. set (w := dval 0 (c :: t)) in *.
    destruct (Z.leb_spec w 9223372036854775807); [| done]. injection E as <-.
    split; [unfold is_i64; lia |]. unfold sdec.
    rewrite (proj2 (Z.ltb_ge _ 0)), Hcan by lia. done.
Qed.

(** ** Printing *)

Lemma digits_table k : 0 <= k < 100 ->
  rd digits (k * 2) = Some (48 + k / 10) /\ rd digits (k * 2 + 1) = Some (48 + k mod 10).
Proof.
  intros Hk.
  assert (forallb (fun k => bool_decide (rd digits (k * 2) = Some (48 + k / 10)) &&
            bool_decide (rd digits (k * 2 + 1) = Some (48 + k mod 10))) (seqZ 0 100) = true) as Hall
    by (vm_compute; reflexivity).
  rewrite forallb_forall in Hall. specialize (Hall k).
  rewrite andb_true_iff, !bool_decide_eq_true in Hall. apply Hall.
  apply list_elem_of_In, elem_of_seqZ. lia.
Qed.

(** Two digits written at the end of the free area [a ++ [_; _]]. *)
Lemma write_two a x y r (d0 d1 : Z) n :
  zlen a + 1 = n ->
  (dst ← wrn (a ++ [x; y] ++ r) n [d1]; wrn dst (n - 1) [d0]) = Some (a ++ [d0; d1] ++ r).
Proof.
  intros Hn. change (a ++ [x; y] ++ r) with (a ++ [x] ++ [y] ++ r).
  rewrite (app_assoc a). rewrite (wrn_app (a ++ [x]) [y] [d1] r) by (rewrite ?zlen_app; done || zl).
  cbn [mbind option_bind]. rewrite <- app_assoc.
  rewrite (wrn_app a [x] [d0] ([d1] ++ r)) by (done || lia). done.
Qed.

Lemma snoc2 (a : list Z) : 2 <= zlen a -> exists a' x y, a = a' ++ [x; y].
Proof.
  intros Hl. destruct a as [| y a _] using rev_ind; [zl |].
  destruct a as [| x a _] using rev_ind; [zl |].
  exists a, x, y. now rewrite <- app_assoc.
Qed.

(** The loop fills the buffer from the right, two digits at a time. *)
Lemma ull2string_loop_spec fuel a r value next :
  0 <= value < 10 ^ 20 -> value < 100 ^ (Z.of_nat fuel + 1) ->
  zlen a = next + 1 -> zlen (udec value) = next + 1 ->
  exists a' d value' next',
    ull2string_loop fuel (a ++ r) value next = Some (a' ++ d ++ r, value', next') /\
    0 <= value' < 100 /\ udec value = udec value' ++ d /\
    zlen a' = next' + 1 /\ zlen (udec value') = next' + 1.
Proof.
  revert a r value next. induction fuel as [| fuel IH]; intros a r value next Hv Hf Ha Hu.
  - exists a, [], value, next. change (100 ^ (Z.of_nat 0 + 1)) with 100 in Hf. cbn [ull2string_loop].
    rewrite (proj2 (Z.leb_gt 100 value)), app_nil_r by lia. split_and!; done || lia.
  - cbn [ull2string_loop]. destruct (Z.leb_spec 100 value).
    2:{ exists a, [], value, next. rewrite app_nil_r. split_and!; done || lia. }
    rewrite udec_step2 in Hu by lia. rewrite zlen_app in Hu. change (zlen [_; _]) with 2 in Hu.
    pose proof (zlen_nonneg (udec (value / 100))).
    destruct (snoc2 a) as (a' & x & y & ->); [lia |]. rewrite zlen_app in Ha. change (zlen [_; _]) with 2 in Ha.
    destruct (digits_table (value mod 100)) as [D0 D1]; [dm |].
    pose proof (write_two a' x y r (48 + value mod 100 / 10) (48 + (value mod 100) mod 10) next ltac:(lia)) as W.
    rewrite <- app_assoc. rewrite D1. cbn [mbind option_bind].
    apply bind_Some in W as (m & W1 & W2). rewrite W1. cbn [mbind option_bind]. rewrite D0. cbn [mbind option_bind].
    rewrite W2. cbn [mbind option_bind].
    assert (value / 100 < 100 ^ (Z.of_nat fuel + 1)) as Hlt.
    { apply Z.div_lt_upper_bound; [lia |]. rewrite <- Z.pow_succ_r by lia.
      now replace (Z.succ (Z.of_nat fuel + 1)) with (Z.of_nat (S fuel) + 1) by lia. }
    assert (0 <= value / 100 < 10 ^ 20) by dm.
    destruct (IH a' ([48 + value mod 100 / 10; 48 + (value mod 100) mod 10] ++ r) (value / 100) (next - 2))
      as (b & d & v' & n' & -> & Hv' & Hu' & Hb & Hn'); try lia.
    exists b, (d ++ [48 + value mod 100 / 10; 48 + (value mod 100) mod 10]), v', n'.
    rewrite <- app_assoc. split_and!; try done; try lia.
    rewrite udec_step2, Hu', app_assoc by lia. done.
Qed.

Lemma ull2string_spec dst dstlen v :
  is_u64 v -> dstlen <= zlen dst ->
  if digits10 v <? dstlen then
    exists r, ull2string dst dstlen v = Some (udec v ++ 0 :: r, digits10 v) /\
      zlen (udec v ++ 0 :: r) = zlen dst
  else exists dst', ull2string dst dstlen v = Some (dst', 0).
Proof.
  unfold is_u64. intros Hv Hd. unfold ull2string. rewrite digits10_spec by exact Hv.
  pose proof (udec_nonempty v ltac:(lia)) as Hne.
  destruct (Z.ltb_spec (zlen (udec v)) dstlen) as [Hl | Hl], (Z.leb_spec dstlen (zlen (udec v))); try lia.
  2:{ unfold string_err. destruct (Z.ltb_spec 0 dstlen); [| eauto].
      destruct (wrn_is_Some dst 0 [0]) as [m ->]; [lia | change (zlen [0]) with 1; lia | eauto]. }
  replace (zlen (udec v) - 1 + 1) with (zlen (udec v)) by lia.
  destruct (zlen_split_prefix dst (zlen (udec v))) as (a & [| x r] & -> & Ha); [lia | rewrite app_nil_r in Hd; lia |].
  change (a ++ x :: r) with (a ++ [x] ++ r). rewrite (wrn_app a [x] [0] r) by done. cbn [mbind option_bind].
  destruct (ull2string_loop_spec 10 a ([0] ++ r) v (zlen (udec v) - 1)) as
    (b & d & v' & n' & -> & Hv' & Hu & Hb & Hn'); try lia; try (simpl; lia).
  cbn [mbind option_bind]. exists r. rewrite Hu, <- app_assoc.
  assert (zlen b = zlen (udec v')) as Hbl by lia.
  split.
  2:{ rewrite Hu, zlen_app in Ha. change (udec v' ++ d ++ 0 :: r) with (udec v' ++ d ++ [0] ++ r). zl. }
  destruct (Z.ltb_spec v' 10).
  - rewrite udec_small in * by done. change (zlen [48 + v']) with 1 in *.
    destruct b as [| y [| z b]]; [done | | rewrite !zlen_cons in Hbl; pose proof (zlen_nonneg b); lia].
    replace n' with 0 by lia. now rewrite (wrn_app [] [y] [48 + v'] (d ++ [0] ++ r)).
  - rewrite udec_step, udec_small in * by first [lia | dm].
    change (zlen ([48 + v' / 10] ++ [48 + v' mod 10])) with 2 in *.
    destruct (snoc2 b) as (b' & y & z & ->); [lia |]. rewrite zlen_app in Hbl. change (zlen [y; z]) with 2 in Hbl.
    assert (b' = []) as -> by (apply zlen_0; lia). cbn [app].
    destruct (digits_table v') as [D0 D1]; [lia |]. rewrite D1. cbn [mbind option_bind].
    pose proof (write_two [] y z (d ++ 0 :: r) (48 + v' / 10) (48 + v' mod 10) n' ltac:(change (zlen []) with 0; lia)) as W.
    cbn [app] in W. apply bind_Some in W as (m & W1 & W2). rewrite W1. cbn [mbind option_bind].
    rewrite D0. cbn [mbind option_bind]. rewrite W2. done.
Qed.

Lemma zlen_sdec v : is_i64 v -> zlen (sdec v) <= 20.
Proof.
  intros Hv. unfold is_i64 in Hv. unfold sdec. case_if; [rewrite zlen_cons |];
    (match goal with |- context [udec ?x] => pose proof (udec_length_le x 19) end); lia.
Qed.

Lemma sdec_bytes v : is_i64 v -> bytes (sdec v).
Proof.
  intros Hv. unfold is_i64 in Hv. assert (forall n, 0 <= n -> bytes (udec n)) as Hu.
  { intros n Hn. eapply Forall_impl; [by apply udec_digits |]. intros c Hc. unfold byte. cbn beta in Hc. lia. }
  unfold sdec. destruct (Z.ltb_spec v 0); [apply Forall_cons_2; [by unfold byte |] |]; apply Hu; lia.
Qed.

Lemma sdigits10_spec v : is_i64 v -> sdigits10 v = zlen (sdec v).
Proof.
  unfold is_i64, sdigits10, sdec, LLONG_MIN, LLONG_MAX. intros Hv. destruct (Z.ltb_spec v 0).
  - rewrite zlen_cons.
    assert ((if negb (v =? -9223372036854775808) then u64 (- v) else u64 9223372036854775807 + 1) = - v) as ->.
    { destruct (Z.eqb_spec v (-9223372036854775808)) as [-> |]; [done |].
      cbn [negb]. apply u64_id. unfold is_u64. lia. }
    rewrite digits10_spec by (unfold is_u64; lia). lia.
  - apply digits10_spec. unfold is_u64. lia.
Qed.

Lemma ll2string_neg_value v : is_i64 v -> v < 0 ->
  (if negb (v =? LLONG_MIN) then u64 (- v) else u64 LLONG_MAX + 1) = - v.
Proof.
  unfold is_i64, LLONG_MIN, LLONG_MAX. intros Hv Hn.
  destruct (Z.eqb_spec v (-9223372036854775808)) as [-> |]; [done |].
  cbn [negb]. apply u64_id. unfold is_u64. lia.
Qed.

Lemma ll2string_spec dst dstlen v :
  is_i64 v -> dstlen <= zlen dst ->
  if sdigits10 v <? dstlen then
    exists r, ll2string dst dstlen v = Some (sdec v ++ 0 :: r, sdigits10 v) /\
      zlen (sdec v ++ 0 :: r) = zlen dst
  else exists dst', ll2string dst dstlen v = Some (dst', 0).
Proof.
  intros Hv Hd. rewrite sdigits10_spec by done. unfold ll2string, sdec.
  assert (is_u64 (Z.abs v)) as Hu by (unfold is_u64, is_i64 in *; lia).
  pose proof (udec_nonempty (Z.abs v) ltac:(unfold is_u64 in Hu; lia)) as Hne.
  pose proof (fun dst dstlen => ull2string_spec dst dstlen (Z.abs v) Hu) as Hull.
  rewrite digits10_spec in Hull by exact Hu.
  destruct (Z.ltb_spec v 0).
  - rewrite ll2string_neg_value by done. replace (- v) with (Z.abs v) by lia. rewrite zlen_cons.
    destruct (Z.ltb_spec dstlen 2).
    { rewrite (proj2 (Z.ltb_ge _ _)) by lia. unfold string_err. destruct (Z.ltb_spec 0 dstlen); [| eauto].
      destruct (wrn_is_Some dst 0 [0]) as [m ->]; [lia | change (zlen [0]) with 1; lia | eauto]. }
    destruct dst as [| x dst]; [unfold zlen in Hd; simpl in Hd; lia |]. rewrite zlen_cons in *.
    change (x :: dst) with ([] ++ [x] ++ dst). rewrite (wrn_app [] [x] [45] dst) by done.
    cbn [mbind option_bind app]. specialize (Hull dst (dstlen - 1) ltac:(lia)).
    destruct (Z.ltb_spec (1 + zlen (udec (Z.abs v))) dstlen),
      (Z.ltb_spec (zlen (udec (Z.abs v))) (dstlen - 1)); try lia.
    + destruct Hull as (r & -> & Hz). cbn [mbind option_bind].
      rewrite (proj2 (Z.eqb_neq (zlen (udec (Z.abs v))) 0)) by lia.
      exists r. cbn [app]. rewrite zlen_cons, Hz. split; [do 2 f_equal; lia | lia].
    + destruct Hull as (d' & ->). cbn [mbind option_bind]. eauto.
  - replace v with (Z.abs v) by lia. specialize (Hull dst dstlen Hd).
    destruct (Z.ltb_spec (zlen (udec (Z.abs v))) dstlen).
    + destruct Hull as (r & -> & Hz). cbn [mbind option_bind].
      rewrite (proj2 (Z.eqb_neq (zlen (udec (Z.abs v))) 0)) by lia. eauto.
    + destruct Hull as (d' & ->). cbn [mbind option_bind]. eauto.
Qed.

(** ** Memory sizes *)

(** The unit suffixes of redis.conf and their multipliers. *)
Inductive size_unit : list Z -> Z -> Prop :=
  | unit_none : size_unit [] 1
  | unit_b u : map tolower u = chars "b" -> size_unit u 1
  | unit_k u : map tolower u = chars "k" -> size_unit u 1000
  | unit_kb u : map tolower u = chars "kb" -> size_unit u (2 ^ 10)
  | unit_m u : map tolower u = chars "m" -> size_unit u (1000 ^ 2)
  | unit_mb u : map tolower u = chars "mb" -> size_unit u (2 ^ 20)
  | unit_g u : map tolower u = chars "g" -> size_unit u (1000 ^ 3)
  | unit_gb u : map tolower u = chars "gb" -> size_unit u (2 ^ 30).

Lemma span_digits_spec p d u : span_digits p = (d, u) ->
  p = d ++ u /\ all_digits d /\ (match u with c :: _ => is_digit c = false | [] => True end).
Proof.
  revert d u. induction p as [| c p IH]; intros d u; cbn [span_digits].
  - intros [= <- <-]. split_and!; [done | constructor | done].
  - destruct (is_digit c) eqn:Hc.
    + destruct (span_digits p) as [d' u'] eqn:E. intros [= <- <-].
      destruct (IH d' u' eq_refl) as (-> & Hd & Hu). split_and!; [done | | done].
      constructor; [now apply is_digit_spec | done].
    + intros [= <- <-]. split_and!; [done | constructor | done].
Qed.

Lemma span_digits_app d u : all_digits d -> (match u with c :: _ => is_digit c = false | [] => True end) ->
  span_digits (d ++ u) = (d, u).
Proof.
  intros Hd Hu. induction Hd as [| c d Hc _ IH]; cbn [app span_digits].
  - destruct u as [| c u]; [done |]. cbn [span_digits]. now rewrite Hu.
  - rewrite (proj2 (is_digit_spec c)) by done. now rewrite IH.
Qed.

Lemma tolower_letter c x : tolower c = x -> 97 <= x -> is_digit c = false /\ c <> 45.
Proof.
  unfold tolower, is_digit. intros <-.
  destruct (Z.leb_spec 65 c), (Z.leb_spec c 90); cbn [andb]; intros;
    destruct (Z.leb_spec 48 c), (Z.leb_spec c 57); cbn [andb]; lia.
Qed.

Lemma size_unit_head u m : size_unit u m ->
  match u with c :: _ => is_digit c = false /\ c <> 45 | [] => True end.
Proof.
  intros Hu. destruct u as [| c u]; [done |].
  inversion Hu as [| ? E | ? E | ? E | ? E | ? E | ? E | ? E]; subst; injection E as E _;
    (eapply tolower_letter; [exact E | vm_compute; discriminate]).
Qed.

(** Literals are bytes. *)
Lemma chars_bytes s : bytes (chars s).
Proof.
  unfold bytes, chars. apply Forall_forall. intros b Hb. apply list_elem_of_In, in_map_iff in Hb as (a & <- & _).
  pose proof (Ascii.nat_ascii_bounded a). unfold byte. lia.
Qed.

(** The characters [ll2string] writes into a buffer that is large enough. *)
Lemma ll2string_text buf size v : is_i64 v -> 21 <= size -> size <= zlen buf ->
  ('(buf, len) ← ll2string buf size v; Some (take (Z.to_nat len) buf)) = Some (sdec v).
Proof.
  intros Hv Hs Hb. pose proof (ll2string_spec buf size v Hv Hb) as E. rewrite sdigits10_spec in E by done.
  pose proof (zlen_sdec v Hv). rewrite (proj2 (Z.ltb_lt _ _)) in E by lia. destruct E as (r & -> & _).
  cbn [mbind option_bind]. f_equal. unfold zlen. by rewrite Nat2Z.id, take_app_length.
Qed.

Lemma strcaseeq_spec u lit : strcaseeq u lit = true <-> map tolower u = map tolower (chars lit).
Proof. apply bool_decide_eq_true. Qed.

Definition unit_mul (u : list Z) : option Z :=
  if bool_decide (u = []) || strcaseeq u "b" then Some 1
  else if strcaseeq u "k" then Some 1000
  else if strcaseeq u "kb" then Some 1024
  else if strcaseeq u "m" then Some (1000 * 1000)
  else if strcaseeq u "mb" then Some (1024 * 1024)
  else if strcaseeq u "g" then Some (1000 * 1000 * 1000)
  else if strcaseeq u "gb" then Some (1024 * 1024 * 1024)
  else None.

Lemma unit_mul_spec u m : unit_mul u = Some m <-> size_unit u m.
Proof.
  unfold unit_mul. split.
  - repeat match goal with |- context [if ?b then _ else _] => destruct b eqn:? end; intros [= <-];
      rewrite ?orb_true_iff, ?bool_decide_eq_true, ?strcaseeq_spec in *; [| by constructor..].
    destruct Heqb as [-> | ?]; by constructor.
  - unfold strcaseeq. intros Hu.
    inversion Hu as [| ? E | ? E | ? E | ? E | ? E | ? E | ? E]; subst; try reflexivity; rewrite E;
      (destruct u; [discriminate E |]); reflexivity.
Qed.

(** * Properties *)

(** [string2ll] is strict, as its comment promises: it accepts exactly the
    decimal notations (no spaces, no leading zeros, no plus sign, no [-0]) of
    the 64 bit signed integers and returns the integer.  So converting an
    accepted string to a number and printing it back gives the same string. *)
Theorem string2ll_strict s v : string2ll s = Some v <-> is_i64 v /\ s = sdec v.
Proof.
  split; [apply string2ll_inv |]. intros [Hv ->]. now apply string2ll_sdec.
Qed.

(** [ll2string] and [string2ll] round trip in every buffer.  If the buffer
    is larger than [sdigits10 v], [ll2string] writes the decimal notation of
    [v] and a terminator inside the buffer and returns its length, which is
    [sdigits10 v], and parsing those characters gives [v] back; otherwise it
    returns 0 without touching memory outside the buffer. *)
Theorem ll2string_roundtrip dst dstlen v :
  is_i64 v -> dstlen <= zlen dst ->
  if sdigits10 v <? dstlen then
    exists s r, ll2string dst dstlen v = Some (s ++ 0 :: r, zlen s) /\ zlen s = sdigits10 v /\
      zlen (s ++ 0 :: r) = zlen dst /\ string2ll s = Some v
  else exists dst', ll2string dst dstlen v = Some (dst', 0).
Proof.
  intros Hv Hd. pose proof (ll2string_spec dst dstlen v Hv Hd) as Hspec.
  destruct (sdigits10 v <? dstlen); [| done]. destruct Hspec as (r & E & Hz).
  exists (sdec v), r. rewrite <- sdigits10_spec by done. eauto using string2ll_sdec.
Qed.

(** [memtoull] accepts exactly a string of at most 127 digits followed by one
    of the units b, k, kb, m, mb, g, gb in any case (or no unit), and returns
    the product of the number, saturated at [ULLONG_MAX] by [strtoull], with
    the multiplier of the unit, reduced modulo 2^64. *)
Theorem memtoull_correct p n :
  memtoull p = Some n <->
  exists d u m, p = d ++ u /\ all_digits d /\ zlen d < 128 /\ size_unit u m /\
    n = u64 (Z.min ULLONG_MAX (dval 0 d) * m).
Proof.
  unfold memtoull. split.
  - destruct (match p with c :: _ => c =? 45 | [] => false end); [done |].
    destruct (span_digits p) as [d u] eqn:E. apply span_digits_spec in E as (-> & Hd & Hu).
    fold (unit_mul u). destruct (unit_mul u) as [m |] eqn:Em; [| done]. cbn [mbind option_bind].
    destruct (Z.leb_spec 128 (zlen d)); [done |]. intros [= <-].
    exists d, u, m. apply unit_mul_spec in Em. split_and!; done.
  - intros (d & u & m & -> & Hd & Hl & Hu & ->). pose proof (size_unit_head _ _ Hu) as Hh.
    rewrite span_digits_app; [| done | destruct u; [done | apply Hh]].
    fold (unit_mul u). rewrite (proj2 (unit_mul_spec u m) Hu). cbn [mbind option_bind].
    rewrite (proj2 (Z.leb_gt _ _)) by done.
    replace (match d ++ u with c :: _ => c =? 45 | [] => false end) with false; [done |].
    symmetry. destruct Hd as [| c d Hc]; cbn [app].
    + destruct u; [done |]. apply Z.eqb_neq, Hh.
    + apply Z.eqb_neq. lia.
Qed.

Lemma ll2string_roundtrip_witness :
  exists s r, ll2string (repeat 7 30) 21 (-9223372036854775808) = Some (s ++ 0 :: r, zlen s) /\
    zlen s = 20 /\ zlen (s ++ 0 :: r) = 30 /\ string2ll s = Some (-9223372036854775808).
Proof.
  apply (ll2string_roundtrip (repeat 7 30) 21 (-9223372036854775808)).
  - unfold is_i64. lia.
  - vm_compute. discriminate.
Defined.

(** A size beyond 64 bits is not reported: the product wraps around. *)
Example memtoull_wraps : memtoull (chars "17179869184gb") = Some 0.
Proof. reflexivity. Qed.
