(* ===== verification/Listpack.v ===== *)
(** listpack.c: the model.

    A listpack is one block of memory: a six byte header (total bytes, number
    of elements), the entries, and an EOF byte.  An entry is an encoding byte,
    a payload, and its length in a reversed variable-length code so that the
    list can be walked from the end.  The block is a [list Z]; a pointer into
    it is its offset from the start, [None] being [NULL] where the code
    returns one.  All accesses are checked: a result of [None] at the outer
    level is an access outside the allocated block or a failed [assert]. *)
From S2P Require Import Prelude Strnum.

Definition LP_HDR_SIZE : Z := 6.
Definition LP_HDR_NUMELE_UNKNOWN : Z := 65535.
Definition LP_INTBUF_SIZE : Z := 21.
Definition LP_EOF : Z := 255.
Definition UINT32_MAX : Z := 4294967295.

(** The [LP_ENCODING_IS_*] tests on the first byte of an entry. *)
Definition IS_7BIT_UINT (b : Z) : bool := Z.land b 128 =? 0.
Definition IS_6BIT_STR (b : Z) : bool := Z.land b 192 =? 128.
Definition IS_13BIT_INT (b : Z) : bool := Z.land b 224 =? 192.
Definition IS_12BIT_STR (b : Z) : bool := Z.land b 240 =? 224.
Definition IS_16BIT_INT (b : Z) : bool := Z.land b 255 =? 241.
Definition IS_24BIT_INT (b : Z) : bool := Z.land b 255 =? 242.
Definition IS_32BIT_INT (b : Z) : bool := Z.land b 255 =? 243.
Definition IS_64BIT_INT (b : Z) : bool := Z.land b 255 =? 244.
Definition IS_32BIT_STR (b : Z) : bool := Z.land b 255 =? 240.

(** Two and four byte little endian fields assembled with shifts. *)
Definition get16 (lp : list Z) (p : Z) : option Z :=
  b0 ← rd lp p; b1 ← rd lp (p + 1); Some (Z.lor b0 (Z.shiftl b1 8)).
Definition get24 (lp : list Z) (p : Z) : option Z :=
  a ← get16 lp p; b ← rd lp (p + 2); Some (Z.lor a (Z.shiftl b 16)).
Definition get32 (lp : list Z) (p : Z) : option Z :=
  a ← get24 lp p; b ← rd lp (p + 3); Some (Z.lor a (Z.shiftl b 24)).
Definition get64 (lp : list Z) (p : Z) : option Z :=
  a ← get32 lp p;
  b4 ← rd lp (p + 4); b5 ← rd lp (p + 5); b6 ← rd lp (p + 6); b7 ← rd lp (p + 7);
  Some (Z.lor (Z.lor (Z.lor (Z.lor a (Z.shiftl b4 32)) (Z.shiftl b5 40)) (Z.shiftl b6 48)) (Z.shiftl b7 56)).

Definition STR6_LEN (lp : list Z) (p : Z) : option Z := b ← rd lp p; Some (Z.land b 63).
Definition STR12_LEN (lp : list Z) (p : Z) : option Z :=
  b0 ← rd lp p; b1 ← rd lp (p + 1); Some (Z.lor (Z.shiftl (Z.land b0 15) 8) b1).
Definition STR32_LEN (lp : list Z) (p : Z) : option Z := get32 lp (p + 1).

Definition lpGetTotalBytes (lp : list Z) : option Z := get32 lp 0.
Definition lpGetNumElements (lp : list Z) : option Z := get16 lp 4.
Definition lpSetTotalBytes (lp : list Z) (v : Z) : option (list Z) :=
  wrn lp 0 [Z.land v 255; Z.land (Z.shiftr v 8) 255; Z.land (Z.shiftr v 16) 255; Z.land (Z.shiftr v 24) 255].
Definition lpSetNumElements (lp : list Z) (v : Z) : option (list Z) :=
  wrn lp 4 [Z.land v 255; Z.land (Z.shiftr v 8) 255].

Definition lpBytes (lp : list Z) : option Z := lpGetTotalBytes lp.

Definition LISTPACK_MAX_SAFETY_SIZE : Z := 1073741824.
Definition lpSafeToAdd (lp : option (list Z)) (add : Z) : option bool :=
  len ← (match lp with Some lp => lpGetTotalBytes lp | None => Some 0 end);
  Some (negb (LISTPACK_MAX_SAFETY_SIZE <? u64 (len + add))).

(** ** Integer parsing (the listpack copy of [string2ll]) *)

Fixpoint lpStringToInt64_loop (p : list Z) (v : Z) : option (Z * list Z) :=
  match p with
  | c :: p' =>
      if (48 <=? c) && (c <=? 57) then
        if ULLONG_MAX / 10 <? v then None
        else
          let v := v * 10 in
          if ULLONG_MAX - (c - 48) <? v then None
          else lpStringToInt64_loop p' (v + (c - 48))
      else Some (v, p)
  | [] => Some (v, p)
  end.

Definition lpStringToInt64 (s : list Z) : option Z :=
  let slen := zlen s in
  if (slen =? 0) || (LONG_STR_SIZE <=? slen) then None
  else if (slen =? 1) && (s !!! 0%nat =? 48) then Some 0
  else
    let negative := s !!! 0%nat =? 45 in
    match (if negative then tail s else s) with
    | [] => None
    | c :: p =>
        if (49 <=? c) && (c <=? 57) then
          '(v, p) ← lpStringToInt64_loop p (c - 48);
          match p with
          | _ :: _ => None
          | [] =>
              if (negative : bool) then
                if u64 (- (LLONG_MIN + 1)) + 1 <? v then None else Some (i64 (u64 (- v)))
              else if LLONG_MAX <? v then None else Some v
          end
        else None
    end.

(** ** Encoders: the bytes written *)

Definition lpEncodeIntegerGetType (v : Z) : list Z :=
  if (0 <=? v) && (v <=? 127) then [u8 v]
  else if (-4096 <=? v) && (v <=? 4095) then
    let v := if v <? 0 then 2 ^ 13 + v else v in
    [u8 (Z.lor (Z.shiftr v 8) 192); Z.land v 255]
  else if (-32768 <=? v) && (v <=? 32767) then
    let v := if v <? 0 then 2 ^ 16 + v else v in
    [241; Z.land v 255; u8 (Z.shiftr v 8)]
  else if (-8388608 <=? v) && (v <=? 8388607) then
    let v := if v <? 0 then 2 ^ 24 + v else v in
    [242; Z.land v 255; Z.land (Z.shiftr v 8) 255; u8 (Z.shiftr v 16)]
  else if (-2147483648 <=? v) && (v <=? 2147483647) then
    let v := if v <? 0 then 2 ^ 32 + v else v in
    [243; Z.land v 255; Z.land (Z.shiftr v 8) 255; Z.land (Z.shiftr v 16) 255; u8 (Z.shiftr v 24)]
  else
    let uv := u64 v in
    [244; Z.land uv 255; Z.land (Z.shiftr uv 8) 255; Z.land (Z.shiftr uv 16) 255;
     Z.land (Z.shiftr uv 24) 255; Z.land (Z.shiftr uv 32) 255; Z.land (Z.shiftr uv 40) 255;
     Z.land (Z.shiftr uv 48) 255; u8 (Z.shiftr uv 56)].

Inductive lp_enctype := LP_ENCODING_INT | LP_ENCODING_STRING.

(** The encoding type, [intenc] (empty for a string) and [enclen]. *)
Definition lpEncodeGetType (ele : list Z) : lp_enctype * list Z * Z :=
  let size := zlen ele in
  match lpStringToInt64 ele with
  | Some v =>
      let intenc := lpEncodeIntegerGetType v in (LP_ENCODING_INT, intenc, zlen intenc)
  | None =>
      (LP_ENCODING_STRING, [],
       if size <? 64 then 1 + size else if size <? 4096 then 2 + size else 5 + size)
  end.

(** The bytes of the back length; the function returns their number. *)
Definition lpEncodeBacklen (l : Z) : list Z :=
  if l <=? 127 then [u8 l]
  else if l <? 16383 then [u8 (Z.shiftr l 7); Z.lor (Z.land l 127) 128]
  else if l <? 2097151 then
    [u8 (Z.shiftr l 14); Z.lor (Z.land (Z.shiftr l 7) 127) 128; Z.lor (Z.land l 127) 128]
  else if l <? 268435455 then
    [u8 (Z.shiftr l 21); Z.lor (Z.land (Z.shiftr l 14) 127) 128;
     Z.lor (Z.land (Z.shiftr l 7) 127) 128; Z.lor (Z.land l 127) 128]
  else
    [u8 (Z.shiftr l 28); Z.lor (Z.land (Z.shiftr l 21) 127) 128;
     Z.lor (Z.land (Z.shiftr l 14) 127) 128; Z.lor (Z.land (Z.shiftr l 7) 127) 128;
     Z.lor (Z.land l 127) 128].
Definition lpBacklenSize (l : Z) : Z := zlen (lpEncodeBacklen l).

(** [do ... while(1)]: at most five bytes are read. *)
Fixpoint lpDecodeBacklen_loop (fuel : nat) (lp : list Z) (p val shift : Z) : option Z :=
  match fuel with
  | O => None
  | S fuel =>
      b ← rd lp p;
      let val := Z.lor val (Z.shiftl (Z.land b 127) shift) in
      if Z.land b 128 =? 0 then Some val
      else
        let shift := shift + 7 in
        if 28 <? shift then Some ULLONG_MAX
        else lpDecodeBacklen_loop fuel lp (p - 1) val shift
  end.
Definition lpDecodeBacklen (lp : list Z) (p : Z) : option Z := lpDecodeBacklen_loop 5 lp p 0 0.

Definition lpEncodeString (s : list Z) : list Z :=
  let len := zlen s in
  if len <? 64 then u8 (Z.lor len 128) :: s
  else if len <? 4096 then u8 (Z.lor (Z.shiftr len 8) 224) :: Z.land len 255 :: s
  else [240; Z.land len 255; Z.land (Z.shiftr len 8) 255; Z.land (Z.shiftr len 16) 255;
        Z.land (Z.shiftr len 24) 255] ++ s.

(** ** Entry lengths *)

Definition lpCurrentEncodedSizeUnsafe (lp : list Z) (p : Z) : option Z :=
  b ← rd lp p;
  if IS_7BIT_UINT b then Some 1
  else if IS_6BIT_STR b then l ← STR6_LEN lp p; Some (u32 (1 + l))
  else if IS_13BIT_INT b then Some 2
  else if IS_16BIT_INT b then Some 3
  else if IS_24BIT_INT b then Some 4
  else if IS_32BIT_INT b then Some 5
  else if IS_64BIT_INT b then Some 9
  else if IS_12BIT_STR b then l ← STR12_LEN lp p; Some (u32 (2 + l))
  else if IS_32BIT_STR b then l ← STR32_LEN lp p; Some (u32 (5 + l))
  else if b =? LP_EOF then Some 1
  else Some 0.

Definition lpCurrentEncodedSizeBytes (lp : list Z) (p : Z) : option Z :=
  b ← rd lp p;
  Some (if IS_7BIT_UINT b then 1
  else if IS_6BIT_STR b then 1
  else if IS_13BIT_INT b then 1
  else if IS_16BIT_INT b then 1
  else if IS_24BIT_INT b then 1
  else if IS_32BIT_INT b then 1
  else if IS_64BIT_INT b then 1
  else if IS_12BIT_STR b then 2
  else if IS_32BIT_STR b then 5
  else if b =? LP_EOF then 1
  else 0).

Definition lpSkip (lp : list Z) (p : Z) : option Z :=
  entrylen ← lpCurrentEncodedSizeUnsafe lp p;
  Some (p + (entrylen + lpBacklenSize entrylen)).

(** ** Validation of one entry: the returned flag and [*pp] *)

Definition OUT_OF_RANGE (lpbytes p : Z) : bool := (p <? LP_HDR_SIZE) || (lpbytes - 1 <? p).

Definition lpValidateNext (lp : list Z) (pp : option Z) (lpbytes : Z) : option (bool * option Z) :=
  match pp with
  | None => Some (false, pp)
  | Some p =>
      if OUT_OF_RANGE lpbytes p then Some (false, pp)
      else
        b ← rd lp p;
        if b =? LP_EOF then Some (true, None)
        else
          lenbytes ← lpCurrentEncodedSizeBytes lp p;
          if lenbytes =? 0 then Some (false, pp)
          else if OUT_OF_RANGE lpbytes (p + lenbytes) then Some (false, pp)
          else
            entrylen ← lpCurrentEncodedSizeUnsafe lp p;
            let encodedBacklen := lpBacklenSize entrylen in
            let entrylen := entrylen + encodedBacklen in
            if OUT_OF_RANGE lpbytes (p + entrylen) then Some (false, pp)
            else
              let p := p + entrylen in
              prevlen ← lpDecodeBacklen lp (p - 1);
              if negb (u64 (prevlen + encodedBacklen) =? entrylen) then Some (false, pp)
              else Some (true, Some p)
  end.

Definition lpAssertValidEntry (lp : list Z) (lpbytes p : Z) : option unit :=
  '(ok, _) ← lpValidateNext lp (Some p) lpbytes; assert_ ok.

(** ** Traversal *)

Definition lpNext (lp : list Z) (p : Z) : option (option Z) :=
  p ← lpSkip lp p;
  b ← rd lp p;
  if b =? LP_EOF then Some None
  else bytes ← lpBytes lp; _ ← lpAssertValidEntry lp bytes p; Some (Some p).

Definition lpPrev (lp : list Z) (p : Z) : option (option Z) :=
  if p =? LP_HDR_SIZE then Some None
  else
    let p := p - 1 in
    prevlen ← lpDecodeBacklen lp p;
    let prevlen := u64 (prevlen + lpBacklenSize prevlen) in
    let p := p - (prevlen - 1) in
    bytes ← lpBytes lp; _ ← lpAssertValidEntry lp bytes p; Some (Some p).

Definition lpFirst (lp : list Z) : option (option Z) :=
  let p := LP_HDR_SIZE in
  b ← rd lp p;
  if b =? LP_EOF then Some None
  else bytes ← lpBytes lp; _ ← lpAssertValidEntry lp bytes p; Some (Some p).

Definition lpLast (lp : list Z) : option (option Z) :=
  bytes ← lpGetTotalBytes lp; lpPrev lp (bytes - 1).

(** [while(p) { count++; p = lpNext(lp,p); }] *)
Fixpoint lpLength_loop (fuel : nat) (lp : list Z) (p : option Z) (count : Z) : option Z :=
  match p with
  | None => Some count
  | Some p =>
      match fuel with
      | O => None
      | S fuel => q ← lpNext lp p; lpLength_loop fuel lp q (u32 (count + 1))
      end
  end.

(** The count, and the block (its header may be updated). *)
Definition lpLength (lp : list Z) : option (Z * list Z) :=
  numele ← lpGetNumElements lp;
  if negb (numele =? LP_HDR_NUMELE_UNKNOWN) then Some (numele, lp)
  else
    p ← lpFirst lp;
    count ← lpLength_loop (length lp) lp p 0;
    if count <? LP_HDR_NUMELE_UNKNOWN then lp ← lpSetNumElements lp count; Some (count, lp)
    else Some (count, lp).

Fixpoint lpSeek_forward (fuel : nat) (lp : list Z) (ele : option Z) (index : Z) : option (option Z) :=
  match ele with
  | Some p =>
      if 0 <? index then
        match fuel with
        | O => None
        | S fuel => ele ← lpNext lp p; lpSeek_forward fuel lp ele (index - 1)
        end
      else Some ele
  | None => Some ele
  end.
Fixpoint lpSeek_backward (fuel : nat) (lp : list Z) (ele : option Z) (index : Z) : option (option Z) :=
  match ele with
  | Some p =>
      if index <? -1 then
        match fuel with
        | O => None
        | S fuel => ele ← lpPrev lp p; lpSeek_backward fuel lp ele (index + 1)
        end
      else Some ele
  | None => Some ele
  end.

Definition lpSeek (lp : list Z) (index : Z) : option (option Z) :=
  numele ← lpGetNumElements lp;
  let seek (forward : bool) index :=
    if forward then ele ← lpFirst lp; lpSeek_forward (length lp) lp ele index
    else ele ← lpLast lp; lpSeek_backward (length lp) lp ele index in
  if negb (numele =? LP_HDR_NUMELE_UNKNOWN) then
    let index := if index <? 0 then numele + index else index in
    if index <? 0 then Some None
    else if numele <=? index then Some None
    else if Z.quot numele 2 <? index then seek false (index - numele)
    else seek true index
  else seek (negb (index <? 0)) index.

(** ** Reading an entry *)

(** What [lpGetWithSize] returns: an integer by reference, a string inside the
    listpack (offset and length), or the string in the caller's [intbuf]. *)
Inductive lpval :=
  | LpInt (val : Z)
  | LpStr (off count : Z)
  | LpBuf (s : list Z).

(** Two's complement conversion of [uval]. *)
Definition lpSigned (uval negstart negmax : Z) : Z :=
  if negstart <=? uval then - i64 (u64 (negmax - uval)) - 1 else i64 uval.

(** The integer as the caller asked for it. *)
Definition lpGetInt (val : Z) (intbuf : bool) : option lpval :=
  if intbuf then
    '(buf, count) ← ll2string (repeat 0 (Z.to_nat LP_INTBUF_SIZE)) LP_INTBUF_SIZE val;
    Some (LpBuf (take (Z.to_nat count) buf))
  else Some (LpInt val).

(** The value and [*entry_size]; the latter is not set for a byte that is no
    encoding, where it keeps the caller's value [es0]. *)
Definition lpGetWithSize (lp : list Z) (p : Z) (intbuf : bool) (es0 : Z) : option (lpval * Z) :=
  let int uval negstart negmax size :=
    v ← lpGetInt (lpSigned uval negstart negmax) intbuf; Some (v, size) in
  b ← rd lp p;
  if IS_7BIT_UINT b then int (Z.land b 127) ULLONG_MAX 0 2
  else if IS_6BIT_STR b then
    count ← STR6_LEN lp p; Some (LpStr (p + 1) count, 1 + count + lpBacklenSize (count + 1))
  else if IS_13BIT_INT b then
    b1 ← rd lp (p + 1); int (Z.lor (Z.shiftl (Z.land b 31) 8) b1) (2 ^ 12) 8191 3
  else if IS_16BIT_INT b then uval ← get16 lp (p + 1); int uval (2 ^ 15) 65535 4
  else if IS_24BIT_INT b then uval ← get24 lp (p + 1); int uval (2 ^ 23) 16777215 5
  else if IS_32BIT_INT b then uval ← get32 lp (p + 1); int uval (2 ^ 31) UINT32_MAX 6
  else if IS_64BIT_INT b then uval ← get64 lp (p + 1); int uval (2 ^ 63) ULLONG_MAX 10
  else if IS_12BIT_STR b then
    count ← STR12_LEN lp p; Some (LpStr (p + 2) count, 2 + count + lpBacklenSize (count + 2))
  else if IS_32BIT_STR b then
    count ← STR32_LEN lp p; Some (LpStr (p + 5) count, 5 + count + lpBacklenSize (count + 5))
  else int (12345678900000000 + b) ULLONG_MAX 0 es0.

Definition lpGet (lp : list Z) (p : Z) (intbuf : bool) : option lpval :=
  '(v, _) ← lpGetWithSize lp p intbuf 0; Some v.

(** [*slen] is an [unsigned int]. *)
Definition lpGetValue (lp : list Z) (p : Z) : option lpval :=
  v ← lpGet lp p false;
  match v with
  | LpStr off count => Some (LpStr off (u32 count))
  | _ => Some v
  end.

(** Comparison of a value with the string [s]; [vencoding] is 0 when [s] has
    not been tried as an integer, 1 when it is the integer [vll], 255 if not. *)
Record lp_findst := { vencoding : Z; vll : Z }.

Definition lpFind_match (lp : list Z) (v : lpval) (s : list Z) (st : lp_findst)
    : option (bool * lp_findst) :=
  match v with
  | LpStr off ll =>
      if zlen s =? ll then value ← rdn lp off ll; Some (bool_decide (value = s), st)
      else Some (false, st)
  | LpInt ll =>
      let st :=
        if vencoding st =? 0 then
          if (32 <=? zlen s) || (zlen s =? 0) then {| vencoding := 255; vll := vll st |}
          else match lpStringToInt64 s with
               | None => {| vencoding := 255; vll := vll st |}
               | Some v => {| vencoding := 1; vll := v |}
               end
        else st in
      Some (negb (vencoding st =? 255) && (ll =? vll st), st)
  | LpBuf _ => None
  end.

Fixpoint lpFind_loop (fuel : nat) (lp : list Z) (lp_bytes p : Z) (s : list Z) (skip skipcnt : Z)
    (st : lp_findst) : option (option Z) :=
  match fuel with
  | O => None
  | S fuel =>
      let continue p skipcnt st :=
        _ ← (if lp_bytes <=? p + 8 then lpAssertValidEntry lp lp_bytes p
             else assert_ ((LP_HDR_SIZE <=? p) && (p <? lp_bytes)));
        b ← rd lp p;
        if b =? LP_EOF then Some None else lpFind_loop fuel lp lp_bytes p s skip skipcnt st in
      if skipcnt =? 0 then
        '(value, entry_size) ← lpGetWithSize lp p false 123456789;
        _ ← (match value with
             | LpStr _ _ => assert_ ((LP_HDR_SIZE <=? p) && (p + entry_size <? lp_bytes))
             | _ => Some tt
             end);
        '(found, st) ← lpFind_match lp value s st;
        if (found : bool) then Some (Some p) else continue (p + entry_size) skip st
      else
        p ← lpSkip lp p;
        continue p (skipcnt - 1) st
  end.

Definition lpFind (lp : list Z) (p : Z) (s : list Z) (skip : Z) : option (option Z) :=
  lp_bytes ← lpBytes lp;
  lpFind_loop (length lp) lp lp_bytes p s skip 0 {| vencoding := 0; vll := 0 |}.

Definition lpCompare (lp : list Z) (p : Z) (s : list Z) : option bool :=
  b ← rd lp p;
  if b =? LP_EOF then Some false
  else
    v ← lpGet lp p false;
    match v with
    | LpStr off sz =>
        if zlen s =? sz then value ← rdn lp off sz; Some (bool_decide (value = s)) else Some false
    | LpInt sz =>
        match lpStringToInt64 s with Some sval => Some (sz =? sval) | None => Some false end
    | LpBuf _ => None
    end.

(** ** Construction and modification *)

Section alloc.
Context (junk : nat -> Z).

Definition lpNew (capacity : Z) : option (list Z) :=
  let lp := fresh_bytes junk (if LP_HDR_SIZE + 1 <? capacity then capacity else LP_HDR_SIZE + 1) in
  lp ← lpSetTotalBytes lp (LP_HDR_SIZE + 1);
  lp ← lpSetNumElements lp 0;
  wrn lp LP_HDR_SIZE [LP_EOF].

Definition lpShrinkToFit (lp : list Z) : option (list Z) :=
  size ← lpGetTotalBytes lp;
  if size <? zlen lp then Some (zrealloc junk lp size) else Some lp.

Inductive lp_where := LP_BEFORE | LP_AFTER | LP_REPLACE.

Definition ASSERT_INTEGRITY (lp : list Z) (p len : Z) : option unit :=
  bytes ← lpGetTotalBytes lp; assert_ ((LP_HDR_SIZE <=? p) && (p + len <? bytes)).

(** [Some None]: returns NULL; [Some (Some (lp, newp))] otherwise.  [eleint] is
    an already encoded integer. *)
Definition lpInsert (lp : list Z) (elestr eleint : option (list Z)) (p : Z) (where_ : lp_where)
    : option (option (list Z * option Z)) :=
  let delete := bool_decide (elestr = None) && bool_decide (eleint = None) in
  let where_ := if delete then LP_REPLACE else where_ in
  '(p, where_) ← (match where_ with
                  | LP_AFTER =>
                      p ← lpSkip lp p;
                      _ ← ASSERT_INTEGRITY lp p 0;
                      Some (p, LP_BEFORE)
                  | _ => Some (p, where_)
                  end);
  let poff := p in
  (* the bytes of the element and their number *)
  let enc := match elestr, eleint with
             | Some s, _ =>
                 let '(enctype, intenc, _) := lpEncodeGetType s in
                 match enctype with LP_ENCODING_INT => intenc | LP_ENCODING_STRING => lpEncodeString s end
             | None, Some e => e
             | None, None => []
             end in
  let enclen := match elestr, eleint with
                | Some s, _ => snd (lpEncodeGetType s)
                | None, Some e => zlen e
                | None, None => 0
                end in
  let backlen := if delete then [] else lpEncodeBacklen enclen in
  let backlen_size := zlen backlen in
  old_listpack_bytes ← lpGetTotalBytes lp;
  replaced_len ← (match where_ with
                  | LP_REPLACE =>
                      l ← lpCurrentEncodedSizeUnsafe lp p;
                      let l := u32 (l + lpBacklenSize l) in
                      _ ← ASSERT_INTEGRITY lp p l;
                      Some l
                  | _ => Some 0
                  end);
  let new_listpack_bytes := u64 (old_listpack_bytes + enclen + backlen_size - replaced_len) in
  if UINT32_MAX <? new_listpack_bytes then Some None
  else
    let dst := poff in
    let lp := if (old_listpack_bytes <? new_listpack_bytes) && (zlen lp <? new_listpack_bytes)
              then zrealloc junk lp new_listpack_bytes else lp in
    lp ← (match where_ with
          | LP_REPLACE => memmove lp (dst + enclen + backlen_size) (dst + replaced_len)
                            (old_listpack_bytes - poff - replaced_len)
          | _ => memmove lp (dst + enclen + backlen_size) dst (old_listpack_bytes - poff)
          end);
    let lp := if new_listpack_bytes <? old_listpack_bytes
              then zrealloc junk lp new_listpack_bytes else lp in
    newp ← (if delete then b ← rd lp dst; Some (if b =? LP_EOF then None else Some dst)
            else Some (Some dst));
    lp ← (if delete then Some lp
          else lp ← wrn lp dst enc; wrn lp (dst + enclen) backlen);
    lp ← (if (match where_ with LP_REPLACE => delete | _ => true end) then
            num_elements ← lpGetNumElements lp;
            if negb (num_elements =? LP_HDR_NUMELE_UNKNOWN) then
              lpSetNumElements lp (if delete then num_elements - 1 else num_elements + 1)
            else Some lp
          else Some lp);
    lp ← lpSetTotalBytes lp new_listpack_bytes;
    Some (Some (lp, newp)).

Definition lpInsertString (lp s : list Z) (p : Z) (where_ : lp_where) :=
  lpInsert lp (Some s) None p where_.

Definition lpInsertInteger (lp : list Z) (lval p : Z) (where_ : lp_where) :=
  lpInsert lp None (Some (lpEncodeIntegerGetType lval)) p where_.

Definition lpAppend (lp ele : list Z) : option (option (list Z * option Z)) :=
  listpack_bytes ← lpGetTotalBytes lp;
  lpInsert lp (Some ele) None (listpack_bytes - 1) LP_BEFORE.

Definition lpAppendInteger (lp : list Z) (lval : Z) : option (option (list Z * option Z)) :=
  listpack_bytes ← lpGetTotalBytes lp;
  lpInsertInteger lp lval (listpack_bytes - 1) LP_BEFORE.

Definition lpPrepend (lp s : list Z) : option (option (list Z * option Z)) :=
  p ← lpFirst lp;
  match p with
  | None => lpAppend lp s
  | Some p => lpInsert lp (Some s) None p LP_BEFORE
  end.

Definition lpPrependInteger (lp : list Z) (lval : Z) : option (option (list Z * option Z)) :=
  p ← lpFirst lp;
  match p with
  | None => lpAppendInteger lp lval
  | Some p => lpInsertInteger lp lval p LP_BEFORE
  end.

Definition lpReplace (lp : list Z) (p : Z) (s : list Z) := lpInsert lp (Some s) None p LP_REPLACE.
Definition lpReplaceInteger (lp : list Z) (p lval : Z) := lpInsertInteger lp lval p LP_REPLACE.
Definition lpDelete (lp : list Z) (p : Z) := lpInsert lp None None p LP_REPLACE.

(** [while (num--)]: [tail] and [deleted]. *)
Fixpoint lpDeleteRange_loop (num : nat) (lp : list Z) (bytes tail deleted : Z) : option (Z * Z) :=
  match num with
  | O => Some (tail, deleted)
  | S num =>
      let deleted := deleted + 1 in
      tail ← lpSkip lp tail;
      b ← rd lp tail;
      if b =? LP_EOF then Some (tail, deleted)
      else _ ← lpAssertValidEntry lp bytes tail; lpDeleteRange_loop num lp bytes tail deleted
  end.

Definition lpDeleteRangeWithEntry (lp : list Z) (p num : Z) : option (list Z * option Z) :=
  bytes ← lpBytes lp;
  let eofptr := bytes - 1 in
  let first := p in
  if num =? 0 then Some (lp, Some p)
  else
    '(tail, deleted) ← lpDeleteRange_loop (Z.to_nat num) lp bytes first 0;
    let poff := first in
    lp ← memmove lp first tail (eofptr - tail + 1);
    lp ← lpSetTotalBytes lp (bytes - (tail - first));
    numele ← lpGetNumElements lp;
    lp ← (if negb (numele =? LP_HDR_NUMELE_UNKNOWN) then lpSetNumElements lp (u32 (numele - deleted))
          else Some lp);
    lp ← lpShrinkToFit lp;
    b ← rd lp poff;
    Some (lp, if b =? LP_EOF then None else Some poff).

Definition lpDeleteRange (lp : list Z) (index num : Z) : option (list Z) :=
  numele ← lpGetNumElements lp;
  if num =? 0 then Some lp
  else
    p ← lpSeek lp index;
    match p with
    | None => Some lp
    | Some p =>
        let index := if negb (numele =? LP_HDR_NUMELE_UNKNOWN) && (index <? 0)
                     then numele + index else index in
        if negb (numele =? LP_HDR_NUMELE_UNKNOWN) && (u64 (numele - index) <=? num) then
          lp ← wrn lp p [LP_EOF];
          lp ← lpSetTotalBytes lp (p + 1);
          lp ← lpSetNumElements lp index;
          lpShrinkToFit lp
        else
          '(lp, _) ← lpDeleteRangeWithEntry lp p num; Some lp
    end.

(** The loop over [ps]: the block and [dst]. *)
Fixpoint lpBatchDelete_loop (lp : list Z) (lp_end : Z) (ps : list Z) (dst : Z) : option (list Z * Z) :=
  match ps with
  | [] => Some (lp, dst)
  | skip :: ps' =>
      b ← rd lp skip;
      _ ← assert_ (negb (b =? LP_EOF));
      keep_start ← lpSkip lp skip;
      let keep_end := match ps' with next :: _ => next | [] => lp_end end in
      if (match ps' with _ :: _ => keep_start =? keep_end | [] => false end)
      then lpBatchDelete_loop lp lp_end ps' dst
      else
        _ ← assert_ (keep_start <? keep_end);
        let bytes_to_keep := keep_end - keep_start in
        lp ← memmove lp dst keep_start bytes_to_keep;
        lpBatchDelete_loop lp lp_end ps' (dst + bytes_to_keep)
  end.

Definition lpBatchDelete (lp : list Z) (ps : list Z) : option (list Z) :=
  match ps with
  | [] => Some lp
  | p0 :: _ =>
      total_bytes ← lpGetTotalBytes lp;
      let lp_end := total_bytes in
      e ← rd lp (lp_end - 1);
      _ ← assert_ (e =? LP_EOF);
      '(lp, dst) ← lpBatchDelete_loop lp lp_end ps p0;
      let deleted_bytes := lp_end - dst in
      let total_bytes := total_bytes - deleted_bytes in
      e ← rd lp (total_bytes - 1);
      _ ← assert_ (e =? LP_EOF);
      lp ← lpSetTotalBytes lp total_bytes;
      numele ← lpGetNumElements lp;
      lp ← (if negb (numele =? LP_HDR_NUMELE_UNKNOWN)
            then lpSetNumElements lp (u64 (numele - zlen ps)) else Some lp);
      lpShrinkToFit lp
  end.

(** Merge of two distinct listpacks.  The result is the merged block; the other
    one is freed, so it appears nowhere in the result. *)
Definition lpMerge (first second : list Z) : option (list Z) :=
  first_bytes ← lpBytes first;
  '(first_len, first) ← lpLength first;
  second_bytes ← lpBytes second;
  '(second_len, second) ← lpLength second;
  let append := second_bytes <=? first_bytes in
  let '(target, target_bytes, source, source_bytes) :=
    if append then (first, first_bytes, second, second_bytes)
    else (second, second_bytes, first, first_bytes) in
  let lpbytes := u64 (first_bytes + second_bytes - LP_HDR_SIZE - 1) in
  _ ← assert_ (lpbytes <? UINT32_MAX);
  let lplength := first_len + second_len in
  let lplength := if lplength <? 65535 then lplength else 65535 in
  let target := zrealloc junk target lpbytes in
  target ← (if append then
              tail ← rdn source LP_HDR_SIZE (source_bytes - LP_HDR_SIZE);
              wrn target (target_bytes - 1) tail
            else
              target ← memmove target (source_bytes - 1) LP_HDR_SIZE (target_bytes - LP_HDR_SIZE);
              head ← rdn source 0 (source_bytes - 1);
              wrn target 0 head);
  target ← lpSetNumElements target lplength;
  lpSetTotalBytes target lpbytes.
End alloc.

Definition lpDup (lp : list Z) : option (list Z) := lpbytes ← lpBytes lp; rdn lp 0 lpbytes.

Definition lpEstimateBytesRepeatedInteger (lval rep : Z) : Z :=
  let enclen := zlen (lpEncodeIntegerGetType lval) in
  let backlen := lpBacklenSize enclen in
  u64 (LP_HDR_SIZE + (enclen + backlen) * rep + 1).

(** ** Whole-block validation, without entry callback *)

Fixpoint lpValidateIntegrity_loop (fuel : nat) (lp : list Z) (bytes : Z) (p : option Z) (count : Z)
    : option (option (option Z * Z)) :=
  match p with
  | None => Some (Some (p, count))
  | Some q =>
      b ← rd lp q;
      if b =? LP_EOF then Some (Some (p, count))
      else
        match fuel with
        | O => None
        | S fuel =>
            '(ok, p) ← lpValidateNext lp p bytes;
            if (ok : bool) then lpValidateIntegrity_loop fuel lp bytes p (u32 (count + 1))
            else Some None
        end
  end.

Definition lpValidateIntegrity (lp : list Z) (size : Z) (deep : bool) : option bool :=
  if size <? LP_HDR_SIZE + 1 then Some false
  else
    bytes ← lpGetTotalBytes lp;
    if negb (bytes =? size) then Some false
    else
      last ← rd lp (size - 1);
      if negb (last =? LP_EOF) then Some false
      else if negb deep then Some true
      else
        numele ← lpGetNumElements lp;
        r ← lpValidateIntegrity_loop (length lp) lp bytes (Some LP_HDR_SIZE) 0;
        match r with
        | None => Some false
        | Some (p, count) =>
            if negb (bool_decide (p = Some (size - 1))) then Some false
            else if negb (numele =? LP_HDR_NUMELE_UNKNOWN) && negb (numele =? count) then Some false
            else Some true
        end.

(** Concrete runs of the model. *)
Definition lp_run (ss : list (list Z)) : option (list Z) :=
  fold_left (fun lp s => lp ← lp; r ← lpAppend (fun _ => 0) lp s; '(lp, _) ← r; Some lp) ss (lpNew (fun _ => 0) 0).

Example lp_run_ex :
  lp_run [chars "hello"; chars "-100"; chars "1024"] =
    Some ([20; 0; 0; 0; 3; 0; 133] ++ chars "hello" ++ [6; 223; 156; 2; 196; 0; 2; 255])%list.
Proof. reflexivity. Qed.
