(* ===== verification/ListpackCodec.v ===== *)
(** listpack.c: the entry codec.

    What the encoders write for an abstract entry (a 64 bit integer or a byte
    string) and how the readers of the code see it in memory: encoded size,
    value, back length, validation. *)
From S2P Require Import Prelude Strnum Listpack.

(** * Little endian fields *)

Lemma lor_add a c n : 0 <= n -> 0 <= a < 2 ^ n -> c mod 2 ^ n = 0 -> Z.lor a c = a + c.
Proof.
  intros Hn Ha Hc.
  assert (c = c / 2 ^ n * 2 ^ n) as E by (pose proof (Z.div_mod c (2 ^ n)); lia).
  rewrite E. now apply lor_add_shift.
Qed.

Lemma lor_shl a b n : 0 <= n -> 0 <= a < 2 ^ n -> Z.lor a (Z.shiftl b n) = a + b * 2 ^ n.
Proof. intros. rewrite Z.shiftl_mul_pow2 by done. now apply lor_add_shift. Qed.

Lemma le_enc2 z : le_enc 2 z = [Z.land z 255; Z.land (Z.shiftr z 8) 255].
Proof. cbn [le_enc]. bits_to_arith. done. Qed.
Lemma le_enc3 z : le_enc 3 z = [Z.land z 255; Z.land (Z.shiftr z 8) 255; Z.land (Z.shiftr z 16) 255].
Proof. cbn [le_enc]. bits_to_arith. rewrite !Z.div_div by lia. done. Qed.
Lemma le_enc4 z : le_enc 4 z =
  [Z.land z 255; Z.land (Z.shiftr z 8) 255; Z.land (Z.shiftr z 16) 255; Z.land (Z.shiftr z 24) 255].
Proof. cbn [le_enc]. bits_to_arith. rewrite !Z.div_div by lia. done. Qed.
Lemma le_enc8 z : le_enc 8 z =
  [Z.land z 255; Z.land (Z.shiftr z 8) 255; Z.land (Z.shiftr z 16) 255; Z.land (Z.shiftr z 24) 255;
   Z.land (Z.shiftr z 32) 255; Z.land (Z.shiftr z 40) 255; Z.land (Z.shiftr z 48) 255;
   Z.land (Z.shiftr z 56) 255].
Proof. cbn [le_enc]. bits_to_arith. rewrite !Z.div_div by lia. done. Qed.

Lemma get16_view lp p l : view lp p l -> zlen l = 2 -> bytes l -> get16 lp p = Some (le_dec l).
Proof.
  intros H Hl Hb. destruct l as [| b0 [| b1 [|]]]; try (unfold zlen in Hl; simpl in Hl; lia).
  view_reads H. unfold get16. rewrite R, R0. cbn [mbind option_bind].
  unfold bytes in Hb. rewrite !Forall_cons in Hb. destruct Hb as (Hb0 & Hb1 & _). unfold byte in *.
  rewrite lor_shl by (simpl; lia). cbn [le_dec]. f_equal. lia.
Qed.

Lemma get24_view lp p l : view lp p l -> zlen l = 3 -> bytes l -> get24 lp p = Some (le_dec l).
Proof.
  intros H Hl Hb. destruct l as [| b0 [| b1 [| b2 [|]]]]; try (unfold zlen in Hl; simpl in Hl; lia).
  view_reads H. unfold bytes in Hb. rewrite !Forall_cons in Hb. destruct Hb as (Hb0 & Hb1 & Hb2 & _).
  unfold get24. rewrite (get16_view lp p [b0; b1]);
    [| apply (view_app_l lp p [b0; b1] [b2]); exact H | done | forall_lit assumption].
  cbn [mbind option_bind]. rewrite R1. cbn [mbind option_bind]. unfold byte in *.
  cbn [le_dec]. rewrite lor_shl by (simpl; lia). f_equal. lia.
Qed.

Lemma get32_view lp p l : view lp p l -> zlen l = 4 -> bytes l -> get32 lp p = Some (le_dec l).
Proof.
  intros H Hl Hb. destruct l as [| b0 [| b1 [| b2 [| b3 [|]]]]]; try (unfold zlen in Hl; simpl in Hl; lia).
  view_reads H. unfold bytes in Hb. rewrite !Forall_cons in Hb. destruct Hb as (Hb0 & Hb1 & Hb2 & Hb3 & _).
  unfold get32. rewrite (get24_view lp p [b0; b1; b2]);
    [| apply (view_app_l lp p [b0; b1; b2] [b3]); exact H | done | forall_lit assumption].
  cbn [mbind option_bind]. rewrite R2. cbn [mbind option_bind]. unfold byte in *.
  cbn [le_dec]. rewrite lor_shl by (simpl; lia). f_equal. lia.
Qed.

Lemma get64_view lp p l : view lp p l -> zlen l = 8 -> bytes l -> get64 lp p = Some (le_dec l).
Proof.
  intros H Hl Hb. destruct l as [| b0 [| b1 [| b2 [| b3 [| b4 [| b5 [| b6 [| b7 [|]]]]]]]]];
    try (unfold zlen in Hl; simpl in Hl; lia).
  view_reads H. unfold bytes in Hb. rewrite !Forall_cons in Hb.
  destruct Hb as (Hb0 & Hb1 & Hb2 & Hb3 & Hb4 & Hb5 & Hb6 & Hb7 & _).
  unfold get64. rewrite (get32_view lp p [b0; b1; b2; b3]);
    [| apply (view_app_l lp p [b0; b1; b2; b3] [b4; b5; b6; b7]); exact H | done | forall_lit assumption].
  cbn [mbind option_bind]. rewrite R3, R4, R5, R6. cbn [mbind option_bind]. unfold byte in *.
  cbn [le_dec].
  rewrite (lor_shl _ b4 32), (lor_shl _ b5 40), (lor_shl _ b6 48), (lor_shl _ b7 56) by (simpl; lia).
  f_equal. lia.
Qed.

(** * Classification of the first byte *)

Lemma enc_class b : byte b ->
  IS_7BIT_UINT b = (b <? 128) /\
  IS_6BIT_STR b = (128 <=? b) && (b <? 192) /\
  IS_13BIT_INT b = (192 <=? b) && (b <? 224) /\
  IS_12BIT_STR b = (224 <=? b) && (b <? 240) /\
  IS_32BIT_STR b = (b =? 240) /\ IS_16BIT_INT b = (b =? 241) /\ IS_24BIT_INT b = (b =? 242) /\
  IS_32BIT_INT b = (b =? 243) /\ IS_64BIT_INT b = (b =? 244).
Proof.
  intros Hb.
  pose proof (byte_all (fun b =>
    Bool.eqb (IS_7BIT_UINT b) (b <? 128) && Bool.eqb (IS_6BIT_STR b) ((128 <=? b) && (b <? 192)) &&
    Bool.eqb (IS_13BIT_INT b) ((192 <=? b) && (b <? 224)) &&
    Bool.eqb (IS_12BIT_STR b) ((224 <=? b) && (b <? 240)) &&
    Bool.eqb (IS_32BIT_STR b) (b =? 240) && Bool.eqb (IS_16BIT_INT b) (b =? 241) &&
    Bool.eqb (IS_24BIT_INT b) (b =? 242) && Bool.eqb (IS_32BIT_INT b) (b =? 243) &&
    Bool.eqb (IS_64BIT_INT b) (b =? 244)) ltac:(vm_compute; reflexivity) b Hb) as H.
  rewrite !andb_true_iff, !Bool.eqb_true_iff in H. tauto.
Qed.

(** Decide the classification of a byte whose range is known to [lia]. *)
Ltac classify b :=
  let H := fresh in
  assert (byte b) as H by (unfold byte; lia);
  destruct (enc_class b H) as (-> & -> & -> & -> & -> & -> & -> & -> & ->);
  repeat match goal with
  | |- context [?x <? ?y] =>
      first [rewrite (proj2 (Z.ltb_lt x y)) by lia | rewrite (proj2 (Z.ltb_ge x y)) by lia]
  | |- context [?x <=? ?y] =>
      first [rewrite (proj2 (Z.leb_le x y)) by lia | rewrite (proj2 (Z.leb_gt x y)) by lia]
  | |- context [b =? ?y] =>
      first [rewrite (proj2 (Z.eqb_eq b y)) by lia | rewrite (proj2 (Z.eqb_neq b y)) by lia]
  end; cbn [andb].

(** * Entries *)

Inductive lpentry := EInt (v : Z) | EStr (s : list Z).

#[global] Instance lpentry_eq_dec : EqDecision lpentry.
Proof. solve_decision. Defined.

Definition enc_entry (e : lpentry) : list Z :=
  match e with EInt v => lpEncodeIntegerGetType v | EStr s => lpEncodeString s end.

(** The bytes of a whole entry in the listpack. *)
Definition entry (e : lpentry) : list Z := enc_entry e ++ lpEncodeBacklen (zlen (enc_entry e)).

(** The bound keeps the 32 bit entry length exact. *)
Definition entry_wf (e : lpentry) : Prop :=
  match e with EInt v => is_i64 v | EStr s => bytes s /\ zlen s < 4294967290 end.

(** The shapes of an encoded integer. *)
Lemma int_enc_shape v : is_i64 v ->
  (0 <= v <= 127 /\ lpEncodeIntegerGetType v = [v]) \/
  (-4096 <= v <= 4095 /\ lpEncodeIntegerGetType v = [192 + v mod 8192 / 256; v mod 8192 mod 256]) \/
  (-32768 <= v <= 32767 /\ lpEncodeIntegerGetType v = 241 :: le_enc 2 v) \/
  (-8388608 <= v <= 8388607 /\ lpEncodeIntegerGetType v = 242 :: le_enc 3 v) \/
  (-2147483648 <= v <= 2147483647 /\ lpEncodeIntegerGetType v = 243 :: le_enc 4 v) \/
  lpEncodeIntegerGetType v = 244 :: le_enc 8 v.
Proof.
  unfold is_i64. intros Hv. unfold lpEncodeIntegerGetType.
  destruct (Z.leb_spec 0 v), (Z.leb_spec v 127); cbn [andb].
  1: { left. split; [lia |]. now rewrite u8_id by lia. }
  all: right; destruct (Z.leb_spec (-4096) v), (Z.leb_spec v 4095); cbn [andb].
  all: try (left; split; [lia |];
    assert ((if v <? 0 then 2 ^ 13 + v else v) = v mod 8192) as ->
      by (change (2 ^ 13) with 8192; destruct (Z.ltb_spec v 0); dm);
    rewrite (lor_add _ 192 6) by first [lia | reflexivity | (bits_to_arith; simpl; dm)];
    bits_to_arith; rewrite u8_id by dm; f_equal; lia).
  all: right; destruct (Z.leb_spec (-32768) v), (Z.leb_spec v 32767); cbn [andb]; try lia.
  all: try (left; split; [lia |];
    assert ((if v <? 0 then 2 ^ 16 + v else v) = v mod 256 ^ Z.of_nat 2) as ->
      by (change (2 ^ 16) with 65536; change (256 ^ Z.of_nat 2) with 65536; destruct (Z.ltb_spec v 0); dm);
    rewrite <- (le_enc_mod 2 v), le_enc2; unfold u8; bits_to_arith; done).
  all: right; destruct (Z.leb_spec (-8388608) v), (Z.leb_spec v 8388607); cbn [andb]; try lia.
  all: try (left; split; [lia |];
    assert ((if v <? 0 then 2 ^ 24 + v else v) = v mod 256 ^ Z.of_nat 3) as ->
      by (change (2 ^ 24) with 16777216; change (256 ^ Z.of_nat 3) with 16777216; destruct (Z.ltb_spec v 0); dm);
    rewrite <- (le_enc_mod 3 v), le_enc3; unfold u8; bits_to_arith; done).
  all: right; destruct (Z.leb_spec (-2147483648) v), (Z.leb_spec v 2147483647); cbn [andb]; try lia.
  all: try (left; split; [lia |];
    assert ((if v <? 0 then 2 ^ 32 + v else v) = v mod 256 ^ Z.of_nat 4) as ->
      by (change (2 ^ 32) with 4294967296; change (256 ^ Z.of_nat 4) with 4294967296; destruct (Z.ltb_spec v 0); dm);
    rewrite <- (le_enc_mod 4 v), le_enc4; unfold u8; bits_to_arith; done).
  all: right; rewrite <- (le_enc_mod 8 v); change (v mod 256 ^ Z.of_nat 8) with (u64 v);
    rewrite le_enc8; unfold u8; bits_to_arith; done.
Qed.

(** The header of an encoded string. *)
Definition str_hdr (len : Z) : list Z :=
  if len <? 64 then [128 + len]
  else if len <? 4096 then [224 + len / 256; len mod 256]
  else 240 :: le_enc 4 len.

Lemma str_enc_shape s : zlen s < 4294967296 -> lpEncodeString s = str_hdr (zlen s) ++ s.
Proof.
  intros Hl. pose proof (zlen_nonneg s). unfold lpEncodeString, str_hdr.
  destruct (Z.ltb_spec (zlen s) 64).
  - rewrite (lor_add _ 128 7) by first [lia | reflexivity].
    rewrite u8_id, Z.add_comm by lia. done.
  - destruct (Z.ltb_spec (zlen s) 4096).
    + rewrite (lor_add _ 224 5) by first [lia | reflexivity | (bits_to_arith; simpl; dm)].
      bits_to_arith. rewrite u8_id, Z.add_comm by dm. done.
    + rewrite le_enc4. done.
Qed.

Lemma str_hdr_len len : 0 <= len ->
  zlen (str_hdr len) = if len <? 64 then 1 else if len <? 4096 then 2 else 5.
Proof. intros. unfold str_hdr. repeat case_if; done. Qed.

Lemma enc_entry_str s : zlen s < 4294967290 -> enc_entry (EStr s) = str_hdr (zlen s) ++ s.
Proof. intros. apply str_enc_shape. lia. Qed.

(** The first byte of an entry is never the EOF byte. *)
Lemma enc_entry_head e : entry_wf e ->
  exists b t, enc_entry e = b :: t /\ 0 <= b < 245.
Proof.
  destruct e as [v | s]; intros He.
  - destruct (int_enc_shape v He) as [[? E] | [[? E] | [[? E] | [[? E] | [[? E] | E]]]]];
      cbn [enc_entry]; rewrite E; (eexists _, _; split; [done |]); first [lia | dm].
  - destruct He as [_ Hl]. rewrite enc_entry_str by done. pose proof (zlen_nonneg s).
    unfold str_hdr. repeat case_if; cbn [app]; (eexists _, _; split; [done |]); first [lia | dm].
Qed.

Lemma enc_entry_bytes e : entry_wf e -> bytes (enc_entry e).
Proof.
  destruct e as [v | s]; intros He.
  - destruct (int_enc_shape v He) as [[? E] | [[? E] | [[? E] | [[? E] | [[? E] | E]]]]];
      cbn [enc_entry]; rewrite E; (repeat apply Forall_cons_2; try apply le_enc_bytes; try apply Forall_nil_2);
      unfold byte; first [lia | dm].
  - destruct He as [Hb Hl]. rewrite enc_entry_str by done. pose proof (zlen_nonneg s).
    apply Forall_app. split; [| done]. unfold str_hdr.
    repeat case_if; (repeat apply Forall_cons_2; try apply le_enc_bytes; try apply Forall_nil_2);
      unfold byte; first [lia | dm].
Qed.

Lemma enc_entry_len_pos e : entry_wf e -> 1 <= zlen (enc_entry e).
Proof.
  intros He. destruct (enc_entry_head e He) as (b & t & -> & _). rewrite zlen_cons.
  pose proof (zlen_nonneg t). lia.
Qed.

Lemma enc_entry_len_bound e : entry_wf e -> zlen (enc_entry e) < 4294967296.
Proof.
  destruct e as [v | s]; intros He.
  - destruct (int_enc_shape v He) as [[? E] | [[? E] | [[? E] | [[? E] | [[? E] | E]]]]];
      cbn [enc_entry]; rewrite E; reflexivity.
  - destruct He as [_ Hl]. rewrite enc_entry_str, zlen_app, str_hdr_len by (done || apply zlen_nonneg).
    repeat case_if; lia.
Qed.

(** ** Encoded size *)

Section size.
Context (lp : list Z) (p : Z).

Lemma STR12_view b0 b1 l : view lp p (b0 :: b1 :: l) -> 224 <= b0 < 240 -> byte b1 ->
  STR12_LEN lp p = Some ((b0 - 224) * 256 + b1).
Proof.
  intros H Hb0 Hb1. view_reads H. unfold STR12_LEN. rewrite R, R0. cbn [mbind option_bind]. f_equal.
  unfold byte in Hb1. rewrite Z.lor_comm, lor_shl by (simpl; lia). bits_to_arith. simpl. dm.
Qed.

Lemma STR32_view n l : view lp p (240 :: le_enc 4 n ++ l) -> 0 <= n < 4294967296 ->
  STR32_LEN lp p = Some n.
Proof.
  intros H Hn. unfold STR32_LEN. rewrite (get32_view lp (p + 1) (le_enc 4 n)).
  - rewrite le_dec_enc. simpl. rewrite Z.mod_small by lia. done.
  - eapply view_app_l, view_tl, H.
  - apply zlen_le_enc.
  - apply le_enc_bytes.
Qed.

Lemma size_unsafe_entry e : entry_wf e -> view lp p (enc_entry e) ->
  lpCurrentEncodedSizeUnsafe lp p = Some (zlen (enc_entry e)).
Proof.
  intros He H. unfold lpCurrentEncodedSizeUnsafe. destruct e as [v | s].
  - cbn [enc_entry] in *.
    destruct (int_enc_shape v He) as [[? E] | [[? E] | [[? E] | [[? E] | [[? E] | E]]]]];
      rewrite E in *; rewrite (view_hd _ _ _ _ H); cbn [mbind option_bind];
      match goal with |- (if IS_7BIT_UINT ?b then _ else _) = _ =>
        first [classify b | (assert (192 <= b < 224) by dm); classify b] end; reflexivity.
  - destruct He as [_ Hl]. pose proof (zlen_nonneg s).
    rewrite enc_entry_str, zlen_app, str_hdr_len in * by done.
    unfold str_hdr in H. destruct (Z.ltb_spec (zlen s) 64); [| destruct (Z.ltb_spec (zlen s) 4096)];
      rewrite (view_hd _ _ _ _ H); cbn [mbind option_bind].
    + classify (128 + zlen s). unfold STR6_LEN. rewrite (view_hd _ _ _ _ H). cbn [mbind option_bind].
      f_equal. bits_to_arith. rewrite u32_id by dm. dm.
    + assert (224 <= 224 + zlen s / 256 < 240) by dm. classify (224 + zlen s / 256).
      rewrite (STR12_view _ _ _ H) by (unfold byte; first [lia | dm]). cbn [mbind option_bind].
      f_equal. rewrite u32_id by dm. dm.
    + classify 240. rewrite (STR32_view _ _ H) by lia. cbn [mbind option_bind]. f_equal. apply u32_id. lia.
Qed.

Lemma size_bytes_entry e : entry_wf e -> view lp p (enc_entry e) ->
  exists n, lpCurrentEncodedSizeBytes lp p = Some n /\ 1 <= n <= zlen (enc_entry e).
Proof.
  intros He H. unfold lpCurrentEncodedSizeBytes. destruct e as [v | s].
  - cbn [enc_entry] in *.
    destruct (int_enc_shape v He) as [[? E] | [[? E] | [[? E] | [[? E] | [[? E] | E]]]]];
      rewrite E in *; rewrite (view_hd _ _ _ _ H); cbn [mbind option_bind]; rewrite ?zlen_cons, ?zlen_le_enc;
      match goal with |- context [IS_7BIT_UINT ?b] =>
        first [classify b | (assert (192 <= b < 224) by dm); classify b] end;
      eexists; (split; [reflexivity | unfold zlen; simpl; lia]).
  - destruct He as [_ Hl]. pose proof (zlen_nonneg s).
    rewrite enc_entry_str, zlen_app, str_hdr_len in * by done.
    unfold str_hdr in H. destruct (Z.ltb_spec (zlen s) 64); [| destruct (Z.ltb_spec (zlen s) 4096)];
      rewrite (view_hd _ _ _ _ H); cbn [mbind option_bind].
    + classify (128 + zlen s). eexists. split; [reflexivity | lia].
    + assert (224 <= 224 + zlen s / 256 < 240) by dm. classify (224 + zlen s / 256).
      eexists. split; [reflexivity | lia].
    + classify 240. eexists. split; [reflexivity | lia].
Qed.
End size.

(** ** Value of an entry *)

(** What a reader at offset [p] is given for the entry. *)
Definition entry_val (p : Z) (e : lpentry) : lpval :=
  match e with
  | EInt v => LpInt v
  | EStr s => LpStr (p + zlen (str_hdr (zlen s))) (zlen s)
  end.

Lemma lpSigned_spec k v : 0 < k <= 64 -> - 2 ^ (k - 1) <= v < 2 ^ (k - 1) ->
  lpSigned (v mod 2 ^ k) (2 ^ (k - 1)) (2 ^ k - 1) = v.
Proof.
  intros Hk Hv. unfold lpSigned.
  assert (2 ^ k = 2 * 2 ^ (k - 1)) as E by (rewrite <- Z.pow_succ_r by lia; f_equal; lia).
  assert (2 ^ (k - 1) <= 9223372036854775808) as Hb
    by (change 9223372036854775808 with (2 ^ 63); apply Z.pow_le_mono_r; lia).
  rewrite E. set (h := 2 ^ (k - 1)) in *.
  assert (v mod (2 * h) = if v <? 0 then v + 2 * h else v) as ->.
  { destruct (Z.ltb_spec v 0); [| apply Z.mod_small; lia].
    rewrite <- (Z.mod_add v 1) by lia. rewrite Z.mod_small by lia. lia. }
  destruct (Z.ltb_spec v 0).
  - rewrite (proj2 (Z.leb_le _ _)) by lia. rewrite i64_u64, i64_id by (unfold is_i64; lia). lia.
  - rewrite (proj2 (Z.leb_gt _ _)) by lia. apply i64_id. unfold is_i64. lia.
Qed.

Lemma lpSigned_7bit v : 0 <= v <= 127 -> lpSigned v ULLONG_MAX 0 = v.
Proof.
  intros Hv. unfold lpSigned, ULLONG_MAX. rewrite (proj2 (Z.leb_gt _ _)) by lia.
  apply i64_id. unfold is_i64. lia.
Qed.

Lemma backlen_size_bytes l : lpBacklenSize l = zlen (lpEncodeBacklen l).
Proof. reflexivity. Qed.

Lemma get_entry lp p e es : entry_wf e -> view lp p (enc_entry e) ->
  lpGetWithSize lp p false es = Some (entry_val p e, zlen (entry e)).
Proof.
  intros He H. unfold lpGetWithSize, entry. rewrite zlen_app, <- backlen_size_bytes. destruct e as [v | s].
  - cbn [enc_entry entry_val] in *. unfold entry_wf, is_i64 in He.
    destruct (int_enc_shape v He) as [[? E] | [[? E] | [[? E] | [[? E] | [[? E] | E]]]]];
      rewrite E in *; rewrite (view_hd _ _ _ _ H); cbn [mbind option_bind]; rewrite ?zlen_cons, ?zlen_le_enc.
    + classify v. cbn [lpGetInt mbind option_bind]. bits_to_arith.
      rewrite (Z.mod_small v) by lia. rewrite lpSigned_7bit by done. reflexivity.
    + assert (192 <= 192 + v mod 8192 / 256 < 224) by dm. classify (192 + v mod 8192 / 256).
      rewrite (view_hd _ _ _ _ (view_tl _ _ _ _ H)). cbn [lpGetInt mbind option_bind].
      rewrite Z.lor_comm, lor_shl by (simpl; dm). bits_to_arith. change (2 ^ 8) with 256.
      assert (v mod 8192 mod 256 + (192 + v mod 8192 / 256) mod 32 * 256 = v mod 8192) as -> by dm.
      pose proof (lpSigned_spec 13 v ltac:(lia) ltac:(simpl; lia)) as S.
      change (2 ^ 13 - 1) with 8191 in S. change (2 ^ 13) with 8192 in S. change (13 - 1) with 12 in S.
      rewrite S. reflexivity.
    + classify 241. rewrite (get16_view lp (p + 1) (le_enc 2 v)) by
        first [eapply view_tl, H | apply zlen_le_enc | apply le_enc_bytes].
      rewrite le_dec_enc. cbn [lpGetInt mbind option_bind].
      pose proof (lpSigned_spec 16 v ltac:(lia) ltac:(simpl; lia)) as S.
      change (256 ^ Z.of_nat 2) with (2 ^ 16). change (2 ^ 16 - 1) with 65535 in S.
      change (16 - 1) with 15 in S. rewrite S. reflexivity.
    + classify 242. rewrite (get24_view lp (p + 1) (le_enc 3 v)) by
        first [eapply view_tl, H | apply zlen_le_enc | apply le_enc_bytes].
      rewrite le_dec_enc. cbn [lpGetInt mbind option_bind].
      pose proof (lpSigned_spec 24 v ltac:(lia) ltac:(simpl; lia)) as S.
      change (256 ^ Z.of_nat 3) with (2 ^ 24). change (2 ^ 24 - 1) with 16777215 in S.
      change (24 - 1) with 23 in S. rewrite S. reflexivity.
    + classify 243. rewrite (get32_view lp (p + 1) (le_enc 4 v)) by
        first [eapply view_tl, H | apply zlen_le_enc | apply le_enc_bytes].
      rewrite le_dec_enc. cbn [lpGetInt mbind option_bind].
      pose proof (lpSigned_spec 32 v ltac:(lia) ltac:(simpl; lia)) as S.
      change (256 ^ Z.of_nat 4) with (2 ^ 32). change (2 ^ 32 - 1) with UINT32_MAX in S.
      change (32 - 1) with 31 in S. rewrite S. reflexivity.
    + classify 244. rewrite (get64_view lp (p + 1) (le_enc 8 v)) by
        first [eapply view_tl, H | apply zlen_le_enc | apply le_enc_bytes].
      rewrite le_dec_enc. cbn [lpGetInt mbind option_bind].
      pose proof (lpSigned_spec 64 v ltac:(lia) ltac:(simpl; lia)) as S.
      change (256 ^ Z.of_nat 8) with (2 ^ 64). change (2 ^ 64 - 1) with ULLONG_MAX in S.
      change (64 - 1) with 63 in S. rewrite S. reflexivity.
  - destruct He as [_ Hl]. pose proof (zlen_nonneg s). cbn [entry_val].
    rewrite enc_entry_str in * by done. rewrite zlen_app, str_hdr_len by done.
    unfold str_hdr in H. destruct (Z.ltb_spec (zlen s) 64); [| destruct (Z.ltb_spec (zlen s) 4096)];
      rewrite (view_hd _ _ _ _ H); cbn [mbind option_bind].
    + classify (128 + zlen s). unfold STR6_LEN. rewrite (view_hd _ _ _ _ H). cbn [mbind option_bind].
      bits_to_arith. assert ((128 + zlen s) mod 64 = zlen s) as -> by dm.
      do 3 f_equal. f_equal. lia.
    + assert (224 <= 224 + zlen s / 256 < 240) by dm. classify (224 + zlen s / 256).
      rewrite (STR12_view _ _ _ _ _ H) by (unfold byte; first [lia | dm]). cbn [mbind option_bind].
      assert ((224 + zlen s / 256 - 224) * 256 + zlen s mod 256 = zlen s) as -> by dm.
      do 3 f_equal. f_equal. lia.
    + classify 240. rewrite (STR32_view _ _ _ _ H) by lia. cbn [mbind option_bind].
      do 3 f_equal. f_equal. lia.
Qed.

(** ** Back length *)

(** [n] base-128 digits, most significant first; all but the first carry the
    continuation bit. *)
Fixpoint bl128 (n : nat) (l : Z) : list Z :=
  match n with
  | O => []
  | S O => [l]
  | S n => bl128 n (l / 128) ++ [l mod 128 + 128]
  end.

Lemma length_bl128 n l : length (bl128 n l) = n.
Proof.
  revert l. induction n as [| [| n] IH]; intros l; [done | done |].
  change (bl128 (S (S n)) l) with (bl128 (S n) (l / 128) ++ [l mod 128 + 128]).
  rewrite length_app, IH. simpl. lia.
Qed.

Lemma backlen_shape l : 0 <= l < 34359738368 ->
  exists n, (1 <= n <= 5)%nat /\ lpEncodeBacklen l = bl128 n l /\ l < 128 ^ Z.of_nat n.
Proof.
  intros Hl. unfold lpEncodeBacklen.
  assert (forall x, Z.lor (Z.land x 127) 128 = x mod 128 + 128) as Hd.
  { intros x. bits_to_arith. apply (lor_add _ 128 7); [lia | simpl; dm | reflexivity]. }
  rewrite !Hd. bits_to_arith.
  destruct (Z.leb_spec l 127); [exists 1%nat | destruct (Z.ltb_spec l 16383); [exists 2%nat |
    destruct (Z.ltb_spec l 2097151); [exists 3%nat |
    destruct (Z.ltb_spec l 268435455); [exists 4%nat | exists 5%nat]]]];
    (split; [lia |]); (split; [| simpl; lia]); cbn [bl128 app]; rewrite ?Z.div_div by lia;
    rewrite u8_id by dm; reflexivity.
Qed.

Lemma decode_bl128 lp n : forall p l fuel val shift,
  (1 <= n <= fuel)%nat -> 0 <= l < 128 ^ Z.of_nat n -> 0 <= shift -> shift + 7 * Z.of_nat n <= 35 ->
  0 <= val < 2 ^ shift -> view lp p (bl128 n l) ->
  lpDecodeBacklen_loop fuel lp (p + Z.of_nat n - 1) val shift = Some (val + l * 2 ^ shift).
Proof.
  induction n as [| [| n] IH]; intros p l fuel val shift Hn Hl Hs Hsn Hv H; [lia | |].
  - destruct fuel as [| fuel]; [lia |]. cbn [lpDecodeBacklen_loop].
    replace (p + Z.of_nat 1 - 1) with p by lia. rewrite (view_hd _ _ _ _ H). cbn [mbind option_bind].
    change (128 ^ Z.of_nat 1) with 128 in Hl.
    assert (Z.land l 127 = l) as -> by (bits_to_arith; apply Z.mod_small; lia).
    assert ((Z.land l 128 =? 0) = true) as ->.
    { pose proof (byte_all (fun b => negb (b <? 128) || (Z.land b 128 =? 0))
        ltac:(vm_compute; reflexivity) l ltac:(unfold byte; lia)) as B.
      cbv beta in B. rewrite (proj2 (Z.ltb_lt l 128)) in B by lia. exact B. }
    rewrite lor_shl by lia. done.
  - destruct fuel as [| fuel]; [lia |]. cbn [lpDecodeBacklen_loop].
    change (bl128 (S (S n)) l) with (bl128 (S n) (l / 128) ++ [l mod 128 + 128]) in H.
    pose proof (view_app_r _ _ _ _ H) as Hlast. pose proof (view_app_l _ _ _ _ H) as Hinit.
    unfold zlen in Hlast. rewrite length_bl128 in Hlast. apply view_hd in Hlast.
    replace (p + Z.of_nat (S (S n)) - 1) with (p + Z.of_nat (S n)) by lia.
    rewrite Hlast. cbn [mbind option_bind].
    assert (0 <= l mod 128 < 128) as Hm by dm.
    assert (Z.land (l mod 128 + 128) 127 = l mod 128) as -> by (bits_to_arith; dm).
    assert ((Z.land (l mod 128 + 128) 128 =? 0) = false) as ->.
    { pose proof (byte_all (fun b => (b <? 128) || negb (Z.land b 128 =? 0))
        ltac:(vm_compute; reflexivity) (l mod 128 + 128) ltac:(unfold byte; lia)) as B.
      cbv beta in B. rewrite (proj2 (Z.ltb_ge _ 128)) in B by lia.
      now destruct (Z.land _ _ =? 0). }
    rewrite lor_shl by lia. rewrite (proj2 (Z.ltb_ge 28 _)) by lia.
    replace (p + Z.of_nat (S n) - 1) with (p + Z.of_nat (S n) - 1) by lia.
    rewrite Nat2Z.inj_succ, Z.pow_succ_r in Hl by lia.
    assert (2 ^ (shift + 7) = 128 * 2 ^ shift) as Ep by (rewrite Z.pow_add_r by lia; change (2 ^ 7) with 128; lia).
    assert (0 <= l / 128 < 128 ^ Z.of_nat (S n)) as Hd
      by (split; [apply Z.div_pos; lia | apply Z.div_lt_upper_bound; lia]).
    rewrite (IH p (l / 128)); try done; try lia.
    + f_equal. rewrite Ep. pose proof (Z.div_mod l 128 ltac:(lia)). nia.
    + rewrite Ep. nia.
Qed.

(** The back length is decoded from its last byte. *)
Lemma decode_backlen lp p l : 0 <= l < 34359738368 -> view lp p (lpEncodeBacklen l) ->
  lpDecodeBacklen lp (p + lpBacklenSize l - 1) = Some l.
Proof.
  intros Hl H. destruct (backlen_shape l Hl) as (n & Hn & E & Hb). unfold lpBacklenSize, lpDecodeBacklen.
  rewrite E in *. unfold zlen. rewrite length_bl128.
  rewrite (decode_bl128 lp n p l 5 0 0); try done; try lia. f_equal. simpl. lia.
Qed.

Lemma backlen_size_bounds l : 1 <= lpBacklenSize l <= 5.
Proof. unfold lpBacklenSize, lpEncodeBacklen. repeat case_if; unfold zlen; simpl; lia. Qed.

Lemma backlen_bytes l : 0 <= l < 34359738368 -> bytes (lpEncodeBacklen l).
Proof.
  intros Hl. destruct (backlen_shape l Hl) as (n & Hn & -> & Hb).
  assert (forall n l, (1 <= n)%nat -> 0 <= l < 128 ^ Z.of_nat n -> bytes (bl128 n l)) as Hgen.
  { clear. induction n as [| [| n] IH]; intros l Hn Hl; [lia | |].
    - repeat constructor; change (128 ^ Z.of_nat 1) with 128 in Hl; lia.
    - change (bl128 (S (S n)) l) with (bl128 (S n) (l / 128) ++ [l mod 128 + 128]).
      apply Forall_app. split.
      + apply IH; [lia |]. rewrite Nat2Z.inj_succ, Z.pow_succ_r in Hl by lia.
        split; [apply Z.div_pos; lia | apply Z.div_lt_upper_bound; lia].
      + apply Forall_cons_2; [| apply Forall_nil_2]. unfold byte. dm. }
  apply Hgen; lia.
Qed.

Lemma entry_len e : zlen (entry e) = zlen (enc_entry e) + lpBacklenSize (zlen (enc_entry e)).
Proof. unfold entry. now rewrite zlen_app. Qed.

Lemma entry_bytes e : entry_wf e -> bytes (entry e).
Proof.
  intros He. pose proof (enc_entry_len_pos e He). pose proof (enc_entry_len_bound e He).
  apply Forall_app. split; [now apply enc_entry_bytes | apply backlen_bytes; lia].
Qed.

(** ** Skipping and validating an entry *)

Lemma view_entry_enc lp p e : view lp p (entry e) -> view lp p (enc_entry e).
Proof. apply view_app_l. Qed.

Lemma skip_entry lp p e : entry_wf e -> view lp p (enc_entry e) ->
  lpSkip lp p = Some (p + zlen (entry e)).
Proof.
  intros He H. unfold lpSkip. rewrite (size_unsafe_entry lp p e He H). cbn [mbind option_bind].
  now rewrite entry_len.
Qed.

Lemma decode_entry_backlen lp p e : entry_wf e -> view lp p (entry e) ->
  lpDecodeBacklen lp (p + zlen (entry e) - 1) = Some (zlen (enc_entry e)).
Proof.
  intros He H. pose proof (enc_entry_len_pos e He). pose proof (enc_entry_len_bound e He).
  rewrite entry_len, Z.add_assoc. apply decode_backlen; [lia |]. exact (view_app_r _ _ _ _ H).
Qed.

Lemma validate_entry lp p e bytes : entry_wf e -> view lp p (entry e) ->
  LP_HDR_SIZE <= p -> p + zlen (entry e) <= bytes - 1 ->
  lpValidateNext lp (Some p) bytes = Some (true, Some (p + zlen (entry e))).
Proof.
  intros He H Hp Hb. pose proof (view_entry_enc _ _ _ H) as H'.
  pose proof (enc_entry_len_pos e He). pose proof (enc_entry_len_bound e He).
  pose proof (backlen_size_bounds (zlen (enc_entry e))).
  unfold lpValidateNext, OUT_OF_RANGE, LP_HDR_SIZE in *. pose proof (entry_len e) as El.
  destruct (enc_entry_head e He) as (b & t & Eb & Hbb).
  rewrite (proj2 (Z.ltb_ge p 6)), (proj2 (Z.ltb_ge (bytes - 1) p)) by lia. cbn [orb].
  pose proof H' as Hh. rewrite Eb in Hh. rewrite (view_hd _ _ _ _ Hh). cbn [mbind option_bind].
  unfold LP_EOF. rewrite (proj2 (Z.eqb_neq b 255)) by lia.
  destruct (size_bytes_entry lp p e He H') as (n & -> & Hn). cbn [mbind option_bind].
  rewrite (proj2 (Z.eqb_neq n 0)) by lia.
  rewrite (proj2 (Z.ltb_ge (p + n) 6)), (proj2 (Z.ltb_ge (bytes - 1) (p + n))) by lia. cbn [orb].
  rewrite (size_unsafe_entry lp p e He H'). cbn [mbind option_bind].
  rewrite <- El. rewrite (proj2 (Z.ltb_ge _ 6)), (proj2 (Z.ltb_ge (bytes - 1) _)) by lia. cbn [orb].
  rewrite decode_entry_backlen by done. cbn [mbind option_bind].
  rewrite u64_id by (unfold is_u64; lia). rewrite El, Z.eqb_refl. done.
Qed.

Lemma validate_eof lp p bytes : rd lp p = Some 255 -> LP_HDR_SIZE <= p <= bytes - 1 ->
  lpValidateNext lp (Some p) bytes = Some (true, None).
Proof.
  intros H Hp. unfold lpValidateNext, OUT_OF_RANGE.
  rewrite (proj2 (Z.ltb_ge p _)), (proj2 (Z.ltb_ge (bytes - 1) p)) by lia. cbn [orb].
  rewrite H. done.
Qed.
