(* ===== verification/ListpackSpec.v ===== *)
(** listpack.c: what a listpack is, and what the operations do to it.

    [lp_rep lp es]: the block [lp] (with any slack after its end) holds the
    entries [es].  Traversal, access, validation, search and modification are
    proved against the plain list. *)
From S2P Require Import Prelude Strnum Listpack ListpackCodec.

(** * Representation *)

Definition entries (es : list lpentry) : list Z := concat (map entry es).

(** The offset just after the entries [es]. *)
Definition lp_off (es : list lpentry) : Z := LP_HDR_SIZE + zlen (entries es).

(** The header's element count is exact, or it says "unknown". *)
Definition numele_ok (numele : Z) (es : list lpentry) : Prop :=
  numele = LP_HDR_NUMELE_UNKNOWN \/ (numele = zlen es /\ zlen es < LP_HDR_NUMELE_UNKNOWN).

Definition lp_block (numele : Z) (es : list lpentry) : list Z :=
  le_enc 4 (lp_off es + 1) ++ le_enc 2 numele ++ entries es ++ [LP_EOF].

Definition lp_repn (lp : list Z) (numele : Z) (es : list lpentry) : Prop :=
  (exists slack, lp = lp_block numele es ++ slack) /\
  lp_off es + 1 <= UINT32_MAX /\ Forall entry_wf es /\ numele_ok numele es.

Definition lp_rep (lp : list Z) (es : list lpentry) : Prop := exists numele, lp_repn lp numele es.

Lemma entries_nil : entries [] = [].
Proof. done. Qed.
Lemma entries_cons e es : entries (e :: es) = entry e ++ entries es.
Proof. done. Qed.
Lemma entries_app a b : entries (a ++ b) = entries a ++ entries b.
Proof. unfold entries. now rewrite map_app, concat_app. Qed.

Lemma lp_off_nil : lp_off [] = 6.
Proof. done. Qed.
Lemma lp_off_app a b : lp_off (a ++ b) = lp_off a + zlen (entries b).
Proof. unfold lp_off. rewrite entries_app, zlen_app. lia. Qed.
Lemma lp_off_snoc es e : lp_off (es ++ [e]) = lp_off es + zlen (entry e).
Proof. rewrite lp_off_app, entries_cons, entries_nil, app_nil_r. done. Qed.

Lemma entry_len_bounds e : entry_wf e -> 2 <= zlen (entry e) <= zlen (enc_entry e) + 5.
Proof.
  intros He. rewrite entry_len. pose proof (enc_entry_len_pos e He).
  pose proof (backlen_size_bounds (zlen (enc_entry e))). lia.
Qed.

Lemma entries_len_ge es : Forall entry_wf es -> 2 * zlen es <= zlen (entries es).
Proof.
  induction 1 as [| e es He _ IH]; [done |]. rewrite entries_cons, zlen_app, zlen_cons.
  pose proof (entry_len_bounds e He). lia.
Qed.

Lemma lp_off_ge es : 6 <= lp_off es.
Proof. unfold lp_off, LP_HDR_SIZE. pose proof (zlen_nonneg (entries es)). lia. Qed.

Lemma zlen_lp_block numele es : zlen (lp_block numele es) = lp_off es + 1.
Proof. unfold lp_block, lp_off, LP_HDR_SIZE. rewrite !zlen_app, !zlen_le_enc, zlen_cons, zlen_nil. lia. Qed.

(** [lpe] is the end of the listpack; slack may follow. *)
Section rep.
Context {lp : list Z} {numele : Z} {es : list lpentry} (R : lp_repn lp numele es).

Lemma repn_len : lp_off es + 1 <= zlen lp.
Proof.
  destruct R as [[slack ->] _]. rewrite zlen_app, zlen_lp_block. pose proof (zlen_nonneg slack). lia.
Qed.

Lemma repn_max : lp_off es + 1 <= 4294967295.
Proof. apply R. Qed.

Lemma repn_wf : Forall entry_wf es.
Proof. apply R. Qed.

Lemma repn_numele_range : 0 <= numele <= 65535.
Proof.
  destruct R as (_ & _ & _ & [-> | [-> H]]); unfold LP_HDR_NUMELE_UNKNOWN in *; [lia |].
  pose proof (zlen_nonneg es). lia.
Qed.

Lemma repn_total : lpGetTotalBytes lp = Some (lp_off es + 1).
Proof.
  pose proof repn_max. pose proof (lp_off_ge es). destruct R as [[slack E] _].
  unfold lpGetTotalBytes. rewrite (get32_view lp 0 (le_enc 4 (lp_off es + 1))).
  - rewrite le_dec_enc. change (256 ^ Z.of_nat 4) with 4294967296. rewrite Z.mod_small by lia. done.
  - rewrite E. unfold lp_block. rewrite <- app_assoc. apply (view_app []).
  - apply zlen_le_enc.
  - apply le_enc_bytes.
Qed.

Lemma repn_numele : lpGetNumElements lp = Some numele.
Proof.
  pose proof repn_numele_range. destruct R as [[slack E] _].
  unfold lpGetNumElements. rewrite (get16_view lp 4 (le_enc 2 numele)).
  - rewrite le_dec_enc. change (256 ^ Z.of_nat 2) with 65536. rewrite Z.mod_small by lia. done.
  - rewrite E. unfold lp_block. rewrite <- !app_assoc. apply (view_app (le_enc 4 (lp_off es + 1))).
  - apply zlen_le_enc.
  - apply le_enc_bytes.
Qed.
End rep.

(** What the block holds from the end of the entries [es1] on. *)
Lemma repn_view lp numele es1 es2 : lp_repn lp numele (es1 ++ es2) ->
  view lp (lp_off es1) (entries es2 ++ [LP_EOF]).
Proof.
  intros [[slack ->] _]. unfold lp_block. rewrite entries_app.
  set (h := le_enc 4 _).
  replace (lp_off es1) with (zlen (h ++ le_enc 2 numele ++ entries es1)) by
    (rewrite !zlen_app; unfold h, lp_off, LP_HDR_SIZE; rewrite !zlen_le_enc; lia).
  match goal with |- view ?l _ _ => replace l with
    ((h ++ le_enc 2 numele ++ entries es1) ++ (entries es2 ++ [LP_EOF]) ++ slack)
    by (rewrite <- !app_assoc; done) end.
  apply view_app.
Qed.

Lemma repn_view_eof lp numele es : lp_repn lp numele es -> rd lp (lp_off es) = Some LP_EOF.
Proof.
  intros R. rewrite <- (app_nil_r es) in R. eapply view_hd. exact (repn_view _ _ _ _ R).
Qed.

Section at_entry.
Context {lp : list Z} {numele : Z} {es1 : list lpentry} {e : lpentry} {es2 : list lpentry}
  (R : lp_repn lp numele (es1 ++ e :: es2)).

Lemma repn_entry_wf : entry_wf e.
Proof. pose proof (repn_wf R) as H. rewrite Forall_app, Forall_cons in H. tauto. Qed.

Lemma repn_view_entry : view lp (lp_off es1) (entry e).
Proof.
  pose proof (repn_view _ _ _ _ R) as H. rewrite entries_cons, <- app_assoc in H.
  exact (view_app_l _ _ _ _ H).
Qed.

Lemma repn_view_enc : view lp (lp_off es1) (enc_entry e).
Proof. apply view_entry_enc, repn_view_entry. Qed.

(** The entry ends before the EOF byte. *)
Lemma repn_entry_end :
  lp_off es1 + zlen (entry e) + zlen (entries es2) = lp_off (es1 ++ e :: es2).
Proof. rewrite lp_off_app, entries_cons, zlen_app. lia. Qed.

Lemma repn_entry_end_le : lp_off es1 + zlen (entry e) <= lp_off (es1 ++ e :: es2).
Proof. rewrite <- repn_entry_end. pose proof (zlen_nonneg (entries es2)). lia. Qed.

(** The first byte is an encoding byte, not EOF. *)
Lemma repn_head : exists b, rd lp (lp_off es1) = Some b /\ (b =? LP_EOF) = false.
Proof.
  destruct (enc_entry_head e repn_entry_wf) as (b & t & E & Hb). pose proof repn_view_enc as H.
  rewrite E in H. exists b. split; [exact (view_hd _ _ _ _ H) |]. apply Z.eqb_neq. unfold LP_EOF. lia.
Qed.

Lemma repn_skip : lpSkip lp (lp_off es1) = Some (lp_off (es1 ++ [e])).
Proof. rewrite lp_off_snoc. apply skip_entry; [exact repn_entry_wf | exact repn_view_enc]. Qed.

Lemma repn_validate bytes : lp_off (es1 ++ e :: es2) <= bytes - 1 ->
  lpValidateNext lp (Some (lp_off es1)) bytes = Some (true, Some (lp_off (es1 ++ [e]))).
Proof.
  intros Hb. rewrite lp_off_snoc. apply validate_entry; [exact repn_entry_wf | exact repn_view_entry | |].
  - unfold LP_HDR_SIZE. apply lp_off_ge.
  - pose proof repn_entry_end_le. lia.
Qed.

Lemma repn_assert : lpAssertValidEntry lp (lp_off (es1 ++ e :: es2) + 1) (lp_off es1) = Some tt.
Proof. unfold lpAssertValidEntry. rewrite repn_validate by lia. done. Qed.

Lemma repn_total_assert :
  (bytes ← lpBytes lp; lpAssertValidEntry lp bytes (lp_off es1)) = Some tt.
Proof. unfold lpBytes. rewrite (repn_total R). cbn [mbind option_bind]. exact repn_assert. Qed.
End at_entry.

Lemma snoc_mid {A} (l k : list A) x : (l ++ [x]) ++ k = l ++ x :: k.
Proof. now rewrite <- app_assoc. Qed.

(** ** Traversal *)

(** A pointer to the first entry of the rest, NULL when there is none. *)
Definition lp_ptr (es1 es2 : list lpentry) : option Z :=
  match es2 with [] => None | _ :: _ => Some (lp_off es1) end.

Lemma repn_at lp numele es1 es2 : lp_repn lp numele (es1 ++ es2) ->
  (b ← rd lp (lp_off es1);
   if b =? LP_EOF then Some None
   else bytes ← lpBytes lp; _ ← lpAssertValidEntry lp bytes (lp_off es1); Some (Some (lp_off es1)))
  = Some (lp_ptr es1 es2).
Proof.
  intros R. destruct es2 as [| e es2].
  - rewrite app_nil_r in R. rewrite (repn_view_eof _ _ _ R). done.
  - destruct (repn_head R) as (b & -> & Hb). cbn [mbind option_bind]. rewrite Hb.
    unfold lpBytes. rewrite (repn_total R). cbn [mbind option_bind]. rewrite (repn_assert R). done.
Qed.

Lemma next_entry lp numele es1 e es2 : lp_repn lp numele (es1 ++ e :: es2) ->
  lpNext lp (lp_off es1) = Some (lp_ptr (es1 ++ [e]) es2).
Proof.
  intros R. unfold lpNext. rewrite (repn_skip R). cbn [mbind option_bind].
  apply repn_at with numele. now rewrite snoc_mid.
Qed.

Lemma first_entry lp numele es : lp_repn lp numele es -> lpFirst lp = Some (lp_ptr [] es).
Proof. intros R. apply (repn_at lp numele [] es). exact R. Qed.

Lemma prev_first lp : lpPrev lp (lp_off []) = Some None.
Proof. done. Qed.

Lemma prev_entry lp numele es1 e es2 : lp_repn lp numele (es1 ++ e :: es2) ->
  lpPrev lp (lp_off (es1 ++ [e])) = Some (Some (lp_off es1)).
Proof.
  intros R. pose proof (repn_entry_wf R) as He. pose proof (enc_entry_len_bound e He) as Hb.
  pose proof (enc_entry_len_pos e He) as Hp. pose proof (backlen_size_bounds (zlen (enc_entry e))) as Hs.
  pose proof (lp_off_ge es1) as Ho. pose proof (entry_len e) as El.
  unfold lpPrev, LP_HDR_SIZE. rewrite lp_off_snoc, (proj2 (Z.eqb_neq _ 6)) by lia.
  rewrite (decode_entry_backlen lp _ e He (repn_view_entry R)). cbn [mbind option_bind].
  rewrite u64_id by (unfold is_u64; lia).
  replace (_ - 1 - _) with (lp_off es1) by lia. unfold lpBytes. rewrite (repn_total R).
  cbn [mbind option_bind]. rewrite (repn_assert R). done.
Qed.

Lemma last_entry lp numele es e : lp_repn lp numele (es ++ [e]) -> lpLast lp = Some (Some (lp_off es)).
Proof.
  intros R. unfold lpLast. rewrite (repn_total R). cbn [mbind option_bind].
  rewrite Z.add_simpl_r. exact (prev_entry _ _ _ _ _ R).
Qed.

Lemma last_nil lp numele : lp_repn lp numele [] -> lpLast lp = Some None.
Proof. intros R. unfold lpLast. rewrite (repn_total R). done. Qed.

(** ** Length and positional access *)

Lemma zlen_entries_fuel lp numele es1 es2 : lp_repn lp numele (es1 ++ es2) -> (length es2 <= length lp)%nat.
Proof.
  intros R. pose proof (repn_len R). pose proof (entries_len_ge _ (repn_wf R)) as H0.
  unfold lp_off, LP_HDR_SIZE in *. rewrite entries_app, !zlen_app in *. unfold zlen in *. lia.
Qed.

Lemma length_loop lp numele es2 : forall es1 fuel count,
  lp_repn lp numele (es1 ++ es2) -> (length es2 <= fuel)%nat ->
  0 <= count -> count + zlen es2 < 4294967296 ->
  lpLength_loop fuel lp (lp_ptr es1 es2) count = Some (count + zlen es2).
Proof.
  induction es2 as [| e es2 IH]; intros es1 fuel count R Hf Hc Hb.
  - destruct fuel; cbn [lpLength_loop lp_ptr]; f_equal; zl.
  - rewrite zlen_cons in *. pose proof (zlen_nonneg es2). destruct fuel as [| fuel]; [simpl in Hf; lia |].
    cbn [lpLength_loop lp_ptr]. rewrite (next_entry _ _ _ _ _ R). cbn [mbind option_bind].
    rewrite u32_id by lia. rewrite IH; [f_equal; lia | now rewrite snoc_mid | simpl in Hf; lia | lia | lia].
Qed.

Lemma set_numele lp numele es n : lp_repn lp numele es -> 0 <= n -> numele_ok n es ->
  exists lp', lpSetNumElements lp n = Some lp' /\ lp_repn lp' n es /\ zlen lp' = zlen lp.
Proof.
  intros ([slack ->] & Hm & Hw & _) Hn Ho. unfold lpSetNumElements, lp_block.
  rewrite <- (le_enc2 n).
  exists ((le_enc 4 (lp_off es + 1) ++ le_enc 2 n ++ entries es ++ [LP_EOF]) ++ slack).
  split; [| split; [| zl]].
  - rewrite <- !app_assoc. apply wrn_app; rewrite ?zlen_le_enc; done.
  - refine (conj (ex_intro _ slack eq_refl) (conj Hm (conj Hw Ho))).
Qed.

Lemma numele_count numele es : numele_ok numele es ->
  (numele =? LP_HDR_NUMELE_UNKNOWN) = false -> numele = zlen es.
Proof. intros [-> | [-> _]]; [done | done]. Qed.

Lemma length_rep lp numele es : lp_repn lp numele es ->
  exists lp' n, lpLength lp = Some (zlen es, lp') /\ lp_repn lp' n es /\ zlen lp' = zlen lp.
Proof.
  intros R. unfold lpLength. rewrite (repn_numele R). cbn [mbind option_bind].
  destruct (numele =? LP_HDR_NUMELE_UNKNOWN) eqn:En; cbn [negb].
  2:{ rewrite (numele_count numele es) in * by (apply R || done). eauto. }
  rewrite (first_entry _ _ _ R). cbn [mbind option_bind].
  pose proof (repn_max R). pose proof (entries_len_ge _ (repn_wf R)).
  pose proof (zlen_entries_fuel lp numele [] es R). pose proof (zlen_nonneg es).
  unfold lp_off, LP_HDR_SIZE in *.
  rewrite (length_loop lp numele es []) by (done || lia). cbn [mbind option_bind].
  rewrite Z.add_0_l. destruct (Z.ltb_spec (zlen es) LP_HDR_NUMELE_UNKNOWN); [| by eauto].
  destruct (set_numele lp numele es (zlen es) R) as (lp' & -> & R' & Hl); [done | right; done |].
  eexists _, _. split; [reflexivity | eauto].
Qed.

Lemma seek_forward lp numele es2 : forall es1 fuel index,
  lp_repn lp numele (es1 ++ es2) -> (length es2 <= fuel)%nat -> 0 <= index ->
  lpSeek_forward fuel lp (lp_ptr es1 es2) index =
    Some (lp_ptr (es1 ++ take (Z.to_nat index) es2) (drop (Z.to_nat index) es2)).
Proof.
  induction es2 as [| e es2 IH]; intros es1 fuel index R Hf Hi.
  - rewrite drop_nil. destruct fuel; done.
  - destruct fuel as [| fuel]; [simpl in Hf; lia |]. cbn [lpSeek_forward lp_ptr].
    destruct (Z.ltb_spec 0 index).
    + rewrite (next_entry _ _ _ _ _ R). cbn [mbind option_bind].
      rewrite IH; [| now rewrite snoc_mid | simpl in Hf; lia | lia].
      replace (Z.to_nat index) with (S (Z.to_nat (index - 1))) by lia.
      cbn [take drop]. now rewrite snoc_mid.
    + replace index with 0 by lia. cbn [Z.to_nat take drop lp_ptr]. now rewrite app_nil_r.
Qed.

Lemma seek_backward lp numele : forall es1 e es2 fuel k,
  lp_repn lp numele (es1 ++ e :: es2) -> (length es1 < fuel)%nat ->
  lpSeek_backward fuel lp (Some (lp_off es1)) (-1 - Z.of_nat k) =
    Some (if (k <=? length es1)%nat then Some (lp_off (take (length es1 - k) es1)) else None).
Proof.
  intros es1. induction es1 as [| e1 es1 IH] using rev_ind; intros e es2 fuel k R Hf.
  - destruct fuel as [| fuel]; [lia |]. cbn [lpSeek_backward].
    destruct k as [| k]; [done |]. rewrite (proj2 (Z.ltb_lt _ _)) by lia.
    rewrite prev_first. cbn [mbind option_bind]. destruct fuel; done.
  - rewrite length_app in *. cbn [length] in *. destruct fuel as [| fuel]; [lia |].
    cbn [lpSeek_backward]. destruct k as [| k].
    + rewrite (proj2 (Nat.leb_le 0 _)), Nat.sub_0_r, take_ge by (rewrite ?length_app; simpl; lia). done.
    + rewrite (proj2 (Z.ltb_lt _ _)) by lia. rewrite snoc_mid in R.
      rewrite (prev_entry _ _ _ _ _ R). cbn [mbind option_bind].
      replace (-1 - Z.of_nat (S k) + 1) with (-1 - Z.of_nat k) by lia.
      rewrite (IH e1 (e :: es2) fuel k R) by lia.
      replace (S k <=? length es1 + 1)%nat with (k <=? length es1)%nat by
        (apply eq_true_iff_eq; rewrite !Nat.leb_le; lia).
      replace (length es1 + 1 - S k)%nat with (length es1 - k)%nat by lia.
      rewrite take_app_le by lia. done.
Qed.

(** Where the element at [index] is, negative indexes counting from the end. *)
Definition seek_spec (es : list lpentry) (index : Z) : option Z :=
  let i := if index <? 0 then zlen es + index else index in
  if (0 <=? i) && (i <? zlen es) then Some (lp_off (take (Z.to_nat i) es)) else None.

Lemma seek_first lp numele es index : lp_repn lp numele es -> 0 <= index ->
  (ele ← lpFirst lp; lpSeek_forward (length lp) lp ele index) = Some (seek_spec es index).
Proof.
  intros R Hi. rewrite (first_entry _ _ _ R). cbn [mbind option_bind].
  rewrite (seek_forward lp numele es []) by (try exact (zlen_entries_fuel lp numele [] es R); done).
  unfold seek_spec. rewrite (proj2 (Z.ltb_ge index 0)), (proj2 (Z.leb_le 0 index)) by done.
  cbn [andb app]. f_equal. destruct (Z.ltb_spec index (zlen es)) as [Hl | Hl]; unfold zlen in Hl.
  - destruct (drop (Z.to_nat index) es) eqn:E; [| done].
    apply (f_equal length) in E. rewrite length_drop in E. simpl in E. lia.
  - rewrite drop_ge by lia. done.
Qed.

Lemma seek_last lp numele es index : lp_repn lp numele es -> index < 0 ->
  (ele ← lpLast lp; lpSeek_backward (length lp) lp ele index) = Some (seek_spec es index).
Proof.
  intros R Hi. unfold seek_spec. rewrite (proj2 (Z.ltb_lt index 0)) by done.
  destruct es as [| e es _] using rev_ind.
  - rewrite (last_nil _ _ R). cbn [mbind option_bind].
    rewrite (proj2 (Z.leb_gt 0 (zlen (@nil lpentry) + index))) by (change (zlen (@nil lpentry)) with 0; lia). cbn [andb]. destruct (length lp); done.
  - rewrite (last_entry _ _ _ _ R). cbn [mbind option_bind].
    pose proof (zlen_entries_fuel lp numele [] (es ++ [e]) R) as Hf. rewrite length_app in Hf. simpl in Hf.
    replace index with (-1 - Z.of_nat (Z.to_nat (-1 - index))) at 1 by lia.
    rewrite (seek_backward lp numele es e []) by (done || lia). f_equal.
    rewrite zlen_app, zlen_cons, (@zlen_nil lpentry). unfold zlen.
    destruct (Nat.leb_spec (Z.to_nat (-1 - index)) (length es)).
    + rewrite (proj2 (Z.leb_le 0 _)), (proj2 (Z.ltb_lt _ _)) by lia. cbn [andb].
      rewrite take_app_le by lia. do 3 f_equal. lia.
    + rewrite (proj2 (Z.leb_gt 0 _)) by lia. done.
Qed.

Lemma seek_rep lp numele es index : lp_repn lp numele es -> lpSeek lp index = Some (seek_spec es index).
Proof.
  intros R. unfold lpSeek. rewrite (repn_numele R). cbn [mbind option_bind].
  destruct (numele =? LP_HDR_NUMELE_UNKNOWN) eqn:En; cbn [negb].
  { destruct (Z.ltb_spec index 0); cbn [negb]; [now apply seek_last with numele | now apply seek_first with numele]. }
  rewrite (numele_count numele es) in * by (apply R || done). pose proof (zlen_nonneg es).
  set (i := if index <? 0 then zlen es + index else index).
  assert (seek_spec es index = if (0 <=? i) && (i <? zlen es) then Some (lp_off (take (Z.to_nat i) es)) else None)
    as Hs by done.
  rewrite Hs. clearbody i. clear Hs.
  destruct (Z.ltb_spec i 0); [rewrite (proj2 (Z.leb_gt 0 i)) by lia; done |].
  rewrite (proj2 (Z.leb_le 0 i)) by lia. rewrite Z.leb_antisym.
  destruct (Z.ltb_spec i (zlen es)); cbn [negb andb]; [| done].
  destruct (Z.ltb_spec (zlen es ÷ 2) i).
  - rewrite (seek_last lp _ es (i - zlen es) R) by lia. unfold seek_spec.
    rewrite (proj2 (Z.ltb_lt (i - zlen es) 0)) by lia. replace (zlen es + (i - zlen es)) with i by lia.
    rewrite (proj2 (Z.leb_le 0 i)), (proj2 (Z.ltb_lt i _)) by lia. done.
  - rewrite (seek_first lp _ es i R) by lia. unfold seek_spec.
    rewrite (proj2 (Z.ltb_ge i 0)), (proj2 (Z.leb_le 0 i)), (proj2 (Z.ltb_lt i _)) by lia. done.
Qed.

(** * Modification *)

(** ** Moving the rest of the block *)

(** The reallocation and [memmove] of [lpInsert]: the [r] between [h] and the
    rest [t] makes room for [n] bytes. *)
Lemma splice junk h r t s n : 0 <= n ->
  let old := zlen h + zlen r + zlen t in
  let new := zlen h + n + zlen t in
  let m := h ++ r ++ t ++ s in
  exists m2,
    memmove (if (old <? new) && (zlen m <? new) then zrealloc junk m new else m)
      (zlen h + n) (zlen h + zlen r) (zlen t) = Some m2 /\
    exists x s', (if new <? old then zrealloc junk m2 new else m2) = h ++ x ++ t ++ s' /\ zlen x = n.
Proof.
  intros Hn old new m. zl_pose. pose proof (zlen_nonneg h). pose proof (zlen_nonneg r).
  pose proof (zlen_nonneg t). pose proof (zlen_nonneg s).
  assert (zlen m = old + zlen s) as Hm by (subst m old; rewrite !zlen_app; lia).
  assert (exists s1, (if (old <? new) && (zlen m <? new) then zrealloc junk m new else m) = h ++ r ++ t ++ s1 /\
    new <= old + zlen s1) as (s1 & -> & Hs1).
  { destruct ((old <? new) && (zlen m <? new)) eqn:E.
    - rewrite andb_true_iff, !Z.ltb_lt in E. rewrite zrealloc_grow by lia. subst m.
      exists (s ++ fresh_bytes junk (new - zlen (h ++ r ++ t ++ s))). rewrite <- !app_assoc. split; [done |].
      rewrite zlen_app, zlen_fresh_bytes. lia.
    - exists s. split; [done |]. rewrite andb_false_iff, !Z.ltb_ge in E. lia. }
  unfold memmove.
  assert (rdn (h ++ r ++ t ++ s1) (zlen h + zlen r) (zlen t) = Some t) as ->
    by (rewrite (app_assoc h); apply rdn_app; rewrite ?zlen_app; done).
  cbn [mbind option_bind].
  destruct (wrn_is_Some (h ++ r ++ t ++ s1) (zlen h + n) t) as [m2 E]; [lia | rewrite !zlen_app; subst old new; lia |].
  exists m2. split; [done |]. pose proof (wrn_length _ _ _ _ E) as Hl2.
  apply wrn_Some in E as (a & b & c & E & Ha & Hb & ->).
  assert (exists x, a = h ++ x) as [x ->].
  { apply (f_equal (take (length h))) in E. unfold zlen in *. rewrite take_app_length in E.
    rewrite take_app_le in E by lia. exists (drop (length h) a). rewrite E at 1. now rewrite take_drop. }
  assert (zlen x = n) as Hx by (rewrite zlen_app in Ha; lia).
  destruct (Z.ltb_spec new old).
  - exists x, []. split; [| done]. rewrite zrealloc_shrink.
    + replace (Z.to_nat new) with (length ((h ++ x) ++ t)).
      * rewrite app_assoc, take_app_length, app_nil_r, <- !app_assoc. done.
      * subst new. rewrite !length_app. unfold zlen in *. lia.
    + rewrite !zlen_app in *. subst new. pose proof (zlen_nonneg c). lia.
  - exists x, c. rewrite <- !app_assoc. done.
Qed.

(** Writing the new element over that room. *)
Lemma write_entry h x t enc bl : zlen x = zlen enc + zlen bl ->
  (lp ← wrn (h ++ x ++ t) (zlen h) enc; wrn lp (zlen h + zlen enc) bl) = Some (h ++ (enc ++ bl) ++ t).
Proof.
  intros Hx. pose proof (zlen_nonneg enc). pose proof (zlen_nonneg bl).
  rewrite <- (take_drop (Z.to_nat (zlen enc)) x).
  set (x1 := take _ x). set (x2 := drop _ x).
  assert (zlen x1 = zlen enc) as H1 by (apply zlen_take; lia).
  assert (zlen x2 = zlen bl) as H2 by (unfold x2; rewrite zlen_drop by lia; lia).
  rewrite <- (app_assoc x1), (wrn_app h x1 enc) by done. cbn [mbind option_bind].
  rewrite (app_assoc h enc). rewrite wrn_app by (rewrite ?zlen_app; done).
  now rewrite <- !app_assoc.
Qed.

(** ** The header *)

Definition lp_raw (total numele : Z) (body : list Z) : list Z :=
  le_enc 4 total ++ le_enc 2 numele ++ body.

Lemma raw_set_total t n body v : lpSetTotalBytes (lp_raw t n body) v = Some (lp_raw v n body).
Proof.
  unfold lpSetTotalBytes, lp_raw. rewrite <- le_enc4. apply (wrn_app []); [done |]. now rewrite !zlen_le_enc.
Qed.

Lemma raw_set_numele t n body v : lpSetNumElements (lp_raw t n body) v = Some (lp_raw t v body).
Proof.
  unfold lpSetNumElements, lp_raw. rewrite <- le_enc2. apply wrn_app; now rewrite !zlen_le_enc.
Qed.

Lemma raw_numele t n body : 0 <= n < 65536 -> lpGetNumElements (lp_raw t n body) = Some n.
Proof.
  intros Hn. unfold lpGetNumElements, lp_raw. rewrite (get16_view _ 4 (le_enc 2 n)).
  - rewrite le_dec_enc. change (256 ^ Z.of_nat 2) with 65536. rewrite Z.mod_small by lia. done.
  - apply (view_app (le_enc 4 t)).
  - apply zlen_le_enc.
  - apply le_enc_bytes.
Qed.

Lemma zlen_raw t n body : zlen (lp_raw t n body) = 6 + zlen body.
Proof. unfold lp_raw. rewrite !zlen_app, !zlen_le_enc. lia. Qed.

Lemma repn_raw lp numele es : lp_repn lp numele es ->
  exists slack, lp = lp_raw (lp_off es + 1) numele (entries es ++ [LP_EOF] ++ slack).
Proof.
  intros [[slack ->] _]. exists slack. unfold lp_block, lp_raw. rewrite <- !app_assoc. done.
Qed.

Lemma raw_repn numele es slack : lp_off es + 1 <= UINT32_MAX -> Forall entry_wf es -> numele_ok numele es ->
  lp_repn (lp_raw (lp_off es + 1) numele (entries es ++ [LP_EOF] ++ slack)) numele es.
Proof.
  intros. split; [| done]. exists slack. unfold lp_block, lp_raw. rewrite <- !app_assoc. done.
Qed.

(** [num_elements] after [d] more elements (or [d < 0] fewer). *)
Definition bump (numele d : Z) : Z := if numele =? LP_HDR_NUMELE_UNKNOWN then numele else numele + d.

Lemma raw_bump t n body d : 0 <= n < 65536 ->
  (num ← lpGetNumElements (lp_raw t n body);
   if negb (num =? LP_HDR_NUMELE_UNKNOWN) then lpSetNumElements (lp_raw t n body) (num + d)
   else Some (lp_raw t n body)) = Some (lp_raw t (bump n d) body).
Proof.
  intros Hn. rewrite raw_numele by done. cbn [mbind option_bind]. unfold bump.
  destruct (n =? LP_HDR_NUMELE_UNKNOWN) eqn:E; cbn [negb]; [| apply raw_set_numele].
  done.
Qed.

Lemma bump_ok numele es es' d : numele_ok numele es -> zlen es' = zlen es + d -> d <= 1 ->
  numele_ok (bump numele d) es'.
Proof.
  unfold numele_ok, bump, LP_HDR_NUMELE_UNKNOWN. intros [-> | [-> H]] E Hd; [by left |].
  destruct (Z.eqb_spec (zlen es) 65535); lia.
Qed.

(** ** Elements given to [lpInsert] *)

(** The entry that stands for the string [s]. *)
Definition str_entry (s : list Z) : lpentry :=
  match lpStringToInt64 s with Some v => EInt v | None => EStr s end.

Inductive lp_elem : option (list Z) -> option (list Z) -> lpentry -> Prop :=
  | elem_str s eleint : lp_elem (Some s) eleint (str_entry s)
  | elem_int v : lp_elem None (Some (lpEncodeIntegerGetType v)) (EInt v).

(** What the caller must provide: a 64 bit integer, or a string whose length
    leaves the 64 bit sizes exact. *)
Definition elem_ok (x : lpentry) : Prop :=
  match x with EInt v => is_i64 v | EStr s => bytes s /\ zlen s < 2 ^ 62 end.

Lemma zlen_lpEncodeString s :
  zlen (lpEncodeString s) =
    if zlen s <? 64 then 1 + zlen s else if zlen s <? 4096 then 2 + zlen s else 5 + zlen s.
Proof. unfold lpEncodeString. repeat case_if; rewrite ?zlen_app, ?zlen_cons, ?(@zlen_nil Z); lia. Qed.

Lemma lp_elem_enc elestr eleint x : lp_elem elestr eleint x ->
  match elestr, eleint with
  | Some s, _ =>
      let '(enctype, intenc, _) := lpEncodeGetType s in
      match enctype with LP_ENCODING_INT => intenc | LP_ENCODING_STRING => lpEncodeString s end
  | None, Some e => e
  | None, None => []
  end = enc_entry x /\
  match elestr, eleint with
  | Some s, _ => snd (lpEncodeGetType s)
  | None, Some e => zlen e
  | None, None => 0
  end = zlen (enc_entry x) /\
  bool_decide (elestr = None) && bool_decide (eleint = None) = false.
Proof.
  intros [s ei | v].
  - unfold str_entry, lpEncodeGetType. split; [| split; [| done]]; destruct (lpStringToInt64 s); try done.
    cbn [snd enc_entry]. now rewrite zlen_lpEncodeString.
  - split; [done |]. split; [done |]. rewrite andb_false_iff. right. now rewrite bool_decide_eq_false_2.
Qed.

Lemma zlen_enc_bound x : elem_ok x -> 0 <= zlen (enc_entry x) < 2 ^ 62 + 5.
Proof.
  split; [apply zlen_nonneg |]. destruct x as [v | s].
  - pose proof (enc_entry_len_bound (EInt v) H). lia.
  - destruct H as [_ H]. cbn [enc_entry]. rewrite zlen_lpEncodeString. repeat case_if; lia.
Qed.

(** An element that fits is well formed. *)
Lemma elem_fits x es1 es2 : elem_ok x -> lp_off (es1 ++ x :: es2) + 1 <= UINT32_MAX -> entry_wf x.
Proof.
  destruct x as [v | s]; [done |]. intros [Hb Hs] H. split; [done |].
  rewrite lp_off_app, entries_cons, zlen_app, entry_len in H. cbn [enc_entry] in H.
  pose proof (lp_off_ge es1). pose proof (zlen_nonneg (entries es2)).
  pose proof (backlen_size_bounds (zlen (lpEncodeString s))). unfold UINT32_MAX in H.
  pose proof (zlen_lpEncodeString s) as El. revert El. repeat case_if; lia.
Qed.

(** ** [lpInsert] *)

(** The room for the new entries. *)
Lemma insert_room junk lp numele es1 old es2 n : lp_repn lp numele (es1 ++ old ++ es2) -> 0 <= n ->
  let old_bytes := lp_off (es1 ++ old ++ es2) + 1 in
  let new_bytes := lp_off (es1 ++ es2) + 1 + n in
  exists m2,
    memmove (if (old_bytes <? new_bytes) && (zlen lp <? new_bytes) then zrealloc junk lp new_bytes else lp)
      (lp_off es1 + n) (lp_off es1 + zlen (entries old))
      (old_bytes - lp_off es1 - zlen (entries old)) = Some m2 /\
    exists x s', (if new_bytes <? old_bytes then zrealloc junk m2 new_bytes else m2) =
      lp_raw old_bytes numele (entries es1 ++ x ++ entries es2 ++ [LP_EOF] ++ s') /\ zlen x = n.
Proof.
  intros R Hn old_bytes new_bytes. destruct (repn_raw _ _ _ R) as [slack E].
  destruct (splice junk (lp_raw old_bytes numele (entries es1)) (entries old) (entries es2 ++ [LP_EOF]) slack n Hn)
    as (m2 & E1 & x & s' & E2 & Hx).
  assert (zlen (lp_raw old_bytes numele (entries es1)) = lp_off es1) as Hh by apply zlen_raw.
  rewrite Hh in E1, E2. exists m2.
  assert (zlen (entries es2 ++ [LP_EOF]) = old_bytes - lp_off es1 - zlen (entries old)) as Ht.
  { subst old_bytes. rewrite !lp_off_app, zlen_app, entries_app, zlen_app.
    change (zlen [LP_EOF]) with 1. lia. }
  rewrite Ht in E1, E2.
  replace (lp_off es1 + zlen (entries old) + (old_bytes - lp_off es1 - zlen (entries old)))
    with old_bytes in E1, E2 by lia.
  replace (lp_off es1 + n + (old_bytes - lp_off es1 - zlen (entries old))) with new_bytes in E1, E2
    by (subst old_bytes new_bytes; rewrite !lp_off_app, entries_app, zlen_app; lia).
  rewrite E. fold old_bytes. rewrite !entries_app, <- !app_assoc.
  unfold lp_raw in E1, E2 |- *. rewrite <- !app_assoc in E1, E2. split; [exact E1 |].
  exists x, s'. split; [exact E2 | exact Hx].
Qed.

Lemma lp_off_insert es1 x es2 : lp_off (es1 ++ x :: es2) = lp_off (es1 ++ es2) + zlen (entry x).
Proof. rewrite !lp_off_app, entries_cons, zlen_app. lia. Qed.

(** The new total fits the four bytes of the header. *)
Lemma elem_total numele lp es1 old x es2 : lp_repn lp numele (es1 ++ old ++ es2) -> elem_ok x ->
  u64 (lp_off (es1 ++ old ++ es2) + 1 + zlen (enc_entry x) + zlen (lpEncodeBacklen (zlen (enc_entry x)))
       - zlen (entries old)) = lp_off (es1 ++ x :: es2) + 1.
Proof.
  intros R Hx. pose proof (repn_max R) as Hm. pose proof (zlen_enc_bound x Hx).
  pose proof (backlen_size_bounds (zlen (enc_entry x))). unfold lpBacklenSize in *.
  rewrite lp_off_insert, entry_len. unfold lpBacklenSize.
  rewrite !lp_off_app, !entries_app, !zlen_app in *.
  pose proof (lp_off_ge es1). pose proof (zlen_nonneg (entries es2)). pose proof (zlen_nonneg (entries old)).
  rewrite u64_id by (unfold is_u64; lia). lia.
Qed.

(** Once the element and the position are known: the entry [x] is written in
    the place of the entries [old]. *)
Lemma insert_write junk lp numele es1 old x es2 : lp_repn lp numele (es1 ++ old ++ es2) ->
  let old_bytes := lp_off (es1 ++ old ++ es2) + 1 in
  let new_bytes := lp_off (es1 ++ x :: es2) + 1 in
  let enc := enc_entry x in
  let bl := lpEncodeBacklen (zlen enc) in
  exists m2 s',
    memmove (if (old_bytes <? new_bytes) && (zlen lp <? new_bytes) then zrealloc junk lp new_bytes else lp)
      (lp_off es1 + zlen enc + zlen bl) (lp_off es1 + zlen (entries old))
      (old_bytes - lp_off es1 - zlen (entries old)) = Some m2 /\
    (lp ← wrn (if new_bytes <? old_bytes then zrealloc junk m2 new_bytes else m2) (lp_off es1) enc;
     wrn lp (lp_off es1 + zlen enc) bl) =
      Some (lp_raw old_bytes numele (entries (es1 ++ x :: es2) ++ [LP_EOF] ++ s')).
Proof.
  intros R old_bytes new_bytes enc bl.
  assert (zlen enc + zlen bl = zlen (entry x)) as Hl by (rewrite entry_len; done).
  destruct (insert_room junk lp numele es1 old es2 (zlen enc + zlen bl) R) as (m2 & E1 & y & s' & E2 & Hy).
  { pose proof (zlen_nonneg enc). pose proof (zlen_nonneg bl). lia. }
  fold old_bytes in E1, E2. rewrite Hl in E1, E2.
  replace (lp_off (es1 ++ es2) + 1 + zlen (entry x)) with new_bytes in E1, E2
    by (subst new_bytes; rewrite lp_off_insert; lia).
  exists m2, s'. split; [rewrite <- Z.add_assoc, Hl; exact E1 |]. rewrite E2.
  pose proof (write_entry (lp_raw old_bytes numele (entries es1)) y (entries es2 ++ [LP_EOF] ++ s') enc bl ltac:(lia)) as W.
  rewrite zlen_raw in W. change (6 + zlen (entries es1)) with (lp_off es1) in W.
  unfold lp_raw in W |- *. rewrite <- !app_assoc in W. rewrite W.
  rewrite entries_app, entries_cons. unfold entry. fold enc. fold bl. rewrite <- !app_assoc. done.
Qed.

Lemma raw_done t n es s : lp_off es + 1 <= UINT32_MAX -> Forall entry_wf es -> numele_ok n es ->
  exists lp', lpSetTotalBytes (lp_raw t n (entries es ++ [LP_EOF] ++ s)) (lp_off es + 1) = Some lp' /\
    lp_repn lp' n es.
Proof. intros. eexists. split; [apply raw_set_total | now apply raw_repn]. Qed.

Lemma wf_replace es1 old es2 new : Forall entry_wf (es1 ++ old ++ es2) -> Forall entry_wf new ->
  Forall entry_wf (es1 ++ new ++ es2).
Proof. rewrite !Forall_app. tauto. Qed.

Lemma assert_integrity lp numele es p len : lp_repn lp numele es -> 6 <= p -> p + len < lp_off es + 1 ->
  ASSERT_INTEGRITY lp p len = Some tt.
Proof.
  intros R Hp Hl. unfold ASSERT_INTEGRITY, LP_HDR_SIZE. rewrite (repn_total R). cbn [mbind option_bind].
  rewrite (proj2 (Z.leb_le 6 _)), (proj2 (Z.ltb_lt _ _)) by lia. done.
Qed.

(** What [lpInsert] measures of an entry it replaces. *)
Lemma replaced_entry lp numele es1 e es2 : lp_repn lp numele (es1 ++ e :: es2) ->
  (l ← lpCurrentEncodedSizeUnsafe lp (lp_off es1);
   let l := u32 (l + lpBacklenSize l) in
   _ ← ASSERT_INTEGRITY lp (lp_off es1) l; Some l) = Some (zlen (entry e)).
Proof.
  intros R. rewrite (size_unsafe_entry lp _ e (repn_entry_wf R) (repn_view_enc R)). cbn [mbind option_bind].
  rewrite <- entry_len. pose proof (repn_max R). pose proof (@repn_entry_end_le es1 e es2).
  pose proof (lp_off_ge es1). pose proof (zlen_nonneg (entry e)).
  rewrite u32_id by lia. rewrite (assert_integrity _ _ _ _ _ R) by lia. done.
Qed.

Section insert.
Context (junk : nat -> Z) {elestr eleint : option (list Z)} {x : lpentry}
  (Hel : lp_elem elestr eleint x) (Hx : elem_ok x).

(** Too large a result is refused, whatever the mode. *)
Definition insert_result (es : list lpentry) (newp : Z) (r : option (option (list Z * option Z))) : Prop :=
  if UINT32_MAX <? lp_off es + 1 then r = Some None
  else exists lp', r = Some (Some (lp', Some newp)) /\ lp_rep lp' es.

Lemma insert_before lp es1 es2 : lp_rep lp (es1 ++ es2) ->
  insert_result (es1 ++ x :: es2) (lp_off es1) (lpInsert junk lp elestr eleint (lp_off es1) LP_BEFORE).
Proof.
  intros [numele R]. destruct (lp_elem_enc _ _ _ Hel) as (Eenc & Elen & Edel).
  unfold lpInsert. cbv zeta. rewrite Edel, Eenc, Elen. cbn [mbind option_bind]. rewrite (repn_total R).
  cbn [mbind option_bind].
  pose proof (elem_total numele lp es1 [] x es2 R Hx) as En. cbn [app] in En.
  change (zlen (entries [])) with 0 in En. rewrite En.
  unfold insert_result. destruct (Z.ltb_spec UINT32_MAX (lp_off (es1 ++ x :: es2) + 1)) as [| Hmax]; [done |].
  destruct (insert_write junk lp numele es1 [] x es2 R) as (m2 & s' & E1 & E2).
  change (([] : list lpentry) ++ es2) with es2 in E1, E2. change (zlen (entries [])) with 0 in E1. rewrite Z.add_0_r, Z.sub_0_r in E1.
  rewrite E1. cbn [mbind option_bind]. cbn [mbind option_bind] in E2. rewrite E2. cbn [mbind option_bind].
  pose proof (repn_numele_range R).
  rewrite (raw_bump _ _ _ 1) by lia. cbn [mbind option_bind].
  destruct (raw_done (lp_off (es1 ++ es2) + 1) (bump numele 1) (es1 ++ x :: es2) s' Hmax) as (lp' & -> & R').
  - apply (wf_replace es1 [] es2 [x] (repn_wf R)). rewrite Forall_singleton. now apply elem_fits with es1 es2.
  - apply (bump_ok numele (es1 ++ es2)); [apply R | rewrite !zlen_app, zlen_cons; lia | lia].
  - exists lp'. split; [done | by exists (bump numele 1)].
Qed.

Lemma insert_replace lp es1 e es2 : lp_rep lp (es1 ++ e :: es2) ->
  insert_result (es1 ++ x :: es2) (lp_off es1) (lpInsert junk lp elestr eleint (lp_off es1) LP_REPLACE).
Proof.
  intros [numele R]. destruct (lp_elem_enc _ _ _ Hel) as (Eenc & Elen & Edel).
  pose proof (replaced_entry _ _ _ _ _ R) as Er. cbv zeta in Er.
  unfold lpInsert. cbv zeta. rewrite Edel, Eenc, Elen. cbn [mbind option_bind] in *. rewrite (repn_total R).
  cbn [mbind option_bind]. rewrite Er. cbn [mbind option_bind].
  pose proof (elem_total numele lp es1 [e] x es2 R Hx) as En.
  destruct (insert_write junk lp numele es1 [e] x es2 R) as (m2 & s' & E1 & E2).
  rewrite entries_cons, entries_nil, app_nil_r in E1, En.
  change ([e] ++ es2) with (e :: es2) in E1, E2, En. rewrite En.
  unfold insert_result. destruct (Z.ltb_spec UINT32_MAX (lp_off (es1 ++ x :: es2) + 1)) as [| Hmax]; [done |].
  rewrite E1. cbn [mbind option_bind]. cbn [mbind option_bind] in E2. rewrite E2. cbn [mbind option_bind].
  destruct (raw_done (lp_off (es1 ++ e :: es2) + 1) numele (es1 ++ x :: es2) s' Hmax) as (lp' & -> & R').
  - apply (wf_replace es1 [e] es2 [x] (repn_wf R)). rewrite Forall_singleton. now apply elem_fits with es1 es2.
  - destruct R as (_ & _ & _ & Hn). unfold numele_ok in *. rewrite !zlen_app, !zlen_cons in *. done.
  - exists lp'. split; [done | by exists numele].
Qed.

(** Inserting after an entry is inserting before the next one. *)
Lemma insert_after lp es1 e es2 : lp_rep lp (es1 ++ e :: es2) ->
  insert_result (es1 ++ e :: x :: es2) (lp_off (es1 ++ [e]))
    (lpInsert junk lp elestr eleint (lp_off es1) LP_AFTER).
Proof.
  intros [numele R]. destruct (lp_elem_enc _ _ _ Hel) as (_ & _ & Edel).
  rewrite <- snoc_mid. replace (lpInsert junk lp elestr eleint (lp_off es1) LP_AFTER)
    with (lpInsert junk lp elestr eleint (lp_off (es1 ++ [e])) LP_BEFORE).
  { apply insert_before. rewrite snoc_mid. by exists numele. }
  unfold lpInsert. rewrite Edel, (repn_skip R). cbn [mbind option_bind].
  pose proof (lp_off_ge (es1 ++ [e])). pose proof (@repn_entry_end_le es1 e es2). rewrite <- lp_off_snoc in *.
  rewrite (assert_integrity _ _ _ _ _ R) by lia. done.
Qed.
End insert.

Lemma raw_drop1 t n body : 0 <= n < 65536 ->
  (num ← lpGetNumElements (lp_raw t n body);
   if negb (num =? LP_HDR_NUMELE_UNKNOWN) then lpSetNumElements (lp_raw t n body) (num - 1)
   else Some (lp_raw t n body)) = Some (lp_raw t (bump n (-1)) body).
Proof. exact (raw_bump t n body (-1)). Qed.

(** The pointer [lpDelete] and [lpDeleteRangeWithEntry] return. *)
Lemma raw_newp t n es1 es2 s : Forall entry_wf es2 ->
  (b ← rd (lp_raw t n (entries es1 ++ entries es2 ++ [LP_EOF] ++ s)) (lp_off es1);
   Some (if b =? LP_EOF then None else Some (lp_off es1))) = Some (lp_ptr es1 es2).
Proof.
  intros Hw. unfold lp_raw. rewrite (app_assoc (le_enc 4 t)), (app_assoc _ (entries es1)).
  set (h := (_ ++ _) ++ entries es1).
  assert (lp_off es1 = zlen h + 0) as Eh by (unfold h, lp_off, LP_HDR_SIZE; rewrite !zlen_app, !zlen_le_enc; lia).
  rewrite Eh at 1. rewrite rd_app_r by done. destruct Hw as [| e es2 He _]; [done |].
  rewrite entries_cons. unfold entry. destruct (enc_entry_head e He) as (b & l & -> & Hb).
  cbn [app]. match goal with |- context [rd (b :: ?k) 0] => change (rd (b :: k) 0) with (Some b) end.
  cbn [mbind option_bind]. unfold LP_EOF. rewrite (proj2 (Z.eqb_neq b 255)) by lia. done.
Qed.

Lemma delete_entry junk lp es1 e es2 : lp_rep lp (es1 ++ e :: es2) ->
  exists lp', lpDelete junk lp (lp_off es1) = Some (Some (lp', lp_ptr es1 es2)) /\ lp_rep lp' (es1 ++ es2).
Proof.
  intros [numele R]. pose proof (replaced_entry _ _ _ _ _ R) as Er. cbv zeta in Er.
  pose proof (repn_max R). pose proof (lp_off_ge es1). pose proof (repn_numele_range R).
  pose proof (lp_off_insert es1 e es2) as Eo. pose proof (entry_len_bounds e (repn_entry_wf R)).
  pose proof (lp_off_ge (es1 ++ es2)).
  unfold lpDelete, lpInsert. cbv zeta.
  change (bool_decide (@None (list Z) = None)) with true. cbn [andb mbind option_bind] in *.
  rewrite (repn_total R). cbn [mbind option_bind]. rewrite Er. cbn [mbind option_bind].
  change (zlen (@nil Z)) with 0. rewrite !Z.add_0_r.
  assert (u64 (lp_off (es1 ++ e :: es2) + 1 - zlen (entry e)) = lp_off (es1 ++ es2) + 1) as ->
    by (rewrite u64_id by (unfold is_u64; lia); lia).
  rewrite (proj2 (Z.ltb_ge UINT32_MAX _)) by (unfold UINT32_MAX; lia).
  destruct (insert_room junk lp numele es1 [e] es2 0 R) as (m2 & E1 & y & s' & E2 & Hy); [done |].
  apply zlen_0 in Hy. subst y. rewrite !Z.add_0_r in E1, E2.
  rewrite entries_cons, entries_nil, app_nil_r in E1. change ([e] ++ es2) with (e :: es2) in E1, E2.
  rewrite (Z.add_0_r (lp_off es1)) in E1.
  rewrite E1. cbn [mbind option_bind]. rewrite E2. change (([] : list Z) ++ entries es2 ++ [LP_EOF] ++ s')
    with (entries es2 ++ [LP_EOF] ++ s'). clear E1 E2.
  pose proof (repn_wf R) as Hw. apply (wf_replace es1 [e] es2 []) in Hw; [| done].
  cbn [app] in Hw. rewrite raw_newp by (rewrite Forall_app in Hw; tauto). cbn [mbind option_bind].
  rewrite raw_drop1 by lia. cbn [mbind option_bind]. rewrite app_assoc, <- entries_app.
  destruct (raw_done (lp_off (es1 ++ e :: es2) + 1) (bump numele (-1)) (es1 ++ es2) s')
    as (lp' & -> & R'); [unfold UINT32_MAX; lia | done | |].
  - apply (bump_ok numele (es1 ++ e :: es2)); [apply R | rewrite !zlen_app, zlen_cons; lia | lia].
  - exists lp'. split; [done | by exists (bump numele (-1))].
Qed.
