(* ===== verification/ListpackOps.v ===== *)
(** listpack.c: range and batch deletion, merging, validation. *)
From S2P Require Import Prelude Strnum Listpack ListpackCodec ListpackSpec.

(** * Deleting a range *)

(** Closing a gap: [memmove] of the rest [t] over [r]. *)
Lemma close_gap h r t s : exists c, memmove (h ++ r ++ t ++ s) (zlen h) (zlen h + zlen r) (zlen t) =
  Some (h ++ t ++ c).
Proof.
  unfold memmove. rewrite (app_assoc h r), (rdn_app (h ++ r) t s) by (rewrite ?zlen_app; done).
  cbn [mbind option_bind]. rewrite <- app_assoc.
  destruct (wrn_is_Some (h ++ r ++ t ++ s) (zlen h) t) as [m E].
  { apply zlen_nonneg. }
  { rewrite !zlen_app. pose proof (zlen_nonneg r). pose proof (zlen_nonneg s). lia. }
  rewrite E. apply wrn_Some in E as (a & b & c & E & Ha & _ & ->). exists c.
  assert (a = h) as ->; [| done].
  unfold zlen in Ha. symmetry in E. apply (app_inj_1 a h) in E as [E _]; [done | lia].
Qed.

Lemma shrink_rep junk lp numele es : lp_repn lp numele es ->
  exists lp', lpShrinkToFit junk lp = Some lp' /\ lp_repn lp' numele es.
Proof.
  intros R. unfold lpShrinkToFit. rewrite (repn_total R). cbn [mbind option_bind].
  destruct (Z.ltb_spec (lp_off es + 1) (zlen lp)) as [Hl |]; [| by eauto].
  eexists. split; [reflexivity |]. pose proof (lp_off_ge es). rewrite zrealloc_shrink by lia.
  destruct R as [[slack ->] R]. split; [| exact R]. exists [].
  assert (Z.to_nat (lp_off es + 1) = length (lp_block numele es)) as ->
    by (rewrite <- (zlen_lp_block numele es); unfold zlen; lia).
  now rewrite take_app_length, app_nil_r.
Qed.

(** The entries skipped, at most [num]. *)
Lemma delete_range_loop lp numele es e es2 : forall es1 num deleted,
  lp_repn lp numele es -> es = es1 ++ e :: es2 ->
  lpDeleteRange_loop (S num) lp (lp_off es + 1) (lp_off es1) deleted =
    Some (lp_off (es1 ++ take (S num) (e :: es2)), deleted + Z.of_nat (length (take (S num) (e :: es2)))).
Proof.
  revert e. induction es2 as [| e2 es2 IH]; intros e es1 num deleted R E; pose proof R as R0; rewrite E in R0.
  - cbn [lpDeleteRange_loop]. rewrite (repn_skip R0). cbn [mbind option_bind]. rewrite <- E in R0.
    rewrite <- E, (repn_view_eof _ _ _ R). cbn [mbind option_bind].
    rewrite firstn_cons, take_nil, <- E. done.
  - cbn [lpDeleteRange_loop]. rewrite (repn_skip R0). cbn [mbind option_bind]. rewrite firstn_cons.
    rewrite <- snoc_mid in R0. destruct (repn_head R0) as (b & -> & Hb). cbn [mbind option_bind].
    rewrite Hb. pose proof (repn_assert R0) as Ha. rewrite snoc_mid, <- E in Ha. rewrite Ha.
    cbn [mbind option_bind]. destruct num as [| num].
    + done.
    + rewrite (IH e2 (es1 ++ [e]) num (deleted + 1) R) by (now rewrite snoc_mid).
      rewrite snoc_mid, !firstn_cons. f_equal. f_equal. cbn [length]. lia.
Qed.

(** The block once the entries [old] are gone, before it is shrunk. *)
Lemma delete_old junk lp numele es1 old es2 : lp_repn lp numele (es1 ++ old ++ es2) ->
  exists lp',
    (lp ← memmove lp (lp_off es1) (lp_off (es1 ++ old))
            (lp_off (es1 ++ old ++ es2) + 1 - 1 - lp_off (es1 ++ old) + 1);
     lp ← lpSetTotalBytes lp (lp_off (es1 ++ old ++ es2) + 1 - (lp_off (es1 ++ old) - lp_off es1));
     numele ← lpGetNumElements lp;
     lp ← (if negb (numele =? LP_HDR_NUMELE_UNKNOWN) then lpSetNumElements lp (u32 (numele - zlen old))
           else Some lp);
     lpShrinkToFit junk lp) = Some lp' /\
    (exists numele', lp_repn lp' numele' (es1 ++ es2)).
Proof.
  intros R. destruct (repn_raw _ _ _ R) as [slack E]. pose proof (repn_max R) as Hm.
  pose proof (repn_numele_range R) as Hn. pose proof (lp_off_ge es1).
  pose proof (zlen_nonneg (entries old)). pose proof (zlen_nonneg (entries es2)).
  set (T := lp_off (es1 ++ old ++ es2) + 1) in *.
  destruct (close_gap (lp_raw T numele (entries es1)) (entries old) (entries es2 ++ [LP_EOF]) slack) as [c Ec].
  rewrite zlen_raw in Ec. change (6 + zlen (entries es1)) with (lp_off es1) in Ec.
  assert (T = lp_off es1 + zlen (entries old) + zlen (entries es2) + 1) as ET
    by (subst T; rewrite !lp_off_app, entries_app, zlen_app; lia).
  assert (lp_off es1 + zlen (entries old) = lp_off (es1 ++ old)) as Eo by (now rewrite lp_off_app).
  rewrite Eo in Ec.
  assert (zlen (entries es2 ++ [LP_EOF]) = T - 1 - lp_off (es1 ++ old) + 1) as El
    by (rewrite zlen_app; change (zlen [LP_EOF]) with 1; lia).
  rewrite El in Ec.
  assert (lp = lp_raw T numele (entries es1) ++ entries old ++ (entries es2 ++ [LP_EOF]) ++ slack) as ->.
  { rewrite E. unfold lp_raw. rewrite !entries_app, <- !app_assoc. done. }
  rewrite Ec. cbn [mbind option_bind].
  assert (lp_raw T numele (entries es1) ++ (entries es2 ++ [LP_EOF]) ++ c =
          lp_raw T numele (entries (es1 ++ es2) ++ [LP_EOF] ++ c)) as ->.
  { unfold lp_raw. rewrite !entries_app, <- !app_assoc. done. }
  rewrite raw_set_total. cbn [mbind option_bind].
  replace (T - (lp_off (es1 ++ old) - lp_off es1)) with (lp_off (es1 ++ es2) + 1)
    by (rewrite (lp_off_app es1 es2); lia).
  rewrite raw_numele by lia. cbn [mbind option_bind].
  assert (exists n', (if negb (numele =? LP_HDR_NUMELE_UNKNOWN)
      then lpSetNumElements (lp_raw (lp_off (es1 ++ es2) + 1) numele (entries (es1 ++ es2) ++ [LP_EOF] ++ c))
             (u32 (numele - zlen old))
      else Some (lp_raw (lp_off (es1 ++ es2) + 1) numele (entries (es1 ++ es2) ++ [LP_EOF] ++ c))) =
      Some (lp_raw (lp_off (es1 ++ es2) + 1) n' (entries (es1 ++ es2) ++ [LP_EOF] ++ c)) /\
      numele_ok n' (es1 ++ es2)) as (n' & -> & Hn').
  { destruct (numele =? LP_HDR_NUMELE_UNKNOWN) eqn:En; cbn [negb].
    - apply Z.eqb_eq in En. exists numele. split; [done | by left].
    - destruct R as (_ & _ & _ & [-> | [-> Hlt]]); [done |]. unfold numele_ok, LP_HDR_NUMELE_UNKNOWN in *.
      rewrite !zlen_app in *. pose proof (zlen_nonneg es1). pose proof (zlen_nonneg es2).
      pose proof (zlen_nonneg old). rewrite u32_id by lia. rewrite raw_set_numele.
      eexists. split; [reflexivity |]. right. lia. }
  cbn [mbind option_bind].
  destruct (shrink_rep junk _ n' (es1 ++ es2)
    (raw_repn n' (es1 ++ es2) c ltac:(unfold UINT32_MAX; rewrite lp_off_app; lia)
       ltac:(pose proof (repn_wf R) as Hw; rewrite !Forall_app in *; tauto) Hn')) as (lp' & E' & R').
  eauto.
Qed.

Lemma repn_ptr lp numele es1 es2 : lp_repn lp numele (es1 ++ es2) ->
  (b ← rd lp (lp_off es1); Some (if b =? LP_EOF then None else Some (lp_off es1))) = Some (lp_ptr es1 es2).
Proof.
  intros R. pose proof (repn_wf R) as Hw. rewrite Forall_app in Hw.
  destruct (repn_raw _ _ _ R) as [slack ->]. rewrite entries_app, <- app_assoc. now apply raw_newp.
Qed.

Lemma delete_range_with_entry junk lp es1 e es2 num : lp_rep lp (es1 ++ e :: es2) -> 0 < num ->
  exists lp', lpDeleteRangeWithEntry junk lp (lp_off es1) num =
      Some (lp', lp_ptr es1 (drop (Z.to_nat num) (e :: es2))) /\
    lp_rep lp' (es1 ++ drop (Z.to_nat num) (e :: es2)).
Proof.
  intros [numele R] Hnum. unfold lpDeleteRangeWithEntry, lpBytes. rewrite (repn_total R).
  cbn [mbind option_bind]. rewrite (proj2 (Z.eqb_neq num 0)) by lia.
  replace (Z.to_nat num) with (S (Z.to_nat (num - 1))) by lia. set (n := Z.to_nat (num - 1)).
  rewrite (delete_range_loop lp numele (es1 ++ e :: es2) e es2 es1 n 0 R eq_refl). cbn [mbind option_bind].
  rewrite Z.add_0_l. set (old := take (S n) (e :: es2)). set (rest := drop (S n) (e :: es2)).
  assert (e :: es2 = old ++ rest) as E by (symmetry; apply take_drop). rewrite E in *.
  destruct (delete_old junk lp numele es1 old rest R) as (lp' & E' & numele' & R').
  exists lp'. split; [| by exists numele'].
  change (Z.of_nat (length old)) with (zlen old).
  destruct (memmove _ _ _ _) as [m1 |]; cbn [mbind option_bind] in *; [| done].
  destruct (lpSetTotalBytes m1 _) as [m2 |]; cbn [mbind option_bind] in *; [| done].
  destruct (lpGetNumElements m2) as [n2 |]; cbn [mbind option_bind] in *; [| done].
  match type of E' with (?x ≫= _) = _ => destruct x as [m3 |] end; cbn [mbind option_bind] in *; [| done].
  rewrite E'. cbn [mbind option_bind]. pose proof (repn_ptr _ _ _ _ R') as Ep.
  destruct (rd lp' (lp_off es1)) as [b |]; cbn [mbind option_bind] in *; [| done].
  injection Ep as <-. done.
Qed.

(** What [lpDeleteRange] leaves. *)
Definition delete_range_spec (es : list lpentry) (index num : Z) : list lpentry :=
  let i := if index <? 0 then zlen es + index else index in
  if (0 <=? i) && (i <? zlen es)
  then take (Z.to_nat i) es ++ drop (Z.to_nat i + Z.to_nat num)%nat es else es.

Lemma truncate_rep lp numele es1 e es2 junk : lp_repn lp numele (es1 ++ e :: es2) ->
  zlen es1 < LP_HDR_NUMELE_UNKNOWN ->
  exists lp', (lp ← wrn lp (lp_off es1) [LP_EOF];
               lp ← lpSetTotalBytes lp (lp_off es1 + 1);
               lp ← lpSetNumElements lp (zlen es1);
               lpShrinkToFit junk lp) = Some lp' /\ lp_rep lp' es1.
Proof.
  intros R Hl. pose proof (repn_max R) as Hm. pose proof (repn_wf R) as Hw.
  rewrite Forall_app, Forall_cons in Hw. destruct Hw as (Hw1 & He & _).
  destruct (repn_raw _ _ _ R) as [slack ->]. set (T := lp_off (es1 ++ e :: es2) + 1) in *.
  rewrite entries_app, entries_cons. unfold entry. destruct (enc_entry_head e He) as (b & t & -> & _).
  rewrite <- !app_assoc. cbn [app].
  assert (forall c, lp_raw T numele (entries es1 ++ b :: c) =
    lp_raw T numele (entries es1) ++ [b] ++ c) as Eraw by (intros; unfold lp_raw; rewrite <- !app_assoc; done).
  rewrite Eraw, wrn_app by (rewrite ?zlen_raw; done). cbn [mbind option_bind].
  match goal with |- context [_ ++ [LP_EOF] ++ ?c] => set (c' := c) end.
  assert (lp_raw T numele (entries es1) ++ [LP_EOF] ++ c' = lp_raw T numele (entries es1 ++ [LP_EOF] ++ c')) as ->
    by (unfold lp_raw; rewrite <- !app_assoc; done).
  rewrite raw_set_total. cbn [mbind option_bind]. rewrite raw_set_numele. cbn [mbind option_bind].
  destruct (shrink_rep junk _ (zlen es1) es1 (raw_repn (zlen es1) es1 c' ltac:(unfold UINT32_MAX, T in *;
    rewrite lp_off_insert, lp_off_app in Hm; pose proof (zlen_nonneg (entries es2));
    pose proof (zlen_nonneg (entry e)); lia) Hw1 ltac:(right; done)))
    as (lp' & E' & R'). exists lp'. split; [exact E' | by eexists].
Qed.

Lemma delete_range junk lp es index num : lp_rep lp es -> 0 <= num ->
  exists lp', lpDeleteRange junk lp index num = Some lp' /\ lp_rep lp' (delete_range_spec es index num).
Proof.
  intros [numele R] Hnum. unfold lpDeleteRange. rewrite (repn_numele R). cbn [mbind option_bind].
  unfold delete_range_spec. set (i := if index <? 0 then zlen es + index else index).
  destruct (Z.eqb_spec num 0) as [-> | Hnz].
  { exists lp. split; [done |]. rewrite Nat.add_0_r, take_drop. case_if; by exists numele. }
  rewrite (seek_rep _ _ _ _ R). cbn [mbind option_bind]. unfold seek_spec. fold i.
  destruct ((0 <=? i) && (i <? zlen es)) eqn:Ei; [| exists lp; split; [done | by exists numele]].
  rewrite andb_true_iff, Z.leb_le, Z.ltb_lt in Ei. destruct Ei as [Hi0 Hi].
  set (k := Z.to_nat i). destruct (drop k es) as [| e es2] eqn:Ed.
  { apply (f_equal length) in Ed. rewrite length_drop in Ed. unfold zlen in Hi. simpl in Ed. lia. }
  assert (es = take k es ++ e :: es2) as Ees by (rewrite <- Ed; symmetry; apply take_drop).
  assert (zlen (take k es) = i) as Hk by (apply zlen_take; lia).
  assert (drop (k + Z.to_nat num) es = drop (Z.to_nat num) (e :: es2)) as Edrop
    by (rewrite <- drop_drop, Ed; done).
  destruct (negb (numele =? LP_HDR_NUMELE_UNKNOWN)) eqn:En; cbn [andb].
  - assert (numele = zlen es /\ zlen es < LP_HDR_NUMELE_UNKNOWN) as [-> Hsmall].
    { destruct R as (_ & _ & _ & [-> | ?]); [done | done]. }
    replace (if index <? 0 then zlen es + index else index) with i by done.
    assert (Z.of_nat k = i) as Eki by lia. clearbody k. clearbody i.
    rewrite u64_id by (unfold is_u64, LP_HDR_NUMELE_UNKNOWN in *; lia).
    destruct (Z.leb_spec (zlen es - i) num).
    + rewrite (drop_ge es) by (unfold zlen in *; lia). rewrite app_nil_r.
      rewrite Ees in R. rewrite <- Hk. exact (truncate_rep lp _ (take k es) e es2 junk R ltac:(lia)).
    + rewrite Edrop. rewrite Ees in R.
      destruct (delete_range_with_entry junk lp (take k es) e es2 num) as (lp' & -> & R');
        [by eexists | lia | eauto].
  - rewrite Edrop. rewrite Ees in R.
    destruct (delete_range_with_entry junk lp (take k es) e es2 num) as (lp' & -> & R');
      [by eexists | lia | eauto].
Qed.

(** * Batch deletion *)

(** The list cut at the deleted entries: each segment is an entry to delete and
    the entries kept after it. *)
Abbreviation segment := (lpentry * list lpentry)%type.
Definition segs_all (segs : list segment) : list lpentry := concat (map (fun '(e, k) => e :: k) segs).
Definition segs_kept (segs : list segment) : list lpentry := concat (map snd segs).

(** The pointers to the deleted entries. *)
Fixpoint segs_ptrs (es : list lpentry) (segs : list segment) : list Z :=
  match segs with
  | [] => []
  | (e, k) :: segs => lp_off es :: segs_ptrs (es ++ e :: k) segs
  end.

(** One iteration, at a pointer to an entry. *)
Lemma batch_step lp lp_end p e ps dst : entry_wf e -> view lp p (entry e) ->
  lpBatchDelete_loop lp lp_end (p :: ps) dst =
    let keep_start := p + zlen (entry e) in
    let keep_end := match ps with next :: _ => next | [] => lp_end end in
    if (match ps with _ :: _ => keep_start =? keep_end | [] => false end)
    then lpBatchDelete_loop lp lp_end ps dst
    else
      _ ← assert_ (keep_start <? keep_end);
      lp ← memmove lp dst keep_start (keep_end - keep_start);
      lpBatchDelete_loop lp lp_end ps (dst + (keep_end - keep_start)).
Proof.
  intros He V. pose proof (view_entry_enc _ _ _ V) as V'.
  destruct (enc_entry_head e He) as (b & l & Eb & Hb). pose proof V' as Vh. rewrite Eb in Vh.
  cbn [lpBatchDelete_loop]. rewrite (view_hd _ _ _ _ Vh). cbn [mbind option_bind]. unfold LP_EOF.
  rewrite (proj2 (Z.eqb_neq b 255)) by lia. cbn [negb assert_ mbind option_bind].
  now rewrite (skip_entry lp p e He V').
Qed.

Lemma view_mid a g l t : view (a ++ g ++ l ++ t) (zlen a + zlen g) l.
Proof. rewrite <- zlen_app, app_assoc. apply view_app. Qed.

(** Moving the bytes [t1] down over the garbage [g]. *)
Lemma move_down k g t1 t2 c : exists g',
  memmove (k ++ g ++ t1 ++ t2 ++ c) (zlen k) (zlen k + zlen g) (zlen t1) = Some (k ++ t1 ++ g' ++ t2 ++ c) /\
  zlen g' = zlen g.
Proof.
  destruct (close_gap k g t1 []) as [g' E]. exists g'. rewrite app_nil_r in E.
  assert (forall m d s n m', memmove m d s n = Some m' -> memmove (m ++ (t2 ++ c)) d s n = Some (m' ++ (t2 ++ c)))
    as Hext.
  { intros m d s n m' H. unfold memmove in *. destruct (rdn m s n) as [bs |] eqn:Er; [| done].
    rewrite (rdn_prefix _ (t2 ++ c) _ _ _ Er). cbn [mbind option_bind] in *.
    apply wrn_Some in H as (a & b & x & -> & <- & Hl & ->). apply wrn_Some.
    exists a, b, (x ++ t2 ++ c). rewrite <- !app_assoc. done. }
  pose proof E as Hl. unfold memmove in Hl. apply bind_Some in Hl as (bs & _ & Hw). apply wrn_length in Hw.
  apply Hext in E. rewrite <- !app_assoc in E. split; [exact E |]. rewrite !zlen_app in Hw. lia.
Qed.

Lemma batch_loop lp_end e k segs : forall lp kept g es,
  Forall entry_wf (segs_all ((e, k) :: segs)) ->
  (exists c, lp = kept ++ g ++ entries (segs_all ((e, k) :: segs)) ++ [LP_EOF] ++ c) ->
  zlen kept + zlen g = lp_off es ->
  lp_end = lp_off (es ++ segs_all ((e, k) :: segs)) + 1 ->
  exists c, lpBatchDelete_loop lp lp_end (segs_ptrs es ((e, k) :: segs)) (zlen kept) =
    Some (kept ++ entries (segs_kept ((e, k) :: segs)) ++ [LP_EOF] ++ c,
          zlen kept + zlen (entries (segs_kept ((e, k) :: segs))) + 1).
Proof.
  revert e k. induction segs as [| [e2 k2] segs IH]; intros e k lp kept g es Hw [c Elp] Hp Hend.
  - unfold segs_all, segs_kept in *. cbn [map concat snd] in *. rewrite !app_nil_r in *.
    apply Forall_cons in Hw as [He _]. rewrite entries_cons, <- app_assoc in Elp.
    pose proof (view_mid kept g (entry e) (entries k ++ [LP_EOF] ++ c)) as V. rewrite <- Elp, Hp in V.
    cbn [segs_ptrs]. rewrite (batch_step lp _ _ e _ _ He V). cbv zeta.
    subst lp_end. rewrite lp_off_insert, lp_off_app. pose proof (zlen_nonneg (entries k)).
    rewrite (proj2 (Z.ltb_lt _ _)) by lia. cbn [assert_ mbind option_bind].
    destruct (move_down kept (g ++ entry e) (entries k ++ [LP_EOF]) [] c) as (g' & E & _).
    rewrite !zlen_app in E. change (zlen [LP_EOF]) with 1 in E.
    rewrite Elp. rewrite <- !app_assoc in E. change (([] : list Z) ++ c) with c in E.
    rewrite Z.add_assoc, Hp in E.
    replace (lp_off es + zlen (entries k) + zlen (entry e) + 1 - (lp_off es + zlen (entry e)))
      with (zlen (entries k) + 1) by lia.
    rewrite E. cbn [mbind option_bind lpBatchDelete_loop]. eexists. do 2 f_equal. lia.
  - unfold segs_all, segs_kept in *. cbn [map concat snd] in *. fold (segs_all segs) in *.
    fold (segs_kept segs) in *.
    set (rest := (e2 :: k2) ++ segs_all segs) in *. cbn [app] in Hw.
    apply Forall_cons in Hw as [He Hw]. apply Forall_app in Hw as [Hwk Hwr].
    rewrite entries_app, entries_cons, <- !app_assoc in Elp.
    pose proof (view_mid kept g (entry e) (entries k ++ entries rest ++ [LP_EOF] ++ c)) as V. rewrite <- Elp, Hp in V.
    change (segs_ptrs es ((e, k) :: (e2, k2) :: segs)) with
      (lp_off es :: segs_ptrs (es ++ e :: k) ((e2, k2) :: segs)).
    rewrite (batch_step lp _ _ e _ _ He V). cbv zeta.
    set (ps := segs_ptrs (es ++ e :: k) ((e2, k2) :: segs)).
    change (match ps with [] => lp_end | next :: _ => next end) with (lp_off (es ++ e :: k)).
    change (match ps with [] => false | _ :: _ => lp_off es + zlen (entry e) =? lp_off (es ++ e :: k) end)
      with (lp_off es + zlen (entry e) =? lp_off (es ++ e :: k)).
    assert (lp_off (es ++ e :: k) = lp_off es + zlen (entry e) + zlen (entries k)) as Ek
      by (rewrite lp_off_app, entries_cons, zlen_app; lia).
    pose proof (zlen_nonneg (entries k)).
    assert (lp_end = lp_off ((es ++ e :: k) ++ rest) + 1) as Hend' by (rewrite <- app_assoc; exact Hend).
    rewrite Ek. destruct (Z.eqb_spec (lp_off es + zlen (entry e)) (lp_off es + zlen (entry e) + zlen (entries k))).
    + assert (entries k = []) as Enil by (apply zlen_0; lia).
      destruct (IH e2 k2 lp kept (g ++ entry e) (es ++ e :: k)) as [c' E].
      * exact Hwr.
      * exists c. rewrite Elp, Enil, <- app_assoc. done.
      * rewrite zlen_app, Ek, Enil. change (zlen []) with 0. lia.
      * exact Hend'.
      * exists c'. fold ps in E. rewrite E. rewrite (entries_app k), Enil. done.
    + rewrite (proj2 (Z.ltb_lt _ _)) by lia. cbn [assert_ mbind option_bind].
      destruct (move_down kept (g ++ entry e) (entries k) (entries rest ++ [LP_EOF]) c) as (g' & E & Hg).
      rewrite !zlen_app in E, Hg. rewrite Z.add_assoc, Hp, <- !app_assoc in E.
      replace (lp_off es + zlen (entry e) + zlen (entries k) - (lp_off es + zlen (entry e)))
        with (zlen (entries k)) by lia.
      rewrite Elp, E. cbn [mbind option_bind].
      destruct (IH e2 k2 (kept ++ entries k ++ g' ++ entries rest ++ [LP_EOF] ++ c) (kept ++ entries k) g' (es ++ e :: k))
        as [c' E'].
      * exact Hwr.
      * exists c. rewrite <- app_assoc. done.
      * rewrite zlen_app, Ek. lia.
      * exact Hend'.
      * exists c'. fold ps in E'. rewrite zlen_app in E'. rewrite E'. rewrite (entries_app k), zlen_app, <- !app_assoc.
        do 2 f_equal. lia.
Qed.

Lemma segs_len segs : zlen (segs_all segs) = zlen (segs_kept segs) + zlen segs.
Proof.
  induction segs as [| [e k] segs IH]; [done |]. unfold segs_all, segs_kept in *. cbn [map concat snd].
  rewrite !zlen_app, !zlen_cons, IH. lia.
Qed.

Lemma zlen_segs_ptrs segs : forall es, zlen (segs_ptrs es segs) = zlen segs.
Proof.
  induction segs as [| [e k] segs IH]; intros es; [done |]. cbn [segs_ptrs]. rewrite !zlen_cons, IH. lia.
Qed.

Lemma entries_segs_le segs : zlen (entries (segs_kept segs)) <= zlen (entries (segs_all segs)).
Proof.
  induction segs as [| [e k] segs IH]; [done |]. unfold segs_all, segs_kept in *. cbn [map concat snd].
  rewrite !entries_app, entries_cons, !zlen_app. pose proof (zlen_nonneg (entry e)). lia.
Qed.

Lemma segs_kept_wf segs : Forall entry_wf (segs_all segs) -> Forall entry_wf (segs_kept segs).
Proof.
  induction segs as [| [e k] segs IH]; [done |]. unfold segs_all, segs_kept in *. cbn [map concat snd].
  rewrite !Forall_app, Forall_cons. tauto.
Qed.

Lemma raw_rd_eof t n es c : rd (lp_raw t n (entries es ++ [LP_EOF] ++ c)) (lp_off es) = Some LP_EOF.
Proof.
  unfold lp_raw. rewrite (app_assoc (le_enc 4 t)), (app_assoc _ (entries es)). cbn [app]. apply rd_app.
  rewrite !zlen_app, !zlen_le_enc. unfold lp_off, LP_HDR_SIZE. lia.
Qed.

Lemma batch_delete junk lp es segs : lp_rep lp (es ++ segs_all segs) ->
  exists lp', lpBatchDelete junk lp (segs_ptrs es segs) = Some lp' /\ lp_rep lp' (es ++ segs_kept segs).
Proof.
  intros [numele R]. destruct segs as [| [e k] segs].
  { exists lp. split; [done | by exists numele]. }
  pose proof (repn_max R) as Hm. pose proof (repn_wf R) as Hw. pose proof (repn_numele_range R) as Hn.
  pose proof (lp_off_ge es) as Ho. set (sg := (e, k) :: segs) in *.
  pose proof (entries_segs_le sg) as Hle. apply Forall_app in Hw as [Hw0 Hw].
  set (T := lp_off (es ++ segs_all sg) + 1) in *.
  assert (T = lp_off es + zlen (entries (segs_all sg)) + 1) as ET by (unfold T; now rewrite lp_off_app).
  pose proof (zlen_nonneg (entries (segs_kept sg))).
  destruct (repn_raw _ _ _ R) as [slack Elp]. fold T in Elp.
  destruct (batch_loop T e k segs lp (lp_raw T numele (entries es)) [] es Hw) as [c E].
  { exists slack. rewrite Elp. unfold lp_raw. rewrite entries_app, <- !app_assoc. done. }
  { rewrite zlen_raw, zlen_nil. unfold lp_off, LP_HDR_SIZE. lia. }
  { done. }
  fold sg in E. rewrite zlen_raw in E. change (6 + zlen (entries es)) with (lp_off es) in E.
  unfold lpBatchDelete. assert (segs_ptrs es sg = lp_off es :: segs_ptrs (es ++ e :: k) segs) as Eps by done.
  rewrite Eps. rewrite (repn_total R). cbn [mbind option_bind]. fold T.
  replace (T - 1) with (lp_off (es ++ segs_all sg)) by (unfold T; lia).
  rewrite (repn_view_eof _ _ _ R). cbn [mbind option_bind Z.eqb LP_EOF Pos.eqb assert_].
  rewrite <- Eps, E. cbn [mbind option_bind].
  assert (lp_raw T numele (entries es) ++ entries (segs_kept sg) ++ [LP_EOF] ++ c =
    lp_raw T numele (entries (es ++ segs_kept sg) ++ [LP_EOF] ++ c)) as ->
    by (unfold lp_raw; rewrite entries_app, <- !app_assoc; done).
  replace (lp_off es + zlen (entries (segs_kept sg)) + 1) with (lp_off (es ++ segs_kept sg) + 1)
    by (rewrite lp_off_app; lia).
  replace (T - (T - (lp_off (es ++ segs_kept sg) + 1))) with (lp_off (es ++ segs_kept sg) + 1) by lia.
  rewrite Z.add_simpl_r, raw_rd_eof. cbn [mbind option_bind Z.eqb LP_EOF Pos.eqb assert_].
  rewrite raw_set_total. cbn [mbind option_bind]. rewrite raw_numele by lia. cbn [mbind option_bind].
  rewrite zlen_segs_ptrs.
  set (m := lp_raw (lp_off (es ++ segs_kept sg) + 1)).
  assert (exists n', (if negb (numele =? LP_HDR_NUMELE_UNKNOWN)
      then lpSetNumElements (m numele (entries (es ++ segs_kept sg) ++ [LP_EOF] ++ c)) (u64 (numele - zlen sg))
      else Some (m numele (entries (es ++ segs_kept sg) ++ [LP_EOF] ++ c))) =
      Some (m n' (entries (es ++ segs_kept sg) ++ [LP_EOF] ++ c)) /\
      numele_ok n' (es ++ segs_kept sg)) as (n' & -> & Hn').
  { destruct (numele =? LP_HDR_NUMELE_UNKNOWN) eqn:En; cbn [negb].
    - apply Z.eqb_eq in En. exists numele. split; [done | by left].
    - destruct R as (_ & _ & _ & [-> | [-> Hlt]]); [done |]. unfold numele_ok, LP_HDR_NUMELE_UNKNOWN in *.
      rewrite !zlen_app, segs_len in *. pose proof (zlen_nonneg es). pose proof (zlen_nonneg sg).
      pose proof (zlen_nonneg (segs_kept sg)). rewrite u64_id by (unfold is_u64; lia).
      unfold m. rewrite raw_set_numele. eexists. split; [reflexivity |]. right. lia. }
  cbn [mbind option_bind]. unfold m.
  destruct (shrink_rep junk _ n' (es ++ segs_kept sg)
    (raw_repn n' (es ++ segs_kept sg) c ltac:(unfold UINT32_MAX; rewrite lp_off_app; lia)
       ltac:(apply Forall_app; split; [done | by apply segs_kept_wf]) Hn')) as (lp' & E' & R').
  exists lp'. split; [exact E' | by exists n'].
Qed.

(** * Copy and merge *)

Lemma dup_rep lp numele es : lp_repn lp numele es -> lpDup lp = Some (lp_block numele es).
Proof.
  intros R. unfold lpDup, lpBytes. rewrite (repn_total R). cbn [mbind option_bind].
  destruct R as [[slack ->] _]. apply (rdn_app []); [done | apply zlen_lp_block].
Qed.

Lemma raw_app t n a b : lp_raw t n (a ++ b) = lp_raw t n a ++ b.
Proof. unfold lp_raw. now rewrite <- !app_assoc. Qed.

Lemma realloc_raw junk t n body s l : 6 + zlen body <= l ->
  exists x, zrealloc junk (lp_raw t n (body ++ s)) l = lp_raw t n (body ++ x) /\ zlen x = l - 6 - zlen body.
Proof.
  intros Hl. pose proof (zlen_nonneg body). pose proof (zlen_raw t n body) as Eb.
  destruct (Z.le_gt_cases (zlen (lp_raw t n (body ++ s))) l).
  - rewrite zrealloc_grow by done. exists (s ++ fresh_bytes junk (l - zlen (lp_raw t n (body ++ s)))).
    rewrite !raw_app, <- app_assoc. split; [done |].
    rewrite raw_app, zlen_app in *. rewrite zlen_app, zlen_fresh_bytes. lia.
  - rewrite zrealloc_shrink by lia. rewrite raw_app, zlen_app in *.
    exists (take (Z.to_nat (l - 6 - zlen body)) s). split; [| apply zlen_take; lia].
    rewrite raw_app, take_app, take_ge by (unfold zlen in *; lia).
    do 2 f_equal. unfold zlen in *. lia.
Qed.

Section merge.
Context (junk : nat -> Z) (na nb : Z) (es1 es2 : list lpentry) (sa sb : list Z).
Let ta := lp_off es1 + 1.
Let tb := lp_off es2 + 1.
Let t := lp_off (es1 ++ es2) + 1.
Let first := lp_raw ta na (entries es1 ++ [LP_EOF] ++ sa).
Let second := lp_raw tb nb (entries es2 ++ [LP_EOF] ++ sb).

Lemma zlen_tail es : zlen (entries es ++ [LP_EOF]) = lp_off es + 1 - 6.
Proof. rewrite zlen_app. change (zlen [LP_EOF]) with 1. unfold lp_off, LP_HDR_SIZE. lia. Qed.

Lemma zlen_front es n : zlen (lp_raw (lp_off es + 1) n (entries es)) = lp_off es + 1 - 1.
Proof. rewrite zlen_raw. unfold lp_off, LP_HDR_SIZE. lia. Qed.

Lemma merge_total : t = ta + tb - 7.
Proof. unfold t, ta, tb. rewrite lp_off_app. unfold lp_off, LP_HDR_SIZE. lia. Qed.

Lemma merge_append :
  (tail ← rdn second 6 (tb - 6); wrn (zrealloc junk first t) (ta - 1) tail) =
    Some (lp_raw ta na (entries (es1 ++ es2) ++ [LP_EOF])).
Proof.
  assert (ta = lp_off es1 + 1) by done. assert (tb = lp_off es2 + 1) by done.
  pose proof merge_total as Et. pose proof (zlen_tail es1) as L1. pose proof (zlen_tail es2) as L2.
  pose proof (zlen_front es1 na) as F1. pose proof (lp_off_ge es1). pose proof (lp_off_ge es2).
  assert (rdn second 6 (tb - 6) = Some (entries es2 ++ [LP_EOF])) as ->.
  { unfold second, lp_raw. rewrite app_assoc, (app_assoc (entries es2)). apply rdn_app; [| exact L2].
    now rewrite zlen_app, !zlen_le_enc. }
  cbn [mbind option_bind]. rewrite zlen_app in L1. change (zlen [LP_EOF]) with 1 in L1.
  destruct (realloc_raw junk ta na (entries es1) ([LP_EOF] ++ sa) t) as (x & E & Hx); [lia |].
  unfold first. rewrite E, raw_app, <- (app_nil_r x). rewrite wrn_app; [| exact F1 | lia].
  now rewrite app_nil_r, entries_app, <- raw_app, <- app_assoc.
Qed.

Lemma merge_prepend :
  (target ← memmove (zrealloc junk second t) (ta - 1) 6 (tb - 6);
   head ← rdn first 0 (ta - 1); wrn target 0 head) =
    Some (lp_raw ta na (entries (es1 ++ es2) ++ [LP_EOF])).
Proof.
  assert (ta = lp_off es1 + 1) by done. assert (tb = lp_off es2 + 1) by done.
  pose proof merge_total as Et. pose proof (zlen_tail es2) as L2.
  pose proof (zlen_front es1 na) as F1. pose proof (lp_off_ge es1). pose proof (lp_off_ge es2).
  destruct (realloc_raw junk tb nb (entries es2 ++ [LP_EOF]) sb t) as (x & E & Hx); [lia |].
  rewrite <- app_assoc in E. unfold second. rewrite E. clear E.
  assert (exists y, memmove (lp_raw tb nb ((entries es2 ++ [LP_EOF]) ++ x)) (ta - 1) 6 (tb - 6) =
    Some (y ++ entries es2 ++ [LP_EOF]) /\ zlen y = ta - 1) as (y & -> & Hy).
  { unfold memmove.
    assert (rdn (lp_raw tb nb ((entries es2 ++ [LP_EOF]) ++ x)) 6 (tb - 6) = Some (entries es2 ++ [LP_EOF])) as ->.
    { unfold lp_raw. rewrite (app_assoc (le_enc 4 tb)). apply rdn_app; [| exact L2].
      now rewrite zlen_app, !zlen_le_enc. }
    cbn [mbind option_bind].
    match goal with |- context [wrn ?m ?i ?b] => destruct (wrn_is_Some m i b) as [m2 E] end;
      [lia | rewrite zlen_raw, (zlen_app (_ ++ _) x); lia |].
    rewrite E. apply wrn_Some in E as (p & q & c & E & Hp & Hq & ->). exists p.
    apply (f_equal zlen) in E. rewrite zlen_raw, (zlen_app (_ ++ _) x), (zlen_app p), (zlen_app q) in E.
    assert (c = []) as -> by (apply zlen_0; lia). now rewrite app_nil_r. }
  cbn [mbind option_bind]. unfold first. rewrite (raw_app ta na (entries es1)).
  assert (rdn (lp_raw ta na (entries es1) ++ [LP_EOF] ++ sa) 0 (ta - 1) = Some (lp_raw ta na (entries es1))) as ->
    by (apply (rdn_app []); [done | exact F1]).
  cbn [mbind option_bind].
  assert (wrn (y ++ entries es2 ++ [LP_EOF]) 0 (lp_raw ta na (entries es1)) =
    Some (lp_raw ta na (entries es1) ++ entries es2 ++ [LP_EOF])) as -> by (apply (wrn_app []); [done | rewrite Hy; symmetry; exact F1]).
  now rewrite entries_app, <- raw_app, <- app_assoc.
Qed.
End merge.

Lemma merge_rep junk a b es1 es2 : lp_rep a es1 -> lp_rep b es2 ->
  lp_off (es1 ++ es2) + 1 < UINT32_MAX ->
  exists lp', lpMerge junk a b = Some lp' /\ lp_rep lp' (es1 ++ es2).
Proof.
  intros [na Ra] [nb Rb] Hmax. pose proof (repn_wf Ra) as Hwa. pose proof (repn_wf Rb) as Hwb.
  destruct (length_rep _ _ _ Ra) as (a' & na' & Ela & Ra' & _).
  destruct (length_rep _ _ _ Rb) as (b' & nb' & Elb & Rb' & _).
  unfold lpMerge, lpBytes. rewrite (repn_total Ra), (repn_total Rb). cbn [mbind option_bind].
  rewrite Ela. cbn [mbind option_bind]. rewrite Elb. cbn [mbind option_bind].
  pose proof (lp_off_ge es1). pose proof (lp_off_ge es2). pose proof (merge_total es1 es2) as Et.
  unfold LP_HDR_SIZE, UINT32_MAX in *.
  assert (u64 (lp_off es1 + 1 + (lp_off es2 + 1) - 6 - 1) = lp_off (es1 ++ es2) + 1) as ->
    by (rewrite u64_id by (unfold is_u64; lia); lia).
  rewrite (proj2 (Z.ltb_lt (lp_off (es1 ++ es2) + 1) _)) by lia.
  destruct (repn_raw _ _ _ Ra') as [sa ->]. destruct (repn_raw _ _ _ Rb') as [sb ->].
  assert (forall tt nn n, n = (if zlen es1 + zlen es2 <? 65535 then zlen es1 + zlen es2 else 65535) ->
    exists lp',
    (target ← lpSetNumElements (lp_raw tt nn (entries (es1 ++ es2) ++ [LP_EOF])) n;
     lpSetTotalBytes target (lp_off (es1 ++ es2) + 1)) = Some lp' /\ lp_rep lp' (es1 ++ es2)) as Hfin.
  { intros tt nn n Hn. rewrite raw_set_numele. cbn [mbind option_bind]. rewrite raw_set_total.
    eexists. split; [reflexivity |]. exists n.
    apply (raw_repn n (es1 ++ es2) []); [unfold UINT32_MAX; lia | now apply Forall_app |].
    unfold numele_ok, LP_HDR_NUMELE_UNKNOWN. rewrite zlen_app. revert Hn. case_if; lia. }
  destruct (Z.leb_spec (lp_off es2 + 1) (lp_off es1 + 1)); cbn [assert_ mbind option_bind].
  - pose proof (merge_append junk na' nb' es1 es2 sa sb) as E. unfold LP_HDR_SIZE in E.
    destruct (rdn _ _ _) as [tl |]; cbn [mbind option_bind] in *; [| done]. rewrite E.
    cbn [mbind option_bind]. now apply Hfin.
  - pose proof (merge_prepend junk na' nb' es1 es2 sa sb) as E.
    destruct (memmove _ _ _ _) as [m |]; cbn [mbind option_bind] in *; [| done].
    destruct (rdn _ _ _) as [hd |]; cbn [mbind option_bind] in *; [| done]. rewrite E.
    cbn [mbind option_bind]. now apply Hfin.
Qed.
