(* ===== verification/ListpackQuery.v ===== *)
(** listpack.c: reading values, comparing, searching, and validating untrusted
    blocks. *)
From S2P Require Import Prelude Strnum Listpack ListpackCodec ListpackSpec.

(** * Values *)

(** The string an entry stands for, and the string a reader is given. *)
Definition entry_str (e : lpentry) : list Z := match e with EInt v => sdec v | EStr s => s end.

Definition val_str (lp : list Z) (v : lpval) : option (list Z) :=
  match v with
  | LpInt n => Some (sdec n)
  | LpStr off count => rdn lp off count
  | LpBuf s => Some s
  end.

Lemma lpStringToInt64_string2ll s : lpStringToInt64 s = string2ll s.
Proof.
  unfold lpStringToInt64, string2ll, string2ll_unsigned.
  assert (forall p v, lpStringToInt64_loop p v = string2ll_loop p v) as Hloop.
  { induction p as [| c p IH]; intros v; [done |]. cbn [lpStringToInt64_loop string2ll_loop].
    unfold is_digit. repeat (destruct (_ : bool); [| done || apply IH]); try done; apply IH. }
  rewrite (Z.eqb_sym 0). destruct (_ || _); [done |]. destruct (_ && _); [done |].
  destruct (if s !!! 0%nat =? 45 then _ else _) as [| c p] eqn:E; destruct (s !!! 0%nat =? 45); rewrite E; [done.. | |];
    now rewrite Hloop.
Qed.

Lemma lpStringToInt64_iff s v : lpStringToInt64 s = Some v <-> is_i64 v /\ s = sdec v.
Proof.
  rewrite lpStringToInt64_string2ll. split; [apply string2ll_inv | intros [H ->]; now apply string2ll_sdec].
Qed.

Lemma entry_str_str_entry s : entry_str (str_entry s) = s.
Proof.
  unfold str_entry. destruct (lpStringToInt64 s) eqn:E; [| done].
  apply lpStringToInt64_iff in E as [_ ->]. done.
Qed.

Lemma getint_buf v : is_i64 v -> lpGetInt v true = Some (LpBuf (sdec v)).
Proof.
  intros Hv. unfold lpGetInt, LP_INTBUF_SIZE.
  pose proof (ll2string_spec (repeat 0 (Z.to_nat 21)) 21 v Hv ltac:(done)) as H.
  pose proof (zlen_sdec v Hv). rewrite <- sdigits10_spec in * by done.
  rewrite (proj2 (Z.ltb_lt _ 21)) in H by lia. destruct H as (r & E & _). rewrite E.
  cbn [mbind option_bind]. rewrite sdigits10_spec by done. unfold zlen. rewrite Nat2Z.id, take_app_length.
  done.
Qed.

(** Asking for the integer as a string only changes its presentation. *)
Lemma get_intbuf lp p es : lpGetWithSize lp p true es =
  ('(v, n) ← lpGetWithSize lp p false es;
   v ← match v with LpInt k => lpGetInt k true | _ => Some v end; Some (v, n)).
Proof.
  unfold lpGetWithSize. destruct (rd lp p) as [b |]; [| done]. cbn [mbind option_bind].
  repeat match goal with |- context [if ?c then _ else _] =>
    lazymatch c with false => fail | true => fail | _ => destruct c end end; cbn [lpGetInt mbind option_bind];
  match goal with
  | |- context [lpGetInt ?v true] => now destruct (lpGetInt v true)
  | |- context [?x ≫= _] => destruct x; cbn [lpGetInt mbind option_bind]; try done;
      match goal with |- context [lpGetInt ?v true] => now destruct (lpGetInt v true) end
  end.
Qed.

Section get.
Context {lp : list Z} {numele : Z} {es1 : list lpentry} {e : lpentry} {es2 : list lpentry}
  (R : lp_repn lp numele (es1 ++ e :: es2)).

Lemma get_with_size_rep es : lpGetWithSize lp (lp_off es1) false es =
  Some (entry_val (lp_off es1) e, zlen (entry e)).
Proof. apply get_entry; [exact (repn_entry_wf R) | exact (repn_view_enc R)]. Qed.

(** The bytes of a string entry are those the value points to. *)
Lemma value_bytes s : e = EStr s ->
  rdn lp (lp_off es1 + zlen (str_hdr (zlen s))) (zlen s) = Some s.
Proof.
  intros Es. pose proof (repn_view_enc R) as V. pose proof (repn_entry_wf R) as He.
  pose proof (@repn_entry_end_le es1 e es2) as Hend. pose proof (repn_len R).
  pose proof (entry_len e) as El. pose proof (backlen_size_bounds (zlen (enc_entry e))).
  pose proof (lp_off_ge es1). pose proof (zlen_nonneg (str_hdr (zlen s))).
  subst e. destruct He as [_ Hs]. rewrite enc_entry_str in * by done. rewrite zlen_app in *.
  apply view_rdn; [exact (view_app_r _ _ _ _ V) | lia | lia].
Qed.

Lemma entry_val_str : val_str lp (entry_val (lp_off es1) e) = Some (entry_str e).
Proof.
  enough (forall x, e = x -> val_str lp (entry_val (lp_off es1) x) = Some (entry_str x)) as H by exact (H e eq_refl).
  intros [v | s] Ex; [done |]. cbn [entry_val val_str entry_str]. now apply value_bytes.
Qed.

Lemma get_value intbuf : exists v, lpGet lp (lp_off es1) intbuf = Some v /\
  val_str lp v = Some (entry_str e) /\
  match v with
  | LpInt n => intbuf = false /\ e = EInt n
  | LpBuf _ => intbuf = true
  | LpStr _ _ => e = EStr (entry_str e)
  end.
Proof.
  pose proof entry_val_str as Hv. pose proof (repn_entry_wf R) as He. unfold lpGet.
  assert (exists x, e = x) as [x Ex] by eauto. destruct intbuf.
  - rewrite get_intbuf, get_with_size_rep. cbn [mbind option_bind]. rewrite Ex in *. destruct x as [v | s].
    + cbn [entry_val]. rewrite getint_buf by exact He. cbn [mbind option_bind]. eexists. done.
    + cbn [entry_val mbind option_bind]. eexists. split; [reflexivity | done].
  - rewrite get_with_size_rep. cbn [mbind option_bind]. eexists. split; [reflexivity |].
    split; [exact Hv |]. rewrite Ex. destruct x; done.
Qed.
End get.

(** * Comparison and search *)

Lemma compare_rep lp numele es1 e es2 s : lp_repn lp numele (es1 ++ e :: es2) ->
  lpCompare lp (lp_off es1) s = Some (bool_decide (entry_str e = s)).
Proof.
  intros R. unfold lpCompare. destruct (repn_head R) as (b & -> & Hb). cbn [mbind option_bind]. rewrite Hb.
  unfold lpGet. rewrite (get_with_size_rep R). cbn [mbind option_bind].
  pose proof (repn_entry_wf R) as He. destruct e as [v | t] eqn:Ee; cbn [entry_val entry_str].
  - destruct (lpStringToInt64 s) as [w |] eqn:Es.
    + apply lpStringToInt64_iff in Es as [Hw ->]. f_equal.
      destruct (Z.eqb_spec v w) as [-> | Hne]; [now rewrite bool_decide_eq_true_2 |].
      rewrite bool_decide_eq_false_2; [done |]. intros E.
      pose proof (string2ll_sdec v He) as E1. rewrite E, string2ll_sdec in E1 by done. congruence.
    + rewrite bool_decide_eq_false_2; [done |]. intros <-.
      rewrite lpStringToInt64_string2ll, string2ll_sdec in Es by exact He. done.
  - destruct (Z.eqb_spec (zlen s) (zlen t)) as [_ | Hne].
    + rewrite (value_bytes R t eq_refl). done.
    + rewrite bool_decide_eq_false_2; [done |]. intros <-. done.
Qed.

(** What the cached parse of the searched string says. *)
Definition find_cache (s : list Z) (st : lp_findst) : Prop :=
  vencoding st = 0 \/ (vencoding st = 255 /\ lpStringToInt64 s = None) \/
  (vencoding st = 1 /\ lpStringToInt64 s = Some (vll st)).

Lemma find_match lp numele es1 e es2 s st : lp_repn lp numele (es1 ++ e :: es2) -> find_cache s st ->
  exists st', lpFind_match lp (entry_val (lp_off es1) e) s st = Some (bool_decide (entry_str e = s), st') /\
    find_cache s st'.
Proof.
  intros R Hst. pose proof (compare_rep _ _ _ _ _ s R) as Hc.
  unfold lpCompare in Hc. destruct (repn_head R) as (b & E & Hb). rewrite E in Hc.
  cbn [mbind option_bind] in Hc. rewrite Hb in Hc. unfold lpGet in Hc.
  rewrite (get_with_size_rep R) in Hc. cbn [mbind option_bind] in Hc.
  destruct e as [v | t] eqn:Ee; cbn [entry_val] in *; cbn [lpFind_match].
  2:{ exists st. split; [| done]. destruct (zlen s =? _); [| injection Hc as Hc; now rewrite Hc].
      destruct (rdn _ _ _); [| done]. cbn [mbind option_bind] in *. injection Hc as Hc. now rewrite Hc. }
  set (st' := if vencoding st =? 0 then _ else st).
  assert ((vencoding st' = 255 /\ lpStringToInt64 s = None) \/
          (vencoding st' = 1 /\ lpStringToInt64 s = Some (vll st'))) as Hst'.
  { subst st'. destruct Hst as [E0 | [[E0 H] | [E0 H]]]; rewrite E0; [| by left | by right].
    cbn [Z.eqb]. destruct ((32 <=? zlen s) || (zlen s =? 0)) eqn:Els.
    - left. split; [done |]. unfold lpStringToInt64.
      rewrite orb_true_iff, Z.leb_le, Z.eqb_eq in Els. unfold LONG_STR_SIZE.
      destruct Els as [H | ->]; [| done]. rewrite (proj2 (Z.leb_le 21 _)), orb_true_r by lia. done.
    - destruct (lpStringToInt64 s); [right | left]; done. }
  exists st'. split; [| right; exact Hst']. do 2 f_equal.
  change (entry_str (EInt v)) with (sdec v) in *.
  destruct Hst' as [[-> E1] | [-> E1]]; rewrite E1 in Hc; injection Hc as Hc; rewrite <- Hc; done.
Qed.

(** The first entry that stands for [s] among those at distance 0, [skip+1],
    [2(skip+1)], ...; [cnt] entries are passed over first. *)
Fixpoint find_spec (es1 es2 : list lpentry) (s : list Z) (skip cnt : nat) : option Z :=
  match es2 with
  | [] => None
  | e :: es2 =>
      match cnt with
      | O => if bool_decide (entry_str e = s) then Some (lp_off es1) else find_spec (es1 ++ [e]) es2 s skip skip
      | S cnt => find_spec (es1 ++ [e]) es2 s skip cnt
      end
  end.

Lemma find_continue lp numele es1 e es2 (K : option (option Z)) r :
  lp_repn lp numele (es1 ++ e :: es2) ->
  match es2 with [] => r = None | _ :: _ => K = Some r end ->
  let total := lp_off (es1 ++ e :: es2) + 1 in
  let p := lp_off es1 + zlen (entry e) in
  (_ ← (if total <=? p + 8 then lpAssertValidEntry lp total p else assert_ ((LP_HDR_SIZE <=? p) && (p <? total)));
   b ← rd lp p; if b =? LP_EOF then Some None else K) = Some r.
Proof.
  intros R HK total p. pose proof (@repn_entry_end_le es1 e es2) as Hend. pose proof (lp_off_ge es1).
  pose proof (entry_len_bounds e (repn_entry_wf R)). subst total p. rewrite <- lp_off_snoc in *.
  set (p := lp_off (es1 ++ [e])) in *.
  assert ((if lp_off (es1 ++ e :: es2) + 1 <=? p + 8
           then lpAssertValidEntry lp (lp_off (es1 ++ e :: es2) + 1) p
           else assert_ ((LP_HDR_SIZE <=? p) && (p <? lp_off (es1 ++ e :: es2) + 1))) = Some tt) as ->.
  { destruct (_ <=? p + 8).
    - unfold lpAssertValidEntry. destruct es2 as [| e2 es2].
      + unfold p. rewrite validate_eof; [done | exact (repn_view_eof _ _ _ R) |].
        fold p. unfold LP_HDR_SIZE, p. pose proof (lp_off_ge (es1 ++ [e])). lia.
      + rewrite <- snoc_mid in *. unfold p. rewrite (repn_validate R) by lia. done.
    - unfold LP_HDR_SIZE. pose proof (lp_off_ge (es1 ++ [e])). fold p in H1.
      rewrite (proj2 (Z.leb_le 6 p)), (proj2 (Z.ltb_lt p _)) by lia. done. }
  cbn [mbind option_bind]. destruct es2 as [| e2 es2].
  - unfold p. rewrite (repn_view_eof _ _ _ R), HK. done.
  - rewrite <- snoc_mid in R. unfold p. destruct (repn_head R) as (b & -> & Hb).
    cbn [mbind option_bind]. now rewrite Hb.
Qed.

Lemma find_value_assert lp numele es1 e es2 : lp_repn lp numele (es1 ++ e :: es2) ->
  match entry_val (lp_off es1) e with
  | LpStr _ _ => assert_ ((LP_HDR_SIZE <=? lp_off es1) &&
                          (lp_off es1 + zlen (entry e) <? lp_off (es1 ++ e :: es2) + 1))
  | _ => Some tt
  end = Some tt.
Proof.
  intros R. destruct e as [v | t] eqn:Ee; [done |]. cbn [entry_val]. rewrite <- Ee in *.
  pose proof (@repn_entry_end_le es1 e es2). pose proof (lp_off_ge es1). unfold LP_HDR_SIZE.
  rewrite (proj2 (Z.leb_le 6 _)), (proj2 (Z.ltb_lt _ _)) by lia. done.
Qed.

Lemma find_loop lp numele s skip es2 : forall es1 e fuel cnt st,
  lp_repn lp numele (es1 ++ e :: es2) -> find_cache s st -> (length es2 < fuel)%nat ->
  lpFind_loop fuel lp (lp_off (es1 ++ e :: es2) + 1) (lp_off es1) s (Z.of_nat skip) (Z.of_nat cnt) st =
    Some (find_spec es1 (e :: es2) s skip cnt).
Proof.
  induction es2 as [| e2 es2' IH]; [set (es2 := []) | set (es2 := e2 :: es2')];
    intros es1 e fuel cnt st R Hst Hf; (destruct fuel as [| fuel]; [lia |]).
  all: assert (forall cnt' st', find_cache s st' ->
    match es2 with
    | [] => find_spec (es1 ++ [e]) es2 s skip cnt' = None
    | _ :: _ => lpFind_loop fuel lp (lp_off (es1 ++ e :: es2) + 1) (lp_off es1 + zlen (entry e)) s
                  (Z.of_nat skip) (Z.of_nat cnt') st' = Some (find_spec (es1 ++ [e]) es2 s skip cnt')
    end) as Hrest by (subst es2; intros cnt' st' Hst'; first
      [ exact eq_refl
      | rewrite <- lp_off_snoc, <- (snoc_mid es1 (e2 :: es2') e); apply IH;
          [now rewrite snoc_mid | done | simpl in Hf; lia] ]).
  all: cbn [lpFind_loop]; cbv zeta; destruct cnt as [| cnt].
  1, 3: change (Z.of_nat 0 =? 0) with true; cbv iota;
    rewrite (get_with_size_rep R); cbn [mbind option_bind];
    destruct (find_match _ _ _ _ _ s st R Hst) as (st' & Em & Hst');
    rewrite (find_value_assert _ _ _ _ _ R); cbn [mbind option_bind]; rewrite Em; cbn [mbind option_bind];
    change (find_spec es1 (e :: es2) s skip 0) with
      (if bool_decide (entry_str e = s) then Some (lp_off es1) else find_spec (es1 ++ [e]) es2 s skip skip);
    destruct (bool_decide _); [done |]; exact (find_continue _ _ _ _ _ _ _ R (Hrest skip st' Hst')).
  all: rewrite (proj2 (Z.eqb_neq (Z.of_nat (S cnt)) 0)) by lia;
    rewrite (skip_entry lp _ e (repn_entry_wf R) (repn_view_enc R)); cbn [mbind option_bind];
    replace (Z.of_nat (S cnt) - 1) with (Z.of_nat cnt) by lia;
    exact (find_continue _ _ _ _ _ _ _ R (Hrest cnt st Hst)).
Qed.

Lemma find_rep lp numele es1 e es2 s skip : lp_repn lp numele (es1 ++ e :: es2) -> 0 <= skip ->
  lpFind lp (lp_off es1) s skip = Some (find_spec es1 (e :: es2) s (Z.to_nat skip) 0).
Proof.
  intros R Hs. unfold lpFind, lpBytes. rewrite (repn_total R). cbn [mbind option_bind].
  pose proof (zlen_entries_fuel _ _ _ _ R) as Hf. simpl in Hf.
  rewrite <- (find_loop lp numele s (Z.to_nat skip) es2 es1 e (length lp) 0 {| vencoding := 0; vll := 0 |} R);
    [| by left | lia].
  now rewrite Z2Nat.id.
Qed.

(** [find_spec] in terms of positions. *)
Lemma find_spec_pos es2 : forall es1 s skip cnt,
  match find_spec es1 es2 s skip cnt with
  | Some q => exists (k : nat) (e : lpentry), es2 !! (cnt + k * S skip)%nat = Some e /\ entry_str e = s /\
      q = lp_off (es1 ++ take (cnt + k * S skip) es2) /\
      forall j e', (j < k)%nat -> es2 !! (cnt + j * S skip)%nat = Some e' -> entry_str e' <> s
  | None => forall j e', es2 !! (cnt + j * S skip)%nat = Some e' -> entry_str e' <> s
  end.
Proof.
  induction es2 as [| e es2 IH]; intros es1 s skip cnt; cbn [find_spec]; [done |].
  destruct cnt as [| cnt].
  - case_bool_decide as Hm.
    + exists O, e. rewrite app_nil_r. split; [done |]. split; [done |]. split; [done |]. lia.
    + specialize (IH (es1 ++ [e]) s skip skip). destruct (find_spec _ _ _ _ _) as [q |].
      * destruct IH as (k & x & Hx & Hs & -> & Hj). exists (S k), x.
        replace (0 + S k * S skip)%nat with (S (skip + k * S skip)) by lia. cbn [lookup list_lookup take].
        split; [done |]. split; [done |]. split; [now rewrite snoc_mid |].
        intros [| j] e' Hlt; [now intros [= <-] |].
        replace (0 + S j * S skip)%nat with (S (skip + j * S skip)) by lia. apply Hj. lia.
      * intros [| j] e'; [now intros [= <-] |].
        replace (0 + S j * S skip)%nat with (S (skip + j * S skip)) by lia. apply IH.
  - specialize (IH (es1 ++ [e]) s skip cnt). destruct (find_spec _ _ _ _ _) as [q |].
    + destruct IH as (k & x & Hx & Hs & -> & Hj). exists k, x. cbn [lookup list_lookup take Nat.add].
      split; [done |]. split; [done |]. split; [now rewrite snoc_mid | exact Hj].
    + exact IH.
Qed.
