(* ===== verification/ListpackValid.v ===== *)
(** listpack.c: [lpValidateIntegrity] on blocks that come from outside. *)
From S2P Require Import Prelude Strnum Listpack ListpackCodec ListpackSpec.

(** * Well-formed listpacks are accepted *)

Lemma validate_loop lp numele es es2 : forall es1 fuel count,
  lp_repn lp numele es -> es = es1 ++ es2 -> (length es2 <= fuel)%nat ->
  0 <= count -> count + zlen es2 < 4294967296 ->
  lpValidateIntegrity_loop fuel lp (lp_off es + 1) (Some (lp_off es1)) count =
    Some (Some (Some (lp_off es), count + zlen es2)).
Proof.
  induction es2 as [| e es2 IH]; intros es1 fuel count R E Hf Hc Hb.
  - rewrite app_nil_r in E. subst es1. rewrite (@zlen_nil lpentry), Z.add_0_r.
    destruct fuel; cbn [lpValidateIntegrity_loop]; rewrite (repn_view_eof _ _ _ R); done.
  - rewrite zlen_cons in *. pose proof (zlen_nonneg es2). destruct fuel as [| fuel]; [simpl in Hf; lia |].
    cbn [lpValidateIntegrity_loop]. pose proof R as R0. rewrite E in R0.
    destruct (repn_head R0) as (b & -> & Hb'). cbn [mbind option_bind]. rewrite Hb'.
    rewrite (repn_validate R0) by (rewrite <- E; lia). cbn [mbind option_bind].
    rewrite u32_id by lia. rewrite (IH (es1 ++ [e])); try done; try lia.
    + replace (count + 1 + zlen es2) with (count + (1 + zlen es2)) by lia. done.
    + now rewrite snoc_mid.
    + simpl in Hf. lia.
Qed.

Lemma validate_rep lp numele es deep : lp_repn lp numele es ->
  lpValidateIntegrity lp (lp_off es + 1) deep = Some true.
Proof.
  intros R. pose proof (lp_off_ge es). pose proof (repn_max R). pose proof (entries_len_ge _ (repn_wf R)).
  unfold lpValidateIntegrity, LP_HDR_SIZE. rewrite (proj2 (Z.ltb_ge _ _)) by lia.
  rewrite (repn_total R). cbn [mbind option_bind]. rewrite Z.eqb_refl. cbn [negb].
  rewrite Z.add_simpl_r, (repn_view_eof _ _ _ R). cbn [mbind option_bind].
  change (LP_EOF =? LP_EOF) with true. cbn [negb]. destruct deep; [| done]. cbn [negb].
  rewrite (repn_numele R). cbn [mbind option_bind].
  pose proof (validate_loop lp numele es es [] (length lp) 0 R eq_refl (zlen_entries_fuel lp numele [] es R)) as E.
  rewrite lp_off_nil in E. unfold lp_off, LP_HDR_SIZE in *. rewrite E by lia. cbn [mbind option_bind].
  rewrite bool_decide_eq_true_2 by done. cbn [negb].
  destruct R as (_ & _ & _ & [-> | [-> _]]); [done |]. rewrite Z.add_0_l, Z.eqb_refl, andb_false_r. done.
Qed.

(** * Validation of arbitrary bytes *)

Lemma rd_Some m i : 0 <= i < zlen m -> exists b, rd m i = Some b.
Proof.
  intros Hi. unfold rd. rewrite (proj2 (Z.leb_le 0 i)) by lia.
  destruct (m !! Z.to_nat i) eqn:E; [by eauto |]. apply lookup_ge_None in E. unfold zlen in Hi. lia.
Qed.

Lemma get32_total m p : 0 <= p -> p + 4 <= zlen m -> exists v, get32 m p = Some v.
Proof.
  intros. unfold get32, get24, get16.
  destruct (rd_Some m p) as [b0 ->]; [lia |]. destruct (rd_Some m (p + 1)) as [b1 ->]; [lia |].
  destruct (rd_Some m (p + 2)) as [b2 ->]; [lia |]. destruct (rd_Some m (p + 3)) as [b3 ->]; [lia |].
  cbn [mbind option_bind]. eauto.
Qed.

Lemma decode_backlen_total lp fuel : forall p val shift,
  (1 <= fuel)%nat -> 35 <= shift + 7 * Z.of_nat fuel -> Z.of_nat fuel - 1 <= p < zlen lp ->
  exists v, lpDecodeBacklen_loop fuel lp p val shift = Some v.
Proof.
  induction fuel as [| fuel IH]; intros p val shift Hf Hs Hp; [lia |]. cbn [lpDecodeBacklen_loop].
  destruct (rd_Some lp p) as [b ->]; [lia |]. cbn [mbind option_bind].
  destruct (Z.land b 128 =? 0); [by eauto |]. destruct (Z.ltb_spec 28 (shift + 7)); [by eauto |].
  apply IH; lia.
Qed.

Lemma decode_backlen_range lp fuel : forall p val shift r,
  0 <= shift -> shift + 7 * Z.of_nat fuel <= 35 -> 0 <= val < 2 ^ shift ->
  lpDecodeBacklen_loop fuel lp p val shift = Some r -> 0 <= r < 2 ^ 35 \/ r = ULLONG_MAX.
Proof.
  induction fuel as [| fuel IH]; intros p val shift r Hs Hf Hv; [done |]. cbn [lpDecodeBacklen_loop].
  destruct (rd lp p) as [b |]; [| done]. cbn [mbind option_bind].
  assert (0 <= Z.land b 127 < 128) as Hb by (bits_to_arith; apply Z.mod_pos_bound; lia).
  rewrite lor_shl by lia. assert (2 ^ (shift + 7) = 128 * 2 ^ shift) as Ep by (rewrite Z.pow_add_r by lia; lia).
  assert (0 <= val + Z.land b 127 * 2 ^ shift < 2 ^ (shift + 7)) as Hnew by (rewrite Ep; nia).
  assert (2 ^ (shift + 7) <= 2 ^ 35) by (apply Z.pow_le_mono_r; lia).
  destruct (Z.land b 128 =? 0); [intros [= <-]; left; lia |].
  destruct (28 <? shift + 7); [intros [= <-]; by right |]. apply IH; lia.
Qed.

Lemma u32_range z : 0 <= u32 z < 4294967296.
Proof. apply Z.mod_pos_bound. lia. Qed.

(** The encoding bytes are read before the length they hold. *)
Lemma size_unsafe_total lp p n : lpCurrentEncodedSizeBytes lp p = Some n -> n <> 0 -> 0 <= p ->
  p + n <= zlen lp -> exists l, lpCurrentEncodedSizeUnsafe lp p = Some l /\ 0 <= l < 4294967296.
Proof.
  unfold lpCurrentEncodedSizeBytes, lpCurrentEncodedSizeUnsafe. intros E Hn Hp Hb.
  destruct (rd lp p) as [b |] eqn:Eb; [| done]. cbn [mbind option_bind] in *. injection E as En.
  assert (forall k, 0 <= k < 4294967296 -> exists l, Some k = Some l /\ 0 <= l < 4294967296) as Hk by eauto.
  destruct (IS_7BIT_UINT b); [apply Hk; lia |].
  destruct (IS_6BIT_STR b).
  { unfold STR6_LEN. rewrite Eb. cbn [mbind option_bind]. apply Hk, u32_range. }
  destruct (IS_13BIT_INT b); [apply Hk; lia |]. destruct (IS_16BIT_INT b); [apply Hk; lia |].
  destruct (IS_24BIT_INT b); [apply Hk; lia |]. destruct (IS_32BIT_INT b); [apply Hk; lia |].
  destruct (IS_64BIT_INT b); [apply Hk; lia |].
  destruct (IS_12BIT_STR b).
  { unfold STR12_LEN. destruct (rd_Some lp (p + 1)) as [b1 ->]; [lia |]. rewrite Eb.
    cbn [mbind option_bind]. apply Hk, u32_range. }
  destruct (IS_32BIT_STR b).
  { unfold STR32_LEN. destruct (get32_total lp (p + 1)) as [v ->]; [lia.. |].
    cbn [mbind option_bind]. apply Hk, u32_range. }
  destruct (b =? LP_EOF); [apply Hk; lia | subst; done].
Qed.

(** What a successful [lpValidateNext] has checked of the entry at [p], whose
    next one is at [q]. *)
Definition entry_checked (lp : list Z) (p q : Z) : Prop :=
  lpValidateNext lp (Some p) (zlen lp) = Some (true, Some q) /\
  exists b l,
    rd lp p = Some b /\ (b =? LP_EOF) = false /\ LP_HDR_SIZE <= p /\ q <= zlen lp - 1 /\
    lpCurrentEncodedSizeUnsafe lp p = Some l /\ 0 <= l < 4294967296 /\ q = p + (l + lpBacklenSize l) /\
    exists r, lpDecodeBacklen lp (q - 1) = Some r /\ u64 (r + lpBacklenSize l) = l + lpBacklenSize l.

Lemma out_of_range n p : OUT_OF_RANGE n p = false <-> LP_HDR_SIZE <= p <= n - 1.
Proof. unfold OUT_OF_RANGE. rewrite orb_false_iff, !Z.ltb_ge. lia. Qed.

Lemma validate_next_total lp p :
  (exists pp, lpValidateNext lp (Some p) (zlen lp) = Some (false, pp)) \/
  (lpValidateNext lp (Some p) (zlen lp) = Some (true, None) /\ rd lp p = Some LP_EOF) \/
  (exists q, lpValidateNext lp (Some p) (zlen lp) = Some (true, Some q) /\ entry_checked lp p q).
Proof.
  unfold entry_checked, lpValidateNext. destruct (OUT_OF_RANGE (zlen lp) p) eqn:O1; [by eauto |].
  apply out_of_range in O1. unfold LP_HDR_SIZE in O1.
  destruct (rd_Some lp p) as [b Eb]; [lia |]. rewrite Eb. cbn [mbind option_bind].
  destruct (b =? LP_EOF) eqn:Ee; [right; left; split; [done |]; f_equal; lia |].
  destruct (lpCurrentEncodedSizeBytes lp p) as [n |] eqn:En;
    [| unfold lpCurrentEncodedSizeBytes in En; rewrite Eb in En; done].
  cbn [mbind option_bind]. destruct (Z.eqb_spec n 0); [by eauto |].
  destruct (OUT_OF_RANGE (zlen lp) (p + n)) eqn:O2; [by eauto |].
  apply out_of_range in O2. unfold LP_HDR_SIZE in O2.
  destruct (size_unsafe_total lp p n En) as (l & El & Hl); [done | lia | lia |].
  rewrite El. cbn [mbind option_bind]. pose proof (backlen_size_bounds l).
  destruct (OUT_OF_RANGE (zlen lp) (p + (l + lpBacklenSize l))) eqn:O3; [by eauto |].
  apply out_of_range in O3. unfold LP_HDR_SIZE in O3.
  destruct (decode_backlen_total lp 5 (p + (l + lpBacklenSize l) - 1) 0 0) as [r Er]; [lia.. |].
  unfold lpDecodeBacklen. rewrite Er. cbn [mbind option_bind].
  destruct (Z.eqb_spec (u64 (r + lpBacklenSize l)) (l + lpBacklenSize l)) as [Ek |]; cbn [negb]; [| by eauto].
  right. right. eexists. split; [reflexivity |]. split; [reflexivity |]. exists b, l. unfold LP_HDR_SIZE.
  split; [done |]. split; [done |]. split; [lia |]. split; [lia |]. split; [done |]. split; [done |].
  split; [done |]. eauto.
Qed.

Lemma checked_lt lp p q : entry_checked lp p q -> LP_HDR_SIZE <= p < q /\ q <= zlen lp - 1.
Proof.
  intros (_ & b & l & _ & _ & Hp & Hq & _ & Hl & E & _). pose proof (backlen_size_bounds l). lia.
Qed.

(** The offsets of the entries from [p] to the EOF byte at [e]. *)
Fixpoint checked_walk (lp : list Z) (p : Z) (ps : list Z) (e : Z) : Prop :=
  match ps with
  | [] => p = e /\ rd lp e = Some LP_EOF
  | x :: ps => x = p /\ exists q, entry_checked lp p q /\ checked_walk lp q ps e
  end.

Lemma integrity_loop_total lp fuel : forall p count,
  rd lp (zlen lp - 1) = Some LP_EOF -> 0 <= p <= zlen lp - 1 -> zlen lp - 1 - p <= Z.of_nat fuel ->
  exists r, lpValidateIntegrity_loop fuel lp (zlen lp) (Some p) count = Some r /\
    match r with
    | Some (pe, n) => exists e ps, pe = Some e /\ checked_walk lp p ps e /\
        (0 <= count -> count + zlen ps < 4294967296 -> n = count + zlen ps)
    | None => True
    end.
Proof.
  induction fuel as [| fuel IH]; intros p count Hlast Hp Hf; cbn [lpValidateIntegrity_loop];
    destruct (rd_Some lp p) as [b Eb]; try lia; rewrite Eb; cbn [mbind option_bind].
  all: destruct (b =? LP_EOF) eqn:Ee;
    [eexists; split; [reflexivity |]; exists p, []; split; [done |]; split;
       [split; [done | rewrite Eb; f_equal; lia] | rewrite (@zlen_nil Z); lia] |].
  { exfalso. replace p with (zlen lp - 1) in Eb by lia. rewrite Hlast in Eb. injection Eb as <-. done. }
  destruct (validate_next_total lp p) as [[pp ->] | [[_ He] | (q & -> & Hq)]]; cbn [mbind option_bind].
  - by exists None.
  - rewrite Eb in He. injection He as ->. done.
  - destruct (checked_lt _ _ _ Hq) as [Hpq Hqe]. unfold LP_HDR_SIZE in Hpq.
    destruct (IH q (u32 (count + 1)) Hlast) as (r & E & Hr); [lia.. |]. exists r. split; [exact E |].
    destruct r as [[pe n] |]; [| done]. destruct Hr as (e & ps & -> & Hw & Hn).
    exists e, (p :: ps). split; [done |]. split; [by split; [| exists q] |].
    rewrite zlen_cons. pose proof (zlen_nonneg ps). intros Hc Hb. rewrite u32_id in Hn by lia. lia.
Qed.

(** The walk bounds the number of entries. *)
Lemma checked_walk_len lp ps : forall p e, checked_walk lp p ps e -> zlen ps <= e - p.
Proof.
  induction ps as [| x ps IH]; intros p e; cbn [checked_walk].
  - intros [-> _]. rewrite (@zlen_nil Z). lia.
  - intros (-> & q & Hq & Hw). apply IH in Hw. apply checked_lt in Hq. rewrite zlen_cons. lia.
Qed.

Lemma validate_total lp deep : exists b, lpValidateIntegrity lp (zlen lp) deep = Some b.
Proof.
  unfold lpValidateIntegrity, LP_HDR_SIZE. destruct (Z.ltb_spec (zlen lp) (6 + 1)); [by eauto |].
  unfold lpGetTotalBytes. destruct (get32_total lp 0) as [t ->]; [lia.. |]. cbn [mbind option_bind].
  destruct (Z.eqb_spec t (zlen lp)) as [-> |]; cbn [negb]; [| by eauto].
  destruct (rd_Some lp (zlen lp - 1)) as [l El]; [lia |]. rewrite El. cbn [mbind option_bind].
  destruct (Z.eqb_spec l LP_EOF) as [-> |]; cbn [negb]; [| by eauto]. destruct deep; cbn [negb]; [| by eauto].
  unfold lpGetNumElements, get16. destruct (rd_Some lp 4) as [b0 ->]; [lia |].
  destruct (rd_Some lp (4 + 1)) as [b1 ->]; [lia |]. cbn [mbind option_bind].
  destruct (integrity_loop_total lp (length lp) 6 0 El) as (r & E & _); [lia | unfold zlen; lia |].
  rewrite E. cbn [mbind option_bind]. destruct r as [[pe n] |]; [| by eauto]. repeat case_if; eauto.
Qed.

(** ** What acceptance guarantees *)

Lemma validate_accepted lp : bytes lp -> lpValidateIntegrity lp (zlen lp) true = Some true ->
  lpGetTotalBytes lp = Some (zlen lp) /\ 7 <= zlen lp < 4294967296 /\
  exists ps, checked_walk lp 6 ps (zlen lp - 1) /\
    exists n, lpGetNumElements lp = Some n /\ (n = LP_HDR_NUMELE_UNKNOWN \/ n = zlen ps).
Proof.
  intros Hb. unfold lpValidateIntegrity, LP_HDR_SIZE. destruct (Z.ltb_spec (zlen lp) (6 + 1)); [done |].
  destruct (lpGetTotalBytes lp) as [t |] eqn:Et; [| done]. cbn [mbind option_bind].
  destruct (Z.eqb_spec t (zlen lp)) as [-> |]; cbn [negb]; [| done].
  assert (zlen lp < 4294967296) as Hmax.
  { unfold lpGetTotalBytes in Et. destruct (rdn_is_Some lp 0 4) as [w Ew]; [lia.. |].
    pose proof (rdn_bytes _ _ _ _ Hb Ew) as Hw. pose proof (rdn_length _ _ _ _ Ew) as Hlw.
    rewrite (get32_view lp 0 w) in Et; [| | done | done].
    - pose proof (le_dec_bound w Hw) as B. rewrite Hlw in B. change (256 ^ 4) with 4294967296 in B.
      injection Et as Et. lia.
    - apply rdn_Some in Ew as (a & c & -> & Ha & _). rewrite <- Ha. apply view_app. }
  destruct (rd lp (zlen lp - 1)) as [l |] eqn:El; [| done]. cbn [mbind option_bind].
  destruct (Z.eqb_spec l LP_EOF) as [-> |]; cbn [negb]; [| done].
  destruct (lpGetNumElements lp) as [n |]; [| done]. cbn [mbind option_bind].
  destruct (integrity_loop_total lp (length lp) 6 0 El) as (r & E & Hr); [lia | unfold zlen; lia |].
  rewrite E. cbn [mbind option_bind]. destruct r as [[pe k] |]; [| done].
  destruct Hr as (e & ps & -> & Hw & Hk). case_bool_decide as Hpe; cbn [negb]; [| done].
  injection Hpe as ->. pose proof (checked_walk_len _ _ _ _ Hw). rewrite Hk by lia. intros Hn.
  split; [done |]. split; [lia |]. exists ps. split; [exact Hw |]. exists n. split; [done |].
  destruct (Z.eqb_spec n LP_HDR_NUMELE_UNKNOWN); [by left | right].
  destruct (Z.eqb_spec n (0 + zlen ps)); [lia | done].
Qed.

Section accepted.
Context (lp : list Z) (Ht : lpGetTotalBytes lp = Some (zlen lp)).

Lemma checked_assert p q : entry_checked lp p q -> lpAssertValidEntry lp (zlen lp) p = Some tt.
Proof. intros [E _]. unfold lpAssertValidEntry. now rewrite E. Qed.

(** At the head of a walk: nothing, or a valid entry. *)
Lemma walk_at p ps : checked_walk lp p ps (zlen lp - 1) ->
  (b ← rd lp p;
   if b =? LP_EOF then Some None
   else bytes ← lpBytes lp; _ ← lpAssertValidEntry lp bytes p; Some (Some p)) = Some (head ps).
Proof.
  destruct ps as [| x ps]; cbn [checked_walk head].
  - intros [-> ->]. done.
  - intros (-> & q & Hq & _). pose proof Hq as (_ & b & l & Eb & Hb & _). rewrite Eb. cbn [mbind option_bind].
    rewrite Hb. unfold lpBytes. rewrite Ht. cbn [mbind option_bind]. now rewrite (checked_assert _ _ Hq).
Qed.

Lemma walk_next p q ps : entry_checked lp p q -> checked_walk lp q ps (zlen lp - 1) ->
  lpNext lp p = Some (head ps).
Proof.
  intros (_ & b & l & _ & _ & _ & _ & El & _ & Eq & _) Hw. unfold lpNext, lpSkip. rewrite El.
  cbn [mbind option_bind]. rewrite <- Eq. exact (walk_at q ps Hw).
Qed.

Lemma walk_prev p q : entry_checked lp p q -> lpPrev lp q = Some (Some p).
Proof.
  intros Hc. pose proof (checked_lt _ _ _ Hc) as [Hp _]. pose proof Hc as
    (_ & b & l & _ & _ & _ & _ & _ & Hl & Eq & r & Er & Hr).
  unfold lpPrev. rewrite (proj2 (Z.eqb_neq q LP_HDR_SIZE)) by lia. rewrite Er. cbn [mbind option_bind].
  pose proof (backlen_size_bounds l).
  assert (r = l) as ->.
  { destruct (decode_backlen_range lp 5 (q - 1) 0 0 r) as [Hr' | ->]; try done; try lia.
    - rewrite u64_id in Hr by (unfold is_u64; lia). lia.
    - unfold u64, ULLONG_MAX in Hr. dm. }
  rewrite Hr. replace (q - 1 - (l + lpBacklenSize l - 1)) with p by lia.
  unfold lpBytes. rewrite Ht. cbn [mbind option_bind]. now rewrite (checked_assert _ _ Hc).
Qed.

Lemma walk_nth ps : forall p, checked_walk lp p ps (zlen lp - 1) ->
  forall i x, ps !! i = Some x ->
    LP_HDR_SIZE <= x < zlen lp - 1 /\ lpNext lp x = Some (ps !! S i) /\
    (forall y, ps !! S i = Some y -> lpPrev lp y = Some (Some x)) /\
    (ps !! S i = None -> lpPrev lp (zlen lp - 1) = Some (Some x)).
Proof.
  induction ps as [| z ps IH]; intros p Hw i x Hi; [done |].
  cbn [checked_walk] in Hw. destruct Hw as (-> & q & Hq & Hw). destruct i as [| i].
  - injection Hi as <-. pose proof (checked_lt _ _ _ Hq). split; [lia |].
    assert ((p :: ps) !! 1%nat = head ps) as -> by (now destruct ps).
    split; [exact (walk_next _ _ _ Hq Hw) |].
    destruct ps as [| y ps]; cbn [head checked_walk] in *.
    + destruct Hw as [-> _]. split; [done |]. intros _. exact (walk_prev _ _ Hq).
    + destruct Hw as [-> _]. split; [| done]. intros y [= <-]. exact (walk_prev _ _ Hq).
  - exact (IH q Hw i x Hi).
Qed.
End accepted.
