(* ===== verification/ListpackThms.v ===== *)
(** listpack.c: the theorems. *)
From S2P Require Import Prelude Strnum Listpack ListpackCodec ListpackSpec ListpackOps ListpackQuery ListpackValid.

(** A concrete listpack for the witnesses. *)
Definition lp_ex_entries : list lpentry := [EStr (chars "hello"); EInt (-100); EInt 1024].
Definition lp_ex : list Z := lp_block 3 lp_ex_entries.

Lemma lp_ex_rep : lp_rep lp_ex lp_ex_entries.
Proof.
  exists 3. split; [exists []; reflexivity |]. split; [vm_compute; discriminate |]. split; [| right; done].
  repeat apply Forall_cons_2; try apply Forall_nil_2; cbn [entry_wf]; unfold is_i64; try lia.
  split; [| reflexivity]. unfold bytes. apply Forall_forall. intros b Hb.
  apply (bool_decide_unpack (byte b)). revert b Hb. apply Forall_forall.
  repeat constructor.
Qed.

(** ** Construction *)

Lemma new_rep junk capacity : exists lp, lpNew junk capacity = Some lp /\ lp_rep lp [].
Proof.
  unfold lpNew, LP_HDR_SIZE. set (cap := if 6 + 1 <? capacity then capacity else 6 + 1).
  assert (7 <= cap) as Hcap by (subst cap; case_if; lia).
  assert (exists a b c d, fresh_bytes junk cap = a ++ b ++ [c] ++ d /\ zlen a = 4 /\ zlen b = 2)
    as (a & b & c & d & -> & Ha & Hb).
  { pose proof (zlen_fresh_bytes junk cap) as Hz. set (m := fresh_bytes junk cap) in *.
    destruct (zlen_split_prefix m 4) as (a & m1 & -> & Ha); [lia |]. rewrite zlen_app in Hz.
    destruct (zlen_split_prefix m1 2) as (b & m2 & -> & Hb); [lia |]. rewrite zlen_app in Hz.
    destruct m2 as [| c d]; [rewrite (@zlen_nil Z) in Hz; lia |]. exists a, b, c, d. done. }
  unfold lpSetTotalBytes, lpSetNumElements. rewrite <- le_enc4, <- le_enc2.
  assert (wrn (a ++ b ++ [c] ++ d) 0 (le_enc 4 (6 + 1)) = Some (le_enc 4 (6 + 1) ++ b ++ [c] ++ d)) as ->
    by (apply (wrn_app []); [done | now rewrite zlen_le_enc]).
  cbn [mbind option_bind]. rewrite (wrn_app _ b) by (now rewrite zlen_le_enc). cbn [mbind option_bind].
  rewrite (app_assoc (le_enc 4 _)), wrn_app by (rewrite ?zlen_app, ?zlen_le_enc; done).
  eexists. split; [reflexivity |]. exists 0. split; [| split; [done | split; [done | by right]]].
  exists d. unfold lp_block. rewrite <- !app_assoc. done.
Qed.

Lemma append_elem junk lp es elestr eleint x : lp_rep lp es -> lp_elem elestr eleint x -> elem_ok x ->
  insert_result (es ++ [x]) (lp_off es)
    (listpack_bytes ← lpGetTotalBytes lp; lpInsert junk lp elestr eleint (listpack_bytes - 1) LP_BEFORE).
Proof.
  intros [numele R] Hel Hx. rewrite (repn_total R). cbn [mbind option_bind]. rewrite Z.add_simpl_r.
  apply (insert_before junk Hel Hx lp es []). rewrite app_nil_r. by exists numele.
Qed.

Lemma prepend_elem junk lp es elestr eleint x : lp_rep lp es -> lp_elem elestr eleint x -> elem_ok x ->
  insert_result (x :: es) LP_HDR_SIZE
    (p ← lpFirst lp;
     match p with
     | None => listpack_bytes ← lpGetTotalBytes lp; lpInsert junk lp elestr eleint (listpack_bytes - 1) LP_BEFORE
     | Some p => lpInsert junk lp elestr eleint p LP_BEFORE
     end).
Proof.
  intros H Hel Hx. pose proof H as [numele R]. rewrite (first_entry _ _ _ R). cbn [mbind option_bind].
  destruct es as [| e es]; cbn [lp_ptr].
  - exact (append_elem junk lp [] _ _ _ H Hel Hx).
  - exact (insert_before junk Hel Hx lp [] (e :: es) H).
Qed.

(** * Claims *)

(** C1: [lpInsert] implements insertion, replacement and deletion on the list
    of entries: for a block that holds [es1 ++ e :: es2], a new element (a
    string, stored as an integer when it is the canonical decimal form of one,
    or an encoded integer) inserted before, after or in place of the entry [e]
    gives a block that holds the corresponding list, the returned pointer is the
    new element's, NULL is returned exactly when the result would exceed 2^32-1
    bytes, and no access leaves the block; [lpDelete] removes the entry and
    returns the pointer to the next one, or NULL. *)
Theorem lpInsert_correct junk lp es1 e es2 elestr eleint x :
  lp_rep lp (es1 ++ e :: es2) -> lp_elem elestr eleint x -> elem_ok x ->
  insert_result (es1 ++ x :: e :: es2) (lp_off es1) (lpInsert junk lp elestr eleint (lp_off es1) LP_BEFORE) /\
  insert_result (es1 ++ e :: x :: es2) (lp_off (es1 ++ [e]))
    (lpInsert junk lp elestr eleint (lp_off es1) LP_AFTER) /\
  insert_result (es1 ++ x :: es2) (lp_off es1) (lpInsert junk lp elestr eleint (lp_off es1) LP_REPLACE) /\
  exists lp', lpDelete junk lp (lp_off es1) = Some (Some (lp', lp_ptr es1 es2)) /\ lp_rep lp' (es1 ++ es2).
Proof.
  intros R Hel Hx. split; [exact (insert_before junk Hel Hx lp es1 (e :: es2) R) |].
  split; [exact (insert_after junk Hel Hx lp es1 e es2 R) |].
  split; [exact (insert_replace junk Hel Hx lp es1 e es2 R) | exact (delete_entry junk lp es1 e es2 R)].
Qed.

(** Building at the ends: [lpNew] makes an empty listpack whatever the
    capacity, and the append and prepend functions add the string or integer at
    the end or at the front, also of an empty list, or return NULL on overflow
    of the 32 bit size. *)
Theorem lp_build_correct junk capacity lp es s v :
  lp_rep lp es -> elem_ok (str_entry s) -> is_i64 v ->
  (exists lp0, lpNew junk capacity = Some lp0 /\ lp_rep lp0 []) /\
  insert_result (es ++ [str_entry s]) (lp_off es) (lpAppend junk lp s) /\
  insert_result (es ++ [EInt v]) (lp_off es) (lpAppendInteger junk lp v) /\
  insert_result (str_entry s :: es) LP_HDR_SIZE (lpPrepend junk lp s) /\
  insert_result (EInt v :: es) LP_HDR_SIZE (lpPrependInteger junk lp v).
Proof.
  intros R Hs Hv. split; [apply new_rep |].
  split; [exact (append_elem junk lp es _ _ _ R (elem_str s None) Hs) |].
  split; [exact (append_elem junk lp es _ _ _ R (elem_int v) Hv) |].
  split; [exact (prepend_elem junk lp es _ _ _ R (elem_str s None) Hs) |].
  exact (prepend_elem junk lp es _ _ _ R (elem_int v) Hv).
Qed.

(** traversal follows the list in both directions: from the entry at
    position [|es1|], [lpNext] and [lpPrev] give the neighbours (NULL at the
    ends), [lpFirst]/[lpLast] the ends, [lpSeek] the element at an index that
    counts from the end when negative (NULL out of range), and [lpLength] the
    number of entries also when the header does not know it. *)
Theorem lp_traversal_correct lp es1 e es2 index :
  lp_rep lp (es1 ++ e :: es2) ->
  lpNext lp (lp_off es1) = Some (lp_ptr (es1 ++ [e]) es2) /\
  lpPrev lp (lp_off (es1 ++ [e])) = Some (Some (lp_off es1)) /\
  lpPrev lp (lp_off []) = Some None /\
  lpFirst lp = Some (Some (lp_off [])) /\
  lpLast lp = Some (Some (lp_off (removelast (es1 ++ e :: es2)))) /\
  lpSeek lp index = Some (seek_spec (es1 ++ e :: es2) index) /\
  exists lp', lpLength lp = Some (zlen (es1 ++ e :: es2), lp') /\ lp_rep lp' (es1 ++ e :: es2).
Proof.
  intros [numele R]. split; [exact (next_entry _ _ _ _ _ R) |]. split; [exact (prev_entry _ _ _ _ _ R) |].
  split; [apply prev_first |]. split.
  { rewrite (first_entry _ _ _ R). now destruct es1. }
  split.
  { destruct (es1 ++ e :: es2) as [| y l _] eqn:E using rev_ind; [now destruct es1 |].
    rewrite removelast_last. exact (last_entry _ _ _ _ R). }
  split; [exact (seek_rep _ _ _ _ R) |].
  destruct (length_rep _ _ _ R) as (lp' & n & E & R' & _). exists lp'. split; [exact E | by exists n].
Qed.

(** C35: [lpGet] gives back the stored element: the value is the integer itself
    (as a number, or printed into the caller's buffer when one is given) or
    points at the stored bytes, and reads as the string that was inserted. *)
Theorem lpGet_correct lp es1 s es2 (intbuf : bool) :
  lp_rep lp (es1 ++ str_entry s :: es2) ->
  exists v, lpGet lp (lp_off es1) intbuf = Some v /\ val_str lp v = Some s /\
    match v with
    | LpInt n => intbuf = false /\ lpStringToInt64 s = Some n
    | LpStr _ _ => lpStringToInt64 s = None
    | LpBuf _ => intbuf = true
    end.
Proof.
  intros [numele R]. destruct (get_value R intbuf) as (v & E & Hv & Hm). exists v.
  split; [exact E |]. rewrite entry_str_str_entry in Hv. split; [exact Hv |].
  unfold str_entry in Hm. destruct v; [destruct Hm as [? Hm]; split; [done |] | | done];
    destruct (lpStringToInt64 s); congruence.
Qed.

(** [lpCompare] decides whether the entry stands for the given string, and
    [lpFind] returns the first entry equal to it among those at distances 0,
    [skip+1], [2(skip+1)], ... from the start, NULL if there is none. *)
Theorem lpFind_correct lp es1 e es2 s skip :
  lp_rep lp (es1 ++ e :: es2) -> 0 <= skip ->
  lpCompare lp (lp_off es1) s = Some (bool_decide (entry_str e = s)) /\
  exists r, lpFind lp (lp_off es1) s skip = Some r /\
    let at_ k := (e :: es2) !! (k * S (Z.to_nat skip))%nat in
    match r with
    | Some q => exists (k : nat) (x : lpentry), at_ k = Some x /\ entry_str x = s /\
        q = lp_off (es1 ++ take (k * S (Z.to_nat skip)) (e :: es2)) /\
        forall (j : nat) (y : lpentry), (j < k)%nat -> at_ j = Some y -> entry_str y <> s
    | None => forall (j : nat) (y : lpentry), at_ j = Some y -> entry_str y <> s
    end.
Proof.
  intros [numele R] Hs. split; [exact (compare_rep _ _ _ _ _ s R) |].
  eexists. split; [exact (find_rep _ _ _ _ _ s skip R Hs) |]. cbv zeta.
  exact (find_spec_pos (e :: es2) es1 s (Z.to_nat skip) 0).
Qed.

(** C36: [lpDeleteRange] removes [num] entries from the index on (fewer at the
    end of the list, none when the index is out of range), and
    [lpDeleteRangeWithEntry] does so from a pointer and returns the pointer to
    what follows. *)
Theorem lpDeleteRange_correct junk lp es index num es1 e es2 :
  lp_rep lp es -> 0 <= num -> es = es1 ++ e :: es2 ->
  (exists lp', lpDeleteRange junk lp index num = Some lp' /\ lp_rep lp' (delete_range_spec es index num)) /\
  (0 < num -> exists lp', lpDeleteRangeWithEntry junk lp (lp_off es1) num =
      Some (lp', lp_ptr es1 (drop (Z.to_nat num) (e :: es2))) /\
    lp_rep lp' (es1 ++ drop (Z.to_nat num) (e :: es2))).
Proof.
  intros R Hnum ->. split; [now apply delete_range | now apply delete_range_with_entry].
Qed.

(** [lpBatchDelete] given the pointers to some entries, in order, removes
    exactly those; [lpMerge] concatenates two listpacks whose merged size stays
    below 2^32-1 bytes; [lpDup] copies the used part of the block. *)
Theorem lpBatchDelete_lpMerge_correct junk lp es segs lp2 es2 :
  lp_rep lp (es ++ segs_all segs) -> lp_rep lp2 es2 ->
  (exists lp', lpBatchDelete junk lp (segs_ptrs es segs) = Some lp' /\ lp_rep lp' (es ++ segs_kept segs)) /\
  (lp_off ((es ++ segs_all segs) ++ es2) + 1 < UINT32_MAX ->
   exists lp', lpMerge junk lp lp2 = Some lp' /\ lp_rep lp' ((es ++ segs_all segs) ++ es2)) /\
  (exists lp', lpDup lp = Some lp' /\ lp_rep lp' (es ++ segs_all segs) /\ Some (zlen lp') = lpBytes lp).
Proof.
  intros R R2. split; [exact (batch_delete junk lp es segs R) |].
  split; [intros H; exact (merge_rep junk lp lp2 _ _ R R2 H) |].
  destruct R as [numele R]. exists (lp_block numele (es ++ segs_all segs)).
  split; [exact (dup_rep _ _ _ R) |]. split.
  - exists numele. destruct R as [_ R]. split; [exists []; now rewrite app_nil_r | exact R].
  - unfold lpBytes. rewrite (repn_total R). now rewrite zlen_lp_block.
Qed.

(** C2: [lpValidateIntegrity] is safe and sound on arbitrary bytes: it never
    reads outside the block and always answers; it accepts every listpack the
    operations build; and a block it accepts (deep validation) has a sequence of
    entries that [lpFirst]/[lpNext] and [lpLast]/[lpPrev] enumerate in both
    directions inside the block without failing an assertion, whose number the
    header gives unless it says "unknown". *)
Theorem lpValidateIntegrity_correct lp numele es :
  bytes lp ->
  (forall deep, exists b, lpValidateIntegrity lp (zlen lp) deep = Some b) /\
  (forall deep, lp_repn lp numele es -> lpValidateIntegrity lp (lp_off es + 1) deep = Some true) /\
  (lpValidateIntegrity lp (zlen lp) true = Some true ->
   exists ps n,
     lpFirst lp = Some (head ps) /\ lpLast lp = Some (last ps) /\
     (forall i p, ps !! i = Some p ->
        LP_HDR_SIZE <= p < zlen lp - 1 /\ lpNext lp p = Some (ps !! S i) /\
        (forall q, ps !! S i = Some q -> lpPrev lp q = Some (Some p))) /\
     lpGetNumElements lp = Some n /\ (n = LP_HDR_NUMELE_UNKNOWN \/ n = zlen ps)).
Proof.
  intros Hb. split; [intros; apply validate_total |].
  split; [intros deep R; now apply (validate_rep lp numele es) |].
  intros Hok. destruct (validate_accepted lp Hb Hok) as (Ht & Hlen & ps & Hw & n & Hn & Hcount).
  exists ps, n. split; [exact (walk_at lp Ht 6 ps Hw) |]. split.
  { unfold lpLast. rewrite Ht. cbn [mbind option_bind]. destruct ps as [| x ps _] using rev_ind.
    - cbn [checked_walk] in Hw. destruct Hw as [<- _]. done.
    - rewrite last_snoc. apply (walk_nth lp Ht _ 6 Hw (length ps) x); [now rewrite list_lookup_middle |].
      apply lookup_ge_None. rewrite length_app. simpl. lia. }
  split; [| done]. intros i p Hi. destruct (walk_nth lp Ht ps 6 Hw i p Hi) as (H1 & H2 & H3 & _). done.
Qed.

(** [lpEstimateBytesRepeatedInteger] is exact: it is the size of the
    listpack that holds the integer [rep] times. *)
Theorem lpEstimateBytes_exact v rep : is_i64 v -> 0 <= rep < 2 ^ 32 ->
  lpEstimateBytesRepeatedInteger v rep = lp_off (repeat (EInt v) (Z.to_nat rep)) + 1.
Proof.
  intros Hv Hr. unfold lpEstimateBytesRepeatedInteger.
  assert (forall n, zlen (entries (repeat (EInt v) n)) = Z.of_nat n * zlen (entry (EInt v))) as Hz.
  { induction n as [| n IH]; [done |]. cbn [repeat]. rewrite entries_cons, zlen_app, IH. lia. }
  unfold lp_off. rewrite Hz, Z2Nat.id by lia. rewrite (entry_len (EInt v)). cbn [enc_entry].
  pose proof (enc_entry_len_bound (EInt v) Hv) as B. cbn [enc_entry] in B.
  pose proof (backlen_size_bounds (zlen (lpEncodeIntegerGetType v))).
  pose proof (zlen_nonneg (lpEncodeIntegerGetType v)). unfold LP_HDR_SIZE.
  rewrite u64_id; [lia |]. unfold is_u64. change (2 ^ 32) with 4294967296 in Hr.
  assert (zlen (lpEncodeIntegerGetType v) <= 9) as H9.
  { destruct (int_enc_shape v Hv) as [[? E] | [[? E] | [[? E] | [[? E] | [[? E] | E]]]]];
      rewrite E, ?zlen_cons, ?zlen_le_enc, ?(@zlen_nil Z); lia. }
  nia.
Qed.

(** * Witnesses *)

Lemma lpInsert_correct_witness :
  lp_rep lp_ex lp_ex_entries /\
  insert_result [EStr (chars "hello"); EInt 7; EInt (-100); EInt 1024] 13
    (lpInsert (fun _ => 0) lp_ex (Some (chars "7")) None 13 LP_BEFORE).
Proof.
  split; [exact lp_ex_rep |].
  exact (proj1 (lpInsert_correct (fun _ => 0) lp_ex [EStr (chars "hello")] (EInt (-100)) [EInt 1024]
    (Some (chars "7")) None (EInt 7) lp_ex_rep (elem_str (chars "7") None) ltac:(cbn; unfold is_i64; lia))).
Defined.

Lemma lp_build_correct_witness :
  insert_result (lp_ex_entries ++ [EInt 5]) 19 (lpAppendInteger (fun _ => 0) lp_ex 5).
Proof.
  exact (proj1 (proj2 (proj2 (lp_build_correct (fun _ => 0) 0 lp_ex lp_ex_entries (chars "5") 5 lp_ex_rep
    ltac:(change (elem_ok (EInt 5)); cbn; unfold is_i64; lia) ltac:(unfold is_i64; lia))))).
Defined.

Lemma lp_traversal_correct_witness : lpSeek lp_ex (-1) = Some (Some 16).
Proof.
  exact (proj1 (proj2 (proj2 (proj2 (proj2 (proj2
    (lp_traversal_correct lp_ex [] (EStr (chars "hello")) [EInt (-100); EInt 1024] (-1) lp_ex_rep))))))).
Defined.

Lemma lpGet_correct_witness : exists v, lpGet lp_ex 13 true = Some v /\ val_str lp_ex v = Some (chars "-100").
Proof.
  destruct (lpGet_correct lp_ex [EStr (chars "hello")] (chars "-100") [EInt 1024] true lp_ex_rep)
    as (v & E & Hv & _). exists v. split; [exact E | exact Hv].
Defined.

Lemma lpFind_correct_witness : lpCompare lp_ex 13 (chars "-100") = Some true.
Proof.
  exact (proj1 (lpFind_correct lp_ex [EStr (chars "hello")] (EInt (-100)) [EInt 1024] (chars "-100") 0 lp_ex_rep
    ltac:(lia))).
Defined.

Lemma lpDeleteRange_correct_witness :
  exists lp', lpDeleteRange (fun _ => 0) lp_ex (-2) 5 = Some lp' /\ lp_rep lp' [EStr (chars "hello")].
Proof.
  exact (proj1 (lpDeleteRange_correct (fun _ => 0) lp_ex lp_ex_entries (-2) 5 [] (EStr (chars "hello"))
    [EInt (-100); EInt 1024] lp_ex_rep ltac:(lia) eq_refl)).
Defined.

Lemma lpBatchDelete_lpMerge_correct_witness :
  exists lp', lpBatchDelete (fun _ => 0) lp_ex [6; 16] = Some lp' /\ lp_rep lp' [EInt (-100)].
Proof.
  exact (proj1 (lpBatchDelete_lpMerge_correct (fun _ => 0) lp_ex [] [(EStr (chars "hello"), [EInt (-100)]); (EInt 1024, [])]
    lp_ex lp_ex_entries lp_ex_rep lp_ex_rep)).
Defined.

Lemma lpValidateIntegrity_correct_witness :
  bytes lp_ex /\ lpValidateIntegrity lp_ex (zlen lp_ex) true = Some true.
Proof.
  assert (bytes lp_ex) as Hb
    by (apply (bool_decide_unpack (Forall byte lp_ex)); vm_compute; exact I).
  split; [exact Hb |].
  refine (proj1 (proj2 (lpValidateIntegrity_correct lp_ex 3 lp_ex_entries Hb)) true _).
  split; [exists []; reflexivity |]. split; [vm_compute; discriminate |].
  split; [| right; split; [reflexivity | reflexivity]].
  apply Forall_forall. intros x Hx. destruct lp_ex_rep as [n R]. pose proof (repn_wf R) as Hw.
  rewrite Forall_forall in Hw. exact (Hw x Hx).
Defined.

Lemma lpEstimateBytes_exact_witness : lpEstimateBytesRepeatedInteger 1000 4 = 19.
Proof. exact (lpEstimateBytes_exact 1000 4 ltac:(unfold is_i64; lia) ltac:(lia)). Defined.
