(* ===== verification/Lzf.v ===== *)
(** lzf_c.c, lzf_d.c: the LZF compressor used for RDB strings and quicklist
    nodes, in the configuration lzfP.h selects (HLOG 16, VERY_FAST,
    uninitialised hash table, unaligned 16 bit reads, CHECK_INPUT).

    Pointers into the input and output buffers are offsets.  A slot of the hash
    table holds a pointer into the input, also as an offset (NULL and the stale
    contents of an uninitialised slot are arbitrary numbers): the table the
    compressor starts from is an argument of the model. *)
From S2P Require Import Prelude.

Definition HSIZE : Z := Z.shiftl 1 16.
Definition MAX_LIT : Z := Z.shiftl 1 5.
Definition MAX_OFF : Z := Z.shiftl 1 13.
Definition MAX_REF : Z := Z.shiftl 1 8 + Z.shiftl 1 3.

(** * Compression *)

Definition lzf_htab := Z -> Z.
Definition hset (h : lzf_htab) (i v : Z) : lzf_htab := fun j => if j =? i then v else h j.

Definition FRST (inp : list Z) (p : Z) : option Z :=
  b0 ← rd inp p; b1 ← rd inp (p + 1); Some (Z.lor (Z.shiftl b0 8) b1).
Definition NEXT (v : Z) (inp : list Z) (p : Z) : option Z :=
  b2 ← rd inp (p + 2); Some (Z.lor (u32 (Z.shiftl v 8)) b2).
Definition IDX (h : Z) : Z := Z.land (u32 (Z.shiftr h 8 - h * 5)) (HSIZE - 1).

Record lzf_st := LzfSt { c_ip : Z; c_op : Z; c_lit : Z; c_hval : Z; c_htab : lzf_htab; c_out : list Z }.

(** One iteration of the main loop: return 0, leave the loop, or go on. *)
Inductive lzf_outcome :=
  | LRet0 (out : list Z)
  | LBreak (st : lzf_st)
  | LNext (st : lzf_st).

(** The sixteen unrolled comparisons: whether one failed, and [len]. *)
Fixpoint lzf_unrolled (k : nat) (inp : list Z) (ref ip len : Z) : option (bool * Z) :=
  match k with
  | O => Some (false, len)
  | S k =>
      let len := len + 1 in
      a ← rd inp (ref + len); b ← rd inp (ip + len);
      if negb (a =? b) then Some (true, len) else lzf_unrolled k inp ref ip len
  end.

(** [do len++; while (len < maxlen && ref[len] == ip[len])]. *)
Fixpoint lzf_dowhile (fuel : nat) (inp : list Z) (ref ip maxlen len : Z) : option Z :=
  match fuel with
  | O => None
  | S fuel =>
      let len := len + 1 in
      if len <? maxlen then
        a ← rd inp (ref + len); b ← rd inp (ip + len);
        if a =? b then lzf_dowhile fuel inp ref ip maxlen len else Some len
      else Some len
  end.

Definition lzf_match_len (inp : list Z) (ref ip : Z) : option Z :=
  let len := 2 in
  let maxlen := zlen inp - ip - len in
  let maxlen := if MAX_REF <? maxlen then MAX_REF else maxlen in
  if 16 <? maxlen then
    '(stop, len) ← lzf_unrolled 16 inp ref ip len;
    if (stop : bool) then Some len else lzf_dowhile (length inp) inp ref ip maxlen len
  else lzf_dowhile (length inp) inp ref ip maxlen len.

(** The condition for a match at [ref]. *)
Definition lzf_is_match (inp : list Z) (ref ip : Z) : option bool :=
  if negb (u64 (ip - ref - 1) <? MAX_OFF) then Some false
  else if negb (0 <? ref) then Some false
  else
    a ← rd inp (ref + 2); b ← rd inp (ip + 2);
    if negb (a =? b) then Some false
    else x ← rdn inp ref 2; y ← rdn inp ip 2; Some (bool_decide (x = y)).

(** [!lit] *)
Definition lnot (lit : Z) : Z := if lit =? 0 then 1 else 0.

Definition lzf_emit_ref (out : list Z) (op off len : Z) : option (list Z * Z) :=
  if len <? 7 then
    out ← wrn out op [u8 (Z.shiftr off 8 + Z.shiftl len 5)]; Some (out, op + 1)
  else
    out ← wrn out op [u8 (Z.shiftr off 8 + Z.shiftl 7 5)];
    out ← wrn out (op + 1) [u8 (len - 7)]; Some (out, op + 2).

Definition lzf_step (inp : list Z) (st : lzf_st) : option lzf_outcome :=
  let '(LzfSt ip op lit hval htab out) := st in
  let in_end := zlen inp in
  let out_end := zlen out in
  hval ← NEXT hval inp ip;
  let ref := htab (IDX hval) in
  let htab := hset htab (IDX hval) ip in
  m ← lzf_is_match inp ref ip;
  if (m : bool) then
    let off := u64 (ip - ref - 1) in
    if (out_end <=? op + 3 + 1) && (out_end <=? op - lnot lit + 3 + 1) then Some (LRet0 out)
    else
      out ← wrn out (op - lit - 1) [u8 (lit - 1)];
      let op := op - lnot lit in
      len ← lzf_match_len inp ref ip;
      let len := len - 2 in
      let ip := ip + 1 in
      '(out, op) ← lzf_emit_ref out op off len;
      out ← wrn out op [u8 off];
      let op := op + 1 in
      let lit := 0 in
      let op := op + 1 in
      let ip := ip + (len + 1) in
      if in_end - 2 <=? ip then Some (LBreak (LzfSt ip op lit hval htab out))
      else
        let ip := ip - 1 in
        let ip := ip - 1 in
        hval ← FRST inp ip;
        hval ← NEXT hval inp ip;
        let htab := hset htab (IDX hval) ip in
        let ip := ip + 1 in
        hval ← NEXT hval inp ip;
        let htab := hset htab (IDX hval) ip in
        let ip := ip + 1 in
        Some (LNext (LzfSt ip op lit hval htab out))
  else if out_end <=? op then Some (LRet0 out)
  else
    let lit := lit + 1 in
    b ← rd inp ip;
    out ← wrn out op [b];
    let op := op + 1 in
    let ip := ip + 1 in
    if lit =? MAX_LIT then
      out ← wrn out (op - lit - 1) [u8 (lit - 1)];
      Some (LNext (LzfSt ip (op + 1) 0 hval htab out))
    else Some (LNext (LzfSt ip op lit hval htab out)).

Fixpoint lzf_loop (fuel : nat) (inp : list Z) (st : lzf_st) : option lzf_outcome :=
  if c_ip st <? zlen inp - 2 then
    match fuel with
    | O => None
    | S fuel =>
        r ← lzf_step inp st;
        match r with
        | LNext st => lzf_loop fuel inp st
        | LBreak st => Some (LBreak st)
        | LRet0 out => Some (LRet0 out)
        end
    end
  else Some (LBreak st).

(** The bytes left at the end of the input. *)
Fixpoint lzf_tail (fuel : nat) (inp : list Z) (ip op lit : Z) (out : list Z) : option (Z * Z * list Z) :=
  if ip <? zlen inp then
    match fuel with
    | O => None
    | S fuel =>
        let lit := lit + 1 in
        b ← rd inp ip;
        out ← wrn out op [b];
        let op := op + 1 in
        let ip := ip + 1 in
        if lit =? MAX_LIT then
          out ← wrn out (op - lit - 1) [u8 (lit - 1)]; lzf_tail fuel inp ip (op + 1) 0 out
        else lzf_tail fuel inp ip op lit out
    end
  else Some (op, lit, out).

(** The returned size and the output buffer. *)
Definition lzf_compress (inp out : list Z) (htab : lzf_htab) : option (Z * list Z) :=
  if (zlen inp =? 0) || (zlen out =? 0) then Some (0, out)
  else
    hval ← FRST inp 0;
    r ← lzf_loop (length inp) inp (LzfSt 0 1 0 hval htab out);
    match r with
    | LRet0 out => Some (0, out)
    | LNext st | LBreak st =>
        if zlen (c_out st) <? c_op st + 3 then Some (0, c_out st)
        else
          '(op, lit, out) ← lzf_tail (length inp) inp (c_ip st) (c_op st) (c_lit st) (c_out st);
          out ← wrn out (op - lit - 1) [u8 (lit - 1)];
          Some (op - lnot lit, out)
    end.

(** * Decompression *)

Inductive lzf_result := LzfSize (n : Z) | LzfE2BIG | LzfEINVAL.

(** [*op++ = *ref++] repeated inside the output buffer. *)
Fixpoint lzf_copy (n : nat) (out : list Z) (op ref : Z) : option (list Z) :=
  match n with
  | O => Some out
  | S n => b ← rd out ref; out ← wrn out op [b]; lzf_copy n out (op + 1) (ref + 1)
  end.

(** The [switch] on the length of a back reference. *)
Definition lzf_copy_ref (out : list Z) (op ref len : Z) : option (list Z) :=
  if len <=? 9 then lzf_copy (Z.to_nat (len + 2)) out op ref
  else
    let len := len + 2 in
    if ref + len <=? op then bs ← rdn out ref len; wrn out op bs
    else lzf_copy (Z.to_nat len) out op ref.

Fixpoint lzf_decompress_loop (fuel : nat) (inp : list Z) (ip : Z) (out : list Z) (op : Z)
    : option (lzf_result * list Z) :=
  let in_end := zlen inp in
  let out_end := zlen out in
  if ip <? in_end then
    match fuel with
    | O => None
    | S fuel =>
        ctrl ← rd inp ip;
        let ip := ip + 1 in
        if ctrl <? Z.shiftl 1 5 then
          let ctrl := ctrl + 1 in
          if out_end <? op + ctrl then Some (LzfE2BIG, out)
          else if in_end <? ip + ctrl then Some (LzfEINVAL, out)
          else
            bs ← rdn inp ip ctrl;
            out ← wrn out op bs;
            lzf_decompress_loop fuel inp (ip + ctrl) out (op + ctrl)
        else
          let len := Z.shiftr ctrl 5 in
          let ref := op - Z.shiftl (Z.land ctrl 31) 8 - 1 in
          if in_end <=? ip then Some (LzfEINVAL, out)
          else
            r ← (if len =? 7 then
                   b ← rd inp ip;
                   Some (if in_end <=? ip + 1 then None else Some (len + b, ip + 1))
                 else Some (Some (len, ip)));
            match r with
            | None => Some (LzfEINVAL, out)
            | Some (len, ip) =>
                b ← rd inp ip;
                let ref := ref - b in
                let ip := ip + 1 in
                if out_end <? op + len + 2 then Some (LzfE2BIG, out)
                else if ref <? 0 then Some (LzfEINVAL, out)
                else
                  out ← lzf_copy_ref out op ref len;
                  lzf_decompress_loop fuel inp ip out (op + len + 2)
            end
    end
  else Some (LzfSize op, out).

Definition lzf_decompress (inp out : list Z) : option (lzf_result * list Z) :=
  lzf_decompress_loop (length inp) inp 0 out 0.

Definition lzf_ex_in : list Z := repeat 97 40 ++ [98; 99; 100; 97; 97; 97; 97; 98; 99; 100; 7; 8; 9].

Example lzf_ex : lzf_compress lzf_ex_in (repeat 0 53) (fun _ => -1000) =
  Some (18, [1; 97; 97; 224; 29; 0; 2; 98; 99; 100; 64; 40; 32; 6; 2; 7; 8; 9] ++ repeat 0 35).
Proof. vm_compute. reflexivity. Qed.

(** A one byte input is read past its end by [FRST]. *)
Example lzf_one_byte : lzf_compress [97] (repeat 0 10) (fun _ => 0) = None.
Proof. reflexivity. Qed.

(** * The compressed format *)

(** A literal run of 1..32 bytes, or a reference [off+1] bytes back of [n] bytes. *)
Inductive lzf_tok := TLit (bs : list Z) | TRef (off n : Z).

Definition enc_tok (t : lzf_tok) : list Z :=
  match t with
  | TLit bs => (zlen bs - 1) :: bs
  | TRef off n =>
      if n - 2 <? 7 then [off / 256 + (n - 2) * 32; off mod 256]
      else [off / 256 + 224; n - 9; off mod 256]
  end.

(** The overlapping copy, on the bytes produced so far. *)
Fixpoint copy_back (k : nat) (p : list Z) (off : Z) : list Z :=
  match k with
  | O => p
  | S k => copy_back k (p ++ [p !!! Z.to_nat (zlen p - off - 1)]) off
  end.

Definition apply_tok (p : list Z) (t : lzf_tok) : list Z :=
  match t with TLit bs => p ++ bs | TRef off n => copy_back (Z.to_nat n) p off end.

Definition tok_ok (p : list Z) (t : lzf_tok) : Prop :=
  match t with
  | TLit bs => 1 <= zlen bs <= 32
  | TRef off n => 0 <= off < 8192 /\ off + 1 <= zlen p /\ 3 <= n <= 264
  end.

Definition enc_toks (ts : list lzf_tok) : list Z := concat (map enc_tok ts).
Definition apply_toks (p : list Z) (ts : list lzf_tok) : list Z := fold_left apply_tok ts p.
Fixpoint toks_ok (p : list Z) (ts : list lzf_tok) : Prop :=
  match ts with [] => True | t :: ts => tok_ok p t /\ toks_ok (apply_tok p t) ts end.

Lemma enc_toks_snoc ts t : enc_toks (ts ++ [t]) = enc_toks ts ++ enc_tok t.
Proof. unfold enc_toks. rewrite map_app, concat_app. cbn. now rewrite app_nil_r. Qed.

Lemma apply_toks_snoc p ts t : apply_toks p (ts ++ [t]) = apply_tok (apply_toks p ts) t.
Proof. unfold apply_toks. now rewrite fold_left_app. Qed.

Lemma toks_ok_snoc ts t : forall p, toks_ok p (ts ++ [t]) <-> toks_ok p ts /\ tok_ok (apply_toks p ts) t.
Proof.
  induction ts as [| x ts IH]; intros p; cbn [app toks_ok]; [tauto |]. rewrite IH.
  change (apply_toks p (x :: ts)) with (apply_toks (apply_tok p x) ts). tauto.
Qed.

Lemma zlen_copy_back k : forall p off, zlen (copy_back k p off) = zlen p + Z.of_nat k.
Proof.
  induction k as [| k IH]; intros p off; cbn [copy_back]; [lia |]. rewrite IH, zlen_app, zlen_cons, (@zlen_nil Z). lia.
Qed.

(** ** Decompressing one token *)

Lemma rd_lookup_total m i : 0 <= i < zlen m -> rd m i = Some (m !!! Z.to_nat i).
Proof.
  intros Hi. unfold rd. rewrite (proj2 (Z.leb_le 0 i)) by lia. apply list_lookup_lookup_total_lt.
  unfold zlen in Hi. lia.
Qed.

Lemma lzf_copy_spec k : forall p s off, Z.of_nat k <= zlen s -> 0 <= off -> off + 1 <= zlen p ->
  exists s', lzf_copy k (p ++ s) (zlen p) (zlen p - off - 1) = Some (copy_back k p off ++ s') /\
    zlen s' = zlen s - Z.of_nat k.
Proof.
  induction k as [| k IH]; intros p s off Hk Ho Hp; cbn [lzf_copy copy_back].
  - exists s. split; [done | lia].
  - destruct s as [| x s]; [rewrite (@zlen_nil Z) in Hk; lia |]. rewrite zlen_cons in Hk.
    rewrite rd_app_l, rd_lookup_total by lia. cbn [mbind option_bind].
    assert (forall b, wrn (p ++ x :: s) (zlen p) [b] = Some (p ++ b :: s)) as -> by
      (intros b; exact (wrn_app p [x] [b] s (zlen p) eq_refl eq_refl)).
    cbn [mbind option_bind]. set (b := p !!! _).
    change (p ++ b :: s) with (p ++ [b] ++ s). rewrite app_assoc.
    destruct (IH (p ++ [b]) s off) as (s' & E & Hs'); [lia | done | |].
    { rewrite zlen_app. change (zlen [b]) with 1. lia. }
    exists s'. rewrite zlen_app in E. change (zlen [b]) with 1 in E.
    replace (zlen p + 1 - off - 1) with (zlen p - off - 1 + 1) in E by lia. rewrite E.
    split; [done |]. rewrite zlen_cons. lia.
Qed.

(** Where the areas are disjoint the copy is a block copy. *)
Lemma copy_back_block k : forall p off, Z.of_nat k <= off + 1 -> off + 1 <= zlen p ->
  rdn p (zlen p - off - 1) (Z.of_nat k) = Some (drop (length p) (copy_back k p off)) /\
  take (length p) (copy_back k p off) = p.
Proof.
  induction k as [| k IH]; intros p off Hk Hp.
  - cbn [copy_back]. rewrite drop_ge, take_ge by lia. split; [| done].
    apply rdn_lookup. rewrite (@zlen_nil Z). split; [lia |]. split; [lia |]. split; [lia |]. split; [lia |]. lia.
  - cbn [copy_back]. set (b := p !!! _). set (p' := p ++ [b]).
    assert (zlen p' = zlen p + 1) as Hl by (unfold p'; rewrite zlen_app; done).
    assert (length p' = S (length p)) as Hl' by (unfold p'; rewrite length_app; simpl; lia).
    destruct (IH p' off) as [E1 E2]; [lia | lia |]. set (q := copy_back k p' off) in *.
    assert (q = p' ++ drop (length p') q) as Eq by (rewrite <- E2 at 1; now rewrite take_drop).
    assert (drop (length p) q = b :: drop (length p') q) as Ed.
    { rewrite Eq at 1. unfold p'. rewrite <- app_assoc, drop_app_length. done. }
    split; [| rewrite Eq; unfold p'; rewrite <- app_assoc, take_app_length; done].
    rewrite Ed. apply rdn_lookup. apply rdn_lookup in E1 as (_ & _ & _ & Hlen & Hj).
    split; [lia |]. split; [lia |]. split; [lia |]. split; [rewrite zlen_cons; lia |].
    intros j Hjk. destruct (decide (j = 0)) as [-> | Hj0].
    + cbn [Z.to_nat lookup list_lookup]. symmetry. rewrite Z.add_0_r.
      apply list_lookup_lookup_total_lt. unfold zlen in *. lia.
    + replace (Z.to_nat j) with (S (Z.to_nat (j - 1))) by lia. cbn [lookup list_lookup].
      rewrite Hj by lia. rewrite Hl. replace (zlen p + 1 - off - 1 + (j - 1)) with (zlen p - off - 1 + j) by lia.
      unfold p'. apply lookup_app_l. unfold zlen in *. lia.
Qed.

Lemma lzf_copy_ref_spec p s off n : 3 <= n -> n <= zlen s -> 0 <= off -> off + 1 <= zlen p ->
  exists s', lzf_copy_ref (p ++ s) (zlen p) (zlen p - off - 1) (n - 2) =
      Some (copy_back (Z.to_nat n) p off ++ s') /\ zlen s' = zlen s - n.
Proof.
  intros Hn Hs Ho Hp. unfold lzf_copy_ref. replace (n - 2 + 2) with n by lia.
  destruct (lzf_copy_spec (Z.to_nat n) p s off) as (s' & E & Hs'); [lia.. |].
  destruct (n - 2 <=? 9); [exists s'; split; [exact E | lia] |].
  destruct (Z.leb_spec (zlen p - off - 1 + n) (zlen p)); [| exists s'; split; [exact E | lia]].
  destruct (copy_back_block (Z.to_nat n) p off) as [E1 E2]; [lia | lia |].
  rewrite Z2Nat.id in E1 by lia. rewrite (rdn_prefix _ s _ _ _ E1). cbn [mbind option_bind].
  set (q := copy_back _ p off) in *.
  assert (zlen (drop (length p) q) = n) as Hd by (rewrite <- (rdn_length _ _ _ _ E1); done).
  destruct (zlen_split_prefix s n) as (a & c & -> & Ha); [lia |].
  rewrite (wrn_app p a _ c) by (done || lia). exists c.
  rewrite <- (take_drop (length p) q) at 2. rewrite E2, <- app_assoc. split; [done |].
  rewrite zlen_app. lia.
Qed.

Lemma rdn_mid a b c i n : zlen a = i -> zlen b = n -> rdn (a ++ b ++ c) i n = Some b.
Proof. apply rdn_app. Qed.

Lemma zlen_apply_tok p t : tok_ok p t ->
  zlen (apply_tok p t) = zlen p + match t with TLit bs => zlen bs | TRef _ n => n end.
Proof.
  destruct t as [bs | off n]; cbn [apply_tok tok_ok]; intros H.
  - now rewrite zlen_app.
  - rewrite zlen_copy_back. lia.
Qed.

Lemma decompress_tok fuel pre t rest p s :
  tok_ok p t -> zlen (apply_tok p t) <= zlen p + zlen s ->
  let inp := pre ++ enc_tok t ++ rest in
  exists s',
    lzf_decompress_loop (S fuel) inp (zlen pre) (p ++ s) (zlen p) =
    lzf_decompress_loop fuel inp (zlen pre + zlen (enc_tok t)) (apply_tok p t ++ s') (zlen (apply_tok p t)) /\
    zlen (apply_tok p t ++ s') = zlen (p ++ s).
Proof.
  intros Hok Hroom inp. pose proof (zlen_apply_tok p t Hok) as Ha. rewrite Ha in Hroom |- *.
  assert (zlen inp = zlen pre + zlen (enc_tok t) + zlen rest) as Hin by (unfold inp; rewrite !zlen_app; lia).
  pose proof (zlen_nonneg rest). pose proof (zlen_nonneg p). pose proof (zlen_nonneg s).
  destruct t as [bs | off n]; cbn [tok_ok apply_tok] in *.
  - cbn [enc_tok] in *. rewrite zlen_cons in *.
    destruct (zlen_split_prefix s (zlen bs)) as (s1 & s2 & -> & Hs1); [lia |]. exists s2. cbn [lzf_decompress_loop].
    rewrite (proj2 (Z.ltb_lt _ _)) by lia.
    assert (rd inp (zlen pre) = Some (zlen bs - 1)) as -> by (apply rd_app; done). cbn [mbind option_bind].
    rewrite (proj2 (Z.ltb_lt (zlen bs - 1) _)) by (change (Z.shiftl 1 5) with 32; lia).
    rewrite zlen_app in *. rewrite (proj2 (Z.ltb_ge _ _)) by (rewrite zlen_app; lia).
    rewrite (proj2 (Z.ltb_ge (zlen inp) _)) by lia.
    replace (zlen bs - 1 + 1) with (zlen bs) by lia.
    assert (rdn inp (zlen pre + 1) (zlen bs) = Some bs) as ->.
    { unfold inp. change (pre ++ (zlen bs - 1 :: bs) ++ rest) with (pre ++ [zlen bs - 1] ++ bs ++ rest).
      rewrite app_assoc. apply rdn_app; [now rewrite zlen_app | done]. }
    cbn [mbind option_bind]. rewrite (wrn_app p s1 bs s2) by done. cbn [mbind option_bind].
    rewrite <- !app_assoc. replace (zlen pre + 1 + zlen bs) with (zlen pre + (1 + zlen bs)) by lia.
    split; [done |]. rewrite !zlen_app. lia.
  - destruct (lzf_copy_ref_spec p s off n) as (s' & E & Hs'); [lia.. |]. exists s'.
    assert (forall ip', (if zlen (p ++ s) <? zlen p + (n - 2) + 2 then Some (LzfE2BIG, p ++ s)
      else if zlen p - off - 1 <? 0 then Some (LzfEINVAL, p ++ s)
      else out ← lzf_copy_ref (p ++ s) (zlen p) (zlen p - off - 1) (n - 2);
           lzf_decompress_loop fuel inp ip' out (zlen p + (n - 2) + 2)) =
      lzf_decompress_loop fuel inp ip' (copy_back (Z.to_nat n) p off ++ s') (zlen p + n)) as Hk.
    { intros ip'. rewrite (proj2 (Z.ltb_ge _ _)), (proj2 (Z.ltb_ge _ 0)) by (rewrite ?zlen_app; lia).
      rewrite E. cbn [mbind option_bind]. f_equal. lia. }
    split; [| rewrite !zlen_app, zlen_copy_back; lia]. rewrite <- Hk. clear Hk E.
    assert (forall k b, enc_tok (TRef off n) !! Z.to_nat k = Some b -> 0 <= k ->
      rd inp (zlen pre + k) = Some b) as Hrd.
    { intros k b Hk Hk0. unfold inp. rewrite rd_app_r by done. unfold rd. rewrite (proj2 (Z.leb_le 0 k)) by done.
      now apply lookup_app_l_Some. }
    cbn [lzf_decompress_loop]. cbn [enc_tok] in *.
    destruct (Z.ltb_spec (n - 2) 7); rewrite !zlen_cons, (@zlen_nil Z) in *;
      pose proof (Hrd 0 _ eq_refl ltac:(lia)) as R0; rewrite Z.add_0_r in R0;
      pose proof (Hrd 1 _ eq_refl ltac:(lia)) as R1;
      rewrite (proj2 (Z.ltb_lt (zlen pre) _)), R0 by lia; cbn [mbind option_bind];
      change (Z.shiftl 1 5) with 32; rewrite (proj2 (Z.ltb_ge _ 32)) by dm; bits_to_arith;
      rewrite (proj2 (Z.leb_gt _ (zlen pre + 1))) by lia.
    + assert ((off / 256 + (n - 2) * 32) / 32 = n - 2) as -> by dm.
      rewrite (proj2 (Z.eqb_neq (n - 2) 7)) by lia. cbn [mbind option_bind].
      rewrite R1. cbn [mbind option_bind].
      assert ((off / 256 + (n - 2) * 32) mod 32 * 256 = off / 256 * 256) as -> by dm.
      replace (zlen p - off / 256 * 256 - 1 - off mod 256) with (zlen p - off - 1) by dm.
      replace (zlen pre + 1 + 1) with (zlen pre + (1 + (1 + 0))) by lia. done.
    + pose proof (Hrd 2 _ eq_refl ltac:(lia)) as R2.
      assert ((off / 256 + 224) / 32 = 7) as -> by dm. cbn [Z.eqb Pos.eqb].
      rewrite R1. cbn [mbind option_bind].
      rewrite (proj2 (Z.leb_gt _ (zlen pre + 1 + 1))) by lia.
      replace (zlen pre + 1 + 1) with (zlen pre + 2) by lia. rewrite R2. cbn [mbind option_bind].
      replace (7 + (n - 9)) with (n - 2) by lia.
      assert ((off / 256 + 224) mod 32 * 256 = off / 256 * 256) as -> by dm.
      replace (zlen p - off / 256 * 256 - 1 - off mod 256) with (zlen p - off - 1) by dm.
      replace (zlen pre + 2 + 1) with (zlen pre + (1 + (1 + (1 + 0)))) by lia. done.
Qed.

Lemma apply_toks_mono ts : forall p, toks_ok p ts -> zlen p <= zlen (apply_toks p ts).
Proof.
  induction ts as [| t ts IH]; intros p Hok; [unfold apply_toks; cbn; lia |]. destruct Hok as [Ht Hok].
  change (apply_toks p (t :: ts)) with (apply_toks (apply_tok p t) ts). specialize (IH _ Hok).
  rewrite zlen_apply_tok in IH by done. destruct t as [bs | off n]; cbn [tok_ok] in Ht;
    [pose proof (zlen_nonneg bs) |]; lia.
Qed.

Lemma zlen_enc_tok p t : tok_ok p t -> 2 <= zlen (enc_tok t).
Proof.
  destruct t as [bs | off n]; cbn [tok_ok enc_tok]; intros H; [rewrite zlen_cons; lia |].
  destruct (_ <? 7); rewrite !zlen_cons, (@zlen_nil Z); lia.
Qed.

(** The decompressor expands a token stream. *)
Lemma decompress_toks ts : forall fuel pre p s,
  toks_ok p ts -> zlen (apply_toks p ts) <= zlen p + zlen s -> zlen (enc_toks ts) <= Z.of_nat fuel ->
  exists s', lzf_decompress_loop fuel (pre ++ enc_toks ts) (zlen pre) (p ++ s) (zlen p) =
      Some (LzfSize (zlen (apply_toks p ts)), apply_toks p ts ++ s') /\
    zlen (apply_toks p ts ++ s') = zlen (p ++ s).
Proof.
  induction ts as [| t ts IH]; intros fuel pre p s Hok Hroom Hf.
  - exists s. split; [| done]. change (enc_toks []) with (@nil Z). rewrite app_nil_r.
    destruct fuel; cbn [lzf_decompress_loop]; rewrite Z.ltb_irrefl; done.
  - change (apply_toks p (t :: ts)) with (apply_toks (apply_tok p t) ts) in *. destruct Hok as [Ht Hok].
    change (enc_toks (t :: ts)) with (enc_tok t ++ enc_toks ts) in *. rewrite zlen_app in Hf.
    pose proof (zlen_enc_tok p t Ht). pose proof (zlen_nonneg (enc_toks ts)).
    destruct fuel as [| fuel]; [lia |]. pose proof (apply_toks_mono ts _ Hok).
    destruct (decompress_tok fuel pre t (enc_toks ts) p s Ht) as (s1 & E & Hs1); [lia |].
    rewrite E. rewrite app_assoc, <- zlen_app.
    destruct (IH fuel (pre ++ enc_tok t) (apply_tok p t) s1 Hok) as (s' & E' & Hs').
    { rewrite !zlen_app in Hs1. lia. }
    { lia. }
    exists s'. split; [exact E' | congruence].
Qed.

Lemma decompress_enc ts buf : toks_ok [] ts -> zlen (apply_toks [] ts) <= zlen buf ->
  exists s', lzf_decompress (enc_toks ts) buf =
      Some (LzfSize (zlen (apply_toks [] ts)), apply_toks [] ts ++ s') /\
    zlen (apply_toks [] ts ++ s') = zlen buf.
Proof.
  intros Hok Hroom. apply (decompress_toks ts (length (enc_toks ts)) [] [] buf); [done | | unfold zlen; lia].
  rewrite (@zlen_nil Z). lia.
Qed.

(** * The compressor emits a token stream *)

Lemma rdn2 m i j x y : rdn m i 2 = Some x -> rdn m j 2 = Some y -> x = y ->
  forall k, 0 <= k < 2 -> rd m (i + k) = rd m (j + k).
Proof.
  rewrite !rdn_lookup. intros (Hi & _ & _ & _ & Hx) (Hj & _ & _ & _ & Hy) -> k Hk.
  unfold rd. rewrite !(proj2 (Z.leb_le 0 _)) by lia. rewrite <- Hx, <- Hy by done. done.
Qed.

Definition same_at (inp : list Z) (ref ip n : Z) : Prop :=
  forall k, 0 <= k < n -> rd inp (ref + k) = rd inp (ip + k).

Lemma rd_is_Some' m i : 0 <= i < zlen m -> exists b, rd m i = Some b.
Proof. intros Hi. rewrite (rd_lookup_total m i Hi). eauto. Qed.

Lemma is_match_spec inp ref ip : 0 <= ip -> ip + 2 < zlen inp -> zlen inp < 2 ^ 62 -> - 2 ^ 62 <= ref < 2 ^ 62 ->
  exists b, lzf_is_match inp ref ip = Some b /\
    (b = true -> u64 (ip - ref - 1) = ip - ref - 1 /\ 0 <= ip - ref - 1 < 8192 /\ 0 < ref /\ same_at inp ref ip 3).
Proof.
  intros Hip Hlen Hbig Href. unfold lzf_is_match. change MAX_OFF with 8192.
  destruct (Z.ltb_spec (u64 (ip - ref - 1)) 8192) as [Ho |]; cbn [negb]; [| by exists false].
  destruct (Z.ltb_spec 0 ref) as [Hr |]; cbn [negb]; [| by exists false].
  assert (0 <= ip - ref - 1) as Hoff by (unfold u64 in Ho; dm).
  rewrite u64_id in Ho |- * by (unfold is_u64; lia).
  destruct (rd_is_Some' inp (ref + 2)) as [a Ea]; [lia |]. destruct (rd_is_Some' inp (ip + 2)) as [b Eb]; [lia |].
  rewrite Ea, Eb. cbn [mbind option_bind]. destruct (Z.eqb_spec a b) as [-> |]; cbn [negb]; [| by exists false].
  destruct (rdn_is_Some inp ref 2) as [x Ex]; [lia.. |]. destruct (rdn_is_Some inp ip 2) as [y Ey]; [lia.. |].
  rewrite Ex, Ey. cbn [mbind option_bind]. eexists. split; [reflexivity |]. rewrite bool_decide_eq_true.
  intros Exy. split; [done |]. split; [lia |]. split; [done |]. intros k Hk.
  destruct (decide (k = 2)) as [-> |]; [congruence |]. apply (rdn2 inp ref ip x y Ex Ey Exy). lia.
Qed.

Lemma same_at_S inp ref ip n a : same_at inp ref ip n -> rd inp (ref + n) = Some a -> rd inp (ip + n) = Some a ->
  same_at inp ref ip (n + 1).
Proof. intros H E1 E2 k Hk. destruct (decide (k = n)) as [-> |]; [congruence | apply H; lia]. Qed.

Lemma unrolled_spec k inp ref ip : forall len, 0 <= ref <= ip -> 0 <= len ->
  same_at inp ref ip (len + 1) -> ip + len + Z.of_nat k < zlen inp ->
  exists stop len', lzf_unrolled k inp ref ip len = Some (stop, len') /\ len <= len' <= len + Z.of_nat k /\
    same_at inp ref ip (if stop : bool then len' else len' + 1) /\
    (if stop : bool then len + 1 <= len' else len' = len + Z.of_nat k).
Proof.
  induction k as [| k IH]; intros len Hr Hl Hs Hb; cbn [lzf_unrolled].
  - exists false, len. split; [done |]. split; [lia |]. split; [done | lia].
  - destruct (rd_is_Some' inp (ref + (len + 1))) as [a Ea]; [lia |].
    destruct (rd_is_Some' inp (ip + (len + 1))) as [b Eb]; [lia |].
    rewrite Ea, Eb. cbn [mbind option_bind]. destruct (Z.eqb_spec a b) as [-> |]; cbn [negb].
    + destruct (IH (len + 1)) as (stop & len' & E & H1 & H2 & H3); [lia | lia | | lia |].
      { eapply same_at_S; [exact Hs | exact Ea | exact Eb]. }
      exists stop, len'. split; [exact E |]. split; [lia |]. split; [exact H2 |]. destruct stop; lia.
    + exists true, (len + 1). split; [done |]. split; [lia |]. split; [exact Hs | lia].
Qed.

Lemma dowhile_spec inp ref ip maxlen fuel : forall len, 0 <= ref <= ip -> 0 <= len ->
  same_at inp ref ip (len + 1) -> ip + maxlen <= zlen inp -> maxlen - len <= Z.of_nat fuel -> (1 <= fuel)%nat ->
  exists len', lzf_dowhile fuel inp ref ip maxlen len = Some len' /\ len + 1 <= len' <= Z.max (len + 1) maxlen /\
    same_at inp ref ip len'.
Proof.
  induction fuel as [| fuel IH]; intros len Hr Hl Hs Hb Hf H1; [lia |]. cbn [lzf_dowhile].
  destruct (Z.ltb_spec (len + 1) maxlen).
  - destruct (rd_is_Some' inp (ref + (len + 1))) as [a Ea]; [lia |].
    destruct (rd_is_Some' inp (ip + (len + 1))) as [b Eb]; [lia |].
    rewrite Ea, Eb. cbn [mbind option_bind]. destruct (Z.eqb_spec a b) as [-> |].
    + destruct (IH (len + 1)) as (len' & E & H2 & H3); [lia | lia | | lia | lia | lia |].
      { eapply same_at_S; [exact Hs | exact Ea | exact Eb]. }
      exists len'. split; [exact E |]. split; [lia | exact H3].
    + exists (len + 1). split; [done |]. split; [lia | exact Hs].
  - exists (len + 1). split; [done |]. split; [lia | exact Hs].
Qed.

Lemma match_len_spec inp ref ip : 0 <= ref <= ip -> ip + 2 < zlen inp -> same_at inp ref ip 3 ->
  exists len, lzf_match_len inp ref ip = Some len /\ 3 <= len <= 264 /\ ip + len <= zlen inp /\
    same_at inp ref ip len.
Proof.
  intros Hr Hb Hs. unfold lzf_match_len. change MAX_REF with 264.
  set (maxlen := if 264 <? zlen inp - ip - 2 then 264 else zlen inp - ip - 2).
  assert (1 <= maxlen <= 264 /\ maxlen <= zlen inp - ip - 2) as Hm by (subst maxlen; case_if; lia).
  assert (Z.of_nat (length inp) = zlen inp) as Hfuel by done.
  destruct (Z.ltb_spec 16 maxlen).
  - destruct (unrolled_spec 16 inp ref ip 2) as (stop & len & E & H1 & H2 & H3); [lia | lia | done | lia |].
    rewrite E. cbn [mbind option_bind]. destruct stop.
    + exists len. split; [done |]. split; [lia |]. split; [lia | done].
    + destruct (dowhile_spec inp ref ip maxlen (length inp) len) as (len' & E' & H4 & H5); [lia.. | done | lia | lia | lia |].
      exists len'. split; [exact E' |]. split; [lia |]. split; [lia | done].
  - destruct (dowhile_spec inp ref ip maxlen (length inp) 2) as (len' & E' & H4 & H5); [lia.. | done | lia | lia | lia |].
    exists len'. split; [exact E' |]. split; [lia |]. split; [lia | done].
Qed.

Lemma take_snoc (inp : list Z) m b : rd inp (Z.of_nat m) = Some b -> take (S m) inp = take m inp ++ [b].
Proof.
  unfold rd. rewrite (proj2 (Z.leb_le 0 _)), Nat2Z.id by lia. apply take_S_r.
Qed.

(** Copying back along an equal range reproduces the input. *)
Lemma copy_back_take inp off k : forall m, 0 <= off -> off + 1 <= Z.of_nat m -> Z.of_nat m + Z.of_nat k <= zlen inp ->
  same_at inp (Z.of_nat m - off - 1) (Z.of_nat m) (Z.of_nat k) ->
  copy_back k (take m inp) off = take (m + k) inp.
Proof.
  induction k as [| k IH]; intros m Ho Hm Hb Hs; cbn [copy_back]; [now rewrite Nat.add_0_r |].
  assert (zlen (take m inp) = Z.of_nat m) as El by (unfold zlen in *; rewrite length_take; lia).
  rewrite El. destruct (rd_is_Some' inp (Z.of_nat m)) as [b Eb]; [lia |].
  assert (take m inp !!! Z.to_nat (Z.of_nat m - off - 1) = b) as ->.
  { apply list_lookup_total_correct. rewrite lookup_take_lt by lia.
    specialize (Hs 0 ltac:(lia)). rewrite !Z.add_0_r, Eb in Hs. unfold rd in Hs.
    rewrite (proj2 (Z.leb_le 0 _)) in Hs by lia. exact Hs. }
  rewrite <- take_snoc by done. rewrite IH; [f_equal; lia | lia | lia | lia |].
  intros j Hj. specialize (Hs (j + 1) ltac:(lia)).
  replace (Z.of_nat (S m) - off - 1 + j) with (Z.of_nat m - off - 1 + (j + 1)) by lia.
  replace (Z.of_nat (S m) + j) with (Z.of_nat m + (j + 1)) by lia. exact Hs.
Qed.

Lemma apply_ref inp ip off n : 0 <= ip -> 0 <= off -> off + 1 <= ip -> 0 <= n -> ip + n <= zlen inp ->
  same_at inp (ip - off - 1) ip n ->
  apply_tok (take (Z.to_nat ip) inp) (TRef off n) = take (Z.to_nat (ip + n)) inp.
Proof.
  intros Hip Ho Hi Hn Hb Hs. cbn [apply_tok]. rewrite copy_back_take; [f_equal; lia | done | lia | lia |].
  rewrite !Z2Nat.id by lia. exact Hs.
Qed.

(** The output buffer: complete tokens, then the header byte of the current
    literal run and its bytes; the header lies outside when the buffer is full. *)
Definition out_inv (inp : list Z) (ip op lit : Z) (out : list Z) (ts : list lzf_tok) : Prop :=
  0 <= lit < 32 /\ lit <= ip <= zlen inp /\
  toks_ok [] ts /\ apply_toks [] ts = take (Z.to_nat (ip - lit)) inp /\
  op = zlen (enc_toks ts) + 1 + lit /\
  ((out = enc_toks ts /\ lit = 0) \/
   exists h lits sl, out = enc_toks ts ++ h :: lits ++ sl /\ rdn inp (ip - lit) lit = Some lits).

Definition htab_ok (h : lzf_htab) : Prop := forall i, - 2 ^ 62 <= h i < 2 ^ 62.

Lemma hset_ok h i v : htab_ok h -> 0 <= v < 2 ^ 62 -> htab_ok (hset h i v).
Proof. intros Hh Hv j. unfold hset. destruct (j =? i); [lia | apply Hh]. Qed.

Lemma rdn_snoc m i n l b : rdn m i n = Some l -> rd m (i + n) = Some b -> rdn m i (n + 1) = Some (l ++ [b]).
Proof.
  rewrite rdn_Some. intros (a & c & -> & <- & <-) Hb. rewrite rd_app_r in Hb by apply zlen_nonneg.
  rewrite <- (Z.add_0_r (zlen l)), rd_app_r in Hb by done. destruct c as [| x c]; [done |].
  injection Hb as ->. apply rdn_Some. exists a, c. rewrite <- app_assoc. split; [done |]. split; [done |].
  rewrite zlen_app. done.
Qed.

(** One literal byte (also in the tail loop). *)
Lemma literal_inv inp ip op lit out ts : out_inv inp ip op lit out ts -> ip < zlen inp -> op < zlen out ->
  exists b out1, rd inp ip = Some b /\ wrn out op [b] = Some out1 /\ zlen out1 = zlen out /\
    if lit + 1 =? MAX_LIT then
      exists out2, wrn out1 (op + 1 - (lit + 1) - 1) [u8 (lit + 1 - 1)] = Some out2 /\ zlen out2 = zlen out /\
        exists ts', out_inv inp (ip + 1) (op + 1 + 1) 0 out2 ts'
    else out_inv inp (ip + 1) (op + 1) (lit + 1) out1 ts.
Proof.
  intros (Hlit & Hip & Hok & Happ & Hop & Hout) Hin Hroom. change MAX_LIT with 32.
  pose proof (zlen_nonneg (enc_toks ts)) as He.
  destruct Hout as [[-> ->] | (h & lits & sl & -> & Hl)]; [lia |].
  pose proof (rdn_length _ _ _ _ Hl) as Hll. rewrite zlen_app, zlen_cons, zlen_app in Hroom.
  destruct sl as [| x sl]; [rewrite (@zlen_nil Z) in Hroom; lia |].
  destruct (rd_is_Some' inp ip) as [b Eb]; [lia |].
  exists b, (enc_toks ts ++ h :: (lits ++ [b]) ++ sl). split; [done |]. split.
  { change (enc_toks ts ++ h :: lits ++ x :: sl) with (enc_toks ts ++ [h] ++ lits ++ [x] ++ sl).
    rewrite (app_assoc _ [h]), (app_assoc _ lits). rewrite wrn_app.
    - rewrite <- !app_assoc. done.
    - rewrite !zlen_app. change (zlen [h]) with 1. lia.
    - done. }
  assert (rdn inp (ip + 1 - (lit + 1)) (lit + 1) = Some (lits ++ [b])) as Hl'.
  { replace (ip + 1 - (lit + 1)) with (ip - lit) by lia. apply rdn_snoc; [done |].
    replace (ip - lit + lit) with ip by lia. done. }
  split; [zlens |].
  destruct (Z.eqb_spec (lit + 1) 32) as [E32 |].
  - rewrite u8_id by lia.
    replace (op + 1 - (lit + 1) - 1) with (zlen (enc_toks ts)) by lia.
    exists (enc_toks ts ++ (lit + 1 - 1) :: (lits ++ [b]) ++ sl).
    split; [exact (wrn_app (enc_toks ts) [h] [lit + 1 - 1] _ _ eq_refl eq_refl) |].
    split; [zlens |].
    set (l' := lits ++ [b]) in *. assert (zlen l' = 32) as Hl32 by (unfold l'; rewrite zlen_app; change (zlen [b]) with 1; lia).
    exists (ts ++ [TLit l']).
    assert (enc_toks (ts ++ [TLit l']) = enc_toks ts ++ (lit + 1 - 1) :: l') as Een
      by (rewrite enc_toks_snoc; cbn [enc_tok]; do 2 f_equal; lia).
    split; [lia |]. split; [lia |]. split; [apply toks_ok_snoc; cbn [tok_ok]; split; [done | lia] |]. split.
    { rewrite apply_toks_snoc, Happ. cbn [apply_tok].
      apply rdn_Some in Hl' as (a & c & -> & Ha & Hlen).
      assert (length a = Z.to_nat (ip - lit)) as Hla by (unfold zlen in Ha; lia).
      rewrite <- Hla, take_app_length.
      replace (Z.to_nat (ip + 1 - 0)) with (length (a ++ l')) by (rewrite length_app; unfold zlen in *; lia).
      now rewrite app_assoc, take_app_length. }
    split; [rewrite Een, zlen_app, zlen_cons; lia |]. rewrite Een.
    destruct sl as [| h' sl]; [left; split; [now rewrite app_nil_r | done] | right].
    exists h', [], sl. rewrite <- app_assoc. split; [done |]. apply rdn_lookup. rewrite (@zlen_nil Z).
    split; [lia |]. split; [lia |]. split; [lia |]. split; [done |]. lia.
  - split; [lia |]. split; [lia |]. split; [done |].
    split; [rewrite Happ; do 2 f_equal; lia |]. split; [lia |]. right. eauto.
Qed.

(** Ending the current run: afterwards the output is complete tokens. *)
Lemma stop_run inp ip op lit out ts : out_inv inp ip op lit out ts -> op <= zlen out ->
  exists out1 ts' sl, wrn out (op - lit - 1) [u8 (lit - 1)] = Some out1 /\
    out1 = enc_toks ts' ++ sl /\ zlen out1 = zlen out /\ op - lnot lit = zlen (enc_toks ts') /\
    toks_ok [] ts' /\ apply_toks [] ts' = take (Z.to_nat ip) inp.
Proof.
  intros (Hlit & Hip & Hok & Happ & Hop & Hout) Hroom. unfold lnot in *.
  destruct Hout as [[-> ->] | (h & lits & sl & -> & Hl)]; [lia |].
  pose proof (rdn_length _ _ _ _ Hl) as Hll.
  replace (op - lit - 1) with (zlen (enc_toks ts)) by lia.
  exists (enc_toks ts ++ u8 (lit - 1) :: lits ++ sl).
  assert (wrn (enc_toks ts ++ h :: lits ++ sl) (zlen (enc_toks ts)) [u8 (lit - 1)] =
    Some (enc_toks ts ++ u8 (lit - 1) :: lits ++ sl)) as Ew
    by exact (wrn_app (enc_toks ts) [h] [u8 (lit - 1)] _ _ eq_refl eq_refl).
  assert (zlen (enc_toks ts ++ u8 (lit - 1) :: lits ++ sl) = zlen (enc_toks ts ++ h :: lits ++ sl)) as El
    by (zlens).
  destruct (Z.eqb_spec lit 0) as [-> |].
  - apply zlen_0 in Hll. subst lits. exists ts, (u8 (0 - 1) :: sl). rewrite Z.sub_0_r in Happ.
    split; [exact Ew |]. split; [done |]. split; [exact El |]. split; [lia | done].
  - exists (ts ++ [TLit lits]), sl. rewrite enc_toks_snoc. cbn [enc_tok]. rewrite Hll.
    rewrite u8_id in * by lia. split; [exact Ew |].
    split; [now rewrite <- app_assoc |]. split; [exact El |].
    split; [rewrite zlen_app, zlen_cons; lia |].
    split; [apply toks_ok_snoc; cbn [tok_ok]; split; [done | lia] |].
    rewrite apply_toks_snoc, Happ. cbn [apply_tok].
    apply rdn_Some in Hl as (a & c & -> & Ha & Hlen).
    assert (length a = Z.to_nat (ip - lit)) as Hla by (unfold zlen in Ha; lia).
    rewrite <- Hla, take_app_length.
    replace (Z.to_nat ip) with (length (a ++ lits)) by (rewrite length_app; unfold zlen in *; lia).
    now rewrite app_assoc, take_app_length.
Qed.

(** Writing a back reference. *)
Lemma emit_ref_spec e x0 x1 x2 sl off n : 0 <= off < 8192 -> 3 <= n <= 264 ->
  exists out1 op1 out2 sl', lzf_emit_ref (e ++ x0 :: x1 :: x2 :: sl) (zlen e) off (n - 2) = Some (out1, op1) /\
    wrn out1 op1 [u8 off] = Some out2 /\ out2 = e ++ enc_tok (TRef off n) ++ sl' /\
    op1 + 1 = zlen (e ++ enc_tok (TRef off n)) /\ zlen out2 = zlen e + 3 + zlen sl.
Proof.
  intros Ho Hn. unfold lzf_emit_ref. bits_to_arith. change (7 * 32) with 224. cbn [enc_tok].
  destruct (Z.ltb_spec (n - 2) 7).
  - rewrite u8_id by dm.
    assert (wrn (e ++ x0 :: x1 :: x2 :: sl) (zlen e) [off / 256 + (n - 2) * 32] =
      Some (e ++ [off / 256 + (n - 2) * 32] ++ x1 :: x2 :: sl)) as ->
      by exact (wrn_app e [x0] [off / 256 + (n - 2) * 32] _ _ eq_refl eq_refl).
    cbn [mbind option_bind]. rewrite app_assoc. eexists _, _, (e ++ [_; off mod 256] ++ x2 :: sl), (x2 :: sl).
    split; [reflexivity |]. split.
    { rewrite (wrn_app _ [x1] [u8 off] (x2 :: sl)) by (rewrite ?zlen_app; done). now rewrite <- app_assoc. }
    split; [done |]. zlens.
  - rewrite !u8_id by dm.
    assert (wrn (e ++ x0 :: x1 :: x2 :: sl) (zlen e) [off / 256 + 224] =
      Some (e ++ [off / 256 + 224] ++ x1 :: x2 :: sl)) as ->
      by exact (wrn_app e [x0] [off / 256 + 224] _ _ eq_refl eq_refl).
    cbn [mbind option_bind]. rewrite app_assoc.
    assert (wrn ((e ++ [off / 256 + 224]) ++ x1 :: x2 :: sl) (zlen e + 1) [n - 2 - 7] =
      Some ((e ++ [off / 256 + 224]) ++ [n - 9] ++ x2 :: sl)) as ->.
    { replace (n - 2 - 7) with (n - 9) by lia. apply (wrn_app _ [x1] [n - 9]); [now rewrite zlen_app | done]. }
    cbn [mbind option_bind]. rewrite app_assoc.
    eexists _, _, (e ++ [off / 256 + 224; n - 9; off mod 256] ++ sl), sl.
    split; [reflexivity |]. split.
    { rewrite (wrn_app _ [x2] [u8 off] sl); [now rewrite <- !app_assoc | | done].
      zlens. }
    split; [done |]. zlens.
Qed.

Definition st_ok (inp : list Z) (outlen : Z) (st : lzf_st) : Prop :=
  htab_ok (c_htab st) /\ zlen (c_out st) = outlen /\
  exists ts, out_inv inp (c_ip st) (c_op st) (c_lit st) (c_out st) ts.

Definition outcome_ok (inp : list Z) (outlen ip : Z) (r : lzf_outcome) : Prop :=
  match r with
  | LRet0 out => zlen out = outlen
  | LBreak st => st_ok inp outlen st /\ zlen inp - 2 <= c_ip st
  | LNext st => st_ok inp outlen st /\ ip < c_ip st
  end.

(** Emitting the reference for a match of [n] bytes. *)
Lemma match_emit inp ip op lit out ts ref n : out_inv inp ip op lit out ts ->
  ref = ip - (ip - ref - 1) - 1 -> 0 <= ip - ref - 1 < 8192 -> 0 < ref -> 3 <= n <= 264 -> ip + n <= zlen inp ->
  same_at inp ref ip n -> op <= zlen out -> op - lnot lit + 4 < zlen out ->
  exists out1 out2 op2 out3 ts',
    wrn out (op - lit - 1) [u8 (lit - 1)] = Some out1 /\
    lzf_emit_ref out1 (op - lnot lit) (ip - ref - 1) (n - 2) = Some (out2, op2) /\
    wrn out2 op2 [u8 (ip - ref - 1)] = Some out3 /\ zlen out3 = zlen out /\
    out_inv inp (ip + n) (op2 + 1 + 1) 0 out3 ts'.
Proof.
  intros Hinv _ Ho Hr Hn Hb Hs Hop Hroom. pose proof Hinv as (_ & Hip & _).
  destruct (stop_run _ _ _ _ _ _ Hinv Hop) as (out1 & ts' & sl & Ew & E1 & El1 & Eop & Hok & Happ).
  assert (exists x0 x1 x2 x3 sl', sl = x0 :: x1 :: x2 :: x3 :: sl') as (x0 & x1 & x2 & x3 & sl' & ->).
  { rewrite E1, zlen_app in El1. unfold zlen in *.
    destruct sl as [| x0 [| x1 [| x2 [| x3 sl']]]]; cbn [length] in *; try lia. eauto 10. }
  destruct (emit_ref_spec (enc_toks ts') x0 x1 x2 (x3 :: sl') (ip - ref - 1) n Ho Hn)
    as (out2 & op2 & out3 & sl2 & E2 & E3 & E4 & E5 & E6).
  exists out1, out2, op2, out3, (ts' ++ [TRef (ip - ref - 1) n]).
  split; [exact Ew |]. split; [rewrite E1, Eop; exact E2 |]. split; [exact E3 |].
  assert (zlen out3 = zlen out) as El3 by (rewrite E6, <- El1, E1; zlens). split; [exact El3 |].
  assert (tok_ok (apply_toks [] ts') (TRef (ip - ref - 1) n)) as Htok.
  { cbn [tok_ok]. rewrite Happ. split; [exact Ho |]. split; [| exact Hn]. rewrite zlen_take by lia. lia. }
  split; [lia |]. split; [lia |]. split; [now apply toks_ok_snoc |]. split.
  { rewrite apply_toks_snoc, Happ, Z.sub_0_r. apply apply_ref; try lia.
    replace (ip - (ip - ref - 1) - 1) with ref by lia. exact Hs. }
  rewrite enc_toks_snoc. split; [lia |].
  assert (out3 = (enc_toks ts' ++ enc_tok (TRef (ip - ref - 1) n)) ++ sl2) as E7 by (rewrite E4; apply app_assoc).
  destruct sl2 as [| h sl2]; [left; split; [rewrite E7; apply app_nil_r | done] | right].
  exists h, [], sl2. split; [exact E7 |]. apply rdn_lookup. rewrite (@zlen_nil Z).
  split; [lia |]. split; [lia |]. split; [lia |]. split; [done |]. lia.
Qed.

Lemma step_spec inp outlen st : st_ok inp outlen st -> 0 <= c_ip st < zlen inp - 2 -> zlen inp < 2 ^ 62 ->
  exists r, lzf_step inp st = Some r /\ outcome_ok inp outlen (c_ip st) r.
Proof.
  destruct st as [ip op lit hval htab out]. intros (Hh & Hlen & ts & Hinv) Hip Hbig.
  cbn [c_ip c_op c_lit c_hval c_htab c_out] in *. unfold lzf_step, NEXT, FRST.
  destruct (rd_is_Some' inp (ip + 2)) as [b2 E2]; [lia |]. rewrite E2. cbn [mbind option_bind].
  set (hv := Z.lor _ b2). set (ref := htab (IDX hv)).
  destruct (is_match_spec inp ref ip) as (m & Em & Hm); [lia | lia | done | apply Hh |].
  rewrite Em. cbn [mbind option_bind]. pose proof (hset_ok htab (IDX hv) ip Hh ltac:(lia)) as Hh1.
  destruct m.
  - destruct (Hm eq_refl) as (Eu & Ho & Hr & Hs). rewrite Eu. clear Hm Em.
    destruct ((zlen out <=? op + 3 + 1) && (zlen out <=? op - lnot lit + 3 + 1)) eqn:Eroom;
      [eexists; split; [reflexivity | exact Hlen] |].
    assert (op <= zlen out /\ op - lnot lit + 4 < zlen out) as [Hop1 Hop2].
    { rewrite andb_false_iff, !Z.leb_gt in Eroom. unfold lnot in *. destruct (lit =? 0); lia. }
    destruct (match_len_spec inp ref ip) as (n & En & Hn & Hb & Hsn); [lia | lia | exact Hs |].
    destruct (match_emit inp ip op lit out ts ref n Hinv ltac:(lia) Ho Hr Hn Hb Hsn Hop1 Hop2)
      as (out1 & out2 & op2 & out3 & ts' & F1 & F2 & F3 & F4 & F5).
    rewrite F1. cbn [mbind option_bind]. rewrite En. cbn [mbind option_bind]. rewrite F2.
    cbn [mbind option_bind]. rewrite F3. cbn [mbind option_bind].
    replace (ip + 1 + (n - 2 + 1)) with (ip + n) by lia.
    destruct (Z.leb_spec (zlen inp - 2) (ip + n)).
    { eexists. split; [reflexivity |]. split; [| cbn [c_ip]; lia]. split; [exact Hh1 |].
      split; [cbn [c_out]; lia | exists ts'; exact F5]. }
    replace (ip + n - 1 - 1 + 1) with (ip + n - 1) by lia.
    destruct (rd_is_Some' inp (ip + n - 1 - 1)) as [c0 ->]; [lia |].
    destruct (rd_is_Some' inp (ip + n - 1)) as [c1 ->]; [lia |].
    destruct (rd_is_Some' inp (ip + n - 1 - 1 + 2)) as [c2 ->]; [lia |].
    cbn [mbind option_bind]. destruct (rd_is_Some' inp (ip + n - 1 + 2)) as [c3 ->]; [lia |].
    cbn [mbind option_bind]. eexists. split; [reflexivity |]. cbn [outcome_ok c_ip].
    replace (ip + n - 1 + 1) with (ip + n) by lia. split; [| lia].
    split; [cbn [c_htab]; repeat apply hset_ok; try done; lia |].
    split; [cbn [c_out]; lia | exists ts'; exact F5].
  - destruct (Z.leb_spec (zlen out) op); [eexists; split; [reflexivity | exact Hlen] |].
    destruct (literal_inv _ _ _ _ _ _ Hinv) as (b & out1 & Eb & Ew & El & Hrest); [lia | lia |].
    rewrite Eb. cbn [mbind option_bind]. rewrite Ew. cbn [mbind option_bind].
    destruct (lit + 1 =? MAX_LIT).
    + destruct Hrest as (out2 & Ew2 & El2 & ts' & Hinv'). rewrite Ew2. cbn [mbind option_bind].
      eexists. split; [reflexivity |]. split; [| cbn [c_ip]; lia]. split; [exact Hh1 |].
      split; [cbn [c_out]; lia | exists ts'; exact Hinv'].
    + eexists. split; [reflexivity |]. split; [| cbn [c_ip]; lia]. split; [exact Hh1 |].
      split; [cbn [c_out]; lia | exists ts; exact Hrest].
Qed.

Lemma loop_spec inp outlen fuel : forall st, st_ok inp outlen st -> 0 <= c_ip st <= zlen inp ->
  zlen inp - c_ip st <= Z.of_nat fuel -> zlen inp < 2 ^ 62 ->
  exists r, lzf_loop fuel inp st = Some r /\
    match r with
    | LRet0 out => zlen out = outlen
    | LBreak st' => st_ok inp outlen st' /\ zlen inp - 2 <= c_ip st'
    | LNext _ => False
    end.
Proof.
  induction fuel as [| fuel IH]; intros st Hst Hip Hf Hbig; cbn [lzf_loop].
  - rewrite (proj2 (Z.ltb_ge _ _)) by lia. eexists. split; [reflexivity |]. split; [exact Hst | lia].
  - destruct (Z.ltb_spec (c_ip st) (zlen inp - 2)); [| eexists; split; [reflexivity |]; split; [exact Hst | lia]].
    destruct (step_spec inp outlen st Hst) as (r & Er & Hr); [lia | done |]. rewrite Er. cbn [mbind option_bind].
    destruct r as [o | st' | st']; cbn [outcome_ok] in Hr.
    + exists (LRet0 o). done.
    + exists (LBreak st'). done.
    + destruct Hr as [Hst' Hlt]. pose proof Hst' as (_ & _ & ts' & (_ & Hip' & _)).
      apply IH; [done | lia | lia | done].
Qed.

Lemma tail_spec inp fuel : forall ip op lit out ts, out_inv inp ip op lit out ts ->
  zlen inp - ip <= Z.of_nat fuel ->
  op + (zlen inp - ip) + (if 32 <=? lit + (zlen inp - ip) then 1 else 0) <= zlen out -> zlen inp - ip <= 31 ->
  exists op' lit' out' ts', lzf_tail fuel inp ip op lit out = Some (op', lit', out') /\
    out_inv inp (zlen inp) op' lit' out' ts' /\ op' <= zlen out' /\ zlen out' = zlen out.
Proof.
  induction fuel as [| fuel IH]; intros ip op lit out ts Hinv Hf Hroom H31; pose proof Hinv as (Hlit & Hip & _);
    cbn [lzf_tail].
  - rewrite (proj2 (Z.ltb_ge _ _)) by lia. exists op, lit, out, ts. split; [done |].
    replace (zlen inp) with ip by lia. split; [done |]. split; [| done]. revert Hroom. case_if; lia.
  - destruct (Z.ltb_spec ip (zlen inp)).
    2:{ exists op, lit, out, ts. split; [done |]. replace (zlen inp) with ip by lia. split; [done |].
        split; [| done]. revert Hroom. case_if; lia. }
    destruct (literal_inv _ _ _ _ _ _ Hinv) as (b & out1 & Eb & Ew & El & Hrest); [lia | revert Hroom; case_if; lia |].
    rewrite Eb. cbn [mbind option_bind]. rewrite Ew. cbn [mbind option_bind]. change MAX_LIT with 32 in *.
    destruct (Z.eqb_spec (lit + 1) 32).
    + destruct Hrest as (out2 & Ew2 & El2 & ts' & Hinv'). rewrite Ew2. cbn [mbind option_bind].
      destruct (IH _ _ _ _ _ Hinv') as (op' & lit' & out' & ts2 & E & H1 & H2 & H3).
      * lia.
      * revert Hroom. rewrite El2. repeat case_if; lia.
      * lia.
      * exists op', lit', out', ts2. split; [exact E |]. split; [exact H1 |]. split; [exact H2 | lia].
    + destruct (IH _ _ _ _ _ Hrest) as (op' & lit' & out' & ts2 & E & H1 & H2 & H3).
      * lia.
      * revert Hroom. rewrite El. repeat case_if; lia.
      * lia.
      * exists op', lit', out', ts2. split; [exact E |]. split; [exact H1 |]. split; [exact H2 | lia].
Qed.

Lemma compress_spec inp out htab : 2 <= zlen inp < 2 ^ 62 -> htab_ok htab ->
  exists n out', lzf_compress inp out htab = Some (n, out') /\ zlen out' = zlen out /\
    (n = 0 \/ exists ts sl, out' = enc_toks ts ++ sl /\ n = zlen (enc_toks ts) /\ toks_ok [] ts /\
      apply_toks [] ts = inp).
Proof.
  intros Hin Hh. unfold lzf_compress. destruct (Z.eqb_spec (zlen inp) 0); [lia |]. cbn [orb].
  destruct (Z.eqb_spec (zlen out) 0) as [| Hout]; [exists 0, out; split; [done |]; split; [done | by left] |].
  pose proof (zlen_nonneg out). unfold FRST.
  destruct (rd_is_Some' inp 0) as [b0 ->]; [lia |]. destruct (rd_is_Some' inp (0 + 1)) as [b1 ->]; [lia |].
  cbn [mbind option_bind]. set (hv := Z.lor _ b1).
  destruct (loop_spec inp (zlen out) (length inp) (LzfSt 0 1 0 hv htab out)) as (r & Er & Hr).
  { split; [exact Hh |]. split; [done |]. exists []. cbn [c_ip c_op c_lit c_out].
    split; [lia |]. split; [lia |]. split; [exact I |]. split; [done |]. split; [done |]. right.
    destruct out as [| h sl]; [done |]. exists h, [], sl. split; [done |]. apply rdn_lookup.
    rewrite (@zlen_nil Z). split; [lia |]. split; [lia |]. split; [lia |]. split; [done |]. lia. }
  { cbn [c_ip]. lia. }
  { cbn [c_ip]. unfold zlen. lia. }
  { lia. }
  rewrite Er. cbn [mbind option_bind]. destruct r as [o | st | st]; [| | done].
  { exists 0, o. split; [done |]. split; [exact Hr | by left]. }
  destruct Hr as [(_ & Hlen & ts & Hinv) Hip].
  destruct (Z.ltb_spec (zlen (c_out st)) (c_op st + 3));
    [exists 0, (c_out st); split; [done |]; split; [done | by left] |].
  pose proof Hinv as (Hlit & Hip' & _).
  destruct (tail_spec inp (length inp) (c_ip st) (c_op st) (c_lit st) (c_out st) ts Hinv)
    as (op' & lit' & out' & ts' & Et & Hinv' & Hop' & Hl').
  { unfold zlen. lia. }
  { case_if; lia. }
  { lia. }
  rewrite Et. cbn [mbind option_bind].
  destruct (stop_run _ _ _ _ _ _ Hinv' Hop') as (out1 & ts2 & sl & Ew & E1 & El1 & Eop & Hok & Happ).
  rewrite Ew. cbn [mbind option_bind]. eexists _, out1. split; [reflexivity |]. split; [lia |]. right.
  exists ts2, sl. split; [done |]. split; [done |]. split; [done |].
  rewrite Happ. apply take_ge. unfold zlen. lia.
Qed.

(** * The decompressor on arbitrary input *)

Lemma lzf_copy_total k : forall out op ref, 0 <= ref < op -> op + Z.of_nat k <= zlen out ->
  exists out', lzf_copy k out op ref = Some out' /\ zlen out' = zlen out.
Proof.
  induction k as [| k IH]; intros out op ref Hr Hb; cbn [lzf_copy]; [by exists out |].
  destruct (rd_is_Some' out ref) as [b ->]; [lia |]. cbn [mbind option_bind].
  destruct (wrn_is_Some out op [b]) as [o Eo]; [lia | change (zlen [b]) with 1; lia |].
  rewrite Eo. cbn [mbind option_bind]. pose proof (wrn_length _ _ _ _ Eo).
  destruct (IH o (op + 1) (ref + 1)) as (out' & E & H2); [lia | lia |]. exists out'. split; [exact E | lia].
Qed.

Lemma lzf_copy_ref_total out op ref len : 0 <= ref < op -> 0 <= len -> op + len + 2 <= zlen out ->
  exists out', lzf_copy_ref out op ref len = Some out' /\ zlen out' = zlen out.
Proof.
  intros Hr Hl Hb. unfold lzf_copy_ref. destruct (len <=? 9); [apply lzf_copy_total; lia |].
  destruct (Z.leb_spec (ref + (len + 2)) op); [| apply lzf_copy_total; lia].
  destruct (rdn_is_Some out ref (len + 2)) as [bs E]; [lia.. |]. rewrite E. cbn [mbind option_bind].
  pose proof (rdn_length _ _ _ _ E).
  destruct (wrn_is_Some out op bs) as [o Eo]; [lia.. |]. exists o. split; [exact Eo | exact (wrn_length _ _ _ _ Eo)].
Qed.

Lemma rd_byte m i b : bytes m -> rd m i = Some b -> byte b.
Proof.
  intros Hm E. unfold rd in E. destruct (0 <=? i); [| done]. exact (Forall_lookup_1 _ _ _ _ Hm E).
Qed.

Lemma decompress_loop_total inp fuel : bytes inp -> forall ip out op, 0 <= ip -> 0 <= op <= zlen out ->
  zlen inp - ip <= Z.of_nat fuel ->
  exists r out', lzf_decompress_loop fuel inp ip out op = Some (r, out') /\ zlen out' = zlen out /\
    match r with LzfSize n => 0 <= n <= zlen out | _ => True end.
Proof.
  intros Hb. induction fuel as [| fuel IH]; intros ip out op Hip Hop Hf; cbn [lzf_decompress_loop].
  { rewrite (proj2 (Z.ltb_ge _ _)) by lia. by exists (LzfSize op), out. }
  destruct (Z.ltb_spec ip (zlen inp)); [| by exists (LzfSize op), out].
  destruct (rd_is_Some' inp ip) as [ctrl Ec]; [lia |]. rewrite Ec. cbn [mbind option_bind].
  pose proof (rd_byte _ _ _ Hb Ec) as Hc. unfold byte in Hc. change (Z.shiftl 1 5) with 32.
  destruct (Z.ltb_spec ctrl 32).
  - destruct (Z.ltb_spec (zlen out) (op + (ctrl + 1))); [by exists LzfE2BIG, out |].
    destruct (Z.ltb_spec (zlen inp) (ip + 1 + (ctrl + 1))); [by exists LzfEINVAL, out |].
    destruct (rdn_is_Some inp (ip + 1) (ctrl + 1)) as [bs Eb]; [lia.. |]. rewrite Eb. cbn [mbind option_bind].
    pose proof (rdn_length _ _ _ _ Eb). destruct (wrn_is_Some out op bs) as [o Eo]; [lia.. |].
    rewrite Eo. cbn [mbind option_bind]. pose proof (wrn_length _ _ _ _ Eo) as El.
    destruct (IH (ip + 1 + (ctrl + 1)) o (op + (ctrl + 1))) as (r & out' & E & Hr1 & Hr2); [lia.. |].
    rewrite El in *. eauto.
  - destruct (Z.leb_spec (zlen inp) (ip + 1)); [by exists LzfEINVAL, out |]. bits_to_arith.
    assert (exists r, (if ctrl / 32 =? 7
      then b ← rd inp (ip + 1); Some (if zlen inp <=? ip + 1 + 1 then None else Some (ctrl / 32 + b, ip + 1 + 1))
      else Some (Some (ctrl / 32, ip + 1))) = Some r /\
      match r with None => True | Some (len, ip') => 1 <= len /\ ip + 1 <= ip' < zlen inp end) as (r & -> & Hr).
    { destruct (ctrl / 32 =? 7).
      - destruct (rd_is_Some' inp (ip + 1)) as [b Eb]; [lia |]. rewrite Eb. cbn [mbind option_bind].
        pose proof (rd_byte _ _ _ Hb Eb) as Hbb. unfold byte in Hbb.
        eexists. split; [reflexivity |]. case_if; [done |]. split; [dm | lia].
      - eexists. split; [reflexivity |]. split; [dm | lia]. }
    cbn [mbind option_bind]. destruct r as [[len ip'] |]; [| by exists LzfEINVAL, out].
    destruct Hr as [Hl Hip']. destruct (rd_is_Some' inp ip') as [b Eb]; [lia |]. rewrite Eb. cbn [mbind option_bind].
    pose proof (rd_byte _ _ _ Hb Eb) as Hbb. unfold byte in Hbb.
    destruct (Z.ltb_spec (zlen out) (op + len + 2)); [by exists LzfE2BIG, out |].
    destruct (Z.ltb_spec (op - ctrl mod 32 * 256 - 1 - b) 0); [by exists LzfEINVAL, out |].
    destruct (lzf_copy_ref_total out op (op - ctrl mod 32 * 256 - 1 - b) len) as (o & Eo & El); [dm | lia | lia |].
    rewrite Eo. cbn [mbind option_bind].
    destruct (IH (ip' + 1) o (op + len + 2)) as (r & out' & E & Hr1 & Hr2); [lia.. |]. rewrite El in *. eauto.
Qed.

(** * Claims *)

Lemma lzf_inverse inp out htab : 2 <= zlen inp < 2 ^ 62 -> htab_ok htab ->
  exists n out', lzf_compress inp out htab = Some (n, out') /\ zlen out' = zlen out /\ 0 <= n <= zlen out /\
    (n <> 0 -> forall buf, zlen inp <= zlen buf ->
       exists rest, lzf_decompress (take (Z.to_nat n) out') buf = Some (LzfSize (zlen inp), inp ++ rest) /\
         zlen (inp ++ rest) = zlen buf).
Proof.
  intros Hin Hh. destruct (compress_spec inp out htab Hin Hh) as (n & out' & E & El & Hn).
  exists n, out'. split; [exact E |]. split; [exact El |].
  destruct Hn as [-> | (ts & sl & -> & -> & Hok & Happ)]; [split; [pose proof (zlen_nonneg out); lia | done] |].
  rewrite zlen_app in El. pose proof (zlen_nonneg (enc_toks ts)). pose proof (zlen_nonneg sl).
  split; [lia |]. intros _ buf Hbuf. unfold zlen at 1. rewrite Nat2Z.id, take_app_length.
  destruct (decompress_enc ts buf Hok) as (s' & Ed & Hs); rewrite Happ in *; [done | eauto].
Qed.

(** C32: compression is lossless: for every input of at least two bytes, every
    output buffer and whatever the uninitialised hash table holds, the
    compressor never leaves its buffers and either gives up (returns 0) or
    returns a size such that the decompressor, given that many bytes and a
    buffer that is large enough, produces the input and reports its length. *)
Theorem lzf_roundtrip inp out htab : 2 <= zlen inp < 2 ^ 62 -> htab_ok htab ->
  exists n out', lzf_compress inp out htab = Some (n, out') /\ zlen out' = zlen out /\ 0 <= n <= zlen out /\
    (n <> 0 -> forall buf, zlen inp <= zlen buf ->
       exists rest, lzf_decompress (take (Z.to_nat n) out') buf = Some (LzfSize (zlen inp), inp ++ rest) /\
         zlen (inp ++ rest) = zlen buf).
Proof. apply lzf_inverse. Qed.

Lemma lzf_decompress_total inp out : bytes inp ->
  exists r out', lzf_decompress inp out = Some (r, out') /\ zlen out' = zlen out /\
    match r with LzfSize n => 0 <= n <= zlen out | LzfE2BIG | LzfEINVAL => True end.
Proof.
  intros Hb. pose proof (zlen_nonneg out).
  destruct (decompress_loop_total inp (length inp) Hb 0 out 0) as (r & out' & E & H1 & H2);
    [lia | lia | unfold zlen; lia |]. exists r, out'. split; [exact E |]. split; [exact H1 |]. destruct r; done.
Qed.

(** C34: decompression of arbitrary (corrupt) input terminates without reading
    or writing outside the buffers, with a size within the output buffer or an
    error. *)
Theorem lzf_decompress_safe inp out : bytes inp ->
  exists r out', lzf_decompress inp out = Some (r, out') /\ zlen out' = zlen out /\
    match r with LzfSize n => 0 <= n <= zlen out | LzfE2BIG | LzfEINVAL => True end.
Proof. apply lzf_decompress_total. Qed.

(** * Witnesses *)

Lemma lzf_roundtrip_witness :
  2 <= zlen lzf_ex_in < 2 ^ 62 /\
  exists n out', lzf_compress lzf_ex_in (repeat 0 53) (fun _ => -1000) = Some (n, out') /\ zlen out' = 53 /\
    0 <= n <= 53.
Proof.
  assert (2 <= zlen lzf_ex_in < 2 ^ 62) as Hz by (change (zlen lzf_ex_in) with 53; lia). split; [exact Hz |].
  assert (htab_ok (fun _ => -1000)) as Hh by (intros i; lia).
  destruct (lzf_roundtrip lzf_ex_in (repeat 0 53) (fun _ => -1000) Hz Hh) as (n & out' & E & El & Hn & _).
  exists n, out'. split; [exact E |]. split; [exact El | exact Hn].
Defined.

Lemma lzf_decompress_safe_witness :
  bytes [64; 0] /\ exists r out', lzf_decompress [64; 0] (repeat 0 8) = Some (r, out') /\ zlen out' = 8.
Proof.
  assert (bytes [64; 0]) as Hb by (forall_lit ltac:(unfold byte; lia)). split; [exact Hb |].
  destruct (lzf_decompress_safe [64; 0] (repeat 0 8) Hb) as (r & out' & E & El & _).
  exists r, out'. split; [exact E | exact El].
Defined.
