(* ===== verification/Pqsort.v ===== *)
(** pqsort.c: the quicksort of Bentley and McIlroy, changed to sort only what
    is needed for the elements of a range of positions to be in place.

    The array is a block of bytes at the address [addr], elements are [es]
    bytes long and a pointer is an offset in the block.  The comparison is any
    function of the bytes of two elements.  Loops take fuel. *)
From S2P Require Import Prelude.

Section pqsort.
Context (addr es : Z) (cmp : list Z -> list Z -> Z).

Definition cmp_at (mem : list Z) (p q : Z) : option Z :=
  x ← rdn mem p es; y ← rdn mem q es; Some (cmp x y).

(** [swapcode(TYPE,parmi,parmj,n)] for a type of [sz] bytes: a do-while loop
    of [i] turns. *)
Fixpoint swapcode (sz : Z) (i : nat) (pi pj : Z) (mem : list Z) : option (list Z) :=
  match i with
  | O => None
  | S i =>
      t ← rdn mem pi sz;
      u ← rdn mem pj sz;
      mem ← wrn mem pi u;
      mem ← wrn mem pj t;
      match i with O => Some mem | S _ => swapcode sz i (pi + sz) (pj + sz) mem end
  end.

Definition SWAPINIT (a : Z) : Z :=
  if negb ((addr + a) mod 8 =? 0) || negb (es mod 8 =? 0) then 2 else if es =? 8 then 0 else 1.

Definition swapfunc (a b n swaptype : Z) (mem : list Z) : option (list Z) :=
  let sz := if swaptype <=? 1 then 8 else 1 in
  swapcode sz (Z.to_nat (n / sz)) a b mem.

Definition swap (a b swaptype : Z) (mem : list Z) : option (list Z) :=
  if swaptype =? 0 then swapcode 8 1 a b mem else swapfunc a b es swaptype mem.

Definition vecswap (a b n swaptype : Z) (mem : list Z) : option (list Z) :=
  if 0 <? n then swapfunc a b n swaptype mem else Some mem.

Definition med3 (a b c : Z) (mem : list Z) : option Z :=
  ab ← cmp_at mem a b;
  bc ← cmp_at mem b c;
  ac ← cmp_at mem a c;
  Some (if ab <? 0 then (if bc <? 0 then b else if ac <? 0 then c else a)
        else (if 0 <? bc then b else if ac <? 0 then a else c)).

(** ** Insertion sort *)

Fixpoint sift (fuel : nat) (a pl swaptype : Z) (mem : list Z) : option (list Z) :=
  match fuel with
  | O => None
  | S fuel =>
      if a <? pl then
        c ← cmp_at mem (pl - es) pl;
        if 0 <? c then
          mem ← swap pl (pl - es) swaptype mem;
          sift fuel a (pl - es) swaptype mem
        else Some mem
      else Some mem
  end.

Fixpoint insertion (fuel : nat) (a n pm swaptype : Z) (mem : list Z) : option (list Z) :=
  match fuel with
  | O => None
  | S fuel =>
      if pm <? a + n * es then
        mem ← sift (Z.to_nat n) a pm swaptype mem;
        insertion fuel a n (pm + es) swaptype mem
      else Some mem
  end.

(** ** Partition *)

(** The pivot of [n >= 7] elements: the middle one, the median of three or of
    nine. *)
Definition choose_pivot (a n : Z) (mem : list Z) : option Z :=
  let pm := a + n / 2 * es in
  if 7 <? n then
    let pl := a in
    let pn := a + (n - 1) * es in
    if 40 <? n then
      let d := n / 8 * es in
      pl ← med3 pl (pl + d) (pl + 2 * d) mem;
      pm ← med3 (pm - d) pm (pm + d) mem;
      pn ← med3 (pn - 2 * d) (pn - d) pn mem;
      med3 pl pm pn mem
    else med3 pl pm pn mem
  else Some pm.

Record part_state := Part { pa : Z; pb : Z; pc : Z; pd : Z; arr : list Z }.

(** The two inner loops, from the left and from the right. *)
Fixpoint left_scan (fuel : nat) (a swaptype : Z) (st : part_state) : option part_state :=
  match fuel with
  | O => None
  | S fuel =>
      if pb st <=? pc st then
        cmp_result ← cmp_at (arr st) (pb st) a;
        if cmp_result <=? 0 then
          if cmp_result =? 0 then
            mem ← swap (pa st) (pb st) swaptype (arr st);
            left_scan fuel a swaptype (Part (pa st + es) (pb st + es) (pc st) (pd st) mem)
          else left_scan fuel a swaptype (Part (pa st) (pb st + es) (pc st) (pd st) (arr st))
        else Some st
      else Some st
  end.

Fixpoint right_scan (fuel : nat) (a swaptype : Z) (st : part_state) : option part_state :=
  match fuel with
  | O => None
  | S fuel =>
      if pb st <=? pc st then
        cmp_result ← cmp_at (arr st) (pc st) a;
        if 0 <=? cmp_result then
          if cmp_result =? 0 then
            mem ← swap (pc st) (pd st) swaptype (arr st);
            right_scan fuel a swaptype (Part (pa st) (pb st) (pc st - es) (pd st - es) mem)
          else right_scan fuel a swaptype (Part (pa st) (pb st) (pc st - es) (pd st) (arr st))
        else Some st
      else Some st
  end.

Fixpoint partition_loop (fuel : nat) (a n swaptype : Z) (st : part_state) : option part_state :=
  match fuel with
  | O => None
  | S fuel =>
      st ← left_scan (S (Z.to_nat n)) a swaptype st;
      st ← right_scan (S (Z.to_nat n)) a swaptype st;
      if pc st <? pb st then Some st
      else
        mem ← swap (pb st) (pc st) swaptype (arr st);
        partition_loop fuel a n swaptype (Part (pa st) (pb st + es) (pc st - es) (pd st) mem)
  end.

(** The elements equal to the pivot are moved from both ends to the middle. *)
Definition gather (a n swaptype : Z) (st : part_state) : option (list Z) :=
  let pn := a + n * es in
  let r := if pa st - a <? pb st - pa st then pa st - a else pb st - pa st in
  mem ← vecswap a (pb st - r) r swaptype (arr st);
  let r := if pd st - pc st <? pn - pd st - es then pd st - pc st else pn - pd st - es in
  vecswap (pb st) (pn - r) r swaptype mem.

(** Whether the bytes from [_l] on are away from the wanted range. *)
Definition outside (_l r lrange rrange : Z) : bool :=
  let _r := _l + r - 1 in
  (lrange <? _l) && (rrange <? _l) || (_r <? lrange) && (_r <? rrange).

Fixpoint _pqsort (fuel : nat) (a n lrange rrange : Z) (mem : list Z) : option (list Z) :=
  match fuel with
  | O => None
  | S fuel =>
      let swaptype := SWAPINIT a in
      if n <? 7 then insertion (S (Z.to_nat n)) a n (a + es) swaptype mem
      else
        pm ← choose_pivot a n mem;
        mem ← swap a pm swaptype mem;
        st ← partition_loop (Z.to_nat n) a n swaptype (Part (a + es) (a + es) (a + (n - 1) * es) (a + (n - 1) * es) mem);
        mem ← gather a n swaptype st;
        let pn := a + n * es in
        let r := pb st - pa st in
        mem ← (if (es <? r) && negb (outside a r lrange rrange) then _pqsort fuel a (r / es) lrange rrange mem else Some mem);
        let r := pd st - pc st in
        if (es <? r) && negb (outside (pn - r) r lrange rrange) then _pqsort fuel (pn - r) (r / es) lrange rrange mem else Some mem
  end.

(** [lrange] and [rrange] are positions of elements; the products are those of
    [size_t], which do not wrap below 2^64, as for positions in the array. *)
Definition pqsort (n lrange rrange : Z) (mem : list Z) : option (list Z) :=
  _pqsort (S (Z.to_nat n)) 0 n (lrange * es) ((rrange + 1) * es - 1) mem.
End pqsort.

Example pqsort_ex :
  let l := map (fun i => i * 37 mod 64) (seqZ 0 64) in
  pqsort 0 4 (fun x y => nth 3 x 0 - nth 3 y 0) 64 0 63 (concat (map (fun n => [0; 0; 0; n]) l)) = Some (concat (map (fun n => [0; 0; 0; n]) (seqZ 0 64))).
Proof. vm_compute. reflexivity. Qed.
