(* ===== verification/PqsortThms.v ===== *)
(** pqsort.c: the array ends as a permutation with the elements of the wanted
    positions in their sorted places.  The whole sort runs inside the array for
    any comparison, keeps its elements, and puts the wanted positions in order
    when the comparison is an order. *)
From stdpp Require Import sorting.
From S2P Require Import Prelude Pqsort.

(** What a comparison function promises. *)
Class Comparison {A : Type} (cmp : A -> A -> Z) : Prop := {
  cmp_sym x y : 0 < cmp x y <-> cmp y x < 0;
  cmp_trans x y z : cmp x y <= 0 -> cmp y z <= 0 -> cmp x z <= 0 }.

Section memory.
Context (addr es : Z) (cmp : list Z -> list Z -> Z) (Hes : 0 < es).
Notation elts := (Forall (fun x : list Z => zlen x = es)).

Lemma zlen_concat l : elts l -> zlen (concat l) = es * zlen l.
Proof. induction 1 as [| x l Hx Hl IH]; cbn [concat]; autorewrite with zlen; [lia |]. rewrite IH, Hx. lia. Qed.

(** Reading and comparing elements. *)
Lemma read_elt (A C : list Z) l1 x l2 p : elts l1 -> zlen x = es -> p = zlen A + es * zlen l1 -> rdn (A ++ concat (l1 ++ x :: l2) ++ C) p es = Some x.
Proof.
  intros Hl Hx ->. rewrite concat_app. cbn [concat]. replace (A ++ (concat l1 ++ x ++ concat l2) ++ C) with ((A ++ concat l1) ++ x ++ (concat l2 ++ C)) by (by rewrite <- !app_assoc).
  apply rdn_app; [rewrite zlen_app, zlen_concat by done; done | done].
Qed.

Lemma read_nth (A C : list Z) l i : elts l -> 0 <= i < zlen l -> exists x, x ∈ l /\ rdn (A ++ concat l ++ C) (zlen A + es * i) es = Some x.
Proof.
  intros Hl Hi. destruct (lookup_lt_is_Some_2 l (Z.to_nat i)) as [x Hx]; [unfold zlen in Hi; lia |]. exists x. split; [by eapply list_elem_of_lookup_2 |].
  pose proof (list_elem_of_split_length _ _ _ Hx) as (l1 & l2 & -> & Hlen). apply Forall_app in Hl as [Hl1 [Hxe _]%Forall_cons].
  apply read_elt; [done | done |]. unfold zlen. lia.
Qed.

Lemma cmp_elts (A C : list Z) l1 x l2 k1 y k2 p q : elts l1 -> zlen x = es -> elts k1 -> zlen y = es -> l1 ++ x :: l2 = k1 ++ y :: k2 ->
  p = zlen A + es * zlen l1 -> q = zlen A + es * zlen k1 -> cmp_at es cmp (A ++ concat (l1 ++ x :: l2) ++ C) p q = Some (cmp x y).
Proof.
  intros Hl Hx Hk Hy E Hp Hq. unfold cmp_at. rewrite (read_elt A C l1 x l2 p Hl Hx Hp), E, (read_elt A C k1 y k2 q Hk Hy Hq). done.
Qed.

(** ** Exchanging blocks *)

Definition swap1 (sz pi pj : Z) (mem : list Z) : option (list Z) :=
  t ← rdn mem pi sz; u ← rdn mem pj sz; mem ← wrn mem pi u; wrn mem pj t.

Lemma swapcode_1 sz p q M : swapcode sz 1 p q M = swap1 sz p q M.
Proof.
  unfold swap1. cbn [swapcode]. destruct (rdn M p sz) as [t |]; [cbn [mbind option_bind] | done]. destruct (rdn M q sz) as [u |]; [cbn [mbind option_bind] | done].
  destruct (wrn M p u) as [M1 |]; [cbn [mbind option_bind] | done]. by destruct (wrn M1 q t).
Qed.
Lemma swapcode_S sz i p q M : swapcode sz (S (S i)) p q M = (M ← swap1 sz p q M; swapcode sz (S i) (p + sz) (q + sz) M).
Proof.
  unfold swap1. change (swapcode sz (S (S i)) p q M) with
    (t ← rdn M p sz; u ← rdn M q sz; M ← wrn M p u; M ← wrn M q t; swapcode sz (S i) (p + sz) (q + sz) M).
  generalize (swapcode sz (S i) (p + sz) (q + sz)). intros f.
  destruct (rdn M p sz) as [t |]; [cbn [mbind option_bind] | done]. destruct (rdn M q sz) as [u |]; [cbn [mbind option_bind] | done].
  by destruct (wrn M p u) as [M1 |].
Qed.

Lemma swap1_ok sz A X B Y C : zlen X = sz -> zlen Y = sz ->
  let p := zlen A in let q := zlen A + zlen X + zlen B in
  swap1 sz p q (A ++ X ++ B ++ Y ++ C) = Some (A ++ Y ++ B ++ X ++ C) /\
  swap1 sz q p (A ++ X ++ B ++ Y ++ C) = Some (A ++ Y ++ B ++ X ++ C).
Proof.
  intros HX HY p q. unfold swap1.
  assert (rdn (A ++ X ++ B ++ Y ++ C) p sz = Some X) as -> by (apply rdn_app; unfold p; lia).
  assert (rdn (A ++ X ++ B ++ Y ++ C) q sz = Some Y) as ->.
  { replace (A ++ X ++ B ++ Y ++ C) with ((A ++ X ++ B) ++ Y ++ C) by (by rewrite <- !app_assoc). apply rdn_app; unfold q; autorewrite with zlen; lia. }
  cbn [mbind option_bind].
  assert (forall Z', wrn (A ++ X ++ B ++ Z' ++ C) p Y = Some (A ++ Y ++ B ++ Z' ++ C)) as Hp by (intros; apply wrn_app; unfold p; lia).
  assert (forall Z', zlen Z' = zlen X -> wrn (A ++ Z' ++ B ++ Y ++ C) q X = Some (A ++ Z' ++ B ++ X ++ C)) as Hq.
  { intros Z' HZ. replace (A ++ Z' ++ B ++ Y ++ C) with ((A ++ Z' ++ B) ++ Y ++ C) by (by rewrite <- !app_assoc).
    rewrite (wrn_app _ Y X C) by (unfold q; autorewrite with zlen; lia). by rewrite <- !app_assoc. }
  rewrite Hp, (Hq X eq_refl). cbn [mbind option_bind]. rewrite Hp, Hq by lia. done.
Qed.

Lemma swapcode_ok sz i : 0 < sz -> forall A X B Y C : list Z, zlen X = sz * Z.of_nat (S i) -> zlen Y = sz * Z.of_nat (S i) ->
  let p := zlen A in let q := zlen A + zlen X + zlen B in
  swapcode sz (S i) p q (A ++ X ++ B ++ Y ++ C) = Some (A ++ Y ++ B ++ X ++ C) /\
  swapcode sz (S i) q p (A ++ X ++ B ++ Y ++ C) = Some (A ++ Y ++ B ++ X ++ C).
Proof.
  intros Hsz. induction i as [| i IH]; intros A X B Y C HX HY p q.
  - rewrite !swapcode_1. apply swap1_ok; lia.
  - destruct (zlen_split_prefix X sz ltac:(lia)) as (X0 & X1 & -> & HX0). destruct (zlen_split_prefix Y sz ltac:(lia)) as (Y0 & Y1 & -> & HY0).
    rewrite zlen_app in HX, HY. rewrite !swapcode_S.
    destruct (swap1_ok sz A X0 (X1 ++ B) Y0 (Y1 ++ C) HX0 HY0) as [E1 E2].
    destruct (IH (A ++ Y0) X1 (B ++ X0) Y1 C ltac:(lia) ltac:(lia)) as [F1 F2].
    assert (q = zlen A + zlen X0 + zlen (X1 ++ B)) as Eq by (unfold q; autorewrite with zlen; lia).
    assert (p + sz = zlen (A ++ Y0)) as Ep1 by (unfold p; autorewrite with zlen; lia).
    assert (q + sz = zlen (A ++ Y0) + zlen X1 + zlen (B ++ X0)) as Eq1 by (unfold q; autorewrite with zlen; lia).
    rewrite <- !app_assoc in *. rewrite Ep1, Eq1, Eq. change p with (zlen A) in *. rewrite E1, E2. cbn [mbind option_bind]. rewrite F1, F2. done.
Qed.

Lemma swapcode_same sz i : 0 < sz -> forall A X C : list Z, zlen X = sz * Z.of_nat (S i) ->
  swapcode sz (S i) (zlen A) (zlen A) (A ++ X ++ C) = Some (A ++ X ++ C).
Proof.
  intros Hsz. induction i as [| i IH]; intros A X C HX.
  - rewrite swapcode_1. unfold swap1. rewrite (rdn_app A X C) by lia. cbn [mbind option_bind]. rewrite (wrn_app A X X C) by done. cbn [mbind option_bind]. by apply wrn_app.
  - destruct (zlen_split_prefix X sz ltac:(lia)) as (X0 & X1 & -> & HX0). rewrite zlen_app in HX. rewrite swapcode_S. unfold swap1. rewrite <- !app_assoc.
    rewrite (rdn_app A X0 (X1 ++ C)) by done. cbn [mbind option_bind]. rewrite (wrn_app A X0 X0) by done. cbn [mbind option_bind]. rewrite (wrn_app A X0 X0) by done.
    cbn [mbind option_bind]. pose proof (IH (A ++ X0) X1 C ltac:(lia)) as E. rewrite zlen_app, HX0, <- !app_assoc in E. exact E.
Qed.

(** What SWAPINIT makes sure of. *)
Definition swaptype_ok (st : Z) : Prop := (st <= 1 -> es mod 8 = 0) /\ (st = 0 -> es = 8).

Lemma SWAPINIT_ok a : swaptype_ok (SWAPINIT addr es a).
Proof.
  unfold SWAPINIT, swaptype_ok. destruct (Z.eqb_spec ((addr + a) mod 8) 0), (Z.eqb_spec (es mod 8) 0), (Z.eqb_spec es 8); cbn [negb orb]; lia.
Qed.

Context (st : Z) (Hst : swaptype_ok st).

Lemma swap_turns n : 0 < n -> (exists k, n = es * k) -> exists sz i, 0 < sz /\ n = sz * Z.of_nat (S i) /\
  forall a b M, swapfunc a b n st M = swapcode sz (S i) a b M.
Proof.
  intros Hn [k ->]. unfold swapfunc. destruct Hst as [H8 _]. destruct (Z.leb_spec st 1) as [Hle | Hgt].
  - exists 8, (pred (Z.to_nat (es * k / 8))). assert (es * k = 8 * (es * k / 8)) as E.
    { apply Z_div_exact_full_2; [done |]. rewrite Z.mul_mod, H8 by lia. done. }
    split; [done |]. assert (0 < es * k / 8) by lia. split; [lia |]. intros. f_equal. lia.
  - exists 1, (pred (Z.to_nat (es * k))). split; [done |]. split; [lia |]. intros. rewrite Z.div_1_r. f_equal. lia.
Qed.

Lemma swapfunc_ok n A X B Y C p q : 0 < n -> (exists k, n = es * k) -> zlen X = n -> zlen Y = n -> p = zlen A -> q = zlen A + n + zlen B ->
  swapfunc p q n st (A ++ X ++ B ++ Y ++ C) = Some (A ++ Y ++ B ++ X ++ C) /\
  swapfunc q p n st (A ++ X ++ B ++ Y ++ C) = Some (A ++ Y ++ B ++ X ++ C).
Proof.
  intros Hn Hk HX HY -> ->. destruct (swap_turns n Hn Hk) as (sz & i & Hsz & E & Hf). rewrite !Hf.
  replace n with (zlen X) at 1 2. apply swapcode_ok; lia.
Qed.

Lemma swap_elts A C l1 x m y l2 p q : elts (l1 ++ x :: m ++ y :: l2) -> p = zlen A + es * zlen l1 -> q = p + es * (1 + zlen m) ->
  swap es p q st (A ++ concat (l1 ++ x :: m ++ y :: l2) ++ C) = Some (A ++ concat (l1 ++ y :: m ++ x :: l2) ++ C) /\
  swap es q p st (A ++ concat (l1 ++ x :: m ++ y :: l2) ++ C) = Some (A ++ concat (l1 ++ y :: m ++ x :: l2) ++ C).
Proof.
  intros Hl Hp Hq. apply Forall_app in Hl as [Hl1 [Hx [Hm [Hy Hl2]%Forall_cons]%Forall_app]%Forall_cons].
  assert (forall u v, A ++ concat (l1 ++ u :: m ++ v :: l2) ++ C = (A ++ concat l1) ++ u ++ concat m ++ v ++ (concat l2 ++ C)) as Er.
  { intros. rewrite concat_app. cbn [concat]. rewrite concat_app. cbn [concat]. by rewrite <- !app_assoc. }
  rewrite !Er. pose proof (zlen_concat l1 Hl1) as E1. pose proof (zlen_concat m Hm) as E2.
  assert (forall n, n = es -> swapfunc p q n st ((A ++ concat l1) ++ x ++ concat m ++ y ++ (concat l2 ++ C)) = Some ((A ++ concat l1) ++ y ++ concat m ++ x ++ (concat l2 ++ C)) /\
    swapfunc q p n st ((A ++ concat l1) ++ x ++ concat m ++ y ++ (concat l2 ++ C)) = Some ((A ++ concat l1) ++ y ++ concat m ++ x ++ (concat l2 ++ C))) as Hf.
  { intros n ->. apply swapfunc_ok; [done | exists 1; lia | done | done | |]; autorewrite with zlen; lia. }
  unfold swap. destruct (Z.eqb_spec st 0) as [E0 | E0]; [| by apply Hf].
  destruct Hst as [_ H8]. specialize (H8 E0). specialize (Hf 8 ltac:(lia)). unfold swapfunc in Hf. rewrite E0 in Hf. exact Hf.
Qed.

Lemma swap_self A C l1 x l2 p : elts (l1 ++ x :: l2) -> p = zlen A + es * zlen l1 ->
  swap es p p st (A ++ concat (l1 ++ x :: l2) ++ C) = Some (A ++ concat (l1 ++ x :: l2) ++ C).
Proof.
  intros Hl Hp. apply Forall_app in Hl as [Hl1 [Hx Hl2]%Forall_cons].
  assert (A ++ concat (l1 ++ x :: l2) ++ C = (A ++ concat l1) ++ x ++ (concat l2 ++ C)) as ->.
  { rewrite concat_app. cbn [concat]. by rewrite <- !app_assoc. }
  assert (p = zlen (A ++ concat l1)) as -> by (rewrite zlen_app, zlen_concat by done; done).
  unfold swap. destruct (Z.eqb_spec st 0) as [E0 | E0].
  - destruct Hst as [_ H8]. apply (swapcode_same 8 0); [done |]. rewrite Hx. specialize (H8 E0). lia.
  - destruct (swap_turns es Hes ltac:(exists 1; lia)) as (sz & i & Hsz & E & Hf). rewrite Hf. apply swapcode_same; lia.
Qed.

(** Two neighbouring blocks of elements: the smaller one is exchanged with the
    far end of the other. *)
Lemma vecswap_blocks A C X Y a b r : elts X -> elts Y -> a = zlen A -> b = a + es * (zlen X + zlen Y) ->
  r = es * Z.min (zlen X) (zlen Y) ->
  exists X' Y', vecswap a (b - r) r st (A ++ concat (X ++ Y) ++ C) = Some (A ++ concat (Y' ++ X') ++ C) /\ X' ≡ₚ X /\ Y' ≡ₚ Y.
Proof.
  intros HX HY Ha Hb Hr. unfold vecswap. pose proof (zlen_nonneg X). pose proof (zlen_nonneg Y). destruct (Z.ltb_spec 0 r) as [Hpos | Hz]; cycle 1.
  { assert (X = [] \/ Y = []) as [-> | ->].
    { destruct X; [by left |]. destruct Y; [by right |]. rewrite !zlen_cons in *. pose proof (zlen_nonneg X). pose proof (zlen_nonneg Y). nia. }
    - exists [], Y. by rewrite app_nil_r.
    - exists X, []. rewrite app_nil_r. by split. }
  assert (exists X1 X2 Y1 Y2, X = X1 ++ X2 /\ Y = Y1 ++ Y2 /\ es * zlen X1 = r /\ es * zlen Y2 = r /\ (X2 = [] \/ Y1 = [])) as (X1 & X2 & Y1 & Y2 & -> & -> & E1 & E2 & Hmid).
  { set (k := Z.to_nat (Z.min (zlen X) (zlen Y))). exists (take k X), (drop k X), (take (length Y - k) Y), (drop (length Y - k) Y). rewrite !take_drop.
    split; [done |]. split; [done |]. unfold zlen in *. rewrite length_take, length_drop. split; [nia |]. split; [nia |].
    destruct (Z.le_gt_cases (Z.of_nat (length X)) (Z.of_nat (length Y))); [left; apply drop_ge; lia | right; apply length_zero_iff_nil; rewrite length_take; lia]. }
  apply Forall_app in HX as [HX1 HX2]. apply Forall_app in HY as [HY1 HY2].
  pose proof (zlen_concat X1 HX1) as F1. pose proof (zlen_concat X2 HX2) as F2. pose proof (zlen_concat Y1 HY1) as F3. pose proof (zlen_concat Y2 HY2) as F4.
  exists (X2 ++ X1), (Y2 ++ Y1). split; [| split; apply Permutation_app_comm].
  assert (forall U V : list (list Z), A ++ concat (U ++ (X2 ++ Y1) ++ V) ++ C = A ++ concat U ++ concat (X2 ++ Y1) ++ concat V ++ C) as Er.
  { intros. rewrite !concat_app. by rewrite <- !app_assoc. }
  replace ((X1 ++ X2) ++ Y1 ++ Y2) with (X1 ++ (X2 ++ Y1) ++ Y2) by (by rewrite <- !app_assoc).
  replace ((Y2 ++ Y1) ++ X2 ++ X1) with (Y2 ++ (X2 ++ Y1) ++ X1) by (destruct Hmid as [-> | ->]; rewrite ?app_nil_l, ?app_nil_r, <- ?app_assoc; done).
  rewrite !Er. apply (swapfunc_ok r A (concat X1) (concat (X2 ++ Y1)) (concat Y2) C a (b - r)); [done | by exists (zlen X1) | lia | lia | exact Ha |].
  rewrite concat_app. autorewrite with zlen in *. lia.
Qed.

(** ** Insertion sort *)

Notation le := (fun x y : list Z => cmp x y <= 0).

Lemma sift_ok A C a x t : a = zlen A -> forall s0 fuel, elts (s0 ++ x :: t) -> (length s0 < fuel)%nat ->
  exists s1 s2, s0 = s1 ++ s2 /\
    sift es cmp fuel a (a + es * zlen s0) st (A ++ concat (s0 ++ x :: t) ++ C) = Some (A ++ concat (s1 ++ x :: s2 ++ t) ++ C) /\
    Forall (fun y => 0 < cmp y x) s2 /\ (s1 = [] \/ exists s1' y, s1 = s1' ++ [y] /\ cmp y x <= 0).
Proof.
  intros Ha s0. revert t. induction s0 as [| y s0 IH] using rev_ind; intros t fuel Hl Hf.
  - destruct fuel as [| fuel]; [lia |]. exists [], []. cbn [sift]. rewrite zlen_nil, (proj2 (Z.ltb_ge a _)) by lia. split_and!; [done | done | by apply Forall_nil_2 | by left].
  - rewrite length_app in Hf. cbn [length] in Hf. destruct fuel as [| fuel]; [lia |]. cbn [sift]. rewrite zlen_app, zlen_cons, zlen_nil. pose proof (zlen_nonneg s0).
    rewrite (proj2 (Z.ltb_lt a _)) by nia. replace ((s0 ++ [y]) ++ x :: t) with (s0 ++ y :: x :: t) in * by exact (app_assoc s0 [y] (x :: t)).
    pose proof Hl as Hl'. apply Forall_app in Hl' as [Hs0 [Hy [Hx Ht]%Forall_cons]%Forall_cons].
    rewrite (cmp_elts A C s0 y (x :: t) (s0 ++ [y]) x t); [| done | done | by apply Forall_app_2; [| apply Forall_cons_2; [| apply Forall_nil_2]] | done | exact (app_assoc s0 [y] (x :: t)) | lia | autorewrite with zlen; lia].
    cbn [mbind option_bind]. destruct (Z.ltb_spec 0 (cmp y x)) as [Hgt | Hle].
    + destruct (swap_elts A C s0 y [] x t (a + es * zlen s0) (a + es * (zlen s0 + (1 + 0))) Hl ltac:(lia) ltac:(unfold zlen; cbn [length]; lia)) as [_ E].
      cbn [app] in E. replace (a + es * (zlen s0 + (1 + 0)) - es) with (a + es * zlen s0) by lia. rewrite E. cbn [mbind option_bind].
      destruct (IH (y :: t) fuel) as (s1 & s2 & -> & E' & Hs2 & Hs1); [apply Forall_app_2; [done |]; by repeat apply Forall_cons_2 | lia |].
      exists s1, (s2 ++ [y]). split; [by rewrite <- app_assoc |]. split; [rewrite E', <- (app_assoc s2); done |]. split; [by apply Forall_app_2; [| apply Forall_cons_2; [| apply Forall_nil_2]] | exact Hs1].
    + exists (s0 ++ [y]), []. rewrite app_nil_r, <- app_assoc. split_and!; [done | done | by apply Forall_nil_2 |]. right. by exists s0, y.
Qed.

Lemma sorted_insert `{!Comparison cmp} s1 x s2 : StronglySorted le (s1 ++ s2) -> Forall (fun y => 0 < cmp y x) s2 ->
  (s1 = [] \/ exists s1' y, s1 = s1' ++ [y] /\ cmp y x <= 0) -> StronglySorted le (s1 ++ x :: s2).
Proof.
  intros Hs Hs2 Hs1. apply StronglySorted_app in Hs as (Hc & Hss1 & Hss2).
  assert (Forall (fun y => cmp x y <= 0) s2) as Hx2.
  { eapply Forall_impl; [exact Hs2 |]. intros y Hy. cbn in Hy. rewrite cmp_sym in Hy. lia. }
  apply StronglySorted_app. split; [| split; [done | by constructor]]. intros z1 z2 Hz1 [-> | Hz2]%elem_of_cons; [| by apply Hc].
  destruct Hs1 as [-> | (s1' & y & -> & Hy)]; [by apply elem_of_nil in Hz1 |]. apply StronglySorted_app in Hss1 as (Hc1 & _).
  apply elem_of_app in Hz1 as [Hz1 | ->%list_elem_of_singleton]; [| exact Hy]. apply (cmp_trans z1 y x); [| exact Hy]. apply Hc1; [done | by left].
Qed.

Lemma insertion_ok A C a n : a = zlen A -> forall todo fuel s, elts (s ++ todo) -> n = zlen (s ++ todo) -> (length todo < fuel)%nat ->
  exists s', insertion es cmp fuel a n (a + es * zlen s) st (A ++ concat (s ++ todo) ++ C) = Some (A ++ concat s' ++ C) /\ s' ≡ₚ s ++ todo /\
    (Comparison cmp -> StronglySorted le s -> StronglySorted le s').
Proof.
  intros Ha. induction todo as [| x todo IH]; intros fuel s Hl Hn Hf; (destruct fuel as [| fuel]; [lia |]); cbn [insertion].
  - rewrite app_nil_r in *. subst n. rewrite (proj2 (Z.ltb_ge _ _)) by lia. by exists s.
  - assert (zlen s < n) as Hlt by (subst n; rewrite zlen_app, zlen_cons; pose proof (zlen_nonneg todo); lia).
    rewrite (proj2 (Z.ltb_lt _ _)) by nia.
    destruct (sift_ok A C a x todo Ha s (Z.to_nat n) Hl) as (s1 & s2 & -> & E & Hs2 & Hs1); [unfold zlen in Hlt; lia |]. rewrite E. cbn [mbind option_bind].
    assert (s1 ++ x :: s2 ≡ₚ (s1 ++ s2) ++ [x]) as P by (rewrite <- app_assoc; apply Permutation_app_head, Permutation_cons_append).
    destruct (IH fuel (s1 ++ x :: s2)) as (s' & E' & P' & Hs').
    + rewrite P, <- app_assoc. exact Hl.
    + rewrite Hn. autorewrite with zlen. lia.
    + cbn [length] in Hf. lia.
    + exists s'. split.
      * rewrite <- E'. f_equal; [| by rewrite <- app_assoc]. autorewrite with zlen. lia.
      * split; [rewrite P'; rewrite P; by rewrite <- app_assoc |]. intros Hc Hss. apply Hs'; [exact Hc |]. by apply sorted_insert.
Qed.
End memory.

(** * The partition around the pivot

    The array is at every turn the pivot, elements equal to it, smaller ones,
    those not seen yet, greater ones, and again elements equal to it. *)

(** Both sides of an equation are the same list up to associativity. *)
Ltac same_list := cbn [app]; repeat (progress (rewrite <- ?app_assoc; cbn [app])); rewrite ?app_nil_r; reflexivity.

Section partition.
Context (es : Z) (cmp : list Z -> list Z -> Z) (Hes : 0 < es) (st : Z) (Hst : swaptype_ok es st).
Context (A C : list Z) (a : Z) (Ha : a = zlen A) (v : list Z).
Notation elts := (Forall (fun x : list Z => zlen x = es)).

Definition content (E1 L U G E2 : list (list Z)) : list (list Z) := v :: E1 ++ L ++ U ++ G ++ E2.

Definition parted E1 L U G E2 (s : part_state) : Prop :=
  elts (content E1 L U G E2) /\ arr s = A ++ concat (content E1 L U G E2) ++ C /\
  pa s = a + es * (1 + zlen E1) /\ pb s = pa s + es * zlen L /\ pc s = pb s + es * zlen U - es /\ pd s = pc s + es * zlen G.

Lemma elts_mid l1 (x : list Z) l2 : elts (l1 ++ x :: l2) -> elts l1 /\ zlen x = es.
Proof. by intros [? [? _]%Forall_cons]%Forall_app. Qed.

(** An element is compared with the pivot. *)
Lemma cmp_pivot E1 L U G E2 s l1 u l2 p : parted E1 L U G E2 s -> content E1 L U G E2 = (v :: l1) ++ u :: l2 -> p = a + es * (1 + zlen l1) ->
  cmp_at es cmp (arr s) p a = Some (cmp u v).
Proof.
  intros (He & -> & _) E Hp. rewrite E in *. destruct (elts_mid (v :: l1) u l2 He) as [H1 Hu]. destruct (elts_mid [] v (l1 ++ u :: l2) He) as [_ Hv].
  apply (cmp_elts es cmp A C (v :: l1) u l2 [] v (l1 ++ u :: l2)); [done | done | apply Forall_nil_2 | done | done | rewrite zlen_cons; lia | rewrite zlen_nil; lia].
Qed.

Lemma move_left E1 L u U G E2 s : parted E1 L (u :: U) G E2 s ->
  parted E1 (L ++ [u]) U G E2 (Part (pa s) (pb s + es) (pc s) (pd s) (arr s)).
Proof.
  intros (He & Ea & E3 & E4 & E5 & E6). assert (content E1 L (u :: U) G E2 = content E1 (L ++ [u]) U G E2) as E by (unfold content; same_list).
  rewrite E in *. repeat split; cbn [pa pb pc pd arr]; autorewrite with zlen in *; [done | done | lia | lia | lia | lia].
Qed.

Lemma move_right E1 L u U G E2 s : parted E1 L (U ++ [u]) G E2 s ->
  parted E1 L U (u :: G) E2 (Part (pa s) (pb s) (pc s - es) (pd s) (arr s)).
Proof.
  intros (He & Ea & E3 & E4 & E5 & E6). assert (content E1 L (U ++ [u]) G E2 = content E1 L U (u :: G) E2) as E by (unfold content; same_list).
  rewrite E in *. repeat split; cbn [pa pb pc pd arr]; autorewrite with zlen in *; [done | done | lia | lia | lia | lia].
Qed.

(** An exchange of two elements of the array. *)
Lemma swap_content E1 L U G E2 s l1 x m y l2 E1' L' U' G' E2' p q : parted E1 L U G E2 s ->
  content E1 L U G E2 = l1 ++ x :: m ++ y :: l2 -> content E1' L' U' G' E2' = l1 ++ y :: m ++ x :: l2 ->
  p = a + es * zlen l1 -> q = p + es * (1 + zlen m) ->
  elts (content E1' L' U' G' E2') /\ exists mem, swap es p q st (arr s) = Some mem /\ mem = A ++ concat (content E1' L' U' G' E2') ++ C.
Proof.
  intros (He & -> & _) E E' Hp Hq. rewrite E, E' in *. split.
  - clear -He. rewrite Forall_app, Forall_cons, Forall_app, Forall_cons in *. tauto.
  - eexists. split; [| done]. apply (swap_elts es Hes st Hst A C l1 x m y l2 p q He); lia.
Qed.

Lemma equal_left E1 L u U G E2 s : parted E1 L (u :: U) G E2 s -> exists mem L',
  swap es (pa s) (pb s) st (arr s) = Some mem /\ L' ≡ₚ L /\ parted (E1 ++ [u]) L' U G E2 (Part (pa s + es) (pb s + es) (pc s) (pd s) mem).
Proof.
  intros H. pose proof H as (He & Ea & E3 & E4 & E5 & E6). destruct L as [| l L].
  - exists (arr s), []. replace (pb s) with (pa s) in * by (rewrite zlen_nil in E4; lia).
    assert (content E1 [] (u :: U) G E2 = (v :: E1) ++ u :: (U ++ G ++ E2)) as E by (unfold content; same_list).
    assert (content (E1 ++ [u]) [] U G E2 = (v :: E1) ++ u :: (U ++ G ++ E2)) as E' by (unfold content; same_list).
    split; [rewrite Ea, E in *; apply (swap_self es Hes st Hst); [exact He | rewrite E3, zlen_cons; lia] |]. split; [done |].
    unfold parted. cbn [pa pb pc pd arr]. rewrite E', <- E. autorewrite with zlen in *. split_and!; [done | done | lia.. ].
  - edestruct (swap_content E1 (l :: L) (u :: U) G E2 s (v :: E1) l L u (U ++ G ++ E2) (E1 ++ [u]) (L ++ [l]) U G E2 (pa s) (pb s) H) as (He' & mem & E & Em);
      [unfold content; same_list | unfold content; same_list | rewrite zlen_cons; lia | rewrite zlen_cons in E4; lia |].
    exists mem, (L ++ [l]). split; [done |]. split; [symmetry; apply Permutation_cons_append |]. unfold parted. cbn [pa pb pc pd arr]. autorewrite with zlen in *. split_and!; [done | done | lia.. ].
Qed.

Lemma equal_right E1 L u U G E2 s : parted E1 L (U ++ [u]) G E2 s -> exists mem G',
  swap es (pc s) (pd s) st (arr s) = Some mem /\ G' ≡ₚ G /\ parted E1 L U G' (u :: E2) (Part (pa s) (pb s) (pc s - es) (pd s - es) mem).
Proof.
  intros H. pose proof H as (He & Ea & E3 & E4 & E5 & E6). destruct G as [| g G _] using rev_ind.
  - exists (arr s), []. replace (pd s) with (pc s) in * by (rewrite zlen_nil in E6; lia).
    assert (content E1 L (U ++ [u]) [] E2 = (v :: E1 ++ L ++ U) ++ u :: E2) as E by (unfold content; same_list).
    assert (content E1 L U [] (u :: E2) = (v :: E1 ++ L ++ U) ++ u :: E2) as E' by (unfold content; same_list).
    split; [rewrite Ea, E in *; apply (swap_self es Hes st Hst); [exact He | autorewrite with zlen in *; lia] |]. split; [done |].
    unfold parted. cbn [pa pb pc pd arr]. rewrite E', <- E. autorewrite with zlen in *. split_and!; [done | done | lia.. ].
  - edestruct (swap_content E1 L (U ++ [u]) (G ++ [g]) E2 s (v :: E1 ++ L ++ U) u G g E2 E1 L U (g :: G) (u :: E2) (pc s) (pd s) H) as (He' & mem & E & Em);
      [unfold content; same_list | unfold content; same_list | autorewrite with zlen in *; lia | autorewrite with zlen in *; lia |].
    exists mem, (g :: G). split; [done |]. split; [apply Permutation_cons_append |]. unfold parted. cbn [pa pb pc pd arr]. autorewrite with zlen in *. split_and!; [done | done | lia.. ].
Qed.

Lemma cross E1 L u M w G E2 s : parted E1 L (u :: M ++ [w]) G E2 s -> exists mem,
  swap es (pb s) (pc s) st (arr s) = Some mem /\ parted E1 (L ++ [w]) M (u :: G) E2 (Part (pa s) (pb s + es) (pc s - es) (pd s) mem).
Proof.
  intros H. pose proof H as (He & Ea & E3 & E4 & E5 & E6).
  edestruct (swap_content E1 L (u :: M ++ [w]) G E2 s (v :: E1 ++ L) u M w (G ++ E2) E1 (L ++ [w]) M (u :: G) E2 (pb s) (pc s) H) as (He' & mem & E & Em);
    [unfold content; same_list | unfold content; same_list | autorewrite with zlen in *; lia | autorewrite with zlen in *; lia |].
  exists mem. split; [done |]. unfold parted. cbn [pa pb pc pd arr]. autorewrite with zlen in *. split_and!; [done | done | lia.. ].
Qed.

(** ** The scans *)

Definition eqv (x : list Z) : Prop := cmp x v = 0.
Definition ltv (x : list Z) : Prop := cmp x v < 0.
Definition gtv (x : list Z) : Prop := 0 < cmp x v.

Lemma pb_le_pc E1 L U G E2 s : parted E1 L U G E2 s -> (pb s <=? pc s) = negb (bool_decide (U = [])).
Proof.
  intros (_ & _ & _ & _ & E & _). destruct U as [| u U]; [rewrite bool_decide_true by done; apply Z.leb_gt; rewrite zlen_nil in E; lia |].
  rewrite bool_decide_false by done. apply Z.leb_le. rewrite zlen_cons in E. pose proof (zlen_nonneg U). nia.
Qed.

Lemma left_scan_ok G E2 U : forall E1 L s fuel, parted E1 L U G E2 s -> (length U < fuel)%nat -> Forall eqv E1 -> Forall ltv L ->
  exists E1' L' U' s', left_scan es cmp fuel a st s = Some s' /\ parted E1' L' U' G E2 s' /\ content E1' L' U' G E2 ≡ₚ content E1 L U G E2 /\
    (length U' <= length U)%nat /\ Forall eqv E1' /\ Forall ltv L' /\ (U' = [] \/ exists u U'', U' = u :: U'' /\ gtv u).
Proof.
  induction U as [| u U IH]; intros E1 L s fuel H Hf HE HL; (destruct fuel as [| fuel]; [lia |]); cbn [left_scan]; rewrite (pb_le_pc _ _ _ _ _ _ H).
  - rewrite bool_decide_true by done. exists E1, L, [], s. split_and!; [done.. | by left].
  - rewrite bool_decide_false by done. cbn [negb]. pose proof H as (_ & _ & P1 & P2 & _ & _). cbn [length] in Hf.
    rewrite (cmp_pivot E1 L (u :: U) G E2 s (E1 ++ L) u (U ++ G ++ E2)); [| done | unfold content; same_list | autorewrite with zlen; lia]. cbn [mbind option_bind].
    destruct (Z.leb_spec (cmp u v) 0) as [Hle | Hgt]; [| exists E1, L, (u :: U), s; split_and!; [done.. | right; by exists u, U]].
    destruct (Z.eqb_spec (cmp u v) 0) as [Heq | Hne].
    + destruct (equal_left E1 L u U G E2 s H) as (mem & L1 & E & PL & H'). rewrite E. cbn [mbind option_bind].
      destruct (IH _ _ _ fuel H') as (E1' & L' & U' & s' & Es & Hp & Hperm & Hlen & Hr); [lia | apply Forall_app_2; [done | by apply Forall_singleton] | by rewrite PL |].
      exists E1', L', U', s'. split; [done |]. split; [done |]. split; [| split; [cbn [length]; lia | done]].
      rewrite Hperm. unfold content. apply Permutation_cons; [done |]. rewrite <- !app_assoc. apply Permutation_app_head. rewrite PL. cbn [app]. apply Permutation_middle.
    + destruct (IH _ _ _ fuel (move_left E1 L u U G E2 s H)) as (E1' & L' & U' & s' & Es & Hp & Hperm & Hlen & Hr);
        [lia | done | apply Forall_app_2; [done | apply Forall_singleton; unfold ltv; lia] |].
      exists E1', L', U', s'. split; [done |]. split; [done |]. split; [| split; [cbn [length]; lia | done]].
      rewrite Hperm. unfold content. by rewrite <- app_assoc.
Qed.

Lemma right_scan_ok E1 L U : forall G E2 s fuel, parted E1 L U G E2 s -> (length U < fuel)%nat -> Forall gtv G -> Forall eqv E2 ->
  exists U' U0 G' E2' s', right_scan es cmp fuel a st s = Some s' /\ parted E1 L U' G' E2' s' /\ content E1 L U' G' E2' ≡ₚ content E1 L U G E2 /\
    U = U' ++ U0 /\ Forall gtv G' /\ Forall eqv E2' /\ (U' = [] \/ exists U'' w, U' = U'' ++ [w] /\ ltv w).
Proof.
  induction U as [| u U IH] using rev_ind; intros G E2 s fuel H Hf HG HE; (destruct fuel as [| fuel]; [lia |]); cbn [right_scan]; rewrite (pb_le_pc _ _ _ _ _ _ H).
  - rewrite bool_decide_true by done. exists [], [], G, E2, s. split_and!; [done.. | by left].
  - rewrite bool_decide_false by (by destruct U). cbn [negb]. pose proof H as (_ & _ & P1 & P2 & P3 & _). rewrite length_app in Hf. cbn [length] in Hf.
    rewrite (cmp_pivot E1 L (U ++ [u]) G E2 s (E1 ++ L ++ U) u (G ++ E2)); [| done | unfold content; same_list | autorewrite with zlen in *; lia]. cbn [mbind option_bind].
    destruct (Z.leb_spec 0 (cmp u v)) as [Hle | Hlt]; [| exists (U ++ [u]), [], G, E2, s; split_and!; [done.. | by rewrite app_nil_r | done | done | right; by exists U, u]].
    destruct (Z.eqb_spec (cmp u v) 0) as [Heq | Hne].
    + destruct (equal_right E1 L u U G E2 s H) as (mem & G1 & E & PG & H'). rewrite E. cbn [mbind option_bind].
      destruct (IH _ _ _ fuel H') as (U' & U0 & G' & E2' & s' & Es & Hp & Hperm & -> & Hr); [lia | by rewrite PG | by apply Forall_cons_2 |].
      exists U', (U0 ++ [u]), G', E2', s'. split; [done |]. split; [done |]. split; [| split; [by rewrite <- app_assoc | done]].
      rewrite Hperm. unfold content. apply Permutation_cons; [done |]. rewrite <- !app_assoc. do 4 apply Permutation_app_head. rewrite PG. cbn [app]. symmetry. apply Permutation_middle.
    + destruct (IH _ _ _ fuel (move_right E1 L u U G E2 s H)) as (U' & U0 & G' & E2' & s' & Es & Hp & Hperm & -> & Hr);
        [lia | apply Forall_cons_2; [unfold gtv; lia | done] | done |].
      exists U', (U0 ++ [u]), G', E2', s'. split; [done |]. split; [done |]. split; [| split; [by rewrite <- app_assoc | done]].
      rewrite Hperm. unfold content. by rewrite <- !app_assoc.
Qed.

Lemma partition_loop_ok n fuel : forall E1 L U G E2 s, parted E1 L U G E2 s -> (length U < fuel)%nat -> zlen U <= n ->
  Forall eqv E1 -> Forall ltv L -> Forall gtv G -> Forall eqv E2 ->
  exists E1' L' G' E2' s', partition_loop es cmp fuel a n st s = Some s' /\ parted E1' L' [] G' E2' s' /\ content E1' L' [] G' E2' ≡ₚ content E1 L U G E2 /\
    Forall eqv E1' /\ Forall ltv L' /\ Forall gtv G' /\ Forall eqv E2'.
Proof.
  induction fuel as [| fuel IH]; intros E1 L U G E2 s H Hf Hn H1 H2 H3 H4; [lia |]. cbn [partition_loop]. unfold zlen in Hn.
  destruct (left_scan_ok G E2 U E1 L s (S (Z.to_nat n)) H ltac:(lia) H1 H2) as (E1a & La & Ua & sa & -> & Ha' & Pa & Hla & H1a & H2a & Hstop). cbn [mbind option_bind].
  destruct (right_scan_ok E1a La Ua G E2 sa (S (Z.to_nat n)) Ha' ltac:(lia) H3 H4) as (Ub & U0 & Gb & E2b & sb & -> & Hb & Pb & -> & H3b & H4b & Hstop'). cbn [mbind option_bind].
  rewrite Z.ltb_antisym, (pb_le_pc _ _ _ _ _ _ Hb), negb_involutive. rewrite length_app in Hla. destruct Hstop' as [-> | (U1 & w & -> & Hw)].
  - rewrite bool_decide_true by done. exists E1a, La, Gb, E2b, sb. split_and!; [done | done | by rewrite Pb | done..].
  - rewrite bool_decide_false by (by destruct U1). destruct Hstop as [E | (u & U2 & E & Hu)]; [by destruct U1 |]. destruct U1 as [| u' M].
    { injection E as -> _. unfold ltv, gtv in *. lia. }
    injection E as -> _. cbn [app] in *. destruct (cross E1a La u M w Gb E2b sb Hb) as (mem & -> & Hc). cbn [mbind option_bind].
    cbn [length] in Hla. rewrite length_app in Hla.
    destruct (IH _ _ _ _ _ _ Hc) as (E1' & L' & G' & E2' & s' & Es & Hs & Ps & Hr);
      [lia | unfold zlen; lia | done | apply Forall_app_2; [done | by apply Forall_singleton] | by apply Forall_cons_2 | done |].
    exists E1', L', G', E2', s'. split; [done |]. split; [done |]. split; [| done]. rewrite Ps, <- Pa, <- Pb. unfold content. apply Permutation_cons; [done |].
    apply Permutation_app_head. rewrite <- !app_assoc. apply Permutation_app_head. cbn [app]. rewrite <- !app_assoc. cbn [app].
    rewrite <- !Permutation_middle. constructor.
Qed.
End partition.

Section run.
Context (es : Z) (cmp : list Z -> list Z -> Z) (Hes : 0 < es).
Notation elts := (Forall (fun x : list Z => zlen x = es)).

(** ** The pivot *)

Section pivot.
Context (A C : list Z) (l : list (list Z)) (Hl : elts l).
Notation mem := (A ++ concat l ++ C).
Definition is_place (p : Z) : Prop := exists i, p = zlen A + es * i /\ 0 <= i < zlen l.

Lemma cmp_place p q : is_place p -> is_place q -> exists c, cmp_at es cmp mem p q = Some c.
Proof.
  intros (i & -> & Hi) (j & -> & Hj). unfold cmp_at. destruct (read_nth es Hes A C l i Hl Hi) as (x & _ & ->).
  destruct (read_nth es Hes A C l j Hl Hj) as (y & _ & ->). by eexists.
Qed.

Lemma med3_ok p q r : is_place p -> is_place q -> is_place r -> exists m, med3 es cmp p q r mem = Some m /\ is_place m.
Proof.
  intros Hp Hq Hr. unfold med3. destruct (cmp_place p q Hp Hq) as [c1 ->], (cmp_place q r Hq Hr) as [c2 ->], (cmp_place p r Hp Hr) as [c3 ->].
  cbn [mbind option_bind]. eexists. split; [done |]. by destruct (c1 <? 0), (c2 <? 0), (0 <? c2), (c3 <? 0).
Qed.

Lemma choose_pivot_ok a : a = zlen A -> 7 <= zlen l -> exists pm, choose_pivot es cmp a (zlen l) mem = Some pm /\ is_place pm.
Proof.
  intros -> Hn. unfold choose_pivot. set (n := zlen l) in *.
  assert (forall i p, p = zlen A + es * i -> 0 <= i < n -> is_place p) as Hpl by (intros i p -> Hi; by exists i).
  assert (is_place (zlen A + n / 2 * es)) as Hm by (apply (Hpl (n / 2)); [lia |]; dm).
  destruct (7 <? n); [| by eexists]. destruct (Z.ltb_spec 40 n) as [H40 | _].
  - edestruct (med3_ok (zlen A) (zlen A + n / 8 * es) (zlen A + 2 * (n / 8 * es))) as (x & -> & Hx); [apply (Hpl 0); lia | apply (Hpl (n / 8)); [lia | dm] | apply (Hpl (2 * (n / 8))); [lia | dm] |]. cbn [mbind option_bind].
    edestruct (med3_ok (zlen A + n / 2 * es - n / 8 * es) (zlen A + n / 2 * es) (zlen A + n / 2 * es + n / 8 * es)) as (y & -> & Hy);
      [apply (Hpl (n / 2 - n / 8)); [lia | dm] | done | apply (Hpl (n / 2 + n / 8)); [lia | dm] |]. cbn [mbind option_bind].
    edestruct (med3_ok (zlen A + (n - 1) * es - 2 * (n / 8 * es)) (zlen A + (n - 1) * es - n / 8 * es) (zlen A + (n - 1) * es)) as (z & -> & Hz);
      [apply (Hpl (n - 1 - 2 * (n / 8))); [lia | dm] | apply (Hpl (n - 1 - n / 8)); [lia | dm] | apply (Hpl (n - 1)); lia |]. cbn [mbind option_bind].
    by apply med3_ok.
  - apply med3_ok; [apply (Hpl 0); lia | done | apply (Hpl (n - 1)); lia].
Qed.
End pivot.

(** The pivot is brought to the front. *)
Lemma pivot_first st A C l a pm : swaptype_ok es st -> elts l -> a = zlen A -> is_place A l pm ->
  exists v l', swap es a pm st (A ++ concat l ++ C) = Some (A ++ concat (v :: l') ++ C) /\ v :: l' ≡ₚ l.
Proof.
  intros Hst Hl Ha (i & -> & Hi). destruct (lookup_lt_is_Some_2 l (Z.to_nat i)) as [v Hv]; [unfold zlen in Hi; lia |].
  destruct (list_elem_of_split_length _ _ _ Hv) as (l1 & l2 & -> & Hlen). destruct l1 as [| x l1].
  - exists v, l2. split; [| done]. assert (i = 0) as -> by (cbn [length] in Hlen; lia). replace (zlen A + es * 0) with a by lia. cbn [app].
    apply (swap_self es Hes st Hst A C [] v l2); [done | rewrite zlen_nil; lia].
  - exists v, (l1 ++ x :: l2). cbn [app] in *. split; [| rewrite <- !Permutation_middle; constructor].
    apply (swap_elts es Hes st Hst A C [] x l1 v l2 a (zlen A + es * i)); [done | rewrite zlen_nil; lia |].
    cbn [length] in Hlen. assert (i = 1 + zlen l1) as -> by (unfold zlen; lia). lia.
Qed.

(** ** Moving the elements equal to the pivot *)

Lemma gather_ok st A C a v E1 L G E2 s : swaptype_ok es st -> a = zlen A -> parted es A C a v E1 L [] G E2 s ->
  exists L' M G', gather es a (zlen (content v E1 L [] G E2)) st s = Some (A ++ concat (L' ++ M ++ G') ++ C) /\
    L' ≡ₚ L /\ M ≡ₚ v :: E1 ++ E2 /\ G' ≡ₚ G.
Proof.
  intros Hst Ha (He & Ea & E3 & E4 & E5 & E6). unfold gather. rewrite Ea. unfold content in *. cbn [app] in *. set (n := zlen (v :: E1 ++ L ++ G ++ E2)).
  assert (n = 1 + zlen E1 + zlen L + zlen G + zlen E2) as Hn by (unfold n; autorewrite with zlen; lia). clearbody n.
  assert (elts (v :: E1) /\ elts L /\ elts G /\ elts E2) as (HX & HL & HG & HE2) by (clear -He; rewrite !Forall_cons, !Forall_app in *; tauto).
  rewrite zlen_nil in E5.
  replace (A ++ concat (v :: E1 ++ L ++ G ++ E2) ++ C) with (A ++ concat ((v :: E1) ++ L) ++ (concat (G ++ E2) ++ C)) by (cbn [app concat]; rewrite !concat_app, <- !app_assoc; done).
  edestruct (vecswap_blocks es Hes st Hst A (concat (G ++ E2) ++ C) (v :: E1) L a (pb s)) as (X' & L' & -> & PX & PL);
    [done | done | done | autorewrite with zlen; lia | | cbn [mbind option_bind]].
  { autorewrite with zlen. case_if; nia. }
  assert (zlen (L' ++ X') = 1 + zlen E1 + zlen L) as Hlen by (unfold zlen; rewrite PX, PL, length_app; cbn [length]; lia).
  assert (elts (L' ++ X')) as HLX by (rewrite PX, PL; by apply Forall_app_2).
  replace (A ++ concat (L' ++ X') ++ concat (G ++ E2) ++ C) with ((A ++ concat (L' ++ X')) ++ concat (G ++ E2) ++ C) by (by rewrite <- app_assoc).
  edestruct (vecswap_blocks es Hes st Hst (A ++ concat (L' ++ X')) C G E2 (pb s) (a + n * es)) as (G' & E2' & -> & PG & PE);
    [done | done | rewrite zlen_app, (zlen_concat es) by done; lia | lia | case_if; nia |].
  exists L', (X' ++ E2'), G'. split; [| split; [done | split; [rewrite PX, PE; done | done]]].
  f_equal. rewrite <- !app_assoc. f_equal. rewrite !concat_app, <- !app_assoc. done.
Qed.

(** ** What is in order at the end *)

(** Two elements are in order when one of them is at a wanted address. *)
Definition settled (lrange rrange a : Z) (s : list (list Z)) : Prop :=
  forall i j x y, s !! i = Some x -> s !! j = Some y -> (i < j)%nat ->
  lrange <= a + es * Z.of_nat i <= rrange \/ lrange <= a + es * Z.of_nat j <= rrange -> cmp x y <= 0.

Lemma sorted_lookup {X} (R : X -> X -> Prop) l : StronglySorted R l ->
  forall i j x y, l !! i = Some x -> l !! j = Some y -> (i < j)%nat -> R x y.
Proof.
  induction 1 as [| z l Hs IH Hz]; intros i j x y Hx Hy Hij; [done |]. destruct j as [| j]; [lia |]. destruct i as [| i]; cbn in Hx, Hy.
  - injection Hx as ->. eapply Forall_lookup_1; [exact Hz | exact Hy].
  - apply (IH i j); [done | done | lia].
Qed.

Lemma settled_sorted lr rr a s : StronglySorted (fun x y => cmp x y <= 0) s -> settled lr rr a s.
Proof. intros H i j x y Hx Hy Hij _. by apply (sorted_lookup _ s H i j). Qed.

Lemma settled_app lr rr a s1 s2 : settled lr rr a s1 -> settled lr rr (a + es * zlen s1) s2 -> (forall x y, x ∈ s1 -> y ∈ s2 -> cmp x y <= 0) ->
  settled lr rr a (s1 ++ s2).
Proof.
  intros H1 H2 H12 i j x y Hx Hy Hij Hw. apply lookup_app_Some in Hx as [Hx | [Hi Hx]], Hy as [Hy | [Hj Hy]].
  - by apply (H1 i j).
  - apply H12; by eapply list_elem_of_lookup_2.
  - apply lookup_lt_Some in Hy. lia.
  - apply (H2 (i - length s1)%nat (j - length s1)%nat); [done | done | lia |]. unfold zlen.
    rewrite !Nat2Z.inj_sub by lia. replace (a + es * Z.of_nat (length s1) + es * (Z.of_nat i - Z.of_nat (length s1))) with (a + es * Z.of_nat i) by lia.
    replace (a + es * Z.of_nat (length s1) + es * (Z.of_nat j - Z.of_nat (length s1))) with (a + es * Z.of_nat j) by lia. exact Hw.
Qed.

(** A part away from the wanted range needs no work. *)
Lemma settled_outside lr rr a s : outside a (es * zlen s) lr rr = true -> settled lr rr a s.
Proof.
  intros H i j x y Hx%lookup_lt_Some Hy%lookup_lt_Some Hij Hw. unfold outside, zlen in H.
  assert (es * Z.of_nat i < es * Z.of_nat (length s) /\ es * Z.of_nat j < es * Z.of_nat (length s)) as [] by nia.
  apply orb_true_iff in H as [[O1%Z.ltb_lt O2%Z.ltb_lt]%andb_true_iff | [O1%Z.ltb_lt O2%Z.ltb_lt]%andb_true_iff]; nia.
Qed.

Lemma settled_short lr rr a s : zlen s <= 1 -> settled lr rr a s.
Proof. intros H i j x y Hx%lookup_lt_Some Hy%lookup_lt_Some Hij _. unfold zlen in H. lia. Qed.

(** The three parts of a partition. *)
Lemma settled_parts `{!Comparison cmp} lr rr a v L M G : Forall (ltv cmp v) L -> Forall (fun x => x = v \/ eqv cmp v x) M -> Forall (gtv cmp v) G ->
  settled lr rr a L -> settled lr rr (a + es * (zlen L + zlen M)) G -> settled lr rr a (L ++ M ++ G).
Proof.
  intros HL HM HG SL SG. rewrite Forall_forall in HL. rewrite Forall_forall in HM. rewrite Forall_forall in HG.
  assert (cmp v v = 0) as Hv by (pose proof (cmp_sym v v); lia).
  assert (forall x, x ∈ M -> cmp x v <= 0 /\ cmp v x <= 0) as HMv.
  { intros x [-> | Hx]%HM; [lia |]. unfold eqv in Hx. pose proof (cmp_sym v x). lia. }
  assert (forall x, x ∈ G -> cmp v x <= 0) as HGv by (intros x Hx%HG; unfold gtv in Hx; apply cmp_sym in Hx; lia).
  assert (forall x, x ∈ L -> cmp x v <= 0) as HLv by (intros x Hx%HL; unfold ltv in Hx; lia).
  apply settled_app; [done | apply settled_app | ].
  - intros i j x y Hx%list_elem_of_lookup_2 Hy%list_elem_of_lookup_2 _ _. apply (cmp_trans x v y); [by apply HMv | by apply HMv].
  - by replace (a + es * zlen L + es * zlen M) with (a + es * (zlen L + zlen M)) by lia.
  - intros x y Hx Hy. apply (cmp_trans x v y); [by apply HMv | by apply HGv].
  - intros x y Hx [Hy | Hy]%elem_of_app; apply (cmp_trans x v y); [by apply HLv | by apply HMv | by apply HLv | by apply HGv].
Qed.

(** ** The sort *)

Definition sorts (addr lr rr : Z) (fuel : nat) : Prop := forall A C l, elts l -> (length l < fuel)%nat ->
  exists s, _pqsort addr es cmp fuel (zlen A) (zlen l) lr rr (A ++ concat l ++ C) = Some (A ++ concat s ++ C) /\ s ≡ₚ l /\
    (Comparison cmp -> settled lr rr (zlen A) s).

(** One of the two parts of a partition. *)
Lemma sort_part addr lr rr fuel A C l r a : sorts addr lr rr fuel -> elts l -> (length l < fuel)%nat -> r = es * zlen l -> a = zlen A ->
  exists s, (if (es <? r) && negb (outside a r lr rr) then _pqsort addr es cmp fuel a (r / es) lr rr (A ++ concat l ++ C) else Some (A ++ concat l ++ C)) =
    Some (A ++ concat s ++ C) /\ s ≡ₚ l /\ (Comparison cmp -> settled lr rr a s).
Proof.
  intros IH Hl Hf -> ->. destruct (Z.ltb_spec es (es * zlen l)) as [Hr | Hr]; cbn [andb].
  - destruct (outside (zlen A) (es * zlen l) lr rr) eqn:Ho; cbn [negb].
    + exists l. split_and!; [done | done |]. intros _. by apply settled_outside.
    + rewrite Z.mul_comm, Z.div_mul by lia. by apply IH.
  - exists l. split_and!; [done | done |]. intros _. apply settled_short. nia.
Qed.

Lemma sort_parts addr lr rr fuel A C L M G r1 r2 a2 : sorts addr lr rr fuel -> elts (L ++ M ++ G) -> (length L < fuel)%nat -> (length G < fuel)%nat ->
  r1 = es * zlen L -> r2 = es * zlen G -> a2 = zlen A + es * (zlen L + zlen M) ->
  exists L1 G1, (mem ← (if (es <? r1) && negb (outside (zlen A) r1 lr rr) then _pqsort addr es cmp fuel (zlen A) (r1 / es) lr rr (A ++ concat (L ++ M ++ G) ++ C)
      else Some (A ++ concat (L ++ M ++ G) ++ C));
    if (es <? r2) && negb (outside a2 r2 lr rr) then _pqsort addr es cmp fuel a2 (r2 / es) lr rr mem else Some mem) = Some (A ++ concat (L1 ++ M ++ G1) ++ C) /\
    L1 ≡ₚ L /\ G1 ≡ₚ G /\ (Comparison cmp -> settled lr rr (zlen A) L1 /\ settled lr rr a2 G1).
Proof.
  intros IH He HL HG H1 H2 Ha2. apply Forall_app in He as [HeL [HeM HeG]%Forall_app].
  replace (A ++ concat (L ++ M ++ G) ++ C) with (A ++ concat L ++ (concat (M ++ G) ++ C)) by (rewrite (concat_app L), <- !app_assoc; done).
  destruct (sort_part addr lr rr fuel A (concat (M ++ G) ++ C) L r1 (zlen A) IH HeL HL H1 eq_refl) as (L1 & -> & PL & SL). cbn [mbind option_bind].
  assert (elts L1) as HeL1 by (by rewrite PL).
  assert (zlen L1 = zlen L) as EL by (unfold zlen; by rewrite PL).
  replace (A ++ concat L1 ++ concat (M ++ G) ++ C) with ((A ++ concat (L1 ++ M)) ++ concat G ++ C) by (rewrite !concat_app, <- !app_assoc; done).
  destruct (sort_part addr lr rr fuel (A ++ concat (L1 ++ M)) C G r2 a2 IH HeG HG H2) as (G1 & -> & PG & SG).
  { rewrite zlen_app, (zlen_concat es) by (by apply Forall_app_2). rewrite zlen_app, EL. lia. }
  exists L1, G1. split; [rewrite !concat_app, <- !app_assoc; done |]. auto.
Qed.

Lemma sort_small addr lr rr A C l : elts l -> zlen l < 7 ->
  exists s, insertion es cmp (S (Z.to_nat (zlen l))) (zlen A) (zlen l) (zlen A + es) (SWAPINIT addr es (zlen A)) (A ++ concat l ++ C) = Some (A ++ concat s ++ C) /\
    s ≡ₚ l /\ (Comparison cmp -> settled lr rr (zlen A) s).
Proof.
  intros Hl Hn. destruct l as [| x l].
  - exists []. split; [| split; [done |]; intros _; by apply settled_short]. cbn [insertion]. rewrite (proj2 (Z.ltb_ge _ _)) by (unfold zlen; cbn [length]; lia). done.
  - destruct (insertion_ok es cmp Hes _ (SWAPINIT_ok addr es (zlen A)) A C (zlen A) (zlen (x :: l)) eq_refl l (S (Z.to_nat (zlen (x :: l)))) [x] Hl eq_refl) as (s & E & P & Hs);
      [unfold zlen; cbn [length]; lia |].
    exists s. split; [| split; [exact P |]].
    + rewrite <- E. f_equal. rewrite zlen_cons, zlen_nil. lia.
    + intros Hc. apply settled_sorted, Hs; [done |]. repeat constructor.
Qed.

Lemma _pqsort_ok addr lr rr fuel : sorts addr lr rr fuel.
Proof.
  induction fuel as [| fuel IH]; intros A C l Hl Hf; [lia |]. cbn [_pqsort]. destruct (Z.ltb_spec (zlen l) 7) as [Hn | Hn]; [by apply sort_small |].
  pose proof (SWAPINIT_ok addr es (zlen A)) as Hst. set (st := SWAPINIT addr es (zlen A)) in *. clearbody st.
  destruct (choose_pivot_ok A C l Hl (zlen A) eq_refl Hn) as (pm & -> & Hpm). cbn [mbind option_bind].
  destruct (pivot_first st A C l (zlen A) pm Hst Hl eq_refl Hpm) as (v & l' & -> & Pl). cbn [mbind option_bind].
  assert (elts (v :: l')) as Hl' by (by rewrite Pl). assert (zlen l = 1 + zlen l') as Hlen by (unfold zlen; rewrite <- Pl; cbn [length]; lia).
  destruct (partition_loop_ok es cmp Hes st Hst A C (zlen A) eq_refl v (zlen l) (Z.to_nat (zlen l)) [] [] l' [] []
    (Part (zlen A + es) (zlen A + es) (zlen A + (zlen l - 1) * es) (zlen A + (zlen l - 1) * es) (A ++ concat (v :: l') ++ C))) as (E1 & L & G & E2 & s & -> & Hp & P & H1 & H2 & H3 & H4); [| unfold zlen in *; lia | lia | constructor.. |].
  { unfold parted, content. cbn [pa pb pc pd arr app]. rewrite app_nil_r. autorewrite with zlen. split_and!; [done | done | lia.. ]. }
  cbn [mbind option_bind]. assert (content v E1 L [] G E2 ≡ₚ l) as P' by (rewrite P, <- Pl; unfold content; cbn [app]; by rewrite app_nil_r). clear P Hl' Hlen Pl l' Hpm.
  replace (zlen l) with (zlen (content v E1 L [] G E2)) in * by (unfold zlen; by rewrite P').
  destruct (gather_ok st A C (zlen A) v E1 L G E2 s Hst eq_refl Hp) as (L' & M & G' & -> & PL & PM & PG). cbn [mbind option_bind].
  destruct Hp as (He & _ & E3 & E4 & E5 & E6). rewrite zlen_nil in E5.
  assert (L' ++ M ++ G' ≡ₚ l) as P2. { rewrite PL, PM, PG, <- P'. unfold content. cbn [app]. solve_Permutation. }
  unfold content in *. cbn [app] in *. assert (length (v :: E1 ++ L ++ G ++ E2) = length l) as Hlen by (by rewrite P'). cbn [length] in Hlen. rewrite !length_app in Hlen.
  assert (elts (L' ++ M ++ G')) as He2 by (by rewrite P2). pose proof (Permutation_length PL) as LL. pose proof (Permutation_length PG) as LG. pose proof (Permutation_length PM) as LM.
  cbn [length] in LM. rewrite length_app in LM.
  destruct (sort_parts addr lr rr fuel A C L' M G' (pb s - pa s) (pd s - pc s) (zlen A + zlen (v :: E1 ++ L ++ G ++ E2) * es - (pd s - pc s)) IH He2) as (L1 & G1 & -> & PL1 & PG1 & Hs);
    [lia | lia | unfold zlen in *; nia | unfold zlen in *; nia | autorewrite with zlen; unfold zlen in *; nia |].
  exists (L1 ++ M ++ G1). split; [done |]. split; [by rewrite PL1, PG1 |]. intros Hc. destruct (Hs Hc) as [S1 S2].
  apply (settled_parts lr rr (zlen A) v); [by rewrite PL1, PL | | by rewrite PG1, PG | done |].
  - rewrite PM. apply Forall_cons_2; [by left |]. apply Forall_app_2; (eapply Forall_impl; [eassumption |]); intros y Hy; by right.
  - replace (zlen A + es * (zlen L1 + zlen M)) with (zlen A + zlen (v :: E1 ++ L ++ G ++ E2) * es - (pd s - pc s)); [done |].
    pose proof (Permutation_length PL1). autorewrite with zlen. unfold zlen in *. nia.
Qed.

(** ** The place of an element *)

(** An element with everything before it at most it and everything after it at
    least it stands where a sorted list has an element equal to it. *)
Lemma place_sorted `{!Comparison cmp} (s t : list (list Z)) i x y : s ≡ₚ t -> StronglySorted (fun a b => cmp a b <= 0) t ->
  s !! i = Some x -> t !! i = Some y ->
  (forall j z, s !! j = Some z -> (j < i)%nat -> cmp z x <= 0) -> (forall j z, s !! j = Some z -> (i < j)%nat -> cmp x z <= 0) -> cmp x y = 0.
Proof.
  intros P Ht Hx Hy Hb Ha. assert (forall z, cmp z z = 0) as Hrefl by (intros z; pose proof (cmp_sym z z); lia).
  pose proof (lookup_lt_Some _ _ _ Hx) as His. pose proof (lookup_lt_Some _ _ _ Hy) as Hit.
  destruct (Z.lt_trichotomy (cmp x y) 0) as [Hlt | [E | Hgt]]; [exfalso | done | exfalso].
  - pose proof (Permutation_length (filter_Permutation (fun z => cmp z x <= 0) _ _ P)) as Hc. rewrite !(count_split _ (S i) s), (count_split _ i t) in Hc.
    rewrite (filter_all _ (take (S i) s)) in Hc. 2: { apply Forall_take_lookup. intros j z Hj Hz. destruct (decide (j = i)) as [-> | Hne].
      - rewrite Hx in Hz. injection Hz as ->. rewrite Hrefl. lia.
      - apply (Hb j z Hz). lia. }
    rewrite (filter_none _ (drop i t)) in Hc. 2: { apply Forall_drop_lookup. intros j z Hj Hz Hzx. apply cmp_sym in Hlt. assert (cmp y z <= 0) as Hyz.
      { destruct (decide (j = i)) as [-> | Hne]; [rewrite Hy in Hz; injection Hz as ->; rewrite Hrefl; lia | apply (sorted_lookup _ t Ht i j); [done | done | lia]]. }
      pose proof (cmp_trans y z x Hyz Hzx). lia. }
    pose proof (length_filter (fun z => cmp z x <= 0) (take i t)). rewrite !length_take in *. cbn [length] in Hc. lia.
  - pose proof (Permutation_length (filter_Permutation (fun z => cmp x z <= 0) _ _ P)) as Hc. rewrite !(count_split _ i s), (count_split _ (S i) t) in Hc.
    rewrite (filter_all _ (drop i s)) in Hc. 2: { apply Forall_drop_lookup. intros j z Hj Hz. destruct (decide (j = i)) as [-> | Hne].
      - rewrite Hx in Hz. injection Hz as ->. rewrite Hrefl. lia.
      - apply (Ha j z Hz). lia. }
    rewrite (filter_none _ (take (S i) t)) in Hc. 2: { apply Forall_take_lookup. intros j z Hj Hz Hxz. assert (cmp z y <= 0) as Hzy.
      { destruct (decide (j = i)) as [-> | Hne]; [rewrite Hy in Hz; injection Hz as ->; rewrite Hrefl; lia | apply (sorted_lookup _ t Ht j i); [done | done | lia]]. }
      pose proof (cmp_trans x z y Hxz Hzy). lia. }
    pose proof (length_filter (fun z => cmp x z <= 0) (drop (S i) t)). pose proof (Permutation_length P). rewrite !length_drop in *. cbn [length] in Hc. lia.
Qed.
End run.

(** C31: pqsort on an array of elements of [es] bytes returns, without reading
    or writing outside the array, for any comparison function, and the array
    then holds the same elements in some order.  When the comparison is an
    order, every position from [lrange] to [rrange] holds the element that
    sorting the whole array would put there, up to equal elements, and all
    elements before (after) it are at most (at least) that element. *)
Theorem pqsort_correct addr es cmp lrange rrange (l : list (list Z)) (Hes : 0 < es) (Hl : Forall (fun x : list Z => zlen x = es) l) :
  exists s, pqsort addr es cmp (zlen l) lrange rrange (concat l) = Some (concat s) /\ s ≡ₚ l /\
    (Comparison cmp -> forall i x, s !! i = Some x -> lrange <= Z.of_nat i <= rrange ->
      (forall j y, s !! j = Some y -> ((j < i)%nat -> cmp y x <= 0) /\ ((i < j)%nat -> cmp x y <= 0)) /\
      (forall t y, t ≡ₚ l -> StronglySorted (fun a b => cmp a b <= 0) t -> t !! i = Some y -> cmp x y = 0)).
Proof.
  destruct (_pqsort_ok es cmp Hes addr (lrange * es) ((rrange + 1) * es - 1) (S (Z.to_nat (zlen l))) [] [] l Hl) as (s & E & P & Hs); [unfold zlen; lia |].
  exists s. rewrite !app_nil_r in E. split; [exact E |]. split; [exact P |]. intros Hc i x Hx Hi.
  assert (lrange * es <= zlen (A := Z) [] + es * Z.of_nat i <= (rrange + 1) * es - 1) as Hw by (rewrite zlen_nil; nia).
  assert (forall j y, s !! j = Some y -> ((j < i)%nat -> cmp y x <= 0) /\ ((i < j)%nat -> cmp x y <= 0)) as Hj.
  { intros j y Hy. split; intros Hij; [apply (Hs Hc j i) | apply (Hs Hc i j)]; auto. }
  split; [exact Hj |]. intros t y Pt Ht Hy. apply (place_sorted cmp s t i x y); [by rewrite P, Pt | done | done | done | |]; intros j z Hz; by apply Hj.
Qed.

(** Integers of 4 bytes, big endian. *)
Definition num (x : list Z) : Z := fold_left (fun n b => n * 256 + b) x 0.
Definition num_cmp (x y : list Z) : Z := num x - num y.

Lemma pqsort_correct_witness : exists s,
  pqsort 0 4 num_cmp 3 1 1 (concat [[0; 0; 0; 9]; [0; 0; 1; 0]; [0; 0; 0; 7]]) = Some (concat s) /\ s ≡ₚ [[0; 0; 0; 9]; [0; 0; 1; 0]; [0; 0; 0; 7]] /\
    (Comparison num_cmp -> forall i x, s !! i = Some x -> 1 <= Z.of_nat i <= 1 ->
      (forall j y, s !! j = Some y -> ((j < i)%nat -> num_cmp y x <= 0) /\ ((i < j)%nat -> num_cmp x y <= 0)) /\
      (forall t y, t ≡ₚ [[0; 0; 0; 9]; [0; 0; 1; 0]; [0; 0; 0; 7]] -> StronglySorted (fun a b => num_cmp a b <= 0) t -> t !! i = Some y -> num_cmp x y = 0)).
Proof.
  apply (pqsort_correct 0 4 num_cmp 1 1 [[0; 0; 0; 9]; [0; 0; 1; 0]; [0; 0; 0; 7]]); [lia |]. repeat constructor.
Defined.

(** The comparison of integers is one: the premise can hold. *)
#[export] Instance num_comparison : Comparison num_cmp.
Proof. split; unfold num_cmp; intros; lia. Qed.
