(* ===== verification/Glob.v ===== *)
(** util.c: glob-style pattern matching ([stringmatchlen]), used by KEYS, SCAN,
    PSUBSCRIBE, CONFIG GET and ACL rules.

    The pattern is the list of its remaining bytes: [patternLen] is its length,
    and the byte after it reads as the NUL that terminates every C string and
    sds the callers pass.  [char] is signed. *)
From S2P Require Import Prelude Strnum.

Definition schar (b : Z) : Z := if b <? 128 then b else b - 256.

(** [tolower(int)] on a [char]. *)
Definition lower (b : Z) : Z := tolower (schar b).

Definition char_eq (nocase : bool) (a b : Z) : bool :=
  if negb nocase then a =? b else lower a =? lower b.

(** * The code *)

(** [start <= c <= end] after the swap and the case folding. *)
Definition range_match (nocase : bool) (a b x : Z) : bool :=
  let '(start, end_) := if schar b <? schar a then (schar b, schar a) else (schar a, schar b) in
  let '(start, end_, c) :=
    if nocase then (tolower start, tolower end_, tolower (schar x)) else (start, end_, schar x) in
  (start <=? c) && (c <=? end_).

(** The loop over a character class, from after [[] and [^]: the match flag and
    the pattern after the class.  An unterminated class ends with the pattern. *)
Fixpoint class_loop (nocase : bool) (x : Z) (p : list Z) (m : bool) : bool * list Z :=
  match p with
  | [] => (m, [])
  | c :: p1 =>
      match p1 with
      | y :: p2 =>
          if c =? 92 then class_loop nocase x p2 (m || (y =? x))
          else if c =? 93 then (m, p1)
          else
            match p2 with
            | z :: p3 =>
                if y =? 45 then class_loop nocase x p3 (m || range_match nocase c z x)
                else class_loop nocase x p1 (m || char_eq nocase c x)
            | [] => class_loop nocase x p1 (m || char_eq nocase c x)
            end
      | [] => if c =? 93 then (m, p1) else class_loop nocase x p1 (m || char_eq nocase c x)
      end
  end.

(** [while (pattern[1] == '*')]: the pattern at the last of the leading stars. *)
Fixpoint last_star (p : list Z) : list Z :=
  match p with
  | _ :: (c :: _) as p1 => if c =? 42 then last_star p1 else p
  | _ => p
  end.

Fixpoint skip_stars (p : list Z) : list Z :=
  match p with
  | c :: p' => if c =? 42 then skip_stars p' else p
  | [] => p
  end.

(** The loop of the ['*'] case; the state is [*skipLongerMatches]. *)
Fixpoint star_loop (rec : list Z -> bool -> option (bool * bool)) (s : list Z) (skip : bool)
    : option (bool * bool) :=
  match s with
  | [] => Some (false, true)
  | _ :: s' =>
      '(r, skip) ← rec s skip;
      if (r : bool) then Some (true, skip)
      else if (skip : bool) then Some (false, skip) else star_loop rec s' skip
  end.

(** The result and [*skipLongerMatches]; the fuel bounds the pattern. *)
Fixpoint stringmatchlen_impl (fuel : nat) (nocase : bool) (p s : list Z) (skip : bool) : option (bool * bool) :=
  match fuel with
  | O => None
  | S fuel =>
      match p, s with
      | c :: p1, x :: s1 =>
          (* the end of an iteration: the rest of the pattern and of the string *)
          let next p s :=
            match s with
            | [] => Some (match skip_stars p with [] => true | _ :: _ => false end, skip)
            | _ :: _ => stringmatchlen_impl fuel nocase p s skip
            end in
          if c =? 42 then
            match last_star p with
            | [_] => Some (true, skip)
            | _ :: q => star_loop (stringmatchlen_impl fuel nocase q) s skip
            | [] => None
            end
          else if c =? 63 then next p1 s1
          else if c =? 91 then
            let '(not, p1) := match p1 with 94 :: p2 => (true, p2) | _ => (false, p1) end in
            let '(m, p1) := class_loop nocase x p1 false in
            let m := if (not : bool) then negb m else m in
            if negb m then Some (false, skip) else next p1 s1
          else
            let '(c, p1) := if c =? 92 then match p1 with y :: p2 => (y, p2) | [] => (c, p1) end else (c, p1) in
            if negb (char_eq nocase c x) then Some (false, skip) else next p1 s1
      | _, _ => Some (match p, s with [], [] => true | _, _ => false end, skip)
      end
  end.

Definition stringmatchlen (p s : list Z) (nocase : bool) : option bool :=
  '(r, _) ← stringmatchlen_impl (S (length p)) nocase p s false; Some r.

(** [stringmatch] on C strings, which contain no NUL. *)
Definition stringmatch (p s : list Z) (nocase : bool) : option bool := stringmatchlen p s nocase.

Example glob_ex1 : stringmatchlen (chars "h[a-e]*w?rl\d") (chars "hello WORLD") true = Some true.
Proof. reflexivity. Qed.
Example glob_ex2 : stringmatchlen (chars "a*b*c*d") (chars "aXbXcXbXc") false = Some false.
Proof. reflexivity. Qed.

(** [*] does not match the empty string. *)
Example glob_star_empty : stringmatchlen (chars "*") [] false = Some false.
Proof. reflexivity. Qed.

(** * What a pattern means *)

Inductive class_item := CChar (c : Z) | CEsc (c : Z) | CRange (a b : Z).

Definition item_match (nocase : bool) (x : Z) (i : class_item) : bool :=
  match i with
  | CChar c => char_eq nocase c x
  | CEsc c => c =? x
  | CRange a b => range_match nocase a b x
  end.

(** [class_items p items rest]: [p] starts with the members [items] of a class
    and its closing bracket (or ends without one). *)
Inductive class_items : list Z -> list class_item -> list Z -> Prop :=
  | ci_end : class_items [] [] []
  | ci_close p : class_items (93 :: p) [] p
  | ci_esc c p items rest : class_items p items rest -> class_items (92 :: c :: p) (CEsc c :: items) rest
  | ci_range a b p items rest : a <> 92 -> a <> 93 -> class_items p items rest ->
      class_items (a :: 45 :: b :: p) (CRange a b :: items) rest
  | ci_char c p items rest : c <> 93 -> (c = 92 -> p = []) -> (forall b p', p <> 45 :: b :: p') ->
      class_items p items rest -> class_items (c :: p) (CChar c :: items) rest.

Inductive glob (nocase : bool) : list Z -> list Z -> Prop :=
  | glob_nil : glob nocase [] []
  | glob_star p u t : glob nocase p t -> glob nocase (42 :: p) (u ++ t)
  | glob_any p x s : glob nocase p s -> glob nocase (63 :: p) (x :: s)
  | glob_class p items rest x s : head p <> Some 94 -> class_items p items rest ->
      existsb (item_match nocase x) items = true -> glob nocase rest s -> glob nocase (91 :: p) (x :: s)
  | glob_nclass p items rest x s : class_items p items rest ->
      existsb (item_match nocase x) items = false -> glob nocase rest s -> glob nocase (91 :: 94 :: p) (x :: s)
  | glob_esc c p x s : char_eq nocase c x = true -> glob nocase p s -> glob nocase (92 :: c :: p) (x :: s)
  | glob_char c p x s : c <> 42 -> c <> 63 -> c <> 91 -> (c = 92 -> p = []) ->
      char_eq nocase c x = true -> glob nocase p s -> glob nocase (c :: p) (x :: s).

(** * Lemmas *)

Lemma class_loop_spec nocase x n : forall p m, (length p <= n)%nat ->
  exists items, class_items p items (snd (class_loop nocase x p m)) /\
    fst (class_loop nocase x p m) = m || existsb (item_match nocase x) items.
Proof.
  induction n as [| n IH]; intros p m Hn.
  { destruct p; [| simpl in Hn; lia]. exists []. split; [constructor | now rewrite orb_false_r]. }
  destruct p as [| c p1]; [exists []; split; [constructor | now rewrite orb_false_r] |].
  simpl in Hn.
  assert (forall p m i, (length p <= n)%nat -> exists items, class_items p items (snd (class_loop nocase x p (m || item_match nocase x i))) /\
    fst (class_loop nocase x p (m || item_match nocase x i)) = m || existsb (item_match nocase x) (i :: items)) as Hrec.
  { intros q k i Hq. destruct (IH q (k || item_match nocase x i) Hq) as (items & H1 & H2).
    exists items. split; [exact H1 |]. rewrite H2. cbn [existsb]. now rewrite orb_assoc. }
  cbn [class_loop]. destruct p1 as [| y p2].
  - destruct (Z.eqb_spec c 93) as [-> |]; [exists []; split; [constructor | now rewrite orb_false_r] |].
    destruct (Hrec [] m (CChar c)) as (items & H1 & H2); [simpl; lia |]. exists (CChar c :: items).
    split; [| exact H2]. constructor; try done.
  - simpl in Hn. destruct (Z.eqb_spec c 92) as [-> |].
    { destruct (Hrec p2 m (CEsc y)) as (items & H1 & H2); [lia |]. exists (CEsc y :: items).
      split; [now constructor | exact H2]. }
    destruct (Z.eqb_spec c 93) as [-> |]; [exists []; split; [constructor | now rewrite orb_false_r] |].
    destruct p2 as [| z p3].
    { destruct (Hrec [y] m (CChar c)) as (items & H1 & H2); [simpl; lia |]. exists (CChar c :: items).
      split; [| exact H2]. constructor; try done. }
    simpl in Hn. destruct (Z.eqb_spec y 45) as [-> |].
    { destruct (Hrec p3 m (CRange c z)) as (items & H1 & H2); [lia |]. exists (CRange c z :: items).
      split; [now constructor | exact H2]. }
    destruct (Hrec (y :: z :: p3) m (CChar c)) as (items & H1 & H2); [simpl; lia |]. exists (CChar c :: items).
    split; [| exact H2]. constructor; try done. intros b p'. congruence.
Qed.

Lemma class_items_det p items rest : class_items p items rest -> forall items' rest',
  class_items p items' rest' -> items = items' /\ rest = rest'.
Proof.
  induction 1 as [| p | c p items rest H IH | a b p items rest Ha Hb H IH | c p items rest Hc He Hr H IH];
    intros items' rest' H'; inversion H'; subst; try done; try congruence.
  all: try (match goal with X : class_items _ _ _ |- _ => destruct (IH _ _ X) as [-> ->] end; done).
  all: exfalso; eauto; try (match goal with X : _ = 92 -> _ |- _ => specialize (X eq_refl); done end).
Qed.

Lemma suffix_inv {A} (t : list A) x s : t `suffix_of` x :: s -> t = x :: s \/ t `suffix_of` s.
Proof.
  intros [[| y k] E]; [by left | right]. injection E as _ E. by exists k.
Qed.

Lemma glob_star_iff nocase p s : glob nocase (42 :: p) s <-> exists t, t `suffix_of` s /\ glob nocase p t.
Proof.
  split.
  - intros H. inversion H; subst; try done. eexists. split; [by eexists | done].
  - intros (t & [u ->] & H). now constructor.
Qed.

Lemma glob_last_star nocase p s : head p = Some 42 ->
  exists q, last_star p = 42 :: q /\ head q <> Some 42 /\ (glob nocase p s <-> glob nocase (42 :: q) s).
Proof.
  induction p as [| c p IH]; [done |]. intros [= ->]. cbn [last_star]. destruct p as [| d p].
  { exists []. done. }
  destruct (Z.eqb_spec d 42) as [-> |].
  - destruct (IH eq_refl) as (q & E & Hq & Hiff). exists q. split; [exact E |]. split; [exact Hq |].
    rewrite <- Hiff. rewrite !glob_star_iff. split.
    + intros (t & Ht & H). rewrite glob_star_iff in H. destruct H as (t' & Ht' & H).
      exists t'. split; [by etrans | done].
    + intros (t & Ht & H). exists t. split; [done |]. change t with ([] ++ t). now constructor.
  - exists (d :: p). split; [done |]. split; [cbn; congruence | done].
Qed.

Lemma glob_empty nocase p : glob nocase p [] <-> skip_stars p = [].
Proof.
  induction p as [| c p IH]; cbn [skip_stars]; [split; [done | constructor] |].
  destruct (Z.eqb_spec c 42) as [-> |].
  - rewrite <- IH, glob_star_iff. split.
    + intros (t & Ht & H). apply suffix_nil_inv in Ht as ->. done.
    + intros H. exists []. done.
  - split; [| done]. intros H. inversion H; subst; done.
Qed.

(** What one element of the pattern other than a star accepts, and the rest. *)
Definition elem_spec (nocase : bool) (p : list Z) : (Z -> bool) * list Z :=
  match p with
  | [] => (fun _ => false, [])
  | c :: p1 =>
      if c =? 63 then (fun _ => true, p1)
      else if c =? 91 then
        let '(not, p1) := match p1 with 94 :: p2 => (true, p2) | _ => (false, p1) end in
        (fun x => let m := fst (class_loop nocase x p1 false) in if (not : bool) then negb m else m,
         snd (class_loop nocase 0 p1 false))
      else
        let '(c, p1) := if c =? 92 then match p1 with y :: p2 => (y, p2) | [] => (c, p1) end else (c, p1) in
        (char_eq nocase c, p1)
  end.

Lemma class_loop_rest nocase x y p m k : snd (class_loop nocase x p m) = snd (class_loop nocase y p k).
Proof.
  destruct (class_loop_spec nocase x (length p) p m) as (i1 & H1 & _); [done |].
  destruct (class_loop_spec nocase y (length p) p k) as (i2 & H2 & _); [done |].
  exact (proj2 (class_items_det _ _ _ H1 _ _ H2)).
Qed.

Lemma class_loop_length nocase x p m : (length (snd (class_loop nocase x p m)) <= length p)%nat.
Proof.
  destruct (class_loop_spec nocase x (length p) p m) as (items & H & _); [done |].
  induction H; simpl; lia.
Qed.

Lemma neg_prefix (p : list Z) :
  (exists p2, p = 94 :: p2 /\ match p with 94 :: p2 => (true, p2) | _ => (false, p) end = (true, p2)) \/
  (head p <> Some 94 /\ match p with 94 :: p2 => (true, p2) | _ => (false, p) end = (false, p)).
Proof.
  destruct p as [| c p2]; [by right |]. destruct (decide (c = 94)) as [-> |]; [left; by exists p2 |].
  right. split; [cbn; congruence |]. destruct c as [| c | c]; try done.
  do 7 (try destruct c as [c | c |]); done.
Qed.

Lemma elem_length nocase c p1 : (length (snd (elem_spec nocase (c :: p1))) <= length p1)%nat.
Proof.
  unfold elem_spec. destruct (c =? 63); [done |]. destruct (c =? 91).
  - destruct (neg_prefix p1) as [(p2 & -> & _) | [_ ->]]; cbn [snd]; pose proof (class_loop_length nocase 0) as H.
    + specialize (H p2 false). simpl. lia.
    + apply H.
  - destruct (c =? 92); [| done]. destruct p1; simpl; lia.
Qed.

(** The denotation of such an element. *)
Lemma glob_elem nocase c p1 s : c <> 42 ->
  glob nocase (c :: p1) s <-> exists x s1, s = x :: s1 /\
    fst (elem_spec nocase (c :: p1)) x = true /\ glob nocase (snd (elem_spec nocase (c :: p1))) s1.
Proof.
  intros Hc. unfold elem_spec. destruct (Z.eqb_spec c 63) as [-> |].
  { split; [intros H; inversion H; subst; eauto; done |]. intros (x & s1 & -> & _ & H). now constructor. }
  destruct (Z.eqb_spec c 91) as [-> |].
  { assert (forall q x, exists items, class_items q items (snd (class_loop nocase 0 q false)) /\
      fst (class_loop nocase x q false) = existsb (item_match nocase x) items) as Hcl.
    { intros q x. destruct (class_loop_spec nocase x (length q) q false) as (items & Hi1 & Hi2); [done |].
      exists items. rewrite (class_loop_rest nocase 0 x q false false). done. }
    destruct (neg_prefix p1) as [(p2 & -> & _) | [Hh ->]]; cbn [fst snd].
    - split.
      + intros H. inversion H; subst; try done. destruct (Hcl p2 x) as (items' & Hi1 & Hi2).
        match goal with X : class_items p2 items rest |- _ => destruct (class_items_det _ _ _ X _ _ Hi1) as [-> ->] end.
        exists x, s0. rewrite Hi2. split; [done |]. split; [| done].
        match goal with X : existsb _ _ = false |- _ => now rewrite X end.
      + intros (x & s1 & -> & Hm & H). destruct (Hcl p2 x) as (items & Hi1 & Hi2). rewrite Hi2 in Hm.
        eapply glob_nclass; [exact Hi1 | now apply negb_true_iff | exact H].
    - split.
      + intros H. inversion H; subst; try done. destruct (Hcl p1 x) as (items' & Hi1 & Hi2).
        match goal with X : class_items p1 items rest |- _ => destruct (class_items_det _ _ _ X _ _ Hi1) as [-> ->] end.
        exists x, s0. rewrite Hi2. done.
      + intros (x & s1 & -> & Hm & H). destruct (Hcl p1 x) as (items & Hi1 & Hi2). rewrite Hi2 in Hm.
        eapply glob_class; [exact Hh | exact Hi1 | exact Hm | exact H]. }
  destruct (Z.eqb_spec c 92) as [-> |]; [destruct p1 as [| y p2] |]; cbn [fst snd].
  - split; [intros H; inversion H; subst; eauto |]. intros (x & s1 & -> & Hm & H). now constructor.
  - split.
    + intros H. inversion H; subst; try done; [by eauto |].
      match goal with X : 92 = 92 -> _ |- _ => specialize (X eq_refl); done end.
    + intros (x & s1 & -> & Hm & H). now constructor.
  - split; [intros H; inversion H; subst; try done; eauto |]. intros (x & s1 & -> & Hm & H). now constructor.
Qed.

(** One iteration on such an element. *)
Lemma impl_elem fuel nocase c p1 x s1 skip : c <> 42 ->
  stringmatchlen_impl (S fuel) nocase (c :: p1) (x :: s1) skip =
    if fst (elem_spec nocase (c :: p1)) x then
      match s1 with
      | [] => Some (match skip_stars (snd (elem_spec nocase (c :: p1))) with [] => true | _ :: _ => false end, skip)
      | _ :: _ => stringmatchlen_impl fuel nocase (snd (elem_spec nocase (c :: p1))) s1 skip
      end
    else Some (false, skip).
Proof.
  intros Hc. cbn [stringmatchlen_impl]. rewrite (proj2 (Z.eqb_neq c 42)) by done.
  unfold elem_spec. destruct (c =? 63); [done |]. destruct (c =? 91).
  - destruct (neg_prefix p1) as [(p2 & -> & _) | [_ ->]]; cbn [fst snd].
    + rewrite (class_loop_rest nocase 0 x p2 false false).
      destruct (class_loop nocase x p2 false) as [m q]. cbn [fst snd]. now destruct m.
    + rewrite (class_loop_rest nocase 0 x p1 false false).
      destruct (class_loop nocase x p1 false) as [m q]. cbn [fst snd]. now destruct m.
  - destruct (if c =? 92 then _ else _) as [c' q]. cbn [fst snd]. now destruct (char_eq nocase c' x).
Qed.

Definition impl_ok (nocase : bool) (p s : list Z) (r k : bool) : Prop :=
  (r = true <-> glob nocase p s) /\
  (r = false -> k = true -> forall t, t `suffix_of` s -> ~ glob nocase p t).

(** [skipLongerMatches] is only set when no suffix of the string can match. *)
Lemma star_loop_spec nocase q rec : q <> [] -> head q <> Some 42 ->
  (forall s, s <> [] -> exists r k, rec s false = Some (r, k) /\ impl_ok nocase q s r k) ->
  forall s, exists r k, star_loop rec s false = Some (r, k) /\
    (r = true <-> exists t, t `suffix_of` s /\ glob nocase q t) /\ (r = false -> k = true).
Proof.
  intros Hq Hhead Hrec. induction s as [| x s IH]; cbn [star_loop].
  - exists false, true. split; [done |]. split; [| done]. split; [done |].
    intros (t & Ht & H). apply suffix_nil_inv in Ht as ->. apply glob_empty in H.
    destruct q as [| c q]; [done |]. cbn [skip_stars] in H.
    destruct (Z.eqb_spec c 42) as [-> |]; [now cbn in Hhead | done].
  - destruct (Hrec (x :: s)) as (r & k & -> & Hr & Hk); [done |]. cbn [mbind option_bind].
    destruct r; [exists true, k; split; [done |]; split; [| done]; split; [| done];
                 intros _; exists (x :: s); split; [done | now apply Hr] |].
    destruct k.
    + exists false, true. split; [done |]. split; [| done]. split; [done |].
      intros (t & Ht & H). exfalso. exact (Hk eq_refl eq_refl t Ht H).
    + destruct IH as (r & k & E & Hiff & Hk'). exists r, k. split; [exact E |]. split; [| exact Hk'].
      rewrite Hiff. split.
      * intros (t & Ht & H). exists t. split; [by apply suffix_cons_r | done].
      * intros (t & Ht & H). destruct (suffix_inv _ _ _ Ht) as [-> | Ht']; [| by eauto].
        apply Hr in H. done.
Qed.

Lemma impl_spec nocase fuel : forall p s, (length p < fuel)%nat -> s <> [] ->
  exists r k, stringmatchlen_impl fuel nocase p s false = Some (r, k) /\ impl_ok nocase p s r k.
Proof.
  induction fuel as [| fuel IH]; intros p s Hf Hs; [lia |].
  destruct s as [| x s1]; [done |]. destruct p as [| c p1].
  { exists false, false. split; [done |]. split; [| done]. split; [done |]. intros H. inversion H. }
  simpl in Hf. destruct (decide (c = 42)) as [-> | Hc].
  - cbn [stringmatchlen_impl]. change (42 =? 42) with true. cbv iota.
    destruct (glob_last_star nocase (42 :: p1) (x :: s1) eq_refl) as (q & Eq & Hq & _).
    assert ((length q <= length p1)%nat) as Hlq.
    { clear -Eq. revert Eq. generalize 42 at 1. induction p1 as [| d p1 IH]; intros c; cbn [last_star].
      - intros [= _ <-]. done.
      - destruct (d =? 42); [intros E; specialize (IH _ E); simpl; lia | intros [= _ <-]; done]. }
    assert (forall t, glob nocase (42 :: p1) t <-> glob nocase (42 :: q) t) as Hiff.
    { intros t. destruct (glob_last_star nocase (42 :: p1) t eq_refl) as (q' & Eq' & _ & H').
      rewrite Eq in Eq'. injection Eq' as <-. exact H'. }
    rewrite Eq. destruct q as [| d q].
    { exists true, false. split; [done |]. split; [| done]. split; [| done]. intros _. apply Hiff, glob_star_iff.
      exists []. split; [apply suffix_nil | constructor]. }
    destruct (star_loop_spec nocase (d :: q) (stringmatchlen_impl fuel nocase (d :: q)) ltac:(done) Hq) with (s := x :: s1)
      as (r & k & E & Hr & Hk).
    { intros s Hs'. apply IH; [lia | done]. }
    exists r, k. split; [exact E |]. split; [now rewrite Hiff, glob_star_iff |].
    intros -> _ t Ht H. rewrite Hiff, glob_star_iff in H. destruct H as (t' & Ht' & H).
    assert (false = true) as [=]. apply Hr. exists t'. split; [by etrans | done].
  - rewrite impl_elem by done. pose proof (elem_length nocase c p1) as Hl.
    pose proof (fun s => glob_elem nocase c p1 s Hc) as Hg.
    destruct (elem_spec nocase (c :: p1)) as [test rest]. cbn [fst snd] in *.
    destruct (test x) eqn:Et.
    2:{ exists false, false. split; [done |]. split; [| done]. split; [done |]. rewrite Hg.
        intros (y & s2 & [= <- <-] & Hy & _). congruence. }
    destruct s1 as [| y s2].
    + eexists _, false. split; [reflexivity |]. split; [| done]. rewrite Hg. split.
      * intros H. exists x, []. split; [done |]. split; [done |]. apply glob_empty.
        destruct (skip_stars rest); done.
      * intros (x' & s' & [= <- <-] & _ & H). apply glob_empty in H. now rewrite H.
    + destruct (IH rest (y :: s2)) as (r & k & E & Hr & Hk); [lia | done |].
      exists r, k. split; [exact E |]. split.
      * rewrite Hr, Hg. split; [eauto |]. intros (x' & s' & [= <- <-] & _ & H). done.
      * intros Hr0 Hk0 t Ht H. rewrite Hg in H. destruct H as (x' & s' & -> & _ & H).
        apply (Hk Hr0 Hk0 s'); [| done]. destruct (suffix_inv _ _ _ Ht) as [[= -> ->] | Ht']; [done |].
        etrans; [| exact Ht']. by apply suffix_cons_r.
Qed.

(** * Claim *)

(** C33: [stringmatchlen] always returns, and decides whether a non-empty string
    matches the pattern in the declarative sense ([*] any sequence, [?] any
    character, classes with ranges, negation and escapes, optional case
    folding), also with the [skipLongerMatches] short cut that makes nested
    stars cheap; the empty string is only matched by the empty pattern. *)
Theorem stringmatchlen_correct p s nocase :
  exists b, stringmatchlen p s nocase = Some b /\
    (s <> [] -> (b = true <-> glob nocase p s)) /\ (s = [] -> (b = true <-> p = [])).
Proof.
  unfold stringmatchlen. destruct s as [| x s].
  - destruct p as [| c p]; [exists true | exists false]; done.
  - destruct (impl_spec nocase (S (length p)) p (x :: s)) as (r & k & E & Hr & _); [lia | done |].
    exists r. rewrite E. split; [done |]. split; done.
Qed.
