(* ===== verification/Bits.v ===== *)
(** Bit level reasoning shared by the checksum and bitmap components: the
    bits of every integer operation, exclusive or as a linear structure, and
    polynomials over GF(2) (an integer is the polynomial of its bits). *)
From Stdlib Require Import Btauto.
From S2P Require Import Prelude Strnum.

(** * The bits of the operations *)

Lemma testbit_shiftl a n i : 0 <= i -> Z.testbit (Z.shiftl a n) i = Z.testbit a (i - n).
Proof. intros. by apply Z.shiftl_spec. Qed.

Lemma testbit_shiftr a n i : 0 <= i -> Z.testbit (Z.shiftr a n) i = Z.testbit a (i + n).
Proof. intros. by apply Z.shiftr_spec. Qed.

Lemma testbit_mod2 a n i : 0 <= n -> Z.testbit (a mod 2 ^ n) i = (i <? n) && Z.testbit a i.
Proof.
  intros Hn. destruct (Z.ltb_spec i n).
  - by rewrite Z.mod_pow2_bits_low.
  - by rewrite Z.mod_pow2_bits_high.
Qed.

Lemma testbit_above a n i : 0 <= a < 2 ^ n -> n <= i -> Z.testbit a i = false.
Proof.
  intros Ha Hi. assert (0 <= n).
  { destruct (Z.le_gt_cases 0 n); [done |]. rewrite Z.pow_neg_r in Ha by lia. lia. }
  rewrite <- (Z.mod_small a (2 ^ n)) by lia. rewrite testbit_mod2 by lia.
  by rewrite (proj2 (Z.ltb_ge i n)).
Qed.

Lemma testbit_pow2 k i : 0 <= k -> Z.testbit (2 ^ k) i = (i =? k).
Proof. intros. rewrite Z.pow2_bits_eqb by lia. apply Z.eqb_sym. Qed.

Lemma testbit_ones n i : 0 <= n -> 0 <= i -> Z.testbit (Z.ones n) i = (i <? n).
Proof.
  intros Hn Hi. destruct (Z.ltb_spec i n); [apply Z.ones_spec_low | apply Z.ones_spec_high]; lia.
Qed.

Lemma testbit_lnot a i : 0 <= i -> Z.testbit (Z.lnot a) i = negb (Z.testbit a i).
Proof. intros. by apply Z.lnot_spec. Qed.

Lemma testbit_b2z b i : 0 <= i -> Z.testbit (Z.b2z b) i = b && (i =? 0).
Proof.
  intros Hi. destruct (Z.eqb_spec i 0) as [-> |].
  - rewrite Z.b2z_bit0. by rewrite andb_true_r.
  - rewrite andb_false_r. destruct b; cbn [Z.b2z]; [| apply Z.bits_0]. apply (testbit_above 1 1); [lia | lia].
Qed.

Lemma u8_pow z : u8 z = z mod 2 ^ 8. Proof. done. Qed.
Lemma u16_pow z : u16 z = z mod 2 ^ 16. Proof. done. Qed.
Lemma u32_pow z : u32 z = z mod 2 ^ 32. Proof. done. Qed.
Lemma u64_pow z : u64 z = z mod 2 ^ 64. Proof. done. Qed.

(** [a] and [b] have the same bits: case analysis on every comparison the bit
    index is in. *)
Ltac bit_rw :=
  rewrite ?u8_pow, ?u16_pow, ?u32_pow, ?u64_pow;
  repeat first
    [ rewrite Z.lxor_spec | rewrite Z.land_spec | rewrite Z.lor_spec | rewrite Z.bits_0
    | rewrite testbit_shiftl by lia | rewrite testbit_shiftr by lia | rewrite testbit_mod2 by lia
    | rewrite testbit_ones by lia | rewrite testbit_lnot by lia | rewrite testbit_b2z by lia
    | rewrite testbit_pow2 by lia ].
Ltac bit_cases :=
  repeat match goal with
  | |- context [?a <? ?b] => destruct (Z.ltb_spec a b)
  | |- context [?a =? ?b] => destruct (Z.eqb_spec a b)
  end; cbn [andb orb xorb negb];
  rewrite ?andb_false_r, ?andb_true_r, ?orb_false_r, ?orb_true_r, ?xorb_false_r.
Ltac bits i := apply Z.bits_inj'; intros i ?Hi; bit_rw; bit_cases.

(** Equations between exclusive ors of the same words. *)
Ltac xor_solve :=
  apply Z.bits_inj'; intros ? _; rewrite ?Z.lxor_spec, ?Z.bits_0;
  repeat match goal with |- context [Z.testbit ?x ?i] => generalize (Z.testbit x i); intro end; btauto.

Lemma land_ones_mod a n : 0 <= n -> Z.land a (2 ^ n - 1) = a mod 2 ^ n.
Proof. intros. replace (2 ^ n - 1) with (Z.ones n) by (rewrite Z.ones_equiv; lia). by apply Z.land_ones. Qed.

Lemma land_pow2 a k : 0 <= k -> Z.land a (2 ^ k) = if Z.testbit a k then 2 ^ k else 0.
Proof.
  intros Hk. bits i; destruct (Z.testbit a k) eqn:E; bit_rw; bit_cases; try done.
  - by subst i.
  - by subst i.
Qed.

Lemma mod2_lxor a b n : 0 <= n -> Z.lxor a b mod 2 ^ n = Z.lxor (a mod 2 ^ n) (b mod 2 ^ n).
Proof. intros. bits i; done. Qed.

Lemma lxor_bound a b n : 0 <= n -> 0 <= a < 2 ^ n -> 0 <= b < 2 ^ n -> 0 <= Z.lxor a b < 2 ^ n.
Proof.
  intros Hn Ha Hb. rewrite <- (Z.mod_small a (2 ^ n)), <- (Z.mod_small b (2 ^ n)), <- mod2_lxor by lia.
  apply Z.mod_pos_bound, Z.pow_pos_nonneg; lia.
Qed.

Lemma shiftr_bound a n m : 0 <= n -> 0 <= m -> 0 <= a < 2 ^ (n + m) -> 0 <= Z.shiftr a m < 2 ^ n.
Proof.
  intros Hn Hm Ha. rewrite Z.shiftr_div_pow2 by lia. split; [apply Z.div_pos; lia |].
  apply Z.div_lt_upper_bound; [apply Z.pow_pos_nonneg; lia |]. rewrite <- Z.pow_add_r by lia. rewrite Z.add_comm. lia.
Qed.

Lemma lxor_cancel a b : Z.lxor (Z.lxor a b) b = a.
Proof. by rewrite Z.lxor_assoc, Z.lxor_nilpotent, Z.lxor_0_r. Qed.

(** Splitting off the low bits. *)
Lemma lxor_split a n : 0 <= n -> a = Z.lxor (a mod 2 ^ n) (Z.shiftl (Z.shiftr a n) n).
Proof.
  intros Hn. bits i.
  - rewrite (Z.testbit_neg_r _ (i - n)) by lia. by rewrite xorb_false_r.
  - rewrite testbit_shiftr by lia. cbn [xorb]. f_equal. lia.
Qed.

Lemma lxor_add a b n : 0 <= n -> 0 <= a < 2 ^ n -> Z.lxor a (Z.shiftl b n) = a + b * 2 ^ n.
Proof.
  intros Hn Ha. rewrite <- lor_add_shift by lia. rewrite <- Z.shiftl_mul_pow2 by lia.
  symmetry. rewrite <- Z.lxor_lor; [done |].
  bits i. destruct (Z.lt_ge_cases i n) as [H | H].
  - by rewrite (Z.testbit_neg_r b), andb_false_r by lia.
  - by rewrite (testbit_above a n) by lia.
Qed.

Lemma fold_left_cons {A B} (f : A -> B -> A) l b a : fold_left f (b :: l) a = fold_left f l (f a b).
Proof. done. Qed.

(** * Linear maps *)

(** Functions on words that commute with exclusive or. *)
Definition xlinear (f : Z -> Z) : Prop := forall a b, f (Z.lxor a b) = Z.lxor (f a) (f b).

Lemma xlinear_iter f n : xlinear f -> xlinear (Nat.iter n f).
Proof. intros Hf. induction n as [| n IH]; intros a b; [done |]. rewrite !Nat.iter_succ. by rewrite IH, Hf. Qed.

Lemma xlinear_0 f : xlinear f -> f 0 = 0.
Proof. intros Hf. specialize (Hf 0 0). rewrite Z.lxor_nilpotent in Hf. by rewrite Hf, Z.lxor_nilpotent. Qed.

(** * Polynomials over GF(2) *)

(** The product of the polynomials [a] and [g]. *)
Fixpoint pclmul (p : positive) (g : Z) : Z :=
  match p with
  | xH => g
  | xO p => Z.shiftl (pclmul p g) 1
  | xI p => Z.lxor (Z.shiftl (pclmul p g) 1) g
  end.
Definition clmul (a g : Z) : Z := match a with Zpos p => pclmul p g | _ => 0 end.

Lemma clmul_snoc q (b : bool) g : 0 <= q ->
  clmul (2 * q + Z.b2z b) g = Z.lxor (Z.shiftl (clmul q g) 1) (if b then g else 0).
Proof.
  intros Hq. destruct q as [| p | p]; [| | lia].
  - destruct b; cbn [Z.b2z Z.mul Z.add clmul pclmul]; rewrite Z.shiftl_0_l, Z.lxor_0_l; done.
  - destruct b; cbn [Z.b2z].
    + done.
    + rewrite Z.add_0_r, Z.lxor_0_r. done.
Qed.

(** The word whose bits, from the most significant one, are [l]. *)
Definition word_of_bits (l : list bool) : Z := fold_left (fun v b => 2 * v + Z.b2z b) l 0.

Lemma word_of_bits_snoc l b : word_of_bits (l ++ [b]) = 2 * word_of_bits l + Z.b2z b.
Proof. unfold word_of_bits. by rewrite fold_left_app. Qed.

Lemma word_of_bits_bound l : 0 <= word_of_bits l < 2 ^ zlen l.
Proof.
  induction l as [| b l IH] using rev_ind; [done |].
  rewrite word_of_bits_snoc, zlen_app, zlen_cons, (@zlen_nil bool), Z.add_0_r, Z.pow_add_r by (pose proof (zlen_nonneg l); lia).
  destruct b; cbn [Z.b2z]; lia.
Qed.

(** * Strings as lists of bits, most significant bit of each byte first *)

Definition byte_msb (b : Z) : list bool := map (Z.testbit b) [7; 6; 5; 4; 3; 2; 1; 0].

Definition bits_of (s : list Z) : list bool := concat (map byte_msb s).

Lemma length_byte_msb b : length (byte_msb b) = 8%nat.
Proof. done. Qed.

Lemma zlen_byte_msb b : zlen (byte_msb b) = 8.
Proof. done. Qed.

Lemma bits_of_cons b s : bits_of (b :: s) = byte_msb b ++ bits_of s.
Proof. done. Qed.

Lemma bits_of_app s s' : bits_of (s ++ s') = bits_of s ++ bits_of s'.
Proof. unfold bits_of. by rewrite map_app, concat_app. Qed.

Lemma zlen_bits_of s : zlen (bits_of s) = 8 * zlen s.
Proof.
  induction s as [| b s IH]; [done |]. rewrite bits_of_cons, zlen_app, zlen_byte_msb, IH, zlen_cons. lia.
Qed.

(** The [n] bits of a number, most significant first. *)
Fixpoint nbits (n : nat) (v : Z) : list bool :=
  match n with O => [] | S n => Z.testbit v (Z.of_nat n) :: nbits n v end.

Lemma length_nbits n v : length (nbits n v) = n.
Proof. induction n as [| n IH]; cbn; [done | by rewrite IH]. Qed.

Lemma nbits_lookup n v k : (k < n)%nat -> nbits n v !! k = Some (Z.testbit v (Z.of_nat n - 1 - Z.of_nat k)).
Proof.
  revert k. induction n as [| n IH]; intros k Hk; [lia |]. destruct k as [| k]; cbn [nbits lookup list_lookup].
  - do 2 f_equal. lia.
  - rewrite IH by lia. do 2 f_equal. lia.
Qed.

Lemma byte_msb_nbits b : byte_msb b = nbits 8 b.
Proof. done. Qed.

Lemma word_of_bits_app l l' : word_of_bits (l ++ l') = word_of_bits l * 2 ^ zlen l' + word_of_bits l'.
Proof.
  induction l' as [| b l' IH] using rev_ind.
  - rewrite app_nil_r. change (2 ^ zlen []) with 1. cbn [word_of_bits fold_left]. lia.
  - rewrite app_assoc, !word_of_bits_snoc, IH, zlen_app, zlen_cons, (@zlen_nil bool), Z.add_0_r.
    rewrite Z.pow_add_r by (pose proof (zlen_nonneg l'); lia). lia.
Qed.

(** Bit [i] of the word of [l], from the right. *)
Lemma testbit_word_of_bits l i : 0 <= i < zlen l ->
  Z.testbit (word_of_bits l) i = default false (l !! Z.to_nat (zlen l - 1 - i)).
Proof.
  revert i. induction l as [| b l IH] using rev_ind; intros i Hi; [unfold zlen in Hi; cbn in Hi; lia |].
  rewrite word_of_bits_snoc. rewrite zlen_app, zlen_cons, (@zlen_nil bool), Z.add_0_r in *.
  destruct (Z.eq_dec i 0) as [-> |].
  - replace (Z.to_nat (zlen l + 1 - 1 - 0)) with (length l) by (unfold zlen; lia).
    rewrite lookup_app_r, Nat.sub_diag by lia. cbn [lookup list_lookup default]. rewrite Z.bit0_odd.
    destruct b; cbn [Z.b2z]; rewrite Z.odd_add, Z.odd_mul; done.
  - rewrite lookup_app_l by (unfold zlen in *; lia).
    replace (zlen l + 1 - 1 - i) with (zlen l - 1 - (i - 1)) by lia. rewrite <- IH by lia.
    replace i with (Z.succ (i - 1)) at 1 by lia. destruct b; cbn [Z.b2z].
    + by rewrite Z.testbit_odd_succ by lia.
    + rewrite Z.add_0_r. by rewrite Z.testbit_even_succ by lia.
Qed.

Lemma word_of_bits_nbits n v : word_of_bits (nbits n v) = v mod 2 ^ Z.of_nat n.
Proof.
  apply Z.bits_inj'. intros i Hi. rewrite testbit_mod2 by lia.
  assert (zlen (nbits n v) = Z.of_nat n) as Hl by (unfold zlen; by rewrite length_nbits).
  destruct (Z.ltb_spec i (Z.of_nat n)); cbn [andb].
  - rewrite testbit_word_of_bits, Hl by lia.
    rewrite nbits_lookup by lia. cbn. f_equal. lia.
  - apply (testbit_above _ (Z.of_nat n)); [rewrite <- Hl; apply word_of_bits_bound | lia].
Qed.

Lemma word_of_byte b : byte b -> word_of_bits (byte_msb b) = b.
Proof. intros Hb. rewrite byte_msb_nbits, word_of_bits_nbits. by apply Z.mod_small. Qed.

Lemma le_dec_cons_lxor b l : byte b -> le_dec (b :: l) = Z.lxor b (Z.shiftl (le_dec l) 8).
Proof. intros Hb. rewrite lxor_add by (unfold byte in Hb; lia). cbn [le_dec]. lia. Qed.
