(* ===== verification/Server.v ===== *)
(** The state commands act on (server.h, object.c, db.c, networking.c): the
    keys of the client's database, the counter of changes, the keys signalled
    as modified and the replies sent.

    A value is a string (its bytes, or an integer for the integer encoding) or
    of another type.  Keys have no time to live; access times, statistics,
    keyspace notifications and the waking of blocked clients are left out.
    The arguments of a command are those of the client, whose number the
    command table has checked against the arity.  [None] is an access out of
    bounds, a failed assertion or a panic. *)
From stdpp Require Import strings gmap.
From S2P Require Import Prelude Endian Strnum.

Inductive value := VRaw (s : list Z) | VInt (n : Z) | VOther.
Inductive reply := RInt (n : Z) | RNull | RErr (msg : string) | RArrayLen (n : Z) | RBulk (s : list Z) | ROk | RMapLen (n : Z) | RSetLen (n : Z).

#[export] Instance value_eq_dec : EqDecision value.
Proof. solve_decision. Defined.
#[export] Instance reply_eq_dec : EqDecision reply.
Proof. solve_decision. Defined.

(** The state, for values of a type [V]. *)
Record srv_of (V : Type) := Srv { db : gmap (list Z) V; dirty : Z; modified : list (list Z); replies : list reply }.
Arguments Srv {V}. Arguments db {V}. Arguments dirty {V}. Arguments modified {V}. Arguments replies {V}.
Notation srv := (srv_of value).

Section state.
Context {V : Type}.
Implicit Types (s : srv_of V).

Definition addReply (r : reply) s : srv_of V := Srv (db s) (dirty s) (modified s) (replies s ++ [r]).
Definition addReplyLongLong (n : Z) : srv_of V -> srv_of V := addReply (RInt n).
Definition addReplyError (msg : string) : srv_of V -> srv_of V := addReply (RErr msg).
(** [fullname] is the name of the client's command in the command table. *)
Definition addReplyErrorArity (fullname : string) : srv_of V -> srv_of V :=
  addReplyError ("wrong number of arguments for '" ++ fullname ++ "' command")%string.
Definition signalModifiedKey (key : list Z) s : srv_of V := Srv (db s) (dirty s) (modified s ++ [key]) (replies s).
Definition add_dirty (n : Z) s : srv_of V := Srv (db s) (dirty s + n) (modified s) (replies s).
Definition set_value (key : list Z) (v : V) s : srv_of V := Srv (<[key := v]> (db s)) (dirty s) (modified s) (replies s).

(** [setKey] and [dbDelete] (db.c). *)
Definition setKey (key : list Z) (v : V) s : srv_of V := signalModifiedKey key (set_value key v s).
Definition dbDelete (key : list Z) s : srv_of V := Srv (delete key (db s)) (dirty s) (modified s) (replies s).
End state.

Definition syntaxerr : string := "syntax error".
Definition wrongtypeerr : string := "WRONGTYPE Operation against a key holding the wrong kind of value".

(** The characters of an argument up to the first NUL, and the one at [p[0]]. *)
Fixpoint cstr (p : list Z) : list Z :=
  match p with [] => [] | c :: p => if c =? 0 then [] else c :: cstr p end.
Definition first_char (p : list Z) : Z := match p with c :: _ => c | [] => 0 end.
Definition strcasecmp_eq (p : list Z) (lit : string) : bool := strcaseeq (cstr p) lit.

(** [checkType(c,o,OBJ_STRING)] *)
Definition checkType (o : option value) (s : srv) : srv * bool :=
  match o with Some VOther => (addReplyError wrongtypeerr s, true) | _ => (s, false) end.

Section numbers.
Context {V : Type}.

Definition getLongLongFromObjectOrReply (o : list Z) (msg : option string) (s : srv_of V) : srv_of V * option Z :=
  match string2ll o with
  | Some v => (s, Some v)
  | None => (addReplyError (default "value is not an integer or out of range"%string msg) s, None)
  end.

(** [long] has the range of [long long]. *)
Definition getLongFromObjectOrReply (o : list Z) (msg : option string) (s : srv_of V) : srv_of V * option Z :=
  let '(s, v) := getLongLongFromObjectOrReply o msg s in
  match v with
  | None => (s, None)
  | Some v =>
      if (v <? LLONG_MIN) || (LLONG_MAX <? v) then (addReplyError (default "value is out of range"%string msg) s, None)
      else (s, Some v)
  end.
End numbers.

(** * Objects *)

Section objects.
(** What the stack holds where the buffers of [LONG_STR_SIZE] and of 32 bytes
    are. *)
Context (llbuf buf32 : list Z).

Definition getObjectReadOnlyString (o : option value) : option (list Z) :=
  match o with
  | Some (VInt n) => '(buf, len) ← ll2string llbuf LONG_STR_SIZE n; Some (take (Z.to_nat len) buf)
  | Some (VRaw p) => Some p
  | Some VOther => None
  | None => Some []
  end.

(** [getDecodedObject], and the conversion in [getbitCommand]: a buffer of 32
    bytes. *)
Definition decoded (o : option value) : option (list Z) :=
  match o with
  | Some (VInt n) => '(buf, len) ← ll2string buf32 32 n; Some (take (Z.to_nat len) buf)
  | Some (VRaw p) => Some p
  | _ => None
  end.
End objects.

(** * Values *)

(** The bytes of a value, and the values a database has: strings of bytes of a
    length that can be counted in bits, and integers of 64 bits. *)
Definition text (v : value) : list Z := match v with VRaw p => p | VInt n => sdec n | VOther => [] end.
Definition text_at (s : srv) (key : list Z) : list Z := from_option text [] (db s !! key).

Definition MAXLEN : Z := Z.shiftr LLONG_MAX 3.
Definition value_ok (v : value) : Prop :=
  match v with VRaw p => bytes p /\ zlen p <= MAXLEN | VInt n => is_i64 n | VOther => True end.
Definition srv_ok (s : srv) : Prop := map_Forall (fun _ => value_ok) (db s).

Definition is_string (o : option value) : Prop := o <> Some VOther.

Section values.
Context (llbuf buf32 : list Z) (Hll : zlen llbuf = LONG_STR_SIZE) (H32 : zlen buf32 = 32).

Lemma decoded_spec v : (forall n, v = VInt n -> is_i64 n) -> is_string (Some v) -> decoded buf32 (Some v) = Some (text v).
Proof.
  intros Hv Hs. destruct v as [p | n |]; [done | | by destruct Hs].
  apply ll2string_text; [by apply Hv | lia | lia].
Qed.

Lemma getObjectReadOnlyString_spec o : (forall n, o = Some (VInt n) -> is_i64 n) -> is_string o ->
  getObjectReadOnlyString llbuf o = Some (from_option text [] o).
Proof.
  intros Hv Hs. destruct o as [[p | n |] |]; [done | | by destruct Hs | done].
  apply ll2string_text; [by apply Hv | unfold LONG_STR_SIZE; lia | lia].
Qed.
End values.

Lemma text_ok v : value_ok v -> bytes (text v) /\ zlen (text v) <= MAXLEN.
Proof.
  unfold MAXLEN. change (Z.shiftr LLONG_MAX 3) with 1152921504606846975.
  destruct v as [p | n |]; cbn [text value_ok]; [done | |].
  - intros Hn. pose proof (zlen_sdec n Hn). split; [by apply sdec_bytes | lia].
  - intros _. split; [apply Forall_nil_2 | by rewrite zlen_nil].
Qed.

Lemma text_at_ok s key : srv_ok s -> bytes (text_at s key) /\ zlen (text_at s key) <= MAXLEN.
Proof.
  intros Hs. unfold text_at. destruct (db s !! key) as [v |] eqn:E; cbn [from_option].
  - apply text_ok. exact (Hs key v E).
  - split; [apply Forall_nil_2 | by rewrite zlen_nil].
Qed.

Lemma srv_ok_int s key n : srv_ok s -> db s !! key = Some (VInt n) -> is_i64 n.
Proof. intros Hs E. exact (Hs key _ E). Qed.

Lemma checkType_string o s : is_string o -> checkType o s = (s, false).
Proof. intros Ho. by destruct o as [[] |]; [| | destruct Ho |]. Qed.

(** What a command does to the state: the value stored at the key, the number
    of changes (the key is signalled when there is one) and the reply. *)
Definition after (key p : list Z) (changes : Z) (r : reply) (s : srv) : srv :=
  Srv (<[key := VRaw p]> (db s)) (dirty s + changes) (modified s ++ (if changes =? 0 then [] else [key])) (replies s ++ [r]).

Lemma text_at_after key p n r s : text_at (after key p n r s) key = p.
Proof. unfold text_at, after. cbn [db]. by rewrite lookup_insert_eq. Qed.

(** * Indexes *)

(** An index of the user in a sequence of [tot] units: from the end when it is
    negative, not before the beginning. *)
Definition norm (tot i : Z) : Z := Z.max 0 (if i <? 0 then tot + i else i).
