(* ===== verification/Crc.v ===== *)
(** crc16.c, crc64.c, crcspeed.c and the key slots of cluster.c: the CRC-16 that
    maps keys to cluster slots, and the CRC-64 of dump files, in its bit by bit
    form and in the form that looks up eight bytes at a time, on both byte
    orders.

    A lookup table of eight rows is a list of rows.  Every access to a buffer
    or a table is checked: [None] is an access out of bounds. *)
From S2P Require Import Prelude Endian Strnum Glob Bits.

(** * CRC-16 *)

Definition crc16tab : list Z :=
  [0x0000; 0x1021; 0x2042; 0x3063; 0x4084; 0x50a5; 0x60c6; 0x70e7;
   0x8108; 0x9129; 0xa14a; 0xb16b; 0xc18c; 0xd1ad; 0xe1ce; 0xf1ef;
   0x1231; 0x0210; 0x3273; 0x2252; 0x52b5; 0x4294; 0x72f7; 0x62d6;
   0x9339; 0x8318; 0xb37b; 0xa35a; 0xd3bd; 0xc39c; 0xf3ff; 0xe3de;
   0x2462; 0x3443; 0x0420; 0x1401; 0x64e6; 0x74c7; 0x44a4; 0x5485;
   0xa56a; 0xb54b; 0x8528; 0x9509; 0xe5ee; 0xf5cf; 0xc5ac; 0xd58d;
   0x3653; 0x2672; 0x1611; 0x0630; 0x76d7; 0x66f6; 0x5695; 0x46b4;
   0xb75b; 0xa77a; 0x9719; 0x8738; 0xf7df; 0xe7fe; 0xd79d; 0xc7bc;
   0x48c4; 0x58e5; 0x6886; 0x78a7; 0x0840; 0x1861; 0x2802; 0x3823;
   0xc9cc; 0xd9ed; 0xe98e; 0xf9af; 0x8948; 0x9969; 0xa90a; 0xb92b;
   0x5af5; 0x4ad4; 0x7ab7; 0x6a96; 0x1a71; 0x0a50; 0x3a33; 0x2a12;
   0xdbfd; 0xcbdc; 0xfbbf; 0xeb9e; 0x9b79; 0x8b58; 0xbb3b; 0xab1a;
   0x6ca6; 0x7c87; 0x4ce4; 0x5cc5; 0x2c22; 0x3c03; 0x0c60; 0x1c41;
   0xedae; 0xfd8f; 0xcdec; 0xddcd; 0xad2a; 0xbd0b; 0x8d68; 0x9d49;
   0x7e97; 0x6eb6; 0x5ed5; 0x4ef4; 0x3e13; 0x2e32; 0x1e51; 0x0e70;
   0xff9f; 0xefbe; 0xdfdd; 0xcffc; 0xbf1b; 0xaf3a; 0x9f59; 0x8f78;
   0x9188; 0x81a9; 0xb1ca; 0xa1eb; 0xd10c; 0xc12d; 0xf14e; 0xe16f;
   0x1080; 0x00a1; 0x30c2; 0x20e3; 0x5004; 0x4025; 0x7046; 0x6067;
   0x83b9; 0x9398; 0xa3fb; 0xb3da; 0xc33d; 0xd31c; 0xe37f; 0xf35e;
   0x02b1; 0x1290; 0x22f3; 0x32d2; 0x4235; 0x5214; 0x6277; 0x7256;
   0xb5ea; 0xa5cb; 0x95a8; 0x8589; 0xf56e; 0xe54f; 0xd52c; 0xc50d;
   0x34e2; 0x24c3; 0x14a0; 0x0481; 0x7466; 0x6447; 0x5424; 0x4405;
   0xa7db; 0xb7fa; 0x8799; 0x97b8; 0xe75f; 0xf77e; 0xc71d; 0xd73c;
   0x26d3; 0x36f2; 0x0691; 0x16b0; 0x6657; 0x7676; 0x4615; 0x5634;
   0xd94c; 0xc96d; 0xf90e; 0xe92f; 0x99c8; 0x89e9; 0xb98a; 0xa9ab;
   0x5844; 0x4865; 0x7806; 0x6827; 0x18c0; 0x08e1; 0x3882; 0x28a3;
   0xcb7d; 0xdb5c; 0xeb3f; 0xfb1e; 0x8bf9; 0x9bd8; 0xabbb; 0xbb9a;
   0x4a75; 0x5a54; 0x6a37; 0x7a16; 0x0af1; 0x1ad0; 0x2ab3; 0x3a92;
   0xfd2e; 0xed0f; 0xdd6c; 0xcd4d; 0xbdaa; 0xad8b; 0x9de8; 0x8dc9;
   0x7c26; 0x6c07; 0x5c64; 0x4c45; 0x3ca2; 0x2c83; 0x1ce0; 0x0cc1;
   0xef1f; 0xff3e; 0xcf5d; 0xdf7c; 0xaf9b; 0xbfba; 0x8fd9; 0x9ff8;
   0x6e17; 0x7e36; 0x4e55; 0x5e74; 0x2e93; 0x3eb2; 0x0ed1; 0x1ef0].

(** [len] counts down as the counter of the loop goes up. *)
Fixpoint crc16_loop (buf : list Z) (len : nat) (p crc : Z) : option Z :=
  match len with
  | O => Some crc
  | S len =>
      b ← rd buf p;
      t ← rd crc16tab (Z.land (Z.lxor (Z.shiftr crc 8) (schar b)) 0x00FF);
      crc16_loop buf len (p + 1) (u16 (Z.lxor (Z.shiftl crc 8) t))
  end.

(** The CRC of the [len] bytes at offset [p] of [buf]. *)
Definition crc16 (buf : list Z) (p len : Z) : option Z := crc16_loop buf (Z.to_nat len) p 0.

(** [for (s = p; s < keylen; s++) if (key[s] == c) break;] *)
Fixpoint find_char (fuel : nat) (key : list Z) (keylen s c : Z) : option Z :=
  if s <? keylen then
    match fuel with
    | O => None
    | S fuel => b ← rd key s; if b =? c then Some s else find_char fuel key keylen (s + 1) c
    end
  else Some s.

Definition keyHashSlot (key : list Z) (keylen : Z) : option Z :=
  s ← find_char (Z.to_nat keylen) key keylen 0 123;
  if s =? keylen then h ← crc16 key 0 keylen; Some (Z.land h 0x3FFF)
  else
    e ← find_char (Z.to_nat keylen) key keylen (s + 1) 125;
    if (e =? keylen) || (e =? s + 1) then h ← crc16 key 0 keylen; Some (Z.land h 0x3FFF)
    else h ← crc16 key (s + 1) (e - s - 1); Some (Z.land h 0x3FFF).

(** * CRC-64, bit by bit *)

Definition POLY : Z := 0xad93d23594c935a9.

Definition crc_reflect (data data_len : Z) : Z :=
  let step '(data, ret) :=
    let data := Z.shiftr data 1 in
    (data, u64 (Z.lor (Z.shiftl ret 1) (Z.land data 0x01))) in
  snd (Nat.iter (Z.to_nat (data_len - 1)) step (data, Z.land data 0x01)).

(** The bits of one byte; [i] goes from 1 to 128, nine tests of the loop. *)
Fixpoint _crc64_bits (fuel : nat) (i c crc : Z) : option Z :=
  if Z.land i 0xff =? 0 then Some crc
  else
    match fuel with
    | O => None
    | S fuel =>
        let bit := Z.land crc 0x8000000000000000 in
        let bit := if negb (Z.land c i =? 0) then (if bit =? 0 then 1 else 0) else bit in
        let crc := u64 (Z.shiftl crc 1) in
        _crc64_bits fuel (u8 (Z.shiftl i 1)) c (if negb (bit =? 0) then Z.lxor crc POLY else crc)
    end.

Definition _crc64 (crc : Z) (in_data : list Z) (len : Z) : option Z :=
  crc ← for_ (Z.to_nat len) 0 (fun offset crc =>
    c ← rd in_data offset;
    crc ← _crc64_bits 8 0x01 c crc;
    Some (Z.land crc 0xffffffffffffffff)) crc;
  Some (Z.lxor (crc_reflect (Z.land crc 0xffffffffffffffff) 64) 0x0000000000000000).

(** * Lookup tables *)

Definition crcfn64 : Type := Z -> list Z -> Z -> option Z.
Notation crc_table := (list (list Z)).

(** [table[k][n]] and [table[k][n] = v]. *)
Definition tget (t : crc_table) (k n : Z) : option Z := row ← t !! Z.to_nat k; rd row n.
Definition tset (t : crc_table) (k n v : Z) : option crc_table :=
  row ← t !! Z.to_nat k; row ← wrn row n [v]; Some (<[Z.to_nat k := row]> t).

(** [static uint64_t crc64_table[8][256] = {{0}};] *)
Definition zero_table : crc_table := replicate 8 (replicate 256 0).

Definition crcspeed64little_init (crcfn : crcfn64) (table : crc_table) : option crc_table :=
  table ← for_ 256 0 (fun n table => crc ← crcfn 0 [u8 n] 1; tset table 0 n crc) table;
  for_ 256 0 (fun n table =>
    crc ← tget table 0 n;
    '(table, crc) ← for_ 7 1 (fun k '(table, crc) =>
      t ← tget table 0 (Z.land crc 0xff);
      let crc := Z.lxor t (Z.shiftr crc 8) in
      table ← tset table k n crc; Some (table, crc)) (table, crc);
    Some table) table.

(** Without the compiler's byte swap. *)
Definition rev8 (a : Z) : Z :=
  let m := 0xff00ff00ff00ff in
  let a := u64 (Z.lor (Z.land (Z.shiftr a 8) m) (Z.shiftl (Z.land a m) 8)) in
  let m := 0xffff0000ffff in
  let a := u64 (Z.lor (Z.land (Z.shiftr a 16) m) (Z.shiftl (Z.land a m) 16)) in
  u64 (Z.lor (Z.shiftr a 32) (Z.shiftl a 32)).

Definition crcspeed64big_init (fn : crcfn64) (big_table : crc_table) : option crc_table :=
  big_table ← crcspeed64little_init fn big_table;
  for_ 8 0 (fun k big_table =>
    for_ 256 0 (fun n big_table => x ← tget big_table k n; tset big_table k n (rev8 x)) big_table) big_table.

(** * CRC-64, eight bytes at a time *)

Section speed.
Context `{Host}.
(** The address of the buffer, and its content; [p] is [next - buf]. *)
Context (addr : Z) (buf : list Z).

(** The state of the three loops: the register, [next] and [len]. *)
Definition crc_state : Type := Z * Z * Z.

(** The loops; each turn consumes at least one of the [len] bytes. *)
Definition unaligned '((crc, p, len) : crc_state) : bool := negb (len =? 0) && negb (Z.land (addr + p) 7 =? 0).
Definition has_word '((crc, p, len) : crc_state) : bool := 8 <=? len.
Definition has_byte '((crc, p, len) : crc_state) : bool := negb (len =? 0).

Definition little_byte (little_table : crc_table) '((crc, p, len) : crc_state) : option crc_state :=
  b ← rd buf p;
  t ← tget little_table 0 (Z.land (Z.lxor crc b) 0xff);
  Some (Z.lxor t (Z.shiftr crc 8), p + 1, len - 1).

Definition little_word (little_table : crc_table) '((crc, p, len) : crc_state) : option crc_state :=
  w ← rdn buf p 8;
  let crc := Z.lxor crc (native_dec w) in
  t7 ← tget little_table 7 (Z.land crc 0xff);
  t6 ← tget little_table 6 (Z.land (Z.shiftr crc 8) 0xff);
  t5 ← tget little_table 5 (Z.land (Z.shiftr crc 16) 0xff);
  t4 ← tget little_table 4 (Z.land (Z.shiftr crc 24) 0xff);
  t3 ← tget little_table 3 (Z.land (Z.shiftr crc 32) 0xff);
  t2 ← tget little_table 2 (Z.land (Z.shiftr crc 40) 0xff);
  t1 ← tget little_table 1 (Z.land (Z.shiftr crc 48) 0xff);
  t0 ← tget little_table 0 (Z.shiftr crc 56);
  Some (Z.lxor (Z.lxor (Z.lxor (Z.lxor (Z.lxor (Z.lxor (Z.lxor t7 t6) t5) t4) t3) t2) t1) t0, p + 8, len - 8).

Definition big_byte (big_table : crc_table) '((crc, p, len) : crc_state) : option crc_state :=
  b ← rd buf p;
  t ← tget big_table 0 (Z.lxor (Z.shiftr crc 56) b);
  Some (Z.lxor t (u64 (Z.shiftl crc 8)), p + 1, len - 1).

Definition big_word (big_table : crc_table) '((crc, p, len) : crc_state) : option crc_state :=
  w ← rdn buf p 8;
  let crc := Z.lxor crc (native_dec w) in
  t0 ← tget big_table 0 (Z.land crc 0xff);
  t1 ← tget big_table 1 (Z.land (Z.shiftr crc 8) 0xff);
  t2 ← tget big_table 2 (Z.land (Z.shiftr crc 16) 0xff);
  t3 ← tget big_table 3 (Z.land (Z.shiftr crc 24) 0xff);
  t4 ← tget big_table 4 (Z.land (Z.shiftr crc 32) 0xff);
  t5 ← tget big_table 5 (Z.land (Z.shiftr crc 40) 0xff);
  t6 ← tget big_table 6 (Z.land (Z.shiftr crc 48) 0xff);
  t7 ← tget big_table 7 (Z.shiftr crc 56);
  Some (Z.lxor (Z.lxor (Z.lxor (Z.lxor (Z.lxor (Z.lxor (Z.lxor t0 t1) t2) t3) t4) t5) t6) t7, p + 8, len - 8).

Definition crcspeed64little (little_table : crc_table) (crc len : Z) : option Z :=
  s ← while_ (Z.to_nat len) unaligned (little_byte little_table) (crc, 0, len);
  s ← while_ (Z.to_nat len) has_word (little_word little_table) s;
  '(crc, _, _) ← while_ (Z.to_nat len) has_byte (little_byte little_table) s;
  Some crc.

Definition crcspeed64big (big_table : crc_table) (crc len : Z) : option Z :=
  s ← while_ (Z.to_nat len) unaligned (big_byte big_table) (rev8 crc, 0, len);
  s ← while_ (Z.to_nat len) has_word (big_word big_table) s;
  '(crc, _, _) ← while_ (Z.to_nat len) has_byte (big_byte big_table) s;
  Some (rev8 crc).

(** The test for a little endian host: the first byte in memory of the word 1. *)
Definition first_byte_of_one : option Z := rd (native_enc 8 1) 0.

Definition crcspeed64native (table : crc_table) (crc len : Z) : option Z :=
  b ← first_byte_of_one;
  if negb (b =? 0) then crcspeed64little table crc len else crcspeed64big table crc len.
End speed.

Definition crcspeed64native_init `{Host} (fn : crcfn64) (table : crc_table) : option crc_table :=
  b ← first_byte_of_one;
  if negb (b =? 0) then crcspeed64little_init fn table else crcspeed64big_init fn table.

Definition crc64_init `{Host} : option crc_table := crcspeed64native_init _crc64 zero_table.

(** [crc64] with the table [crc64_init] made, of [l] bytes at address [addr]. *)
Definition crc64 `{Host} (crc64_table : crc_table) (crc addr : Z) (s : list Z) (l : Z) : option Z :=
  crcspeed64native addr s crc64_table crc l.

Example crc16_123456789 : crc16 (chars "123456789") 0 9 = Some 0x31C3.
Proof. reflexivity. Qed.
Example _crc64_123456789 : _crc64 0 (chars "123456789") 9 = Some 0xe9c6d914c4b8d9ca.
Proof. vm_compute. reflexivity. Qed.
Example crc64_123456789_little :
  (t ← crc64_init (H := false); crc64 (H := false) t 0 5 (chars "123456789 123456789") 9) = Some 0xe9c6d914c4b8d9ca.
Proof. vm_compute. reflexivity. Qed.
Example crc64_123456789_big :
  (t ← crc64_init (H := true); crc64 (H := true) t 0 5 (chars "123456789 123456789") 9) = Some 0xe9c6d914c4b8d9ca.
Proof. vm_compute. reflexivity. Qed.
