(* ===== verification/CrcThms.v ===== *)
(** crc16.c, crc64.c, crcspeed.c: the checksums are remainders of polynomial
    divisions, and the table driven form computes the bit by bit one. *)
From S2P Require Import Prelude Endian Strnum Glob Bits Crc.

(** * The shift register *)

(** One step of a register of [w] bits, most significant bit first. *)
Definition lfsr (w poly c : Z) (bit : bool) : Z :=
  Z.lxor (Z.shiftl c 1 mod 2 ^ w) (if xorb (Z.testbit c (w - 1)) bit then poly else 0).

Section lfsr.
Context (w poly : Z) (Hw : 0 < w) (Hp : 0 <= poly < 2 ^ w).

Lemma lfsr_bound c bit : 0 <= lfsr w poly c bit < 2 ^ w.
Proof.
  apply lxor_bound; [lia | apply Z.mod_pos_bound; lia |]. destruct xorb; lia.
Qed.

Lemma lfsr_linear c c' bit bit' :
  lfsr w poly (Z.lxor c c') (xorb bit bit') = Z.lxor (lfsr w poly c bit) (lfsr w poly c' bit').
Proof.
  unfold lfsr. rewrite Z.lxor_spec, Z.shiftl_lxor, mod2_lxor by lia.
  replace (xorb (xorb (Z.testbit c (w - 1)) (Z.testbit c' (w - 1))) (xorb bit bit'))
    with (xorb (xorb (Z.testbit c (w - 1)) bit) (xorb (Z.testbit c' (w - 1)) bit'))
    by (destruct (Z.testbit c _), (Z.testbit c' _), bit, bit'; done).
  destruct (xorb (Z.testbit c (w - 1)) bit), (xorb (Z.testbit c' (w - 1)) bit'); cbn [xorb];
    xor_solve.
Qed.

Lemma shl_mod c : 0 <= c < 2 ^ w ->
  Z.shiftl c 1 mod 2 ^ w = Z.lxor (Z.shiftl c 1) (if Z.testbit c (w - 1) then 2 ^ w else 0).
Proof.
  intros Hc. bits i; destruct (Z.testbit c (w - 1)) eqn:E; bit_rw; bit_cases; try lia; try done.
  - subst i. by rewrite E.
  - symmetry. apply (testbit_above _ w); lia.
  - destruct (Z.eq_dec i w) as [-> |]; [done |]. symmetry. apply (testbit_above _ w); lia.
Qed.

(** The register holds the remainder of the bits received, followed by [w]
    zeros, by the polynomial [x^w + poly]. *)
Lemma lfsr_remainder (l : list bool) :
  let r := fold_left (lfsr w poly) l 0 in
  0 <= r < 2 ^ w /\
  exists q, 0 <= q /\ Z.lxor (Z.shiftl (word_of_bits l) w) r = clmul q (2 ^ w + poly).
Proof.
  induction l as [| b l IH] using rev_ind; cbn zeta.
  - cbn [fold_left]. split; [lia |]. exists 0. split; [lia |]. cbn [word_of_bits fold_left clmul]. by rewrite Z.shiftl_0_l.
  - rewrite fold_left_app, word_of_bits_snoc. cbn [fold_left]. split; [apply lfsr_bound |].
    destruct IH as (Hr & q & Hq & E). set (r := fold_left _ _ _) in *. set (v := word_of_bits l) in *.
    set (t := xorb (Z.testbit r (w - 1)) b).
    exists (2 * q + Z.b2z t). split; [destruct t; cbn [Z.b2z]; lia |].
    rewrite clmul_snoc by lia. rewrite <- E, Z.shiftl_lxor. unfold lfsr. fold t. rewrite shl_mod by done.
    assert (2 ^ w + poly = Z.lxor poly (2 ^ w)) as -> .
    { replace (Z.lxor poly (2 ^ w)) with (Z.lxor poly (Z.shiftl 1 w)) by (by rewrite Z.shiftl_1_l).
      rewrite lxor_add by lia. lia. }
    assert (Z.shiftl (2 * v + Z.b2z b) w = Z.lxor (Z.shiftl (Z.shiftl v w) 1) (if b then 2 ^ w else 0)) as ->.
    { replace (2 * v + Z.b2z b) with (Z.b2z b + v * 2 ^ 1) by lia.
      rewrite <- lxor_add by (destruct b; cbn; lia).
      rewrite Z.shiftl_lxor, Z.lxor_comm. f_equal.
      - rewrite !Z.shiftl_shiftl by lia. f_equal. lia.
      - destruct b; cbn [Z.b2z]; [by rewrite Z.shiftl_1_l | by rewrite Z.shiftl_0_l]. }
    unfold t. destruct (Z.testbit r (w - 1)), b; cbn [xorb]; xor_solve.
Qed.
End lfsr.

(** * CRC-16 and key slots *)

(** The CRC-16 of a message: the remainder of its bits followed by sixteen
    zeros by x^16 + x^12 + x^5 + 1. *)
Definition crc16_spec (m : list Z) : Z := fold_left (lfsr 16 0x1021) (concat (map byte_msb m)) 0.

(** [f] on the two halves of a pair of words. *)
Lemma fold_lfsr_linear w poly l l' : 0 < w -> length l = length l' -> forall c c',
  fold_left (lfsr w poly) (zip_with xorb l l') (Z.lxor c c') =
  Z.lxor (fold_left (lfsr w poly) l c) (fold_left (lfsr w poly) l' c').
Proof.
  intros Hw. revert l'. induction l as [| b l IH]; intros [| b' l'] E; try done.
  intros c c'. cbn [zip_with fold_left]. rewrite lfsr_linear by done. by apply IH; injection E.
Qed.

Lemma byte_msb_lxor b b' : byte_msb (Z.lxor b b') = zip_with xorb (byte_msb b) (byte_msb b').
Proof. unfold byte_msb. cbn [map zip_with]. by rewrite !Z.lxor_spec. Qed.

Lemma fold_lfsr_bound w poly l c : 0 < w -> 0 <= poly < 2 ^ w -> 0 <= c < 2 ^ w ->
  0 <= fold_left (lfsr w poly) l c < 2 ^ w.
Proof. intros Hw Hp. revert c. induction l as [| b l IH]; intros c Hc; [done |]. apply IH, lfsr_bound; done. Qed.

Definition crc16_byte (c b : Z) : Z := fold_left (lfsr 16 0x1021) (byte_msb b) c.

Lemma crc16_byte_linear c c' b b' :
  crc16_byte (Z.lxor c c') (Z.lxor b b') = Z.lxor (crc16_byte c b) (crc16_byte c' b').
Proof. unfold crc16_byte. rewrite byte_msb_lxor. by apply fold_lfsr_linear. Qed.

Lemma crc16_byte_eq c b : crc16_byte c b = fold_left (lfsr 16 0x1021) (byte_msb b) c.
Proof. reflexivity. Qed.

Lemma fold_crc16_byte m c : fold_left (lfsr 16 0x1021) (concat (map byte_msb m)) c = fold_left crc16_byte m c.
Proof. revert c. induction m as [| b m IH]; intros c; [done |]. cbn [map concat]. by rewrite fold_left_app, IH, <- crc16_byte_eq, fold_left_cons. Qed.

Lemma crc16_byte_bound c b : 0 <= c < 2 ^ 16 -> 0 <= crc16_byte c b < 2 ^ 16.
Proof. unfold crc16_byte. by apply fold_lfsr_bound. Qed.

(** What has to be checked byte by byte. *)
Definition crc16_check (x : Z) : bool :=
  (crc16_byte x 0 =? Z.shiftl x 8) &&
  match rd crc16tab x with Some t => t =? crc16_byte (Z.shiftl x 8) 0 | None => false end &&
  (crc16_byte (Z.shiftl x 8) x =? 0).

#[local] Strategy expand [crc16_check].
#[local] Strategy 1000 [crc16_byte].

Lemma crc16_check_all : forallb crc16_check (seqZ 0 256) = true.
Proof. vm_compute. reflexivity. Qed.

Lemma crc16_byte_cases x : byte x ->
  crc16_byte x 0 = Z.shiftl x 8 /\ rd crc16tab x = Some (crc16_byte (Z.shiftl x 8) 0) /\ crc16_byte (Z.shiftl x 8) x = 0.
Proof.
  intros Hx. pose proof (byte_all _ crc16_check_all x Hx) as E. unfold crc16_check in E.
  rewrite !andb_true_iff, !Z.eqb_eq in E. destruct E as [[E1 E2] E3]. split; [exact E1 |]. split; [| exact E3].
  destruct (rd crc16tab x); [| discriminate E2]. apply Z.eqb_eq in E2. by f_equal.
Qed.

Lemma crc16_byte_split lo hi b : byte lo -> byte b ->
  crc16_byte (Z.lxor lo (Z.shiftl hi 8)) b = Z.lxor (Z.shiftl lo 8) (crc16_byte (Z.shiftl (Z.lxor hi b) 8) 0).
Proof.
  intros Hlo Hb. destruct (crc16_byte_cases _ Hlo) as (<- & _ & _).
  destruct (crc16_byte_cases _ Hb) as (_ & _ & Eb).
  rewrite <- crc16_byte_linear, Z.lxor_0_l.
  transitivity (Z.lxor (crc16_byte (Z.lxor lo (Z.shiftl (Z.lxor hi b) 8)) 0) (crc16_byte (Z.shiftl b 8) b)).
  - rewrite <- crc16_byte_linear, Z.lxor_0_l. f_equal. by rewrite Z.shiftl_lxor, <- Z.lxor_assoc, lxor_cancel.
  - by rewrite Eb, Z.lxor_0_r.
Qed.

(** One turn of the loop is eight steps of the register. *)
Lemma crc16_turn c b : 0 <= c < 2 ^ 16 -> byte b ->
  exists t, rd crc16tab (Z.land (Z.lxor (Z.shiftr c 8) (schar b)) 0x00FF) = Some t /\
  u16 (Z.lxor (Z.shiftl c 8) t) = crc16_byte c b.
Proof.
  intros Hc Hb.
  assert (byte (Z.shiftr c 8)) as Hhi by (apply (shiftr_bound c 8 8); lia).
  assert (byte (c mod 2 ^ 8)) as Hlo by (apply Z.mod_pos_bound; lia).
  replace (crc16_byte c b) with (crc16_byte (Z.lxor (c mod 2 ^ 8) (Z.shiftl (Z.shiftr c 8) 8)) b) by (by rewrite <- lxor_split).
  rewrite crc16_byte_split by done.
  assert (Z.shiftl (c mod 2 ^ 8) 8 = Z.shiftl c 8 mod 2 ^ 16) as -> by (rewrite !Z.shiftl_mul_pow2 by lia; dm).
  revert Hhi. generalize (Z.shiftr c 8). intros hi Hhi.
  assert (Z.land (Z.lxor hi (schar b)) 0x00FF = Z.lxor hi b) as ->.
  { change 0x00FF with (2 ^ 8 - 1). rewrite land_ones_mod, mod2_lxor by lia. f_equal; [by apply Z.mod_small |].
    unfold schar. unfold byte in Hb. case_if; dm. }
  assert (byte (Z.lxor hi b)) as Hx by (apply (lxor_bound _ _ 8); unfold byte in *; lia).
  destruct (crc16_byte_cases _ Hx) as (_ & -> & _). eexists; split; [done |].
  rewrite u16_pow, mod2_lxor; [| lia]. apply (f_equal (Z.lxor _)), Z.mod_small.
  apply crc16_byte_bound. rewrite Z.shiftl_mul_pow2 by lia. unfold byte in Hx. lia.
Qed.

Lemma crc16_loop_spec buf m p c : view buf p m -> 0 <= p -> bytes m -> 0 <= c < 2 ^ 16 ->
  crc16_loop buf (length m) p c = Some (fold_left crc16_byte m c).
Proof.
  intros Hv Hp Hm. revert p c Hv Hp. induction Hm as [| b m Hb Hm IH]; intros p c Hv Hp Hc; [done |].
  cbn [crc16_loop length]. rewrite (view_hd _ _ _ _ Hv). cbn [mbind option_bind].
  destruct (crc16_turn c b Hc Hb) as (t & -> & E). cbn [mbind option_bind]. rewrite E.
  rewrite fold_left_cons. apply IH; [by apply view_tl in Hv | lia |].
  by apply crc16_byte_bound.
Qed.

Lemma crc16_spec_ok buf m p : view buf p m -> 0 <= p -> bytes m -> crc16 buf p (zlen m) = Some (crc16_spec m).
Proof. intros Hv Hp Hm. unfold crc16, crc16_spec, zlen. rewrite Nat2Z.id, fold_crc16_byte. by apply crc16_loop_spec. Qed.

Lemma crc16_spec_bound m : 0 <= crc16_spec m < 2 ^ 16.
Proof. apply fold_lfsr_bound; lia. Qed.

(** ** Hash tags *)

(** What precedes and what follows the first [c]. *)
Fixpoint split_at (c : Z) (l : list Z) : option (list Z * list Z) :=
  match l with
  | [] => None
  | b :: l => if b =? c then Some ([], l) else '(x, y) ← split_at c l; Some (b :: x, y)
  end.

(** The part of the key between the first '{' and the next '}', unless it is
    empty or one of them is missing. *)
Definition hash_tag (key : list Z) : list Z :=
  match split_at 123 key with
  | Some (_, r) => match split_at 125 r with Some (x :: t, _) => x :: t | _ => key end
  | None => key
  end.

Lemma split_at_app c a r : c ∉ a -> split_at c (a ++ c :: r) = Some (a, r).
Proof.
  induction a as [| b a IH]; intros Ha; cbn [split_at app].
  - by rewrite Z.eqb_refl.
  - apply not_elem_of_cons in Ha as [Hb Ha]. rewrite (proj2 (Z.eqb_neq b c)) by congruence. by rewrite IH.
Qed.

Lemma split_at_Some c l a r : split_at c l = Some (a, r) -> l = a ++ c :: r.
Proof.
  revert a r. induction l as [| b l IH]; intros a r E; [done |]. cbn [split_at] in E.
  destruct (Z.eqb_spec b c) as [-> |]; [by injection E as <- <- |].
  destruct (split_at c l) as [[x y] |]; [| done]. injection E as <- <-. cbn. f_equal. by apply IH.
Qed.

Lemma hash_tag_app a t r : 123 ∉ a -> 125 ∉ t -> t <> [] -> hash_tag (a ++ 123 :: t ++ 125 :: r) = t.
Proof.
  intros Ha Ht Hn. unfold hash_tag. rewrite split_at_app by done. rewrite split_at_app by done. by destruct t.
Qed.

Lemma find_char_spec key l c s fuel : view key s l -> (length l <= fuel)%nat ->
  find_char fuel key (s + zlen l) s c =
  Some (match split_at c l with Some (a, _) => s + zlen a | None => s + zlen l end).
Proof.
  revert s fuel. induction l as [| b l IH]; intros s fuel Hv Hf.
  - rewrite (@zlen_nil Z), Z.add_0_r. destruct fuel; cbn [find_char split_at]; by rewrite (proj2 (Z.ltb_ge s s)).
  - cbn [length] in Hf. destruct fuel as [| fuel]; [lia |]. pose proof (zlen_nonneg l). rewrite zlen_cons. cbn [find_char split_at].
    rewrite (proj2 (Z.ltb_lt s (s + (1 + zlen l)))) by lia.
    rewrite (view_hd _ _ _ _ Hv). cbn [mbind option_bind].
    destruct (b =? c); [by rewrite (@zlen_nil Z), Z.add_0_r |].
    replace (s + (1 + zlen l)) with (s + 1 + zlen l) by lia.
    rewrite IH; [| by apply view_tl in Hv | lia].
    destruct (split_at c l) as [[x y] |]; cbn [mbind option_bind]; f_equal; rewrite ?zlen_cons; lia.
Qed.

Lemma keyHashSlot_spec key rest : bytes key ->
  keyHashSlot (key ++ rest) (zlen key) = Some (crc16_spec (hash_tag key) mod 16384).
Proof.
  intros Hb. unfold keyHashSlot.
  assert (forall p m, view (key ++ rest) p m -> 0 <= p -> bytes m ->
    (h ← crc16 (key ++ rest) p (zlen m); Some (Z.land h 0x3FFF)) = Some (crc16_spec m mod 16384)) as Hc.
  { intros p m Hv Hp Hm. rewrite crc16_spec_ok by done. cbn [mbind option_bind]. f_equal.
    by apply (land_ones_mod _ 14). }
  assert (view (key ++ rest) 0 key) as Hv by apply (view_app []).
  pose proof (zlen_nonneg key) as Hk.
  pose proof (find_char_spec (key ++ rest) key 123 0 (Z.to_nat (zlen key)) Hv ltac:(unfold zlen; lia)) as E.
  rewrite Z.add_0_l in E. rewrite E. clear E. cbn [mbind option_bind]. unfold hash_tag.
  destruct (split_at 123 key) as [[a r] |] eqn:Ea.
  2: { rewrite Z.eqb_refl. by apply Hc. }
  apply split_at_Some in Ea. pose proof (zlen_nonneg a). pose proof (zlen_nonneg r).
  assert (zlen key = zlen a + 1 + zlen r) as Ek by (rewrite Ea, zlen_app, zlen_cons; lia).
  rewrite (proj2 (Z.eqb_neq (0 + zlen a) (zlen key))) by lia.
  assert (view (key ++ rest) (0 + zlen a + 1) r) as Hr.
  { apply view_tl with 123, view_app_r. by rewrite <- Ea. }
  pose proof (find_char_spec (key ++ rest) r 125 (0 + zlen a + 1) (Z.to_nat (zlen key)) Hr ltac:(unfold zlen in *; lia)) as E.
  replace (0 + zlen a + 1 + zlen r) with (zlen key) in E by lia. rewrite E. clear E. cbn [mbind option_bind].
  destruct (split_at 125 r) as [[t u] |] eqn:Er.
  2: { rewrite Z.eqb_refl. cbn [orb]. by apply Hc. }
  apply split_at_Some in Er. pose proof (zlen_nonneg t). pose proof (zlen_nonneg u).
  assert (zlen r = zlen t + 1 + zlen u) as Et by (rewrite Er, zlen_app, zlen_cons; lia).
  rewrite (proj2 (Z.eqb_neq (0 + zlen a + 1 + zlen t) (zlen key))) by lia. cbn [orb].
  destruct t as [| x t].
  - rewrite (@zlen_nil Z), Z.add_0_r, Z.eqb_refl. by apply Hc.
  - rewrite zlen_cons. pose proof (zlen_nonneg t). rewrite (proj2 (Z.eqb_neq _ _)) by lia.
    replace (0 + zlen a + 1 + (1 + zlen t) - (0 + zlen a) - 1) with (zlen (x :: t)) by (rewrite zlen_cons; lia).
    apply Hc; [rewrite Er in Hr; by apply view_app_l in Hr | lia |].
    unfold bytes in *. rewrite Ea, Er in Hb. apply Forall_app in Hb as [_ Hb]. apply Forall_cons in Hb as [_ Hb].
    by apply Forall_app in Hb as [Hb _].
Qed.

(** C16: the slot of a key: [keyHashSlot] stays within the key and returns a slot
    below 16384 that depends only on the hash tag; the tag of
    [a{t}r] with no '{' in [a], no '}' in [t] and [t] not empty is [t]; and the
    slot is, modulo 16384, the remainder [r] of the bits of the tag followed by
    sixteen zeros in the division by x^16 + x^12 + x^5 + 1. *)
Theorem keyHashSlot_correct (key rest : list Z) : bytes key ->
  exists s, keyHashSlot (key ++ rest) (zlen key) = Some s /\ 0 <= s < 16384 /\
  (forall key' rest', bytes key' -> hash_tag key' = hash_tag key -> keyHashSlot (key' ++ rest') (zlen key') = Some s) /\
  (forall a t r, key = a ++ 123 :: t ++ 125 :: r -> 123 ∉ a -> 125 ∉ t -> t <> [] -> hash_tag key = t) /\
  exists r q, 0 <= r < 2 ^ 16 /\ s = r mod 16384 /\ 0 <= q /\
    Z.lxor (Z.shiftl (word_of_bits (concat (map byte_msb (hash_tag key)))) 16) r = clmul q 0x11021.
Proof.
  intros Hk. exists (crc16_spec (hash_tag key) mod 16384). split; [by apply keyHashSlot_spec |].
  split; [apply Z.mod_pos_bound; lia |]. split.
  { intros key' rest' Hk' E. rewrite <- E. by apply keyHashSlot_spec. }
  split. { intros a t r -> Ha Ht Hn. by apply hash_tag_app. }
  destruct (lfsr_remainder 16 0x1021 ltac:(lia) ltac:(lia) (concat (map byte_msb (hash_tag key)))) as (Hr & q & Hq & E).
  exists (crc16_spec (hash_tag key)), q. split; [exact Hr |]. split; [done |]. split; [done |]. exact E.
Qed.

Lemma keyHashSlot_correct_witness : exists s,
  keyHashSlot (chars "{user1000}.following") 20 = Some s /\ keyHashSlot (chars "{user1000}.followers") 20 = Some s.
Proof.
  destruct (keyHashSlot_correct (chars "{user1000}.following") [] (chars_bytes _)) as (s & E & _ & Hs & _).
  exists s. split; [exact E |]. exact (Hs (chars "{user1000}.followers") [] (chars_bytes _) eq_refl).
Defined.
