(* ===== verification/CrcSpeed.v ===== *)
(** crc64.c, crcspeed.c: looking up eight bytes at a time computes the bit by
    bit CRC-64, on hosts of both byte orders and for any alignment. *)
From S2P Require Import Prelude Endian Strnum Bits Crc CrcThms.

(** * The reflected register *)

Lemma testbit_mod_1 a i : 0 <= i -> Z.testbit (Z.land a 0x01) i = (i =? 0) && Z.testbit a i.
Proof.
  intros Hi. rewrite Z.land_spec. change 0x01 with (2 ^ 0). rewrite testbit_pow2 by lia. apply andb_comm.
Qed.

Lemma crc_reflect_iter x k : (k <= 63)%nat ->
  let '(data, ret) := Nat.iter k (fun '(data, ret) =>
    let data := Z.shiftr data 1 in (data, u64 (Z.lor (Z.shiftl ret 1) (Z.land data 0x01)))) (x, Z.land x 0x01) in
  data = Z.shiftr x (Z.of_nat k) /\
  forall i, 0 <= i -> Z.testbit ret i = (i <=? Z.of_nat k) && Z.testbit x (Z.of_nat k - i).
Proof.
  induction k as [| k IH]; intros Hk.
  - cbn [Nat.iter nat_rect]. split; [by rewrite Z.shiftr_0_r |]. intros i Hi. rewrite testbit_mod_1 by lia.
    destruct (Z.eqb_spec i 0) as [-> |]; [done |]. by rewrite (proj2 (Z.leb_gt i _)) by lia.
  - rewrite Nat.iter_succ. destruct (Nat.iter k _ _) as [data ret]. destruct IH as [-> IH]; [lia |].
    rewrite Z.shiftr_shiftr by lia. split; [f_equal; lia |]. intros i Hi. rewrite u64_pow, testbit_mod2, Z.lor_spec by lia.
    rewrite testbit_shiftl, testbit_mod_1, testbit_shiftr by lia.
    destruct (Z.eq_dec i 0) as [-> |].
    + rewrite (Z.testbit_neg_r ret) by lia. cbn [Z.eqb andb orb].
      rewrite (proj2 (Z.ltb_lt 0 64)), (proj2 (Z.leb_le 0 _)) by lia. cbn [andb]. f_equal. lia.
    + rewrite IH, (proj2 (Z.eqb_neq i 0)) by lia. cbn [andb]. rewrite orb_false_r.
      replace (Z.of_nat k - (i - 1)) with (Z.of_nat (S k) - i) by lia. destruct (Z.testbit x _); boolp; done || lia.
Qed.

Lemma crc_reflect_bits x i : 0 <= i -> Z.testbit (crc_reflect x 64) i = (i <? 64) && Z.testbit x (63 - i).
Proof.
  intros Hi. unfold crc_reflect. pose proof (crc_reflect_iter x (Z.to_nat (64 - 1)) ltac:(lia)) as H.
  destruct (Nat.iter _ _ _) as [data ret]. destruct H as [_ H]. cbn [snd]. rewrite H by done.
  change (Z.of_nat (Z.to_nat (64 - 1))) with 63. f_equal. boolp; lia.
Qed.

Lemma crc_reflect_bound x : 0 <= crc_reflect x 64 < 2 ^ 64.
Proof.
  replace (crc_reflect x 64) with (crc_reflect x 64 mod 2 ^ 64); [by apply Z.mod_pos_bound |].
  bits i; [done |]. rewrite crc_reflect_bits by done. by rewrite (proj2 (Z.ltb_ge i 64)).
Qed.

Lemma crc_reflect_involutive x : 0 <= x < 2 ^ 64 -> crc_reflect (crc_reflect x 64) 64 = x.
Proof.
  intros Hx. apply Z.bits_inj'. intros i Hi. rewrite crc_reflect_bits by done. destruct (Z.ltb_spec i 64); cbn [andb].
  - rewrite crc_reflect_bits, (proj2 (Z.ltb_lt (63 - i) 64)) by lia. cbn [andb]. f_equal. lia.
  - symmetry. apply (testbit_above _ 64); lia.
Qed.

Lemma crc_reflect_lxor a b : crc_reflect (Z.lxor a b) 64 = Z.lxor (crc_reflect a 64) (crc_reflect b 64).
Proof.
  apply Z.bits_inj'. intros i Hi. rewrite Z.lxor_spec, !crc_reflect_bits, Z.lxor_spec by done. by destruct (i <? 64).
Qed.

#[local] Strategy 1000 [crc_reflect].

(** One bit and one byte of the reflected register. *)
Definition S0 (c : Z) : Z := Z.lxor (Z.shiftr c 1) (if Z.testbit c 0 then 0x95ac9329ac4bc9b5 else 0).
Definition S8 (c : Z) : Z := Nat.iter 8 S0 c.

Lemma S0_linear : xlinear S0.
Proof.
  intros a b. unfold S0. rewrite Z.shiftr_lxor, Z.lxor_spec.
  destruct (Z.testbit a 0), (Z.testbit b 0); cbn [xorb]; xor_solve.
Qed.

Lemma S8_eq c : S8 c = Nat.iter 8 S0 c.
Proof. done. Qed.

Lemma S8_linear : xlinear S8.
Proof. apply (xlinear_iter S0 8), S0_linear. Qed.

Lemma S0_shl h : S0 (Z.shiftl h 1) = h.
Proof.
  unfold S0. rewrite testbit_shiftl, Z.testbit_neg_r by lia. rewrite Z.lxor_0_r, Z.shiftr_shiftl_l by lia.
  by rewrite Z.shiftl_0_r.
Qed.

Lemma S8_shl h : S8 (Z.shiftl h 8) = h.
Proof.
  unfold S8. assert (forall n, Nat.iter n S0 (Z.shiftl h (Z.of_nat n)) = h) as H; [| exact (H 8%nat)].
  induction n as [| n IH]; [by rewrite Z.shiftl_0_r |].
  rewrite Nat.iter_succ_r. replace (Z.of_nat (S n)) with (Z.of_nat n + 1) by lia.
  by rewrite <- Z.shiftl_shiftl, S0_shl by lia.
Qed.

Lemma S8_split c : S8 c = Z.lxor (S8 (c mod 2 ^ 8)) (Z.shiftr c 8).
Proof. rewrite (lxor_split c 8) at 1 by lia. by rewrite S8_linear, S8_shl. Qed.

Lemma S0_bound c : 0 <= c < 2 ^ 64 -> 0 <= S0 c < 2 ^ 64.
Proof.
  intros Hc. apply lxor_bound; [lia | | destruct (Z.testbit c 0); lia].
  rewrite Z.shiftr_div_pow2 by lia. dm.
Qed.

Lemma iter_bound (f : Z -> Z) n c : (forall c, 0 <= c < 2 ^ 64 -> 0 <= f c < 2 ^ 64) ->
  0 <= c < 2 ^ 64 -> 0 <= Nat.iter n f c < 2 ^ 64.
Proof. intros Hf Hc. induction n as [| n IH]; [done |]. rewrite Nat.iter_succ. by apply Hf. Qed.

Lemma S8_bound c : 0 <= c < 2 ^ 64 -> 0 <= S8 c < 2 ^ 64.
Proof. apply iter_bound, S0_bound. Qed.

(** ** Against the register of [_crc64] *)

Definition byte_lsb (b : Z) : list bool := map (Z.testbit b) [0; 1; 2; 3; 4; 5; 6; 7].

Lemma crc_reflect_consts : crc_reflect POLY 64 = 0x95ac9329ac4bc9b5 /\ crc_reflect 0 64 = 0.
Proof. split; vm_compute; reflexivity. Qed.

Lemma crc_reflect_lfsr c bit : 0 <= c < 2 ^ 64 ->
  crc_reflect (lfsr 64 POLY c bit) 64 = S0 (Z.lxor (crc_reflect c 64) (Z.b2z bit)).
Proof.
  intros Hc. unfold lfsr, S0. rewrite crc_reflect_lxor. change (64 - 1) with 63. f_equal.
  - apply Z.bits_inj'. intros i Hi. rewrite crc_reflect_bits by done.
    rewrite testbit_mod2, testbit_shiftr, Z.lxor_spec, crc_reflect_bits, testbit_b2z by lia.
    rewrite (proj2 (Z.eqb_neq (i + 1) 0)), andb_false_r, xorb_false_r by lia.
    destruct (Z.ltb_spec i 64), (Z.ltb_spec (i + 1) 64), (Z.ltb_spec (63 - i) 64); try lia; cbn [andb]; try done.
    + rewrite testbit_shiftl by lia. f_equal. lia.
    + rewrite testbit_shiftl by lia. apply Z.testbit_neg_r. lia.
  - rewrite Z.lxor_spec, crc_reflect_bits, testbit_b2z, (proj2 (Z.ltb_lt 0 64)), Z.eqb_refl, andb_true_r by lia. cbn [andb].
    change (63 - 0) with 63. destruct crc_reflect_consts as [E E0].
    destruct (xorb (Z.testbit c 63) bit); [exact E | exact E0].
Qed.

#[local] Strategy 500 [S8 S0].

Lemma crc_reflect_fold l c : 0 <= c < 2 ^ 64 ->
  crc_reflect (fold_left (lfsr 64 POLY) l c) 64 = fold_left (fun c (bit : bool) => S0 (Z.lxor c (Z.b2z bit))) l (crc_reflect c 64).
Proof.
  revert c. induction l as [| b l IH]; intros c Hc; [done |]. rewrite !fold_left_cons.
  rewrite IH by (by apply lfsr_bound). by rewrite crc_reflect_lfsr.
Qed.

(** The bits of a word, least significant first. *)
Fixpoint lsb_word (l : list bool) : Z := match l with [] => 0 | b :: l => Z.b2z b + lsb_word l * 2 ^ 1 end.

Lemma fold_S0 l c : fold_left (fun c (bit : bool) => S0 (Z.lxor c (Z.b2z bit))) l c = Nat.iter (length l) S0 (Z.lxor c (lsb_word l)).
Proof.
  revert c. induction l as [| b l IH]; intros c; [by rewrite Z.lxor_0_r |].
  rewrite fold_left_cons, IH. cbn [length lsb_word]. rewrite Nat.iter_succ_r. f_equal.
  rewrite <- lxor_add by (destruct b; cbn; lia). by rewrite <- Z.lxor_assoc, (S0_linear _ (Z.shiftl _ _)), S0_shl.
Qed.

Lemma lsb_word_byte b : byte b -> lsb_word (byte_lsb b) = b.
Proof.
  intros Hb. apply Z.eqb_eq. revert b Hb. apply (byte_all (fun b => lsb_word (byte_lsb b) =? b)). vm_compute. reflexivity.
Qed.

Lemma length_byte_lsb b : length (byte_lsb b) = 8%nat.
Proof. done. Qed.

Lemma crc_reflect_byte b c : byte b -> 0 <= c < 2 ^ 64 ->
  crc_reflect (fold_left (lfsr 64 POLY) (byte_lsb b) c) 64 = S8 (Z.lxor (crc_reflect c 64) b).
Proof. intros Hb Hc. rewrite crc_reflect_fold, fold_S0, lsb_word_byte by done. rewrite length_byte_lsb. symmetry. apply S8_eq. Qed.

(** The reflected register after the bytes [m], starting from [c]. *)
Definition crc64_run (c : Z) (m : list Z) : Z := fold_left (fun c b => S8 (Z.lxor c b)) m c.

Lemma crc64_run_cons c b m : crc64_run c (b :: m) = crc64_run (S8 (Z.lxor c b)) m.
Proof. done. Qed.

Lemma crc64_run_nil c : crc64_run c [] = c.
Proof. done. Qed.

Lemma crc64_run_app c m m' : crc64_run c (m ++ m') = crc64_run (crc64_run c m) m'.
Proof. apply fold_left_app. Qed.

Lemma byte_u64 b : byte b -> 0 <= b < 2 ^ 64.
Proof. unfold byte. lia. Qed.

Lemma crc64_run_bound m c : bytes m -> 0 <= c < 2 ^ 64 -> 0 <= crc64_run c m < 2 ^ 64.
Proof.
  intros Hm. revert c. induction Hm as [| b m Hb Hm IH]; intros c Hc; [done |].
  rewrite crc64_run_cons. apply IH, S8_bound, lxor_bound; [lia | done | by apply byte_u64].
Qed.

#[local] Strategy 1000 [lfsr].

Lemma crc64_bits_step fuel j c crc : 0 <= j < 8 ->
  _crc64_bits (S fuel) (2 ^ j) c crc = _crc64_bits fuel (u8 (2 ^ (j + 1))) c (lfsr 64 POLY crc (Z.testbit c j)).
Proof.
  intros Hj. cbn [_crc64_bits].
  replace (Z.land (2 ^ j) 0xff =? 0) with false.
  2: { symmetry. apply Z.eqb_neq. change 0xff with (2 ^ 8 - 1). rewrite land_ones_mod by lia.
       rewrite Z.mod_small; [| split; [| apply Z.pow_lt_mono_r]]; lia. }
  rewrite Z.shiftl_mul_pow2, <- Z.pow_add_r by lia.
  change 0x8000000000000000 with (2 ^ 63). rewrite !land_pow2 by lia. f_equal.
  unfold lfsr. change (64 - 1) with 63. rewrite u64_pow.
  assert (2 ^ j <> 0) by lia. rewrite <- Z.lxor_0_r at 1.
  destruct (Z.testbit crc 63), (Z.testbit c j); cbn [xorb];
    rewrite ?(proj2 (Z.eqb_neq (2 ^ j) 0)) by done; cbn; by rewrite ?Z.lxor_0_r.
Qed.

Lemma crc64_bits_spec c crc : byte c ->
  _crc64_bits 8 0x01 c crc = Some (fold_left (lfsr 64 POLY) (byte_lsb c) crc).
Proof.
  intros Hc. change 0x01 with (2 ^ 0).
  rewrite (crc64_bits_step 7 0) by lia. change (u8 (2 ^ (0 + 1))) with (2 ^ 1).
  rewrite (crc64_bits_step 6 1) by lia. change (u8 (2 ^ (1 + 1))) with (2 ^ 2).
  rewrite (crc64_bits_step 5 2) by lia. change (u8 (2 ^ (2 + 1))) with (2 ^ 3).
  rewrite (crc64_bits_step 4 3) by lia. change (u8 (2 ^ (3 + 1))) with (2 ^ 4).
  rewrite (crc64_bits_step 3 4) by lia. change (u8 (2 ^ (4 + 1))) with (2 ^ 5).
  rewrite (crc64_bits_step 2 5) by lia. change (u8 (2 ^ (5 + 1))) with (2 ^ 6).
  rewrite (crc64_bits_step 1 6) by lia. change (u8 (2 ^ (6 + 1))) with (2 ^ 7).
  rewrite (crc64_bits_step 0 7) by lia. change (u8 (2 ^ (7 + 1))) with 0.
  cbn [_crc64_bits]. rewrite Z.land_0_l, Z.eqb_refl. unfold byte_lsb. cbn [map fold_left]. reflexivity.
Qed.

Lemma land_u64 c : 0 <= c < 2 ^ 64 -> Z.land c 0xffffffffffffffff = c.
Proof. intros. change 0xffffffffffffffff with (2 ^ 64 - 1). rewrite land_ones_mod by lia. by apply Z.mod_small. Qed.

Lemma _crc64_run crc m rest : bytes m -> 0 <= crc < 2 ^ 64 ->
  _crc64 crc (m ++ rest) (zlen m) = Some (crc64_run (crc_reflect crc 64) m) /\
  _crc64 crc (m ++ rest) (zlen m) = Some (crc_reflect (fold_left (lfsr 64 POLY) (concat (map byte_lsb m)) crc) 64).
Proof.
  intros Hm Hcrc. unfold _crc64, zlen. rewrite Nat2Z.id.
  assert (forall a c, 0 <= c < 2 ^ 64 ->
    for_ (length m) (zlen a) (fun offset crc => c ← rd (a ++ m ++ rest) offset; crc ← _crc64_bits 8 0x01 c crc; Some (Z.land crc 0xffffffffffffffff)) c
      = Some (fold_left (lfsr 64 POLY) (concat (map byte_lsb m)) c) /\
    0 <= fold_left (lfsr 64 POLY) (concat (map byte_lsb m)) c < 2 ^ 64 /\
    crc_reflect (fold_left (lfsr 64 POLY) (concat (map byte_lsb m)) c) 64 = crc64_run (crc_reflect c 64) m) as H.
  { clear Hcrc. induction Hm as [| b m Hb Hm IH]; intros a c Hc; [done |].
    cbn [length for_ map concat app]. rewrite rd_app by done. cbn [mbind option_bind].
    rewrite crc64_bits_spec by done. cbn [mbind option_bind].
    pose proof (fold_lfsr_bound 64 POLY (byte_lsb b) c ltac:(lia) ltac:(done) Hc) as Hc'.
    rewrite land_u64 by done. rewrite fold_left_app, crc64_run_cons, <- crc_reflect_byte by done.
    specialize (IH (a ++ [b]) _ Hc'). rewrite zlen_app, zlen_cons, (@zlen_nil Z), <- app_assoc in IH.
    rewrite Z.add_0_r in IH. exact IH. }
  destruct (H [] crc Hcrc) as (E & Hb & R). rewrite (@zlen_nil Z) in E. cbn [app] in E. rewrite E. cbn [mbind option_bind].
  rewrite land_u64 by done. rewrite Z.lxor_0_r, R. done.
Qed.

Lemma iter_0 n : Nat.iter n S8 0 = 0.
Proof. apply (xlinear_0 (Nat.iter n S8)), xlinear_iter, S8_linear. Qed.

(** * The tables *)

Definition tshape (t : crc_table) : Prop := length t = 8%nat /\ Forall (fun row => zlen row = 256) t.

Lemma tget_tset t k n v : tshape t -> 0 <= k < 8 -> 0 <= n < 256 ->
  exists t', tset t k n v = Some t' /\ tshape t' /\ tget t' k n = Some v /\
  forall k' n', 0 <= k' < 8 -> k' <> k \/ n' <> n -> tget t' k' n' = tget t k' n'.
Proof.
  intros [Hl Hr] Hk Hn. unfold tset, tget.
  destruct (lookup_lt_is_Some_2 t (Z.to_nat k)) as [row E]; [lia |]. rewrite E. cbn [mbind option_bind].
  assert (zlen row = 256) as Hrow by (eapply Forall_lookup_1 in Hr; eauto).
  destruct (wrn_is_Some row n [v]) as [row' Ew]; [lia | rewrite Hrow; zlens |]. rewrite Ew. cbn [mbind option_bind].
  eexists; split; [done |]. pose proof (wrn_length _ _ _ _ Ew) as Hlen.
  split; [split; [by rewrite length_insert | apply Forall_insert; [done | lia]] |].
  rewrite list_lookup_insert_eq by lia. cbn [mbind option_bind]. split.
  - rewrite rd_rdn. pose proof (rdn_wrn_eq _ _ _ _ Ew) as Er. change (zlen [v]) with 1 in Er. by rewrite Er.
  - intros k' n' Hk' Hne. destruct (Z.eq_dec k' k) as [-> |].
    + rewrite list_lookup_insert_eq, E by lia. cbn [mbind option_bind]. destruct Hne as [? | Hne]; [done |].
      rewrite !rd_rdn. destruct (Z.lt_ge_cases n' 0) as [| Hn'].
      * unfold rdn. by rewrite !(proj2 (Z.leb_gt 0 n')).
      * erewrite rdn_wrn_ne; [done | exact Ew |]. rewrite zlen_cons, (@zlen_nil Z). lia.
    + by rewrite list_lookup_insert_ne by lia.
Qed.

(** Row [k] of a table looks up the effect of a byte followed by [k] zeros. *)
Definition tspec (f : Z -> Z) (t : crc_table) : Prop :=
  forall k n, 0 <= k < 8 -> 0 <= n < 256 -> tget t k n = Some (f (Nat.iter (S (Z.to_nat k)) S8 n)).

Lemma S8_table x r : 0 <= x -> r = S8 (x mod 2 ^ 8) -> Z.lxor r (Z.shiftr x 8) = S8 x.
Proof. intros Hx ->. symmetry. apply S8_split. Qed.

Lemma land_byte x : Z.land x 0xff = x mod 2 ^ 8.
Proof. by apply (land_ones_mod x 8). Qed.

Lemma little_init_row0 t : tshape t ->
  exists t', for_ 256 0 (fun n table => crc ← _crc64 0 [u8 n] 1; tset table 0 n crc) t = Some t' /\
  tshape t' /\ forall n, 0 <= n < 256 -> tget t' 0 n = Some (S8 n).
Proof.
  intros Ht. destruct (for_inv (fun n t => tshape t /\ forall m, 0 <= m < n -> tget t 0 m = Some (S8 m))
    (fun n table => crc ← _crc64 0 [u8 n] 1; tset table 0 n crc) 256 0 t) as (t' & E & Ht' & H).
  - split; [done |]. intros m Hm. lia.
  - intros n s Hn [Hs H].
    assert (byte n) as Hb by (unfold byte; lia).
    destruct (_crc64_run 0 [n] [] ltac:(by apply Forall_cons_2) ltac:(lia)) as [E _].
    rewrite app_nil_r, zlen_cons, (@zlen_nil Z), Z.add_0_r in E.
    rewrite u8_id by lia. rewrite E, crc64_run_cons, (proj2 crc_reflect_consts), Z.lxor_0_l, crc64_run_nil. cbn [mbind option_bind].
    destruct (tget_tset s 0 n (S8 n) Hs) as (s' & -> & Hs' & G & Gne); [lia | lia |]. exists s'.
    split; [done |]. split; [done |]. intros m Hm. destruct (Z.eq_dec m n) as [-> |]; [done |].
    rewrite Gne by lia. apply H. lia.
  - exists t'. split; [exact E |]. split; [done |]. intros n Hn. by apply H.
Qed.

(** The entries below row [k] in column [n] and in the columns before. *)
Definition tfilled (t : crc_table) (k n : Z) : Prop :=
  tshape t /\ (forall m, 0 <= m < 256 -> tget t 0 m = Some (S8 m)) /\
  forall k' m, 0 <= k' < 8 -> 0 <= m < 256 -> m < n \/ m = n /\ k' < k -> tget t k' m = Some (Nat.iter (S (Z.to_nat k')) S8 m).

Lemma iter_S8_bound n m : 0 <= m < 256 -> 0 <= Nat.iter n S8 m < 2 ^ 64.
Proof. intros Hm. apply iter_bound; [apply S8_bound | lia]. Qed.

Lemma little_init_column t n : tfilled t 1 n -> 0 <= n < 256 ->
  exists t' crc, for_ 7 1 (fun k '(table, crc) =>
      t ← tget table 0 (Z.land crc 0xff);
      let crc := Z.lxor t (Z.shiftr crc 8) in
      table ← tset table k n crc; Some (table, crc)) (t, S8 n) = Some (t', crc) /\ tfilled t' 8 n.
Proof.
  intros Ht Hn.
  destruct (for_inv (fun k (s : crc_table * Z) => tfilled (fst s) k n /\ snd s = Nat.iter (Z.to_nat k) S8 n)
    (fun k '(table, crc) =>
      t ← tget table 0 (Z.land crc 0xff);
      let crc := Z.lxor t (Z.shiftr crc 8) in
      table ← tset table k n crc; Some (table, crc)) 7 1 (t, S8 n)) as ((t' & crc) & E & Ht' & _).
  - split; [done |]. done.
  - intros k [s crc] Hk [Hs Ec]. cbn [fst snd] in *. destruct Hs as (Hsh & H0 & H).
    pose proof (iter_S8_bound (Z.to_nat k) n Hn) as Hcb. rewrite <- Ec in Hcb.
    rewrite land_byte, H0 by dm. cbn [mbind option_bind]. rewrite (S8_table crc) by (done || lia). cbn zeta.
    assert (S8 crc = Nat.iter (S (Z.to_nat k)) S8 n) as E1 by (by rewrite Nat.iter_succ, Ec).
    destruct (tget_tset s k n (S8 crc) Hsh) as (s' & -> & Hsh' & G & Gne); [lia | lia |]. cbn [mbind option_bind].
    eexists; split; [done |]. cbn [fst snd]. split; [split; [done | split] |].
    + intros m Hm. rewrite Gne by lia. by apply H0.
    + intros k' m Hk' Hm Hlt. destruct (Z.eq_dec k' k) as [-> |]; [destruct (Z.eq_dec m n) as [-> |] |].
      * by rewrite G, E1.
      * rewrite Gne by lia. apply H; lia.
      * rewrite Gne by lia. apply H; lia.
    + rewrite E1. f_equal. lia.
  - exists t', crc. split; [exact E |]. exact Ht'.
Qed.

Lemma little_init_spec t : tshape t ->
  exists t', crcspeed64little_init _crc64 t = Some t' /\ tshape t' /\ tspec id t'.
Proof.
  intros Ht. unfold crcspeed64little_init. destruct (little_init_row0 t Ht) as (t1 & -> & Ht1 & H1). cbn [mbind option_bind].
  edestruct (for_inv (fun n t => tfilled t 0 n)) as (t' & E & H); cycle 2.
  - exists t'. split; [exact E |]. destruct H as (Hs & _ & H). split; [done |]. intros k n Hk Hn. apply H; lia.
  - split; [done |]. split; [done |]. intros. lia.
  - intros n s Hn (Hs & H0 & H). cbn beta. rewrite H0 by lia. cbn [mbind option_bind].
    assert (tfilled s 1 n) as Hf.
    { split; [done |]. split; [done |]. intros k m Hk Hm [Hlt | [-> Hlt]]; [apply H; lia |].
      assert (k = 0) as -> by lia. by apply H0. }
    destruct (little_init_column s n Hf) as (s' & crc & E & Hs'); [lia |]. cbn [mbind option_bind] in E |- *.
    rewrite E. cbn [mbind option_bind].
    exists s'. split; [done |]. destruct Hs' as (? & ? & Hs'). split; [done |]. split; [done |].
    intros k m Hk Hm Hlt. apply Hs'; lia.
Qed.

(** * Bytes of words *)

Lemma le_dec_div l k : bytes l -> le_dec l / 256 ^ Z.of_nat k = le_dec (drop k l).
Proof.
  revert l. induction k as [| k IH]; intros l Hl; [by rewrite Z.div_1_r |].
  destruct Hl as [| b l Hb Hl]; cbn [drop le_dec]; [by rewrite Z.div_0_l by lia |].
  rewrite <- IH by done. replace (256 ^ Z.of_nat (S k)) with (256 * 256 ^ Z.of_nat k) by (by rewrite pow256_S).
  rewrite <- Z.div_div by lia. f_equal. unfold byte in Hb. dm.
Qed.

Lemma word_byte l k b : bytes l -> l !! k = Some b -> Z.land (Z.shiftr (le_dec l) (8 * Z.of_nat k)) 0xff = b.
Proof.
  intros Hl E. rewrite land_byte, Z.shiftr_div_pow2 by lia. rewrite Z.pow_mul_r by lia.
  change (2 ^ 8) with 256. rewrite le_dec_div by done.
  assert (byte b) as Hb by (eapply Forall_lookup_1 in Hl; eauto).
  apply drop_S in E. rewrite E. cbn [le_dec]. unfold byte in Hb. dm.
Qed.

Lemma word_top l b : bytes l -> length l = 8%nat -> l !! 7%nat = Some b -> Z.shiftr (le_dec l) 56 = b.
Proof.
  intros Hl Hlen E. rewrite <- (word_byte l 7 b) by done. rewrite land_byte. symmetry. apply Z.mod_small.
  change (8 * Z.of_nat 7) with 56. pose proof (le_dec_bound l Hl) as Hb. unfold zlen in Hb. rewrite Hlen in Hb.
  apply (shiftr_bound _ 8 56); [lia | lia |]. exact Hb.
Qed.

(** The word of eight bytes. *)
Definition word8 (b0 b1 b2 b3 b4 b5 b6 b7 : Z) : Z :=
  Z.lxor b0 (Z.lxor (Z.shiftl b1 8) (Z.lxor (Z.shiftl b2 16) (Z.lxor (Z.shiftl b3 24)
    (Z.lxor (Z.shiftl b4 32) (Z.lxor (Z.shiftl b5 40) (Z.lxor (Z.shiftl b6 48) (Z.shiftl b7 56))))))).

Lemma le_dec_word8 b0 b1 b2 b3 b4 b5 b6 b7 : bytes [b0; b1; b2; b3; b4; b5; b6; b7] ->
  le_dec [b0; b1; b2; b3; b4; b5; b6; b7] = word8 b0 b1 b2 b3 b4 b5 b6 b7.
Proof.
  intros H. unfold bytes in H. rewrite !Forall_cons in H. destruct_and! H.
  rewrite !le_dec_cons_lxor by done. cbn [le_dec]. rewrite Z.shiftl_0_l, Z.lxor_0_r.
  unfold word8. rewrite !Z.shiftl_lxor, !Z.shiftl_shiftl by lia. reflexivity.
Qed.

Lemma iter_S8_shl n k x s : (k <= n)%nat -> s = 8 * Z.of_nat k -> Nat.iter n S8 (Z.shiftl x s) = Nat.iter (n - k) S8 x.
Proof.
  intros Hk ->. revert n Hk. induction k as [| k IH]; intros n Hn; [by rewrite Z.shiftl_0_r, Nat.sub_0_r |].
  destruct n as [| n]; [lia |]. rewrite Nat.iter_succ_r.
  replace (8 * Z.of_nat (S k)) with (8 * Z.of_nat k + 8) by lia. rewrite <- Z.shiftl_shiftl, S8_shl by lia.
  rewrite IH by lia. done.
Qed.

(** Eight bytes at once: one look up per byte. *)
Lemma iter_word8 b0 b1 b2 b3 b4 b5 b6 b7 :
  Nat.iter 8 S8 (word8 b0 b1 b2 b3 b4 b5 b6 b7) =
  Z.lxor (Z.lxor (Z.lxor (Z.lxor (Z.lxor (Z.lxor (Z.lxor (Nat.iter 8 S8 b0) (Nat.iter 7 S8 b1)) (Nat.iter 6 S8 b2))
    (Nat.iter 5 S8 b3)) (Nat.iter 4 S8 b4)) (Nat.iter 3 S8 b5)) (Nat.iter 2 S8 b6)) (Nat.iter 1 S8 b7).
Proof.
  unfold word8. rewrite !(xlinear_iter S8 8 S8_linear).
  rewrite (iter_S8_shl 8 1 b1), (iter_S8_shl 8 2 b2), (iter_S8_shl 8 3 b3), (iter_S8_shl 8 4 b4),
    (iter_S8_shl 8 5 b5), (iter_S8_shl 8 6 b6), (iter_S8_shl 8 7 b7) by lia.
  cbn [Nat.sub]. by rewrite !Z.lxor_assoc.
Qed.

Lemma crc64_run_word m c : bytes m -> crc64_run c m = Nat.iter (length m) S8 (Z.lxor c (le_dec m)).
Proof.
  intros Hm. revert c. induction Hm as [| b m Hb Hm IH]; intros c; [by rewrite Z.lxor_0_r |].
  rewrite crc64_run_cons, IH. cbn [length]. rewrite Nat.iter_succ_r, le_dec_cons_lxor by done. f_equal.
  by rewrite <- Z.lxor_assoc, (S8_linear _ (Z.shiftl _ _)), S8_shl.
Qed.

(** ** Reversing the bytes *)

Definition swap_halves (m s a : Z) : Z := u64 (Z.lor (Z.land (Z.shiftr a s) m) (Z.shiftl (Z.land a m) s)).

Lemma swap_halves_linear m s : 0 <= s -> Z.land m (Z.shiftl m s) = 0 -> xlinear (swap_halves m s).
Proof.
  intros Hs Hm.
  assert (forall a, swap_halves m s a = Z.lxor (Z.land (Z.shiftr a s) m) (Z.shiftl (Z.land a m) s) mod 2 ^ 64) as E.
  { intros a. unfold swap_halves. rewrite u64_pow. f_equal. symmetry. apply Z.lxor_lor.
    apply Z.bits_inj'. intros i Hi. apply (f_equal (fun z => Z.testbit z i)) in Hm.
    rewrite Z.land_spec, Z.bits_0, testbit_shiftl in Hm by lia.
    rewrite !Z.land_spec, testbit_shiftl, Z.land_spec, Z.bits_0 by lia.
    destruct (Z.testbit m i), (Z.testbit m (i - s)); cbn [andb] in *; [done | | |]; by rewrite ?andb_false_r. }
  intros a b. rewrite !E, <- mod2_lxor by lia. f_equal. rewrite Z.shiftr_lxor.
  assert (forall x y, Z.land (Z.lxor x y) m = Z.lxor (Z.land x m) (Z.land y m)) as L.
  { intros x y. apply Z.bits_inj'. intros i Hi. rewrite ?Z.land_spec, ?Z.lxor_spec, ?Z.land_spec.
    by destruct (Z.testbit x i), (Z.testbit y i), (Z.testbit m i). }
  rewrite !L, Z.shiftl_lxor. xor_solve.
Qed.

Lemma rev8_swaps a : rev8 a = swap_halves (Z.ones 32) 32 (swap_halves 0xffff0000ffff 16 (swap_halves 0xff00ff00ff00ff 8 a)).
Proof.
  unfold rev8. cbn zeta. fold (swap_halves 0xff00ff00ff00ff 8 a). set (x := swap_halves _ _ a).
  fold (swap_halves 0xffff0000ffff 16 x). assert (0 <= swap_halves 0xffff0000ffff 16 x < 2 ^ 64) as Hb by (apply Z.mod_pos_bound; lia).
  revert Hb. generalize (swap_halves 0xffff0000ffff 16 x). intros y Hy. unfold swap_halves.
  bits i; try done.
  - by rewrite (Z.testbit_neg_r y (i - 32)) by lia.
  - rewrite (testbit_above y 64 (i + 32)), testbit_ones, (proj2 (Z.ltb_lt (i - 32) 32)) by lia. by rewrite andb_true_r.
Qed.

Lemma rev8_linear : xlinear rev8.
Proof.
  intros a b. rewrite !rev8_swaps.
  rewrite (swap_halves_linear 0xff00ff00ff00ff 8), (swap_halves_linear 0xffff0000ffff 16), (swap_halves_linear (Z.ones 32) 32)
    by (reflexivity || lia). done.
Qed.

#[local] Strategy 1000 [rev8].

Definition rev8_check (b : Z) : bool :=
  forallb (fun k => rev8 (Z.shiftl b (8 * k)) =? Z.shiftl b (56 - 8 * k)) [0; 1; 2; 3; 4; 5; 6; 7].

Lemma rev8_check_all : forallb rev8_check (seqZ 0 256) = true.
Proof. vm_compute. reflexivity. Qed.

Lemma rev8_byte b k s : byte b -> 0 <= k < 8 -> s = 8 * k -> rev8 (Z.shiftl b s) = Z.shiftl b (56 - s).
Proof.
  intros Hb Hk ->. pose proof (byte_all _ rev8_check_all b Hb) as E. unfold rev8_check in E.
  rewrite forallb_forall in E. apply Z.eqb_eq, E. cbn [In]. lia.
Qed.

Lemma rev8_word8 b0 b1 b2 b3 b4 b5 b6 b7 : bytes [b0; b1; b2; b3; b4; b5; b6; b7] ->
  rev8 (word8 b0 b1 b2 b3 b4 b5 b6 b7) = word8 b7 b6 b5 b4 b3 b2 b1 b0.
Proof.
  intros H. unfold bytes in H. rewrite !Forall_cons in H. destruct_and! H. unfold word8.
  rewrite !rev8_linear. rewrite <- (Z.shiftl_0_r b0) at 1.
  rewrite (rev8_byte b0 0 0), (rev8_byte b1 1 8), (rev8_byte b2 2 16), (rev8_byte b3 3 24), (rev8_byte b4 4 32),
    (rev8_byte b5 5 40), (rev8_byte b6 6 48), (rev8_byte b7 7 56) by (done || lia).
  change (56 - 0) with 56. change (56 - 8) with 48. change (56 - 16) with 40. change (56 - 24) with 32.
  change (56 - 32) with 24. change (56 - 40) with 16. change (56 - 48) with 8. change (56 - 56) with 0.
  rewrite Z.shiftl_0_r. xor_solve.
Qed.

(** A 64 bit word is the word of its eight bytes. *)
Lemma word8_of c : 0 <= c < 2 ^ 64 -> exists b0 b1 b2 b3 b4 b5 b6 b7,
  bytes [b0; b1; b2; b3; b4; b5; b6; b7] /\ c = le_dec [b0; b1; b2; b3; b4; b5; b6; b7].
Proof.
  intros Hc. pose proof (le_dec_enc 8 c) as E. rewrite Z.mod_small in E by (exact Hc).
  pose proof (le_enc_bytes 8 c) as Hb. pose proof (length_le_enc 8 c) as Hl. revert E Hb Hl. generalize (le_enc 8 c). intros l E Hb Hl.
  do 8 (destruct l as [| ? l]; [discriminate Hl |]). destruct l; [| discriminate Hl].
  repeat eexists; [exact Hb | by symmetry].
Qed.

Lemma rev8_0 : rev8 0 = 0.
Proof. reflexivity. Qed.

Lemma rev8_id c : 0 <= c < 2 ^ 64 -> rev8 (rev8 c) = c /\ 0 <= rev8 c < 2 ^ 64.
Proof.
  intros Hc. destruct (word8_of c Hc) as (b0 & b1 & b2 & b3 & b4 & b5 & b6 & b7 & Hb & ->).
  assert (bytes [b7; b6; b5; b4; b3; b2; b1; b0]) as Hb'.
  { unfold bytes in *. rewrite !Forall_cons in *. tauto. }
  rewrite le_dec_word8, rev8_word8, rev8_word8 by done. split; [done |].
  rewrite <- le_dec_word8 by done. apply (le_dec_bound _ Hb').
Qed.

Lemma byte_0 : byte 0.
Proof. unfold byte. lia. Qed.

(** The reversed register: its top byte, and moving it by one byte. *)
Lemma big_register c : 0 <= c < 2 ^ 64 ->
  Z.shiftr (rev8 c) 56 = c mod 2 ^ 8 /\ u64 (Z.shiftl (rev8 c) 8) = rev8 (Z.shiftr c 8).
Proof.
  intros Hc. destruct (word8_of c Hc) as (b0 & b1 & b2 & b3 & b4 & b5 & b6 & b7 & Hb & ->).
  assert (bytes [b7; b6; b5; b4; b3; b2; b1; b0] /\ bytes [b1; b2; b3; b4; b5; b6; b7; 0] /\ bytes [0; b7; b6; b5; b4; b3; b2; b1])
    as (Hb' & Hb1 & Hb1') by (unfold bytes in *; rewrite !Forall_cons in *; pose proof byte_0; tauto).
  assert (Z.shiftr (le_dec [b0; b1; b2; b3; b4; b5; b6; b7]) 8 = le_dec [b1; b2; b3; b4; b5; b6; b7; 0]) as ->.
  { rewrite Z.shiftr_div_pow2 by lia. change (2 ^ 8) with (256 ^ Z.of_nat 1). rewrite le_dec_div by done. cbn [drop le_dec]. lia. }
  rewrite (le_dec_word8 b0), (le_dec_word8 b1), !rev8_word8, <- !le_dec_word8 by done. split.
  - rewrite (word_top _ b0) by done. apply Forall_cons in Hb as [Hb0 _]. cbn [le_dec]. unfold byte in Hb0.
    change (2 ^ 8) with 256. dm.
  - rewrite Z.shiftl_mul_pow2, u64_pow by lia. symmetry. apply (Z.mod_unique_pos _ _ b0).
    + apply (le_dec_bound _ Hb1').
    + cbn [le_dec]. lia.
Qed.

Lemma byte_low b : byte b -> b mod 2 ^ 8 = b.
Proof. apply Z.mod_small. Qed.

Lemma shiftr_lxor_byte c b : byte b -> Z.shiftr (Z.lxor c b) 8 = Z.shiftr c 8.
Proof.
  intros Hb. rewrite Z.shiftr_lxor, (Z.shiftr_div_pow2 b) by lia. rewrite (Z.div_small b) by exact Hb. apply Z.lxor_0_r.
Qed.

Lemma S8_iter1 x : Nat.iter (S (Z.to_nat 0)) S8 x = S8 x.
Proof. done. Qed.

(** * The loops *)

Section loops.
Context `{Host} (addr : Z) (buf : list Z) (t : crc_table).

(** The byte [b] at the position of the state. *)
Lemma little_byte_spec c p len b m : tspec id t -> 0 <= c < 2 ^ 64 -> view buf p (b :: m) -> byte b ->
  little_byte buf t (c, p, len) = Some (S8 (Z.lxor c b), p + 1, len - 1).
Proof.
  intros Ht Hc Hv Hb. cbn [little_byte]. rewrite (view_hd _ _ _ _ Hv). cbn [mbind option_bind].
  rewrite land_byte, Ht by dm. cbn [mbind option_bind]. rewrite S8_iter1.
  do 3 f_equal. by rewrite (S8_split (Z.lxor c b)), shiftr_lxor_byte.
Qed.

Lemma big_byte_spec c p len b m : tspec rev8 t -> 0 <= c < 2 ^ 64 -> view buf p (b :: m) -> byte b ->
  big_byte buf t (rev8 c, p, len) = Some (rev8 (S8 (Z.lxor c b)), p + 1, len - 1).
Proof.
  intros Ht Hc Hv Hb. cbn [big_byte]. rewrite (view_hd _ _ _ _ Hv). cbn [mbind option_bind].
  destruct (big_register c Hc) as [-> ->]. rewrite <- (byte_low b) at 1 by done. rewrite <- mod2_lxor by lia.
  rewrite Ht by dm. cbn [mbind option_bind]. rewrite S8_iter1.
  do 3 f_equal. by rewrite (S8_split (Z.lxor c b)), rev8_linear, shiftr_lxor_byte.
Qed.

Lemma view_word p w m : view buf p (w ++ m) -> 0 <= p -> length w = 8%nat -> p + 8 <= zlen buf -> rdn buf p 8 = Some w.
Proof.
  intros Hv Hp Hw Hlen. change 8 with (Z.of_nat 8) in Hlen |- *. rewrite <- Hw in Hlen |- *.
  apply view_rdn; [by apply view_app_l in Hv | done | done].
Qed.

(** What the eight look ups of a word [y] amount to. *)
Lemma word_run c w y : bytes w -> length w = 8%nat -> 0 <= c < 2 ^ 64 -> y = Z.lxor c (le_dec w) ->
  exists b0 b1 b2 b3 b4 b5 b6 b7, bytes [b0; b1; b2; b3; b4; b5; b6; b7] /\ y = le_dec [b0; b1; b2; b3; b4; b5; b6; b7] /\
  crc64_run c w =
  Z.lxor (Z.lxor (Z.lxor (Z.lxor (Z.lxor (Z.lxor (Z.lxor (Nat.iter 8 S8 b0) (Nat.iter 7 S8 b1)) (Nat.iter 6 S8 b2))
    (Nat.iter 5 S8 b3)) (Nat.iter 4 S8 b4)) (Nat.iter 3 S8 b5)) (Nat.iter 2 S8 b6)) (Nat.iter 1 S8 b7).
Proof.
  intros Hw Hl Hc Hy. assert (0 <= y < 2 ^ 64) as Hyb.
  { subst y. apply lxor_bound; [lia | done |]. pose proof (le_dec_bound w Hw) as Hb. unfold zlen in Hb. by rewrite Hl in Hb. }
  destruct (word8_of y Hyb) as (b0 & b1 & b2 & b3 & b4 & b5 & b6 & b7 & Hb & E).
  exists b0, b1, b2, b3, b4, b5, b6, b7. split; [done |]. split; [done |].
  by rewrite crc64_run_word, Hl, <- Hy, E, le_dec_word8, iter_word8 by done.
Qed.

(** The look ups at the bytes of a word, least significant first. *)
Lemma word_gets f b0 b1 b2 b3 b4 b5 b6 b7 : tspec f t -> bytes [b0; b1; b2; b3; b4; b5; b6; b7] ->
  let y := le_dec [b0; b1; b2; b3; b4; b5; b6; b7] in
  let get k n b := tget t k b = Some (f (Nat.iter n S8 b)) in
  (Z.land y 0xff = b0 /\ Z.land (Z.shiftr y 8) 0xff = b1 /\ Z.land (Z.shiftr y 16) 0xff = b2 /\
   Z.land (Z.shiftr y 24) 0xff = b3 /\ Z.land (Z.shiftr y 32) 0xff = b4 /\ Z.land (Z.shiftr y 40) 0xff = b5 /\
   Z.land (Z.shiftr y 48) 0xff = b6 /\ Z.shiftr y 56 = b7) /\
  (forall k n, 0 <= k < 8 -> n = S (Z.to_nat k) ->
    get k n b0 /\ get k n b1 /\ get k n b2 /\ get k n b3 /\ get k n b4 /\ get k n b5 /\ get k n b6 /\ get k n b7).
Proof.
  intros Ht Hb y get. split.
  - split_and!; [rewrite <- (Z.shiftr_0_r y); apply (word_byte _ 0 b0); done | apply (word_byte _ 1 b1); done
    | apply (word_byte _ 2 b2); done | apply (word_byte _ 3 b3); done | apply (word_byte _ 4 b4); done
    | apply (word_byte _ 5 b5); done | apply (word_byte _ 6 b6); done | apply word_top; done].
  - intros k n Hk ->. unfold bytes in Hb. rewrite !Forall_cons in Hb. split_and!; apply Ht; (done || apply Hb).
Qed.

Lemma little_word_spec c p len w m : big_endian = false -> tspec id t -> 0 <= c < 2 ^ 64 -> view buf p (w ++ m) -> 0 <= p ->
  p + 8 <= zlen buf -> bytes w -> length w = 8%nat ->
  little_word buf t (c, p, len) = Some (crc64_run c w, p + 8, len - 8).
Proof.
  intros Hh Ht Hc Hv Hp Hlen Hw Hl. cbn [little_word]. rewrite (view_word p w m) by done. cbn [mbind option_bind].
  unfold native_dec. rewrite Hh.
  destruct (word_run c w _ Hw Hl Hc eq_refl) as (b0 & b1 & b2 & b3 & b4 & b5 & b6 & b7 & Hb & -> & ->).
  destruct (word_gets id b0 b1 b2 b3 b4 b5 b6 b7 Ht Hb) as ((-> & -> & -> & -> & -> & -> & -> & ->) & G). cbn zeta in G.
  destruct (G 7 8%nat ltac:(lia) eq_refl) as (-> & _). destruct (G 6 7%nat ltac:(lia) eq_refl) as (_ & -> & _). destruct (G 5 6%nat ltac:(lia) eq_refl) as (_ & _ & -> & _).
  destruct (G 4 5%nat ltac:(lia) eq_refl) as (_ & _ & _ & -> & _). destruct (G 3 4%nat ltac:(lia) eq_refl) as (_ & _ & _ & _ & -> & _).
  destruct (G 2 3%nat ltac:(lia) eq_refl) as (_ & _ & _ & _ & _ & -> & _). destruct (G 1 2%nat ltac:(lia) eq_refl) as (_ & _ & _ & _ & _ & _ & -> & _).
  destruct (G 0 1%nat ltac:(lia) eq_refl) as (_ & _ & _ & _ & _ & _ & _ & ->).
  unfold id. cbn [mbind option_bind]. reflexivity.
Qed.

Lemma big_word_spec c p len w m : big_endian = true -> tspec rev8 t -> 0 <= c < 2 ^ 64 -> view buf p (w ++ m) -> 0 <= p ->
  p + 8 <= zlen buf -> bytes w -> length w = 8%nat ->
  big_word buf t (rev8 c, p, len) = Some (rev8 (crc64_run c w), p + 8, len - 8).
Proof.
  intros Hh Ht Hc Hv Hp Hlen Hw Hl. cbn [big_word]. rewrite (view_word p w m) by done. cbn [mbind option_bind].
  unfold native_dec. rewrite Hh.
  assert (le_dec (rev w) = rev8 (le_dec w)) as ->.
  { do 8 (destruct w as [| ? w]; [discriminate Hl |]). destruct w; [| discriminate Hl]. cbn [rev app].
    assert (bytes [z6; z5; z4; z3; z2; z1; z0; z]) by (unfold bytes in *; rewrite !Forall_cons in *; tauto).
    by rewrite !le_dec_word8, rev8_word8 by done. }
  rewrite <- rev8_linear.
  destruct (word_run c w _ Hw Hl Hc eq_refl) as (b0 & b1 & b2 & b3 & b4 & b5 & b6 & b7 & Hb & -> & ->).
  assert (bytes [b7; b6; b5; b4; b3; b2; b1; b0]) as Hb' by (unfold bytes in *; rewrite !Forall_cons in *; tauto).
  rewrite (le_dec_word8 b0), rev8_word8, <- le_dec_word8 by done.
  destruct (word_gets rev8 b7 b6 b5 b4 b3 b2 b1 b0 Ht Hb') as ((-> & -> & -> & -> & -> & -> & -> & ->) & G). cbn zeta in G.
  destruct (G 0 1%nat ltac:(lia) eq_refl) as (-> & _). destruct (G 1 2%nat ltac:(lia) eq_refl) as (_ & -> & _). destruct (G 2 3%nat ltac:(lia) eq_refl) as (_ & _ & -> & _).
  destruct (G 3 4%nat ltac:(lia) eq_refl) as (_ & _ & _ & -> & _). destruct (G 4 5%nat ltac:(lia) eq_refl) as (_ & _ & _ & _ & -> & _).
  destruct (G 5 6%nat ltac:(lia) eq_refl) as (_ & _ & _ & _ & _ & -> & _). destruct (G 6 7%nat ltac:(lia) eq_refl) as (_ & _ & _ & _ & _ & _ & -> & _).
  destruct (G 7 8%nat ltac:(lia) eq_refl) as (_ & _ & _ & _ & _ & _ & _ & ->).
  cbn [mbind option_bind]. do 3 f_equal. rewrite !rev8_linear. clear. xor_solve.
Qed.
End loops.

Section run.
Context `{Host} (addr : Z) (m rest : list Z) (Hm : bytes m) (c0 : Z) (Hc0 : 0 <= c0 < 2 ^ 64).
(** What the register holds: [f] of the reflected register. *)
Context (f : Z -> Z) (byte_body word_body : crc_state -> option crc_state).

(** [a] has been consumed, [b] is left. *)
Definition crc_inv (s : crc_state) : Prop :=
  exists a b, m = a ++ b /\ s = (f (crc64_run c0 a), zlen a, zlen b).

Context (Hbyte : forall c p len b k, 0 <= c < 2 ^ 64 -> view (m ++ rest) p (b :: k) -> byte b ->
  byte_body (f c, p, len) = Some (f (S8 (Z.lxor c b)), p + 1, len - 1)).
Context (Hword : forall c p len w k, 0 <= c < 2 ^ 64 -> view (m ++ rest) p (w ++ k) -> 0 <= p -> p + 8 <= zlen (m ++ rest) ->
  bytes w -> length w = 8%nat -> word_body (f c, p, len) = Some (f (crc64_run c w), p + 8, len - 8)).

Definition crc_left (s : crc_state) : nat := Z.to_nat (snd s).

Lemma crc_inv_view a b : m = a ++ b -> view (m ++ rest) (zlen a) b.
Proof. intros ->. rewrite <- app_assoc. apply view_app. Qed.

Lemma byte_step go s : (forall s, go s = true -> snd s <> 0) -> crc_inv s -> go s = true ->
  exists s', byte_body s = Some s' /\ crc_inv s' /\ (crc_left s' < crc_left s)%nat.
Proof.
  intros Hgo (a & b & Em & ->) G. apply Hgo in G. cbn [snd] in G. destruct b as [| x b]; [done |].
  assert (bytes a /\ byte x) as [Ha Hx].
  { unfold bytes in *. rewrite Em in Hm. apply Forall_app in Hm as [? Hm']. by apply Forall_cons in Hm' as [? _]. }
  rewrite (Hbyte _ _ _ x b); [| by apply crc64_run_bound | by apply crc_inv_view | done].
  eexists; split; [done |]. split.
  - exists (a ++ [x]), b. split; [by rewrite <- app_assoc |]. rewrite crc64_run_app, crc64_run_cons, crc64_run_nil.
    do 2 f_equal; [f_equal |]; zlens.
  - unfold crc_left. cbn [snd]. rewrite zlen_cons. pose proof (zlen_nonneg b). lia.
Qed.

Lemma word_step s : crc_inv s -> has_word s = true ->
  exists s', word_body s = Some s' /\ crc_inv s' /\ (crc_left s' < crc_left s)%nat.
Proof.
  intros (a & b & Em & ->) G. cbn [has_word] in G. apply Z.leb_le in G.
  destruct (zlen_split_prefix b 8) as (w & k & -> & Hw); [lia |].
  assert (length w = 8%nat) as Hlw by (unfold zlen in Hw; lia).
  assert (bytes a /\ bytes w) as [Ha Hbw].
  { unfold bytes in *. rewrite Em in Hm. apply Forall_app in Hm as [? Hm']. by apply Forall_app in Hm' as [? _]. }
  rewrite (Hword _ _ _ w k); [| by apply crc64_run_bound | by apply crc_inv_view | apply zlen_nonneg | | done | done].
  2: { rewrite Em, !zlen_app, Hw. pose proof (zlen_nonneg k). pose proof (zlen_nonneg rest). lia. }
  eexists; split; [done |]. split.
  - exists (a ++ w), k. split; [by rewrite <- app_assoc |]. rewrite crc64_run_app, !zlen_app, Hw.
    do 2 f_equal. lia.
  - unfold crc_left. cbn [snd]. rewrite zlen_app, Hw. pose proof (zlen_nonneg k). lia.
Qed.

Lemma run_loops : exists s1 s2,
  while_ (Z.to_nat (zlen m)) (unaligned addr) byte_body (f c0, 0, zlen m) = Some s1 /\
  while_ (Z.to_nat (zlen m)) has_word word_body s1 = Some s2 /\
  while_ (Z.to_nat (zlen m)) has_byte byte_body s2 = Some (f (crc64_run c0 m), zlen m, 0).
Proof.
  assert (forall s, crc_inv s -> (crc_left s <= Z.to_nat (zlen m))%nat) as Hl.
  { intros s (a & b & -> & ->). unfold crc_left. cbn [snd]. rewrite zlen_app. pose proof (zlen_nonneg a). lia. }
  assert (crc_inv (f c0, 0, zlen m)) as H0 by (by exists [], m).
  destruct (while_inv crc_inv crc_left (unaligned addr) byte_body) with (fuel := Z.to_nat (zlen m)) (s := (f c0, 0, zlen m))
    as (s1 & E1 & H1 & _); [| done | by apply Hl |].
  { intros s. apply byte_step. intros [[c p] len] G. cbn [unaligned snd] in *. intros ->. done. }
  destruct (while_inv crc_inv crc_left has_word word_body) with (fuel := Z.to_nat (zlen m)) (s := s1)
    as (s2 & E2 & H2 & _); [apply word_step | done | by apply Hl |].
  destruct (while_inv crc_inv crc_left has_byte byte_body) with (fuel := Z.to_nat (zlen m)) (s := s2)
    as (s3 & E3 & H3 & G3); [| done | by apply Hl |].
  { intros s. apply byte_step. intros [[c p] len] G. cbn [has_byte snd] in *. intros ->. done. }
  exists s1, s2. split; [done |]. split; [done |]. rewrite E3. f_equal.
  destruct H3 as (a & b & Em & ->). cbn [has_byte] in G3.
  destruct (Z.eqb_spec (zlen b) 0) as [Eb |]; [| done]. rewrite Eb. apply zlen_0 in Eb as ->. by rewrite app_nil_r in Em; subst a.
Qed.
End run.

(** * The table of a big endian host *)

(** Row [k] done up to column [n], the rows before it entirely. *)
Definition tswapped (t : crc_table) (k n : Z) : Prop :=
  tshape t /\ forall k' m, 0 <= k' < 8 -> 0 <= m < 256 ->
  tget t k' m = Some (let x := Nat.iter (S (Z.to_nat k')) S8 m in
    if (k' <? k) || (k' =? k) && (m <? n) then rev8 x else x).

Lemma big_init_row t k : tswapped t k 0 -> 0 <= k < 8 ->
  exists t', for_ 256 0 (fun n big_table => x ← tget big_table k n; tset big_table k n (rev8 x)) t = Some t' /\ tswapped t' (k + 1) 0.
Proof.
  intros Ht Hk.
  destruct (for_inv (fun n t => tswapped t k n)
    (fun n big_table => x ← tget big_table k n; tset big_table k n (rev8 x)) 256 0 t Ht) as (t' & E & Hs & H).
  - intros n s Hn [Hs H]. rewrite H by lia. cbn [mbind option_bind]. cbn zeta.
    replace ((k <? k) || (k =? k) && (n <? n)) with false by (boolp; done || lia).
    destruct (tget_tset s k n (rev8 (Nat.iter (S (Z.to_nat k)) S8 n)) Hs) as (s' & -> & Hs' & G & Gne); [lia | lia |].
    exists s'. split; [done |]. split; [done |]. intros k' m Hk' Hm.
    destruct (Z.eq_dec k' k) as [-> |]; [destruct (Z.eq_dec m n) as [-> |] |].
    + rewrite G. cbn zeta. by replace ((k <? k) || (k =? k) && (n <? n + 1)) with true by (boolp; done || lia).
    + rewrite Gne, H by lia. do 2 f_equal. cbn zeta.
      by replace ((k <? k) || (k =? k) && (m <? n + 1)) with ((k <? k) || (k =? k) && (m <? n)) by (boolp; done || lia).
    + rewrite Gne, H by lia. cbn zeta. by rewrite (proj2 (Z.eqb_neq k' k)).
  - exists t'. split; [exact E |]. split; [done |]. intros k' m Hk' Hm. rewrite H by done. cbn zeta.
    by replace ((k' <? k + 1) || (k' =? k + 1) && (m <? 0)) with ((k' <? k) || (k' =? k) && (m <? 0 + Z.of_nat 256)) by (boolp; done || lia).
Qed.

Lemma big_init_spec t : tshape t ->
  exists t', crcspeed64big_init _crc64 t = Some t' /\ tshape t' /\ tspec rev8 t'.
Proof.
  intros Ht. unfold crcspeed64big_init. destruct (little_init_spec t Ht) as (t1 & -> & Ht1 & H1). cbn [mbind option_bind].
  destruct (for_inv (fun k t => tswapped t k 0)
    (fun k big_table => for_ 256 0 (fun n big_table => x ← tget big_table k n; tset big_table k n (rev8 x)) big_table) 8 0 t1)
    as (t' & E & Hs & H).
  - split; [done |]. intros k m Hk Hm. rewrite H1 by done. cbn zeta.
    by replace ((k <? 0) || (k =? 0) && (m <? 0)) with false by (boolp; done || lia).
  - intros k s Hk Hs. by apply big_init_row.
  - exists t'. split; [exact E |]. split; [done |]. intros k m Hk Hm. rewrite H by done. cbn zeta.
    by replace ((k <? 0 + Z.of_nat 8) || (k =? 0 + Z.of_nat 8) && (m <? 0)) with true by (boolp; done || lia).
Qed.

Lemma first_byte_spec `{Host} : first_byte_of_one = Some (if big_endian then 0 else 1).
Proof. unfold first_byte_of_one, native_enc. by destruct big_endian. Qed.

Lemma zero_table_shape : tshape zero_table.
Proof. split; [done |]. by apply Forall_replicate. Qed.

Lemma crc64_init_spec `{Host} : exists t, crc64_init = Some t /\ tspec (if big_endian then rev8 else id) t.
Proof.
  unfold crc64_init, crcspeed64native_init. generalize zero_table_shape. generalize zero_table. intros z Hz.
  rewrite first_byte_spec. cbn [mbind option_bind].
  destruct big_endian; cbn [Z.eqb negb].
  - destruct (big_init_spec z Hz) as (t & E & _ & Ht). exists t. split; [exact E | exact Ht].
  - destruct (little_init_spec z Hz) as (t & E & _ & Ht). exists t. split; [exact E | exact Ht].
Qed.

Lemma crc64_run_ok `{Host} t addr m rest c : tspec (if big_endian then rev8 else id) t -> bytes m -> 0 <= c < 2 ^ 64 ->
  crc64 t c addr (m ++ rest) (zlen m) = Some (crc64_run c m).
Proof.
  intros Ht Hm Hc. unfold crc64, crcspeed64native. rewrite first_byte_spec. cbn [mbind option_bind].
  destruct big_endian eqn:Hh; cbn [Z.eqb negb].
  - unfold crcspeed64big.
    destruct (run_loops addr m rest Hm c Hc rev8 (big_byte (m ++ rest) t) (big_word (m ++ rest) t)) as (s1 & s2 & -> & E2 & E3).
    + intros. by eapply big_byte_spec.
    + intros. by eapply big_word_spec.
    + cbn [mbind option_bind]. rewrite E2. cbn [mbind option_bind]. rewrite E3. cbn [mbind option_bind].
      f_equal. apply rev8_id. by apply crc64_run_bound.
  - unfold crcspeed64little.
    destruct (run_loops addr m rest Hm c Hc id (little_byte (m ++ rest) t) (little_word (m ++ rest) t)) as (s1 & s2 & E1 & E2 & E3).
    + intros. by eapply little_byte_spec.
    + intros. by eapply little_word_spec.
    + unfold id in E1 at 1. rewrite E1. cbn [mbind option_bind]. rewrite E2. cbn [mbind option_bind]. rewrite E3. done.
Qed.

(** * The theorem *)

(** C15: the CRC-64 of dump files: with the tables made at start up, on hosts of
    either byte order and for a buffer at any address, the routine that looks
    up eight bytes at a time stays within the buffer and the tables and returns
    what the bit by bit routine returns; continuing from the checksum of one
    part gives the checksum of the whole, however the data is cut; and the
    checksum of a message (from 0) is, with its bits reversed, the remainder of
    the message's bits, least significant bit of each byte first, followed by
    64 zeros, in the division by the polynomial x^64 + [POLY]. *)
Theorem crc64_correct `{Host} (addr addr' : Z) (m m' rest : list Z) (crc : Z) :
  bytes m -> bytes m' -> is_u64 crc ->
  exists table r, crc64_init = Some table /\
    crc64 table crc addr (m ++ rest) (zlen m) = Some r /\ is_u64 r /\
    _crc64 (crc_reflect crc 64) (m ++ rest) (zlen m) = Some r /\
    crc64 table r addr' (m' ++ rest) (zlen m') = crc64 table crc addr (m ++ m' ++ rest) (zlen (m ++ m')) /\
    (crc = 0 -> exists q, 0 <= q /\
      Z.lxor (Z.shiftl (word_of_bits (concat (map byte_lsb m))) 64) (crc_reflect r 64) = clmul q (2 ^ 64 + POLY)).
Proof.
  intros Hm Hm' Hc. unfold is_u64 in Hc. assert (0 <= crc < 2 ^ 64) as Hc' by lia.
  destruct crc64_init_spec as (t & E & Ht). exists t, (crc64_run crc m). split; [done |].
  pose proof (crc64_run_bound m crc Hm Hc') as Hr.
  rewrite crc64_run_ok by done. split; [done |]. split; [unfold is_u64; lia |].
  destruct (_crc64_run (crc_reflect crc 64) m rest Hm (crc_reflect_bound crc)) as [E1 _].
  rewrite crc_reflect_involutive in E1 by done. split; [exact E1 |]. split.
  - assert (bytes (m ++ m')) as Hmm by (by apply Forall_app_2).
    rewrite app_assoc, (crc64_run_ok t addr (m ++ m')), (crc64_run_ok t addr' m') by done. by rewrite crc64_run_app.
  - intros ->. destruct (lfsr_remainder 64 POLY ltac:(lia) ltac:(done) (concat (map byte_lsb m))) as (Hb & q & Hq & Eq).
    exists q. split; [done |]. rewrite <- Eq. f_equal.
    destruct (_crc64_run 0 m rest Hm ltac:(lia)) as [E2 E3]. rewrite E2 in E3. injection E3 as E3.
    rewrite (proj2 crc_reflect_consts) in E3. rewrite E3. by apply crc_reflect_involutive.
Qed.

Lemma crc64_correct_witness : is_u64 0 /\ exists r,
  _crc64 (crc_reflect 0 64) (chars "dump" ++ [0]) 4 = Some r /\ is_u64 r.
Proof.
  assert (is_u64 0) as H0 by (unfold is_u64; lia). split; [exact H0 |].
  destruct (crc64_correct (H := true) 3 0 (chars "dump") (chars "ed") [0] 0 (chars_bytes _) (chars_bytes _) H0)
    as (t & r & _ & _ & Hr & E & _).
  exists r. split; [exact E | exact Hr].
Defined.
