(* ===== verification/Bitops.v ===== *)
(** bitops.c, the low level functions: counting and searching bits in a string,
    and reading and writing integers of any width at any bit offset, with the
    overflow rules of BITFIELD.

    Bit 0 of a string is the most significant bit of its first byte.  The
    address of a string ([addr]) only matters for alignment; the words the code
    loads are in the host's byte order.  [None] is an access out of bounds or
    the panic at the end of [redisBitpos]. *)
From S2P Require Import Prelude Endian Strnum Bits.

Section scan.
Context `{Host}.
(** A string and its address. *)
Context (addr : Z) (s : list Z).

(** * Counting *)

Definition bitsinbyte : list Z :=
  [0; 1; 1; 2; 1; 2; 2; 3; 1; 2; 2; 3; 2; 3; 3; 4; 1; 2; 2; 3; 2; 3; 3; 4; 2; 3; 3; 4; 3; 4; 4; 5;
   1; 2; 2; 3; 2; 3; 3; 4; 2; 3; 3; 4; 3; 4; 4; 5; 2; 3; 3; 4; 3; 4; 4; 5; 3; 4; 4; 5; 4; 5; 5; 6;
   1; 2; 2; 3; 2; 3; 3; 4; 2; 3; 3; 4; 3; 4; 4; 5; 2; 3; 3; 4; 3; 4; 4; 5; 3; 4; 4; 5; 4; 5; 5; 6;
   2; 3; 3; 4; 3; 4; 4; 5; 3; 4; 4; 5; 4; 5; 5; 6; 3; 4; 4; 5; 4; 5; 5; 6; 4; 5; 5; 6; 5; 6; 6; 7;
   1; 2; 2; 3; 2; 3; 3; 4; 2; 3; 3; 4; 3; 4; 4; 5; 2; 3; 3; 4; 3; 4; 4; 5; 3; 4; 4; 5; 4; 5; 5; 6;
   2; 3; 3; 4; 3; 4; 4; 5; 3; 4; 4; 5; 4; 5; 5; 6; 3; 4; 4; 5; 4; 5; 5; 6; 4; 5; 5; 6; 5; 6; 6; 7;
   2; 3; 3; 4; 3; 4; 4; 5; 3; 4; 4; 5; 4; 5; 5; 6; 3; 4; 4; 5; 4; 5; 5; 6; 4; 5; 5; 6; 5; 6; 6; 7;
   3; 4; 4; 5; 4; 5; 5; 6; 4; 5; 5; 6; 5; 6; 6; 7; 4; 5; 5; 6; 5; 6; 6; 7; 5; 6; 6; 7; 6; 7; 7; 8].

(** Where [p] is, [count] and [bits]. *)
Definition popcount_state : Type := Z * Z * Z.

Definition popcount_byte '((p, count, bits) : popcount_state) : option popcount_state :=
  b ← rd s p; n ← rd bitsinbyte b; Some (p + 1, count - 1, bits + n).

(** The two lines for each of the seven words, and what is added to the sum. *)
Definition aux_pairs (aux : Z) : Z := u32 (aux - Z.land (Z.shiftr aux 1) 0x55555555).
Definition aux_nibbles (aux : Z) : Z := u32 (Z.land aux 0x33333333 + Z.land (Z.shiftr aux 2) 0x33333333).
Definition aux_bytes (aux : Z) : Z := Z.land (u32 (aux + Z.shiftr aux 4)) 0x0F0F0F0F.
Definition aux_count (aux : Z) : Z := aux_bytes (aux_nibbles (aux_pairs aux)).

Definition load32 (p : Z) : option Z := w ← rdn s p 4; Some (native_dec w).

Definition popcount_block '((p, count, bits) : popcount_state) : option popcount_state :=
  aux1 ← load32 p;
  aux2 ← load32 (p + 4);
  aux3 ← load32 (p + 8);
  aux4 ← load32 (p + 12);
  aux5 ← load32 (p + 16);
  aux6 ← load32 (p + 20);
  aux7 ← load32 (p + 24);
  let sum := u32 (aux_count aux1 + aux_count aux2 + aux_count aux3 + aux_count aux4 +
                  aux_count aux5 + aux_count aux6 + aux_count aux7) in
  Some (p + 28, count - 28, bits + Z.shiftr (u32 (sum * 0x01010101)) 24).

Definition redisPopcount (count : Z) : option Z :=
  st ← while_ (Z.to_nat count) (fun '(p, count, _) => negb (Z.land (addr + p) 3 =? 0) && negb (count =? 0)) popcount_byte (0, count, 0);
  st ← while_ (Z.to_nat count) (fun '(_, count, _) => 28 <=? count) popcount_block st;
  '(_, _, bits) ← while_ (Z.to_nat count) (fun '(_, count, _) => negb (count =? 0)) popcount_byte st;
  Some bits.

(** * Searching *)

(** Where [c] is, [count], [pos], and whether the loop was left by [break]. *)
Definition bitpos_state : Type := Z * Z * Z * bool.

Definition bitpos_byte (skipval : Z) '((c, count, pos, _) : bitpos_state) : option bitpos_state :=
  b ← rd s c;
  Some (if negb (b =? skipval) then (c, count, pos, true) else (c + 1, count - 1, pos + 8, false)).

Definition bitpos_word (skipval : Z) '((l, count, pos, _) : bitpos_state) : option bitpos_state :=
  w ← rdn s l 8;
  Some (if negb (native_dec w =? skipval) then (l, count, pos, true) else (l + 8, count - 8, pos + 8 * 8, false)).

(** [word <<= 8; if (count) { word |= *c; c++; count--; }] *)
Definition load_byte (_ : Z) '((word, c, count) : Z * Z * Z) : option (Z * Z * Z) :=
  let word := u64 (Z.shiftl word 8) in
  if negb (count =? 0) then b ← rd s c; Some (Z.lor word b, c + 1, count - 1)
  else Some (word, c, count).

(** [while (one)], with the panic after it. *)
Fixpoint bitpos_scan (fuel : nat) (one word bit pos : Z) : option Z :=
  match fuel with
  | O => None
  | S fuel =>
      if one =? 0 then None
      else if Z.b2z (negb (Z.land one word =? 0)) =? bit then Some pos
      else bitpos_scan fuel (Z.shiftr one 1) word bit (pos + 1)
  end.

Definition ULONG_MAX : Z := 18446744073709551615.

Definition redisBitpos (count bit : Z) : option Z :=
  let skipval := if negb (bit =? 0) then 0 else 255 in
  '(c, count, pos, found) ← while_ (Datatypes.S (Z.to_nat count))
     (fun '(c, count, _, found) => negb (Z.land (addr + c) 7 =? 0) && negb (count =? 0) && negb found)
     (bitpos_byte skipval) (0, count, 0, false);
  let skipval := if negb (bit =? 0) then 0 else ULONG_MAX in
  '(l, count, pos, _) ← (if found : bool then Some (c, count, pos, true)
    else while_ (Datatypes.S (Z.to_nat count)) (fun '(_, count, _, stop) => (8 <=? count) && negb stop)
           (bitpos_word skipval) (c, count, pos, false));
  '(word, _, _) ← for_ 8 0 load_byte (0, l, count);
  if (bit =? 1) && (word =? 0) then Some (-1)
  else
    let one := ULONG_MAX in
    let one := Z.shiftr one 1 in
    let one := u64 (Z.lnot one) in
    bitpos_scan 65 one word bit pos.
End scan.

(** * Integers of any width *)

(** One turn of the loops: the bit [j] from the left of the integer. *)
Definition setBitfield_bit (bits value j : Z) '((p, offset) : list Z * Z) : option (list Z * Z) :=
  let bitval := Z.b2z (negb (Z.land value (Z.shiftl 1 (bits - 1 - j)) =? 0)) in
  let byte := Z.shiftr offset 3 in
  let bit := 7 - Z.land offset 0x7 in
  byteval ← rd p byte;
  let byteval := Z.land byteval (Z.lnot (Z.shiftl 1 bit)) in
  let byteval := Z.lor byteval (Z.shiftl bitval bit) in
  p ← wrn p byte [Z.land byteval 0xff];
  Some (p, u64 (offset + 1)).

Definition setUnsignedBitfield (p : list Z) (offset bits value : Z) : option (list Z) :=
  '(p, _) ← for_ (Z.to_nat bits) 0 (setBitfield_bit bits value) (p, offset); Some p.

Definition setSignedBitfield (p : list Z) (offset bits value : Z) : option (list Z) :=
  let uv := u64 value in setUnsignedBitfield p offset bits uv.

Definition getBitfield_bit (p : list Z) (_ : Z) '((value, offset) : Z * Z) : option (Z * Z) :=
  let byte := Z.shiftr offset 3 in
  let bit := 7 - Z.land offset 0x7 in
  byteval ← rd p byte;
  let bitval := Z.land (Z.shiftr byteval bit) 1 in
  Some (Z.lor (u64 (Z.shiftl value 1)) bitval, u64 (offset + 1)).

Definition getUnsignedBitfield (p : list Z) (offset bits : Z) : option Z :=
  '(value, _) ← for_ (Z.to_nat bits) 0 (getBitfield_bit p) (0, offset); Some value.

Definition getSignedBitfield (p : list Z) (offset bits : Z) : option Z :=
  u ← getUnsignedBitfield p offset bits;
  let value := i64 u in
  Some (if (bits <? 64) && negb (Z.land (u64 value) (u64 (Z.shiftl 1 (bits - 1))) =? 0)
        then i64 (Z.lor (u64 value) (u64 (Z.shiftl ULLONG_MAX bits))) else value).

Inductive owtype := BFOVERFLOW_WRAP | BFOVERFLOW_SAT | BFOVERFLOW_FAIL.

(** The result and the value [*limit] has afterwards. *)
Definition checkUnsignedBitfieldOverflow (value incr bits : Z) (ow : owtype) (limit : Z) : Z * Z :=
  let max := if bits =? 64 then ULLONG_MAX else u64 (Z.shiftl 1 bits - 1) in
  let maxincr := i64 (u64 (max - value)) in
  let minincr := i64 (u64 (- value)) in
  let handle_wrap :=
    let mask := u64 (Z.shiftl ULLONG_MAX bits) in
    let res := u64 (value + incr) in
    (1, Z.land res (u64 (Z.lnot mask))) in
  if (max <? value) || (0 <? incr) && (maxincr <? incr) then
    match ow with
    | BFOVERFLOW_WRAP => handle_wrap
    | BFOVERFLOW_SAT => (1, max)
    | BFOVERFLOW_FAIL => (1, limit)
    end
  else if (incr <? 0) && (incr <? minincr) then
    match ow with
    | BFOVERFLOW_WRAP => handle_wrap
    | BFOVERFLOW_SAT => (-1, 0)
    | BFOVERFLOW_FAIL => (-1, limit)
    end
  else (0, limit).

Definition checkSignedBitfieldOverflow (value incr bits : Z) (ow : owtype) (limit : Z) : Z * Z :=
  let max := if bits =? 64 then LLONG_MAX else Z.shiftl 1 (bits - 1) - 1 in
  let min := - max - 1 in
  let maxincr := i64 (u64 (u64 max - value)) in
  let minincr := i64 (min - value) in
  let handle_wrap :=
    let msb := u64 (Z.shiftl 1 (bits - 1)) in
    let a := u64 value in
    let b := u64 incr in
    let c := u64 (a + b) in
    let c :=
      if bits <? 64 then
        let mask := u64 (Z.shiftl ULLONG_MAX bits) in
        if negb (Z.land c msb =? 0) then Z.lor c mask else Z.land c (u64 (Z.lnot mask))
      else c in
    (1, i64 c) in
  if (max <? value) || negb (bits =? 64) && (maxincr <? incr) || (0 <=? value) && (0 <? incr) && (maxincr <? incr) then
    match ow with
    | BFOVERFLOW_WRAP => handle_wrap
    | BFOVERFLOW_SAT => (1, max)
    | BFOVERFLOW_FAIL => (1, limit)
    end
  else if (value <? min) || negb (bits =? 64) && (incr <? minincr) || (value <? 0) && (incr <? 0) && (incr <? minincr) then
    match ow with
    | BFOVERFLOW_WRAP => handle_wrap
    | BFOVERFLOW_SAT => (-1, min)
    | BFOVERFLOW_FAIL => (-1, limit)
    end
  else (0, limit).

Example popcount_ex : redisPopcount (H := false) 1 (chars "foobar, the quick brown fox jumps over the lazy dog") 51 = Some 192.
Proof. vm_compute. reflexivity. Qed.
Example bitpos_ex : redisBitpos (H := true) 5 ([0; 0; 0; 0] ++ [16; 0]) 6 1 = Some 35.
Proof. vm_compute. reflexivity. Qed.
Example set_ex : setUnsignedBitfield [0; 0] 7 5 23 = Some [1; 112].
Proof. reflexivity. Qed.
Example get_ex : getSignedBitfield [1; 112] 7 5 = Some (-9).
Proof. reflexivity. Qed.
(** A value far below the range of an 8 bit integer counts as an overflow, not
    as an underflow: [maxincr] wraps around before the value is tested. *)
Example signed_set_below : checkSignedBitfieldOverflow LLONG_MIN 0 8 BFOVERFLOW_SAT 0 = (1, 127).
Proof. reflexivity. Qed.
