(* ===== verification/BitopsThms.v ===== *)
(** bitops.c: counting and searching bits, and integers at any bit offset,
    against the list of the bits of the string. *)
From S2P Require Import Prelude Endian Strnum Bits Bitops.

(** Equality of tuples, component by component. *)
Ltac tuples := repeat apply (f_equal2 pair).

(** * Counting *)

Definition count_true (l : list bool) : Z := zlen (filter (eq true) l).

Lemma count_true_app l l' : count_true (l ++ l') = count_true l + count_true l'.
Proof. unfold count_true. by rewrite filter_app, zlen_app. Qed.

(** The bits set in a byte and in a string. *)
Definition popcount8 (b : Z) : Z := count_true (byte_msb b).
Definition ones (s : list Z) : Z := count_true (bits_of s).

Lemma ones_cons b s : ones (b :: s) = popcount8 b + ones s.
Proof. unfold ones. by rewrite bits_of_cons, count_true_app. Qed.

Lemma ones_app s s' : ones (s ++ s') = ones s + ones s'.
Proof. unfold ones. by rewrite bits_of_app, count_true_app. Qed.

Lemma ones_nil : ones [] = 0.
Proof. done. Qed.

Lemma ones_rev s : ones (rev s) = ones s.
Proof. induction s as [| b s IH]; [done |]. cbn [rev]. rewrite ones_app, ones_cons, ones_cons, ones_nil, IH. lia. Qed.

(** ** Counting in parallel *)

(** The four bytes of the word, each transformed by [g]. *)
Lemma swar_bytes f g a b c d : xlinear f ->
  (forall x k, byte x -> k ∈ [0; 8; 16; 24] -> f (Z.shiftl x k) = Z.shiftl (g x) k) ->
  (forall x, byte x -> byte (g x)) -> bytes [a; b; c; d] ->
  f (le_dec [a; b; c; d]) = le_dec [g a; g b; g c; g d].
Proof.
  intros Hf Hg Hb H. unfold bytes in H. rewrite !Forall_cons in H. destruct_and! H.
  rewrite !le_dec_cons_lxor by auto. cbn [le_dec]. rewrite !Z.shiftl_0_l, !Z.lxor_0_r.
  rewrite !Z.shiftl_lxor, !Z.shiftl_shiftl by lia.
  change (8 + (8 + 8)) with 24; change (8 + 8 + 8) with 24; change (8 + 8) with 16. rewrite !Hf.
  pose proof (Hg a 0 ltac:(done) ltac:(set_solver)) as Ea. rewrite !Z.shiftl_0_r in Ea. rewrite Ea.
  rewrite (Hg b 8), (Hg c 16), (Hg d 24) by (done || set_solver). done.
Qed.

(** The premises on single bytes, by trying all of them. *)
Definition swar_ok (f g : Z -> Z) : bool :=
  forallb (fun x => forallb (fun k => f (Z.shiftl x k) =? Z.shiftl (g x) k) [0; 8; 16; 24] &&
    (0 <=? g x) && (g x <? 256)) (seqZ 0 256).

Lemma swar_map f g a b c d : xlinear f -> swar_ok f g = true -> bytes [a; b; c; d] ->
  f (le_dec [a; b; c; d]) = le_dec [g a; g b; g c; g d].
Proof.
  intros Hf H Hb. apply swar_bytes; [done | | | done].
  - intros x k Hx Hk. pose proof (byte_all _ H x Hx) as E. cbn beta in E. rewrite !andb_true_iff, forallb_forall in E.
    destruct E as [[E _] _]. apply Z.eqb_eq, E. by apply list_elem_of_In.
  - intros x Hx. pose proof (byte_all _ H x Hx) as E. cbn beta in E. rewrite !andb_true_iff in E. unfold byte. lia.
Qed.

Lemma shiftr_land_linear n m : xlinear (fun w => Z.land (Z.shiftr w n) m).
Proof.
  intros a b. rewrite Z.shiftr_lxor. apply Z.bits_inj'. intros i _. rewrite ?Z.land_spec, ?Z.lxor_spec, ?Z.land_spec.
  by destruct (Z.testbit (Z.shiftr a n) i), (Z.testbit (Z.shiftr b n) i), (Z.testbit m i).
Qed.

Lemma land_linear m : xlinear (fun w => Z.land w m).
Proof. intros a b. pose proof (shiftr_land_linear 0 m a b) as H. cbn beta in H. by rewrite !Z.shiftr_0_r in H. Qed.

(** What a byte becomes in each step; the last one is its number of bits. *)
Definition g_half (x : Z) : Z := Z.land (Z.shiftr x 1) 0x55.
Definition g_pairs (x : Z) : Z := x - g_half x.
Definition g_nibbles (x : Z) : Z := Z.land x 0x33 + Z.land (Z.shiftr x 2) 0x33.
Definition g_check (x : Z) : bool :=
  let y := g_nibbles (g_pairs x) in
  (0 <=? g_pairs x) && (g_pairs x <? 256) && (0 <=? y) && (y <=? 68) && (y mod 16 <=? 4) && ((y + y / 16) mod 16 =? popcount8 x).

Lemma g_check_all : forallb g_check (seqZ 0 256) = true.
Proof. vm_compute. reflexivity. Qed.

(** Two digits up to four. *)
Definition small (y : Z) : Prop := 0 <= y <= 68 /\ y mod 16 <= 4.

Lemma g_spec x : byte x -> byte (g_pairs x) /\ small (g_nibbles (g_pairs x)) /\
  (g_nibbles (g_pairs x) + g_nibbles (g_pairs x) / 16) mod 16 = popcount8 x.
Proof.
  intros Hx. pose proof (byte_all _ g_check_all x Hx) as E. unfold g_check in E. cbn zeta in E.
  rewrite !andb_true_iff in E. destruct E as [E E5]. apply Z.eqb_eq in E5. unfold byte, small.
  split; [lia |]. split; [lia | exact E5].
Qed.

Lemma pairs_bytes a b c d : bytes [a; b; c; d] ->
  aux_pairs (le_dec [a; b; c; d]) = le_dec [g_pairs a; g_pairs b; g_pairs c; g_pairs d].
Proof.
  intros H. unfold aux_pairs.
  rewrite (swar_map (fun w => Z.land (Z.shiftr w 1) 0x55555555) g_half) by (apply shiftr_land_linear || done || (vm_compute; reflexivity)).
  replace (le_dec [a; b; c; d] - _) with (le_dec [g_pairs a; g_pairs b; g_pairs c; g_pairs d]) by (cbn [le_dec]; unfold g_pairs; lia).
  apply u32_id. unfold bytes in H. rewrite !Forall_cons in H. destruct_and! H.
  apply (le_dec_bound [_; _; _; _]). unfold bytes. rewrite !Forall_cons. split_and!; try done; by apply g_spec.
Qed.

Lemma nibbles_bytes a b c d : bytes [a; b; c; d] -> bytes [g_nibbles a; g_nibbles b; g_nibbles c; g_nibbles d] ->
  aux_nibbles (le_dec [a; b; c; d]) = le_dec [g_nibbles a; g_nibbles b; g_nibbles c; g_nibbles d].
Proof.
  intros H Hg. unfold aux_nibbles.
  rewrite (swar_map (fun w => Z.land (Z.shiftr w 2) 0x33333333) (fun x => Z.land (Z.shiftr x 2) 0x33)) by (apply shiftr_land_linear || done || (vm_compute; reflexivity)).
  rewrite (swar_map (fun w => Z.land w 0x33333333) (fun x => Z.land x 0x33)) by (apply land_linear || done || (vm_compute; reflexivity)).
  rewrite u32_id.
  - cbn [le_dec]. unfold g_nibbles. lia.
  - replace (_ + _) with (le_dec [g_nibbles a; g_nibbles b; g_nibbles c; g_nibbles d]) by (cbn [le_dec]; unfold g_nibbles; lia).
    by apply (le_dec_bound [_; _; _; _]).
Qed.

Lemma bytes_bytes a b c d : bytes [a; b; c; d] -> Forall small [a; b; c; d] ->
  aux_bytes (le_dec [a; b; c; d]) = le_dec [(a + a / 16) mod 16; (b + b / 16) mod 16; (c + c / 16) mod 16; (d + d / 16) mod 16].
Proof.
  intros H H68. rewrite !Forall_cons in H68. unfold small in H68.
  unfold bytes in H. rewrite !Forall_cons in H. unfold byte in H. unfold aux_bytes.
  rewrite Z.shiftr_div_pow2 by lia.
  assert (le_dec [a; b; c; d] / 2 ^ 4 = le_dec [a / 16 + 16 * (b mod 16); b / 16 + 16 * (c mod 16); c / 16 + 16 * (d mod 16); d / 16]) as ->.
  { symmetry. apply (Z.div_unique_pos _ _ _ (a mod 16)); [apply Z.mod_pos_bound; lia |].
    cbn [le_dec]. pose proof (Z_div_mod_eq_full a 16). pose proof (Z_div_mod_eq_full b 16).
    pose proof (Z_div_mod_eq_full c 16). pose proof (Z_div_mod_eq_full d 16). lia. }
  set (x0 := a + a / 16 + 16 * (b mod 16)). set (x1 := b + b / 16 + 16 * (c mod 16)).
  set (x2 := c + c / 16 + 16 * (d mod 16)). set (x3 := d + d / 16).
  assert (bytes [x0; x1; x2; x3]) as Hx.
  { unfold bytes. rewrite !Forall_cons. unfold byte, x0, x1, x2, x3. split_and!; try done; dm. }
  replace (_ + _) with (le_dec [x0; x1; x2; x3]) by (cbn [le_dec]; unfold x0, x1, x2, x3; lia).
  rewrite u32_id by (apply (le_dec_bound [_; _; _; _] Hx)).
  rewrite (swar_map (fun w => Z.land w 0x0F0F0F0F) (fun x => x mod 16)) by (apply land_linear || done || (vm_compute; reflexivity)).
  unfold x0, x1, x2, x3. by rewrite !(Z.mul_comm 16 (_ mod 16)), !Z_mod_plus_full.
Qed.

Lemma aux_count_bytes a b c d : bytes [a; b; c; d] ->
  aux_count (le_dec [a; b; c; d]) = le_dec [popcount8 a; popcount8 b; popcount8 c; popcount8 d].
Proof.
  intros H. unfold aux_count. rewrite pairs_bytes by done. unfold bytes in H. rewrite !Forall_cons in H. destruct_and! H.
  pose proof (g_spec a ltac:(done)) as (? & ? & <-). pose proof (g_spec b ltac:(done)) as (? & ? & <-).
  pose proof (g_spec c ltac:(done)) as (? & ? & <-). pose proof (g_spec d ltac:(done)) as (? & ? & <-).
  assert (forall y0 y1 y2 y3, small y0 -> small y1 -> small y2 -> small y3 ->
    bytes [y0; y1; y2; y3] /\ Forall small [y0; y1; y2; y3]) as Hy.
  { intros. unfold bytes. rewrite !Forall_cons. unfold byte, small in *. split_and!; done || lia. }
  rewrite nibbles_bytes, bytes_bytes; [done | by apply Hy | by apply Hy | | by apply Hy].
  unfold bytes. by rewrite !Forall_cons.
Qed.

Lemma popcount8_bound b : 0 <= popcount8 b <= 8.
Proof.
  unfold popcount8, count_true, zlen. pose proof (length_filter (eq true) (byte_msb b)) as H.
  rewrite length_byte_msb in H. lia.
Qed.

Section scan.
Context `{Host}.

(** The counts of the four bytes of a word of memory. *)
Lemma word_counts w : bytes w -> length w = 4%nat -> exists n0 n1 n2 n3,
  aux_count (native_dec w) = le_dec [n0; n1; n2; n3] /\
  (0 <= n0 <= 8 /\ 0 <= n1 <= 8 /\ 0 <= n2 <= 8 /\ 0 <= n3 <= 8) /\ n0 + n1 + n2 + n3 = ones w.
Proof.
  intros Hw Hl. assert (forall l, bytes l -> length l = 4%nat -> exists n0 n1 n2 n3,
    aux_count (le_dec l) = le_dec [n0; n1; n2; n3] /\
    (0 <= n0 <= 8 /\ 0 <= n1 <= 8 /\ 0 <= n2 <= 8 /\ 0 <= n3 <= 8) /\ n0 + n1 + n2 + n3 = ones l) as L.
  { clear. intros l Hb Hl. do 4 (destruct l as [| ? l]; [discriminate Hl |]). destruct l; [| discriminate Hl].
    do 4 eexists. rewrite aux_count_bytes by done. split; [done |]. split; [split_and!; apply popcount8_bound |].
    rewrite !ones_cons, ones_nil. lia. }
  unfold native_dec. destruct big_endian; [| by apply L].
  destruct (L (rev w)) as (n0 & n1 & n2 & n3 & E & Hn & Hs); [by apply Forall_rev | by rewrite length_rev |].
  exists n0, n1, n2, n3. split; [done |]. split; [done |]. by rewrite Hs, ones_rev.
Qed.

(** The multiplication adds the four bytes. *)
Lemma gather a b c d : 0 <= a -> 0 <= b -> 0 <= c -> 0 <= d -> a + b + c + d < 256 ->
  Z.shiftr (u32 (u32 (le_dec [a; b; c; d]) * 0x01010101)) 24 = a + b + c + d.
Proof.
  intros. assert (0 <= le_dec [a; b; c; d] < 4294967296) as Hb by (cbn [le_dec]; lia).
  rewrite (u32_id (le_dec _)) by done. rewrite Z.shiftr_div_pow2 by lia. unfold u32.
  assert (le_dec [a; b; c; d] * 0x01010101 mod 4294967296 = a + 256 * (a + b) + 65536 * (a + b + c) + 16777216 * (a + b + c + d)) as ->.
  { symmetry. apply (Z.mod_unique_pos _ _ (b + c + d + 256 * (c + d) + 65536 * d)); cbn [le_dec]; lia. }
  symmetry. apply (Z.div_unique_pos _ _ _ (a + 256 * (a + b) + 65536 * (a + b + c))); lia.
Qed.

Context (addr : Z) (m rest : list Z) (Hm : bytes m).
Notation s := (m ++ rest).

(** The part of the string that has been counted, and the rest. *)
Definition popcount_inv (st : popcount_state) : Prop :=
  exists a b, m = a ++ b /\ st = (zlen a, zlen b, ones a).

Definition popcount_left (st : popcount_state) : nat := let '(_, count, _) := st in Z.to_nat count.

Lemma bitsinbyte_ok b : byte b -> rd bitsinbyte b = Some (popcount8 b).
Proof.
  intros Hb. pose proof (byte_all (fun b => match rd bitsinbyte b with Some n => n =? popcount8 b | None => false end)
    ltac:(vm_compute; reflexivity) b Hb) as E. cbn beta in E. destruct (rd bitsinbyte b); [| done]. apply Z.eqb_eq in E. by f_equal.
Qed.

Lemma popcount_byte_step st : popcount_inv st -> popcount_left st <> O ->
  exists st', popcount_byte s st = Some st' /\ popcount_inv st' /\ (popcount_left st' < popcount_left st)%nat.
Proof.
  intros (a & b & Em & ->) Hn. cbn [popcount_left] in Hn. destruct b as [| x b]; [done |].
  cbn [popcount_byte]. rewrite Em, <- app_assoc. cbn [app]. rewrite rd_app by done. cbn [mbind option_bind].
  assert (byte x) as Hx.
  { unfold bytes in Hm. rewrite Em in Hm. apply Forall_app in Hm as [_ Hm']. by apply Forall_cons in Hm' as [? _]. }
  rewrite bitsinbyte_ok by done. cbn [mbind option_bind]. eexists; split; [done |]. split.
  - exists (a ++ [x]), b. split; [by rewrite <- app_assoc |]. rewrite ones_app, ones_cons, ones_nil, Z.add_0_r.
    tuples; zlens.
  - cbn [popcount_left]. rewrite zlen_cons. pose proof (zlen_nonneg b). lia.
Qed.

(** Loading the next word. *)
Lemma load_next a b p : m = a ++ b -> p = zlen a -> 4 <= zlen b ->
  exists w b' n0 n1 n2 n3, load32 s p = Some (native_dec w) /\ m = (a ++ w) ++ b' /\ p + 4 = zlen (a ++ w) /\ zlen b' = zlen b - 4 /\
    aux_count (native_dec w) = le_dec [n0; n1; n2; n3] /\
    (0 <= n0 <= 8 /\ 0 <= n1 <= 8 /\ 0 <= n2 <= 8 /\ 0 <= n3 <= 8) /\ ones (a ++ w) = ones a + (n0 + n1 + n2 + n3).
Proof.
  intros Em -> Hb. destruct (zlen_split_prefix b 4) as (w & b' & -> & Hw); [lia |].
  assert (bytes w) as Bw by (unfold bytes in *; rewrite Em in Hm; rewrite !Forall_app in Hm; tauto).
  destruct (word_counts w Bw) as (n0 & n1 & n2 & n3 & E & Hn & Hs); [unfold zlen in Hw; lia |].
  exists w, b', n0, n1, n2, n3. rewrite ones_app, Hs, !zlen_app, Hw. split_and!; try done; try lia.
  - unfold load32. rewrite Em, <- !app_assoc, rdn_app by done. done.
  - by rewrite <- app_assoc.
Qed.

Lemma popcount_block_step st : popcount_inv st -> (let '(_, count, _) := st in 28 <= count) ->
  exists st', popcount_block s st = Some st' /\ popcount_inv st' /\ (popcount_left st' < popcount_left st)%nat.
Proof.
  intros (a & b & Em & ->) Hn. cbn [popcount_block].
  destruct (load_next a b (zlen a) Em eq_refl) as (w1 & b1 & p0 & p1 & p2 & p3 & -> & Em1 & P1 & L1 & C1 & B1 & S1); [lia |].
  destruct (load_next _ b1 (zlen a + 4) Em1) as (w2 & b2 & q0 & q1 & q2 & q3 & -> & Em2 & P2 & L2 & C2 & B2 & S2); [lia | lia |].
  destruct (load_next _ b2 (zlen a + 8) Em2) as (w3 & b3 & r0 & r1 & r2 & r3 & -> & Em3 & P3 & L3 & C3 & B3 & S3); [lia | lia |].
  destruct (load_next _ b3 (zlen a + 12) Em3) as (w4 & b4 & t0 & t1 & t2 & t3 & -> & Em4 & P4 & L4 & C4 & B4 & S4); [lia | lia |].
  destruct (load_next _ b4 (zlen a + 16) Em4) as (w5 & b5 & u0 & u1 & u2 & u3 & -> & Em5 & P5 & L5 & C5 & B5 & S5); [lia | lia |].
  destruct (load_next _ b5 (zlen a + 20) Em5) as (w6 & b6 & v0 & v1 & v2 & v3 & -> & Em6 & P6 & L6 & C6 & B6 & S6); [lia | lia |].
  destruct (load_next _ b6 (zlen a + 24) Em6) as (w7 & b7 & x0 & x1 & x2 & x3 & -> & Em7 & P7 & L7 & C7 & B7 & S7); [lia | lia |].
  cbn [mbind option_bind]. eexists; split; [reflexivity |]. split; [| cbn [popcount_left]; lia].
  eexists _, b7. split; [exact Em7 |]. rewrite C1, C2, C3, C4, C5, C6, C7.
  replace (le_dec [p0; p1; p2; p3] + _ + _ + _ + _ + _ + _) with
    (le_dec [p0 + q0 + r0 + t0 + u0 + v0 + x0; p1 + q1 + r1 + t1 + u1 + v1 + x1; p2 + q2 + r2 + t2 + u2 + v2 + x2; p3 + q3 + r3 + t3 + u3 + v3 + x3])
    by (cbn [le_dec]; lia).
  rewrite gather by lia. tuples; lia.
Qed.

Lemma redisPopcount_spec : redisPopcount addr s (zlen m) = Some (ones m).
Proof.
  unfold redisPopcount.
  assert (forall st, popcount_inv st -> (popcount_left st <= Z.to_nat (zlen m))%nat) as Hl.
  { intros st (a & b & -> & ->). cbn [popcount_left]. rewrite zlen_app. pose proof (zlen_nonneg a). lia. }
  assert (popcount_inv (0, zlen m, 0)) as H0 by (by exists [], m).
  edestruct (while_inv popcount_inv popcount_left) as (st1 & E1 & H1 & _); [| exact H0 | by apply Hl |]; cycle 1.
  { rewrite E1. cbn [mbind option_bind]. clear E1.
    edestruct (while_inv popcount_inv popcount_left) as (st2 & E2 & H2 & _); [| exact H1 | by apply Hl |]; cycle 1.
    { rewrite E2. cbn [mbind option_bind]. clear E2.
      edestruct (while_inv popcount_inv popcount_left) as (st3 & E3 & H3 & G3); [| exact H2 | by apply Hl |]; cycle 1.
      { rewrite E3. destruct H3 as (a & b & Em & ->). cbn [mbind option_bind]. destruct (Z.eqb_spec (zlen b) 0) as [Eb |]; [| done].
        apply zlen_0 in Eb as ->. by rewrite Em, app_nil_r. }
      intros [[p count] bits] Hst G. apply popcount_byte_step; [done |]. cbn [popcount_left].
      destruct Hst as (a & b & _ & [= -> -> ->]). pose proof (zlen_nonneg b). boolp; done || lia. }
    intros [[p count] bits] Hst G. apply popcount_block_step; [done |]. lia. }
  intros [[p count] bits] Hst G. apply popcount_byte_step; [done |]. cbn [popcount_left].
  destruct Hst as (a & b & _ & [= -> -> ->]). pose proof (zlen_nonneg b). apply andb_true_iff in G as [_ G]. boolp; done || lia.
Qed.
End scan.

(** * Searching *)

(** The position of the first bit [b]. *)
Fixpoint find_bit (b : bool) (l : list bool) : option Z :=
  match l with
  | [] => None
  | x :: l => if Bool.eqb x b then Some 0 else Z.succ <$> find_bit b l
  end.

Lemma find_bit_app b l l' : find_bit b (l ++ l') =
  match find_bit b l with Some i => Some i | None => Z.add (zlen l) <$> find_bit b l' end.
Proof.
  induction l as [| x l IH]; cbn [find_bit app]; [by destruct (find_bit b l') |].
  destruct (Bool.eqb x b); [done |]. rewrite IH. destruct (find_bit b l); [done |].
  rewrite zlen_cons. destruct (find_bit b l'); cbn [fmap option_fmap option_map]; [| done]. f_equal. lia.
Qed.

Lemma find_bit_None b l : find_bit b l = None <-> forall x, x ∈ l -> x = negb b.
Proof.
  induction l as [| x l IH]; cbn [find_bit].
  - split; [| done]. intros _ x Hx. by apply not_elem_of_nil in Hx.
  - destruct (Bool.eqb x b) eqn:E.
    + apply eqb_prop in E as ->. split; [done |]. intros Hx. specialize (Hx b ltac:(left)). by destruct b.
    + apply eqb_false_iff in E. split.
      * intros Hn y Hy. destruct (find_bit b l); [done |]. apply elem_of_cons in Hy as [-> | Hy]; [by destruct x, b |].
        by apply IH.
      * intros Hx. rewrite (proj2 IH); [done |]. intros y Hy. apply Hx. by right.
Qed.

Lemma find_bit_range b l i : find_bit b l = Some i -> 0 <= i < zlen l /\ l !! Z.to_nat i = Some b /\ forall j, 0 <= j < i -> l !! Z.to_nat j = Some (negb b).
Proof.
  revert i. induction l as [| x l IH]; intros i E; [done |]. cbn [find_bit] in E. rewrite zlen_cons. pose proof (zlen_nonneg l).
  destruct (Bool.eqb x b) eqn:Ex.
  - apply eqb_prop in Ex as ->. injection E as <-. split; [lia |]. split; [done |]. lia.
  - destruct (find_bit b l) as [k |]; [| done]. injection E as <-. destruct (IH k eq_refl) as (Hk & Hl & Hb).
    split; [lia |]. split.
    + replace (Z.to_nat (Z.succ k)) with (S (Z.to_nat k)) by lia. done.
    + intros j Hj. destruct (Z.eq_dec j 0) as [-> |].
      * apply eqb_false_iff in Ex. cbn. f_equal. by destruct x, b.
      * replace (Z.to_nat j) with (S (Z.to_nat (j - 1))) by lia. apply Hb. lia.
Qed.

(** The byte and the word without a bit [b]. *)
Definition skip_byte (b : bool) : Z := if b then 0 else 255.
Definition skip_word (b : bool) : Z := if b then 0 else ULONG_MAX.

Lemma skip_byte_spec b x : byte x -> x = skip_byte b <-> find_bit b (byte_msb x) = None.
Proof.
  intros Hx. pose proof (byte_all (fun x => Bool.eqb (x =? skip_byte b) (bool_decide (find_bit b (byte_msb x) = None)))
    ltac:(destruct b; vm_compute; reflexivity) x Hx) as E. cbn beta in E. apply eqb_prop in E.
  rewrite <- Z.eqb_eq, E. apply bool_decide_eq_true.
Qed.

Lemma skip_bytes_spec b w : bytes w -> find_bit b (bits_of w) = None <-> w = replicate (length w) (skip_byte b).
Proof.
  induction 1 as [| x w Hx Hw IH]; [done |]. rewrite bits_of_cons, find_bit_app. cbn [length replicate].
  split.
  - intros E. destruct (find_bit b (byte_msb x)) eqn:Ex; [done |]. apply (skip_byte_spec b x Hx) in Ex as ->.
    f_equal. apply IH. by destruct (find_bit b (bits_of w)).
  - intros [= Ex Ew]. rewrite (proj1 (skip_byte_spec b x Hx) Ex), (proj2 IH); done.
Qed.

Section pos.
Context `{Host}.

Lemma skip_word_spec b w : bytes w -> length w = 8%nat -> native_dec w = skip_word b <-> find_bit b (bits_of w) = None.
Proof.
  intros Hw Hl. rewrite (skip_bytes_spec b w Hw), Hl. split.
  - intros E. rewrite <- (native_enc_dec w Hw), Hl, E. unfold native_enc. by destruct big_endian, b.
  - intros ->. unfold native_dec. by destruct big_endian, b.
Qed.

Context (addr : Z) (m rest : list Z) (Hm : bytes m) (b : bool).
Notation s := (m ++ rest).

(** No bit [b] in the part [a] that has been skipped; after a [break] there is
    one in the next eight bytes. *)
Definition bitpos_inv (st : bitpos_state) : Prop :=
  exists a k stop, m = a ++ k /\ st = (zlen a, zlen k, 8 * zlen a, stop) /\ find_bit b (bits_of a) = None /\
  (stop = true -> find_bit b (bits_of (take 8 k)) <> None).

Definition bitpos_left (st : bitpos_state) : nat := let '(_, count, _, stop) := st in if stop then O else S (Z.to_nat count).

Lemma parts_bytes a k : m = a ++ k -> bytes a /\ bytes k.
Proof. intros E. unfold bytes in *. rewrite E in Hm. by apply Forall_app. Qed.

Lemma bitpos_byte_step st : bitpos_inv st -> (let '(_, count, _, stop) := st in count <> 0 /\ stop = false) ->
  exists st', bitpos_byte s (skip_byte b) st = Some st' /\ bitpos_inv st' /\ (bitpos_left st' < bitpos_left st)%nat.
Proof.
  intros (a & k & stop & Em & -> & Ha & _) [Hk ->]. destruct k as [| x k]; [done |].
  destruct (parts_bytes _ _ Em) as [Ba Bk]. apply Forall_cons in Bk as [Bx Bk].
  cbn [bitpos_byte]. rewrite Em, <- app_assoc. cbn [app]. rewrite rd_app by done. cbn [mbind option_bind].
  eexists; split; [done |]. destruct (Z.eqb_spec x (skip_byte b)) as [Ex | Ex]; cbn [negb].
  - split; [| cbn [bitpos_left]; rewrite zlen_cons; pose proof (zlen_nonneg k); lia].
    exists (a ++ [x]), k, false. split; [by rewrite <- app_assoc |]. split; [tuples; done || zlens |].
    split; [| done]. rewrite bits_of_app, bits_of_cons, find_bit_app, Ha, find_bit_app.
    by rewrite (proj1 (skip_byte_spec b x Bx) Ex).
  - split; [| cbn [bitpos_left]; lia]. exists a, (x :: k), true. split; [done |]. split; [done |]. split; [done |].
    intros _. cbn [take]. rewrite bits_of_cons, find_bit_app. destruct (find_bit b (byte_msb x)) eqn:E; [done |].
    exfalso. apply Ex. by apply skip_byte_spec.
Qed.

Lemma bitpos_word_step st : bitpos_inv st -> (let '(_, count, _, stop) := st in 8 <= count /\ stop = false) ->
  exists st', bitpos_word s (skip_word b) st = Some st' /\ bitpos_inv st' /\ (bitpos_left st' < bitpos_left st)%nat.
Proof.
  intros (a & k & stop & Em & -> & Ha & _) [Hk ->]. destruct (zlen_split_prefix k 8) as (w & k' & -> & Hw); [lia |].
  assert (length w = 8%nat) as Hl by (unfold zlen in Hw; lia).
  destruct (parts_bytes _ _ Em) as [Ba Bk]. apply Forall_app in Bk as [Bw Bk].
  cbn [bitpos_word]. rewrite Em, <- !app_assoc, rdn_app by done. cbn [mbind option_bind].
  eexists; split; [done |]. destruct (Z.eqb_spec (native_dec w) (skip_word b)) as [Ex | Ex]; cbn [negb].
  - split; [| cbn [bitpos_left]; rewrite zlen_app; pose proof (zlen_nonneg k'); lia].
    exists (a ++ w), k', false. split; [by rewrite <- app_assoc |]. rewrite !zlen_app, Hw.
    split; [tuples; done || lia |]. split; [| done].
    rewrite bits_of_app, find_bit_app, Ha. by rewrite (proj1 (skip_word_spec b w Bw Hl) Ex).
  - split; [| cbn [bitpos_left]; lia]. exists a, (w ++ k'), true. split; [done |]. split; [done |]. split; [done |].
    intros _. rewrite take_app_le, take_ge by lia. intros E. apply Ex. by apply skip_word_spec.
Qed.

(** The eight bytes of the last word: what is left, padded with zeros. *)
Definition padded (k : list Z) : list Z := take 8 (k ++ replicate 8 0).

Lemma zlen_padded k : zlen (padded k) = 8.
Proof. unfold padded, zlen. rewrite length_take, length_app, length_replicate. lia. Qed.

Lemma load_word a k : m = a ++ k ->
  exists c' n', for_ 8 0 (load_byte s) (0, zlen a, zlen k) = Some (word_of_bits (bits_of (padded k)), c', n').
Proof.
  intros Em. destruct (parts_bytes _ _ Em) as [_ Bk].
  assert (forall n k a v, m = a ++ k -> (length v + n = 8)%nat -> forall j, exists c' n',
    for_ n j (load_byte s) (word_of_bits (bits_of v), zlen a, zlen k) =
    Some (word_of_bits (bits_of (v ++ take n (k ++ replicate 8 0))), c', n')) as L.
  2: { destruct (L 8%nat k a [] Em eq_refl 0) as (c' & n' & E). by exists c', n'. }
  clear a k Em Bk. induction n as [| n IH]; intros k a v Em Hv j; [rewrite take_0, app_nil_r; by do 2 eexists |].
  cbn [for_ load_byte].
  assert (forall x, byte x -> Z.lor (u64 (Z.shiftl (word_of_bits (bits_of v)) 8)) x = word_of_bits (bits_of (v ++ [x]))) as Ew.
  { intros x Hx. rewrite bits_of_app, word_of_bits_app. change (bits_of [x]) with (byte_msb x ++ []). rewrite app_nil_r.
    rewrite word_of_byte, zlen_byte_msb by done. rewrite Z.shiftl_mul_pow2 by lia.
    pose proof (word_of_bits_bound (bits_of v)) as Hb. rewrite zlen_bits_of in Hb.
    assert (2 ^ (8 * zlen v) <= 2 ^ 56) by (apply Z.pow_le_mono_r; unfold zlen; lia).
    rewrite u64_id by (unfold is_u64; lia). rewrite Z.lor_comm, lor_add_shift by (unfold byte in Hx; lia). lia. }
  destruct (parts_bytes _ _ Em) as [_ Bk]. destruct k as [| x k].
  - rewrite (@zlen_nil Z). cbn [Z.eqb negb mbind option_bind]. rewrite <- (Z.lor_0_r (u64 _)), (Ew 0) by (unfold byte; lia).
    destruct (IH [] a (v ++ [0]) Em ltac:(rewrite length_app; cbn; lia) (j + 1)) as (c' & n' & E).
    rewrite (@zlen_nil Z) in E. rewrite E. exists c', n'. rewrite <- app_assoc. cbn [app replicate take].
    assert (n <= 7)%nat as Hn by lia. do 8 (destruct n as [| n]; [done |]). lia.
  - apply Forall_cons in Bk as [Hx Bk]. rewrite zlen_cons. pose proof (zlen_nonneg k).
    rewrite (proj2 (Z.eqb_neq (1 + zlen k) 0)) by lia. cbn [negb].
    rewrite Em, <- app_assoc. cbn [app]. rewrite rd_app by done. cbn [mbind option_bind]. rewrite Ew by done.
    destruct (IH k (a ++ [x]) (v ++ [x]) ltac:(by rewrite <- app_assoc) ltac:(rewrite length_app; cbn; lia) (j + 1)) as (c' & n' & E).
    rewrite zlen_app, zlen_cons, (@zlen_nil Z), Z.add_0_r in E. rewrite Em, <- app_assoc in E. cbn [app] in E.
    replace (1 + zlen k - 1) with (zlen k) by lia. rewrite E. exists c', n'. by rewrite <- app_assoc.
Qed.
End pos.

Lemma scan_spec (w : list bool) b pos : forall l a fuel, w = a ++ l -> (S (length l) <= fuel)%nat ->
  bitpos_scan fuel (match l with [] => 0 | _ => 2 ^ (zlen l - 1) end) (word_of_bits w) (Z.b2z b) pos = Z.add pos <$> find_bit b l.
Proof.
  intros l. revert pos. induction l as [| x l IH]; intros pos a fuel Ew Hf; (destruct fuel as [| fuel]; [cbn in Hf; lia |]); [done |].
  cbn [bitpos_scan find_bit]. rewrite zlen_cons. pose proof (zlen_nonneg l). replace (1 + zlen l - 1) with (zlen l) by lia.
  rewrite (proj2 (Z.eqb_neq (2 ^ zlen l) 0)) by lia. rewrite Z.land_comm, land_pow2 by lia.
  assert (Z.testbit (word_of_bits w) (zlen l) = x) as Ex.
  { rewrite testbit_word_of_bits by (rewrite Ew, zlen_app, zlen_cons; pose proof (zlen_nonneg a); lia).
    replace (Z.to_nat _) with (length a) by (rewrite Ew, zlen_app, zlen_cons; unfold zlen; lia).
    rewrite Ew, lookup_app_r, Nat.sub_diag by lia. done. }
  rewrite Ex. replace (Z.b2z (negb ((if x then 2 ^ zlen l else 0) =? 0)) =? Z.b2z b) with (Bool.eqb x b).
  2: { destruct x; [rewrite (proj2 (Z.eqb_neq (2 ^ zlen l) 0)) by lia |]; by destruct b. }
  destruct (Bool.eqb x b); [cbn; f_equal; lia |].
  replace (Z.shiftr (2 ^ zlen l) 1) with (match l with [] => 0 | _ => 2 ^ (zlen l - 1) end).
  - rewrite (IH (pos + 1) (a ++ [x])); [| by rewrite <- app_assoc | cbn in Hf; lia].
    destruct (find_bit b l); cbn [fmap option_fmap option_map]; [f_equal; lia | done].
  - rewrite Z.shiftr_div_pow2 by lia. destruct l as [| y l]; [done |]. rewrite zlen_cons. pose proof (zlen_nonneg l).
    rewrite <- (Z.pow_sub_r 2 (1 + zlen l) 1) by lia. done.
Qed.

Section bitpos.
Context `{Host} (addr : Z) (m rest : list Z) (Hm : bytes m) (b : bool).
Local Notation str := (m ++ rest).

(** What both loops leave: [a] has no bit [b], and either less than a word is
    left or its next word has one. *)
Definition last_word (st : bitpos_state) : Prop :=
  bitpos_inv m b st /\ (let '(_, count, _, stop) := st in stop = false -> count < 8).

Lemma bitpos_loops : exists c count pos found stop,
  while_ (S (Z.to_nat (zlen m))) (fun '(c, count, _, found) => negb (Z.land (addr + c) 7 =? 0) && negb (count =? 0) && negb found)
     (bitpos_byte str (skip_byte b)) (0, zlen m, 0, false) = Some (c, count, pos, found) /\
  exists l count' pos', (if (found : bool) then Some (c, count, pos, true)
    else while_ (S (Z.to_nat count)) (fun '(_, count, _, stop) => (8 <=? count) && negb stop) (bitpos_word str (skip_word b)) (c, count, pos, false)) =
    Some (l, count', pos', stop) /\ last_word (l, count', pos', stop).
Proof.
  destruct (while_inv (bitpos_inv m b) bitpos_left
    (fun '(c, count, _, found) => negb (Z.land (addr + c) 7 =? 0) && negb (count =? 0) && negb found) (bitpos_byte str (skip_byte b)))
    with (fuel := S (Z.to_nat (zlen m))) (s := (0, zlen m, 0, false)) as (st & E & Hst & _).
  { intros [[[c count] pos] stop] Hst G. apply bitpos_byte_step; [done | done |].
    apply andb_true_iff in G as [G Gs]. apply andb_true_iff in G as [_ G]. split; [boolp; done || lia | by destruct stop]. }
  { by exists [], m, false. }
  { done. }
  destruct Hst as (a & k & found & Em & -> & Ha & Hf). exists (zlen a), (zlen k), (8 * zlen a), found.
  destruct found.
  - exists true. split; [exact E |]. exists (zlen a), (zlen k), (8 * zlen a). split; [done |].
    split; [by exists a, k, true | done].
  - destruct (while_inv (bitpos_inv m b) bitpos_left (fun '(_, count, _, stop) => (8 <=? count) && negb stop) (bitpos_word str (skip_word b)))
      with (fuel := S (Z.to_nat (zlen k))) (s := (zlen a, zlen k, 8 * zlen a, false)) as (st & E2 & Hst & G2).
    { intros [[[c count] pos] stop] Hst G. apply bitpos_word_step; [done | done |].
      apply andb_true_iff in G as [G Gs]. split; [boolp; done || lia | by destruct stop]. }
    { by exists a, k, false. }
    { done. }
    destruct st as [[[l count'] pos'] stop]. exists stop. split; [exact E |]. exists l, count', pos'. split; [exact E2 |].
    split; [done |]. intros ->. cbn in G2. rewrite andb_true_r in G2. lia.
Qed.

Lemma redisBitpos_spec : redisBitpos addr str (zlen m) (Z.b2z b) =
  Some (match find_bit b (bits_of m) with Some i => i | None => if b then -1 else 8 * zlen m end).
Proof.
  unfold redisBitpos.
  replace (if negb (Z.b2z b =? 0) then 0 else 255) with (skip_byte b) by (by destruct b).
  replace (if negb (Z.b2z b =? 0) then 0 else ULONG_MAX) with (skip_word b) by (by destruct b).
  destruct bitpos_loops as (c & count & pos & found & stop & E1 & l & count' & pos' & E2 & Hl). cbn zeta.
  rewrite E1. cbn [mbind option_bind]. rewrite E2. cbn [mbind option_bind]. clear E1 E2 c count pos found.
  destruct Hl as [(a & k & stop' & Em & [= -> -> -> ->] & Ha & Hs) Hlt].
  destruct (load_word m rest Hm a k Em) as (c' & n' & ->). cbn [mbind option_bind].
  change (u64 (Z.lnot (Z.shiftr ULONG_MAX 1))) with (2 ^ 63).
  pose proof (scan_spec (bits_of (padded k)) b (8 * zlen a) (bits_of (padded k)) [] 65 eq_refl) as Hscan.
  assert (zlen (bits_of (padded k)) = 64) as H64 by (rewrite zlen_bits_of, zlen_padded; done).
  rewrite H64 in Hscan. destruct (bits_of (padded k)) as [| x w] eqn:Ew; [done |]. rewrite <- Ew in *. change (64 - 1) with 63 in Hscan.
  assert (find_bit b (bits_of m) = Z.add (8 * zlen a) <$> find_bit b (bits_of k)) as ->.
  { by rewrite Em, bits_of_app, find_bit_app, Ha, zlen_bits_of. }
  rewrite Hscan by (unfold zlen in H64; lia). clear Hscan x w Ew.
  (* the padding: the next eight bytes, and zeros when there are fewer *)
  assert (bits_of (padded k) = bits_of (take 8 k) ++ bits_of (replicate (8 - length k) 0)) as Ep.
  { unfold padded. rewrite take_app, bits_of_app, take_replicate. do 3 f_equal. lia. }
  assert (forall n, find_bit true (bits_of (replicate n 0)) = None) as Hz.
  { intros n. apply skip_bytes_spec; [by apply Forall_replicate; unfold byte |]. by rewrite length_replicate. }
  assert (forall i, find_bit b (bits_of (take 8 k)) = Some i -> find_bit b (bits_of k) = Some i) as Htake.
  { intros i E. rewrite <- (take_drop 8 k), bits_of_app, find_bit_app. by rewrite E. }
  destruct (find_bit b (bits_of (take 8 k))) as [i |] eqn:Ei.
  - rewrite (Htake i eq_refl), Ep, find_bit_app, Ei. cbn [fmap option_fmap option_map].
    replace ((Z.b2z b =? 1) && (word_of_bits (bits_of (take 8 k) ++ bits_of (replicate (8 - length k) 0)) =? 0)) with false; [done |].
    destruct b; [| done]. cbn [Z.b2z Z.eqb Pos.eqb andb]. symmetry. apply Z.eqb_neq. intros E0.
    apply find_bit_range in Ei as (Hi & Hli & _). rewrite <- Ep in E0.
    pose proof (testbit_word_of_bits (bits_of (padded k)) (63 - i)) as Ht. rewrite E0, H64, Z.bits_0 in Ht.
    assert (i < 64) as Hi64 by (rewrite zlen_bits_of in Hi; unfold zlen in Hi; rewrite length_take in Hi; lia).
    rewrite Ep, lookup_app_l in Ht by (apply lookup_lt_Some in Hli; replace (64 - 1 - (63 - i)) with i by lia; done).
    replace (64 - 1 - (63 - i)) with i in Ht by lia. rewrite Hli in Ht. discriminate Ht. lia.
  - assert (zlen k < 8) as Hk by (destruct stop'; [by specialize (Hs eq_refl) | by apply Hlt]).
    assert (take 8 k = k) as Etk by (apply take_ge; unfold zlen in Hk; lia). rewrite Etk in *. rewrite Ei.
    cbn [fmap option_fmap option_map]. rewrite Ep, find_bit_app, Ei. destruct b; cbn [Z.b2z Z.eqb Pos.eqb andb].
    + replace (word_of_bits _) with 0; [done |]. rewrite <- Ep.
      assert (find_bit true (bits_of (padded k)) = None) as En by (by rewrite Ep, find_bit_app, Ei, Hz).
      rewrite find_bit_None in En. apply Z.bits_inj'. intros i Hi. rewrite Z.bits_0.
      destruct (Z.lt_ge_cases i 64) as [Hi' | Hi'].
      * rewrite testbit_word_of_bits by lia. destruct (bits_of (padded k) !! _) as [y |] eqn:Ey; [| done].
        apply list_elem_of_lookup_2, En in Ey. by subst y.
      * symmetry. apply (testbit_above _ 64); [| lia]. rewrite <- H64. apply word_of_bits_bound.
    + assert (8 - length k = S (7 - length k))%nat as -> by (unfold zlen in Hk; lia). cbn [replicate].
      rewrite bits_of_cons, find_bit_app. cbn. rewrite zlen_bits_of, Em, zlen_app. f_equal. lia.
Qed.
End bitpos.
