(* ===== verification/BitfieldThms.v ===== *)
(** bitops.c: integers of any width at any bit offset, and their overflow. *)
From S2P Require Import Prelude Endian Strnum Bits Bitops.

(** * One bit *)

Lemma bit_split (p : list Z) i : 0 <= i < 8 * zlen p -> exists a v r,
  p = a ++ v :: r /\ zlen a = Z.shiftr i 3 /\ i = 8 * zlen a + Z.land i 7 /\ 0 <= Z.land i 7 < 8.
Proof.
  intros Hi. rewrite Z.shiftr_div_pow2 by lia. change (2 ^ 3) with 8. change 7 with (2 ^ 3 - 1). rewrite land_ones_mod by lia.
  change (2 ^ 3) with 8. pose proof (Z_div_mod_eq_full i 8). pose proof (Z.mod_pos_bound i 8).
  destruct (zlen_split_prefix p (i / 8)) as (a & l & -> & Ha); [dm |].
  destruct l as [| v r]; [rewrite zlen_app, (@zlen_nil Z) in Hi; lia |].
  exists a, v, r. split_and!; done || lia.
Qed.

Lemma bits_of_at a v r k : 0 <= k < 8 ->
  bits_of (a ++ v :: r) !! Z.to_nat (8 * zlen a + k) = Some (Z.testbit v (7 - k)).
Proof.
  intros Hk. rewrite bits_of_app, bits_of_cons. pose proof (zlen_bits_of a) as Ha. unfold zlen in Ha |- *.
  rewrite lookup_app_r by lia. rewrite lookup_app_l by (rewrite length_byte_msb; lia).
  rewrite byte_msb_nbits, nbits_lookup by lia. do 2 f_equal. lia.
Qed.

Lemma get_bit p i : 0 <= i < 8 * zlen p -> exists v b,
  rd p (Z.shiftr i 3) = Some v /\ bits_of p !! Z.to_nat i = Some b /\
  Z.land (Z.shiftr v (7 - Z.land i 7)) 1 = Z.b2z b.
Proof.
  intros Hi. destruct (bit_split p i Hi) as (a & v & r & -> & Ha & Ei & Hk).
  exists v, (Z.testbit v (7 - Z.land i 7)). split; [by apply rd_app |]. split; [rewrite Ei at 1; by apply bits_of_at |].
  change 1 with (2 ^ 1 - 1) at 1. rewrite land_ones_mod by lia. change (2 ^ 1) with 2.
  by rewrite <- Z.bit0_mod, Z.shiftr_spec, Z.add_0_l by lia.
Qed.

(** The byte with its bit [k] from the left changed. *)
Definition set_in (v k : Z) (x : bool) : Z :=
  Z.land (Z.lor (Z.land v (Z.lnot (Z.shiftl 1 (7 - k)))) (Z.shiftl (Z.b2z x) (7 - k))) 0xff.

Definition set_in_check (v : Z) : bool :=
  forallb (fun k => forallb (fun x => bool_decide (byte_msb (set_in v k x) = <[Z.to_nat k := x]> (byte_msb v)) &&
    (0 <=? set_in v k x) && (set_in v k x <? 256)) [true; false]) [0; 1; 2; 3; 4; 5; 6; 7].

Lemma set_in_check_all : forallb set_in_check (seqZ 0 256) = true.
Proof. vm_compute. reflexivity. Qed.

Lemma set_in_spec v k x : byte v -> 0 <= k < 8 ->
  byte_msb (set_in v k x) = <[Z.to_nat k := x]> (byte_msb v) /\ byte (set_in v k x).
Proof.
  intros Hv Hk. pose proof (byte_all _ set_in_check_all v Hv) as E. unfold set_in_check in E.
  rewrite forallb_forall in E. specialize (E k ltac:(cbn [In]; lia)). rewrite forallb_forall in E.
  specialize (E x ltac:(destruct x; cbn [In]; tauto)). rewrite !andb_true_iff, bool_decide_eq_true in E. unfold byte. split; [apply E | lia].
Qed.

Lemma set_bit p i x : 0 <= i < 8 * zlen p -> bytes p -> exists v p',
  rd p (Z.shiftr i 3) = Some v /\ wrn p (Z.shiftr i 3) [set_in v (Z.land i 7) x] = Some p' /\
  bytes p' /\ zlen p' = zlen p /\ bits_of p' = <[Z.to_nat i := x]> (bits_of p).
Proof.
  intros Hi Hp. destruct (bit_split p i Hi) as (a & v & r & -> & Ha & Ei & Hk).
  unfold bytes in Hp. apply Forall_app in Hp as [Hpa Hp]. apply Forall_cons in Hp as [Hv Hr].
  destruct (set_in_spec v (Z.land i 7) x Hv Hk) as [Em Hb].
  exists v, (a ++ set_in v (Z.land i 7) x :: r). split; [by apply rd_app |].
  split; [apply (wrn_app a [v] [_] r); [done | done] |].
  split; [apply Forall_app_2; [done | by apply Forall_cons_2] |]. split; [by rewrite !zlen_app, !zlen_cons |].
  rewrite !bits_of_app, !bits_of_cons, Em. pose proof (zlen_bits_of a) as Hza. unfold zlen in Hza, Ei.
  rewrite insert_app_r_alt by lia. f_equal. rewrite insert_app_l by (rewrite length_byte_msb; lia). f_equal. f_equal. lia.
Qed.

(** * Reading and writing a field *)

Lemma getUnsigned_spec p offset bits : 0 <= offset -> 0 <= bits <= 64 -> offset + bits <= 8 * zlen p -> 8 * zlen p <= ULLONG_MAX ->
  getUnsignedBitfield p offset bits = Some (word_of_bits (take (Z.to_nat bits) (drop (Z.to_nat offset) (bits_of p)))).
Proof.
  intros Ho Hb Hlen Hmax. unfold getUnsignedBitfield, ULLONG_MAX in *.
  destruct (for_inv (fun j (s : Z * Z) => s = (word_of_bits (take (Z.to_nat j) (drop (Z.to_nat offset) (bits_of p))), offset + j))
    (getBitfield_bit p) (Z.to_nat bits) 0 (0, offset)) as (s & E & Hs).
  - by rewrite Z.add_0_r.
  - intros j s Hj ->. cbn [getBitfield_bit]. destruct (get_bit p (offset + j)) as (v & b & -> & Eb & El); [lia |].
    cbn [mbind option_bind]. rewrite El. eexists; split; [done |].
    rewrite (u64_id (offset + j + 1)) by (unfold is_u64; lia). apply (f_equal2 pair); [| lia].
    replace (Z.to_nat (j + 1)) with (S (Z.to_nat j)) by lia.
    assert (drop (Z.to_nat offset) (bits_of p) !! Z.to_nat j = Some b) as Ed by (rewrite lookup_drop, <- Eb; f_equal; lia).
    rewrite (take_S_r _ _ _ Ed), word_of_bits_snoc.
    pose proof (word_of_bits_bound (take (Z.to_nat j) (drop (Z.to_nat offset) (bits_of p)))) as Hw.
    assert (2 ^ zlen (take (Z.to_nat j) (drop (Z.to_nat offset) (bits_of p))) <= 2 ^ 63) as Hpow.
    { apply Z.pow_le_mono_r; [lia |]. unfold zlen. rewrite length_take. lia. }
    rewrite Z.shiftl_mul_pow2, u64_id by (unfold is_u64; lia). rewrite Z.lor_comm, lor_add_shift by (destruct b; cbn; lia). lia.
  - rewrite E. cbn [mbind option_bind]. rewrite Hs. f_equal. do 3 f_equal. lia.
Qed.

(** [l] written over [L] from position [o] on. *)
Definition put (o : nat) (l L : list bool) : list bool := take o L ++ l ++ drop (o + length l) L.

Lemma put_nil o L : put o [] L = L.
Proof. unfold put. change (length []) with 0%nat. by rewrite Nat.add_0_r, app_nil_l, take_drop. Qed.

Lemma length_put o l L : (o + length l <= length L)%nat -> length (put o l L) = length L.
Proof. intros H. unfold put. rewrite !length_app, length_take, length_drop. lia. Qed.

Lemma put_snoc o l x L : (o + length l < length L)%nat -> put o (l ++ [x]) L = <[(o + length l)%nat := x]> (put o l L).
Proof.
  intros H. unfold put. rewrite insert_app_r_alt by (rewrite length_take; lia).
  rewrite length_take, Nat.min_l by lia. replace (o + length l - o)%nat with (length l + 0)%nat by lia.
  rewrite insert_app_r. f_equal. rewrite <- app_assoc. f_equal.
  destruct (lookup_lt_is_Some_2 L (o + length l)) as [y E]; [lia |].
  rewrite (drop_S _ _ _ E). cbn [app insert list_insert]. do 2 f_equal. rewrite length_app. cbn [length]. lia.
Qed.

Lemma setUnsigned_spec p offset bits value : bytes p -> 0 <= offset -> 0 <= bits <= 64 -> offset + bits <= 8 * zlen p -> 8 * zlen p <= ULLONG_MAX ->
  exists p', setUnsignedBitfield p offset bits value = Some p' /\ bytes p' /\ zlen p' = zlen p /\
  bits_of p' = put (Z.to_nat offset) (nbits (Z.to_nat bits) value) (bits_of p).
Proof.
  intros Hp Ho Hb Hlen Hmax. unfold setUnsignedBitfield, ULLONG_MAX in *.
  pose proof (zlen_bits_of p) as Hzp. unfold zlen in Hzp at 1.
  destruct (for_inv (fun j (s : list Z * Z) => snd s = offset + j /\ bytes (fst s) /\ zlen (fst s) = zlen p /\
      bits_of (fst s) = put (Z.to_nat offset) (take (Z.to_nat j) (nbits (Z.to_nat bits) value)) (bits_of p))
    (setBitfield_bit bits value) (Z.to_nat bits) 0 (p, offset)) as ([p' o'] & E & Ho' & Hb' & Hz' & Hbits).
  - cbn [fst snd]. split; [lia |]. split; [done |]. split; [done |]. cbn [Z.to_nat take]. by rewrite put_nil.
  - intros j [q o] Hj. cbn [fst snd]. intros (-> & Hq & Hzq & Hbq).
    assert (negb (Z.land value (Z.shiftl 1 (bits - 1 - j)) =? 0) = Z.testbit value (bits - 1 - j)) as Ebit.
    { rewrite Z.shiftl_1_l, land_pow2 by lia. destruct (Z.testbit value _); [| done]. rewrite (proj2 (Z.eqb_neq _ 0)); [done | lia]. }
    cbn [setBitfield_bit]. rewrite Ebit.
    destruct (set_bit q (offset + j) (Z.testbit value (bits - 1 - j))) as (v & q' & -> & Ew & Hbq' & Hzq' & Eq'); [lia | done |].
    unfold set_in in Ew. cbn [mbind option_bind] in Ew |- *. rewrite Ew. cbn [mbind option_bind]. eexists; split; [done |]. cbn [fst snd].
    split; [rewrite u64_id by (unfold is_u64; lia); lia |]. split; [done |]. split; [lia |].
    rewrite Eq', Hbq. replace (Z.to_nat (j + 1)) with (S (Z.to_nat j)) by lia.
    assert (nbits (Z.to_nat bits) value !! Z.to_nat j = Some (Z.testbit value (bits - 1 - j))) as En.
    { rewrite nbits_lookup by lia. do 2 f_equal. lia. }
    rewrite (take_S_r _ _ _ En), put_snoc; rewrite length_take, length_nbits; [| lia]. f_equal. lia.
  - rewrite E. cbn [mbind option_bind fst snd] in *. exists p'. split; [done |]. split; [done |]. split; [done |].
    rewrite Hbits, take_ge by (rewrite length_nbits; lia). done.
Qed.

(** * Signed fields *)

(** A word of [bits] bits as a two's complement number: the test of its top
    bit. *)
Lemma wraps_cases bits u : 1 <= bits ->
  wraps bits u = if Z.testbit u (bits - 1) then u mod 2 ^ bits - 2 ^ bits else u mod 2 ^ bits.
Proof.
  intros Hb. replace (Z.testbit u (bits - 1)) with (Z.testbit (u mod 2 ^ bits) (bits - 1))
    by (rewrite testbit_mod2 by lia; by rewrite (proj2 (Z.ltb_lt (bits - 1) bits)) by lia).
  rewrite <- wraps_mod by lia. set (v := u mod 2 ^ bits).
  assert (2 ^ bits = 2 * 2 ^ (bits - 1)) as E by (rewrite <- Z.pow_succ_r by lia; f_equal; lia).
  assert (0 <= v < 2 ^ bits) as Hv by (apply Z.mod_pos_bound; lia).
  assert (Z.testbit v (bits - 1) = (2 ^ (bits - 1) <=? v)) as ->.
  { rewrite Z.testbit_eqb by lia. destruct (Z.leb_spec (2 ^ (bits - 1)) v) as [Hle | Hlt].
    - assert (v / 2 ^ (bits - 1) = 1) as -> by (symmetry; apply (Z.div_unique_pos _ _ _ (v - 2 ^ (bits - 1))); lia). done.
    - by rewrite Z.div_small by lia. }
  unfold wraps. rewrite E in Hv |- *. set (P := 2 ^ (bits - 1)) in *. boolp.
  - replace ((v + P) mod (2 * P)) with (v - P); [lia |]. apply (Z.mod_unique_pos _ _ 1); lia.
  - rewrite Z.mod_small; lia.
Qed.

(** The mask of the bits above [bits]. *)
Lemma high_mask bits : 0 <= bits <= 64 -> u64 (Z.shiftl ULLONG_MAX bits) = (2 ^ (64 - bits) - 1) * 2 ^ bits.
Proof.
  intros Hb. unfold ULLONG_MAX. rewrite Z.shiftl_mul_pow2, u64_pow by lia.
  assert (2 ^ 64 = 2 ^ (64 - bits) * 2 ^ bits) as E by (rewrite <- Z.pow_add_r by lia; f_equal; lia).
  symmetry. apply (Z.mod_unique_pos _ _ (2 ^ bits - 1)).
  - rewrite E. assert (1 <= 2 ^ (64 - bits)) by lia. assert (1 <= 2 ^ bits) by lia. nia.
  - change 18446744073709551615 with (2 ^ 64 - 1). rewrite E. nia.
Qed.

Lemma lor_high_mask c bits : 0 <= c < 2 ^ 64 -> 0 <= bits <= 64 ->
  Z.lor c (u64 (Z.shiftl ULLONG_MAX bits)) = c mod 2 ^ bits + (2 ^ 64 - 2 ^ bits).
Proof.
  intros Hc Hb. rewrite high_mask by done.
  replace (c mod 2 ^ bits + (2 ^ 64 - 2 ^ bits)) with (c mod 2 ^ bits + (2 ^ (64 - bits) - 1) * 2 ^ bits).
  2: { rewrite Z.mul_sub_distr_r, <- Z.pow_add_r by lia. replace (64 - bits + bits) with 64 by lia. lia. }
  rewrite <- lor_add_shift by (lia || (apply Z.mod_pos_bound; lia)).
  replace ((2 ^ (64 - bits) - 1) * 2 ^ bits) with (Z.shiftl (Z.ones (64 - bits)) bits).
  2: { rewrite Z.shiftl_mul_pow2, Z.ones_equiv by lia. f_equal. }
  bits i; try done.
  destruct (Z.lt_ge_cases i 64).
  - rewrite testbit_ones, (proj2 (Z.ltb_lt (i - bits) (64 - bits))) by lia. by destruct (Z.testbit c i).
  - by rewrite (testbit_above c 64) by lia.
Qed.

Lemma land_low_mask c bits : 0 <= bits <= 64 -> 0 <= c -> Z.land c (u64 (Z.lnot (u64 (Z.shiftl ULLONG_MAX bits)))) = c mod 2 ^ bits.
Proof.
  intros Hb Hc. rewrite <- land_ones_mod by lia. f_equal. rewrite high_mask by done. unfold Z.lnot.
  assert (2 ^ (64 - bits) * 2 ^ bits = 2 ^ 64) as E by (rewrite <- Z.pow_add_r by lia; f_equal; lia).
  assert (2 ^ bits <= 2 ^ 64) by (apply Z.pow_le_mono_r; lia).
  rewrite u64_pow. symmetry. apply (Z.mod_unique_pos _ _ (-1)); lia.
Qed.

Lemma i64_shift_down u bits : 0 <= bits <= 64 -> 0 <= u < 2 ^ bits -> 2 ^ bits <= 2 * u -> i64 (u + (2 ^ 64 - 2 ^ bits)) = u - 2 ^ bits.
Proof.
  intros Hb Hu Hh. assert (2 ^ bits <= 2 ^ 64) by (apply Z.pow_le_mono_r; lia). unfold i64.
  replace (u + (2 ^ 64 - 2 ^ bits) + 9223372036854775808) with (u - 2 ^ bits + 9223372036854775808 + 1 * 18446744073709551616) by lia.
  rewrite Z_mod_plus_full, Z.mod_small by lia. lia.
Qed.

(** The value of a field of [bits] bits. *)
Definition field (sgn : bool) (l : list bool) : Z :=
  if sgn then wraps (zlen l) (word_of_bits l) else word_of_bits l.

Lemma testbit_top u bits : 1 <= bits -> 0 <= u < 2 ^ bits -> Z.testbit u (bits - 1) = true <-> 2 ^ bits <= 2 * u.
Proof.
  intros Hb Hu. pose proof (wraps_cases bits u Hb) as E. unfold wraps in E.
  rewrite (Z.mod_small u) in E by lia.
  assert (2 ^ bits = 2 * 2 ^ (bits - 1)) as E2 by (rewrite <- Z.pow_succ_r by lia; f_equal; lia).
  pose proof (Z.mod_pos_bound (u + 2 ^ (bits - 1)) (2 ^ bits) ltac:(lia)).
  destruct (Z.testbit u (bits - 1)); split; intros; try done; lia.
Qed.

Lemma getSigned_spec p offset bits : 0 <= offset -> 1 <= bits <= 64 -> offset + bits <= 8 * zlen p -> 8 * zlen p <= ULLONG_MAX ->
  getSignedBitfield p offset bits = Some (field true (take (Z.to_nat bits) (drop (Z.to_nat offset) (bits_of p)))).
Proof.
  intros Ho Hb Hlen Hmax. unfold getSignedBitfield. rewrite getUnsigned_spec by lia. cbn [mbind option_bind]. f_equal.
  set (l := take _ _). assert (zlen l = bits) as Hl.
  { unfold l, zlen. rewrite length_take, length_drop. pose proof (zlen_bits_of p) as Hz. unfold zlen in Hz at 1. lia. }
  pose proof (word_of_bits_bound l) as Hu. unfold field. rewrite Hl in *. revert Hu. generalize (word_of_bits l). intros u Hu.
  assert (2 ^ bits <= 2 ^ 64) by (apply Z.pow_le_mono_r; lia). change (2 ^ 64) with 18446744073709551616 in *.
  rewrite wraps_cases, (Z.mod_small u) by lia.
  destruct (Z.ltb_spec bits 64); cbn [andb].
  - assert (2 ^ bits <= 2 ^ 63) by (apply Z.pow_le_mono_r; lia). rewrite (i64_id u) by (unfold is_i64; lia).
    assert (2 ^ (bits - 1) < 2 ^ 64) by (apply Z.pow_lt_mono_r; lia).
    rewrite (u64_id u), (u64_id (Z.shiftl _ _)) by (rewrite ?Z.shiftl_1_l; unfold is_u64; lia).
    rewrite Z.shiftl_1_l, land_pow2 by lia.
    destruct (Z.testbit u (bits - 1)) eqn:Et; [| done]. rewrite (proj2 (Z.eqb_neq (2 ^ (bits - 1)) 0)) by lia. cbn [negb].
    rewrite lor_high_mask, (Z.mod_small u) by lia. apply i64_shift_down; [lia | lia |]. apply (testbit_top u bits); [lia | lia | done].
  - assert (bits = 64) as -> by lia. destruct (Z.testbit u (64 - 1)) eqn:Et.
    + apply testbit_top in Et; [| lia | lia]. rewrite <- (i64_shift_down u 64) by lia. f_equal. lia.
    + apply not_true_iff_false in Et. rewrite testbit_top in Et by lia. apply i64_id. unfold is_i64. lia.
Qed.

(** * Overflow *)

(** The range of the integers of a field, and their arithmetic modulo
    [2^bits]. *)
Definition lowest (sgn : bool) (bits : Z) : Z := if sgn then - 2 ^ (bits - 1) else 0.
Definition highest (sgn : bool) (bits : Z) : Z := if sgn then 2 ^ (bits - 1) - 1 else 2 ^ bits - 1.
Definition wrapped (sgn : bool) (bits t : Z) : Z := if sgn then wraps bits t else t mod 2 ^ bits.

(** What storing [t] should report, and the value [*limit] should get. *)
Definition above (sgn : bool) (bits : Z) (ow : owtype) (limit t : Z) : Z * Z :=
  (1, match ow with BFOVERFLOW_WRAP => wrapped sgn bits t | BFOVERFLOW_SAT => highest sgn bits | BFOVERFLOW_FAIL => limit end).
Definition below (sgn : bool) (bits : Z) (ow : owtype) (limit t : Z) : Z * Z :=
  match ow with
  | BFOVERFLOW_WRAP => (1, wrapped sgn bits t)
  | BFOVERFLOW_SAT => (-1, lowest sgn bits)
  | BFOVERFLOW_FAIL => (-1, limit)
  end.
Definition overflow_spec (sgn : bool) (bits : Z) (ow : owtype) (limit t : Z) : Z * Z :=
  if highest sgn bits <? t then above sgn bits ow limit t
  else if t <? lowest sgn bits then below sgn bits ow limit t
  else (0, limit).

(** The values that fit: the fields of the given width have them. *)
Definition fits_field (sgn : bool) (bits v : Z) : Prop := lowest sgn bits <= v <= highest sgn bits.

Lemma wrap_unsigned value incr bits : 1 <= bits <= 63 ->
  Z.land (u64 (value + incr)) (u64 (Z.lnot (u64 (Z.shiftl ULLONG_MAX bits)))) = (value + incr) mod 2 ^ bits.
Proof.
  intros Hb. rewrite u64_pow. rewrite land_low_mask by (lia || (apply Z.mod_pos_bound; lia)).
  apply Z.mod_mod_divide. exists (2 ^ (64 - bits)). rewrite <- Z.pow_add_r by lia. f_equal. lia.
Qed.

Lemma checkUnsigned_spec value incr bits ow limit :
  1 <= bits <= 63 -> is_u64 value -> is_i64 incr -> value < 2 ^ bits \/ incr = 0 ->
  checkUnsignedBitfieldOverflow value incr bits ow limit = overflow_spec false bits ow limit (value + incr).
Proof.
  intros Hb Hv Hi Hd. unfold checkUnsignedBitfieldOverflow, overflow_spec, above, below, highest, lowest, wrapped.
  rewrite wrap_unsigned by done. rewrite (proj2 (Z.eqb_neq bits 64)), Z.shiftl_1_l by lia.
  assert (2 <= 2 ^ bits <= 2 ^ 63) as Hp by (split; [change 2 with (2 ^ 1) at 1 |]; apply Z.pow_le_mono_r; lia).
  change (2 ^ 63) with 9223372036854775808 in Hp. revert Hp Hd. generalize ((value + incr) mod 2 ^ bits). generalize (2 ^ bits). intros P W HP Hd.
  unfold is_u64, is_i64 in *. rewrite (u64_id (P - 1)) by (unfold is_u64; lia).
  destruct (Z.ltb_spec (P - 1) value) as [Hbig | Hsmall]; cbn [orb].
  { assert (incr = 0) as -> by lia. rewrite Z.add_0_r. rewrite (proj2 (Z.ltb_lt (P - 1) value)) by lia. by destruct ow. }
  rewrite (u64_id (P - 1 - value)), (i64_id (P - 1 - value)) by (unfold is_u64, is_i64; lia).
  assert (i64 (u64 (- value)) = - value) as -> by (rewrite i64_u64; apply i64_id; unfold is_i64; lia).
  destruct (Z.ltb_spec 0 incr), (Z.ltb_spec (P - 1 - value) incr), (Z.ltb_spec incr 0), (Z.ltb_spec incr (- value)),
    (Z.ltb_spec (P - 1) (value + incr)), (Z.ltb_spec (value + incr) 0); cbn [andb]; try lia; by destruct ow.
Qed.

Lemma wrap_signed value incr bits : 1 <= bits <= 64 -> is_i64 value -> is_i64 incr ->
  i64 (let c := u64 (u64 value + u64 incr) in
    if bits <? 64 then
      let mask := u64 (Z.shiftl ULLONG_MAX bits) in
      if negb (Z.land c (u64 (Z.shiftl 1 (bits - 1))) =? 0) then Z.lor c mask else Z.land c (u64 (Z.lnot mask))
    else c) = wraps bits (value + incr).
Proof.
  intros Hb Hv Hi.
  assert (u64 (u64 value + u64 incr) = (value + incr) mod 2 ^ 64) as -> by (unfold u64; by rewrite <- Z.add_mod by lia).
  cbn zeta. set (c := (value + incr) mod 2 ^ 64). assert (0 <= c < 2 ^ 64) as Hc by (apply Z.mod_pos_bound; lia).
  assert (wraps bits (value + incr) = wraps bits c) as ->.
  { rewrite <- (wraps_mod bits c), <- (wraps_mod bits (value + incr)) by lia. f_equal. unfold c.
    symmetry. apply Z.mod_mod_divide. exists (2 ^ (64 - bits)). rewrite <- Z.pow_add_r by lia. f_equal. lia. }
  destruct (Z.ltb_spec bits 64).
  - assert (2 ^ (bits - 1) < 2 ^ 64) by (apply Z.pow_lt_mono_r; lia).
    rewrite (u64_id (Z.shiftl 1 _)) by (rewrite Z.shiftl_1_l; unfold is_u64; lia). rewrite Z.shiftl_1_l, land_pow2 by lia.
    rewrite wraps_cases by lia. pose proof (Z.mod_pos_bound c (2 ^ bits) ltac:(lia)) as Hm.
    assert (Z.testbit c (bits - 1) = Z.testbit (c mod 2 ^ bits) (bits - 1)) as Et
      by (rewrite testbit_mod2 by lia; by rewrite (proj2 (Z.ltb_lt (bits - 1) bits)) by lia).
    destruct (Z.testbit c (bits - 1)).
    + rewrite (proj2 (Z.eqb_neq (2 ^ (bits - 1)) 0)) by lia. cbn [negb]. rewrite lor_high_mask by lia.
      apply i64_shift_down; [lia | lia |]. apply (testbit_top _ bits); [lia | lia | done].
    + cbn [Z.eqb negb]. rewrite land_low_mask by lia. apply i64_id.
      assert (2 ^ bits <= 2 ^ 63) by (apply Z.pow_le_mono_r; lia). unfold is_i64. lia.
  - assert (bits = 64) as -> by lia. unfold wraps, i64. done.
Qed.

Lemma checkSigned_cases value incr bits ow limit :
  1 <= bits <= 64 -> is_i64 value -> is_i64 incr ->
  (fits_field true bits value -> checkSignedBitfieldOverflow value incr bits ow limit = overflow_spec true bits ow limit (value + incr)) /\
  (incr = 0 -> 2 ^ (bits - 1) - 2 ^ 63 <= value -> checkSignedBitfieldOverflow value incr bits ow limit = overflow_spec true bits ow limit value) /\
  (incr = 0 -> bits < 64 -> value < 2 ^ (bits - 1) - 2 ^ 63 -> checkSignedBitfieldOverflow value incr bits ow limit = above true bits ow limit value).
Proof.
  intros Hb Hv Hi. unfold checkSignedBitfieldOverflow. cbn zeta.
  pose proof (wrap_signed value incr bits Hb Hv Hi) as W. cbn zeta in W. rewrite W. clear W.
  assert ((if bits =? 64 then LLONG_MAX else Z.shiftl 1 (bits - 1) - 1) = 2 ^ (bits - 1) - 1) as ->.
  { destruct (Z.eqb_spec bits 64) as [-> |]; [done |]. by rewrite Z.shiftl_1_l. }
  unfold fits_field, overflow_spec, above, below, highest, lowest, wrapped.
  assert (1 <= 2 ^ (bits - 1) <= 2 ^ 63) as HP by (split; [lia | apply Z.pow_le_mono_r; lia]).
  assert (bits = 64 -> 2 ^ (bits - 1) = 2 ^ 63) as H64 by (by intros ->).
  assert (bits <> 64 -> 2 ^ (bits - 1) <= 2 ^ 62) as H63 by (intros; apply Z.pow_le_mono_r; lia).
  change (2 ^ 63) with 9223372036854775808 in *. change (2 ^ 62) with 4611686018427387904 in H63.
  set (P := 2 ^ (bits - 1)) in *. clearbody P. unfold is_i64 in *.
  rewrite (u64_id (P - 1)) by (unfold is_u64; lia). rewrite i64_u64. replace (- (P - 1) - 1) with (- P) by lia.
  split_and!.
  - intros Hf. set (w := wraps bits (value + incr)). clearbody w.
    assert (bits <> 64 \/ 0 <= value -> i64 (P - 1 - value) = P - 1 - value) as E1.
    { intros H. apply i64_id. unfold is_i64. destruct (Z.eq_dec bits 64); lia. }
    assert (bits <> 64 \/ value < 0 -> i64 (- P - value) = - P - value) as E2.
    { intros H. apply i64_id. unfold is_i64. destruct (Z.eq_dec bits 64); lia. }
    set (mx := i64 (P - 1 - value)) in *. set (mn := i64 (- P - value)) in *. clearbody mx mn.
    destruct (Z.eqb_spec bits 64), (Z.ltb_spec (P - 1) value), (Z.ltb_spec mx incr), (Z.leb_spec 0 value), (Z.ltb_spec 0 incr),
      (Z.ltb_spec value (- P)), (Z.ltb_spec incr mn), (Z.ltb_spec value 0), (Z.ltb_spec incr 0),
      (Z.ltb_spec (P - 1) (value + incr)), (Z.ltb_spec (value + incr) (- P)); cbn [andb orb negb]; try lia; by destruct ow.
  - intros -> Hlow. rewrite Z.add_0_r. set (w := wraps bits value). clearbody w.
    assert (bits <> 64 -> i64 (P - 1 - value) = P - 1 - value \/ value > P - 1) as E1.
    { intros H. destruct (Z.le_gt_cases value (P - 1)); [left; apply i64_id; unfold is_i64; lia | right; lia]. }
    assert (bits <> 64 -> value <= P - 1 -> i64 (- P - value) = - P - value) as E2.
    { intros H H'. apply i64_id. unfold is_i64. lia. }
    set (mx := i64 (P - 1 - value)) in *. set (mn := i64 (- P - value)) in *. clearbody mx mn.
    destruct (Z.eqb_spec bits 64), (Z.ltb_spec (P - 1) value), (Z.ltb_spec mx 0), (Z.leb_spec 0 value), (Z.ltb_spec 0 0),
      (Z.ltb_spec value (- P)), (Z.ltb_spec 0 mn), (Z.ltb_spec value 0); cbn [andb orb negb]; try lia; by destruct ow.
  - intros -> Hn' Hlow. rewrite Z.add_0_r. assert (bits <> 64) as Hn by lia. specialize (H63 Hn).
    rewrite (proj2 (Z.eqb_neq bits 64) Hn). cbn [negb andb].
    assert (i64 (P - 1 - value) < 0) as E1.
    { unfold i64. replace (P - 1 - value + 9223372036854775808) with (P - 1 - value - 9223372036854775808 + 1 * 18446744073709551616) by lia.
      rewrite Z_mod_plus_full, Z.mod_small by lia. lia. }
    rewrite (proj2 (Z.ltb_lt _ 0) E1), orb_true_r. cbn [orb]. by destruct ow.
Qed.

Lemma wrapped_fits sgn bits t : 1 <= bits -> fits_field sgn bits (wrapped sgn bits t).
Proof.
  intros Hb. unfold fits_field, lowest, highest, wrapped, wraps.
  assert (2 ^ bits = 2 * 2 ^ (bits - 1)) as E by (rewrite <- Z.pow_succ_r by lia; f_equal; lia).
  destruct sgn.
  - pose proof (Z.mod_pos_bound (t + 2 ^ (bits - 1)) (2 ^ bits) ltac:(lia)). lia.
  - pose proof (Z.mod_pos_bound t (2 ^ bits) ltac:(lia)). lia.
Qed.

Lemma overflow_fits sgn bits ow limit t : 1 <= bits -> ow <> BFOVERFLOW_FAIL -> fst (overflow_spec sgn bits ow limit t) <> 0 ->
  fits_field sgn bits (snd (overflow_spec sgn bits ow limit t)).
Proof.
  intros Hb Hw. pose proof (wrapped_fits sgn bits t Hb) as Hf. unfold overflow_spec, above, below.
  assert (lowest sgn bits <= highest sgn bits) by (unfold fits_field in Hf; lia).
  destruct (highest sgn bits <? t), (t <? lowest sgn bits), ow; cbn [fst snd]; try done; intros _; unfold fits_field in *; lia.
Qed.

(** C27: overflow detection of BITFIELD.  For an increment of a value that fits
    the field, and for storing a value (increment 0), the functions report 0
    exactly when the sum fits the [bits] bits of the field; otherwise 1 above
    the range and -1 below it (1 in the wrap mode), and [*limit] gets the sum
    modulo 2^bits, the end of the range that was passed, or is left alone,
    according to the mode; what it gets fits the field.  The exception the
    code has: a value to store that lies below [2^(bits-1) - 2^63] is reported,
    and saturated, as if it were above the range of the signed field. *)
Theorem bitfield_overflow_correct (value incr bits : Z) (ow : owtype) (limit : Z) :
  is_i64 incr ->
  (1 <= bits <= 63 -> is_u64 value -> value < 2 ^ bits \/ incr = 0 ->
     checkUnsignedBitfieldOverflow value incr bits ow limit = overflow_spec false bits ow limit (value + incr)) /\
  (1 <= bits <= 64 -> is_i64 value ->
     fits_field true bits value \/ (incr = 0 /\ 2 ^ (bits - 1) - 2 ^ 63 <= value) ->
     checkSignedBitfieldOverflow value incr bits ow limit = overflow_spec true bits ow limit (value + incr)) /\
  (1 <= bits < 64 -> is_i64 value -> incr = 0 -> value < 2 ^ (bits - 1) - 2 ^ 63 ->
     value < lowest true bits /\ checkSignedBitfieldOverflow value incr bits ow limit = above true bits ow limit value) /\
  (forall sgn t, 1 <= bits ->
     (fst (overflow_spec sgn bits ow limit t) = 0 <-> fits_field sgn bits t) /\
     (ow <> BFOVERFLOW_FAIL -> ~ fits_field sgn bits t -> fits_field sgn bits (snd (overflow_spec sgn bits ow limit t)))).
Proof.
  intros Hi. split; [intros; by apply checkUnsigned_spec |]. split; [| split].
  - intros Hb Hv [Hf | [-> Hlow]]; [by apply (checkSigned_cases value incr bits ow limit Hb Hv Hi) |].
    rewrite Z.add_0_r. by apply (checkSigned_cases value 0 bits ow limit Hb Hv Hi).
  - intros Hb Hv -> Hlow. split; [| apply (checkSigned_cases value 0 bits ow limit ltac:(lia) Hv Hi); done || lia].
    unfold lowest. assert (2 ^ (bits - 1) <= 2 ^ 62) by (apply Z.pow_le_mono_r; lia). lia.
  - intros sgn t Hb. assert (fst (overflow_spec sgn bits ow limit t) = 0 <-> fits_field sgn bits t) as Hz.
    { unfold overflow_spec, above, below, fits_field. destruct (Z.ltb_spec (highest sgn bits) t), (Z.ltb_spec t (lowest sgn bits)), ow; cbn; lia. }
    split; [done |]. intros Hw Hn. apply overflow_fits; [done | done |]. by rewrite Hz.
Qed.

Lemma bitfield_overflow_correct_witness :
  checkSignedBitfieldOverflow 100 100 8 BFOVERFLOW_SAT 0 = (1, 127) /\
  checkUnsignedBitfieldOverflow 250 10 8 BFOVERFLOW_WRAP 0 = (1, 4) /\
  checkSignedBitfieldOverflow LLONG_MIN 0 8 BFOVERFLOW_SAT 0 = (1, 127).
Proof.
  assert (is_i64 100 /\ is_i64 10 /\ is_i64 0 /\ is_u64 250 /\ is_i64 LLONG_MIN) as (H100 & H10 & H0 & H250 & Hmin)
    by (unfold is_i64, is_u64, LLONG_MIN; lia).
  split; [| split].
  - destruct (bitfield_overflow_correct 100 100 8 BFOVERFLOW_SAT 0 H100) as (_ & H & _).
    rewrite H; [vm_compute; reflexivity | lia | exact H100 | left; vm_compute; split; discriminate].
  - destruct (bitfield_overflow_correct 250 10 8 BFOVERFLOW_WRAP 0 H10) as (H & _).
    rewrite H; [vm_compute; reflexivity | lia | exact H250 | left; vm_compute; reflexivity].
  - destruct (bitfield_overflow_correct LLONG_MIN 0 8 BFOVERFLOW_SAT 0 H0) as (_ & _ & H & _).
    destruct H as [_ ->]; [lia | exact Hmin | reflexivity | vm_compute; reflexivity | vm_compute; reflexivity].
Defined.
