(* ===== verification/BitCmds.v ===== *)
(** bitops.c, the commands: SETBIT, GETBIT, BITOP, BITCOUNT and BITPOS, on the
    state of Server.v. *)
From stdpp Require Import strings gmap.
From S2P Require Import Prelude Endian Strnum Server Bits Bitops.

Definition offseterr : string := "bit offset is not an integer or out of range".
Definition typeerr : string := "Invalid bitfield type. Use something like i16 u8. Note that u64 is not supported but i64 is.".

Section commands.
Context `{Host}.
(** [server.proto_max_bulk_len], [mustObeyClient(c)], the address of the string
    that is scanned and of local byte variables, and what the stack holds where
    the buffers of [LONG_STR_SIZE] and of 32 bytes and the variable [wrapped]
    are. *)
Context (proto_max_bulk_len : Z) (mustObeyClient : bool) (addr stack : Z) (llbuf buf32 : list Z) (stack_wrapped : Z).

(** * Arguments *)

Definition getBitOffsetFromArgument (p : list Z) (hash : bool) (bits : Z) (s : srv) : srv * option Z :=
  let usehash := (first_char p =? 35) && hash && (0 <? bits) in
  match string2ll (if usehash then drop 1 p else p) with
  | None => (addReplyError offseterr s, None)
  | Some loffset =>
      let loffset := if usehash then i64 (loffset * bits) else loffset in
      if (loffset <? 0) || negb mustObeyClient && (proto_max_bulk_len <=? Z.shiftr loffset 3)
      then (addReplyError offseterr s, None)
      else (s, Some loffset)
  end.

Definition getBitfieldTypeFromArgument (p : list Z) (s : srv) : srv * option (bool * Z) :=
  let error := (addReplyError typeerr s, None) in
  if negb ((first_char p =? 105) || (first_char p =? 117)) then error
  else
    let sign := first_char p =? 105 in
    match string2ll (cstr (drop 1 p)) with
    | None => error
    | Some llbits =>
        if (llbits <? 1) || sign && (64 <? llbits) || negb sign && (63 <? llbits) then error
        else (s, Some (sign, llbits))
    end.

(** The string, and whether it was created or changed its length. *)
Definition lookupStringForBitCommand (key : list Z) (maxbit : Z) (s : srv) : option (srv * option (list Z * bool)) :=
  let byte := Z.shiftr maxbit 3 in
  let o := db s !! key in
  let '(s, wrong) := checkType o s in
  if (wrong : bool) then Some (s, None)
  else
    match o with
    | None =>
        let p := replicate (Z.to_nat (byte + 1)) 0 in
        Some (set_value key (VRaw p) s, Some (p, true))
    | Some _ =>
        p ← decoded buf32 o;
        let oldlen := zlen p in
        let p := p ++ replicate (Z.to_nat (byte + 1 - oldlen)) 0 in
        Some (set_value key (VRaw p) s, Some (p, negb (oldlen =? zlen p)))
    end.

(** * SETBIT and GETBIT *)

Definition setbitCommand (argv : list (list Z)) (s : srv) : option srv :=
  let err := "bit is not an integer or out of range"%string in
  key ← argv !! 1%nat; a2 ← argv !! 2%nat; a3 ← argv !! 3%nat;
  let '(s, bitoffset) := getBitOffsetFromArgument a2 false 0 s in
  match bitoffset with
  | None => Some s
  | Some bitoffset =>
      let '(s, on) := getLongFromObjectOrReply a3 (Some err) s in
      match on with
      | None => Some s
      | Some on =>
          if negb (Z.land on (Z.lnot 1) =? 0) then Some (addReplyError err s)
          else
            '(s, o) ← lookupStringForBitCommand key bitoffset s;
            match o with
            | None => Some s
            | Some (p, dirty) =>
                let byte := Z.shiftr bitoffset 3 in
                byteval ← rd p byte;
                let bit := 7 - Z.land bitoffset 0x7 in
                let bitval := Z.land byteval (Z.shiftl 1 bit) in
                s ← (if dirty || negb (Z.b2z (negb (bitval =? 0)) =? on) then
                       let byteval := Z.land byteval (Z.lnot (Z.shiftl 1 bit)) in
                       let byteval := Z.lor byteval (Z.shiftl (Z.land on 0x1) bit) in
                       p ← wrn p byte [u8 byteval];
                       Some (add_dirty 1 (signalModifiedKey key (set_value key (VRaw p) s)))
                     else Some s);
                Some (addReply (if negb (bitval =? 0) then RInt 1 else RInt 0) s)
            end
      end
  end.

Definition getbitCommand (argv : list (list Z)) (s : srv) : option srv :=
  key ← argv !! 1%nat; a2 ← argv !! 2%nat;
  let '(s, bitoffset) := getBitOffsetFromArgument a2 false 0 s in
  match bitoffset with
  | None => Some s
  | Some bitoffset =>
      let o := db s !! key in
      match o with
      | None => Some (addReply (RInt 0) s)
      | Some _ =>
          let '(s, wrong) := checkType o s in
          if (wrong : bool) then Some s
          else
            let byte := Z.shiftr bitoffset 3 in
            let bit := 7 - Z.land bitoffset 0x7 in
            p ← decoded buf32 o;
            bitval ← (if byte <? zlen p then b ← rd p byte; Some (Z.land b (Z.shiftl 1 bit)) else Some 0);
            Some (addReply (if negb (bitval =? 0) then RInt 1 else RInt 0) s)
      end
  end.

(** * BITOP *)

Inductive bitop := BITOP_AND | BITOP_OR | BITOP_XOR | BITOP_NOT.

(** The loop that looks up the source keys: the strings, the length of the
    longest and [minlen]; no result when a key has another type. *)
Fixpoint bitop_sources (keys : list (list Z)) (j : Z) (src : list (list Z)) (maxlen minlen : Z) (s : srv) :
    option (srv * option (list (list Z) * Z * Z)) :=
  match keys with
  | [] => Some (s, Some (src, maxlen, minlen))
  | key :: keys =>
      let o := db s !! key in
      match o with
      | None => bitop_sources keys (j + 1) (src ++ [[]]) maxlen 0 s
      | Some _ =>
          let '(s, wrong) := checkType o s in
          if (wrong : bool) then Some (s, None)
          else
            p ← decoded buf32 o;
            let len := zlen p in
            let maxlen := if maxlen <? len then len else maxlen in
            let minlen := if (j =? 0) || (len <? minlen) then len else minlen in
            bitop_sources keys (j + 1) (src ++ [p]) maxlen minlen s
      end
  end.

Definition bitop_fun (op : bitop) : Z -> Z -> Z :=
  match op with BITOP_AND => Z.land | BITOP_OR => Z.lor | BITOP_XOR => Z.lxor | BITOP_NOT => fun a _ => a end.

(** [lres[w] op= lp[i][w]] at the byte offset [p], and [lres[w] = ~lres[w]]. *)
Definition op_long (op : bitop) (lp : list Z) (p : Z) (res : list Z) : option (list Z) :=
  a ← rdn res p 8; b ← rdn lp p 8;
  wrn res p (native_enc 8 (bitop_fun op (native_dec a) (native_dec b))).
Definition not_long (p : Z) (res : list Z) : option (list Z) :=
  a ← rdn res p 8; wrn res p (native_enc 8 (u64 (Z.lnot (native_dec a)))).

(** The four words at offset [j]. *)
Definition four_longs (f : Z -> list Z -> option (list Z)) (j : Z) (res : list Z) : option (list Z) :=
  res ← f j res; res ← f (j + 8) res; res ← f (j + 16) res; f (j + 24) res.

(** One turn of the fast path: [lres], [j] and [minlen]. *)
Definition bitop_block (op : bitop) (src : list (list Z)) '((res, j, minlen) : list Z * Z * Z) : option (list Z * Z * Z) :=
  res ← (match op with
         | BITOP_NOT => four_longs not_long j res
         | _ => fold_left (fun res lp => res ← res; four_longs (op_long op lp) j res) (tail src) (Some res)
         end);
  Some (res, j + 32, minlen - 32).

(** The byte [j] of a source, zero after its end. *)
Definition src_byte (p : list Z) (j : Z) : option Z := if zlen p <=? j then Some 0 else rd p j.

Fixpoint bitop_byte (op : bitop) (srcs : list (list Z)) (j output : Z) : option Z :=
  match srcs with
  | [] => Some output
  | p :: srcs =>
      byte ← src_byte p j;
      let output := bitop_fun op output byte in
      let skip := match op with BITOP_AND => output =? 0 | BITOP_OR => output =? 0xff | _ => false end in
      if skip then Some output else bitop_byte op srcs j output
  end.

(** The resulting string. *)
Definition bitop_result (op : bitop) (src : list (list Z)) (maxlen minlen : Z) : option (list Z) :=
  let res := replicate (Z.to_nat maxlen) 0 in
  src0 ← src !! 0%nat;
  '(res, j, _) ← (if (8 * 4 <=? minlen) && (zlen src <=? 16) then
      c ← rdn src0 0 minlen;
      res ← wrn res 0 c;
      while_ (Z.to_nat minlen) (fun '(_, _, minlen) => 8 * 4 <=? minlen) (bitop_block op src) (res, 0, minlen)
    else Some (res, 0, minlen));
  for_ (Z.to_nat (maxlen - j)) j (fun j res =>
    output ← src_byte src0 j;
    let output := match op with BITOP_NOT => u8 (Z.lnot output) | _ => output end in
    output ← bitop_byte op (tail src) j output;
    wrn res j [output]) res.

Definition bitop_of (opname : list Z) : option bitop :=
  if strcasecmp_eq opname "and" then Some BITOP_AND
  else if strcasecmp_eq opname "or" then Some BITOP_OR
  else if strcasecmp_eq opname "xor" then Some BITOP_XOR
  else if strcasecmp_eq opname "not" then Some BITOP_NOT else None.

Definition bitopCommand (argv : list (list Z)) (s : srv) : option srv :=
  opname ← argv !! 1%nat; targetkey ← argv !! 2%nat;
  match bitop_of opname with
  | None => Some (addReplyError syntaxerr s)
  | Some op =>
      if match op with BITOP_NOT => negb (zlen argv =? 4) | _ => false end
      then Some (addReplyError "BITOP NOT must be called with a single source key." s)
      else
        '(s, r) ← bitop_sources (drop 3 argv) 0 [] 0 0 s;
        match r with
        | None => Some s
        | Some (src, maxlen, minlen) =>
            s ← (if negb (maxlen =? 0) then
                   res ← bitop_result op src maxlen minlen;
                   Some (add_dirty 1 (signalModifiedKey targetkey (set_value targetkey (VRaw res) s)))
                 else
                   Some (match db s !! targetkey with
                         | Some _ => add_dirty 1 (signalModifiedKey targetkey (Srv (delete targetkey (db s)) (dirty s) (modified s) (replies s)))
                         | None => s
                         end));
            Some (addReplyLongLong maxlen s)
        end
  end.
(** * BITCOUNT and BITPOS *)

(** The lines both commands have: negative indexes counted from the end, the
    range cut to the string of [totlen] units, and for a range of bits the
    masks of the first and last byte and the range of bytes. *)
Definition clip_range (isbit : bool) (start end_ totlen : Z) : Z * Z * Z * Z :=
  let start := if start <? 0 then totlen + start else start in
  let end_ := if end_ <? 0 then totlen + end_ else end_ in
  let start := if start <? 0 then 0 else start in
  let end_ := if end_ <? 0 then 0 else end_ in
  let end_ := if totlen <=? end_ then totlen - 1 else end_ in
  if isbit && (start <=? end_) then
    (Z.shiftr start 3, Z.shiftr end_ 3,
     Z.land (Z.lnot (Z.shiftl 1 (8 - Z.land start 7) - 1)) 0xFF, Z.shiftl 1 (7 - Z.land end_ 7) - 1)
  else (start, end_, 0, 0).

(** [BIT] or [BYTE]. *)
Definition range_unit (unit : list Z) : option bool :=
  if strcasecmp_eq unit "bit" then Some true else if strcasecmp_eq unit "byte" then Some false else None.

(** The range; no result when the command has been answered. *)
Definition bitcount_range (argv : list (list Z)) (strlen : Z) (s : srv) : option (srv * option (Z * Z * Z * Z)) :=
  if (zlen argv =? 4) || (zlen argv =? 5) then
    a2 ← argv !! 2%nat; a3 ← argv !! 3%nat;
    if negb (strlen <=? Z.shiftr LLONG_MAX 3) then None
    else
      let '(s, start) := getLongLongFromObjectOrReply a2 None s in
      match start with
      | None => Some (s, None)
      | Some start =>
          let '(s, end_) := getLongLongFromObjectOrReply a3 None s in
          match end_ with
          | None => Some (s, None)
          | Some end_ =>
              if (start <? 0) && (end_ <? 0) && (end_ <? start) then Some (addReply (RInt 0) s, None)
              else
                isbit ← (if zlen argv =? 5 then a4 ← argv !! 4%nat; Some (range_unit a4) else Some (Some false));
                match isbit with
                | None => Some (addReplyError syntaxerr s, None)
                | Some isbit => Some (s, Some (clip_range isbit start end_ (if isbit : bool then Z.shiftl strlen 3 else strlen)))
                end
          end
      end
  else if zlen argv =? 2 then Some (s, Some (0, strlen - 1, 0, 0))
  else Some (addReplyError syntaxerr s, None).

(** The number of bits set in a range of bytes, less those the masks have. *)
Definition bitcount_count (p : list Z) '((start, end_, first_byte_neg_mask, last_byte_neg_mask) : Z * Z * Z * Z) : option Z :=
  if end_ <? start then Some 0
  else
    let bytes := end_ - start + 1 in
    count ← redisPopcount (addr + start) (drop (Z.to_nat start) p) bytes;
    if negb (first_byte_neg_mask =? 0) || negb (last_byte_neg_mask =? 0) then
      first ← (if negb (first_byte_neg_mask =? 0) then b ← rd p start; Some (Z.land b first_byte_neg_mask) else Some 0);
      last ← (if negb (last_byte_neg_mask =? 0) then b ← rd p end_; Some (Z.land b last_byte_neg_mask) else Some 0);
      masked ← redisPopcount stack [first; last] 2;
      Some (count - masked)
    else Some count.

Definition bitcountCommand (argv : list (list Z)) (s : srv) : option srv :=
  key ← argv !! 1%nat;
  let o := db s !! key in
  match o with
  | None => Some (addReply (RInt 0) s)
  | Some _ =>
      let '(s, wrong) := checkType o s in
      if (wrong : bool) then Some s
      else
        p ← getObjectReadOnlyString llbuf o;
        '(s, range) ← bitcount_range argv (zlen p) s;
        match range with
        | None => Some s
        | Some range => count ← bitcount_count p range; Some (addReplyLongLong count s)
        end
  end.

(** The range and [end_given]. *)
Definition bitpos_range (argv : list (list Z)) (strlen : Z) (s : srv) : option (srv * option (Z * Z * Z * Z * bool)) :=
  if (zlen argv =? 4) || (zlen argv =? 5) || (zlen argv =? 6) then
    a3 ← argv !! 3%nat;
    if negb (strlen <=? Z.shiftr LLONG_MAX 3) then None
    else
      let '(s, start) := getLongLongFromObjectOrReply a3 None s in
      match start with
      | None => Some (s, None)
      | Some start =>
          isbit ← (if zlen argv =? 6 then a5 ← argv !! 5%nat; Some (range_unit a5) else Some (Some false));
          match isbit with
          | None => Some (addReplyError syntaxerr s, None)
          | Some isbit =>
              '(s, end_, end_given) ← (if 5 <=? zlen argv then
                  a4 ← argv !! 4%nat;
                  let '(s, end_) := getLongLongFromObjectOrReply a4 None s in Some (s, end_, true)
                else Some (s, Some (if isbit : bool then Z.shiftl strlen 3 + 7 else strlen - 1), false));
              match end_ with
              | None => Some (s, None)
              | Some end_ => Some (s, Some (clip_range isbit start end_ (if isbit : bool then Z.shiftl strlen 3 else strlen), end_given))
              end
          end
      end
  else if zlen argv =? 3 then Some (s, Some (0, strlen - 1, 0, 0, false))
  else Some (addReplyError syntaxerr s, None).

(** A byte with the bits of a mask made irrelevant to the search for [bit]. *)
Definition mask_out (bit tmpchar mask : Z) : Z :=
  if negb (bit =? 0) then Z.land tmpchar (Z.lnot mask) else Z.lor tmpchar mask.

(** The search in the first byte, when some of its bits are excluded, and in
    the bytes that are whole: the position found if this is the end of the
    search, and [start] and [bytes] then. *)
Definition bitpos_first (p : list Z) (bit start bytes first_byte_neg_mask last_byte_neg_mask : Z) : option (option Z * Z * Z) :=
  if negb (first_byte_neg_mask =? 0) then
    b ← rd p start;
    let tmpchar := mask_out bit b first_byte_neg_mask in
    let tmpchar := if negb (last_byte_neg_mask =? 0) && (bytes =? 1) then mask_out bit tmpchar last_byte_neg_mask else tmpchar in
    pos ← redisBitpos stack [tmpchar] 1 bit;
    Some (if (bytes =? 1) || negb (pos =? -1) && negb (pos =? 8) then (Some pos, start, bytes) else (None, start + 1, bytes - 1))
  else Some (None, start, bytes).

Definition bitpos_whole (p : list Z) (bit start bytes last_byte_neg_mask : Z) : option (option Z * Z * Z) :=
  let curbytes := bytes - (if negb (last_byte_neg_mask =? 0) then 1 else 0) in
  if 0 <? curbytes then
    pos ← redisBitpos (addr + start) (drop (Z.to_nat start) p) curbytes bit;
    Some (if (bytes =? curbytes) || negb (pos =? -1) && negb (pos =? Z.shiftl curbytes 3) then (Some pos, start, bytes)
          else (None, start + curbytes, bytes - curbytes))
  else Some (None, start, bytes).

Definition bitpos_pos (p : list Z) (bit : Z) '((start, end_, first_byte_neg_mask, last_byte_neg_mask, end_given) : Z * Z * Z * Z * bool) : option Z :=
  if end_ <? start then Some (-1)
  else
    let bytes := end_ - start + 1 in
    '(found, start, bytes) ← bitpos_first p bit start bytes first_byte_neg_mask last_byte_neg_mask;
    '(found, start, bytes) ← (match found with
      | Some _ => Some (found, start, bytes)
      | None => bitpos_whole p bit start bytes last_byte_neg_mask
      end);
    pos ← (match found with
      | Some pos => Some pos
      | None => b ← rd p end_; redisBitpos stack [mask_out bit b last_byte_neg_mask] 1 bit
      end);
    Some (if end_given && (bit =? 0) && (pos =? Z.shiftl bytes 3) then -1
          else if negb (pos =? -1) then pos + Z.shiftl start 3 else pos).

Definition bitposCommand (argv : list (list Z)) (s : srv) : option srv :=
  key ← argv !! 1%nat; a2 ← argv !! 2%nat;
  let '(s, bit) := getLongFromObjectOrReply a2 None s in
  match bit with
  | None => Some s
  | Some bit =>
      if negb (bit =? 0) && negb (bit =? 1) then Some (addReplyError "The bit argument must be 1 or 0." s)
      else
        let o := db s !! key in
        match o with
        | None => Some (addReplyLongLong (if negb (bit =? 0) then -1 else 0) s)
        | Some _ =>
            let '(s, wrong) := checkType o s in
            if (wrong : bool) then Some s
            else
              p ← getObjectReadOnlyString llbuf o;
              '(s, range) ← bitpos_range argv (zlen p) s;
              match range with
              | None => Some s
              | Some range => pos ← bitpos_pos p bit range; Some (addReplyLongLong pos s)
              end
        end
  end.
End commands.

