(* ===== verification/BitCmdsThms.v ===== *)
(** The commands SETBIT, GETBIT, BITCOUNT and BITPOS against the list of the
    bits of the value. *)
From stdpp Require Import strings gmap.
From S2P Require Import Prelude Endian Strnum Server Bits Bitops BitopsThms BitfieldThms BitCmds.

(** * One bit *)

(** Bit [o] of a string that has no end: zero after its last byte. *)
Definition bit_at (p : list Z) (o : Z) : bool := default false (bits_of p !! Z.to_nat o).

(** The string made long enough for the byte [byte]. *)
Definition pad (byte : Z) (p : list Z) : list Z := p ++ replicate (Z.to_nat (byte + 1 - zlen p)) 0.

Lemma zlen_pad byte p : zlen (pad byte p) = Z.max (zlen p) (byte + 1).
Proof. unfold pad. rewrite zlen_app. unfold zlen. rewrite length_replicate. lia. Qed.

Lemma pad_bytes byte p : bytes p -> bytes (pad byte p).
Proof. intros Hp. apply Forall_app_2; [done |]. apply Forall_replicate. by unfold Prelude.byte. Qed.

Lemma bits_of_zeros n : bits_of (replicate n 0) = replicate (8 * n) false.
Proof.
  induction n as [| n IH]; [done |]. rewrite replicate_S, bits_of_cons, IH.
  replace (8 * S n)%nat with (8 + 8 * n)%nat by lia. by rewrite replicate_add.
Qed.

Lemma bit_at_pad byte p o : bit_at (pad byte p) o = bit_at p o.
Proof.
  unfold bit_at, pad. rewrite bits_of_app, bits_of_zeros, lookup_app.
  destruct (bits_of p !! Z.to_nat o); [done |]. destruct (replicate _ false !! _) as [b |] eqn:E; [| done].
  by apply lookup_replicate in E as [-> _].
Qed.

Lemma bit_at_past p o : 8 * zlen p <= o -> bit_at p o = false.
Proof.
  intros Ho. unfold bit_at. rewrite (proj2 (lookup_ge_None _ _)); [done |].
  pose proof (zlen_bits_of p) as Hz. unfold zlen in Hz at 1. lia.
Qed.

(** The byte of a bit and the test of the bit in it. *)
Lemma test_bit p o : 0 <= o < 8 * zlen p -> exists v,
  rd p (Z.shiftr o 3) = Some v /\ negb (Z.land v (Z.shiftl 1 (7 - Z.land o 7)) =? 0) = bit_at p o.
Proof.
  intros Ho. destruct (get_bit p o Ho) as (v & b & Hv & Hb & Eb). exists v. split; [done |].
  unfold bit_at. rewrite Hb. cbn [default].
  assert (0 <= Z.land o 7 < 8) as Hk.
  { change 7 with (2 ^ 3 - 1). rewrite land_ones_mod by lia. apply Z.mod_pos_bound. lia. }
  rewrite Z.shiftl_1_l, land_pow2 by lia.
  change 1 with (2 ^ 1 - 1) in Eb. rewrite land_ones_mod in Eb by lia. change (2 ^ 1) with 2 in Eb.
  rewrite <- Z.bit0_mod, Z.shiftr_spec, Z.add_0_l in Eb by lia. apply Z.b2z_inj in Eb. rewrite Eb.
  destruct b; [| done]. assert (0 < 2 ^ (7 - Z.land o 7)) by (apply Z.pow_pos_nonneg; lia).
  by rewrite (proj2 (Z.eqb_neq (2 ^ (7 - Z.land o 7)) 0)) by lia.
Qed.

Section bits.
Context (proto_max_bulk_len : Z) (mustObeyClient : bool) (buf32 : list Z) (H32 : zlen buf32 = 32).

(** The argument [off] stands for the offset [o]. *)
Definition offset_arg (off : list Z) (o : Z) : Prop :=
  string2ll off = Some o /\ 0 <= o /\ (mustObeyClient = true \/ Z.shiftr o 3 < proto_max_bulk_len).

Lemma getBitOffset_plain off s :
  (exists o, offset_arg off o /\ getBitOffsetFromArgument proto_max_bulk_len mustObeyClient off false 0 s = (s, Some o)) \/
  ((forall o, ~ offset_arg off o) /\
   getBitOffsetFromArgument proto_max_bulk_len mustObeyClient off false 0 s = (addReplyError offseterr s, None)).
Proof.
  unfold getBitOffsetFromArgument, offset_arg. rewrite andb_false_r. cbn [andb].
  destruct (string2ll off) as [o |].
  - destruct (Z.ltb_spec o 0); cbn [orb].
    + right. split; [| done]. intros o' ([= <-] & ? & _). lia.
    + destruct mustObeyClient; cbn [negb andb].
      * left. exists o. split_and!; auto.
      * destruct (Z.leb_spec proto_max_bulk_len (Z.shiftr o 3)).
        -- right. split; [| done]. intros o' ([= <-] & _ & [|]); [done | lia].
        -- left. exists o. split_and!; auto.
  - right. split; [| done]. by intros o' [? _].
Qed.

Lemma lookupString_spec s key maxbit : (forall n, db s !! key = Some (VInt n) -> is_i64 n) -> 0 <= maxbit -> is_string (db s !! key) ->
  let p := pad (Z.shiftr maxbit 3) (text_at s key) in
  lookupStringForBitCommand buf32 key maxbit s =
  Some (set_value key (VRaw p) s, Some (p, zlen (text_at s key) <=? Z.shiftr maxbit 3)).
Proof.
  intros Hi Hm Hs. cbn zeta. unfold lookupStringForBitCommand, text_at. rewrite checkType_string by done.
  assert (0 <= Z.shiftr maxbit 3) by (apply Z.shiftr_nonneg; lia).
  destruct (db s !! key) as [v |] eqn:E; cbn [from_option].
  - rewrite decoded_spec; [| done | intros n ->; by apply Hi | done]. cbn [mbind option_bind].
    change (text v ++ replicate (Z.to_nat (Z.shiftr maxbit 3 + 1 - zlen (text v))) 0) with (pad (Z.shiftr maxbit 3) (text v)).
    rewrite zlen_pad. do 4 f_equal. destruct (Z.eqb_spec (zlen (text v)) (Z.max (zlen (text v)) (Z.shiftr maxbit 3 + 1))),
      (Z.leb_spec (zlen (text v)) (Z.shiftr maxbit 3)); done || lia.
  - unfold pad. rewrite (@zlen_nil Z), Z.sub_0_r, app_nil_l. do 4 f_equal. symmetry. apply Z.leb_le. lia.
Qed.

Lemma getbit_spec cmd key off o s : (forall n, db s !! key = Some (VInt n) -> is_i64 n) -> is_string (db s !! key) ->
  offset_arg off o ->
  getbitCommand proto_max_bulk_len mustObeyClient buf32 [cmd; key; off] s = Some (addReply (RInt (Z.b2z (bit_at (text_at s key) o))) s).
Proof.
  intros Hi Hs Ho. unfold getbitCommand. cbn [lookup list_lookup mbind option_bind].
  destruct (getBitOffset_plain off s) as [(o' & Ho' & ->) | [H _]]; [| by destruct (H o)].
  assert (o' = o) as -> by (destruct Ho' as [E _], Ho as [E' _]; congruence). clear Ho'.
  destruct Ho as (_ & Ho & _). rewrite checkType_string by done. unfold text_at.
  destruct (db s !! key) as [v |] eqn:E; cbn [from_option].
  - rewrite decoded_spec; [| done | intros n ->; by apply Hi | done]. cbn [mbind option_bind].
    assert (o < 8 * zlen (text v) <-> Z.shiftr o 3 < zlen (text v)) as Hlt.
    { rewrite Z.shiftr_div_pow2 by lia. change (2 ^ 3) with 8. dm. }
    destruct (Z.ltb_spec (Z.shiftr o 3) (zlen (text v))).
    + destruct (test_bit (text v) o) as (b & -> & Eb); [lia |]. cbn [mbind option_bind]. rewrite Eb. by destruct (bit_at _ _).
    + cbn [mbind option_bind]. by rewrite bit_at_past by lia.
  - rewrite bit_at_past by (rewrite (@zlen_nil Z); lia). done.
Qed.

Lemma set_in_u8 v k x : u8 (Z.lor (Z.land v (Z.lnot (Z.shiftl 1 (7 - k)))) (Z.shiftl (Z.land (Z.b2z x) 1) (7 - k))) = set_in v k x.
Proof.
  unfold set_in. replace (Z.land (Z.b2z x) 1) with (Z.b2z x) by (by destruct x).
  change 255 with (2 ^ 8 - 1). rewrite land_ones_mod by lia. done.
Qed.

Lemma setbit_spec cmd key off on o x s : srv_ok s -> is_string (db s !! key) -> offset_arg off o -> string2ll on = Some (Z.b2z x) ->
  let q := pad (Z.shiftr o 3) (text_at s key) in
  let old := bit_at (text_at s key) o in
  let changed := (zlen (text_at s key) <=? Z.shiftr o 3) || xorb old x in
  exists p, bytes p /\ zlen p = zlen q /\ bits_of p = <[Z.to_nat o := x]> (bits_of q) /\
    setbitCommand proto_max_bulk_len mustObeyClient buf32 [cmd; key; off; on] s =
    Some (after key p (Z.b2z changed) (RInt (Z.b2z old)) s).
Proof.
  intros Hok Hs Ho Hon. cbn zeta. unfold setbitCommand. cbn [lookup list_lookup mbind option_bind].
  destruct (getBitOffset_plain off s) as [(o' & Ho' & ->) | [H _]]; [| by destruct (H o)].
  assert (o' = o) as -> by (destruct Ho' as [E _], Ho as [E' _]; congruence). clear Ho'. destruct Ho as (_ & Ho & _).
  unfold getLongFromObjectOrReply, getLongLongFromObjectOrReply. rewrite Hon.
  replace ((Z.b2z x <? LLONG_MIN) || (LLONG_MAX <? Z.b2z x)) with false by (by destruct x).
  replace (negb (Z.land (Z.b2z x) (Z.lnot 1) =? 0)) with false by (by destruct x).
  rewrite lookupString_spec; [| intros n; by apply srv_ok_int | done | done]. cbn [mbind option_bind].
  set (q := pad _ _). destruct (text_at_ok s key Hok) as [Hb _].
  assert (bytes q) as Hq by (by apply pad_bytes).
  assert (0 <= o < 8 * zlen q) as Hoq.
  { unfold q. rewrite zlen_pad, Z.shiftr_div_pow2 by lia. change (2 ^ 3) with 8. dm. }
  destruct (test_bit q o Hoq) as (v & Ev & Eb). destruct (set_bit q o x Hoq Hq) as (v' & p & Ev' & Ew & Hp & Hzp & Ep).
  rewrite Ev in Ev'. injection Ev' as <-. rewrite Ev. cbn [mbind option_bind]. rewrite Eb, set_in_u8.
  assert (bit_at q o = bit_at (text_at s key) o) as Hold by apply bit_at_pad. rewrite Hold.
  assert (negb (Z.b2z (bit_at (text_at s key) o) =? Z.b2z x) = xorb (bit_at (text_at s key) o) x) as -> by (by destruct (bit_at (text_at s key) o), x).
  unfold after. destruct (_ || _) eqn:Ech.
  - rewrite Ew. cbn [mbind option_bind]. exists p. split; [done |]. split; [done |]. split; [done |].
    unfold addReply, add_dirty, signalModifiedKey, set_value. cbn [db dirty modified replies Z.b2z Z.eqb].
    rewrite insert_insert_eq. by destruct (bit_at (text_at s key) o).
  - cbn [mbind option_bind]. exists q. split; [done |]. split; [done |]. apply orb_false_iff in Ech as [_ Ex].
    split; [| unfold addReply, set_value; cbn [db dirty modified replies Z.b2z Z.eqb];
      rewrite Z.add_0_r, app_nil_r; by destruct (bit_at (text_at s key) o)].
    symmetry. apply list_insert_id. rewrite <- Hold in Ex. unfold bit_at in Ex.
    destruct (bits_of q !! Z.to_nat o) as [y |] eqn:Ey; [by destruct y, x |].
    apply lookup_ge_None in Ey. pose proof (zlen_bits_of q) as Hz. unfold zlen in Hz at 1. lia.
Qed.

Lemma setbit_errors cmd key off on s :
  (forall o, ~ offset_arg off o) \/ (forall x, string2ll on <> Some (Z.b2z x)) \/ db s !! key = Some VOther ->
  exists msg, setbitCommand proto_max_bulk_len mustObeyClient buf32 [cmd; key; off; on] s = Some (addReplyError msg s).
Proof.
  intros He. unfold setbitCommand. cbn [lookup list_lookup mbind option_bind].
  destruct (getBitOffset_plain off s) as [(o & Ho & ->) | [_ ->]]; [| by eexists].
  unfold getLongFromObjectOrReply, getLongLongFromObjectOrReply.
  destruct (string2ll on) as [v |] eqn:Ev; [| by eexists].
  destruct (_ || _); [by eexists |].
  destruct (negb (Z.land v (Z.lnot 1) =? 0)) eqn:El; [by eexists |].
  destruct He as [He | [He | He]]; [by destruct (He o) | |].
  - exfalso. apply negb_false_iff, Z.eqb_eq in El.
    assert (v = v mod 2 ^ 1) as E2.
    { bits i; [done |]. apply (f_equal (fun z => Z.testbit z i)) in El. rewrite Z.land_spec, testbit_lnot, Z.bits_0 in El by lia.
      rewrite (testbit_above 1 1 i), andb_true_r in El by lia. done. }
    pose proof (Z.mod_pos_bound v (2 ^ 1)) as Hm. change (2 ^ 1) with 2 in *.
    destruct (Z.eq_dec v 0) as [-> |]; [by apply (He false) |]. apply (He true). cbn. f_equal. lia.
  - unfold lookupStringForBitCommand. rewrite He. cbn. by eexists.
Qed.

(** C30: SETBIT stores the bit in the value at the offset, a value made long
    enough with zero bytes, changes no other bit and no other key, answers
    with the former bit, and counts and signals a change exactly when the
    value grew or the bit differs; every GETBIT after it sees that bit at that
    offset and the former bits elsewhere, zero past the end.  When an argument
    is not acceptable or the key has another type the only effect is an error
    reply. *)
Theorem setbit_getbit_correct s cmd key off on : srv_ok s ->
  (forall o x, offset_arg off o -> string2ll on = Some (Z.b2z x) -> is_string (db s !! key) ->
    let t := text_at s key in
    let q := pad (Z.shiftr o 3) t in
    let changed := (zlen t <=? Z.shiftr o 3) || xorb (bit_at t o) x in
    exists p, bytes p /\ zlen p = zlen q /\ bits_of p = <[Z.to_nat o := x]> (bits_of q) /\
      let s' := after key p (Z.b2z changed) (RInt (Z.b2z (bit_at t o))) s in
      setbitCommand proto_max_bulk_len mustObeyClient buf32 [cmd; key; off; on] s = Some s' /\
      forall cmd' off' o', offset_arg off' o' ->
        getbitCommand proto_max_bulk_len mustObeyClient buf32 [cmd'; key; off'] s' =
        Some (addReply (RInt (Z.b2z (if o' =? o then x else bit_at t o'))) s')) /\
  (forall o, offset_arg off o -> is_string (db s !! key) ->
    getbitCommand proto_max_bulk_len mustObeyClient buf32 [cmd; key; off] s =
    Some (addReply (RInt (Z.b2z (bit_at (text_at s key) o))) s)) /\
  ((forall o, ~ offset_arg off o) \/ (forall x, string2ll on <> Some (Z.b2z x)) \/ db s !! key = Some VOther ->
    exists msg, setbitCommand proto_max_bulk_len mustObeyClient buf32 [cmd; key; off; on] s = Some (addReplyError msg s)).
Proof.
  intros Hok. split; [| split; [| apply setbit_errors]].
  - intros o x Ho Hon Hs. cbn zeta.
    destruct (setbit_spec cmd key off on o x s Hok Hs Ho Hon) as (p & Hp & Hz & Hb & E).
    exists p. split; [done |]. split; [done |]. split; [done |]. split; [exact E |]. intros cmd' off' o' Ho'.
    rewrite (getbit_spec _ _ _ o'); [| | | done].
    + do 4 f_equal. rewrite text_at_after. destruct Ho as (_ & Ho & _), Ho' as (_ & Ho' & _).
      unfold bit_at at 1. rewrite Hb, list_lookup_insert. change (default false (bits_of ?q !! Z.to_nat ?n)) with (bit_at q n).
      rewrite <- (bit_at_pad (Z.shiftr o 3) (text_at s key) o').
      pose proof (zlen_bits_of (pad (Z.shiftr o 3) (text_at s key))) as Hl. rewrite zlen_pad in Hl. unfold zlen in Hl at 1.
      assert (Z.to_nat o < length (bits_of (pad (Z.shiftr o 3) (text_at s key))))%nat.
      { rewrite Z.shiftr_div_pow2 in Hl |- * by lia. change (2 ^ 3) with 8 in *. pose proof (Z_div_mod_eq_full o 8).
        pose proof (Z.mod_pos_bound o 8). lia. }
      destruct (Z.eqb_spec o' o) as [-> |].
      * by rewrite decide_True.
      * rewrite decide_False by lia. done.
    + unfold after. cbn [db]. by rewrite lookup_insert_eq.
    + unfold after, is_string. cbn [db]. by rewrite lookup_insert_eq.
  - intros o Ho Hs. apply getbit_spec; [intros n; by apply srv_ok_int | done | done].
Qed.
End bits.

Lemma setbit_getbit_correct_witness :
  exists p, bits_of p = [false; true; true; false; false; false; false; true] ++ replicate 8 false ++ [true] ++ replicate 7 false /\
  exists s', setbitCommand 536870912 false (replicate 32 0) (map chars ["setbit"; "k"; "16"; "1"]) (Srv {[chars "k" := VRaw (chars "a")]} 5 [] [])
    = Some s' /\ dirty s' = 6 /\ replies s' = [RInt 0] /\ db s' !! chars "k" = Some (VRaw p) /\
  getbitCommand 536870912 false (replicate 32 0) (map chars ["getbit"; "k"; "16"]) s' = Some (addReply (RInt 1) s').
Proof.
  destruct (setbit_getbit_correct 536870912 false (replicate 32 0) eq_refl (Srv {[chars "k" := VRaw (chars "a")]} 5 [] [])
    (chars "setbit") (chars "k") (chars "16") (chars "1")) as [H _].
  { intros k v E. cbn [db] in E. apply lookup_singleton_Some in E as [_ <-]. split; [apply chars_bytes | vm_compute; discriminate]. }
  assert (offset_arg 536870912 false (chars "16") 16) as Ho by (split; [reflexivity | split; [lia | right; reflexivity]]).
  destruct (H 16 true Ho eq_refl ltac:(discriminate)) as (p & _ & _ & Hb & E & Hget).
  exists p. split; [rewrite Hb; vm_compute; reflexivity |]. eexists. split; [exact E |]. split; [vm_compute; reflexivity |].
  split; [vm_compute; reflexivity |]. split; [apply lookup_insert_eq |].
  etransitivity; [apply (Hget (chars "getbit") (chars "16") 16 Ho) | vm_compute; reflexivity].
Defined.
