(* ===== verification/BitRangeThms.v ===== *)
(** BITCOUNT and BITPOS: a range of bytes or of bits, in either direction, as
    a range of the list of the bits of the string. *)
From stdpp Require Import strings gmap.
From S2P Require Import Prelude Endian Strnum Server Bits Bitops BitopsThms BitfieldThms BitCmds BitCmdsThms.

(** * Ranges *)

(** The range of bits [lo, hi) for the indexes [start] and [end_] (both
    included), of bytes or bits, in a string of [len] bytes. *)
Definition bit_range (isbit : bool) (start end_ len : Z) : Z * Z :=
  let tot := if isbit then 8 * len else len in
  let first := norm tot start in
  let last := Z.min (tot - 1) (norm tot end_) in
  if isbit then (first, last + 1) else (8 * first, 8 * (last + 1)).

(** The masks of [a] bits on the left and of [b] bits on the right of a byte. *)
Definition left_mask (a : Z) : Z := Z.land (Z.lnot (Z.shiftl 1 (8 - a) - 1)) 0xFF.
Definition right_mask (b : Z) : Z := Z.shiftl 1 b - 1.

Lemma clip_range_spec isbit start end_ len : 0 <= len ->
  let '(lo, hi) := bit_range isbit start end_ len in
  let '(s, e, lm, rm) := clip_range isbit start end_ (if isbit then 8 * len else len) in
  0 <= lo /\ hi <= 8 * len /\
  (lo < hi -> exists a b, 0 <= a < 8 /\ 0 <= b < 8 /\ lm = left_mask a /\ rm = right_mask b /\ 0 <= s <= e /\ e < len /\
     lo = 8 * s + a /\ hi = 8 * e + 8 - b) /\
  (hi <= lo -> e < s).
Proof.
  intros Hlen. unfold bit_range, clip_range. set (tot := if isbit then 8 * len else len).
  assert (forall i, (if (if i <? 0 then tot + i else i) <? 0 then 0 else if i <? 0 then tot + i else i) = norm tot i) as Hn.
  { intros i. unfold norm. destruct (Z.ltb_spec (if i <? 0 then tot + i else i) 0); lia. }
  rewrite !Hn. set (first := norm tot start). set (e0 := norm tot end_).
  assert (0 <= first /\ 0 <= e0) as [Hf He] by (unfold first, e0, norm; lia).
  assert ((if tot <=? e0 then tot - 1 else e0) = Z.min (tot - 1) e0) as -> by (destruct (Z.leb_spec tot e0); lia).
  set (last := Z.min (tot - 1) e0). assert (last < tot) as Hl by lia. clearbody last first. clear e0 He Hn.
  destruct isbit; subst tot; cbn [andb].
  - destruct (Z.leb_spec first last).
    + split; [lia |]. split; [lia |]. split; [| lia]. intros _.
      exists (Z.land first 7), (7 - Z.land last 7). unfold left_mask, right_mask.
      change 7 with (2 ^ 3 - 1). rewrite !land_ones_mod, !Z.shiftr_div_pow2 by lia. change (2 ^ 3) with 8. change (8 - 1) with 7.
      pose proof (Z_div_mod_eq_full first 8). pose proof (Z.mod_pos_bound first 8). pose proof (Z.mod_pos_bound last 8).
      pose proof (Z_div_mod_eq_full last 8). pose proof (Z.div_le_mono first last 8).
      split_and!; done || lia || (apply Z.div_pos; lia).
    + split; [lia |]. split; [lia |]. split; [lia |]. lia.
  - split; [lia |]. split; [lia |]. split; [| lia]. intros ?. exists 0, 0. split_and!; done || lia.
Qed.

(** The bytes [s..e] of a string and their bits but the [a] first and [b] last
    ones. *)
Lemma slice_bits p s e a b : 0 <= s <= e -> e < zlen p -> 0 <= a < 8 -> 0 <= b < 8 -> 8 * s + a < 8 * e + 8 - b ->
  exists m rest first last, drop (Z.to_nat s) p = m ++ rest /\ zlen m = e - s + 1 /\
    rd p s = Some first /\ rd p e = Some last /\ (bytes p -> bytes m /\ byte first /\ byte last) /\
    bits_of m = take (Z.to_nat a) (byte_msb first) ++ slice (8 * s + a) (8 * e + 8 - b) (bits_of p)
                ++ drop (Z.to_nat (8 - b)) (byte_msb last).
Proof.
  intros Hse He Ha Hb Hlt.
  destruct (zlen_split_prefix p s) as (p1 & p2 & -> & Hp1); [lia |]. rewrite zlen_app in He.
  destruct (zlen_split_prefix p2 (e - s + 1)) as (m & rest & -> & Hm); [lia |].
  assert (drop (Z.to_nat s) (p1 ++ m ++ rest) = m ++ rest) as Ed.
  { rewrite <- Hp1. unfold zlen. by rewrite Nat2Z.id, drop_app_length. }
  destruct m as [| first m'] eqn:Em; [unfold zlen in Hm; cbn in Hm; lia |]. rewrite <- Em in *.
  assert (exists m'' last, m = m'' ++ [last]) as (m'' & last & El).
  { destruct m as [| ? ?] using rev_ind; [done |]. eauto. }
  exists m, rest, first, last. split; [exact Ed |]. split; [exact Hm |].
  split; [rewrite Em, <- app_comm_cons; by apply rd_app |].
  assert (zlen m'' = e - s) as Hm'' by (rewrite El, zlen_app, zlen_cons, (@zlen_nil Z) in Hm; lia).
  split; [rewrite El, <- app_assoc, app_assoc; apply rd_app; rewrite zlen_app; lia |].
  split.
  { unfold bytes. rewrite !Forall_app. intros (_ & Hbm & _). split; [done |]. split.
    - rewrite Em in Hbm. by apply Forall_cons in Hbm as [? _].
    - rewrite El in Hbm. apply Forall_app in Hbm as [_ Hbm]. by apply Forall_cons in Hbm as [? _]. }
  assert (slice (8 * s + a) (8 * e + 8 - b) (bits_of (p1 ++ m ++ rest)) =
          take (Z.to_nat (8 * (e - s + 1) - b - a)) (drop (Z.to_nat a) (bits_of m))) as ->.
  { unfold slice. rewrite !bits_of_app. pose proof (zlen_bits_of p1) as Hz1. pose proof (zlen_bits_of m) as Hzm. unfold zlen in Hz1 at 1. unfold zlen in Hzm at 1.
    rewrite drop_app_ge by lia. rewrite drop_app_le by lia. rewrite take_app_le by (rewrite length_drop; lia).
    do 2 f_equal; lia. }
  assert (take (Z.to_nat a) (byte_msb first) = take (Z.to_nat a) (bits_of m)) as ->.
  { rewrite Em, bits_of_cons, take_app_le; [done | rewrite length_byte_msb; lia]. }
  pose proof (zlen_bits_of m) as Hzm. unfold zlen in Hzm at 1.
  assert (drop (Z.to_nat (8 - b)) (byte_msb last) = drop (Z.to_nat (8 * (e - s + 1) - b)) (bits_of m)) as ->.
  { rewrite El, bits_of_app. pose proof (zlen_bits_of m'') as Hz2. unfold zlen in Hz2 at 1.
    rewrite drop_app_ge by lia. unfold bits_of at 2. cbn [map concat]. rewrite app_nil_r. f_equal. lia. }
  replace (Z.to_nat (8 * (e - s + 1) - b)) with (Z.to_nat (8 * (e - s + 1) - b - a) + Z.to_nat a)%nat by lia.
  rewrite Nat.add_comm, <- drop_drop. by rewrite !take_drop.
Qed.

(** The masks on every byte. *)
Definition masks_check (f : Z) : bool :=
  forallb (fun a =>
    (count_true (byte_msb (Z.land f (left_mask a))) =? count_true (take (Z.to_nat a) (byte_msb f))) &&
    (count_true (byte_msb (Z.land f (right_mask a))) =? count_true (drop (Z.to_nat (8 - a)) (byte_msb f))) &&
    forallb (fun b =>
      bool_decide (byte_msb (mask_out (Z.b2z b) f (left_mask a)) = replicate (Z.to_nat a) (negb b) ++ drop (Z.to_nat a) (byte_msb f)) &&
      bool_decide (byte_msb (mask_out (Z.b2z b) f (right_mask a)) = take (Z.to_nat (8 - a)) (byte_msb f) ++ replicate (Z.to_nat a) (negb b)) &&
      (0 <=? mask_out (Z.b2z b) f (left_mask a)) && (mask_out (Z.b2z b) f (left_mask a) <? 256) &&
      (0 <=? mask_out (Z.b2z b) f (right_mask a)) && (mask_out (Z.b2z b) f (right_mask a) <? 256)) [true; false] &&
    (0 <=? Z.land f (left_mask a)) && (Z.land f (left_mask a) <? 256) &&
    (0 <=? Z.land f (right_mask a)) && (Z.land f (right_mask a) <? 256) &&
    Bool.eqb (left_mask a =? 0) (a =? 0) && Bool.eqb (right_mask a =? 0) (a =? 0))
  [0; 1; 2; 3; 4; 5; 6; 7].

Lemma masks_check_all : forallb masks_check (seqZ 0 256) = true.
Proof. vm_compute. reflexivity. Qed.

Lemma masks_spec f a : byte f -> 0 <= a < 8 ->
  byte (Z.land f (left_mask a)) /\ byte (Z.land f (right_mask a)) /\
  count_true (byte_msb (Z.land f (left_mask a))) = count_true (take (Z.to_nat a) (byte_msb f)) /\
  count_true (byte_msb (Z.land f (right_mask a))) = count_true (drop (Z.to_nat (8 - a)) (byte_msb f)) /\
  (left_mask a =? 0) = (a =? 0) /\ (right_mask a =? 0) = (a =? 0) /\
  (forall b,
     byte (mask_out (Z.b2z b) f (left_mask a)) /\ byte (mask_out (Z.b2z b) f (right_mask a)) /\
     byte_msb (mask_out (Z.b2z b) f (left_mask a)) = replicate (Z.to_nat a) (negb b) ++ drop (Z.to_nat a) (byte_msb f) /\
     byte_msb (mask_out (Z.b2z b) f (right_mask a)) = take (Z.to_nat (8 - a)) (byte_msb f) ++ replicate (Z.to_nat a) (negb b)).
Proof.
  intros Hf Ha. pose proof (byte_all _ masks_check_all f Hf) as E. unfold masks_check in E. rewrite forallb_forall in E.
  specialize (E a ltac:(cbn [In]; lia)). rewrite !andb_true_iff, forallb_forall in E.
  destruct E as [[[[[[[[E1 E2] Eb] L1] L2] R1] R2] Z1] Z2]. apply Z.eqb_eq in E1, E2. apply eqb_prop in Z1, Z2.
  unfold byte. split; [lia |]. split; [lia |]. split; [exact E1 |]. split; [exact E2 |]. split; [exact Z1 |]. split; [exact Z2 |].
  intros b. specialize (Eb b ltac:(destruct b; cbn [In]; tauto)). rewrite !andb_true_iff, !bool_decide_eq_true in Eb.
  destruct Eb as [[[[[B1 B2] B3] B4] B5] B6]. split; [lia |]. split; [lia |]. split; [exact B1 | exact B2].
Qed.

Section ranges.
Context `{Host}.
Context (addr stack : Z) (p : list Z) (Hp : bytes p).

(** * BITCOUNT *)

Lemma bitcount_count_spec s e a b : 0 <= s <= e -> e < zlen p -> 0 <= a < 8 -> 0 <= b < 8 -> 8 * s + a < 8 * e + 8 - b ->
  bitcount_count addr stack p (s, e, left_mask a, right_mask b) = Some (count_true (slice (8 * s + a) (8 * e + 8 - b) (bits_of p))).
Proof.
  intros Hse He Ha Hb Hlt.
  destruct (slice_bits p s e a b Hse He Ha Hb Hlt) as (m & rest & f & l & Ed & Hm & Ef & El & Hbytes & Ebits).
  destruct (Hbytes Hp) as (Hbm & Hbf & Hbl). unfold bitcount_count. rewrite (proj2 (Z.ltb_ge e s)), Ed, <- Hm by lia.
  rewrite redisPopcount_spec by done. cbn [mbind option_bind].
  destruct (masks_spec f a Hbf Ha) as (Bf & _ & Cf & _ & Zf & _ & _). destruct (masks_spec l b Hbl Hb) as (_ & Bl & _ & Cl & _ & Zl & _).
  assert (ones m = count_true (take (Z.to_nat a) (byte_msb f)) + count_true (slice (8 * s + a) (8 * e + 8 - b) (bits_of p)) +
                   count_true (drop (Z.to_nat (8 - b)) (byte_msb l))) as ->.
  { unfold ones. rewrite Ebits, !count_true_app. lia. }
  rewrite Zf, Zl, Ef, El.
  assert (forall g c, (if negb (c =? 0) then b0 ← Some g; Some (Z.land b0 (left_mask c)) else Some 0) = Some (Z.land g (left_mask c))) as Ef'.
  { intros g c. destruct (Z.eqb_spec c 0) as [-> |]; [| done]. cbn [negb]. change (left_mask 0) with 0. by rewrite Z.land_0_r. }
  assert (forall g c, (if negb (c =? 0) then b0 ← Some g; Some (Z.land b0 (right_mask c)) else Some 0) = Some (Z.land g (right_mask c))) as El'.
  { intros g c. destruct (Z.eqb_spec c 0) as [-> |]; [| done]. cbn [negb]. change (right_mask 0) with 0. by rewrite Z.land_0_r. }
  rewrite Ef', El'. cbn [mbind option_bind].
  destruct (Z.eqb_spec a 0) as [-> | Ha0], (Z.eqb_spec b 0) as [-> | Hb0]; cbn [negb orb].
  { f_equal. change (count_true (take (Z.to_nat 0) _)) with 0. rewrite drop_ge by (rewrite length_byte_msb; lia).
    change (count_true []) with 0. lia. }
  all: match goal with |- context [redisPopcount _ [?x; ?y] _] =>
      change (redisPopcount stack [x; y] _) with (redisPopcount stack ([x; y] ++ []) (zlen [x; y]));
      rewrite redisPopcount_spec by (repeat apply Forall_cons_2; [exact Bf | exact Bl | apply Forall_nil_2]);
      cbn [mbind option_bind]; rewrite !ones_cons, ones_nil; unfold popcount8; rewrite Cf, Cl; f_equal; lia
    end.
Qed.

(** The units of the string the clipping counts in. *)
Lemma units isbit len : (if isbit : bool then Z.shiftl len 3 else len) = if isbit then 8 * len else len.
Proof. destruct isbit; [| done]. rewrite Z.shiftl_mul_pow2 by lia. lia. Qed.

Definition count_in (isbit : bool) (start end_ : Z) : Z :=
  let '(lo, hi) := bit_range isbit start end_ (zlen p) in count_true (slice lo hi (bits_of p)).

Lemma bitcount_clip isbit start end_ :
  bitcount_count addr stack p (clip_range isbit start end_ (if isbit : bool then 8 * zlen p else zlen p)) = Some (count_in isbit start end_).
Proof.
  pose proof (clip_range_spec isbit start end_ (zlen p) (zlen_nonneg p)) as Hc. unfold count_in.
  destruct (bit_range _ _ _ _) as [lo hi], (clip_range _ _ _ _) as [[[s e] lm] rm]. destruct Hc as (Hlo & Hhi & Hlt & Hge).
  destruct (Z.lt_ge_cases lo hi) as [H1 | H1].
  - destruct (Hlt H1) as (a & b & Ha & Hb & -> & -> & Hse & He & -> & ->). by apply bitcount_count_spec.
  - rewrite slice_empty by done. unfold bitcount_count. by rewrite (proj2 (Z.ltb_lt e s)) by auto.
Qed.

Lemma bitcount_whole : bitcount_count addr stack p (0, zlen p - 1, 0, 0) = Some (count_true (bits_of p)).
Proof.
  pose proof (bitcount_clip false 0 (-1)) as E. unfold count_in, bit_range, clip_range, norm in E. cbn [Z.ltb Z.compare andb Z.max] in E.
  pose proof (zlen_nonneg p) as Hz. destruct (Z.eq_dec (zlen p) 0) as [Ez |].
  - apply zlen_0 in Ez as ->. done.
  - rewrite (proj2 (Z.ltb_ge (zlen p + -1) 0)), (proj2 (Z.leb_gt (zlen p) (zlen p + -1))) in E by lia.
    replace (8 * (Z.min (zlen p - 1) (Z.max 0 (zlen p + -1)) + 1)) with (zlen (bits_of p)) in E by (rewrite zlen_bits_of; lia).
    change (8 * 0) with 0 in E. rewrite slice_all in E. exact E.
Qed.
End ranges.

(** The unit an argument names; bytes when there is none. *)
Inductive unit_arg : list (list Z) -> bool -> Prop :=
| unit_none : unit_arg [] false
| unit_given u isbit : range_unit u = Some isbit -> unit_arg [u] isbit.

(** C29: BITCOUNT answers the number of bits set in the string, 0 when the key
    does not exist, and with two indexes the number of bits set between them,
    counted in bytes or in bits, from the end of the string when negative,
    and cut to the string; 0 when both are negative and the first is past the
    second.  Indexes that are not integers, another number of arguments and
    another type of value are errors.  The state is otherwise left alone, and
    nothing is read outside the string. *)
Theorem bitcountCommand_correct `{Host} addr stack llbuf s cmd key : zlen llbuf = LONG_STR_SIZE -> srv_ok s ->
  let run args := bitcountCommand addr stack llbuf (cmd :: key :: args) s in
  let t := text_at s key in
  (db s !! key = None -> forall args, run args = Some (addReply (RInt 0) s)) /\
  (db s !! key = Some VOther -> forall args, run args = Some (addReplyError wrongtypeerr s)) /\
  (db s !! key <> None -> is_string (db s !! key) ->
    run [] = Some (addReply (RInt (count_true (bits_of t))) s) /\
    (forall a1 a2 start end_ rest isbit, string2ll a1 = Some start -> string2ll a2 = Some end_ -> unit_arg rest isbit ->
       run (a1 :: a2 :: rest) = Some (addReply (RInt (if (start <? 0) && (end_ <? 0) && (end_ <? start) then 0 else count_in t isbit start end_)) s)) /\
    (forall a1 a2 rest, zlen rest <= 1 -> string2ll a1 = None \/ string2ll a2 = None -> exists msg, run (a1 :: a2 :: rest) = Some (addReplyError msg s)) /\
    (forall args, zlen args = 1 \/ 3 < zlen args -> run args = Some (addReplyError syntaxerr s))).
Proof.
  intros Hll Hok. cbn zeta. unfold bitcountCommand. cbn [lookup list_lookup mbind option_bind].
  split; [by intros -> |]. split; [by intros -> |]. intros Hk Hs.
  destruct (text_at_ok s key Hok) as [Hb Hlen].
  assert (forall n, db s !! key = Some (VInt n) -> is_i64 n) as Hi by (intros n; by apply srv_ok_int).
  rewrite (getObjectReadOnlyString_spec llbuf Hll (db s !! key) Hi Hs), checkType_string by done.
  fold (text_at s key). unfold MAXLEN in Hlen. generalize dependent (text_at s key). intros t Hb Hlen.
  destruct (db s !! key) as [v |]; [clear Hk | done]. cbn [mbind option_bind].
  unfold bitcount_range. split_and!.
  - change (zlen [cmd; key]) with 2. cbn [Z.eqb Pos.eqb orb mbind option_bind]. by rewrite bitcount_whole.
  - intros a1 a2 start end_ rest isbit E1 E2 Hu.
    assert ((zlen (cmd :: key :: a1 :: a2 :: rest) =? 4) || (zlen (cmd :: key :: a1 :: a2 :: rest) =? 5) = true) as -> by (by destruct Hu).
    cbn [lookup list_lookup mbind option_bind]. rewrite (proj2 (Z.leb_le _ _)) by exact Hlen. cbn [negb].
    unfold getLongLongFromObjectOrReply. rewrite E1, E2.
    destruct (_ && _); [done |].
    destruct Hu as [| u isbit Eu].
    + change (zlen [cmd; key; a1; a2]) with 4. cbn [Z.eqb Pos.eqb mbind option_bind].
      change (zlen t) with (if false then 8 * zlen t else zlen t). by rewrite bitcount_clip.
    + change (zlen [cmd; key; a1; a2; u]) with 5. change ([u] !! 0%nat) with (Some u).
      cbn [Z.eqb Pos.eqb mbind option_bind]. rewrite Eu. cbn [mbind option_bind]. by rewrite units, bitcount_clip.
  - intros a1 a2 rest Hr He.
    assert ((zlen (cmd :: key :: a1 :: a2 :: rest) =? 4) || (zlen (cmd :: key :: a1 :: a2 :: rest) =? 5) = true) as ->.
    { rewrite !zlen_cons. pose proof (zlen_nonneg rest). boolp; done || lia. }
    cbn [lookup list_lookup mbind option_bind]. rewrite (proj2 (Z.leb_le _ _)) by exact Hlen. cbn [negb].
    unfold getLongLongFromObjectOrReply. destruct (string2ll a1); [| by eexists].
    destruct (string2ll a2); [by destruct He | by eexists].
  - intros args Ha. rewrite !zlen_cons. rewrite (proj2 (Z.eqb_neq _ 4)), (proj2 (Z.eqb_neq _ 5)), (proj2 (Z.eqb_neq _ 2)) by lia. done.
Qed.

Lemma bitcountCommand_correct_witness :
  bitcountCommand (H := true) 4096 1 (replicate 21 0) (map chars ["bitcount"; "k"; "-10"; "-2"; "BIT"]) (Srv {[chars "k" := VRaw (chars "foobar")]} 0 [] [])
  = Some (Srv {[chars "k" := VRaw (chars "foobar")]} 0 [] [RInt 5]).
Proof.
  destruct (bitcountCommand_correct (H := true) 4096 1 (replicate 21 0) (Srv {[chars "k" := VRaw (chars "foobar")]} 0 [] [])
    (chars "bitcount") (chars "k") eq_refl) as (_ & _ & Hs).
  { intros k v E. cbn [db] in E. apply lookup_singleton_Some in E as [_ <-]. split; [apply chars_bytes | vm_compute; discriminate]. }
  destruct Hs as (_ & Hr & _); [discriminate | discriminate |].
  etransitivity; [exact (Hr (chars "-10") (chars "-2") (-10) (-2) [chars "BIT"] true eq_refl eq_refl (unit_given (chars "BIT") true eq_refl)) |].
  vm_compute. reflexivity.
Defined.
