(* ===== verification/BitposThms.v ===== *)
(** BITPOS: the first bit of a value in a range of the bits of the string. *)
From stdpp Require Import strings gmap.
From S2P Require Import Prelude Endian Strnum Server Bits Bitops BitopsThms BitfieldThms BitCmds BitCmdsThms BitRangeThms.

(** * Pieces of a range *)

Lemma slice_bytes p s n : 0 <= s -> 0 <= n -> s + n <= zlen p -> exists m rest,
  drop (Z.to_nat s) p = m ++ rest /\ zlen m = n /\ (bytes p -> bytes m) /\ slice (8 * s) (8 * (s + n)) (bits_of p) = bits_of m.
Proof.
  intros Hs Hn Hl. destruct (zlen_split_prefix p s) as (p1 & p2 & -> & Hp1); [lia |]. rewrite zlen_app in Hl.
  destruct (zlen_split_prefix p2 n) as (m & rest & -> & Hm); [lia |]. exists m, rest.
  split; [rewrite <- Hp1; unfold zlen; by rewrite Nat2Z.id, drop_app_length |]. split; [done |].
  split; [unfold bytes; rewrite !Forall_app; tauto |].
  unfold slice. rewrite !bits_of_app. pose proof (zlen_bits_of p1) as H1. pose proof (zlen_bits_of m) as H2.
  unfold zlen in H1 at 1. unfold zlen in H2 at 1. rewrite drop_app_ge by lia.
  replace (Z.to_nat (8 * s) - length (bits_of p1))%nat with 0%nat by lia. rewrite drop_0.
  rewrite take_app_ge by lia. replace (_ - _)%nat with 0%nat by lia. by rewrite take_0, app_nil_r.
Qed.

Lemma slice_byte p e a b : 0 <= e < zlen p -> 0 <= a -> 0 <= b -> a + b <= 8 -> exists l,
  rd p e = Some l /\ (bytes p -> byte l) /\
  slice (8 * e + a) (8 * e + 8 - b) (bits_of p) = take (Z.to_nat (8 - b - a)) (drop (Z.to_nat a) (byte_msb l)).
Proof.
  intros He Ha Hb Hab. destruct (zlen_split_prefix p e) as (p1 & p2 & -> & Hp1); [lia |]. rewrite zlen_app in He.
  destruct p2 as [| l p2]; [rewrite (@zlen_nil Z) in He; lia |]. exists l. split; [by apply rd_app |].
  split; [intros H; apply Forall_app in H as [_ H]; by apply Forall_cons in H as [? _] |].
  unfold slice. rewrite bits_of_app, bits_of_cons. pose proof (zlen_bits_of p1) as H1. unfold zlen in H1 at 1.
  rewrite drop_app_ge by lia. rewrite drop_app_le by (rewrite length_byte_msb; lia).
  rewrite take_app_le by (rewrite length_drop, length_byte_msb; lia). do 2 f_equal; lia.
Qed.

(** Bits that are not the one searched for. *)
Lemma find_bit_skip bit n l : find_bit bit (replicate n (negb bit) ++ l) = Z.add (Z.of_nat n) <$> find_bit bit l.
Proof.
  rewrite find_bit_app. rewrite (proj2 (find_bit_None bit (replicate n (negb bit)))).
  - unfold zlen. by rewrite length_replicate.
  - intros x Hx. by apply elem_of_replicate in Hx as [-> _].
Qed.

Lemma find_bit_pad bit n l : find_bit bit (l ++ replicate n (negb bit)) = find_bit bit l.
Proof.
  rewrite find_bit_app. destruct (find_bit bit l); [done |].
  rewrite <- (app_nil_r (replicate n (negb bit))), find_bit_skip. done.
Qed.

(** * The search *)

(** The position the command answers for a range of bits: the first bit of
    that value; -1 when there is none, or the end of the range when it is a
    clear bit that is searched and the range has no explicit end. *)
Definition pos_in (t : list Z) (bit end_given : bool) (lo hi : Z) : Z :=
  match find_bit bit (slice lo hi (bits_of t)) with
  | Some i => lo + i
  | None => if bit || end_given || (hi <=? lo) then -1 else hi
  end.

Section search.
Context `{Host}.
Context (addr stack : Z) (p : list Z) (Hp : bytes p) (bit end_given : bool).

(** What one call of [redisBitpos] reports on a string of the bits [l]. *)
Definition reported (l : list bool) : Z := match find_bit bit l with Some i => i | None => if bit then -1 else zlen l end.

Lemma redisBitpos_byte t : byte t -> redisBitpos stack [t] 1 (Z.b2z bit) = Some (reported (byte_msb t)).
Proof.
  intros Ht. pose proof (redisBitpos_spec stack [t] [] ltac:(apply Forall_cons_2; [exact Ht | apply Forall_nil_2]) bit) as E.
  change ([t] ++ []) with [t] in E. change (zlen [t]) with 1 in E. rewrite E. unfold reported, bits_of. cbn [map concat].
  by rewrite app_nil_r, zlen_byte_msb.
Qed.

Lemma reported_found l i : find_bit bit l = Some i -> reported l = i /\ 0 <= i < zlen l.
Proof. intros E. unfold reported. rewrite E. split; [done |]. by destruct (find_bit_range _ _ _ E). Qed.

Lemma reported_test l : 0 < zlen l -> negb (reported l =? -1) && negb (reported l =? zlen l) = bool_decide (is_Some (find_bit bit l)).
Proof.
  intros Hl. unfold reported. destruct (find_bit bit l) as [i |] eqn:E.
  - apply find_bit_range in E as (Hi & _). rewrite bool_decide_true by done. boolp; done || lia.
  - rewrite bool_decide_false by (by intros []). destruct bit; [done |]. rewrite Z.eqb_refl. apply andb_false_r.
Qed.

(** The end of the command: [pos] in the [bytes] bytes from [start]. *)
Definition bitpos_answer (pos start bytes : Z) : Z :=
  if end_given && (Z.b2z bit =? 0) && (pos =? Z.shiftl bytes 3) then -1
  else if negb (pos =? -1) then pos + Z.shiftl start 3 else pos.

(** The answer for what has been reported in the remaining bytes, of which [k]
    bits do not count. *)
Lemma answer_spec l start bytes (lo : Z) (X : list bool) : 0 < zlen l -> zlen l = 8 * bytes -> 0 <= start ->
  (Z.add (8 * start) <$> find_bit bit l) = Z.add lo <$> find_bit bit X ->
  bitpos_answer (reported l) start bytes =
  match find_bit bit X with Some i => lo + i | None => if bit || end_given then -1 else 8 * (start + bytes) end.
Proof.
  intros Hl Hb Hs E. unfold bitpos_answer. rewrite !Z.shiftl_mul_pow2 by lia. change (2 ^ 3) with 8.
  destruct (find_bit bit l) as [i |] eqn:Ei, (find_bit bit X) as [j |]; cbn [fmap option_fmap option_map] in E; try discriminate E.
  - injection E as E. destruct (reported_found l i Ei) as [-> Hi]. rewrite <- E.
    rewrite (proj2 (Z.eqb_neq i (bytes * 8))), andb_false_r, (proj2 (Z.eqb_neq i (-1))) by lia. cbn [negb]. lia.
  - unfold reported. rewrite Ei. destruct bit; cbn [Z.b2z Z.eqb Pos.eqb andb orb negb]; [by rewrite andb_false_r |].
    rewrite andb_true_r, (proj2 (Z.eqb_eq (zlen l) (bytes * 8))), andb_true_r by lia.
    destruct end_given; [done |]. rewrite (proj2 (Z.eqb_neq (zlen l) (-1))) by lia. cbn [negb]. lia.
Qed.

(** The whole bytes and the last byte. *)
Lemma bitpos_tail s e b : 0 <= s <= e -> e < zlen p -> 0 <= b < 8 -> end_given = true \/ b = 0 ->
  ('(found, start, bytes) ← bitpos_whole addr p (Z.b2z bit) s (e - s + 1) (right_mask b);
   pos ← (match found with
     | Some pos => Some pos
     | None => l ← rd p e; redisBitpos stack [mask_out (Z.b2z bit) l (right_mask b)] 1 (Z.b2z bit)
     end);
   Some (bitpos_answer pos start bytes)) =
  Some (match find_bit bit (slice (8 * s) (8 * e + 8 - b) (bits_of p)) with
        | Some i => 8 * s + i | None => if bit || end_given then -1 else 8 * (e + 1) end).
Proof.
  intros Hse He Hb Hend. unfold bitpos_whole.
  destruct (slice_byte p e 0 b) as (l & El & Hl & Sl); [lia | lia | lia | lia |]. specialize (Hl Hp). rewrite Z.add_0_r, drop_0, Z.sub_0_r in Sl.
  destruct (masks_spec l b Hl Hb) as (_ & _ & _ & _ & _ & Zb & Hmask). destruct (Hmask bit) as (_ & Bm & _ & Em). clear Hmask.
  rewrite Zb, El.
  (* the last byte alone, from [start] on *)
  assert (0 < b -> forall k Y, 0 <= k -> (8 * s + k = 8 * e) -> slice (8 * s) (8 * e + 8 - b) (bits_of p) = Y ++ take (Z.to_nat (8 - b)) (byte_msb l) ->
    zlen Y = k -> find_bit bit Y = None ->
    (pos ← redisBitpos stack [mask_out (Z.b2z bit) l (right_mask b)] 1 (Z.b2z bit); Some (bitpos_answer pos e 1)) =
    Some (match find_bit bit (slice (8 * s) (8 * e + 8 - b) (bits_of p)) with
        | Some i => 8 * s + i | None => if bit || end_given then -1 else 8 * (e + 1) end)) as Hlast.
  { intros Hb0 k Y Hk Hse' -> HY Hn. rewrite redisBitpos_byte by done. cbn [mbind option_bind].
    rewrite (answer_spec _ e 1 (8 * s) (Y ++ take (Z.to_nat (8 - b)) (byte_msb l))); rewrite ?zlen_byte_msb; [done | lia | lia | lia |].
    rewrite Em, find_bit_pad, find_bit_app, Hn, HY.
    destruct (find_bit bit (take _ _)) as [i |]; cbn [fmap option_fmap option_map]; [f_equal; lia | done]. }
  destruct (Z.eqb_spec b 0) as [-> | Hb0]; cbn [negb].
  - (* no mask on the right *)
    rewrite Z.sub_0_r, (proj2 (Z.ltb_lt 0 (e - s + 1))) by lia.
    destruct (slice_bytes p s (e - s + 1)) as (m & rest & Ed & Hm & Hbm & Sm); [lia | lia | lia |].
    replace (s + (e - s + 1)) with (e + 1) in Sm by lia. replace (8 * e + 8 - 0) with (8 * (e + 1)) by lia. rewrite Sm, Ed.
    pose proof (redisBitpos_spec (addr + s) m rest (Hbm Hp) bit) as E. rewrite Hm in E at 1. rewrite E, Z.eqb_refl. cbn [orb mbind option_bind].
    pose proof (zlen_bits_of m) as Hz. rewrite <- Hz. fold (reported (bits_of m)). f_equal.
    rewrite (answer_spec _ s (e - s + 1) (8 * s) (bits_of m)); [| lia | lia | lia | done].
    replace (s + (e - s + 1)) with (e + 1) by lia. done.
  - destruct (Z.ltb_spec 0 (e - s + 1 - 1)) as [Hc |].
    + destruct (slice_bytes p s (e - s)) as (m & rest & Ed & Hm & Hbm & Sm); [lia | lia | lia |].
      replace (s + (e - s)) with e in Sm by lia. replace (e - s + 1 - 1) with (e - s) by lia. rewrite Ed.
      pose proof (redisBitpos_spec (addr + s) m rest (Hbm Hp) bit) as E. rewrite Hm in E at 1. rewrite E. cbn [mbind option_bind].
      pose proof (zlen_bits_of m) as Hz. rewrite <- Hz. fold (reported (bits_of m)).
      rewrite (proj2 (Z.eqb_neq (e - s + 1) (e - s))) by lia. cbn [orb].
      rewrite Z.shiftl_mul_pow2 by lia. change (2 ^ 3) with 8.
      replace ((e - s) * 8) with (zlen (bits_of m)) by lia. rewrite reported_test by lia.
      assert (slice (8 * s) (8 * e + 8 - b) (bits_of p) = bits_of m ++ take (Z.to_nat (8 - b)) (byte_msb l)) as Esl.
      { rewrite (slice_split (8 * s) (8 * e)) by lia. by rewrite Sm, Sl. }
      destruct (find_bit bit (bits_of m)) as [i |] eqn:Ei.
      * rewrite bool_decide_true by done. cbn [mbind option_bind]. f_equal.
        destruct (reported_found (bits_of m) i Ei) as [-> Hi]. rewrite Esl, find_bit_app, Ei. unfold bitpos_answer.
        rewrite !Z.shiftl_mul_pow2 by lia. change (2 ^ 3) with 8.
        rewrite (proj2 (Z.eqb_neq i ((e - s + 1) * 8))), andb_false_r, (proj2 (Z.eqb_neq i (-1))) by lia. cbn [negb]. lia.
      * rewrite bool_decide_false by (by intros []). replace (s + (e - s)) with e by lia. replace (e - s + 1 - (e - s)) with 1 by lia.
        apply (Hlast ltac:(lia) (zlen (bits_of m)) (bits_of m)); done || lia.
    + assert (e = s) as -> by lia. cbn [mbind option_bind]. replace (s - s + 1) with 1 by lia.
      apply (Hlast ltac:(lia) 0 []); [lia | lia | by rewrite Sl | done | done].
Qed.

Lemma bitpos_pos_spec s e a b : 0 <= s <= e -> e < zlen p -> 0 <= a < 8 -> 0 <= b < 8 -> 8 * s + a < 8 * e + 8 - b ->
  end_given = true \/ (a = 0 /\ b = 0) ->
  bitpos_pos addr stack p (Z.b2z bit) (s, e, left_mask a, right_mask b, end_given) =
  Some (match find_bit bit (slice (8 * s + a) (8 * e + 8 - b) (bits_of p)) with
        | Some i => 8 * s + a + i | None => if bit || end_given then -1 else 8 * (e + 1) end).
Proof.
  intros Hse He Ha Hb Hlt Hend. unfold bitpos_pos, bitpos_first. rewrite (proj2 (Z.ltb_ge e s)) by lia.
  destruct (slice_byte p s 0 0) as (f & Ef & Hf & _); [lia | lia | lia | lia |]. specialize (Hf Hp).
  destruct (masks_spec f a Hf Ha) as (_ & _ & _ & _ & Za & _ & Hmask). destruct (Hmask bit) as (Bf & _ & Emf & _). clear Hmask.
  rewrite Za. destruct (Z.eqb_spec a 0) as [-> | Ha0]; cbn [negb].
  - cbn [mbind option_bind]. rewrite Z.add_0_r. apply bitpos_tail; try lia. tauto.
  - destruct Hend as [Hend | [? _]]; [| lia]. rewrite Ef. cbn [mbind option_bind].
    destruct (masks_spec f b Hf Hb) as (_ & _ & _ & _ & _ & Zb & _). rewrite Zb.
    destruct (Z.eqb_spec (e - s + 1) 1) as [E1 | E1]; cbn [orb andb].
    + (* one byte *)
      assert (e = s) as -> by lia. rewrite andb_true_r.
      destruct (slice_byte p s a b) as (f' & Ef' & _ & Sf); [lia | lia | lia | lia |]. rewrite Ef in Ef'. injection Ef' as <-.
      set (t := if negb (b =? 0) then _ else _).
      assert (byte t /\ byte_msb t = replicate (Z.to_nat a) (negb bit) ++ slice (8 * s + a) (8 * s + 8 - b) (bits_of p) ++ replicate (Z.to_nat b) (negb bit)) as [Bt Et].
      { unfold t. rewrite Sf. destruct (Z.eqb_spec b 0) as [-> | Hb0]; cbn [negb].
        - split; [done |]. rewrite Emf, app_nil_r, take_ge; [done |]. rewrite length_drop, length_byte_msb. lia.
        - destruct (masks_spec _ b Bf Hb) as (_ & _ & _ & _ & _ & _ & Hm). destruct (Hm bit) as (_ & B2 & _ & E2). split; [done |].
          rewrite E2, Emf, take_app, length_replicate, app_assoc. f_equal. f_equal; [rewrite take_replicate; f_equal; lia | f_equal; lia]. }
      rewrite redisBitpos_byte by done. cbn [mbind option_bind]. f_equal. fold (bitpos_answer (reported (byte_msb t)) s (s - s + 1)).
      rewrite (answer_spec _ s (s - s + 1) (8 * s + a) (slice (8 * s + a) (8 * s + 8 - b) (bits_of p))); rewrite ?zlen_byte_msb; [| lia | lia | lia |].
      * replace (s + (s - s + 1)) with (s + 1) by lia. done.
      * rewrite Et, find_bit_skip, find_bit_pad. destruct (find_bit bit _); cbn [fmap option_fmap option_map]; [f_equal; lia | done].
    + (* the first of several *)
      rewrite andb_false_r. rewrite redisBitpos_byte by done. cbn [mbind option_bind].
      change 8 with (zlen (byte_msb (mask_out (Z.b2z bit) f (left_mask a)))) at 1. rewrite reported_test by (rewrite zlen_byte_msb; lia).
      destruct (slice_byte p s a 0) as (f' & Ef' & _ & Sf); [lia | lia | lia | lia |]. rewrite Ef in Ef'. injection Ef' as <-.
      rewrite (take_ge (drop _ _)) in Sf by (rewrite length_drop, length_byte_msb; lia).
      assert (zlen (drop (Z.to_nat a) (byte_msb f)) = 8 - a) as Hzd by (unfold zlen; rewrite length_drop, length_byte_msb; lia).
      rewrite Emf, find_bit_skip.
      assert (slice (8 * s + a) (8 * e + 8 - b) (bits_of p) = drop (Z.to_nat a) (byte_msb f) ++ slice (8 * (s + 1)) (8 * e + 8 - b) (bits_of p)) as Esl.
      { rewrite (slice_split (8 * s + a) (8 * (s + 1))) by lia. rewrite <- Sf. do 2 f_equal. lia. }
      rewrite Esl, find_bit_app. destruct (find_bit bit (drop _ _)) as [i |] eqn:Ei; cbn [fmap option_fmap option_map].
      * rewrite bool_decide_true by done. cbn [mbind option_bind]. f_equal.
        assert (reported (replicate (Z.to_nat a) (negb bit) ++ drop (Z.to_nat a) (byte_msb f)) = a + i) as Er.
        { unfold reported. rewrite find_bit_skip, Ei. cbn [fmap option_fmap option_map]. lia. }
        rewrite Er. apply find_bit_range in Ei as (Hi & _). rewrite !Z.shiftl_mul_pow2 by lia. change (2 ^ 3) with 8.
        rewrite (proj2 (Z.eqb_neq (a + i) ((e - s + 1) * 8))), andb_false_r, (proj2 (Z.eqb_neq (a + i) (-1))) by lia. cbn [negb]. lia.
      * rewrite bool_decide_false by (by intros []). cbn [mbind option_bind].
        pose proof (bitpos_tail (s + 1) e b ltac:(lia) He Hb (or_introl Hend)) as Htail.
        replace (e - (s + 1) + 1) with (e - s + 1 - 1) in Htail by lia. unfold bitpos_answer in Htail. rewrite Htail. f_equal.
        destruct (find_bit bit (slice _ _ _)); cbn [fmap option_fmap option_map]; [lia | done].
Qed.

Lemma bitpos_clip isbit start end_ : end_given = true \/ isbit = false ->
  bitpos_pos addr stack p (Z.b2z bit) (clip_range isbit start end_ (if isbit : bool then 8 * zlen p else zlen p), end_given) =
  Some (let '(lo, hi) := bit_range isbit start end_ (zlen p) in pos_in p bit end_given lo hi).
Proof.
  intros Hend. pose proof (clip_range_spec isbit start end_ (zlen p) (zlen_nonneg p)) as Hc.
  assert (isbit = false -> let '(s, e, lm, rm) := clip_range isbit start end_ (if isbit : bool then 8 * zlen p else zlen p) in lm = 0 /\ rm = 0) as Hmask
    by (by intros ->).
  destruct (bit_range _ _ _ _) as [lo hi], (clip_range _ _ _ _) as [[[s e] lm] rm]. destruct Hc as (Hlo & Hhi & Hlt & Hge). unfold pos_in.
  destruct (Z.lt_ge_cases lo hi) as [H1 | H1].
  - destruct (Hlt H1) as (a & b & Ha & Hb & -> & -> & Hse & He & -> & ->).
    assert (end_given = true \/ (a = 0 /\ b = 0)) as Hab.
    { destruct Hend as [| Hend]; [by left | right]. destruct (Hmask Hend) as [Hl Hr].
      destruct (masks_spec 0 a ltac:(by unfold byte) Ha) as (_ & _ & _ & _ & Za & _ & _).
      destruct (masks_spec 0 b ltac:(by unfold byte) Hb) as (_ & _ & _ & _ & _ & Zb & _). rewrite Hl in Za. rewrite Hr in Zb.
      symmetry in Za, Zb. by apply Z.eqb_eq in Za, Zb. }
    rewrite bitpos_pos_spec by done. rewrite (proj2 (Z.leb_gt (8 * e + 8 - b) (8 * s + a))), orb_false_r by lia.
    destruct (find_bit bit _); [done |]. destruct Hab as [-> | [-> ->]]; [by rewrite orb_true_r | destruct (bit || end_given); f_equal; lia].
  - rewrite slice_empty by done. cbn [find_bit]. rewrite (proj2 (Z.leb_le hi lo)), orb_true_r by done.
    unfold bitpos_pos. by rewrite (proj2 (Z.ltb_lt e s)) by auto.
Qed.
End search.

(** The optional arguments: the indexes, the unit and whether an end is
    given. *)
Inductive bitpos_args (len : Z) : list (list Z) -> Z -> Z -> bool -> bool -> Prop :=
| args_none : bitpos_args len [] 0 (len - 1) false false
| args_start a start : string2ll a = Some start -> bitpos_args len [a] start (len - 1) false false
| args_end a a' start end_ rest isbit : string2ll a = Some start -> string2ll a' = Some end_ -> unit_arg rest isbit ->
    bitpos_args len (a :: a' :: rest) start end_ isbit true.

(** C28: BITPOS answers the position of the first bit with the given value in
    the string, or in the range of bytes or bits between the indexes,
    normalised as for BITCOUNT; -1 when there is none, except that a search for
    a clear bit without an explicit end finds the first position after a
    non-empty range.  A key that does not exist is an endless string of clear
    bits.  A bit that is neither 0 nor 1, indexes that are not integers, a
    wrong unit, too many arguments and another type of value are errors.  The
    state is otherwise left alone, and nothing is read outside the string. *)
Theorem bitposCommand_correct `{Host} addr stack llbuf s cmd key b : zlen llbuf = LONG_STR_SIZE -> srv_ok s ->
  let run args := bitposCommand addr stack llbuf (cmd :: key :: b :: args) s in
  let t := text_at s key in
  (forall bit, string2ll b = Some (Z.b2z bit) ->
    (db s !! key = None -> forall args, run args = Some (addReply (RInt (if bit then -1 else 0)) s)) /\
    (db s !! key = Some VOther -> forall args, run args = Some (addReplyError wrongtypeerr s)) /\
    (db s !! key <> None -> is_string (db s !! key) ->
      (forall args start end_ isbit end_given, bitpos_args (zlen t) args start end_ isbit end_given ->
         run args = Some (addReply (RInt (let '(lo, hi) := bit_range isbit start end_ (zlen t) in pos_in t bit end_given lo hi)) s)) /\
      (forall a args, zlen args <= 2 -> string2ll a = None -> exists msg, run (a :: args) = Some (addReplyError msg s)) /\
      (forall a a' rest, zlen rest <= 1 -> string2ll a' = None -> exists msg, run (a :: a' :: rest) = Some (addReplyError msg s)) /\
      (forall a a' u, range_unit u = None -> exists msg, run [a; a'; u] = Some (addReplyError msg s)) /\
      (forall args, 3 < zlen args -> run args = Some (addReplyError syntaxerr s)))) /\
  ((forall bit, string2ll b <> Some (Z.b2z bit)) -> forall args, exists msg, run args = Some (addReplyError msg s)).
Proof.
  intros Hll Hok. cbn zeta. unfold bitposCommand. cbn [lookup list_lookup mbind option_bind].
  split.
  2: { intros Hb args. unfold getLongFromObjectOrReply, getLongLongFromObjectOrReply. destruct (string2ll b) as [v |]; [| by eexists].
       destruct (_ || _); [by eexists |]. destruct (Z.eqb_spec v 0) as [-> |]; [by destruct (Hb false) |].
       destruct (Z.eqb_spec v 1) as [-> |]; [by destruct (Hb true) |]. by eexists. }
  intros bit Hbit.
  assert (getLongFromObjectOrReply b None s = (s, Some (Z.b2z bit))) as ->.
  { unfold getLongFromObjectOrReply, getLongLongFromObjectOrReply. rewrite Hbit. by destruct bit. }
  replace (negb (Z.b2z bit =? 0) && negb (Z.b2z bit =? 1)) with false by (by destruct bit).
  split; [intros -> ?; by destruct bit |]. split; [by intros -> |]. intros Hk Hs.
  destruct (text_at_ok s key Hok) as [Hb Hlen].
  assert (forall n, db s !! key = Some (VInt n) -> is_i64 n) as Hi by (intros n; by apply srv_ok_int).
  rewrite (getObjectReadOnlyString_spec llbuf Hll (db s !! key) Hi Hs), checkType_string by done.
  fold (text_at s key). unfold MAXLEN in Hlen. generalize dependent (text_at s key). intros t Hb Hlen.
  destruct (db s !! key) as [v |]; [clear Hk v Hs Hi | done]. cbn [mbind option_bind].
  pose proof (proj2 (Z.leb_le _ _) Hlen) as Hle. unfold bitpos_range.
  assert (forall args, zlen args <= 3 -> args <> [] ->
    (zlen (cmd :: key :: b :: args) =? 4) || (zlen (cmd :: key :: b :: args) =? 5) || (zlen (cmd :: key :: b :: args) =? 6) = true) as Hargs.
  { intros args Ha Hne. rewrite !zlen_cons. assert (1 <= zlen args) by (destruct args; [done |]; rewrite zlen_cons; pose proof (zlen_nonneg args); lia).
    boolp; done || lia. }
  split_and!.
  - intros args start end_ isbit end_given Ha. pose proof (bitpos_clip addr stack t Hb bit) as Hclip.
    destruct Ha as [| a start E | a a' start end_ rest isbit E E' Hu].
    + specialize (Hclip false false 0 (zlen t - 1) (or_intror eq_refl)). change (zlen [cmd; key; b]) with 3. cbn [Z.eqb Pos.eqb orb mbind option_bind].
      cbv iota in Hclip.
      replace (clip_range false 0 (zlen t - 1) (zlen t)) with (0, zlen t - 1, 0, 0) in Hclip; [by rewrite Hclip |].
      unfold clip_range. cbn [Z.ltb Z.compare andb]. pose proof (zlen_nonneg t).
      destruct (Z.eq_dec (zlen t) 0) as [-> |]; [done |].
      rewrite (proj2 (Z.ltb_ge (zlen t - 1) 0)), (proj2 (Z.ltb_ge (zlen t - 1) 0)), (proj2 (Z.leb_gt (zlen t) (zlen t - 1))) by lia. done.
    + specialize (Hclip false false start (zlen t - 1) (or_intror eq_refl)). rewrite Hargs by done.
      change (zlen [cmd; key; b; a]) with 4. cbn [Z.eqb Pos.eqb Z.leb Z.compare Pos.compare Pos.compare_cont lookup list_lookup mbind option_bind].
      rewrite Hle. cbn [negb]. unfold getLongLongFromObjectOrReply. rewrite E. cbn [mbind option_bind]. by rewrite Hclip.
    + specialize (Hclip true isbit start end_ (or_introl eq_refl)). destruct Hu as [| u isbit Eu].
      * rewrite Hargs by done. change (zlen [cmd; key; b; a; a']) with 5.
        cbn [Z.eqb Pos.eqb Z.leb Z.compare Pos.compare Pos.compare_cont lookup list_lookup mbind option_bind].
        rewrite Hle. cbn [negb]. unfold getLongLongFromObjectOrReply. rewrite E. cbn [mbind option_bind]. rewrite E'. cbn [mbind option_bind]. by rewrite Hclip.
      * rewrite Hargs by done. change (zlen [cmd; key; b; a; a'; u]) with 6.
        cbn [Z.eqb Pos.eqb Z.leb Z.compare Pos.compare Pos.compare_cont lookup list_lookup mbind option_bind].
        rewrite Hle. cbn [negb]. unfold getLongLongFromObjectOrReply. rewrite E, Eu. cbn [mbind option_bind]. rewrite E'. cbn [mbind option_bind]. by rewrite units, Hclip.
  - intros a args Ha E. rewrite Hargs by (rewrite ?zlen_cons; done || lia). cbn [lookup list_lookup mbind option_bind].
    rewrite Hle. cbn [negb]. unfold getLongLongFromObjectOrReply. rewrite E. by eexists.
  - intros a a' rest Ha E. rewrite Hargs by (rewrite ?zlen_cons; done || lia). cbn [lookup list_lookup mbind option_bind].
    rewrite Hle. cbn [negb]. unfold getLongLongFromObjectOrReply. destruct (string2ll a); [| by eexists].
    rewrite (proj2 (Z.leb_le 5 _)) by (rewrite !zlen_cons; pose proof (zlen_nonneg rest); lia). rewrite E.
    destruct rest as [| u [| u2 rest]]; [| | rewrite !zlen_cons in Ha; pose proof (zlen_nonneg rest); lia].
    + cbn. by eexists.
    + change (zlen [cmd; key; b; a; a'; u]) with 6. cbn [Z.eqb Pos.eqb lookup list_lookup mbind option_bind].
      destruct (range_unit u); cbn [mbind option_bind]; by eexists.
  - intros a a' u Eu. rewrite Hargs by done. change (zlen [cmd; key; b; a; a'; u]) with 6. cbn [Z.eqb Pos.eqb lookup list_lookup mbind option_bind].
    rewrite Hle. cbn [negb]. unfold getLongLongFromObjectOrReply. destruct (string2ll a); [| by eexists].
    rewrite Eu. cbn [mbind option_bind]. by eexists.
  - intros args Ha. rewrite !zlen_cons.
    rewrite (proj2 (Z.eqb_neq _ 4)), (proj2 (Z.eqb_neq _ 5)), (proj2 (Z.eqb_neq _ 6)), (proj2 (Z.eqb_neq _ 3)) by lia. done.
Qed.

Lemma bitposCommand_correct_witness :
  bitposCommand (H := true) 4099 1 (replicate 21 0) (map chars ["bitpos"; "k"; "1"; "-20"; "-2"; "BIT"]) (Srv {[chars "k" := VRaw ([0; 255] ++ chars "foo")]} 0 [] [])
  = Some (Srv {[chars "k" := VRaw ([0; 255] ++ chars "foo")]} 0 [] [RInt 21]) /\
  bitposCommand (H := true) 4099 1 (replicate 21 0) (map chars ["bitpos"; "k"; "0"; "-1"]) (Srv {[chars "k" := VRaw [0; 255]]} 0 [] [])
  = Some (Srv {[chars "k" := VRaw [0; 255]]} 0 [] [RInt 16]).
Proof.
  split.
  - destruct (bitposCommand_correct (H := true) 4099 1 (replicate 21 0) (Srv {[chars "k" := VRaw ([0; 255] ++ chars "foo")]} 0 [] [])
      (chars "bitpos") (chars "k") (chars "1") eq_refl) as (Hr & _).
    { intros k v E. cbn [db] in E. apply lookup_singleton_Some in E as [_ <-]. split; [| vm_compute; discriminate].
      apply Forall_app_2; [| apply chars_bytes]. repeat apply Forall_cons_2; [vm_compute; split; [discriminate | reflexivity].. | apply Forall_nil_2]. }
    destruct (Hr true eq_refl) as (_ & _ & Hs). destruct Hs as (Hpos & _); [discriminate | discriminate |].
    etransitivity; [exact (Hpos _ _ _ _ _ (args_end 5 (chars "-20") (chars "-2") (-20) (-2) [chars "BIT"] true eq_refl eq_refl (unit_given (chars "BIT") true eq_refl))) |].
    vm_compute. reflexivity.
  - destruct (bitposCommand_correct (H := true) 4099 1 (replicate 21 0) (Srv {[chars "k" := VRaw [0; 255]]} 0 [] [])
      (chars "bitpos") (chars "k") (chars "0") eq_refl) as (Hr & _).
    { intros k v E. cbn [db] in E. apply lookup_singleton_Some in E as [_ <-]. split; [| vm_compute; discriminate].
      repeat apply Forall_cons_2; [vm_compute; split; [discriminate | reflexivity].. | apply Forall_nil_2]. }
    destruct (Hr false eq_refl) as (_ & _ & Hs). destruct Hs as (Hpos & _); [discriminate | discriminate |].
    etransitivity; [exact (Hpos _ _ _ _ _ (args_start 2 (chars "-1") (-1) eq_refl)) |].
    vm_compute. reflexivity.
Defined.
