(* ===== verification/BitopThms.v ===== *)
(** BITOP: the operation on every byte of the sources, zero after their end,
    whether it is done by words or byte by byte. *)
From stdpp Require Import strings gmap.
From S2P Require Import Prelude Endian Strnum Server Bits Bitops BitopsThms BitfieldThms BitCmds BitCmdsThms.

(** * The operations on bytes and on words *)

#[export] Instance bitop_eq_dec : EqDecision bitop.
Proof. solve_decision. Defined.

Definition op_bool (op : bitop) : bool -> bool -> bool :=
  match op with BITOP_AND => andb | BITOP_OR => orb | BITOP_XOR => xorb | BITOP_NOT => fun a _ => a end.

Lemma testbit_op op a b i : 0 <= i -> Z.testbit (bitop_fun op a b) i = op_bool op (Z.testbit a i) (Z.testbit b i).
Proof. intros Hi. destruct op; cbn [bitop_fun op_bool]; by bit_rw. Qed.

Lemma op_bool_false op : op_bool op false false = false.
Proof. by destruct op. Qed.

Lemma op_mod op a b n : 0 <= n -> bitop_fun op a b mod 2 ^ n = bitop_fun op (a mod 2 ^ n) (b mod 2 ^ n).
Proof.
  intros Hn. apply Z.bits_inj'. intros i Hi. rewrite testbit_mod2, !testbit_op, !testbit_mod2 by done.
  destruct (i <? n); cbn [andb]; [done | by rewrite op_bool_false].
Qed.

Lemma op_byte op a b : byte a -> byte b -> byte (bitop_fun op a b).
Proof.
  intros Ha Hb. unfold byte in *. rewrite <- (Z.mod_small a (2 ^ 8)), <- (Z.mod_small b (2 ^ 8)), <- op_mod by lia.
  apply Z.mod_pos_bound. lia.
Qed.

Lemma testbit_cons v w i : byte v -> 0 <= i ->
  Z.testbit (le_dec (v :: w)) i = if i <? 8 then Z.testbit v i else Z.testbit (le_dec w) (i - 8).
Proof.
  intros Hv Hi. rewrite le_dec_cons_lxor, Z.lxor_spec, testbit_shiftl by done. destruct (Z.ltb_spec i 8).
  - rewrite (Z.testbit_neg_r _ (i - 8)) by lia. apply xorb_false_r.
  - rewrite (testbit_above v 8); [apply xorb_false_l | unfold byte in Hv; lia | done].
Qed.

Lemma le_dec_zip op a b : bytes a -> bytes b -> length a = length b ->
  le_dec (zip_with (bitop_fun op) a b) = bitop_fun op (le_dec a) (le_dec b).
Proof.
  revert b. induction a as [| x a IH]; intros [| y b] Ha Hb Hl; try discriminate Hl.
  - cbn [zip_with le_dec]. by destruct op.
  - apply Forall_cons in Ha as [Hx Ha]. apply Forall_cons in Hb as [Hy Hb]. cbn [zip_with].
    apply Z.bits_inj'. intros i Hi. rewrite testbit_op, !testbit_cons by (try apply op_byte; done).
    destruct (Z.ltb_spec i 8); [by apply testbit_op |]. rewrite IH by (done || (injection Hl; done)). apply testbit_op. lia.
Qed.

Lemma zip_bytes op a b : bytes a -> bytes b -> bytes (zip_with (bitop_fun op) a b).
Proof.
  revert b. induction a as [| x a IH]; intros [| y b] Ha Hb; try apply Forall_nil_2.
  apply Forall_cons in Ha as [Hx Ha]. apply Forall_cons in Hb as [Hy Hb]. cbn [zip_with].
  apply Forall_cons_2; [by apply op_byte | by apply IH].
Qed.

Lemma zip_with_rev {A} (f : A -> A -> A) a b : length a = length b -> zip_with f (rev a) (rev b) = rev (zip_with f a b).
Proof.
  revert b. induction a as [| x a IH]; intros [| y b] Hl; try discriminate Hl; [done |]. injection Hl as Hl.
  cbn [rev zip_with]. rewrite zip_with_app, IH by (rewrite ?length_rev; done). done.
Qed.

(** The complement of a byte. *)
Definition flip (x : Z) : Z := u8 (Z.lnot x).
Lemma flip_spec x : byte x -> flip x = 255 - x.
Proof. intros Hx. unfold flip, u8, Z.lnot, byte in *. symmetry. apply (Z.mod_unique_pos _ _ (-1)); lia. Qed.

Lemma flip_byte x : byte x -> byte (flip x).
Proof. intros Hx. rewrite flip_spec by done. unfold byte in *. lia. Qed.

Lemma flip_bytes a : bytes a -> bytes (map flip a).
Proof. intros Ha. induction Ha; [apply Forall_nil_2 |]. cbn [map]. apply Forall_cons_2; [by apply flip_byte | done]. Qed.

Lemma le_dec_flip a : bytes a -> le_dec (map flip a) = 256 ^ zlen a - 1 - le_dec a.
Proof.
  induction 1 as [| x a Hx Ha IH]; [done |]. cbn [map le_dec]. rewrite IH, flip_spec, zlen_cons, Z.pow_add_r by (done || lia || apply zlen_nonneg).
  lia.
Qed.

Section word.
Context `{Host}.

Lemma native_zip op a b : bytes a -> bytes b -> length a = 8%nat -> length b = 8%nat ->
  native_enc 8 (bitop_fun op (native_dec a) (native_dec b)) = zip_with (bitop_fun op) a b.
Proof.
  intros Ha Hb Hla Hlb. assert (length (zip_with (bitop_fun op) a b) = 8%nat) as Hz by (rewrite length_zip_with; lia).
  rewrite <- (native_enc_dec (zip_with (bitop_fun op) a b)), Hz by (by apply zip_bytes). f_equal.
  unfold native_dec. destruct big_endian; [| by rewrite le_dec_zip by (done || lia)].
  rewrite <- le_dec_zip by (rewrite ?length_rev; done || lia || (by apply Forall_rev)). by rewrite zip_with_rev by lia.
Qed.

Lemma native_flip a : bytes a -> length a = 8%nat -> native_enc 8 (u64 (Z.lnot (native_dec a))) = map flip a.
Proof.
  intros Ha Hla. assert (length (map flip a) = 8%nat) as Hz by (by rewrite length_map).
  rewrite <- (native_enc_dec (map flip a)), Hz by (by apply flip_bytes). f_equal.
  assert (forall l, bytes l -> length l = 8%nat -> u64 (Z.lnot (le_dec l)) = le_dec (map flip l)) as E.
  { intros l Hl Hl8. rewrite le_dec_flip by done. pose proof (le_dec_bound l Hl) as Hb. unfold zlen in *. rewrite Hl8 in *.
    change (256 ^ Z.of_nat 8) with 18446744073709551616 in *. unfold u64, Z.lnot. symmetry. apply (Z.mod_unique_pos _ _ (-1)); lia. }
  unfold native_dec. destruct big_endian; [| by apply E]. rewrite <- map_rev. apply E; [by apply Forall_rev | by rewrite length_rev].
Qed.
End word.

(** * Parts of the result *)

(** Byte [i] of a string, zero after its end. *)
Definition byte_at (l : list Z) (i : Z) : Z := default 0 (l !! Z.to_nat i).

Lemma byte_at_byte l i : bytes l -> byte (byte_at l i).
Proof.
  intros Hl. unfold byte_at. destruct (l !! Z.to_nat i) as [b |] eqn:E; cbn [default]; [| by unfold byte].
  by apply (Forall_lookup_1 _ _ _ _ Hl E).
Qed.

Lemma src_byte_spec t j : 0 <= j -> src_byte t j = Some (byte_at t j).
Proof.
  intros Hj. unfold src_byte, byte_at, rd. rewrite (proj2 (Z.leb_le 0 j)) by done. unfold zlen.
  destruct (Z.leb_spec (Z.of_nat (length t)) j) as [Hl | Hl].
  - by rewrite (proj2 (lookup_ge_None t (Z.to_nat j))) by lia.
  - destruct (lookup_lt_is_Some_2 t (Z.to_nat j)) as [b ->]; [lia | done].
Qed.

(** [res'] is [res] with [g] applied to the bytes from [lo] up to [hi]. *)
Definition updated (lo hi : Z) (g : Z -> Z -> Z) (res res' : list Z) : Prop :=
  bytes res' /\ zlen res' = zlen res /\
  forall i, 0 <= i -> byte_at res' i = if (lo <=? i) && (i <? hi) then g i (byte_at res i) else byte_at res i.

Lemma write_updated res p n w g : bytes res -> bytes w -> 0 <= p -> zlen w = n -> p + n <= zlen res ->
  (forall k, 0 <= k < n -> byte_at w k = g (p + k) (byte_at res (p + k))) ->
  exists res', wrn res p w = Some res' /\ updated p (p + n) g res res'.
Proof.
  intros Hr Hw Hp Hn Hl Hg. destruct (wrn_is_Some res p w Hp) as (res' & E); [lia |]. exists res'. split; [done |].
  split; [by apply (wrn_bytes res p w) |]. split; [by apply (wrn_length res p w) |]. intros i Hi.
  destruct (Z.leb_spec p i), (Z.ltb_spec i (p + n)); cbn [andb];
    try (unfold byte_at; rewrite (wrn_lookup_ne res p w res' i E Hi); [done | lia]).
  replace i with (p + (i - p)) by lia. rewrite <- Hg by lia.
  apply wrn_Some in E as (a & b & c & -> & Ha & Hb & ->). unfold byte_at.
  rewrite lookup_app_r by (unfold zlen in *; lia). rewrite lookup_app_l by (unfold zlen in *; lia). do 2 f_equal. unfold zlen in *. lia.
Qed.

Lemma byte_at_rdn m p n bs k : rdn m p n = Some bs -> 0 <= k < n -> byte_at bs k = byte_at m (p + k).
Proof.
  intros E Hk. apply rdn_Some in E as (a & c & -> & Ha & Hn). unfold byte_at.
  rewrite lookup_app_r by (unfold zlen in *; lia). rewrite lookup_app_l by (unfold zlen in *; lia). do 2 f_equal. unfold zlen in *. lia.
Qed.

Section loops.
Context `{Host}.

Lemma op_long_step op lp p res : bytes res -> bytes lp -> 0 <= p -> p + 8 <= zlen res -> p + 8 <= zlen lp ->
  exists res', op_long op lp p res = Some res' /\ updated p (p + 8) (fun i x => bitop_fun op x (byte_at lp i)) res res'.
Proof.
  intros Hr Hlp Hp H1 H2. unfold op_long.
  destruct (rdn_is_Some res p 8) as [a Ea]; [lia | lia | lia |]. destruct (rdn_is_Some lp p 8) as [b Eb]; [lia | lia | lia |].
  rewrite Ea, Eb. cbn [mbind option_bind]. pose proof (rdn_length _ _ _ _ Ea) as La. pose proof (rdn_length _ _ _ _ Eb) as Lb.
  unfold zlen in La, Lb. pose proof (rdn_bytes _ _ _ _ Hr Ea). pose proof (rdn_bytes _ _ _ _ Hlp Eb).
  rewrite native_zip by (done || lia). apply write_updated; [done | by apply zip_bytes | done | | lia |].
  - unfold zlen. rewrite length_zip_with. lia.
  - intros k Hk. rewrite <- (byte_at_rdn _ _ _ _ _ Ea Hk), <- (byte_at_rdn _ _ _ _ _ Eb Hk). unfold byte_at. rewrite lookup_zip_with.
    destruct (lookup_lt_is_Some_2 a (Z.to_nat k)) as [x ->]; [lia |]. destruct (lookup_lt_is_Some_2 b (Z.to_nat k)) as [y ->]; [lia |]. done.
Qed.

Lemma not_long_step p res : bytes res -> 0 <= p -> p + 8 <= zlen res ->
  exists res', not_long p res = Some res' /\ updated p (p + 8) (fun _ x => flip x) res res'.
Proof.
  intros Hr Hp H1. unfold not_long. destruct (rdn_is_Some res p 8) as [a Ea]; [lia | lia | lia |].
  rewrite Ea. cbn [mbind option_bind]. pose proof (rdn_length _ _ _ _ Ea) as La. unfold zlen in La. pose proof (rdn_bytes _ _ _ _ Hr Ea).
  rewrite native_flip by (done || lia). apply write_updated; [done | by apply flip_bytes | done | | lia |].
  - unfold zlen. rewrite length_map. lia.
  - intros k Hk. rewrite <- (byte_at_rdn _ _ _ _ _ Ea Hk). unfold byte_at. rewrite list_lookup_fmap.
    destruct (lookup_lt_is_Some_2 a (Z.to_nat k)) as [x ->]; [lia |]. done.
Qed.

Lemma updated_next lo mid hi g res res1 res2 : lo <= mid <= hi -> updated lo mid g res res1 -> updated mid hi g res1 res2 -> updated lo hi g res res2.
Proof.
  intros Hm (_ & Z1 & E1) (B2 & Z2 & E2). split; [done |]. split; [lia |]. intros i Hi. rewrite E2, E1 by done.
  destruct (Z.leb_spec mid i), (Z.ltb_spec i hi), (Z.leb_spec lo i), (Z.ltb_spec i mid); cbn [andb]; done || lia.
Qed.

(** The four words of a turn. *)
Lemma four_longs_step f g j res : bytes res ->
  (forall p res1, bytes res1 -> zlen res1 = zlen res -> j <= p -> p + 8 <= j + 32 -> exists res2, f p res1 = Some res2 /\ updated p (p + 8) g res1 res2) ->
  exists res', four_longs f j res = Some res' /\ updated j (j + 32) g res res'.
Proof.
  intros Hr Hf. unfold four_longs.
  destruct (Hf j res) as (r1 & -> & U1); [done | done | lia | lia |]. cbn [mbind option_bind].
  destruct (Hf (j + 8) r1) as (r2 & -> & U2); [apply U1 | apply U1 | lia | lia |]. cbn [mbind option_bind].
  assert (updated j (j + 16) g res r2) as U12.
  { replace (j + 8 + 8) with (j + 16) in U2 by lia. apply (updated_next _ (j + 8) _ _ _ r1); [lia | done | done]. }
  destruct (Hf (j + 16) r2) as (r3 & -> & U3); [apply U12 | apply U12 | lia | lia |]. cbn [mbind option_bind].
  assert (updated j (j + 24) g res r3) as U123.
  { replace (j + 16 + 8) with (j + 24) in U3 by lia. apply (updated_next _ (j + 16) _ _ _ r2); [lia | done | done]. }
  destruct (Hf (j + 24) r3) as (r4 & -> & U4); [apply U123 | apply U123 | lia | lia |]. exists r4. split; [done |].
  replace (j + 24 + 8) with (j + 32) in U4 by lia. apply (updated_next _ (j + 24) _ _ _ r3); [lia | done | done].
Qed.

(** One operation after the other on the same bytes. *)
Definition op_all (op : bitop) (lps : list (list Z)) (i x : Z) : Z := fold_left (fun x lp => bitop_fun op x (byte_at lp i)) lps x.

Lemma fold_longs op j lps : forall res, bytes res -> 0 <= j -> j + 32 <= zlen res ->
  Forall (fun lp => bytes lp /\ j + 32 <= zlen lp) lps ->
  exists res', fold_left (fun res lp => res ← res; four_longs (op_long op lp) j res) lps (Some res) = Some res' /\
    updated j (j + 32) (op_all op lps) res res'.
Proof.
  induction lps as [| lp lps IH]; intros res Hr Hj Hl Hf.
  - exists res. split; [done |]. split; [done |]. split; [done |]. intros i Hi. by destruct (_ && _).
  - apply Forall_cons in Hf as [[Hlp Hl'] Hf]. cbn [fold_left mbind option_bind].
    destruct (four_longs_step (op_long op lp) (fun i x => bitop_fun op x (byte_at lp i)) j res Hr) as (r1 & E & B1 & Z1 & U1).
    { intros p r Hbr Hzr Hp1 Hp2. apply op_long_step; done || lia. }
    rewrite E. destruct (IH r1 B1 Hj ltac:(lia) Hf) as (res' & E' & B' & Z' & U'). exists res'. split; [done |].
    split; [done |]. split; [lia |]. intros i Hi. rewrite U', U1 by done. by destruct (_ && _).
Qed.

(** * The byte of the result *)

Definition bitop_at (op : bitop) (ts : list (list Z)) (i : Z) : Z :=
  match ts with
  | [] => 0
  | t :: ts => op_all op ts i (match op with BITOP_NOT => flip (byte_at t i) | _ => byte_at t i end)
  end.

Lemma op_all_byte op ts i x : Forall bytes ts -> byte x -> byte (op_all op ts i x).
Proof.
  intros Hts. revert x. induction Hts as [| t ts Ht Hts IH]; intros x Hx; [done |].
  apply IH, op_byte; [done | by apply byte_at_byte].
Qed.

Lemma bitop_at_byte op ts i : Forall bytes ts -> byte (bitop_at op ts i).
Proof.
  intros Hts. destruct Hts as [| t ts Ht Hts]; [by unfold byte |]. apply op_all_byte; [done |].
  pose proof (byte_at_byte t i Ht). destruct op; try done. by apply flip_byte.
Qed.

(** Where the inner loop stops early nothing changes any more. *)
Lemma op_all_stop op ts i x : Forall bytes ts -> (op = BITOP_AND /\ x = 0) \/ (op = BITOP_OR /\ x = 255) -> op_all op ts i x = x.
Proof.
  intros Hts Hx. induction Hts as [| t ts Ht Hts IH]; [done |]. unfold op_all in *. cbn [fold_left].
  replace (bitop_fun op x (byte_at t i)) with x; [done |]. pose proof (byte_at_byte t i Ht) as Hb.
  destruct Hx as [[-> ->] | [-> ->]]; cbn [bitop_fun]; [by rewrite Z.land_0_l |].
  change 255 with (Z.ones 8). bits k.
  - done.
  - rewrite (testbit_above (byte_at t i) 8); [done | unfold byte in Hb; lia | done].
Qed.

Lemma bitop_byte_spec op ts j : Forall bytes ts -> 0 <= j -> forall x, bitop_byte op ts j x = Some (op_all op ts j x).
Proof.
  intros Hts Hj. induction Hts as [| t ts Ht Hts IH]; intros x; [done |]. cbn [bitop_byte].
  rewrite src_byte_spec by done. cbn [mbind option_bind]. change (op_all op (t :: ts) j x) with (op_all op ts j (bitop_fun op x (byte_at t j))).
  destruct op; [destruct (Z.eqb_spec (bitop_fun BITOP_AND x (byte_at t j)) 0) as [-> |] |
                destruct (Z.eqb_spec (bitop_fun BITOP_OR x (byte_at t j)) 0xff) as [-> |] | |]; try apply IH.
  - by rewrite op_all_stop by auto.
  - by rewrite op_all_stop by auto.
Qed.
End loops.

Section result.
Context `{Host}.
Context (op : bitop) (t : list Z) (ts : list (list Z)) (maxlen minlen : Z).
Context (Ht : bytes t) (Hts : Forall bytes ts) (Hnot : op = BITOP_NOT -> ts = []).
Context (Hmin : 0 <= minlen <= maxlen) (Hminlen : Forall (fun t => minlen <= zlen t) (t :: ts)).

(** [res], [j] and [minlen] in the fast path. *)
Definition fast_inv '((res, j, rem) : list Z * Z * Z) : Prop :=
  bytes res /\ zlen res = maxlen /\ 0 <= j /\ 0 <= rem /\ j + rem = minlen /\
  forall i, 0 <= i < minlen -> byte_at res i = if i <? j then bitop_at op (t :: ts) i else byte_at t i.

Lemma bitop_block_step st : fast_inv st -> (let '(_, _, rem) := st in 32 <= rem) ->
  exists st', bitop_block op (t :: ts) st = Some st' /\ fast_inv st' /\ (Z.to_nat (snd st') < Z.to_nat (snd st))%nat.
Proof.
  destruct st as [[res j] rem]. intros (Hb & Hz & Hj & Hl & Hjl & Hres) Hleft. unfold bitop_block. cbn [tail].
  assert (exists g res', updated j (j + 32) g res res' /\ (forall i, bitop_at op (t :: ts) i = g i (byte_at t i)) /\
    (match op with
     | BITOP_NOT => four_longs not_long j res
     | _ => fold_left (fun res lp => res ← res; four_longs (op_long op lp) j res) ts (Some res)
     end) = Some res') as (g & res' & U & Hg & E).
  { assert (Forall (fun lp => bytes lp /\ j + 32 <= zlen lp) ts) as Hlong.
    { apply Forall_cons in Hminlen as [_ Hm]. apply Forall_and. split; [done |]. eapply Forall_impl; [exact Hm |]. cbn beta. lia. }
    destruct (fold_longs op j ts res Hb Hj ltac:(lia) Hlong) as (res' & E & U).
    destruct op eqn:Eop; [exists (op_all BITOP_AND ts), res'; done | exists (op_all BITOP_OR ts), res'; done | exists (op_all BITOP_XOR ts), res'; done |].
    destruct (four_longs_step not_long (fun _ x => flip x) j res Hb) as (r & E' & U').
    { intros p r Hbr Hzr Hp1 Hp2. apply not_long_step; done || lia. }
    exists (fun _ x => flip x), r. split; [done |]. split; [| done]. intros i. cbn [bitop_at]. by rewrite (Hnot eq_refl). }
  rewrite E. cbn [mbind option_bind]. eexists; split; [done |]. cbn [snd]. split; [| lia].
  destruct U as (Ub & Uz & U). split; [done |]. split; [lia |]. split; [lia |]. split; [lia |]. split; [lia |]. intros i Hi.
  rewrite U, Hres by lia.
  destruct (Z.leb_spec j i), (Z.ltb_spec i (j + 32)), (Z.ltb_spec i j); cbn [andb]; done || lia || (symmetry; apply Hg).
Qed.

Lemma bitop_result_spec : exists res,
  bitop_result op (t :: ts) maxlen minlen = Some res /\ bytes res /\ zlen res = maxlen /\
  forall i, 0 <= i < maxlen -> byte_at res i = bitop_at op (t :: ts) i.
Proof.
  unfold bitop_result. change ((t :: ts) !! 0%nat) with (Some t). cbn [mbind option_bind tail].
  set (res0 := replicate (Z.to_nat maxlen) 0).
  assert (bytes res0 /\ zlen res0 = maxlen) as [Hb0 Hz0].
  { unfold res0. split; [apply Forall_replicate; by unfold byte | unfold zlen; rewrite length_replicate; lia]. }
  assert (exists res j rem, (if (8 * 4 <=? minlen) && (zlen (t :: ts) <=? 16) then
      c ← rdn t 0 minlen; res ← wrn res0 0 c;
      while_ (Z.to_nat minlen) (fun '(_, _, minlen) => 8 * 4 <=? minlen) (bitop_block op (t :: ts)) (res, 0, minlen)
      else Some (res0, 0, minlen)) = Some (res, j, rem) /\ bytes res /\ zlen res = maxlen /\ 0 <= j <= maxlen /\
      forall i, 0 <= i < j -> byte_at res i = bitop_at op (t :: ts) i) as (res & j & rem & -> & Hb & Hz & Hj & Hres).
  { destruct (_ && _); [| exists res0, 0, minlen; split_and!; done || lia].
    pose proof (Forall_inv Hminlen) as Hmt. cbn beta in Hmt. destruct (rdn_is_Some t 0 minlen) as [c Ec]; [lia | lia | lia |].
    rewrite Ec. cbn [mbind option_bind]. pose proof (rdn_length _ _ _ _ Ec) as Hc.
    destruct (write_updated res0 0 minlen c (fun i _ => byte_at t i)) as (res & -> & Ub & Uz & U); [done | by apply (rdn_bytes t 0 minlen) | done | done | lia | |].
    { intros k Hk. by apply (byte_at_rdn t 0 minlen). }
    cbn [mbind option_bind].
    destruct (while_inv fast_inv (fun st => Z.to_nat (snd st)) (fun '(_, _, minlen) => 8 * 4 <=? minlen) (bitop_block op (t :: ts))) with
      (fuel := Z.to_nat minlen) (s := (res, 0, minlen)) as ([[res' j] rem] & E & (Hb & Hz & Hj & Hl & Hjl & Hres) & Hgo).
    - intros [[r j] rem] Hst G. apply bitop_block_step; [done |]. apply Z.leb_le in G. lia.
    - split; [done |]. split; [lia |]. split; [lia |]. split; [lia |]. split; [lia |]. intros i Hi. rewrite U by lia.
      rewrite (proj2 (Z.leb_le 0 i)), (proj2 (Z.ltb_lt i (0 + minlen))), (proj2 (Z.ltb_ge i 0)) by lia. done.
    - done.
    - exists res', j, rem. split; [exact E |]. split; [done |]. split; [done |]. split; [lia |]. intros i Hi.
      rewrite Hres by lia. by rewrite (proj2 (Z.ltb_lt i j)) by lia. }
  cbn [mbind option_bind].
  edestruct (for_inv (fun k res => bytes res /\ zlen res = maxlen /\ forall i, 0 <= i < k -> byte_at res i = bitop_at op (t :: ts) i))
    with (n := Z.to_nat (maxlen - j)) (i := j) (s := res) as (res' & E & Hb' & Hz' & Hres'); [done | | exists res'; rewrite E; split; [done |]].
  - intros k r Hk (Hbr & Hzr & Hr). rewrite src_byte_spec by lia. cbn [mbind option_bind].
    fold (flip (byte_at t k)). rewrite bitop_byte_spec by (done || lia). cbn [mbind option_bind].
    change (op_all op ts k _) with (bitop_at op (t :: ts) k).
    destruct (write_updated r k 1 [bitop_at op (t :: ts) k] (fun i _ => bitop_at op (t :: ts) i)) as (r' & -> & Ub & Uz & U);
      [done | | lia | done | lia | |].
    { apply Forall_cons_2; [apply bitop_at_byte; by apply Forall_cons_2 | apply Forall_nil_2]. }
    { intros i Hi. replace i with 0 by lia. by rewrite Z.add_0_r. }
    exists r'. split; [done |]. split; [done |]. split; [lia |]. intros i Hi. rewrite U by lia.
    destruct (Z.leb_spec k i), (Z.ltb_spec i (k + 1)); cbn [andb]; done || (apply Hr; lia) || lia.
  - split; [done |]. split; [done |]. intros i Hi. apply Hres'. lia.
Qed.
End result.

(** * The bits of the result *)

(** The operation on the bits of the sources at one position. *)
Definition bitop_bit (op : bitop) (bs : list bool) : bool :=
  match op with
  | BITOP_AND => forallb id bs
  | BITOP_OR => existsb id bs
  | BITOP_XOR => foldr xorb false bs
  | BITOP_NOT => negb (default false (head bs))
  end.

Lemma bit_at_byte_at t i : 0 <= i -> bit_at t i = Z.testbit (byte_at t (Z.shiftr i 3)) (7 - Z.land i 7).
Proof.
  intros Hi. destruct (Z.lt_ge_cases i (8 * zlen t)) as [Hl | Hl].
  - destruct (bit_split t i) as (a & v & r & -> & Ha & Ei & Hk); [lia |]. unfold bit_at. rewrite Ei at 1. rewrite bits_of_at by done.
    cbn [default]. unfold byte_at. rewrite <- Ha. unfold zlen. rewrite Nat2Z.id, list_lookup_middle by done. done.
  - rewrite bit_at_past by done. unfold byte_at. rewrite (proj2 (lookup_ge_None _ _)); [symmetry; apply Z.bits_0 |].
    rewrite Z.shiftr_div_pow2 by lia. change (2 ^ 3) with 8. unfold zlen in Hl. assert (Z.of_nat (length t) <= i / 8) by dm. lia.
Qed.

Lemma testbit_op_all op ts i x k : 0 <= k ->
  Z.testbit (op_all op ts i x) k = fold_left (op_bool op) (map (fun t => Z.testbit (byte_at t i) k) ts) (Z.testbit x k).
Proof.
  intros Hk. revert x. induction ts as [| t ts IH]; intros x; [done |]. unfold op_all in *. cbn [fold_left map].
  by rewrite IH, testbit_op.
Qed.

Lemma fold_op_bool op b bs : op <> BITOP_NOT -> fold_left (op_bool op) bs b = bitop_bit op (b :: bs).
Proof.
  intros Hop. revert b. induction bs as [| b' bs IH]; intros b; [destruct op; [by destruct b.. | done] |].
  cbn [fold_left]. rewrite IH. destruct op; [| | | done]; cbn [op_bool bitop_bit forallb existsb foldr id];
    [by rewrite andb_assoc | by rewrite orb_assoc | by rewrite xorb_assoc].
Qed.

Lemma bitop_bits op t ts res i : bytes t -> (op = BITOP_NOT -> ts = []) -> 0 <= i < 8 * zlen res ->
  (forall j, 0 <= j < zlen res -> byte_at res j = bitop_at op (t :: ts) j) ->
  bit_at res i = bitop_bit op (map (fun t => bit_at t i) (t :: ts)).
Proof.
  intros Ht Hnot Hi Hres. rewrite bit_at_byte_at by lia.
  assert (0 <= Z.shiftr i 3 < zlen res) as Hj by (rewrite Z.shiftr_div_pow2 by lia; change (2 ^ 3) with 8; dm).
  assert (0 <= 7 - Z.land i 7 < 8) as Hk.
  { change 7 with (2 ^ 3 - 1). rewrite land_ones_mod by lia. pose proof (Z.mod_pos_bound i (2 ^ 3)). lia. }
  rewrite Hres by done. cbn [bitop_at map]. rewrite testbit_op_all by lia.
  assert (map (fun t => bit_at t i) ts = map (fun t => Z.testbit (byte_at t (Z.shiftr i 3)) (7 - Z.land i 7)) ts) as ->.
  { apply map_ext. intros u. apply bit_at_byte_at. lia. }
  rewrite (bit_at_byte_at t i) by lia. destruct (decide (op = BITOP_NOT)) as [-> | Hop].
  - rewrite (Hnot eq_refl). cbn [map fold_left bitop_bit head default]. unfold flip. bit_rw.
    by rewrite (proj2 (Z.ltb_lt _ 8)) by lia.
  - rewrite <- fold_op_bool by done. by destruct op.
Qed.

(** * The sources *)

Section command.
Context `{Host}.
Context (buf32 : list Z) (H32 : zlen buf32 = 32).

Definition longest (ts : list (list Z)) : Z := foldr (fun t => Z.max (zlen t)) 0 ts.

Lemma bitop_sources_ok s keys : srv_ok s -> Forall (fun key => is_string (db s !! key)) keys ->
  forall j src maxlen minlen, 0 <= j -> 0 <= minlen -> 0 <= maxlen -> exists minlen',
  let ts := map (text_at s) keys in
  bitop_sources buf32 keys j src maxlen minlen s = Some (s, Some (src ++ ts, Z.max maxlen (longest ts), minlen')) /\
  0 <= minlen' /\ (0 < j \/ keys = [] -> minlen' <= minlen) /\ Forall (fun t => minlen' <= zlen t) ts.
Proof.
  intros Hok Hkeys. induction Hkeys as [| key keys Hs Hkeys IH]; intros j src maxlen minlen Hj Hmin Hmax.
  - exists minlen. cbn zeta. cbn [map bitop_sources longest foldr]. rewrite app_nil_r, Z.max_l by lia. split_and!; done || lia || apply Forall_nil_2.
  - cbn [bitop_sources map].
    assert (exists maxlen1 minlen1, 0 <= minlen1 /\ maxlen1 = Z.max maxlen (zlen (text_at s key)) /\ minlen1 <= zlen (text_at s key) /\ (0 < j -> minlen1 <= minlen) /\
      (match db s !! key with
       | None => bitop_sources buf32 keys (j + 1) (src ++ [[]]) maxlen 0 s
       | Some _ =>
          let '(s1, wrong) := checkType (db s !! key) s in
          if (wrong : bool) then Some (s1, None)
          else
            p ← decoded buf32 (db s !! key);
            bitop_sources buf32 keys (j + 1) (src ++ [p]) (if maxlen <? zlen p then zlen p else maxlen)
              (if (j =? 0) || (zlen p <? minlen) then zlen p else minlen) s1
       end) = bitop_sources buf32 keys (j + 1) (src ++ [text_at s key]) maxlen1 minlen1 s) as (maxlen1 & minlen1 & H1 & -> & H2 & H3 & E0).
    { rewrite checkType_string by done. unfold text_at. destruct (db s !! key) as [v |] eqn:E; cbn [from_option].
      - rewrite decoded_spec; [| done | intros n ->; by apply (srv_ok_int s key) | done]. cbn [mbind option_bind].
        pose proof (zlen_nonneg (text v)). eexists _, _. split; [| split; [| split; [| split; [| reflexivity]]]].
        + destruct (_ || _); lia.
        + destruct (Z.ltb_spec maxlen (zlen (text v))); lia.
        + destruct (Z.eqb_spec j 0), (Z.ltb_spec (zlen (text v)) minlen); cbn [orb]; lia.
        + intros Hj0. rewrite (proj2 (Z.eqb_neq j 0)) by lia. destruct (Z.ltb_spec (zlen (text v)) minlen); cbn [orb]; lia.
      - exists maxlen, 0. rewrite (@zlen_nil Z). split_and!; done || lia. }
    destruct (IH (j + 1) (src ++ [text_at s key]) (Z.max maxlen (zlen (text_at s key))) minlen1) as (minlen' & E & H4 & H5 & H6); [lia | lia | lia |].
    exists minlen'. cbn zeta. split.
    { refine (eq_trans E0 _). rewrite E, <- app_assoc. cbn [app longest foldr]. fold (longest (map (text_at s) keys)). by rewrite Z.max_assoc. }
    split; [done |]. assert (minlen' <= minlen1) by (apply H5; lia). split; [intros [Hj0 | Hn]; [specialize (H3 Hj0); lia | done] |].
    apply Forall_cons_2; [lia | done].
Qed.

Lemma bitop_sources_wrong s key keys1 keys2 : srv_ok s -> Forall (fun key => is_string (db s !! key)) keys1 -> db s !! key = Some VOther ->
  forall j src maxlen minlen, bitop_sources buf32 (keys1 ++ key :: keys2) j src maxlen minlen s = Some (addReplyError wrongtypeerr s, None).
Proof.
  intros Hok Hkeys Hw. induction Hkeys as [| k keys1 Hs Hkeys IH]; intros j src maxlen minlen; cbn [app bitop_sources].
  - by rewrite Hw.
  - destruct (db s !! k) as [v |] eqn:E; [| apply IH].
    rewrite checkType_string by done. rewrite decoded_spec; [| done | intros n ->; by apply (srv_ok_int s k) | done]. apply IH.
Qed.

Lemma longest_le ts : 0 <= longest ts /\ Forall (fun t => zlen t <= longest ts) ts.
Proof.
  induction ts as [| t ts [IH1 IH2]]; [split; [done | apply Forall_nil_2] |]. cbn [longest foldr]. fold (longest ts).
  split; [lia |]. apply Forall_cons_2; [lia |]. eapply Forall_impl; [exact IH2 |]. cbn beta. lia.
Qed.

(** The key removed, when the result is empty. *)
Definition after_delete (key : list Z) (r : reply) (s : srv) : srv :=
  match db s !! key with
  | Some _ => Srv (delete key (db s)) (dirty s + 1) (modified s ++ [key]) (replies s ++ [r])
  | None => addReply r s
  end.

(** C26: BITOP stores at the target a string as long as the longest source,
    each bit of which is the operation on the bits of the sources at that
    position (a source that does not exist or is shorter has zeros there), and
    answers its length; when all sources are empty the target is removed.
    Nothing is read or written outside the strings, with the word loop or
    without, on hosts of either byte order.  An unknown operation, NOT with
    several sources, and a source of another type only send an error. *)
Theorem bitopCommand_correct s cmd name target key keys : srv_ok s ->
  let run := bitopCommand buf32 (cmd :: name :: target :: key :: keys) s in
  let ts := map (text_at s) (key :: keys) in
  match bitop_of name with
  | None => run = Some (addReplyError syntaxerr s)
  | Some op =>
      (op = BITOP_NOT /\ keys <> [] -> exists msg, run = Some (addReplyError msg s)) /\
      ((op = BITOP_NOT -> keys = []) ->
        (Forall (fun key => is_string (db s !! key)) (key :: keys) -> longest ts <> 0 ->
          exists res, run = Some (after target res 1 (RInt (zlen res)) s) /\ bytes res /\ zlen res = longest ts /\
            forall i, 0 <= i < 8 * zlen res -> bit_at res i = bitop_bit op (map (fun t => bit_at t i) ts)) /\
        (Forall (fun key => is_string (db s !! key)) (key :: keys) -> longest ts = 0 -> run = Some (after_delete target (RInt 0) s)) /\
        ((exists key', key' ∈ key :: keys /\ db s !! key' = Some VOther) -> run = Some (addReplyError wrongtypeerr s)))
  end.
Proof.
  intros Hok. cbn zeta. unfold bitopCommand. cbn [lookup list_lookup mbind option_bind]. destruct (bitop_of name) as [op |]; [| done].
  change (drop 3 (cmd :: name :: target :: key :: keys)) with (key :: keys). split.
  { intros [-> Hk]. rewrite !zlen_cons. destruct keys as [| k keys]; [done |]. rewrite zlen_cons. pose proof (zlen_nonneg keys).
    rewrite (proj2 (Z.eqb_neq _ 4)) by lia. by eexists. }
  intros Hnot.
  assert (match op with BITOP_NOT => negb (zlen (cmd :: name :: target :: key :: keys) =? 4) | _ => false end = false) as ->.
  { destruct op; try done. by rewrite (Hnot eq_refl). }
  assert (Forall (fun t => bytes t) (map (text_at s) (key :: keys))) as Hbytes.
  { apply Forall_forall. intros t Ht. apply list_elem_of_In, in_map_iff in Ht as (k & <- & _). by apply text_at_ok. }
  assert (forall P : option (srv * option (list (list Z) * Z * Z)) -> Prop, Forall (fun key => is_string (db s !! key)) (key :: keys) ->
    (forall minlen, 0 <= minlen -> Forall (fun t => minlen <= zlen t) (map (text_at s) (key :: keys)) ->
      P (Some (s, Some (map (text_at s) (key :: keys), longest (map (text_at s) (key :: keys)), minlen)))) ->
    P (bitop_sources buf32 (key :: keys) 0 [] 0 0 s)) as Hsrc.
  { intros P Hs HP. destruct (bitop_sources_ok s (key :: keys) Hok Hs 0 [] 0 0) as (minlen & E & H1 & _ & H2); [done | done | done |].
    cbn zeta in E. rewrite E, Z.max_r by apply longest_le. by apply HP. }
  split_and!.
  - intros Hs Hne. pattern (bitop_sources buf32 (key :: keys) 0 [] 0 0 s). apply Hsrc; [done |]. intros minlen H1 H2.
    cbn [mbind option_bind]. rewrite (proj2 (Z.eqb_neq _ 0) Hne). cbn [negb].
    cbn [map] in H2, Hbytes |- *. destruct (longest_le (text_at s key :: map (text_at s) keys)) as [_ Hl].
    pose proof (Forall_inv H2) as H2'. pose proof (Forall_inv Hl) as Hl'. cbn beta in H2', Hl'.
    assert (op = BITOP_NOT -> map (text_at s) keys = []) as Hnot' by (intros Hop; by rewrite (Hnot Hop)).
    destruct (bitop_result_spec op (text_at s key) (map (text_at s) keys) (longest (text_at s key :: map (text_at s) keys)) minlen)
      as (res & E & Hb & Hz & Hres); [by apply Forall_inv in Hbytes | by apply Forall_inv_tail in Hbytes | done | lia | done |].
    exists res. rewrite E. cbn [mbind option_bind]. split; [rewrite Hz; done |]. split; [done |]. split; [done |]. intros i Hi.
    apply (bitop_bits op (text_at s key) (map (text_at s) keys)); [by apply Forall_inv in Hbytes | done | done |]. intros j Hj. apply Hres. lia.
  - intros Hs He. pattern (bitop_sources buf32 (key :: keys) 0 [] 0 0 s). apply Hsrc; [done |]. intros minlen H1 H2.
    cbn [mbind option_bind]. rewrite He. cbn [Z.eqb negb]. unfold after_delete. by destruct (db s !! target).
  - intros (k & Hk & Hw). clear Hsrc.
    assert (exists k1 k' k2, key :: keys = k1 ++ k' :: k2 /\ Forall (fun key => is_string (db s !! key)) k1 /\ db s !! k' = Some VOther) as (k1 & k' & k2 & -> & H1 & H2).
    { revert Hk. generalize (key :: keys). intros l Hl. induction l as [| x l IH]; [by apply not_elem_of_nil in Hl |].
      destruct (db s !! x) as [[p | n |] |] eqn:Ex.
      3: { exists [], x, l. split_and!; [done | apply Forall_nil_2 | done]. }
      all: apply elem_of_cons in Hl as [-> | Hl]; [congruence |]; destruct (IH Hl) as (k1 & k' & k2 & -> & H1 & H2);
        exists (x :: k1), k', k2; split_and!; [done | apply Forall_cons_2; [unfold is_string; congruence | done] | done]. }
    rewrite bitop_sources_wrong by done. done.
Qed.
End command.

Lemma bitopCommand_correct_witness :
  exists res, bitopCommand (H := true) (replicate 32 0) (map chars ["bitop"; "XoR"; "d"; "a"; "b"]) (Srv {[chars "a" := VRaw (replicate 40 255); chars "b" := VInt 12]} 0 [] [])
   = Some (after (chars "d") res 1 (RInt (zlen res)) (Srv {[chars "a" := VRaw (replicate 40 255); chars "b" := VInt 12]} 0 [] [])) /\
  zlen res = 40 /\ bit_at res 2 = false /\ bit_at res 300 = true.
Proof.
  pose proof (bitopCommand_correct (H := true) (replicate 32 0) eq_refl (Srv {[chars "a" := VRaw (replicate 40 255); chars "b" := VInt 12]} 0 [] [])
    (chars "bitop") (chars "XoR") (chars "d") (chars "a") [chars "b"]) as Hc.
  assert (srv_ok (Srv {[chars "a" := VRaw (replicate 40 255); chars "b" := VInt 12]} 0 [] [])) as Hok.
  { intros k v E. cbn [db] in E. apply lookup_insert_Some in E as [[_ <-] | [_ E]].
    - split; [apply Forall_replicate; vm_compute; split; [discriminate | reflexivity] | vm_compute; discriminate].
    - apply lookup_singleton_Some in E as [_ <-]. vm_compute. split; discriminate. }
  specialize (Hc Hok). cbn zeta in Hc. change (bitop_of (chars "XoR")) with (Some BITOP_XOR) in Hc. destruct Hc as [_ Hc].
  destruct (Hc ltac:(discriminate)) as [Hr _].
  destruct Hr as (res & E & _ & Hz & Hbit); [repeat apply Forall_cons_2; [discriminate | discriminate | apply Forall_nil_2] | vm_compute; discriminate |].
  change (longest _) with 40 in Hz. exists res. split; [exact E |]. split; [exact Hz |].
  rewrite !Hbit by lia. split; vm_compute; reflexivity.
Defined.
