(* ===== verification/BitfieldCmds.v ===== *)
(** bitops.c, BITFIELD and BITFIELD_RO: the subcommands are parsed into a list
    of operations, the string is made large enough for the writes, and the
    operations run in order, each sending its reply.

    The state of the server and the simplifications are those of Server.v. *)
From stdpp Require Import strings gmap.
From S2P Require Import Prelude Endian Strnum Server Bits Bitops BitCmds.

Inductive opcode := BITFIELDOP_GET | BITFIELDOP_SET | BITFIELDOP_INCRBY.

Record bitfieldOp := BitfieldOp { offset : Z; i64_arg : Z; op_code : opcode; op_owtype : owtype; op_bits : Z; op_sign : bool }.

Section bitfield.
Context (proto_max_bulk_len : Z) (mustObeyClient : bool) (llbuf buf32 : list Z) (stack_wrapped : Z).

(** * Parsing *)

(** What the loop over the arguments has: the operations, [owtype],
    [readonly] and [highest_write_offset]. *)
Definition parse_state : Type := list bitfieldOp * owtype * bool * Z.

(** The type, the offset and the value of a subcommand; no result when an
    error has been sent. *)
Definition parse_op (code : opcode) (type off : list Z) (value : option (list Z)) '((ops, ow, readonly, highest) : parse_state) (s : srv) :
    srv * option parse_state :=
  let '(s, type) := getBitfieldTypeFromArgument type s in
  match type with
  | None => (s, None)
  | Some (sign, bits) =>
      let '(s, bitoffset) := getBitOffsetFromArgument proto_max_bulk_len mustObeyClient off true bits s in
      match bitoffset with
      | None => (s, None)
      | Some bitoffset =>
          match value with
          | None => (s, Some (ops ++ [BitfieldOp bitoffset 0 code ow bits sign], ow, readonly, highest))
          | Some value =>
              let last := u64 (bitoffset + bits - 1) in
              let highest := if highest <? last then last else highest in
              let '(s, i64) := getLongLongFromObjectOrReply value None s in
              match i64 with
              | None => (s, None)
              | Some i64 => (s, Some (ops ++ [BitfieldOp bitoffset i64 code ow bits sign], ow, false, highest))
              end
          end
      end
  end.

Definition owtype_of (name : list Z) : option owtype :=
  if strcasecmp_eq name "wrap" then Some BFOVERFLOW_WRAP
  else if strcasecmp_eq name "sat" then Some BFOVERFLOW_SAT
  else if strcasecmp_eq name "fail" then Some BFOVERFLOW_FAIL else None.

Inductive subcommand := SubGet | SubSet | SubIncrby | SubOverflow.

(** The subcommand at [subcmd], when enough arguments are left. *)
Definition subcommand_of (subcmd : list Z) (remargs : Z) : option subcommand :=
  if strcasecmp_eq subcmd "get" && (2 <=? remargs) then Some SubGet
  else if strcasecmp_eq subcmd "set" && (3 <=? remargs) then Some SubSet
  else if strcasecmp_eq subcmd "incrby" && (3 <=? remargs) then Some SubIncrby
  else if strcasecmp_eq subcmd "overflow" && (1 <=? remargs) then Some SubOverflow
  else None.

Fixpoint parse_ops (args : list (list Z)) (st : parse_state) (s : srv) : srv * option parse_state :=
  match args with
  | [] => (s, Some st)
  | subcmd :: rest =>
      match subcommand_of subcmd (zlen rest), rest with
      | Some SubGet, type :: off :: rest =>
          match parse_op BITFIELDOP_GET type off None st s with
          | (s, Some st) => parse_ops rest st s
          | (s, None) => (s, None)
          end
      | Some SubSet, type :: off :: value :: rest =>
          match parse_op BITFIELDOP_SET type off (Some value) st s with
          | (s, Some st) => parse_ops rest st s
          | (s, None) => (s, None)
          end
      | Some SubIncrby, type :: off :: value :: rest =>
          match parse_op BITFIELDOP_INCRBY type off (Some value) st s with
          | (s, Some st) => parse_ops rest st s
          | (s, None) => (s, None)
          end
      | Some SubOverflow, name :: rest =>
          let '(ops, _, readonly, highest) := st in
          match owtype_of name with
          | Some ow => parse_ops rest (ops, ow, readonly, highest) s
          | None => (addReplyError "Invalid OVERFLOW type specified" s, None)
          end
      | _, _ => (addReplyError syntaxerr s, None)
      end
  end.

(** * Execution *)

(** The new value of the field, the reply and whether the operation
    overflowed. *)
Definition signed_update (op : bitfieldOp) (oldval : Z) : Z * Z * bool :=
  match op_code op with
  | BITFIELDOP_INCRBY =>
      let '(overflow, wrapped) := checkSignedBitfieldOverflow oldval (i64_arg op) (op_bits op) (op_owtype op) stack_wrapped in
      let newval := if negb (overflow =? 0) then wrapped else i64 (oldval + i64_arg op) in
      (newval, newval, negb (overflow =? 0))
  | _ =>
      let newval := i64_arg op in
      let '(overflow, wrapped) := checkSignedBitfieldOverflow newval 0 (op_bits op) (op_owtype op) stack_wrapped in
      (if negb (overflow =? 0) then wrapped else newval, oldval, negb (overflow =? 0))
  end.

Definition unsigned_update (op : bitfieldOp) (oldval : Z) : Z * Z * bool :=
  match op_code op with
  | BITFIELDOP_INCRBY =>
      let newval := u64 (oldval + i64_arg op) in
      let '(overflow, wrapped) := checkUnsignedBitfieldOverflow oldval (i64_arg op) (op_bits op) (op_owtype op) 0 in
      let newval := if negb (overflow =? 0) then wrapped else newval in
      (newval, newval, negb (overflow =? 0))
  | _ =>
      let newval := u64 (i64_arg op) in
      let '(overflow, wrapped) := checkUnsignedBitfieldOverflow newval 0 (op_bits op) (op_owtype op) 0 in
      (if negb (overflow =? 0) then wrapped else newval, oldval, negb (overflow =? 0))
  end.

Definition is_fail (ow : owtype) : bool := match ow with BFOVERFLOW_FAIL => true | _ => false end.

(** SET and INCRBY on the string [p]: the string, the reply and what is added
    to [changes]. *)
Definition exec_write (dirty : bool) (op : bitfieldOp) (p : list Z) : option (list Z * reply * Z) :=
  if op_sign op then
    oldval ← getSignedBitfield p (offset op) (op_bits op);
    let '(newval, retval, overflow) := signed_update op oldval in
    if negb (overflow && is_fail (op_owtype op)) then
      p ← setSignedBitfield p (offset op) (op_bits op) newval;
      Some (p, RInt retval, if dirty || negb (oldval =? newval) then 1 else 0)
    else Some (p, RNull, 0)
  else
    oldval ← getUnsignedBitfield p (offset op) (op_bits op);
    let '(newval, retval, overflow) := unsigned_update op oldval in
    if negb (overflow && is_fail (op_owtype op)) then
      p ← setUnsignedBitfield p (offset op) (op_bits op) newval;
      Some (p, RInt (i64 retval), if dirty || negb (oldval =? newval) then 1 else 0)
    else Some (p, RNull, 0).

(** One turn of the loop that copies up to nine bytes, until the [break]. *)
Definition get_copy (src : list Z) (byte i : Z) '((buf, break) : list Z * bool) : option (list Z * bool) :=
  if break || (zlen src <=? i + byte) then Some (buf, true)
  else b ← rd src (i + byte); buf ← wrn buf i [b]; Some (buf, false).

Definition exec_get (op : bitfieldOp) (o : option value) : option reply :=
  src ← getObjectReadOnlyString llbuf o;
  let byte := Z.shiftr (offset op) 3 in
  '(buf, _) ← for_ 9 0 (get_copy src byte) (replicate 9 0, false);
  val ← (if op_sign op then getSignedBitfield buf (offset op - byte * 8) (op_bits op)
         else val ← getUnsignedBitfield buf (offset op - byte * 8) (op_bits op); Some (i64 val));
  Some (RInt val).

(** One operation on the object stored at [key], and [changes]. *)
Definition exec_op (key : list Z) (dirty : bool) (op : bitfieldOp) '((s, changes) : srv * Z) : option (srv * Z) :=
  let o := db s !! key in
  match op_code op with
  | BITFIELDOP_GET => r ← exec_get op o; Some (addReply r s, changes)
  | _ =>
      match o with
      | Some (VRaw p) =>
          '(p, r, n) ← exec_write dirty op p;
          Some (addReply r (set_value key (VRaw p) s), changes + n)
      | _ => None
      end
  end.

Fixpoint exec_ops (key : list Z) (dirty : bool) (ops : list bitfieldOp) (st : srv * Z) : option (srv * Z) :=
  match ops with
  | [] => Some st
  | op :: ops => st ← exec_op key dirty op st; exec_ops key dirty ops st
  end.

(** The lookup between parsing and execution: the type check, or the string
    made large enough for the highest bit written; [dirty], unless an error has
    been sent. *)
Definition bitfield_lookup (flag_readonly readonly : bool) (highest_write_offset : Z) (key : list Z) (s : srv) :
    option (srv * option bool) :=
  if readonly then
    let '(s, wrong) := checkType (db s !! key) s in Some (s, if wrong : bool then None else Some false)
  else if flag_readonly then
    Some (addReplyError "BITFIELD_RO only supports the GET subcommand" s, None)
  else
    '(s, o) ← lookupStringForBitCommand buf32 key highest_write_offset s;
    Some (s, match o with Some (_, dirty) => Some dirty | None => None end).

(** [flags] is [BITFIELD_FLAG_READONLY] or not. *)
Definition bitfieldGeneric (flag_readonly : bool) (argv : list (list Z)) (s : srv) : option srv :=
  key ← argv !! 1%nat;
  match parse_ops (drop 2 argv) ([], BFOVERFLOW_WRAP, true, 0) s with
  | (s, None) => Some s
  | (s, Some (ops, _, readonly, highest_write_offset)) =>
      '(s, dirty) ← bitfield_lookup flag_readonly readonly highest_write_offset key s;
      match dirty with
      | None => Some s
      | Some dirty =>
          '(s, changes) ← exec_ops key dirty ops (addReply (RArrayLen (zlen ops)) s, 0);
          Some (if negb (changes =? 0) then add_dirty changes (signalModifiedKey key s) else s)
      end
  end.

Definition bitfieldCommand : list (list Z) -> srv -> option srv := bitfieldGeneric false.
Definition bitfieldroCommand : list (list Z) -> srv -> option srv := bitfieldGeneric true.
End bitfield.

(** The example of the documentation, on a fresh key. *)
Definition run_example (args : list string) : option (list reply) :=
  s ← bitfieldCommand 536870912 false (replicate 21 0) (replicate 32 0) 0 (map chars args) (Srv ∅ 0 [] []);
  Some (replies s).
Example bitfield_ex :
  run_example ["bitfield"; "k"; "SET"; "i8"; "#1"; "-3"; "overflow"; "sat"; "INCRBY"; "u2"; "100"; "5"; "get"; "i8"; "8"; "GET"; "u16"; "4"]
  = Some [RArrayLen 4; RInt 0; RInt 3; RInt (-3); RInt 4048].
Proof. vm_compute. reflexivity. Qed.
(** The products of a [#<n>] offset and a width wrap around: this writes to
    offset 0. *)
Example hash_offset_wraps : run_example ["bitfield"; "k"; "SET"; "u4"; "#4611686018427387904"; "9"; "GET"; "u4"; "0"]
  = Some [RArrayLen 2; RInt 0; RInt 9].
Proof. vm_compute. reflexivity. Qed.
