(* ===== verification/BitfieldCmdThms.v ===== *)
(** BITFIELD as operations on a list of bits: reading a field of any width at
    any position, zero past the end, and storing a value that fits it. *)
From stdpp Require Import strings gmap.
From S2P Require Import Prelude Endian Strnum Server Bits Bitops BitopsThms BitfieldThms BitCmds BitCmdsThms BitopThms BitfieldCmds.

(** * The specification *)

(** The [n] bits from position [o], zero past the end of the list. *)
Definition window (o n : nat) (B : list bool) : list bool := take n (drop o B ++ replicate n false).

(** The value that is stored when [t] should be, none when the operation
    fails. *)
Definition store (sgn : bool) (bits : Z) (ow : owtype) (t : Z) : option Z :=
  if (lowest sgn bits <=? t) && (t <=? highest sgn bits) then Some t
  else
    match ow with
    | BFOVERFLOW_WRAP => Some (wrapped sgn bits t)
    | BFOVERFLOW_SAT => Some (if t <? lowest sgn bits then lowest sgn bits else highest sgn bits)
    | BFOVERFLOW_FAIL => None
    end.

(** The bits, the replies and the number of changes. *)
Definition spec_state : Type := list bool * list reply * Z.

Definition spec_op (dirty : bool) (op : bitfieldOp) '((B, rs, n) : spec_state) : spec_state :=
  let o := Z.to_nat (offset op) in
  let w := Z.to_nat (op_bits op) in
  let old := field (op_sign op) (window o w B) in
  match op_code op with
  | BITFIELDOP_GET => (B, rs ++ [RInt old], n)
  | code =>
      let t := match code with BITFIELDOP_INCRBY => old + i64_arg op | _ => if op_sign op then i64_arg op else u64 (i64_arg op) end in
      match store (op_sign op) (op_bits op) (op_owtype op) t with
      | None => (B, rs ++ [RNull], n)
      | Some new =>
          (put o (nbits w new) B,
           rs ++ [RInt (match code with BITFIELDOP_INCRBY => new | _ => old end)],
           n + (if dirty || negb (old =? new) then 1 else 0))
      end
  end.

Definition spec_ops (dirty : bool) (ops : list bitfieldOp) (st : spec_state) : spec_state :=
  fold_left (fun st op => spec_op dirty op st) ops st.

(** What the parser accepts, and the values the overflow test of SET is right
    for. *)
Definition op_ok (op : bitfieldOp) : Prop :=
  1 <= op_bits op <= (if op_sign op then 64 else 63) /\ 0 <= offset op <= LLONG_MAX /\ is_i64 (i64_arg op).
Definition op_regular (op : bitfieldOp) : Prop :=
  op_code op = BITFIELDOP_SET -> op_sign op = true -> 2 ^ (op_bits op - 1) - 2 ^ 63 <= i64_arg op.
Definition is_get (op : bitfieldOp) : bool := match op_code op with BITFIELDOP_GET => true | _ => false end.

(** * Fields of the list of bits *)

Lemma window_inside o n B : (o + n <= length B)%nat -> window o n B = take n (drop o B).
Proof. intros H. unfold window. rewrite take_app_le; [done | rewrite length_drop; lia]. Qed.

Lemma length_window o n B : length (window o n B) = n.
Proof. unfold window. rewrite length_take, length_app, length_replicate. lia. Qed.

Lemma lookup_window o n B k : (k < n)%nat -> window o n B !! k = Some (default false (B !! (o + k)%nat)).
Proof.
  intros Hk. unfold window. rewrite lookup_take_lt by done. destruct (Nat.lt_ge_cases k (length (drop o B))) as [H | H].
  - rewrite lookup_app_l, lookup_drop by done. rewrite length_drop in H.
    destruct (lookup_lt_is_Some_2 B (o + k)) as [x ->]; [lia | done].
  - rewrite lookup_app_r by done. rewrite lookup_replicate_2 by lia. rewrite length_drop in H.
    rewrite (proj2 (lookup_ge_None B (o + k))) by lia. done.
Qed.

Lemma window_put o w v B : (o + w <= length B)%nat -> window o w (put o (nbits w v) B) = nbits w v.
Proof.
  intros H. rewrite window_inside by (rewrite length_put; [done | by rewrite length_nbits]). unfold put.
  rewrite drop_app_ge by (rewrite length_take; lia). rewrite length_take, Nat.min_l, Nat.sub_diag, drop_0 by lia.
  rewrite take_app_le by (rewrite length_nbits; lia). apply take_ge. rewrite length_nbits. lia.
Qed.

(** A value that fits is read back. *)
Lemma field_nbits sgn bits v : 1 <= bits -> fits_field sgn bits v -> field sgn (nbits (Z.to_nat bits) v) = v.
Proof.
  intros Hb Hv. unfold field. assert (zlen (nbits (Z.to_nat bits) v) = bits) as -> by (unfold zlen; rewrite length_nbits; lia).
  rewrite word_of_bits_nbits, Z2Nat.id by lia. unfold fits_field, lowest, highest in Hv. destruct sgn.
  - rewrite wraps_mod by lia. apply wraps_small; lia.
  - apply Z.mod_small. lia.
Qed.

Lemma field_fits sgn l : l <> [] -> fits_field sgn (zlen l) (field sgn l).
Proof.
  intros Hl. assert (1 <= zlen l) as H1 by (destruct l; [done |]; rewrite zlen_cons; pose proof (zlen_nonneg l); lia).
  unfold field. destruct sgn; [exact (wrapped_fits true (zlen l) (word_of_bits l) H1) |].
  pose proof (word_of_bits_bound l). unfold fits_field, lowest, highest. lia.
Qed.

Lemma nbits_u64 n v : (n <= 64)%nat -> nbits n (u64 v) = nbits n v.
Proof.
  intros Hn. induction n as [| n IH]; [done |]. cbn [nbits]. rewrite IH by lia. f_equal. rewrite u64_pow, testbit_mod2 by lia.
  by rewrite (proj2 (Z.ltb_lt (Z.of_nat n) 64)) by lia.
Qed.

Lemma store_fits sgn bits ow t new : 1 <= bits -> store sgn bits ow t = Some new -> fits_field sgn bits new.
Proof.
  intros Hb. unfold store, fits_field. pose proof (wrapped_fits sgn bits t Hb) as Hw. unfold fits_field in Hw.
  destruct (Z.leb_spec (lowest sgn bits) t), (Z.leb_spec t (highest sgn bits)); cbn [andb].
  1: by intros [= <-].
  all: destruct ow; intros [= <-]; try done; destruct (Z.ltb_spec t (lowest sgn bits)); lia.
Qed.

(** What the overflow functions report, as [store]. *)
Lemma store_overflow sgn bits ow limit t : 1 <= bits ->
  let '(overflow, w) := overflow_spec sgn bits ow limit t in
  store sgn bits ow t =
  if negb (overflow =? 0) && is_fail ow then None else Some (if negb (overflow =? 0) then w else t).
Proof.
  intros Hb. pose proof (wrapped_fits sgn bits t Hb) as Hw. unfold fits_field in Hw. unfold overflow_spec, above, below, store.
  destruct (Z.ltb_spec (highest sgn bits) t), (Z.ltb_spec t (lowest sgn bits)), (Z.leb_spec (lowest sgn bits) t), (Z.leb_spec t (highest sgn bits));
    cbn [andb]; try lia; by destruct ow.
Qed.

(** * One operation *)

Section exec.
Context (llbuf buf32 : list Z) (stack_wrapped : Z) (Hll : zlen llbuf = LONG_STR_SIZE) (H32 : zlen buf32 = 32).

Lemma signed_update_spec op old : op_ok op -> op_sign op = true -> op_regular op -> fits_field true (op_bits op) old -> op_code op <> BITFIELDOP_GET ->
  let t := match op_code op with BITFIELDOP_INCRBY => old + i64_arg op | _ => i64_arg op end in
  let '(newval, retval, overflow) := signed_update stack_wrapped op old in
  store true (op_bits op) (op_owtype op) t = (if overflow && is_fail (op_owtype op) then None else Some newval) /\
  retval = match op_code op with BITFIELDOP_INCRBY => newval | _ => old end.
Proof.
  intros (Hb & _ & Ha) Hs Hreg Hold Hc. rewrite Hs in Hb. cbn zeta. unfold signed_update.
  assert (is_i64 old) as Hio.
  { unfold fits_field, lowest, highest in Hold. unfold is_i64. assert (2 ^ (op_bits op - 1) <= 2 ^ 63) by (apply Z.pow_le_mono_r; lia). lia. }
  assert (forall t, is_i64 t -> highest true (op_bits op) <= LLONG_MAX /\ LLONG_MIN <= lowest true (op_bits op)) as Hrange.
  { intros t _. unfold lowest, highest, LLONG_MAX, LLONG_MIN. assert (2 ^ (op_bits op - 1) <= 2 ^ 63) by (apply Z.pow_le_mono_r; lia). lia. }
  destruct (op_code op) eqn:Ec; [done | |].
  - destruct (checkSigned_cases (i64_arg op) 0 (op_bits op) (op_owtype op) stack_wrapped Hb Ha ltac:(by unfold is_i64)) as (_ & E & _).
    rewrite E by (done || by apply Hreg). pose proof (store_overflow true (op_bits op) (op_owtype op) stack_wrapped (i64_arg op) ltac:(lia)) as Hst.
    destruct (overflow_spec _ _ _ _ _) as [overflow w]. by rewrite Hst.
  - destruct (checkSigned_cases old (i64_arg op) (op_bits op) (op_owtype op) stack_wrapped Hb Hio Ha) as (E & _ & _).
    rewrite E by done. pose proof (store_overflow true (op_bits op) (op_owtype op) stack_wrapped (old + i64_arg op) ltac:(lia)) as Hst.
    assert (fst (overflow_spec true (op_bits op) (op_owtype op) stack_wrapped (old + i64_arg op)) = 0 -> i64 (old + i64_arg op) = old + i64_arg op) as Hi.
    { unfold overflow_spec, above, below. destruct (Hrange 0 ltac:(by unfold is_i64)) as [H1 H2]. unfold LLONG_MAX, LLONG_MIN in *.
      destruct (Z.ltb_spec (highest true (op_bits op)) (old + i64_arg op)); [done |].
      destruct (Z.ltb_spec (old + i64_arg op) (lowest true (op_bits op))); [by destruct (op_owtype op) |]. intros _. apply i64_id. unfold is_i64. lia. }
    destruct (overflow_spec _ _ _ _ _) as [overflow w]. cbn [fst] in Hi. rewrite Hst. split; [| done].
    destruct (Z.eqb_spec overflow 0); cbn [negb andb]; [by rewrite Hi | done].
Qed.

Lemma unsigned_update_spec op old : op_ok op -> op_sign op = false -> fits_field false (op_bits op) old -> op_code op <> BITFIELDOP_GET ->
  let t := match op_code op with BITFIELDOP_INCRBY => old + i64_arg op | _ => u64 (i64_arg op) end in
  let '(newval, retval, overflow) := unsigned_update op old in
  store false (op_bits op) (op_owtype op) t = (if overflow && is_fail (op_owtype op) then None else Some newval) /\
  retval = match op_code op with BITFIELDOP_INCRBY => newval | _ => old end.
Proof.
  intros (Hb & _ & Ha) Hs Hold Hc. rewrite Hs in Hb. cbn zeta. unfold unsigned_update.
  assert (2 ^ op_bits op <= 2 ^ 63) as Hpow by (apply Z.pow_le_mono_r; lia). change (2 ^ 63) with 9223372036854775808 in Hpow.
  unfold fits_field, lowest, highest in Hold.
  destruct (op_code op) eqn:Ec; [done | |].
  - rewrite (checkUnsigned_spec (u64 (i64_arg op)) 0 (op_bits op) (op_owtype op) 0); [| lia | | by unfold is_i64 | by right].
    2: { unfold is_u64, u64. pose proof (Z.mod_pos_bound (i64_arg op) 18446744073709551616). lia. }
    rewrite Z.add_0_r. pose proof (store_overflow false (op_bits op) (op_owtype op) 0 (u64 (i64_arg op)) ltac:(lia)) as Hst.
    destruct (overflow_spec _ _ _ _ _) as [overflow w]. by rewrite Hst.
  - rewrite (checkUnsigned_spec old (i64_arg op) (op_bits op) (op_owtype op) 0); [| lia | unfold is_u64; lia | done | left; lia].
    pose proof (store_overflow false (op_bits op) (op_owtype op) 0 (old + i64_arg op) ltac:(lia)) as Hst.
    assert (fst (overflow_spec false (op_bits op) (op_owtype op) 0 (old + i64_arg op)) = 0 -> u64 (old + i64_arg op) = old + i64_arg op) as Hi.
    { unfold overflow_spec, above, below, highest, lowest.
      destruct (Z.ltb_spec (2 ^ op_bits op - 1) (old + i64_arg op)); [done |].
      destruct (Z.ltb_spec (old + i64_arg op) 0); [by destruct (op_owtype op) |]. intros _. apply u64_id. unfold is_u64. lia. }
    destruct (overflow_spec _ _ _ _ _) as [overflow w]. cbn [fst] in Hi. rewrite Hst. split; [| done].
    destruct (Z.eqb_spec overflow 0); cbn [negb andb]; [by rewrite Hi | done].
Qed.

Lemma exec_write_spec dirty op p B rs n : op_ok op -> op_regular op -> op_code op <> BITFIELDOP_GET ->
  bytes p -> offset op + op_bits op <= 8 * zlen p -> 8 * zlen p <= ULLONG_MAX -> B = bits_of p ->
  exists p' r k, exec_write stack_wrapped dirty op p = Some (p', r, k) /\ bytes p' /\ zlen p' = zlen p /\
    spec_op dirty op (B, rs, n) = (bits_of p', rs ++ [r], n + k).
Proof.
  intros Hok Hreg Hc Hp Hlen Hmax ->. pose proof Hok as (Hb & Ho & Ha). unfold exec_write, spec_op.
  pose proof (zlen_bits_of p) as Hzb. unfold zlen in Hzb at 1.
  rewrite window_inside by lia.
  assert (forall l, l = take (Z.to_nat (op_bits op)) (drop (Z.to_nat (offset op)) (bits_of p)) -> zlen l = op_bits op /\ l <> []) as Hl.
  { intros l ->. assert (length (take (Z.to_nat (op_bits op)) (drop (Z.to_nat (offset op)) (bits_of p))) = Z.to_nat (op_bits op)) as E
      by (rewrite length_take, length_drop; destruct (op_sign op); lia).
    split; [unfold zlen; destruct (op_sign op); lia |]. intros E0. rewrite E0 in E. cbn [length] in E. destruct (op_sign op); lia. }
  destruct (Hl _ eq_refl) as [Hlz Hlne]. clear Hl.
  destruct (op_sign op) eqn:Es.
  - rewrite getSigned_spec by lia. cbn [mbind option_bind]. pose proof (field_fits true _ Hlne) as Hf. rewrite Hlz in Hf.
    pose proof (signed_update_spec op (field true (take (Z.to_nat (op_bits op)) (drop (Z.to_nat (offset op)) (bits_of p)))) Hok Es Hreg Hf Hc) as Hup.
    cbn zeta in Hup. destruct (signed_update _ _ _) as [[newval retval] overflow]. destruct Hup as [Hst ->].
    destruct (overflow && is_fail (op_owtype op)) eqn:Efail; cbn [negb].
    + exists p, RNull, 0. rewrite Z.add_0_r. split; [done |]. split; [done |]. split; [done |].
      destruct (op_code op); [done | by rewrite Hst | by rewrite Hst].
    + destruct (setUnsigned_spec p (offset op) (op_bits op) (u64 newval) Hp) as (p' & E & Hp' & Hz' & Eb); [lia | lia | lia | lia |].
      unfold setSignedBitfield. rewrite E. cbn [mbind option_bind]. rewrite nbits_u64 in Eb by lia.
      eexists p', _, _. split; [done |]. split; [done |]. split; [done |]. rewrite Eb.
      destruct (op_code op); [done | by rewrite Hst | by rewrite Hst].
  - rewrite getUnsigned_spec by lia. cbn [mbind option_bind]. pose proof (field_fits false _ Hlne) as Hf. rewrite Hlz in Hf.
    pose proof (unsigned_update_spec op (field false (take (Z.to_nat (op_bits op)) (drop (Z.to_nat (offset op)) (bits_of p)))) Hok Es Hf Hc) as Hup.
    assert (forall v, fits_field false (op_bits op) v -> i64 v = v) as Hi.
    { intros v Hv. apply i64_id. unfold fits_field, lowest, highest in Hv. unfold is_i64.
      assert (2 ^ op_bits op <= 2 ^ 63) by (apply Z.pow_le_mono_r; lia). lia. }
    cbn zeta in Hup. change (word_of_bits ?l) with (field false l). destruct (unsigned_update _ _) as [[newval retval] overflow]. destruct Hup as [Hst ->].
    destruct (overflow && is_fail (op_owtype op)) eqn:Efail; cbn [negb].
    + exists p, RNull, 0. rewrite Z.add_0_r. split; [done |]. split; [done |]. split; [done |].
      destruct (op_code op); [done | by rewrite Hst | by rewrite Hst].
    + destruct (setUnsigned_spec p (offset op) (op_bits op) newval Hp) as (p' & E & Hp' & Hz' & Eb); [lia | lia | lia | lia |].
      rewrite E. cbn [mbind option_bind]. assert (fits_field false (op_bits op) newval) as Hfn by (eapply store_fits; [lia | exact Hst]).
      eexists p', _, _. split; [done |]. split; [done |]. split; [done |]. rewrite Eb.
      destruct (op_code op); [done | |]; rewrite Hst; by rewrite Hi.
Qed.

(** The nine bytes copied for a GET. *)
Lemma get_copy_spec src byte : bytes src -> 0 <= byte -> exists buf break,
  for_ 9 0 (get_copy src byte) (replicate 9 0, false) = Some (buf, break) /\ zlen buf = 9 /\
  forall k, 0 <= k < 9 -> byte_at buf k = byte_at src (byte + k).
Proof.
  intros Hs Hbyte.
  destruct (for_inv (fun j (st : list Z * bool) => zlen (fst st) = 9 /\ bytes (fst st) /\
      (forall k, 0 <= k < 9 -> byte_at (fst st) k = if k <? j then byte_at src (byte + k) else 0) /\
      (snd st = true -> zlen src <= byte + j))
    (get_copy src byte) 9 0 (replicate 9 0, false)) as ([buf break] & E & Hz & Hb & Hk & Hbr).
  - cbn [fst snd]. split; [done |]. split; [apply Forall_replicate; by unfold Prelude.byte |]. split; [| done].
    intros k Hk. rewrite (proj2 (Z.ltb_ge k 0)) by lia. unfold byte_at. by rewrite lookup_replicate_2 by lia.
  - intros j [buf break] Hj (Hz & Hb & Hk & Hbr). cbn [fst snd get_copy] in *.
    destruct (break || (zlen src <=? j + byte)) eqn:Eb.
    + eexists; split; [done |]. cbn [fst snd].
      assert (zlen src <= byte + j) as Hend by (apply orb_true_iff in Eb as [-> | Eb]; [by apply Hbr | lia]).
      split; [done |]. split; [done |]. split; [| lia]. intros k Hk'. rewrite Hk by done.
      destruct (Z.ltb_spec k j), (Z.ltb_spec k (j + 1)); try done; [lia |].
      unfold byte_at. rewrite (proj2 (lookup_ge_None src _)); [done |]. unfold zlen in Hend. lia.
    + apply orb_false_iff in Eb as [-> Eb]. apply Z.leb_gt in Eb.
      assert (rd src (j + byte) = Some (byte_at src (byte + j))) as ->.
      { pose proof (src_byte_spec src (j + byte) ltac:(lia)) as E. unfold src_byte in E.
        rewrite (proj2 (Z.leb_gt (zlen src) (j + byte))) in E by lia. rewrite E. do 2 f_equal. lia. }
      cbn [mbind option_bind].
      destruct (write_updated buf j 1 [byte_at src (byte + j)] (fun i _ => byte_at src (byte + i))) as (buf' & -> & Ub & Uz & U); [done | | lia | done | lia | |].
      { apply Forall_cons_2; [by apply byte_at_byte | apply Forall_nil_2]. }
      { intros k Hk'. replace k with 0 by lia. by rewrite Z.add_0_r. }
      eexists; split; [done |]. cbn [mbind option_bind fst snd]. split; [lia |]. split; [done |]. split; [| done]. intros k Hk'. rewrite U, Hk by lia.
      destruct (Z.leb_spec j k), (Z.ltb_spec k (j + 1)), (Z.ltb_spec k j); cbn [andb]; done || lia.
  - exists buf, break. split; [done |]. split; [done |]. intros k Hk'. cbn [fst] in Hk. rewrite Hk by done.
    by rewrite (proj2 (Z.ltb_lt k _)) by lia.
Qed.

Lemma window_copy src buf byte o w : zlen buf = 9 -> 0 <= byte -> (forall k, 0 <= k < 9 -> byte_at buf k = byte_at src (byte + k)) ->
  0 <= o -> 0 <= w -> o + w <= 72 ->
  take (Z.to_nat w) (drop (Z.to_nat o) (bits_of buf)) = window (Z.to_nat (8 * byte + o)) (Z.to_nat w) (bits_of src).
Proof.
  intros Hz Hbyte Hk Ho Hw Hlen. pose proof (zlen_bits_of buf) as Hzb. rewrite Hz in Hzb. unfold zlen in Hzb.
  apply list_eq. intros i. destruct (Nat.lt_ge_cases i (Z.to_nat w)) as [Hi | Hi].
  - rewrite lookup_window, lookup_take_lt, lookup_drop by done.
    destruct (lookup_lt_is_Some_2 (bits_of buf) (Z.to_nat o + i)) as [x Ex]; [lia |]. rewrite Ex.
    assert (x = bit_at buf (o + Z.of_nat i)) as -> by (unfold bit_at; replace (Z.to_nat (o + Z.of_nat i)) with (Z.to_nat o + i)%nat by lia; by rewrite Ex).
    assert (default false (bits_of src !! (Z.to_nat (8 * byte + o) + i)%nat) = bit_at src (8 * byte + (o + Z.of_nat i))) as ->.
    { unfold bit_at. do 2 f_equal. lia. }
    f_equal. rewrite !bit_at_byte_at by lia. rewrite Hk by (rewrite Z.shiftr_div_pow2 by lia; change (2 ^ 3) with 8; dm).
    change 7 with (2 ^ 3 - 1). rewrite !land_ones_mod, !Z.shiftr_div_pow2 by lia. change (2 ^ 3) with 8.
    rewrite (Z.mul_comm 8 byte), Z.div_add_l by lia. f_equal. rewrite (Z.add_comm (byte * 8)), Z.mod_add by lia. done.
  - rewrite !(proj2 (lookup_ge_None _ i)); [done | rewrite length_window; lia | rewrite length_take; lia].
Qed.

Lemma exec_get_spec op o B : op_ok op -> bytes (from_option text [] o) -> (forall n, o = Some (VInt n) -> is_i64 n) -> is_string o ->
  B = bits_of (from_option text [] o) ->
  exec_get llbuf op o = Some (RInt (field (op_sign op) (window (Z.to_nat (offset op)) (Z.to_nat (op_bits op)) B))).
Proof.
  intros (Hb & Ho & _) Hbytes Hi Hs ->. unfold exec_get. rewrite getObjectReadOnlyString_spec by done. cbn [mbind option_bind].
  set (src := from_option text [] o) in *. set (byte := Z.shiftr (offset op) 3).
  assert (byte = offset op / 8) as Ebyte by (unfold byte; rewrite Z.shiftr_div_pow2 by lia; done).
  pose proof (Z_div_mod_eq_full (offset op) 8). pose proof (Z.mod_pos_bound (offset op) 8). pose proof (Z.div_pos (offset op) 8).
  destruct (get_copy_spec src byte Hbytes ltac:(lia)) as (buf & break & -> & Hz & Hk). cbn [mbind option_bind].
  assert (op_bits op <= 64) as Hb64 by (destruct (op_sign op); lia).
  pose proof (window_copy src buf byte (offset op - byte * 8) (op_bits op) Hz ltac:(lia) Hk ltac:(lia) ltac:(lia) ltac:(lia)) as Hw.
  replace (8 * byte + (offset op - byte * 8)) with (offset op) in Hw by lia. rewrite <- Hw.
  assert (8 * zlen buf <= ULLONG_MAX) by (rewrite Hz; unfold ULLONG_MAX; lia).
  destruct (op_sign op).
  - by rewrite getSigned_spec by lia.
  - rewrite getUnsigned_spec by lia. cbn [mbind option_bind]. change (field false ?l) with (word_of_bits l). do 2 f_equal. apply i64_id.
    match goal with |- is_i64 (word_of_bits ?l) => pose proof (word_of_bits_bound l) as Hbound; assert (zlen l <= 63) as Hl end.
    { unfold zlen. rewrite length_take. lia. }
    apply (Z.pow_le_mono_r 2) in Hl; [| lia]. unfold is_i64. lia.
Qed.
End exec.

(** * Parsing *)

Definition parse_inv '((ops, _, readonly, highest) : parse_state) : Prop :=
  Forall op_ok ops /\ Forall (fun op => is_get op = false -> offset op + op_bits op - 1 <= highest) ops /\
  readonly = forallb is_get ops /\ 0 <= highest <= LLONG_MAX + 63.

(** Either the state is unchanged and the result satisfies [P], or an error
    has been sent. *)
Definition parsed {A} (P : A -> Prop) (s : srv) (r : srv * option A) : Prop :=
  match r with
  | (s', Some a) => s' = s /\ P a
  | (s', None) => exists msg, s' = addReplyError msg s
  end.

Section parsing.
Context (proto_max_bulk_len : Z) (mustObeyClient : bool).

Lemma getBitfieldType_parsed p s : parsed (fun t : bool * Z => 1 <= t.2 <= (if t.1 then 64 else 63)) s (getBitfieldTypeFromArgument p s).
Proof.
  unfold getBitfieldTypeFromArgument, parsed. destruct (negb _); [by eexists |]. destruct (string2ll _) as [n |]; [| by eexists].
  destruct (first_char p =? 105); cbn [andb negb];
    destruct (Z.ltb_spec n 1), (Z.ltb_spec 64 n), (Z.ltb_spec 63 n); cbn [orb fst snd]; first [by eexists | split; [done | lia]].
Qed.

Lemma getBitOffset_parsed p hash bits s : parsed (fun o => 0 <= o <= LLONG_MAX) s (getBitOffsetFromArgument proto_max_bulk_len mustObeyClient p hash bits s).
Proof.
  unfold getBitOffsetFromArgument, parsed. destruct (string2ll _) as [n |] eqn:En; [| by eexists]. apply string2ll_inv in En as [Hn _].
  assert (forall b : bool, is_i64 (if b then i64 (n * bits) else n)) as Ho by (intros []; [apply i64_range | done]).
  specialize (Ho ((first_char p =? 35) && hash && (0 <? bits))).
  set (o := if (first_char p =? 35) && hash && (0 <? bits) then i64 (n * bits) else n) in *.
  destruct (Z.ltb_spec o 0); cbn [orb]; [by eexists |]. destruct (negb mustObeyClient && _); cbv iota; [by eexists |]. split; [done |].
  unfold is_i64 in Ho. unfold LLONG_MAX. lia.
Qed.

Lemma getLongLong_parsed o msg s : parsed is_i64 s (getLongLongFromObjectOrReply o msg s).
Proof.
  unfold getLongLongFromObjectOrReply, parsed. destruct (string2ll o) as [n |] eqn:En; [| by eexists].
  by apply string2ll_inv in En as [Hn _].
Qed.

Lemma parse_op_parsed code type off value st s : (value = None <-> code = BITFIELDOP_GET) -> parse_inv st ->
  parsed parse_inv s (parse_op proto_max_bulk_len mustObeyClient code type off value st s).
Proof.
  destruct st as [[[ops ow] ro] hi]. intros Hcode (Hops & Hbound & Hro & Hhi). unfold parse_op.
  pose proof (getBitfieldType_parsed type s) as Ht. destruct (getBitfieldTypeFromArgument type s) as [s1 [[sign bits] |]]; [| done].
  destruct Ht as [-> Hb]. cbn [fst snd] in Hb. pose proof (getBitOffset_parsed off true bits s) as Ho.
  destruct (getBitOffsetFromArgument _ _ _ _ _ _) as [s1 [o |]]; [| done]. destruct Ho as [-> Ho].
  assert (bits <= 64) as Hb64 by (destruct sign; lia).
  assert (forall l, l = u64 (o + bits - 1) -> l = o + bits - 1) as Hl by (intros l ->; apply u64_id; unfold is_u64, LLONG_MAX in *; lia).
  destruct value as [value |].
  - assert (code <> BITFIELDOP_GET) as Hc by (intros E; by apply Hcode in E).
    set (last := u64 (o + bits - 1)). specialize (Hl last eq_refl).
    pose proof (getLongLong_parsed value None s) as Hv. destruct (getLongLongFromObjectOrReply _ _ _) as [s1 [v |]]; [| done].
    destruct Hv as [-> Hv]. split; [done |]. split; [| split; [| split]].
    + apply Forall_app_2; [done |]. apply Forall_cons_2; [| apply Forall_nil_2]. by split_and!; cbn; lia || apply Hv.
    + apply Forall_app_2.
      * eapply Forall_impl; [exact Hbound |]. cbn beta. intros op H Hg. specialize (H Hg). destruct (Z.ltb_spec hi last); lia.
      * apply Forall_cons_2; [| apply Forall_nil_2]. cbn. intros _. destruct (Z.ltb_spec hi last); lia.
    + rewrite forallb_app. cbn. destruct code; [done | by rewrite andb_false_r | by rewrite andb_false_r].
    + destruct (Z.ltb_spec hi last); lia.
  - assert (code = BITFIELDOP_GET) as -> by (by apply Hcode). split; [done |]. split; [| split; [| split]].
    + apply Forall_app_2; [done |]. apply Forall_cons_2; [| apply Forall_nil_2]. by split_and!; cbn; lia || (unfold is_i64; lia).
    + apply Forall_app_2; [done |]. apply Forall_cons_2; [| apply Forall_nil_2]. done.
    + rewrite forallb_app, <- Hro. cbn. by rewrite andb_true_r.
    + done.
Qed.

Lemma parse_ops_parsed n : forall args st s, (length args <= n)%nat -> parse_inv st ->
  parsed parse_inv s (parse_ops proto_max_bulk_len mustObeyClient args st s).
Proof.
  induction n as [| n IH]; intros args st s Hn Hst; (destruct args as [| subcmd rest]; [by split |]); [cbn in Hn; lia |].
  cbn [parse_ops]. cbn [length] in Hn.
  assert (exists msg, addReplyError syntaxerr s = addReplyError msg s) as Hsyn by (by eexists).
  assert (forall code type off value rest', (value = None <-> code = BITFIELDOP_GET) -> (length rest' <= n)%nat ->
    parsed parse_inv s (match parse_op proto_max_bulk_len mustObeyClient code type off value st s with
      | (s, Some st) => parse_ops proto_max_bulk_len mustObeyClient rest' st s
      | (s, None) => (s, None)
      end)) as Hop.
  { intros code type off value rest' Hc Hr. pose proof (parse_op_parsed code type off value st s Hc Hst) as Hp.
    destruct (parse_op _ _ _ _ _ _ _ _) as [s1 [st1 |]]; [| done]. destruct Hp as [-> Hst1]. by apply IH. }
  destruct (subcommand_of subcmd (zlen rest)) as [[] |]; [| | | | done].
  - destruct rest as [| type [| off rest]]; [done | done |]. apply Hop; [done | cbn in Hn; lia].
  - destruct rest as [| type [| off [| value rest]]]; [done | done | done |]. apply Hop; [done | cbn in Hn; lia].
  - destruct rest as [| type [| off [| value rest]]]; [done | done | done |]. apply Hop; [done | cbn in Hn; lia].
  - destruct rest as [| name rest]; [done |]. destruct st as [[[ops ow] ro] hi].
    destruct (owtype_of name); [| by eexists]. apply IH; [cbn in Hn; lia | done].
Qed.
End parsing.

(** * The command *)

Section command.
Context (proto_max_bulk_len : Z) (mustObeyClient : bool) (llbuf buf32 : list Z) (stack_wrapped : Z).
Context (Hll : zlen llbuf = LONG_STR_SIZE) (H32 : zlen buf32 = 32).

(** The state [s0] with the string [p] at the key and the replies [rs]. *)
Definition running (s0 : srv) (key p : list Z) (rs : list reply) : srv :=
  Srv (<[key := VRaw p]> (db s0)) (dirty s0) (modified s0) (replies s0 ++ rs).

Lemma exec_ops_write dirty key s0 ops : Forall op_ok ops -> Forall op_regular ops -> forall p rs n, bytes p ->
  Forall (fun op => is_get op = false -> offset op + op_bits op <= 8 * zlen p) ops -> 8 * zlen p <= ULLONG_MAX ->
  exists p' rs' n', exec_ops llbuf stack_wrapped key dirty ops (running s0 key p rs, n) = Some (running s0 key p' rs', n') /\
    bytes p' /\ zlen p' = zlen p /\ spec_ops dirty ops (bits_of p, rs, n) = (bits_of p', rs', n').
Proof.
  intros Hops Hregs. induction Hops as [| op ops Hok Hops IH]; intros p rs n Hp Hb Hmax; [by exists p, rs, n |].
  apply Forall_cons in Hregs as [Hreg Hregs]. apply Forall_cons in Hb as [Hbo Hb]. cbn [exec_ops].
  assert (exists p' r k, exec_op llbuf stack_wrapped key dirty op (running s0 key p rs, n) = Some (running s0 key p' (rs ++ [r]), n + k) /\
    bytes p' /\ zlen p' = zlen p /\ spec_op dirty op (bits_of p, rs, n) = (bits_of p', rs ++ [r], n + k)) as (p' & r & k & E & Hp' & Hz & Es).
  { assert (db (running s0 key p rs) !! key = Some (VRaw p)) as Hdb by (cbn [running db]; apply lookup_insert_eq).
    destruct (is_get op) eqn:Eg; unfold is_get in Eg.
    - destruct (op_code op) eqn:Ec; [| done | done]. unfold exec_op. rewrite Hdb, Ec.
      rewrite (exec_get_spec llbuf Hll op (Some (VRaw p)) (bits_of p)) by done. cbn [mbind option_bind].
      exists p, (RInt (field (op_sign op) (window (Z.to_nat (offset op)) (Z.to_nat (op_bits op)) (bits_of p)))), 0.
      split; [unfold addReply, running; cbn [db Server.dirty modified replies]; by rewrite app_assoc, Z.add_0_r |]. split; [done |]. split; [done |].
      unfold spec_op. rewrite Ec, Z.add_0_r. done.
    - destruct (exec_write_spec stack_wrapped dirty op p (bits_of p) rs n Hok Hreg) as (p' & r & k & E & Hp' & Hz & Es);
        [by destruct (op_code op) | done | by apply Hbo; unfold is_get; destruct (op_code op) | done | done |].
      exists p', r, k. split; [| done]. unfold exec_op. rewrite Hdb, E. cbn [mbind option_bind].
      assert (addReply r (set_value key (VRaw p') (running s0 key p rs)) = running s0 key p' (rs ++ [r])) as ->.
      { unfold addReply, set_value, running. cbn [db Server.dirty modified replies]. by rewrite insert_insert_eq, app_assoc. }
      by destruct (op_code op). }
  rewrite E. cbn [mbind option_bind]. destruct (IH Hregs p' (rs ++ [r]) (n + k) Hp') as (p2 & rs2 & n2 & E2 & Hp2 & Hz2 & Es2).
  { by rewrite Hz. }
  { by rewrite Hz. }
  exists p2, rs2, n2. split; [done |]. split; [done |]. split; [lia |]. unfold spec_ops in *. cbn [fold_left]. by rewrite Es.
Qed.

Lemma exec_ops_read dirty key s0 ops : srv_ok s0 -> is_string (db s0 !! key) -> Forall op_ok ops -> forallb is_get ops = true -> forall rs n, exists rs',
  exec_ops llbuf stack_wrapped key dirty ops (Srv (db s0) (Server.dirty s0) (modified s0) (replies s0 ++ rs), n) =
    Some (Srv (db s0) (Server.dirty s0) (modified s0) (replies s0 ++ rs'), n) /\
  spec_ops dirty ops (bits_of (text_at s0 key), rs, n) = (bits_of (text_at s0 key), rs', n).
Proof.
  intros Hs0 Hstr Hops. induction Hops as [| op ops Hok Hops IH]; intros Hget rs n; [by exists rs |].
  cbn [forallb] in Hget. apply andb_true_iff in Hget as [Hg Hget]. cbn [exec_ops]. unfold is_get in Hg.
  destruct (op_code op) eqn:Ec; [| done | done]. unfold exec_op at 1. cbn [db]. rewrite Ec.
  destruct (text_at_ok s0 key Hs0) as [Hb _].
  rewrite (exec_get_spec llbuf Hll op (db s0 !! key) (bits_of (text_at s0 key))); [| done | done | intros k; by apply srv_ok_int | done | done].
  cbn [mbind option_bind]. unfold addReply at 1. cbn [db Server.dirty modified replies].
  destruct (IH Hget (rs ++ [RInt (field (op_sign op) (window (Z.to_nat (offset op)) (Z.to_nat (op_bits op)) (bits_of (text_at s0 key))))]) n) as (rs' & E & Es).
  exists rs'. rewrite <- app_assoc. split; [exact E |]. unfold spec_ops in *. cbn [fold_left]. unfold spec_op at 2. rewrite Ec. exact Es.
Qed.

(** C17: BITFIELD and BITFIELD_RO.  A request that does not parse sends one
    error.  Otherwise the operations act, in order, on the list of the bits of
    the value, made long enough for every write: each reads the field of its
    type at its offset (zero past the end), writes back what [store] allows
    (the sum or the value when it fits, wrapped, saturated, or nothing and a
    null reply), and answers the old or the new value as its kind says; no
    other bit changes.  The number of writes that changed a field, or of all
    writes when the value grew, is what [dirty] grows by, and the key is
    signalled when it is not 0.  With GETs only nothing is stored; writes are
    refused in BITFIELD_RO and on a value of another type.  A stored field
    reads back.  (For SET of a signed field the values must not be below
    [2^(bits-1) - 2^63], see [bitfield_overflow_correct].) *)
Theorem bitfieldGeneric_refines flag_readonly cmd key args s : srv_ok s ->
  let run := bitfieldGeneric proto_max_bulk_len mustObeyClient llbuf buf32 stack_wrapped flag_readonly (cmd :: key :: args) s in
  let t := text_at s key in
  match parse_ops proto_max_bulk_len mustObeyClient args ([], BFOVERFLOW_WRAP, true, 0) s with
  | (_, None) => exists msg, run = Some (addReplyError msg s)
  | (_, Some (ops, _, readonly, highest)) =>
      Forall op_ok ops /\ readonly = forallb is_get ops /\
      (readonly = false -> flag_readonly = true -> exists msg, run = Some (addReplyError msg s)) /\
      (readonly = true \/ flag_readonly = false -> db s !! key = Some VOther -> run = Some (addReplyError wrongtypeerr s)) /\
      (readonly = true -> is_string (db s !! key) -> exists rs,
         spec_ops false ops (bits_of t, [], 0) = (bits_of t, rs, 0) /\
         run = Some (Srv (db s) (dirty s) (modified s) (replies s ++ RArrayLen (zlen ops) :: rs))) /\
      (readonly = false -> flag_readonly = false -> is_string (db s !! key) -> Forall op_regular ops -> exists p rs n,
         bytes p /\ zlen p = Z.max (zlen t) (Z.shiftr highest 3 + 1) /\
         spec_ops (zlen t <=? Z.shiftr highest 3) ops (bits_of (pad (Z.shiftr highest 3) t), [], 0) = (bits_of p, rs, n) /\
         run = Some (Srv (<[key := VRaw p]> (db s)) (dirty s + n) (modified s ++ if n =? 0 then [] else [key])
                      (replies s ++ RArrayLen (zlen ops) :: rs)))
  end /\
  (forall sgn o bits v B, 1 <= bits -> (o + Z.to_nat bits <= length B)%nat -> fits_field sgn bits v ->
     field sgn (window o (Z.to_nat bits) (put o (nbits (Z.to_nat bits) v) B)) = v).
Proof.
  intros Hs. cbn zeta. split; [| intros sgn o bits v B Hb Hlen Hv; rewrite window_put by done; by apply field_nbits].
  unfold bitfieldGeneric. cbn [lookup list_lookup mbind option_bind]. change (drop 2 (cmd :: key :: args)) with args.
  assert (parse_inv ([], BFOVERFLOW_WRAP, true, 0)) as Hinit by (split_and!; try apply Forall_nil_2; done || (unfold LLONG_MAX; lia)).
  pose proof (parse_ops_parsed proto_max_bulk_len mustObeyClient (length args) args _ s (Nat.le_refl _) Hinit) as Hp.
  destruct (parse_ops _ _ _ _ _) as [s1 [[[[ops ow] ro] hi] |]]; cbn [parsed] in Hp; [| by destruct Hp as [msg ->]; exists msg].
  destruct Hp as [-> (Hops & Hbound & Hro & Hhi)]. unfold bitfield_lookup.
  split; [done |]. split; [done |]. split; [| split; [| split]].
  - intros -> ->. cbn. by eexists.
  - intros [-> | ->] Hw; [by rewrite Hw |]. destruct ro; [by rewrite Hw |]. unfold lookupStringForBitCommand. by rewrite Hw.
  - intros Er Hstr. rewrite Er, checkType_string by done. cbn [mbind option_bind]. rewrite Er in Hro.
    destruct (exec_ops_read false key (addReply (RArrayLen (zlen ops)) s) ops Hs Hstr Hops (eq_sym Hro) [] 0) as (rs & E & Es).
    exists rs. split; [exact Es |]. destruct s as [d di mo re]. cbn [db dirty modified replies addReply text_at] in *.
    rewrite app_nil_r in E. unfold addReply. cbn [db dirty modified replies]. rewrite E. cbn [mbind option_bind Z.eqb negb].
    by rewrite <- app_assoc.
  - intros Er Ef Hstr Hreg. rewrite Er, Ef.
    assert (0 <= Z.shiftr hi 3 <= 1152921504606846983) as Hbyte.
    { unfold LLONG_MAX in Hhi. rewrite Z.shiftr_div_pow2 by lia. change (2 ^ 3) with 8. split; [apply Z.div_pos; lia |]. dm. }
    rewrite (lookupString_spec buf32 H32 s key hi); [| intros n; by apply srv_ok_int | lia | done]. cbn [mbind option_bind].
    destruct (text_at_ok s key Hs) as [Hb Hlen]. unfold MAXLEN in Hlen. change (Z.shiftr LLONG_MAX 3) with 1152921504606846975 in Hlen.
    set (p := pad (Z.shiftr hi 3) (text_at s key)) in *. set (dirty0 := zlen (text_at s key) <=? Z.shiftr hi 3).
    assert (zlen p = Z.max (zlen (text_at s key)) (Z.shiftr hi 3 + 1)) as Hzp by apply zlen_pad.
    assert (8 * zlen p <= ULLONG_MAX) as Hmax by (unfold ULLONG_MAX; lia).
    assert (Forall (fun op => is_get op = false -> offset op + op_bits op <= 8 * zlen p) ops) as Hin.
    { eapply Forall_impl; [exact Hbound |]. cbn beta. intros op Ho Hg. specialize (Ho Hg).
      assert (hi + 1 <= 8 * (Z.shiftr hi 3 + 1)) by (rewrite Z.shiftr_div_pow2 by lia; change (2 ^ 3) with 8; dm). lia. }
    destruct (exec_ops_write dirty0 key (addReply (RArrayLen (zlen ops)) s) ops Hops Hreg p [] 0 (pad_bytes _ _ Hb) Hin Hmax)
      as (p' & rs & n & E & Hp' & Hz' & Es).
    exists p', rs, n. split; [done |]. split; [lia |]. split; [exact Es |].
    unfold running, addReply in E. cbn [db dirty modified replies] in E. rewrite app_nil_r in E.
    unfold addReply, set_value. cbn [db dirty modified replies]. rewrite E. cbn [mbind option_bind].
    rewrite <- app_assoc. cbn [app]. destruct (Z.eqb_spec n 0) as [-> |]; cbn [negb]; [by rewrite Z.add_0_r, app_nil_r |]. done.
Qed.
End command.

Lemma bitfieldGeneric_refines_witness :
  exists p, zlen p = 13 /\
  bitfieldCommand 536870912 false (replicate 21 0) (replicate 32 0) 7
    (map chars ["bitfield"; "k"; "SET"; "i8"; "#1"; "-3"; "overflow"; "sat"; "INCRBY"; "u2"; "100"; "5"; "GET"; "u16"; "4"]) (Srv ∅ 5 [] [])
  = Some (Srv {[chars "k" := VRaw p]} 7 [chars "k"] [RArrayLen 3; RInt 0; RInt 3; RInt 4048]).
Proof.
  destruct (bitfieldGeneric_refines 536870912 false (replicate 21 0) (replicate 32 0) 7 eq_refl eq_refl false (chars "bitfield") (chars "k")
    (map chars ["SET"; "i8"; "#1"; "-3"; "overflow"; "sat"; "INCRBY"; "u2"; "100"; "5"; "GET"; "u16"; "4"]) (Srv ∅ 5 [] [])) as [Hr _].
  { intros k v E. cbn [db] in E. by rewrite lookup_empty in E. }
  pose (ops := [BitfieldOp 8 (-3) BITFIELDOP_SET BFOVERFLOW_WRAP 8 true; BitfieldOp 100 5 BITFIELDOP_INCRBY BFOVERFLOW_SAT 2 false;
    BitfieldOp 4 0 BITFIELDOP_GET BFOVERFLOW_SAT 16 false]).
  assert (parse_ops 536870912 false (map chars ["SET"; "i8"; "#1"; "-3"; "overflow"; "sat"; "INCRBY"; "u2"; "100"; "5"; "GET"; "u16"; "4"])
    ([], BFOVERFLOW_WRAP, true, 0) (Srv ∅ 5 [] []) = (Srv ∅ 5 [] [], Some (ops, BFOVERFLOW_SAT, false, 101))) as Ep by (vm_compute; reflexivity).
  rewrite Ep in Hr. destruct Hr as (_ & _ & _ & _ & _ & Hw).
  destruct (Hw eq_refl eq_refl) as (p & rs & n & _ & Hz & Hspec & E).
  { cbn [db]. rewrite lookup_empty. discriminate. }
  { unfold ops. repeat apply Forall_cons_2; [| discriminate | discriminate | apply Forall_nil_2]. intros _ _. cbn. lia. }
  exists p. split; [exact Hz |]. assert (rs = [RInt 0; RInt 3; RInt 4048] /\ n = 2) as [-> ->].
  { pose proof (f_equal snd Hspec) as Hn. pose proof (f_equal (fun st => snd (fst st)) Hspec) as Hrs. cbn [fst snd] in Hn, Hrs.
    rewrite <- Hn, <- Hrs. vm_compute. split; reflexivity. }
  exact E.
Defined.
