(* ===== verification/StringCmds.v ===== *)
(** t_string.c: GET, GETSET, GETDEL, SETNX, SETRANGE, GETRANGE, MGET, MSET,
    MSETNX, INCR and its kin, APPEND and STRLEN, on the state of Server.v.

    The options of SET and GETEX that set a time to live, and INCRBYFLOAT
    (whose arithmetic is that of [long double]), are left out: [setGenericCommand]
    is modelled for [expire == NULL].  A shared integer object is like any
    integer object here. *)
From stdpp Require Import strings gmap.
From S2P Require Import Prelude Endian Strnum Server.

(** * Objects *)

(** [tryObjectEncoding]: short canonical integers get the integer encoding. *)
Definition tryObjectEncoding (s : list Z) : value :=
  if zlen s <=? 20 then match string2ll s with Some v => VInt v | None => VRaw s end else VRaw s.

Definition createStringObjectFromLongLongForValue (v : Z) : value := VInt v.

Definition stringObjectLen (v : value) : option Z :=
  match v with VRaw p => Some (zlen p) | VInt n => Some (sdigits10 n) | VOther => None end.

(** An absent object counts as 0; the failed assertion on other types is not
    distinguished from a string that is not an integer. *)
Definition getLongLongFromObject (o : option value) : option Z :=
  match o with
  | None => Some 0
  | Some (VRaw p) => string2ll p
  | Some (VInt n) => Some n
  | Some VOther => None
  end.


Section commands.
Context (proto_max_bulk_len : Z) (mustObeyClient : bool) (buf32 : list Z).

Definition addReplyBulk (v : value) (s : srv) : option srv := p ← decoded buf32 (Some v); Some (addReply (RBulk p) s).

(** [dbUnshareStringValue]: the bytes, now stored with the raw encoding. *)
Definition dbUnshareStringValue (v : value) : option (list Z) := decoded buf32 (Some v).

Definition checkStringLength (size append : Z) (s : srv) : srv * bool :=
  if mustObeyClient then (s, true)
  else
    let total := i64 (u64 (u64 size + append)) in
    if (proto_max_bulk_len <? total) || (total <? size) || (total <? append)
    then (addReplyError "string exceeds maximum allowed size (proto-max-bulk-len)" s, false)
    else (s, true).

(** * GET, SET and their variants *)

(** The state and whether the result is [C_OK]. *)
Definition getGenericCommand (key : list Z) (s : srv) : option (srv * bool) :=
  match db s !! key with
  | None => Some (addReply RNull s, true)
  | Some v =>
      let '(s, wrong) := checkType (Some v) s in
      if (wrong : bool) then Some (s, false) else s ← addReplyBulk v s; Some (s, true)
  end.

Definition setGenericCommand (set_nx set_xx set_get : bool) (argv1 key : list Z) (val : value) (ok_reply abort_reply : option reply) (s : srv) : option srv :=
  '(s, ok) ← (if set_get then getGenericCommand argv1 s else Some (s, true));
  if negb ok then Some s
  else
    let found := match db s !! key with Some _ => true | None => false end in
    if set_nx && found || set_xx && negb found then
      Some (if negb set_get then addReply (default RNull abort_reply) s else s)
    else
      let s := add_dirty 1 (setKey key val s) in
      Some (if negb set_get then addReply (default ROk ok_reply) s else s).

Definition setnxCommand (argv : list (list Z)) (s : srv) : option srv :=
  key ← argv !! 1%nat; v ← argv !! 2%nat;
  setGenericCommand true false false key key (tryObjectEncoding v) (Some (RInt 1)) (Some (RInt 0)) s.

Definition getCommand (argv : list (list Z)) (s : srv) : option srv :=
  key ← argv !! 1%nat; fst <$> getGenericCommand key s.

Definition getsetCommand (argv : list (list Z)) (s : srv) : option srv :=
  key ← argv !! 1%nat; v ← argv !! 2%nat;
  '(s, ok) ← getGenericCommand key s;
  if negb ok then Some s else Some (add_dirty 1 (setKey key (tryObjectEncoding v) s)).

Definition getdelCommand (argv : list (list Z)) (s : srv) : option srv :=
  key ← argv !! 1%nat;
  '(s, ok) ← getGenericCommand key s;
  if negb ok then Some s
  else
    match db s !! key with
    | Some _ => Some (add_dirty 1 (signalModifiedKey key (dbDelete key s)))
    | None => Some s
    end.

(** * Ranges *)

(** The end of SETRANGE: the value grown and copied over. *)
Definition setrange_write (key value p : list Z) (offset : Z) (s : srv) : option srv :=
  let p := p ++ replicate (Z.to_nat (offset + zlen value - zlen p)) 0 in
  p ← wrn p offset value;
  Some (addReplyLongLong (zlen p) (add_dirty 1 (signalModifiedKey key (set_value key (VRaw p) s)))).

Definition setrangeCommand (argv : list (list Z)) (s : srv) : option srv :=
  key ← argv !! 1%nat; a2 ← argv !! 2%nat; value ← argv !! 3%nat;
  let '(s, offset) := getLongFromObjectOrReply a2 None s in
  match offset with
  | None => Some s
  | Some offset =>
      if offset <? 0 then Some (addReplyError "offset is out of range" s)
      else
        match db s !! key with
        | None =>
            if zlen value =? 0 then Some (addReply (RInt 0) s)
            else
              let '(s, ok) := checkStringLength offset (zlen value) s in
              if negb ok then Some s
              else setrange_write key value (replicate (Z.to_nat (offset + zlen value)) 0) offset s
        | Some o =>
            let '(s, wrong) := checkType (Some o) s in
            if (wrong : bool) then Some s
            else
              olen ← stringObjectLen o;
              if zlen value =? 0 then Some (addReplyLongLong olen s)
              else
                let '(s, ok) := checkStringLength offset (zlen value) s in
                if negb ok then Some s else p ← dbUnshareStringValue o; setrange_write key value p offset s
        end
  end.

Definition getrangeCommand (argv : list (list Z)) (s : srv) : option srv :=
  key ← argv !! 1%nat; a2 ← argv !! 2%nat; a3 ← argv !! 3%nat;
  let '(s, start) := getLongLongFromObjectOrReply a2 None s in
  match start with
  | None => Some s
  | Some start =>
      let '(s, end_) := getLongLongFromObjectOrReply a3 None s in
      match end_ with
      | None => Some s
      | Some end_ =>
          match db s !! key with
          | None => Some (addReply (RBulk []) s)
          | Some o =>
              let '(s, wrong) := checkType (Some o) s in
              if (wrong : bool) then Some s
              else
                str ← decoded buf32 (Some o);
                let strlen := zlen str in
                if (start <? 0) && (end_ <? 0) && (end_ <? start) then Some (addReply (RBulk []) s)
                else
                  let start := if start <? 0 then i64 (u64 (strlen + start)) else start in
                  let end_ := if end_ <? 0 then i64 (u64 (strlen + end_)) else end_ in
                  let start := if start <? 0 then 0 else start in
                  let end_ := if end_ <? 0 then 0 else end_ in
                  let end_ := if strlen <=? u64 end_ then i64 (u64 (strlen - 1)) else end_ in
                  if (end_ <? start) || (strlen =? 0) then Some (addReply (RBulk []) s)
                  else p ← rdn str start (end_ - start + 1); Some (addReply (RBulk p) s)
          end
      end
  end.

(** * MGET, MSET and MSETNX *)

Fixpoint mget_loop (keys : list (list Z)) (s : srv) : option srv :=
  match keys with
  | [] => Some s
  | key :: keys =>
      s ← (match db s !! key with
           | None | Some VOther => Some (addReply RNull s)
           | Some o => addReplyBulk o s
           end);
      mget_loop keys s
  end.

Definition mgetCommand (argv : list (list Z)) (s : srv) : option srv :=
  mget_loop (drop 1 argv) (addReply (RArrayLen (zlen argv - 1)) s).

(** Whether a key of the pairs exists. *)
Fixpoint mset_exists (pairs : list (list Z)) (s : srv) : bool :=
  match pairs with
  | key :: _ :: pairs => match db s !! key with Some _ => true | None => mset_exists pairs s end
  | _ => false
  end.

Fixpoint mset_loop (pairs : list (list Z)) (s : srv) : srv :=
  match pairs with
  | key :: v :: pairs => mset_loop pairs (setKey key (tryObjectEncoding v) s)
  | _ => s
  end.

(** [fullname] is the name of the command in the command table. *)
Definition msetGenericCommand (fullname : string) (nx : bool) (argv : list (list Z)) (s : srv) : option srv :=
  let argc := zlen argv in
  if argc mod 2 =? 0 then Some (addReplyErrorArity fullname s)
  else if nx && mset_exists (drop 1 argv) s then Some (addReply (RInt 0) s)
  else
    let s := mset_loop (drop 1 argv) s in
    let s := add_dirty ((argc - 1) / 2) s in
    Some (addReply (if nx then RInt 1 else ROk) s).

Definition msetCommand : list (list Z) -> srv -> option srv := msetGenericCommand "mset" false.
Definition msetnxCommand : list (list Z) -> srv -> option srv := msetGenericCommand "msetnx" true.

(** * Counters *)

Definition incrDecrCommand (argv : list (list Z)) (incr : Z) (s : srv) : option srv :=
  key ← argv !! 1%nat;
  let o := db s !! key in
  let '(s, wrong) := checkType o s in
  if (wrong : bool) then Some s
  else
    match getLongLongFromObject o with
    | None => Some (addReplyError "value is not an integer or out of range" s)
    | Some value =>
        let oldvalue := value in
        if (incr <? 0) && (oldvalue <? 0) && (incr <? LLONG_MIN - oldvalue) ||
           (0 <? incr) && (0 <? oldvalue) && (LLONG_MAX - oldvalue <? incr)
        then Some (addReplyError "increment or decrement would overflow" s)
        else
          let value := i64 (value + incr) in
          let s := set_value key (createStringObjectFromLongLongForValue value) s in
          Some (addReplyLongLong value (add_dirty 1 (signalModifiedKey key s)))
    end.

Definition incrCommand (argv : list (list Z)) : srv -> option srv := incrDecrCommand argv 1.
Definition decrCommand (argv : list (list Z)) : srv -> option srv := incrDecrCommand argv (-1).

Definition incrbyCommand (argv : list (list Z)) (s : srv) : option srv :=
  a2 ← argv !! 2%nat;
  let '(s, incr) := getLongLongFromObjectOrReply a2 None s in
  match incr with None => Some s | Some incr => incrDecrCommand argv incr s end.

Definition decrbyCommand (argv : list (list Z)) (s : srv) : option srv :=
  a2 ← argv !! 2%nat;
  let '(s, incr) := getLongLongFromObjectOrReply a2 None s in
  match incr with
  | None => Some s
  | Some incr =>
      if incr =? LLONG_MIN then Some (addReplyError "decrement would overflow" s)
      else incrDecrCommand argv (- incr) s
  end.

(** * APPEND and STRLEN *)

Definition appendCommand (argv : list (list Z)) (s : srv) : option srv :=
  key ← argv !! 1%nat; append ← argv !! 2%nat;
  '(s, totlen) ← (match db s !! key with
    | None =>
        let v := tryObjectEncoding append in
        totlen ← stringObjectLen v; Some (set_value key v s, Some totlen)
    | Some o =>
        let '(s, wrong) := checkType (Some o) s in
        if (wrong : bool) then Some (s, None)
        else
          olen ← stringObjectLen o;
          let '(s, ok) := checkStringLength olen (zlen append) s in
          if negb ok then Some (s, None)
          else p ← dbUnshareStringValue o; Some (set_value key (VRaw (p ++ append)) s, Some (zlen (p ++ append)))
    end);
  match totlen with
  | None => Some s
  | Some totlen => Some (addReplyLongLong totlen (add_dirty 1 (signalModifiedKey key s)))
  end.

Definition strlenCommand (argv : list (list Z)) (s : srv) : option srv :=
  key ← argv !! 1%nat;
  match db s !! key with
  | None => Some (addReply (RInt 0) s)
  | Some o =>
      let '(s, wrong) := checkType (Some o) s in
      if (wrong : bool) then Some s else n ← stringObjectLen o; Some (addReplyLongLong n s)
  end.
End commands.

(** A session. *)
Definition session (cmds : list (srv -> option srv)) : option srv := fold_left (fun s cmd => s ← s; cmd s) cmds (Some (Srv ∅ 0 [] [])).
Example session_ex :
  (let b := replicate 32 0 in let a l := map chars l in
   replies <$> session [msetCommand (a ["mset"; "x"; "10"; "y"; "abc"]); incrbyCommand (a ["incrby"; "x"; "-12"]);
     appendCommand 100 false b (a ["append"; "x"; "7"]); getCommand b (a ["get"; "x"]);
     setrangeCommand 100 false b (a ["setrange"; "y"; "5"; "zz"]); getrangeCommand b (a ["getrange"; "y"; "-4"; "-2"]);
     getdelCommand b (a ["getdel"; "x"]); mgetCommand b (a ["mget"; "x"; "y"]);
     msetnxCommand (a ["msetnx"; "x"; "1"; "y"])])
  = Some [ROk; RInt (-2); RInt 3; RBulk (chars "-27"); RInt 7; RBulk [0; 0; 122]; RBulk (chars "-27");
          RArrayLen 2; RNull; RBulk [97; 98; 99; 0; 0; 122; 122];
          RErr "wrong number of arguments for 'msetnx' command"].
Proof. vm_compute. reflexivity. Qed.
