(* ===== verification/StringThms.v ===== *)
(** The string commands as operations on a map from keys to byte strings: the
    integer encoding of values cannot be observed. *)
From stdpp Require Import strings gmap.
From S2P Require Import Prelude Endian Strnum Server StringCmds.

(** * States up to the encoding of values *)

Definition flat_value (v : value) : value := match v with VOther => VOther | _ => VRaw (text v) end.
Definition flat (s : srv) : srv := Srv (flat_value <$> db s) (dirty s) (modified s) (replies s).

#[export] Instance srv_equiv : Equiv srv := fun s s' => flat s = flat s'.
#[export] Instance srv_equivalence : Equivalence (≡@{srv}).
Proof. split; repeat intro; unfold equiv, srv_equiv in *; congruence. Qed.

Lemma flat_idemp s : flat s ≡ s.
Proof.
  unfold equiv, srv_equiv, flat. cbn [db dirty modified replies]. f_equal. rewrite <- map_fmap_compose.
  apply map_fmap_ext. intros k v _. by destruct v.
Qed.

(** Equivalent states have the same values at a key. *)
Lemma equiv_lookup s s' key : s ≡ s' -> flat_value <$> db s !! key = flat_value <$> db s' !! key.
Proof.
  intros E. apply (f_equal (fun s => db s !! key)) in E. unfold flat in E. cbn [db] in E. by rewrite !lookup_fmap in E.
Qed.

#[export] Instance addReply_proper r : Proper ((≡) ==> (≡)) (addReply r).
Proof. intros s s' E. unfold equiv, srv_equiv, flat in *. cbn in *. by injection E as -> -> -> ->. Qed.
#[export] Instance add_dirty_proper n : Proper ((≡) ==> (≡)) (add_dirty n).
Proof. intros s s' E. unfold equiv, srv_equiv, flat in *. cbn in *. by injection E as -> -> -> ->. Qed.
#[export] Instance signal_proper key : Proper ((≡) ==> (≡)) (signalModifiedKey key).
Proof. intros s s' E. unfold equiv, srv_equiv, flat in *. cbn in *. by injection E as -> -> -> ->. Qed.
#[export] Instance dbDelete_proper key : Proper ((≡) ==> (≡)) (dbDelete key).
Proof.
  intros s s' E. unfold equiv, srv_equiv, flat in *. cbn in *. injection E as E -> -> ->. by rewrite !fmap_delete, E.
Qed.

Lemma set_value_equiv key v v' s s' : flat_value v = flat_value v' -> s ≡ s' -> set_value key v s ≡ set_value key v' s'.
Proof.
  intros Ev E. unfold equiv, srv_equiv, flat in *. cbn in *. injection E as E -> -> ->. by rewrite !fmap_insert, E, Ev.
Qed.

Lemma flat_encoding t : flat_value (tryObjectEncoding t) = VRaw t.
Proof.
  unfold tryObjectEncoding. destruct (_ <=? _); [| done]. destruct (string2ll t) as [n |] eqn:E; [| done].
  apply string2ll_inv in E as [_ ->]. done.
Qed.

Lemma text_encoding t : text (tryObjectEncoding t) = t /\ tryObjectEncoding t <> VOther.
Proof. pose proof (flat_encoding t) as E. destruct (tryObjectEncoding t); cbn [flat_value text] in E; [by injection E as -> | injection E as E; by cbn [text] | done]. Qed.

Lemma tryObjectEncoding_ok t : bytes t -> zlen t <= MAXLEN -> value_ok (tryObjectEncoding t).
Proof.
  intros Hb Hl. unfold tryObjectEncoding. destruct (_ <=? _); [| done]. destruct (string2ll t) as [n |] eqn:E; [| done].
  by apply string2ll_inv in E as [? _].
Qed.

(** * The specification *)

(** Run [k] on the string at the key, if there is one; an error on a value of
    another type. *)
Definition with_string (key : list Z) (s : srv) (k : option (list Z) -> srv) : srv :=
  match db s !! key with
  | Some VOther => addReplyError wrongtypeerr s
  | o => k (text <$> o)
  end.

Definition put (key t : list Z) (s : srv) : srv := setKey key (VRaw t) s.
Definition bulk (o : option (list Z)) : reply := match o with Some t => RBulk t | None => RNull end.

(** [l] with [v] written over it from position [o] on, zeros between. *)
Definition overwrite (o : Z) (v l : list Z) : list Z :=
  take (Z.to_nat o) (l ++ replicate (Z.to_nat (o - zlen l)) 0) ++ v ++ drop (Z.to_nat (o + zlen v)) l.

Inductive request :=
| Get (key : list Z) | Setnx (key v : list Z) | Getset (key v : list Z) | Getdel (key : list Z)
| Setrange (key offset v : list Z) | Getrange (key start end_ : list Z)
| Mget (keys : list (list Z)) | Mset (nx : bool) (pairs : list (list Z))
| Incr (key : list Z) | Decr (key : list Z) | Incrby (key n : list Z) | Decrby (key n : list Z)
| Append (key v : list Z) | Strlen (key : list Z).

Section spec.
Context (limit : Z).

Definition notint : reply := RErr "value is not an integer or out of range".
Definition toolong : reply := RErr "string exceeds maximum allowed size (proto-max-bulk-len)".

Definition spec_incr (key : list Z) (n : Z) (s : srv) : srv :=
  with_string key s (fun o =>
    match (match o with Some t => string2ll t | None => Some 0 end) with
    | None => addReply notint s
    | Some v =>
        if (LLONG_MIN <=? v + n) && (v + n <=? LLONG_MAX)
        then addReply (RInt (v + n)) (add_dirty 1 (put key (sdec (v + n)) s))
        else addReply (RErr "increment or decrement would overflow") s
    end).

Fixpoint spec_mset (pairs : list (list Z)) (s : srv) : srv :=
  match pairs with key :: v :: pairs => spec_mset pairs (put key v s) | _ => s end.

Definition spec_range (t : list Z) (start end_ : Z) : list Z :=
  if (start <? 0) && (end_ <? 0) && (end_ <? start) then []
  else slice (norm (zlen t) start) (Z.min (zlen t - 1) (norm (zlen t) end_) + 1) t.

Definition spec (r : request) (s : srv) : srv :=
  match r with
  | Get key => with_string key s (fun o => addReply (bulk o) s)
  | Setnx key v =>
      match db s !! key with
      | Some _ => addReply (RInt 0) s
      | None => addReply (RInt 1) (add_dirty 1 (put key v s))
      end
  | Getset key v => with_string key s (fun o => add_dirty 1 (put key v (addReply (bulk o) s)))
  | Getdel key =>
      with_string key s (fun o =>
        match o with
        | Some _ => add_dirty 1 (signalModifiedKey key (dbDelete key (addReply (bulk o) s)))
        | None => addReply RNull s
        end)
  | Setrange key offset v =>
      match string2ll offset with
      | None => addReply notint s
      | Some offset =>
          if offset <? 0 then addReply (RErr "offset is out of range") s
          else with_string key s (fun o =>
            let t := default [] o in
            if zlen v =? 0 then addReply (RInt (zlen t)) s
            else if limit <? offset + zlen v then addReply toolong s
            else addReply (RInt (Z.max (zlen t) (offset + zlen v))) (add_dirty 1 (put key (overwrite offset v t) s)))
      end
  | Getrange key start end_ =>
      match string2ll start, string2ll end_ with
      | Some start, Some end_ => with_string key s (fun o => addReply (RBulk (spec_range (default [] o) start end_)) s)
      | _, _ => addReply notint s
      end
  | Mget keys =>
      fold_left (fun s' key => addReply (bulk (match db s !! key with Some VOther => None | o => text <$> o end)) s') keys
        (addReply (RArrayLen (zlen keys)) s)
  | Mset nx pairs =>
      if Z.odd (zlen pairs) then addReply (RErr (if nx then "wrong number of arguments for 'msetnx' command" else "wrong number of arguments for 'mset' command")) s
      else if nx && mset_exists pairs s then addReply (RInt 0) s
      else addReply (if nx then RInt 1 else ROk) (add_dirty (zlen pairs / 2) (spec_mset pairs s))
  | Incr key => spec_incr key 1 s
  | Decr key => spec_incr key (-1) s
  | Incrby key n => match string2ll n with Some n => spec_incr key n s | None => addReply notint s end
  | Decrby key n =>
      match string2ll n with
      | Some n => if n =? LLONG_MIN then addReply (RErr "decrement would overflow") s else spec_incr key (- n) s
      | None => addReply notint s
      end
  | Append key v =>
      with_string key s (fun o =>
        match o with
        | Some t =>
            if limit <? zlen t + zlen v then addReply toolong s
            else addReply (RInt (zlen t + zlen v)) (add_dirty 1 (put key (t ++ v) s))
        | None => addReply (RInt (zlen v)) (add_dirty 1 (put key v s))
        end)
  | Strlen key => with_string key s (fun o => addReply (RInt (zlen (default [] o))) s)
  end.
End spec.

(** * The invariant of the database *)

Create HintDb srv.

Lemma addReply_ok r s : srv_ok s -> srv_ok (addReply r s). Proof. done. Qed.
Lemma addReplyLongLong_ok n s : srv_ok s -> srv_ok (addReplyLongLong n s). Proof. done. Qed.
Lemma addReplyError_ok m s : srv_ok s -> srv_ok (addReplyError m s). Proof. done. Qed.
Lemma add_dirty_ok n s : srv_ok s -> srv_ok (add_dirty n s). Proof. done. Qed.
Lemma signal_ok key s : srv_ok s -> srv_ok (signalModifiedKey key s). Proof. done. Qed.
Lemma set_value_ok key v s : value_ok v -> srv_ok s -> srv_ok (set_value key v s).
Proof. intros Hv Hs. unfold srv_ok, set_value. cbn [db]. by apply map_Forall_insert_2. Qed.
Lemma setKey_ok key v s : value_ok v -> srv_ok s -> srv_ok (setKey key v s).
Proof. intros. unfold setKey. by apply set_value_ok. Qed.
Lemma dbDelete_ok key s : srv_ok s -> srv_ok (dbDelete key s).
Proof. intros Hs. unfold srv_ok, dbDelete. cbn [db]. by apply map_Forall_delete. Qed.
#[export] Hint Resolve addReply_ok addReplyLongLong_ok addReplyError_ok add_dirty_ok signal_ok set_value_ok setKey_ok dbDelete_ok tryObjectEncoding_ok : srv.

Lemma setKey_encoding key t s s' : s ≡ s' -> setKey key (tryObjectEncoding t) s ≡ put key t s'.
Proof. intros E. unfold put, setKey. apply signal_proper, set_value_equiv; [apply flat_encoding | done]. Qed.

Lemma setKey_int key n s s' : s ≡ s' -> setKey key (VInt n) s ≡ put key (sdec n) s'.
Proof. intros E. unfold put, setKey. by apply signal_proper, set_value_equiv. Qed.

#[export] Instance put_proper key t : Proper ((≡) ==> (≡)) (put key t).
Proof. intros s s' E. unfold put, setKey. by apply signal_proper, set_value_equiv. Qed.

Lemma stringObjectLen_spec v : value_ok v -> v <> VOther -> stringObjectLen v = Some (zlen (text v)).
Proof. intros Hv Ho. destruct v as [p | n |]; [done | cbn; by rewrite sdigits10_spec | done]. Qed.

Section run.
Context (proto_max_bulk_len : Z) (buf32 : list Z) (H32 : zlen buf32 = 32) (Hmax : 0 <= proto_max_bulk_len <= MAXLEN).

Definition argv_of (r : request) : list (list Z) :=
  match r with
  | Get key => [chars "get"; key] | Setnx key v => [chars "setnx"; key; v] | Getset key v => [chars "getset"; key; v]
  | Getdel key => [chars "getdel"; key] | Setrange key offset v => [chars "setrange"; key; offset; v]
  | Getrange key start end_ => [chars "getrange"; key; start; end_] | Mget keys => chars "mget" :: keys
  | Mset nx pairs => (if nx then chars "msetnx" else chars "mset") :: pairs
  | Incr key => [chars "incr"; key] | Decr key => [chars "decr"; key] | Incrby key n => [chars "incrby"; key; n]
  | Decrby key n => [chars "decrby"; key; n] | Append key v => [chars "append"; key; v] | Strlen key => [chars "strlen"; key]
  end.

Definition run (r : request) (s : srv) : option srv :=
  let a := argv_of r in
  match r with
  | Get _ => getCommand buf32 a s
  | Setnx _ _ => setnxCommand buf32 a s
  | Getset _ _ => getsetCommand buf32 a s
  | Getdel _ => getdelCommand buf32 a s
  | Setrange _ _ _ => setrangeCommand proto_max_bulk_len false buf32 a s
  | Getrange _ _ _ => getrangeCommand buf32 a s
  | Mget _ => mgetCommand buf32 a s
  | Mset nx _ => if nx then msetnxCommand a s else msetCommand a s
  | Incr _ => incrCommand a s
  | Decr _ => decrCommand a s
  | Incrby _ _ => incrbyCommand a s
  | Decrby _ _ => decrbyCommand a s
  | Append _ _ => appendCommand proto_max_bulk_len false buf32 a s
  | Strlen _ => strlenCommand a s
  end.

(** The strings a request stores. *)
Definition storable (v : list Z) : Prop := bytes v /\ zlen v <= MAXLEN.
Definition request_ok (r : request) : Prop :=
  match r with
  | Setnx _ v | Getset _ v | Append _ v | Setrange _ _ v => storable v
  | Mset _ pairs => Forall storable pairs
  | _ => True
  end.

(** What a request does: it returns, as specified and with the database in
    order. *)
Definition runs (r : option srv) (s' : srv) : Prop := exists s1, r = Some s1 /\ s1 ≡ s' /\ srv_ok s1.

Lemma runs_intro s1 s' : srv_ok s1 -> s1 ≡ s' -> runs (Some s1) s'.
Proof. intros. by exists s1. Qed.

Lemma checkStringLength_spec size append s : 0 <= size <= LLONG_MAX -> 0 <= append <= MAXLEN ->
  checkStringLength proto_max_bulk_len false size append s =
  if proto_max_bulk_len <? size + append then (addReply toolong s, false) else (s, true).
Proof.
  intros Hs Ha. unfold checkStringLength. unfold MAXLEN in *. change (Z.shiftr LLONG_MAX 3) with 1152921504606846975 in *. unfold LLONG_MAX in Hs.
  rewrite (u64_id size), (u64_id (size + append)) by (unfold is_u64; lia).
  destruct (Z.le_gt_cases (size + append) LLONG_MAX) as [H | H]; unfold LLONG_MAX in H.
  - rewrite i64_id by (unfold is_i64; lia).
    rewrite (proj2 (Z.ltb_ge (size + append) size)), (proj2 (Z.ltb_ge (size + append) append)), !orb_false_r by lia. done.
  - assert (i64 (size + append) = size + append - 18446744073709551616) as ->.
    { unfold i64. replace (size + append + 9223372036854775808) with (size + append - 9223372036854775808 + 1 * 18446744073709551616) by lia.
      rewrite Z_mod_plus_full, Z.mod_small by lia. lia. }
    rewrite (proj2 (Z.ltb_lt _ size)), orb_true_r by lia. rewrite (proj2 (Z.ltb_lt proto_max_bulk_len _)) by lia. done.
Qed.

(** The value at a key: absent, a string, or of another type. *)
Lemma key_cases s key : srv_ok s ->
  db s !! key = None \/ db s !! key = Some VOther \/
  exists v, db s !! key = Some v /\ value_ok v /\ v <> VOther /\ storable (text v) /\
    decoded buf32 (Some v) = Some (text v) /\ stringObjectLen v = Some (zlen (text v)) /\
    (forall s', checkType (Some v) s' = (s', false)) /\ (forall k, with_string key s k = k (Some (text v))).
Proof.
  intros Hs. destruct (db s !! key) as [v |] eqn:E; [right | by left]. destruct (decide (v = VOther)) as [-> | Hv]; [by left | right].
  exists v. pose proof (Hs key v E : value_ok v) as Hok. split; [done |]. split; [done |]. split; [done |]. split; [by apply text_ok |].
  split; [apply decoded_spec; [done | by intros n -> | unfold is_string; congruence] |].
  split; [by apply stringObjectLen_spec |].
  split; [intros s'; apply checkType_string; unfold is_string; congruence |].
  intros k. unfold with_string. rewrite E. by destruct v.
Qed.

Ltac runs_tac := apply runs_intro; [by auto 10 with srv | try reflexivity].

Ltac key_case s key Hs :=
  let v := fresh "v" in let E := fresh "E" in
  destruct (key_cases s key Hs) as [E | [E | (v & E & ?Hv & ?Hne & [?Hb ?Hl] & ?Hdec & ?Hlen & ?Hct & ?Hws)]].

Lemma get_runs key s : srv_ok s -> runs (fst <$> getGenericCommand buf32 key s) (with_string key s (fun o => addReply (bulk o) s)).
Proof.
  intros Hs. unfold getGenericCommand, addReplyBulk. key_case s key Hs; rewrite ?E.
  - unfold with_string. rewrite E. runs_tac.
  - unfold with_string. rewrite E. runs_tac.
  - rewrite Hct, Hdec, Hws. cbn [mbind option_bind fmap option_fmap option_map fst]. runs_tac.
Qed.

(** The state after the reply of a GET, and whether the command goes on. *)
Lemma getGeneric_cases key s : srv_ok s ->
  (db s !! key = Some VOther /\ getGenericCommand buf32 key s = Some (addReplyError wrongtypeerr s, false)) \/
  (db s !! key <> Some VOther /\ getGenericCommand buf32 key s = Some (addReply (bulk (text <$> db s !! key)) s, true)).
Proof.
  intros Hs. unfold getGenericCommand, addReplyBulk. key_case s key Hs; rewrite ?E; [by right | by left | right].
  split; [congruence |]. by rewrite Hct, Hdec.
Qed.

Lemma with_string_string key s k : db s !! key <> Some VOther -> with_string key s k = k (text <$> db s !! key).
Proof. intros H. unfold with_string. by destruct (db s !! key) as [[] |]. Qed.

Lemma setnx_runs key v s : srv_ok s -> storable v -> runs (run (Setnx key v) s) (spec proto_max_bulk_len (Setnx key v) s).
Proof.
  intros Hs [Hb Hl]. cbn [run argv_of spec]. unfold setnxCommand, setGenericCommand. cbn [lookup list_lookup mbind option_bind negb andb orb].
  destruct (db s !! key); cbn [andb orb negb default]; (apply runs_intro; [by auto 10 with srv |]); [done |].
  by apply addReply_proper, add_dirty_proper, setKey_encoding.
Qed.

Lemma getset_runs key v s : srv_ok s -> storable v -> runs (run (Getset key v) s) (spec proto_max_bulk_len (Getset key v) s).
Proof.
  intros Hs [Hb Hl]. cbn [run argv_of spec]. unfold getsetCommand. cbn [lookup list_lookup mbind option_bind].
  destruct (getGeneric_cases key s Hs) as [[E ->] | [E ->]]; cbn [mbind option_bind negb].
  - unfold with_string. rewrite E. runs_tac.
  - rewrite with_string_string by done. runs_tac.
    by apply add_dirty_proper, setKey_encoding.
Qed.

Lemma getdel_runs key s : srv_ok s -> runs (run (Getdel key) s) (spec proto_max_bulk_len (Getdel key) s).
Proof.
  intros Hs. cbn [run argv_of spec]. unfold getdelCommand. cbn [lookup list_lookup mbind option_bind].
  destruct (getGeneric_cases key s Hs) as [[E ->] | [E ->]]; cbn [mbind option_bind negb].
  - unfold with_string. rewrite E. runs_tac.
  - rewrite with_string_string by done. cbn [addReply db]. destruct (db s !! key); runs_tac.
Qed.

Lemma strlen_runs key s : srv_ok s -> runs (run (Strlen key) s) (spec proto_max_bulk_len (Strlen key) s).
Proof.
  intros Hs. cbn [run argv_of spec]. unfold strlenCommand. cbn [lookup list_lookup mbind option_bind].
  key_case s key Hs; rewrite ?E; [by unfold with_string; rewrite E; runs_tac.. |].
  rewrite Hct, Hlen, Hws. cbn [mbind option_bind default]. runs_tac.
Qed.

Lemma append_runs key a s : srv_ok s -> storable a -> runs (run (Append key a) s) (spec proto_max_bulk_len (Append key a) s).
Proof.
  intros Hs [Ha Hal]. cbn [run argv_of spec]. unfold appendCommand, dbUnshareStringValue. cbn [lookup list_lookup mbind option_bind].
  key_case s key Hs; rewrite ?E.
  - unfold with_string. rewrite E. cbn [fmap option_fmap option_map].
    destruct (text_encoding a) as [Et Ene]. rewrite stringObjectLen_spec, Et by (done || by apply tryObjectEncoding_ok).
    cbn [mbind option_bind]. runs_tac. apply addReply_proper, add_dirty_proper. unfold put, setKey.
    apply signal_proper, set_value_equiv; [apply flat_encoding | done].
  - unfold with_string. rewrite E. runs_tac.
  - rewrite Hct, Hlen, Hws. cbn [mbind option_bind]. pose proof (zlen_nonneg (text v)). pose proof (zlen_nonneg a).
    unfold MAXLEN in *. change (Z.shiftr LLONG_MAX 3) with 1152921504606846975 in *.
    rewrite checkStringLength_spec by (unfold LLONG_MAX, MAXLEN; change (Z.shiftr LLONG_MAX 3) with 1152921504606846975; lia).
    destruct (Z.ltb_spec proto_max_bulk_len (zlen (text v) + zlen a)); cbn [negb mbind option_bind].
    + runs_tac.
    + rewrite Hdec. cbn [mbind option_bind]. rewrite zlen_app. apply runs_intro; [| done].
      apply addReply_ok, add_dirty_ok, signal_ok, set_value_ok; [| done].
      split; [by apply Forall_app_2 | rewrite zlen_app; unfold MAXLEN; change (Z.shiftr LLONG_MAX 3) with 1152921504606846975; lia].
Qed.

Lemma incr_runs r key n s : srv_ok s -> is_i64 n -> argv_of r !! 1%nat = Some key ->
  runs (incrDecrCommand (argv_of r) n s) (spec_incr key n s).
Proof.
  intros Hs Hn Hr. unfold incrDecrCommand, spec_incr. rewrite Hr. cbn [mbind option_bind].
  assert (forall v s1, is_i64 v -> srv_ok s1 ->
    runs (if (n <? 0) && (v <? 0) && (n <? LLONG_MIN - v) || (0 <? n) && (0 <? v) && (LLONG_MAX - v <? n)
          then Some (addReplyError "increment or decrement would overflow" s1)
          else Some (addReplyLongLong (i64 (v + n)) (add_dirty 1 (signalModifiedKey key
                 (set_value key (createStringObjectFromLongLongForValue (i64 (v + n))) s1)))))
      (if (LLONG_MIN <=? v + n) && (v + n <=? LLONG_MAX)
        then addReply (RInt (v + n)) (add_dirty 1 (put key (sdec (v + n)) s1))
        else addReply (RErr "increment or decrement would overflow") s1)) as Hrun.
  { intros v s1 Hv Hs1. unfold is_i64, LLONG_MIN, LLONG_MAX in *.
    assert ((n <? 0) && (v <? 0) && (n <? -9223372036854775808 - v) || (0 <? n) && (0 <? v) && (9223372036854775807 - v <? n) =
            negb ((-9223372036854775808 <=? v + n) && (v + n <=? 9223372036854775807))) as ->.
    { destruct (Z.ltb_spec n 0), (Z.ltb_spec v 0), (Z.ltb_spec n (-9223372036854775808 - v)), (Z.ltb_spec 0 n), (Z.ltb_spec 0 v),
        (Z.ltb_spec (9223372036854775807 - v) n), (Z.leb_spec (-9223372036854775808) (v + n)), (Z.leb_spec (v + n) 9223372036854775807);
        cbn [andb orb negb]; done || lia. }
    destruct (_ && _) eqn:Er; cbn [negb]; [| runs_tac].
    apply andb_true_iff in Er as [E1 E2]. rewrite i64_id by (unfold is_i64; lia). apply runs_intro.
    - apply addReply_ok, add_dirty_ok, signal_ok, set_value_ok; [cbn; unfold is_i64; lia | done].
    - by apply addReply_proper, add_dirty_proper, setKey_int. }
  key_case s key Hs; rewrite ?E.
  - unfold with_string. rewrite E. cbn [checkType getLongLongFromObject fmap option_fmap option_map]. apply Hrun; [by unfold is_i64 | done].
  - unfold with_string. rewrite E. runs_tac.
  - rewrite Hct, Hws. assert (getLongLongFromObject (Some v) = string2ll (text v)) as ->.
    { destruct v as [p | m |]; [done | cbn; by rewrite string2ll_sdec | done]. }
    destruct (string2ll (text v)) as [m |] eqn:Em; [| runs_tac].
    apply string2ll_inv in Em as [Hm _]. by apply Hrun.
Qed.

Lemma overwrite_spec p t o v : 0 <= o -> 1 <= zlen v -> p = t ++ replicate (Z.to_nat (o + zlen v - zlen t)) 0 ->
  wrn p o v = Some (overwrite o v t) /\ zlen (overwrite o v t) = Z.max (zlen t) (o + zlen v).
Proof.
  intros Ho Hv ->. assert (zlen (t ++ replicate (Z.to_nat (o + zlen v - zlen t)) 0) = Z.max (zlen t) (o + zlen v)) as Hz.
  { rewrite zlen_app. unfold zlen at 2. rewrite length_replicate. pose proof (zlen_nonneg t). lia. }
  assert (wrn (t ++ replicate (Z.to_nat (o + zlen v - zlen t)) 0) o v = Some (overwrite o v t)) as E.
  { unfold wrn. rewrite (proj2 (andb_true_iff _ _)) by (rewrite Hz; split; apply Z.leb_le; lia). f_equal. unfold overwrite. f_equal; [| f_equal].
    - apply list_eq. intros i. destruct (Nat.lt_ge_cases i (Z.to_nat o)) as [Hi | Hi]; [| by rewrite !lookup_take_ge by done].
      rewrite !lookup_take_lt by done. destruct (Nat.lt_ge_cases i (length t)).
      + by rewrite !lookup_app_l by done.
      + rewrite !lookup_app_r by done. unfold zlen. by rewrite !lookup_replicate_2 by (unfold zlen in *; lia).
    - destruct (Z.le_gt_cases (o + zlen v) (zlen t)).
      + replace (Z.to_nat (o + zlen v - zlen t)) with 0%nat by lia. by rewrite app_nil_r.
      + assert (Z.of_nat (length (t ++ replicate (Z.to_nat (o + zlen v - zlen t)) 0)) = Z.max (zlen t) (o + zlen v)) as Hz' by exact Hz.
        assert (Z.of_nat (length t) = zlen t) by done. rewrite !drop_ge; [done | lia | lia]. }
  split; [done |]. by rewrite (wrn_length _ _ _ _ E).
Qed.

Lemma setrange_write_spec key v t p o s : 0 <= o -> 1 <= zlen v -> o + zlen v <= MAXLEN -> storable v -> storable t ->
  p ++ replicate (Z.to_nat (o + zlen v - zlen p)) 0 = t ++ replicate (Z.to_nat (o + zlen v - zlen t)) 0 -> srv_ok s ->
  runs (setrange_write key v p o s) (addReply (RInt (Z.max (zlen t) (o + zlen v))) (add_dirty 1 (put key (overwrite o v t) s))).
Proof.
  intros Ho Hv Hmx [Hvb _] [Htb Htl] Hp Hs. unfold setrange_write. rewrite Hp.
  destruct (overwrite_spec _ t o v Ho Hv eq_refl) as [E Hz]. rewrite E, <- Hz. cbn [mbind option_bind]. apply runs_intro; [| done].
  apply addReplyLongLong_ok, add_dirty_ok, signal_ok, set_value_ok; [| done]. split; [| lia].
  eapply wrn_bytes; [| exact Hvb | exact E]. apply Forall_app_2; [done |]. apply Forall_replicate. by unfold byte.
Qed.

Lemma setrange_runs key off v s : srv_ok s -> storable v -> runs (run (Setrange key off v) s) (spec proto_max_bulk_len (Setrange key off v) s).
Proof.
  intros Hs [Hvb Hvl]. cbn [run argv_of spec]. unfold setrangeCommand, getLongFromObjectOrReply, getLongLongFromObjectOrReply, dbUnshareStringValue.
  cbn [lookup list_lookup mbind option_bind]. destruct (string2ll off) as [o |] eqn:Eo; [| by runs_tac].
  apply string2ll_inv in Eo as [Ho _]. unfold is_i64 in Ho.
  assert ((o <? LLONG_MIN) || (LLONG_MAX <? o) = false) as -> by (apply orb_false_iff; unfold LLONG_MIN, LLONG_MAX; lia).
  destruct (Z.ltb_spec o 0); [by runs_tac |]. pose proof (zlen_nonneg v) as Hv0.
  assert (forall s1, checkStringLength proto_max_bulk_len false o (zlen v) s1 =
    if proto_max_bulk_len <? o + zlen v then (addReply toolong s1, false) else (s1, true)) as Hcheck.
  { intros s1. apply checkStringLength_spec; [unfold LLONG_MAX; lia | lia]. }
  key_case s key Hs; rewrite ?E.
  - unfold with_string. rewrite E. cbn [fmap option_fmap option_map default]. destruct (Z.eqb_spec (zlen v) 0); [by runs_tac |].
    rewrite Hcheck. destruct (Z.ltb_spec proto_max_bulk_len (o + zlen v)); cbn [negb]; [by runs_tac |].
    apply setrange_write_spec; [lia | lia | lia | done | split; [apply Forall_nil_2 | rewrite zlen_nil; lia] | | done].
    assert (zlen (replicate (Z.to_nat (o + zlen v)) 0) = o + zlen v) as -> by (unfold zlen at 1; rewrite length_replicate; lia).
    rewrite (@zlen_nil Z), Z.sub_0_r, Z.sub_diag, app_nil_l. by rewrite app_nil_r.
  - unfold with_string. rewrite E. by runs_tac.
  - rewrite Hct, Hlen, Hws. cbn [mbind option_bind default]. destruct (Z.eqb_spec (zlen v) 0); [by runs_tac |].
    rewrite Hcheck. destruct (Z.ltb_spec proto_max_bulk_len (o + zlen v)); cbn [negb]; [by runs_tac |].
    rewrite Hdec. cbn [mbind option_bind]. apply setrange_write_spec; done || lia.
Qed.

Lemma getrange_runs key a b s : srv_ok s -> runs (run (Getrange key a b) s) (spec proto_max_bulk_len (Getrange key a b) s).
Proof.
  intros Hs. cbn [run argv_of spec]. unfold getrangeCommand, getLongLongFromObjectOrReply. cbn [lookup list_lookup mbind option_bind].
  destruct (string2ll a) as [start |] eqn:Ea; [| by runs_tac]. destruct (string2ll b) as [end_ |] eqn:Eb; [| by runs_tac].
  apply string2ll_inv in Ea as [Ha _]. apply string2ll_inv in Eb as [Hb' _]. unfold is_i64 in *.
  key_case s key Hs; rewrite ?E.
  - unfold with_string. rewrite E. cbn [fmap option_fmap option_map default]. unfold spec_range, slice. rewrite drop_nil, take_nil.
    destruct (_ && _); by runs_tac.
  - unfold with_string. rewrite E. by runs_tac.
  - rewrite Hct, Hdec, Hws. cbn [mbind option_bind default]. unfold id. set (t := text v) in *. unfold spec_range.
    destruct ((start <? 0) && (end_ <? 0) && (end_ <? start)); [by runs_tac |].
    unfold MAXLEN in Hl. change (Z.shiftr LLONG_MAX 3) with 1152921504606846975 in Hl. pose proof (zlen_nonneg t) as Hz.
    assert (forall i, i < 0 -> is_i64 i -> i64 (u64 (zlen t + i)) = zlen t + i) as Hi.
    { intros i Hi Hi'. rewrite i64_u64. apply i64_id. unfold is_i64 in *. lia. }
    assert (forall i, is_i64 i -> (if (if i <? 0 then i64 (u64 (zlen t + i)) else i) <? 0 then 0 else if i <? 0 then i64 (u64 (zlen t + i)) else i) = norm (zlen t) i) as Hn.
    { intros i Hi'. unfold norm. destruct (Z.ltb_spec i 0) as [H0 | H0].
      - rewrite Hi by done. destruct (Z.ltb_spec (zlen t + i) 0); lia.
      - rewrite (proj2 (Z.ltb_ge i 0)) by done. lia. }
    rewrite !Hn by (unfold is_i64; lia). set (first := norm (zlen t) start). set (e0 := norm (zlen t) end_).
    assert (0 <= first /\ 0 <= e0 <= 9223372036854775807) as [Hf He].
    { unfold first, e0, norm. split; [lia |]. destruct (Z.ltb_spec end_ 0); lia. }
    assert ((if zlen t <=? u64 e0 then i64 (u64 (zlen t - 1)) else e0) = Z.min (zlen t - 1) e0) as ->.
    { rewrite u64_id by (unfold is_u64; lia). rewrite i64_u64, i64_id by (unfold is_i64; lia). destruct (Z.leb_spec (zlen t) e0); lia. }
    set (last := Z.min (zlen t - 1) e0). assert (last < zlen t) as Hlast by lia. clearbody last first.
    destruct (Z.ltb_spec last first); cbn [orb]; [rewrite slice_empty by lia; by runs_tac |].
    rewrite (proj2 (Z.eqb_neq (zlen t) 0)) by lia.
    destruct (rdn_is_Some t first (last - first + 1)) as [p Ep]; [lia | lia | lia |]. rewrite Ep. cbn [mbind option_bind].
    assert (p = slice first (last + 1) t) as ->; [| by runs_tac].
    unfold rdn in Ep. destruct (_ && _); [| done]. injection Ep as <-. unfold slice. do 2 f_equal. lia.
Qed.

Lemma mget_loop_spec keys : forall s s0, srv_ok s0 -> srv_ok s -> db s = db s0 -> runs (mget_loop buf32 keys s)
  (fold_left (fun s' key => addReply (bulk (match db s0 !! key with Some VOther => None | o => text <$> o end)) s') keys s).
Proof.
  induction keys as [| key keys IH]; intros s s0 Hs0 Hs Edb; cbn [mget_loop fold_left]; [by apply runs_intro |].
  unfold addReplyBulk. rewrite <- Edb. key_case s key Hs; rewrite ?E; cbn [mbind option_bind].
  - by apply IH.
  - by apply IH.
  - assert (match v with VOther => Some (addReply RNull s) | _ => p ← decoded buf32 (Some v); Some (addReply (RBulk p) s) end =
            Some (addReply (RBulk (text v)) s)) as Er by (destruct v; [by rewrite Hdec | by rewrite Hdec | done]).
    rewrite Hdec in Er. cbn [mbind option_bind] in Er.
    destruct v; [| | done]; rewrite ?Hdec; cbn [mbind option_bind fmap option_fmap option_map bulk]; by apply IH.
Qed.

Lemma mset_loop_spec pairs : Forall storable pairs -> forall s s', srv_ok s -> s ≡ s' ->
  mset_loop pairs s ≡ spec_mset pairs s' /\ srv_ok (mset_loop pairs s).
Proof.
  intros Hp. assert (exists n, (length pairs <= n)%nat) as [n Hn] by eauto. revert pairs Hp Hn.
  induction n as [| n IH]; intros pairs Hp Hn s s' Hs E; (destruct pairs as [| key [| v pairs]]; cbn [length] in Hn; [done | try done; lia |]); [lia |].
  cbn [mset_loop spec_mset]. apply Forall_cons in Hp as [_ Hp]. apply Forall_cons in Hp as [[Hvb Hvl] Hp].
  apply IH; [done | lia | by auto 10 with srv | by apply setKey_encoding].
Qed.

Lemma mset_runs nx pairs s : srv_ok s -> Forall storable pairs -> runs (run (Mset nx pairs) s) (spec proto_max_bulk_len (Mset nx pairs) s).
Proof.
  intros Hs Hp. cbn [run argv_of].
  assert (runs (msetGenericCommand (if nx then "msetnx" else "mset")%string nx ((if nx then chars "msetnx" else chars "mset") :: pairs) s) (spec proto_max_bulk_len (Mset nx pairs) s)) as H; [| by destruct nx].
  unfold msetGenericCommand. change (drop 1 (?x :: pairs)) with pairs. rewrite zlen_cons. cbn [spec].
  assert (((1 + zlen pairs) mod 2 =? 0) = Z.odd (zlen pairs)) as ->.
  { rewrite Zmod_odd, Z.odd_add. by destruct (Z.odd (zlen pairs)). }
  destruct (Z.odd (zlen pairs)); [destruct nx; by runs_tac |]. destruct (nx && mset_exists pairs s); [by runs_tac |].
  destruct (mset_loop_spec pairs Hp s s Hs (reflexivity _)) as [E Hok]. replace (1 + zlen pairs - 1) with (zlen pairs) by lia.
  apply runs_intro; [by auto 10 with srv |]. by apply addReply_proper, add_dirty_proper.
Qed.

Lemma run_spec r s : srv_ok s -> request_ok r -> runs (run r s) (spec proto_max_bulk_len r s).
Proof.
  intros Hs Hr. destruct r as [key | key v | key v | key | key off v | key a b | keys | nx pairs | key | key | key n | key n | key v | key].
  - by apply get_runs.
  - by apply setnx_runs.
  - by apply getset_runs.
  - by apply getdel_runs.
  - by apply setrange_runs.
  - by apply getrange_runs.
  - cbn [run argv_of spec]. unfold mgetCommand. change (drop 1 (?x :: keys)) with keys. rewrite zlen_cons.
    replace (1 + zlen keys - 1) with (zlen keys) by lia. by apply mget_loop_spec.
  - by apply mset_runs.
  - apply (incr_runs (Incr key)); done.
  - apply (incr_runs (Decr key)); done.
  - cbn [run argv_of spec]. unfold incrbyCommand, getLongLongFromObjectOrReply. cbn [lookup list_lookup mbind option_bind].
    destruct (string2ll n) as [m |] eqn:E; [| by runs_tac]. apply string2ll_inv in E as [Hm _]. by apply (incr_runs (Incrby key n)).
  - cbn [run argv_of spec]. unfold decrbyCommand, getLongLongFromObjectOrReply. cbn [lookup list_lookup mbind option_bind].
    destruct (string2ll n) as [m |] eqn:E; [| by runs_tac]. apply string2ll_inv in E as [Hm _].
    destruct (Z.eqb_spec m LLONG_MIN); [by runs_tac |]. apply (incr_runs (Decrby key n)); [done | unfold is_i64, LLONG_MIN in *; lia | done].
  - by apply append_runs.
  - by apply strlen_runs.
Qed.

(** * Sequences of requests *)

Lemma with_string_equiv key s s' k k' : s ≡ s' -> (forall o, k o ≡ k' o) -> with_string key s k ≡ with_string key s' k'.
Proof.
  intros E Hk. unfold with_string. pose proof (equiv_lookup s s' key E) as El.
  destruct (db s !! key) as [[p | n |] |], (db s' !! key) as [[p' | n' |] |]; cbn in El; try discriminate El;
    [injection El as El; cbn [fmap option_fmap option_map text]; rewrite El; apply Hk.. | by apply addReply_proper | apply Hk].
Qed.

Lemma found_equiv key s s' : s ≡ s' -> is_Some (db s !! key) <-> is_Some (db s' !! key).
Proof.
  intros E. pose proof (equiv_lookup s s' key E) as El.
  destruct (db s !! key), (db s' !! key); cbn in El; done || (split; intros []; done).
Qed.

Lemma spec_incr_proper key n : Proper ((≡) ==> (≡)) (spec_incr key n).
Proof.
  intros s s' E. apply with_string_equiv; [done |]. intros o. destruct (match o with Some _ => _ | None => _ end); [| by apply addReply_proper].
  destruct (_ && _); [by apply addReply_proper, add_dirty_proper, put_proper | by apply addReply_proper].
Qed.

Lemma spec_mset_proper pairs s s' : s ≡ s' -> spec_mset pairs s ≡ spec_mset pairs s' /\ mset_exists pairs s = mset_exists pairs s'.
Proof.
  assert (exists n, (length pairs <= n)%nat) as [n Hn] by eauto. revert pairs Hn s s'.
  induction n as [| n IH]; intros pairs Hn s s' E; (destruct pairs as [| key [| v pairs]]; cbn [length] in Hn; [done | try done; lia |]); [lia |].
  cbn [spec_mset mset_exists]. destruct (IH pairs ltac:(lia) s s' E) as [_ H1].
  destruct (IH pairs ltac:(lia) _ _ (put_proper key v s s' E)) as [H2 _]. split; [done |].
  pose proof (found_equiv key s s' E) as Hf. destruct (db s !! key), (db s' !! key); try done.
  - by destruct (proj1 Hf ltac:(by eexists)).
  - by destruct (proj2 Hf ltac:(by eexists)).
Qed.

#[export] Instance spec_proper r : Proper ((≡) ==> (≡)) (spec proto_max_bulk_len r).
Proof.
  intros s s' E. destruct r as [key | key v | key v | key | key off v | key a b | keys | nx pairs | key | key | key n | key n | key v | key]; cbn [spec].
  - apply with_string_equiv; [done |]. intros o. by apply addReply_proper.
  - pose proof (found_equiv key s s' E) as Hf. destruct (db s !! key), (db s' !! key); [by apply addReply_proper | | |].
    + by destruct (proj1 Hf ltac:(by eexists)).
    + by destruct (proj2 Hf ltac:(by eexists)).
    + by apply addReply_proper, add_dirty_proper, put_proper.
  - apply with_string_equiv; [done |]. intros o. by apply add_dirty_proper, put_proper, addReply_proper.
  - apply with_string_equiv; [done |]. intros [t |]; [| by apply addReply_proper].
    by apply add_dirty_proper, signal_proper, dbDelete_proper, addReply_proper.
  - destruct (string2ll off) as [o |]; [| by apply addReply_proper]. destruct (_ <? _); [by apply addReply_proper |].
    apply with_string_equiv; [done |]. intros t. cbn zeta. destruct (_ =? _); [by apply addReply_proper |].
    destruct (_ <? _); [by apply addReply_proper | by apply addReply_proper, add_dirty_proper, put_proper].
  - destruct (string2ll a), (string2ll b); try by apply addReply_proper. apply with_string_equiv; [done |]. intros o. by apply addReply_proper.
  - assert (forall key, match db s !! key with Some VOther => None | o => text <$> o end = match db s' !! key with Some VOther => None | o => text <$> o end) as Hl.
    { intros key. pose proof (equiv_lookup s s' key E) as El.
      destruct (db s !! key) as [[p | n |] |], (db s' !! key) as [[p' | n' |] |]; cbn in El |- *; congruence. }
    assert (forall s1 s2, s1 ≡ s2 -> fold_left (fun s1 key => addReply (bulk (match db s !! key with Some VOther => None | o => text <$> o end)) s1) keys s1
      ≡ fold_left (fun s1 key => addReply (bulk (match db s' !! key with Some VOther => None | o => text <$> o end)) s1) keys s2) as H; [| by apply H, addReply_proper].
    induction keys as [| key keys IH]; intros s1 s2 E12; [done |]. cbn [fold_left]. apply IH. rewrite Hl. by apply addReply_proper.
  - destruct (Z.odd _); [by apply addReply_proper |]. destruct (spec_mset_proper pairs s s' E) as [H1 H2]. rewrite H2.
    destruct (_ && _); [by apply addReply_proper | by apply addReply_proper, add_dirty_proper].
  - by apply spec_incr_proper.
  - by apply spec_incr_proper.
  - destruct (string2ll n); [by apply spec_incr_proper | by apply addReply_proper].
  - destruct (string2ll n); [| by apply addReply_proper]. destruct (_ =? _); [by apply addReply_proper | by apply spec_incr_proper].
  - apply with_string_equiv; [done |]. intros [t |]; [| by apply addReply_proper, add_dirty_proper, put_proper].
    destruct (_ <? _); [by apply addReply_proper | by apply addReply_proper, add_dirty_proper, put_proper].
  - apply with_string_equiv; [done |]. intros o. by apply addReply_proper.
Qed.

Fixpoint run_all (rs : list request) (s : srv) : option srv :=
  match rs with [] => Some s | r :: rs => s ← run r s; run_all rs s end.

(** C23: any sequence of the string commands (GET, GETSET, GETDEL, SETNX,
    SETRANGE, GETRANGE, MGET, MSET, MSETNX, INCR, DECR, INCRBY, DECRBY, APPEND,
    STRLEN) on a database in order runs to the end, keeps the database in
    order, and acts on the byte strings of the values as the specification: the
    same values up to their encoding, the same replies, changes and signalled
    keys.  In particular counters stop at the ends of the 64 bit range, ranges
    are cut to the string, and a string longer than the limit is refused. *)
Theorem string_commands_refine rs s : srv_ok s -> Forall request_ok rs ->
  exists s', run_all rs s = Some s' /\ s' ≡ fold_left (fun s r => spec proto_max_bulk_len r s) rs s /\ srv_ok s'.
Proof.
  intros Hs Hrs. assert (forall s0, s ≡ s0 -> exists s', run_all rs s = Some s' /\ s' ≡ fold_left (fun s r => spec proto_max_bulk_len r s) rs s0 /\ srv_ok s') as H;
    [| by apply H].
  revert s Hs. induction Hrs as [| r rs Hr Hrs IH]; intros s Hs s0 E; [by exists s |]. cbn [run_all fold_left].
  destruct (run_spec r s Hs Hr) as (s1 & Erun & E1 & Hs1). rewrite Erun. cbn [mbind option_bind].
  apply IH; [done |]. rewrite E1. by apply spec_proper.
Qed.
End run.

Lemma string_commands_refine_witness :
  exists s', run_all 1000 (replicate 32 0)
    [Mset false [chars "x"; chars "10"; chars "y"; chars "abc"]; Incrby (chars "x") (chars "-12"); Append (chars "x") (chars "7");
     Setrange (chars "y") (chars "5") (chars "zz"); Getrange (chars "y") (chars "-4") (chars "-2"); Getdel (chars "x")] (Srv ∅ 0 [] []) = Some s' /\
  replies s' = [ROk; RInt (-2); RInt 3; RInt 7; RBulk [0; 0; 122]; RBulk (chars "-27")] /\ dirty s' = 6 /\
  db s' !! chars "x" = None.
Proof.
  destruct (string_commands_refine 1000 (replicate 32 0) eq_refl ltac:(vm_compute; split; discriminate)
    [Mset false [chars "x"; chars "10"; chars "y"; chars "abc"]; Incrby (chars "x") (chars "-12"); Append (chars "x") (chars "7");
     Setrange (chars "y") (chars "5") (chars "zz"); Getrange (chars "y") (chars "-4") (chars "-2"); Getdel (chars "x")] (Srv ∅ 0 [] [])) as (s' & Hrun & E & _).
  { intros k v E. cbn [db] in E. by rewrite lookup_empty in E. }
  { assert (forall t, zlen (chars t) <= MAXLEN -> storable (chars t)) as Ht by (split; [apply chars_bytes | done]).
    repeat apply Forall_cons_2; try exact I; try (apply Ht; vm_compute; discriminate); [| apply Forall_nil_2].
    repeat apply Forall_cons_2; try (apply Ht; vm_compute; discriminate). apply Forall_nil_2. }
  exists s'. split; [exact Hrun |]. unfold equiv, srv_equiv in E. clear Hrun.
  match type of E with _ = flat ?t => assert (replies (flat t) = [ROk; RInt (-2); RInt 3; RInt 7; RBulk [0; 0; 122]; RBulk (chars "-27")] /\
    dirty (flat t) = 6 /\ db (flat t) !! chars "x" = None) as (Hr & Hd & Hx) by (vm_compute; split; [reflexivity | split; reflexivity]); revert E Hr Hd Hx; generalize (flat t) end.
  intros t <- Hr Hd Hx. split; [exact Hr |]. split; [exact Hd |].
  unfold flat in Hx. cbn [db] in Hx. rewrite lookup_fmap in Hx. destruct (db s' !! chars "x"); [discriminate Hx | reflexivity].
Defined.
