(* ===== verification/Lcs.v ===== *)
(** t_string.c, LCS: a longest common subsequence of two strings, its length,
    or the ranges that match.

    The table is an array of 32 bit integers addressed by 32 bit indexes; its
    memory and that of the result hold anything at first ([junk_table],
    [junk_result]).  The length of the array of ranges is a reply whose value
    is filled in at the end. *)
From stdpp Require Import strings gmap.
From S2P Require Import Prelude Endian Strnum Server.

Record lcs_opts := LcsOpts { getidx : bool; getlen : bool; withmatchlen : bool; minmatchlen : Z }.

(** The loop over the options; no result when an error has been sent. *)
Fixpoint lcs_options (args : list (list Z)) (o : lcs_opts) (s : srv) : srv * option lcs_opts :=
  match args with
  | [] => (s, Some o)
  | opt :: rest =>
      if strcasecmp_eq opt "IDX" then lcs_options rest (LcsOpts true (getlen o) (withmatchlen o) (minmatchlen o)) s
      else if strcasecmp_eq opt "LEN" then lcs_options rest (LcsOpts (getidx o) true (withmatchlen o) (minmatchlen o)) s
      else if strcasecmp_eq opt "WITHMATCHLEN" then lcs_options rest (LcsOpts (getidx o) (getlen o) true (minmatchlen o)) s
      else
        match strcasecmp_eq opt "MINMATCHLEN", rest with
        | true, arg :: rest =>
            match getLongLongFromObjectOrReply arg None s with
            | (s, None) => (s, None)
            | (s, Some n) => lcs_options rest (LcsOpts (getidx o) (getlen o) (withmatchlen o) (if n <? 0 then 0 else n)) s
            end
        | _, _ => (addReplyError syntaxerr s, None)
        end
  end.

Section lcs.
Context (a b : list Z).
Notation alen := (zlen a).
Notation blen := (zlen b).

(** * The table *)

(** [LCS(A,B)]: the index of the cell. *)
Definition LCS (A B : Z) : Z := u32 (B + u32 (A * u32 (blen + 1))).

Definition lcs_cell (i j : Z) (lcs : list Z) : option (list Z) :=
  v ← (if (i =? 0) || (j =? 0) then Some 0
       else
         ca ← rd a (i - 1); cb ← rd b (j - 1);
         if ca =? cb then v ← rd lcs (LCS (i - 1) (j - 1)); Some (u32 (v + 1))
         else
           lcs1 ← rd lcs (LCS (i - 1) j);
           lcs2 ← rd lcs (LCS i (j - 1));
           Some (if lcs2 <? lcs1 then lcs1 else lcs2));
  wrn lcs (LCS i j) [v].

Definition lcs_row (i : Z) (lcs : list Z) : option (list Z) := for_ (Z.to_nat (blen + 1)) 0 (lcs_cell i) lcs.
Definition lcs_table (junk : list Z) : option (list Z) := for_ (Z.to_nat (alen + 1)) 0 lcs_row junk.

(** * The result *)

Record lcs_state := LcsState {
  result : list Z; idx : Z; ii : Z; jj : Z;
  arange_start : Z; arange_end : Z; brange_start : Z; brange_end : Z;
  arraylen : Z; out : srv }.

(** The replies for a range. *)
Definition range_replies (o : lcs_opts) (st : lcs_state) (match_len : Z) : list reply :=
  [RArrayLen (2 + Z.b2z (withmatchlen o));
   RArrayLen 2; RInt (arange_start st); RInt (arange_end st);
   RArrayLen 2; RInt (brange_start st); RInt (brange_end st)] ++
  (if withmatchlen o then [RInt match_len] else []).

(** The end of a turn: the range is emitted, and reset. *)
Definition lcs_emit (o : lcs_opts) (emit_range : bool) (st : lcs_state) : lcs_state :=
  let match_len := u32 (arange_end st - arange_start st + 1) in
  if emit_range then
    let report := getidx o && ((minmatchlen o =? 0) || (minmatchlen o <=? match_len)) in
    LcsState (result st) (idx st) (ii st) (jj st) alen (arange_end st) (brange_start st) (brange_end st)
      (if report then arraylen st + 1 else arraylen st)
      (if report then fold_left (fun s r => addReply r s) (range_replies o st match_len) (out st) else out st)
  else st.

(** One turn of the loop that goes back through the table. *)
Definition lcs_step (lcs : list Z) (o : lcs_opts) (st : lcs_state) : option lcs_state :=
  let i := ii st in let j := jj st in
  ca ← rd a (i - 1); cb ← rd b (j - 1);
  if ca =? cb then
    result ← wrn (result st) (idx st - 1) [ca];
    let '(as_, ae, bs, be, emit_range) :=
      if arange_start st =? alen then (i - 1, i - 1, j - 1, j - 1, false)
      else if (arange_start st =? i) && (brange_start st =? j)
           then (arange_start st - 1, arange_end st, brange_start st - 1, brange_end st, false)
           else (arange_start st, arange_end st, brange_start st, brange_end st, true) in
    let emit_range := if (as_ =? 0) || (bs =? 0) then true else emit_range in
    Some (lcs_emit o emit_range (LcsState result (idx st - 1) (i - 1) (j - 1) as_ ae bs be (arraylen st) (out st)))
  else
    lcs1 ← rd lcs (LCS (i - 1) j);
    lcs2 ← rd lcs (LCS i (j - 1));
    let '(i, j) := if lcs2 <? lcs1 then (i - 1, j) else (i, j - 1) in
    Some (lcs_emit o (negb (arange_start st =? alen))
      (LcsState (result st) (idx st) i j (arange_start st) (arange_end st) (brange_start st) (brange_end st) (arraylen st) (out st))).

Definition lcs_loop (lcs : list Z) (o : lcs_opts) (st : lcs_state) : option lcs_state :=
  while_ (Z.to_nat (alen + blen)) (fun st => (0 <? ii st) && (0 <? jj st)) (lcs_step lcs o) st.
End lcs.

(** [setDeferredArrayLen] on the reply at position [pos]. *)
Definition setDeferredArrayLen (pos : nat) (n : Z) (s : srv) : srv :=
  Srv (db s) (dirty s) (modified s) (<[pos := RArrayLen n]> (replies s)).

Section command.
Context (proto_max_bulk_len : Z) (buf32 : list Z) (junk_table junk_result : nat -> Z).
(** Whether [ztrymalloc] gives the memory. *)
Context (malloc_ok : bool).

(** The reply once the table is built. *)
Definition lcs_reply (a b : list Z) (lcs : list Z) (o : lcs_opts) (s : srv) : option srv :=
  let alen := zlen a in
  let blen := zlen b in
  len ← rd lcs (LCS b alen blen);
  let computelcs := getidx o || negb (getlen o) in
  let s := if getidx o then addReply (RBulk (chars "matches")) (addReply (RMapLen 2) s) else s in
  let pos := length (replies s) in
  let s := if getidx o then addReply (RArrayLen 0) s else s in
  st ← (let st := LcsState (fresh_bytes junk_result len) len alen blen alen 0 0 0 0 s in
        if computelcs then lcs_loop a b lcs o st else Some st);
  Some (if getidx o then setDeferredArrayLen pos (arraylen st) (addReplyLongLong len (addReply (RBulk (chars "len")) (out st)))
        else if getlen o then addReplyLongLong len (out st)
        else addReply (RBulk (result st)) (out st)).

Definition UINT32_MAX : Z := 4294967295.
Definition SIZE_MAX : Z := 18446744073709551615.

Definition lcsCommand (argv : list (list Z)) (s : srv) : option srv :=
  key1 ← argv !! 1%nat; key2 ← argv !! 2%nat;
  let obja := db s !! key1 in
  let objb := db s !! key2 in
  if match obja with Some VOther => true | _ => false end || match objb with Some VOther => true | _ => false end
  then Some (addReplyError "The specified keys must contain string values" s)
  else
    a ← (match obja with Some _ => decoded buf32 obja | None => Some [] end);
    b ← (match objb with Some _ => decoded buf32 objb | None => Some [] end);
    match lcs_options (drop 3 argv) (LcsOpts false false false 0) s with
    | (s, None) => Some s
    | (s, Some o) =>
        if getlen o && getidx o then Some (addReplyError "If you want both the length and indexes, please just use IDX." s)
        else if (UINT32_MAX - 1 <=? zlen a) || (UINT32_MAX - 1 <=? zlen b) then Some (addReplyError "String too long for LCS" s)
        else
          let lcssize := u64 (u32 (zlen a + 1) * u32 (zlen b + 1)) in
          let lcsalloc := u64 (lcssize * 4) in
          if (lcsalloc <? SIZE_MAX) && (lcsalloc / lcssize =? 4) && (proto_max_bulk_len <? lcsalloc)
          then Some (addReplyError "Insufficient memory, transient memory for LCS exceeds proto-max-bulk-len" s)
          else if negb ((lcsalloc <? SIZE_MAX) && (lcsalloc / lcssize =? 4) && malloc_ok)
          then Some (addReplyError "Insufficient memory, failed allocating transient memory for LCS" s)
          else
            lcs ← lcs_table a b (fresh_bytes junk_table lcssize);
            lcs_reply a b lcs o s
    end.
End command.

Example lcs_ex :
  (replies <$> lcsCommand 536870912 (replicate 32 0) (fun _ => 7) (fun _ => 9) true (map chars ["lcs"; "a"; "b"; "IDX"; "WITHMATCHLEN"; "MINMATCHLEN"; "2"])
    (Srv {[chars "a" := VRaw (chars "ohmytext"); chars "b" := VRaw (chars "mynewtext")]} 0 [] []))
  = Some [RMapLen 2; RBulk (chars "matches"); RArrayLen 2; RArrayLen 3; RArrayLen 2; RInt 4; RInt 7; RArrayLen 2; RInt 5; RInt 8; RInt 4;
          RArrayLen 3; RArrayLen 2; RInt 2; RInt 3; RArrayLen 2; RInt 0; RInt 1; RInt 2; RBulk (chars "len"); RInt 6].
Proof. vm_compute. reflexivity. Qed.
