(* ===== verification/LcsThms.v ===== *)
(** LCS returns a longest common subsequence of the two strings, its length,
    or the maximal ranges that make it up. *)
From stdpp Require Import strings gmap.
From S2P Require Import Prelude Endian Strnum Server Lcs.

(** * Longest common subsequences *)

Definition common {A} (c a b : list A) : Prop := c `sublist_of` a /\ c `sublist_of` b.
Definition is_lcs {A} (c a b : list A) : Prop := common c a b /\ forall d, common d a b -> (length d <= length c)%nat.
Definition lcs_len {A} (n : nat) (a b : list A) : Prop := exists c, is_lcs c a b /\ length c = n.

Section longest.
Context {A : Type}.
Implicit Types a b c d : list A.

Lemma sublist_snoc c a (x : A) :
  c `sublist_of` a ++ [x] <-> c `sublist_of` a \/ exists c', c = c' ++ [x] /\ c' `sublist_of` a.
Proof.
  rewrite sublist_app_r. split.
  - intros (c1 & c2 & -> & H1 & H2). apply sublist_cons_r in H2 as [H2 | (l & -> & H2)].
    + apply sublist_nil_r in H2 as ->. left. by rewrite app_nil_r.
    + apply sublist_nil_r in H2 as ->. right. by exists c1.
  - intros [H | (c' & -> & H)].
    + exists c, []. split_and!; [by rewrite app_nil_r | done | apply sublist_nil_l].
    + by exists c', [x].
Qed.

Lemma common_snoc c a b (x : A) : common c a b -> common (c ++ [x]) (a ++ [x]) (b ++ [x]).
Proof. intros [H1 H2]. split; by apply sublist_app. Qed.

Lemma lcs_len_unique n m a b : lcs_len n a b -> lcs_len m a b -> n = m.
Proof.
  intros (c & [Hc Hc'] & <-) (d & [Hd Hd'] & <-). specialize (Hc' d Hd). specialize (Hd' c Hc). lia.
Qed.

Lemma lcs_len_nil_l b : lcs_len 0 [] b.
Proof.
  exists []. split; [| done]. split; [split; apply sublist_nil_l |].
  by intros d [->%sublist_nil_r _].
Qed.

Lemma lcs_len_nil_r a : lcs_len 0 a [].
Proof.
  exists []. split; [| done]. split; [split; apply sublist_nil_l |].
  by intros d [_ ->%sublist_nil_r].
Qed.

(** Two strings with the same last character. *)
Lemma lcs_len_same n a b (x : A) : lcs_len n a b -> lcs_len (S n) (a ++ [x]) (b ++ [x]).
Proof.
  intros (c & [Hc Hmax] & <-). exists (c ++ [x]). split; [| rewrite length_app; simpl; lia].
  split; [by apply common_snoc |]. rewrite length_app. cbn [length].
  intros d [Ha Hb]. apply sublist_snoc in Ha as [Ha | (d1 & -> & Ha)].
  - apply sublist_snoc in Hb as [Hb | (d2 & -> & Hb)].
    + specialize (Hmax d (conj Ha Hb)). lia.
    + assert (d2 `sublist_of` a) as Ha2.
      { etrans; [| exact Ha]. apply sublist_inserts_r. reflexivity. }
      specialize (Hmax d2 (conj Ha2 Hb)). rewrite length_app. simpl. lia.
  - rewrite length_app. cbn [length]. cut (length d1 <= length c)%nat; [lia |]. apply Hmax. split; [done |].
    by apply sublist_app_inv_r in Hb.
Qed.

(** Two strings whose last characters differ. *)
Lemma lcs_len_diff n m a b (x y : A) : x <> y -> lcs_len n a (b ++ [y]) -> lcs_len m (a ++ [x]) b ->
  lcs_len (Nat.max n m) (a ++ [x]) (b ++ [y]).
Proof.
  intros Hxy (c & [[Hc1 Hc2] Hc] & <-) (d & [[Hd1 Hd2] Hd] & <-).
  assert (forall e, common e (a ++ [x]) (b ++ [y]) -> length e <= Nat.max (length c) (length d))%nat as Hmax.
  { intros e [He1 He2]. pose proof He1 as He1'.
    apply sublist_snoc in He1' as [He | (e1 & -> & He)]; [specialize (Hc e (conj He He2)); lia |].
    apply sublist_snoc in He2 as [He2 | (e2 & E & _)]; [specialize (Hd _ (conj He1 He2)); lia |].
    apply app_inj_2 in E as [_ [= ?]]; done. }
  destruct (Nat.max_dec (length c) (length d)) as [E | E]; rewrite E in *.
  - exists c. split; [| done]. split; [| done]. split; [| done]. by apply sublist_inserts_r.
  - exists d. split; [| done]. split; [| done]. split; [done |]. by apply sublist_inserts_r.
Qed.

Lemma is_lcs_len c n a b : common c a b -> lcs_len n a b -> length c = n -> is_lcs c a b.
Proof. intros Hc (d & [_ Hd] & <-) E. split; [done |]. by rewrite E. Qed.
End longest.

(** * Single cells of a block *)

Lemma rd_inv m i v : rd m i = Some v -> 0 <= i < zlen m.
Proof.
  unfold rd, zlen. destruct (Z.leb_spec 0 i); [| done]. intros E%lookup_lt_Some. lia.
Qed.

Lemma rd_snoc m i x : rd m (i - 1) = Some x -> take (Z.to_nat i) m = take (Z.to_nat (i - 1)) m ++ [x].
Proof.
  intros E. pose proof (rd_inv _ _ _ E). unfold rd in E. rewrite (proj2 (Z.leb_le 0 _)) in E by lia.
  replace (Z.to_nat i) with (S (Z.to_nat (i - 1))) by lia. by apply take_S_r.
Qed.

Lemma rd_cons m i x : rd m i = Some x -> drop (Z.to_nat i) m = x :: drop (Z.to_nat (i + 1)) m.
Proof.
  intros E. pose proof (rd_inv _ _ _ E). unfold rd in E. rewrite (proj2 (Z.leb_le 0 _)) in E by lia.
  replace (Z.to_nat (i + 1)) with (S (Z.to_nat i)) by lia. by apply drop_S.
Qed.

Lemma rd_total m i : 0 <= i < zlen m -> exists v, rd m i = Some v.
Proof.
  intros H. unfold rd, zlen in *. rewrite (proj2 (Z.leb_le 0 _)) by lia. apply lookup_lt_is_Some. lia.
Qed.

Lemma wrn_cell m i v : 0 <= i < zlen m -> exists m', wrn m i [v] = Some m' /\ zlen m' = zlen m /\
  rd m' i = Some v /\ forall k, k <> i -> rd m' k = rd m k.
Proof.
  intros H. destruct (wrn_is_Some m i [v]) as [m' E]; [lia | rewrite zlen_cons, zlen_nil; lia |].
  exists m'. pose proof (wrn_length _ _ _ _ E). split_and!; [done | done | |].
  - rewrite rd_rdn. change 1 with (zlen [v]). by rewrite (rdn_wrn_eq _ _ _ _ E).
  - intros k Hk. destruct (decide (0 <= k)); [| unfold rd; by rewrite !(proj2 (Z.leb_gt 0 k)) by lia].
    unfold rd. rewrite !(proj2 (Z.leb_le 0 k)) by lia.
    eapply wrn_lookup_ne; [exact E | done | rewrite zlen_cons, zlen_nil; lia].
Qed.

(** * The table *)

Section lcs.
Context (a b : list Z).
Notation alen := (zlen a).
Notation blen := (zlen b).
Context (Hsize : (alen + 1) * (blen + 1) <= 4294967296).

Definition index (i j : Z) : Z := i * (blen + 1) + j.

Lemma index_bounds i j : 0 <= i <= alen -> 0 <= j <= blen -> 0 <= index i j < (alen + 1) * (blen + 1).
Proof using. unfold index. nia. Qed.

Lemma index_inj i j i' j' : 0 <= j <= blen -> 0 <= j' <= blen -> index i j = index i' j' -> i = i' /\ j = j'.
Proof using. unfold index. intros. assert (i = i') by nia. subst. lia. Qed.

(** The indexes do not wrap around. *)
Lemma LCS_index i j : 0 <= i <= alen -> 0 <= j <= blen -> LCS b i j = index i j.
Proof.
  intros Hi Hj. pose proof (index_bounds i j Hi Hj). unfold LCS, u32.
  rewrite Z.mul_mod_idemp_r, Z.add_mod_idemp_r, Z.mod_small by (unfold index in *; lia). unfold index. lia.
Qed.

Definition prefix_lcs (n : nat) (i j : Z) : Prop := lcs_len n (take (Z.to_nat i) a) (take (Z.to_nat j) b).

(** A cell that has been computed. *)
Definition filled (lcs : list Z) (i j : Z) : Prop :=
  exists n, rd lcs (index i j) = Some (Z.of_nat n) /\ prefix_lcs n i j.

Lemma prefix_lcs_edge i j : 0 <= i -> 0 <= j -> i = 0 \/ j = 0 -> prefix_lcs 0 i j.
Proof using. unfold prefix_lcs. intros Hi Hj [-> | ->]; [apply lcs_len_nil_l | apply lcs_len_nil_r]. Qed.

Lemma prefix_lcs_same n i j x : rd a (i - 1) = Some x -> rd b (j - 1) = Some x ->
  prefix_lcs n (i - 1) (j - 1) -> prefix_lcs (S n) i j.
Proof using. unfold prefix_lcs. intros Ea Eb H. rewrite (rd_snoc a i x), (rd_snoc b j x) by done. by apply lcs_len_same. Qed.

Lemma prefix_lcs_diff n m i j x y : rd a (i - 1) = Some x -> rd b (j - 1) = Some y -> x <> y ->
  prefix_lcs n (i - 1) j -> prefix_lcs m i (j - 1) -> prefix_lcs (Nat.max n m) i j.
Proof using.
  unfold prefix_lcs. intros Ea Eb Hxy H1 H2. rewrite (rd_snoc a i x), (rd_snoc b j y) in * by done. by apply lcs_len_diff.
Qed.

Lemma prefix_lcs_bound n i j : 0 <= i -> prefix_lcs n i j -> Z.of_nat n <= i.
Proof using.
  intros Hi (c & [[Hc _] _] & <-). apply sublist_length in Hc. rewrite length_take in Hc. lia.
Qed.

(** The cells before [(i, j)] in the order of the loops. *)
Definition table_inv (i j : Z) (lcs : list Z) : Prop :=
  zlen lcs = (alen + 1) * (blen + 1) /\
  forall i' j', 0 <= i' <= alen -> 0 <= j' <= blen -> i' < i \/ (i' = i /\ j' < j) -> filled lcs i' j'.

Lemma filled_write lcs lcs' i j v i' j' : 0 <= j <= blen -> 0 <= j' <= blen ->
  rd lcs' (index i j) = Some v -> (forall k, k <> index i j -> rd lcs' k = rd lcs k) ->
  (i', j') <> (i, j) -> filled lcs i' j' -> filled lcs' i' j'.
Proof using.
  intros Hj Hj' Hv Hne Hij (n & E & Hn). exists n. split; [| done]. rewrite Hne; [done |].
  intros Hx. apply Hij. destruct (index_inj i' j' i j) as [-> ->]; [lia.. | done | done].
Qed.

Lemma lcs_cell_spec i j lcs : 0 <= i <= alen -> 0 <= j <= blen -> table_inv i j lcs ->
  exists lcs', lcs_cell a b i j lcs = Some lcs' /\ table_inv i (j + 1) lcs'.
Proof.
  intros Hi Hj [Hl Hf].
  assert (forall n : nat, prefix_lcs n i j -> exists lcs', wrn lcs (LCS b i j) [Z.of_nat n] = Some lcs' /\ table_inv i (j + 1) lcs') as Hw.
  { intros n Hn. rewrite LCS_index by lia. pose proof (index_bounds i j Hi Hj).
    destruct (wrn_cell lcs (index i j) (Z.of_nat n)) as (lcs' & E & Hl' & Hv & Hne); [lia |].
    exists lcs'. split; [done |]. split; [lia |]. intros i' j' Hi' Hj' Hlt.
    destruct (decide (i' = i /\ j' = j)) as [[-> ->] | Hij]; [by exists n |].
    eapply filled_write; [exact Hj | exact Hj' | exact Hv | exact Hne | intros [= -> ->]; by apply Hij | apply Hf; [lia.. |]].
    destruct Hlt as [? | [-> ?]]; [by left | right]. assert (j' <> j) by (intros ->; by apply Hij). lia. }
  unfold lcs_cell. destruct (Z.eqb_spec i 0) as [E | Hi0]; cbn [orb mbind option_bind].
  { apply (Hw 0%nat). by apply prefix_lcs_edge; [lia | lia | left]. }
  destruct (Z.eqb_spec j 0) as [E | Hj0]; cbn [orb mbind option_bind].
  { apply (Hw 0%nat). by apply prefix_lcs_edge; [lia | lia | right]. }
  destruct (rd_total a (i - 1)) as [x Ex]; [lia |]. destruct (rd_total b (j - 1)) as [y Ey]; [lia |].
  rewrite Ex, Ey. cbn [mbind option_bind].
  destruct (Z.eqb_spec x y) as [<- | Hxy].
  - destruct (Hf (i - 1) (j - 1)) as (n & E & Hn); [lia.. |].
    rewrite (LCS_index (i - 1) (j - 1)), E by lia. cbn [mbind option_bind].
    pose proof (prefix_lcs_bound n (i - 1) (j - 1) ltac:(lia) Hn). pose proof (index_bounds alen blen). unfold index in *.
    pose proof (zlen_nonneg b). rewrite u32_id by nia. replace (Z.of_nat n + 1) with (Z.of_nat (S n)) by lia.
    apply Hw. by eapply prefix_lcs_same.
  - destruct (Hf (i - 1) j) as (n & E & Hn); [lia.. |]. destruct (Hf i (j - 1)) as (m & E' & Hm); [lia.. |].
    rewrite (LCS_index (i - 1) j), (LCS_index i (j - 1)), E, E' by lia. cbn [mbind option_bind].
    replace (if _ <? _ then _ else _) with (Z.of_nat (Nat.max n m)) by (destruct (Z.ltb_spec (Z.of_nat m) (Z.of_nat n)); lia).
    apply Hw. by eapply prefix_lcs_diff.
Qed.

Definition full_table (lcs : list Z) : Prop := forall i j, 0 <= i <= alen -> 0 <= j <= blen -> filled lcs i j.

Lemma lcs_table_spec lcs0 : zlen lcs0 = (alen + 1) * (blen + 1) ->
  exists lcs, lcs_table a b lcs0 = Some lcs /\ full_table lcs.
Proof.
  intros Hl. pose proof (zlen_nonneg a). pose proof (zlen_nonneg b).
  destruct (for_inv (fun i => table_inv i 0) (lcs_row a b) (Z.to_nat (alen + 1)) 0 lcs0) as (lcs & E & [_ Hf]).
  - split; [done |]. intros. lia.
  - intros i lcs Hi HI. destruct (for_inv (table_inv i) (lcs_cell a b i) (Z.to_nat (blen + 1)) 0 lcs HI) as (lcs' & E & [Hl' Hf]).
    + intros j m Hj Hm. apply lcs_cell_spec; [lia | lia | done].
    + exists lcs'. split; [exact E |]. split; [done |]. intros i' j' Hi' Hj' Hlt. apply Hf; lia.
  - exists lcs. split; [exact E |]. intros i j Hi Hj. apply Hf; lia.
Qed.

(** * Ranges *)

(** A range that matches: [a_lo..a_hi] in the first string and [b_lo..b_hi] in
    the second. *)
Record range := Range { a_lo : Z; a_hi : Z; b_lo : Z; b_hi : Z }.

Definition a_part (r : range) : list Z := slice (a_lo r) (a_hi r + 1) a.
Definition b_part (r : range) : list Z := slice (b_lo r) (b_hi r + 1) b.

Definition matched (r : range) : Prop :=
  0 <= a_lo r <= a_hi r /\ a_hi r < alen /\ 0 <= b_lo r <= b_hi r /\ b_hi r < blen /\ a_part r = b_part r.

(** The first range does not start at [(i, j)]. *)
Definition gap (i j : Z) (rs : list range) : Prop :=
  match rs with r :: _ => i < a_lo r \/ j < b_lo r | [] => True end.

(** Ranges from [(i, j)] on, one after the other, none continuing the one
    before. *)
Fixpoint chain (i j : Z) (rs : list range) : Prop :=
  match rs with
  | [] => True
  | r :: rs => i <= a_lo r /\ j <= b_lo r /\ matched r /\ gap (a_hi r + 1) (b_hi r + 1) rs /\ chain (a_hi r + 1) (b_hi r + 1) rs
  end.

Definition parts (rs : list range) : list Z := concat (map a_part rs).

Lemma slice_sublist {A} lo hi (l : list A) k : hi <= k -> 0 <= lo <= k -> drop (Z.to_nat lo) l = slice lo k l ++ drop (Z.to_nat k) l.
Proof using.
  intros H1 H2. unfold slice. replace (Z.to_nat k) with (Z.to_nat lo + Z.to_nat (k - lo))%nat by lia.
  by rewrite <- drop_drop, take_drop.
Qed.

Lemma drop_sublist {A} i k (l c : list A) : 0 <= i <= k -> c `sublist_of` drop (Z.to_nat k) l -> c `sublist_of` drop (Z.to_nat i) l.
Proof using.
  intros H Hc. replace (Z.to_nat k) with (Z.to_nat i + Z.to_nat (k - i))%nat in Hc by lia.
  rewrite <- drop_drop in Hc. etrans; [exact Hc | apply sublist_drop].
Qed.

Lemma chain_common rs : forall i j, 0 <= i -> 0 <= j -> chain i j rs -> common (parts rs) (drop (Z.to_nat i) a) (drop (Z.to_nat j) b).
Proof using.
  induction rs as [| r rs IH]; intros i j Hi Hj; [intros _; split; apply sublist_nil_l |].
  cbn [chain]. intros (H1 & H2 & (Ha & Ha' & Hb & Hb' & E) & _ & Hrs).
  destruct (IH (a_hi r + 1) (b_hi r + 1)) as [Ca Cb]; [lia.. | done |]. unfold parts in *. cbn [map concat]. split.
  - apply (drop_sublist i (a_lo r)); [lia |]. rewrite (slice_sublist (a_lo r) (a_hi r + 1) a (a_hi r + 1)) by lia.
    by apply sublist_app.
  - apply (drop_sublist j (b_lo r)); [lia |]. rewrite (slice_sublist (b_lo r) (b_hi r + 1) b (b_hi r + 1)) by lia.
    rewrite E. by apply sublist_app.
Qed.

Lemma gap_mono i j i' j' rs : i' <= i -> j' <= j -> gap i j rs -> gap i' j' rs.
Proof using. destruct rs; [done |]. cbn [gap]. lia. Qed.

Lemma chain_mono i j i' j' rs : i' <= i -> j' <= j -> chain i j rs -> chain i' j' rs.
Proof using. destruct rs; [done |]. cbn [chain]. intros Hi Hj (? & ? & ?). split_and!; [lia | lia | tauto..]. Qed.

Lemma slice_cons lo hi (l : list Z) x : rd l lo = Some x -> lo < hi -> slice lo hi l = x :: slice (lo + 1) hi l.
Proof using.
  intros E H. unfold slice. rewrite (rd_cons l lo x E). replace (Z.to_nat (hi - lo)) with (S (Z.to_nat (hi - (lo + 1)))) by lia. done.
Qed.

(** A range of one character, and a range extended by one character. *)
Lemma chain_start i j rs x : 0 < i -> 0 < j -> rd a (i - 1) = Some x -> rd b (j - 1) = Some x -> chain i j rs -> gap i j rs ->
  chain (i - 1) (j - 1) (Range (i - 1) (i - 1) (j - 1) (j - 1) :: rs).
Proof using.
  intros Hi Hj Ea Eb Hc Hg. pose proof (rd_inv _ _ _ Ea). pose proof (rd_inv _ _ _ Eb).
  cbn [chain a_lo a_hi b_lo b_hi]. rewrite !Z.sub_add. split_and!; [lia | lia | | done | done].
  unfold matched, a_part, b_part. cbn [a_lo a_hi b_lo b_hi]. split_and!; [lia.. |].
  rewrite (slice_cons _ _ a x), (slice_cons _ _ b x), !slice_empty by (done || lia). done.
Qed.

Lemma chain_extend i j e f rs x : 0 < i -> 0 < j -> rd a (i - 1) = Some x -> rd b (j - 1) = Some x ->
  chain i j (Range i e j f :: rs) -> chain (i - 1) (j - 1) (Range (i - 1) e (j - 1) f :: rs).
Proof using.
  intros Hi Hj Ea Eb. cbn [chain a_lo a_hi b_lo b_hi].
  intros (_ & _ & (Ha & Ha' & Hb & Hb' & E) & Hg & Hc). cbn [a_lo a_hi b_lo b_hi] in *.
  split_and!; [lia | lia | | done | done].
  unfold matched, a_part, b_part in *. cbn [a_lo a_hi b_lo b_hi] in *. split_and!; [lia.. |].
  rewrite (slice_cons _ _ a x), (slice_cons _ _ b x) by (done || lia). rewrite !Z.sub_add. by rewrite E.
Qed.

Lemma parts_start i e j f rs x : rd a (i - 1) = Some x -> i <= e + 1 ->
  parts (Range (i - 1) e (j - 1) f :: rs) = x :: slice i (e + 1) a ++ parts rs.
Proof using.
  intros E H. unfold parts, a_part. cbn [map concat a_lo a_hi]. rewrite (slice_cons _ _ a x) by (done || lia). by rewrite Z.sub_add.
Qed.

(** * The way back through the table *)

Section walk.
Context (lcs : list Z) (Hlcs : full_table lcs) (o : lcs_opts) (s0 : srv) (len : Z).

Definition match_len (r : range) : Z := a_hi r - a_lo r + 1.

(** The ranges of the reply, and what is sent for each. *)
Definition reported (r : range) : bool := getidx o && ((minmatchlen o =? 0) || (minmatchlen o <=? match_len r)).
Definition range_reply (r : range) : list reply :=
  [RArrayLen (2 + Z.b2z (withmatchlen o));
   RArrayLen 2; RInt (a_lo r); RInt (a_hi r);
   RArrayLen 2; RInt (b_lo r); RInt (b_hi r)] ++
  (if withmatchlen o then [RInt (match_len r)] else []).
Definition shown (rs : list range) : list range := filter reported (reverse rs).
Definition emitted (rs : list range) : list reply := concat (map range_reply (shown rs)).

Definition sent (l : list reply) (s : srv) : srv := Srv (db s) (dirty s) (modified s) (replies s ++ l).

Lemma sent_fold l s : fold_left (fun s r => addReply r s) l s = sent l s.
Proof using.
  revert s. induction l as [| r l IH]; intros [d n m reps]; unfold sent; cbn [fold_left db dirty modified replies].
  - by rewrite app_nil_r.
  - rewrite IH. unfold sent, addReply. cbn [db dirty modified replies]. by rewrite <- app_assoc.
Qed.

Lemma sent_app l l' s : sent l' (sent l s) = sent (l ++ l') s.
Proof using. unfold sent. cbn. by rewrite <- app_assoc. Qed.

Lemma shown_cons r rs : shown (r :: rs) = shown rs ++ (if reported r then [r] else []).
Proof using.
  unfold shown. rewrite reverse_cons, filter_app. cbn [filter list_filter]. by destruct (reported r).
Qed.

Lemma shown_nil rs : getidx o = false -> shown rs = [].
Proof using.
  intros E. unfold shown. induction (reverse rs) as [| r l IH]; [done |]. rewrite filter_cons_False; [done |].
  unfold reported. rewrite E. by intros [].
Qed.

(** The state, with the ranges emitted so far, the last first, and the one
    that is tracked. *)
Definition tracked (p : option range) (st : lcs_state) (rs : list range) : Prop :=
  match p with
  | Some r => r = Range (arange_start st) (arange_end st) (brange_start st) (brange_end st) /\
              arange_start st = ii st /\ brange_start st = jj st /\ 0 < ii st /\ 0 < jj st
  | None => arange_start st = alen /\ (ii st = 0 \/ jj st = 0 \/ gap (ii st) (jj st) rs)
  end.

Definition with_tracked (p : option range) (rs : list range) : list range := match p with Some r => r :: rs | None => rs end.

Definition progress (p : option range) (rs : list range) (st : lcs_state) : Prop :=
  0 <= ii st <= alen /\ 0 <= jj st <= blen /\
  (exists n, idx st = Z.of_nat n /\ prefix_lcs n (ii st) (jj st)) /\
  zlen (result st) = len /\ idx st <= len /\
  drop (Z.to_nat (idx st)) (result st) = parts (with_tracked p rs) /\
  chain (ii st) (jj st) (with_tracked p rs) /\
  out st = sent (emitted rs) s0 /\ arraylen st = zlen (shown rs).

Definition walk (st : lcs_state) : Prop := exists p rs, progress p rs st /\ tracked p st rs.

(** A tracked range is emitted, and there is none any more. *)
Lemma lcs_emit_spec r rs st : progress (Some r) rs st ->
  r = Range (arange_start st) (arange_end st) (brange_start st) (brange_end st) ->
  ii st = 0 \/ jj st = 0 \/ gap (ii st) (jj st) (r :: rs) ->
  walk (lcs_emit a o true st).
Proof.
  intros (Hi & Hj & Hn & Hl & Hx & Hr & Hc & Ho & Hk) Er Hg.
  exists None, (r :: rs). unfold lcs_emit.
  assert (matched r) as Hm by (cbn [with_tracked chain] in Hc; tauto).
  assert (u32 (arange_end st - arange_start st + 1) = match_len r) as El.
  { rewrite Er in Hm. subst r. unfold match_len, matched in *. cbn [a_lo a_hi b_lo b_hi] in *.
    pose proof (zlen_nonneg b). rewrite u32_id by nia. done. }
  rewrite El. fold (reported r).
  assert (range_replies o st (match_len r) = range_reply r) as Err by (by rewrite Er).
  rewrite Err. split; [| split; [done | exact Hg]].
  unfold progress. cbn [ii jj idx result out arraylen with_tracked] in *.
  split_and!; try first [done | lia].
  - unfold emitted in *. rewrite shown_cons, Ho. destruct (reported r).
    + rewrite sent_fold, sent_app. f_equal. rewrite map_app, concat_app. cbn [map concat]. by rewrite app_nil_r.
    + by rewrite app_nil_r.
  - rewrite shown_cons, Hk. destruct (reported r); autorewrite with zlen; lia.
Qed.

Lemma drop_write m i x m' l : wrn m i [x] = Some m' -> drop (Z.to_nat (i + 1)) m = l -> drop (Z.to_nat i) m' = x :: l.
Proof using.
  rewrite wrn_Some. intros (u & v & w & -> & <- & Hv & ->) <-. pose proof (zlen_nonneg u).
  rewrite zlen_cons, zlen_nil in Hv. replace (zlen u + 1) with (zlen (u ++ v)) by (rewrite zlen_app; lia).
  unfold zlen. rewrite !Nat2Z.id, drop_app_length, (app_assoc u v w), drop_app_length. done.
Qed.

Lemma lcs_emit_ii e st : ii (lcs_emit a o e st) = ii st.
Proof using. by destruct e. Qed.
Lemma lcs_emit_jj e st : jj (lcs_emit a o e st) = jj st.
Proof using. by destruct e. Qed.

(** The end of a turn that tracks a range. *)
Lemma lcs_emit_tracked r rs st : progress (Some r) rs st -> r = Range (arange_start st) (arange_end st) (brange_start st) (brange_end st) ->
  arange_start st = ii st -> brange_start st = jj st ->
  walk (lcs_emit a o (if (arange_start st =? 0) || (brange_start st =? 0) then true else false) st).
Proof.
  intros Hp Er Ha Hb. destruct ((arange_start st =? 0) || (brange_start st =? 0)) eqn:Ee.
  - apply (lcs_emit_spec r rs); [done | done |]. apply orb_true_iff in Ee. rewrite !Z.eqb_eq in Ee. lia.
  - exists (Some r), rs. apply orb_false_iff in Ee as [E1%Z.eqb_neq E2%Z.eqb_neq].
    assert (0 <= ii st /\ 0 <= jj st) by (unfold progress in Hp; lia). split; [exact Hp |]. cbn [lcs_emit tracked]. split_and!; [done | done | done | lia | lia].
Qed.

(** A turn where the characters match: the range is started or extended. *)
Lemma lcs_step_match st x : walk st -> 0 < ii st -> 0 < jj st -> rd a (ii st - 1) = Some x -> rd b (jj st - 1) = Some x ->
  exists st', lcs_step a b lcs o st = Some st' /\ walk st' /\ ii st' + jj st' < ii st + jj st.
Proof.
  intros (p & rs & (Hi & Hj & (n & En & Hn) & Hl & Hx & Hr & Hc & Ho & Hk) & Ht) Hi0 Hj0 Ea Eb.
  unfold lcs_step. rewrite Ea, Eb. cbn [mbind option_bind]. rewrite Z.eqb_refl.
  destruct (Hlcs (ii st - 1) (jj st - 1)) as (m & _ & Hm); [lia.. |].
  assert (n = S m) as -> by (eapply lcs_len_unique; [exact Hn | by eapply prefix_lcs_same]).
  rewrite En in *. replace (Z.of_nat (S m) - 1) with (Z.of_nat m) by lia.
  destruct (wrn_is_Some (result st) (Z.of_nat m) [x]) as [res E]; [lia | rewrite zlen_cons, zlen_nil; lia |].
  rewrite E. cbn [mbind option_bind]. pose proof (wrn_length _ _ _ _ E) as Hl'.
  replace (Z.of_nat (S m)) with (Z.of_nat m + 1) in Hr by lia. pose proof (drop_write _ _ _ _ _ E Hr) as Hr'.
  assert (forall st', ii st' = ii st - 1 -> jj st' = jj st - 1 -> idx st' = Z.of_nat m -> result st' = res -> out st' = out st ->
    arraylen st' = arraylen st -> arange_start st' = ii st - 1 -> brange_start st' = jj st - 1 ->
    let r := Range (arange_start st') (arange_end st') (brange_start st') (brange_end st') in
    chain (ii st - 1) (jj st - 1) (r :: rs) -> parts (r :: rs) = x :: parts (with_tracked p rs) ->
    walk (lcs_emit a o (if (arange_start st' =? 0) || (brange_start st' =? 0) then true else false) st')) as Hend.
  { intros st' Ei Ej Ex Er' Eo Ek Eas Ebs r Hcr Hpr. apply (lcs_emit_tracked r rs).
    - unfold progress. rewrite Ei, Ej, Ex, Er', Eo, Ek, Hr'. cbn [with_tracked]. split_and!; try first [done | lia]. by exists m.
    - done.
    - by rewrite Eas, Ei.
    - by rewrite Ebs, Ej. }
  destruct p as [r |]; cbn [tracked with_tracked] in *.
  - destruct Ht as (Er & Ha & Hb & _).
    assert (arange_start st <> alen /\ ii st <= arange_end st) as [Hne He] by (rewrite Er in Hc; cbn [chain] in Hc; unfold matched in Hc; cbn [a_lo a_hi] in Hc; lia).
    rewrite (proj2 (Z.eqb_neq _ _) Hne), Ha, Hb, !Z.eqb_refl. cbn [andb].
    eexists. split; [reflexivity |]. split; [| rewrite lcs_emit_ii, lcs_emit_jj; cbn [ii jj]; lia].
    match goal with |- walk (lcs_emit _ _ _ ?st') => apply (Hend st'); try reflexivity; cbn [arange_start arange_end brange_start brange_end] end.
    + rewrite Er, Ha, Hb in Hc. by eapply chain_extend.
    + rewrite (parts_start _ _ _ _ _ x), Er, Ha, Hb by (done || lia). done.
  - destruct Ht as (Ha & Hg). rewrite Ha, Z.eqb_refl.
    eexists. split; [reflexivity |]. split; [| rewrite lcs_emit_ii, lcs_emit_jj; cbn [ii jj]; lia].
    match goal with |- walk (lcs_emit _ _ _ ?st') => apply (Hend st'); try reflexivity; cbn [arange_start arange_end brange_start brange_end] end.
    + apply (chain_start (ii st) (jj st) rs x); [done.. |]. by destruct Hg as [? | [? | Hg]]; [lia | lia | exact Hg].
    + rewrite (parts_start _ _ _ _ _ x), slice_empty by (done || lia). done.
Qed.

(** A turn where they differ: the tracked range is emitted. *)
Lemma lcs_step_differ st x y : walk st -> 0 < ii st -> 0 < jj st -> rd a (ii st - 1) = Some x -> rd b (jj st - 1) = Some y -> x <> y ->
  exists st', lcs_step a b lcs o st = Some st' /\ walk st' /\ ii st' + jj st' < ii st + jj st.
Proof.
  intros (p & rs & (Hi & Hj & (n & En & Hn) & Hl & Hx & Hr & Hc & Ho & Hk) & Ht) Hi0 Hj0 Ea Eb Hxy.
  unfold lcs_step. rewrite Ea, Eb. cbn [mbind option_bind]. rewrite (proj2 (Z.eqb_neq x y) Hxy).
  destruct (Hlcs (ii st - 1) (jj st)) as (n1 & E1 & Hn1); [lia.. |].
  destruct (Hlcs (ii st) (jj st - 1)) as (n2 & E2 & Hn2); [lia.. |].
  rewrite !LCS_index, E1, E2 by lia. cbn [mbind option_bind].
  assert (n = Nat.max n1 n2) as En' by (eapply lcs_len_unique; [exact Hn | by eapply prefix_lcs_diff]).
  assert (exists i j, (if Z.of_nat n2 <? Z.of_nat n1 then (ii st - 1, jj st) else (ii st, jj st - 1)) = (i, j) /\
    prefix_lcs n i j /\ 0 <= i <= ii st /\ 0 <= j <= jj st /\ i + j < ii st + jj st) as (i & j & E & Hij & Hi' & Hj' & Hlt).
  { destruct (Z.ltb_spec (Z.of_nat n2) (Z.of_nat n1)); [exists (ii st - 1), (jj st) | exists (ii st), (jj st - 1)].
    - replace n with n1 by lia. split_and!; try done; lia.
    - replace n with n2 by lia. split_and!; try done; lia. }
  rewrite E. eexists. split; [reflexivity |]. split; [| rewrite lcs_emit_ii, lcs_emit_jj; cbn [ii jj]; lia].
  match goal with |- walk (lcs_emit _ _ _ ?s) => assert (progress p rs s) as Hp end.
  { unfold progress. cbn [ii jj idx result out arraylen]. split_and!; try first [done | lia | by exists n].
    eapply chain_mono; [.. | exact Hc]; lia. }
  destruct p as [r |]; cbn [tracked with_tracked] in *.
  - destruct Ht as (Er & Ha & Hb & _).
    assert (arange_start st <> alen) as Hne by (rewrite Er in Hc; cbn [chain] in Hc; unfold matched in Hc; cbn [a_lo a_hi] in Hc; lia).
    rewrite (proj2 (Z.eqb_neq _ _) Hne) in *. cbn [negb] in *.
    apply (lcs_emit_spec r rs); [exact Hp | exact Er |]. cbn [ii jj gap]. right. right. rewrite Er. cbn [a_lo b_lo]. lia.
  - destruct Ht as (Ha & Hg). rewrite Ha, Z.eqb_refl in *. cbn [negb lcs_emit] in *.
    exists None, rs. split; [exact Hp |]. cbn [tracked arange_start ii jj]. split; [done |]. right. right.
    eapply gap_mono; [.. | by destruct Hg as [? | [? | Hg]]; [lia | lia | exact Hg]]; lia.
Qed.

Lemma lcs_loop_spec st : walk st -> ii st + jj st <= alen + blen ->
  exists st', lcs_loop a b lcs o st = Some st' /\ walk st' /\ (ii st' = 0 \/ jj st' = 0).
Proof.
  intros Hw Hm. assert (forall st, walk st -> 0 <= ii st <= alen /\ 0 <= jj st <= blen) as Hb.
  { intros st1 (p & rs & Hp & _). unfold progress in Hp. tauto. }
  destruct (while_inv walk (fun st => Z.to_nat (ii st + jj st)) (fun st => (0 <? ii st) && (0 <? jj st)) (lcs_step a b lcs o))
    with (fuel := Z.to_nat (alen + blen)) (s := st) as (st' & E & Hw' & Hg); [| done | lia |].
  - intros st1 H1 [Hi%Z.ltb_lt Hj%Z.ltb_lt]%andb_true_iff. pose proof (Hb st1 H1).
    destruct (rd_total a (ii st1 - 1)) as [x Ex]; [lia |]. destruct (rd_total b (jj st1 - 1)) as [y Ey]; [lia |].
    assert (exists st', lcs_step a b lcs o st1 = Some st' /\ walk st' /\ ii st' + jj st' < ii st1 + jj st1) as (st2 & E & H2 & Hlt).
    { destruct (decide (x = y)) as [-> |]; [by eapply lcs_step_match | by eapply lcs_step_differ]. }
    exists st2. pose proof (Hb st2 H2). split_and!; [done | done | lia].
  - exists st'. split_and!; [exact E | done |]. pose proof (Hb st' Hw'). apply andb_false_iff in Hg. rewrite !Z.ltb_ge in Hg. lia.
Qed.

(** At the end, the ranges are those of a longest common subsequence. *)
Lemma walk_end st : walk st -> ii st = 0 \/ jj st = 0 -> prefix_lcs (Z.to_nat len) alen blen -> 0 <= len ->
  exists rs, chain 0 0 rs /\ result st = parts rs /\ is_lcs (parts rs) a b /\ zlen (parts rs) = len /\
    out st = sent (emitted rs) s0 /\ arraylen st = zlen (shown rs).
Proof.
  intros (p & rs & (Hi & Hj & (n & En & Hn) & Hl & _ & Hr & Hc & Ho & Hk) & Ht) He Hlen H0.
  destruct p as [r |]; cbn [tracked with_tracked] in *; [lia |].
  assert (n = 0%nat) as ->.
  { eapply lcs_len_unique; [exact Hn |]. apply prefix_lcs_edge; lia. }
  rewrite En, drop_0 in Hr.
  assert (chain 0 0 rs) as Hc0 by (eapply chain_mono; [.. | exact Hc]; lia).
  exists rs. rewrite <- Hr in *. split_and!; try done.
  pose proof (chain_common rs 0 0 ltac:(lia) ltac:(lia) Hc0) as Hcom. rewrite !drop_0, <- Hr in Hcom.
  unfold prefix_lcs, zlen in Hlen. rewrite !Nat2Z.id, !firstn_all in Hlen.
  eapply is_lcs_len; [done | exact Hlen | unfold zlen in Hl; lia].
Qed.
End walk.

(** * The reply *)

Definition lcs_answer (o : lcs_opts) (rep : list reply) : Prop :=
  if getidx o then
    exists rs, chain 0 0 rs /\ is_lcs (parts rs) a b /\
      rep = [RMapLen 2; RBulk (chars "matches"); RArrayLen (zlen (shown o rs))] ++ emitted o rs ++ [RBulk (chars "len"); RInt (zlen (parts rs))]
  else if getlen o then exists c, is_lcs c a b /\ rep = [RInt (zlen c)]
  else exists c, is_lcs c a b /\ rep = [RBulk c].

Lemma setDeferredArrayLen_sent l n r l' s : setDeferredArrayLen (length (replies s) + length l) n (sent (l ++ r :: l') s) = sent (l ++ RArrayLen n :: l') s.
Proof using.
  unfold setDeferredArrayLen, sent. cbn [db dirty modified replies]. f_equal.
  rewrite insert_app_r. f_equal. rewrite <- (Nat.add_0_r (length l)), insert_app_r. done.
Qed.

Lemma lcs_reply_spec lcs o s junk : full_table lcs -> getlen o && getidx o = false ->
  exists rep, lcs_reply junk a b lcs o s = Some (sent rep s) /\ lcs_answer o rep.
Proof.
  intros Hlcs Hoo. pose proof (zlen_nonneg a). pose proof (zlen_nonneg b).
  destruct (Hlcs alen blen) as (n & E & Hn); [lia.. |].
  assert (exists c, is_lcs c a b /\ zlen c = Z.of_nat n) as (c & Hc & Hcl).
  { destruct Hn as (c & Hc & <-). unfold zlen in Hc. rewrite !Nat2Z.id, !firstn_all in Hc. by exists c. }
  unfold lcs_reply. rewrite LCS_index, E by lia. cbn [mbind option_bind].
  assert (forall s, exists st, lcs_loop a b lcs o (LcsState (fresh_bytes junk (Z.of_nat n)) (Z.of_nat n) alen blen alen 0 0 0 0 s) = Some st /\
    exists rs, chain 0 0 rs /\ result st = parts rs /\ is_lcs (parts rs) a b /\ zlen (parts rs) = Z.of_nat n /\
    out st = sent (emitted o rs) s /\ arraylen st = zlen (shown o rs)) as Hloop.
  { intros s'. edestruct (lcs_loop_spec lcs Hlcs o s' (Z.of_nat n)) as (st & El & Hw & He); [| | exists st; split; [exact El |]].
    - exists None, []. split; [| by cbn; auto]. unfold progress. cbn [ii jj idx result out arraylen with_tracked].
      rewrite drop_ge by (pose proof (zlen_fresh_bytes junk (Z.of_nat n)); unfold zlen in *; lia).
      rewrite zlen_fresh_bytes. split_and!; try first [done | lia | by exists n]. unfold emitted, sent, shown. cbn.
      rewrite app_nil_r. by destruct s'.
    - cbn [ii jj]. lia.
    - eapply walk_end; [exact Hw | exact He | by rewrite Nat2Z.id | lia]. }
  unfold lcs_answer. destruct (getidx o) eqn:Ei; cbn [orb].
  - destruct (Hloop (addReply (RArrayLen 0) (addReply (RBulk (chars "matches")) (addReply (RMapLen 2) s)))) as (st & El & rs & Hch & _ & Hlcs' & Hlen & Ho & Hk).
    rewrite El. cbn [mbind option_bind]. rewrite Ho, Hk.
    exists ([RMapLen 2; RBulk (chars "matches"); RArrayLen (zlen (shown o rs))] ++ emitted o rs ++ [RBulk (chars "len"); RInt (zlen (parts rs))]).
    split; [| by exists rs]. f_equal. rewrite Hlen.
    etrans; [| exact (setDeferredArrayLen_sent [RMapLen 2; RBulk (chars "matches")] (zlen (shown o rs)) (RArrayLen 0)
      (emitted o rs ++ [RBulk (chars "len"); RInt (Z.of_nat n)]) s)]. f_equal.
    + unfold addReply. cbn [replies]. rewrite !length_app. cbn [length]. lia.
    + unfold addReplyLongLong, addReply, sent. cbn [db dirty modified replies app]. by rewrite <- !app_assoc.
  - destruct (getlen o) eqn:Eg; cbn [negb].
    + exists [RInt (Z.of_nat n)]. split; [done |]. exists c. by rewrite Hcl.
    + destruct (Hloop s) as (st & El & rs & _ & Er & Hlcs' & _ & Ho & _). rewrite El. cbn [mbind option_bind].
      rewrite Ho, Er. exists [RBulk (parts rs)]. split; [| by exists (parts rs)]. f_equal.
      unfold emitted. rewrite shown_nil by done. unfold sent, addReply. cbn. by rewrite app_nil_r.
Qed.
End lcs.

(** * The command *)

(** The options of the command line. *)
Fixpoint lcs_parse (args : list (list Z)) (o : lcs_opts) : string + lcs_opts :=
  match args with
  | [] => inr o
  | opt :: rest =>
      if strcasecmp_eq opt "IDX" then lcs_parse rest (LcsOpts true (getlen o) (withmatchlen o) (minmatchlen o))
      else if strcasecmp_eq opt "LEN" then lcs_parse rest (LcsOpts (getidx o) true (withmatchlen o) (minmatchlen o))
      else if strcasecmp_eq opt "WITHMATCHLEN" then lcs_parse rest (LcsOpts (getidx o) (getlen o) true (minmatchlen o))
      else if strcasecmp_eq opt "MINMATCHLEN" then
        match rest with
        | arg :: rest =>
            match string2ll arg with
            | Some n => lcs_parse rest (LcsOpts (getidx o) (getlen o) (withmatchlen o) (Z.max 0 n))
            | None => inl "value is not an integer or out of range"%string
            end
        | [] => inl syntaxerr
        end
      else inl syntaxerr
  end.

Lemma lcs_options_parse args : forall o s, lcs_options args o s =
  match lcs_parse args o with inl msg => (addReplyError msg s, None) | inr o => (s, Some o) end.
Proof.
  induction args as [args IH] using (induction_ltof1 _ length). intros o s.
  destruct args as [| opt rest]; [done |]. cbn [lcs_options lcs_parse].
  assert (forall o s, lcs_options rest o s = match lcs_parse rest o with inl msg => (addReplyError msg s, None) | inr o => (s, Some o) end) as IHr.
  { apply IH. unfold ltof. cbn [length]. lia. }
  destruct (strcasecmp_eq opt "IDX"); [apply IHr |]. destruct (strcasecmp_eq opt "LEN"); [apply IHr |].
  destruct (strcasecmp_eq opt "WITHMATCHLEN"); [apply IHr |]. destruct (strcasecmp_eq opt "MINMATCHLEN"); [| done].
  destruct rest as [| arg rest]; [done |]. unfold getLongLongFromObjectOrReply.
  destruct (string2ll arg) as [n |]; [| done]. rewrite IH by (unfold ltof; cbn [length]; lia).
  replace (if n <? 0 then 0 else n) with (Z.max 0 n) by (destruct (Z.ltb_spec n 0); lia). done.
Qed.

Definition no_opts : lcs_opts := LcsOpts false false false 0.

(** The replies for two strings: with the cells counted in 4 bytes, the table
    is refused when its size overflows or exceeds the limit. *)
Definition lcs_outcome (proto_max_bulk_len : Z) (malloc_ok : bool) (a b : list Z) (o : lcs_opts) (rep : list reply) : Prop :=
  let bytes := 4 * ((zlen a + 1) * (zlen b + 1)) in
  if getlen o && getidx o then rep = [RErr "If you want both the length and indexes, please just use IDX."]
  else if (4294967294 <=? zlen a) || (4294967294 <=? zlen b) then rep = [RErr "String too long for LCS"]
  else if 18446744073709551616 <=? bytes then rep = [RErr "Insufficient memory, failed allocating transient memory for LCS"]
  else if proto_max_bulk_len <? bytes then rep = [RErr "Insufficient memory, transient memory for LCS exceeds proto-max-bulk-len"]
  else if malloc_ok then lcs_answer a b o rep
  else rep = [RErr "Insufficient memory, failed allocating transient memory for LCS"].

#[local] Instance is_string_dec o : Decision (is_string o).
Proof. unfold is_string. apply _. Defined.

Section command.
Context (proto_max_bulk_len : Z) (buf32 : list Z) (junk_table junk_result : nat -> Z) (malloc_ok : bool).
Context (H32 : zlen buf32 = 32) (Hmax : proto_max_bulk_len <= 17179869184).

Lemma lcs_size (a b : list Z) : zlen a < 4294967294 -> zlen b < 4294967294 ->
  let size := (zlen a + 1) * (zlen b + 1) in
  let lcssize := u64 (u32 (zlen a + 1) * u32 (zlen b + 1)) in
  lcssize = size /\
  ((u64 (lcssize * 4) <? SIZE_MAX) && (u64 (lcssize * 4) / lcssize =? 4) = (4 * size <? 18446744073709551616)) /\
  (4 * size < 18446744073709551616 -> u64 (lcssize * 4) = 4 * size).
Proof using.
  clear Hmax H32. intros Ha Hb size lcssize. pose proof (zlen_nonneg a). pose proof (zlen_nonneg b).
  assert (0 < size < 18446744073709551616) as Hs by (unfold size; nia).
  assert (lcssize = size) as E by (unfold lcssize; rewrite !u32_id, u64_id by (unfold is_u64; lia); done).
  rewrite E. clearbody size. split; [done |]. unfold SIZE_MAX.
  assert (0 <= u64 (size * 4) < 18446744073709551616) as Hu by (apply Z.mod_pos_bound; lia).
  destruct (Z.ltb_spec (4 * size) 18446744073709551616) as [Hlt | Hge].
  - assert (u64 (size * 4) = 4 * size) as -> by (rewrite u64_id by (unfold is_u64; lia); lia).
    split; [| done]. rewrite Z.div_mul by lia. rewrite andb_true_r. apply Z.ltb_lt. lia.
  - split; [| lia]. apply andb_false_iff. right. apply Z.eqb_neq. intros Hq.
    pose proof (Z.div_mod (u64 (size * 4)) size ltac:(lia)). pose proof (Z.mod_pos_bound (u64 (size * 4)) size). lia.
Qed.

Lemma lcs_text s key : srv_ok s -> is_string (db s !! key) ->
  match db s !! key with Some _ => decoded buf32 (db s !! key) | None => Some [] end = Some (text_at s key).
Proof using H32.
  intros Hs Hk. unfold text_at. destruct (db s !! key) as [v |] eqn:E; [| done].
  apply decoded_spec; [done | | done]. intros n ->. by eapply srv_ok_int.
Qed.

Lemma is_other_spec (o : option value) : (match o with Some VOther => true | _ => false end) = negb (bool_decide (is_string o)).
Proof using. by destruct o as [[] |]. Qed.

(** The command replies with one error. *)
Ltac one_error := eexists; split; reflexivity.

(** C24: LCS on two keys that hold strings (a missing key counts as the empty
    string; an error otherwise) always replies, and changes nothing else.  When
    the limit on the size of the table is at most 16 GB, which keeps the 32 bit
    indexes from wrapping around, it replies with a longest common subsequence
    of the two strings; with LEN its length; with IDX the ranges of the two
    strings, the last first, at which the pieces of a longest common
    subsequence are found, each as long as possible and those shorter than
    MINMATCHLEN left out, and its length. *)
Theorem lcsCommand_correct name key1 key2 opts s : srv_ok s ->
  exists rep,
    lcsCommand proto_max_bulk_len buf32 junk_table junk_result malloc_ok (name :: key1 :: key2 :: opts) s = Some (sent rep s) /\
    if bool_decide (is_string (db s !! key1)) && bool_decide (is_string (db s !! key2)) then
      match lcs_parse opts no_opts with
      | inl msg => rep = [RErr msg]
      | inr o => lcs_outcome proto_max_bulk_len malloc_ok (text_at s key1) (text_at s key2) o rep
      end
    else rep = [RErr "The specified keys must contain string values"].
Proof using H32 Hmax.
  intros Hs. unfold lcsCommand. cbn [lookup list_lookup mbind option_bind drop].
  rewrite !is_other_spec, <- negb_andb. destruct (bool_decide _ && bool_decide _) eqn:Ek; cbn [negb]; [| one_error].
  apply andb_true_iff in Ek as [K1%bool_decide_eq_true K2%bool_decide_eq_true].
  rewrite !lcs_text by done. cbn [mbind option_bind]. fold no_opts. rewrite lcs_options_parse, drop_0.
  generalize (text_at s key1) as a, (text_at s key2) as b. intros a b.
  destruct (lcs_parse opts no_opts) as [msg | o]; cbn iota; [one_error |]. unfold lcs_outcome.
  destruct (getlen o && getidx o) eqn:Eo; [one_error |].
  change (UINT32_MAX - 1) with 4294967294.
  destruct ((4294967294 <=? zlen a) || (4294967294 <=? zlen b)) eqn:El; [one_error |].
  apply orb_false_iff in El as [La%Z.leb_gt Lb%Z.leb_gt].
  destruct (lcs_size a b La Lb) as (E1 & E2 & E3). cbv zeta. rewrite E2. clear E2. rewrite Z.leb_antisym.
  destruct (Z.ltb_spec (4 * ((zlen a + 1) * (zlen b + 1))) 18446744073709551616) as [Hlt | Hge]; cbn [andb negb]; [| one_error].
  rewrite (E3 Hlt). destruct (Z.ltb_spec proto_max_bulk_len (4 * ((zlen a + 1) * (zlen b + 1)))) as [| Hle]; [one_error |].
  destruct malloc_ok; cbn [negb]; [| one_error]. rewrite E1.
  assert ((zlen a + 1) * (zlen b + 1) <= 4294967296) as Hsize by lia.
  destruct (lcs_table_spec a b Hsize (fresh_bytes junk_table ((zlen a + 1) * (zlen b + 1)))) as (lcs & E & Hf).
  { rewrite zlen_fresh_bytes. pose proof (zlen_nonneg a). pose proof (zlen_nonneg b). nia. }
  rewrite E. cbn [mbind option_bind]. by apply lcs_reply_spec.
Qed.
End command.

(** [mytext] is a longest common subsequence of the two strings. *)
Lemma lcsCommand_correct_witness : exists rep,
  lcsCommand 536870912 (replicate 32 0) (fun _ => 7) (fun _ => 9) true (map chars ["lcs"; "a"; "b"; "LEN"])
    (Srv {[chars "a" := VRaw (chars "ohmytext"); chars "b" := VRaw (chars "mynewtext")]} 0 [] []) =
  Some (Srv {[chars "a" := VRaw (chars "ohmytext"); chars "b" := VRaw (chars "mynewtext")]} 0 [] rep) /\ rep = [RInt 6].
Proof.
  assert (srv_ok (Srv {[chars "a" := VRaw (chars "ohmytext"); chars "b" := VRaw (chars "mynewtext")]} 0 [] [])) as Hs.
  { assert (forall t, zlen (chars t) <= MAXLEN -> value_ok (VRaw (chars t))) as Hv by (intros t Ht; split; [apply chars_bytes | exact Ht]).
    apply map_Forall_insert_2; [| apply map_Forall_singleton]; apply Hv; vm_compute; discriminate. }
  destruct (lcsCommand_correct 536870912 (replicate 32 0) (fun _ => 7) (fun _ => 9) true ltac:(vm_compute; reflexivity) ltac:(lia)
    (chars "lcs") (chars "a") (chars "b") [chars "LEN"] _ Hs) as (rep & E & _).
  exists rep. split; [exact E |]. vm_compute in E. injection E as <-. reflexivity.
Defined.
