(* ===== verification/Sds.v ===== *)
(** sds.c, sds.h: dynamic strings, on a 64 bit target.

    An sds is its header (type, [len], [alloc]; type 5 keeps only the length)
    and the memory after the header.  [usable n] is what the allocator really
    gives for a request of [n] bytes, [junk] what fresh memory holds; both, and
    whether the jemalloc build is used, are arguments.  An allocation does not
    return NULL ([zmalloc] stops the program instead).  [None] is a failed
    [assert] or an access outside the allocation. *)
From S2P Require Import Prelude Strnum.

Inductive sds_type := SDS_TYPE_5 | SDS_TYPE_8 | SDS_TYPE_16 | SDS_TYPE_32 | SDS_TYPE_64.

#[global] Instance sds_type_eq_dec : EqDecision sds_type.
Proof. solve_decision. Defined.

Definition ty_num (t : sds_type) : Z :=
  match t with SDS_TYPE_5 => 0 | SDS_TYPE_8 => 1 | SDS_TYPE_16 => 2 | SDS_TYPE_32 => 3 | SDS_TYPE_64 => 4 end.

Record sds := Sds { s_type : sds_type; s_len : Z; s_alloc : Z; s_buf : list Z }.

(** * Header *)

Definition sdsHdrSize (t : sds_type) : Z :=
  match t with SDS_TYPE_5 => 1 | SDS_TYPE_8 => 3 | SDS_TYPE_16 => 5 | SDS_TYPE_32 => 9 | SDS_TYPE_64 => 17 end.

Definition sdsReqType (n : Z) : sds_type :=
  if n <? Z.shiftl 1 5 then SDS_TYPE_5
  else if n <? Z.shiftl 1 8 then SDS_TYPE_8
  else if n <? Z.shiftl 1 16 then SDS_TYPE_16
  else if n <? Z.shiftl 1 32 then SDS_TYPE_32
  else SDS_TYPE_64.

Definition sdsTypeMaxSize (t : sds_type) : Z :=
  match t with
  | SDS_TYPE_5 => Z.shiftl 1 5 - 1
  | SDS_TYPE_8 => Z.shiftl 1 8 - 1
  | SDS_TYPE_16 => Z.shiftl 1 16 - 1
  | SDS_TYPE_32 => Z.shiftl 1 32 - 1
  | SDS_TYPE_64 => ULLONG_MAX
  end.

(** Storing into a length or alloc field; type 5 has five bits of the flags byte. *)
Definition hdr_store (t : sds_type) (n : Z) : Z := n mod (sdsTypeMaxSize t + 1).

Definition sdslen (s : sds) : Z := s_len s.
Definition sdsalloc (s : sds) : Z := match s_type s with SDS_TYPE_5 => s_len s | _ => s_alloc s end.
Definition sdsavail (s : sds) : Z := match s_type s with SDS_TYPE_5 => 0 | _ => u64 (s_alloc s - s_len s) end.
Definition sdssetlen (s : sds) (n : Z) : sds :=
  Sds (s_type s) (hdr_store (s_type s) n) (s_alloc s) (s_buf s).
Definition sdsinclen (s : sds) (inc : Z) : sds := sdssetlen s (s_len s + inc).
Definition sdssetalloc (s : sds) (n : Z) : sds :=
  match s_type s with
  | SDS_TYPE_5 => s
  | t => Sds t (s_len s) (hdr_store t n) (s_buf s)
  end.

(** Writing into the string. *)
Definition sds_wr (s : sds) (i : Z) (bs : list Z) : option sds :=
  b ← wrn (s_buf s) i bs; Some (Sds (s_type s) (s_len s) (s_alloc s) b).

Definition SDS_MAX_PREALLOC : Z := 1024 * 1024.

Definition not5 (t : sds_type) : sds_type := match t with SDS_TYPE_5 => SDS_TYPE_8 | _ => t end.

(** * Operations *)

(** The [init] argument: NULL, SDS_NOINIT, or a buffer. *)
Inductive sds_init := InitNull | InitNoInit | InitFrom (l : list Z).

Section alloc.
Context (usable : Z -> Z) (junk : nat -> Z) (use_jemalloc : bool).

Definition sdsnewlen (init : sds_init) (initlen : Z) : option sds :=
  let type := sdsReqType initlen in
  let type := if bool_decide (type = SDS_TYPE_5) && (initlen =? 0) then SDS_TYPE_8 else type in
  let hdrlen := sdsHdrSize type in
  _ ← assert_ (initlen <? u64 (initlen + hdrlen + 1));
  let size := usable (hdrlen + initlen + 1) in
  let buf := fresh_bytes junk (size - hdrlen) in
  buf ← (match init with InitNull => wrn buf 0 (repeat 0 (Z.to_nat (initlen + 1))) | _ => Some buf end);
  let avail := size - hdrlen - 1 in
  let avail := if sdsTypeMaxSize type <? avail then sdsTypeMaxSize type else avail in
  let s := Sds type (hdr_store type initlen) (hdr_store type avail) buf in
  s ← (match init with
       | InitFrom l => if negb (initlen =? 0) then bs ← rdn l 0 initlen; sds_wr s 0 bs else Some s
       | _ => Some s
       end);
  sds_wr s initlen [0].

Definition sdsempty : option sds := sdsnewlen (InitFrom []) 0.
Definition sdsdup (s : sds) : option sds := sdsnewlen (InitFrom (s_buf s)) (sdslen s).

Definition sdsfromlonglong (value : Z) : option sds :=
  '(buf, len) ← ll2string (repeat 0 (Z.to_nat LONG_STR_SIZE)) LONG_STR_SIZE value;
  sdsnewlen (InitFrom buf) len.

Fixpoint strlen_from (m : list Z) (n : Z) : option Z :=
  match m with
  | [] => None
  | c :: m => if c =? 0 then Some n else strlen_from m (n + 1)
  end.
Definition sdsupdatelen (s : sds) : option sds :=
  reallen ← strlen_from (s_buf s) 0; Some (sdssetlen s reallen).

Definition sdsclear (s : sds) : option sds := sds_wr (sdssetlen s 0) 0 [0].

Definition sdsMakeRoomFor_ (s : sds) (addlen : Z) (greedy : bool) : option sds :=
  if addlen <=? sdsavail s then Some s
  else
    let oldtype := s_type s in
    let len := sdslen s in
    let reqlen := u64 (len + addlen) in
    let newlen := reqlen in
    _ ← assert_ (len <? newlen);
    let newlen :=
      if greedy then
        if newlen <? SDS_MAX_PREALLOC then u64 (newlen * 2) else u64 (newlen + SDS_MAX_PREALLOC)
      else newlen in
    let type := not5 (sdsReqType newlen) in
    let hdrlen := sdsHdrSize type in
    _ ← assert_ (reqlen <? u64 (hdrlen + newlen + 1));
    let size := usable (hdrlen + newlen + 1) in
    s ← (if bool_decide (oldtype = type) then
           Some (Sds type (s_len s) (s_alloc s) (zrealloc junk (s_buf s) (size - hdrlen)))
         else
           bs ← rdn (s_buf s) 0 (len + 1);
           buf ← wrn (fresh_bytes junk (size - hdrlen)) 0 bs;
           Some (sdssetlen (Sds type 0 0 buf) len));
    let avail := size - hdrlen - 1 in
    let avail := if sdsTypeMaxSize type <? avail then sdsTypeMaxSize type else avail in
    Some (sdssetalloc s avail).

Definition sdsMakeRoomFor (s : sds) (addlen : Z) : option sds := sdsMakeRoomFor_ s addlen true.
Definition sdsMakeRoomForNonGreedy (s : sds) (addlen : Z) : option sds := sdsMakeRoomFor_ s addlen false.

Definition sdsResize (s : sds) (size : Z) (would_regrow : bool) : option sds :=
  let oldtype := s_type s in
  let oldhdrlen := sdsHdrSize oldtype in
  let len := sdslen s in
  if sdsalloc s =? size then Some s
  else
    let len := if size <? len then size else len in
    let type := sdsReqType size in
    let type := if (would_regrow : bool) then not5 type else type in
    let hdrlen := sdsHdrSize type in
    let use_realloc := bool_decide (oldtype = type) || ((ty_num type <? ty_num oldtype) && (1 <? ty_num type)) in
    let newlen := if use_realloc then oldhdrlen + size + 1 else hdrlen + size + 1 in
    s ← (if use_realloc then
           if use_jemalloc && (usable newlen =? oldhdrlen + zlen (s_buf s)) then Some s
           else Some (Sds oldtype (s_len s) (s_alloc s) (zrealloc junk (s_buf s) (usable newlen - oldhdrlen)))
         else
           bs ← rdn (s_buf s) 0 len;
           buf ← wrn (fresh_bytes junk (usable newlen - hdrlen)) 0 bs;
           Some (Sds type 0 0 buf));
    s ← sds_wr s len [0];
    Some (sdssetalloc (sdssetlen s len) size).

Definition sdsRemoveFreeSpace (s : sds) (would_regrow : bool) : option sds := sdsResize s (sdslen s) would_regrow.

Definition sdsAllocSize (s : sds) : Z := sdsHdrSize (s_type s) + sdsalloc s + 1.

(** The assertion of each header width, with its casts. *)
Definition sdsIncrLen (s : sds) (incr : Z) : option sds :=
  let len := s_len s in
  let alloc := s_alloc s in
  _ ← assert_ (match s_type s with
      | SDS_TYPE_5 => ((0 <? incr) && (len + incr <? 32)) || ((incr <? 0) && (u32 (- incr) <=? len))
      | SDS_TYPE_8 | SDS_TYPE_16 => ((0 <=? incr) && (incr <=? alloc - len)) || ((incr <? 0) && (u32 (- incr) <=? len))
      | SDS_TYPE_32 => ((0 <=? incr) && (u32 incr <=? u32 (alloc - len))) || ((incr <? 0) && (u32 (- incr) <=? len))
      | SDS_TYPE_64 => ((0 <=? incr) && (incr <=? u64 (alloc - len))) || ((incr <? 0) && (u64 (- incr) <=? len))
      end);
  let s := sdssetlen s (len + incr) in
  sds_wr s (s_len s) [0].

Definition sdsgrowzero (s : sds) (len : Z) : option sds :=
  let curlen := sdslen s in
  if len <=? curlen then Some s
  else
    s ← sdsMakeRoomFor s (len - curlen);
    s ← sds_wr s curlen (repeat 0 (Z.to_nat (len - curlen + 1)));
    Some (sdssetlen s len).

(** [t] is the source buffer, disjoint from the string. *)
Definition sdscatlen (s : sds) (t : list Z) (len : Z) : option sds :=
  let curlen := sdslen s in
  s ← sdsMakeRoomFor s len;
  bs ← rdn t 0 len;
  s ← sds_wr s curlen bs;
  sds_wr (sdssetlen s (curlen + len)) (curlen + len) [0].

Definition sdscat (s : sds) (t : list Z) : option sds := sdscatlen s t (zlen t).
Definition sdscatsds (s t : sds) : option sds := sdscatlen s (s_buf t) (sdslen t).

Definition sdscpylen (s : sds) (t : list Z) (len : Z) : option sds :=
  s ← (if sdsalloc s <? len then sdsMakeRoomFor s (u64 (len - sdslen s)) else Some s);
  bs ← rdn t 0 len;
  s ← sds_wr s 0 bs;
  s ← sds_wr s len [0];
  Some (sdssetlen s len).

(** [strchr(cset, c)]: also finds the terminator of [cset]. *)
Definition in_cset (cset : list Z) (c : Z) : bool := (c =? 0) || bool_decide (c ∈ cset).

Fixpoint trim_left (fuel : nat) (m cset : list Z) (sp end_ : Z) : option Z :=
  if sp <=? end_ then
    match fuel with
    | O => None
    | S fuel => c ← rd m sp; if in_cset cset c then trim_left fuel m cset (sp + 1) end_ else Some sp
    end
  else Some sp.
Fixpoint trim_right (fuel : nat) (m cset : list Z) (sp ep : Z) : option Z :=
  if sp <? ep then
    match fuel with
    | O => None
    | S fuel => c ← rd m ep; if in_cset cset c then trim_right fuel m cset sp (ep - 1) else Some ep
    end
  else Some ep.

Definition sdstrim (s : sds) (cset : list Z) : option sds :=
  let end_ := sdslen s - 1 in
  sp ← trim_left (Z.to_nat (sdslen s)) (s_buf s) cset 0 end_;
  ep ← trim_right (Z.to_nat (sdslen s)) (s_buf s) cset sp end_;
  let len := ep - sp + 1 in
  s ← (if negb (sp =? 0) then b ← memmove (s_buf s) 0 sp len; Some (Sds (s_type s) (s_len s) (s_alloc s) b)
       else Some s);
  s ← sds_wr s len [0];
  Some (sdssetlen s len).

Definition sdssubstr (s : sds) (start len : Z) : option sds :=
  let oldlen := sdslen s in
  let '(start, len) := if oldlen <=? start then (0, 0) else (start, len) in
  let len := if oldlen - start <? len then oldlen - start else len in
  s ← (if negb (len =? 0) then b ← memmove (s_buf s) 0 start len; Some (Sds (s_type s) (s_len s) (s_alloc s) b)
       else Some s);
  s ← sds_wr s len [0];
  Some (sdssetlen s len).

(** [start] and [end] are [ssize_t]; they reach [sdssubstr] as [size_t]. *)
Definition sdsrange (s : sds) (start end_ : Z) : option sds :=
  let len := sdslen s in
  if len =? 0 then Some s
  else
    let start := if start <? 0 then i64 (u64 (len + start)) else start in
    let end_ := if end_ <? 0 then i64 (u64 (len + end_)) else end_ in
    let newlen := if end_ <? start then 0 else u64 (end_ - start + 1) in
    sdssubstr s (u64 start) newlen.

Definition toupper (c : Z) : Z := if (97 <=? c) && (c <=? 122) then c - 32 else c.
Definition sds_map (f : Z -> Z) (s : sds) : option sds := bs ← rdn (s_buf s) 0 (sdslen s); sds_wr s 0 (map f bs).
Definition sdstolower (s : sds) : option sds := sds_map tolower s.
Definition sdstoupper (s : sds) : option sds := sds_map toupper s.
Definition sdsmapchars (s : sds) (from to : list Z) : option sds := sds_map (fun c => mapchar c from to) s.
End alloc.

Fixpoint memcmp (a b : list Z) : Z :=
  match a, b with
  | x :: a, y :: b => if x <? y then -1 else if y <? x then 1 else memcmp a b
  | _, _ => 0
  end.

Definition sdscmp (s1 s2 : sds) : option Z :=
  let l1 := sdslen s1 in
  let l2 := sdslen s2 in
  let minlen := if l1 <? l2 then l1 else l2 in
  a ← rdn (s_buf s1) 0 minlen;
  b ← rdn (s_buf s2) 0 minlen;
  let cmp := memcmp a b in
  Some (if cmp =? 0 then if l2 <? l1 then 1 else if l1 <? l2 then -1 else 0 else cmp).

(** * Representation *)

(** [sds_rep s c]: the string is well formed and holds the bytes [c].  In the
    middle of an operation the byte after them may be another one ([sds_hold]). *)
Definition sds_hold (z : Z) (s : sds) (c : list Z) : Prop :=
  (exists sl, s_buf s = c ++ z :: sl) /\ s_len s = zlen c /\ zlen c <= sdsalloc s /\
  sdsalloc s + 1 <= zlen (s_buf s) /\ sdsalloc s <= sdsTypeMaxSize (s_type s).
Definition sds_rep (s : sds) (c : list Z) : Prop := sds_hold 0 s c.

Lemma hdr_store_id t n : 0 <= n <= sdsTypeMaxSize t -> hdr_store t n = n.
Proof. intros H. unfold hdr_store. apply Z.mod_small. lia. Qed.

Lemma type_max_bounds t : 31 <= sdsTypeMaxSize t <= ULLONG_MAX.
Proof. destruct t; vm_compute; split; discriminate. Qed.

Lemma req_type_max n : 0 <= n <= ULLONG_MAX -> n <= sdsTypeMaxSize (sdsReqType n).
Proof.
  intros Hn. unfold sdsReqType.
  change (Z.shiftl 1 5) with 32. change (Z.shiftl 1 8) with 256. change (Z.shiftl 1 16) with 65536.
  change (Z.shiftl 1 32) with 4294967296.
  repeat case_if; unfold sdsTypeMaxSize; change (Z.shiftl 1 5) with 32; change (Z.shiftl 1 8) with 256;
    change (Z.shiftl 1 16) with 65536; change (Z.shiftl 1 32) with 4294967296; lia.
Qed.

Lemma hdr_size_bounds t : 1 <= sdsHdrSize t <= 17.
Proof. destruct t; cbn; lia. Qed.

Lemma not5_max t n : n <= sdsTypeMaxSize t -> n <= sdsTypeMaxSize (not5 t).
Proof. destruct t; cbn [not5]; try done. intros H. change (sdsTypeMaxSize SDS_TYPE_8) with 255. change (sdsTypeMaxSize SDS_TYPE_5) with 31 in H. lia. Qed.

Lemma setalloc_eq t l a b n : t <> SDS_TYPE_5 -> 0 <= n <= sdsTypeMaxSize t ->
  sdssetalloc (Sds t l a b) n = Sds t l n b.
Proof. intros Ht Hn. destruct t; [done |..]; unfold sdssetalloc; cbn [s_type s_len s_buf]; now rewrite hdr_store_id. Qed.

Lemma not5_not5 t : not5 t <> SDS_TYPE_5.
Proof. by destruct t. Qed.

(** Writing [bs] and a terminator after the kept prefix [c]. *)
Lemma write_tail c r bs : zlen bs + 1 <= zlen r ->
  exists b sl, wrn (c ++ r) (zlen c) bs = Some b /\
    wrn b (zlen c + zlen bs) [0] = Some ((c ++ bs) ++ 0 :: sl) /\ zlen b = zlen (c ++ r) /\
    zlen ((c ++ bs) ++ 0 :: sl) = zlen (c ++ r).
Proof.
  intros Hr. pose proof (zlen_nonneg bs).
  destruct (zlen_split_prefix r (zlen bs)) as (x & y & -> & Hx); [lia |].
  destruct y as [| z y]; [rewrite app_nil_r in Hr; lia |].
  exists (c ++ bs ++ z :: y), y. split; [now apply wrn_app |]. split.
  - rewrite app_assoc. change (z :: y) with ([z] ++ y). apply (wrn_app (c ++ bs) [z] [0]); [zlens | done].
  - split; zlens.
Qed.

Lemma wr_prefix r bs : zlen bs + 1 <= zlen r ->
  exists b sl, wrn r 0 bs = Some b /\ wrn b (zlen bs) [0] = Some (bs ++ 0 :: sl) /\ zlen b = zlen r /\
    zlen (bs ++ 0 :: sl) = zlen r.
Proof. exact (write_tail [] r bs). Qed.

Lemma rdn_take0 m n c : rdn m 0 n = Some c -> c = take (Z.to_nat n) m /\ zlen c = n.
Proof.
  rewrite rdn_Some. intros (a & k & -> & Ha & <-). apply zlen_0 in Ha as ->. split; [| done].
  cbn [app]. unfold zlen. now rewrite Nat2Z.id, take_app_length.
Qed.

Lemma rep_rdn s c : sds_rep s c -> rdn (s_buf s) 0 (sdslen s) = Some c.
Proof.
  intros ((sl & ->) & El & _). unfold sdslen. rewrite El. apply rdn_Some. exists [], (0 :: sl). done.
Qed.

Lemma rep_len_bound {z} s c : sds_hold z s c -> 0 <= zlen c <= sdsTypeMaxSize (s_type s) /\ zlen c + 1 <= zlen (s_buf s).
Proof. intros (_ & _ & H1 & H2 & H3). pose proof (zlen_nonneg c). lia. Qed.

Lemma avail_rep {z} s c n : sds_hold z s c -> n <= sdsavail s -> n <= 0 \/ zlen c + n <= sdsalloc s.
Proof.
  intros (_ & El & Hal & _ & Hmax) Hn. pose proof (type_max_bounds (s_type s)). pose proof (zlen_nonneg c).
  unfold sdsavail, sdsalloc in *. destruct (s_type s); [by left |..];
    (right; rewrite u64_id in Hn by (unfold is_u64, ULLONG_MAX in *; lia); lia).
Qed.

(** A string assembled from its parts. *)
Lemma sds_rep_intro {z} t len alloc c sl : len = zlen c ->
  zlen c <= (match t with SDS_TYPE_5 => len | _ => alloc end) ->
  (match t with SDS_TYPE_5 => len | _ => alloc end) + 1 <= zlen (c ++ z :: sl) ->
  (match t with SDS_TYPE_5 => len | _ => alloc end) <= sdsTypeMaxSize t ->
  sds_hold z (Sds t len alloc (c ++ z :: sl)) c.
Proof. intros. split; [by exists sl |]. split; [done |]. split; [done |]. split; done. Qed.

Definition clamp (t : sds_type) (n : Z) : Z := if sdsTypeMaxSize t <? n then sdsTypeMaxSize t else n.

Lemma clamp_bounds t n : n <= clamp t n \/ clamp t n = sdsTypeMaxSize t.
Proof. unfold clamp. case_if; lia. Qed.

Lemma clamp_le t n : clamp t n <= n /\ clamp t n <= sdsTypeMaxSize t.
Proof. unfold clamp. case_if; lia. Qed.

Lemma clamp_ge t n k : k <= n -> k <= sdsTypeMaxSize t -> k <= clamp t n.
Proof. unfold clamp. case_if; lia. Qed.

(** There is room for [n] bytes and the terminator. *)
Definition room (s : sds) (n : Z) : Prop :=
  n + 1 <= zlen (s_buf s) /\ n <= sdsTypeMaxSize (s_type s) /\
  (s_type s = SDS_TYPE_5 \/
   n <= s_alloc s /\ s_alloc s + 1 <= zlen (s_buf s) /\ s_alloc s <= sdsTypeMaxSize (s_type s)).

Lemma room_le s n k : room s n -> k <= n -> room s k.
Proof. unfold room. intros (? & ? & [? | ?]) ?; (split; [lia |]; split; [lia |]); [by left | right; lia]. Qed.

Lemma rep_room {z} s c n : sds_hold z s c -> n <= sdsalloc s -> room s n.
Proof.
  intros (_ & _ & _ & H1 & H2) Hn. unfold room, sdsalloc in *.
  split; [lia |]. split; [lia |]. destruct (s_type s); [by left | right; lia ..].
Qed.

Lemma rep_of_room {z} t len alloc c sl : len = zlen c -> room (Sds t len alloc (c ++ z :: sl)) len ->
  sds_hold z (Sds t len alloc (c ++ z :: sl)) c.
Proof.
  intros -> (H1 & H2 & H3). cbn [s_type s_len s_alloc s_buf] in *.
  apply sds_rep_intro; destruct H3 as [-> | H3]; try done; destruct t; lia.
Qed.

Lemma sds_wr_eq s i bs b : wrn (s_buf s) i bs = Some b ->
  sds_wr s i bs = Some (Sds (s_type s) (s_len s) (s_alloc s) b).
Proof. unfold sds_wr. now intros ->. Qed.

(** Writing [bs] after a kept prefix [p] and ending the string there. *)
Lemma put_rep s p r bs : s_buf s = p ++ r -> 0 <= zlen p + zlen bs -> room s (zlen p + zlen bs) ->
  exists b sl, sds_wr s (zlen p) bs = Some (Sds (s_type s) (s_len s) (s_alloc s) b) /\
    wrn b (zlen p + zlen bs) [0] = Some ((p ++ bs) ++ 0 :: sl) /\
    hdr_store (s_type s) (zlen p + zlen bs) = zlen p + zlen bs /\
    sds_rep (Sds (s_type s) (zlen p + zlen bs) (s_alloc s) ((p ++ bs) ++ 0 :: sl)) (p ++ bs).
Proof.
  intros E H0 Hr. pose proof Hr as (H1 & H2 & H3). rewrite E, zlen_app in H1.
  destruct (write_tail p r bs) as (b & sl & E1 & E2 & _ & El); [lia |].
  exists b, sl. rewrite <- E in E1. split; [now apply sds_wr_eq |]. split; [done |].
  split; [apply hdr_store_id; lia |]. apply rep_of_room; [now rewrite zlen_app |].
  unfold room in *. cbn [s_type s_len s_alloc s_buf]. rewrite El, <- E. exact Hr.
Qed.

Section lemmas.
Context (usable : Z -> Z) (junk : nat -> Z) (use_jemalloc : bool).
Context (Hus : forall n, 0 <= n < 2 ^ 62 -> n <= usable n < 2 ^ 63).

Lemma zlen_fresh n : 0 <= n -> zlen (fresh_bytes junk n) = n.
Proof. intros. rewrite zlen_fresh_bytes. lia. Qed.

Lemma newlen_rep m n c : rdn m 0 n = Some c -> n < 2 ^ 61 ->
  exists s, sdsnewlen usable junk (InitFrom m) n = Some s /\ sds_rep s c.
Proof.
  intros Hc Hn. destruct (rdn_take0 _ _ _ Hc) as [_ Hl]. pose proof (zlen_nonneg c).
  unfold sdsnewlen. set (t := if _ && _ then SDS_TYPE_8 else sdsReqType n).
  assert (n <= sdsTypeMaxSize t) as Ht.
  { subst t. pose proof (req_type_max n ltac:(unfold ULLONG_MAX; lia)).
    destruct (_ && _) eqn:E; [| done]. rewrite andb_true_iff, Z.eqb_eq in E. destruct E as [_ ->].
    vm_compute. discriminate. }
  pose proof (hdr_size_bounds t). pose proof (type_max_bounds t).
  rewrite u64_id, (proj2 (Z.ltb_lt n _)) by (unfold is_u64; lia). cbn [assert_ mbind option_bind].
  pose proof (Hus (sdsHdrSize t + n + 1) ltac:(lia)) as Hu. set (u := usable _) in *.
  change (if sdsTypeMaxSize t <? u - sdsHdrSize t - 1 then sdsTypeMaxSize t else u - sdsHdrSize t - 1)
    with (clamp t (u - sdsHdrSize t - 1)).
  pose proof (clamp_le t (u - sdsHdrSize t - 1)). pose proof (clamp_ge t (u - sdsHdrSize t - 1) n ltac:(lia) Ht).
  rewrite !hdr_store_id by lia. set (av := clamp t _) in *.
  destruct (wr_prefix (fresh_bytes junk (u - sdsHdrSize t)) c) as (b & sl & E1 & E2 & El & El2).
  { rewrite zlen_fresh; lia. }
  assert (exists b', (if negb (n =? 0)
     then bs ← rdn m 0 n; sds_wr (Sds t n av (fresh_bytes junk (u - sdsHdrSize t))) 0 bs
     else Some (Sds t n av (fresh_bytes junk (u - sdsHdrSize t)))) = Some (Sds t n av b') /\
     exists sl', wrn b' n [0] = Some (c ++ 0 :: sl') /\ zlen (c ++ 0 :: sl') = u - sdsHdrSize t) as (b' & -> & sl' & E3 & El3).
  { destruct (Z.eqb_spec n 0) as [-> |]; cbn [negb].
    - apply zlen_0 in Hl. subst c. exists (fresh_bytes junk (u - sdsHdrSize t)). split; [done |].
      change (wrn (fresh_bytes junk (u - sdsHdrSize t)) 0 []) with (wrn (fresh_bytes junk (u - sdsHdrSize t)) 0 []) in E1.
      assert (b = fresh_bytes junk (u - sdsHdrSize t)) as ->.
      { apply wrn_Some in E1 as (a & x & k & -> & Ha & Hx & ->). apply zlen_0 in Hx. now subst. }
      exists sl. split; [exact E2 |]. rewrite El2. apply zlen_fresh. lia.
    - rewrite Hc. cbn [mbind option_bind]. unfold sds_wr. cbn [s_buf s_type s_len s_alloc]. rewrite E1.
      cbn [mbind option_bind]. exists b. split; [done |]. exists sl. rewrite <- Hl at 1. split; [exact E2 |].
      rewrite El2. apply zlen_fresh. lia. }
  cbn [mbind option_bind]. unfold sds_wr. cbn [s_buf s_type s_len s_alloc]. rewrite E3. cbn [mbind option_bind].
  eexists. split; [reflexivity |]. apply sds_rep_intro; destruct t; lia.
Qed.

Lemma newlen_all l : zlen l < 2 ^ 61 -> exists s, sdsnewlen usable junk (InitFrom l) (zlen l) = Some s /\ sds_rep s l.
Proof.
  intros Hl. apply newlen_rep; [| done]. apply rdn_Some. exists [], []. now rewrite app_nil_r.
Qed.

Lemma newlen_zero n : 0 <= n < 2 ^ 61 ->
  exists s, sdsnewlen usable junk InitNull n = Some s /\ sds_rep s (repeat 0 (Z.to_nat n)).
Proof.
  intros Hn. unfold sdsnewlen. set (t := if _ && _ then SDS_TYPE_8 else sdsReqType n).
  assert (n <= sdsTypeMaxSize t) as Ht.
  { subst t. pose proof (req_type_max n ltac:(unfold ULLONG_MAX; lia)).
    destruct (_ && _) eqn:E; [| done]. rewrite andb_true_iff, Z.eqb_eq in E. destruct E as [_ ->].
    vm_compute. discriminate. }
  pose proof (hdr_size_bounds t). pose proof (type_max_bounds t).
  rewrite u64_id, (proj2 (Z.ltb_lt n _)) by (unfold is_u64; lia). cbn [assert_ mbind option_bind].
  pose proof (Hus (sdsHdrSize t + n + 1) ltac:(lia)) as Hu. set (u := usable _) in *.
  change (if sdsTypeMaxSize t <? u - sdsHdrSize t - 1 then sdsTypeMaxSize t else u - sdsHdrSize t - 1)
    with (clamp t (u - sdsHdrSize t - 1)).
  pose proof (clamp_le t (u - sdsHdrSize t - 1)). pose proof (clamp_ge t (u - sdsHdrSize t - 1) n ltac:(lia) Ht).
  rewrite !hdr_store_id by lia. set (av := clamp t _) in *.
  assert (zlen (repeat 0 (Z.to_nat n)) = n) as Hl by (unfold zlen; rewrite repeat_length; lia).
  destruct (wr_prefix (fresh_bytes junk (u - sdsHdrSize t)) (repeat 0 (Z.to_nat n))) as (b & sl & E1 & E2 & El & El2).
  { rewrite zlen_fresh; lia. }
  assert (repeat 0 (Z.to_nat (n + 1)) = repeat 0 (Z.to_nat n) ++ [0]) as Er.
  { replace (Z.to_nat (n + 1)) with (Z.to_nat n + 1)%nat by lia. now rewrite repeat_app. }
  destruct (zlen_split_prefix (fresh_bytes junk (u - sdsHdrSize t)) (n + 1)) as (x & y & Ex & Hx).
  { rewrite zlen_fresh; lia. }
  rewrite Ex. assert (wrn (x ++ y) 0 (repeat 0 (Z.to_nat (n + 1))) = Some (repeat 0 (Z.to_nat n) ++ 0 :: y)) as ->.
  { rewrite Er. change (0 :: y) with ([0] ++ y). rewrite app_assoc.
    apply (wrn_app []); [done | rewrite zlen_app, Hl; exact Hx]. }
  cbn [mbind option_bind]. unfold sds_wr. cbn [s_buf s_type s_len s_alloc].
  assert (wrn (repeat 0 (Z.to_nat n) ++ 0 :: y) n [0] = Some (repeat 0 (Z.to_nat n) ++ 0 :: y)) as ->
    by exact (wrn_app _ [0] [0] y n Hl eq_refl).
  cbn [mbind option_bind]. eexists. split; [reflexivity |].
  assert (zlen (repeat 0 (Z.to_nat n) ++ 0 :: y) = u - sdsHdrSize t) as El3.
  { apply (f_equal zlen) in Ex. rewrite zlen_fresh, zlen_app in Ex by lia. rewrite zlen_app, zlen_cons. lia. }
  apply sds_rep_intro; destruct t; lia.
Qed.

(** Growing keeps the contents and makes the room asked for. *)
Lemma makeroom_hold z s c addlen greedy : sds_hold z s c -> 0 <= addlen -> zlen c + addlen < 2 ^ 60 ->
  exists s', sdsMakeRoomFor_ usable junk s addlen greedy = Some s' /\ sds_hold z s' c /\
    room s' (zlen c + addlen) /\ (addlen = 0 \/ s_type s' <> SDS_TYPE_5) /\
    (sdsavail s < addlen -> greedy = true ->
     Z.min (2 * (zlen c + addlen)) (zlen c + addlen + SDS_MAX_PREALLOC) <= sdsalloc s').
Proof.
  intros R Ha Hb. pose proof (rep_len_bound s c R) as [Hc Hbuf]. pose proof R as ((sl & Ebuf) & El & Hal & Hab & Hamax).
  unfold sdsMakeRoomFor_. destruct (Z.leb_spec addlen (sdsavail s)) as [Hav | Hav].
  { exists s. split; [done |]. split; [done |]. split.
    - eapply (rep_room (z:=z) s c); [eassumption |]. destruct (avail_rep s c addlen R Hav); lia.
    - split; [| lia]. revert Hav. unfold sdsavail. destruct (s_type s); [left; lia | by right ..]. }
  unfold sdslen. rewrite El, (u64_id (zlen c + addlen)) by (unfold is_u64; lia).
  assert (1 <= addlen) as Ha1.
  { revert Hav. unfold sdsavail. destruct (s_type s); unfold u64; dm. }
  rewrite (proj2 (Z.ltb_lt (zlen c) (zlen c + addlen))) by lia. cbn [assert_ mbind option_bind].
  set (newlen := if greedy then _ else _).
  assert (zlen c + addlen <= newlen < 2 ^ 61 + 1048576 /\ (greedy = true ->
    Z.min (2 * (zlen c + addlen)) (zlen c + addlen + SDS_MAX_PREALLOC) <= newlen)) as [Hnew Hgr].
  { subst newlen. unfold SDS_MAX_PREALLOC. destruct greedy; [| by (split; [lia |])].
    case_if; rewrite u64_id by (unfold is_u64; lia); lia. }
  clearbody newlen. set (t := not5 (sdsReqType newlen)).
  assert (newlen <= sdsTypeMaxSize t) as Ht by (apply not5_max, req_type_max; unfold ULLONG_MAX; lia).
  assert (t <> SDS_TYPE_5) as Ht5 by apply not5_not5.
  pose proof (hdr_size_bounds t). pose proof (type_max_bounds t).
  rewrite (u64_id (sdsHdrSize t + newlen + 1)) by (unfold is_u64; lia).
  rewrite (proj2 (Z.ltb_lt (zlen c + addlen) _)) by lia. cbn [assert_ mbind option_bind].
  pose proof (Hus (sdsHdrSize t + newlen + 1) ltac:(lia)) as Hu. set (u := usable _) in *.
  change (if sdsTypeMaxSize t <? u - sdsHdrSize t - 1 then sdsTypeMaxSize t else u - sdsHdrSize t - 1)
    with (clamp t (u - sdsHdrSize t - 1)).
  pose proof (clamp_le t (u - sdsHdrSize t - 1)).
  pose proof (clamp_ge t (u - sdsHdrSize t - 1) newlen ltac:(lia) Ht). set (av := clamp t _) in *.
  assert (exists sl', (if bool_decide (s_type s = t)
      then Some (Sds t (zlen c) (s_alloc s) (zrealloc junk (s_buf s) (u - sdsHdrSize t)))
      else bs ← rdn (s_buf s) 0 (zlen c + 1);
           buf ← wrn (fresh_bytes junk (u - sdsHdrSize t)) 0 bs;
           Some (sdssetlen (Sds t 0 0 buf) (zlen c))) =
      Some (Sds t (zlen c) (if bool_decide (s_type s = t) then s_alloc s else 0) (c ++ z :: sl')) /\
      zlen (c ++ z :: sl') = u - sdsHdrSize t) as (sl' & -> & Hl').
  { destruct (decide (s_type s = t)) as [Et | Et];
      [rewrite bool_decide_eq_true_2 by done | rewrite bool_decide_eq_false_2 by done].
    - rewrite Ebuf. unfold zrealloc.
      assert (take (Z.to_nat (u - sdsHdrSize t)) (c ++ z :: sl) ++ fresh_bytes junk (u - sdsHdrSize t - zlen (c ++ z :: sl)) =
        c ++ z :: (take (Z.to_nat (u - sdsHdrSize t) - length c - 1)%nat sl ++
                   fresh_bytes junk (u - sdsHdrSize t - zlen (c ++ z :: sl)))) as E.
      { rewrite take_app, take_ge by (unfold zlen in *; lia).
        destruct (Z.to_nat (u - sdsHdrSize t) - length c)%nat as [| k] eqn:Ek; [unfold zlen in *; lia |].
        cbn [take Nat.sub]. rewrite Nat.sub_0_r, <- app_assoc. done. }
      eexists. split; [do 2 f_equal; exact E |]. rewrite <- E. fold (zrealloc junk (c ++ z :: sl) (u - sdsHdrSize t)).
      apply zlen_zrealloc. lia.
    - assert (rdn (s_buf s) 0 (zlen c + 1) = Some (c ++ [z])) as ->.
      { rewrite Ebuf. apply rdn_Some. exists [], sl. rewrite <- app_assoc. split; [done |]. split; [done |]. zlens. }
      cbn [mbind option_bind].
      destruct (zlen_split_prefix (fresh_bytes junk (u - sdsHdrSize t)) (zlen c + 1)) as (x & y & Ex & Hx).
      { rewrite zlen_fresh; lia. }
      rewrite Ex. assert (wrn (x ++ y) 0 (c ++ [z]) = Some (c ++ z :: y)) as ->.
      { change (z :: y) with ([z] ++ y). rewrite app_assoc. apply (wrn_app []); [done | zlens]. }
      cbn [mbind option_bind]. exists y. unfold sdssetlen. cbn [s_type s_alloc s_buf].
      rewrite hdr_store_id by lia. split; [done |].
      apply (f_equal zlen) in Ex. rewrite zlen_fresh, zlen_app in Ex by lia. zlens. }
  cbn [mbind option_bind]. eexists. split; [reflexivity |]. rewrite (setalloc_eq t) by (done || lia).
  clearbody t. split; [apply sds_rep_intro; destruct t; try done; lia |].
  unfold room. cbn [s_type s_alloc s_len s_buf]. split.
  - split; [lia |]. split; [lia |]. right. lia.
  - split; [by right |]. intros _ G. specialize (Hgr G). unfold sdsalloc. cbn [s_type s_alloc s_len].
    destruct t; try done; lia.
Qed.

Lemma makeroom_rep s c addlen greedy : sds_rep s c -> 0 <= addlen -> zlen c + addlen < 2 ^ 60 ->
  exists s', sdsMakeRoomFor_ usable junk s addlen greedy = Some s' /\ sds_rep s' c /\
    room s' (zlen c + addlen) /\ (addlen = 0 \/ s_type s' <> SDS_TYPE_5) /\
    (sdsavail s < addlen -> greedy = true ->
     Z.min (2 * (zlen c + addlen)) (zlen c + addlen + SDS_MAX_PREALLOC) <= sdsalloc s').
Proof. apply makeroom_hold. Qed.

(** ** Operations that add bytes *)

Lemma catlen_rep s c m t n : sds_rep s c -> rdn m 0 n = Some t -> zlen c + n < 2 ^ 60 ->
  exists s', sdscatlen usable junk s m n = Some s' /\ sds_rep s' (c ++ t).
Proof.
  intros R Ht Hb. pose proof (rdn_length _ _ _ _ Ht) as Hl. pose proof (zlen_nonneg t). pose proof (zlen_nonneg c).
  destruct (makeroom_rep s c n true R) as (s1 & E1 & R1 & Hr & _); [lia.. |].
  pose proof R as (_ & El & _). pose proof R1 as ((sl & Eb) & El1 & _).
  unfold sdscatlen, sdsMakeRoomFor, sdslen. rewrite E1, El. cbn [mbind option_bind]. rewrite Ht. cbn [mbind option_bind].
  destruct (put_rep s1 c (0 :: sl) t Eb) as (b & sl' & E2 & E3 & E4 & R2); [lia | now rewrite Hl |].
  rewrite E2. cbn [mbind option_bind]. unfold sdssetlen. cbn [s_type s_len s_alloc s_buf].
  rewrite Hl in *. rewrite E4. unfold sds_wr. cbn [s_type s_len s_alloc s_buf]. rewrite E3. eauto.
Qed.

Lemma cpylen_rep s c t : sds_rep s c -> zlen c + zlen t < 2 ^ 60 ->
  exists s', sdscpylen usable junk s t (zlen t) = Some s' /\ sds_rep s' t.
Proof.
  intros R Hb. pose proof (zlen_nonneg t). pose proof (zlen_nonneg c). pose proof R as (_ & El & Hal & _).
  unfold sdscpylen, sdslen. rewrite El.
  assert (exists s1, (if sdsalloc s <? zlen t then sdsMakeRoomFor usable junk s (u64 (zlen t - zlen c)) else Some s) = Some s1 /\
    sds_rep s1 c /\ room s1 (zlen t)) as (s1 & -> & R1 & Hr).
  { case_if; [| exists s; split; [done |]; split; [done |]; by eapply (rep_room (z:=0) s c)].
    rewrite u64_id by (unfold is_u64; lia).
    destruct (makeroom_rep s c (zlen t - zlen c) true R) as (s1 & E1 & R1 & Hr1 & _); [lia.. |].
    exists s1. split; [done |]. split; [done |]. eapply room_le; [done | lia]. }
  cbn [mbind option_bind].
  assert (rdn t 0 (zlen t) = Some t) as -> by (apply rdn_Some; exists [], []; by rewrite app_nil_r).
  cbn [mbind option_bind].
  destruct (put_rep s1 [] (s_buf s1) t eq_refl) as (b & sl' & E2 & E3 & E4 & R2); [done.. |].
  cbn [app] in *. change (zlen [] + zlen t) with (zlen t) in *. change (@zlen Z []) with 0 in *. rewrite E2. cbn [mbind option_bind].
  unfold sds_wr. cbn [s_type s_len s_alloc s_buf]. rewrite E3. cbn [mbind option_bind].
  unfold sdssetlen. cbn [s_type s_len s_alloc s_buf]. rewrite E4. eauto.
Qed.

Lemma repeat_snoc_zero n : 0 <= n -> repeat 0 (Z.to_nat (n + 1)) = repeat 0 (Z.to_nat n) ++ [0].
Proof. intros. replace (Z.to_nat (n + 1)) with (Z.to_nat n + 1)%nat by lia. now rewrite repeat_app. Qed.

Lemma zlen_repeat (x : Z) n : 0 <= n -> zlen (repeat x (Z.to_nat n)) = n.
Proof. intros. unfold zlen. rewrite repeat_length. lia. Qed.

Lemma growzero_rep s c n : sds_rep s c -> 0 <= n < 2 ^ 60 ->
  exists s', sdsgrowzero usable junk s n = Some s' /\ sds_rep s' (c ++ repeat 0 (Z.to_nat (n - zlen c))).
Proof.
  intros R Hn. pose proof (zlen_nonneg c). pose proof R as (_ & El & Hal & _).
  unfold sdsgrowzero, sdsMakeRoomFor, sdslen. rewrite El. case_if.
  { exists s. split; [done |]. replace (Z.to_nat (n - zlen c)) with O by lia. cbn [repeat]. by rewrite app_nil_r. }
  destruct (makeroom_rep s c (n - zlen c) true R) as (s1 & E1 & R1 & Hr & _); [lia.. |].
  rewrite E1. cbn [mbind option_bind]. pose proof R1 as ((sl & Eb) & _).
  replace (zlen c + (n - zlen c)) with n in Hr by lia.
  pose proof (zlen_repeat 0 (n - zlen c) ltac:(lia)) as Hz. rewrite (repeat_snoc_zero (n - zlen c)) by lia.
  destruct Hr as (H1 & H2 & H3). rewrite Eb, zlen_app in H1.
  destruct (zlen_split_prefix (0 :: sl) (n - zlen c + 1)) as (x & y & Exy & Hx); [lia |].
  rewrite (sds_wr_eq _ _ _ (c ++ (repeat 0 (Z.to_nat (n - zlen c)) ++ [0]) ++ y)) by
    (rewrite Eb, Exy; apply wrn_app; [done | zlens]).
  cbn [mbind option_bind]. unfold sdssetlen. cbn [s_type s_len s_alloc s_buf].
  rewrite hdr_store_id by lia.
  assert (c ++ (repeat 0 (Z.to_nat (n - zlen c)) ++ [0]) ++ y =
    (c ++ repeat 0 (Z.to_nat (n - zlen c))) ++ 0 :: y) as Eq by now rewrite <- !app_assoc.
  assert (zlen (c ++ (repeat 0 (Z.to_nat (n - zlen c)) ++ [0]) ++ y) = zlen (s_buf s1)) as Elen
    by (rewrite Eb, Exy; zlens).
  rewrite Eq in Elen |- *. eexists. split; [reflexivity |].
  apply rep_of_room; [zlens |]. unfold room. cbn [s_type s_alloc s_buf].
  rewrite Elen, Eb, zlen_app. rewrite Eb, zlen_app in H3. split; [lia |]. split; [done | exact H3].
Qed.
End lemmas.

(** ** Operations that edit in place *)

Lemma end_rep s x r : s_buf s = x ++ r -> room s (zlen x) ->
  exists b, sds_wr s (zlen x) [0] = Some (Sds (s_type s) (s_len s) (s_alloc s) b) /\
    hdr_store (s_type s) (zlen x) = zlen x /\ sds_rep (Sds (s_type s) (zlen x) (s_alloc s) b) x.
Proof.
  intros E Hr. pose proof Hr as (H1 & H2 & H3). rewrite E, zlen_app in H1. pose proof (zlen_nonneg x).
  destruct r as [| z r]; [rewrite (@zlen_nil Z) in H1; lia |].
  exists (x ++ 0 :: r). split.
  - apply sds_wr_eq. rewrite E. exact (wrn_app x [z] [0] r (zlen x) eq_refl eq_refl).
  - split; [apply hdr_store_id; lia |]. apply rep_of_room; [done |].
    unfold room in *. cbn [s_type s_alloc s_buf]. rewrite E in Hr.
    assert (zlen (x ++ 0 :: r) = zlen (x ++ z :: r)) as -> by zlens. exact Hr.
Qed.

Lemma sdsclear_rep s c : sds_rep s c -> exists s', sdsclear s = Some s' /\ sds_rep s' [].
Proof.
  intros R. pose proof (rep_len_bound s c R) as [Hc _]. pose proof R as (_ & El & Hal & _).
  destruct (end_rep s [] (s_buf s) eq_refl) as (b & E & Eh & R').
  { eapply (rep_room (z:=0) s c); [eassumption |]. rewrite (@zlen_nil Z). lia. }
  unfold sdsclear, sdssetlen. change (@zlen Z []) with 0 in *. rewrite Eh.
  eexists. split; [| exact R']. revert E. unfold sds_wr. cbn [s_type s_len s_alloc s_buf].
  destruct (wrn (s_buf s) 0 [0]); cbn [mbind option_bind]; [| done]. intros E. injection E as ->. done.
Qed.

(** The bytes [x] of the contents, moved to the front. *)
Lemma keep_rep s a x k (mv : bool) : sds_rep s (a ++ x ++ k) -> mv = true \/ a = [] \/ x = [] ->
  exists s1 s2, (if mv then b ← memmove (s_buf s) 0 (zlen a) (zlen x);
                            Some (Sds (s_type s) (s_len s) (s_alloc s) b) else Some s) = Some s1 /\
    sds_wr s1 (zlen x) [0] = Some s2 /\ sds_rep (sdssetlen s2 (zlen x)) x.
Proof.
  intros R Hmv. pose proof R as ((sl & Eb) & El & Hal & _).
  pose proof (zlen_nonneg a). pose proof (zlen_nonneg x). pose proof (zlen_nonneg k). pose proof (zlen_nonneg sl).
  assert (room s (zlen x)) as Hr by (apply (rep_room s _ _ R); rewrite !zlen_app in Hal; lia).
  assert (forall s1 r, s_buf s1 = x ++ r -> s_type s1 = s_type s -> s_alloc s1 = s_alloc s ->
    zlen (s_buf s1) = zlen (s_buf s) ->
    exists s2, sds_wr s1 (zlen x) [0] = Some s2 /\ sds_rep (sdssetlen s2 (zlen x)) x) as Hfin.
  { intros s1 r E1 E2 E3 E4. destruct (end_rep s1 x r E1) as (b & Ew & Eh & R').
    { unfold room in *. now rewrite E2, E3, E4. }
    eexists. split; [exact Ew |]. unfold sdssetlen. cbn [s_type s_alloc s_buf]. now rewrite Eh. }
  destruct mv.
  - assert (s_buf s = a ++ x ++ (k ++ 0 :: sl)) as Eb2 by (now rewrite Eb, <- !app_assoc).
    destruct (zlen_split_prefix (s_buf s) (zlen x)) as (y & z & Ey & Hy).
    { split; [lia |]. rewrite Eb2. zlens. }
    assert (memmove (s_buf s) 0 (zlen a) (zlen x) = Some (x ++ z)) as ->.
    { unfold memmove. rewrite Eb2 at 1. rewrite (rdn_app a x) by done. cbn [mbind option_bind]. rewrite Ey.
      exact (wrn_app [] y x z 0 eq_refl Hy). }
    cbn [mbind option_bind].
    destruct (Hfin (Sds (s_type s) (s_len s) (s_alloc s) (x ++ z)) z) as (s2 & E2 & R2); try done.
    { cbn [s_buf]. rewrite Ey, !zlen_app. lia. }
    eauto.
  - assert (exists r, s_buf s = x ++ r) as (r & Er).
    { destruct Hmv as [? | [-> | ->]]; [done | | by exists (s_buf s)]. exists (k ++ 0 :: sl).
      rewrite Eb. cbn [app]. now rewrite <- app_assoc. }
    destruct (Hfin s r Er) as (s2 & E2 & R2); try done. eauto.
Qed.

Definition substr_spec (c : list Z) (start len : Z) : list Z :=
  if zlen c <=? start then [] else take (Z.to_nat len) (drop (Z.to_nat start) c).

Lemma zlen_take_le {A} (l : list A) n : 0 <= n -> zlen (take (Z.to_nat n) l) = Z.min n (zlen l).
Proof. intros. unfold zlen. rewrite length_take. lia. Qed.

Lemma sdssubstr_rep s c start len : sds_rep s c -> 0 <= start -> 0 <= len ->
  exists s', sdssubstr s start len = Some s' /\ sds_rep s' (substr_spec c start len).
Proof.
  intros R Hs Hl. pose proof (zlen_nonneg c). pose proof R as (_ & El & _).
  unfold sdssubstr, sdslen, substr_spec. rewrite El.
  destruct (Z.leb_spec (zlen c) start) as [Hge | Hlt].
  - rewrite Z.sub_0_r. rewrite (proj2 (Z.ltb_ge (zlen c) 0)) by lia. cbn [negb Z.eqb].
    destruct (keep_rep s [] [] c false) as (s1 & s2 & E1 & E2 & R2); [done | auto |].
    injection E1 as <-. change (@zlen Z []) with 0 in *. cbn [mbind option_bind]. rewrite E2. eauto.
  - cbv beta iota zeta. set (n := if zlen c - start <? len then zlen c - start else len).
    set (x := take (Z.to_nat len) (drop (Z.to_nat start) c)).
    assert (zlen x = n) as Hx.
    { subst x n. rewrite zlen_take_le, zlen_drop by lia. case_if; lia. }
    destruct (keep_rep s (take (Z.to_nat start) c) x (drop (Z.to_nat len) (drop (Z.to_nat start) c)) (negb (n =? 0)))
      as (s1 & s2 & E1 & E2 & R2).
    { unfold x. now rewrite !take_drop. }
    { destruct (Z.eqb_spec n 0) as [E |]; [| by left]. right. right. apply zlen_0. now rewrite Hx. }
    rewrite zlen_take, Hx, El in E1 by lia. rewrite E1. cbn [mbind option_bind]. rewrite Hx in *. rewrite E2. eauto.
Qed.

Definition range_spec (c : list Z) (start end_ : Z) : list Z :=
  let start := if start <? 0 then zlen c + start else start in
  let end_ := if end_ <? 0 then zlen c + end_ else end_ in
  if (start <? 0) || (end_ <? start) then [] else substr_spec c start (end_ - start + 1).

Lemma sdsrange_rep s c start end_ : sds_rep s c -> zlen c < 2 ^ 60 -> is_i64 start -> is_i64 end_ ->
  exists s', sdsrange s start end_ = Some s' /\ sds_rep s' (range_spec c start end_).
Proof.
  intros R Hc Hs He. pose proof (zlen_nonneg c). pose proof R as (_ & El & _).
  unfold sdsrange, sdslen, range_spec. rewrite El.
  assert (forall z, is_i64 z ->
    (if z <? 0 then i64 (u64 (zlen c + z)) else z) = if z <? 0 then zlen c + z else z) as Ei.
  { intros z Hz. case_if; [| done]. rewrite i64_u64, i64_id; [done |]. unfold is_i64 in *. lia. }
  rewrite !Ei by done. clear Ei. unfold is_i64 in *.
  destruct (Z.eqb_spec (zlen c) 0) as [E0 |].
  { exists s. split; [done |]. apply zlen_0 in E0 as ->.
    assert (forall a b, substr_spec [] a b = []) as En.
    { intros. unfold substr_spec. case_if; [done |]. now rewrite drop_nil, take_nil. }
    rewrite !En. now destruct (_ || _). }
  set (st := if start <? 0 then zlen c + start else start).
  set (en := if end_ <? 0 then zlen c + end_ else end_).
  assert (- 2 ^ 63 <= st < 2 ^ 63) as Hst by (unfold st; case_if; lia).
  assert (- 2 ^ 63 <= en < 2 ^ 63) as Hen by (unfold en; case_if; lia). clearbody st en.
  destruct (Z.ltb_spec st 0) as [Hneg | Hpos]; cbn [orb].
  - destruct (sdssubstr_rep s c (u64 st) (if en <? st then 0 else u64 (en - st + 1)) R) as (s' & E & R').
    { unfold u64. dm. }
    { case_if; unfold u64; dm. }
    exists s'. split; [done |]. revert R'. unfold substr_spec. rewrite (proj2 (Z.leb_le (zlen c) _)) by (unfold u64; dm).
    done.
  - rewrite (u64_id st) by (unfold is_u64; lia). destruct (Z.ltb_spec en st).
    + destruct (sdssubstr_rep s c st 0 R) as (s' & E & R'); [lia.. |].
      exists s'. split; [done |]. revert R'. unfold substr_spec. now destruct (zlen c <=? st).
    + rewrite u64_id by (unfold is_u64; lia). apply sdssubstr_rep; [done | lia ..].
Qed.

(** ** Trimming *)

Fixpoint drop_while (p : Z -> bool) (l : list Z) : list Z :=
  match l with
  | [] => []
  | c :: l => if p c then drop_while p l else c :: l
  end.

(** Bytes of [cset] (and NUL) are removed at both ends. *)
Definition trim_spec (cset c : list Z) : list Z :=
  reverse (drop_while (in_cset cset) (reverse (drop_while (in_cset cset) c))).

Lemma drop_while_suffix p l : exists a, l = a ++ drop_while p l /\ Forall (fun c => p c = true) a.
Proof.
  induction l as [| c l (a & IH & Ha)]; [by exists [] |]. cbn [drop_while]. destruct (p c) eqn:E; [| by exists []].
  exists (c :: a). split; [cbn [app]; by rewrite <- IH | by constructor].
Qed.

Lemma drop_while_hd p l c k : drop_while p l = c :: k -> p c = false.
Proof.
  induction l as [| x l IH]; [done |]. cbn [drop_while]. destruct (p x) eqn:E; [done |]. congruence.
Qed.

Lemma trim_left_ok p cset c k fuel : (length c <= fuel)%nat ->
  trim_left fuel (p ++ c ++ k) cset (zlen p) (zlen p + zlen c - 1) =
    Some (zlen p + zlen c - zlen (drop_while (in_cset cset) c)).
Proof.
  revert p fuel. induction c as [| x c IH]; intros p fuel Hf; cbn [drop_while].
  - rewrite (@zlen_nil Z). destruct fuel; cbn [trim_left];
      rewrite (proj2 (Z.leb_gt (zlen p) _)) by lia; f_equal; lia.
  - destruct fuel as [| fuel]; [cbn in Hf; lia |]. cbn [trim_left]. pose proof (zlen_nonneg c).
    rewrite (proj2 (Z.leb_le (zlen p) _)) by (rewrite zlen_cons; lia).
    cbn [app]. rewrite (rd_app p x) by done. cbn [mbind option_bind]. destruct (in_cset cset x).
    + specialize (IH (p ++ [x]) fuel ltac:(cbn in Hf; lia)). rewrite <- app_assoc in IH. cbn [app] in IH.
      rewrite zlen_app, (zlen_cons x []), (@zlen_nil Z) in IH. rewrite zlen_cons.
      replace (zlen p + (1 + 0)) with (zlen p + 1) in IH by lia.
      replace (zlen p + 1 + zlen c) with (zlen p + (1 + zlen c)) in IH by lia. exact IH.
    + f_equal. lia.
Qed.

(** The right end stops at [sp], whose byte is not trimmed. *)
Lemma trim_right_ok p x c k cset fuel : in_cset cset x = false -> (length c <= fuel)%nat ->
  trim_right fuel (p ++ (x :: reverse c) ++ k) cset (zlen p) (zlen p + zlen c) =
    Some (zlen p + zlen (drop_while (in_cset cset) c)).
Proof.
  intros Hx. revert k fuel. induction c as [| y c IH]; intros k fuel Hf; cbn [drop_while].
  - rewrite (@zlen_nil Z). destruct fuel; cbn [trim_right];
      rewrite (proj2 (Z.ltb_ge (zlen p) _)) by lia; f_equal; lia.
  - destruct fuel as [| fuel]; [cbn in Hf; lia |]. cbn [trim_right]. pose proof (zlen_nonneg c).
    rewrite (proj2 (Z.ltb_lt (zlen p) _)) by (rewrite zlen_cons; lia).
    assert (p ++ (x :: reverse (y :: c)) ++ k = (p ++ x :: reverse c) ++ y :: k) as E.
    { rewrite reverse_cons, <- !app_assoc. cbn [app]. now rewrite <- app_assoc. }
    rewrite E at 1. rewrite (rd_app _ y) by (rewrite zlen_app, !zlen_cons; unfold zlen; rewrite length_reverse; lia).
    cbn [mbind option_bind]. destruct (in_cset cset y) eqn:Ey; [| done].
    specialize (IH (y :: k) fuel ltac:(cbn in Hf; lia)). rewrite zlen_cons.
    replace (zlen p + (1 + zlen c) - 1) with (zlen p + zlen c) by lia. rewrite <- IH. f_equal.
    rewrite E. by rewrite <- app_assoc.
Qed.

Lemma zlen_reverse (l : list Z) : zlen (reverse l) = zlen l.
Proof. unfold zlen. now rewrite length_reverse. Qed.

Lemma drop_while_snoc p l x : p x = false -> drop_while p (l ++ [x]) = drop_while p l ++ [x].
Proof. intros Hx. induction l as [| y l IH]; cbn [app drop_while]; [by rewrite Hx | by destruct (p y)]. Qed.

Lemma sdstrim_rep s c cset : sds_rep s c ->
  exists s', sdstrim s cset = Some s' /\ sds_rep s' (trim_spec cset c).
Proof.
  intros R. pose proof (zlen_nonneg c). pose proof R as ((sl & Eb) & El & _).
  unfold sdstrim, sdslen, trim_spec. rewrite El, Eb.
  pose proof (trim_left_ok [] cset c (0 :: sl) (Z.to_nat (zlen c)) ltac:(unfold zlen; lia)) as TL.
  change (@zlen Z []) with 0 in TL. cbn [app] in TL. rewrite !Z.add_0_l in TL. rewrite TL. cbn [mbind option_bind].
  destruct (drop_while_suffix (in_cset cset) c) as (a & Ea & _).
  destruct (drop_while (in_cset cset) c) as [| x d] eqn:Ed.
  - rewrite (@zlen_nil Z), Z.sub_0_r.
    assert (trim_right (Z.to_nat (zlen c)) (c ++ 0 :: sl) cset (zlen c) (zlen c - 1) = Some (zlen c - 1)) as ->.
    { destruct (Z.to_nat (zlen c)); cbn [trim_right]; by rewrite (proj2 (Z.ltb_ge (zlen c) _)) by lia. }
    cbn [mbind option_bind]. replace (zlen c - 1 - zlen c + 1) with 0 by lia.
    destruct (keep_rep s c [] [] (negb (zlen c =? 0))) as (s1 & s2 & E1 & E2 & R2);
      [by rewrite app_nil_r | auto |].
    change (@zlen Z []) with 0 in *. rewrite El, Eb in E1. rewrite E1. cbn [mbind option_bind]. rewrite E2.
    eexists. split; [reflexivity |]. exact R2.
  - assert (in_cset cset x = false) as Hx by (eapply drop_while_hd; exact Ed).
    assert (zlen c = zlen a + (1 + zlen d)) as Hlen by (rewrite Ea at 1; zlens).
    pose proof (zlen_nonneg a). pose proof (zlen_nonneg d).
    replace (zlen c - zlen (x :: d)) with (zlen a) by (rewrite zlen_cons; lia).
    pose proof (trim_right_ok a x (reverse d) (0 :: sl) cset (Z.to_nat (zlen c)) Hx
      ltac:(rewrite length_reverse; unfold zlen in *; lia)) as TR.
    rewrite reverse_involutive, zlen_reverse in TR. rewrite app_assoc, <- Ea in TR.
    replace (zlen a + zlen d) with (zlen c - 1) in TR by lia. rewrite TR. cbn [mbind option_bind].
    rewrite reverse_cons. pose proof (drop_while_snoc (in_cset cset) (reverse d) x Hx) as Em.
    rewrite Em, reverse_app. set (m := drop_while (in_cset cset) (reverse d)) in *.
    change (reverse [x]) with [x]. cbn [app].
    replace (zlen a + zlen m - zlen a + 1) with (zlen (x :: reverse m)) by (rewrite zlen_cons, zlen_reverse; lia).
    destruct (drop_while_suffix (in_cset cset) (reverse d ++ [x])) as (q & Eq & _). rewrite Em in Eq.
    assert (x :: d = (x :: reverse m) ++ reverse q) as Ex.
    { rewrite <- (reverse_involutive (x :: d)), reverse_cons, Eq, !reverse_app. done. }
    destruct (keep_rep s a (x :: reverse m) (reverse q) (negb (zlen a =? 0))) as (s1 & s2 & E1 & E2 & R2).
    { by rewrite <- Ex, <- Ea. }
    { destruct (Z.eqb_spec (zlen a) 0) as [E0 |]; [right; left; by apply zlen_0 | by left]. }
    rewrite El, Eb in E1. rewrite E1. cbn [mbind option_bind]. rewrite E2. eexists. split; [reflexivity |]. exact R2.
Qed.

(** ** Bytes, length, capacity *)

Lemma sds_map_rep f s c : sds_rep s c -> exists s', sds_map f s = Some s' /\ sds_rep s' (map f c).
Proof.
  intros R. pose proof (rep_rdn s c R) as Hr. destruct R as ((sl & Eb) & R).
  assert (zlen (map f c) = zlen c) as Hl by (unfold zlen; now rewrite length_map).
  unfold sds_map. rewrite Hr. cbn [mbind option_bind].
  rewrite (sds_wr_eq _ _ _ (map f c ++ 0 :: sl)) by (rewrite Eb; by apply (wrn_app [] c)).
  eexists. split; [reflexivity |]. destruct R as (El & H1 & H2 & H3). rewrite Eb in H2. unfold sds_rep, sds_hold, sdsalloc in *.
  cbn [s_type s_len s_alloc s_buf]. rewrite !zlen_app in *. rewrite Hl.
  split; [by exists sl |]. split; [done |]. split; [done |]. by split.
Qed.

Fixpoint take_while (p : Z -> bool) (l : list Z) : list Z :=
  match l with
  | c :: l => if p c then c :: take_while p l else []
  | [] => []
  end.
Definition nonzero (c : Z) : bool := negb (c =? 0).

Lemma strlen_ok c sl n : strlen_from (c ++ 0 :: sl) n = Some (n + zlen (take_while nonzero c)).
Proof.
  revert n. induction c as [| x c IH]; intros n; cbn [app strlen_from take_while].
  - change (@zlen Z []) with 0. f_equal. lia.
  - unfold nonzero at 1. destruct (Z.eqb_spec x 0); cbn [negb].
    + change (@zlen Z []) with 0. f_equal. lia.
    + rewrite IH, zlen_cons. f_equal. lia.
Qed.

Lemma take_while_prefix c sl : exists k, c ++ 0 :: sl = take_while nonzero c ++ 0 :: k.
Proof.
  induction c as [| x c (k & IH)]; [by exists sl |]. cbn [take_while app].
  unfold nonzero at 1. destruct (Z.eqb_spec x 0) as [-> |]; cbn [negb app]; [by eexists |].
  exists k. by rewrite IH.
Qed.

Lemma take_while_len (p : Z -> bool) c : zlen (take_while p c) <= zlen c.
Proof.
  induction c as [| x c IH]; [done |]. cbn [take_while]. destruct (p x); rewrite ?zlen_cons; [lia |].
  change (@zlen Z []) with 0. pose proof (zlen_nonneg c). lia.
Qed.

Lemma sdsupdatelen_rep s c : sds_rep s c ->
  exists s', sdsupdatelen s = Some s' /\ sds_rep s' (take_while nonzero c).
Proof.
  intros R. pose proof R as ((sl & Eb) & El & Hal & _). destruct (take_while_prefix c sl) as [k Ek].
  pose proof (take_while_len nonzero c) as Htl. pose proof (zlen_nonneg (take_while nonzero c)).
  pose proof (rep_room (z:=0) s c (zlen (take_while nonzero c)) R ltac:(lia)) as Hr.
  unfold sdsupdatelen. rewrite Eb, strlen_ok. cbn [mbind option_bind]. eexists. split; [reflexivity |].
  unfold sdssetlen. rewrite Z.add_0_l, hdr_store_id by (destruct Hr as (_ & ? & _); lia).
  rewrite Eb, Ek. apply rep_of_room; [done |]. unfold room in *. cbn [s_type s_len s_alloc s_buf] in *.
  by rewrite <- Ek, <- Eb.
Qed.

Section capacity.
Context (usable : Z -> Z) (junk : nat -> Z) (use_jemalloc : bool).
Context (Hus : forall n, 0 <= n < 2 ^ 62 -> n <= usable n < 2 ^ 63).

Lemma ty_num_max t t' : ty_num t < ty_num t' -> sdsTypeMaxSize t < sdsTypeMaxSize t'.
Proof. destruct t, t'; cbn [ty_num]; try lia; intros _; reflexivity. Qed.

(** The last steps of a resize, on a buffer that starts with [x]. *)
Lemma resize_fin ty l a b x r len size : zlen x = len -> len <= size ->
  b = x ++ r -> size + 1 <= zlen b -> size <= sdsTypeMaxSize ty ->
  exists s', (s2 ← sds_wr (Sds ty l a b) len [0]; Some (sdssetalloc (sdssetlen s2 len) size)) = Some s' /\ sds_rep s' x.
Proof.
  intros Hx Hlen Eb Hb Hty. pose proof (zlen_nonneg x).
  destruct (end_rep (Sds ty l size b) x r Eb) as (b' & Ew & Eh & R').
  { unfold room. cbn [s_buf s_type s_alloc]. split; [lia |]. split; [lia |]. right. lia. }
  cbn [s_type s_len s_alloc s_buf] in *. revert Ew. unfold sds_wr. cbn [s_type s_len s_alloc s_buf].
  rewrite Hx in *. destruct (wrn b len [0]) as [b2 |]; cbn [mbind option_bind]; [| done].
  intros E. injection E as ->. eexists. split; [reflexivity |]. unfold sdssetlen. cbn [s_type s_len s_alloc s_buf].
  rewrite Eh. destruct (decide (ty = SDS_TYPE_5)) as [-> | Hn5]; [exact R' |].
  rewrite setalloc_eq by (done || lia). exact R'.
Qed.

Lemma sdsResize_rep s c size regrow : sds_rep s c -> 0 <= size < 2 ^ 61 ->
  exists s', sdsResize usable junk use_jemalloc s size regrow = Some s' /\
    sds_rep s' (take (Z.to_nat (if sdsalloc s =? size then zlen c else size)) c).
Proof.
  intros R Hsz. pose proof (rep_len_bound s c R) as [Hc Hbuf].
  pose proof R as ((sl & Ebuf) & El & Hal & Hab & Hamax).
  unfold sdsResize, sdslen. rewrite El. destruct (Z.eqb_spec (sdsalloc s) size) as [Esz | Esz].
  { exists s. split; [done |]. rewrite take_ge; [done | unfold zlen; lia]. }
  set (len := if size <? zlen c then size else zlen c).
  assert (0 <= len <= size /\ len <= zlen c) as Hlen by (subst len; case_if; lia).
  assert (exists k, c ++ 0 :: sl = take (Z.to_nat size) c ++ k /\ zlen (take (Z.to_nat size) c) = len) as (k & Ek & Hx).
  { exists (drop (Z.to_nat size) c ++ 0 :: sl). rewrite app_assoc, take_drop. split; [done |].
    rewrite zlen_take_le by lia. subst len. case_if; lia. }
  set (x := take _ c) in *. clearbody len x.
  set (t := if regrow then _ else _).
  assert (size <= sdsTypeMaxSize t) as Ht.
  { subst t. pose proof (req_type_max size ltac:(unfold ULLONG_MAX; lia)). destruct regrow; [by apply not5_max | done]. }
  clearbody t. pose proof (hdr_size_bounds t). pose proof (hdr_size_bounds (s_type s)).
  pose proof (type_max_bounds t). pose proof (type_max_bounds (s_type s)).
  pose proof (fun ty l a b r => resize_fin ty l a b x r len size Hx ltac:(lia)) as Hfin.
  destruct (bool_decide (s_type s = t) || _) eqn:Ereal.
  - assert (size <= sdsTypeMaxSize (s_type s)) as Hmax.
    { apply orb_true_iff in Ereal as [E | E]; [apply bool_decide_eq_true in E; by rewrite E |].
      apply andb_true_iff in E as [E _]. apply Z.ltb_lt, ty_num_max in E. lia. }
    pose proof (Hus (sdsHdrSize (s_type s) + size + 1) ltac:(lia)) as Hu. set (u := usable _) in *.
    destruct (use_jemalloc && _) eqn:Ej; cbn [mbind option_bind].
    + apply andb_true_iff in Ej as [_ Ej]. apply Z.eqb_eq in Ej.
      destruct s as [ty l a b]. cbn [s_type s_len s_alloc s_buf] in *. apply (Hfin _ _ _ _ k); [by rewrite Ebuf | lia | done].
    + set (n := u - sdsHdrSize (s_type s)).
      assert (zrealloc junk (s_buf s) n = x ++ (take (Z.to_nat n - length x) k ++ fresh_bytes junk (n - zlen (s_buf s)))) as E.
      { unfold zrealloc. rewrite Ebuf, Ek, take_app, take_ge, <- app_assoc by (unfold zlen in *; lia). done. }
      apply (Hfin _ _ _ _ _ E); [| done]. rewrite zlen_zrealloc by lia. lia.
  - pose proof (Hus (sdsHdrSize t + size + 1) ltac:(lia)) as Hu. set (u := usable _) in *.
    rewrite Ebuf, Ek. assert (rdn (x ++ k) 0 len = Some x) as -> by exact (rdn_app [] x k 0 len eq_refl Hx). cbn [mbind option_bind].
    destruct (zlen_split_prefix (fresh_bytes junk (u - sdsHdrSize t)) len) as (y & z & Ey & Hy).
    { rewrite zlen_fresh_bytes. lia. }
    assert (zlen (fresh_bytes junk (u - sdsHdrSize t)) = u - sdsHdrSize t) as El2 by (rewrite zlen_fresh_bytes; lia).
    rewrite Ey in El2 |- *.
    assert (wrn (y ++ z) 0 x = Some (x ++ z)) as -> by (apply (wrn_app [] y x z 0 eq_refl); lia). cbn [mbind option_bind].
    apply (Hfin _ _ _ _ z eq_refl); [| done]. rewrite zlen_app in El2 |- *. lia.
Qed.
End capacity.

Lemma incrlen_ok s c x k : s_buf s = c ++ x ++ k -> s_len s = zlen c -> s_type s <> SDS_TYPE_5 ->
  room s (zlen c + zlen x) ->
  exists s', sdsIncrLen s (zlen x) = Some s' /\ sds_rep s' (c ++ x).
Proof.
  intros Eb El Ht Hr. pose proof (zlen_nonneg x). pose proof (zlen_nonneg c).
  pose proof (type_max_bounds (s_type s)). rewrite app_assoc in Eb.
  destruct (end_rep s (c ++ x) k Eb) as (b & Ew & Eh & R'); [by rewrite zlen_app |].
  destruct Hr as (Hr1 & Hr2 & [? | Hr3]); [done |].
  unfold sdsIncrLen. rewrite El.
  assert (match s_type s with
      | SDS_TYPE_5 => ((0 <? zlen x) && (zlen c + zlen x <? 32)) || ((zlen x <? 0) && (u32 (- zlen x) <=? zlen c))
      | SDS_TYPE_8 | SDS_TYPE_16 => ((0 <=? zlen x) && (zlen x <=? s_alloc s - zlen c)) || ((zlen x <? 0) && (u32 (- zlen x) <=? zlen c))
      | SDS_TYPE_32 => ((0 <=? zlen x) && (u32 (zlen x) <=? u32 (s_alloc s - zlen c))) || ((zlen x <? 0) && (u32 (- zlen x) <=? zlen c))
      | SDS_TYPE_64 => ((0 <=? zlen x) && (zlen x <=? u64 (s_alloc s - zlen c))) || ((zlen x <? 0) && (u64 (- zlen x) <=? zlen c))
      end = true) as ->.
  { destruct (s_type s); [done |..]; unfold sdsTypeMaxSize in *;
      try rewrite !u32_id by (change (Z.shiftl 1 32) with 4294967296 in *; lia);
      try rewrite (u64_id (s_alloc s - zlen c)) by (unfold is_u64, ULLONG_MAX in *; lia);
      apply orb_true_iff; left; apply andb_true_iff; split; apply Z.leb_le; lia. }
  cbn [assert_ mbind option_bind]. unfold sdssetlen. cbn [s_len]. rewrite zlen_app in *. rewrite Eh.
  revert Ew. unfold sds_wr. cbn [s_type s_len s_alloc s_buf].
  destruct (wrn (s_buf s) _ [0]); cbn [mbind option_bind]; [| done]. intros E. injection E as ->. eauto.
Qed.

Lemma incrlen_neg s c x : sds_rep s (c ++ x) -> x <> [] ->
  exists s', sdsIncrLen s (- zlen x) = Some s' /\ sds_rep s' c.
Proof.
  intros R Hx. pose proof (zlen_nonneg x). pose proof (zlen_nonneg c).
  assert (zlen x <> 0) by (intros E; apply Hx; by apply zlen_0).
  pose proof R as ((sl & Eb) & El & Hal & _ & Hmax). pose proof (type_max_bounds (s_type s)).
  rewrite <- app_assoc in Eb. rewrite zlen_app in *.
  destruct (end_rep s c (x ++ 0 :: sl) Eb) as (b & Ew & Eh & R').
  { eapply (rep_room (z:=0) s _ _ R). lia. }
  unfold sdsIncrLen. rewrite El, Z.opp_involutive.
  rewrite (proj2 (Z.ltb_lt (- zlen x) 0)) by lia. rewrite (proj2 (Z.leb_gt 0 (- zlen x))) by lia.
  rewrite (proj2 (Z.ltb_ge 0 (- zlen x))) by lia. cbn [andb orb].
  assert ((match s_type s with SDS_TYPE_64 => u64 (zlen x) <=? zlen c + zlen x | _ => u32 (zlen x) <=? zlen c + zlen x end) = true) as Ea.
  { destruct (s_type s); apply Z.leb_le;
      first [rewrite u64_id by (unfold is_u64, ULLONG_MAX in *; lia); lia | unfold u32; dm]. }
  assert ((match s_type s with
      | SDS_TYPE_5 | SDS_TYPE_8 | SDS_TYPE_16 | SDS_TYPE_32 => u32 (zlen x) <=? zlen c + zlen x
      | SDS_TYPE_64 => u64 (zlen x) <=? zlen c + zlen x end) = true) as -> by (by destruct (s_type s)).
  cbn [assert_ mbind option_bind]. unfold sdssetlen. cbn [s_len].
  replace (zlen c + zlen x + - zlen x) with (zlen c) by lia. rewrite Eh.
  revert Ew. unfold sds_wr. cbn [s_type s_len s_alloc s_buf].
  destruct (wrn (s_buf s) _ [0]); cbn [mbind option_bind]; [| done]. intros E. injection E as ->. eauto.
Qed.

(** ** Comparison *)

(** The lexicographic order of byte strings. *)
Definition lex_lt (a b : list Z) : Prop :=
  exists p, (exists y k, a = p /\ b = p ++ y :: k) \/
            (exists x y k l, a = p ++ x :: k /\ b = p ++ y :: l /\ x < y).

Lemma memcmp_split a b : length a = length b ->
  (memcmp a b = 0 /\ a = b) \/
  (exists p x y k l, a = p ++ x :: k /\ b = p ++ y :: l /\
     ((memcmp a b = -1 /\ x < y) \/ (memcmp a b = 1 /\ y < x))).
Proof.
  revert b. induction a as [| x a IH]; intros [| y b] Hl; [by left | done..|]. cbn [memcmp].
  destruct (Z.ltb_spec x y); [right; exists [], x, y, a, b; auto |].
  destruct (Z.ltb_spec y x); [right; exists [], x, y, a, b; auto |].
  assert (x = y) as -> by lia. injection Hl as Hl.
  destruct (IH b Hl) as [[E ->] | (p & x' & y' & k & l & -> & -> & Hc)]; [by left |].
  right. exists (y :: p), x', y', k, l. auto.
Qed.

Definition sdscmp_spec (c1 c2 : list Z) (r : Z) : Prop :=
  (r = 0 /\ c1 = c2) \/ (r < 0 /\ lex_lt c1 c2) \/ (0 < r /\ lex_lt c2 c1).

Lemma sdscmp_rep s1 s2 c1 c2 : sds_rep s1 c1 -> sds_rep s2 c2 ->
  exists r, sdscmp s1 s2 = Some r /\ sdscmp_spec c1 c2 r.
Proof.
  intros ((sl1 & E1) & L1 & _) ((sl2 & E2) & L2 & _). unfold sdscmp, sdslen. rewrite L1, L2.
  set (n := if zlen c1 <? zlen c2 then zlen c1 else zlen c2).
  pose proof (zlen_nonneg c1). pose proof (zlen_nonneg c2).
  assert (0 <= n <= zlen c1 /\ n <= zlen c2 /\ (n = zlen c1 \/ n = zlen c2)) as Hn by (subst n; case_if; lia).
  destruct (zlen_split_prefix c1 n) as (a & a' & -> & Ha); [lia |].
  destruct (zlen_split_prefix c2 n) as (b & b' & -> & Hb); [lia |].
  rewrite E1, E2, <- !app_assoc.
  assert (rdn (a ++ a' ++ 0 :: sl1) 0 n = Some a) as -> by exact (rdn_app [] a _ 0 n eq_refl Ha).
  assert (rdn (b ++ b' ++ 0 :: sl2) 0 n = Some b) as -> by exact (rdn_app [] b _ 0 n eq_refl Hb).
  cbn [mbind option_bind]. rewrite !zlen_app in *. unfold sdscmp_spec.
  destruct (memcmp_split a b) as [[-> ->] | (p & x & y & k & l & -> & -> & [[-> ?] | [-> ?]])]; [unfold zlen in *; lia |..].
  - cbn [Z.eqb]. pose proof (zlen_nonneg a'). pose proof (zlen_nonneg b').
    eexists. split; [reflexivity |].
    repeat case_if.
    + right. right. split; [lia |]. assert (b' = []) as -> by (apply zlen_0; lia).
      destruct a' as [| z a']; [rewrite (@zlen_nil Z) in *; lia |].
      exists b. left. exists z, a'. by rewrite app_nil_r.
    + right. left. split; [lia |]. assert (a' = []) as -> by (apply zlen_0; lia).
      destruct b' as [| z b']; [rewrite (@zlen_nil Z) in *; lia |].
      exists b. left. exists z, b'. by rewrite app_nil_r.
    + left. split; [done |]. rewrite (zlen_0 a'), (zlen_0 b') by lia. done.
  - eexists. split; [reflexivity |]. right. left. split; [done |].
    exists p. right. exists x, y, (k ++ a'), (l ++ b'). rewrite <- !app_assoc. auto.
  - eexists. split; [reflexivity |]. right. right. split; [done |].
    exists p. right. exists y, x, (l ++ b'), (k ++ a'). rewrite <- !app_assoc. auto.
Qed.

Lemma lex_lt_asym a b : lex_lt a b -> lex_lt b a -> False.
Proof.
  assert (forall p x k y l, lex_lt (p ++ x :: k) (p ++ y :: l) -> x <= y) as Hcmp.
  { intros p x k y l (q & [(z & m & E1 & E2) | (x' & y' & k' & l' & E1 & E2 & Hlt)]).
    - subst q. rewrite <- app_assoc in E2. apply app_inv_head in E2. cbn in E2. injection E2 as ? ?. lia.
    - revert q E1 E2. induction p as [| z p IH]; intros [| w q] E1 E2; cbn [app] in E1, E2.
      + injection E1 as ? ?. injection E2 as ? ?. lia.
      + injection E1 as ? ?. injection E2 as ? ?. lia.
      + injection E1 as ? ?. injection E2 as ? ?. lia.
      + injection E1 as ? ?. injection E2 as ? ?. by apply (IH q). }
  intros (p & [(y & k & -> & ->) | (x & y & k & l & -> & -> & Hlt)]) H2.
  - destruct H2 as (q & [(z & m & E1 & E2) | (x' & y' & k' & l' & E1 & E2 & Hlt)]).
    + subst q. apply (f_equal length) in E2. rewrite !length_app in E2. cbn in E2. lia.
    + subst p. rewrite <- app_assoc in E1. apply app_inv_head in E1. cbn in E1. injection E1 as ? ?. lia.
  - apply Hcmp in H2. lia.
Qed.

Lemma lex_lt_irrefl a : ~ lex_lt a a.
Proof. intros H. by apply (lex_lt_asym a a). Qed.
