(* ===== verification/SdsThms.v ===== *)
(** What the operations of sds.c promise: each one keeps the string well
    formed ([Sds.sds_rep]) and acts on its bytes as a function on byte lists. *)
From S2P Require Import Prelude Strnum Sds.

(** The operations on one string; [OpFill n bs] is the documented use of
    [sdsIncrLen]: make room for [n] bytes, write some into the free space,
    account for them. *)
Inductive sds_op :=
| OpCat (t : list Z) | OpCpy (t : list Z) | OpGrowZero (n : Z) | OpMakeRoom (n : Z) (greedy : bool)
| OpFill (n : Z) (bs : list Z) | OpCut (n : Z) | OpResize (size : Z) (would_regrow : bool)
| OpRemoveFree (would_regrow : bool) | OpTrim (cset : list Z) | OpSubstr (start len : Z) | OpRange (start end_ : Z)
| OpClear | OpUpdateLen | OpLower | OpUpper | OpMapChars (from to : list Z).

Section ops.
Context (usable : Z -> Z) (junk : nat -> Z) (use_jemalloc : bool).

Definition run_op (s : sds) (op : sds_op) : option sds :=
  match op with
  | OpCat t => sdscat usable junk s t
  | OpCpy t => sdscpylen usable junk s t (zlen t)
  | OpGrowZero n => sdsgrowzero usable junk s n
  | OpMakeRoom n greedy => sdsMakeRoomFor_ usable junk s n greedy
  | OpFill n bs =>
      let oldlen := sdslen s in
      s ← sdsMakeRoomFor usable junk s n;
      s ← sds_wr s oldlen bs;
      sdsIncrLen s (zlen bs)
  | OpCut n => sdsIncrLen s (- n)
  | OpResize size regrow => sdsResize usable junk use_jemalloc s size regrow
  | OpRemoveFree regrow => sdsRemoveFreeSpace usable junk use_jemalloc s regrow
  | OpTrim cset => sdstrim s cset
  | OpSubstr start len => sdssubstr s start len
  | OpRange start end_ => sdsrange s start end_
  | OpClear => sdsclear s
  | OpUpdateLen => sdsupdatelen s
  | OpLower => sdstolower s
  | OpUpper => sdstoupper s
  | OpMapChars from to => sdsmapchars s from to
  end.

Definition run_ops (s : sds) (ops : list sds_op) : option sds :=
  fold_left (fun s op => s ← s; run_op s op) ops (Some s).
End ops.

(** The same operations on byte lists. *)
Definition op_spec (c : list Z) (op : sds_op) : list Z :=
  match op with
  | OpCat t => c ++ t
  | OpCpy t => t
  | OpGrowZero n => c ++ repeat 0 (Z.to_nat (n - zlen c))
  | OpMakeRoom _ _ => c
  | OpFill _ bs => c ++ bs
  | OpCut n => take (Z.to_nat (zlen c - n)) c
  | OpResize size _ => take (Z.to_nat size) c
  | OpRemoveFree _ => c
  | OpTrim cset => trim_spec cset c
  | OpSubstr start len => substr_spec c start len
  | OpRange start end_ => range_spec c start end_
  | OpClear => []
  | OpUpdateLen => take_while nonzero c
  | OpLower => map tolower c
  | OpUpper => map toupper c
  | OpMapChars from to => map (fun b => mapchar b from to) c
  end.

(** The caller's side: sizes below 2^60, and the bounds each operation asks for. *)
Definition op_ok (c : list Z) (op : sds_op) : Prop :=
  zlen c < 2 ^ 60 /\
  match op with
  | OpCat t | OpCpy t => zlen c + zlen t < 2 ^ 60
  | OpGrowZero n => 0 <= n < 2 ^ 60
  | OpMakeRoom n _ => 0 <= n /\ zlen c + n < 2 ^ 60
  | OpFill n bs => 0 < n /\ zlen bs <= n /\ zlen c + n < 2 ^ 60
  | OpCut n => 0 < n <= zlen c
  | OpResize size _ => 0 <= size < 2 ^ 60
  | OpSubstr start len => 0 <= start /\ 0 <= len
  | OpRange start end_ => is_i64 start /\ is_i64 end_
  | _ => True
  end.

Fixpoint ops_ok (c : list Z) (ops : list sds_op) : Prop :=
  match ops with
  | [] => True
  | op :: ops => op_ok c op /\ ops_ok (op_spec c op) ops
  end.

(** What is assumed of the allocator: it gives at least what is asked for. *)
Definition alloc_ok (usable : Z -> Z) : Prop := forall n, 0 <= n < 2 ^ 62 -> n <= usable n < 2 ^ 63.

(** An allocator that rounds sizes up to multiples of 16. *)
Definition round16 (n : Z) : Z := (n + 15) / 16 * 16.
Lemma round16_ok : alloc_ok round16.
Proof. intros n Hn. unfold round16. dm. Qed.

Section proofs.
Context (usable : Z -> Z) (junk : nat -> Z) (use_jemalloc : bool) (Hus : alloc_ok usable).

Lemma fill_rep s c n bs : sds_rep s c -> 0 < n -> zlen bs <= n -> zlen c + n < 2 ^ 60 ->
  exists s', run_op usable junk use_jemalloc s (OpFill n bs) = Some s' /\ sds_rep s' (c ++ bs).
Proof.
  intros R Hn Hb Hlt. pose proof (zlen_nonneg c). pose proof (zlen_nonneg bs). pose proof R as (_ & El & _).
  cbn [run_op]. unfold sdsMakeRoomFor, sdslen. rewrite El.
  destruct (makeroom_rep usable junk Hus s c n true R) as (s1 & E1 & R1 & Hr & [? | Ht] & _); [lia.. |].
  rewrite E1. cbn [mbind option_bind]. pose proof R1 as ((sl & Eb1) & El1 & _).
  pose proof (room_le _ _ (zlen c + zlen bs) Hr ltac:(lia)) as Hr2. destruct Hr as (Hr & _).
  rewrite Eb1, zlen_app in Hr.
  destruct (zlen_split_prefix (0 :: sl) (zlen bs)) as (y & z & Ey & Hy); [lia |]. rewrite Ey in Eb1.
  rewrite (sds_wr_eq s1 (zlen c) bs (c ++ bs ++ z)) by (rewrite Eb1; by apply wrn_app).
  cbn [mbind option_bind]. apply (incrlen_ok _ c bs z); cbn [s_buf s_len s_type]; try done.
  unfold room in *. cbn [s_buf s_type s_alloc]. assert (zlen (c ++ bs ++ z) = zlen (s_buf s1)) as -> by (rewrite Eb1; zlens).
  done.
Qed.

Lemma take_len {A} (c : list A) n : zlen c <= n -> take (Z.to_nat n) c = c.
Proof. intros. apply take_ge. unfold zlen in *. lia. Qed.

Lemma run_op_rep s c op : sds_rep s c -> op_ok c op ->
  exists s', run_op usable junk use_jemalloc s op = Some s' /\ sds_rep s' (op_spec c op).
Proof.
  intros R [Hc Hop]. pose proof (zlen_nonneg c).
  pose proof R as (_ & El & Hal & _). destruct op; cbn [run_op op_spec].
  - apply (catlen_rep usable junk Hus s c t t); [done | | done].
    apply rdn_Some. exists [], []. by rewrite app_nil_r.
  - by apply (cpylen_rep usable junk Hus s c).
  - by apply growzero_rep.
  - destruct Hop. destruct (makeroom_rep usable junk Hus s c n greedy R) as (s1 & E1 & R1 & _); [done.. |]. eauto.
  - destruct Hop as (? & ? & ?). by apply fill_rep.
  - destruct (zlen_split_prefix c (zlen c - n)) as (a & x & -> & Ha); [lia |].
    rewrite zlen_app in *. replace n with (zlen x) by lia.
    replace (zlen a + zlen x - zlen x) with (zlen a) by lia.
    unfold zlen at 2. rewrite Nat2Z.id, take_app_length. apply (incrlen_neg _ a x); [done |].
    intros ->. rewrite (@zlen_nil Z) in *. lia.
  - destruct (sdsResize_rep usable junk use_jemalloc Hus s c size would_regrow R) as (s' & E' & R'); [lia |].
    exists s'. split; [done |]. destruct (Z.eqb_spec (sdsalloc s) size) as [E |]; [| done].
    rewrite take_len in R' |- * by lia. done.
  - unfold sdsRemoveFreeSpace, sdslen. rewrite El.
    destruct (sdsResize_rep usable junk use_jemalloc Hus s c (zlen c) would_regrow R) as (s' & E' & R'); [lia |].
    exists s'. split; [done |]. rewrite take_len in R' by (case_if; lia). done.
  - by apply sdstrim_rep.
  - destruct Hop. by apply sdssubstr_rep.
  - destruct Hop. by apply sdsrange_rep.
  - by apply (sdsclear_rep s c).
  - by apply sdsupdatelen_rep.
  - by apply sds_map_rep.
  - by apply sds_map_rep.
  - by apply (sds_map_rep (fun b => mapchar b from to)).
Qed.

(** C37: any sequence of string operations, from any well formed string, succeeds
    (no assertion fails and no access leaves the allocation), keeps the string
    well formed (length field, capacity field, terminator, header type) and
    acts on its bytes as the same operations on byte lists; whatever the
    allocator's rounding and the contents of fresh memory are. *)
Theorem sds_refines_bytes s c ops : sds_rep s c -> ops_ok c ops ->
  exists s', run_ops usable junk use_jemalloc s ops = Some s' /\ sds_rep s' (fold_left op_spec ops c).
Proof.
  intros R. revert s c R. induction ops as [| op ops IH]; intros s c R Hok; [by exists s |].
  destruct Hok as [Hop Hops]. destruct (run_op_rep s c op R Hop) as (s1 & E1 & R1).
  destruct (IH s1 _ R1 Hops) as (s2 & E2 & R2). exists s2. split; [| done].
  unfold run_ops in *. cbn [fold_left mbind option_bind]. by rewrite E1.
Qed.
End proofs.

(** * Creation, growth, comparison *)

Section create.
Context (usable : Z -> Z) (junk : nat -> Z) (Hus : alloc_ok usable).

(** A new string holds the bytes it was made from (from a buffer, zeroed,
    empty, as a copy, from an integer, by appending another string); the
    decimal form of an integer is the canonical one. *)
Theorem sds_create_correct :
  (forall l, zlen l < 2 ^ 60 -> exists s, sdsnewlen usable junk (InitFrom l) (zlen l) = Some s /\ sds_rep s l) /\
  (forall n, 0 <= n < 2 ^ 60 ->
     exists s, sdsnewlen usable junk InitNull n = Some s /\ sds_rep s (repeat 0 (Z.to_nat n))) /\
  (exists s, sdsempty usable junk = Some s /\ sds_rep s []) /\
  (forall v, is_i64 v -> exists s, sdsfromlonglong usable junk v = Some s /\ sds_rep s (sdec v)) /\
  (forall s c, sds_rep s c -> zlen c < 2 ^ 60 -> exists s', sdsdup usable junk s = Some s' /\ sds_rep s' c) /\
  (forall s c t d, sds_rep s c -> sds_rep t d -> zlen c + zlen d < 2 ^ 60 ->
     exists s', sdscatsds usable junk s t = Some s' /\ sds_rep s' (c ++ d)).
Proof.
  split; [intros l Hl; apply (newlen_all usable junk Hus); lia |].
  split; [intros n Hn; apply (newlen_zero usable junk Hus); lia |].
  split; [apply (newlen_all usable junk Hus []); done |].
  split; [| split].
  - intros v Hv. pose proof (ll2string_spec (repeat 0 (Z.to_nat LONG_STR_SIZE)) LONG_STR_SIZE v Hv ltac:(done)) as Hll.
    assert (zlen (sdec v) <= 20) as Hd.
    { unfold sdec, is_i64 in *. case_if; rewrite ?zlen_cons.
      - pose proof (udec_length_le (- v) 19). lia.
      - pose proof (udec_length_le v 19). lia. }
    rewrite sdigits10_spec in Hll by done.
    rewrite (proj2 (Z.ltb_lt (zlen (sdec v)) LONG_STR_SIZE)) in Hll by (unfold LONG_STR_SIZE; lia).
    destruct Hll as (r & E & Er). unfold sdsfromlonglong. rewrite E. cbn [mbind option_bind].
    apply (newlen_rep usable junk Hus); [| lia]. by apply (rdn_app [] (sdec v)).
  - intros s c R Hc. unfold sdsdup. pose proof (rep_rdn s c R). destruct R as (_ & El & _).
    apply (newlen_rep usable junk Hus); [done |]. unfold sdslen. lia.
  - intros s c t d R Rt Hl. unfold sdscatsds.
    apply (catlen_rep usable junk Hus s c); [done | by apply rep_rdn | unfold sdslen; by rewrite (proj1 (proj2 Rt))].
Qed.

(** After [sdsMakeRoomFor(s, n)] there are [n] free bytes, the contents
    are the same, a string that had the room is returned as it is, and one
    that is reallocated gets room for twice the new length (up to 1 MB more
    beyond that), so that a run of appends reallocates rarely. *)
Theorem sdsMakeRoomFor_capacity s c n : sds_rep s c -> 0 <= n -> zlen c + n < 2 ^ 60 ->
  exists s', sdsMakeRoomFor usable junk s n = Some s' /\ sds_rep s' c /\ n <= sdsavail s' /\
    (n <= sdsavail s -> s' = s) /\
    (sdsavail s < n -> Z.min (2 * (zlen c + n)) (zlen c + n + SDS_MAX_PREALLOC) <= sdsalloc s').
Proof.
  intros R Hn Hlt. pose proof (zlen_nonneg c).
  destruct (makeroom_rep usable junk Hus s c n true R) as (s1 & E1 & R1 & Hr & Ht & Hcap); [lia.. |].
  exists s1. unfold sdsMakeRoomFor. split; [done |]. split; [done |]. split.
  { destruct Hr as (_ & _ & Hr). pose proof R1 as (_ & El1 & Hal1 & _). pose proof (rep_len_bound s1 c R1) as [Hc1 _].
    unfold sdsavail. destruct Ht as [-> | Ht].
    - destruct (s_type s1); unfold u64; dm.
    - destruct Hr as [? | (Hr1 & Hr2 & Hr3)]; [done |].
      pose proof (type_max_bounds (s_type s1)).
      destruct (s_type s1); [done |..]; rewrite u64_id by (unfold is_u64, ULLONG_MAX in *; lia); lia. }
  split.
  - intros Hav. unfold sdsMakeRoomFor_ in E1. rewrite (proj2 (Z.leb_le n _)) in E1 by done. by injection E1.
  - intros Hav. by apply Hcap.
Qed.
End create.

(** [sdscmp] returns 0 exactly for equal contents and otherwise the sign of
    their lexicographic comparison, a prefix being smaller; the contents
    decide, not capacity or header type. *)
Theorem sdscmp_correct s1 s2 c1 c2 : sds_rep s1 c1 -> sds_rep s2 c2 ->
  exists r, sdscmp s1 s2 = Some r /\ (r = 0 <-> c1 = c2) /\ (r < 0 <-> lex_lt c1 c2) /\ (0 < r <-> lex_lt c2 c1).
Proof.
  intros R1 R2. destruct (sdscmp_rep s1 s2 c1 c2 R1 R2) as (r & E & H). exists r. split; [done |].
  pose proof (lex_lt_irrefl c1) as I1. pose proof (lex_lt_asym c1 c2) as As.
  pose proof (lex_lt_asym c2 c1) as As2.
  destruct H as [[-> ->] | [[Hr Hlt] | [Hr Hlt]]].
  - split; [done |]. split; (split; [lia | done]).
  - split; [split; [lia | intros ->; done] |]. split; (split; [tauto || lia | tauto || lia]).
  - split; [split; [lia | intros ->; done] |]. split; (split; [tauto || lia | tauto || lia]).
Qed.

(** * At concrete inputs *)

Definition ex_junk (i : nat) : Z := 170.
Definition ex_sds : sds := Sds SDS_TYPE_8 3 5 [32; 72; 105; 0; 7; 7; 7].

Lemma ex_sds_rep : sds_rep ex_sds [32; 72; 105].
Proof.
  split; [by exists [7; 7; 7] |]. split; [done |]. split; [vm_compute; discriminate |].
  split; vm_compute; discriminate.
Qed.

Definition ex_ops : list sds_op :=
  [OpCat (chars " there"); OpUpper; OpTrim (chars " "); OpRange (-5) (-2); OpFill 40 (chars "abc"); OpCut 1;
   OpResize 300 true; OpGrowZero 8; OpUpdateLen].

Example ex_ops_run : (s ← run_ops round16 ex_junk true ex_sds ex_ops; Some (s_type s, sdslen s, sdsalloc s, take 7 (s_buf s))) =
  Some (SDS_TYPE_16, 6, 300, chars "THERab" ++ [0]).
Proof. vm_compute. reflexivity. Qed.

Lemma sds_refines_bytes_witness :
  exists s', run_ops round16 ex_junk true ex_sds ex_ops = Some s' /\ sds_rep s' (chars "THERab").
Proof.
  refine (sds_refines_bytes round16 ex_junk true round16_ok ex_sds [32; 72; 105] ex_ops ex_sds_rep _).
  cbn [ops_ok ex_ops]. vm_compute. repeat split; try discriminate.
Defined.

Lemma sds_create_correct_witness : exists s, sdsfromlonglong round16 ex_junk (-42) = Some s /\ sds_rep s (chars "-42").
Proof.
  destruct (sds_create_correct round16 ex_junk round16_ok) as (_ & _ & _ & H & _).
  apply (H (-42)). unfold is_i64. lia.
Defined.

Lemma sdsMakeRoomFor_capacity_witness :
  exists s', sdsMakeRoomFor round16 ex_junk ex_sds 10 = Some s' /\ 26 <= sdsalloc s'.
Proof.
  destruct (sdsMakeRoomFor_capacity round16 ex_junk round16_ok ex_sds [32; 72; 105] 10 ex_sds_rep) as (s' & E & _ & _ & _ & H);
    [lia | vm_compute; reflexivity |].
  exists s'. split; [exact E |]. apply H. vm_compute. reflexivity.
Defined.

Lemma sdscmp_correct_witness : exists r, sdscmp ex_sds (Sds SDS_TYPE_5 1 0 [32; 0]) = Some r /\ 0 < r.
Proof.
  destruct (sdscmp_correct ex_sds (Sds SDS_TYPE_5 1 0 [32; 0]) [32; 72; 105] [32] ex_sds_rep) as (r & E & _ & _ & H).
  - split; [by exists [] |]. split; [done |]. split; [vm_compute; discriminate |]. split; vm_compute; discriminate.
  - exists r. split; [exact E |]. apply H. exists [32]. left. exists 72, [105]. split; reflexivity.
Defined.
