(* ===== verification/SdsText.v ===== *)
(** The text routines of sds.c: splitting and joining, quoting and unquoting
    ([sdscatrepr], [sdssplitargs]), templates, and [sdscatfmt].

    A C string is a block of memory that must contain its terminator: every
    character is read with [rd], so a read past the block is [None].  Results
    are values of [option]; where the C function returns NULL to report an
    error, the value is itself an option ([Some None]). *)
From S2P Require Import Prelude Strnum Sds.

(** ctype.h in the C locale (Redis only sets LC_COLLATE). *)
Definition isprint (c : Z) : bool := (32 <=? c) && (c <=? 126).
Definition isspace (c : Z) : bool := (c =? 32) || ((9 <=? c) && (c <=? 13)).

Section text.
Context (usable : Z -> Z) (junk : nat -> Z).

(** * Splitting and joining *)

(** The token array: its slots, an [int], and the tokens stored so far, whose
    number is the [int elements].  The slots are doubled with the wrap-around of
    32 bits; a token that does not fit in them, as none does when they are
    negative, is a write out of bounds. *)
Record tokens := Tokens { tk_slots : Z; tk_elems : list sds }.

Definition tk_store (t : tokens) (e : sds) : option tokens :=
  _ ← assert_ (zlen (tk_elems t) <? tk_slots t); Some (Tokens (tk_slots t) (tk_elems t ++ [e])).

Fixpoint sdssplitlen_loop (fuel : nat) (s : list Z) (len : Z) (sep : list Z) (j start : Z) (t : tokens) :
    option (Z * tokens) :=
  let seplen := zlen sep in
  if j <? len - (seplen - 1) then
    match fuel with
    | O => None
    | S fuel =>
        let t := if tk_slots t <? i32 (zlen (tk_elems t) + 2) then Tokens (i32 (tk_slots t * 2)) (tk_elems t) else t in
        c ← rd s j;
        s0 ← rd sep 0;
        hit ← (if (seplen =? 1) && (c =? s0) then Some true
               else bs ← rdn s j seplen; Some (memcmp bs sep =? 0));
        if (hit : bool) then
          bs ← rdn s start (j - start);
          e ← sdsnewlen usable junk (InitFrom bs) (j - start);
          t ← tk_store t e;
          sdssplitlen_loop fuel s len sep (j + seplen - 1 + 1) (j + seplen) t
        else sdssplitlen_loop fuel s len sep (j + 1) start t
    end
  else Some (start, t).

Definition sdssplitlen (s : list Z) (len : Z) (sep : list Z) : option (option (list sds)) :=
  if (zlen sep <? 1) || (len <=? 0) then Some None
  else
    '(start, t) ← sdssplitlen_loop (Z.to_nat len) s len sep 0 0 (Tokens 5 []);
    bs ← rdn s start (len - start);
    e ← sdsnewlen usable junk (InitFrom bs) (len - start);
    t ← tk_store t e;
    Some (Some (tk_elems t)).

Fixpoint sdsjoin_loop (join : sds) (argv : list (list Z)) (sep : list Z) : option sds :=
  match argv with
  | [] => Some join
  | a :: argv =>
      join ← sdscat usable junk join a;
      join ← (match argv with [] => Some join | _ => sdscat usable junk join sep end);
      sdsjoin_loop join argv sep
  end.
Definition sdsjoin (argv : list (list Z)) (sep : list Z) : option sds :=
  join ← sdsempty usable junk; sdsjoin_loop join argv sep.

Fixpoint sdsjoinsds_loop (join : sds) (argv : list sds) (sep : list Z) (seplen : Z) : option sds :=
  match argv with
  | [] => Some join
  | a :: argv =>
      join ← sdscatsds usable junk join a;
      join ← (match argv with [] => Some join | _ => sdscatlen usable junk join sep seplen end);
      sdsjoinsds_loop join argv sep seplen
  end.
Definition sdsjoinsds (argv : list sds) (sep : list Z) (seplen : Z) : option sds :=
  join ← sdsempty usable junk; sdsjoinsds_loop join argv sep seplen.

(** * Quoting *)

(** The text of one character; [\xHH] is what [vsnprintf] gives for ["\\x%02x"]. *)
Definition hex_digit (d : Z) : Z := if d <? 10 then 48 + d else 87 + d.
Definition repr_char (c : Z) : list Z :=
  if (c =? 92) || (c =? 34) then [92; c]
  else if c =? 10 then [92; 110]
  else if c =? 13 then [92; 114]
  else if c =? 9 then [92; 116]
  else if c =? 7 then [92; 97]
  else if c =? 8 then [92; 98]
  else if isprint c then [c]
  else [92; 120; hex_digit (c / 16); hex_digit (c mod 16)].

Fixpoint sdscatrepr_loop (s : sds) (p : list Z) : option sds :=
  match p with
  | [] => Some s
  | c :: p => let t := repr_char c in s ← sdscatlen usable junk s t (zlen t); sdscatrepr_loop s p
  end.

Definition sdscatrepr (s : sds) (m : list Z) (len : Z) : option sds :=
  s ← sdsMakeRoomFor usable junk s (len + 2);
  s ← sdscatlen usable junk s [34] 1;
  p ← rdn m 0 len;
  s ← sdscatrepr_loop s p;
  sdscatlen usable junk s [34] 1.

Definition needsrepr_char (c : Z) : bool :=
  (c =? 92) || (c =? 34) || (c =? 10) || (c =? 13) || (c =? 9) || (c =? 7) || (c =? 8) ||
  negb (isprint c) || isspace c.
Definition sdsneedsrepr (s : sds) : option bool :=
  p ← rdn (s_buf s) 0 (sdslen s); Some (existsb needsrepr_char p).

(** * Unquoting *)

Definition is_hex_digit (c : Z) : bool :=
  ((48 <=? c) && (c <=? 57)) || ((97 <=? c) && (c <=? 102)) || ((65 <=? c) && (c <=? 70)).
Definition hex_digit_to_int (c : Z) : Z :=
  if (48 <=? c) && (c <=? 57) then c - 48
  else if (97 <=? c) && (c <=? 102) then c - 87
  else if (65 <=? c) && (c <=? 70) then c - 55
  else 0.

Inductive quote := Unquoted | InQ | InSQ.

(** What one step of the token loop does: [goto err], or go on with a
    position, a quoting state, the [done] flag and the token. *)
Inductive tok_step :=
| TokErr
| TokGo (p : Z) (q : quote) (done : bool) (current : sds).

Definition add1 (current : sds) (c : Z) : option sds := sdscatlen usable junk current [c] 1.

Definition escape_char (c : Z) : Z :=
  if c =? 110 then 10 else if c =? 114 then 13 else if c =? 116 then 9 else if c =? 98 then 8
  else if c =? 97 then 7 else c.

(** The condition for [\xHH], read in the order of [&&]. *)
Definition hex_escape (m : list Z) (p c : Z) : option bool :=
  if c =? 92 then
    c1 ← rd m (p + 1);
    if c1 =? 120 then
      c2 ← rd m (p + 2);
      if is_hex_digit c2 then c3 ← rd m (p + 3); Some (is_hex_digit c3) else Some false
    else Some false
  else Some false.

(** A closing quote is followed by a space or the end. *)
Definition close_quote (m : list Z) (p : Z) (q : quote) (current : sds) : option tok_step :=
  c1 ← rd m (p + 1);
  if negb (c1 =? 0) && negb (isspace c1) then Some TokErr else Some (TokGo p q true current).

Definition step_inq (m : list Z) (p c : Z) (current : sds) : option tok_step :=
  hex ← hex_escape m p c;
  if (hex : bool) then
    c2 ← rd m (p + 2);
    c3 ← rd m (p + 3);
    current ← add1 current (u8 (hex_digit_to_int c2 * 16 + hex_digit_to_int c3));
    Some (TokGo (p + 3) InQ false current)
  else
    esc ← (if c =? 92 then c1 ← rd m (p + 1); Some (negb (c1 =? 0)) else Some false);
    if (esc : bool) then
      c1 ← rd m (p + 1);
      current ← add1 current (escape_char c1);
      Some (TokGo (p + 1) InQ false current)
    else if c =? 34 then close_quote m p InQ current
    else if c =? 0 then Some TokErr
    else current ← add1 current c; Some (TokGo p InQ false current).

Definition step_insq (m : list Z) (p c : Z) (current : sds) : option tok_step :=
  esc ← (if c =? 92 then c1 ← rd m (p + 1); Some (c1 =? 39) else Some false);
  if (esc : bool) then current ← add1 current 39; Some (TokGo (p + 1) InSQ false current)
  else if c =? 39 then close_quote m p InSQ current
  else if c =? 0 then Some TokErr
  else current ← add1 current c; Some (TokGo p InSQ false current).

Definition step_unquoted (p c : Z) (current : sds) : option tok_step :=
  if (c =? 32) || (c =? 10) || (c =? 13) || (c =? 9) || (c =? 0) then Some (TokGo p Unquoted true current)
  else if c =? 34 then Some (TokGo p InQ false current)
  else if c =? 39 then Some (TokGo p InSQ false current)
  else current ← add1 current c; Some (TokGo p Unquoted false current).

(** Get a token: its end and its contents, or an error. *)
Fixpoint splitargs_token (fuel : nat) (m : list Z) (p : Z) (q : quote) (current : sds) : option (option (Z * sds)) :=
  match fuel with
  | O => None
  | S fuel =>
      c ← rd m p;
      step ← (match q with
              | InQ => step_inq m p c current
              | InSQ => step_insq m p c current
              | Unquoted => step_unquoted p c current
              end);
      match step with
      | TokErr => Some None
      | TokGo p q done current =>
          c ← rd m p;
          let p := if negb (c =? 0) then p + 1 else p in
          if done then Some (Some (p, current)) else splitargs_token fuel m p q current
      end
  end.

Fixpoint skip_blanks (fuel : nat) (m : list Z) (p : Z) : option Z :=
  match fuel with
  | O => None
  | S fuel => c ← rd m p; if negb (c =? 0) && isspace c then skip_blanks fuel m (p + 1) else Some p
  end.

Fixpoint splitargs_loop (fuel : nat) (m : list Z) (p : Z) (vector : list sds) : option (option (list sds)) :=
  match fuel with
  | O => None
  | S fuel =>
      p ← skip_blanks (S (length m)) m p;
      c ← rd m p;
      if negb (c =? 0) then
        current ← sdsempty usable junk;
        r ← splitargs_token (S (length m)) m p Unquoted current;
        match r with
        | None => Some None
        | Some (p, current) => splitargs_loop fuel m p (vector ++ [current])
        end
      else Some (Some vector)
  end.

(** [line] is the memory from the pointer on, up to its end.  [*argc] is the
    length of the vector: an [int], so below 2^31 arguments. *)
Definition sdssplitargs (line : list Z) : option (option (list sds)) :=
  splitargs_loop (S (length line)) line 0 [].

(** * Templates *)

(** [strchr] and [strlen] on the memory from a pointer on. *)
Fixpoint strchr_from (l : list Z) (c n : Z) : option (option Z) :=
  match l with
  | [] => None
  | x :: l => if x =? c then Some (Some n) else if x =? 0 then Some None else strchr_from l c (n + 1)
  end.
Definition strchr (m : list Z) (p c : Z) : option (option Z) := strchr_from (drop (Z.to_nat p) m) c p.
Definition strlen (m : list Z) (p : Z) : option Z := strlen_from (drop (Z.to_nat p) m) 0.

(** [sdscat] of the C string at [p] in [m]. *)
Definition sdscat_at (s : sds) (m : list Z) (p : Z) : option sds :=
  n ← strlen m p; sdscatlen usable junk s (drop (Z.to_nat p) m) n.

(** From the character after the bracket on: a quoted bracket or a variable.
    The callback gives the value of a variable, or NULL.  The result is the
    position to go on from and the text so far; NULL is [goto error]. *)
Definition template_hole (cb_func : sds -> option sds) (m : list Z) (sv : Z) (res : sds) : option (option (Z * sds)) :=
  c ← rd m sv;
  if c =? 0 then Some None
  else if c =? 123 then res ← sdscat usable junk res [123]; Some (Some (sv + 1, res))
  else
    ev ← strchr m sv 125;
    match ev with
    | None => Some None
    | Some ev =>
        varname ← sdsnewlen usable junk (InitFrom (drop (Z.to_nat sv) m)) (ev - sv);
        match cb_func varname with
        | None => Some None
        | Some value => res ← sdscat_at res (s_buf value) 0; Some (Some (ev + 1, res))
        end
    end.

Fixpoint sdstemplate_loop (fuel : nat) (cb_func : sds -> option sds) (m : list Z) (p : Z) (res : sds) : option (option sds) :=
  match fuel with
  | O => None
  | S fuel =>
      c ← rd m p;
      if c =? 0 then Some (Some res)
      else
        sv ← strchr m p 123;
        match sv with
        | None => res ← sdscat_at res m p; Some (Some res)
        | Some sv =>
            res ← (if p <? sv then sdscatlen usable junk res (drop (Z.to_nat p) m) (sv - p) else Some res);
            h ← template_hole cb_func m (sv + 1) res;
            match h with
            | None => Some None
            | Some (p, res) => sdstemplate_loop fuel cb_func m p res
            end
        end
  end.

Definition sdstemplate (template : list Z) (cb_func : sds -> option sds) : option (option sds) :=
  res ← sdsempty usable junk; sdstemplate_loop (S (length template)) cb_func template 0 res.

(** * Formatting *)

(** A variadic argument, by the type it is passed with. *)
Inductive fmt_arg :=
| ArgStr (m : list Z) | ArgSds (s : sds)
| ArgInt (v : Z) | ArgLongLong (v : Z) | ArgUInt (v : Z) | ArgULongLong (v : Z).

(** The bytes an argument contributes under the specifier [next], as the
    [memcpy] source and its length. *)
Definition fmt_bytes (next : Z) (a : fmt_arg) : option (list Z * Z) :=
  if next =? 115 then match a with ArgStr m => l ← strlen m 0; Some (m, l) | _ => None end
  else if next =? 83 then match a with ArgSds t => Some (s_buf t, sdslen t) | _ => None end
  else
    let buf := repeat 0 (Z.to_nat LONG_STR_SIZE) in
    if next =? 105 then match a with ArgInt v => ll2string buf LONG_STR_SIZE v | _ => None end
    else if next =? 73 then match a with ArgLongLong v => ll2string buf LONG_STR_SIZE v | _ => None end
    else if next =? 117 then match a with ArgUInt v => ull2string buf LONG_STR_SIZE v | _ => None end
    else match a with ArgULongLong v => ull2string buf LONG_STR_SIZE v | _ => None end.

Definition is_fmt_spec (next : Z) : bool :=
  (next =? 115) || (next =? 83) || (next =? 105) || (next =? 73) || (next =? 117) || (next =? 85).

(** [s[i++] = c; sdsinclen(s,1)]. *)
Definition fmt_put (s : sds) (i c : Z) : option sds := s ← sds_wr s i [c]; Some (sdsinclen s 1).

Fixpoint sdscatfmt_loop (fuel : nat) (fmt : list Z) (f i : Z) (args : list fmt_arg) (s : sds) : option (sds * Z) :=
  match fuel with
  | O => None
  | S fuel =>
      c ← rd fmt f;
      if c =? 0 then Some (s, i)
      else
        s ← (if sdsavail s =? 0 then sdsMakeRoomFor usable junk s 1 else Some s);
        if c =? 37 then
          next ← rd fmt (f + 1);
          if next =? 0 then sdscatfmt_loop fuel fmt (f + 1) i args s
          else if is_fmt_spec next then
            match args with
            | [] => None
            | a :: args =>
                '(str, l) ← fmt_bytes next a;
                s ← (if sdsavail s <? l then sdsMakeRoomFor usable junk s l else Some s);
                bs ← rdn str 0 l;
                s ← sds_wr s i bs;
                sdscatfmt_loop fuel fmt (f + 2) (i + l) args (sdsinclen s l)
            end
          else s ← fmt_put s i next; sdscatfmt_loop fuel fmt (f + 2) (i + 1) args s
        else s ← fmt_put s i c; sdscatfmt_loop fuel fmt (f + 1) (i + 1) args s
  end.

Definition sdscatfmt (s : sds) (fmt : list Z) (args : list fmt_arg) : option sds :=
  let initlen := sdslen s in
  n ← strlen fmt 0;
  s ← sdsMakeRoomFor usable junk s (u64 (n * 2));
  '(s, i) ← sdscatfmt_loop (S (length fmt)) fmt 0 initlen args s;
  sds_wr s i [0].
End text.
