(* ===== verification/SdsTextThms.v ===== *)
(** Quoting and unquoting, splitting and joining, templates and formatting:
    theorems about SdsText.v.  On arbitrary text [sdssplitargs] always returns,
    never reads past the terminator, and its tokens are well formed strings. *)
From S2P Require Import Prelude Strnum Sds SdsText SdsThms.

Lemma rdn_all (l : list Z) : rdn l 0 (zlen l) = Some l.
Proof. apply rdn_Some. exists [], []. by rewrite app_nil_r. Qed.

Lemma rdn_hd (l r : list Z) n : zlen l = n -> rdn (l ++ r) 0 n = Some l.
Proof. intros <-. apply rdn_Some. by exists [], r. Qed.

(** Reading at a known distance past a prefix. *)
Lemma rd_at a l p k x : zlen a = p -> rd l k = Some x -> 0 <= k -> rd (a ++ l) (p + k) = Some x.
Proof. intros <- E Hk. by rewrite rd_app_r. Qed.

Section proofs.
Context (usable : Z -> Z) (junk : nat -> Z) (Hus : alloc_ok usable).

Lemma add1_rep s x c : sds_rep s x -> zlen x < 2 ^ 59 ->
  exists s', add1 usable junk s c = Some s' /\ sds_rep s' (x ++ [c]).
Proof. intros R Hx. apply (catlen_rep usable junk Hus s x); [done | done | lia]. Qed.

Lemma cat_rep s x t : sds_rep s x -> zlen x + zlen t < 2 ^ 60 ->
  exists s', sdscatlen usable junk s t (zlen t) = Some s' /\ sds_rep s' (x ++ t).
Proof. intros R Hx. apply (catlen_rep usable junk Hus s x); [done | apply rdn_all | lia]. Qed.

Lemma empty_rep : exists s, sdsempty usable junk = Some s /\ sds_rep s [].
Proof. apply (newlen_all usable junk Hus []). done. Qed.

(** * Quoting *)

Definition repr (x : list Z) : list Z := 34 :: concat (map repr_char x) ++ [34].

Lemma catrepr_loop_rep p s x : sds_rep s x -> zlen x + 4 * zlen p < 2 ^ 60 ->
  exists s', sdscatrepr_loop usable junk s p = Some s' /\ sds_rep s' (x ++ concat (map repr_char p)).
Proof.
  revert s x. induction p as [| c p IH]; intros s x R Hx; cbn [sdscatrepr_loop map concat].
  { exists s. by rewrite app_nil_r. }
  rewrite zlen_cons in Hx. pose proof (zlen_nonneg p).
  assert (zlen (repr_char c) <= 4) as Hc by (unfold repr_char; repeat case_if; vm_compute; discriminate).
  destruct (cat_rep s x (repr_char c) R) as (s1 & E1 & R1); [lia |]. rewrite E1. cbn [mbind option_bind].
  destruct (IH s1 _ R1) as (s2 & E2 & R2); [rewrite zlen_app; lia |]. exists s2. by rewrite app_assoc.
Qed.

Lemma sdscatrepr_rep s x m n p : sds_rep s x -> rdn m 0 n = Some p -> zlen x + 4 * n < 2 ^ 59 ->
  exists s', sdscatrepr usable junk s m n = Some s' /\ sds_rep s' (x ++ repr p).
Proof.
  intros R Hp Hx. pose proof (rdn_length _ _ _ _ Hp) as Hl. pose proof (zlen_nonneg p). pose proof (zlen_nonneg x).
  unfold sdscatrepr, sdsMakeRoomFor.
  destruct (makeroom_rep usable junk Hus s x (n + 2) true R) as (s1 & E1 & R1 & _); [lia.. |].
  rewrite E1. cbn [mbind option_bind].
  destruct (catlen_rep usable junk Hus s1 x [34] [34] 1 R1 eq_refl) as (s2 & E2 & R2); [lia |].
  rewrite E2. cbn [mbind option_bind]. rewrite Hp. cbn [mbind option_bind].
  destruct (catrepr_loop_rep p s2 _ R2) as (s3 & E3 & R3); [zlens |]. rewrite E3. cbn [mbind option_bind].
  assert (zlen (concat (map repr_char p)) <= 4 * zlen p) as Hc.
  { clear. induction p as [| c p IH]; [done |]. cbn [map concat]. rewrite zlen_app, zlen_cons.
    assert (zlen (repr_char c) <= 4) by (unfold repr_char; repeat case_if; vm_compute; discriminate). lia. }
  destruct (catlen_rep usable junk Hus s3 _ [34] [34] 1 R3 eq_refl) as (s4 & E4 & R4); [zlens |].
  exists s4. split; [done |]. revert R4. unfold repr. by rewrite <- !app_assoc.
Qed.

(** * Unquoting what was quoted *)

(** One character, by cases of its quoted form. *)
Definition hex_check (c : Z) : bool :=
  is_hex_digit (hex_digit (c / 16)) && is_hex_digit (hex_digit (c mod 16)) &&
  (u8 (hex_digit_to_int (hex_digit (c / 16)) * 16 + hex_digit_to_int (hex_digit (c mod 16))) =? c) &&
  negb (hex_digit (c mod 16) =? 0).

Lemma hex_check_ok c : byte c -> hex_check c = true.
Proof. apply byte_all. vm_compute. reflexivity. Qed.

Inductive repr_shape (c : Z) : list Z -> Prop :=
| RsEsc e : escape_char e = c -> e <> 120 -> e <> 0 -> repr_shape c [92; e]
| RsPlain : c <> 92 -> c <> 34 -> c <> 0 -> repr_shape c [c]
| RsHex : repr_shape c [92; 120; hex_digit (c / 16); hex_digit (c mod 16)].

Lemma repr_char_shape c : byte c -> repr_shape c (repr_char c).
Proof.
  intros Hc. unfold repr_char.
  destruct ((c =? 92) || (c =? 34)) eqn:E.
  { apply orb_true_iff in E as [E | E]; apply Z.eqb_eq in E as ->; by constructor. }
  apply orb_false_iff in E as [E1 E2]. apply Z.eqb_neq in E1, E2.
  repeat case_if; try (subst c; constructor; done).
  - constructor; try done. unfold isprint in *. lia.
  - constructor.
Qed.

Lemma token_repr_char c a k s x fuel : byte c -> sds_rep s x -> zlen x < 2 ^ 59 ->
  exists s', sds_rep s' (x ++ [c]) /\
    splitargs_token usable junk (S fuel) (a ++ repr_char c ++ k) (zlen a) InQ s =
    splitargs_token usable junk fuel (a ++ repr_char c ++ k) (zlen a + zlen (repr_char c)) InQ s'.
Proof.
  intros Hc R Hx. destruct (add1_rep s x c R Hx) as (s' & E' & R'). exists s'. split; [done |].
  set (f := splitargs_token usable junk fuel). cbn [splitargs_token]. fold f.
  destruct (repr_char_shape c Hc) as [e He He1 He2 | H1 H2 H3 |]; cbn [app].
  - rewrite (rd_app a 92) by done. cbn [mbind option_bind].
    pose proof (rd_at a (92 :: e :: k) (zlen a) 1 e eq_refl eq_refl ltac:(lia)) as Rd1.
    assert (step_inq usable junk (a ++ 92 :: e :: k) (zlen a) 92 s = Some (TokGo (zlen a + 1) InQ false s')) as ->.
    { unfold step_inq, hex_escape. rewrite Rd1. cbn [mbind option_bind Z.eqb Pos.eqb].
      rewrite (proj2 (Z.eqb_neq e 120)), (proj2 (Z.eqb_neq e 0)) by done. cbn. by rewrite He, E'. }
    cbn [mbind option_bind]. rewrite Rd1. cbn [mbind option_bind].
    rewrite (proj2 (Z.eqb_neq e 0)) by done. cbn [negb]. f_equal. change (zlen [92; e]) with 2. lia.
  - rewrite (rd_app a c) by done. cbn [mbind option_bind].
    assert (step_inq usable junk (a ++ c :: k) (zlen a) c s = Some (TokGo (zlen a) InQ false s')) as ->.
    { unfold step_inq, hex_escape. rewrite !(proj2 (Z.eqb_neq c 92)) by done. cbn [mbind option_bind].
      rewrite (proj2 (Z.eqb_neq c 34)), (proj2 (Z.eqb_neq c 0)) by done. by rewrite E'. }
    cbn [mbind option_bind]. rewrite (rd_app a c) by done. cbn [mbind option_bind].
    rewrite (proj2 (Z.eqb_neq c 0)) by done. done.
  - pose proof (hex_check_ok c Hc) as Hh. unfold hex_check in Hh. rewrite !andb_true_iff in Hh.
    destruct Hh as [[[Hh Hl] Hv] Hn]. apply Z.eqb_eq in Hv.
    set (h := hex_digit (c / 16)) in *. set (l := hex_digit (c mod 16)) in *.
    rewrite (rd_app a 92) by done. cbn [mbind option_bind].
    pose proof (rd_at a (92 :: 120 :: h :: l :: k) (zlen a) 1 _ eq_refl eq_refl ltac:(lia)) as Rd1.
    pose proof (rd_at a (92 :: 120 :: h :: l :: k) (zlen a) 2 _ eq_refl eq_refl ltac:(lia)) as Rd2.
    pose proof (rd_at a (92 :: 120 :: h :: l :: k) (zlen a) 3 _ eq_refl eq_refl ltac:(lia)) as Rd3.
    assert (step_inq usable junk (a ++ 92 :: 120 :: h :: l :: k) (zlen a) 92 s = Some (TokGo (zlen a + 3) InQ false s')) as ->.
    { unfold step_inq, hex_escape. rewrite Rd1. cbn [mbind option_bind Z.eqb Pos.eqb]. rewrite Rd2. cbn [mbind option_bind].
      rewrite Hh, Rd3. cbn [mbind option_bind]. rewrite Hl. by rewrite Hv, E'. }
    cbn [mbind option_bind]. rewrite Rd3. cbn [mbind option_bind]. rewrite Hn. f_equal.
    change (zlen [92; 120; h; l]) with 4. lia.
Qed.

(** The end of a quoted token: a space or the terminator follows. *)
Definition sep_ok (k : list Z) : Prop := exists c k', k = c :: k' /\ (c = 0 \/ isspace c = true).

Lemma token_repr_tail p a k s x fuel : bytes p -> sds_rep s x -> zlen x + zlen p < 2 ^ 59 -> sep_ok k ->
  (length p < fuel)%nat ->
  exists s', sds_rep s' (x ++ p) /\
    splitargs_token usable junk fuel (a ++ (concat (map repr_char p) ++ [34]) ++ k) (zlen a) InQ s =
      Some (Some (zlen a + zlen (concat (map repr_char p)) + 1, s')).
Proof.
  intros Hp R Hx Hk. revert a s x fuel R Hx. induction Hp as [| c p Hc Hp IH]; intros a s x fuel R Hx Hf.
  - destruct fuel as [| fuel]; [cbn in Hf; lia |]. exists s. rewrite app_nil_r. split; [done |].
    destruct Hk as (e & k' & -> & He). cbn [map concat app splitargs_token].
    rewrite (rd_app a 34) by done. cbn [mbind option_bind].
    pose proof (rd_at a (34 :: e :: k') (zlen a) 1 e eq_refl eq_refl ltac:(lia)) as Rd1.
    assert (step_inq usable junk (a ++ 34 :: e :: k') (zlen a) 34 s = Some (TokGo (zlen a) InQ true s)) as ->.
    { unfold step_inq, hex_escape, close_quote. cbn [Z.eqb Pos.eqb mbind option_bind]. rewrite Rd1. cbn [mbind option_bind].
      destruct He as [-> | ->]; [done |]. by rewrite andb_false_r. }
    cbn [mbind option_bind]. rewrite (rd_app a 34) by done. cbn [mbind option_bind Z.eqb Pos.eqb negb].
    rewrite (@zlen_nil Z). do 3 f_equal. lia.
  - destruct fuel as [| fuel]; [cbn in Hf; lia |]. rewrite zlen_cons in Hx. pose proof (zlen_nonneg p).
    cbn [map concat]. rewrite <- !app_assoc.
    destruct (token_repr_char c a (concat (map repr_char p) ++ [34] ++ k) s x fuel Hc R) as (s1 & R1 & E1); [lia |].
    rewrite E1. destruct (IH (a ++ repr_char c) s1 _ fuel R1) as (s2 & R2 & E2); [zlens | cbn in Hf; lia |].
    exists s2. rewrite <- app_assoc in R2. split; [done |].
    rewrite <- !app_assoc, !zlen_app in E2. rewrite E2, zlen_app. do 3 f_equal. lia.
Qed.

Lemma token_repr p a k fuel s : bytes p -> sds_rep s [] -> zlen p < 2 ^ 59 -> sep_ok k -> (S (length p) < fuel)%nat ->
  exists s', sds_rep s' p /\
    splitargs_token usable junk fuel (a ++ repr p ++ k) (zlen a) Unquoted s = Some (Some (zlen a + zlen (repr p), s')).
Proof.
  intros Hp R Hl Hk Hf. destruct fuel as [| fuel]; [lia |].
  destruct (token_repr_tail p (a ++ [34]) k s [] fuel Hp R) as (s' & R' & E'); [by rewrite (@zlen_nil Z) | done | lia |].
  exists s'. split; [done |]. unfold repr. rewrite <- app_assoc in E'. cbn [app] in E' |- *. cbn [splitargs_token].
  rewrite (rd_app a 34) by done. cbn [mbind option_bind step_unquoted Z.eqb Pos.eqb orb].
  rewrite (rd_app a 34) by done. cbn [mbind option_bind Z.eqb negb]. rewrite zlen_app in E'.
  change (zlen [34]) with 1 in E'. rewrite E'. do 3 f_equal. rewrite zlen_cons, zlen_app. change (zlen [34]) with 1. lia.
Qed.

(** * Unquoted words, whole lines *)

(** What may stand for itself on a line: printable, no blank, no quote. *)
Definition plain_char (c : Z) : bool := negb (needsrepr_char c) && negb (c =? 39).

Lemma plain_char_spec c : plain_char c = true ->
  33 <= c <= 126 /\ c <> 34 /\ c <> 39 /\ isspace c = false.
Proof.
  unfold plain_char, needsrepr_char, isprint. intros H. destruct (isspace c) eqn:E.
  - rewrite orb_true_r in H. done.
  - unfold isspace in E. lia.
Qed.

(** A blank that ends an unquoted word. *)
Definition blank (c : Z) : Prop := c = 32 \/ c = 10 \/ c = 13 \/ c = 9.

Lemma token_plain p a k s x fuel : forallb plain_char p = true -> sds_rep s x -> zlen x + zlen p < 2 ^ 59 ->
  (exists c k', k = c :: k' /\ (c = 0 \/ blank c)) -> (length p < fuel)%nat ->
  exists s', sds_rep s' (x ++ p) /\
    splitargs_token usable junk fuel (a ++ p ++ k) (zlen a) Unquoted s =
      Some (Some (zlen a + zlen p + (match k with c :: _ => if c =? 0 then 0 else 1 | [] => 0 end), s')).
Proof.
  intros Hp R Hx Hk. revert a s x fuel R Hx. induction p as [| c p IH]; intros a s x fuel R Hx Hf;
    destruct fuel as [| fuel]; try (cbn in Hf; lia).
  - exists s. rewrite app_nil_r. split; [done |]. destruct Hk as (e & k' & -> & He).
    cbn [app splitargs_token]. rewrite (rd_app a e) by done. cbn [mbind option_bind]. unfold step_unquoted.
    assert ((e =? 32) || (e =? 10) || (e =? 13) || (e =? 9) || (e =? 0) = true) as -> by (unfold blank in He; lia).
    cbn [mbind option_bind]. rewrite (rd_app a e) by done. cbn [mbind option_bind]. rewrite (@zlen_nil Z).
    destruct (e =? 0); cbn [negb]; do 3 f_equal; lia.
  - cbn [forallb] in Hp. apply andb_true_iff in Hp as [Hc Hp]. apply plain_char_spec in Hc as (H1 & H2 & H3 & _).
    rewrite zlen_cons in Hx. pose proof (zlen_nonneg p).
    destruct (add1_rep s x c R ltac:(lia)) as (s1 & E1 & R1).
    cbn [app splitargs_token]. rewrite (rd_app a c) by done. cbn [mbind option_bind]. unfold step_unquoted.
    assert ((c =? 32) || (c =? 10) || (c =? 13) || (c =? 9) || (c =? 0) = false) as -> by lia.
    rewrite (proj2 (Z.eqb_neq c 34)), (proj2 (Z.eqb_neq c 39)) by done. rewrite E1. cbn [mbind option_bind].
    rewrite (rd_app a c) by done. cbn [mbind option_bind]. rewrite (proj2 (Z.eqb_neq c 0)) by lia. cbn [negb].
    destruct (IH Hp (a ++ [c]) s1 _ fuel R1) as (s2 & R2 & E2); [zlens | cbn in Hf; lia |].
    exists s2. rewrite <- app_assoc in R2. split; [done |].
    rewrite <- app_assoc, zlen_app, zlen_cons in E2. cbn [app] in E2. rewrite (@zlen_nil Z), Z.add_0_r in E2. rewrite E2.
    rewrite zlen_cons. do 3 f_equal. lia.
Qed.

(** The ways to write one argument. *)
Inductive word (x : list Z) : list Z -> Prop :=
| WRepr : word x (repr x)
| WPlain : x <> [] -> forallb plain_char x = true -> word x x.

(** A line of arguments: blanks before each word and at the end, and each
    word ended by a blank or by the end of the line. *)
Inductive is_line : list (list Z) -> list Z -> Prop :=
| LNil b : Forall (fun c => isspace c = true) b -> is_line [] b
| LCons b x w xs l : Forall (fun c => isspace c = true) b -> word x w -> is_line xs l ->
    (l = [] \/ exists c l', l = c :: l' /\ blank c) -> is_line (x :: xs) (b ++ w ++ l).

Lemma blank_space c : blank c -> isspace c = true.
Proof. unfold blank, isspace. lia. Qed.

Lemma word_hd x w : word x w -> exists c w', w = c :: w' /\ isspace c = false /\ c <> 0.
Proof.
  intros [| Hx Hp]; [by eexists _, _ |]. destruct x as [| c x]; [done |]. exists c, x.
  cbn [forallb] in Hp. apply andb_true_iff in Hp as [Hc _]. apply plain_char_spec in Hc as (? & ? & ? & ?).
  split; [done |]. split; [done | lia].
Qed.

Lemma is_line_tl xs c l : is_line xs (c :: l) -> isspace c = true -> is_line xs l.
Proof.
  intros H Hc. inversion H as [b Hb E1 E2 | b x w xs' l' Hb Hw Hl Hend E1 E2].
  - subst. constructor. by inversion Hb.
  - destruct b as [| c' b]; cbn [app] in E2.
    + destruct (word_hd x w Hw) as (d & w' & -> & Hd & _). injection E2 as -> _. congruence.
    + injection E2 as -> <-. constructor; try done. by inversion Hb.
Qed.

Lemma skip_blanks_ok b a k fuel : Forall (fun c => isspace c = true) b ->
  (exists c k', k = c :: k' /\ (c = 0 \/ isspace c = false)) ->
  (length b < fuel)%nat -> skip_blanks fuel (a ++ b ++ k) (zlen a) = Some (zlen a + zlen b).
Proof.
  intros Hb (c & k' & -> & Hc). revert a fuel. induction Hb as [| d b Hd Hb IH]; intros a fuel Hf; destruct fuel as [| fuel];
    try (cbn in Hf; lia); cbn [app skip_blanks].
  - rewrite (rd_app a c) by done. cbn [mbind option_bind].
    assert (negb (c =? 0) && isspace c = false) as -> by (destruct Hc as [-> | ->]; [done | by rewrite andb_false_r]).
    rewrite (@zlen_nil Z). f_equal. lia.
  - rewrite (rd_app a d) by done. cbn [mbind option_bind]. rewrite Hd.
    rewrite (proj2 (Z.eqb_neq d 0)) by (intros ->; done). cbn [negb andb].
    specialize (IH (a ++ [d]) fuel ltac:(cbn in Hf; lia)). rewrite <- app_assoc, zlen_app, zlen_cons in IH.
    cbn [app] in IH. rewrite (@zlen_nil Z), Z.add_0_r in IH. rewrite IH, zlen_cons. f_equal. lia.
Qed.

Lemma word_small x w : bytes x -> word x w -> zlen x <= zlen w /\ (length x < S (length w))%nat.
Proof.
  intros Hx [|]; [| lia]. unfold repr. rewrite zlen_cons, zlen_app. change (zlen [34]) with 1.
  assert (zlen x <= zlen (concat (map repr_char x)) /\ (length x <= length (concat (map repr_char x)))%nat) as [H1 H2].
  { unfold zlen. induction Hx as [| c x Hc Hx IH]; [done |]. cbn [map concat length]. rewrite length_app.
    assert (1 <= length (repr_char c))%nat by (destruct (repr_char_shape c Hc); cbn; lia). lia. }
  cbn [length]. rewrite length_app. cbn. lia.
Qed.

(** One word and, after a plain word, the blank that ended it. *)
Lemma token_word x w a l z fuel s : bytes x -> word x w -> sds_rep s [] -> zlen w < 2 ^ 59 ->
  (l = [] \/ exists c l', l = c :: l' /\ blank c) -> (S (length w) < fuel)%nat ->
  exists s' d l2, sds_rep s' x /\ l = d ++ l2 /\ (length d <= 1)%nat /\ Forall (fun c => isspace c = true) d /\
    splitargs_token usable junk fuel (a ++ w ++ l ++ 0 :: z) (zlen a) Unquoted s =
      Some (Some (zlen a + zlen w + zlen d, s')).
Proof.
  intros Hx Hw R Hl Hend Hf. pose proof (word_small x w Hx Hw) as [Hs1 Hs2].
  assert (exists e k', l ++ 0 :: z = e :: k' /\ (e = 0 \/ blank e)) as (e & k' & Ek & He).
  { destruct Hend as [-> | (c & l' & -> & Hc)]; eexists _, _; (split; [reflexivity |]); auto. }
  destruct Hw as [| Hne Hp].
  - destruct (token_repr x a (l ++ 0 :: z) fuel s Hx R) as (s' & R' & E'); [lia | | lia |].
    { exists e, k'. split; [done |]. destruct He as [-> | He]; [by left | right; by apply blank_space]. }
    exists s', [], l. split; [done |]. split; [done |]. split; [cbn; lia |]. split; [constructor |].
    rewrite E', (@zlen_nil Z). do 3 f_equal. lia.
  - destruct (token_plain x a (l ++ 0 :: z) s [] fuel Hp R) as (s' & R' & E'); [by rewrite (@zlen_nil Z) | by exists e, k' | lia |].
    rewrite E'. destruct Hend as [-> | (c & l' & -> & Hc)]; cbn [app].
    + exists s', [], []. do 4 (split; [done || (cbn; lia) || constructor |]). done.
    + exists s', [c], l'. rewrite (proj2 (Z.eqb_neq c 0)) by (unfold blank in Hc; lia).
      split; [done |]. split; [done |]. split; [cbn; lia |]. split; [| done].
      constructor; [by apply blank_space | constructor].
Qed.

Lemma splitargs_loop_ok xs l a z vec ys fuel : is_line xs l -> Forall bytes xs -> Forall2 sds_rep vec ys ->
  zlen l < 2 ^ 59 -> (length l < fuel)%nat ->
  exists toks, splitargs_loop usable junk fuel (a ++ l ++ 0 :: z) (zlen a) vec = Some (Some toks) /\
    Forall2 sds_rep toks (ys ++ xs).
Proof.
  revert l a vec ys fuel. induction xs as [| x xs IH]; intros l a vec ys fuel Hline Hxs Hvec Hlen Hf;
    destruct fuel as [| fuel]; try lia; inversion Hline as [b Hb E1 E2 | b x' w xs' l' Hb Hw Hl Hend E1 E2]; subst.
  - cbn [splitargs_loop]. rewrite skip_blanks_ok; [| done | by (eexists _, _; split; [reflexivity | left]) | rewrite !length_app; lia].
    cbn [mbind option_bind]. rewrite app_assoc, (rd_app _ 0) by zlens. cbn [mbind option_bind Z.eqb negb].
    exists vec. by rewrite app_nil_r.
  - apply Forall_cons in Hxs as [Hx Hxs]. destruct (word_hd x w Hw) as (c & w' & Ew & Hc & Hc0).
    rewrite !zlen_app, !length_app in *. pose proof (zlen_nonneg b). pose proof (zlen_nonneg l'). pose proof (zlen_nonneg w).
    destruct empty_rep as (s & Es & Rs).
    cbn [splitargs_loop]. rewrite <- !app_assoc.
    assert (exists c k', w ++ l' ++ 0 :: z = c :: k' /\ (c = 0 \/ isspace c = false)) as Hsk
      by (rewrite Ew; eexists c, _; split; [reflexivity | by right]).
    assert (rd (a ++ b ++ w ++ l' ++ 0 :: z) (zlen a + zlen b) = Some c) as Hrd
      by (rewrite Ew, app_assoc; apply rd_app; zlens).
    rewrite (skip_blanks_ok b a _ _ Hb Hsk) by (rewrite !length_app; lia).
    cbn [mbind option_bind]. rewrite Hrd. cbn [mbind option_bind].
    rewrite (proj2 (Z.eqb_neq c 0)) by done. cbn [negb]. rewrite Es. cbn [mbind option_bind].
    rewrite <- (zlen_app a b), (app_assoc a b).
    destruct (token_word x w (a ++ b) l' z (S (length ((a ++ b) ++ w ++ l' ++ 0 :: z))) s Hx Hw Rs)
      as (s' & d & l2 & R' & El & Hd1 & Hd & Et); [lia | done | rewrite !length_app; cbn [length]; lia |].
    rewrite Et. cbn [mbind option_bind]. subst l'. rewrite length_app in Hf.
    assert (is_line xs l2) as Hl2.
    { destruct d as [| y [| y' d]]; [done | | cbn in Hd1; lia]. apply is_line_tl in Hl; [done | by inversion Hd]. }
    assert (length w <> 0)%nat by (rewrite Ew; done). rewrite zlen_app in Hlen. pose proof (zlen_nonneg d).
    destruct (IH l2 (((a ++ b) ++ w) ++ d) (vec ++ [s']) (ys ++ [x]) fuel Hl2 Hxs) as (toks & E & Hto).
    { apply Forall2_app; [done |]. constructor; [done | constructor]. }
    { lia. }
    { lia. }
    exists toks. rewrite <- app_assoc in Hto. split; [| exact Hto].
    rewrite !zlen_app, <- !app_assoc in E. rewrite <- !app_assoc, zlen_app. exact E.
Qed.
End proofs.

(** C38: [sdssplitargs] reads back every line of arguments, each quoted by
    [sdscatrepr] or, when it is non-empty and has neither a character that
    [sdsneedsrepr] tests nor a single quote, written as it is; whatever blanks
    separate them.  [sdscatrepr] writes the quoted form, and [sdsneedsrepr]
    decides exactly the test. *)
Theorem splitargs_reads_back usable junk (Hus : alloc_ok usable) :
  (forall xs l z, is_line xs l -> Forall bytes xs -> zlen l < 2 ^ 59 ->
     exists toks, sdssplitargs usable junk (l ++ 0 :: z) = Some (Some toks) /\ Forall2 sds_rep toks xs) /\
  (forall s c x, sds_rep s c -> zlen c + 4 * zlen x < 2 ^ 59 ->
     exists s', sdscatrepr usable junk s x (zlen x) = Some s' /\ sds_rep s' (c ++ repr x)) /\
  (forall s c, sds_rep s c -> sdsneedsrepr s = Some (existsb needsrepr_char c)).
Proof.
  split; [| split].
  - intros xs l z Hl Hxs Hlen. unfold sdssplitargs.
    destruct (splitargs_loop_ok usable junk Hus xs l [] z [] [] (S (length (l ++ 0 :: z))) Hl Hxs) as (toks & E & H);
      [constructor | done | rewrite length_app; lia |].
    by exists toks.
  - intros s c x R Hx. by apply (sdscatrepr_rep usable junk Hus s c x (zlen x) x R (rdn_all x)).
  - intros s c R. unfold sdsneedsrepr. by rewrite (rep_rdn s c R).
Qed.

Lemma splitargs_reads_back_witness : exists toks,
  sdssplitargs round16 ex_junk ([32] ++ repr [0; 200; 34; 10] ++ chars "  get key" ++ [9; 0]) = Some (Some toks) /\
  Forall2 sds_rep toks [[0; 200; 34; 10]; chars "get"; chars "key"].
Proof.
  destruct (splitargs_reads_back round16 ex_junk round16_ok) as (H & _).
  apply (H [[0; 200; 34; 10]; chars "get"; chars "key"] ([32] ++ repr [0; 200; 34; 10] ++ chars "  get key" ++ [9]) []).
  - apply (LCons [32] [0; 200; 34; 10] _ _ (chars "  get key" ++ [9])); [by constructor | constructor | |].
    + apply (LCons [32; 32] (chars "get") (chars "get") _ (chars " key" ++ [9])); [by repeat constructor | by constructor | |].
      * apply (LCons [32] (chars "key") (chars "key") _ [9]); [by constructor | by constructor | |].
        -- constructor. by constructor.
        -- right. exists 9, []. split; [done |]. unfold blank. lia.
      * right. eexists 32, _. split; [reflexivity |]. unfold blank. lia.
    + right. eexists 32, _. split; [reflexivity |]. unfold blank. lia.
  - apply (bool_decide_eq_true_1 (Forall (Forall byte) _)). vm_compute. reflexivity.
  - reflexivity.
Defined.

(** [sdsneedsrepr] does not test for the single quote, which opens a quoted
    section in [sdssplitargs]: a string that needs no quoting by the one is
    rejected by the other. *)
Example needsrepr_single_quote :
  (s ← sdsnewlen round16 ex_junk (InitFrom (chars "it's.aof")) 8; sdsneedsrepr s) = Some false /\
  sdssplitargs round16 ex_junk (chars "file it's.aof seq 1" ++ [0]) = Some None.
Proof. split; vm_compute; reflexivity. Qed.

(** [m] holds a C string of [n] characters. *)
Definition cstring (m : list Z) (n : Z) : Prop :=
  exists l z, m = l ++ 0 :: z /\ zlen l = n /\ Forall (fun c => c <> 0) l.

Lemma cstring_rd m n p : cstring m n -> 0 <= p <= n ->
  exists c, rd m p = Some c /\ (c = 0 <-> p = n).
Proof.
  intros (l & z & -> & Hl & Hnz) Hp. destruct (Z.eq_dec p n) as [-> | Hne].
  - exists 0. rewrite (rd_app l 0) by done. done.
  - destruct (zlen_split_prefix l p) as (a & b & -> & Ha); [lia |].
    destruct b as [| c b]; [rewrite zlen_app, (@zlen_nil Z) in Hl; lia |].
    exists c. rewrite <- app_assoc. cbn [app]. rewrite (rd_app a c) by done. split; [done |].
    rewrite Forall_app, Forall_cons in Hnz. destruct Hnz as (_ & Hc & _). by split.
Qed.

Section safe.
Context (usable : Z -> Z) (junk : nat -> Z) (Hus : alloc_ok usable) (m : list Z) (n : Z).
Context (Hm : cstring m n) (Hn : n < 2 ^ 58).

Lemma rdm p : 0 <= p <= n -> exists c, rd m p = Some c /\ (c = 0 <-> p = n).
Proof. by apply cstring_rd. Qed.

(** A step before the terminator stays before it, and adds at most one character. *)
Definition step_fine (p : Z) (x : list Z) (r : tok_step) : Prop :=
  match r with
  | TokErr => True
  | TokGo p' q done s' => p <= p' < n /\ exists x', sds_rep s' x' /\ zlen x' <= zlen x + 1
  end.

Lemma add1_fine p s x p' q c : sds_rep s x -> zlen x < 2 ^ 59 -> p <= p' < n ->
  exists r, (current ← add1 usable junk s c; Some (TokGo p' q false current)) = Some r /\ step_fine p x r.
Proof.
  intros R Hx Hp. destruct (add1_rep usable junk Hus s x c R Hx) as (s' & -> & R').
  eexists. split; [reflexivity |]. split; [done |]. exists (x ++ [c]). split; [done | zlens].
Qed.

Lemma close_quote_fine p s x q : sds_rep s x -> 0 <= p < n ->
  exists r, close_quote m p q s = Some r /\ step_fine p x r.
Proof.
  intros R Hp. unfold close_quote. destruct (rdm (p + 1)) as (c1 & -> & _); [lia |]. cbn [mbind option_bind].
  case_if; eexists; (split; [reflexivity |]); [done |]. split; [lia |]. exists x. split; [done | lia].
Qed.

Lemma is_hex_digit_nz c : is_hex_digit c = true -> c <> 0.
Proof. intros H ->. done. Qed.

Lemma hex_escape_fine p c : 0 <= p < n -> exists b, hex_escape m p c = Some b /\ (b = true -> p + 3 < n).
Proof.
  intros Hp. unfold hex_escape. case_if; [| by eexists].
  destruct (rdm (p + 1)) as (c1 & -> & H1); [lia |]. cbn [mbind option_bind]. case_if; [| by eexists].
  destruct (rdm (p + 2)) as (c2 & -> & H2); [lia |]. cbn [mbind option_bind]. case_if; [| by eexists].
  apply is_hex_digit_nz in E. destruct (rdm (p + 3)) as (c3 & -> & H3); [lia |]. cbn [mbind option_bind].
  eexists. split; [reflexivity |]. intros E3. apply is_hex_digit_nz in E3. lia.
Qed.

Lemma step_inq_fine p c s x : sds_rep s x -> zlen x < 2 ^ 59 -> rd m p = Some c -> 0 <= p < n ->
  exists r, step_inq usable junk m p c s = Some r /\ step_fine p x r.
Proof.
  intros R Hx Hc Hp. unfold step_inq.
  destruct (hex_escape_fine p c Hp) as (b & -> & Hb). cbn [mbind option_bind]. destruct b.
  { specialize (Hb eq_refl). destruct (rdm (p + 2)) as (c2 & -> & _); [lia |]. cbn [mbind option_bind].
    destruct (rdm (p + 3)) as (c3 & -> & _); [lia |]. cbn [mbind option_bind]. apply add1_fine; [done | done | lia]. }
  destruct (rdm (p + 1)) as (c1 & Hc1 & H1); [lia |]. rewrite Hc1. cbn [mbind option_bind].
  assert (exists e, (if c =? 92 then Some (negb (c1 =? 0)) else Some false) = Some e /\ (e = true -> p + 1 < n)) as (e & -> & He).
  { case_if; eexists; (split; [reflexivity |]); intros E; lia. }
  cbn [mbind option_bind]. destruct e.
  { specialize (He eq_refl). apply add1_fine; [done | done | lia]. }
  repeat case_if; [by apply close_quote_fine | by eexists | apply add1_fine; [done | done | lia]].
Qed.

Lemma step_insq_fine p c s x : sds_rep s x -> zlen x < 2 ^ 59 -> rd m p = Some c -> 0 <= p < n ->
  exists r, step_insq usable junk m p c s = Some r /\ step_fine p x r.
Proof.
  intros R Hx Hc Hp. unfold step_insq.
  destruct (rdm (p + 1)) as (c1 & Hc1 & H1); [lia |]. rewrite Hc1. cbn [mbind option_bind].
  assert (exists e, (if c =? 92 then Some (c1 =? 39) else Some false) = Some e /\ (e = true -> p + 1 < n)) as (e & -> & He).
  { case_if; eexists; (split; [reflexivity |]); intros E; lia. }
  cbn [mbind option_bind]. destruct e.
  { specialize (He eq_refl). apply add1_fine; [done | done | lia]. }
  repeat case_if; [by apply close_quote_fine | by eexists | apply add1_fine; [done | done | lia]].
Qed.

Lemma step_unquoted_fine p c s x : sds_rep s x -> zlen x < 2 ^ 59 -> 0 <= p < n ->
  exists r, step_unquoted usable junk p c s = Some r /\ step_fine p x r.
Proof.
  intros R Hx Hp. unfold step_unquoted.
  repeat case_if; try (eexists; split; [reflexivity |]; split; [lia |]; exists x; split; [done | lia]).
  apply add1_fine; [done | done | lia].
Qed.

(** A token starting before the terminator ends after its start. *)
Lemma token_fine fuel p q s x : sds_rep s x -> zlen x <= p -> 0 <= p <= n -> n - p < Z.of_nat fuel ->
  exists r, splitargs_token usable junk fuel m p q s = Some r /\
    match r with
    | None => True
    | Some (p', s') => p <= p' <= n /\ (p < n -> p < p') /\ exists x', sds_rep s' x'
    end.
Proof.
  revert p q s x. induction fuel as [| fuel IH]; intros p q s x R Hx Hp Hf; [lia |].
  cbn [splitargs_token]. destruct (rdm p Hp) as (c & Hc & H0). rewrite Hc. cbn [mbind option_bind].
  destruct (Z.eq_dec p n) as [-> | Hne].
  - rewrite (proj2 H0 eq_refl) in *. destruct q.
    + cbn [step_unquoted orb Z.eqb mbind option_bind]. cbn. rewrite Hc. cbn [mbind option_bind Z.eqb negb].
      eexists. split; [reflexivity |]. split; [lia |]. split; [lia |]. by exists x.
    + unfold step_inq, hex_escape. cbn. by eexists.
    + unfold step_insq. cbn. by eexists.
  - assert (exists r, (match q with InQ => step_inq usable junk m p c s | InSQ => step_insq usable junk m p c s
      | Unquoted => step_unquoted usable junk p c s end) = Some r /\ step_fine p x r) as (r & -> & Hr).
    { destruct q; [apply step_unquoted_fine | apply step_inq_fine | apply step_insq_fine]; try done; lia. }
    cbn [mbind option_bind]. destruct r as [| p' q' fin s']; [by eexists |].
    destruct Hr as (Hp' & x' & R' & Hx'). destruct (rdm p') as (c' & -> & Hc'); [lia |]. cbn [mbind option_bind].
    rewrite (proj2 (Z.eqb_neq c' 0)) by lia. cbn [negb]. destruct fin.
    + eexists. split; [reflexivity |]. split; [lia |]. split; [lia |]. by exists x'.
    + destruct (IH (p' + 1) q' s' x' R') as (r & -> & Hr); [lia.. |]. exists r. split; [done |].
      destruct r as [[p'' s''] |]; [| done]. destruct Hr as (? & ? & ?). split; [lia |]. split; [lia | done].
Qed.

Lemma skip_fine fuel p : 0 <= p <= n -> n - p < Z.of_nat fuel ->
  exists p', skip_blanks fuel m p = Some p' /\ p <= p' <= n.
Proof.
  revert p. induction fuel as [| fuel IH]; intros p Hp Hf; [lia |]. cbn [skip_blanks].
  destruct (rdm p Hp) as (c & -> & H0). cbn [mbind option_bind].
  destruct (negb (c =? 0) && isspace c) eqn:E; [| exists p; split; [done | lia]].
  destruct (IH (p + 1)) as (p' & -> & H'); [lia.. |]. exists p'. split; [done | lia].
Qed.

Lemma splitargs_fine fuel p vec : 0 <= p <= n -> n - p < Z.of_nat fuel -> Forall (fun t => exists x, sds_rep t x) vec ->
  exists r, splitargs_loop usable junk fuel m p vec = Some r /\
    match r with None => True | Some toks => Forall (fun t => exists x, sds_rep t x) toks end.
Proof.
  assert (n < Z.of_nat (S (length m))) as Hlen.
  { destruct Hm as (l & z & -> & Hl & _). rewrite length_app. unfold zlen in Hl. lia. }
  revert p vec. induction fuel as [| fuel IH]; intros p vec Hp Hf Hvec; [lia |]. cbn [splitargs_loop].
  destruct (skip_fine (S (length m)) p Hp) as (p1 & E1 & Hp1); [lia |]. rewrite E1. cbn [mbind option_bind].
  destruct (rdm p1) as (c & -> & H0); [lia |]. cbn [mbind option_bind].
  destruct (Z.eqb_spec c 0) as [-> | Hc]; cbn [negb]; [by eexists |].
  destruct (empty_rep usable junk Hus) as (s & -> & R). cbn [mbind option_bind].
  destruct (token_fine (S (length m)) p1 Unquoted s [] R) as (r & E2 & Hr); [rewrite (@zlen_nil Z); lia | lia | lia |].
  rewrite E2. cbn [mbind option_bind]. destruct r as [[p' s'] |]; [| by eexists].
  destruct Hr as (H1 & H2 & H3). apply IH; [lia | lia |]. apply Forall_app. split; [done |]. by constructor.
Qed.
End safe.

Lemma split_safe usable junk (Hus : alloc_ok usable) m n : cstring m n -> n < 2 ^ 58 ->
  exists r, sdssplitargs usable junk m = Some r /\
    match r with None => True | Some toks => Forall (fun t => exists x, sds_rep t x) toks end.
Proof.
  intros Hm Hn. unfold sdssplitargs. apply (splitargs_fine usable junk Hus m n Hm Hn); [| | constructor];
    destruct Hm as (l & z & -> & <- & _); pose proof (zlen_nonneg l); rewrite ?length_app; unfold zlen in *; lia.
Qed.

(** C39: on any C string [sdssplitargs] returns - NULL or a vector of well formed
    strings - without reading past the terminator and without running out of
    steps, however the quotes and escapes are broken off. *)
Theorem sdssplitargs_safe usable junk (Hus : alloc_ok usable) m n : cstring m n -> n < 2 ^ 58 ->
  exists r, sdssplitargs usable junk m = Some r /\
    match r with None => True | Some toks => Forall (fun t => exists x, sds_rep t x) toks end.
Proof. by apply split_safe. Qed.

Lemma sdssplitargs_safe_witness : exists r, sdssplitargs round16 ex_junk (chars "foo \x4 'bar" ++ [0]) = Some r /\
    match r with None => True | Some toks => Forall (fun t => exists x, sds_rep t x) toks end.
Proof.
  apply (sdssplitargs_safe round16 ex_junk round16_ok _ 12); [| reflexivity].
  exists (chars "foo \x4 'bar"), []. split; [reflexivity |]. split; [reflexivity |].
  cbn. forall_lit ltac:(discriminate).
Defined.
