(* ===== verification/SdsSplit.v ===== *)
(** Splitting a string at a separator and joining it again: what the tokens of
    a string are, when tokens can be joined so that they can be split again,
    and that [sdssplitlen], [sdsjoin] and [sdsjoinsds] do that. *)
From S2P Require Import Prelude Strnum Sds SdsText SdsThms SdsTextThms.

(** [occurs_at sep l n]: the separator occurs in [l] at offset [n]. *)
Definition occurs_at (sep l : list Z) (n : Z) : Prop := exists a b, l = a ++ sep ++ b /\ zlen a = n.

(** The tokens of [l]: each one ends at the first separator of what is left. *)
Inductive splits (sep : list Z) : list Z -> list (list Z) -> Prop :=
| SpLast t : (forall n, ~ occurs_at sep t n) -> splits sep t [t]
| SpSep t l ts : (forall n, occurs_at sep (t ++ sep) n -> zlen t <= n) -> splits sep l ts ->
    splits sep (t ++ sep ++ l) (t :: ts).

(** Tokens that can be told apart once joined: the separator that follows a
    token is the first one in the token and the separator together, and there
    is none in the last token. *)
Fixpoint separable (sep : list Z) (ts : list (list Z)) : Prop :=
  match ts with
  | [] => False
  | [t] => forall n, ~ occurs_at sep t n
  | t :: ts => (forall n, occurs_at sep (t ++ sep) n -> zlen t <= n) /\ separable sep ts
  end.

(** No separator begins with a proper end of itself, as those of one byte. *)
Definition unbordered (sep : list Z) : Prop := forall u x y, sep = u ++ x -> sep = x ++ y -> x = [] \/ u = [].

(** The most tokens an array has room for: its slots are 5 times a power of two
    below 2^31, and there is one more than tokens when the last is stored. *)
Definition max_tokens : Z := 5 * 2 ^ 28.

Fixpoint join (sep : list Z) (ts : list (list Z)) : list Z :=
  match ts with
  | [] => []
  | [t] => t
  | t :: ts => t ++ sep ++ join sep ts
  end.

Lemma splits_nonempty sep l ts : splits sep l ts -> ts <> [].
Proof. by destruct 1. Qed.

Lemma splits_join sep l ts : splits sep l ts -> join sep ts = l.
Proof.
  induction 1 as [| t l ts _ Hs IH]; [done |]. pose proof (splits_nonempty _ _ _ Hs). cbn [join].
  destruct ts; [done |]. by rewrite IH.
Qed.

Lemma occurs_app_r sep t k n : occurs_at sep t n -> occurs_at sep (t ++ k) n.
Proof. intros (a & b & -> & Ha). exists a, (b ++ k). by rewrite <- !app_assoc. Qed.

(** An occurrence that ends inside the first part is one of the first part. *)
Lemma occurs_prefix sep t k n : occurs_at sep (t ++ k) n -> n + zlen sep <= zlen t -> occurs_at sep t n.
Proof.
  intros (a & b & E & Ha) Hle. destruct (zlen_split_prefix t (zlen a + zlen sep)) as (x & y & -> & Hx).
  { pose proof (zlen_nonneg a). pose proof (zlen_nonneg sep). lia. }
  rewrite <- app_assoc in E. rewrite (app_assoc a sep b) in E.
  apply app_inj_1 in E as [-> _]; [| rewrite length_app; unfold zlen in *; lia].
  exists a, y. by rewrite <- app_assoc.
Qed.

Lemma splits_unique sep l ts us : splits sep l ts -> splits sep l us -> ts = us.
Proof.
  intros H. revert us. induction H as [t Hno | t l ts Hf Hs IH]; intros us Hu; inversion Hu as [t' Hno' E1 E2 | t' l' us' Hf' Hs' E1 E2].
  - done.
  - subst. exfalso. apply (Hno (zlen t')). exists t', l'. done.
  - subst. exfalso. apply (Hno' (zlen t)). by exists t, l.
  - assert (zlen t = zlen t') as Hl.
    { assert (forall t l t' l', t' ++ sep ++ l' = t ++ sep ++ l ->
        (forall n, occurs_at sep (t ++ sep) n -> zlen t <= n) -> zlen t <= zlen t') as Haux.
      { clear. intros t l t' l' E Hf. destruct (Z.le_gt_cases (zlen t) (zlen t')) as [? | Hlt]; [done |].
        apply Hf. apply (occurs_prefix sep (t ++ sep) l); [rewrite <- app_assoc, <- E; by exists t', l' | zlens]. }
      pose proof (Haux _ _ _ _ E1 Hf). pose proof (Haux _ _ _ _ (eq_sym E1) Hf'). lia. }
    apply app_inj_1 in E1 as [-> E1]; [| unfold zlen in *; lia].
    apply app_inv_head in E1 as ->. f_equal. by apply IH.
Qed.

(** The first separator from [t] on, if there is one. *)
Lemma first_sep sep r t : sep <> [] -> (forall n, occurs_at sep (t ++ r) n -> zlen t <= n) ->
  (forall n, ~ occurs_at sep (t ++ r) n) \/
  exists t' r', t ++ r = t' ++ sep ++ r' /\ forall n, occurs_at sep (t' ++ sep) n -> zlen t' <= n.
Proof.
  intros Hsep. revert t. induction r as [| c r IH]; intros t Ht.
  - left. intros n Ho. pose proof (Ht n Ho). destruct Ho as (a & b & E & Ha). apply (f_equal zlen) in E.
    rewrite !zlen_app, (@zlen_nil Z) in E. pose proof (zlen_nonneg b). destruct sep; [done | rewrite zlen_cons in E; pose proof (zlen_nonneg sep); lia].
  - destruct (decide (sep `prefix_of` c :: r)) as [[k E] | Hno].
    + right. exists t, k. rewrite E. split; [done |]. intros n Ho. apply Ht. rewrite E, app_assoc. by apply occurs_app_r.
    + rewrite cons_middle, app_assoc. apply IH. intros n Ho. rewrite <- app_assoc in Ho. pose proof (Ht n Ho). rewrite zlen_app. change (zlen [c]) with 1.
      destruct (Z.eq_dec n (zlen t)) as [-> |]; [| lia]. exfalso. destruct Ho as (a & k & E & Ha).
      apply app_inj_1 in E as [_ E]; [| unfold zlen in Ha; lia]. apply Hno. by exists k.
Qed.

Lemma splits_total sep l : sep <> [] -> exists ts, splits sep l ts.
Proof.
  intros Hsep. induction l as [l IH] using (induction_ltof1 _ (@length Z)). unfold ltof in IH.
  destruct (first_sep sep l [] Hsep) as [Hno | (t & r & E & Hf)].
  - intros n (a & b & _ & <-). apply zlen_nonneg.
  - exists [l]. by constructor.
  - cbn [app] in E. subst l. destruct (IH r) as [ts Hs].
    { rewrite !length_app. destruct sep; [done |]. cbn [length]. lia. }
    exists (t :: ts). by constructor.
Qed.

Lemma splits_length sep l ts : sep <> [] -> splits sep l ts -> 1 <= zlen ts <= zlen l + 1.
Proof.
  intros Hsep. induction 1 as [t _ | t l ts _ _ IH]; [zl |]. assert (1 <= zlen sep) by (destruct sep; [done | zl]).
  pose proof (zlen_nonneg t). rewrite zlen_cons, !zlen_app. lia.
Qed.

(** After the first separator. *)
Lemma splits_tail sep t l us : sep <> [] -> (forall n, occurs_at sep (t ++ sep) n -> zlen t <= n) ->
  splits sep (t ++ sep ++ l) us -> exists vs, us = t :: vs /\ splits sep l vs.
Proof.
  intros Hsep Hf Hu. destruct (splits_total sep l Hsep) as [vs Hv]. exists vs. split; [| done].
  apply (splits_unique sep (t ++ sep ++ l)); [done | by constructor].
Qed.

Lemma separable_splits sep ts : separable sep ts -> splits sep (join sep ts) ts.
Proof.
  induction ts as [| t ts IH]; [done |]. destruct ts as [| u us]; [by constructor |].
  intros [Hf Hs]. change (join sep (t :: u :: us)) with (t ++ sep ++ join sep (u :: us)). constructor; [done | by apply IH].
Qed.

(** The separator does not overlap with the end of a token it does not occur in. *)
Lemma unbordered_first sep t n : unbordered sep -> (forall k, ~ occurs_at sep t k) -> occurs_at sep (t ++ sep) n -> zlen t <= n.
Proof.
  intros Hu Hno Ho. destruct (Z.le_gt_cases (zlen t) n) as [? | Hlt]; [done |]. exfalso.
  destruct (Z.le_gt_cases (n + zlen sep) (zlen t)) as [? | Hov]; [by eapply Hno, occurs_prefix |].
  destruct Ho as (a & b & E & <-). destruct (zlen_split_prefix t (zlen a)) as (a' & u & -> & Ha).
  { pose proof (zlen_nonneg a). lia. }
  rewrite <- app_assoc in E. apply app_inj_1 in E as [-> E]; [| unfold zlen in Ha; lia]. rewrite zlen_app in Hlt, Hov.
  destruct (zlen_split_prefix sep (zlen u)) as (u' & x & Es & Hx); [pose proof (zlen_nonneg u); lia |].
  assert (u' = u /\ sep = x ++ b) as [-> Eb].
  { rewrite Es in E at 2. rewrite <- app_assoc in E. apply app_inj_1 in E as [-> E]; [done | unfold zlen in Hx; lia]. }
  destruct (Hu u x b Es Eb) as [-> | ->]; [| rewrite (@zlen_nil Z) in *; lia].
  rewrite app_nil_r in Es. subst u. lia.
Qed.

Lemma unbordered_separable sep ts : unbordered sep -> ts <> [] -> Forall (fun t => forall n, ~ occurs_at sep t n) ts -> separable sep ts.
Proof.
  intros Hu Hne H. induction H as [| t ts Ht H IH]; [done |]. destruct H as [| u us Hu' H]; [exact Ht |].
  split; [| by apply IH]. intros n. by apply unbordered_first.
Qed.

Lemma unbordered_byte c : unbordered [c].
Proof. intros [| ? [| ]] x y E1 E2; [by right | left; by injection E1 | discriminate]. Qed.

Lemma memcmp_eq a b : length a = length b -> (memcmp a b =? 0) = true <-> a = b.
Proof.
  intros Hl. destruct (memcmp_split a b Hl) as [[-> ->] | (p & x & y & k & l & -> & -> & [[-> ?] | [-> ?]])]; [done | |];
    (split; [done |]; intros E; apply app_inv_head in E; injection E; lia).
Qed.

(** The slots of the array: no doubling passes 2^31 with [max_tokens] tokens at most. *)
Definition slots_ok (slots : Z) : Prop := exists k, 0 <= k <= 28 /\ slots = 5 * 2 ^ k.

Lemma slots_grow slots (vec : list sds) : slots_ok slots -> zlen vec < slots -> zlen vec + 1 < max_tokens ->
  exists sl2, (if slots <? i32 (zlen vec + 2) then Tokens (i32 (slots * 2)) vec else Tokens slots vec) = Tokens sl2 vec /\
    slots_ok sl2 /\ zlen vec + 1 < sl2.
Proof.
  intros (k & Hk & ->) Hv Hm. unfold max_tokens in Hm. pose proof (zlen_nonneg vec). rewrite i32_id by lia.
  destruct (Z.ltb_spec (5 * 2 ^ k) (zlen vec + 2)) as [Hlt |]; [| exists (5 * 2 ^ k); split; [done |]; split; [by exists k | lia]].
  assert (k < 28) as Hk'. { destruct (Z.eq_dec k 28) as [-> |]; lia. }
  assert (5 * 2 ^ k * 2 = 5 * 2 ^ (k + 1)) as E by (rewrite Z.pow_add_r by lia; lia).
  assert (2 ^ (k + 1) <= 2 ^ 28) as Hle by (apply Z.pow_le_mono_r; lia).
  rewrite E, i32_id by (pose proof (Z.pow_nonneg 2 (k + 1)); lia).
  exists (5 * 2 ^ (k + 1)). split; [done |]. split; [exists (k + 1); split; [lia | done] | lia].
Qed.

Section proofs.
Context (usable : Z -> Z) (junk : nat -> Z) (Hus : alloc_ok usable).

(** One separator test. *)
Lemma sep_test a r z sep : sep <> [] -> zlen sep <= zlen r ->
  exists (b : bool) c r', r = c :: r' /\ rd (a ++ r ++ z) (zlen a) = Some c /\
    (s0 ← rd sep 0;
     if (zlen sep =? 1) && (c =? s0) then Some true
     else bs ← rdn (a ++ r ++ z) (zlen a) (zlen sep); Some (memcmp bs sep =? 0)) = Some b /\
    (if b then exists r2, r = sep ++ r2 else forall r2, r <> sep ++ r2).
Proof.
  intros Hsep Hle. destruct sep as [| s0 sep']; [done |]. rewrite zlen_cons in *. pose proof (zlen_nonneg sep').
  destruct r as [| c r']; [rewrite (@zlen_nil Z) in Hle; lia |].
  assert (rd (s0 :: sep') 0 = Some s0) as -> by done. cbn [mbind option_bind].
  destruct (zlen_split_prefix (c :: r') (1 + zlen sep')) as (x & y & Ex & Hx); [lia |].
  assert (rdn (a ++ (c :: r') ++ z) (zlen a) (1 + zlen sep') = Some x) as -> by
    (rewrite Ex, <- app_assoc; by apply rdn_app).
  cbn [mbind option_bind].
  assert (length x = length (s0 :: sep')) as Hlx by (unfold zlen in *; cbn [length]; lia).
  destruct ((1 + zlen sep' =? 1) && (c =? s0)) eqn:E.
  - exists true, c, r'. split; [done |]. cbn [app]. split; [by apply rd_app |]. split; [by rewrite E |].
    apply andb_true_iff in E as [E1 E2]. apply Z.eqb_eq in E1, E2. subst c.
    rewrite (zlen_0 sep') by lia. by exists r'.
  - exists (memcmp x (s0 :: sep') =? 0), c, r'. split; [done |]. cbn [app]. split; [by apply rd_app |]. split; [by rewrite E |].
    destruct (memcmp x (s0 :: sep') =? 0) eqn:Em.
    + rewrite memcmp_eq in Em by done. subst x. by exists y.
    + intros r2 Er. rewrite Ex in Er. change (x ++ y = (s0 :: sep') ++ r2) in Er. apply app_inj_1 in Er as [-> _]; [| done].
      rewrite (proj2 (memcmp_eq _ _ eq_refl) eq_refl) in Em. done.
Qed.

Lemma split_loop_ok sep z fuel d t r slots vec us : sep <> [] -> zlen (d ++ t ++ r) < 2 ^ 60 ->
  (length r <= fuel)%nat -> zlen vec < slots -> slots_ok slots ->
  splits sep (t ++ r) us -> zlen vec + zlen us < max_tokens ->
  (forall n, occurs_at sep (t ++ r) n -> zlen t <= n) ->
  exists start' slots' toks ts last d',
    sdssplitlen_loop usable junk fuel (d ++ t ++ r ++ z) (zlen (d ++ t ++ r)) sep (zlen d + zlen t) (zlen d) (Tokens slots vec) =
      Some (start', Tokens slots' (vec ++ toks)) /\
    d ++ t ++ r = d' ++ last /\ start' = zlen d' /\ Forall2 sds_rep toks ts /\
    splits sep (t ++ r) (ts ++ [last]) /\ zlen (vec ++ toks) < slots'.
Proof.
  intros Hsep. assert (1 <= zlen sep) as Hs1 by (destruct sep; [done | zl]).
  revert d t r slots vec us. induction fuel as [fuel IH] using lt_wf_ind. intros d t r slots vec us Hlen Hf Hv Hsl Hus' Hmax Hocc.
  pose proof (splits_length sep _ _ Hsep Hus').
  pose proof (zlen_nonneg d). pose proof (zlen_nonneg t). pose proof (zlen_nonneg r). pose proof (zlen_nonneg vec).
  rewrite !zlen_app in *.
  destruct (Z.ltb_spec (zlen d + zlen t) (zlen d + (zlen t + zlen r) - (zlen sep - 1))) as [Hgo | Hstop].
  2: { exists (zlen d), slots, [], [], (t ++ r), d. rewrite app_nil_r.
       split; [destruct fuel; cbn [sdssplitlen_loop]; by rewrite (proj2 (Z.ltb_ge (zlen d + zlen t) _)) by lia |].
       split; [done |]. split; [done |]. split; [constructor |]. split; [| done]. constructor.
       intros n Ho. pose proof (Hocc n Ho). destruct Ho as (a & b & E & Ha). apply (f_equal zlen) in E.
       rewrite !zlen_app in E. pose proof (zlen_nonneg b). lia. }
  destruct fuel as [| fuel]; [unfold zlen in *; lia |]. cbn [sdssplitlen_loop].
  rewrite (proj2 (Z.ltb_lt (zlen d + zlen t) _)) by lia. cbn [tk_slots tk_elems].
  destruct (slots_grow slots vec Hsl Hv ltac:(lia)) as (sl2 & -> & Hsk & Hsl2).
  destruct (sep_test (d ++ t) r z sep Hsep ltac:(lia)) as (b & c & r' & Er & Hrd & Htest & Hb).
  rewrite zlen_app, <- app_assoc in Hrd, Htest. rewrite Hrd. cbn [mbind option_bind].
  destruct (rd sep 0) as [s0 |]; [| done]. cbn [mbind option_bind] in Htest |- *. rewrite Htest. cbn [mbind option_bind].
  destruct b.
  - destruct Hb as (r2 & ->). replace (zlen d + zlen t - zlen d) with (zlen t) by lia.
    rewrite (rdn_app d t) by done. cbn [mbind option_bind].
    destruct (newlen_all usable junk Hus t) as (e & Ee & Re); [lia |]. rewrite Ee. cbn [mbind option_bind].
    unfold tk_store. cbn [tk_slots tk_elems]. rewrite (proj2 (Z.ltb_lt (zlen vec) sl2)) by lia. cbn [assert_ mbind option_bind].
    rewrite !zlen_app in *. pose proof (zlen_nonneg r2).
    assert (forall n, occurs_at sep (t ++ sep) n -> zlen t <= n) as Hfirst.
    { intros n Ho. apply Hocc. rewrite app_assoc. by apply occurs_app_r. }
    destruct (splits_tail sep t r2 us Hsep Hfirst Hus') as (vs & -> & Hvs). rewrite zlen_cons in Hmax.
    destruct (IH fuel ltac:(lia) (d ++ t ++ sep) [] r2 sl2 (vec ++ [e]) vs) as
      (st & sl3 & toks & ts & last & d' & E & El & Est & Hto & Hsp & Hsl').
    { zlens. }
    { rewrite length_app in Hf. unfold zlen in Hs1. lia. }
    { rewrite zlen_app. change (zlen [e]) with 1. lia. }
    { done. }
    { done. }
    { rewrite zlen_app. change (zlen [e]) with 1. lia. }
    { intros n (a & k & _ & <-). rewrite (@zlen_nil Z). apply zlen_nonneg. }
    exists st, sl3, (e :: toks), (t :: ts), last, d'. rewrite !zlen_app in E. cbn [app] in E, El, Hsp.
    rewrite (@zlen_nil Z) in E. rewrite <- !app_assoc in E, El. cbn [app] in E. split.
    { rewrite <- (app_assoc sep). replace (vec ++ e :: toks) with ((vec ++ [e]) ++ toks) by (by rewrite <- app_assoc).
      rewrite <- E. f_equal; lia. }
    split; [done |]. split; [done |]. split; [by constructor |]. split.
    { cbn [app]. by constructor. }
    by rewrite <- app_assoc in Hsl'.
  - subst r. destruct (IH fuel ltac:(lia) d (t ++ [c]) r' sl2 vec us) as
      (st & sl3 & toks & ts & last & d' & E & El & Est & Hto & Hsp & Hsl').
    { rewrite !zlen_app, zlen_cons in *. rewrite (@zlen_nil Z). lia. }
    { cbn [length] in Hf. lia. }
    { lia. }
    { done. }
    { by rewrite <- app_assoc. }
    { done. }
    { intros n Ho. rewrite <- app_assoc in Ho. pose proof (Hocc n Ho) as Hge. rewrite zlen_app. change (zlen [c]) with 1.
      destruct (Z.eq_dec n (zlen t)) as [-> |]; [| lia]. exfalso. destruct Ho as (a & k & E & Ha).
      apply app_inj_1 in E as [_ E]; [| unfold zlen in Ha; lia]. by apply (Hb k). }
    exists st, sl3, toks, ts, last, d'. rewrite <- !app_assoc in E, El, Hsp. cbn [app] in E, El, Hsp.
    split; [| done]. rewrite !zlen_app in E. change (zlen [c]) with 1 in E.
    replace (zlen d + zlen t + 1) with (zlen d + (zlen t + 1)) by lia.
    rewrite zlen_cons, <- E. f_equal; lia.
Qed.

Lemma sdssplitlen_ok l z sep us : l <> [] -> sep <> [] -> zlen l < 2 ^ 60 -> splits sep l us -> zlen us < max_tokens ->
  exists toks, sdssplitlen usable junk (l ++ z) (zlen l) sep = Some (Some toks) /\ Forall2 sds_rep toks us.
Proof.
  intros Hl Hsep Hlen Hus' Hmax. assert (1 <= zlen sep) as Hs1 by (destruct sep; [done | zl]).
  assert (1 <= zlen l) as Hl1 by (destruct l; [done | zl]).
  destruct (split_loop_ok sep z (Z.to_nat (zlen l)) [] [] l 5 [] us) as (st & sl & toks & ts & last & d' & E & El & -> & Hto & Hsp & Hsl).
  - done.
  - done.
  - unfold zlen. lia.
  - done.
  - by exists 0.
  - done.
  - done.
  - intros n (a & k & _ & <-). apply zlen_nonneg.
  - cbn [app] in *. change (@zlen Z [] + @zlen Z []) with 0 in E. change (@zlen Z []) with 0 in E.
    unfold sdssplitlen. rewrite (proj2 (Z.ltb_ge (zlen sep) 1)), (proj2 (Z.leb_gt (zlen l) 0)) by lia. cbn [orb].
    rewrite E. cbn [mbind option_bind]. rewrite El, zlen_app, <- app_assoc.
    replace (zlen d' + zlen last - zlen d') with (zlen last) by lia. rewrite (rdn_app d' last) by done.
    cbn [mbind option_bind]. rewrite El, zlen_app in Hlen. pose proof (zlen_nonneg d').
    destruct (newlen_all usable junk Hus last) as (e & -> & Re); [lia |]. cbn [mbind option_bind].
    unfold tk_store. cbn [tk_slots tk_elems]. rewrite (proj2 (Z.ltb_lt (zlen toks) sl)) by done. cbn [assert_ mbind option_bind].
    rewrite (splits_unique _ _ _ _ Hus' Hsp). exists (toks ++ [e]). split; [done |].
    apply Forall2_app; [done |]. constructor; [done | constructor].
Qed.

(** * Joining *)

Lemma join_cons2 sep t u us : join sep (t :: u :: us) = t ++ sep ++ join sep (u :: us).
Proof. done. Qed.

Lemma joinsds_loop_ok sep toks ts s x : Forall2 sds_rep toks ts -> sds_rep s x ->
  zlen x + zlen (join sep ts) < 2 ^ 59 ->
  exists s', sdsjoinsds_loop usable junk s toks sep (zlen sep) = Some s' /\ sds_rep s' (x ++ join sep ts).
Proof.
  intros H. revert s x. induction H as [| tk t toks ts Rt H IH]; intros s x R Hx; cbn [sdsjoinsds_loop].
  { exists s. by rewrite app_nil_r. }
  pose proof (zlen_nonneg sep). pose proof (zlen_nonneg t). pose proof (zlen_nonneg x). pose proof (zlen_nonneg (join sep ts)).
  assert (zlen t <= zlen (join sep (t :: ts))) as Ht.
  { destruct ts; [cbn; lia | rewrite join_cons2, !zlen_app; lia]. }
  unfold sdscatsds. destruct (catlen_rep usable junk Hus s x (s_buf tk) t (sdslen tk) R (rep_rdn _ _ Rt)) as (s1 & E1 & R1).
  { unfold sdslen. rewrite (proj1 (proj2 Rt)). lia. }
  rewrite E1. cbn [mbind option_bind]. destruct H as [| tk' t' toks ts Rt' H].
  - cbn [mbind option_bind sdsjoinsds_loop]. by exists s1.
  - rewrite join_cons2, !zlen_app in Hx.
    destruct (cat_rep usable junk Hus s1 _ sep R1) as (s2 & E2 & R2); [zlens |]. rewrite E2. cbn [mbind option_bind].
    destruct (IH s2 _ R2) as (s3 & E3 & R3); [zlens |]. exists s3. split; [done |].
    revert R3. rewrite join_cons2. by rewrite <- !app_assoc.
Qed.

Lemma sdsjoin_loop_ok sep ts s x : sds_rep s x -> zlen x + zlen (join sep ts) < 2 ^ 59 ->
  exists s', sdsjoin_loop usable junk s ts sep = Some s' /\ sds_rep s' (x ++ join sep ts).
Proof.
  revert s x. induction ts as [| t ts IH]; intros s x R Hx; cbn [sdsjoin_loop].
  { exists s. by rewrite app_nil_r. }
  pose proof (zlen_nonneg sep). pose proof (zlen_nonneg t). pose proof (zlen_nonneg x). pose proof (zlen_nonneg (join sep ts)).
  assert (zlen t <= zlen (join sep (t :: ts))) as Ht.
  { destruct ts; [cbn; lia | rewrite join_cons2, !zlen_app; lia]. }
  unfold sdscat. destruct (cat_rep usable junk Hus s x t R) as (s1 & E1 & R1); [lia |].
  rewrite E1. cbn [mbind option_bind]. destruct ts as [| t' ts].
  - cbn [mbind option_bind sdsjoin_loop]. by exists s1.
  - rewrite join_cons2, !zlen_app in Hx.
    destruct (cat_rep usable junk Hus s1 _ sep R1) as (s2 & E2 & R2); [zlens |]. rewrite E2. cbn [mbind option_bind].
    destruct (IH s2 _ R2) as (s3 & E3 & R3); [zlens |]. exists s3. split; [done |].
    revert R3. rewrite join_cons2. by rewrite <- !app_assoc.
Qed.

(** Splitting a joined string. *)
Lemma resplit_ok sep ts s : sep <> [] -> separable sep ts -> join sep ts <> [] -> zlen (join sep ts) < 2 ^ 59 ->
  zlen ts < max_tokens -> sds_rep s (join sep ts) ->
  exists toks, sdssplitlen usable junk (s_buf s) (sdslen s) sep = Some (Some toks) /\ Forall2 sds_rep toks ts.
Proof.
  intros Hsep Hs Hne Hlen Hmax ((sl & Eb) & El & _). unfold sdslen. rewrite Eb, El.
  apply sdssplitlen_ok; [done | done | lia | by apply separable_splits | done].
Qed.
End proofs.

(** C40: a non-empty string is cut at the leftmost non-overlapping occurrences
    of a non-empty separator into tokens that this determines, and
    [sdssplitlen] returns them, always with room in its array, when there are
    fewer than 5 * 2^28 (from there on doubling the [int] slots can overflow);
    joining the tokens gives the string back.  Joining [separable] tokens and
    splitting the result gives the tokens back; tokens in which the separator
    does not occur are separable when the separator is [unbordered], as every
    single byte is (not so for [--]: the token [a-] is cut differently).  An
    empty string or separator is an error (NULL). *)
Theorem sds_split_join usable junk (Hus : alloc_ok usable) :
  (forall l z sep, l <> [] -> sep <> [] -> zlen l < 2 ^ 59 -> zlen sep < 2 ^ 31 ->
     exists ts, splits sep l ts /\ (forall us, splits sep l us -> us = ts) /\ zlen ts <= zlen l + 1 /\
       (zlen ts < max_tokens -> exists toks s,
         sdssplitlen usable junk (l ++ z) (zlen l) sep = Some (Some toks) /\ Forall2 sds_rep toks ts /\
         sdsjoinsds usable junk toks sep (zlen sep) = Some s /\ sds_rep s l)) /\
  (forall sep ts toks, sep <> [] -> zlen sep < 2 ^ 31 -> separable sep ts -> join sep ts <> [] ->
     zlen (join sep ts) < 2 ^ 59 -> zlen ts < max_tokens -> Forall2 sds_rep toks ts ->
     exists s toks', sdsjoinsds usable junk toks sep (zlen sep) = Some s /\ sds_rep s (join sep ts) /\
       sdssplitlen usable junk (s_buf s) (sdslen s) sep = Some (Some toks') /\ Forall2 sds_rep toks' ts) /\
  (forall sep ts, sep <> [] -> zlen sep < 2 ^ 31 -> separable sep ts -> join sep ts <> [] ->
     zlen (join sep ts) < 2 ^ 59 -> zlen ts < max_tokens -> Forall (fun x => x <> 0) (join sep ts) ->
     exists s toks, sdsjoin usable junk ts sep = Some s /\ sds_rep s (join sep ts) /\
       sdssplitlen usable junk (s_buf s) (sdslen s) sep = Some (Some toks) /\ Forall2 sds_rep toks ts) /\
  (forall sep ts, unbordered sep \/ zlen sep = 1 -> ts <> [] -> Forall (fun t => forall n, ~ occurs_at sep t n) ts -> separable sep ts) /\
  (forall l sep, l = [] \/ sep = [] -> sdssplitlen usable junk l (zlen l) sep = Some None).
Proof.
  destruct (empty_rep usable junk Hus) as (s0 & E0 & R0). split_and!.
  - intros l z sep Hl Hsep Hlen _. destruct (splits_total sep l Hsep) as [ts Hsp]. exists ts. split; [done |].
    split; [intros us Hus'; by eapply splits_unique |]. split; [by apply (splits_length sep) |]. intros Hmax.
    destruct (sdssplitlen_ok usable junk Hus l z sep ts Hl Hsep ltac:(lia) Hsp Hmax) as (toks & E & Hto).
    pose proof (splits_join _ _ _ Hsp) as Ej.
    destruct (joinsds_loop_ok usable junk Hus sep toks ts s0 [] Hto R0) as (s & E' & R); [by rewrite Ej |].
    rewrite Ej in R. exists toks, s. unfold sdsjoinsds. by rewrite E0.
  - intros sep ts toks Hsep _ Hs Hne Hlen Hmax Hto.
    destruct (joinsds_loop_ok usable junk Hus sep toks ts s0 [] Hto R0 Hlen) as (s & Ej & R).
    destruct (resplit_ok usable junk Hus sep ts s Hsep Hs Hne Hlen Hmax R) as (toks' & E & Hto').
    exists s, toks'. unfold sdsjoinsds. by rewrite E0.
  - intros sep ts Hsep _ Hs Hne Hlen Hmax _. destruct (sdsjoin_loop_ok usable junk Hus sep ts s0 [] R0 Hlen) as (s & Ej & R).
    destruct (resplit_ok usable junk Hus sep ts s Hsep Hs Hne Hlen Hmax R) as (toks & E & Hto).
    exists s, toks. unfold sdsjoin. by rewrite E0.
  - intros sep ts Hu. apply unbordered_separable. destruct Hu as [Hu | E1]; [done |].
    destruct sep as [| c [| d sep]]; [done | apply unbordered_byte | rewrite !zlen_cons in E1; pose proof (zlen_nonneg sep); lia].
  - intros l sep [-> | ->]; unfold sdssplitlen; [by rewrite orb_true_r | done].
Qed.

Example split_ex : match sdssplitlen round16 ex_junk (chars "a--b---c" ++ [0]) 8 (chars "--") with
  | Some (Some toks) => map (fun t => take (Z.to_nat (s_len t)) (s_buf t)) toks
  | _ => []
  end = [chars "a"; chars "b"; chars "-c"].
Proof. vm_compute. reflexivity. Qed.

(** The bound on the tokens is met, and so are the conditions of the converse. *)
Lemma sds_split_join_witness :
  (exists toks ts s, sdssplitlen round16 ex_junk (chars "a--b---c" ++ [0]) 8 (chars "--") = Some (Some toks) /\
    Forall2 sds_rep toks ts /\ splits (chars "--") (chars "a--b---c") ts /\
    sdsjoinsds round16 ex_junk toks (chars "--") 2 = Some s /\ sds_rep s (chars "a--b---c")) /\
  (exists s toks, sdsjoin round16 ex_junk [chars "x"; []; chars "yz"] (chars ",") = Some s /\ sds_rep s (chars "x,,yz") /\
    sdssplitlen round16 ex_junk (s_buf s) (sdslen s) (chars ",") = Some (Some toks) /\
    Forall2 sds_rep toks [chars "x"; []; chars "yz"]).
Proof.
  destruct (sds_split_join round16 ex_junk round16_ok) as (H & _ & H2 & H3 & _). split.
  - destruct (H (chars "a--b---c") [0] (chars "--")) as (ts & Hsp & _ & Hle & Hs); [discriminate | discriminate | reflexivity | reflexivity |].
    destruct Hs as (toks & s & E & Hto & Ej & R).
    { change (zlen (chars "a--b---c")) with 8 in Hle. unfold max_tokens. lia. }
    exists toks, ts, s. exact (conj E (conj Hto (conj Hsp (conj Ej R)))).
  - apply H2; [discriminate | reflexivity | | discriminate | reflexivity | reflexivity | repeat constructor; discriminate].
    apply H3; [by right | discriminate |]. repeat constructor; intros n (a & b & E & _); apply (f_equal (elem_of 44)) in E;
      (assert (44 ∈ a ++ chars "," ++ b) as Hin by (apply elem_of_app; right; left)); rewrite <- E in Hin; set_solver.
Defined.
