(* ===== verification/SdsFmt.v ===== *)
(** [sdstemplate] and [sdscatfmt]: templates and formats given by their parts
    expand to the concatenation of the parts' texts. *)
From S2P Require Import Prelude Strnum Sds SdsText SdsThms SdsTextThms.

Definition no_char (c : Z) (x : list Z) : Prop := Forall (fun b => b <> c) x.

Lemma strchr_from_found x c k n : no_char c x -> no_char 0 x -> strchr_from (x ++ c :: k) c n = Some (Some (n + zlen x)).
Proof.
  intros Hx. revert n. induction Hx as [| b x Hb Hx IH]; intros n H0; cbn [app strchr_from].
  - rewrite Z.eqb_refl, (@zlen_nil Z). do 2 f_equal. lia.
  - apply Forall_cons in H0 as [Hb0 H0]. rewrite (proj2 (Z.eqb_neq b c)), (proj2 (Z.eqb_neq b 0)) by done.
    rewrite IH by done. rewrite zlen_cons. do 2 f_equal. lia.
Qed.

Lemma strchr_from_none x c k n : c <> 0 -> no_char c x -> no_char 0 x -> strchr_from (x ++ 0 :: k) c n = Some None.
Proof.
  intros Hc Hx. revert n. induction Hx as [| b x Hb Hx IH]; intros n H0; cbn [app strchr_from].
  - by rewrite (proj2 (Z.eqb_neq 0 c)) by done.
  - apply Forall_cons in H0 as [Hb0 H0]. rewrite (proj2 (Z.eqb_neq b c)), (proj2 (Z.eqb_neq b 0)) by done. by rewrite IH.
Qed.

Lemma drop_zlen (a b : list Z) p : zlen a = p -> drop (Z.to_nat p) (a ++ b) = b.
Proof. intros <-. unfold zlen. by rewrite Nat2Z.id, drop_app_length. Qed.

Lemma strchr_found a x c k p : zlen a = p -> no_char c x -> no_char 0 x -> strchr (a ++ x ++ c :: k) p c = Some (Some (p + zlen x)).
Proof. intros Ha ? ?. unfold strchr. rewrite drop_zlen by done. by apply strchr_from_found. Qed.

Lemma strchr_none a x c k p : zlen a = p -> c <> 0 -> no_char c x -> no_char 0 x -> strchr (a ++ x ++ 0 :: k) p c = Some None.
Proof. intros Ha ? ? ?. unfold strchr. rewrite drop_zlen by done. by apply strchr_from_none. Qed.

Lemma take_while_all x : no_char 0 x -> take_while nonzero x = x.
Proof.
  induction 1 as [| b x Hb Hx IH]; [done |]. cbn [take_while]. unfold nonzero at 1.
  rewrite (proj2 (Z.eqb_neq b 0)) by done. cbn [negb]. by rewrite IH.
Qed.

Lemma strlen_at a x k p : zlen a = p -> no_char 0 x -> strlen (a ++ x ++ 0 :: k) p = Some (zlen x).
Proof. intros Ha Hx. unfold strlen. rewrite drop_zlen by done. rewrite strlen_ok, take_while_all by done. f_equal. Qed.

(** * Templates *)

(** A template: literal text before each hole, then a last literal. *)
Inductive hole := HBrace | HVar (name : list Z).
Definition segment : Type := list Z * hole.

Definition hole_text (h : hole) : list Z := match h with HBrace => [123; 123] | HVar n => 123 :: n ++ [125] end.
Fixpoint render (segs : list segment) (tail : list Z) : list Z :=
  match segs with
  | [] => tail
  | (x, h) :: segs => x ++ hole_text h ++ render segs tail
  end.

Definition lit_ok (x : list Z) : Prop := no_char 123 x /\ no_char 0 x.
Definition hole_ok (h : hole) : Prop :=
  match h with HBrace => True | HVar n => no_char 125 n /\ no_char 0 n /\ head n <> Some 123 end.
Definition segs_ok (segs : list segment) : Prop := Forall (fun s => lit_ok s.1 /\ hole_ok s.2) segs.

(** Its expansion, for a function from names to values. *)
Definition hole_value (cb : list Z -> option (list Z)) (h : hole) : option (list Z) :=
  match h with HBrace => Some [123] | HVar n => cb n end.
Fixpoint expand (cb : list Z -> option (list Z)) (segs : list segment) (tail : list Z) : option (list Z) :=
  match segs with
  | [] => Some tail
  | (x, h) :: segs =>
      match hole_value cb h, expand cb segs tail with
      | Some v, Some e => Some (x ++ v ++ e)
      | _, _ => None
      end
  end.

(** The callback computes [cb], in C strings. *)
Definition callback_ok (cb_func : sds -> option sds) (cb : list Z -> option (list Z)) : Prop :=
  forall s n, sds_rep s n -> match cb_func s with
    | Some v => exists w, cb n = Some w /\ sds_rep v w /\ no_char 0 w
    | None => cb n = None
    end.

(** The size of everything that may be appended. *)
Fixpoint expand_size (cb : list Z -> option (list Z)) (segs : list segment) (tail : list Z) : Z :=
  match segs with
  | [] => zlen tail
  | (x, h) :: segs => zlen x + zlen (default [] (hole_value cb h)) + zlen (hole_text h) + expand_size cb segs tail
  end.

Section template.
Context (usable : Z -> Z) (junk : nat -> Z) (Hus : alloc_ok usable).
Context (cb_func : sds -> option sds) (cb : list Z -> option (list Z)) (Hcb : callback_ok cb_func cb).

Lemma expand_size_nonneg segs tail : 0 <= expand_size cb segs tail.
Proof.
  induction segs as [| [x h] segs IH]; cbn [expand_size]; [apply zlen_nonneg |].
  pose proof (zlen_nonneg x). pose proof (zlen_nonneg (hole_text h)).
  pose proof (zlen_nonneg (default [] (hole_value cb h))). lia.
Qed.

Lemma cat_at_rep s e a x k p : sds_rep s e -> zlen a = p -> no_char 0 x -> zlen e + zlen x < 2 ^ 60 ->
  exists s', sdscat_at usable junk s (a ++ x ++ 0 :: k) p = Some s' /\ sds_rep s' (e ++ x).
Proof.
  intros R Ha Hx Hl. unfold sdscat_at. rewrite (strlen_at a x k p Ha Hx). cbn [mbind option_bind].
  rewrite drop_zlen by done. apply (catlen_rep usable junk Hus s e); [done | by apply rdn_hd | done].
Qed.

Lemma cat_lit_rep s e a x k p (pos : bool) : sds_rep s e -> zlen a = p -> zlen e + zlen x < 2 ^ 60 -> pos = (p <? p + zlen x) ->
  exists s', (if pos then sdscatlen usable junk s (drop (Z.to_nat p) (a ++ x ++ k)) (p + zlen x - p) else Some s) = Some s' /\
    sds_rep s' (e ++ x).
Proof.
  intros R Ha Hl ->. pose proof (zlen_nonneg x). destruct (Z.ltb_spec p (p + zlen x)).
  - rewrite drop_zlen by done. replace (p + zlen x - p) with (zlen x) by lia.
    apply (catlen_rep usable junk Hus s e); [done | by apply rdn_hd | done].
  - rewrite (zlen_0 x), app_nil_r by lia. by exists s.
Qed.

(** The text after the opening bracket. *)
Definition hole_rest (h : hole) : list Z := match h with HBrace => [123] | HVar n => n ++ [125] end.

Lemma hole_ok_step h b k s e : hole_ok h -> sds_rep s e ->
  zlen e + zlen (default [] (hole_value cb h)) + zlen (hole_text h) < 2 ^ 59 ->
  exists r, template_hole usable junk cb_func (b ++ hole_rest h ++ k) (zlen b) s = Some r /\
    match hole_value cb h, r with
    | Some v, Some (p, s') => p = zlen b + zlen (hole_rest h) /\ sds_rep s' (e ++ v)
    | None, None => True
    | _, _ => False
    end.
Proof.
  intros Hh R Hsz. unfold template_hole. destruct h as [| nm]; cbn [hole_value hole_rest hole_text default id app] in *.
  - rewrite (rd_app b 123) by done. cbn [mbind option_bind Z.eqb Pos.eqb]. unfold sdscat.
    change (zlen [123; 123]) with 2 in Hsz. change (zlen [123]) with 1 in Hsz.
    destruct (cat_rep usable junk Hus s e [123] R) as (s' & -> & R'); [change (zlen [123]) with 1; lia |].
    eexists. split; [reflexivity |]. by split.
  - destruct Hh as (Hn1 & Hn0 & Hhd). rewrite <- app_assoc. cbn [app].
    assert (exists c1, rd (b ++ nm ++ 125 :: k) (zlen b) = Some c1 /\ c1 <> 0 /\ c1 <> 123) as (c1 & -> & Hc10 & Hc1b).
    { destruct nm as [| c nm]; [exists 125; split; [by apply rd_app | done] |].
      exists c. split; [by apply rd_app |]. split; [by inversion Hn0 |]. intros ->. by apply Hhd. }
    cbn [mbind option_bind]. rewrite (proj2 (Z.eqb_neq c1 0)), (proj2 (Z.eqb_neq c1 123)) by done.
    rewrite strchr_found by done. cbn [mbind option_bind]. rewrite drop_zlen by done.
    replace (zlen b + zlen nm - zlen b) with (zlen nm) by lia.
    rewrite zlen_cons, zlen_app in Hsz. change (zlen [125]) with 1 in Hsz.
    pose proof (zlen_nonneg nm). pose proof (zlen_nonneg e). pose proof (zlen_nonneg (default [] (cb nm))).
    destruct (newlen_rep usable junk Hus (nm ++ 125 :: k) (zlen nm) nm) as (vn & En & Rn); [by apply rdn_hd | lia |].
    rewrite En. cbn [mbind option_bind]. pose proof (Hcb vn nm Rn) as Hv. destruct (cb_func vn) as [value |].
    + destruct Hv as (w & Ew & Rw & Hw0). rewrite Ew in *. cbn [default id] in Hsz. pose proof Rw as ((slv & Ebv) & _).
      rewrite Ebv. destruct (cat_at_rep s e [] w slv 0 R eq_refl Hw0) as (s2 & E2 & R2); [lia |].
      cbn [app] in E2. rewrite E2. eexists. split; [reflexivity |]. split; [| done]. zlens.
    + exists None. split; [done |]. by rewrite Hv.
Qed.

Lemma template_loop_ok segs tail a z res e fuel : segs_ok segs -> lit_ok tail -> sds_rep res e ->
  zlen e + expand_size cb segs tail < 2 ^ 59 -> (length segs < fuel)%nat ->
  exists r, sdstemplate_loop usable junk fuel cb_func (a ++ render segs tail ++ 0 :: z) (zlen a) res = Some r /\
    match expand cb segs tail, r with
    | Some x, Some s => sds_rep s (e ++ x)
    | None, None => True
    | _, _ => False
    end.
Proof.
  intros Hsegs Htail. revert a res e fuel. induction Hsegs as [| [x h] segs [[Hx1 Hx0] Hh] Hsegs IH];
    intros a res e fuel R Hsz Hf; (destruct fuel as [| fuel]; [cbn in Hf; lia |]).
  - destruct Htail as [Ht1 Ht0]. cbn [render expand expand_size sdstemplate_loop] in *. destruct tail as [| c tail].
    + cbn [app]. rewrite (rd_app a 0) by done. cbn [mbind option_bind Z.eqb]. eexists. split; [reflexivity |].
      by rewrite app_nil_r.
    + assert (rd (a ++ (c :: tail) ++ 0 :: z) (zlen a) = Some c) as -> by (by apply rd_app).
      cbn [mbind option_bind]. rewrite (proj2 (Z.eqb_neq c 0)) by (by inversion Ht0).
      rewrite strchr_none by done. cbn [mbind option_bind].
      destruct (cat_at_rep res e a (c :: tail) z (zlen a) R eq_refl Ht0) as (s & -> & Rs); [lia |].
      eexists. by split.
  - cbn [fst snd] in *. cbn [render expand expand_size] in *.
    pose proof (zlen_nonneg x). pose proof (expand_size_nonneg segs tail). pose proof (zlen_nonneg e).
    assert (0 <= zlen (default [] (hole_value cb h))) by apply zlen_nonneg. assert (0 <= zlen (hole_text h)) by apply zlen_nonneg.
    set (rest := render segs tail) in *.
    assert (hole_text h = 123 :: hole_rest h) as Ey by (by destruct h).
    assert (a ++ (x ++ hole_text h ++ rest) ++ 0 :: z = a ++ x ++ 123 :: hole_rest h ++ rest ++ 0 :: z) as ->
      by (rewrite Ey; by rewrite <- !app_assoc).
    assert (exists c0, rd (a ++ x ++ 123 :: hole_rest h ++ rest ++ 0 :: z) (zlen a) = Some c0 /\ c0 <> 0) as (c0 & Hc0 & Hne0).
    { destruct x as [| c x]; [exists 123; split; [by apply rd_app | done] |].
      exists c. split; [by apply rd_app | by inversion Hx0]. }
    cbn [sdstemplate_loop]. rewrite Hc0. cbn [mbind option_bind]. rewrite (proj2 (Z.eqb_neq c0 0)) by done.
    rewrite (strchr_found a x 123) by done. cbn [mbind option_bind].
    destruct (cat_lit_rep res e a x (123 :: hole_rest h ++ rest ++ 0 :: z) (zlen a) _ R eq_refl ltac:(lia) eq_refl) as (s1 & E1 & R1).
    rewrite E1. cbn [mbind option_bind].
    assert (a ++ x ++ 123 :: hole_rest h ++ rest ++ 0 :: z = ((a ++ x) ++ [123]) ++ hole_rest h ++ rest ++ 0 :: z) as ->
      by (by rewrite <- !app_assoc).
    assert (zlen a + zlen x + 1 = zlen ((a ++ x) ++ [123])) as -> by zlens.
    destruct (hole_ok_step h ((a ++ x) ++ [123]) (rest ++ 0 :: z) s1 (e ++ x) Hh R1) as (r1 & -> & Hr1); [zlens |].
    cbn [mbind option_bind]. destruct (hole_value cb h) as [v |], r1 as [[p s2] |]; try done.
    2: { by exists None. }
    destruct Hr1 as [-> R2]. cbn [default id] in *. rewrite <- zlen_app, app_assoc.
    destruct (IH (((a ++ x) ++ [123]) ++ hole_rest h) s2 _ fuel R2) as (r & Er & Hr); [zlens | cbn in Hf; lia |].
    exists r. split; [exact Er |]. destruct (expand cb segs tail), r; try done. by rewrite <- !app_assoc in Hr.
Qed.
End template.

(** * Formats *)

(** A format by its parts: a character for itself, a percent sign with a
    character that is no specifier (it stands for that character), and a
    specifier with its argument. *)
Inductive fmt_part := FLit (c : Z) | FPct (c : Z) | FSpec (next : Z) (a : fmt_arg).

Definition part_text (p : fmt_part) : list Z :=
  match p with FLit c => [c] | FPct c => [37; c] | FSpec n _ => [37; n] end.
Definition part_args (p : fmt_part) : list fmt_arg := match p with FSpec _ a => [a] | _ => [] end.
Definition fmt_text (ps : list fmt_part) : list Z := concat (map part_text ps).
Definition fmt_args (ps : list fmt_part) : list fmt_arg := concat (map part_args ps).

(** What an argument prints as. *)
Definition arg_text (next : Z) (a : fmt_arg) (x : list Z) : Prop :=
  match a with
  | ArgStr m => next = 115 /\ no_char 0 x /\ exists k, m = x ++ 0 :: k
  | ArgSds s => next = 83 /\ sds_rep s x
  | ArgInt v => next = 105 /\ - 2 ^ 31 <= v < 2 ^ 31 /\ x = sdec v
  | ArgLongLong v => next = 73 /\ is_i64 v /\ x = sdec v
  | ArgUInt v => next = 117 /\ 0 <= v < 2 ^ 32 /\ x = udec v
  | ArgULongLong v => next = 85 /\ is_u64 v /\ x = udec v
  end.

Definition part_out (p : fmt_part) (x : list Z) : Prop :=
  match p with
  | FLit c => c <> 37 /\ c <> 0 /\ x = [c]
  | FPct c => is_fmt_spec c = false /\ c <> 0 /\ x = [c]
  | FSpec n a => arg_text n a x
  end.

Lemma ll_bytes v : is_i64 v ->
  exists m, ll2string (repeat 0 (Z.to_nat LONG_STR_SIZE)) LONG_STR_SIZE v = Some (m, zlen (sdec v)) /\ rdn m 0 (zlen (sdec v)) = Some (sdec v).
Proof.
  intros Hv. pose proof (ll2string_spec (repeat 0 (Z.to_nat LONG_STR_SIZE)) LONG_STR_SIZE v Hv ltac:(done)) as Hll.
  rewrite sdigits10_spec in Hll by done.
  assert (zlen (sdec v) < LONG_STR_SIZE) as Hd.
  { unfold sdec, is_i64, LONG_STR_SIZE in *. case_if; rewrite ?zlen_cons;
      [pose proof (udec_length_le (- v) 19) | pose proof (udec_length_le v 19)]; lia. }
  rewrite (proj2 (Z.ltb_lt _ _) Hd) in Hll. destruct Hll as (r & E & _). eexists. split; [exact E | by apply rdn_hd].
Qed.

Lemma ull_bytes v : is_u64 v ->
  exists m, ull2string (repeat 0 (Z.to_nat LONG_STR_SIZE)) LONG_STR_SIZE v = Some (m, zlen (udec v)) /\ rdn m 0 (zlen (udec v)) = Some (udec v).
Proof.
  intros Hv. pose proof (ull2string_spec (repeat 0 (Z.to_nat LONG_STR_SIZE)) LONG_STR_SIZE v Hv ltac:(done)) as Hll.
  rewrite digits10_spec in Hll by done.
  assert (zlen (udec v) < LONG_STR_SIZE) as Hd.
  { unfold is_u64, LONG_STR_SIZE in *. pose proof (udec_length_le v 20). lia. }
  rewrite (proj2 (Z.ltb_lt _ _) Hd) in Hll. destruct Hll as (r & E & _). eexists. split; [exact E | by apply rdn_hd].
Qed.

Lemma fmt_bytes_ok n a x : arg_text n a x ->
  is_fmt_spec n = true /\ n <> 0 /\ exists m, fmt_bytes n a = Some (m, zlen x) /\ rdn m 0 (zlen x) = Some x.
Proof.
  destruct a as [m | s | v | v | v | v]; cbn [arg_text].
  - intros (-> & Hx & k & ->). split; [done |]. split; [done |]. exists (x ++ 0 :: k). split; [| by apply rdn_hd].
    unfold fmt_bytes. cbn [Z.eqb Pos.eqb]. change (x ++ 0 :: k) with ([] ++ x ++ 0 :: k). by rewrite (strlen_at [] x k 0).
  - intros (-> & R). split; [done |]. split; [done |]. exists (s_buf s). split.
    + unfold fmt_bytes. cbn [Z.eqb Pos.eqb]. unfold sdslen. by rewrite (proj1 (proj2 R)).
    + pose proof (rep_rdn s x R) as E. unfold sdslen in E. by rewrite (proj1 (proj2 R)) in E.
  - intros (-> & Hv & ->). split; [done |]. split; [done |]. apply (ll_bytes v). unfold is_i64. lia.
  - intros (-> & Hv & ->). split; [done |]. split; [done |]. by apply (ll_bytes v).
  - intros (-> & Hv & ->). split; [done |]. split; [done |]. apply (ull_bytes v). unfold is_u64. lia.
  - intros (-> & Hv & ->). split; [done |]. split; [done |]. by apply (ull_bytes v).
Qed.

Section catfmt.
Context (usable : Z -> Z) (junk : nat -> Z) (Hus : alloc_ok usable).

(** In the middle of the loop the byte after the contents is whatever was there. *)
Definition holds (s : sds) (c : list Z) : Prop := exists z, sds_hold z s c.

Lemma ensure_room s c n : holds s c -> 0 <= n -> zlen c + n < 2 ^ 60 ->
  exists s', (if sdsavail s <? n then sdsMakeRoomFor usable junk s n else Some s) = Some s' /\
    holds s' c /\ room s' (zlen c + n).
Proof.
  intros [z R] Hn Hl. case_if.
  - destruct (makeroom_hold usable junk Hus z s c n true R) as (s' & E & R' & Hr & _); [done.. |].
    exists s'. split; [done |]. split; [by exists z | done].
  - exists s. split; [done |]. split; [by exists z |]. eapply rep_room; [exact R |].
    destruct (avail_rep s c n R); [lia | | done]. pose proof R as (_ & _ & ? & _). lia.
Qed.

Lemma ensure_one s c : holds s c -> zlen c + 1 < 2 ^ 60 ->
  exists s', (if sdsavail s =? 0 then sdsMakeRoomFor usable junk s 1 else Some s) = Some s' /\
    holds s' c /\ room s' (zlen c + 1).
Proof.
  intros R Hl. destruct (ensure_room s c 1 R ltac:(lia) Hl) as (s' & E & H). exists s'. split; [| done].
  rewrite <- E. assert (0 <= sdsavail s) by (unfold sdsavail, u64; destruct (s_type s); dm).
  destruct (Z.eqb_spec (sdsavail s) 0), (Z.ltb_spec (sdsavail s) 1); done || lia.
Qed.

Lemma put_hold s c bs : holds s c -> room s (zlen c + zlen bs) ->
  exists s1, sds_wr s (zlen c) bs = Some s1 /\ holds (sdsinclen s1 (zlen bs)) (c ++ bs).
Proof.
  intros [z R] Hr. pose proof R as ((sl & Eb) & El & _). pose proof (zlen_nonneg bs). pose proof (zlen_nonneg c).
  pose proof Hr as (H1 & H2 & _). rewrite Eb, zlen_app in H1.
  destruct (zlen_split_prefix (z :: sl) (zlen bs)) as (y & w & Ey & Hy); [lia |].
  destruct w as [| z' w]; [rewrite Ey, app_nil_r in H1; lia |].
  rewrite (sds_wr_eq s (zlen c) bs (c ++ bs ++ z' :: w)) by (rewrite Eb, Ey; by apply wrn_app).
  eexists. split; [reflexivity |]. exists z'. unfold sdsinclen, sdssetlen. cbn [s_type s_len s_alloc s_buf].
  rewrite El, hdr_store_id, app_assoc by lia. apply rep_of_room; [by rewrite zlen_app |].
  unfold room in *. cbn [s_type s_len s_alloc s_buf].
  assert (zlen ((c ++ bs) ++ z' :: w) = zlen (s_buf s)) as -> by (rewrite Eb, Ey; zlens). done.
Qed.

Lemma fmt_put_hold s c b : holds s c -> room s (zlen c + 1) ->
  exists s1, fmt_put s (zlen c) b = Some s1 /\ holds s1 (c ++ [b]).
Proof.
  intros R Hr. destruct (put_hold s c [b] R Hr) as (s1 & E1 & R1). unfold fmt_put. rewrite E1. eauto.
Qed.

(** The loop over the rest of a format; a percent sign at the very end is dropped. *)
Lemma catfmt_loop_ok ps xs (trailing : bool) a z s c fuel : Forall2 part_out ps xs -> holds s c ->
  zlen c + zlen (concat xs) < 2 ^ 59 -> (length (fmt_text ps) + 1 < fuel)%nat ->
  exists s', sdscatfmt_loop usable junk fuel (a ++ fmt_text ps ++ (if trailing then [37] else []) ++ 0 :: z) (zlen a)
      (zlen c) (fmt_args ps) s = Some (s', zlen (c ++ concat xs)) /\ holds s' (c ++ concat xs).
Proof.
  intros H. revert a s c fuel. induction H as [| p x ps xs Hp H IH]; intros a s c fuel R Hl Hf;
    (destruct fuel as [| fuel]; [cbn in Hf; lia |]).
  - cbn [fmt_text fmt_args map concat app]. rewrite app_nil_r. cbn [map concat] in Hl. rewrite (@zlen_nil Z) in Hl.
    cbn [sdscatfmt_loop]. destruct trailing; cbn [app].
    + rewrite (rd_app a 37 _ (zlen a)) by done. cbn [mbind option_bind Z.eqb]. destruct (ensure_one s c R ltac:(lia)) as (s1 & -> & R1 & _).
      cbn [mbind option_bind Z.eqb Pos.eqb]. rewrite (rd_at a (37 :: 0 :: z) (zlen a) 1 0) by done. cbn [mbind option_bind Z.eqb].
      destruct fuel as [| fuel]; [cbn in Hf; lia |]. cbn [sdscatfmt_loop].
      rewrite (rd_at a (37 :: 0 :: z) (zlen a) 1 0) by done. cbn [mbind option_bind Z.eqb]. eauto.
    + rewrite (rd_app a 0 _ (zlen a)) by done. cbn [mbind option_bind Z.eqb]. eauto.
  - unfold fmt_text, fmt_args in *. cbn [map concat] in *. rewrite zlen_app in Hl. rewrite length_app in Hf.
    pose proof (zlen_nonneg c). pose proof (zlen_nonneg x). pose proof (zlen_nonneg (concat xs)).
    set (rest := concat (map part_text ps)) in *. set (rargs := concat (map part_args ps)) in *.
    set (m := a ++ (part_text p ++ rest) ++ (if trailing then [37] else []) ++ 0 :: z).
    assert (forall s1, holds s1 (c ++ x) -> exists s', sdscatfmt_loop usable junk fuel m (zlen a + zlen (part_text p))
      (zlen c + zlen x) rargs s1 = Some (s', zlen (c ++ x ++ concat xs)) /\ holds s' (c ++ x ++ concat xs)) as Hgo.
    { intros s1 R1. destruct (IH (a ++ part_text p) s1 (c ++ x) fuel R1) as (s' & E' & R'); [zlens | destruct p; cbn in Hf |- *; lia |].
      exists s'. rewrite !zlen_app, <- !app_assoc in E'. rewrite <- app_assoc in R'. split; [| done].
      unfold m. rewrite !zlen_app, <- !app_assoc. rewrite E'. do 2 f_equal. lia. }
    assert (1 <= zlen x \/ exists n b, p = FSpec n b) as Hx1 by
      (destruct p; [left; destruct Hp as (_ & _ & ->); done | left; destruct Hp as (_ & _ & ->); done | right; eauto]).
    destruct p as [ch | ch | n b]; cbn [part_text part_args app] in *.
    + destruct Hp as (Hc1 & Hc2 & ->). cbn [sdscatfmt_loop]. assert (rd m (zlen a) = Some ch) as -> by (unfold m; by apply rd_app). cbn [mbind option_bind].
      rewrite (proj2 (Z.eqb_neq ch 0)) by done. destruct (ensure_one s c R) as (s1 & -> & R1 & Hr1); [change (zlen [ch]) with 1 in *; lia |].
      cbn [mbind option_bind]. rewrite (proj2 (Z.eqb_neq ch 37)) by done.
      destruct (fmt_put_hold s1 c ch R1 Hr1) as (s2 & -> & R2). cbn [mbind option_bind]. apply (Hgo s2 R2).
    + destruct Hp as (Hc1 & Hc2 & ->). cbn [sdscatfmt_loop]. assert (rd m (zlen a) = Some 37) as -> by (unfold m; by apply rd_app). cbn [mbind option_bind Z.eqb].
      destruct (ensure_one s c R) as (s1 & -> & R1 & Hr1); [change (zlen [ch]) with 1 in *; lia |].
      cbn [mbind option_bind Z.eqb Pos.eqb].
      assert (rd m (zlen a + 1) = Some ch) as -> by (unfold m; by apply rd_at).
      cbn [mbind option_bind]. rewrite (proj2 (Z.eqb_neq ch 0)), Hc1 by done.
      destruct (fmt_put_hold s1 c ch R1 Hr1) as (s2 & -> & R2). cbn [mbind option_bind]. apply (Hgo s2 R2).
    + destruct (fmt_bytes_ok n b x Hp) as (Hn & Hn0 & mm & Emm & Erd).
      cbn [sdscatfmt_loop]. assert (rd m (zlen a) = Some 37) as -> by (unfold m; by apply rd_app). cbn [mbind option_bind Z.eqb].
      destruct (ensure_one s c R) as (s1 & -> & R1 & Hr1); [lia |]. cbn [mbind option_bind Z.eqb Pos.eqb].
      assert (rd m (zlen a + 1) = Some n) as -> by (unfold m; by apply rd_at).
      cbn [mbind option_bind]. rewrite (proj2 (Z.eqb_neq n 0)), Hn, Emm by done. cbn [mbind option_bind].
      destruct (ensure_room s1 c (zlen x) R1) as (s2 & -> & R2 & Hr2); [lia.. |]. cbn [mbind option_bind]. rewrite Erd.
      cbn [mbind option_bind]. destruct (put_hold s2 c x R2 Hr2) as (s3 & -> & R3). cbn [mbind option_bind]. apply (Hgo _ R3).
Qed.

Lemma fmt_text_no0 ps xs (trailing : bool) : Forall2 part_out ps xs -> no_char 0 (fmt_text ps ++ (if trailing then [37] else [])).
Proof.
  intros H. unfold no_char. apply Forall_app. split; [| destruct trailing; [by constructor | constructor]].
  induction H as [| p x ps xs Hp H IH]; [constructor |]. unfold fmt_text. cbn [map concat]. apply Forall_app. split; [| exact IH].
  destruct p as [c | c | n b]; cbn [part_text part_out] in *.
  - destruct Hp as (_ & ? & _). by constructor.
  - destruct Hp as (_ & ? & _). by repeat constructor.
  - apply fmt_bytes_ok in Hp as (_ & ? & _). by repeat constructor.
Qed.

Lemma holds_end s c : holds s c -> exists s', sds_wr s (zlen c) [0] = Some s' /\ sds_rep s' c.
Proof.
  intros [z R]. pose proof R as ((sl & Eb) & El & Hal & _). pose proof (rep_room s c (zlen c) R ltac:(lia)) as Hr.
  destruct (end_rep s c (z :: sl) Eb Hr) as (b & E & _ & R'). rewrite El in E. eauto.
Qed.

Lemma sdscatfmt_rep ps xs (trailing : bool) z s c : Forall2 part_out ps xs -> sds_rep s c ->
  zlen c + zlen (concat xs) < 2 ^ 59 -> zlen c + 2 * (zlen (fmt_text ps) + 1) < 2 ^ 59 ->
  exists s', sdscatfmt usable junk s (fmt_text ps ++ (if trailing then [37] else []) ++ 0 :: z) (fmt_args ps) = Some s' /\
    sds_rep s' (c ++ concat xs).
Proof.
  intros H R Hl Hl2. pose proof (zlen_nonneg c). pose proof (fmt_text_no0 ps xs trailing H) as Hz0.
  set (t := if trailing then [37] else []) in *.
  assert (0 <= zlen (fmt_text ps ++ t) <= zlen (fmt_text ps) + 1) as Ht.
  { split; [apply zlen_nonneg |]. rewrite zlen_app. unfold t. destruct trailing; [by change (zlen [37]) with 1 |].
    rewrite (@zlen_nil Z). lia. }
  unfold sdscatfmt. rewrite app_assoc.
  pose proof (strlen_at [] (fmt_text ps ++ t) z 0 eq_refl Hz0) as Es. cbn [app] in Es. rewrite Es. cbn [mbind option_bind].
  rewrite u64_id by (unfold is_u64; lia). unfold sdsMakeRoomFor, sdslen.
  destruct (makeroom_rep usable junk Hus s c (zlen (fmt_text ps ++ t) * 2) true R) as (s1 & -> & R1 & _); [lia.. |].
  cbn [mbind option_bind]. rewrite (proj1 (proj2 R)). rewrite <- app_assoc.
  destruct (catfmt_loop_ok ps xs trailing [] z s1 c (S (length (fmt_text ps ++ t ++ 0 :: z))) H) as (s2 & E2 & R2).
  - by exists 0.
  - done.
  - rewrite !length_app. cbn. lia.
  - cbn [app] in E2. rewrite (@zlen_nil Z) in E2. fold t in E2. rewrite E2. cbn [mbind option_bind]. by apply holds_end.
Qed.
End catfmt.

(** [sdstemplate] on a template of literals, quoted brackets and variables
    returns the text with every variable replaced by its value and every
    quoted bracket by one bracket, or NULL when a variable has no value; it
    fails on a bracket that is never closed. *)
Theorem sdstemplate_correct usable junk (Hus : alloc_ok usable) cb_func cb (Hcb : callback_ok cb_func cb) :
  (forall segs tail z, segs_ok segs -> lit_ok tail -> expand_size cb segs tail < 2 ^ 59 ->
     exists r, sdstemplate usable junk (render segs tail ++ 0 :: z) cb_func = Some r /\
       match expand cb segs tail, r with
       | Some x, Some s => sds_rep s x
       | None, None => True
       | _, _ => False
       end) /\
  (forall x n z, lit_ok x -> no_char 125 n -> no_char 0 n -> head n <> Some 123 -> zlen x < 2 ^ 59 ->
     sdstemplate usable junk (x ++ 123 :: n ++ 0 :: z) cb_func = Some None).
Proof.
  split.
  - intros segs tail z Hs Ht Hl. destruct (empty_rep usable junk Hus) as (s0 & E0 & R0).
    unfold sdstemplate. rewrite E0. cbn [mbind option_bind].
    destruct (template_loop_ok usable junk Hus cb_func cb Hcb segs tail [] z s0 [] (S (length (render segs tail ++ 0 :: z))) Hs Ht R0)
      as (r & E & Hr); [done | | by exists r].
    rewrite length_app. clear. induction segs as [| [x h] segs IH]; cbn [render length]; [lia |].
    rewrite !length_app. destruct h; cbn [hole_text length] in *; lia.
  - intros x n z Hx Hn1 Hn0 Hhd Hl. destruct (empty_rep usable junk Hus) as (s0 & E0 & R0).
    unfold sdstemplate. rewrite E0. cbn [mbind option_bind sdstemplate_loop].
    assert (exists c, rd (x ++ 123 :: n ++ 0 :: z) 0 = Some c /\ c <> 0) as (c & -> & Hc).
    { destruct Hx as [_ Hx0]. destruct x as [| c x]; [by exists 123 |]. exists c. split; [done | by inversion Hx0]. }
    cbn [mbind option_bind]. rewrite (proj2 (Z.eqb_neq c 0)) by done. destruct Hx as [Hx1 Hx0].
    rewrite (strchr_found [] x 123 (n ++ 0 :: z) 0 eq_refl Hx1 Hx0 : strchr (x ++ 123 :: n ++ 0 :: z) 0 123 = _).
    cbn [mbind option_bind].
    destruct (cat_lit_rep usable junk Hus s0 [] [] x (123 :: n ++ 0 :: z) 0 (0 <? 0 + zlen x) R0 eq_refl) as (s1 & E1 & R1);
      [rewrite (@zlen_nil Z); lia | reflexivity |].
    cbn [app] in E1. rewrite E1. cbn [mbind option_bind]. unfold template_hole.
    assert (x ++ 123 :: n ++ 0 :: z = (x ++ [123]) ++ n ++ 0 :: z) as -> by (by rewrite <- app_assoc).
    assert (0 + zlen x + 1 = zlen (x ++ [123])) as -> by zlens.
    destruct n as [| c1 n]; cbn [app]; [by rewrite (rd_app _ 0) |]. rewrite (rd_app _ c1) by done. cbn [mbind option_bind].
    rewrite (proj2 (Z.eqb_neq c1 0)) by (by inversion Hn0). rewrite (proj2 (Z.eqb_neq c1 123)) by (intros ->; by apply Hhd).
    change (c1 :: n ++ 0 :: z) with ((c1 :: n) ++ 0 :: z). by rewrite strchr_none.
Qed.

(** [sdscatfmt] appends, for every format made of characters, percent
    escapes and the specifiers s S i I u U with matching arguments, the
    characters, C strings, sds contents and canonical decimal numbers in
    order; a lone percent sign at the end is dropped. *)
Theorem sdscatfmt_correct usable junk (Hus : alloc_ok usable) ps xs (trailing : bool) z s c :
  Forall2 part_out ps xs -> sds_rep s c ->
  zlen c + zlen (concat xs) < 2 ^ 59 -> zlen c + 2 * (zlen (fmt_text ps) + 1) < 2 ^ 59 ->
  exists s', sdscatfmt usable junk s (fmt_text ps ++ (if trailing then [37] else []) ++ 0 :: z) (fmt_args ps) = Some s' /\
    sds_rep s' (c ++ concat xs).
Proof. by apply sdscatfmt_rep. Qed.

(** * At concrete inputs *)

Definition ex_cb (n : list Z) : option (list Z) := if bool_decide (n = chars "pid") then Some (chars "42") else None.
Definition ex_cb_func (s : sds) : option sds :=
  if bool_decide (take (Z.to_nat (s_len s)) (s_buf s) = chars "pid") then Some (Sds SDS_TYPE_5 2 0 (chars "42" ++ [0])) else None.

Lemma ex_callback_ok : callback_ok ex_cb_func ex_cb.
Proof.
  intros s n ((sl & Eb) & El & _). unfold ex_cb_func, ex_cb. rewrite El, Eb. unfold zlen. rewrite Nat2Z.id, take_app_length.
  case_bool_decide; [| done]. exists (chars "42"). split; [done |]. split.
  - split; [by exists [] |]. split; [done |]. split; [vm_compute; discriminate |]. split; vm_compute; discriminate.
  - cbn. forall_lit ltac:(discriminate).
Qed.

Definition ex_segs : list segment := [(chars "redis-", HVar (chars "pid")); (chars " ", HBrace)].

Example template_text : render ex_segs (chars "x}") = chars "redis-{pid} {{x}".
Proof. reflexivity. Qed.

Lemma sdstemplate_correct_witness :
  exists s, sdstemplate round16 ex_junk (chars "redis-{pid} {{x}" ++ [0]) ex_cb_func = Some (Some s) /\
    sds_rep s (chars "redis-42 {x}").
Proof.
  destruct (sdstemplate_correct round16 ex_junk round16_ok ex_cb_func ex_cb ex_callback_ok) as (H & _).
  destruct (H ex_segs (chars "x}") []) as (r & E & Hr).
  - constructor; [| constructor; [| constructor]]; cbn; unfold lit_ok, no_char; cbn;
      (split; [split; forall_lit ltac:(discriminate) |]);
      [split; [| split]; [forall_lit ltac:(discriminate) | forall_lit ltac:(discriminate) | discriminate] | exact I].
  - unfold lit_ok, no_char; cbn. split; forall_lit ltac:(discriminate).
  - vm_compute. reflexivity.
  - destruct r as [s |]; [| destruct Hr]. exists s. split; [exact E | exact Hr].
Defined.

Definition ex_fmt : list fmt_part :=
  [FSpec 115 (ArgStr (chars "key" ++ [0; 9])); FLit 61; FSpec 73 (ArgLongLong LLONG_MIN); FPct 37; FSpec 117 (ArgUInt 7)].

Example fmt_text_ex : fmt_text ex_fmt = chars "%s=%I%%%u".
Proof. reflexivity. Qed.

Lemma sdscatfmt_correct_witness :
  exists s', sdscatfmt round16 ex_junk ex_sds (chars "%s=%I%%%u%" ++ [0]) (fmt_args ex_fmt) = Some s' /\
    sds_rep s' (chars " Hikey=-9223372036854775808%7").
Proof.
  apply (sdscatfmt_correct round16 ex_junk round16_ok ex_fmt
    [chars "key"; [61]; sdec LLONG_MIN; [37]; udec 7] true [] ex_sds [32; 72; 105]).
  - unfold ex_fmt. constructor; [split; [reflexivity |]; split; [cbn; forall_lit ltac:(discriminate) | by exists [9]] |].
    constructor; [split; [discriminate | split; [discriminate | reflexivity]] |].
    constructor; [split; [reflexivity | split; [vm_compute; split; discriminate | reflexivity]] |].
    constructor; [split; [reflexivity | split; [discriminate | reflexivity]] |].
    constructor; [split; [reflexivity | split; [split; [discriminate | reflexivity] | reflexivity]] | constructor].
  - exact ex_sds_rep.
  - vm_compute. reflexivity.
  - vm_compute. reflexivity.
Defined.
