(* ===== verification/Dict.v ===== *)
(** dict.c, dict.h: hash tables with chaining and incremental rehashing.

    A [dictEntry *] is a tagged pointer: NULL, a key stored directly in the
    bucket, an entry without value, or an entry; [dictEntry] has these four
    cases, with what the pointer leads to.  A place in the dictionary (what the
    C code keeps in a [dictEntry *] or [dictEntry **] variable to write
    through) is a table, a bucket and a depth in the chain.  The functions of
    the dictionary's type and the process wide [dict_can_resize] are
    arguments.  [None] is a failed [assert] or an access outside a table;
    allocation does not fail. *)
From S2P Require Import Prelude.

Inductive dictResizeEnable := DICT_RESIZE_ENABLE | DICT_RESIZE_AVOID | DICT_RESIZE_FORBID.
#[global] Instance dictResizeEnable_eq_dec : EqDecision dictResizeEnable.
Proof. solve_decision. Defined.

Definition dict_force_resize_ratio : Z := 5.
Definition DICT_HT_INITIAL_EXP : Z := 2.
Definition DICT_HT_INITIAL_SIZE : Z := Z.shiftl 1 DICT_HT_INITIAL_EXP.
Definition LONG_MAX : Z := 9223372036854775807.

(** [keyCompare] includes the test of the two pointers; [key_is_odd] is the
    least significant bit of a key pointer.  [expandAllowed] is given the load
    ratio as numerator and denominator. *)
Record dictType (K V : Type) := DictType {
  hashFunction : K -> Z;
  keyDup : K -> K;
  valDup : V -> V;
  keyCompare : K -> K -> bool;
  expandAllowed : Z -> Z -> Z -> bool;
  no_value : bool;
  keys_are_odd : bool;
  key_is_odd : K -> bool;
  entryMetasize : Z }.
Arguments hashFunction {K V}. Arguments keyDup {K V}. Arguments valDup {K V}. Arguments keyCompare {K V}.
Arguments expandAllowed {K V}. Arguments no_value {K V}. Arguments keys_are_odd {K V}. Arguments key_is_odd {K V}.
Arguments entryMetasize {K V}.

Section dict.
Context {K V : Type}.
Implicit Types (k : K) (v : V).

(** * Entries *)

Inductive dictEntry :=
| Null
| EKey (key : K)
| ENoValue (key : K) (next : dictEntry)
| ENormal (key : K) (val : option V) (next : dictEntry).

Definition isNull (de : dictEntry) : bool := match de with Null => true | _ => false end.
Definition entryIsKey (de : dictEntry) : bool := match de with EKey _ => true | _ => false end.
Definition entryIsNoValue (de : dictEntry) : bool := match de with ENoValue _ _ => true | _ => false end.
Definition entryHasValue (de : dictEntry) : bool := match de with ENormal _ _ _ => true | _ => false end.

Definition dictGetKey (de : dictEntry) : option K :=
  match de with Null => None | EKey k | ENoValue k _ | ENormal k _ _ => Some k end.
Definition dictGetVal (de : dictEntry) : option (option V) :=
  match de with ENormal _ val _ => Some val | _ => None end.
Definition dictGetNext (de : dictEntry) : dictEntry :=
  match de with Null | EKey _ => Null | ENoValue _ next | ENormal _ _ next => next end.
Definition dictSetNext (de next : dictEntry) : option dictEntry :=
  match de with
  | Null | EKey _ => None
  | ENoValue k _ => Some (ENoValue k next)
  | ENormal k val _ => Some (ENormal k val next)
  end.
Definition createEntryNoValue (k : K) (next : dictEntry) : dictEntry := ENoValue k next.

(** * Tables and dictionaries *)

Definition DICTHT_SIZE (exp : Z) : Z := if exp =? -1 then 0 else u64 (Z.shiftl 1 exp).
Definition DICTHT_SIZE_MASK (exp : Z) : Z := if exp =? -1 then 0 else DICTHT_SIZE exp - 1.

Record ht := HT { ht_table : option (list dictEntry); ht_size_exp : Z; ht_used : Z }.
Record dict := Dict { ht0 : ht; ht1 : ht; rehashidx : Z; pauserehash : Z }.

Definition ht_of (d : dict) (table : bool) : ht := if table then ht1 d else ht0 d.
Definition set_ht (d : dict) (table : bool) (h : ht) : dict :=
  if table then Dict (ht0 d) h (rehashidx d) (pauserehash d) else Dict h (ht1 d) (rehashidx d) (pauserehash d).

Definition bucket (h : ht) (idx : Z) : option dictEntry :=
  tab ← ht_table h; tab !! Z.to_nat idx.
Definition set_bucket (h : ht) (idx : Z) (de : dictEntry) : option ht :=
  tab ← ht_table h;
  _ ← tab !! Z.to_nat idx;
  Some (HT (Some (<[Z.to_nat idx := de]> tab)) (ht_size_exp h) (ht_used h)).
Definition add_used (h : ht) (n : Z) : ht := HT (ht_table h) (ht_size_exp h) (u64 (ht_used h + n)).

Definition dictSize (d : dict) : Z := u64 (ht_used (ht0 d) + ht_used (ht1 d)).
Definition dictIsRehashing (d : dict) : bool := negb (rehashidx d =? -1).
Definition dictPauseRehashing (d : dict) : dict := Dict (ht0 d) (ht1 d) (rehashidx d) (pauserehash d + 1).
Definition dictResumeRehashing (d : dict) : dict := Dict (ht0 d) (ht1 d) (rehashidx d) (pauserehash d - 1).

Definition ht_reset : ht := HT None (-1) 0.
Definition dictCreate : dict := Dict ht_reset ht_reset (-1) 0.

(** * Sizes *)

(** [8*sizeof(long) - __builtin_clzl(n)] is the bit length of [n]. *)
Definition _dictNextExp (size : Z) : Z :=
  if size <=? DICT_HT_INITIAL_SIZE then DICT_HT_INITIAL_EXP
  else if LONG_MAX <=? size then 63
  else Z.log2 (size - 1) + 1.

(** The boolean is false when the expansion was skipped (DICT_ERR). *)
Definition dictExpand (d : dict) (size : Z) : dict * bool :=
  if dictIsRehashing d || (size <? ht_used (ht0 d)) then (d, false)
  else
    let new_ht_size_exp := _dictNextExp size in
    let newsize := u64 (Z.shiftl 1 new_ht_size_exp) in
    if (newsize <? size) || (u64 (newsize * 8) <? newsize) then (d, false)
    else if new_ht_size_exp =? ht_size_exp (ht0 d) then (d, false)
    else
      let h := HT (Some (repeat Null (Z.to_nat newsize))) new_ht_size_exp 0 in
      match ht_table (ht0 d) with
      | None => (Dict h (ht1 d) (rehashidx d) (pauserehash d), true)
      | Some _ => (Dict (ht0 d) h 0 (pauserehash d), true)
      end.

Definition dictResize (resize : dictResizeEnable) (d : dict) : dict * bool :=
  if negb (bool_decide (resize = DICT_RESIZE_ENABLE)) || dictIsRehashing d then (d, false)
  else
    let minimal := ht_used (ht0 d) in
    let minimal := if minimal <? DICT_HT_INITIAL_SIZE then DICT_HT_INITIAL_SIZE else minimal in
    dictExpand d minimal.

Section typed.
Context (t : dictType K V) (resize : dictResizeEnable).

Definition dictTypeExpandAllowed (d : dict) : bool :=
  expandAllowed t (u64 (DICTHT_SIZE (_dictNextExp (u64 (ht_used (ht0 d) + 1))) * 8))
    (ht_used (ht0 d)) (DICTHT_SIZE (ht_size_exp (ht0 d))).

Definition _dictExpandIfNeeded (d : dict) : dict * bool :=
  if dictIsRehashing d then (d, true)
  else if DICTHT_SIZE (ht_size_exp (ht0 d)) =? 0 then dictExpand d DICT_HT_INITIAL_SIZE
  else
    let size := DICTHT_SIZE (ht_size_exp (ht0 d)) in
    let used := ht_used (ht0 d) in
    if (bool_decide (resize = DICT_RESIZE_ENABLE) && (size <=? used)) ||
       (negb (bool_decide (resize = DICT_RESIZE_FORBID)) && (dict_force_resize_ratio <? used / size))
    then if negb (dictTypeExpandAllowed d) then (d, true) else dictExpand d (u64 (used + 1))
    else (d, true).

(** * Incremental rehashing *)

(** Move the chain at [de] to the new table. *)
Fixpoint rehash_chain (h0 h1 : ht) (rehashidx : Z) (de : dictEntry) : option (ht * ht) :=
  match de with
  | Null => Some (h0, h1)
  | EKey key | ENoValue key _ | ENormal key _ _ =>
      let nextde := dictGetNext de in
      let h := if ht_size_exp h0 <? ht_size_exp h1 then Z.land (hashFunction t key) (DICTHT_SIZE_MASK (ht_size_exp h1))
               else Z.land rehashidx (DICTHT_SIZE_MASK (ht_size_exp h1)) in
      b ← bucket h1 h;
      de' ← (if no_value t then
               if keys_are_odd t && isNull b then _ ← assert_ (key_is_odd t key); Some (EKey key)
               else if entryIsKey de then Some (createEntryNoValue key b)
               else _ ← assert_ (entryIsNoValue de); dictSetNext de b
             else dictSetNext de b);
      h1 ← set_bucket h1 h de';
      match de with
      | ENoValue _ nextde | ENormal _ _ nextde => rehash_chain (add_used h0 (-1)) (add_used h1 1) rehashidx nextde
      | _ => Some (add_used h0 (-1), add_used h1 1)
      end
  end.

(** Skip empty buckets; the last component is true when the budget is spent. *)
Fixpoint rehash_skip (fuel : nat) (h0 : ht) (rehashidx empty_visits : Z) : option (Z * Z * bool) :=
  match fuel with
  | O => None
  | S fuel =>
      b ← bucket h0 rehashidx;
      if isNull b then
        if empty_visits - 1 =? 0 then Some (rehashidx + 1, 0, true)
        else rehash_skip fuel h0 (rehashidx + 1) (empty_visits - 1)
      else Some (rehashidx, empty_visits, false)
  end.

Fixpoint rehash_loop (n : nat) (d : dict) (empty_visits : Z) : option (dict * bool) :=
  match n with
  | O => Some (d, false)
  | S n =>
      if negb (ht_used (ht0 d) =? 0) then
        _ ← assert_ (rehashidx d <? DICTHT_SIZE (ht_size_exp (ht0 d)));
        '(idx, empty_visits, stop) ← rehash_skip (S (Z.to_nat (DICTHT_SIZE (ht_size_exp (ht0 d))))) (ht0 d) (rehashidx d) empty_visits;
        if (stop : bool) then Some (Dict (ht0 d) (ht1 d) idx (pauserehash d), true)
        else
          de ← bucket (ht0 d) idx;
          '(h0, h1) ← rehash_chain (ht0 d) (ht1 d) idx de;
          h0 ← set_bucket h0 idx Null;
          rehash_loop n (Dict h0 h1 (idx + 1) (pauserehash d)) empty_visits
      else Some (d, false)
  end.

(** The boolean is the C result: there is more to rehash. *)
Definition dictRehash (d : dict) (n : nat) : option (dict * bool) :=
  let empty_visits := Z.of_nat n * 10 in
  let s0 := DICTHT_SIZE (ht_size_exp (ht0 d)) in
  let s1 := DICTHT_SIZE (ht_size_exp (ht1 d)) in
  if bool_decide (resize = DICT_RESIZE_FORBID) || negb (dictIsRehashing d) then Some (d, false)
  else if bool_decide (resize = DICT_RESIZE_AVOID) &&
          (((s0 <? s1) && (s1 / s0 <? dict_force_resize_ratio)) || ((s1 <? s0) && (s0 / s1 <? dict_force_resize_ratio)))
  then Some (d, false)
  else
    '(d, stop) ← rehash_loop n d empty_visits;
    if (stop : bool) then Some (d, true)
    else if ht_used (ht0 d) =? 0 then Some (Dict (ht1 d) ht_reset (-1) (pauserehash d), false)
    else Some (d, true).

Definition _dictRehashStep (d : dict) : option dict :=
  if pauserehash d =? 0 then '(d, _) ← dictRehash d 1; Some d else Some d.

(** The loop of [dictRehashMilliseconds]: [late i] is the outcome of the [i]-th
    reading of the clock. *)
Fixpoint rehash_ms_loop (fuel : nat) (late : nat -> bool) (i : nat) (d : dict) (rehashes : Z) : option (dict * Z) :=
  match fuel with
  | O => None
  | S fuel =>
      '(d, more) ← dictRehash d 100;
      if (more : bool) then
        let rehashes := rehashes + 100 in
        if late i then Some (d, rehashes) else rehash_ms_loop fuel late (S i) d rehashes
      else Some (d, rehashes)
  end.
Definition dictRehashMilliseconds (fuel : nat) (late : nat -> bool) (d : dict) : option (dict * Z) :=
  if 0 <? pauserehash d then Some (d, 0) else rehash_ms_loop fuel late 0 d 0.

(** * Lookup *)

(** A place: the table, the bucket, and the depth of the entry in its chain. *)
Record place := Place { pl_table : bool; pl_idx : Z; pl_depth : nat }.

Fixpoint chain_find (he : dictEntry) (key : K) : option nat :=
  match he with
  | Null => None
  | EKey k => if keyCompare t key k then Some O else None
  | ENoValue k next | ENormal k _ next => if keyCompare t key k then Some O else S <$> chain_find next key
  end.

Definition find_table (d : dict) (table : bool) (key : K) : option (option place) :=
  let idx := Z.land (hashFunction t key) (DICTHT_SIZE_MASK (ht_size_exp (ht_of d table))) in
  he ← bucket (ht_of d table) idx;
  Some (Place table idx <$> chain_find he key).

(** The loop over the two tables. *)
Definition find_tables (d : dict) (key : K) : option (option place) :=
  r ← find_table d false key;
  match r with
  | Some p => Some (Some p)
  | None => if dictIsRehashing d then find_table d true key else Some None
  end.

Definition dictFind (d : dict) (key : K) : option (dict * option place) :=
  if dictSize d =? 0 then Some (d, None)
  else
    d ← (if dictIsRehashing d then _dictRehashStep d else Some d);
    r ← find_tables d key;
    Some (d, r).

(** The entry at a place. *)
Fixpoint chain_at (he : dictEntry) (n : nat) : option dictEntry :=
  match n with
  | O => if isNull he then None else Some he
  | S n => chain_at (dictGetNext he) n
  end.
Definition entry_at (d : dict) (p : place) : option dictEntry :=
  he ← bucket (ht_of d (pl_table p)) (pl_idx p); chain_at he (pl_depth p).

Definition dictFetchValue (d : dict) (key : K) : option (dict * option (option V)) :=
  '(d, he) ← dictFind d key;
  match he with
  | Some p => e ← entry_at d p; val ← dictGetVal e; Some (d, Some val)
  | None => Some (d, None)
  end.

(** * Insertion *)

(** The bucket for a new key, or the place of the existing one; [Some (d, None)]
    when the table could not be expanded. *)
Inductive position := PosNew (table : bool) (idx : Z) | PosExisting (p : place) | PosError.

Definition dictFindPositionForInsert (d : dict) (key : K) : option (dict * position) :=
  d ← (if dictIsRehashing d then _dictRehashStep d else Some d);
  let '(d, ok) := _dictExpandIfNeeded d in
  if negb ok then Some (d, PosError)
  else
    r ← find_tables d key;
    Some (d, match r with
             | Some p => PosExisting p
             | None =>
                 let table := dictIsRehashing d in
                 PosNew table (Z.land (hashFunction t key) (DICTHT_SIZE_MASK (ht_size_exp (ht_of d table))))
             end).

Definition dictInsertAtPosition (d : dict) (key : K) (table : bool) (idx : Z) : option (dict * place) :=
  let htidx := dictIsRehashing d in
  _ ← assert_ (eqb htidx table && (0 <=? idx) && (idx <=? DICTHT_SIZE_MASK (ht_size_exp (ht_of d htidx))));
  b ← bucket (ht_of d htidx) idx;
  entry ← (if no_value t then
             _ ← assert_ (entryMetasize t =? 0);
             if keys_are_odd t && isNull b then _ ← assert_ (key_is_odd t key); Some (EKey key)
             else Some (createEntryNoValue key b)
           else Some (ENormal key None b));
  h ← set_bucket (ht_of d htidx) idx entry;
  Some (set_ht d htidx (add_used h 1), Place htidx idx 0).

(** The new place, or the existing one. *)
Inductive add_result := Added (p : place) | Existing (p : place) | AddError.

Definition dictAddRaw (d : dict) (key : K) : option (dict * add_result) :=
  '(d, pos) ← dictFindPositionForInsert d key;
  match pos with
  | PosNew table idx => '(d, p) ← dictInsertAtPosition d (keyDup t key) table idx; Some (d, Added p)
  | PosExisting p => Some (d, Existing p)
  | PosError => Some (d, AddError)
  end.

Fixpoint chain_update (he : dictEntry) (n : nat) (f : dictEntry -> option dictEntry) : option dictEntry :=
  match n with
  | O => f he
  | S n => next ← chain_update (dictGetNext he) n f; dictSetNext he next
  end.
Definition update_at (d : dict) (p : place) (f : dictEntry -> option dictEntry) : option dict :=
  he ← bucket (ht_of d (pl_table p)) (pl_idx p);
  he ← chain_update he (pl_depth p) f;
  h ← set_bucket (ht_of d (pl_table p)) (pl_idx p) he;
  Some (set_ht d (pl_table p) h).

Definition dictSetVal (d : dict) (p : place) (v : V) : option dict :=
  update_at d p (fun de => match de with ENormal k _ next => Some (ENormal k (Some (valDup t v)) next) | _ => None end).

Definition dictSetKey (d : dict) (p : place) (key : K) : option dict :=
  _ ← assert_ (negb (no_value t));
  update_at d p (fun de => match de with ENormal _ v next => Some (ENormal (keyDup t key) v next) | _ => None end).

(** DICT_OK is true. *)
Definition dictAdd (d : dict) (key : K) (v : V) : option (dict * bool) :=
  '(d, r) ← dictAddRaw d key;
  match r with
  | Added p => d ← (if negb (no_value t) then dictSetVal d p v else Some d); Some (d, true)
  | _ => Some (d, false)
  end.

Definition dictReplace (d : dict) (key : K) (v : V) : option (dict * bool) :=
  '(d, r) ← dictAddRaw d key;
  match r with
  | Added p => d ← dictSetVal d p v; Some (d, true)
  | Existing p => d ← dictSetVal d p v; Some (d, false)
  | AddError => None
  end.

Definition dictAddOrFind (d : dict) (key : K) : option (dict * option place) :=
  '(d, r) ← dictAddRaw d key;
  Some (d, match r with Added p | Existing p => Some p | AddError => None end).

(** * Deletion *)

Definition unlink (d : dict) (p : place) : option dict :=
  d ← update_at d p (fun de => if isNull de then None else Some (dictGetNext de));
  Some (set_ht d (pl_table p) (add_used (ht_of d (pl_table p)) (-1))).

(** The entry unlinked, or NULL. *)
Definition dictGenericDelete (d : dict) (key : K) : option (dict * option dictEntry) :=
  if dictSize d =? 0 then Some (d, None)
  else
    d ← (if dictIsRehashing d then _dictRehashStep d else Some d);
    r ← find_tables d key;
    match r with
    | Some p => he ← entry_at d p; d ← unlink d p; Some (d, Some he)
    | None => Some (d, None)
    end.

Definition dictDelete (d : dict) (key : K) : option (dict * bool) :=
  '(d, he) ← dictGenericDelete d key; Some (d, match he with Some _ => true | None => false end).
Definition dictUnlink (d : dict) (key : K) : option (dict * option dictEntry) := dictGenericDelete d key.

Definition dictTwoPhaseUnlinkFind (d : dict) (key : K) : option (dict * option place) :=
  if dictSize d =? 0 then Some (d, None)
  else
    d ← (if dictIsRehashing d then _dictRehashStep d else Some d);
    r ← find_tables d key;
    Some (match r with Some p => (dictPauseRehashing d, Some p) | None => (d, None) end).
Definition dictTwoPhaseUnlinkFree (d : dict) (plink : option place) : option dict :=
  match plink with
  | None => Some d
  | Some p => d ← unlink d p; Some (dictResumeRehashing d)
  end.

Definition dictEmpty (d : dict) : dict := Dict ht_reset ht_reset (-1) 0.
End typed.
End dict.

Arguments dictEntry : clear implicits.
Arguments ht : clear implicits.
Arguments dict : clear implicits.
