(* ===== verification/DictInv.v ===== *)
(** dict.c: what a well formed dictionary is, and the elementary steps
    (buckets, chains, the two tables) against its list of elements. *)
From S2P Require Import Prelude Dict.

(** What a dictionary's type promises. *)
Class DictTypeOk {K V} (t : dictType K V) : Prop := {
  hash_range k : 0 <= hashFunction t k < 2 ^ 64;
  compare_refl k : keyCompare t k k = true;
  compare_sym k1 k2 : keyCompare t k1 k2 = true -> keyCompare t k2 k1 = true;
  compare_trans k1 k2 k3 : keyCompare t k1 k2 = true -> keyCompare t k2 k3 = true -> keyCompare t k1 k3 = true;
  compare_hash k1 k2 : keyCompare t k1 k2 = true -> hashFunction t k1 = hashFunction t k2;
  dup_same k : keyCompare t (keyDup t k) k = true;
  keys_odd : keys_are_odd t = true -> forall k, key_is_odd t k = true;
  no_metadata : no_value t = true -> entryMetasize t = 0 }.

(** The elements of a chain, of a table, of a dictionary. *)
Fixpoint entries {K V} (de : dictEntry K V) : list (K * option V) :=
  match de with
  | Null => []
  | EKey k => [(k, None)]
  | ENoValue k next => (k, None) :: entries next
  | ENormal k v next => (k, v) :: entries next
  end.
Definition tab_elems {K V} (tab : list (dictEntry K V)) : list (K * option V) := concat (map entries tab).
Definition ht_elems {K V} (h : ht K V) : list (K * option V) :=
  match ht_table h with Some tab => tab_elems tab | None => [] end.
Definition elems {K V} (d : dict K V) : list (K * option V) := ht_elems (ht0 d) ++ ht_elems (ht1 d).

Section inv.
Context {K V : Type} (t : dictType K V) {Ht : DictTypeOk t}.
Implicit Types (k : K) (de : dictEntry K V) (h : ht K V) (d : dict K V) (l : list (K * option V)).

(** ** Keys *)

Definition matches (k : K) l : list (K * option V) := filter (fun e => keyCompare t k e.1 = true) l.
Definition others (k : K) l : list (K * option V) := filter (fun e => keyCompare t k e.1 <> true) l.

(** No two elements with the same key. *)
Definition distinct l : Prop := forall k, (length (matches k l) <= 1)%nat.

#[export] Instance matches_Permutation k : Proper (Permutation ==> Permutation) (matches k).
Proof. intros l1 l2 H. unfold matches. by rewrite H. Qed.
#[export] Instance others_Permutation k : Proper (Permutation ==> Permutation) (others k).
Proof. intros l1 l2 H. unfold others. by rewrite H. Qed.
#[export] Instance distinct_Permutation : Proper (Permutation ==> iff) distinct.
Proof. intros l1 l2 H. unfold distinct. split; intros Hd k; [rewrite <- H | rewrite H]; apply Hd. Qed.

Lemma compare_eq k1 k2 k : keyCompare t k1 k2 = true -> keyCompare t k1 k = keyCompare t k2 k.
Proof.
  intros H. destruct (keyCompare t k1 k) eqn:E1, (keyCompare t k2 k) eqn:E2; try done.
  - rewrite <- E2. symmetry. eapply compare_trans; [eapply compare_sym; exact H | exact E1].
  - rewrite <- E1. eapply compare_trans; [exact H | exact E2].
Qed.

Lemma matches_cong k1 k2 l : keyCompare t k1 k2 = true -> matches k1 l = matches k2 l.
Proof. intros H. unfold matches. apply list_filter_iff. intros x. by rewrite (compare_eq k1 k2 x.1 H). Qed.

Lemma matches_app k l1 l2 : matches k (l1 ++ l2) = matches k l1 ++ matches k l2.
Proof. apply filter_app. Qed.

Lemma matches_nil k l : matches k l = [] <-> Forall (fun e => keyCompare t k e.1 = false) l.
Proof.
  unfold matches. induction l as [| e l IH]; [done |]. rewrite filter_cons, Forall_cons.
  destruct (decide (keyCompare t k e.1 = true)) as [E | E]; [rewrite E; by split; [| intros [? _]] |].
  apply not_true_is_false in E. rewrite IH. tauto.
Qed.

Lemma matches_one k l e : distinct l -> e ∈ l -> keyCompare t k e.1 = true -> matches k l = [e].
Proof.
  intros Hd He Hk. specialize (Hd k). assert (e ∈ matches k l) as Hm by (apply list_elem_of_filter; done).
  destruct (matches k l) as [| x [| y m]]; [by apply not_elem_of_nil in Hm | | cbn in Hd; lia].
  by apply list_elem_of_singleton in Hm as ->.
Qed.

Lemma distinct_app_l l1 l2 : distinct (l1 ++ l2) -> distinct l1.
Proof. intros Hd k. specialize (Hd k). rewrite matches_app, length_app in Hd. lia. Qed.

Lemma distinct_cons e l : distinct l -> matches e.1 l = [] -> distinct (e :: l).
Proof.
  intros Hd Hm k. unfold matches. rewrite filter_cons. destruct (decide _) as [E | E]; [| apply Hd].
  fold (matches k l). rewrite (matches_cong k e.1 l E), Hm. cbn. lia.
Qed.

(** The elements without those of one key. *)
Lemma split_match k l : l ≡ₚ matches k l ++ others k l.
Proof.
  unfold matches, others. induction l as [| e l IH]; [done |]. rewrite !filter_cons.
  destruct (decide (keyCompare t k e.1 = true)) as [E | E];
    [rewrite decide_False by (by intros []) | rewrite decide_True by done].
  - cbn [app]. by constructor.
  - rewrite <- Permutation_middle. by constructor.
Qed.

Lemma distinct_others k l : distinct l -> distinct (others k l).
Proof.
  intros Hd k'. specialize (Hd k'). rewrite (split_match k l), matches_app, length_app in Hd. lia.
Qed.

(** ** Chains *)

(** The kinds of entries the type allows. *)
Fixpoint entry_ok de : Prop :=
  match de with
  | Null => True
  | EKey _ => no_value t = true /\ keys_are_odd t = true
  | ENoValue _ next => no_value t = true /\ entry_ok next
  | ENormal _ _ next => no_value t = false /\ entry_ok next
  end.

Lemma chain_find_None de k : chain_find t de k = None <-> matches k (entries de) = [].
Proof.
  induction de as [| k' | k' de IH | k' v de IH]; cbn [chain_find entries]; [done |..];
    rewrite matches_nil, Forall_cons; cbn [fst]; destruct (keyCompare t k k') eqn:E.
  - by split; [| intros []].
  - split; [by repeat constructor | done].
  - by split; [| intros []].
  - rewrite <- matches_nil, <- IH. destruct (chain_find t de k); cbn; split; try done; by intros [_ ?].
  - by split; [| intros []].
  - rewrite <- matches_nil, <- IH. destruct (chain_find t de k); cbn; split; try done; by intros [_ ?].
Qed.

Lemma chain_find_Some de k n : chain_find t de k = Some n ->
  exists e he, entries de !! n = Some e /\ keyCompare t k e.1 = true /\ chain_at de n = Some he /\
    dictGetKey he = Some e.1 /\ (forall v, dictGetVal he = Some v -> v = e.2) /\
    (no_value t = false -> entry_ok de -> dictGetVal he = Some e.2).
Proof.
  revert n. induction de as [| k' | k' de IH | k' v de IH]; intros n H; cbn [chain_find] in H; [done |..];
    destruct (keyCompare t k k') eqn:E.
  - injection H as <-. exists (k', None), (EKey k'). cbn. repeat split; try done. intros ? []; congruence.
  - done.
  - injection H as <-. exists (k', None), (ENoValue k' de). cbn. repeat split; try done. intros ? []; congruence.
  - destruct (chain_find t de k) as [m |]; [| done]. injection H as <-.
    destruct (IH m eq_refl) as (e & he & H1 & H2 & H3 & H4 & H5 & H6). exists e, he. cbn. repeat split; try done.
    intros ? []; congruence.
  - injection H as <-. exists (k', v), (ENormal k' v de). cbn. repeat split; try done. by intros ? [= ->].
  - destruct (chain_find t de k) as [m |]; [| done]. injection H as <-.
    destruct (IH m eq_refl) as (e & he & H1 & H2 & H3 & H4 & H5 & H6). exists e, he. cbn. repeat split; try done.
    intros ? []. by apply H6.
Qed.

Lemma entry_ok_next de : entry_ok de -> entry_ok (dictGetNext de).
Proof. destruct de; cbn; tauto. Qed.

Lemma entries_next de e l : entries de = e :: l -> entries (dictGetNext de) = l.
Proof. destruct de; cbn; intros H; [done | by injection H as _ <- ..]. Qed.

(** Changing the entry at a depth: only that element changes. *)
Lemma chain_update_ok de n f e he he' :
  entry_ok de -> entries de !! n = Some e -> chain_at de n = Some he -> f he = Some he' -> entry_ok he' ->
  exists de', chain_update de n f = Some de' /\ entry_ok de' /\
    entries de' = take n (entries de) ++ entries he'.
Proof.
  revert de. induction n as [| n IH]; intros de Hok He Hat Hf Hok'.
  - destruct de; cbn in Hat; try done; injection Hat as <-; exists he'; by rewrite take_0.
  - destruct (entries de) as [| e0 l] eqn:El; [done |]. pose proof (entries_next de e0 l El) as En.
    destruct (IH (dictGetNext de)) as (nx & E1 & E2 & E3); [by apply entry_ok_next | by rewrite En | done.. |].
    rewrite En in E3. cbn [chain_update]. rewrite E1. cbn [mbind option_bind].
    destruct de as [| k | k de | k v de]; cbn [entries dictSetNext dictGetNext] in *; try done.
    + injection El as <- <-. destruct n; done.
    + injection El as <- El. eexists. split; [done |]. cbn [entry_ok entries take app]. rewrite E3. by destruct Hok.
    + injection El as <- El. eexists. split; [done |]. cbn [entry_ok entries take app]. rewrite E3. by destruct Hok.
Qed.

(** The entry at a depth with the rest of the chain. *)
Lemma chain_at_entries de n he : chain_at de n = Some he -> entries he = drop n (entries de) /\ isNull he = false.
Proof.
  revert de. induction n as [| n IH]; intros de H; cbn [chain_at] in H.
  - destruct (isNull de) eqn:E; [done |]. injection H as <-. by rewrite drop_0.
  - destruct (IH _ H) as [E1 E2]. split; [| done]. rewrite E1. destruct de; cbn [entries dictGetNext]; try done.
    by rewrite drop_nil.
Qed.

Lemma chain_at_ok de n he : entry_ok de -> chain_at de n = Some he -> entry_ok he.
Proof.
  revert de. induction n as [| n IH]; intros de Hok H; cbn [chain_at] in H.
  - destruct (isNull de); [done |]. by injection H as <-.
  - eapply IH; [| exact H]. by apply entry_ok_next.
Qed.

(** ** Tables *)

Lemma size_pow e : 0 <= e <= 60 -> DICTHT_SIZE e = 2 ^ e.
Proof.
  intros He. unfold DICTHT_SIZE. rewrite (proj2 (Z.eqb_neq e (-1))) by lia. rewrite Z.shiftl_1_l, u64_id; [done |].
  pose proof (Z.pow_pos_nonneg 2 e). pose proof (Z.pow_le_mono_r 2 e 60). unfold is_u64. lia.
Qed.

Lemma land_mask e x : 0 <= e <= 60 -> Z.land x (DICTHT_SIZE_MASK e) = x mod 2 ^ e.
Proof.
  intros He. unfold DICTHT_SIZE_MASK. rewrite (proj2 (Z.eqb_neq e (-1))), size_pow by lia.
  rewrite <- Z.land_ones by lia. f_equal. rewrite Z.ones_equiv. lia.
Qed.

Definition in_bucket (e : Z) (i : nat) (kv : K * option V) : Prop := hashFunction t kv.1 mod 2 ^ e = Z.of_nat i.

(** A table of [2^e] buckets. *)
Definition tab_ok (tab : list (dictEntry K V)) (e : Z) : Prop :=
  0 <= e <= 60 /\ zlen tab = 2 ^ e /\
  forall i de, tab !! i = Some de -> entry_ok de /\ Forall (in_bucket e i) (entries de).
Definition ht_ok h (tab : list (dictEntry K V)) (e : Z) : Prop :=
  h = HT (Some tab) e (zlen (tab_elems tab)) /\ tab_ok tab e.

Lemma pow_exp_bounds e : 0 <= e <= 60 -> 1 <= 2 ^ e < 2 ^ 61.
Proof. intros He. pose proof (Z.pow_pos_nonneg 2 e). pose proof (Z.pow_le_mono_r 2 e 60). lia. Qed.

(** The elements of a table, around one bucket. *)
Lemma tab_split tab i de : tab !! i = Some de ->
  exists rest, tab_elems tab ≡ₚ entries de ++ rest /\
    forall de', tab_elems (<[i := de']> tab) ≡ₚ entries de' ++ rest.
Proof.
  intros H. exists (tab_elems (take i tab) ++ tab_elems (drop (S i) tab)).
  assert (forall x, tab_elems (take i tab ++ x :: drop (S i) tab) ≡ₚ
    entries x ++ tab_elems (take i tab) ++ tab_elems (drop (S i) tab)) as Hx.
  { intros x. unfold tab_elems. rewrite map_app, concat_app. cbn [map concat]. by rewrite Permutation_app_swap_app. }
  split; [rewrite <- (take_drop_middle tab i de H) at 1; apply Hx |].
  intros de'. rewrite insert_take_drop by (by eapply lookup_lt_Some). apply Hx.
Qed.

Lemma tab_ok_insert tab e i de : tab_ok tab e -> entry_ok de -> Forall (in_bucket e i) (entries de) ->
  tab_ok (<[i := de]> tab) e.
Proof.
  intros (He & Hl & Hb) Hok Hin. split; [done |]. split; [unfold zlen in *; by rewrite length_insert |].
  intros j de' Hj. apply list_lookup_insert_Some in Hj as [(-> & -> & _) | [_ Hj]]; [done | by apply Hb].
Qed.

Lemma zlen_Permutation {A} (l1 l2 : list A) : l1 ≡ₚ l2 -> zlen l1 = zlen l2.
Proof. intros H. unfold zlen. by rewrite H. Qed.

Lemma bucket_ok h tab e x : ht_ok h tab e -> exists de,
  bucket h (x mod 2 ^ e) = Some de /\ tab !! Z.to_nat (x mod 2 ^ e) = Some de /\ entry_ok de /\
  Forall (in_bucket e (Z.to_nat (x mod 2 ^ e))) (entries de).
Proof.
  intros [-> (He & Hl & Hb)]. pose proof (pow_exp_bounds e He). pose proof (Z.mod_pos_bound x (2 ^ e)).
  destruct (lookup_lt_is_Some_2 tab (Z.to_nat (x mod 2 ^ e))) as [de Hde]; [unfold zlen in Hl; lia |].
  exists de. unfold bucket. cbn [ht_table mbind option_bind]. destruct (Hb _ _ Hde). done.
Qed.

(** The elements with a key are in the bucket its hash selects. *)
Lemma matches_bucket tab e k de : tab_ok tab e -> tab !! Z.to_nat (hashFunction t k mod 2 ^ e) = Some de ->
  matches k (tab_elems tab) ≡ₚ matches k (entries de).
Proof.
  intros (He & Hl & Hb) Hde. pose proof (pow_exp_bounds e He). pose proof (Z.mod_pos_bound (hashFunction t k) (2 ^ e)).
  set (i := Z.to_nat _) in *. assert (Forall (fun y => matches k (entries y) = []) (take i tab ++ drop (S i) tab)) as Hoth.
  { apply Forall_forall. intros y Hy. assert (exists j, j <> i /\ tab !! j = Some y) as (j & Hj & Ej).
    { apply elem_of_app in Hy as [Hy | Hy]; apply list_elem_of_lookup in Hy as [j Hy].
      - apply lookup_take_Some in Hy as [Hy Hj]. exists j. split; [lia | done].
      - rewrite lookup_drop in Hy. exists (S i + j)%nat. split; [lia | done]. }
    destruct (Hb j y Ej) as [_ Hin]. apply matches_nil, Forall_forall. intros kv Hkv.
    rewrite Forall_forall in Hin. specialize (Hin kv Hkv). unfold in_bucket in Hin.
    destruct (keyCompare t k kv.1) eqn:Ek; [| done]. apply compare_hash in Ek. exfalso. apply Hj.
    unfold i. rewrite Ek, Hin. lia. }
  assert (forall x, Forall (fun y => matches k (entries y) = []) x -> matches k (tab_elems x) = []) as Hnil.
  { intros x. induction 1 as [| y x H1 H2 IH]; [done |]. unfold tab_elems in *. cbn [map concat].
    by rewrite matches_app, H1, IH. }
  apply Forall_app in Hoth as [H1 H2]. rewrite <- (take_drop_middle tab i de Hde) at 1.
  unfold tab_elems at 1. rewrite map_app, concat_app. cbn [map concat].
  rewrite !matches_app. fold (tab_elems (take i tab)). fold (tab_elems (drop (S i) tab)).
  rewrite (Hnil _ H1), (Hnil _ H2), app_nil_r. done.
Qed.

(** Replacing the chain of a bucket. *)
Lemma set_bucket_ok h tab e i de de' : ht_ok h tab e -> tab !! Z.to_nat i = Some de -> entry_ok de' ->
  Forall (in_bucket e (Z.to_nat i)) (entries de') ->
  set_bucket h i de' = Some (HT (Some (<[Z.to_nat i := de']> tab)) e (zlen (tab_elems tab))) /\
  tab_ok (<[Z.to_nat i := de']> tab) e.
Proof.
  intros [-> Hok] Hde Hok' Hin. unfold set_bucket. cbn [ht_table ht_size_exp ht_used mbind option_bind]. rewrite Hde.
  split; [done |]. by apply tab_ok_insert.
Qed.

Lemma add_used_ok (tab tab' : list (dictEntry K V)) e u n : zlen (tab_elems tab) + n = zlen (tab_elems tab') -> u = zlen (tab_elems tab) ->
  zlen (tab_elems tab') < 2 ^ 64 -> tab_ok tab' e -> ht_ok (add_used (HT (Some tab') e u) n) tab' e.
Proof.
  intros E -> Hl Hok. split; [| done]. unfold add_used. cbn [ht_table ht_size_exp ht_used]. f_equal.
  rewrite E. apply u64_id. pose proof (zlen_nonneg (tab_elems tab')). unfold is_u64. lia.
Qed.

Lemma tab_elems_repeat n : tab_elems (repeat (@Null K V) n) = [].
Proof. unfold tab_elems. induction n as [| n IH]; [done |]. cbn [repeat map concat entries app]. exact IH. Qed.

Lemma tab_ok_repeat e : 0 <= e <= 60 -> tab_ok (repeat Null (Z.to_nat (2 ^ e))) e.
Proof.
  intros He. pose proof (pow_exp_bounds e He). split; [done |]. split; [unfold zlen; rewrite repeat_length; lia |].
  intros i de Hi. apply list_elem_of_lookup_2 in Hi. apply list_elem_of_In, repeat_spec in Hi as ->. by split.
Qed.

(** ** Dictionaries *)

Definition tables_ok d : Prop :=
  (rehashidx d = -1 /\ ht1 d = ht_reset /\ (ht0 d = ht_reset \/ exists tab e, ht_ok (ht0 d) tab e)) \/
  (exists tab0 e0 tab1 e1, ht_ok (ht0 d) tab0 e0 /\ ht_ok (ht1 d) tab1 e1 /\ e0 <> e1 /\
     0 <= rehashidx d < 2 ^ e0 /\ forall i, Z.of_nat i < rehashidx d -> tab0 !! i = Some Null).

Definition wf d : Prop := tables_ok d /\ distinct (elems d) /\ zlen (elems d) < 2 ^ 60.

Lemma ht_elems_ok h tab e : ht_ok h tab e -> ht_elems h = tab_elems tab /\ ht_used h = zlen (tab_elems tab).
Proof. intros [-> _]. done. Qed.

Lemma used_elems d : tables_ok d -> ht_used (ht0 d) = zlen (ht_elems (ht0 d)) /\ ht_used (ht1 d) = zlen (ht_elems (ht1 d)).
Proof.
  intros [(_ & E1 & [E0 | (tab & e & H0)]) | (tab0 & e0 & tab1 & e1 & H0 & H1 & _)].
  - by rewrite E0, E1.
  - destruct (ht_elems_ok _ _ _ H0) as [-> ->]. by rewrite E1.
  - destruct (ht_elems_ok _ _ _ H0) as [-> ->]. by destruct (ht_elems_ok _ _ _ H1) as [-> ->].
Qed.

Lemma dictSize_ok d : tables_ok d -> zlen (elems d) < 2 ^ 60 -> dictSize d = zlen (elems d).
Proof.
  intros H Hl. destruct (used_elems d H) as [E0 E1]. unfold dictSize, elems in *. rewrite zlen_app in *.
  rewrite E0, E1. apply u64_id. pose proof (zlen_nonneg (ht_elems (ht0 d))). pose proof (zlen_nonneg (ht_elems (ht1 d))).
  unfold is_u64. lia.
Qed.
End inv.
