(* ===== verification/DictOps.v ===== *)
(** dict.c: lookup, insertion, deletion and expansion on well formed
    dictionaries. *)
From S2P Require Import Prelude Dict DictInv.

Section ops.
Context {K V : Type} (t : dictType K V) {Ht : DictTypeOk t} (resize : dictResizeEnable).
Implicit Types (k : K) (de : dictEntry K V) (h : ht K V) (d : dict K V) (l : list (K * option V)).

(** ** Replacing one table *)

Lemma is_rehashing d : dictIsRehashing d = true <-> rehashidx d <> -1.
Proof. unfold dictIsRehashing. destruct (Z.eqb_spec (rehashidx d) (-1)); cbn; split; intros; done || lia. Qed.

Lemma set_table_ok d b h tab tab' e : tables_ok t d -> ht_ok t (ht_of d b) tab e -> ht_ok t h tab' e ->
  (b = false -> dictIsRehashing d = true -> forall i, tab !! i = Some Null -> tab' !! i = Some Null) ->
  tables_ok t (set_ht d b h).
Proof.
  intros [(E & E1 & E0) | (tab0 & e0 & tab1 & e1 & H0 & H1 & He & Hi & Hnull)] Hb Hh Hn.
  - destruct b; cbn [ht_of set_ht] in *; [destruct Hb as [Hb _]; rewrite E1 in Hb; done |].
    left. cbn [rehashidx ht0 ht1]. split; [done |]. split; [done |]. right. eauto.
  - assert (dictIsRehashing d = true) as Hre by (apply is_rehashing; lia).
    right. destruct b; cbn [ht_of set_ht rehashidx ht0 ht1] in *.
    + exists tab0, e0, tab', e. split; [done |]. split; [done |].
      assert (e = e1) as -> by (destruct Hb as [Hb _], H1 as [H1 _]; rewrite Hb in H1; by injection H1). done.
    + assert (tab = tab0 /\ e = e0) as [-> ->] by (destruct Hb as [Hb _], H0 as [H0 _]; rewrite Hb in H0; by injection H0).
      exists tab', e0, tab1, e1. split; [done |]. split; [done |]. split; [done |]. split; [done |].
      intros i Hlt. apply Hn; [done | done | by apply Hnull].
Qed.

Lemma elems_set_ht d b h : elems (set_ht d b h) ≡ₚ ht_elems h ++ ht_elems (ht_of d (negb b)).
Proof. unfold elems. destruct b; cbn [set_ht ht0 ht1 ht_of negb]; [apply Permutation_app_comm | done]. Qed.

Lemma elems_ht_of d b : elems d ≡ₚ ht_elems (ht_of d b) ++ ht_elems (ht_of d (negb b)).
Proof. unfold elems. destruct b; cbn [ht_of negb]; [apply Permutation_app_comm | done]. Qed.

(** ** Lookup *)

(** What a place found for a key is. *)
Record found d k (p : place) (tab : list (dictEntry K V)) (e : Z) de (kv : K * option V) (he : dictEntry K V) : Prop := {
  fd_ht : ht_ok t (ht_of d (pl_table p)) tab e;
  fd_idx : pl_idx p = hashFunction t k mod 2 ^ e;
  fd_bucket : tab !! Z.to_nat (pl_idx p) = Some de;
  fd_ok : entry_ok t de;
  fd_in : Forall (in_bucket t e (Z.to_nat (pl_idx p))) (entries de);
  fd_elem : entries de !! pl_depth p = Some kv;
  fd_at : chain_at de (pl_depth p) = Some he;
  fd_key : keyCompare t k kv.1 = true;
  fd_getkey : dictGetKey he = Some kv.1;
  fd_val : no_value t = false -> dictGetVal he = Some kv.2 }.

Definition find_result d k (r : option place) : Prop :=
  match r with
  | None => matches t k (elems d) = []
  | Some p => exists tab e de kv he, found d k p tab e de kv he
  end.

Lemma find_table_ok d b tab e k : ht_ok t (ht_of d b) tab e ->
  exists r, find_table t d b k = Some r /\
    match r with
    | None => matches t k (tab_elems tab) = []
    | Some p => exists de kv he, found d k p tab e de kv he
    end.
Proof.
  intros H. pose proof H as [Eh Hok]. destruct (bucket_ok t _ tab e (hashFunction t k) H) as (de & Eb & Ede & Hde & Hin).
  unfold find_table. assert (ht_size_exp (ht_of d b) = e) as -> by (by rewrite Eh).
  rewrite (land_mask e) by apply Hok. rewrite Eb. cbn [mbind option_bind].
  destruct (chain_find t de k) as [n |] eqn:Ef; cbn [fmap option_fmap option_map]; eexists; (split; [reflexivity |]).
  - destruct (chain_find_Some t de k n Ef) as (kv & he & H1 & H2 & H3 & H4 & _ & H6).
    exists de, kv, he. constructor; cbn [pl_table pl_idx pl_depth]; auto.
  - apply chain_find_None in Ef. apply Permutation_nil. by rewrite (matches_bucket t tab e k de Hok Ede), Ef.
Qed.

Lemma find_tables_ok d k : tables_ok t d -> ht0 d <> ht_reset -> exists r, find_tables t d k = Some r /\ find_result d k r.
Proof.
  intros Hd Hne. unfold find_tables. destruct Hd as [(E & E1 & [E0 | (tab & e & H0)]) | (tab0 & e0 & tab1 & e1 & H0 & H1 & _ & Hi & _)].
  - done.
  - assert (dictIsRehashing d = false) as -> by (unfold dictIsRehashing; by rewrite E).
    destruct (find_table_ok d false tab e k H0) as (r & -> & Hr). cbn [mbind option_bind].
    destruct r as [p |]; eexists; (split; [reflexivity |]); cbn [find_result].
    + destruct Hr as (de & kv & he & Hf). by exists tab, e, de, kv, he.
    + destruct (ht_elems_ok t _ _ _ H0) as [Ee _]. unfold elems. rewrite Ee, E1, app_nil_r. done.
  - assert (dictIsRehashing d = true) as -> by (apply is_rehashing; lia).
    destruct (find_table_ok d false tab0 e0 k H0) as (r & -> & Hr). cbn [mbind option_bind]. destruct r as [p |].
    { eexists. split; [reflexivity |]. destruct Hr as (de & kv & he & Hf). by exists tab0, e0, de, kv, he. }
    destruct (find_table_ok d true tab1 e1 k H1) as (r & -> & Hr1). eexists. split; [reflexivity |].
    destruct r as [p |]; cbn [find_result].
    + destruct Hr1 as (de & kv & he & Hf). by exists tab1, e1, de, kv, he.
    + destruct (ht_elems_ok t _ _ _ H0) as [Ee0 _], (ht_elems_ok t _ _ _ H1) as [Ee1 _].
      unfold elems. by rewrite Ee0, Ee1, matches_app, Hr, Hr1.
Qed.

Lemma found_elem d k p tab e de kv he : found d k p tab e de kv he -> kv ∈ elems d.
Proof.
  intros [H _ Hb _ _ He _ _ _ _]. rewrite (elems_ht_of d (pl_table p)).
  destruct (ht_elems_ok t _ _ _ H) as [-> _]. apply elem_of_app. left.
  destruct (tab_split tab _ de Hb) as (rest & -> & _). apply elem_of_app. left. by eapply list_elem_of_lookup_2.
Qed.

Lemma found_entry_at d k p tab e de kv he : found d k p tab e de kv he -> entry_at d p = Some he.
Proof.
  intros [[-> _] Hi Hb _ _ _ Hat _ _ _] || (intros H; destruct H as [[Eh Hok] Hi Hb _ _ _ Hat _ _ _]).
  unfold entry_at, bucket. rewrite Eh. cbn [ht_table mbind option_bind]. rewrite Hb. exact Hat.
Qed.

(** ** Changing the entry at a place *)

Lemma found_not_null d k p tab e de kv he : found d k p tab e de kv he -> de <> Null.
Proof. intros H ->. pose proof (fd_elem _ _ _ _ _ _ _ _ H) as E. by destruct (pl_depth p). Qed.

(** The chain from the place on is replaced: [x] for [entries he]. *)
Lemma update_at_ok d k p tab e de kv he he' f : tables_ok t d -> found d k p tab e de kv he -> f he = Some he' -> entry_ok t he' ->
  Forall (in_bucket t e (Z.to_nat (pl_idx p))) (entries he') ->
  exists tab' rest, update_at d p f = Some (set_ht d (pl_table p) (HT (Some tab') e (zlen (tab_elems tab)))) /\
    tab_ok t tab' e /\
    tab_elems tab ≡ₚ entries he ++ rest /\ tab_elems tab' ≡ₚ entries he' ++ rest /\
    (dictIsRehashing d = true -> pl_table p = false -> forall i, tab !! i = Some Null -> tab' !! i = Some Null).
Proof.
  intros Hd Hf Hfe Hok Hin. pose proof (found_not_null _ _ _ _ _ _ _ _ Hf) as Hnn.
  destruct Hf as [Hht Hi Hb Hde Hdin He Hat _ _ _].
  destruct (chain_update_ok t de (pl_depth p) f kv he he' Hde He Hat Hfe Hok) as (de' & Eu & Hde' & Een).
  destruct (chain_at_entries de _ he Hat) as [Ehe _].
  destruct (tab_split tab _ de Hb) as (rest0 & Hp1 & Hp2).
  assert (Forall (in_bucket t e (Z.to_nat (pl_idx p))) (entries de')) as Hin'.
  { rewrite Een. apply Forall_app. split; [by apply Forall_take | done]. }
  destruct (set_bucket_ok t _ tab e (pl_idx p) de de' Hht Hb Hde' Hin') as [Es Htab'].
  exists (<[Z.to_nat (pl_idx p) := de']> tab), (take (pl_depth p) (entries de) ++ rest0).
  split.
  { unfold update_at. assert (bucket (ht_of d (pl_table p)) (pl_idx p) = Some de) as ->.
    { destruct Hht as [Eh _]. unfold bucket. by rewrite Eh. }
    cbn [mbind option_bind]. rewrite Eu. cbn [mbind option_bind]. rewrite Es. done. }
  split; [done |]. split.
  { rewrite Hp1, Ehe. rewrite <- (take_drop (pl_depth p) (entries de)) at 1.
    rewrite <- app_assoc. rewrite Permutation_app_swap_app. done. }
  split.
  { rewrite Hp2, Een, <- app_assoc. by rewrite Permutation_app_swap_app. }
  intros _ _ i Hnull. rewrite list_lookup_insert_ne; [done |]. intros <-. congruence.
Qed.

(** The elements around a place: the one found, and the rest, without its key. *)
Lemma found_split d k p tab e de kv he : wf t d -> found d k p tab e de kv he ->
  entries he = kv :: entries (dictGetNext he) /\
  Forall (in_bucket t e (Z.to_nat (pl_idx p))) (kv :: entries (dictGetNext he)).
Proof.
  intros _ [Hht Hi Hb Hde Hdin He Hat Hk _ _]. destruct (chain_at_entries de _ he Hat) as [Ehe _].
  rewrite (drop_S _ _ _ He) in Ehe. rewrite (entries_next he kv _ Ehe). split; [done |].
  rewrite <- (drop_S _ _ _ He). by apply Forall_drop.
Qed.

Lemma others_of l k kv R : distinct t l -> keyCompare t k kv.1 = true -> l ≡ₚ kv :: R ->
  others t k l ≡ₚ R /\ matches t k R = [].
Proof.
  intros Hdist Hk Q1.
  assert (matches t k R = []) as HR.
  { pose proof (Hdist k) as Hk1. rewrite Q1 in Hk1. unfold matches in Hk1. rewrite filter_cons, decide_True in Hk1 by done.
    fold (matches t k R) in Hk1. destruct (matches t k R); [done | cbn in Hk1; lia]. }
  split; [| done]. rewrite Q1. unfold others. rewrite filter_cons, decide_False by tauto. fold (others t k R).
  rewrite (split_match t k R) at 2. by rewrite HR.
Qed.

(** The entry at the place is replaced by [pre]: nothing, or an element of the same key. *)
Lemma update_gen d k p tab e de kv he he' pre f : wf t d -> found d k p tab e de kv he -> f he = Some he' -> entry_ok t he' ->
  Forall (fun kv' => keyCompare t kv.1 kv'.1 = true) pre -> (length pre <= 1)%nat -> entries he' = pre ++ entries (dictGetNext he) ->
  exists tab', update_at d p f = Some (set_ht d (pl_table p) (HT (Some tab') e (zlen (tab_elems tab)))) /\
    let d' := set_ht d (pl_table p) (add_used (HT (Some tab') e (zlen (tab_elems tab))) (zlen pre - 1)) in
    wf t d' /\ elems d' ≡ₚ pre ++ others t k (elems d).
Proof.
  intros Hwf Hf Hfe Hok Hpre Hpre1 Een. pose proof Hwf as (Hd & Hdist & Hlen).
  pose proof (found_split _ _ _ _ _ _ _ _ Hwf Hf) as [Ehe Hin]. pose proof Hf as [Hht Hi Hb Hde Hdin He Hat Hk _ _].
  apply Forall_cons in Hin as [Hin1 Hin2].
  destruct (update_at_ok d k p tab e de kv he he' f Hd Hf Hfe Hok) as (tab' & rest & Eu & Htab' & P1 & P2 & Hnull).
  { rewrite Een, Forall_app. split; [| done]. eapply Forall_impl; [exact Hpre |]. intros kv' Hkk. unfold in_bucket in *.
    cbn in Hkk. by rewrite <- (compare_hash _ _ Hkk). }
  exists tab'. split; [exact Eu |]. set (d' := set_ht _ _ _). cbv zeta.
  rewrite Ehe in P1. rewrite Een, <- app_assoc in P2. cbn [app] in P1.
  set (R := (entries (dictGetNext he) ++ rest) ++ ht_elems (ht_of d (negb (pl_table p)))).
  assert (elems d ≡ₚ kv :: R) as Q1.
  { rewrite (elems_ht_of d (pl_table p)). destruct (ht_elems_ok t _ _ _ Hht) as [-> _]. by rewrite P1. }
  assert (elems d' ≡ₚ pre ++ R) as Q2.
  { unfold d'. rewrite elems_set_ht. unfold ht_elems at 1. cbn [ht_table add_used]. rewrite P2, <- app_assoc. done. }
  destruct (others_of (elems d) k kv R Hdist Hk Q1) as [HoR HR].
  pose proof (zlen_Permutation _ _ P1) as L1. pose proof (zlen_Permutation _ _ P2) as L2.
  pose proof (zlen_Permutation _ _ Q1) as L3. pose proof (zlen_Permutation _ _ Q2) as L4.
  assert (zlen pre <= 1) as Lp by (unfold zlen; lia). rewrite zlen_cons in L1, L3. rewrite zlen_app in L2, L4.
  assert (zlen (tab_elems tab) < 2 ^ 60) as L5.
  { rewrite (zlen_Permutation _ _ (elems_ht_of d (pl_table p))), zlen_app in Hlen.
    destruct (ht_elems_ok t _ _ _ Hht) as [E _]. rewrite E in Hlen. pose proof (zlen_nonneg (ht_elems (ht_of d (negb (pl_table p))))). lia. }
  split; [| by rewrite Q2, HoR]. split; [| split; [| lia]].
  - apply (set_table_ok d _ _ tab tab' e Hd Hht); [apply (add_used_ok t tab); try done; lia | auto].
  - rewrite Q2. assert (distinct t R) as HdR by (rewrite <- HoR; by apply distinct_others).
    destruct pre as [| kv' [| ? ?]]; [done | | cbn in Hpre1; lia]. cbn [app]. apply distinct_cons; [done | done |].
    rewrite <- HR. apply Forall_cons in Hpre as [Hkk _]. apply (matches_cong t), (compare_trans kv'.1 kv.1 k); by apply compare_sym.
Qed.

Lemma set_ht_same d b h : rehashidx (set_ht d b h) = rehashidx d /\ pauserehash (set_ht d b h) = pauserehash d.
Proof. by destruct b. Qed.

(** Setting the value of the entry found. *)
Lemma set_val_ok d k p tab e de kv he v : wf t d -> no_value t = false -> found d k p tab e de kv he ->
  exists d', dictSetVal t d p v = Some d' /\ wf t d' /\ elems d' ≡ₚ (kv.1, Some (valDup t v)) :: others t k (elems d) /\
    rehashidx d' = rehashidx d /\ pauserehash d' = pauserehash d.
Proof.
  intros Hwf Hnv Hf. pose proof Hf as [Hht _ _ Hde _ _ Hat _ Hgk _].
  pose proof (chain_at_ok t de _ he Hde Hat) as Hheok.
  destruct he as [| k0 | k0 nx | k0 v0 nx]; cbn [dictGetKey] in Hgk; try done.
  { destruct Hheok. congruence. } { destruct Hheok. congruence. }
  injection Hgk as Hk0. destruct Hheok as [_ Hnx].
  destruct (update_gen d k p tab e de kv _ (ENormal k0 (Some (valDup t v)) nx) [(k0, Some (valDup t v))]
    (fun de => match de with ENormal k _ next => Some (ENormal k (Some (valDup t v)) next) | _ => None end)
    Hwf Hf eq_refl) as (tab' & Eu & Hwf' & Hp); [done | | cbn; lia | done |].
  { constructor; [| constructor]. cbn [fst]. rewrite Hk0. apply compare_refl. }
  exists (set_ht d (pl_table p) (HT (Some tab') e (zlen (tab_elems tab)))). split; [exact Eu |].
  assert (add_used (HT (Some tab') e (zlen (tab_elems tab))) (zlen [(k0, Some (valDup t v))] - 1) =
    HT (Some tab') e (zlen (tab_elems tab))) as Ead.
  { unfold add_used. cbn [ht_table ht_size_exp ht_used]. change (zlen [(k0, Some (valDup t v))]) with 1.
    f_equal. rewrite Z.add_0_r. apply u64_id. destruct Hwf as (Hd & _ & Hlen).
    rewrite (zlen_Permutation _ _ (elems_ht_of d (pl_table p))), zlen_app in Hlen.
    destruct (ht_elems_ok t _ _ _ Hht) as [E _]. rewrite E in Hlen.
    pose proof (zlen_nonneg (ht_elems (ht_of d (negb (pl_table p))))). pose proof (zlen_nonneg (tab_elems tab)). unfold is_u64. lia. }
  cbv zeta in Hwf', Hp. rewrite Ead in Hwf', Hp. split; [done |]. split; [by rewrite Hp, Hk0 |]. apply set_ht_same.
Qed.

(** Unlinking the entry found. *)
Lemma unlink_ok d k p tab e de kv he : wf t d -> found d k p tab e de kv he ->
  exists d', unlink d p = Some d' /\ wf t d' /\ elems d' ≡ₚ others t k (elems d) /\
    rehashidx d' = rehashidx d /\ pauserehash d' = pauserehash d.
Proof.
  intros Hwf Hf. pose proof Hf as [Hht _ _ Hde _ _ Hat _ Hgk _]. pose proof (chain_at_ok t de _ he Hde Hat) as Hheok.
  destruct (update_gen d k p tab e de kv he (dictGetNext he) [] (fun de => if isNull de then None else Some (dictGetNext de)) Hwf Hf)
    as (tab' & Eu & Hwf' & Hp); [| by apply entry_ok_next | constructor | cbn; lia | done |].
  { destruct (chain_at_entries de _ he Hat) as [_ ->]. done. }
  unfold unlink. rewrite Eu. cbn [mbind option_bind].
  assert (forall h1 h2, set_ht (set_ht d (pl_table p) h1) (pl_table p) h2 = set_ht d (pl_table p) h2) as Hss by (by destruct (pl_table p)).
  assert (forall h, ht_of (set_ht d (pl_table p) h) (pl_table p) = h) as Hof by (by destruct (pl_table p)).
  rewrite Hss, Hof. eexists. split; [reflexivity |]. split; [exact Hwf' |]. split; [exact Hp |]. apply set_ht_same.
Qed.

(** ** Insertion *)

Lemma insert_ok d tab e b k key : wf t d -> b = dictIsRehashing d -> ht_ok t (ht_of d b) tab e -> zlen (elems d) + 1 < 2 ^ 60 ->
  matches t k (elems d) = [] -> keyCompare t key k = true ->
  exists d', dictInsertAtPosition t d key b (hashFunction t k mod 2 ^ e) = Some (d', Place b (hashFunction t k mod 2 ^ e) 0) /\
    wf t d' /\ elems d' ≡ₚ (key, None) :: elems d /\
    (exists tab' de he, found d' k (Place b (hashFunction t k mod 2 ^ e) 0) tab' e de (key, None) he) /\
    rehashidx d' = rehashidx d /\ pauserehash d' = pauserehash d.
Proof.
  intros (Hd & Hdist & Hlen) -> Hht Hlt Hm Hkey. set (b := dictIsRehashing d) in *. pose proof Hht as [Eh Hok]. pose proof Hok as (He & _).
  destruct (bucket_ok t _ tab e (hashFunction t k) Hht) as (de & Eb & Ede & Hde & Hin).
  pose proof (pow_exp_bounds e He). pose proof (Z.mod_pos_bound (hashFunction t k) (2 ^ e) ltac:(lia)) as Hidx.
  set (idx := hashFunction t k mod 2 ^ e) in *.
  unfold dictInsertAtPosition. fold b. rewrite eqb_reflx. cbn [andb].
  assert (ht_size_exp (ht_of d b) = e) as -> by (by rewrite Eh).
  assert (DICTHT_SIZE_MASK e = 2 ^ e - 1) as ->.
  { unfold DICTHT_SIZE_MASK. rewrite (proj2 (Z.eqb_neq e (-1))), size_pow by lia. done. }
  rewrite (proj2 (Z.leb_le 0 idx)), (proj2 (Z.leb_le idx _)) by lia. cbn [andb assert_ mbind option_bind].
  rewrite Eb. cbn [mbind option_bind].
  assert (exists entry, (if no_value t then
             _ ← assert_ (entryMetasize t =? 0);
             if keys_are_odd t && isNull de then _ ← assert_ (key_is_odd t key); Some (EKey key)
             else Some (createEntryNoValue key de)
           else Some (ENormal key None de)) = Some entry /\ entry_ok t entry /\ entries entry = (key, None) :: entries de /\
           isNull entry = false /\ dictGetKey entry = Some key /\ (no_value t = false -> dictGetVal entry = Some None))
    as (entry & -> & Hent & Een & Hnn & Hgk & Hgv).
  { destruct (no_value t) eqn:Env.
    - rewrite (no_metadata Env). cbn [Z.eqb assert_ mbind option_bind].
      destruct (keys_are_odd t) eqn:Eodd, (isNull de) eqn:En; cbn [andb].
      + rewrite (keys_odd Eodd). cbn [assert_ mbind option_bind]. destruct de; try done. by exists (EKey key).
      + exists (ENoValue key de). by cbn.
      + exists (ENoValue key de). by cbn.
      + exists (ENoValue key de). by cbn.
    - exists (ENormal key None de). by cbn. }
  cbn [mbind option_bind].
  assert (Forall (in_bucket t e (Z.to_nat idx)) (entries entry)) as Hin'.
  { rewrite Een. constructor; [| done]. unfold in_bucket. cbn [fst]. rewrite (compare_hash _ _ Hkey). fold idx. lia. }
  destruct (set_bucket_ok t _ tab e idx de entry Hht Ede Hent Hin') as [-> Htab']. cbn [mbind option_bind].
  set (tab' := <[Z.to_nat idx:=entry]> tab) in *. set (h' := add_used _ 1). eexists. split; [reflexivity |].
  destruct (tab_split tab _ de Ede) as (rest & P1 & P2). specialize (P2 entry). fold tab' in P2. rewrite Een in P2. cbn [app] in P2.
  rewrite <- P1 in P2. pose proof (zlen_Permutation _ _ P2) as L2. rewrite zlen_cons in L2.
  assert (elems (set_ht d b h') ≡ₚ (key, None) :: elems d) as Q.
  { rewrite elems_set_ht, (elems_ht_of d b). unfold ht_elems at 1. cbn [ht_table add_used h'].
    destruct (ht_elems_ok t _ _ _ Hht) as [-> _]. by rewrite P2. }
  assert (zlen (tab_elems tab) < 2 ^ 60) as L5.
  { rewrite (zlen_Permutation _ _ (elems_ht_of d b)), zlen_app in Hlen.
    destruct (ht_elems_ok t _ _ _ Hht) as [E _]. rewrite E in Hlen. pose proof (zlen_nonneg (ht_elems (ht_of d (negb b)))). lia. }
  assert (ht_ok t h' tab' e) as Hht' by (apply (add_used_ok t tab); try done; lia).
  split; [split; [| split] | split; [exact Q | split; [| apply set_ht_same]]].
  - apply (set_table_ok d b h' tab tab' e Hd Hht Hht'). intros Hb Hre. unfold b in Hb. congruence.
  - rewrite Q. apply distinct_cons; [done | done |]. rewrite <- Hm. cbn [fst]. by apply matches_cong.
  - rewrite (zlen_Permutation _ _ Q), zlen_cons. lia.
  - exists tab', entry, entry.
    assert (tab' !! Z.to_nat idx = Some entry) as El.
    { unfold tab'. apply list_lookup_insert_eq. by eapply lookup_lt_Some. }
    constructor; cbn [pl_table pl_idx pl_depth]; try done.
    + by destruct b.
    + by rewrite Een.
    + cbn [chain_at]. by rewrite Hnn.
    + by apply compare_sym.
Qed.

(** ** Expansion *)

Lemma next_exp_bounds size : 0 <= size <= 2 ^ 58 -> 2 <= _dictNextExp size <= 60 /\ size <= 2 ^ _dictNextExp size.
Proof.
  intros Hs. unfold _dictNextExp. change DICT_HT_INITIAL_SIZE with 4. change DICT_HT_INITIAL_EXP with 2. unfold LONG_MAX.
  case_if; [change (2 ^ 2) with 4; lia |]. rewrite (proj2 (Z.leb_gt 9223372036854775807 size)) by lia.
  assert (1 <= Z.log2 (size - 1)) by (apply Z.log2_le_pow2; lia).
  assert (Z.log2 (size - 1) < 58) by (apply Z.log2_lt_pow2; lia).
  split; [lia |]. pose proof (Z.log2_spec (size - 1) ltac:(lia)) as [_ Hl].
  replace (Z.succ (Z.log2 (size - 1))) with (Z.log2 (size - 1) + 1) in Hl by lia. lia.
Qed.

Lemma next_exp_range size : 0 <= size < 2 ^ 64 -> 2 <= _dictNextExp size <= 63.
Proof.
  intros Hs. unfold _dictNextExp. change DICT_HT_INITIAL_SIZE with 4. change DICT_HT_INITIAL_EXP with 2. unfold LONG_MAX.
  case_if; [lia |]. case_if; [lia |].
  assert (1 <= Z.log2 (size - 1)) by (apply Z.log2_le_pow2; lia).
  assert (Z.log2 (size - 1) < 63) by (apply Z.log2_lt_pow2; lia). lia.
Qed.

Lemma expand_ok d size : wf t d -> 0 <= size < 2 ^ 64 ->
  wf t (dictExpand d size).1 /\ elems (dictExpand d size).1 = elems d /\
  pauserehash (dictExpand d size).1 = pauserehash d /\
  ((dictExpand d size).2 = true -> ht0 (dictExpand d size).1 <> ht_reset) /\
  ((dictExpand d size).2 = false -> (dictExpand d size).1 = d).
Proof.
  intros Hwf Hs. pose proof Hwf as (Hd & Hdist & Hlen). unfold dictExpand.
  destruct (dictIsRehashing d || _) eqn:E1; [done |]. apply orb_false_iff in E1 as [Enr _].
  pose proof (next_exp_range size Hs) as Hne. set (ne := _dictNextExp size) in *.
  destruct ((u64 (Z.shiftl 1 ne) <? size) || _) eqn:E2; [done |]. apply orb_false_iff in E2 as [_ E2]. apply Z.ltb_ge in E2.
  assert (ne <= 60) as Hne60.
  { destruct (Z.le_gt_cases ne 60); [done |]. exfalso. revert E2.
    assert (ne = 61 \/ ne = 62 \/ ne = 63) as [-> | [-> | ->]] by lia; vm_compute; intros H'; by apply H'. }
  destruct (Z.eqb_spec ne (ht_size_exp (ht0 d))) as [| E3]; [done |].
  assert (u64 (Z.shiftl 1 ne) = 2 ^ ne) as ->.
  { pose proof (size_pow ne ltac:(lia)) as Esz. unfold DICTHT_SIZE in Esz. by rewrite (proj2 (Z.eqb_neq ne (-1))) in Esz by lia. }
  assert (ht_ok t (HT (Some (repeat Null (Z.to_nat (2 ^ ne)))) ne 0) (repeat Null (Z.to_nat (2 ^ ne))) ne) as Hnew.
  { split; [by rewrite tab_elems_repeat | apply tab_ok_repeat; lia]. }
  destruct Hd as [(Eri & E1 & H0) | (tab0 & e0 & tab1 & e1 & H0 & H1 & Hee & Hri & _)].
  2: { exfalso. unfold dictIsRehashing in Enr. apply negb_false_iff, Z.eqb_eq in Enr. lia. }
  destruct H0 as [E0 | (tab & e & H0)].
  - rewrite E0. cbn [ht_table ht_reset fst snd]. unfold elems in *. cbn [ht0 ht1]. rewrite E0, E1 in *.
    split; [| split; [unfold ht_elems; cbn [ht_table]; by rewrite tab_elems_repeat | done]].
    split; [left; cbn [rehashidx ht0 ht1]; split; [done |]; split; [done |]; right; eauto |].
    unfold elems, ht_elems. cbn [ht0 ht1 ht_table ht_reset]. by rewrite tab_elems_repeat.
  - pose proof H0 as [Eh0 Hok0]. rewrite Eh0 in E3. cbn [ht_size_exp] in E3.
    assert (ht_table (ht0 d) = Some tab) as -> by (by rewrite Eh0). cbn [fst snd].
    assert (elems (Dict (ht0 d) (HT (Some (repeat Null (Z.to_nat (2 ^ ne)))) ne 0) 0 (pauserehash d)) = elems d) as Ee.
    { unfold elems. cbn [ht0 ht1]. rewrite E1. unfold ht_elems at 2 4. cbn [ht_table ht_reset]. by rewrite tab_elems_repeat. }
    rewrite Ee. split; [split; [| by rewrite Ee] | by rewrite Eh0].
    right. cbn [ht0 ht1 rehashidx]. pose proof (pow_exp_bounds e (proj1 Hok0)).
    eexists tab, e, _, ne. split; [done |]. split; [exact Hnew |]. split; [done |]. split; [lia | intros; lia].
Qed.
End ops.
