(* ===== verification/DictRehash.v ===== *)
(** dict.c: incremental rehashing moves the elements, one bucket at a time,
    and ends. *)
From S2P Require Import Prelude Dict DictInv DictOps.

Section rehash.
Context {K V : Type} (t : dictType K V) {Ht : DictTypeOk t} (resize : dictResizeEnable).
Implicit Types (k : K) (de : dictEntry K V) (h : ht K V) (d : dict K V) (l : list (K * option V)).

(** The bucket of the new table an entry of bucket [idx] goes to. *)
Lemma new_bucket e0 e1 idx k : 0 <= e0 <= 60 -> 0 <= e1 <= 60 -> hashFunction t k mod 2 ^ e0 = idx ->
  (if e0 <? e1 then Z.land (hashFunction t k) (DICTHT_SIZE_MASK e1) else Z.land idx (DICTHT_SIZE_MASK e1)) =
  hashFunction t k mod 2 ^ e1.
Proof.
  intros H0 H1 <-. rewrite !land_mask by done. case_if; [done |].
  replace e0 with (e1 + (e0 - e1)) by lia. rewrite Z.pow_add_r by lia.
  pose proof (Z.pow_pos_nonneg 2 e1). pose proof (Z.pow_pos_nonneg 2 (e0 - e1)).
  rewrite (Z.rem_mul_r _ (2 ^ e1) (2 ^ (e0 - e1))) by lia. rewrite Z.mul_comm, Z.mod_add, Z.mod_mod by lia. done.
Qed.

(** One entry is put in front of its new bucket. *)
Definition move_entry h1 (de : dictEntry K V) (key : K) (h : Z) : option (ht K V) :=
  b ← bucket h1 h;
  de' ← (if no_value t then
           if keys_are_odd t && isNull b then _ ← assert_ (key_is_odd t key); Some (EKey key)
           else if entryIsKey de then Some (createEntryNoValue key b)
           else _ ← assert_ (entryIsNoValue de); dictSetNext de b
         else dictSetNext de b);
  set_bucket h1 h de'.

Lemma move_entry_ok h1 tab1 e1 de key kv rest : ht_ok t h1 tab1 e1 -> entry_ok t de -> entries de = kv :: rest ->
  dictGetKey de = Some key -> zlen (tab_elems tab1) + 1 < 2 ^ 64 ->
  exists h1', move_entry h1 de key (hashFunction t key mod 2 ^ e1) = Some h1' /\
    exists tab1', ht_ok t (add_used h1' 1) tab1' e1 /\ tab_elems tab1' ≡ₚ kv :: tab_elems tab1.
Proof.
  intros Hht Hde Een Hkey Hlen. pose proof Hht as [Eh Hok].
  destruct (bucket_ok t _ tab1 e1 (hashFunction t key) Hht) as (b & Eb & Etab & Hb & Hin).
  unfold move_entry. rewrite Eb. cbn [mbind option_bind].
  assert (exists de', (if no_value t then
           if keys_are_odd t && isNull b then _ ← assert_ (key_is_odd t key); Some (EKey key)
           else if entryIsKey de then Some (createEntryNoValue key b)
           else _ ← assert_ (entryIsNoValue de); dictSetNext de b
         else dictSetNext de b) = Some de' /\ entry_ok t de' /\ entries de' = kv :: entries b) as (de' & -> & Hde' & Een').
  { destruct de as [| k0 | k0 nx | k0 v0 nx]; cbn [entries] in Een; try done; injection Een as <- <-;
      cbn [dictGetKey] in Hkey; injection Hkey as <-; cbn [entry_ok] in Hde.
    - destruct Hde as [Env Hodd]. rewrite Env, Hodd. destruct (isNull b) eqn:En; cbn [andb entryIsKey].
      + rewrite (keys_odd Hodd). cbn [assert_ mbind option_bind]. exists (EKey k0). by destruct b.
      + exists (ENoValue k0 b). done.
    - destruct Hde as [Env _]. rewrite Env.
      destruct (keys_are_odd t) eqn:Eodd, (isNull b) eqn:En; cbn [andb entryIsKey entryIsNoValue assert_ mbind option_bind dictSetNext].
      1: rewrite (keys_odd Eodd); cbn [assert_ mbind option_bind]; exists (EKey k0); by destruct b.
      all: exists (ENoValue k0 b); done.
    - destruct Hde as [Env _]. rewrite Env. exists (ENormal k0 v0 b). done. }
  cbn [mbind option_bind].
  assert (keyCompare t key kv.1 = true /\ key = kv.1) as [Hkk Hke].
  { destruct de; cbn [entries dictGetKey] in *; try done; injection Een as <- _; injection Hkey as <-; split; try done; apply compare_refl. }
  assert (Forall (in_bucket t e1 (Z.to_nat (hashFunction t key mod 2 ^ e1))) (entries de')) as Hin'.
  { rewrite Een'. constructor; [| done]. unfold in_bucket. rewrite <- Hke.
    pose proof (pow_exp_bounds e1 (proj1 Hok)). pose proof (Z.mod_pos_bound (hashFunction t key) (2 ^ e1)). lia. }
  destruct (set_bucket_ok t h1 tab1 e1 _ b de' Hht Etab Hde' Hin') as [-> Htab']. eexists. split; [reflexivity |].
  destruct (tab_split tab1 _ b Etab) as (r & P1 & P2). specialize (P2 de'). rewrite Een' in P2. cbn [app] in P2. rewrite <- P1 in P2.
  eexists. split; [| exact P2]. pose proof (zlen_Permutation _ _ P2) as L. rewrite zlen_cons in L.
  apply (add_used_ok t tab1); try done; lia.
Qed.

Lemma rehash_chain_step h0 h1 idx de key : dictGetKey de = Some key ->
  rehash_chain t h0 h1 idx de =
    (h1' ← move_entry h1 de key (if ht_size_exp h0 <? ht_size_exp h1 then Z.land (hashFunction t key) (DICTHT_SIZE_MASK (ht_size_exp h1))
                                 else Z.land idx (DICTHT_SIZE_MASK (ht_size_exp h1)));
     rehash_chain t (add_used h0 (-1)) (add_used h1' 1) idx (dictGetNext de)).
Proof.
  destruct de as [| k0 | k0 nx | k0 v0 nx]; cbn [dictGetKey]; intros Hk; [done | injection Hk as -> ..];
    cbn [rehash_chain dictGetNext]; unfold move_entry;
    destruct (bucket h1 _) as [b |]; cbn [mbind option_bind]; try done;
    match goal with |- context [if no_value t then ?x else ?y] => destruct (if no_value t then x else y) as [de' |] end; done.
Qed.

Lemma rehash_chain_ok tab0 e0 idx de n0 h1 tab1 e1 : 0 <= e0 <= 60 -> entry_ok t de ->
  Forall (fun kv => hashFunction t kv.1 mod 2 ^ e0 = idx) (entries de) -> zlen (entries de) <= n0 < 2 ^ 62 ->
  ht_ok t h1 tab1 e1 -> zlen (tab_elems tab1) + zlen (entries de) < 2 ^ 62 ->
  exists tab1' h1', rehash_chain t (HT (Some tab0) e0 n0) h1 idx de = Some (HT (Some tab0) e0 (n0 - zlen (entries de)), h1') /\
    ht_ok t h1' tab1' e1 /\ tab_elems tab1' ≡ₚ entries de ++ tab_elems tab1.
Proof.
  intros He0. remember (length (entries de)) as n eqn:En. revert de n0 h1 tab1 En.
  induction n as [| n IH]; intros de n0 h1 tab1 En Hde Hin Hn Hht Hl.
  { destruct de; try done. exists tab1, h1. split; [| done]. cbn [rehash_chain entries]. rewrite (@zlen_nil (K * option V)), Z.sub_0_r. done. }
  assert (exists kv, entries de = kv :: entries (dictGetNext de) /\ dictGetKey de = Some kv.1) as (kv & Een & Hk)
    by (destruct de; try done; eexists; split; reflexivity).
  rewrite Een in *. apply Forall_cons in Hin as [Hin1 Hin2]. rewrite zlen_cons in Hn, Hl.
  pose proof (zlen_nonneg (entries (dictGetNext de))).
  rewrite (rehash_chain_step _ _ _ _ _ Hk). cbn [ht_size_exp]. pose proof Hht as [Eh [He1 _]].
  assert (ht_size_exp h1 = e1) as -> by (by rewrite Eh). rewrite (new_bucket e0 e1 idx) by done.
  destruct (move_entry_ok h1 tab1 e1 de kv.1 kv _ Hht Hde Een Hk) as (h1' & -> & tab1' & Hht' & P); [lia |].
  cbn [mbind option_bind].
  assert (add_used (HT (Some tab0) e0 n0) (-1) = HT (Some tab0) e0 (n0 + -1)) as ->
    by (unfold add_used; cbn [ht_table ht_size_exp ht_used]; by rewrite u64_id by (unfold is_u64; lia)).
  destruct (IH (dictGetNext de) (n0 + -1) (add_used h1' 1) tab1') as (tab2 & h2 & E & H2 & P2).
  - cbn [length] in En. lia.
  - by apply entry_ok_next.
  - done.
  - lia.
  - done.
  - rewrite (zlen_Permutation _ _ P), zlen_cons. lia.
  - exists tab2, h2. rewrite E, zlen_cons. split; [do 3 f_equal; lia |]. split; [done |].
    rewrite P2, P. cbn [app]. by rewrite Permutation_middle.
Qed.

(** ** The loop *)

(** The state between two buckets. *)
Definition rehashing d (tab0 : list (dictEntry K V)) (e0 : Z) (tab1 : list (dictEntry K V)) (e1 : Z) : Prop :=
  ht_ok t (ht0 d) tab0 e0 /\ ht_ok t (ht1 d) tab1 e1 /\ e0 <> e1 /\ 0 <= rehashidx d <= 2 ^ e0 /\
  forall i, Z.of_nat i < rehashidx d -> tab0 !! i = Some Null.

Lemma all_null (tab : list (dictEntry K V)) : (forall i, (i < length tab)%nat -> tab !! i = Some Null) -> tab_elems tab = [].
Proof.
  unfold tab_elems. induction tab as [| de tab IH]; intros H; [done |]. cbn [map concat].
  pose proof (H O ltac:(cbn; lia)) as H0. injection H0 as ->. cbn [entries app]. apply IH.
  intros i Hi. apply (H (S i)). cbn. lia.
Qed.

(** While elements are left there is a non empty bucket ahead. *)
Lemma next_bucket d tab0 e0 tab1 e1 : rehashing d tab0 e0 tab1 e1 -> ht_used (ht0 d) <> 0 ->
  exists j de, rehashidx d <= Z.of_nat j < 2 ^ e0 /\ tab0 !! j = Some de /\ de <> Null.
Proof.
  intros ([E0 Hok] & _ & _ & Hi & Hnull) Hu. rewrite E0 in Hu. cbn [ht_used] in Hu. destruct Hok as (He & Hl & _).
  destruct (decide (Exists (fun de => isNull de = false) (drop (Z.to_nat (rehashidx d)) tab0))) as [Hex | Hno].
  - apply Exists_exists in Hex as (de & Hde & Hn). apply list_elem_of_lookup in Hde as [j Hj]. rewrite lookup_drop in Hj.
    exists (Z.to_nat (rehashidx d) + j)%nat, de. pose proof (lookup_lt_Some _ _ _ Hj). unfold zlen in Hl.
    split; [lia |]. split; [done |]. by intros ->.
  - exfalso. apply Hu. rewrite all_null; [done |]. intros i Hlt. destruct (Z.lt_ge_cases (Z.of_nat i) (rehashidx d)) as [? | Hge]; [by apply Hnull |].
    apply not_Exists_Forall in Hno; [| solve_decision]. rewrite Forall_lookup in Hno.
    destruct (lookup_lt_is_Some_2 tab0 i Hlt) as [de Hde].
    specialize (Hno (i - Z.to_nat (rehashidx d))%nat de). rewrite lookup_drop in Hno.
    replace (Z.to_nat (rehashidx d) + (i - Z.to_nat (rehashidx d)))%nat with i in Hno by lia. specialize (Hno Hde).
    destruct de; try (exfalso; by apply Hno). done.
Qed.

Lemma skip_ok h0 tab0 e0 j de fuel idx ev : ht_ok t h0 tab0 e0 -> tab0 !! j = Some de -> de <> Null -> 0 <= idx <= Z.of_nat j -> 1 <= ev ->
  (j - Z.to_nat idx < fuel)%nat -> (forall i, Z.of_nat i < idx -> tab0 !! i = Some Null) ->
  exists idx' ev' stop, rehash_skip fuel h0 idx ev = Some (idx', ev', stop) /\ idx <= idx' <= Z.of_nat j /\
    (forall i, Z.of_nat i < idx' -> tab0 !! i = Some Null) /\
    (if stop : bool then idx < idx' else 1 <= ev' /\ exists de', tab0 !! Z.to_nat idx' = Some de' /\ de' <> Null).
Proof.
  intros Hht Hj Hde. revert idx ev. induction fuel as [| fuel IH]; intros idx ev Hi Hev Hf Hnull; [lia |].
  cbn [rehash_skip]. unfold bucket. destruct Hht as [Eh Hok] eqn:EHht. rewrite Eh. cbn [ht_table mbind option_bind].
  pose proof (lookup_lt_Some _ _ _ Hj). destruct (lookup_lt_is_Some_2 tab0 (Z.to_nat idx)) as [b Hb]; [lia |]. rewrite Hb. cbn [mbind option_bind].
  destruct (isNull b) eqn:En.
  - destruct b; try done. assert (idx <> Z.of_nat j) as Hne by (intros ->; rewrite Nat2Z.id in Hb; congruence).
    assert (forall i, Z.of_nat i < idx + 1 -> tab0 !! i = Some Null) as Hnull'.
    { intros i Hlt. destruct (Z.eq_dec (Z.of_nat i) idx) as [<- |]; [by rewrite Nat2Z.id in Hb | apply Hnull; lia]. }
    case_if.
    + exists (idx + 1), 0, true. split; [done |]. split; [lia |]. split; [done | lia].
    + rewrite <- Eh. destruct (IH (idx + 1) (ev - 1)) as (idx' & ev' & stop & E' & H1 & H2 & H3); [lia | lia | lia | done |].
      exists idx', ev', stop. split; [done |]. split; [lia |]. split; [done |]. destruct stop; [lia | done].
  - exists idx, ev, false. split; [done |]. split; [lia |]. split; [done |]. split; [lia |]. exists b. split; [done |]. by intros ->.
Qed.

(** Emptying one bucket. *)
Lemma bucket_moved d tab0 e0 tab1 e1 idx de : rehashing d tab0 e0 tab1 e1 -> zlen (elems d) < 2 ^ 60 ->
  rehashidx d <= idx -> tab0 !! Z.to_nat idx = Some de -> (forall i, Z.of_nat i < idx -> tab0 !! i = Some Null) ->
  exists h0 h1 h0', bucket (ht0 d) idx = Some de /\ rehash_chain t (ht0 d) (ht1 d) idx de = Some (h0, h1) /\
    set_bucket h0 idx Null = Some h0' /\
    let d' := Dict h0' h1 (idx + 1) (pauserehash d) in
    elems d' ≡ₚ elems d /\ exists tab0' tab1', rehashing d' tab0' e0 tab1' e1.
Proof.
  intros (H0 & H1 & Hee & Hi & Hnull) Hlen Hge Hde Hnull'. pose proof H0 as [E0 (He0 & Hl0 & Hb0)]. pose proof H1 as [E1 Hok1].
  destruct (Hb0 _ _ Hde) as [Hok Hin]. destruct (tab_split tab0 _ de Hde) as (r & P1 & P2). specialize (P2 Null). cbn [entries app] in P2.
  pose proof (zlen_Permutation _ _ P1) as L1. pose proof (zlen_Permutation _ _ P2) as L2. rewrite zlen_app in L1.
  destruct (ht_elems_ok t _ _ _ H0) as [Ee0 _], (ht_elems_ok t _ _ _ H1) as [Ee1 _].
  assert (zlen (tab_elems tab0) + zlen (tab_elems tab1) < 2 ^ 60) as Hl by (unfold elems in Hlen; by rewrite zlen_app, Ee0, Ee1 in Hlen).
  pose proof (zlen_nonneg (entries de)). pose proof (zlen_nonneg r). pose proof (zlen_nonneg (tab_elems tab1)).
  destruct (rehash_chain_ok tab0 e0 idx de (zlen (tab_elems tab0)) (ht1 d) tab1 e1 He0 Hok) as (tab1' & h1' & Ec & H1' & P3); [| lia | done | lia |].
  { eapply Forall_impl; [exact Hin |]. intros kv Hkv. unfold in_bucket in Hkv. cbn in Hkv. lia. }
  exists (HT (Some tab0) e0 (zlen (tab_elems tab0) - zlen (entries de))), h1', (HT (Some (<[Z.to_nat idx := Null]> tab0)) e0 (zlen (tab_elems tab0) - zlen (entries de))).
  split; [unfold bucket; by rewrite E0 |]. split; [by rewrite E0 |].
  split; [unfold set_bucket; cbn [ht_table mbind option_bind]; by rewrite Hde |]. cbv zeta.
  destruct (ht_elems_ok t _ _ _ H1') as [Ee1' _].
  split.
  { unfold elems. cbn [ht0 ht1]. rewrite Ee0, Ee1, Ee1', P3. unfold ht_elems. cbn [ht_table]. rewrite P2, P1.
    rewrite <- app_assoc. apply Permutation_app_swap_app. }
  exists (<[Z.to_nat idx := Null]> tab0), tab1'. pose proof (lookup_lt_Some _ _ _ Hde) as Hlt. unfold zlen in Hl0.
  split; [| split; [exact H1' | split; [exact Hee | cbn [rehashidx]; split; [lia |]]]].
  - split; [cbn [ht0]; f_equal; lia |]. apply tab_ok_insert; [split; [done | split; [done | exact Hb0]] | done | constructor].
  - intros i Hlt'. destruct (decide (i = Z.to_nat idx)) as [-> |]; [by apply list_lookup_insert_eq |].
    rewrite list_lookup_insert_ne by done. apply Hnull'. lia.
Qed.

(** What the loop has done: the same elements, further along. *)
Lemma rehash_loop_ok n d ev tab0 e0 tab1 e1 : rehashing d tab0 e0 tab1 e1 -> zlen (elems d) < 2 ^ 60 -> (n = O \/ 1 <= ev) ->
  exists d' stop, rehash_loop t n d ev = Some (d', stop) /\ elems d' ≡ₚ elems d /\ pauserehash d' = pauserehash d /\
    (exists tab0' tab1', rehashing d' tab0' e0 tab1' e1) /\ rehashidx d <= rehashidx d' /\
    (n <> O -> ht_used (ht0 d) <> 0 -> rehashidx d < rehashidx d') /\ (stop = true -> ht_used (ht0 d') <> 0) /\ (ht_used (ht0 d) = 0 -> d' = d).
Proof.
  revert d ev tab0 tab1. induction n as [| n IH]; intros d ev tab0 tab1 Hre Hlen Hev; cbn [rehash_loop].
  { exists d, false. split; [done |]. split; [done |]. split; [done |]. split; [eauto |]. split; [lia |]. done. }
  destruct (Z.eqb_spec (ht_used (ht0 d)) 0) as [E0 | Hne]; cbn [negb].
  { exists d, false. split; [done |]. split; [done |]. split; [done |]. split; [eauto |]. split; [lia |]. done. }
  destruct (next_bucket d _ _ _ _ Hre Hne) as (j & de & Hj & Ej & Hde).
  pose proof Hre as (H0 & H1 & Hee & Hi & Hnull). pose proof H0 as [Eh0 (He0 & Hl0 & _)].
  assert (DICTHT_SIZE (ht_size_exp (ht0 d)) = 2 ^ e0) as Esz by (rewrite Eh0; by apply size_pow). rewrite Esz.
  rewrite (proj2 (Z.ltb_lt (rehashidx d) _)) by lia. cbn [assert_ mbind option_bind].
  destruct (skip_ok (ht0 d) tab0 e0 j de (S (Z.to_nat (2 ^ e0))) (rehashidx d) ev H0 Ej Hde) as (idx & ev' & stop & -> & Hidx & Hnull' & Hst);
    [lia | lia | lia | done |]. cbn [mbind option_bind].
  destruct stop.
  - exists (Dict (ht0 d) (ht1 d) idx (pauserehash d)), true. split; [done |]. split; [done |]. split; [done |].
    split; [exists tab0, tab1; split; [done |]; split; [done |]; split; [done |]; cbn [rehashidx]; split; [lia | done] |].
    cbn [rehashidx ht0]. split; [lia |]. split; [lia |]. done.
  - destruct Hst as [Hev' (de' & Ede' & _)].
    destruct (bucket_moved d tab0 e0 tab1 e1 idx de' Hre Hlen ltac:(lia) Ede' Hnull') as (h0 & h1 & h0' & -> & Ec & Es & Pe & tab0' & tab1' & Hre').
    cbn [mbind option_bind]. rewrite Ec. cbn [mbind option_bind]. rewrite Es. cbn [mbind option_bind].
    destruct (IH _ ev' _ _ Hre') as (d' & stop & E & P & Ep & Hre2 & Hge & _ & Hstop & _); [by rewrite (zlen_Permutation _ _ Pe) | by right |].
    exists d', stop. split; [exact E |]. split; [by rewrite P |]. split; [exact Ep |]. split; [exact Hre2 |]. cbn [rehashidx] in Hge.
    split; [lia |]. split; [lia |]. by split.
Qed.

(** Buckets still to visit. *)
Definition rehash_left d : Z := if dictIsRehashing d then DICTHT_SIZE (ht_size_exp (ht0 d)) + 1 - rehashidx d else 0.

Lemma dictRehash_ok d n : wf t d ->
  exists d' more, dictRehash t resize d n = Some (d', more) /\ wf t d' /\ elems d' ≡ₚ elems d /\ pauserehash d' = pauserehash d /\
    (ht0 d <> ht_reset -> ht0 d' <> ht_reset) /\
    (more = true -> dictIsRehashing d' = true) /\
    (resize = DICT_RESIZE_ENABLE -> n <> O -> dictIsRehashing d = true -> more = dictIsRehashing d' /\ 0 <= rehash_left d' < rehash_left d).
Proof.
  intros Hwf. pose proof Hwf as (Hd & Hdist & Hlen). unfold dictRehash.
  destruct (bool_decide (resize = DICT_RESIZE_FORBID) || negb (dictIsRehashing d)) eqn:E1.
  { exists d, false. split; [done |]. split; [done |]. split; [done |]. split; [done |]. split; [done |]. split; [done |].
    intros -> _ Hre. rewrite Hre in E1. done. }
  apply orb_false_iff in E1 as [_ E1]. apply negb_false_iff in E1.
  destruct (bool_decide (resize = DICT_RESIZE_AVOID) && _) eqn:E2.
  { exists d, false. split; [done |]. split; [done |]. split; [done |]. split; [done |]. split; [done |]. split; [done |].
    intros -> _ Hre. done. }
  pose proof (proj1 (is_rehashing d) E1) as Hri.
  destruct Hd as [(Eri & _) | (tab0 & e0 & tab1 & e1 & H0 & H1 & Hee & Hi & Hnull)]; [done |].
  destruct (rehash_loop_ok n d (Z.of_nat n * 10) tab0 e0 tab1 e1) as (d1 & stop & -> & P & Ep & (tab0' & tab1' & Hre) & Hge & Hgt & Hstop & Hsame).
  { split; [done |]. split; [done |]. split; [done |]. split; [lia | done]. }
  { done. } { lia. }
  cbn [mbind option_bind]. pose proof Hre as (H0' & H1' & _ & Hi' & Hnull').
  assert (distinct t (elems d1)) as Hdist' by (by rewrite P). pose proof (zlen_Permutation _ _ P) as L. rewrite <- L in Hlen.
  assert (DICTHT_SIZE (ht_size_exp (ht0 d)) = 2 ^ e0) as Es by (destruct H0 as [-> [He _]]; by apply size_pow).
  assert (DICTHT_SIZE (ht_size_exp (ht0 d1)) = 2 ^ e0) as Es' by (destruct H0' as [-> [He _]]; by apply size_pow).
  assert (ht_used (ht0 d1) <> 0 -> wf t d1 /\ dictIsRehashing d1 = true) as Hmore.
  { intros Hu. destruct (next_bucket d1 _ _ _ _ Hre Hu) as (j & de & Hj & _). split; [split; [| by split] | apply is_rehashing; lia].
    right. exists tab0', e0, tab1', e1. split; [done |]. split; [done |]. split; [done |]. split; [lia | done]. }
  assert (ht0 d1 <> ht_reset) as Hnr by (destruct H0' as [-> _]; done).
  assert (0 <= rehashidx d) as Hri0 by lia.
  assert (dictIsRehashing d1 = true -> ht_used (ht0 d1) <> 0 ->
    resize = DICT_RESIZE_ENABLE -> n <> O -> dictIsRehashing d = true -> true = dictIsRehashing d1 /\ 0 <= rehash_left d1 < rehash_left d) as Hprog.
  { intros Hr Hu _ Hn _. split; [done |]. unfold rehash_left. rewrite Hr, E1, Es, Es'. split; [lia |].
    destruct (Z.eq_dec (ht_used (ht0 d)) 0) as [Eu |]; [| specialize (Hgt Hn); lia]. exfalso. apply Hu.
    by rewrite (Hsame Eu). }
  destruct stop.
  - specialize (Hstop eq_refl). destruct (Hmore Hstop) as [Hw Hr]. exists d1, true.
    split; [done |]. split; [done |]. split; [done |]. split; [done |]. split; [done |]. split; [done |]. by apply Hprog.
  - destruct (Z.eqb_spec (ht_used (ht0 d1)) 0) as [Eu | Hu].
    + exists (Dict (ht1 d1) ht_reset (-1) (pauserehash d1)), false. split; [done |].
      assert (elems (Dict (ht1 d1) ht_reset (-1) (pauserehash d1)) = elems d1) as Ee.
      { unfold elems. cbn [ht0 ht1]. destruct (ht_elems_ok t _ _ _ H0') as [Ee0 Eu0]. rewrite Eu in Eu0.
        rewrite (zlen_0 (tab_elems tab0')) in Ee0 by done. rewrite Ee0. unfold ht_elems at 2. cbn [ht_table ht_reset]. by rewrite app_nil_r. }
      split; [| rewrite Ee; split; [done |]; split; [done |]].
      * split; [| by rewrite Ee]. left. cbn [rehashidx ht0 ht1]. split; [done |]. split; [done |]. right. eauto.
      * cbn [ht0]. split; [destruct H1' as [-> _]; done |]. split; [done |]. intros _ _ _. split; [done |].
        unfold rehash_left. rewrite E1, Es.
        assert (dictIsRehashing (Dict (ht1 d1) ht_reset (-1) (pauserehash d1)) = false) as -> by done. lia.
    + destruct (Hmore Hu) as [Hw Hr]. exists d1, true.
      split; [done |]. split; [done |]. split; [done |]. split; [done |]. split; [done |]. split; [done |]. by apply Hprog.
Qed.
End rehash.
