(* ===== verification/DictThms.v ===== *)
(** dict.c: the operations refine those of a finite map. *)
From S2P Require Import Prelude Dict DictInv DictOps DictRehash.

Section steps.
Context {K V : Type} (t : dictType K V) {Ht : DictTypeOk t} (resize : dictResizeEnable).
Implicit Types (k : K) (v : V) (d : dict K V) (l : list (K * option V)).

(** [d'] holds what [d] holds. *)
Definition same d d' : Prop := wf t d' /\ elems d' ≡ₚ elems d /\ (ht0 d <> ht_reset -> ht0 d' <> ht_reset).

Lemma same_refl d : wf t d -> same d d.
Proof. intros H. by split. Qed.

Lemma rehash_step_ok d : wf t d ->
  exists d', (if dictIsRehashing d then _dictRehashStep t resize d else Some d) = Some d' /\ same d d' /\
    pauserehash d' = pauserehash d.
Proof.
  intros Hwf. destruct (dictIsRehashing d); [| exists d; split; [done | split; [by apply same_refl | done]]].
  unfold _dictRehashStep. case_if; [| exists d; split; [done | split; [by apply same_refl | done]]].
  destruct (dictRehash_ok t resize d 1 Hwf) as (d' & more & -> & H1 & H2 & H3 & H4 & _). by exists d'.
Qed.

Lemma elems_not_reset d : wf t d -> elems d <> [] -> ht0 d <> ht_reset.
Proof.
  intros ([(_ & E1 & _) | (tab0 & e0 & tab1 & e1 & [E0 _] & _)] & _) Hne E; [| by rewrite E0 in E].
  apply Hne. unfold elems. by rewrite E, E1.
Qed.

Lemma size_zero d : wf t d -> (dictSize d =? 0) = true <-> elems d = [].
Proof.
  intros (Hd & _ & Hl). rewrite (dictSize_ok t d Hd Hl), Z.eqb_eq. split; [apply zlen_0 | by intros ->].
Qed.

(** The common part of the lookups: one rehashing step, then the two tables. *)
Lemma lookup_ok d k : wf t d -> elems d <> [] ->
  exists d1 r, (if dictIsRehashing d then _dictRehashStep t resize d else Some d) = Some d1 /\ same d d1 /\
    pauserehash d1 = pauserehash d /\ find_tables t d1 k = Some r /\ find_result t d1 k r.
Proof.
  intros Hwf Hne. destruct (rehash_step_ok d Hwf) as (d1 & E1 & Hs & Hp). pose proof Hs as (Hwf1 & P & Hr).
  destruct (find_tables_ok t d1 k (proj1 Hwf1)) as (r & E & Hf); [apply Hr; by apply elems_not_reset |]. by exists d1, r.
Qed.

Lemma nonempty d : wf t d -> (dictSize d =? 0) = false -> elems d <> [].
Proof. intros Hwf E H. apply (size_zero d Hwf) in H. congruence. Qed.

(** ** Expansion before insertion *)

Lemma expand_if_needed_ok d : wf t d -> zlen (elems d) < 2 ^ 58 ->
  exists d', _dictExpandIfNeeded t resize d = (d', true) /\ wf t d' /\ elems d' = elems d /\ ht0 d' <> ht_reset /\
    pauserehash d' = pauserehash d.
Proof.
  intros Hwf Hl. pose proof Hwf as (Hd & Hdist & _). unfold _dictExpandIfNeeded.
  destruct (dictIsRehashing d) eqn:Er.
  { apply is_rehashing in Er. destruct Hd as [(? & _) | (tab0 & e0 & tab1 & e1 & [E0 _] & _)]; [done |].
    exists d. split; [done |]. split; [done |]. split; [done |]. split; [by rewrite E0 | done]. }
  destruct Hd as [(Eri & E1 & [E0 | (tab & e & H0)]) | (tab0 & e0 & tab1 & e1 & _ & _ & _ & Hi & _)].
  3: { unfold dictIsRehashing in Er. apply negb_false_iff, Z.eqb_eq in Er. lia. }
  - rewrite E0. cbn [ht_size_exp ht_reset]. change (DICTHT_SIZE (-1) =? 0) with true. cbv iota.
    destruct (expand_ok t d DICT_HT_INITIAL_SIZE Hwf) as (W & E & P & Hr & _); [done |].
    assert ((dictExpand d DICT_HT_INITIAL_SIZE).2 = true) as E2 by (unfold dictExpand; rewrite Er, E0; reflexivity).
    destruct (dictExpand d DICT_HT_INITIAL_SIZE) as [d' ok]. cbn [fst snd] in *. exists d'. subst ok. split; [done |]. split; [done |]. split; [done |]. split; [by apply Hr | done].
  - pose proof H0 as [Eh [He Hb]]. destruct (ht_elems_ok t _ _ _ H0) as [Ee Eu].
    assert (zlen (elems d) = zlen (tab_elems tab)) as El by (unfold elems; rewrite Ee, E1; unfold ht_elems; cbn [ht_table ht_reset]; by rewrite app_nil_r).
    assert (DICTHT_SIZE (ht_size_exp (ht0 d)) = 2 ^ e) as Es by (rewrite Eh; by apply size_pow). rewrite Es, Eu.
    pose proof (pow_exp_bounds e He). pose proof (zlen_nonneg (tab_elems tab)).
    rewrite (proj2 (Z.eqb_neq (2 ^ e) 0)) by lia.
    assert (ht0 d <> ht_reset) as Hnr by (by rewrite Eh).
    destruct (_ || _) eqn:Eneed; [| by exists d]. destruct (negb (dictTypeExpandAllowed t d)); [by exists d |].
    assert (2 ^ e <= zlen (tab_elems tab)) as Hge.
    { apply orb_true_iff in Eneed as [E | E]; apply andb_true_iff in E as [_ E]; [by apply Z.leb_le in E |].
      apply Z.ltb_lt in E. unfold dict_force_resize_ratio in E. pose proof (Z.mul_div_le (zlen (tab_elems tab)) (2 ^ e) ltac:(lia)). nia. }
    rewrite u64_id by (unfold is_u64; lia). destruct (expand_ok t d (zlen (tab_elems tab) + 1) Hwf) as (W & E & P & Hr & _); [lia |].
    assert ((dictExpand d (zlen (tab_elems tab) + 1)).2 = true) as E2.
    { unfold dictExpand. rewrite Er, Eu. cbn [orb]. rewrite (proj2 (Z.ltb_ge _ _)) by lia.
      destruct (next_exp_bounds (zlen (tab_elems tab) + 1)) as [Hne1 Hne2]; [lia |]. set (ne := _dictNextExp _) in *.
      pose proof (size_pow ne ltac:(lia)) as Esz. unfold DICTHT_SIZE in Esz. rewrite (proj2 (Z.eqb_neq ne (-1))) in Esz by lia. rewrite Esz.
      rewrite (proj2 (Z.ltb_ge (2 ^ ne) (zlen (tab_elems tab) + 1))) by lia. pose proof (pow_exp_bounds ne ltac:(lia)).
      rewrite u64_id by (unfold is_u64; lia). rewrite (proj2 (Z.ltb_ge (2 ^ ne * 8) _)) by lia. cbn [orb].
      assert (ht_size_exp (ht0 d) = e) as -> by (by rewrite Eh). rewrite (proj2 (Z.eqb_neq ne e)) by (intros ->; lia).
      by destruct (ht_table (ht0 d)). }
    destruct (dictExpand d (zlen (tab_elems tab) + 1)) as [d' ok]. cbn [fst snd] in *. exists d'. subst ok. split; [done |]. split; [done |]. split; [done |]. split; [by apply Hr | done].
Qed.

(** ** Insertion *)

Lemma add_raw_ok d k : wf t d -> zlen (elems d) < 2 ^ 58 ->
  exists d' r, dictAddRaw t resize d k = Some (d', r) /\ wf t d' /\ pauserehash d' = pauserehash d /\
    match r with
    | Added p => matches t k (elems d) = [] /\ elems d' ≡ₚ (keyDup t k, None) :: elems d /\
        exists tab e de he, found t d' k p tab e de (keyDup t k, None) he
    | Existing p => elems d' ≡ₚ elems d /\ exists tab e de kv he, found t d' k p tab e de kv he
    | AddError => False
    end.
Proof.
  intros Hwf Hl. unfold dictAddRaw, dictFindPositionForInsert.
  destruct (rehash_step_ok d Hwf) as (d1 & -> & (Hwf1 & P1 & _) & Hp1). cbn [mbind option_bind].
  destruct (expand_if_needed_ok d1 Hwf1) as (d2 & -> & Hwf2 & E2 & Hnr & Hp2); [by rewrite (zlen_Permutation _ _ P1) |].
  cbn [negb]. destruct (find_tables_ok t d2 k (proj1 Hwf2) Hnr) as (r & -> & Hr). cbn [mbind option_bind].
  destruct r as [p |]; cbn [find_result] in Hr.
  - exists d2, (Existing p). split; [done |]. split; [done |]. split; [congruence |]. split; [by rewrite E2 | done].
  - assert (exists tab e, ht_ok t (ht_of d2 (dictIsRehashing d2)) tab e) as (tab & e & Hht).
    { destruct Hwf2 as ([(Eri & E1 & [E0 | (tab & e & H0)]) | (tab0 & e0 & tab1 & e1 & H0 & H1 & _ & Hi & _)] & _); [done | |].
      - unfold dictIsRehashing. rewrite Eri. exists tab, e. exact H0.
      - assert (dictIsRehashing d2 = true) as -> by (apply is_rehashing; lia). by exists tab1, e1. }
    assert (ht_size_exp (ht_of d2 (dictIsRehashing d2)) = e) as -> by (destruct Hht as [-> _]; done).
    rewrite (land_mask e) by apply Hht.
    destruct (insert_ok t d2 tab e _ k (keyDup t k) Hwf2 eq_refl Hht) as (d3 & -> & Hwf3 & P3 & (tab' & de & he & Hf) & _ & Hp3).
    { rewrite E2, (zlen_Permutation _ _ P1). lia. } { done. } { apply dup_same. }
    eexists d3, _. split; [reflexivity |]. split; [done |]. split; [congruence |].
    split; [| split; [by rewrite P3, E2, P1 | eauto 10]].
    apply Permutation_nil. by rewrite <- P1, <- E2, Hr.
Qed.

(** A key that was just added is the only match. *)
Lemma others_added k key (o : option V) l : matches t k l = [] -> keyCompare t key k = true -> others t k ((key, o) :: l) ≡ₚ l.
Proof.
  intros Hm Hk. unfold others. rewrite filter_cons, decide_False by (cbn; intros H; by rewrite (compare_sym _ _ Hk) in H).
  fold (others t k l). rewrite (split_match t k l) at 2. by rewrite Hm.
Qed.
End steps.

(** * Specification *)

Inductive dict_op (K V : Type) :=
| DAdd (k : K) (v : V) | DReplace (k : K) (v : V) | DDelete (k : K) | DFetch (k : K) | DTwoPhaseUnlink (k : K)
| DRehash (n : nat) | DExpand (size : Z) | DResize | DEmpty.
Arguments DAdd {K V}. Arguments DReplace {K V}. Arguments DDelete {K V}. Arguments DFetch {K V}.
Arguments DTwoPhaseUnlink {K V}. Arguments DRehash {K V}. Arguments DExpand {K V}. Arguments DResize {K V}. Arguments DEmpty {K V}.

Inductive outcome (V : Type) := OBool (b : bool) | OVal (v : option (option V)) | OUnit.
Arguments OBool {V}. Arguments OVal {V}. Arguments OUnit {V}.

Section spec.
Context {K V : Type} (t : dictType K V) (resize : dictResizeEnable).

Definition run_op (d : dict K V) (op : dict_op K V) : option (dict K V * outcome V) :=
  match op with
  | DAdd k v => '(d, b) ← dictAdd t resize d k v; Some (d, OBool b)
  | DReplace k v => '(d, b) ← dictReplace t resize d k v; Some (d, OBool b)
  | DDelete k => '(d, b) ← dictDelete t resize d k; Some (d, OBool b)
  | DFetch k => '(d, v) ← dictFetchValue t resize d k; Some (d, OVal v)
  | DTwoPhaseUnlink k =>
      '(d, p) ← dictTwoPhaseUnlinkFind t resize d k;
      d ← dictTwoPhaseUnlinkFree d p;
      Some (d, OBool (match p with Some _ => true | None => false end))
  | DRehash n => '(d, _) ← dictRehash t resize d n; Some (d, OUnit)
  | DExpand size => Some ((dictExpand d size).1, OUnit)
  | DResize => Some ((dictResize resize d).1, OUnit)
  | DEmpty => Some (dictEmpty d, OUnit)
  end.

Fixpoint run_ops (d : dict K V) (ops : list (dict_op K V)) : option (dict K V * list (outcome V)) :=
  match ops with
  | [] => Some (d, [])
  | op :: ops => '(d, o) ← run_op d op; '(d, os) ← run_ops d ops; Some (d, o :: os)
  end.

(** The same on a list of elements with distinct keys. *)
Definition has (k : K) (l : list (K * option V)) : bool := match matches t k l with [] => false | _ => true end.
Definition op_spec (l : list (K * option V)) (op : dict_op K V) : list (K * option V) * outcome V :=
  match op with
  | DAdd k v =>
      if has k l then (l, OBool false)
      else ((keyDup t k, if no_value t then None else Some (valDup t v)) :: l, OBool true)
  | DReplace k v =>
      match matches t k l with
      | kv :: _ => ((kv.1, Some (valDup t v)) :: others t k l, OBool false)
      | [] => ((keyDup t k, Some (valDup t v)) :: l, OBool true)
      end
  | DDelete k | DTwoPhaseUnlink k => (others t k l, OBool (has k l))
  | DFetch k => (l, OVal (snd <$> head (matches t k l)))
  | DRehash _ | DExpand _ | DResize => (l, OUnit)
  | DEmpty => ([], OUnit)
  end.
Fixpoint ops_spec (l : list (K * option V)) (ops : list (dict_op K V)) : list (K * option V) * list (outcome V) :=
  match ops with
  | [] => (l, [])
  | op :: ops => let r := op_spec l op in let rs := ops_spec r.1 ops in (rs.1, r.2 :: rs.2)
  end.

(** Values are only used where the type has them; sizes are below 2^58. *)
Definition op_ok (l : list (K * option V)) (op : dict_op K V) : Prop :=
  zlen l < 2 ^ 58 /\
  match op with
  | DReplace _ _ | DFetch _ => no_value t = false
  | DExpand size => 0 <= size < 2 ^ 64
  | _ => True
  end.
Fixpoint ops_ok (l : list (K * option V)) (ops : list (dict_op K V)) : Prop :=
  match ops with
  | [] => True
  | op :: ops => op_ok l op /\ ops_ok (op_spec l op).1 ops
  end.
End spec.

Section refine.
Context {K V : Type} (t : dictType K V) {Ht : DictTypeOk t} (resize : dictResizeEnable).
Implicit Types (k : K) (v : V) (d : dict K V) (l : list (K * option V)).

(** The specification does not depend on the order of the elements. *)
Lemma matches_perm k l1 l2 : distinct t l1 -> l1 ≡ₚ l2 -> matches t k l1 = matches t k l2.
Proof.
  intros Hd P. specialize (Hd k). pose proof (matches_Permutation t k _ _ P) as Pm.
  destruct (matches t k l1) as [| x [| y m]]; [by apply Permutation_nil_l in Pm | | cbn in Hd; lia].
  symmetry. by apply Permutation_length_1_inv.
Qed.

Lemma op_spec_perm l1 l2 op : distinct t l1 -> l1 ≡ₚ l2 ->
  (op_spec t l1 op).1 ≡ₚ (op_spec t l2 op).1 /\ (op_spec t l1 op).2 = (op_spec t l2 op).2.
Proof.
  intros Hd P. destruct op; cbn [op_spec]; unfold has; rewrite <- ?(matches_perm _ l1 l2) by done.
  - destruct (matches t k l1); cbn [fst snd]; split; try done. by rewrite P.
  - destruct (matches t k l1); cbn [fst snd]; split; try done; by rewrite P.
  - split; [cbn [fst]; by rewrite P | done].
  - by split.
  - split; [cbn [fst]; by rewrite P | done].
  - by split.
  - by split.
  - by split.
  - by split.
Qed.

Lemma others_none k l : matches t k l = [] -> others t k l ≡ₚ l.
Proof. intros H. rewrite (split_match t k l) at 2. by rewrite H. Qed.

Lemma found_matches d k p tab e de kv he : wf t d -> found t d k p tab e de kv he -> matches t k (elems d) = [kv].
Proof.
  intros (_ & Hdist & _) Hf. apply matches_one; [done | by eapply found_elem | by eapply fd_key].
Qed.

(** What each operation does to the list of elements, up to their order. *)
Lemma add_ok d k v : wf t d -> zlen (elems d) < 2 ^ 58 ->
  exists d' b, dictAdd t resize d k v = Some (d', b) /\ wf t d' /\
    elems d' ≡ₚ (op_spec t (elems d) (DAdd k v)).1 /\ OBool b = (op_spec t (elems d) (DAdd k v)).2.
Proof.
  intros Hwf Hl. unfold dictAdd. destruct (add_raw_ok t resize d k Hwf Hl) as (d1 & r & -> & Hwf1 & Hp & Hr).
  cbn [mbind option_bind op_spec]. unfold has. destruct r as [p | p |]; [| | done].
  - destruct Hr as (Hm & P & tab & e & de & he & Hf). rewrite Hm. destruct (no_value t) eqn:Env; cbn [negb].
    + exists d1, true. by split.
    + destruct (set_val_ok t d1 k p tab e de _ he v Hwf1 Env Hf) as (d2 & -> & Hwf2 & P2 & _). cbn [mbind option_bind].
      exists d2, true. split; [done |]. split; [done |]. split; [| done]. cbn [fst]. rewrite P2, P. cbn [fst]. constructor.
      apply others_added; [done | done | apply dup_same].
  - destruct Hr as (P & tab & e & de & kv & he & Hf). exists d1, false.
    rewrite <- (matches_perm k (elems d1) (elems d)) by (done || apply Hwf1). rewrite (found_matches _ _ _ _ _ _ _ _ Hwf1 Hf). by split.
Qed.

Lemma replace_ok d k v : wf t d -> zlen (elems d) < 2 ^ 58 -> no_value t = false ->
  exists d' b, dictReplace t resize d k v = Some (d', b) /\ wf t d' /\
    elems d' ≡ₚ (op_spec t (elems d) (DReplace k v)).1 /\ OBool b = (op_spec t (elems d) (DReplace k v)).2.
Proof.
  intros Hwf Hl Env. unfold dictReplace. destruct (add_raw_ok t resize d k Hwf Hl) as (d1 & r & -> & Hwf1 & Hp & Hr).
  cbn [mbind option_bind op_spec]. destruct r as [p | p |]; [| | done].
  - destruct Hr as (Hm & P & tab & e & de & he & Hf). rewrite Hm.
    destruct (set_val_ok t d1 k p tab e de _ he v Hwf1 Env Hf) as (d2 & -> & Hwf2 & P2 & _). cbn [mbind option_bind].
    exists d2, true. split; [done |]. split; [done |]. split; [| done]. cbn [fst]. rewrite P2, P. cbn [fst]. constructor.
    apply others_added; [done | done | apply dup_same].
  - destruct Hr as (P & tab & e & de & kv & he & Hf).
    destruct (set_val_ok t d1 k p tab e de kv he v Hwf1 Env Hf) as (d2 & -> & Hwf2 & P2 & _). cbn [mbind option_bind].
    exists d2, false. rewrite <- (matches_perm k (elems d1) (elems d)) by (done || apply Hwf1).
    rewrite (found_matches _ _ _ _ _ _ _ _ Hwf1 Hf). split; [done |]. split; [done |]. split; [| done]. cbn [fst]. by rewrite P2, P.
Qed.

Lemma delete_ok d k : wf t d ->
  exists d' r, dictGenericDelete t resize d k = Some (d', r) /\ wf t d' /\ elems d' ≡ₚ others t k (elems d) /\
    match r with Some he => exists kv, matches t k (elems d) = [kv] /\ dictGetKey he = Some kv.1 /\ (no_value t = false -> dictGetVal he = Some kv.2)
            | None => matches t k (elems d) = [] end.
Proof.
  intros Hwf. unfold dictGenericDelete. destruct (dictSize d =? 0) eqn:Ez.
  { apply (size_zero t d Hwf) in Ez. exists d, None. split; [done |]. split; [done |]. by rewrite Ez. }
  destruct (lookup_ok t resize d k Hwf (nonempty t d Hwf Ez)) as (d1 & r & -> & (Hwf1 & P & _) & _ & E & Hr).
  cbn [mbind option_bind]. rewrite E. cbn [mbind option_bind]. destruct r as [p |]; cbn [find_result] in Hr.
  - destruct Hr as (tab & e & de & kv & he & Hf). rewrite (found_entry_at _ _ _ _ _ _ _ _ _ Hf). cbn [mbind option_bind].
    destruct (unlink_ok t d1 k p tab e de kv he Hwf1 Hf) as (d2 & -> & Hwf2 & P2 & _). cbn [mbind option_bind].
    exists d2, (Some he). split; [done |]. split; [done |]. split; [by rewrite P2, P |].
    exists kv. rewrite <- (matches_perm k (elems d1) (elems d)) by (done || apply Hwf1).
    split; [by apply (found_matches _ _ _ _ _ _ _ _ Hwf1 Hf) |]. split; [by eapply fd_getkey | by eapply fd_val].
  - exists d1, None. assert (matches t k (elems d) = []) as Hm by (by rewrite <- (matches_perm k (elems d1) (elems d)) by (done || apply Hwf1)).
    split; [done |]. split; [done |]. split; [| done]. by rewrite P, others_none.
Qed.

Lemma fetch_ok d k : wf t d -> no_value t = false ->
  exists d', dictFetchValue t resize d k = Some (d', snd <$> head (matches t k (elems d))) /\ wf t d' /\ elems d' ≡ₚ elems d.
Proof.
  intros Hwf Env. unfold dictFetchValue, dictFind. destruct (dictSize d =? 0) eqn:Ez.
  { apply (size_zero t d Hwf) in Ez. exists d. cbn [mbind option_bind]. by rewrite Ez. }
  destruct (lookup_ok t resize d k Hwf (nonempty t d Hwf Ez)) as (d1 & r & -> & (Hwf1 & P & _) & _ & E & Hr).
  cbn [mbind option_bind]. rewrite E. cbn [mbind option_bind]. rewrite <- (matches_perm k (elems d1) (elems d)) by (done || apply Hwf1).
  destruct r as [p |]; cbn [find_result] in Hr.
  - destruct Hr as (tab & e & de & kv & he & Hf). rewrite (found_entry_at _ _ _ _ _ _ _ _ _ Hf). cbn [mbind option_bind].
    rewrite (fd_val _ _ _ _ _ _ _ _ _ Hf Env). cbn [mbind option_bind]. rewrite (found_matches _ _ _ _ _ _ _ _ Hwf1 Hf).
    by exists d1.
  - rewrite Hr. by exists d1.
Qed.

Lemma two_phase_ok d k : wf t d ->
  exists d' p d'', dictTwoPhaseUnlinkFind t resize d k = Some (d', p) /\ dictTwoPhaseUnlinkFree d' p = Some d'' /\
    wf t d'' /\ elems d'' ≡ₚ others t k (elems d) /\ pauserehash d'' = pauserehash d /\
    (match p with Some _ => true | None => false end) = has t k (elems d).
Proof.
  intros Hwf. unfold dictTwoPhaseUnlinkFind, has. destruct (dictSize d =? 0) eqn:Ez.
  { apply (size_zero t d Hwf) in Ez. exists d, None, d. by rewrite Ez. }
  destruct (lookup_ok t resize d k Hwf (nonempty t d Hwf Ez)) as (d1 & r & -> & (Hwf1 & P & _) & Hp & E & Hr).
  cbn [mbind option_bind]. rewrite E. cbn [mbind option_bind]. rewrite <- (matches_perm k (elems d1) (elems d)) by (done || apply Hwf1).
  destruct r as [p |]; cbn [find_result] in Hr.
  - destruct Hr as (tab & e & de & kv & he & Hf).
    assert (wf t (dictPauseRehashing d1)) as Hwfp by exact Hwf1.
    assert (found t (dictPauseRehashing d1) k p tab e de kv he) as Hfp.
    { destruct Hf. constructor; done. }
    destruct (unlink_ok t _ k p tab e de kv he Hwfp Hfp) as (d2 & E2 & Hwf2 & P2 & _ & Hp2).
    exists (dictPauseRehashing d1), (Some p), (dictResumeRehashing d2). split; [done |].
    split; [unfold dictTwoPhaseUnlinkFree; by rewrite E2 |]. split; [exact Hwf2 |].
    split; [change (elems (dictResumeRehashing d2)) with (elems d2); rewrite P2; change (elems (dictPauseRehashing d1)) with (elems d1); by rewrite P |].
    rewrite (found_matches _ _ _ _ _ _ _ _ Hwf1 Hf). split; [| done]. cbn [dictResumeRehashing pauserehash]. rewrite Hp2.
    cbn [dictPauseRehashing pauserehash]. lia.
  - rewrite Hr. exists d1, None, d1. split; [done |]. split; [done |]. split; [done |]. split; [| done].
    rewrite <- P. by rewrite others_none.
Qed.

(** ** The operations refine the specification *)

Lemma run_op_ok d op : wf t d -> op_ok t (elems d) op ->
  exists d', run_op t resize d op = Some (d', (op_spec t (elems d) op).2) /\ wf t d' /\ elems d' ≡ₚ (op_spec t (elems d) op).1.
Proof.
  intros Hwf [Hl Hop]. destruct op; cbn [run_op].
  - destruct (add_ok d k v Hwf Hl) as (d' & b & -> & Hwf' & P & <-). by exists d'.
  - destruct (replace_ok d k v Hwf Hl Hop) as (d' & b & -> & Hwf' & P & <-). by exists d'.
  - unfold dictDelete. destruct (delete_ok d k Hwf) as (d' & r & -> & Hwf' & P & Hr). exists d'. split; [| done].
    cbn [mbind option_bind op_spec snd]. unfold has. destruct r; [by destruct Hr as (kv & -> & _) | by rewrite Hr].
  - destruct (fetch_ok d k Hwf Hop) as (d' & -> & Hwf' & P). by exists d'.
  - destruct (two_phase_ok d k Hwf) as (d1 & p & d2 & -> & E & Hwf2 & P & _ & Hh). cbn [mbind option_bind]. rewrite E.
    exists d2. cbn [mbind option_bind op_spec fst snd]. by rewrite Hh.
  - destruct (dictRehash_ok t resize d n Hwf) as (d' & more & -> & Hwf' & P & _). by exists d'.
  - destruct (expand_ok t d size Hwf Hop) as (Hwf' & E & _). eexists. split; [reflexivity |]. split; [done |]. by rewrite E.
  - eexists. split; [reflexivity |]. cbn [op_spec fst]. unfold dictResize.
    destruct (negb (bool_decide (resize = DICT_RESIZE_ENABLE)) || dictIsRehashing d); [by cbn [fst] |].
    set (m := if ht_used (ht0 d) <? DICT_HT_INITIAL_SIZE then DICT_HT_INITIAL_SIZE else ht_used (ht0 d)).
    assert (0 <= m < 2 ^ 64) as Hm.
    { pose proof (used_elems t d (proj1 Hwf)) as [Hu _]. unfold m. change DICT_HT_INITIAL_SIZE with 4.
      assert (zlen (ht_elems (ht0 d)) <= zlen (elems d)) by (unfold elems; rewrite zlen_app; pose proof (zlen_nonneg (ht_elems (ht1 d))); lia).
      pose proof (zlen_nonneg (ht_elems (ht0 d))). case_if; lia. }
    destruct (expand_ok t d m Hwf Hm) as (Hwf' & E & _). split; [done |]. by rewrite E.
  - exists (dictEmpty d). split; [done |]. split; [| done]. split; [left; split; [done |]; split; [done | by left] |].
    split; [intros k'; cbn; lia | done].
Qed.

Lemma op_ok_perm l1 l2 op : l1 ≡ₚ l2 -> op_ok t l1 op -> op_ok t l2 op.
Proof. intros P. unfold op_ok. by rewrite (zlen_Permutation _ _ P). Qed.

Lemma run_ops_ok d l ops : wf t d -> elems d ≡ₚ l -> ops_ok t l ops ->
  exists d', run_ops t resize d ops = Some (d', (ops_spec t l ops).2) /\ wf t d' /\ elems d' ≡ₚ (ops_spec t l ops).1.
Proof.
  revert d l. induction ops as [| op ops IH]; intros d l Hwf P Hok; [by exists d |]. destruct Hok as [Hop Hops].
  destruct (run_op_ok d op Hwf) as (d1 & E1 & Hwf1 & P1); [by eapply op_ok_perm |].
  destruct (op_spec_perm (elems d) l op) as [Q1 Q2]; [apply Hwf | done |]. rewrite Q1 in P1. rewrite Q2 in E1.
  destruct (IH d1 _ Hwf1 P1 Hops) as (d2 & E2 & Hwf2 & P2). exists d2. split; [| done].
  cbn [run_ops]. rewrite E1. cbn [mbind option_bind]. rewrite E2. done.
Qed.

(** C8: any sequence of additions, replacements, deletions, lookups, two phase
    unlinks, rehashing steps, expansions and resizes, in any of the three
    resize modes and with rehashing in any state, runs without failure,
    keeps the dictionary well formed, and answers and ends like the same
    sequence on a list of elements with distinct keys; the key comparison
    may be any equivalence the hash respects. *)
Theorem dict_refines_map d l ops : wf t d -> elems d ≡ₚ l -> ops_ok t l ops ->
  exists d', run_ops t resize d ops = Some (d', (ops_spec t l ops).2) /\ wf t d' /\ elems d' ≡ₚ (ops_spec t l ops).1.
Proof. apply run_ops_ok. Qed.

(** C9: incremental rehashing terminates: with resizing enabled and rehashing
    not paused, calls that move at least one bucket end with a single table
    that holds the same elements, and so does the timed loop when the clock
    allows; every call keeps the elements. *)
Theorem dictRehash_completes d : wf t d -> resize = DICT_RESIZE_ENABLE -> pauserehash d <= 0 ->
  exists d' r, dictRehashMilliseconds t resize (S (Z.to_nat (rehash_left d))) (fun _ => false) d = Some (d', r) /\
    dictIsRehashing d' = false /\ ht1 d' = ht_reset /\ wf t d' /\ elems d' ≡ₚ elems d.
Proof.
  intros Hwf Hres Hp. unfold dictRehashMilliseconds. rewrite (proj2 (Z.ltb_ge 0 _)) by done.
  assert (forall fuel i d r, wf t d -> rehash_left d < Z.of_nat fuel -> exists d' r',
    rehash_ms_loop t resize fuel (fun _ => false) i d r = Some (d', r') /\ dictIsRehashing d' = false /\ wf t d' /\ elems d' ≡ₚ elems d) as Hloop.
  { clear d Hwf Hp. induction fuel as [| fuel IH]; intros i d r Hwf Hf.
    { exfalso. revert Hf. unfold rehash_left. destruct (dictIsRehashing d) eqn:Er; [| lia]. apply is_rehashing in Er.
      destruct Hwf as ([(? & _) | (tab0 & e0 & tab1 & e1 & [E0 [He _]] & _ & _ & Hi & _)] & _); [done |].
      rewrite E0. cbn [ht_size_exp]. rewrite size_pow by done. lia. }
    cbn [rehash_ms_loop]. destruct (dictIsRehashing d) eqn:Er.
    - destruct (dictRehash_ok t resize d 100 Hwf) as (d1 & more & -> & Hwf1 & P & _ & _ & _ & Hprog).
      cbn [mbind option_bind]. destruct (Hprog Hres ltac:(done) Er) as [-> Hleft].
      destruct (dictIsRehashing d1) eqn:Er1; [| by exists d1, r].
      destruct (IH (S i) d1 (r + 100) Hwf1) as (d2 & r2 & E & H1 & H2 & H3); [lia |]. exists d2, r2. by rewrite <- P.
    - exists d, r. unfold dictRehash. rewrite Er, orb_true_r. done. }
  destruct (Hloop (S (Z.to_nat (rehash_left d))) O d 0 Hwf) as (d' & r & E & H1 & H2 & H3); [lia |].
  exists d', r. split; [done |]. split; [done |]. split; [| done].
  destruct H2 as ([(_ & H2 & _) | (tab0 & e0 & tab1 & e1 & _ & _ & _ & Hi & _)] & _); [done |].
  unfold dictIsRehashing in H1. apply negb_false_iff, Z.eqb_eq in H1. lia.
Qed.
End refine.

(** ** Concrete runs *)

Definition int_type (valueless : bool) : dictType Z Z :=
  DictType Z Z (fun k => k mod 2 ^ 64) (fun k => k) (fun v => v) Z.eqb (fun _ _ _ => true) valueless false Z.odd 0.

#[export] Instance int_type_ok valueless : DictTypeOk (int_type valueless).
Proof.
  split; cbn; intros; rewrite ?Z.eqb_eq in *; subst; try done; [by apply Z.mod_pos_bound | apply Z.eqb_refl ..].
Qed.

Definition small_run : list (dict_op Z Z) :=
  [DAdd 1 10; DAdd 5 50; DAdd 9 90; DAdd 13 130; DAdd 17 170; DAdd 5 51; DReplace 9 91; DFetch 9; DDelete 1; DFetch 1;
   DTwoPhaseUnlink 13; DRehash 3; DResize; DExpand 64; DFetch 17].

Example small_run_outcomes : snd <$> run_ops (int_type false) DICT_RESIZE_ENABLE dictCreate small_run =
  Some [OBool true; OBool true; OBool true; OBool true; OBool true; OBool false; OBool false; OVal (Some (Some 91));
        OBool true; OVal None; OBool true; OUnit; OUnit; OUnit; OVal (Some (Some 170))].
Proof. vm_compute. reflexivity. Qed.

Lemma wf_create {K V} (t : dictType K V) : wf t dictCreate.
Proof. split; [left; split; [done |]; split; [done | by left] |]. split; [intros k; cbn; lia | done]. Qed.

Lemma dict_refines_map_witness :
  exists d', run_ops (int_type false) DICT_RESIZE_ENABLE dictCreate small_run = Some (d', (ops_spec (int_type false) [] small_run).2) /\
    wf (int_type false) d' /\ elems d' ≡ₚ (ops_spec (int_type false) [] small_run).1.
Proof.
  apply (dict_refines_map (int_type false)).
  - apply wf_create.
  - done.
  - vm_compute. repeat (split; try reflexivity; try discriminate).
Defined.

(** Five keys in one bucket, then a table of eight buckets being filled. *)
Definition rehashing_dict : dict Z Z :=
  match run_ops (int_type false) DICT_RESIZE_ENABLE dictCreate (take 5 small_run) with Some (d, _) => d | None => dictCreate end.

Lemma rehashing_wf : wf (int_type false) rehashing_dict /\ dictIsRehashing rehashing_dict = true.
Proof.
  split; [| by vm_compute].
  destruct (run_ops_ok (int_type false) DICT_RESIZE_ENABLE dictCreate [] (take 5 small_run)) as (d' & E & Hwf & _).
  - apply wf_create.
  - done.
  - vm_compute. repeat (split; try reflexivity; try discriminate).
  - unfold rehashing_dict. by rewrite E.
Qed.

Lemma dictRehash_completes_witness :
  exists d' r, dictRehashMilliseconds (int_type false) DICT_RESIZE_ENABLE (S (Z.to_nat (rehash_left rehashing_dict))) (fun _ => false) rehashing_dict = Some (d', r) /\
    dictIsRehashing d' = false /\ ht1 d' = ht_reset /\ wf (int_type false) d' /\ elems d' ≡ₚ elems rehashing_dict.
Proof. apply (dictRehash_completes (int_type false)); [apply rehashing_wf | reflexivity | by vm_compute]. Defined.
