(* ===== verification/DictIter.v ===== *)
(** dict.c: iterators.

    An iterator does not keep the dictionary alive or unchanged: a safe one
    pauses the rehashing, an unsafe one keeps a fingerprint of the tables which
    is compared when it is released.  [addr] gives the addresses of the two
    tables, which the fingerprint includes; the table of an iterator is [false]
    for the first and [true] for the second. *)
From S2P Require Import Prelude Dict DictInv.

Section iterator.
Context {K V : Type} (addr : bool -> Z).
Implicit Types (d : dict K V).

(** One round of Tomas Wang's hash of 64 bit integers. *)
Definition fingerprint_mix (hash integer : Z) : Z :=
  let hash := u64 (hash + integer) in
  let hash := u64 (Z.lxor hash ULLONG_MAX + u64 (Z.shiftl hash 21)) in
  let hash := Z.lxor hash (Z.shiftr hash 24) in
  let hash := u64 (u64 (hash + u64 (Z.shiftl hash 3)) + u64 (Z.shiftl hash 8)) in
  let hash := Z.lxor hash (Z.shiftr hash 14) in
  let hash := u64 (u64 (hash + u64 (Z.shiftl hash 2)) + u64 (Z.shiftl hash 4)) in
  let hash := Z.lxor hash (Z.shiftr hash 28) in
  u64 (hash + u64 (Z.shiftl hash 31)).

Definition dictFingerprint d : Z :=
  fold_left fingerprint_mix
    [u64 (addr false); u64 (ht_size_exp (ht0 d)); u64 (ht_used (ht0 d));
     u64 (addr true); u64 (ht_size_exp (ht1 d)); u64 (ht_used (ht1 d))] 0.

Record dictIterator := DictIterator {
  it_index : Z; it_table : bool; it_safe : bool;
  it_entry : dictEntry K V; it_nextEntry : dictEntry K V; it_fingerprint : Z }.

(** The fingerprint is not initialised. *)
Definition dictInitIterator (junk : Z) : dictIterator := DictIterator (-1) false false Null Null junk.
Definition dictInitSafeIterator (junk : Z) : dictIterator := DictIterator (-1) false true Null Null junk.
Definition dictGetIterator : Z -> dictIterator := dictInitIterator.
Definition dictGetSafeIterator : Z -> dictIterator := dictInitSafeIterator.

Definition unstarted (it : dictIterator) : bool := (it_index it =? -1) && negb (it_table it).

Definition dictResetIterator (it : dictIterator) d : option (dict K V) :=
  if negb (unstarted it) then
    if it_safe it then Some (dictResumeRehashing d)
    else _ ← assert_ (it_fingerprint it =? dictFingerprint d); Some d
  else Some d.
Definition dictReleaseIterator : dictIterator -> dict K V -> option (dict K V) := dictResetIterator.

(** The loop of [dictNext]; each turn visits a bucket or ends a chain, so its
    turns are fewer than the buckets and three. *)
Fixpoint dictNext_loop (fuel : nat) d (it : dictIterator) : option (dict K V * dictIterator * option (dictEntry K V)) :=
  match fuel with
  | O => None
  | S fuel =>
      '(d, it, stop) ← (
        if isNull (it_entry it) then
          let '(d, fp) :=
            if unstarted it then if it_safe it then (dictPauseRehashing d, it_fingerprint it) else (d, dictFingerprint d)
            else (d, it_fingerprint it) in
          let index := it_index it + 1 in
          let '(index, table, stop) :=
            if i64 (DICTHT_SIZE (ht_size_exp (ht_of d (it_table it)))) <=? index then
              if dictIsRehashing d && negb (it_table it) then (0, true, false) else (index, it_table it, true)
            else (index, it_table it, false) in
          if (stop : bool) then Some (d, DictIterator index table (it_safe it) Null (it_nextEntry it) fp, true)
          else
            de ← bucket (ht_of d table) index;
            Some (d, DictIterator index table (it_safe it) de (it_nextEntry it) fp, false)
        else Some (d, DictIterator (it_index it) (it_table it) (it_safe it) (it_nextEntry it) (it_nextEntry it) (it_fingerprint it), false));
      if (stop : bool) then Some (d, it, None)
      else if isNull (it_entry it) then dictNext_loop fuel d it
      else
        Some (d, DictIterator (it_index it) (it_table it) (it_safe it) (it_entry it) (dictGetNext (it_entry it)) (it_fingerprint it),
              Some (it_entry it))
  end.

Definition dictNext d (it : dictIterator) : option (dict K V * dictIterator * option (dictEntry K V)) :=
  dictNext_loop (Z.to_nat (DICTHT_SIZE (ht_size_exp (ht0 d)) + DICTHT_SIZE (ht_size_exp (ht1 d))) + 3) d it.
End iterator.
Arguments dictIterator : clear implicits.

(** * What an iteration returns *)

Section spec.
Context {K V : Type} (t : dictType K V) {Ht : DictTypeOk t} (addr : bool -> Z) (d : dict K V) (Hwf : wf t d).
Implicit Types (it : dictIterator K V) (b : bool).

Definition tab_of b : list (dictEntry K V) := default [] (ht_table (ht_of d b)).

Lemma tab_of_elems b : ht_elems (ht_of d b) = tab_elems (tab_of b).
Proof using. unfold ht_elems, tab_of. by destruct (ht_table (ht_of d b)). Qed.

Lemma tab_of_size b : DICTHT_SIZE (ht_size_exp (ht_of d b)) = zlen (tab_of b) /\ zlen (tab_of b) < 2 ^ 61.
Proof using Hwf.
  assert (forall h tab e, ht_ok t h tab e -> DICTHT_SIZE (ht_size_exp h) = zlen (default [] (ht_table h)) /\ zlen (default [] (ht_table h)) < 2 ^ 61) as H.
  { intros h tab e [-> (He & Hl & _)]. cbn [ht_size_exp ht_table]. unfold default, id. cbn [from_option].
    rewrite size_pow by done. pose proof (pow_exp_bounds e He). lia. }
  assert (DICTHT_SIZE (ht_size_exp (@ht_reset K V)) = zlen (default [] (ht_table (@ht_reset K V))) /\
    zlen (default [] (ht_table (@ht_reset K V))) < 2 ^ 61) as H0 by done.
  unfold tab_of. destruct Hwf as ([(_ & E1 & [E0 | (tab & e & Hok)]) | (tab0 & e0 & tab1 & e1 & Hok0 & Hok1 & _)] & _), b; cbn [ht_of];
    rewrite ?E0, ?E1; try exact H0; eauto.
Qed.

Lemma not_rehashing_tab : dictIsRehashing d = false -> tab_of true = [].
Proof using Hwf.
  unfold dictIsRehashing, tab_of. intros Hr. apply negb_false_iff, Z.eqb_eq in Hr. cbn [ht_of].
  destruct Hwf as ([(_ & -> & _) | (? & ? & ? & ? & _ & _ & _ & ? & _)] & _); [done | lia].
Qed.

Lemma bucket_tab b i de : tab_of b !! Z.to_nat i = Some de -> bucket (ht_of d b) i = Some de.
Proof using. unfold tab_of, bucket. by destruct (ht_table (ht_of d b)). Qed.

(** The elements still to come. *)
Definition rest_of b (index : Z) : list (K * option V) :=
  tab_elems (drop (Z.to_nat (index + 1)) (tab_of b)) ++ (if b then [] else tab_elems (tab_of true)).
Definition todo it : list (K * option V) :=
  (if isNull (it_entry it) then [] else entries (it_nextEntry it)) ++ rest_of (it_table it) (it_index it).

Definition releasable it : Prop :=
  it_safe it = false /\ (unstarted it = false -> it_fingerprint it = dictFingerprint addr d).
Definition iterating it : Prop :=
  releasable it /\ -1 <= it_index it < zlen (tab_of (it_table it)) /\
  (it_table it = true -> dictIsRehashing d = true /\ 0 <= it_index it).

(** The turns that are left. *)
Definition turns it : Z :=
  (if isNull (it_entry it) then 0 else 1) + (zlen (tab_of (it_table it)) - it_index it) + (if it_table it then 0 else zlen (tab_of true)).

Lemma rest_of_step b i de : 0 <= i + 1 -> tab_of b !! Z.to_nat (i + 1) = Some de ->
  rest_of b i = entries de ++ rest_of b (i + 1).
Proof using.
  intros Hi E. unfold rest_of. rewrite (drop_S _ _ _ E). unfold tab_elems. cbn [map concat].
  replace (Z.to_nat (i + 1 + 1)) with (S (Z.to_nat (i + 1))) by lia. by rewrite app_assoc.
Qed.

Lemma rest_of_end b i : zlen (tab_of b) <= i + 1 -> rest_of b i = if b then [] else tab_elems (tab_of true).
Proof using. intros H. unfold rest_of. rewrite drop_ge by (unfold zlen in H; lia). done. Qed.

(** What a call returns: the first element to come, or NULL when there is
    none. *)
Definition returns it (r : option (dict K V * dictIterator K V * option (dictEntry K V))) : Prop :=
  exists it' de, r = Some (d, it', de) /\ releasable it' /\
    match de with
    | Some de => iterating it' /\ exists kv, todo it = kv :: todo it' /\ dictGetKey de = Some kv.1 /\ (kv.2 <> None -> dictGetVal de = Some kv.2)
    | None => todo it = []
    end.

Lemma entry_key (de : dictEntry K V) : isNull de = false -> exists kv, entries de = kv :: entries (dictGetNext de) /\
  dictGetKey de = Some kv.1 /\ (kv.2 <> None -> dictGetVal de = Some kv.2).
Proof using. destruct de as [| k | k next | k v next]; [done | by exists (k, None) | by exists (k, None) | by exists (k, v)]. Qed.

(** The end of a turn in which the next entry has been read. *)
Lemma next_visit fuel it it0 : iterating it ->
  (isNull (it_entry it) = true -> returns it (dictNext_loop addr fuel d it)) ->
  todo it0 = entries (it_entry it) ++ rest_of (it_table it) (it_index it) ->
  returns it0
    (if isNull (it_entry it) then dictNext_loop addr fuel d it
     else Some (d, DictIterator (it_index it) (it_table it) (it_safe it) (it_entry it) (dictGetNext (it_entry it)) (it_fingerprint it), Some (it_entry it))).
Proof using.
  intros Hit IH H0. destruct (isNull (it_entry it)) eqn:En.
  - destruct (IH eq_refl) as (it' & de & E & Hit' & Hde). exists it', de. split; [done |]. split; [done |].
    assert (todo it0 = todo it) as ->; [| done]. rewrite H0. unfold todo. rewrite En. by destruct (it_entry it).
  - eexists _, _. split; [reflexivity |]. split; [exact (proj1 Hit) |]. split; [exact Hit |]. destruct (entry_key _ En) as (kv & E & Ek).
    exists kv. split; [| done]. rewrite H0, E. unfold todo. cbn [it_entry it_nextEntry it_table it_index]. by rewrite En.
Qed.

Lemma dictNext_loop_ok fuel : forall it, iterating it -> turns it < Z.of_nat fuel -> returns it (dictNext_loop addr fuel d it).
Proof using Hwf.
  induction fuel as [| fuel IH]; intros it Hit Hf.
  { destruct Hit as (_ & Hi & _). unfold turns in Hf. pose proof (zlen_nonneg (tab_of true)).
    destruct (isNull _), (it_table it); lia. }
  destruct (tab_of_size (it_table it)) as [Hsize Hmax].
  pose proof (zlen_nonneg (tab_of (it_table it))) as Hn. pose proof (zlen_nonneg (tab_of true)) as Hn1.
  destruct it as [idx b safe ent next fp]. pose proof Hit as ([Hs Hfp] & Hi & Hb). cbn [it_safe it_index it_table it_entry] in *. subst safe.
  cbn [dictNext_loop it_entry it_safe it_index it_table it_fingerprint it_nextEntry].
  destruct (isNull ent) eqn:En.
  2: { cbn [mbind option_bind]. apply (next_visit fuel (DictIterator idx b false next next fp)).
    - exact Hit.
    - intros H2. apply IH; [exact Hit |]. unfold turns in *. cbn [it_entry it_index it_table] in *. rewrite En in Hf. rewrite H2. lia.
    - unfold todo. cbn [it_entry it_nextEntry it_table it_index]. by rewrite En. }
  set (fp' := if unstarted (DictIterator idx b false ent next fp) then dictFingerprint addr d else fp).
  replace (if unstarted _ then (d, dictFingerprint addr d) else (d, fp)) with (d, fp') by (unfold fp'; by destruct (unstarted _)).
  assert (fp' = dictFingerprint addr d) as Hfp'.
  { unfold fp'. destruct (unstarted _) eqn:Eu; [done | by apply Hfp]. }
  rewrite Hsize, i64_id by (unfold is_i64; lia). destruct (Z.leb_spec (zlen (tab_of b)) (idx + 1)) as [Hend | Hin].
  - destruct (dictIsRehashing d && negb b) eqn:Er.
    + apply andb_true_iff in Er as [Er Eb]. destruct b; [done |].
      assert (0 < zlen (tab_of true)) as H1.
      { destruct Hwf as ([(Eri & _) | (tab0 & e0 & tab1 & e1 & _ & [E1 (He1 & Hl1 & _)] & _)] & _).
        - unfold dictIsRehashing in Er. by rewrite Eri in Er.
        - unfold tab_of. cbn [ht_of]. rewrite E1. unfold default, id. cbn [ht_table from_option]. pose proof (pow_exp_bounds e1 He1). lia. }
      destruct (lookup_lt_is_Some_2 (tab_of true) (Z.to_nat 0)) as [de Ede]; [unfold zlen in *; lia |].
      rewrite (bucket_tab true 0 de Ede). cbn [mbind option_bind].
      assert (iterating (DictIterator 0 true false de next fp')) as Hit'.
      { split; [by split |]. cbn [it_index it_table]. split; [lia | done]. }
      apply (next_visit fuel (DictIterator 0 true false de next fp')); [exact Hit' | |].
      * intros H2. apply IH; [exact Hit' |]. unfold turns in *. cbn [it_entry it_index it_table] in *. rewrite En in Hf. rewrite H2. lia.
      * unfold todo. cbn [it_entry it_nextEntry it_table it_index]. rewrite En, rest_of_end by lia.
        unfold rest_of. rewrite app_nil_r. destruct (tab_of true) as [| x l] eqn:E; [done |]. injection Ede as ->. done.
    + cbn [mbind option_bind]. eexists _, None. split; [reflexivity |]. split; [by split |].
      unfold todo. cbn [it_entry it_nextEntry it_table it_index]. rewrite En, rest_of_end by lia.
      destruct b; [done |]. rewrite andb_true_r in Er. by rewrite not_rehashing_tab.
  - destruct (lookup_lt_is_Some_2 (tab_of b) (Z.to_nat (idx + 1))) as [de Ede]; [unfold zlen in *; lia |].
    rewrite (bucket_tab _ _ _ Ede). cbn [mbind option_bind].
    assert (iterating (DictIterator (idx + 1) b false de next fp')) as Hit'.
    { split; [by split |]. cbn [it_index it_table]. split; [lia |]. intros Eb. split; [by apply Hb | lia]. }
    apply (next_visit fuel (DictIterator (idx + 1) b false de next fp')); [exact Hit' | |].
    + intros H2. apply IH; [exact Hit' |]. unfold turns in *. cbn [it_entry it_index it_table] in *. rewrite En in Hf. rewrite H2. lia.
    + unfold todo. cbn [it_entry it_nextEntry it_table it_index]. rewrite En. apply rest_of_step; [lia | done].
Qed.

(** An iteration starts at the first element, each call returns the next, and
    the iterator can be released at any point. *)
Lemma iterating_start junk : iterating (dictInitIterator junk) /\ todo (dictInitIterator junk) = elems d.
Proof using Hwf.
  split.
  - split; [done |]. split; [| done]. cbn [dictInitIterator it_index it_table]. pose proof (zlen_nonneg (tab_of false)). lia.
  - unfold todo, rest_of, elems. cbn [dictInitIterator it_entry it_table it_index isNull app].
    change (ht0 d) with (ht_of d false). change (ht1 d) with (ht_of d true). by rewrite !tab_of_elems.
Qed.

Lemma dictNext_ok it : iterating it -> returns it (dictNext addr d it).
Proof using Hwf.
  intros Hit. apply dictNext_loop_ok; [done |]. destruct (tab_of_size false) as [E0 _], (tab_of_size true) as [E1 _].
  cbn [ht_of] in *. rewrite E0, E1. pose proof (zlen_nonneg (tab_of false)). pose proof (zlen_nonneg (tab_of true)).
  destruct Hit as (_ & Hi & Hb). unfold turns. destruct (it_table it); destruct (isNull _); lia.
Qed.

Lemma dictReleaseIterator_ok it : releasable it -> dictReleaseIterator addr it d = Some d.
Proof using.
  intros [Hs Hf]. unfold dictReleaseIterator, dictResetIterator. destruct (unstarted it) eqn:Eu; [done |]. cbn [negb].
  rewrite Hs, (Hf eq_refl), Z.eqb_refl. done.
Qed.
End spec.
