(* ===== verification/Element.v ===== *)
(** Dictionaries whose keys are dynamic strings (server.c), encodings of a
    value, and elements that an encoding may keep as integers: what sets and
    hashes share.

    Dictionaries: the comparison of keys, the test for a table to shrink, and
    the operations of dict.c in terms of the strings themselves.  Elements: the
    pairs [(str, len)] and [llval] of the code. *)
From stdpp Require Import gmap strings.
From S2P Require Import Prelude Dict DictInv DictOps DictRehash DictThms DictIter Endian Strnum Listpack ListpackCodec ListpackSpec ListpackOps ListpackQuery ListpackThms Server.

(** The lengths are compared as [int]. *)
Definition dictSdsKeyCompare (key1 key2 : list Z) : bool :=
  let l1 := i32 (zlen key1) in
  let l2 := i32 (zlen key2) in
  if negb (l1 =? l2) then false
  else bool_decide (take (Z.to_nat l1) key1 = take (Z.to_nat l1) key2).

Definition HASHTABLE_MIN_FILL : Z := 10.
Definition dictSlots {K V} (d : dict K V) : Z := u64 (DICTHT_SIZE (ht_size_exp (ht0 d)) + DICTHT_SIZE (ht_size_exp (ht1 d))).
Definition htNeedsResize {K V} (d : dict K V) : bool :=
  let size := dictSlots d in
  let used := dictSize d in
  (DICT_HT_INITIAL_SIZE <? size) && (i64 (used * 100) / size <? HASHTABLE_MIN_FILL).

(** Strings shorter than 2^31 bytes: their lengths are compared as [int]. *)
Definition member (x : list Z) : Prop := bytes x /\ zlen x < 2147483648.
#[export] Instance member_dec x : Decision (member x).
Proof. unfold member, bytes. apply _. Defined.

Lemma compare_member k1 k2 : member k1 -> member k2 -> dictSdsKeyCompare k1 k2 = bool_decide (k1 = k2).
Proof.
  intros [_ H1] [_ H2]. unfold dictSdsKeyCompare. pose proof (zlen_nonneg k1). pose proof (zlen_nonneg k2).
  rewrite !i32_id by lia. destruct (Z.eqb_spec (zlen k1) (zlen k2)) as [E | E]; cbn [negb].
  - unfold zlen in *. rewrite !Nat2Z.id, !firstn_all2 by lia. done.
  - symmetry. apply bool_decide_eq_false. by intros ->.
Qed.

(** A type of dictionaries with these keys. *)
Class StringDict {V} (t : dictType (list Z) V) : Prop := {
  string_ok :: DictTypeOk t;
  string_compare : keyCompare t = dictSdsKeyCompare;
  string_dup k : keyDup t k = k }.

Lemma string_dict {V} (t : dictType (list Z) V) :
  (forall k, 0 <= hashFunction t k < 2 ^ 64) -> (forall k1 k2, dictSdsKeyCompare k1 k2 = true -> hashFunction t k1 = hashFunction t k2) ->
  keyCompare t = dictSdsKeyCompare -> keyDup t = id -> (keys_are_odd t = true -> forall k, key_is_odd t k = true) ->
  (no_value t = true -> entryMetasize t = 0) -> StringDict t.
Proof.
  intros Hr Hh Hc Hd Ho Hn.
  assert (forall k, dictSdsKeyCompare k k = true) as Hrefl.
  { intros k. unfold dictSdsKeyCompare. rewrite Z.eqb_refl. cbn [negb]. by apply bool_decide_eq_true. }
  split; [split; rewrite ?Hc, ?Hd; try done | done | by rewrite Hd].
  - intros k1 k2. unfold dictSdsKeyCompare. destruct (Z.eqb_spec (i32 (zlen k1)) (i32 (zlen k2))) as [E |]; [cbn [negb] | done].
    rewrite E, Z.eqb_refl. cbn [negb]. rewrite !bool_decide_eq_true. done.
  - intros k1 k2 k3. unfold dictSdsKeyCompare. destruct (Z.eqb_spec (i32 (zlen k1)) (i32 (zlen k2))) as [E |]; [cbn [negb] | done].
    rewrite E. destruct (Z.eqb_spec (i32 (zlen k2)) (i32 (zlen k3))) as [E' |]; [cbn [negb] | done].
    rewrite E', !bool_decide_eq_true. congruence.
Qed.

Section strings.
Context {V : Type} (t : dictType (list Z) V) {Ht : StringDict t} (resize : dictResizeEnable).
Implicit Types (d : dict (list Z) V) (l : list (list Z * option V)).

Lemma matches_key k l : member k -> Forall member (map fst l) -> matches t k l = filter (fun e => e.1 = k) l.
Proof.
  intros Hk Hl. unfold matches. induction l as [| e l IH]; [done |]. cbn [map] in Hl. apply Forall_cons in Hl as [He Hl].
  rewrite !filter_cons, IH by done. rewrite string_compare, (compare_member k e.1) by done.
  destruct (decide (bool_decide (k = e.1) = true)) as [E | E], (decide (e.1 = k)) as [E' | E']; try done; rewrite bool_decide_eq_true in E; congruence.
Qed.

Lemma others_key k l : member k -> Forall member (map fst l) -> others t k l = filter (fun e => e.1 <> k) l.
Proof.
  intros Hk Hl. unfold others. induction l as [| e l IH]; [done |]. cbn [map] in Hl. apply Forall_cons in Hl as [He Hl].
  rewrite !filter_cons, IH by done. rewrite string_compare, (compare_member k e.1) by done.
  destruct (decide (bool_decide (k = e.1) <> true)) as [E | E], (decide (e.1 <> k)) as [E' | E']; try done; rewrite bool_decide_eq_true in E; naive_solver.
Qed.

Lemma others_keys k l : member k -> Forall member (map fst l) -> map fst (others t k l) = filter (fun x => x <> k) (map fst l).
Proof. intros Hk Hl. rewrite others_key by done. exact (eq_sym (filter_map fst (fun x => x <> k) l)). Qed.

Lemma has_key k l : member k -> Forall member (map fst l) -> has t k l = bool_decide (k ∈ map fst l).
Proof.
  intros Hk Hl. unfold has. rewrite matches_key by done. destruct (filter _ l) as [| e m] eqn:E; symmetry.
  - apply bool_decide_eq_false. intros (e & -> & He)%list_elem_of_fmap. apply (filter_nil_not_elem_of _ _ e E); done.
  - apply bool_decide_eq_true. assert (e ∈ filter (fun e => e.1 = k) l) as He by (rewrite E; left).
    apply list_elem_of_filter in He as [<- He]. by apply list_elem_of_fmap_2.
Qed.

(** A new dictionary with room for [cap] keys. *)
Lemma expand_new cap : 0 <= cap < 2 ^ 64 -> wf t (dictExpand dictCreate cap).1 /\ elems (dictExpand (@dictCreate (list Z) V) cap).1 = [].
Proof.
  intros Hc. destruct (expand_ok t dictCreate cap (wf_create t) Hc) as (W & E & _). by rewrite E.
Qed.

Lemma resize_ok d : wf t d -> zlen (elems d) < 2 ^ 58 -> wf t (dictResize resize d).1 /\ elems (dictResize resize d).1 ≡ₚ elems d.
Proof.
  intros Hwf Hsz. destruct (run_op_ok t resize d DResize Hwf) as (d' & E & Hwf' & P); [by split |].
  cbn [run_op op_spec fst snd] in *. injection E as <-. by split.
Qed.

(** A deletion, after which the table may shrink. *)
Lemma delete_resize_ok d k : wf t d -> zlen (elems d) < 2 ^ 58 ->
  exists d1, dictDelete t resize d k = Some (d1, has t k (elems d)) /\
    let d2 := if has t k (elems d) && htNeedsResize d1 then (dictResize resize d1).1 else d1 in
    wf t d2 /\ elems d2 ≡ₚ others t k (elems d).
Proof.
  intros Hwf Hsz. destruct (run_op_ok t resize d (DDelete k) Hwf) as (d1 & E & Hwf1 & P); [by split |].
  cbn [run_op op_spec fst snd] in *. destruct (dictDelete t resize d k) as [[d0 b] |]; [| done]. cbn [mbind option_bind] in *.
  injection E as -> ->. exists d1. split; [done |]. cbv zeta. destruct (_ && _); [| by split].
  destruct (resize_ok d1 Hwf1) as [? P']; [| split; [done | by rewrite P']].
  apply Permutation_length in P. pose proof (length_filter (fun e => keyCompare t k e.1 <> true) (elems d)) as Hl. unfold others in P. unfold zlen in *. lia.
Qed.
End strings.

(** A hash of the bytes that the comparison looks at. *)
Definition sum_hash (k : list Z) : Z := foldr Z.add 0 (take (Z.to_nat (i32 (zlen k))) k) mod 2 ^ 64.

Lemma sum_hash_compare (k1 k2 : list Z) : dictSdsKeyCompare k1 k2 = true -> sum_hash k1 = sum_hash k2.
Proof.
  unfold dictSdsKeyCompare, sum_hash. cbv zeta. destruct (Z.eqb_spec (i32 (zlen k1)) (i32 (zlen k2))) as [E |]; [| done]. cbn [negb].
  intros H%bool_decide_eq_true_1. rewrite <- E in *. by rewrite H.
Qed.

Inductive setenc := OBJ_ENCODING_HT | OBJ_ENCODING_INTSET | OBJ_ENCODING_LISTPACK.
#[export] Instance setenc_eq_dec : EqDecision setenc.
Proof. solve_decision. Defined.

Inductive setelem := ElStr (str : list Z) | ElInt (llval : Z).

(** The string of an element, an integer being printed in the buffer of the
    stack. *)
Definition elem_text (llbuf : list Z) (e : setelem) : option (list Z) :=
  match e with
  | ElStr str => Some str
  | ElInt llval => '(buf, len) ← ll2string llbuf LONG_STR_SIZE llval; Some (take (Z.to_nat len) buf)
  end.

(** The listpack returned by an insertion; NULL when it would exceed 2^32-1
    bytes, which the caller does not check. *)
Definition lp_not_null (r : option (option (list Z * option Z))) : option (list Z) :=
  r ← r; '(lp, _) ← r; Some lp.

Definition lp_append_elem (junk : nat -> Z) (e : setelem) (lp : list Z) : option (list Z) :=
  match e with
  | ElStr str => lp_not_null (lpAppend junk lp str)
  | ElInt llele => lp_not_null (lpAppendInteger junk lp llele)
  end.

Definition addReplyBulkLongLong {V} (buf64 : list Z) (ll : Z) (s : srv_of V) : option (srv_of V) :=
  '(buf, len) ← ll2string buf64 64 ll;
  Some (addReply (RBulk (take (Z.to_nat len) buf)) s).

Definition reply_elem {V} (buf64 : list Z) (e : setelem) (s : srv_of V) : option (srv_of V) :=
  match e with ElStr str => Some (addReply (RBulk str) s) | ElInt intobj => addReplyBulkLongLong buf64 intobj s end.

Definition etext (e : setelem) : list Z := match e with ElStr str => str | ElInt llval => sdec llval end.
Definition elem_in (e : setelem) : Prop := match e with ElStr str => member str | ElInt llval => is_i64 llval end.

Lemma sdec_member v : is_i64 v -> member (sdec v).
Proof. intros Hv. split; [by apply sdec_bytes |]. pose proof (zlen_sdec v Hv). lia. Qed.

Lemma sdec_inj v w : is_i64 v -> is_i64 w -> sdec v = sdec w -> v = w.
Proof. intros Hv Hw E. apply (f_equal string2ll) in E. rewrite !string2ll_sdec in E by done. congruence. Qed.

Lemma etext_member e : elem_in e -> member (etext e).
Proof. destruct e; [done | apply sdec_member]. Qed.

Lemma elem_text_ok llbuf e : zlen llbuf = LONG_STR_SIZE -> elem_in e -> elem_text llbuf e = Some (etext e).
Proof.
  intros Hll. destruct e as [str | v]; [done |]. intros Hv. apply ll2string_text; [done | unfold LONG_STR_SIZE; lia | lia].
Qed.

Lemma reply_elem_ok {V} buf64 e (s : srv_of V) : zlen buf64 = 64 -> elem_in e -> reply_elem buf64 e s = Some (addReply (RBulk (etext e)) s).
Proof.
  intros H64. destruct e as [str | v]; intros He; cbn [reply_elem etext]; [done |]. unfold addReplyBulkLongLong.
  pose proof (ll2string_text buf64 64 v He ltac:(lia) ltac:(lia)) as E. destruct (ll2string buf64 64 v) as [[buf len] |]; cbn in *; [| done].
  by injection E as ->.
Qed.

(** * Listpacks of elements *)

Lemma entry_small x : elem_ok x -> zlen (entry x) <= match x with EInt _ => 14 | EStr s => zlen s + 10 end.
Proof.
  intros Hx. rewrite entry_len.
  pose proof (backlen_size_bounds (zlen (enc_entry x))). destruct x as [v | s]; cbn [enc_entry] in *.
  - assert (zlen (lpEncodeIntegerGetType v) <= 9); [| lia].
    destruct (int_enc_shape v Hx) as [[? E] | [[? E] | [[? E] | [[? E] | [[? E] | E]]]]];
      rewrite E, ?zlen_cons, ?zlen_le_enc, ?(@zlen_nil Z); lia.
  - rewrite zlen_lpEncodeString in *. repeat case_if; lia.
Qed.

Definition elem_entry (e : setelem) : lpentry := match e with ElStr str => str_entry str | ElInt v => EInt v end.

Lemma elem_entry_str e : entry_str (elem_entry e) = etext e.
Proof. destruct e; [apply entry_str_str_entry | done]. Qed.

Lemma str_entry_ok s : member s -> elem_ok (str_entry s).
Proof.
  intros [Hb Hs]. unfold str_entry. destruct (lpStringToInt64 s) as [v |] eqn:E; cbn [elem_ok].
  - apply lpStringToInt64_iff in E. apply E.
  - split; [done | lia].
Qed.

Lemma lp_append_ok junk e lp es : lp_rep lp es -> elem_in e -> lp_off es + zlen (etext e) + 20 < 4294967296 ->
  exists lp', lp_append_elem junk e lp = Some lp' /\ lp_rep lp' (es ++ [elem_entry e]).
Proof.
  intros R He Hl.
  assert (elem_ok (elem_entry e)) as Hok by (destruct e; [by apply str_entry_ok | done]).
  assert (insert_result (es ++ [elem_entry e]) (lp_off es)
    (match e with ElStr str => lpAppend junk lp str | ElInt v => lpAppendInteger junk lp v end)) as Hr.
  { destruct e as [str | v].
    - exact (append_elem junk lp es _ _ _ R (elem_str str None) Hok).
    - exact (append_elem junk lp es _ _ _ R (elem_int v) Hok). }
  unfold insert_result in Hr. rewrite lp_off_snoc in Hr. pose proof (entry_small _ Hok) as Hsm.
  rewrite (proj2 (Z.ltb_ge _ _)) in Hr.
  2: { unfold UINT32_MAX. destruct e as [str | v]; cbn [elem_entry etext] in *; [unfold str_entry in *; destruct (lpStringToInt64 str) |];
       [| | pose proof (zlen_nonneg (sdec v))]; try pose proof (zlen_nonneg str); lia. }
  destruct Hr as (lp' & E & R'). exists lp'. split; [| done].
  destruct e; cbn [lp_append_elem]; unfold lp_not_null; rewrite E; done.
Qed.
