(* ===== verification/Keyspace.v ===== *)
(** Keys whose values have a type that a group of commands works on, or another
    type (object.c, db.c), and the abstract states that specify the commands:
    a map from keys to mathematical objects, with the changes counted, the keys
    signalled and the replies.

    A value is changed in place, through a pointer.  Two pointers to values of
    the database are equal exactly when they were found at the same key, so a
    pointer is represented by that key and an access reads or writes the value
    there ([on_key]); even a read can change a value, whose hash table may be
    moving its elements. *)
From stdpp Require Import strings gmap.
From S2P Require Import Prelude Endian Strnum Server.

Inductive typed (T : Type) := Typed (x : T) | OtherType.
Arguments Typed {T}. Arguments OtherType {T}.
Notation typed_srv T := (srv_of (typed T)).

#[export] Instance typed_eq_dec {T} `{EqDecision T} : EqDecision (typed T).
Proof. solve_decision. Defined.

(** * The code *)

Section code.
Context {T : Type}.
Implicit Types (s : typed_srv T).

(** [checkType(c,o,type)] *)
Definition checkTyped (o : option (typed T)) s : typed_srv T * bool :=
  match o with Some OtherType => (addReplyError wrongtypeerr s, true) | _ => (s, false) end.

Definition get_typed (key : list Z) s : option T :=
  match db s !! key with Some (Typed x) => Some x | _ => None end.

(** An operation on the value at a key. *)
Definition on_key {A : Type} (key : list Z) (f : T -> option (T * A)) s : option (typed_srv T * A) :=
  x ← get_typed key s;
  '(x, a) ← f x;
  Some (set_value key (Typed x) s, a).

(** [dbAdd] asserts that the key is new. *)
Definition dbAdd (key : list Z) (x : T) s : option (typed_srv T) :=
  _ ← assert_ (bool_decide (db s !! key = None));
  Some (set_value key (Typed x) s).

End code.

(** * The specification *)

Notation elems_of := (@gset (list Z) (@list_eq_dec Z numbers.Z.eq_dec) (@list_countable Z numbers.Z.eq_dec countable.Z_countable)).
Notation map_of := (@gmap (list Z) (@list_eq_dec Z numbers.Z.eq_dec) (@list_countable Z numbers.Z.eq_dec countable.Z_countable)).
Notation fields_of := (map_of (list Z)).

(** A reply: a number, an error, a string or its absence, numbers, strings
    that may be absent, a set, strings in any order, or a map. *)
Inductive areply :=
| AInt (n : Z) | AErr (msg : string) | AOk | ABulk (v : option (list Z)) | AInts (l : list Z) | ABulks (l : list (option (list Z)))
| AElems (X : elems_of) | AAny (l : list (list Z)) | AMap (M : fields_of).

Record astate_of (A : Type) := AState { adb : map_of (typed A); adirty : Z; amodified : list (list Z); areplies : list areply }.
Arguments AState {A}. Arguments adb {A}. Arguments adirty {A}. Arguments amodified {A}. Arguments areplies {A}.

Section spec.
Context {A : Type} `{Empty A} `{EqDecision A}.
Implicit Types (ad : map_of (typed A)) (a : astate_of A).

(** The object at a key, empty when there is none. *)
Definition value_at ad (key : list Z) : A := match ad !! key with Some (Typed X) => X | _ => ∅ end.
Definition wrong ad (key : list Z) : bool := match ad !! key with Some OtherType => true | _ => false end.
(** A key has no empty object. *)
Definition put (key : list Z) (X : A) ad : map_of (typed A) := if bool_decide (X = ∅) then delete key ad else <[key := Typed X]> ad.

Definition send (r : areply) a : astate_of A := AState (adb a) (adirty a) (amodified a) (areplies a ++ [r]).
(** [n] changes, which signal the keys. *)
Definition change ad (n : Z) (keys : list (list Z)) a : astate_of A := AState ad (adirty a + n) (amodified a ++ keys) (areplies a).

(** A command is an error when one of its keys has a value of another type. *)
Definition unless_wrong (keys : list (list Z)) (f : astate_of A -> astate_of A) a : astate_of A :=
  if existsb (wrong (adb a)) keys then send (AErr wrongtypeerr) a else f a.

Definition no_empty a : Prop := forall key, adb a !! key <> Some (Typed ∅).

Lemma no_empty_put (key : list Z) (X : A) ad : (forall k, ad !! k <> Some (Typed ∅)) -> forall k, put key X ad !! k <> Some (Typed ∅).
Proof.
  intros Ha k. unfold put. destruct (bool_decide_reflect (X = ∅)) as [| Hn].
  - rewrite lookup_delete_Some. intros [_ Hk]. by apply (Ha k).
  - rewrite lookup_insert_Some. intros [[_ [=]] | [_ Hk]]; [done | by apply (Ha k)].
Qed.

Lemma value_at_Some ad key (X : A) : ad !! key = Some (Typed X) -> value_at ad key = X.
Proof. unfold value_at. by intros ->. Qed.
Lemma value_at_None ad key : ad !! key = None -> value_at ad key = ∅.
Proof. unfold value_at. by intros ->. Qed.

Lemma put_insert key (X : A) v ad : put key X (<[key := v]> ad) = put key X ad.
Proof. unfold put. case_match; [apply delete_insert_eq | apply insert_insert_eq]. Qed.

Lemma not_wrong ad key : wrong ad key = false -> ad !! key = None \/ ad !! key = Some (Typed (value_at ad key)).
Proof. unfold wrong, value_at. destruct (ad !! key) as [[] |]; [by right | done | by left]. Qed.
Lemma wrong_other ad key : wrong ad key = true <-> ad !! key = Some OtherType.
Proof. unfold wrong. destruct (ad !! key) as [[] |]; naive_solver. Qed.

Lemma unless_wrong_1 key f a : unless_wrong [key] f a = if wrong (adb a) key then send (AErr wrongtypeerr) a else f a.
Proof. unfold unless_wrong. cbn [existsb]. by rewrite orb_false_r. Qed.
Lemma unless_wrong_in keys f a key : adb a !! key = Some OtherType -> key ∈ keys -> unless_wrong keys f a = send (AErr wrongtypeerr) a.
Proof.
  intros E Hk. unfold unless_wrong. replace (existsb (wrong (adb a)) keys) with true; [done |]. symmetry. apply existsb_exists.
  exists key. split; [by apply list_elem_of_In | by apply wrong_other].
Qed.

Lemma put_other key k (X : A) ad : ad !! key = Some OtherType -> k <> key -> put k X ad !! key = Some OtherType.
Proof. intros E Hn. unfold put. case_match; [by rewrite lookup_delete_ne | by rewrite lookup_insert_ne]. Qed.
End spec.

(** * States *)

Notation opt_bulk v := (match v with Some s => RBulk s | None => RNull end).
Definition pair_bulks (p : list Z * list Z) : list reply := [RBulk p.1; RBulk p.2].

(** How a reply is sent. *)
Inductive shows : areply -> list reply -> Prop :=
| shows_int n : shows (AInt n) [RInt n]
| shows_err msg : shows (AErr msg) [RErr msg]
| shows_ok : shows AOk [ROk]
| shows_bulk v : shows (ABulk v) [opt_bulk v]
| shows_ints l : shows (AInts l) (RArrayLen (zlen l) :: map RInt l)
| shows_bulks l : shows (ABulks l) (RArrayLen (zlen l) :: map (fun v => opt_bulk v) l)
| shows_elems (X : elems_of) (l : list (list Z)) : l ≡ₚ elements X -> shows (AElems X) (RSetLen (Z.of_nat (size X)) :: map RBulk l)
| shows_any l l' : l' ≡ₚ l -> shows (AAny l) (RArrayLen (zlen l') :: map RBulk l')
| shows_map (M : fields_of) l : l ≡ₚ map_to_list M -> shows (AMap M) (RMapLen (Z.of_nat (size M)) :: concat (map pair_bulks l)).
Inductive replies_rep : list areply -> list reply -> Prop :=
| replies_nil : replies_rep [] []
| replies_snoc ars rs ar r : replies_rep ars rs -> shows ar r -> replies_rep (ars ++ [ar]) (rs ++ r).

Section rep.
(** How a value of the database represents an object. *)
Context {T A : Type} `{Empty A} `{EqDecision A} (rep : T -> A -> Prop).
Implicit Types (d : map_of (typed T)) (ad : map_of (typed A)) (s : typed_srv T) (a : astate_of A).

Definition val_rep (v : typed T) (x : typed A) : Prop :=
  match v, x with Typed t, Typed X => rep t X | OtherType, OtherType => True | _, _ => False end.
Definition db_rep d ad : Prop := forall key, option_Forall2 val_rep (d !! key) (ad !! key).
Definition state_rep s a : Prop :=
  db_rep (db s) (adb a) /\ dirty s = adirty a /\ modified s = amodified a /\ replies_rep (areplies a) (replies s).

(** What the two sides have at a key. *)
Inductive at_key d ad (key : list Z) : option (typed T) -> option (typed A) -> Prop :=
| at_none : d !! key = None -> ad !! key = None -> at_key d ad key None None
| at_typed t X : d !! key = Some (Typed t) -> ad !! key = Some (Typed X) -> rep t X -> at_key d ad key (Some (Typed t)) (Some (Typed X))
| at_other : d !! key = Some OtherType -> ad !! key = Some OtherType -> at_key d ad key (Some OtherType) (Some OtherType).

Lemma db_at d ad key : db_rep d ad -> at_key d ad key (d !! key) (ad !! key).
Proof.
  intros Hd. specialize (Hd key). destruct (d !! key) as [v |] eqn:E1, (ad !! key) as [x |] eqn:E2; inversion Hd as [? ? Hv |]; subst; [| by constructor].
  destruct v as [t |], x as [X |]; try done; by constructor.
Qed.

Lemma db_get d ad key X : db_rep d ad -> ad !! key = Some (Typed X) -> exists t, d !! key = Some (Typed t) /\ rep t X.
Proof. intros Hd E. pose proof (db_at d ad key Hd) as Ha. rewrite E in Ha. inversion Ha; subst. eauto. Qed.

Lemma db_none d ad key : db_rep d ad -> d !! key = None <-> ad !! key = None.
Proof. intros Hd. destruct (db_at d ad key Hd); naive_solver. Qed.

Lemma db_insert d ad key t X : db_rep d ad -> rep t X -> db_rep (<[key := Typed t]> d) (<[key := Typed X]> ad).
Proof.
  intros Hd HX k. destruct (decide (key = k)) as [<- | Hn].
  - rewrite !lookup_insert_eq. by constructor.
  - rewrite !lookup_insert_ne by done. apply Hd.
Qed.

(** Another representation of the same object. *)
Lemma db_keep d ad key t X : db_rep d ad -> ad !! key = Some (Typed X) -> rep t X -> db_rep (<[key := Typed t]> d) ad.
Proof. intros Hd E HX. rewrite <- (insert_id ad key (Typed X)) by done. by apply db_insert. Qed.

Lemma db_delete d ad key : db_rep d ad -> db_rep (delete key d) (delete key ad).
Proof.
  intros Hd k. destruct (decide (key = k)) as [<- | Hn].
  - rewrite !lookup_delete_eq. constructor.
  - rewrite !lookup_delete_ne by done. apply Hd.
Qed.

(** The state with another database: what an operation that sends nothing
    leaves. *)
Definition with_db d s : typed_srv T := Srv d (dirty s) (modified s) (replies s).

Lemma with_db_id s : with_db (db s) s = s.
Proof. by destruct s. Qed.

Lemma on_key_ok {B} key (f : T -> option (T * B)) s ad X X' b : db_rep (db s) ad -> ad !! key = Some (Typed X) ->
  (forall t, rep t X -> exists t', f t = Some (t', b) /\ rep t' X') ->
  exists t', on_key key f s = Some (with_db (<[key := Typed t']> (db s)) s, b) /\ rep t' X'.
Proof.
  intros Hd E Hf. destruct (db_get _ _ _ _ Hd E) as (t & Es & HX). destruct (Hf t HX) as (t' & Ef & HX').
  exists t'. unfold on_key, get_typed. rewrite Es. cbn [mbind option_bind]. rewrite Ef. done.
Qed.

(** An operation that leaves the object as it is. *)
Lemma on_key_same {B} key (f : T -> option (T * B)) s ad X b : db_rep (db s) ad -> ad !! key = Some (Typed X) ->
  (forall t, rep t X -> exists t', f t = Some (t', b) /\ rep t' X) ->
  exists d, on_key key f s = Some (with_db d s, b) /\ db_rep d ad /\ forall k, k <> key -> d !! k = db s !! k.
Proof.
  intros Hd E Hf. destruct (on_key_ok key f s ad X X b Hd E Hf) as (t' & -> & HX'). eexists. split; [reflexivity |].
  split; [by eapply db_keep | intros k Hk; by rewrite lookup_insert_ne].
Qed.

(** ** Replies and changes *)

Lemma state_sends s a r ar : state_rep s a -> shows ar r -> state_rep (Srv (db s) (dirty s) (modified s) (replies s ++ r)) (send ar a).
Proof. intros (Hd & Hn & Hm & Hr) Hs. split; [exact Hd |]. split; [exact Hn |]. split; [exact Hm |]. by constructor. Qed.
Lemma state_send s a r ar : state_rep s a -> shows ar [r] -> state_rep (addReply r s) (send ar a).
Proof. apply state_sends. Qed.

Lemma state_int s a n : state_rep s a -> state_rep (addReplyLongLong n s) (send (AInt n) a).
Proof. intros HR. apply state_send; [exact HR | constructor]. Qed.
Lemma state_err s a msg : state_rep s a -> state_rep (addReplyError msg s) (send (AErr msg) a).
Proof. intros HR. apply state_send; [exact HR | constructor]. Qed.

Lemma state_db s a d : state_rep s a -> db_rep d (adb a) -> state_rep (with_db d s) a.
Proof. intros (_ & HR) Hd. split; [exact Hd | exact HR]. Qed.

Lemma state_change s a d ad n keys : state_rep s a -> db_rep d ad ->
  state_rep (Srv d (dirty s + n) (modified s ++ keys) (replies s)) (change ad n keys a).
Proof. intros (_ & Hn & Hm & Hr) Hd. split; [exact Hd |]. cbn. rewrite Hn, Hm. by repeat split. Qed.

(** ** Types *)

Lemma checkType_ok d ad key s : db_rep d ad ->
  checkTyped (d !! key) s = if wrong ad key then (addReplyError wrongtypeerr s, true) else (s, false).
Proof. intros Hd. unfold wrong. destruct (db_at d ad key Hd) as [E1 E2 | ? ? E1 E2 | E1 E2]; cbn; try rewrite E2; done. Qed.
End rep.

(** The state in which no key exists. *)
Definition empty_srv {T} : typed_srv T := Srv ∅ 0 [] [].
Definition empty_state {A} : astate_of A := AState ∅ 0 [] [].

Lemma empty_state_rep {T A} (rep : T -> A -> Prop) : state_rep rep empty_srv empty_state.
Proof. split; [| by repeat constructor]. intros key. cbn. rewrite !lookup_empty. constructor. Qed.
