(* ===== verification/Hll.v ===== *)
(** hyperloglog.c: the registers of a HyperLogLog in its dense and sparse
    representations, inside the sds of a string value.

    A register counts up to 63; the dense representation packs registers of 6
    bits, the sparse one is a sequence of opcodes for runs of equal registers.
    A pointer into the string is its offset from the start of the string.  The
    estimate of the cardinality is computed from the histogram of the registers
    by floating point functions of the C library: it is a parameter. *)
From stdpp Require Import strings.
From S2P Require Import Prelude Endian Strnum Sds.

Definition HLL_P : Z := 14.
Definition HLL_Q : Z := 64 - HLL_P.
Definition HLL_REGISTERS : Z := Z.shiftl 1 HLL_P.
Definition HLL_P_MASK : Z := HLL_REGISTERS - 1.
Definition HLL_BITS : Z := 6.
Definition HLL_REGISTER_MAX : Z := Z.shiftl 1 HLL_BITS - 1.
Definition HLL_HDR_SIZE : Z := 16.
Definition HLL_DENSE_SIZE : Z := HLL_HDR_SIZE + (HLL_REGISTERS * HLL_BITS + 7) / 8.
Definition HLL_DENSE : Z := 0.
Definition HLL_SPARSE : Z := 1.
Definition HLL_MAX_ENCODING : Z := 1.

(** The fields of [struct hllhdr]. *)
Definition hdr_encoding (s : sds) : option Z := rd (s_buf s) 4.
Definition hdr_set_encoding (s : sds) (e : Z) : option sds := sds_wr s 4 [e].
(** The offset of [registers]. *)
Notation registers := HLL_HDR_SIZE.

Definition HLL_INVALIDATE_CACHE (s : sds) : option sds :=
  c ← rd (s_buf s) 15; sds_wr s 15 [Z.lor c (Z.shiftl 1 7)].
Definition HLL_VALID_CACHE (s : sds) : option bool :=
  c ← rd (s_buf s) 15; Some (Z.land c (Z.shiftl 1 7) =? 0).

(** * Bit macros *)

(** The registers start at [p]. *)
Definition HLL_DENSE_GET_REGISTER (m : list Z) (p regnum : Z) : option Z :=
  let byte_ := regnum * HLL_BITS / 8 in
  let fb := Z.land (regnum * HLL_BITS) 7 in
  let fb8 := 8 - fb in
  b0 ← rd m (p + byte_);
  b1 ← rd m (p + byte_ + 1);
  Some (Z.land (Z.lor (Z.shiftr b0 fb) (Z.shiftl b1 fb8)) HLL_REGISTER_MAX).

Definition HLL_DENSE_SET_REGISTER (s : sds) (p regnum val : Z) : option sds :=
  let byte_ := regnum * HLL_BITS / 8 in
  let fb := Z.land (regnum * HLL_BITS) 7 in
  let fb8 := 8 - fb in
  b0 ← rd (s_buf s) (p + byte_);
  let b0 := u8 (Z.land b0 (Z.lnot (Z.shiftl HLL_REGISTER_MAX fb))) in
  s ← sds_wr s (p + byte_) [u8 (Z.lor b0 (Z.shiftl val fb))];
  b1 ← rd (s_buf s) (p + byte_ + 1);
  let b1 := u8 (Z.land b1 (Z.lnot (Z.shiftr HLL_REGISTER_MAX fb8))) in
  sds_wr s (p + byte_ + 1) [u8 (Z.lor b1 (Z.shiftr val fb8))].

(** Opcodes of the sparse representation. *)
Definition HLL_SPARSE_XZERO_BIT : Z := 0x40.
Definition HLL_SPARSE_VAL_BIT : Z := 0x80.
Definition HLL_SPARSE_IS_ZERO (b : Z) : bool := Z.land b 0xc0 =? 0.
Definition HLL_SPARSE_IS_XZERO (b : Z) : bool := Z.land b 0xc0 =? HLL_SPARSE_XZERO_BIT.
Definition HLL_SPARSE_IS_VAL (b : Z) : bool := negb (Z.land b HLL_SPARSE_VAL_BIT =? 0).
Definition HLL_SPARSE_ZERO_LEN (b : Z) : Z := Z.land b 0x3f + 1.
Definition HLL_SPARSE_XZERO_LEN (b b1 : Z) : Z := Z.lor (Z.shiftl (Z.land b 0x3f) 8) b1 + 1.
Definition HLL_SPARSE_VAL_VALUE (b : Z) : Z := Z.land (Z.shiftr b 2) 0x1f + 1.
Definition HLL_SPARSE_VAL_LEN (b : Z) : Z := Z.land b 0x3 + 1.
Definition HLL_SPARSE_VAL_MAX_VALUE : Z := 32.
Definition HLL_SPARSE_VAL_MAX_LEN : Z := 4.
Definition HLL_SPARSE_ZERO_MAX_LEN : Z := 64.
Definition HLL_SPARSE_XZERO_MAX_LEN : Z := 16384.
Definition HLL_SPARSE_VAL_SET (val len : Z) : list Z := [u8 (Z.lor (Z.lor (Z.shiftl (val - 1) 2) (len - 1)) HLL_SPARSE_VAL_BIT)].
Definition HLL_SPARSE_ZERO_SET (len : Z) : list Z := [u8 (len - 1)].
Definition HLL_SPARSE_XZERO_SET (len : Z) : list Z := [u8 (Z.lor (Z.shiftr (len - 1) 8) HLL_SPARSE_XZERO_BIT); u8 (Z.land (len - 1) 0xff)].

(** The opcode at an offset: the tests of the macros and the fields they give. *)
Inductive opcode := ZERO (runlen : Z) | XZERO (runlen : Z) | VAL (regval runlen : Z).
Definition opcode_at (m : list Z) (p : Z) : option opcode :=
  b ← rd m p;
  if HLL_SPARSE_IS_ZERO b then Some (ZERO (HLL_SPARSE_ZERO_LEN b))
  else if HLL_SPARSE_IS_XZERO b then b1 ← rd m (p + 1); Some (XZERO (HLL_SPARSE_XZERO_LEN b b1))
  else Some (VAL (HLL_SPARSE_VAL_VALUE b) (HLL_SPARSE_VAL_LEN b)).
Definition runlen (op : opcode) : Z := match op with ZERO len | XZERO len | VAL _ len => len end.
Definition oplen (op : opcode) : Z := match op with XZERO _ => 2 | _ => 1 end.

(** * The hash of an element *)

Section hash.
Context `{Host}.

Definition murmur_m : Z := 0xc6a4a7935bd1e995.

(** The word of 8 bytes: read at once on a little endian host. *)
Definition murmur_word (k : list Z) : Z := if big_endian then le_dec k else native_dec k.

Fixpoint murmur_loop (n : nat) (data : list Z) (h : Z) : Z * list Z :=
  match n with
  | O => (h, data)
  | S n =>
      let k := u64 (murmur_word (take 8 data) * murmur_m) in
      let k := Z.lxor k (Z.shiftr k 47) in
      let k := u64 (k * murmur_m) in
      murmur_loop n (drop 8 data) (u64 (Z.lxor h k * murmur_m))
  end.

(** The [switch] falls through from the last byte to the first. *)
Definition murmur_tail (data : list Z) (h : Z) : Z :=
  match data with
  | [] => h
  | _ => u64 (foldr (fun ib h => Z.lxor h (Z.shiftl ib.2 (8 * ib.1))) h (zip (seqZ 0 (zlen data)) data) * murmur_m)
  end.

(** [len] is an [int]; a negative one makes the loop run off the string. *)
Definition MurmurHash64A (key : list Z) (len seed : Z) : option Z :=
  _ ← assert_ (0 <=? len);
  let h := Z.lxor seed (u64 (len * murmur_m)) in
  let '(h, data) := murmur_loop (Z.to_nat (len / 8)) key h in
  let h := murmur_tail (take (Z.to_nat (len mod 8)) data) h in
  let h := Z.lxor h (Z.shiftr h 47) in
  let h := u64 (h * murmur_m) in
  Some (Z.lxor h (Z.shiftr h 47)).

(** [while((hash & bit) == 0)], 64 turns at most. *)
Fixpoint pattern_loop (fuel : nat) (hash bit count : Z) : option Z :=
  if Z.land hash bit =? 0 then
    match fuel with O => None | S fuel => pattern_loop fuel hash (u64 (Z.shiftl bit 1)) (count + 1) end
  else Some count.

(** The count and the index of the register. *)
Definition hllPatLen (ele : list Z) : option (Z * Z) :=
  hash ← MurmurHash64A ele (i32 (zlen ele)) 0xadc83b19;
  let index := Z.land hash HLL_P_MASK in
  let hash := Z.shiftr hash HLL_P in
  let hash := Z.lor hash (Z.shiftl 1 HLL_Q) in
  count ← pattern_loop 64 hash 1 1;
  Some (count, index).
End hash.

(** * Dense representation *)

(** The boolean is the result: the register has changed. *)
Definition hllDenseSet (s : sds) (index count : Z) : option (sds * bool) :=
  oldcount ← HLL_DENSE_GET_REGISTER (s_buf s) registers index;
  if oldcount <? count then s ← HLL_DENSE_SET_REGISTER s registers index count; Some (s, true)
  else Some (s, false).

(** [reghisto[r] += n] *)
Definition histo_add (reghisto : list Z) (r n : Z) : option (list Z) := c ← rd reghisto r; wrn reghisto r [i32 (c + n)].
Fixpoint histo_incrs (reghisto : list Z) (rs : list Z) : option (list Z) :=
  match rs with [] => Some reghisto | r :: rs => reghisto ← histo_add reghisto r 1; histo_incrs reghisto rs end.

(** The 16 registers of 12 bytes. *)
Definition unpack16 (r : list Z) : list Z :=
  let b i := nth i r 0 in
  [Z.land (b 0) 63; Z.land (Z.lor (Z.shiftr (b 0) 6) (Z.shiftl (b 1) 2)) 63; Z.land (Z.lor (Z.shiftr (b 1) 4) (Z.shiftl (b 2) 4)) 63; Z.land (Z.shiftr (b 2) 2) 63;
   Z.land (b 3) 63; Z.land (Z.lor (Z.shiftr (b 3) 6) (Z.shiftl (b 4) 2)) 63; Z.land (Z.lor (Z.shiftr (b 4) 4) (Z.shiftl (b 5) 4)) 63; Z.land (Z.shiftr (b 5) 2) 63;
   Z.land (b 6) 63; Z.land (Z.lor (Z.shiftr (b 6) 6) (Z.shiftl (b 7) 2)) 63; Z.land (Z.lor (Z.shiftr (b 7) 4) (Z.shiftl (b 8) 4)) 63; Z.land (Z.shiftr (b 8) 2) 63;
   Z.land (b 9) 63; Z.land (Z.lor (Z.shiftr (b 9) 6) (Z.shiftl (b 10) 2)) 63; Z.land (Z.lor (Z.shiftr (b 10) 4) (Z.shiftl (b 11) 4)) 63; Z.land (Z.shiftr (b 11) 2) 63]%nat.

Fixpoint dense_histo_loop (n : nat) (m : list Z) (r : Z) (reghisto : list Z) : option (list Z) :=
  match n with
  | O => Some reghisto
  | S n => bs ← rdn m r 12; reghisto ← histo_incrs reghisto (unpack16 bs); dense_histo_loop n m (r + 12) reghisto
  end.
Definition hllDenseRegHisto (m : list Z) (p : Z) (reghisto : list Z) : option (list Z) := dense_histo_loop 1024 m p reghisto.

(** * Sparse representation *)

(** [while(runlen--)] *)
Fixpoint set_run (n : nat) (dense : sds) (idx regval : Z) : option (sds * Z) :=
  match n with
  | O => Some (dense, idx)
  | S n => dense ← HLL_DENSE_SET_REGISTER dense registers idx regval; set_run n dense (idx + 1) regval
  end.

(** The index is an [int].  A loop consumes a byte a turn. *)
Fixpoint to_dense_loop (fuel : nat) (m : list Z) (p end_ idx : Z) (dense : sds) : option (sds * Z) :=
  if p <? end_ then
    match fuel with
    | O => None
    | S fuel =>
        op ← opcode_at m p;
        match op with
        | ZERO len | XZERO len => to_dense_loop fuel m (p + oplen op) end_ (i32 (idx + len)) dense
        | VAL regval len =>
            if HLL_REGISTERS <? i32 (len + idx) then Some (dense, idx)
            else '(dense, idx) ← set_run (Z.to_nat len) dense idx regval; to_dense_loop fuel m (p + 1) end_ idx dense
        end
    end
  else Some (dense, idx).

Fixpoint sparse_histo_loop (fuel : nat) (m : list Z) (p end_ idx : Z) (reghisto : list Z) : option (list Z * Z) :=
  if p <? end_ then
    match fuel with
    | O => None
    | S fuel =>
        op ← opcode_at m p;
        let r := match op with ZERO _ | XZERO _ => 0 | VAL regval _ => regval end in
        reghisto ← histo_add reghisto r (runlen op);
        sparse_histo_loop fuel m (p + oplen op) end_ (i32 (idx + runlen op)) reghisto
    end
  else Some (reghisto, idx).

(** The boolean is [*invalid]. *)
Definition hllSparseRegHisto (m : list Z) (sparse sparselen : Z) (reghisto : list Z) : option (list Z * bool) :=
  '(reghisto, idx) ← sparse_histo_loop (Z.to_nat sparselen) m sparse (sparse + sparselen) 0 reghisto;
  Some (reghisto, negb (idx =? HLL_REGISTERS)).

(** * Registers of a byte each *)

(** [word] is the place of the next 8 registers. *)
Fixpoint raw_histo_loop (n : nat) (m : list Z) (word : Z) (reghisto : list Z) : option (list Z) :=
  match n with
  | O => Some reghisto
  | S n =>
      bs ← rdn m word 8;
      reghisto ← (if forallb (Z.eqb 0) bs then histo_add reghisto 0 8 else histo_incrs reghisto bs);
      raw_histo_loop n m (word + 8) reghisto
  end.
Definition hllRawRegHisto (m : list Z) (reghisto : list Z) : option (list Z) := raw_histo_loop (Z.to_nat (HLL_REGISTERS / 8)) m 0 reghisto.

(** [if (val > max[i]) max[i] = val] *)
Definition max_set (max : list Z) (i val : Z) : option (list Z) :=
  old ← rd max i; if old <? val then wrn max i [val] else Some max.

Fixpoint merge_dense_loop (n : nat) (m : list Z) (i : Z) (max : list Z) : option (list Z) :=
  match n with
  | O => Some max
  | S n => val ← HLL_DENSE_GET_REGISTER m registers i; max ← max_set max i val; merge_dense_loop n m (i + 1) max
  end.

Fixpoint max_run (n : nat) (max : list Z) (i regval : Z) : option (list Z * Z) :=
  match n with
  | O => Some (max, i)
  | S n => max ← max_set max i regval; max_run n max (i + 1) regval
  end.

Fixpoint merge_sparse_loop (fuel : nat) (m : list Z) (p end_ i : Z) (max : list Z) : option (list Z * Z) :=
  if p <? end_ then
    match fuel with
    | O => None
    | S fuel =>
        op ← opcode_at m p;
        match op with
        | ZERO len | XZERO len => merge_sparse_loop fuel m (p + oplen op) end_ (i32 (i + len)) max
        | VAL regval len =>
            if HLL_REGISTERS <? len + i then Some (max, i)
            else '(max, i) ← max_run (Z.to_nat len) max i regval; merge_sparse_loop fuel m (p + 1) end_ i max
        end
    end
  else Some (max, i).

(** The boolean is C_OK. *)
Definition hllMerge (max : list Z) (hll : sds) : option (list Z * bool) :=
  encoding ← hdr_encoding hll;
  if encoding =? HLL_DENSE then
    max ← merge_dense_loop (Z.to_nat HLL_REGISTERS) (s_buf hll) 0 max; Some (max, true)
  else
    '(max, i) ← merge_sparse_loop (Z.to_nat (sdslen hll)) (s_buf hll) HLL_HDR_SIZE (sdslen hll) 0 max;
    Some (max, i =? HLL_REGISTERS).

Section hll.
Context (usable : Z -> Z) (junk : nat -> Z) (use_jemalloc : bool) (hll_sparse_max_bytes : Z).

(** The boolean is C_OK.  The header is copied: magic and cached cardinality. *)
Definition hllSparseToDense (o : sds) : option (sds * bool) :=
  encoding ← hdr_encoding o;
  if encoding =? HLL_DENSE then Some (o, true)
  else
    dense ← sdsnewlen usable junk InitNull HLL_DENSE_SIZE;
    hdr ← rdn (s_buf o) 0 HLL_HDR_SIZE;
    dense ← sds_wr dense 0 hdr;
    dense ← hdr_set_encoding dense HLL_DENSE;
    '(dense, idx) ← to_dense_loop (Z.to_nat (sdslen o)) (s_buf o) HLL_HDR_SIZE (sdslen o) 0 dense;
    if negb (idx =? HLL_REGISTERS) then Some (o, false) else Some (dense, true).

(** Step 1: the opcode that covers the register, the previous one, the first
    register of the opcode and the number of registers of the last opcode
    read. *)
Fixpoint sparse_find (fuel : nat) (m : list Z) (index p end_ : Z) (prev : option Z) (first span : Z) : option (option Z * Z * Z * Z) :=
  if p <? end_ then
    match fuel with
    | O => None
    | S fuel =>
        op ← opcode_at m p;
        let span := runlen op in
        if index <=? first + span - 1 then Some (prev, p, first, span)
        else sparse_find fuel m index (p + oplen op) end_ (Some p) (first + span) span
    end
  else Some (prev, p, first, span).

(** The bytes of a run of [len] zero registers. *)
Definition zero_seq (len : Z) : list Z := if HLL_SPARSE_ZERO_MAX_LEN <? len then HLL_SPARSE_XZERO_SET len else HLL_SPARSE_ZERO_SET len.

(** The sequence that replaces an opcode for the registers from [first] to
    [last]. *)
Definition split_seq (op : opcode) (first last index count : Z) : list Z :=
  match op with
  | ZERO _ | XZERO _ =>
      (if negb (index =? first) then zero_seq (index - first) else []) ++ HLL_SPARSE_VAL_SET count 1 ++
      (if negb (index =? last) then zero_seq (last - index) else [])
  | VAL curval _ =>
      (if negb (index =? first) then HLL_SPARSE_VAL_SET curval (index - first) else []) ++ HLL_SPARSE_VAL_SET count 1 ++
      (if negb (index =? last) then HLL_SPARSE_VAL_SET curval (last - index) else [])
  end.

(** Step 4: merges adjacent VAL opcodes. *)
Fixpoint merge_vals (scanlen : nat) (s : sds) (p end_ : Z) : option sds :=
  match scanlen with
  | O => Some s
  | S scanlen =>
      if p <? end_ then
        op ← opcode_at (s_buf s) p;
        match op with
        | XZERO _ | ZERO _ => merge_vals scanlen s (p + oplen op) end_
        | VAL v1 l1 =>
            op2 ← (if p + 1 <? end_ then
                     b ← rd (s_buf s) (p + 1);
                     Some (if HLL_SPARSE_IS_VAL b then Some (HLL_SPARSE_VAL_VALUE b, HLL_SPARSE_VAL_LEN b) else None)
                   else Some None);
            match op2 with
            | Some (v2, l2) =>
                let len := l1 + l2 in
                if (v1 =? v2) && (len <=? HLL_SPARSE_VAL_MAX_LEN) then
                  s ← sds_wr s (p + 1) (HLL_SPARSE_VAL_SET v1 len);
                  m ← memmove (s_buf s) p (p + 1) (end_ - p);
                  s ← sdsIncrLen (Sds (s_type s) (s_len s) (s_alloc s) m) (-1);
                  merge_vals scanlen s p (end_ - 1)
                else merge_vals scanlen s (p + 1) end_
            | None => merge_vals scanlen s (p + 1) end_
            end
        end
      else Some s
  end.

(** Room for what an update adds, at most [hll_sparse_max_bytes] in all. *)
Definition sparse_make_room (o : sds) : option sds :=
  if (sdsalloc o <? hll_sparse_max_bytes) && (sdsavail o <? 3) then
    let newlen := sdslen o + 3 in
    let newlen := newlen + (if newlen <? 300 then newlen else 300) in
    sdsResize usable junk use_jemalloc o (if hll_sparse_max_bytes <? newlen then hll_sparse_max_bytes else newlen) true
  else Some o.

(** The result of an update: 0, 1, or -1 on an invalid representation. *)
Definition sparse_promote (o : sds) (index count : Z) : option (sds * Z) :=
  '(o, ok) ← hllSparseToDense o;
  if negb ok then Some (o, -1)
  else
    '(o, dense_retval) ← hllDenseSet o index count;
    _ ← assert_ dense_retval;
    Some (o, 1).

Definition sparse_updated (o : sds) (prev : option Z) (end_ : Z) : option (sds * Z) :=
  o ← merge_vals 5 o (default HLL_HDR_SIZE prev) end_;
  o ← HLL_INVALIDATE_CACHE o;
  Some (o, 1).

Definition hllSparseSet (o : sds) (index count : Z) : option (sds * Z) :=
  if HLL_SPARSE_VAL_MAX_VALUE <? count then sparse_promote o index count
  else
    o ← sparse_make_room o;
    let end_ := sdslen o in
    '(prev, p, first, span) ← sparse_find (Z.to_nat (sdslen o)) (s_buf o) index HLL_HDR_SIZE end_ None 0 0;
    if (span =? 0) || (end_ <=? p) then Some (o, -1)
    else
      op ← opcode_at (s_buf o) p;
      let next := p + oplen op in
      let next := if end_ <=? next then None else Some next in
      let unchanged := match op with VAL oldcount _ => count <=? oldcount | _ => false end in
      if unchanged then Some (o, 0)
      else
        let single := match op with VAL _ len | ZERO len => len =? 1 | XZERO _ => false end in
        if single then o ← sds_wr o p (HLL_SPARSE_VAL_SET count 1); sparse_updated o prev end_
        else
          let seq := split_seq op first (first + span - 1) index count in
          let seqlen := zlen seq in
          let deltalen := seqlen - oplen op in
          if (0 <? deltalen) && (hll_sparse_max_bytes <? sdslen o + deltalen) then sparse_promote o index count
          else
            _ ← assert_ (sdslen o + deltalen <=? sdsalloc o);
            m ← (match next with
                 | Some next => if negb (deltalen =? 0) then memmove (s_buf o) (next + deltalen) next (end_ - next) else Some (s_buf o)
                 | None => Some (s_buf o)
                 end);
            o ← sdsIncrLen (Sds (s_type o) (s_len o) (s_alloc o) m) deltalen;
            o ← sds_wr o p seq;
            sparse_updated o prev (end_ + deltalen).

(** * Adding, creating and counting *)

Section add.
Context `{Host}.

Definition hllDenseAdd (o : sds) (ele : list Z) : option (sds * Z) :=
  '(count, index) ← hllPatLen ele;
  '(o, changed) ← hllDenseSet o index (u8 count);
  Some (o, Z.b2z changed).

Definition hllSparseAdd (o : sds) (ele : list Z) : option (sds * Z) :=
  '(count, index) ← hllPatLen ele;
  hllSparseSet o index (u8 count).

Definition hllAdd (o : sds) (ele : list Z) : option (sds * Z) :=
  encoding ← hdr_encoding o;
  if encoding =? HLL_DENSE then hllDenseAdd o ele
  else if encoding =? HLL_SPARSE then hllSparseAdd o ele
  else Some (o, -1).
End add.

(** As many XZERO opcodes as are needed. *)
Fixpoint create_loop (fuel : nat) (s : sds) (p aux : Z) : option (sds * Z) :=
  if aux =? 0 then Some (s, p)
  else
    match fuel with
    | O => None
    | S fuel =>
        let xzero := if aux <? HLL_SPARSE_XZERO_MAX_LEN then aux else HLL_SPARSE_XZERO_MAX_LEN in
        s ← sds_wr s p (HLL_SPARSE_XZERO_SET xzero);
        create_loop fuel s (p + 2) (aux - xzero)
    end.

Definition createHLLObject : option sds :=
  let sparselen := HLL_HDR_SIZE + (HLL_REGISTERS + (HLL_SPARSE_XZERO_MAX_LEN - 1)) / HLL_SPARSE_XZERO_MAX_LEN * 2 in
  s ← sdsnewlen usable junk InitNull sparselen;
  '(s, p) ← create_loop 64 s HLL_HDR_SIZE HLL_REGISTERS;
  _ ← assert_ (p =? sparselen);
  s ← sds_wr s 0 (chars "HYLL");
  hdr_set_encoding s HLL_SPARSE.

(** The estimate from the histogram, and whether the representation is
    invalid. *)
Definition hllCount (estimate : list Z -> Z) (hdr : sds) : option (Z * bool) :=
  encoding ← hdr_encoding hdr;
  let reghisto := replicate 64 0 in
  if encoding =? HLL_DENSE then
    reghisto ← hllDenseRegHisto (s_buf hdr) registers reghisto; Some (u64 (estimate reghisto), false)
  else if encoding =? HLL_SPARSE then
    '(reghisto, invalid) ← hllSparseRegHisto (s_buf hdr) registers (sdslen hdr - HLL_HDR_SIZE) reghisto;
    Some (u64 (estimate reghisto), invalid)
  else None.
(** With the encoding HLL_RAW, on the registers. *)
Definition hllCount_raw (estimate : list Z -> Z) (max : list Z) : option Z :=
  reghisto ← hllRawRegHisto max (replicate 64 0); Some (u64 (estimate reghisto)).
End hll.
