(* ===== verification/HllThms.v ===== *)
(** hyperloglog.c: the registers in both representations against a list of
    16384 registers.  Dense registers are read and written by their bits.  The
    opcodes of the sparse representation are read back as they are written, an
    update replaces an opcode by others and merges neighbours, and the registers
    they stand for change in one place. *)
From stdpp Require Import strings.
From S2P Require Import Prelude Endian Strnum Bits Sds SdsThms Hll.

(** * Writing inside a string *)

Lemma rep_rd s c i : sds_rep s c -> 0 <= i <= zlen c -> rd (s_buf s) i = rd (c ++ [0]) i.
Proof.
  intros ((sl & ->) & _) Hi. replace (c ++ 0 :: sl) with ((c ++ [0]) ++ sl) by (by rewrite <- app_assoc). apply rd_app_l. rewrite zlen_app, zlen_cons, zlen_nil. lia.
Qed.

Lemma wr_rep s a b d bs : sds_rep s (a ++ b ++ d) -> zlen bs = zlen b ->
  exists s', sds_wr s (zlen a) bs = Some s' /\ sds_rep s' (a ++ bs ++ d) /\ s_type s' = s_type s /\ s_alloc s' = s_alloc s.
Proof.
  intros ((sl & Eb) & El & Hr) Hbs. unfold sds_wr. rewrite Eb, <- !app_assoc, (wrn_app a b bs (d ++ 0 :: sl) (zlen a)) by done. cbn [mbind option_bind].
  eexists. split; [reflexivity |]. split; [| done]. split; [exists sl; cbn [s_buf]; by rewrite <- !app_assoc |].
  cbn [s_len s_buf s_type]. unfold sdsalloc in *. cbn [s_type s_len s_alloc] in *. rewrite Eb in Hr. rewrite !zlen_app, !zlen_cons in *. split; [lia |]. repeat split; lia.
Qed.

(** One byte, which may be the terminator when it stays 0. *)
Lemma wr_byte s c i b : sds_rep s c -> 0 <= i <= zlen c -> (i = zlen c -> b = 0) ->
  exists s' c', sds_wr s i [b] = Some s' /\ sds_rep s' c' /\ c' ++ [0] = <[Z.to_nat i := b]> (c ++ [0]) /\ s_type s' = s_type s /\ s_alloc s' = s_alloc s.
Proof.
  intros R Hi Hb. destruct (decide (i = zlen c)) as [-> | Hn].
  - rewrite (Hb eq_refl). pose proof R as ((sl & Eb) & El & Hr). exists s, c. unfold sds_wr.
    rewrite Eb. change (c ++ 0 :: sl) with (c ++ [0] ++ sl). rewrite (wrn_app c [0] [0] sl (zlen c)) by done. cbn [mbind option_bind app]. rewrite <- Eb. split; [by destruct s |]. split; [done |]. split; [| done].
    unfold zlen. rewrite Nat2Z.id. symmetry. apply list_insert_id. by rewrite lookup_app_r, Nat.sub_diag by lia.
  - destruct (zlen_split_prefix c i) as (a & r & -> & <-); [lia |]. rewrite zlen_app in *. destruct r as [| x d]; [rewrite zlen_nil in *; lia |].
    destruct (wr_rep s a [x] d [b] R eq_refl) as (s' & E & R' & Ht). exists s', (a ++ [b] ++ d). split; [exact E |]. split; [exact R' |]. split; [| exact Ht].
    unfold zlen. rewrite Nat2Z.id, <- !app_assoc. by rewrite insert_app_r_alt, Nat.sub_diag by lia.
Qed.

(** * Registers of 6 bits *)

Definition byte_at (m : list Z) (i : Z) : Z := nth (Z.to_nat i) m 0.
(** Bit [n] of the registers, which start at [p]. *)
Definition dense_bit (m : list Z) (p n : Z) : bool := Z.testbit (byte_at m (p + n / 8)) (n mod 8).
Definition reg_of (m : list Z) (p i : Z) : Z :=
  Z.land (Z.lor (Z.shiftr (byte_at m (p + i * 6 / 8)) (i * 6 mod 8)) (Z.shiftl (byte_at m (p + i * 6 / 8 + 1)) (8 - i * 6 mod 8))) 63.

Lemma byte_at_rd m i : 0 <= i < zlen m -> rd m i = Some (byte_at m i).
Proof.
  intros Hi. unfold rd, byte_at. rewrite (proj2 (Z.leb_le 0 i)) by lia. unfold zlen in Hi.
  destruct (m !! Z.to_nat i) as [x |] eqn:E; [by rewrite (nth_lookup_Some _ _ _ _ E) |]. apply lookup_ge_None in E. lia.
Qed.

Lemma land7 x : Z.land x 7 = x mod 8.
Proof. change 7 with (Z.ones 3). by rewrite Z.land_ones. Qed.

Lemma get_register_ok m p i : 0 <= p -> 0 <= i -> p + i * 6 / 8 + 1 < zlen m -> HLL_DENSE_GET_REGISTER m p i = Some (reg_of m p i).
Proof.
  intros Hp Hi Hm. pose proof (Z.div_pos (i * 6) 8 ltac:(lia) ltac:(lia)). unfold HLL_DENSE_GET_REGISTER, HLL_BITS. cbv zeta.
  rewrite !byte_at_rd by lia. cbn [mbind option_bind]. by rewrite land7.
Qed.

(** The bits of a register. *)
Lemma testbit_reg m p i j : 0 <= p -> 0 <= i -> 0 <= j -> byte (byte_at m (p + i * 6 / 8)) -> Z.testbit (reg_of m p i) j = (j <? 6) && dense_bit m p (i * 6 + j).
Proof.
  intros Hp Hi Hj Hb. unfold reg_of, dense_bit. change 63 with (Z.ones 6). rewrite Z.land_spec, testbit_ones by lia. rewrite andb_comm.
  destruct (Z.ltb_spec j 6) as [H6 | H6]; cbn [andb]; [| done]. rewrite Z.lor_spec, testbit_shiftr, testbit_shiftl by lia.
  set (b := i * 6). set (fb := b mod 8). pose proof (Z.mod_pos_bound b 8 ltac:(lia)) as Hfb. fold fb in Hfb. pose proof (Z.div_mod b 8 ltac:(lia)) as Hd. fold fb in Hd.
  destruct (Z_lt_ge_dec (fb + j) 8) as [Hlt | Hge].
  - replace ((b + j) / 8) with (b / 8) by (apply Z.div_unique with (fb + j); lia). replace ((b + j) mod 8) with (j + fb) by (apply Z.mod_unique with (b / 8); lia).
    rewrite (Z.testbit_neg_r _ (j - (8 - fb))) by lia. apply orb_false_r.
  - replace ((b + j) / 8) with (b / 8 + 1) by (apply Z.div_unique with (fb + j - 8); lia). replace ((b + j) mod 8) with (j - (8 - fb)) by (apply Z.mod_unique with (b / 8 + 1); lia).
    rewrite (testbit_above (byte_at m (p + b / 8)) 8) by (exact Hb || lia). cbn [orb]. f_equal. f_equal. lia.
Qed.

Lemma reg_of_range m p i : 0 <= reg_of m p i < 64.
Proof. unfold reg_of. change 63 with (Z.ones 6). rewrite Z.land_ones by lia. apply Z.mod_pos_bound. lia. Qed.

Lemma reg_of_ext m m' p i k : 0 <= p -> 0 <= i -> 0 <= k -> bytes m -> bytes m' ->
  (forall j, 0 <= j < 6 -> dense_bit m p (i * 6 + j) = dense_bit m' p (k * 6 + j)) -> reg_of m p i = reg_of m' p k.
Proof.
  intros Hp Hi Hk Hm Hm' He. assert (forall l x, bytes l -> byte (byte_at l x)) as Hb.
  { intros l x Hl. unfold byte_at. destruct (nth_in_or_default (Z.to_nat x) l 0) as [Hin | ->]; [| unfold byte; lia]. unfold bytes in Hl. rewrite Forall_forall in Hl. apply Hl. by apply list_elem_of_In. }
  apply Z.bits_inj'. intros j Hj. rewrite !testbit_reg by (done || by apply Hb). destruct (Z.ltb_spec j 6); cbn [andb]; [| done]. apply He. lia.
Qed.

Lemma testbit_u8 z r : 0 <= r < 8 -> Z.testbit (u8 z) r = Z.testbit z r.
Proof. intros Hr. rewrite u8_pow, testbit_mod2 by lia. by rewrite (proj2 (Z.ltb_lt r 8)) by lia. Qed.

Lemma first_byte_bits b v fb r : 0 <= v < 64 -> 0 <= fb -> 0 <= r < 8 ->
  Z.testbit (u8 (Z.lor (u8 (Z.land b (Z.lnot (Z.shiftl 63 fb)))) (Z.shiftl v fb))) r =
  if (fb <=? r) && (r <? fb + 6) then Z.testbit v (r - fb) else Z.testbit b r.
Proof.
  intros Hv Hfb Hr. rewrite testbit_u8, Z.lor_spec, testbit_u8, Z.land_spec, testbit_lnot, !testbit_shiftl by lia. change 63 with (Z.ones 6).
  destruct (Z.leb_spec fb r); cbn [andb].
  - rewrite testbit_ones by lia. replace (r - fb <? 6) with (r <? fb + 6) by (apply eq_true_iff_eq; rewrite !Z.ltb_lt; lia).
    destruct (Z.ltb_spec r (fb + 6)); cbn [negb]; [by rewrite andb_false_r |]. rewrite andb_true_r, (testbit_above v 6) by lia. apply orb_false_r.
  - rewrite !(Z.testbit_neg_r _ (r - fb)) by lia. cbn [negb]. by rewrite andb_true_r, orb_false_r.
Qed.

Lemma second_byte_bits b v fb8 r : 0 <= v < 64 -> 0 <= fb8 -> 0 <= r < 8 ->
  Z.testbit (u8 (Z.lor (u8 (Z.land b (Z.lnot (Z.shiftr 63 fb8)))) (Z.shiftr v fb8))) r =
  if r + fb8 <? 6 then Z.testbit v (r + fb8) else Z.testbit b r.
Proof.
  intros Hv Hfb Hr. rewrite testbit_u8, Z.lor_spec, testbit_u8, Z.land_spec, testbit_lnot, !testbit_shiftr by lia. change 63 with (Z.ones 6).
  rewrite testbit_ones by lia. destruct (Z.ltb_spec (r + fb8) 6); cbn [negb].
  - by rewrite andb_false_r.
  - rewrite andb_true_r, (testbit_above v 6) by lia. apply orb_false_r.
Qed.

Lemma byte_at_insert m i b k : 0 <= i < zlen m -> 0 <= k -> byte_at (<[Z.to_nat i := b]> m) k = if k =? i then b else byte_at m k.
Proof.
  intros Hi Hk. unfold byte_at, zlen in *. rewrite !nth_lookup. destruct (Z.eqb_spec k i) as [-> | Hn].
  - by rewrite list_lookup_insert_eq by lia.
  - by rewrite list_lookup_insert_ne by lia.
Qed.

Lemma hll_byte_at_byte m i : bytes m -> byte (byte_at m i).
Proof.
  intros Hm. unfold byte_at. destruct (nth_in_or_default (Z.to_nat i) m 0) as [Hin | ->]; [| unfold byte; lia].
  unfold bytes in Hm. rewrite Forall_forall in Hm. apply Hm. by apply list_elem_of_In.
Qed.

(** The bits of a byte determine it. *)
Lemma byte_zero b : byte b -> (forall r, 0 <= r < 8 -> Z.testbit b r = false) -> b = 0.
Proof.
  intros Hb Hr. apply Z.bits_inj'. intros r H0. rewrite Z.bits_0. destruct (Z_lt_ge_dec r 8); [by apply Hr |]. apply (testbit_above b 8); [exact Hb | lia].
Qed.

Lemma set_register_ok s c p i v : sds_rep s c -> bytes c -> 0 <= p -> 0 <= i -> 0 <= v < 64 -> p + i * 6 / 8 + 1 <= zlen c ->
  (p + i * 6 / 8 + 1 = zlen c -> i * 6 mod 8 <= 2) ->
  exists s' c', HLL_DENSE_SET_REGISTER s p i v = Some s' /\ sds_rep s' c' /\ bytes c' /\ zlen c' = zlen c /\ s_type s' = s_type s /\ s_alloc s' = s_alloc s /\
    (forall k, 0 <= k < p -> byte_at c' k = byte_at c k) /\
    (forall n, 0 <= n -> p + n / 8 <= zlen c ->
       dense_bit (c' ++ [0]) p n = if (i * 6 <=? n) && (n <? i * 6 + 6) then Z.testbit v (n - i * 6) else dense_bit (c ++ [0]) p n).
Proof.
  intros R Hb Hp Hi Hv Hl He. pose proof (Z.div_pos (i * 6) 8 ltac:(lia) ltac:(lia)) as H0. pose proof (Z.mod_pos_bound (i * 6) 8 ltac:(lia)) as Hm.
  pose proof (Z.div_mod (i * 6) 8 ltac:(lia)) as Hd. unfold HLL_DENSE_SET_REGISTER, HLL_BITS. cbv zeta. rewrite land7.
  change HLL_REGISTER_MAX with 63. set (q := i * 6 / 8) in *. set (fb := i * 6 mod 8) in *. clearbody q fb.
  assert (zlen (c ++ [0]) = zlen c + 1) as Hz by (by rewrite zlen_app).
  rewrite (rep_rd s c) by (done || lia). rewrite byte_at_rd by lia. cbn [mbind option_bind]. set (b0 := byte_at (c ++ [0]) (p + q)).
  match goal with |- context [sds_wr s (p + q) [?x]] => set (w0 := x) end.
  destruct (wr_byte s c (p + q) w0 R) as (s1 & c1 & -> & R1 & E1 & Ht1 & Ha1); [lia | lia |]. cbn [mbind option_bind].
  assert (zlen c1 = zlen c) as Hz1 by (apply (f_equal zlen) in E1; unfold zlen in *; rewrite length_insert, !length_app in E1; lia).
  rewrite (rep_rd s1 c1), E1 by (done || lia). assert (rd (<[Z.to_nat (p + q) := w0]> (c ++ [0])) (p + q + 1) = Some (byte_at (c ++ [0]) (p + q + 1))) as ->.
  { rewrite byte_at_rd by (unfold zlen in *; rewrite length_insert; lia). rewrite byte_at_insert by lia. by rewrite (proj2 (Z.eqb_neq _ _)) by lia. }
  cbn [mbind option_bind]. set (b1 := byte_at (c ++ [0]) (p + q + 1)). match goal with |- context [sds_wr s1 (p + q + 1) [?x]] => set (w1 := x) end.
  assert (byte b1) as Hb1 by (apply hll_byte_at_byte; unfold bytes in *; apply Forall_app; split; [exact Hb |]; apply Forall_singleton; unfold byte; lia).
  assert (p + q + 1 = zlen c -> w1 = 0) as Hw1.
  { intros Eq. apply byte_zero; [apply u8_byte |]. intros r Hr. unfold w1. rewrite second_byte_bits by lia. specialize (He Eq).
    rewrite (proj2 (Z.ltb_ge _ _)) by lia. unfold b1. rewrite Eq. unfold byte_at, zlen. rewrite Nat2Z.id, app_nth2, Nat.sub_diag by lia. apply Z.bits_0. }
  destruct (wr_byte s1 c1 (p + q + 1) w1 R1) as (s2 & c2 & -> & R2 & E2 & Ht2 & Ha2); [lia | intros; apply Hw1; lia |].
  exists s2, c2. rewrite E1 in E2. assert (zlen c2 = zlen c) as Hz2 by (apply (f_equal zlen) in E2; unfold zlen in *; rewrite !length_insert, !length_app in E2; lia).
  split; [done |]. split; [exact R2 |].
  assert (forall k, 0 <= k -> k <= zlen c -> byte_at (c2 ++ [0]) k = if k =? p + q + 1 then w1 else if k =? p + q then w0 else byte_at (c ++ [0]) k) as Hk.
  { intros k Hk Hkz. rewrite E2, !byte_at_insert by (unfold zlen in *; rewrite ?length_insert; lia). done. }
  split; [| split; [exact Hz2 | split; [congruence | split; [congruence | split]]]].
  - assert (bytes (c2 ++ [0])) as Hbb; [| unfold bytes in *; by apply Forall_app in Hbb as [? _]]. rewrite E2.
    assert (bytes (c ++ [0])) as Hb' by (unfold bytes in *; apply Forall_app; split; [exact Hb |]; apply Forall_singleton; unfold byte; lia).
    unfold bytes in *. apply Forall_insert; [apply Forall_insert; [exact Hb' | apply u8_byte] | apply u8_byte].
  - intros k Hkp. assert (byte_at (c2 ++ [0]) k = byte_at (c ++ [0]) k) as Ek.
    { rewrite Hk by lia. rewrite (proj2 (Z.eqb_neq k (p + q + 1))), (proj2 (Z.eqb_neq k (p + q))) by lia. done. }
    unfold byte_at, zlen in *. by rewrite !app_nth1 in Ek by lia.
  - intros n Hn Hnz. unfold dense_bit at 1. pose proof (Z.div_pos n 8 ltac:(lia) ltac:(lia)). pose proof (Z.mod_pos_bound n 8 ltac:(lia)). pose proof (Z.div_mod n 8 ltac:(lia)).
    rewrite Hk by lia. unfold dense_bit.
    destruct (Z.eqb_spec (p + n / 8) (p + q + 1)) as [Eq | Nq].
    + unfold w1. rewrite second_byte_bits by lia. replace (p + n / 8) with (p + q + 1). fold b1.
      replace (n mod 8 + (8 - fb) <? 6) with ((i * 6 <=? n) && (n <? i * 6 + 6)); [by replace (n mod 8 + (8 - fb)) with (n - i * 6) by lia |].
      apply eq_true_iff_eq. rewrite andb_true_iff, Z.leb_le, !Z.ltb_lt. lia.
    + destruct (Z.eqb_spec (p + n / 8) (p + q)) as [Eq | Nq'].
      * unfold w0. rewrite first_byte_bits by lia. replace (p + n / 8) with (p + q). fold b0.
        replace ((fb <=? n mod 8) && (n mod 8 <? fb + 6)) with ((i * 6 <=? n) && (n <? i * 6 + 6)); [by replace (n mod 8 - fb) with (n - i * 6) by lia |].
        apply eq_true_iff_eq. rewrite !andb_true_iff, !Z.leb_le, !Z.ltb_lt. lia.
      * replace ((i * 6 <=? n) && (n <? i * 6 + 6)) with false; [done |]. symmetry. apply andb_false_iff. rewrite Z.leb_gt, Z.ltb_ge. lia.
Qed.

(** * Dense representation *)

Definition hdr (e : Z) (rest : list Z) : list Z := chars "HYLL" ++ e :: rest.
(** A header with this encoding, the other fields of it, and these registers. *)
Definition dense_rep (s : sds) (rest R : list Z) : Prop :=
  exists c, sds_rep s c /\ bytes c /\ zlen c = HLL_DENSE_SIZE /\ zlen rest = 11 /\ take 16 c = hdr HLL_DENSE rest /\ zlen R = HLL_REGISTERS /\
    forall i, 0 <= i < HLL_REGISTERS -> R !! Z.to_nat i = Some (reg_of (c ++ [0]) registers i).

Lemma dense_place i : 0 <= i < HLL_REGISTERS ->
  0 <= i * 6 / 8 /\ registers + i * 6 / 8 + 1 <= HLL_DENSE_SIZE /\ (registers + i * 6 / 8 + 1 = HLL_DENSE_SIZE -> i * 6 mod 8 <= 2).
Proof.
  change HLL_REGISTERS with 16384. change HLL_HDR_SIZE with 16. change HLL_DENSE_SIZE with 12304. intros Hi.
  pose proof (Z.div_mod (i * 6) 8 ltac:(lia)). pose proof (Z.mod_pos_bound (i * 6) 8 ltac:(lia)). lia.
Qed.

Lemma dense_get s rest R i : dense_rep s rest R -> 0 <= i < HLL_REGISTERS ->
  exists v, R !! Z.to_nat i = Some v /\ HLL_DENSE_GET_REGISTER (s_buf s) registers i = Some v /\ 0 <= v < 64.
Proof.
  intros (c & Rs & Hb & Hz & _ & _ & _ & HR) Hi. exists (reg_of (c ++ [0]) registers i). split; [by apply HR |]. split; [| apply reg_of_range].
  destruct (dense_place i Hi) as (H0 & H1 & _). rewrite <- get_register_ok; [| done | lia |].
  - unfold HLL_DENSE_GET_REGISTER, HLL_BITS. change HLL_HDR_SIZE with 16 in *. rewrite !(rep_rd s c) by (exact Rs || lia). done.
  - rewrite zlen_app, Hz. change (zlen [0]) with 1. clear - H1. lia.
Qed.

Lemma dense_put s rest R i v : dense_rep s rest R -> 0 <= i < HLL_REGISTERS -> 0 <= v < 64 ->
  exists s', HLL_DENSE_SET_REGISTER s registers i v = Some s' /\ dense_rep s' rest (<[Z.to_nat i := v]> R).
Proof.
  intros (c & Rs & Hb & Hz & Hrest & Hhdr & HzR & HR) Hi Hv. destruct (dense_place i Hi) as (H0 & H1 & H2).
  destruct (set_register_ok s c registers i v Rs Hb ltac:(done) ltac:(lia) Hv ltac:(lia) ltac:(lia)) as (s' & c' & E & Rs' & Hb' & Hz' & _ & _ & Hpre & Hbits).
  exists s'. split; [exact E |]. exists c'. split; [exact Rs' |]. split; [exact Hb' |]. split; [congruence |]. split; [exact Hrest |]. split; [| split].
  - rewrite <- Hhdr. apply list_eq. intros k. destruct (decide (k < 16)%nat) as [Hk | Hk]; [| by rewrite !lookup_take_ge by lia].
    rewrite !lookup_take_lt by lia. specialize (Hpre (Z.of_nat k)). change HLL_HDR_SIZE with 16 in Hpre. specialize (Hpre ltac:(lia)). unfold byte_at in Hpre. rewrite Nat2Z.id in Hpre.
    change HLL_DENSE_SIZE with 12304 in Hz. unfold zlen in *.
    destruct (c' !! k) as [x |] eqn:E1; [| apply lookup_ge_None in E1; lia]. destruct (c !! k) as [y |] eqn:E2; [| apply lookup_ge_None in E2; lia].
    rewrite (nth_lookup_Some _ _ _ _ E1), (nth_lookup_Some _ _ _ _ E2) in Hpre. by subst.
  - unfold zlen in *. by rewrite length_insert.
  - intros k Hk. destruct (dense_place k Hk) as (K0 & K1 & _). assert (zlen c' = 12304) as Hz2 by (by rewrite Hz', Hz).
    assert (forall j, 0 <= j < 6 -> 0 <= (k * 6 + j) /\ registers + (k * 6 + j) / 8 <= zlen c) as Hin.
    { intros j Hj. rewrite Hz. change HLL_REGISTERS with 16384 in *. change HLL_HDR_SIZE with 16. change HLL_DENSE_SIZE with 12304. pose proof (Z.div_mod (k * 6 + j) 8 ltac:(lia)).
      pose proof (Z.mod_pos_bound (k * 6 + j) 8 ltac:(lia)). lia. }
    assert (bytes (c ++ [0]) /\ bytes (c' ++ [0])) as [B1 B2] by (unfold bytes in *; rewrite !Forall_app; repeat split; try done; apply Forall_singleton; unfold byte; lia).
    destruct (decide (k = i)) as [-> | Hne].
    + rewrite list_lookup_insert_eq by (change HLL_REGISTERS with 16384 in *; unfold zlen in *; lia). f_equal. apply Z.bits_inj'. intros j Hj.
      rewrite testbit_reg by (done || lia || by apply hll_byte_at_byte). destruct (Z.ltb_spec j 6) as [H6 | H6]; cbn [andb]; [| by apply (testbit_above v 6)].
      destruct (Hin j ltac:(lia)) as [Hn Hnz]. rewrite Hbits by done. replace ((i * 6 <=? i * 6 + j) && (i * 6 + j <? i * 6 + 6)) with true; [f_equal; lia |].
      symmetry. apply andb_true_iff. rewrite Z.leb_le, Z.ltb_lt. lia.
    + rewrite list_lookup_insert_ne by lia. rewrite HR by done. f_equal. apply reg_of_ext; try (done || lia). intros j Hj. destruct (Hin j Hj) as [Hn Hnz]. rewrite Hbits by done.
      replace ((i * 6 <=? k * 6 + j) && (k * 6 + j <? i * 6 + 6)) with false; [done |]. symmetry. apply andb_false_iff. rewrite Z.leb_gt, Z.ltb_ge. lia.
Qed.

(** What setting a register to at least [count] does to the registers, and
    whether it changes them. *)
Definition set_reg (R : list Z) (i count : Z) : list Z * bool :=
  match R !! Z.to_nat i with Some old => if old <? count then (<[Z.to_nat i := count]> R, true) else (R, false) | None => (R, false) end.

Lemma hllDenseSet_ok s rest R i count : dense_rep s rest R -> 0 <= i < HLL_REGISTERS -> count < 64 ->
  exists s', hllDenseSet s i count = Some (s', (set_reg R i count).2) /\ dense_rep s' rest (set_reg R i count).1.
Proof.
  intros HR Hi Hc. destruct (dense_get s rest R i HR Hi) as (v & E1 & E2 & Hv). unfold hllDenseSet, set_reg. rewrite E1, E2. cbn [mbind option_bind].
  destruct (Z.ltb_spec v count); [| by exists s]. destruct (dense_put s rest R i count HR Hi ltac:(lia)) as (s' & -> & HR'). cbn [mbind option_bind]. by exists s'.
Qed.

(** * Opcodes *)

Definition enc (op : opcode) : list Z :=
  match op with ZERO len => HLL_SPARSE_ZERO_SET len | XZERO len => HLL_SPARSE_XZERO_SET len | VAL v len => HLL_SPARSE_VAL_SET v len end.
Definition op_ok (op : opcode) : Prop :=
  match op with ZERO len => 1 <= len <= 64 | XZERO len => 1 <= len <= 16384 | VAL v len => 1 <= v <= 32 /\ 1 <= len <= 4 end.
Definition op_val (op : opcode) : Z := match op with VAL v _ => v | _ => 0 end.
Definition run_of (op : opcode) : list Z := replicate (Z.to_nat (runlen op)) (op_val op).
Definition encs (ops : list opcode) : list Z := concat (map enc ops).
(** The registers that a sequence of opcodes stands for. *)
Definition expand (ops : list opcode) : list Z := concat (map run_of ops).

Lemma encs_app a b : encs (a ++ b) = encs a ++ encs b.
Proof. unfold encs. by rewrite map_app, concat_app. Qed.
Lemma expand_app a b : expand (a ++ b) = expand a ++ expand b.
Proof. unfold expand. by rewrite map_app, concat_app. Qed.
Lemma encs_cons op ops : encs (op :: ops) = enc op ++ encs ops.
Proof. done. Qed.
Lemma expand_cons op ops : expand (op :: ops) = run_of op ++ expand ops.
Proof. done. Qed.

Lemma encs_snoc D op : encs (D ++ [op]) = encs D ++ enc op.
Proof. rewrite encs_app. cbn. by rewrite app_nil_r. Qed.
Lemma expand_snoc D op : expand (D ++ [op]) = expand D ++ run_of op.
Proof. rewrite expand_app. cbn. by rewrite app_nil_r. Qed.
Lemma zlen_enc op : zlen (enc op) = oplen op.
Proof. by destruct op. Qed.
Lemma runlen_ok op : op_ok op -> 1 <= runlen op <= 16384.
Proof. destruct op; cbn; lia. Qed.
Lemma zlen_run op : op_ok op -> zlen (run_of op) = runlen op.
Proof. intros H%runlen_ok. unfold run_of, zlen. rewrite length_replicate. lia. Qed.
Lemma oplen_bound op : 1 <= oplen op <= 2.
Proof. destruct op; cbn; lia. Qed.

(** The bytes of an opcode decode to it. *)
Definition decode1 (b b1 : Z) : opcode :=
  if HLL_SPARSE_IS_ZERO b then ZERO (HLL_SPARSE_ZERO_LEN b)
  else if HLL_SPARSE_IS_XZERO b then XZERO (HLL_SPARSE_XZERO_LEN b b1)
  else VAL (HLL_SPARSE_VAL_VALUE b) (HLL_SPARSE_VAL_LEN b).
#[export] Instance opcode_eq_dec : EqDecision opcode.
Proof. solve_decision. Defined.

Definition decodes (op : opcode) : bool :=
  match enc op with
  | b :: r => bool_decide (decode1 b (default 0 (head r)) = op) && Bool.eqb (HLL_SPARSE_IS_XZERO b && negb (HLL_SPARSE_IS_ZERO b)) (bool_decide (r <> [])) &&
      Bool.eqb (HLL_SPARSE_IS_VAL b) (match op with VAL _ _ => true | _ => false end) && forallb (fun b => (0 <=? b) && (b <? 256)) (enc op)
  | [] => false
  end.

Lemma range_all (P : Z -> bool) lo hi x : forallb P (seqZ lo (hi - lo + 1)) = true -> lo <= x <= hi -> P x = true.
Proof. intros H Hx. rewrite forallb_forall in H. apply H. apply list_elem_of_In, elem_of_seqZ. lia. Qed.

Lemma decodes_ok op : op_ok op -> decodes op = true.
Proof.
  destruct op as [len | len | v len]; cbn [op_ok].
  - exact (range_all (fun len => decodes (ZERO len)) 1 64 len ltac:(vm_compute; reflexivity)).
  - exact (range_all (fun len => decodes (XZERO len)) 1 16384 len ltac:(vm_compute; reflexivity)).
  - intros [Hv Hl]. exact (range_all _ 1 4 len (range_all (fun v => forallb (fun len => decodes (VAL v len)) (seqZ 1 (4 - 1 + 1))) 1 32 v ltac:(vm_compute; reflexivity) Hv) Hl).
Qed.

Lemma enc_bytes op : op_ok op -> bytes (enc op).
Proof.
  intros H%decodes_ok. unfold decodes in H. destruct (enc op) as [| b r]; [done |]. rewrite !andb_true_iff in H. destruct H as [_ H].
  unfold bytes. rewrite Forall_forall. intros x Hx%list_elem_of_In. rewrite forallb_forall in H. specialize (H x Hx).
  unfold byte. lia.
Qed.

Lemma encs_bytes ops : Forall op_ok ops -> bytes (encs ops).
Proof.
  intros H. unfold bytes, encs. induction H as [| op ops Hop _ IH]; [apply Forall_nil_2 |]. cbn. apply Forall_app. split; [by apply enc_bytes | exact IH].
Qed.

Lemma opcode_at_ok m p op r : view m p (enc op ++ r) -> op_ok op -> opcode_at m p = Some op.
Proof.
  intros Hv Hop. pose proof (decodes_ok op Hop) as Hd. unfold decodes in Hd. unfold opcode_at. destruct (enc op) as [| b bs] eqn:E; [done |].
  rewrite !andb_true_iff in Hd. destruct Hd as [[[Hd Hx] _] _]. apply bool_decide_eq_true in Hd. apply eqb_prop in Hx.
  rewrite (view_hd m p b (bs ++ r)) by done. cbn [mbind option_bind]. unfold decode1 in Hd. destruct (HLL_SPARSE_IS_ZERO b); [by rewrite Hd |].
  destruct (HLL_SPARSE_IS_XZERO b); cbn [andb negb] in Hx; [| by rewrite Hd].
  symmetry in Hx. apply bool_decide_eq_true in Hx. destruct bs as [| b1 bs]; [done |]. cbn [head from_option] in Hd. unfold id in Hd.
  rewrite (view_rd m p (b :: b1 :: bs ++ r) 1 b1 Hv) by done. cbn [mbind option_bind]. by rewrite Hd.
Qed.

Lemma opcode_first op : op_ok op -> exists b r, enc op = b :: r /\ HLL_SPARSE_IS_VAL b = (match op with VAL _ _ => true | _ => false end) /\
  (forall v len, op = VAL v len -> HLL_SPARSE_VAL_VALUE b = v /\ HLL_SPARSE_VAL_LEN b = len).
Proof.
  intros Hop. pose proof (decodes_ok op Hop) as Hd. unfold decodes in Hd. destruct (enc op) as [| b bs] eqn:E; [done |].
  rewrite !andb_true_iff in Hd. destruct Hd as [[[Hd Hx] Hv] _]. apply bool_decide_eq_true in Hd. apply eqb_prop in Hv. exists b, bs. split; [done |]. split; [done |].
  intros v len ->. unfold decode1 in Hd. repeat case_match; [done.. |]. by injection Hd.
Qed.

(** * Finding an opcode *)

Lemma zlen_expand_cons op ops : op_ok op -> zlen (expand (op :: ops)) = runlen op + zlen (expand ops).
Proof. intros H. rewrite expand_cons, zlen_app. by rewrite zlen_run. Qed.

Lemma length_encs ops : zlen ops <= zlen (encs ops) <= 2 * zlen ops.
Proof.
  induction ops as [| op ops IH]; [done |]. rewrite encs_cons, zlen_app, zlen_enc, zlen_cons. pose proof (oplen_bound op). lia.
Qed.

(** An offset of an opcode, at which a part of the sequence starts. *)
Definition boundary (start : Z) (ops : list opcode) (p : Z) : Prop := exists D1 D2, ops = D1 ++ D2 /\ p = start + zlen (encs D1).

Lemma sparse_find_ok m start end_ index X fuel : forall ops D prev span, view m (start + zlen (encs D)) (encs ops ++ X) ->
  end_ = start + zlen (encs D) + zlen (encs ops) -> Forall op_ok ops -> boundary start D (default start prev) ->
  zlen (expand D) <= index < zlen (expand D) + zlen (expand ops) -> (length ops < fuel)%nat ->
  exists A op B prev', ops = A ++ op :: B /\ zlen (expand (D ++ A)) <= index < zlen (expand (D ++ A)) + runlen op /\
    boundary start (D ++ A) (default start prev') /\
    sparse_find fuel m index (start + zlen (encs D)) end_ prev (zlen (expand D)) span =
      Some (prev', start + zlen (encs (D ++ A)), zlen (expand (D ++ A)), runlen op).
Proof.
  induction fuel as [| fuel IH]; intros ops D prev span Hv He Hok Hb Hi Hf; [lia |]. destruct ops as [| op ops]; [change (zlen (expand [])) with 0 in Hi; lia |].
  apply Forall_cons in Hok as [Hop Hok]. cbn [sparse_find]. rewrite zlen_expand_cons in Hi by done. rewrite encs_cons, zlen_app, zlen_enc in He.
  pose proof (oplen_bound op). pose proof (zlen_nonneg (encs ops)). rewrite (proj2 (Z.ltb_lt _ end_)) by lia.
  rewrite encs_cons, <- app_assoc in Hv. rewrite (opcode_at_ok _ _ op _ Hv Hop). cbn [mbind option_bind]. cbv zeta.
  destruct (Z.leb_spec index (zlen (expand D) + runlen op - 1)) as [Hle | Hgt].
  - exists [], op, ops, prev. rewrite app_nil_r. split; [done |]. split; [lia |]. by split.
  - assert (zlen (expand (D ++ [op])) = zlen (expand D) + runlen op /\ zlen (encs (D ++ [op])) = zlen (encs D) + oplen op) as [Ex Ee].
    { rewrite expand_app, encs_app, !zlen_app. rewrite zlen_expand_cons by done. rewrite encs_cons, zlen_app, zlen_enc. change (zlen (expand [])) with 0. change (zlen (encs [])) with 0. lia. }
    destruct (IH ops (D ++ [op]) (Some (start + zlen (encs D))) (runlen op)) as (A & op' & B & prev' & -> & Hin & Hb' & E).
    + rewrite Ee, Z.add_assoc, <- zlen_enc. by apply view_app_r.
    + lia.
    + done.
    + by exists D, [op].
    + lia.
    + cbn [length] in Hf. lia.
    + exists (op :: A), op', B, prev'. rewrite <- app_assoc in *. cbn [app] in *. split; [done |]. split; [exact Hin |]. split; [exact Hb' |].
      rewrite <- E. f_equal; lia.
Qed.

(** * Replacing an opcode in place *)

Definition move_tail (s : sds) (end_ next deltalen : Z) : option (list Z) :=
  match (if end_ <=? next then None else Some next) with
  | Some next => if negb (deltalen =? 0) then memmove (s_buf s) (next + deltalen) next (end_ - next) else Some (s_buf s)
  | None => Some (s_buf s)
  end.

Lemma move_tail_ok s P O B (W : list Z) sl : s_buf s = P ++ O ++ B ++ 0 :: sl -> zlen O - 1 <= zlen W -> zlen P + zlen W + zlen B + 1 <= zlen (s_buf s) ->
  exists Q, move_tail s (zlen P + zlen O + zlen B) (zlen P + zlen O) (zlen W - zlen O) =
    Some (P ++ Q ++ B ++ drop (length P + length W + length B) (s_buf s)) /\ zlen Q = zlen W.
Proof.
  intros Eb H1 H2. set (Y := O ++ B ++ 0 :: sl) in *. pose proof (zlen_nonneg P). pose proof (zlen_nonneg B). pose proof (zlen_nonneg W). pose proof (zlen_nonneg O).
  assert (zlen W <= zlen Y) as HY by (rewrite Eb, zlen_app in H2; lia).
  exists (take (length W) Y). assert (zlen (take (length W) Y) = zlen W) as Hq by (unfold zlen in *; rewrite length_take; lia). split; [| exact Hq].
  assert (zlen (s_buf s) = zlen P + zlen Y) as Hbz by (by rewrite Eb, zlen_app).
  assert (forall n, drop (length P + n) (s_buf s) = drop n Y) as Hdrop by (intros n; rewrite Eb, drop_app_ge by lia; f_equal; lia).
  assert (take (length W) Y ++ drop (length W) Y = Y) as Htd by apply take_drop.
  unfold move_tail. destruct (Z.leb_spec (zlen P + zlen O + zlen B) (zlen P + zlen O)) as [Hn | Hn].
  - assert (B = []) as -> by (apply zlen_0; lia). cbn [app length]. rewrite Nat.add_0_r, Hdrop. by rewrite Htd, <- Eb.
  - rewrite <- Nat.add_assoc, Hdrop. destruct (Z.eqb_spec (zlen W - zlen O) 0) as [E0 | E0]; cbn [negb].
    + assert (length W = length O) as -> by (unfold zlen in *; lia). unfold Y. rewrite take_app_length, drop_app_ge by lia.
      replace (length O + length B - length O)%nat with (length B) by lia. rewrite drop_app_length. by rewrite Eb.
    + unfold memmove. replace (zlen P + zlen O + zlen B - (zlen P + zlen O)) with (zlen B) by lia.
      assert (rdn (s_buf s) (zlen P + zlen O) (zlen B) = Some B) as ->.
      { rewrite Eb. unfold Y. rewrite app_assoc. apply rdn_app; [by rewrite zlen_app | done]. }
      cbn [mbind option_bind]. unfold wrn. replace (zlen P + zlen O + (zlen W - zlen O)) with (zlen P + zlen W) by lia.
      rewrite (proj2 (Z.leb_le 0 _)), (proj2 (Z.leb_le _ (zlen (s_buf s)))) by lia. cbn [andb]. f_equal.
      replace (Z.to_nat (zlen P + zlen W)) with (length P + length W)%nat by (unfold zlen; lia).
      replace (Z.to_nat (zlen P + zlen W + zlen B)) with (length P + (length W + length B))%nat by (unfold zlen; lia). rewrite Hdrop, Eb, take_app_add.
      by rewrite <- app_assoc.
Qed.

Lemma splice_ok s P O B (W : list Z) : sds_rep s (P ++ O ++ B) -> s_type s <> SDS_TYPE_5 -> O <> [] -> zlen O - 1 <= zlen W -> zlen P + zlen W + zlen B <= sdsalloc s ->
  exists s', (m ← move_tail s (zlen P + zlen O + zlen B) (zlen P + zlen O) (zlen W - zlen O);
      o ← sdsIncrLen (Sds (s_type s) (s_len s) (s_alloc s) m) (zlen W - zlen O);
      sds_wr o (zlen P) W) = Some s' /\ sds_rep s' (P ++ W ++ B).
Proof.
  intros R Ht HO H1 H2. pose proof R as ((sl & Eb) & El & Hal & Hab & Hmax). rewrite <- !app_assoc in Eb. pose proof (zlen_nonneg P). pose proof (zlen_nonneg B). pose proof (zlen_nonneg W). pose proof (zlen_nonneg O).
  destruct (move_tail_ok s P O B W sl Eb H1 ltac:(lia)) as (Q & -> & Hq). cbn [mbind option_bind].
  set (rest := drop (length P + length W + length B) (s_buf s)). assert (zlen rest = zlen (s_buf s) - (zlen P + zlen W + zlen B)) as Hrest.
  { unfold rest, zlen in *. rewrite length_drop. lia. }
  assert (zlen (P ++ Q ++ B) = zlen P + zlen W + zlen B) as Hz by (rewrite !zlen_app; lia). rewrite !zlen_app in El, Hal.
  assert (exists s1, sdsIncrLen (Sds (s_type s) (s_len s) (s_alloc s) (P ++ Q ++ B ++ rest)) (zlen W - zlen O) = Some s1 /\ sds_rep s1 (P ++ Q ++ B)) as (s1 & -> & R1).
  { assert (zlen (P ++ Q ++ B ++ rest) = zlen (s_buf s)) as Hbz by (rewrite !zlen_app; lia).
    destruct (Z_lt_ge_dec (zlen W) (zlen O)) as [Hlt | Hge].
    - assert (zlen O = zlen W + 1) as EW by lia. set (n := (length P + length W + length B)%nat) in *. assert (n <= length (P ++ O ++ B))%nat as Hn by (unfold n; rewrite !length_app; unfold zlen in *; lia).
      assert (rest = drop n (P ++ O ++ B) ++ 0 :: sl) as Er by (unfold rest; rewrite Eb; replace (P ++ O ++ B ++ 0 :: sl) with ((P ++ O ++ B) ++ 0 :: sl) by (by rewrite <- !app_assoc); by rewrite drop_app_le by lia).
      set (y := drop n (P ++ O ++ B)) in *. assert (zlen y = 1) as Hy by (unfold y, n, zlen in *; rewrite length_drop, !length_app; lia).
      replace (zlen W - zlen O) with (- zlen y) by lia. apply incrlen_neg; [| intros ->; done].
      split; [exists sl; cbn [s_buf]; rewrite <- !app_assoc; by rewrite <- Er |]. cbn [s_len s_buf s_type]. unfold sdsalloc in *. cbn [s_type s_len s_alloc] in *.
      rewrite Hbz, !(zlen_app _ y), Hz, Hy. repeat split; (lia || (destruct (s_type s); lia)).
    - destruct (zlen_split_prefix (P ++ Q ++ B) (s_len s)) as (c & x & Ecx & Hc); [lia |]. assert (zlen x = zlen W - zlen O) as Hx by (rewrite Ecx, zlen_app in Hz; lia).
      rewrite <- Hx, Ecx. apply (incrlen_ok _ c x rest); [cbn [s_buf]; rewrite !app_assoc in *; by rewrite Ecx | done | done |].
      unfold room. cbn [s_type s_alloc s_buf]. rewrite Hbz. unfold sdsalloc in *. destruct (s_type s); [done |..]; (split; [lia |]; split; [lia |]; right; lia). }
  cbn [mbind option_bind]. destruct (wr_rep s1 P Q B W R1 ltac:(lia)) as (s2 & -> & R2 & _). by exists s2.
Qed.

(** * Room for an update *)

Lemma wr_fields s i bs s' : sds_wr s i bs = Some s' -> s_type s' = s_type s /\ s_alloc s' = s_alloc s /\ s_len s' = s_len s.
Proof. unfold sds_wr. destruct (wrn _ _ _); cbn; [| done]. by intros [= <-]. Qed.

Lemma avail_room s c : sds_rep s c -> 3 <= sdsavail s -> s_type s <> SDS_TYPE_5 /\ zlen c + 3 <= sdsalloc s.
Proof.
  intros (_ & El & H1 & _ & H2) H. unfold sdsavail, sdsalloc in *. pose proof (type_max_bounds (s_type s)). pose proof (zlen_nonneg c). rewrite El in H.
  destruct (s_type s); [lia |..]; (split; [done |]); rewrite u64_id in H by (unfold is_u64; split; [lia |]; unfold ULLONG_MAX in *; lia); lia.
Qed.

(** * Merging neighbours *)

(** The byte of a VAL opcode. *)
Definition hd_byte (v l : Z) : Z := u8 (Z.lor (Z.lor (Z.shiftl (v - 1) 2) (l - 1)) HLL_SPARSE_VAL_BIT).

Lemma merge_two s X b1 b2 T bn : sds_rep s (X ++ [b1] ++ [b2] ++ T) ->
  exists s', (s ← sds_wr s (zlen X + 1) [bn];
      m ← memmove (s_buf s) (zlen X) (zlen X + 1) (zlen X + 2 + zlen T - zlen X);
      sdsIncrLen (Sds (s_type s) (s_len s) (s_alloc s) m) (-1)) = Some s' /\ sds_rep s' (X ++ [bn] ++ T).
Proof.
  intros R. replace (X ++ [b1] ++ [b2] ++ T) with ((X ++ [b1]) ++ [b2] ++ T) in R by (by rewrite <- app_assoc).
  destruct (wr_rep s (X ++ [b1]) [b2] T [bn] R eq_refl) as (s1 & E1 & R1 & _). replace (zlen (X ++ [b1])) with (zlen X + 1) in E1 by (by rewrite zlen_app). rewrite E1. cbn [mbind option_bind].
  pose proof R1 as ((sl & Eb) & El & Hr). rewrite <- !app_assoc in Eb.
  assert (memmove (s_buf s1) (zlen X) (zlen X + 1) (zlen X + 2 + zlen T - zlen X) = Some (X ++ ([bn] ++ T ++ [0]) ++ 0 :: sl)) as ->.
  { unfold memmove. rewrite Eb. pose proof (zlen_nonneg T).
    assert (rdn (X ++ [b1] ++ [bn] ++ T ++ 0 :: sl) (zlen X + 1) (zlen X + 2 + zlen T - zlen X) = Some ([bn] ++ T ++ [0])) as ->.
    { replace (X ++ [b1] ++ [bn] ++ T ++ 0 :: sl) with ((X ++ [b1]) ++ ([bn] ++ T ++ [0]) ++ sl) by (by rewrite <- !app_assoc). apply rdn_app; rewrite !zlen_app; [done | change (zlen [bn]) with 1; change (zlen [0]) with 1; lia]. }
    cbn [mbind option_bind]. replace (X ++ [b1] ++ [bn] ++ T ++ 0 :: sl) with (X ++ ([b1] ++ [bn] ++ T) ++ 0 :: sl) by (by rewrite <- !app_assoc). apply wrn_app; [done |].
    rewrite !zlen_app. change (zlen [bn]) with 1. change (zlen [b1]) with 1. change (zlen [0]) with 1. lia. }
  cbn [mbind option_bind]. change (-1) with (- zlen [0]). apply incrlen_neg; [| done]. replace ((X ++ [bn] ++ T) ++ [0]) with (X ++ ([bn] ++ T ++ [0])) by (by rewrite <- !app_assoc).
  unfold sds_rep, sds_hold, sdsalloc in *. cbn [s_type s_len s_alloc s_buf]. rewrite Eb in Hr.
  split; [exists sl; by rewrite <- !app_assoc |]. rewrite !zlen_app, zlen_cons in *. change (zlen [b1]) with 1 in *. change (zlen [bn]) with 1 in *. change (zlen [0]) with 1. split; [lia |]. repeat split; lia.
Qed.

Lemma val_ok v l1 l2 : op_ok (VAL v l1) -> op_ok (VAL v l2) -> l1 + l2 <= 4 -> op_ok (VAL v (l1 + l2)) /\ run_of (VAL v (l1 + l2)) = run_of (VAL v l1) ++ run_of (VAL v l2).
Proof. cbn [op_ok]. intros H1 H2 H. split; [lia |]. unfold run_of. cbn [runlen op_val]. rewrite <- replicate_add. f_equal. lia. Qed.

Lemma view_rep s c m : sds_rep s (m ++ c) -> view (s_buf s) (zlen m) c.
Proof. intros ((r & ->) & _). rewrite <- app_assoc. apply view_app. Qed.

Lemma merge_vals_ok hd n : forall D ops s, sds_rep s (hd ++ encs D ++ encs ops) -> Forall op_ok ops ->
  exists s' ops', merge_vals n s (zlen hd + zlen (encs D)) (zlen hd + zlen (encs D) + zlen (encs ops)) = Some s' /\
    sds_rep s' (hd ++ encs D ++ encs ops') /\ Forall op_ok ops' /\ expand ops' = expand ops.
Proof.
  induction n as [| n IH]; intros D ops s R Hok; [by exists s, ops |]. cbn [merge_vals]. destruct ops as [| op ops].
  { rewrite (proj2 (Z.ltb_ge _ _)) by (change (zlen (encs [])) with 0; lia). by exists s, []. }
  pose proof Hok as [Hop Hok']%Forall_cons. rewrite encs_cons, zlen_app, zlen_enc. pose proof (oplen_bound op). pose proof (zlen_nonneg (encs ops)).
  rewrite (proj2 (Z.ltb_lt _ _)) by lia. rewrite encs_cons in R. rewrite app_assoc in R. pose proof (view_rep _ _ _ R) as Hv. rewrite zlen_app in Hv.
  rewrite (opcode_at_ok _ _ op _ Hv Hop). cbn [mbind option_bind].
  assert (exists s' ops', merge_vals n s (zlen hd + zlen (encs D) + oplen op) (zlen hd + zlen (encs D) + (oplen op + zlen (encs ops))) = Some s' /\
    sds_rep s' (hd ++ encs D ++ encs ops') /\ Forall op_ok ops' /\ expand ops' = expand (op :: ops)) as Hnext.
  { destruct (IH (D ++ [op]) ops s) as (s' & ops' & E & R' & Hok2 & Ex); [rewrite encs_snoc, <- !app_assoc in *; exact R | done |].
    assert (zlen (encs (D ++ [op])) = zlen (encs D) + oplen op) as Ez by (by rewrite encs_snoc, zlen_app, zlen_enc).
    exists s', (op :: ops'). rewrite Ez in E. split; [rewrite <- E; f_equal; lia |]. split; [rewrite encs_snoc, <- !app_assoc in R'; exact R' |].
    split; [by apply Forall_cons |]. by rewrite !expand_cons, Ex. }
  destruct op as [len | len | v1 l1]; [exact Hnext.. |]. cbn [oplen] in *. apply (view_app_r _ _ (enc (VAL v1 l1))) in Hv. rewrite zlen_enc in Hv. cbn [oplen] in Hv.
  destruct ops as [| op2 ops].
  { change (zlen (encs [])) with 0 in *. rewrite (proj2 (Z.ltb_ge (_ + 1) _)) by lia. exact Hnext. }
  pose proof Hok' as [Hop2 Hok2]%Forall_cons. destruct (opcode_first op2 Hop2) as (b & r2 & Eb & Hval & Hdec). rewrite encs_cons, Eb in Hv.
  pose proof (oplen_bound op2). pose proof (zlen_nonneg (encs ops)). rewrite (encs_cons op2), zlen_app, zlen_enc in Hnext |- *. rewrite (proj2 (Z.ltb_lt _ _)) by lia.
  rewrite (view_hd _ _ _ _ Hv). cbn [mbind option_bind]. rewrite Hval. destruct op2 as [| | v2 l2]; [exact Hnext.. |].
  destruct (Hdec v2 l2 eq_refl) as [-> ->]. cbv zeta. change HLL_SPARSE_VAL_MAX_LEN with 4. destruct (Z.eqb_spec v1 v2) as [<- | _]; cbn [andb]; [| exact Hnext].
  destruct (Z.leb_spec (l1 + l2) 4) as [Hle |]; [| exact Hnext]. clear Hnext. destruct (val_ok v1 l1 l2 Hop Hop2 Hle) as [Hop3 Erun].
  destruct (merge_two s (hd ++ encs D) (hd_byte v1 l1) (hd_byte v1 l2) (encs ops) (hd_byte v1 (l1 + l2)) R) as (s' & E & R').
  rewrite zlen_app in E. cbn [oplen]. replace (zlen hd + zlen (encs D) + 2 + zlen (encs ops) - (zlen hd + zlen (encs D))) with (zlen hd + zlen (encs D) + (1 + (1 + zlen (encs ops))) - (zlen hd + zlen (encs D))) in E by lia.
  unfold HLL_SPARSE_VAL_SET. fold (hd_byte v1 (l1 + l2)). destruct (sds_wr s _ [hd_byte v1 (l1 + l2)]) as [s1 |]; cbn [mbind option_bind] in E |- *; [| done].
  destruct (memmove _ _ _ _); cbn [mbind option_bind] in E |- *; [| done]. rewrite E. cbn [mbind option_bind].
  destruct (IH D (VAL v1 (l1 + l2) :: ops) s') as (s2 & ops' & E2 & R2 & Hok3 & Ex); [rewrite <- app_assoc in R'; exact R' | by apply Forall_cons |].
  exists s2, ops'. split; [| split; [exact R2 | split; [exact Hok3 |]]].
  - rewrite <- E2. f_equal. rewrite encs_cons, zlen_app, zlen_enc. cbn [oplen]. lia.
  - by rewrite Ex, !expand_cons, Erun, <- app_assoc.
Qed.

(** * The registers that change *)

Lemma expand_insert A op B i count : op_ok op -> zlen (expand A) <= i < zlen (expand A) + runlen op ->
  expand (A ++ op :: B) !! Z.to_nat i = Some (op_val op) /\
  <[Z.to_nat i := count]> (expand (A ++ op :: B)) =
    expand A ++ (replicate (Z.to_nat (i - zlen (expand A))) (op_val op) ++ [count] ++ replicate (Z.to_nat (zlen (expand A) + runlen op - 1 - i)) (op_val op)) ++ expand B.
Proof.
  intros Hop Hi. rewrite expand_app, expand_cons. pose proof (zlen_run op Hop) as Hz. set (k := i - zlen (expand A)).
  replace (Z.to_nat i) with (length (expand A) + Z.to_nat k)%nat by (unfold k, zlen in *; lia).
  replace (Z.to_nat (zlen (expand A) + runlen op - 1 - i)) with (Z.to_nat (runlen op - 1 - k)) by (unfold k; f_equal; lia).
  assert (0 <= k < runlen op) as Hk by (unfold k; lia). clearbody k.
  assert (run_of op = replicate (Z.to_nat k) (op_val op) ++ op_val op :: replicate (Z.to_nat (runlen op - 1 - k)) (op_val op)) as Er.
  { unfold run_of. change (op_val op :: ?l) with ([op_val op] ++ l). change [op_val op] with (replicate 1 (op_val op)). rewrite <- !replicate_add. f_equal. lia. }
  rewrite Er. split.
  - rewrite lookup_app_r, <- app_assoc by lia. replace (length (expand A) + Z.to_nat k - length (expand A))%nat with (length (replicate (Z.to_nat k) (op_val op)) + 0)%nat by (rewrite length_replicate; lia).
    by rewrite lookup_app_r, Nat.add_sub_swap, Nat.sub_diag by lia.
  - rewrite insert_app_r, <- !app_assoc. f_equal. replace (Z.to_nat k) with (length (replicate (Z.to_nat k) (op_val op)) + 0)%nat at 1 by (rewrite length_replicate; lia).
    by rewrite insert_app_r.
Qed.

Lemma zero_seq_ok len : 1 <= len <= 16384 -> exists op, op_ok op /\ zero_seq len = enc op /\ run_of op = replicate (Z.to_nat len) 0 /\ oplen op = if 64 <? len then 2 else 1.
Proof.
  intros H. unfold zero_seq. change HLL_SPARSE_ZERO_MAX_LEN with 64. destruct (Z.ltb_spec 64 len); [exists (XZERO len) | exists (ZERO len)]; (split; [cbn; lia | done]).
Qed.

(** An opcode or none. *)
Definition opt_seq (b : bool) (x : list Z) : list Z := if b then x else [].
Lemma opt_seq_ok (n v k : Z) x : 0 <= n -> 0 <= k -> (1 <= n -> exists op, op_ok op /\ x = enc op /\ run_of op = replicate (Z.to_nat n) v /\ oplen op <= k) ->
  exists ops, Forall op_ok ops /\ opt_seq (negb (n =? 0)) x = encs ops /\ expand ops = replicate (Z.to_nat n) v /\ zlen (encs ops) <= k.
Proof.
  intros Hn Hk H. destruct (Z.eqb_spec n 0) as [-> | Hne]; cbn [negb opt_seq]; [exists []; split; [done |]; split; [done |]; split; [done | exact Hk] |].
  destruct (H ltac:(lia)) as (op & Hok & -> & Hr & Hl). exists [op]. split; [by apply Forall_singleton |]. rewrite <- Hr. unfold encs, expand. cbn [map concat]. rewrite !app_nil_r, zlen_enc. done.
Qed.

Lemma split_seq_ok op first index count : op_ok op -> first <= index < first + runlen op -> 1 <= count <= 32 ->
  exists ops, Forall op_ok ops /\ split_seq op first (first + runlen op - 1) index count = encs ops /\
    expand ops = replicate (Z.to_nat (index - first)) (op_val op) ++ [count] ++ replicate (Z.to_nat (first + runlen op - 1 - index)) (op_val op) /\
    oplen op - 1 <= zlen (encs ops) <= oplen op + 3.
Proof.
  intros Hop Hi Hc. set (last := first + runlen op - 1). pose proof (runlen_ok op Hop).
  assert (exists x y, split_seq op first last index count = opt_seq (negb (index - first =? 0)) x ++ HLL_SPARSE_VAL_SET count 1 ++ opt_seq (negb (last - index =? 0)) y /\
    (1 <= index - first -> exists o, op_ok o /\ x = enc o /\ run_of o = replicate (Z.to_nat (index - first)) (op_val op) /\ oplen o <= oplen op) /\
    (1 <= last - index -> exists o, op_ok o /\ y = enc o /\ run_of o = replicate (Z.to_nat (last - index)) (op_val op) /\ oplen o <= oplen op)) as (x & y & -> & Hx & Hy).
  { assert (forall n m : Z, (n =? m) = (n - m =? 0)) as Hsub by (intros; apply eq_true_iff_eq; rewrite !Z.eqb_eq; lia).
    assert ((index =? last) = (last - index =? 0)) as Hlast by (apply eq_true_iff_eq; rewrite !Z.eqb_eq; lia). unfold split_seq. rewrite Hlast, (Hsub index first).
    destruct op as [len | len | v len]; (eexists _, _; split; [reflexivity |]); unfold last in *; cbn [op_ok runlen op_val] in *; (split; intros Hn);
      [edestruct zero_seq_ok as (o & Ho & Ez & Er & Hl); [| exists o; do 3 (split; [done |]); cbn [oplen]; rewrite Hl; case_match; lia]; lia .. | |];
      [exists (VAL v (index - first)) | exists (VAL v (first + len - 1 - index))]; (split; [cbn [op_ok]; lia | done]). }
  pose proof (oplen_bound op).
  destruct (opt_seq_ok (index - first) (op_val op) (oplen op) x ltac:(lia) ltac:(lia) Hx) as (o1 & Ho1 & -> & E1 & L1).
  destruct (opt_seq_ok (last - index) (op_val op) (oplen op) y ltac:(unfold last; lia) ltac:(lia) Hy) as (o2 & Ho2 & -> & E2 & L2).
  exists (o1 ++ [VAL count 1] ++ o2). split; [rewrite !Forall_app, Forall_singleton; cbn [op_ok]; split; [done | split; [lia | done]] |]. split; [by rewrite !encs_app |].
  split; [by rewrite !expand_app, E1, E2 |]. pose proof (zlen_nonneg (encs o1)). pose proof (zlen_nonneg (encs o2)). rewrite !encs_app, !zlen_app. change (zlen (encs [VAL count 1])) with 1. lia.
Qed.

Section update.
Context (usable : Z -> Z) (junk : nat -> Z) (use_jemalloc : bool) (hll_sparse_max_bytes : Z).
Context (Hus : forall n, 0 <= n < 2 ^ 62 -> n <= usable n < 2 ^ 63).
Context (Hmax : 32 <= hll_sparse_max_bytes < 2 ^ 60).

Lemma sdsResize_alloc s c size s' : sds_rep s c -> 0 <= size < 2 ^ 61 -> sdsalloc s <> size ->
  sdsResize usable junk use_jemalloc s size true = Some s' -> s_type s' <> SDS_TYPE_5 /\ sdsalloc s' = size.
Proof.
  intros R Hsz Hne. unfold sdsResize. rewrite (proj2 (Z.eqb_neq _ _) Hne). set (t := not5 _).
  assert (size <= sdsTypeMaxSize t /\ t <> SDS_TYPE_5) as [Ht Ht5].
  { subst t. split; [apply not5_max, req_type_max; unfold ULLONG_MAX; lia | by destruct (sdsReqType size)]. }
  match goal with |- (?e ≫= _) = _ -> _ => destruct e as [s1 |] eqn:E1; [| done] end. cbn [mbind option_bind].
  assert (size <= sdsTypeMaxSize (s_type s1) /\ s_type s1 <> SDS_TYPE_5) as [Hs1 Hs15].
  { destruct (bool_decide (s_type s = t) || _) eqn:Er.
    - assert (s_type s1 = s_type s) as -> by (destruct (use_jemalloc && _); by injection E1 as <-).
      apply orb_true_iff in Er as [Er | Er]; [apply bool_decide_eq_true in Er; by rewrite Er |]. apply andb_true_iff in Er as [E _]. apply Z.ltb_lt in E.
      split; [apply ty_num_max in E; lia |]. intros E5. rewrite E5 in E. by destruct t.
    - destruct (rdn _ _ _); cbn [mbind option_bind] in E1; [| done]. destruct (wrn _ _ _); cbn [mbind option_bind] in E1; [| done]. by injection E1 as <-. }
  match goal with |- (?e ≫= _) = _ -> _ => destruct e as [s2 |] eqn:E2; [| done] end. cbn [mbind option_bind]. apply wr_fields in E2 as [E2 _]. intros [= <-].
  unfold sdssetalloc, sdssetlen. cbn [s_type s_len s_buf s_alloc]. rewrite E2. unfold sdsalloc. destruct (s_type s1); [done |..]; cbn [s_type s_alloc]; (split; [done |]); apply hdr_store_id; lia.
Qed.

Lemma sparse_make_room_ok s c : sds_rep s c -> zlen c < 2 ^ 60 ->
  exists s', sparse_make_room usable junk use_jemalloc hll_sparse_max_bytes s = Some s' /\ sds_rep s' c /\ s_type s' <> SDS_TYPE_5 /\
    Z.min hll_sparse_max_bytes (zlen c + 3) <= sdsalloc s'.
Proof.
  intros R Hc. pose proof R as (_ & El & Hal & _ & Hty). pose proof (zlen_nonneg c). unfold sparse_make_room, sdslen. cbv zeta. rewrite El.
  destruct (Z.ltb_spec (sdsalloc s) hll_sparse_max_bytes) as [H1 | H1]; cbn [andb].
  - destruct (Z.ltb_spec (sdsavail s) 3) as [H3 | H3]; [| destruct (avail_room s c R H3); exists s; do 3 (split; [done |]); lia].
    set (n := if hll_sparse_max_bytes <? _ then _ else _). set (k := if _ <? 300 then _ else 300) in *.
    assert (0 <= k) as Hk by (subst k; case_match; lia).
    assert (sdsalloc s <> n /\ Z.min hll_sparse_max_bytes (zlen c + 3) <= n /\ zlen c <= n /\ 0 <= n < 2 ^ 61) as (Hne & Hm & Hcn & Hn).
    { subst n. destruct (Z.ltb_spec hll_sparse_max_bytes (zlen c + 3 + k)); [lia |]. assert (sdsalloc s <> zlen c + 3 + k); [| lia].
      intros E. unfold sdsavail, sdsalloc in *. destruct (s_type s) eqn:Es; [lia |..]; (rewrite El, u64_id in H3 by (unfold is_u64; lia); lia). }
    destruct (sdsResize_rep usable junk use_jemalloc Hus s c n true R Hn) as (s' & E & R'). rewrite (proj2 (Z.eqb_neq _ _) Hne) in R'.
    destruct (sdsResize_alloc s c n s' R Hn Hne E) as [Ht Ha]. exists s'. rewrite take_ge in R' by (unfold zlen in *; lia). do 3 (split; [done |]). lia.
  - exists s. split; [done |]. split; [done |]. split; [| lia]. intros E. unfold sdsalloc in *. rewrite E in *. change (sdsTypeMaxSize SDS_TYPE_5) with 31 in Hty. lia.
Qed.
End update.
