(* ===== verification/HllSet.v ===== *)
(** hyperloglog.c: the conversion to the dense representation, the update of
    a register in either representation, and sequences of additions. *)
From stdpp Require Import strings.
From S2P Require Import Prelude Endian Strnum Bits Sds SdsThms Hll HllThms.

(** * Representations *)

(** A header with this encoding, the other fields of it, and these registers. *)
Definition sparse_rep (s : sds) (rest R : list Z) : Prop :=
  exists ops, sds_rep s (hdr HLL_SPARSE rest ++ encs ops) /\ bytes rest /\ zlen rest = 11 /\ Forall op_ok ops /\ expand ops = R /\ zlen R = HLL_REGISTERS.
Definition hll_holds (s : sds) (rest R : list Z) : Prop := dense_rep s rest R \/ sparse_rep s rest R.

Lemma zlen_hdr e rest : zlen rest = 11 -> zlen (hdr e rest) = 16.
Proof. intros H. unfold hdr. rewrite zlen_app, zlen_cons, H. done. Qed.

Lemma ops_bound ops : Forall op_ok ops -> zlen (expand ops) = HLL_REGISTERS -> zlen ops <= 16384.
Proof.
  change HLL_REGISTERS with 16384. intros H <-. induction H as [| op ops Hop _ IH]; [done |]. rewrite zlen_cons, zlen_expand_cons by done. pose proof (runlen_ok op Hop). lia.
Qed.

Lemma rep_hdr_encoding s e rest c : sds_rep s (hdr e rest ++ c) -> hdr_encoding s = Some e.
Proof.
  intros ((sl & Eb) & _). unfold hdr_encoding. rewrite Eb. unfold hdr. done.
Qed.

Lemma dense_encoding s rest R : dense_rep s rest R -> hdr_encoding s = Some HLL_DENSE.
Proof.
  intros (c & Rs & _ & _ & _ & Hh & _). apply (rep_hdr_encoding s HLL_DENSE rest (drop 16 c)). rewrite <- Hh. by rewrite take_drop.
Qed.
Lemma sparse_encoding s rest R : sparse_rep s rest R -> hdr_encoding s = Some HLL_SPARSE.
Proof. intros (ops & Rs & _). by apply rep_hdr_encoding in Rs. Qed.

Lemma regs_range ops : Forall op_ok ops -> Forall (fun v => 0 <= v <= 32) (expand ops).
Proof.
  intros H. induction H as [| op ops Hop _ IH]; [apply Forall_nil_2 |]. rewrite expand_cons. apply Forall_app. split; [| exact IH].
  unfold run_of. apply Forall_replicate. destruct op; cbn in *; lia.
Qed.

(** * Conversion to the dense representation *)

Lemma set_run_ok rest v n : forall d X k Y, 0 <= v < 64 -> dense_rep d rest (X ++ replicate n k ++ Y) ->
  exists d', set_run n d (zlen X) v = Some (d', zlen X + Z.of_nat n) /\ dense_rep d' rest (X ++ replicate n v ++ Y).
Proof.
  induction n as [| n IH]; intros d X k Y Hv Hd; cbn [set_run replicate]; [exists d; split; [f_equal; f_equal; lia | exact Hd] |].
  pose proof Hd as (_ & _ & _ & _ & _ & _ & Hz & _). cbn [replicate app] in Hd, Hz. rewrite zlen_app, zlen_cons in Hz. pose proof (zlen_nonneg X). pose proof (zlen_nonneg (replicate n k ++ Y)).
  destruct (dense_put d rest _ (zlen X) v Hd ltac:(lia) Hv) as (d' & -> & Hd'). cbn [mbind option_bind].
  assert (<[Z.to_nat (zlen X) := v]> (X ++ k :: replicate n k ++ Y) = (X ++ [v]) ++ replicate n k ++ Y) as Ei.
  { unfold zlen. rewrite Nat2Z.id, <- app_assoc, insert_app_r_alt, Nat.sub_diag by lia. done. }
  rewrite Ei in Hd'. destruct (IH d' (X ++ [v]) k Y Hv Hd') as (d2 & E & Hd2). rewrite zlen_app in E. change (zlen [v]) with 1 in E. exists d2. rewrite E.
  split; [f_equal; f_equal; lia | by rewrite <- app_assoc in Hd2].
Qed.

Lemma to_dense_ok m start end_ rest fuel : forall ops D d X, view m (start + zlen (encs D)) (encs ops ++ X) -> end_ = start + zlen (encs D) + zlen (encs ops) ->
  Forall op_ok ops -> zlen (expand D) + zlen (expand ops) = HLL_REGISTERS -> (length ops <= fuel)%nat -> dense_rep d rest (expand D ++ replicate (length (expand ops)) 0) ->
  exists d', to_dense_loop fuel m (start + zlen (encs D)) end_ (zlen (expand D)) d = Some (d', HLL_REGISTERS) /\ dense_rep d' rest (expand D ++ expand ops).
Proof.
  induction fuel as [| fuel IH]; intros ops D d X Hv He Hok Hz Hf Hd.
  { destruct ops; [| cbn in Hf; lia]. change (zlen (encs [])) with 0 in He. change (zlen (expand [])) with 0 in Hz. exists d. cbn [to_dense_loop]. rewrite (proj2 (Z.ltb_ge _ _)) by lia.
    split; [do 2 f_equal; lia | exact Hd]. }
  cbn [to_dense_loop]. destruct ops as [| op ops].
  { change (zlen (encs [])) with 0 in He. change (zlen (expand [])) with 0 in Hz. exists d. rewrite (proj2 (Z.ltb_ge _ _)) by lia. split; [do 2 f_equal; lia | exact Hd]. }
  apply Forall_cons in Hok as [Hop Hok]. rewrite encs_cons, zlen_app, zlen_enc in He. rewrite zlen_expand_cons in Hz by done. pose proof (oplen_bound op). pose proof (zlen_nonneg (encs ops)).
  pose proof (zlen_nonneg (expand ops)). pose proof (zlen_nonneg (expand D)). pose proof (runlen_ok op Hop). rewrite (proj2 (Z.ltb_lt _ _)) by lia.
  rewrite encs_cons, <- app_assoc in Hv. rewrite (opcode_at_ok _ _ op _ Hv Hop). cbn [mbind option_bind]. change HLL_REGISTERS with 16384 in *.
  assert (forall d, dense_rep d rest (expand (D ++ [op]) ++ replicate (length (expand ops)) 0) ->
    exists d', to_dense_loop fuel m (start + zlen (encs D) + oplen op) end_ (zlen (expand D) + runlen op) d = Some (d', 16384) /\ dense_rep d' rest (expand D ++ expand (op :: ops))) as Hnext.
  { intros d1 Hd1. assert (zlen (expand (D ++ [op])) = zlen (expand D) + runlen op) as Ex by (rewrite expand_app, zlen_app, zlen_expand_cons by done; change (zlen (expand [])) with 0; lia).
    destruct (IH ops (D ++ [op]) d1 X) as (d' & E & Hd'); [rewrite encs_snoc, zlen_app, Z.add_assoc; by apply view_app_r | rewrite encs_snoc, zlen_app, zlen_enc; lia | done | lia | cbn in Hf; lia | done |].
    exists d'. rewrite encs_snoc, zlen_app, zlen_enc, Ex, Z.add_assoc in E. rewrite E. split; [done |]. rewrite expand_snoc, <- app_assoc in Hd'. exact Hd'. }
  assert (expand (D ++ [op]) = expand D ++ run_of op) as ED by apply expand_snoc.
  rewrite expand_cons, length_app, replicate_add in Hd. rewrite ED in Hnext. assert (length (run_of op) = Z.to_nat (runlen op)) as Hl by apply length_replicate.
  destruct op as [len | len | v len]; cbn [runlen oplen op_ok] in *.
  - unfold run_of in Hnext at 1. cbn [runlen op_val] in Hnext. rewrite Hl in Hd. rewrite app_assoc in Hd. rewrite i32_id by lia. by apply Hnext.
  - unfold run_of in Hnext at 1. cbn [runlen op_val] in Hnext. rewrite Hl in Hd. rewrite app_assoc in Hd. rewrite i32_id by lia. by apply Hnext.
  - rewrite i32_id by lia. rewrite (proj2 (Z.ltb_ge _ _)) by lia. rewrite Hl in Hd.
    destruct (set_run_ok rest v (Z.to_nat len) d (expand D) 0 _ ltac:(lia) Hd) as (d1 & -> & Hd1). cbn [mbind option_bind]. rewrite Z2Nat.id by lia. apply Hnext. by rewrite <- app_assoc.
Qed.

Lemma byte_at_app_r a b i : 0 <= i -> byte_at (a ++ b) (zlen a + i) = byte_at b i.
Proof. intros Hi. unfold byte_at, zlen. rewrite app_nth2 by lia. f_equal. lia. Qed.
Lemma byte_at_repeat n i : byte_at (repeat 0 n) i = 0.
Proof. unfold byte_at. destruct (nth_in_or_default (Z.to_nat i) (repeat 0 n) 0) as [H | H]; [by apply repeat_spec in H | exact H]. Qed.

(** The registers of a zeroed string. *)
Lemma zero_dense s e rest : sds_rep s (hdr e rest ++ repeat 0 (Z.to_nat (HLL_DENSE_SIZE - 16))) -> e = HLL_DENSE -> bytes rest -> zlen rest = 11 ->
  dense_rep s rest (replicate (Z.to_nat HLL_REGISTERS) 0).
Proof.
  intros R -> Hb Hz. pose proof (zlen_hdr HLL_DENSE rest Hz) as Hh. set (n := Z.to_nat (HLL_DENSE_SIZE - 16)) in *. eexists. split; [exact R |].
  split. { unfold bytes in *. rewrite Forall_app. split; [unfold hdr; repeat (apply Forall_cons; split; [unfold byte; vm_compute; split; congruence |]); exact Hb |].
    apply Forall_forall. intros x Hx. apply list_elem_of_In, repeat_spec in Hx as ->. unfold byte. lia. }
  split; [rewrite zlen_app, Hh; unfold zlen; rewrite repeat_length; unfold n; vm_compute; reflexivity |]. split; [exact Hz |].
  split; [by rewrite take_app_length' by (unfold zlen in Hh; lia) |]. split; [unfold zlen; rewrite length_replicate; by apply Z2Nat.id |].
  intros i Hi. rewrite lookup_replicate_2 by lia. f_equal. unfold reg_of. change registers with 16. destruct (dense_place i Hi) as (H0 & _). rewrite <- app_assoc, <- Hh, <- Z.add_assoc.
  change [0] with (repeat 0 1). rewrite !byte_at_app_r, <- repeat_app, !byte_at_repeat by lia. by rewrite Z.shiftr_0_l, Z.shiftl_0_l.
Qed.

Section update.
Context (usable : Z -> Z) (junk : nat -> Z) (use_jemalloc : bool) (hll_sparse_max_bytes : Z).
Context (Hus : forall n, 0 <= n < 2 ^ 62 -> n <= usable n < 2 ^ 63).

Lemma hllSparseToDense_ok s rest R : sparse_rep s rest R -> exists s', hllSparseToDense usable junk s = Some (s', true) /\ dense_rep s' rest R.
Proof.
  intros HR. unfold hllSparseToDense. rewrite (sparse_encoding _ _ _ HR). destruct HR as (ops & R0 & Hb & Hz & Hok & Hx & HzR). cbn [mbind option_bind]. change (HLL_SPARSE =? HLL_DENSE) with false. cbv iota.
  destruct (newlen_zero usable junk Hus HLL_DENSE_SIZE ltac:(vm_compute; split; congruence)) as (d0 & -> & Rd0). cbn [mbind option_bind].
  pose proof (zlen_hdr HLL_SPARSE rest Hz) as Hh. pose proof R0 as ((sl & Eb) & El & _). rewrite Eb. rewrite <- app_assoc.
  assert (rdn (hdr HLL_SPARSE rest ++ encs ops ++ 0 :: sl) 0 registers = Some (hdr HLL_SPARSE rest)) as -> by (apply (rdn_app []); [done | exact Hh]). cbn [mbind option_bind].
  assert (repeat 0 (Z.to_nat HLL_DENSE_SIZE) = [] ++ repeat 0 16 ++ repeat 0 (Z.to_nat (HLL_DENSE_SIZE - 16))) as Er by (cbn [app]; by rewrite <- repeat_app). rewrite Er in Rd0.
  destruct (wr_rep d0 [] _ _ (hdr HLL_SPARSE rest) Rd0 ltac:(exact Hh)) as (d1 & E1 & Rd1 & _). change (zlen []) with 0 in E1. rewrite E1. cbn [mbind option_bind].
  change ([] ++ hdr HLL_SPARSE rest ++ ?x) with (chars "HYLL" ++ [HLL_SPARSE] ++ (rest ++ x)) in Rd1. unfold hdr_set_encoding.
  destruct (wr_rep d1 (chars "HYLL") [HLL_SPARSE] _ [HLL_DENSE] Rd1 eq_refl) as (d2 & E2 & Rd2 & _). change (zlen (chars "HYLL")) with 4 in E2. rewrite E2. cbn [mbind option_bind].
  apply (zero_dense d2 HLL_DENSE rest) in Rd2; [| done..]. unfold sdslen. rewrite El, zlen_app, Hh.
  destruct (to_dense_ok (hdr HLL_SPARSE rest ++ encs ops ++ 0 :: sl) 16 (16 + zlen (encs ops)) rest (Z.to_nat (16 + zlen (encs ops))) ops [] d2 (0 :: sl)) as (d3 & E3 & Hd3).
  - change (zlen (encs [])) with 0. rewrite Z.add_0_r, <- Hh. pose proof (view_app (hdr HLL_SPARSE rest) (encs ops ++ 0 :: sl) []) as Hv. by rewrite app_nil_r in Hv.
  - done.
  - done.
  - by rewrite Hx.
  - pose proof (length_encs ops). unfold zlen in *. lia.
  - rewrite Hx. replace (length R) with (Z.to_nat HLL_REGISTERS) by (unfold zlen in HzR; lia). exact Rd2.
  - change (16 + zlen (encs [])) with 16 in E3. change (zlen (expand [])) with 0 in E3. change registers with 16. rewrite E3. cbn [mbind option_bind]. rewrite Z.eqb_refl. cbn [negb]. exists d3. split; [done |]. by rewrite <- Hx.
Qed.

(** * The cached cardinality *)

(** The other fields of the header, with the cached cardinality marked as
    invalid. *)
Definition inval (rest : list Z) : list Z := take 10 rest ++ [Z.lor (nth 10 rest 0) 128].
Definition cache_valid (rest : list Z) : bool := Z.land (nth 10 rest 0) 128 =? 0.
(** Nothing but that mark changes, and only when a register does. *)
Definition rest_upd (changed : bool) (rest rest' : list Z) : Prop := rest' = rest \/ (changed = true /\ rest' = inval rest).

Lemma rest_split rest : zlen rest = 11 -> rest = take 10 rest ++ [nth 10 rest 0].
Proof.
  intros H. unfold zlen in H. do 11 (destruct rest as [| ? rest]; [discriminate H |]). destruct rest; [done | cbn in H; lia].
Qed.
Lemma zlen_inval rest : zlen rest = 11 -> zlen (inval rest) = 11.
Proof. intros H. rewrite (rest_split rest H) in H at 1. unfold inval. by rewrite zlen_app in *. Qed.
Lemma bytes_nth l i : bytes l -> byte (nth i l 0).
Proof. intros H. unfold bytes in H. rewrite Forall_forall in H. destruct (nth_in_or_default i l 0) as [Hin | ->]; [by apply H, list_elem_of_In | unfold byte; lia]. Qed.
Lemma lor_128_byte b : byte b -> byte (Z.lor b 128).
Proof.
  unfold byte. intros H. pose proof (range_all (fun b => (0 <=? Z.lor b 128) && (Z.lor b 128 <? 256)) 0 255 b ltac:(vm_compute; reflexivity) ltac:(lia)) as E. cbv beta in E. rewrite andb_true_iff in E. lia.
Qed.
Lemma bytes_inval rest : bytes rest -> bytes (inval rest).
Proof.
  intros H. unfold inval. pose proof (lor_128_byte _ (bytes_nth rest 10 H)). unfold bytes in *. apply Forall_app. split; [by apply Forall_take | by apply Forall_singleton].
Qed.
Lemma inval_invalid rest : zlen rest = 11 -> cache_valid (inval rest) = false.
Proof.
  intros H. rewrite (rest_split rest H) in H. rewrite zlen_app in H. unfold cache_valid, inval. rewrite app_nth2 by (unfold zlen in *; cbn in H; lia).
  replace (10 - length (take 10 rest))%nat with 0%nat by (unfold zlen in H; cbn in H; lia). cbn [nth]. apply Z.eqb_neq. intros E. apply (f_equal (fun z => Z.testbit z 7)) in E.
  rewrite Z.land_spec, Z.lor_spec in E. change (Z.testbit 128 7) with true in E. rewrite orb_true_r in E. discriminate E.
Qed.
Lemma inval_idem rest : zlen rest = 11 -> inval (inval rest) = inval rest.
Proof.
  intros H. assert (length (take 10 rest) = 10%nat) as Hl by (rewrite length_take; unfold zlen in H; lia). unfold inval.
  rewrite take_app_le, take_take by lia. rewrite app_nth2, Hl by lia. change (10 - 10)%nat with 0%nat. cbn [nth]. by rewrite <- Z.lor_assoc.
Qed.
Lemma inval_ok s e rest X : sds_rep s (hdr e rest ++ X) -> zlen rest = 11 -> exists s', HLL_INVALIDATE_CACHE s = Some s' /\ sds_rep s' (hdr e (inval rest) ++ X).
Proof.
  intros R Hz. assert (hdr e rest ++ X = (chars "HYLL" ++ e :: take 10 rest) ++ [nth 10 rest 0] ++ X) as E by (unfold hdr; rewrite (rest_split rest Hz) at 1; cbn; by rewrite <- app_assoc).
  assert (zlen (chars "HYLL" ++ e :: take 10 rest) = 15) as Hl by (rewrite zlen_app, zlen_cons; change (zlen (chars "HYLL")) with 4; unfold zlen in *; rewrite length_take; lia).
  rewrite E in R. destruct (wr_rep s _ _ _ [Z.lor (nth 10 rest 0) 128] R eq_refl) as (s' & Ew & R' & _). rewrite Hl in Ew. exists s'. split.
  - unfold HLL_INVALIDATE_CACHE. pose proof (view_rep _ _ _ R) as Hv. rewrite Hl in Hv. rewrite (view_hd _ _ _ _ Hv). cbn [mbind option_bind]. exact Ew.
  - unfold hdr, inval. cbn in R' |- *. by rewrite <- !app_assoc in *.
Qed.

(** * Setting a register *)

Context (Hmax : 32 <= hll_sparse_max_bytes < 2 ^ 60).

Lemma sparse_updated_ok s rest D ops2 prev : sds_rep s (hdr HLL_SPARSE rest ++ encs (D ++ ops2)) -> bytes rest -> zlen rest = 11 -> Forall op_ok (D ++ ops2) ->
  zlen (expand (D ++ ops2)) = HLL_REGISTERS -> default 16 prev = 16 + zlen (encs D) ->
  exists s', sparse_updated s prev (16 + zlen (encs (D ++ ops2))) = Some (s', 1) /\ sparse_rep s' (inval rest) (expand (D ++ ops2)).
Proof.
  intros R Hb Hz Hok Hx Hp. unfold sparse_updated. change registers with 16. rewrite Hp. apply Forall_app in Hok as [Hok1 Hok2]. rewrite encs_app in R |- *.
  destruct (merge_vals_ok (hdr HLL_SPARSE rest) 5 D ops2 s R Hok2) as (s1 & ops' & E & R1 & Hok' & Ex). rewrite zlen_hdr in E by done. rewrite zlen_app, Z.add_assoc, E. cbn [mbind option_bind].
  destruct (inval_ok s1 HLL_SPARSE rest _ R1 Hz) as (s2 & -> & R2). cbn [mbind option_bind]. exists s2. split; [done |]. exists (D ++ ops'). rewrite encs_app.
  split; [exact R2 |]. split; [by apply bytes_inval |]. split; [by apply zlen_inval |]. split; [by apply Forall_app |]. rewrite !expand_app in *. by rewrite Ex.
Qed.

Lemma sparse_promote_ok s rest R index count : sparse_rep s rest R -> 0 <= index < HLL_REGISTERS -> count < 64 -> (set_reg R index count).2 = true ->
  exists s', sparse_promote usable junk s index count = Some (s', 1) /\ dense_rep s' rest (set_reg R index count).1.
Proof.
  intros HR Hi Hc Hset. unfold sparse_promote. destruct (hllSparseToDense_ok s rest R HR) as (d & -> & Hd). cbn [mbind option_bind negb].
  destruct (hllDenseSet_ok d rest R index count Hd Hi Hc) as (d' & -> & Hd'). cbn [mbind option_bind]. rewrite Hset. cbn [assert_ mbind option_bind]. by exists d'.
Qed.

Lemma set_reg_grow R index count old : R !! Z.to_nat index = Some old -> old < count -> set_reg R index count = (<[Z.to_nat index := count]> R, true).
Proof. intros E H. unfold set_reg. rewrite E. by rewrite (proj2 (Z.ltb_lt _ _)). Qed.

(** The opcode of a register and its neighbours. *)
Lemma replace_regs A op B N index count : op_ok op -> zlen (expand A) <= index < zlen (expand A) + runlen op ->
  expand N = replicate (Z.to_nat (index - zlen (expand A))) (op_val op) ++ [count] ++ replicate (Z.to_nat (zlen (expand A) + runlen op - 1 - index)) (op_val op) ->
  expand (A ++ N ++ B) = <[Z.to_nat index := count]> (expand (A ++ op :: B)).
Proof. intros Hop Hi HN. destruct (expand_insert A op B index count Hop Hi) as [_ ->]. by rewrite !expand_app, HN. Qed.

(** Case D of the update: the opcode is replaced by a longer sequence. *)
Lemma splice_update_ok s rest A op B N D prev : sds_rep s (hdr HLL_SPARSE rest ++ encs (A ++ op :: B)) -> s_type s <> SDS_TYPE_5 -> bytes rest -> zlen rest = 11 ->
  Forall op_ok (A ++ N ++ B) -> zlen (expand (A ++ N ++ B)) = HLL_REGISTERS -> oplen op - 1 <= zlen (encs N) -> 16 + zlen (encs (A ++ N ++ B)) <= sdsalloc s ->
  (exists D2, A = D ++ D2) -> default 16 prev = 16 + zlen (encs D) ->
  exists s', (m ← move_tail s (16 + zlen (encs (A ++ op :: B))) (16 + zlen (encs A) + oplen op) (zlen (encs N) - oplen op);
      o ← sdsIncrLen (Sds (s_type s) (s_len s) (s_alloc s) m) (zlen (encs N) - oplen op);
      o ← sds_wr o (16 + zlen (encs A)) (encs N);
      sparse_updated o prev (16 + zlen (encs (A ++ op :: B)) + (zlen (encs N) - oplen op))) = Some (s', 1) /\ sparse_rep s' (inval rest) (expand (A ++ N ++ B)).
Proof.
  intros R Ht Hb Hz Hok Hx Hl Ha (D2 & ->) Hp. pose proof (zlen_hdr HLL_SPARSE rest Hz) as Hh. pose proof (oplen_bound op).
  rewrite encs_app, encs_cons, app_assoc in R. rewrite !encs_app, !zlen_app in Ha.
  destruct (splice_ok s (hdr HLL_SPARSE rest ++ encs (D ++ D2)) (enc op) (encs B) (encs N) R Ht) as (s1 & E & R1); [by destruct op | rewrite zlen_enc; lia | rewrite zlen_app, Hh, encs_app, zlen_app; lia |].
  assert (16 + zlen (encs ((D ++ D2) ++ op :: B)) = 16 + zlen (encs (D ++ D2)) + oplen op + zlen (encs B)) as Ez by (rewrite (encs_app (D ++ D2)), encs_cons, !zlen_app, zlen_enc; lia).
  rewrite !zlen_enc, zlen_app, Hh in E. rewrite Ez. destruct (move_tail _ _ _ _) as [m |]; cbn [mbind option_bind] in E |- *; [| done].
  destruct (sdsIncrLen _ _) as [o |]; cbn [mbind option_bind] in E |- *; [| done]. rewrite E. cbn [mbind option_bind].
  assert ((hdr HLL_SPARSE rest ++ encs (D ++ D2)) ++ encs N ++ encs B = hdr HLL_SPARSE rest ++ encs (D ++ (D2 ++ N ++ B))) as Ee by (by rewrite !encs_app, <- !app_assoc). rewrite Ee in R1.
  rewrite <- (app_assoc D D2) in Hok, Hx |- *. destruct (sparse_updated_ok s1 rest D (D2 ++ N ++ B) prev R1 Hb Hz Hok Hx Hp) as (s2 & E2 & HR2). exists s2. split; [| exact HR2].
  rewrite <- E2. f_equal. rewrite !encs_app, !zlen_app. lia.
Qed.

Lemma set_reg_at A op B index count : op_ok op -> zlen (expand A) <= index < zlen (expand A) + runlen op ->
  set_reg (expand (A ++ op :: B)) index count = if op_val op <? count then (<[Z.to_nat index := count]> (expand (A ++ op :: B)), true) else (expand (A ++ op :: B), false).
Proof. intros Hop Hi. unfold set_reg. by destruct (expand_insert A op B index count Hop Hi) as [-> _]. Qed.

Lemma insert_zlen (R : list Z) i v : zlen (<[i := v]> R) = zlen R.
Proof. unfold zlen. by rewrite length_insert. Qed.

Lemma hllSparseSet_ok s rest R index count : sparse_rep s rest R -> 0 <= index < HLL_REGISTERS -> 1 <= count < 64 ->
  exists s' rest', hllSparseSet usable junk use_jemalloc hll_sparse_max_bytes s index count = Some (s', Z.b2z (set_reg R index count).2) /\
    rest_upd (set_reg R index count).2 rest rest' /\ hll_holds s' rest' (set_reg R index count).1.
Proof.
  intros HR Hi Hc. pose proof HR as (ops & R0 & Hb & Hz & Hok & <- & HzR). unfold hllSparseSet. change HLL_SPARSE_VAL_MAX_VALUE with 32.
  destruct (Z.ltb_spec 32 count) as [Hbig | Hsmall].
  { assert ((set_reg (expand ops) index count).2 = true) as Hset.
    { destruct (lookup_lt_is_Some_2 (expand ops) (Z.to_nat index)) as [old Eo]; [unfold zlen in HzR; lia |]. rewrite (set_reg_grow _ _ _ _ Eo); [done |].
      pose proof (proj1 (Forall_lookup _ _) (regs_range ops Hok) _ _ Eo) as Hr. cbv beta in Hr. lia. }
    destruct (sparse_promote_ok s rest _ index count HR Hi ltac:(lia) Hset) as (s' & -> & Hd). rewrite Hset. exists s', rest. split; [done |]. split; [by left | by left]. }
  pose proof (zlen_hdr HLL_SPARSE rest Hz) as Hh. pose proof (ops_bound ops Hok HzR) as Hn. pose proof (length_encs ops) as Hl.
  destruct (sparse_make_room_ok usable junk use_jemalloc hll_sparse_max_bytes Hus Hmax s _ R0) as (s1 & -> & R1 & Ht & Ha); [rewrite zlen_app, Hh; lia |]. cbn [mbind option_bind]. clear s HR R0.
  assert (sparse_rep s1 rest (expand ops)) as HR1 by (exists ops; done). pose proof R1 as (_ & El & _). unfold sdslen. rewrite El. rewrite zlen_app, Hh in El, Ha |- *.
  pose proof (view_rep _ _ _ R1) as Hv. rewrite Hh in Hv.
  destruct (sparse_find_ok (s_buf s1) 16 (16 + zlen (encs ops)) index [] (Z.to_nat (16 + zlen (encs ops))) ops [] None 0) as (A & op & B & prev & -> & Hin & (D & D2 & EA & Ep) & E).
  { change (zlen (encs [])) with 0. by rewrite Z.add_0_r, app_nil_r. }
  { done. }
  { done. }
  { by exists [], []. }
  { change (zlen (expand [])) with 0. lia. }
  { unfold zlen in *. lia. }
  cbn [app] in *. change (16 + zlen (encs [])) with 16 in E. change (zlen (expand [])) with 0 in E. change registers with 16. rewrite E. cbn [mbind option_bind]. clear E.
  pose proof (Forall_elt _ _ _ Hok) as Hop. pose proof (oplen_bound op). pose proof (runlen_ok op Hop). pose proof (zlen_nonneg (encs B)). 
  assert (zlen (encs (A ++ op :: B)) = zlen (encs A) + oplen op + zlen (encs B)) as Ez by (rewrite encs_app, encs_cons, !zlen_app, zlen_enc; lia).
  rewrite (proj2 (Z.eqb_neq (runlen op) 0)), (proj2 (Z.leb_gt _ (16 + zlen (encs A)))) by lia. cbn [orb].
  rewrite encs_app, encs_cons in Hv. apply view_app_r in Hv. rewrite (opcode_at_ok _ _ op _ Hv Hop). cbn [mbind option_bind]. clear Hv.
  rewrite (set_reg_at A op B index count Hop Hin).
  replace (match op with VAL oldcount _ => count <=? oldcount | _ => false end) with (negb (op_val op <? count)) by (destruct op; cbn [op_val]; [rewrite (proj2 (Z.ltb_lt 0 count)) by lia; done .. | by rewrite Z.ltb_antisym, negb_involutive]).
  destruct (Z.ltb_spec (op_val op) count) as [Hlt | Hge]; cbn [negb fst snd Z.b2z]; [| exists s1, rest; split; [done |]; split; [by left | by right]].
  pose proof Hok as [HokA [_ HokB]%Forall_cons]%Forall_app.
  assert (forall N, Forall op_ok N -> Forall op_ok (A ++ N ++ B)) as HokN by (intros N HN; by rewrite !Forall_app).
  destruct (match op with VAL _ len | ZERO len => len =? 1 | XZERO _ => false end) eqn:Esingle.
  - assert (runlen op = 1 /\ oplen op = 1) as [Hr1 Hol] by (destruct op as [l | l | v l]; cbn [runlen oplen]; try discriminate Esingle; apply Z.eqb_eq in Esingle; lia).
    pose proof (replace_regs A op B [VAL count 1] index count Hop Hin) as HN. replace (index - zlen (expand A)) with 0 in HN by lia. replace (zlen (expand A) + runlen op - 1 - index) with 0 in HN by lia.
    specialize (HN eq_refl). rewrite encs_app, encs_cons, app_assoc in R1. destruct (wr_rep s1 (hdr HLL_SPARSE rest ++ encs A) (enc op) (encs B) (HLL_SPARSE_VAL_SET count 1) R1) as (s2 & Ew & R2 & _); [by rewrite zlen_enc |].
    rewrite zlen_app, Hh in Ew. rewrite Ew. cbn [mbind option_bind].
    assert ((hdr HLL_SPARSE rest ++ encs A) ++ HLL_SPARSE_VAL_SET count 1 ++ encs B = hdr HLL_SPARSE rest ++ encs (D ++ (D2 ++ [VAL count 1] ++ B))) as Ee by (rewrite EA, !encs_app, <- !app_assoc; done).
    rewrite Ee in R2. specialize (HokN [VAL count 1] ltac:(apply Forall_singleton; cbn [op_ok]; lia)). rewrite EA, <- app_assoc in HokN, HN.
    destruct (sparse_updated_ok s2 rest D (D2 ++ [VAL count 1] ++ B) prev R2 Hb Hz HokN) as (s3 & E3 & HR3); [by rewrite HN, insert_zlen, <- EA | done |].
    assert (zlen (encs (D ++ D2 ++ [VAL count 1] ++ B)) = zlen (encs (A ++ op :: B))) as Ezz by (rewrite Ez, EA, !encs_app, !zlen_app, Hol; change (zlen (encs [VAL count 1])) with 1; lia).
    rewrite Ezz in E3. rewrite E3. exists s3, (inval rest). split; [done |]. split; [by right; split |]. right. rewrite HN in HR3. by rewrite <- EA in HR3.
  - destruct (split_seq_ok op (zlen (expand A)) index count Hop ltac:(lia) ltac:(lia)) as (N & HN & Es & Ex & HlN). rewrite Es.
    pose proof (replace_regs A op B N index count Hop Hin Ex) as HX.
    assert (zlen (encs (A ++ N ++ B)) = zlen (encs (A ++ op :: B)) + (zlen (encs N) - oplen op)) as EzN by (rewrite Ez, !encs_app, !zlen_app; lia).
    destruct ((0 <? zlen (encs N) - oplen op) && _) eqn:Eprom.
    + destruct (sparse_promote_ok s1 rest _ index count HR1 Hi ltac:(lia)) as (s2 & -> & Hd); rewrite (set_reg_at A op B index count Hop Hin), (proj2 (Z.ltb_lt _ _) Hlt) in *; [done |].
      exists s2, rest. split; [done |]. split; [by left | by left].
    + assert (16 + zlen (encs (A ++ N ++ B)) <= sdsalloc s1) as Hroom.
      { pose proof R1 as (_ & _ & Hal & _). rewrite zlen_app, Hh in Hal. apply andb_false_iff in Eprom. rewrite !Z.ltb_ge in Eprom. rewrite EzN. lia. }
      rewrite (proj2 (Z.leb_le (_ + (zlen (encs N) - oplen op)) _)) by lia. cbn [assert_ mbind option_bind].
      destruct (splice_update_ok s1 rest A op B N D prev R1 Ht Hb Hz (HokN N HN)) as (s2 & E2 & HR2); [by rewrite HX, insert_zlen | lia | exact Hroom | by exists D2 | exact Ep |].
      cbv zeta in E2 |- *. unfold move_tail in E2. rewrite El in E2. rewrite E2. exists s2, (inval rest). split; [done |]. split; [by right; split |]. right. by rewrite HX in HR2.
Qed.
End update.
