(* ===== verification/HllRegs.v ===== *)
(** hyperloglog.c: the hash of an element, adding elements, merging, and the
    histogram of the registers, from which the cardinality is estimated: each
    acts on the list of registers, whatever the representation. *)
From stdpp Require Import strings.
From S2P Require Import Prelude Endian Strnum Bits Sds SdsThms Hll HllThms HllSet.

(** * The hash of an element *)

Lemma murmur_word_le `{Host} k : murmur_word k = le_dec k.
Proof. unfold murmur_word, native_dec. by destruct big_endian. Qed.

Lemma xorshift_range h n : 0 <= n -> 0 <= h < 2 ^ 64 -> 0 <= Z.lxor h (Z.shiftr h n) < 2 ^ 64.
Proof.
  intros Hn Hh. apply lxor_bound; [lia | done |]. apply shiftr_bound; [lia | done |]. rewrite Z.pow_add_r by lia. pose proof (Z.pow_pos_nonneg 2 n). nia.
Qed.

Lemma MurmurHash64A_ok `{Host} key len seed : 0 <= len -> exists h, MurmurHash64A key len seed = Some h /\ 0 <= h < 2 ^ 64.
Proof.
  intros Hl. unfold MurmurHash64A. rewrite (proj2 (Z.leb_le 0 len)) by done. cbn [assert_ mbind option_bind]. destruct (murmur_loop _ _ _) as [h data].
  eexists. split; [reflexivity |]. apply xorshift_range; [done |]. apply Z.mod_pos_bound. done.
Qed.

Lemma pattern_loop_ok h : Z.testbit h 50 = true -> forall fuel j count, 0 <= j <= 50 -> 50 - j <= Z.of_nat fuel ->
  exists k, j <= k <= 50 /\ Z.testbit h k = true /\ (forall i, j <= i < k -> Z.testbit h i = false) /\ pattern_loop fuel h (2 ^ j) count = Some (count + (k - j)).
Proof.
  intros H50. induction fuel as [| fuel IH]; intros j count Hj Hf; cbn [pattern_loop]; rewrite land_pow2 by lia.
  - assert (j = 50) as -> by lia. exists 50. rewrite H50. split; [lia |]. split; [done |]. split; [lia |]. cbn. f_equal. lia.
  - destruct (Z.testbit h j) eqn:Ej.
    + exists j. rewrite (proj2 (Z.eqb_neq _ _)) by (apply Z.pow_nonzero; lia). split; [lia |]. split; [done |]. split; [lia |]. f_equal. lia.
    + cbn [Z.eqb]. assert (j <> 50) by (intros ->; congruence). destruct (IH (j + 1) (count + 1)) as (k & Hk & Hb & Hz & E); [lia | lia |].
      exists k. split; [lia |]. split; [done |]. split; [intros i Hi; destruct (decide (i = j)) as [-> |]; [done | apply Hz; lia] |].
      rewrite Z.shiftl_mul_pow2 by lia. rewrite Z.pow_1_r, Z.mul_comm, <- Z.pow_succ_r, <- Z.add_1_r by lia. rewrite u64_id; [rewrite E; f_equal; lia |].
      split; [lia |]. pose proof (Z.pow_le_mono_r 2 (j + 1) 50 ltac:(lia) ltac:(lia)). unfold ULLONG_MAX. lia.
Qed.

(** The low 14 bits of the hash are the register; the count is one more than
    the zeros that follow, 51 when there are 50. *)
Lemma hllPatLen_ok `{Host} ele : zlen ele < 2 ^ 31 -> exists h count, MurmurHash64A ele (zlen ele) 0xadc83b19 = Some h /\ 0 <= h < 2 ^ 64 /\
  hllPatLen ele = Some (count, h mod HLL_REGISTERS) /\ 1 <= count <= 51 /\ (forall i, 0 <= i < count - 1 -> Z.testbit h (14 + i) = false) /\ (count <= 50 -> Z.testbit h (13 + count) = true).
Proof.
  intros Hl. pose proof (zlen_nonneg ele). destruct (MurmurHash64A_ok ele (zlen ele) 0xadc83b19 ltac:(done)) as (h & E & Hh).
  unfold hllPatLen. rewrite i32_id by lia. rewrite E. cbn [mbind option_bind]. change HLL_P with 14. change HLL_Q with 50. change (Z.shiftl 1 50) with (2 ^ 50).
  set (g := Z.lor (Z.shiftr h 14) (2 ^ 50)).
  assert (Z.testbit g 50 = true) as H50 by (unfold g; rewrite Z.lor_spec, testbit_pow2 by lia; apply orb_true_r).
  assert (forall i, 0 <= i < 50 -> Z.testbit g i = Z.testbit h (14 + i)) as Hg.
  { intros i Hi. unfold g. rewrite Z.lor_spec, testbit_pow2, testbit_shiftr by lia. rewrite (proj2 (Z.eqb_neq i 50)), orb_false_r by lia. f_equal. lia. }
  destruct (pattern_loop_ok g H50 64 0 1 ltac:(lia) ltac:(lia)) as (k & Hk & Hb & Hz & Ep). change (2 ^ 0) with 1 in Ep. rewrite Ep. cbn [mbind option_bind].
  exists h, (1 + (k - 0)). split; [done |]. split; [done |]. split; [change HLL_P_MASK with (2 ^ 14 - 1); by rewrite land_ones_mod by lia |]. split; [lia |]. split.
  - intros i Hi. rewrite <- Hg by lia. apply Hz. lia.
  - intros Hc. rewrite <- Hb. rewrite Hg by lia. f_equal. lia.
Qed.

(** Values of the reference implementation. *)
Example murmur_values : map (fun t => MurmurHash64A (H := false) (chars t) (zlen (chars t)) 0xadc83b19) ["a"; "hello world!"; "01234567"; "0123456789abcdef01234"]%string =
  [Some 6039968161137406375; Some 1136107777615667724; Some 5715801735661912658; Some 783454380422443139].
Proof. vm_compute. reflexivity. Qed.

(** * Adding elements *)

Section add.
Context `{Host}.

(** The count and the register of an element. *)
Definition pat (ele : list Z) : Z * Z := default (0, 0) (hllPatLen ele).
Definition add_reg (R : list Z) (ele : list Z) : list Z * bool := set_reg R (pat ele).2 (pat ele).1.
Definition add_regs (R : list Z) (els : list (list Z)) : list Z := fold_left (fun R ele => (add_reg R ele).1) els R.
Definition elem_ok (ele : list Z) : Prop := zlen ele < 2 ^ 31.

Lemma pat_ok ele : elem_ok ele -> hllPatLen ele = Some (pat ele) /\ 1 <= (pat ele).1 <= 51 /\ 0 <= (pat ele).2 < HLL_REGISTERS.
Proof.
  intros He. destruct (hllPatLen_ok ele He) as (h & count & _ & _ & E & Hc & _). unfold pat. rewrite E. cbn [default fst snd]. unfold id. cbn [fst snd].
  split; [done |]. split; [done |]. by apply Z.mod_pos_bound.
Qed.

(** The largest count of the elements of a register. *)
Definition max_count (i : Z) (els : list (list Z)) : Z := foldr (fun ele m => if (pat ele).2 =? i then Z.max (pat ele).1 m else m) 0 els.

Lemma max_count_nonneg i els : 0 <= max_count i els.
Proof. induction els as [| e els IH]; cbn [max_count foldr]; [lia |]. unfold max_count in IH. case_match; lia. Qed.

Lemma set_reg_lookup R i count k : 0 <= i -> (set_reg R i count).1 !! k = (fun old => if Z.of_nat k =? i then Z.max count old else old) <$> R !! k.
Proof.
  intros Hi. unfold set_reg. destruct (decide (k = Z.to_nat i)) as [-> | Hn].
  - rewrite Z2Nat.id, Z.eqb_refl by done. destruct (R !! Z.to_nat i) as [old |] eqn:E; cbn [fmap option_fmap option_map fst]; [| by rewrite E].
    destruct (Z.ltb_spec old count); cbn [fst]; [rewrite list_lookup_insert_eq by (by eapply lookup_lt_Some) | rewrite E]; f_equal; lia.
  - assert ((fun old => if Z.of_nat k =? i then Z.max count old else old) <$> R !! k = R !! k) as ->.
    { rewrite (proj2 (Z.eqb_neq _ _)) by lia. by destruct (R !! k). }
    destruct (R !! Z.to_nat i) as [old |]; [| done]. case_match; cbn [fst]; [by rewrite list_lookup_insert_ne by congruence | done].
Qed.

Lemma set_reg_zlen R i count : zlen (set_reg R i count).1 = zlen R.
Proof. unfold set_reg. repeat case_match; cbn [fst]; [apply insert_zlen | done..]. Qed.

(** The registers are the largest counts, in whatever order and however often
    the elements are added. *)
Lemma add_regs_lookup els : forall R k old, Forall elem_ok els -> R !! k = Some old -> 0 <= old ->
  add_regs R els !! k = Some (Z.max old (max_count (Z.of_nat k) els)).
Proof.
  induction els as [| e els IH]; intros R k old Hok E Ho; cbn [add_regs fold_left max_count foldr]; [rewrite E; f_equal; lia |].
  apply Forall_cons in Hok as [He Hok]. destruct (pat_ok e He) as (_ & Hc & Hi).
  pose proof (set_reg_lookup R (pat e).2 (pat e).1 k (proj1 Hi)) as E1. rewrite E in E1. cbn [fmap option_fmap option_map] in E1. cbv beta in E1. change (set_reg R (pat e).2 (pat e).1) with (add_reg R e) in E1.
  change (fold_left _ els (add_reg R e).1) with (add_regs (add_reg R e).1 els). rewrite (IH _ k _ Hok E1) by (case_match; lia). fold (max_count (Z.of_nat k) els). f_equal.
  clear E1 E. rewrite ?(Z.eqb_sym (Z.of_nat k)). destruct ((pat e).2 =? Z.of_nat k); lia.
Qed.

Lemma add_regs_zlen els : forall R, zlen (add_regs R els) = zlen R.
Proof. induction els as [| e els IH]; intros R; cbn [add_regs fold_left]; [done |]. unfold add_regs in IH. rewrite IH. apply set_reg_zlen. Qed.

Context (usable : Z -> Z) (junk : nat -> Z) (use_jemalloc : bool) (hll_sparse_max_bytes : Z).
Context (Hus : forall n, 0 <= n < 2 ^ 62 -> n <= usable n < 2 ^ 63).
Context (Hmax : 32 <= hll_sparse_max_bytes < 2 ^ 60).

(** A register is set to a value that fits it, in either representation. *)
Lemma holds_encoding s rest R : hll_holds s rest R -> (hdr_encoding s = Some HLL_DENSE /\ dense_rep s rest R) \/ (hdr_encoding s = Some HLL_SPARSE /\ sparse_rep s rest R).
Proof. intros [HR | HR]; [left | right]; (split; [| exact HR]); [by eapply dense_encoding | by eapply sparse_encoding]. Qed.

Lemma hllAdd_ok s rest R ele : hll_holds s rest R -> elem_ok ele ->
  exists s' rest', hllAdd usable junk use_jemalloc hll_sparse_max_bytes s ele = Some (s', Z.b2z (add_reg R ele).2) /\ rest_upd (add_reg R ele).2 rest rest' /\ hll_holds s' rest' (add_reg R ele).1.
Proof.
  intros HR He. destruct (pat_ok ele He) as (E & Hc & Hi). unfold hllAdd, add_reg, hllDenseAdd, hllSparseAdd. rewrite E.
  assert (u8 (pat ele).1 = (pat ele).1) as Hu by (rewrite u8_pow; apply Z.mod_small; lia).
  destruct (holds_encoding _ _ _ HR) as [[-> Hd] | [-> Hs]]; cbn [mbind option_bind]; destruct (pat ele) as [count index]; cbn [fst snd] in *; rewrite Hu.
  - change (HLL_DENSE =? HLL_DENSE) with true. cbv iota. destruct (hllDenseSet_ok s rest R index count Hd Hi ltac:(lia)) as (s' & -> & Hd'). cbn [mbind option_bind]. exists s', rest. split; [done |]. split; [by left | by left].
  - change (HLL_SPARSE =? HLL_DENSE) with false. change (HLL_SPARSE =? HLL_SPARSE) with true. cbv iota. apply (hllSparseSet_ok usable junk use_jemalloc hll_sparse_max_bytes Hus Hmax s rest R index count Hs Hi). lia.
Qed.
End add.

Lemma Forall_repeat_byte n : bytes (repeat 0 n).
Proof. apply Forall_forall. intros x Hx. apply list_elem_of_In, repeat_spec in Hx as ->. unfold byte. lia. Qed.

Section create.
Context (usable : Z -> Z) (junk : nat -> Z).
Context (Hus : forall n, 0 <= n < 2 ^ 62 -> n <= usable n < 2 ^ 63).

Lemma run_of_eq op : run_of op = replicate (Z.to_nat (runlen op)) (op_val op).
Proof. reflexivity. Qed.

Lemma create_loop_one s p : create_loop 64 s p HLL_REGISTERS = (s ← sds_wr s p (HLL_SPARSE_XZERO_SET HLL_SPARSE_XZERO_MAX_LEN); Some (s, p + 2)).
Proof. change 64%nat with (S (S 62)). generalize 62%nat. intros n. reflexivity. Qed.

Lemma createHLLObject_rep : exists s, createHLLObject usable junk = Some s /\ sds_rep s (hdr HLL_SPARSE (repeat 0 11) ++ encs [XZERO HLL_REGISTERS]).
Proof.
  unfold createHLLObject. pose proof create_loop_one as Hone. generalize dependent (create_loop 64). intros loop Hone. set (sparselen := HLL_HDR_SIZE + _). assert (sparselen = 18) as -> by reflexivity. destruct (newlen_zero usable junk Hus 18 ltac:(lia)) as (s0 & -> & R0). cbn [mbind option_bind].
  rewrite Hone.
  change (repeat 0 (Z.to_nat 18)) with (repeat 0 16 ++ [0; 0] ++ []) in R0. destruct (wr_rep s0 (repeat 0 16) [0; 0] [] (HLL_SPARSE_XZERO_SET HLL_SPARSE_XZERO_MAX_LEN) R0 eq_refl) as (s1 & E1 & R1 & _).
  change (zlen (repeat 0 16)) with 16 in E1. replace HLL_HDR_SIZE with 16 by done. rewrite E1. cbn [mbind option_bind].  replace (16 + 2 =? 18) with true by done. cbn [assert_ mbind option_bind].
  change (repeat 0 16 ++ ?x) with ([] ++ [0; 0; 0; 0] ++ (0 :: repeat 0 11 ++ x)) in R1. destruct (wr_rep s1 [] [0; 0; 0; 0] _ (chars "HYLL") R1 eq_refl) as (s2 & E2 & R2 & _).
  change (zlen []) with 0 in E2. rewrite E2. cbn [mbind option_bind]. change ([] ++ chars "HYLL" ++ 0 :: ?x) with (chars "HYLL" ++ [0] ++ x) in R2.
  destruct (wr_rep s2 (chars "HYLL") [0] _ [HLL_SPARSE] R2 eq_refl) as (s3 & E3 & R3 & _). change (zlen (chars "HYLL")) with 4 in E3. unfold hdr_set_encoding. rewrite E3. exists s3. split; [done |].
  exact R3.
Qed.

Lemma createHLLObject_ok : exists s, createHLLObject usable junk = Some s /\ hll_holds s (repeat 0 11) (replicate (Z.to_nat HLL_REGISTERS) 0).
Proof.
  destruct createHLLObject_rep as (s & E & R3). exists s. split; [exact E |].
  right. exists [XZERO HLL_REGISTERS]. split; [exact R3 |]. split; [apply Forall_repeat_byte |]. split; [done |]. split; [apply Forall_singleton; cbn [op_ok]; change HLL_REGISTERS with 16384; lia |].
  split; [rewrite expand_cons; change (expand []) with (@nil Z); rewrite app_nil_r, run_of_eq; reflexivity |].
  unfold zlen. by rewrite length_replicate, Z2Nat.id.
Qed.
End create.

(** * Merging *)

Lemma holds_zlen s rest R : hll_holds s rest R -> zlen R = HLL_REGISTERS.
Proof. by intros [(_ & _ & _ & _ & _ & _ & HR & _) | (_ & _ & _ & _ & _ & _ & HR)]. Qed.

Notation max_regs := (zip_with Z.max).

Lemma max_set_ok X old Y v : max_set (X ++ old :: Y) (zlen X) v = Some (X ++ Z.max old v :: Y).
Proof.
  unfold max_set. assert (rd (X ++ old :: Y) (zlen X) = Some old) as ->.
  { pose proof (rd_app_r X (old :: Y) 0 ltac:(lia)) as E. by rewrite Z.add_0_r in E. }
  cbn [mbind option_bind]. destruct (Z.ltb_spec old v); [| by rewrite Z.max_l by lia].
  rewrite Z.max_r by lia. exact (wrn_app X [old] [v] Y (zlen X) eq_refl eq_refl).
Qed.

Lemma merge_dense_ok s rest n : forall RX X RY Y, dense_rep s rest (RX ++ RY) -> zlen RX = zlen X -> length RY = n -> length Y = n ->
  merge_dense_loop n (s_buf s) (zlen X) (X ++ Y) = Some (X ++ max_regs Y RY).
Proof.
  induction n as [| n IH]; intros RX X RY Y HR Hz HRY HY; [destruct RY, Y; try discriminate; done |]. destruct RY as [| r RY], Y as [| y Y]; try discriminate. cbn [merge_dense_loop].
  pose proof HR as (_ & _ & _ & _ & _ & _ & HzR & _). rewrite zlen_app, zlen_cons in HzR. pose proof (zlen_nonneg RY). pose proof (zlen_nonneg X).
  destruct (dense_get s rest _ (zlen X) HR ltac:(lia)) as (v & E1 & -> & _). cbn [mbind option_bind]. rewrite max_set_ok. cbn [mbind option_bind].
  rewrite lookup_app_r in E1 by (unfold zlen in *; lia). replace (Z.to_nat (zlen X) - length RX)%nat with 0%nat in E1 by (unfold zlen in *; lia). injection E1 as <-.
  specialize (IH (RX ++ [r]) (X ++ [Z.max y r]) RY Y). rewrite !zlen_app, <- !app_assoc in IH. cbn [app] in IH. change (zlen [r]) with 1 in IH. change (zlen [Z.max y r]) with 1 in IH.
  rewrite IH; [done | done | lia | by injection HRY | by injection HY].
Qed.

Lemma max_run_ok v n : forall X Y W, length Y = n -> max_run n (X ++ Y ++ W) (zlen X) v = Some (X ++ map (fun y => Z.max y v) Y ++ W, zlen X + Z.of_nat n).
Proof.
  induction n as [| n IH]; intros X Y W HY; [destruct Y; [| discriminate]; cbn; do 2 f_equal; lia |]. destruct Y as [| y Y]; [discriminate |]. cbn [max_run app map]. rewrite max_set_ok. cbn [mbind option_bind].
  specialize (IH (X ++ [Z.max y v]) Y W). rewrite zlen_app, <- !app_assoc in IH. cbn [app] in IH. change (zlen [Z.max y v]) with 1 in IH. rewrite IH by (by injection HY). do 2 f_equal; lia.
Qed.

Lemma max_replicate v Y n : length Y = n -> max_regs Y (replicate n v) = map (fun y => Z.max y v) Y.
Proof. intros <-. rewrite zip_with_replicate_r_eq by done. done. Qed.
Lemma max_zero Y n : length Y = n -> Forall (fun y => 0 <= y) Y -> max_regs Y (replicate n 0) = Y.
Proof. intros Hl H. rewrite max_replicate by done. clear n Hl. induction H as [| y Y Hy _ IH]; [done |]. cbn [map]. by rewrite IH, Z.max_l. Qed.

Lemma merge_sparse_ok m start end_ fuel : forall ops D X Y Z_, view m (start + zlen (encs D)) (encs ops ++ Z_) -> end_ = start + zlen (encs D) + zlen (encs ops) ->
  Forall op_ok ops -> zlen (expand D) + zlen (expand ops) = HLL_REGISTERS -> (length ops <= fuel)%nat -> zlen X = zlen (expand D) -> zlen Y = zlen (expand ops) -> Forall (fun y => 0 <= y) Y ->
  merge_sparse_loop fuel m (start + zlen (encs D)) end_ (zlen X) (X ++ Y) = Some (X ++ max_regs Y (expand ops), HLL_REGISTERS).
Proof.
  induction fuel as [| fuel IH]; intros ops D X Y W Hv He Hok Hz Hf HX HY Hpos.
  { destruct ops; [| cbn in Hf; lia]. change (zlen (encs [])) with 0 in He. change (zlen (expand [])) with 0 in *. apply zlen_0 in HY as ->. cbn [merge_sparse_loop]. rewrite (proj2 (Z.ltb_ge _ _)) by lia.
    do 2 f_equal. lia. }
  cbn [merge_sparse_loop]. destruct ops as [| op ops].
  { change (zlen (encs [])) with 0 in He. change (zlen (expand [])) with 0 in *. apply zlen_0 in HY as ->. rewrite (proj2 (Z.ltb_ge _ _)) by lia. do 2 f_equal. lia. }
  apply Forall_cons in Hok as [Hop Hok]. rewrite encs_cons, zlen_app, zlen_enc in He. rewrite zlen_expand_cons in Hz, HY by done. pose proof (oplen_bound op). pose proof (zlen_nonneg (encs ops)).
  pose proof (zlen_nonneg (expand ops)). pose proof (zlen_nonneg (expand D)). pose proof (runlen_ok op Hop). rewrite (proj2 (Z.ltb_lt _ _)) by lia.
  rewrite encs_cons, <- app_assoc in Hv. rewrite (opcode_at_ok _ _ op _ Hv Hop). cbn [mbind option_bind]. change HLL_REGISTERS with 16384 in *.
  destruct (zlen_split_prefix Y (runlen op)) as (Y1 & Y2 & -> & HY1); [lia |]. rewrite zlen_app in HY. apply Forall_app in Hpos as [Hp1 Hp2].
  assert (length Y1 = Z.to_nat (runlen op)) as HlY by (unfold zlen in HY1; lia).
  assert (merge_sparse_loop fuel m (start + zlen (encs D) + oplen op) end_ (zlen X + runlen op) (X ++ max_regs Y1 (run_of op) ++ Y2) = Some (X ++ max_regs (Y1 ++ Y2) (expand (op :: ops)), 16384)) as Hnext.
  { assert (zlen (max_regs Y1 (run_of op)) = runlen op) as Hm by (unfold zlen; rewrite length_zip_with; unfold run_of; rewrite length_replicate; lia).
    specialize (IH ops (D ++ [op]) (X ++ max_regs Y1 (run_of op)) Y2 W). rewrite encs_snoc, expand_snoc, !zlen_app, zlen_enc, zlen_run, Hm, <- !app_assoc, Z.add_assoc in IH by done.
    rewrite IH; [| by apply view_app_r in Hv; rewrite zlen_enc in Hv | lia | done | lia | cbn in Hf; lia | lia | lia | done].
    rewrite expand_cons, zip_with_app by (unfold run_of; by rewrite length_replicate). done. }
  destruct op as [len | len | v len]; cbn [runlen oplen op_ok] in *.
  - unfold run_of in Hnext at 1. cbn [runlen op_val] in Hnext. rewrite max_zero in Hnext by done. rewrite i32_id by lia. exact Hnext.
  - unfold run_of in Hnext at 1. cbn [runlen op_val] in Hnext. rewrite max_zero in Hnext by done. rewrite i32_id by lia. exact Hnext.
  - unfold run_of in Hnext at 1. cbn [runlen op_val] in Hnext. rewrite max_replicate in Hnext by done. rewrite (proj2 (Z.ltb_ge _ _)) by lia.
    rewrite max_run_ok by done. cbn [mbind option_bind]. rewrite Z2Nat.id by lia. exact Hnext.
Qed.

Lemma hllMerge_ok s rest R M : hll_holds s rest R -> zlen M = HLL_REGISTERS -> Forall (fun y => 0 <= y) M -> hllMerge M s = Some (max_regs M R, true).
Proof.
  intros HR HM Hpos. unfold hllMerge. pose proof (holds_zlen _ _ _ HR) as HzR.
  assert (length R = Z.to_nat HLL_REGISTERS /\ length M = Z.to_nat HLL_REGISTERS) as [H1 H2] by (unfold zlen in *; lia). generalize dependent (Z.to_nat HLL_REGISTERS). intros n H1 H2.
  destruct (holds_encoding _ _ _ HR) as [[-> Hd] | [-> Hs]]; cbn [mbind option_bind].
  - change (HLL_DENSE =? HLL_DENSE) with true. cbv iota.
    pose proof (merge_dense_ok s rest n [] [] R M Hd eq_refl H1 H2) as E. change (zlen (@nil Z)) with 0 in E. cbn [app] in E. by rewrite E.
  - change (HLL_SPARSE =? HLL_DENSE) with false. cbv iota. destruct Hs as (ops & R0 & Hb & Hz & Hok & Hx & _). pose proof R0 as (_ & El & _). pose proof (zlen_hdr HLL_SPARSE rest Hz) as Hh.
    rewrite zlen_app, Hh in El. unfold sdslen. rewrite El. pose proof (view_rep _ _ _ R0) as Hv. rewrite Hh in Hv.
    pose proof (merge_sparse_ok (s_buf s) 16 (16 + zlen (encs ops)) (Z.to_nat (16 + zlen (encs ops))) ops [] [] M []) as E.
    change (16 + zlen (encs [])) with 16 in E. rewrite app_nil_r in E. change HLL_HDR_SIZE with 16. change (zlen (@nil Z)) with 0 in E. change (expand []) with (@nil Z) in E. change (zlen (@nil Z)) with 0 in E. cbn [app] in E. rewrite E; clear E.
    + cbn [mbind option_bind]. by rewrite Hx, Z.eqb_refl.
    + exact Hv.
    + done.
    + done.
    + by rewrite Hx.
    + pose proof (length_encs ops). unfold zlen in *. lia.
    + done.
    + by rewrite Hx, HM, HzR.
    + done.
Qed.

(** How many registers have the value [v]. *)
Fixpoint cnt (v : Z) (R : list Z) : Z := match R with [] => 0 | x :: R => (if x =? v then 1 else 0) + cnt v R end.
Definition histo (R : list Z) : list Z := map (fun v => cnt v R) (seqZ 0 64).
Definition reg_ok (v : Z) : Prop := 0 <= v < 64.

Lemma cnt_app v R R' : cnt v (R ++ R') = cnt v R + cnt v R'.
Proof. induction R as [| x R IH]; cbn [cnt app]; lia. Qed.
Lemma cnt_replicate v w n : cnt v (replicate n w) = if w =? v then Z.of_nat n else 0.
Proof. induction n as [| n IH]; cbn [cnt replicate]; [by case_match |]. rewrite IH. case_match; lia. Qed.
Lemma cnt_bound v R : 0 <= cnt v R <= zlen R.
Proof. induction R as [| x R IH]; cbn [cnt]; [done |]. rewrite zlen_cons. case_match; lia. Qed.

Lemma histo_split R v : reg_ok v -> histo R = map (fun w => cnt w R) (seqZ 0 v) ++ [cnt v R] ++ map (fun w => cnt w R) (seqZ (v + 1) (63 - v)).
Proof.
  intros Hv. unfold reg_ok in Hv. unfold histo. replace 64 with (v + (1 + (63 - v))) by lia. rewrite (seqZ_app 0 v), (seqZ_app (0 + v) 1), !map_app, Z.add_0_l by lia. done.
Qed.

Lemma map_cnt_same R v l n : v ∉ l -> map (fun w => cnt w (R ++ replicate n v)) l = map (fun w => cnt w R) l.
Proof.
  intros Hv. apply map_ext_in. intros w Hw. rewrite cnt_app, cnt_replicate. destruct (Z.eqb_spec v w) as [-> |]; [| lia]. by apply list_elem_of_In in Hw.
Qed.

Lemma histo_add_ok R v n : reg_ok v -> zlen R + Z.of_nat n <= 2147483647 -> histo_add (histo R) v (Z.of_nat n) = Some (histo (R ++ replicate n v)).
Proof.
  intros Hv Hn. unfold histo_add. rewrite (histo_split R v), (histo_split (R ++ _) v) by done. unfold reg_ok in Hv.
  assert (zlen (map (fun w => cnt w R) (seqZ 0 v)) = v) as Hz by (unfold zlen; rewrite length_map, length_seqZ; lia). pose proof (cnt_bound v R).
  change ([cnt v R] ++ ?l) with (cnt v R :: l). rewrite (rd_app _ _ _ v Hz). cbn [mbind option_bind]. change (cnt v R :: ?l) with ([cnt v R] ++ l).
  rewrite (wrn_app _ [cnt v R] _ _ v Hz) by done. rewrite i32_id by lia.
  rewrite !map_cnt_same by (rewrite elem_of_seqZ; lia). rewrite cnt_app, cnt_replicate, Z.eqb_refl. done.
Qed.

Lemma histo_incrs_ok rs : forall R, Forall reg_ok rs -> zlen R + zlen rs <= 2147483647 -> histo_incrs (histo R) rs = Some (histo (R ++ rs)).
Proof.
  induction rs as [| r rs IH]; intros R Hr Hz; cbn [histo_incrs]; [by rewrite app_nil_r |]. apply Forall_cons in Hr as [Hr Hrs]. rewrite zlen_cons in Hz. pose proof (zlen_nonneg rs).
  rewrite (histo_add_ok R r 1 : _ -> _ -> histo_add (histo R) r 1 = _) by (done || lia). cbn [mbind option_bind replicate]. rewrite IH; [by rewrite <- app_assoc | done |]. rewrite zlen_app. change (zlen [r]) with 1. lia.
Qed.

Lemma histo_nil : replicate 64 0 = histo [].
Proof. reflexivity. Qed.

(** * Sparse representation *)

Lemma sparse_histo_ok m start end_ X fuel : forall ops D, view m (start + zlen (encs D)) (encs ops ++ X) -> end_ = start + zlen (encs D) + zlen (encs ops) ->
  Forall op_ok ops -> zlen (expand D) + zlen (expand ops) = HLL_REGISTERS -> (length ops <= fuel)%nat ->
  sparse_histo_loop fuel m (start + zlen (encs D)) end_ (zlen (expand D)) (histo (expand D)) = Some (histo (expand D ++ expand ops), HLL_REGISTERS).
Proof.
  induction fuel as [| fuel IH]; intros ops D Hv He Hok Hz Hf.
  { destruct ops; [| cbn in Hf; lia]. change (zlen (encs [])) with 0 in He. change (zlen (expand [])) with 0 in *. cbn [sparse_histo_loop]. rewrite (proj2 (Z.ltb_ge _ _)) by lia.
    change (expand []) with (@nil Z). rewrite app_nil_r. do 2 f_equal. lia. }
  cbn [sparse_histo_loop]. destruct ops as [| op ops].
  { change (zlen (encs [])) with 0 in He. change (zlen (expand [])) with 0 in *. rewrite (proj2 (Z.ltb_ge _ _)) by lia. change (expand []) with (@nil Z). rewrite app_nil_r. do 2 f_equal. lia. }
  apply Forall_cons in Hok as [Hop Hok]. rewrite encs_cons, zlen_app, zlen_enc in He. rewrite zlen_expand_cons in Hz by done. pose proof (oplen_bound op). pose proof (zlen_nonneg (encs ops)).
  pose proof (zlen_nonneg (expand ops)). pose proof (zlen_nonneg (expand D)). pose proof (runlen_ok op Hop). rewrite (proj2 (Z.ltb_lt _ _)) by lia.
  rewrite encs_cons, <- app_assoc in Hv. rewrite (opcode_at_ok _ _ op _ Hv Hop). cbn [mbind option_bind]. change HLL_REGISTERS with 16384 in *.
  replace (match op with ZERO _ | XZERO _ => 0 | VAL regval _ => regval end) with (op_val op) by done. cbv zeta.
  replace (histo_add (histo (expand D)) (op_val op) (runlen op)) with (histo_add (histo (expand D)) (op_val op) (Z.of_nat (Z.to_nat (runlen op)))) by (f_equal; lia).
  rewrite histo_add_ok by (unfold reg_ok; destruct op; cbn in *; lia). cbn [mbind option_bind]. fold (run_of op). rewrite i32_id by lia.
  specialize (IH ops (D ++ [op])). rewrite encs_snoc, expand_snoc, !zlen_app, zlen_enc, zlen_run, Z.add_assoc in IH by done.
  rewrite IH; [by rewrite expand_cons, <- app_assoc | by apply view_app_r in Hv; rewrite zlen_enc in Hv | lia | done | lia | cbn in Hf; lia].
Qed.

(** * A byte for each register *)

Lemma raw_histo_ok n : forall X Y, length Y = (8 * n)%nat -> Forall reg_ok Y -> zlen X + zlen Y <= 2147483647 ->
  raw_histo_loop n (X ++ Y) (zlen X) (histo X) = Some (histo (X ++ Y)).
Proof.
  induction n as [| n IH]; intros X Y Hl Hr Hz; cbn [raw_histo_loop]; [by destruct Y; [rewrite app_nil_r |] |].
  destruct (zlen_split_prefix Y 8) as (bs & Y2 & -> & Hbs); [unfold zlen; lia |]. rewrite (rdn_app X bs Y2 _ 8 eq_refl Hbs). cbn [mbind option_bind].
  apply Forall_app in Hr as [Hr1 Hr2]. rewrite zlen_app, Hbs in Hz. pose proof (zlen_nonneg Y2).
  assert ((if forallb (Z.eqb 0) bs then histo_add (histo X) 0 8 else histo_incrs (histo X) bs) = Some (histo (X ++ bs))) as ->.
  { destruct (forallb (Z.eqb 0) bs) eqn:E; [| apply histo_incrs_ok; [done | lia]]. rewrite (histo_add_ok X 0 8 : _ -> _ -> histo_add (histo X) 0 8 = _) by (unfold reg_ok; lia). do 3 f_equal.
    rewrite forallb_forall in E. replace 8%nat with (length bs) by (unfold zlen in Hbs; lia). apply replicate_as_elem_of; split; [done |]. intros x Hx%list_elem_of_In%E. lia. }
  cbn [mbind option_bind]. specialize (IH (X ++ bs) Y2). rewrite zlen_app, Hbs, <- app_assoc in IH. apply IH; [rewrite length_app in Hl; unfold zlen in Hbs; lia | done | lia].
Qed.

Lemma hllCount_raw_ok estimate M : zlen M = HLL_REGISTERS -> Forall reg_ok M -> hllCount_raw estimate M = Some (u64 (estimate (histo M))).
Proof.
  intros Hz Hr. unfold hllCount_raw, hllRawRegHisto. rewrite histo_nil. assert (length M = 8 * Z.to_nat (HLL_REGISTERS / 8))%nat as Hl by (change HLL_REGISTERS with 16384 in *; change (16384 / 8) with 2048; unfold zlen in Hz; lia).
  generalize dependent (Z.to_nat (HLL_REGISTERS / 8)). intros n Hl. pose proof (raw_histo_ok n [] M Hl Hr) as E. cbn [app] in E. change (zlen (@nil Z)) with 0 in E. rewrite E; [done |].
  change HLL_REGISTERS with 16384 in Hz. lia.
Qed.

(** * Dense representation *)

(** A register from the two bytes it is in. *)
Definition reg_fb (b b' fb : Z) : Z := Z.land (Z.lor (Z.shiftr b fb) (Z.shiftl b' (8 - fb))) 63.

Lemma land_shiftl_63 b n : 6 <= n -> Z.land (Z.shiftl b n) 63 = 0.
Proof.
  intros Hn. change 63 with (Z.ones 6). rewrite Z.land_ones, Z.shiftl_mul_pow2 by lia. replace n with ((n - 6) + 6) by lia. rewrite Z.pow_add_r, Z.mul_assoc by lia. by apply Z.mod_mul.
Qed.
Lemma reg_fb_one b b' fb : fb <= 2 -> reg_fb b b' fb = Z.land (Z.shiftr b fb) 63.
Proof. intros H. unfold reg_fb. rewrite Z.land_lor_distr_l, land_shiftl_63 by lia. apply Z.lor_0_r. Qed.

(** The 16 registers of a block of 12 bytes. *)
Lemma reg_block m p k j : 0 <= j -> reg_of m p (16 * k + j) = reg_fb (byte_at m (p + 12 * k + j * 6 / 8)) (byte_at m (p + 12 * k + j * 6 / 8 + 1)) (j * 6 mod 8).
Proof.
  intros Hj. unfold reg_of, reg_fb. replace ((16 * k + j) * 6) with (j * 6 + (12 * k) * 8) by lia. rewrite Z.div_add, Z.mod_add by lia.
  replace (p + (j * 6 / 8 + 12 * k)) with (p + 12 * k + j * 6 / 8) by lia. done.
Qed.

Lemma unpack16_ok m p k bs : zlen bs = 12 -> (forall j, 0 <= j < 12 -> nth (Z.to_nat j) bs 0 = byte_at m (p + 12 * k + j)) ->
  unpack16 bs = map (fun i => reg_of m p i) (seqZ (16 * k) 16).
Proof.
  intros Hz Hb. pose proof (fmap_add_seqZ (16 * k) 0 16) as Es. rewrite Z.add_0_r in Es. rewrite <- Es. change (Z.add (16 * k) <$> seqZ 0 16) with (map (fun j => 16 * k + j) (seqZ 0 16)).
  rewrite map_map. rewrite (map_ext_in _ (fun j => reg_fb (byte_at m (p + 12 * k + j * 6 / 8)) (byte_at m (p + 12 * k + j * 6 / 8 + 1)) (j * 6 mod 8)));
    [| intros j Hj; apply reg_block; apply list_elem_of_In, elem_of_seqZ in Hj; lia].
  pose proof (fun j (H : 0 <= j < 12) => eq_sym (Hb j H)) as Hb'. assert (forall q, p + 12 * k + q + 1 = p + 12 * k + (q + 1)) as Hq by lia.
  change (seqZ 0 16) with [0; 1; 2; 3; 4; 5; 6; 7; 8; 9; 10; 11; 12; 13; 14; 15]. cbn [map]. rewrite !Hq.
  repeat match goal with |- context [?a * 6 / 8] => let v := eval vm_compute in (a * 6 / 8) in change (a * 6 / 8) with v end.
  repeat match goal with |- context [(?a * 6) mod 8] => let v := eval vm_compute in ((a * 6) mod 8) in change ((a * 6) mod 8) with v end.
  rewrite ?(reg_fb_one _ _ 0), ?(reg_fb_one _ _ 2) by lia. cbn [Z.add Pos.add Pos.succ Pos.add_carry]. rewrite !Hb' by lia. unfold reg_fb. rewrite !Z.shiftr_0_r. done.
Qed.

Lemma dense_histo_ok m m' p n : forall k, 0 <= p -> 0 <= k -> p + 12 * (k + Z.of_nat n) <= zlen m -> (forall i, p <= i < p + 12 * (k + Z.of_nat n) -> byte_at m i = byte_at m' i) ->
  16 * (k + Z.of_nat n) <= HLL_REGISTERS ->
  dense_histo_loop n m (p + 12 * k) (histo (map (fun i => reg_of m' p i) (seqZ 0 (16 * k)))) = Some (histo (map (fun i => reg_of m' p i) (seqZ 0 (16 * (k + Z.of_nat n))))).
Proof.
  induction n as [| n IH]; intros k Hp Hk Hm Hb Hr; cbn [dense_histo_loop]; [by rewrite Z.add_0_r |]. change HLL_REGISTERS with 16384 in *.
  destruct (rdn_is_Some m (p + 12 * k) 12) as (bs & E); [lia | lia | lia |]. rewrite E. cbn [mbind option_bind]. pose proof (rdn_length _ _ _ _ E) as Hbs. apply rdn_lookup in E as (_ & _ & _ & _ & Hnth).
  rewrite (unpack16_ok m' p k bs Hbs).
  - rewrite histo_incrs_ok; [| apply Forall_forall; intros x Hx; apply list_elem_of_In, in_map_iff in Hx as (i & <- & _); apply reg_of_range | unfold zlen; rewrite !length_map, !length_seqZ; lia].
    cbn [mbind option_bind]. specialize (IH (k + 1) Hp). replace (16 * (k + 1)) with (16 * k + 16) in IH by lia. rewrite (seqZ_app 0 (16 * k) 16), map_app, Z.add_0_l in IH by lia.
    replace (p + 12 * k + 12) with (p + 12 * (k + 1)) by lia. rewrite IH; [do 5 f_equal; lia | lia | lia | intros i Hi; apply Hb; lia | lia].
  - intros j Hj. rewrite <- Hb by lia. unfold byte_at. rewrite !nth_lookup. f_equal. apply Hnth. lia.
Qed.

Section count.
Context (estimate : list Z -> Z).

Lemma dense_histo_rep s rest R : dense_rep s rest R -> hllDenseRegHisto (s_buf s) registers (histo []) = Some (histo R).
Proof.
  intros (c & Rs & _ & Hz & _ & _ & HzR & HR). pose proof Rs as ((sl & Eb) & _). unfold hllDenseRegHisto.
  assert (R = map (fun i => reg_of (c ++ [0]) registers i) (seqZ 0 (16 * (0 + Z.of_nat 1024)))) as ER.
  { change (16 * (0 + Z.of_nat 1024)) with HLL_REGISTERS. apply list_eq. intros i. destruct (decide (i < length R)%nat) as [Hi | Hi].
    - rewrite <- (Nat2Z.id i), (HR (Z.of_nat i)) by (unfold zlen in HzR; lia). symmetry. rewrite Nat2Z.id. apply list_lookup_fmap_Some. exists (Z.of_nat i). split; [done |].
      apply lookup_seqZ. unfold zlen in HzR. lia.
    - rewrite !lookup_ge_None_2; [done | rewrite length_map, length_seqZ; unfold zlen in HzR; lia | lia]. }
  rewrite ER at 1. pose proof (dense_histo_ok (s_buf s) (c ++ [0]) registers 1024 0) as E. change (registers + 12 * 0) with registers in E. change (map _ (seqZ 0 (16 * 0))) with (@nil Z) in E.
  apply E; clear E; [done | done | | | done].
  - change (registers + 12 * (0 + Z.of_nat 1024)) with HLL_DENSE_SIZE. rewrite <- Hz, Eb, zlen_app. pose proof (zlen_nonneg (0 :: sl)). lia.
  - intros i Hi. change (registers + 12 * (0 + Z.of_nat 1024)) with HLL_DENSE_SIZE in Hi. change registers with 16 in Hi. unfold byte_at. rewrite Eb. unfold zlen in Hz. rewrite !app_nth1 by lia. done.
Qed.

Lemma hllCount_ok s rest R : hll_holds s rest R -> hllCount estimate s = Some (u64 (estimate (histo R)), false).
Proof.
  intros HR. unfold hllCount. rewrite histo_nil. destruct (holds_encoding _ _ _ HR) as [[-> Hd] | [-> Hs]]; cbn [mbind option_bind].
  - change (HLL_DENSE =? HLL_DENSE) with true. cbv iota zeta. by rewrite (dense_histo_rep s rest R Hd).
  - change (HLL_SPARSE =? HLL_DENSE) with false. change (HLL_SPARSE =? HLL_SPARSE) with true. cbv iota zeta. destruct Hs as (ops & R0 & Hb & Hz & Hok & Hx & HzR). pose proof R0 as (_ & El & _).
    pose proof (zlen_hdr HLL_SPARSE rest Hz) as Hh. rewrite zlen_app, Hh in El. unfold sdslen. rewrite El. pose proof (view_rep _ _ _ R0) as Hv. rewrite Hh in Hv. unfold hllSparseRegHisto. change registers with 16.
    replace (16 + zlen (encs ops) - 16) with (zlen (encs ops)) by lia.
    pose proof (sparse_histo_ok (s_buf s) 16 (16 + zlen (encs ops)) [] (Z.to_nat (zlen (encs ops))) ops []) as E.
    change (16 + zlen (encs [])) with 16 in E. rewrite app_nil_r in E. change (expand []) with (@nil Z) in E. change (zlen (@nil Z)) with 0 in E. cbn [app] in E. rewrite E; clear E.
    + cbn [mbind option_bind]. by rewrite Hx, Z.eqb_refl.
    + exact Hv.
    + done.
    + done.
    + by rewrite Hx.
    + pose proof (length_encs ops). unfold zlen in *. lia.
Qed.
End count.

(** * Sequences of additions *)

Section adds.
Context `{Host} (usable : Z -> Z) (junk : nat -> Z) (use_jemalloc : bool) (hll_sparse_max_bytes : Z).

Fixpoint hll_adds (els : list (list Z)) (s : sds) : option sds :=
  match els with [] => Some s | ele :: els => r ← hllAdd usable junk use_jemalloc hll_sparse_max_bytes s ele; hll_adds els r.1 end.

Lemma hll_adds_ok (Hus : forall n, 0 <= n < 2 ^ 62 -> n <= usable n < 2 ^ 63) (Hmax : 32 <= hll_sparse_max_bytes < 2 ^ 60) els : forall s rest R,
  hll_holds s rest R -> Forall elem_ok els -> exists s' rest', hll_adds els s = Some s' /\ hll_holds s' rest' (add_regs R els).
Proof.
  induction els as [| ele els IH]; intros s rest R HR Hok; cbn [hll_adds]; [by exists s, rest |]. apply Forall_cons in Hok as [He Hok].
  destruct (hllAdd_ok usable junk use_jemalloc hll_sparse_max_bytes Hus Hmax s rest R ele HR He) as (s1 & rest1 & -> & _ & HR1). cbn [mbind option_bind]. exact (IH s1 rest1 _ HR1 Hok).
Qed.
End adds.

(** C21: Adding any elements to a new HyperLogLog, in any order and however
    often, leaves in each register the largest count of the elements that hash
    to it, 0 when there is none: the count of an element is one more than the
    number of zero bits that follow the 14 bits of its hash that choose the
    register.  This holds through the changes of the sparse representation
    (opcodes split and merged, the string growing up to the configured size)
    and its conversion to the dense one; the registers are read back, and the
    cardinality is the estimate for the histogram of exactly these registers. *)
Theorem hll_adds_max `{Host} (usable : Z -> Z) (junk : nat -> Z) (use_jemalloc : bool) (hll_sparse_max_bytes : Z) (estimate : list Z -> Z) (els : list (list Z))
    (Hus : forall n, 0 <= n < 2 ^ 62 -> n <= usable n < 2 ^ 63) (Hmax : 32 <= hll_sparse_max_bytes < 2 ^ 60) (Hels : Forall elem_ok els) :
  exists s0 s rest R, createHLLObject usable junk = Some s0 /\ hll_adds usable junk use_jemalloc hll_sparse_max_bytes els s0 = Some s /\ hll_holds s rest R /\
    zlen R = HLL_REGISTERS /\ (forall k : nat, (k < length R)%nat -> R !! k = Some (max_count (Z.of_nat k) els)) /\
    hllCount estimate s = Some (u64 (estimate (histo R)), false) /\
    (forall M, zlen M = HLL_REGISTERS -> Forall (fun y => 0 <= y) M -> hllMerge M s = Some (zip_with Z.max M R, true)).
Proof.
  destruct (createHLLObject_ok usable junk Hus) as (s0 & E0 & H0). destruct (hll_adds_ok usable junk use_jemalloc hll_sparse_max_bytes Hus Hmax els s0 _ _ H0 Hels) as (s & rest & E & HR).
  eexists s0, s, rest, _. split; [exact E0 |]. split; [exact E |]. split; [exact HR |]. pose proof (holds_zlen _ _ _ HR) as Hz. split; [exact Hz |]. split; [| split; [by eapply hllCount_ok | intros M; by eapply hllMerge_ok]].
  intros k Hk. rewrite (add_regs_lookup els _ k 0 Hels); [f_equal; pose proof (max_count_nonneg (Z.of_nat k) els); lia | | done].
  apply lookup_replicate_2. rewrite add_regs_zlen in Hz. unfold zlen in *. pose proof (add_regs_zlen els (replicate (Z.to_nat HLL_REGISTERS) 0)) as Hz2. unfold zlen in Hz2. lia.
Qed.

Lemma hll_adds_max_witness : Forall elem_ok [chars "a"; chars "b"; chars "a"] /\
  exists s0 s rest R, createHLLObject (fun n => n) (fun _ => 0) = Some s0 /\ hll_adds (H := false) (fun n => n) (fun _ => 0) true 3000 [chars "a"; chars "b"; chars "a"] s0 = Some s /\ hll_holds s rest R /\
    zlen R = HLL_REGISTERS /\ (forall k : nat, (k < length R)%nat -> R !! k = Some (max_count (H := false) (Z.of_nat k) [chars "a"; chars "b"; chars "a"])) /\
    hllCount (fun h => 16384 - nth 0 h 0) s = Some (u64 (16384 - nth 0 (histo R) 0), false) /\
    (forall M, zlen M = HLL_REGISTERS -> Forall (fun y => 0 <= y) M -> hllMerge M s = Some (zip_with Z.max M R, true)).
Proof.
  assert (Forall elem_ok [chars "a"; chars "b"; chars "a"]) as Hels by (repeat constructor).
  split; [exact Hels |].
  exact (hll_adds_max (H := false) (fun n => n) (fun _ => 0) true 3000 (fun h => 16384 - nth 0 h 0) [chars "a"; chars "b"; chars "a"] ltac:(intros n Hn; lia) ltac:(lia) Hels).
Defined.
