(* ===== verification/HllCmds.v ===== *)
(** hyperloglog.c, the commands: PFADD, PFCOUNT and PFMERGE, on string values
    of keys of Keyspace.v.

    A string value has its encoding: an sds (raw or embedded in the object) or
    an integer.  The reference count of a value of the database is 1. *)
From stdpp Require Import strings gmap.
From S2P Require Import Prelude Endian Strnum Sds Server Keyspace Hll.

Inductive strobj := StrRaw (o : sds) | StrEmb (o : sds) | StrInt (n : Z).
Notation str_srv := (typed_srv strobj).

Definition invalid_hll_err : string := "-INVALIDOBJ Corrupted HLL object detected".
Definition not_hll_err : string := "-WRONGTYPE Key is not a valid HyperLogLog string value.".

(** [sdsEncodedObject], with the string. *)
Definition encoded_sds (t : strobj) : option sds := match t with StrRaw o | StrEmb o => Some o | StrInt _ => None end.

(** The tests after the one of the type. *)
Definition is_hll (t : strobj) : option bool :=
  match encoded_sds t with
  | None => Some false
  | Some o =>
      if sdslen o <? HLL_HDR_SIZE then Some false
      else
        magic ← rdn (s_buf o) 0 4;
        if negb (bool_decide (magic = chars "HYLL")) then Some false
        else
          encoding ← hdr_encoding o;
          if HLL_MAX_ENCODING <? encoding then Some false
          else if (encoding =? HLL_DENSE) && negb (sdslen o =? HLL_DENSE_SIZE) then Some false
          else Some true
  end.

(** The boolean is C_OK; the key has a value. *)
Definition isHLLObjectOrReply (key : list Z) (s : str_srv) : option (str_srv * bool) :=
  let '(s, wrong) := checkTyped (db s !! key) s in
  if wrong then Some (s, false)
  else
    t ← get_typed key s;
    ok ← is_hll t;
    if (ok : bool) then Some (s, true) else Some (addReplyError not_hll_err s, false).

Section commands.
Context `{Host}.
Context (usable : Z -> Z) (junk : nat -> Z) (use_jemalloc : bool) (buf32 : list Z) (hll_sparse_max_bytes : Z).
Context (estimate : list Z -> Z).

Definition unshare (t : strobj) : option strobj :=
  match t with
  | StrRaw o => Some (StrRaw o)
  | StrEmb o => o ← sdsnewlen usable junk (InitFrom (s_buf o)) (sdslen o); Some (StrRaw o)
  | StrInt n => '(buf, len) ← ll2string buf32 32 n; o ← sdsnewlen usable junk (InitFrom buf) len; Some (StrRaw o)
  end.
Definition dbUnshareStringValue (key : list Z) (s : str_srv) : option str_srv :=
  r ← on_key key (fun t => t ← unshare t; Some (t, tt)) s; Some r.1.

(** An operation on the string of the object. *)
Definition on_raw {A : Type} (f : sds -> option (sds * A)) (t : strobj) : option (strobj * A) :=
  match t with StrRaw o => '(o, a) ← f o; Some (StrRaw o, a) | _ => None end.

(** The value is created, or it is a HyperLogLog that is unshared; the number
    of changes, or none after an error. *)
Definition hll_lookup_or_create (key : list Z) (s : str_srv) : option (str_srv * option Z) :=
  match db s !! key with
  | None => o ← createHLLObject usable junk; s ← dbAdd key (StrRaw o) s; Some (s, Some 1)
  | Some _ =>
      '(s, ok) ← isHLLObjectOrReply key s;
      if negb ok then Some (s, None) else s ← dbUnshareStringValue key s; Some (s, Some 0)
  end.

Fixpoint pfadd_loop (key : list Z) (els : list (list Z)) (updated : Z) (s : str_srv) : option (str_srv * option Z) :=
  match els with
  | [] => Some (s, Some updated)
  | ele :: els =>
      '(s, retval) ← on_key key (on_raw (fun o => hllAdd usable junk use_jemalloc hll_sparse_max_bytes o ele)) s;
      if retval =? 1 then pfadd_loop key els (updated + 1) s
      else if retval =? -1 then Some (addReplyError invalid_hll_err s, None)
      else pfadd_loop key els updated s
  end.

Definition invalidate (key : list Z) (s : str_srv) : option str_srv :=
  r ← on_key key (on_raw (fun o => o ← HLL_INVALIDATE_CACHE o; Some (o, tt))) s; Some r.1.

Definition pfaddCommand (argv : list (list Z)) (s : str_srv) : option str_srv :=
  key ← argv !! 1%nat;
  '(s, updated) ← hll_lookup_or_create key s;
  match updated with
  | None => Some s
  | Some updated =>
      '(s, updated) ← pfadd_loop key (drop 2 argv) updated s;
      match updated with
      | None => Some s
      | Some updated =>
          if negb (updated =? 0) then
            s ← invalidate key (add_dirty updated (signalModifiedKey key s));
            Some (addReply (RInt 1) s)
          else Some (addReply (RInt 0) s)
      end
  end.

(** The HyperLogLogs of the keys are merged into [max]; the last component
    tells whether one was dense, and the result is none after an error. *)
Fixpoint merge_keys (keys : list (list Z)) (max : list Z) (use_dense : bool) (s : str_srv) : option (str_srv * option (list Z * bool)) :=
  match keys with
  | [] => Some (s, Some (max, use_dense))
  | key :: keys =>
      match db s !! key with
      | None => merge_keys keys max use_dense s
      | Some _ =>
          '(s, ok) ← isHLLObjectOrReply key s;
          if negb ok then Some (s, None)
          else
            t ← get_typed key s; o ← encoded_sds t;
            encoding ← hdr_encoding o;
            '(max, ok) ← hllMerge max o;
            if negb ok then Some (addReplyError invalid_hll_err s, None)
            else merge_keys keys max (use_dense || (encoding =? HLL_DENSE)) s
      end
  end.

Definition no_registers : list Z := repeat 0 (Z.to_nat HLL_REGISTERS).

Definition cached_card (o : sds) : option Z := bs ← rdn (s_buf o) 8 8; Some (le_dec bs).

(** The cardinality, and whether it was computed and stored in the header; or
    none for an invalid representation. *)
Definition hll_card (o : sds) : option (sds * option (Z * bool)) :=
  valid ← HLL_VALID_CACHE o;
  if (valid : bool) then card ← cached_card o; Some (o, Some (card, false))
  else
    '(card, invalid) ← hllCount estimate o;
    if (invalid : bool) then Some (o, None)
    else o ← sds_wr o 8 (le_enc 8 card); Some (o, Some (card, true)).

Definition pfcountCommand (argv : list (list Z)) (s : str_srv) : option str_srv :=
  if 2 <? zlen argv then
    '(s, max) ← merge_keys (drop 1 argv) no_registers false s;
    match max with
    | None => Some s
    | Some (max, _) => card ← hllCount_raw estimate max; Some (addReplyLongLong (i64 card) s)
    end
  else
    key ← argv !! 1%nat;
    match db s !! key with
    | None => Some (addReply (RInt 0) s)
    | Some _ =>
        '(s, ok) ← isHLLObjectOrReply key s;
        if negb ok then Some s
        else
          s ← dbUnshareStringValue key s;
          '(s, card) ← on_key key (on_raw hll_card) s;
          match card with
          | None => Some (addReplyError invalid_hll_err s)
          | Some (card, computed) =>
              let s := if (computed : bool) then add_dirty 1 (signalModifiedKey key s) else s in
              Some (addReplyLongLong (i64 card) s)
          end
    end.

(** [for (j = 0; j < HLL_REGISTERS; j++)], from register [j] on. *)
Fixpoint store_registers (max : list Z) (j : Z) (o : sds) : option sds :=
  match max with
  | [] => Some o
  | m :: max =>
      if m =? 0 then store_registers max (j + 1) o
      else
        encoding ← hdr_encoding o;
        o ← (if encoding =? HLL_DENSE then r ← hllDenseSet o j m; Some r.1
             else if encoding =? HLL_SPARSE then r ← hllSparseSet usable junk use_jemalloc hll_sparse_max_bytes o j m; Some r.1
             else Some o);
        store_registers max (j + 1) o
  end.

Definition pfmergeCommand (argv : list (list Z)) (s : str_srv) : option str_srv :=
  '(s, max) ← merge_keys (drop 1 argv) no_registers false s;
  match max with
  | None => Some s
  | Some (max, use_dense) =>
      key ← argv !! 1%nat;
      s ← (match db s !! key with
           | None => o ← createHLLObject usable junk; dbAdd key (StrRaw o) s
           | Some _ => dbUnshareStringValue key s
           end);
      '(s, ok) ← (if (use_dense : bool) then on_key key (on_raw (hllSparseToDense usable junk)) s else Some (s, true));
      if negb ok then Some (addReplyError invalid_hll_err s)
      else
        '(s, _) ← on_key key (on_raw (fun o => o ← store_registers max 0 o; Some (o, tt))) s;
        s ← invalidate key s;
        Some (addReply ROk (add_dirty 1 (signalModifiedKey key s)))
  end.
End commands.
