(* ===== verification/HllCmdThms.v ===== *)
(** The HyperLogLog commands on a map from keys to lists of registers: any
    sequence of PFADD, PFCOUNT and PFMERGE acts as its specification, whatever
    the representations the values go through. *)
From stdpp Require Import strings gmap.
From S2P Require Import Prelude Endian Strnum Bits Sds SdsThms Server Keyspace Hll HllThms HllSet HllRegs HllCmds.

(** * Specification *)

(** A string value: the registers of a HyperLogLog and whether its cardinality
    is cached, or no HyperLogLog. *)
Inductive hllval := AHll (cached : bool) (R : list Z) | ANot.
Notation pstate := (astate_of hllval).
Notation pkeys := (map_of (typed hllval)).

#[export] Instance hllval_eq_dec : EqDecision hllval.
Proof. solve_decision. Defined.

Inductive pcmd := Pfadd (key : list Z) (els : list (list Z)) | Pfcount (key : list Z) (keys : list (list Z)) | Pfmerge (key : list Z) (keys : list (list Z)).

(** The error of a key whose value is no HyperLogLog. *)
Definition perr (ad : pkeys) (key : list Z) : option string :=
  match ad !! key with Some OtherType => Some wrongtypeerr | Some (Typed ANot) => Some not_hll_err | _ => None end.
Fixpoint first_err (ad : pkeys) (keys : list (list Z)) : option string :=
  match keys with [] => None | key :: keys => match perr ad key with Some e => Some e | None => first_err ad keys end end.

(** The registers at a key: none are set when there is no key. *)
Definition regs_at (ad : pkeys) (key : list Z) : list Z := match ad !! key with Some (Typed (AHll _ R)) => R | _ => no_registers end.
Fixpoint union (ad : pkeys) (keys : list (list Z)) (M : list Z) : list Z :=
  match keys with [] => M | key :: keys => union ad keys (max_regs M (regs_at ad key)) end.

Section spec.
Context `{Host} (estimate : list Z -> Z).

Definition card_of (R : list Z) : Z := u64 (estimate (histo R)).

(** The registers after the elements and how many of them changed a register. *)
Fixpoint add_count (R : list Z) (els : list (list Z)) : list Z * Z :=
  match els with [] => (R, 0) | ele :: els => let '(R, b) := add_reg R ele in let '(R, n) := add_count R els in (R, Z.b2z b + n) end.

Definition pspec (c : pcmd) (a : pstate) : pstate :=
  let ad := adb a in
  match c with
  | Pfadd key els =>
      match perr ad key with
      | Some e => send (AErr e) a
      | None =>
          let '(R, n) := add_count (regs_at ad key) els in
          let updated := Z.b2z (bool_decide (ad !! key = None)) + n in
          if updated =? 0 then send (AInt 0) a
          else send (AInt 1) (change (<[key := Typed (AHll false R)]> ad) updated [key] a)
      end
  | Pfcount key [] =>
      match perr ad key with
      | Some e => send (AErr e) a
      | None =>
          match ad !! key with
          | Some (Typed (AHll false R)) =>
              send (AInt (i64 (card_of R))) (change (<[key := Typed (AHll (card_of R <? 2 ^ 63) R)]> ad) 1 [key] a)
          | _ => send (AInt (i64 (card_of (regs_at ad key)))) a
          end
      end
  | Pfcount key keys =>
      match first_err ad (key :: keys) with
      | Some e => send (AErr e) a
      | None => send (AInt (i64 (card_of (union ad (key :: keys) no_registers)))) a
      end
  | Pfmerge key keys =>
      match first_err ad (key :: keys) with
      | Some e => send (AErr e) a
      | None => send AOk (change (<[key := Typed (AHll false (union ad (key :: keys) no_registers))]> ad) 1 [key] a)
      end
  end.

Fixpoint pspec_all (cs : list pcmd) (a : pstate) : pstate := match cs with [] => a | c :: cs => pspec_all cs (pspec c a) end.
End spec.

Definition pcmd_ok (c : pcmd) : Prop := match c with Pfadd _ els => Forall elem_ok els | _ => True end.

(** * Values *)

Section rep.
Context `{Host} (estimate : list Z -> Z).

Definition str_rep (t : strobj) (x : hllval) : Prop :=
  match x with
  | AHll cached R => exists o rest, encoded_sds t = Some o /\ hll_holds o rest R /\ Forall reg_ok R /\ cache_valid rest = cached /\ (cached = true -> le_dec (drop 3 rest) = card_of estimate R)
  | ANot => is_hll t = Some false
  end.

Lemma hll_holds_rep o rest R : hll_holds o rest R -> exists e X, sds_rep o (hdr e rest ++ X) /\ bytes rest /\ zlen rest = 11 /\ ((e = HLL_DENSE /\ zlen X = HLL_DENSE_SIZE - 16) \/ e = HLL_SPARSE) /\
  (forall o', sds_rep o' (hdr e rest ++ X) -> hll_holds o' rest R) /\
  (forall o' rest', bytes rest' -> zlen rest' = 11 -> sds_rep o' (hdr e rest' ++ X) -> hll_holds o' rest' R).
Proof.
  intros [(c & Rs & Hb & Hz & Hrest & Hh & HzR & HR) | (ops & Rs & Hb & Hz & Hok & Hx & HzR)].
  - exists HLL_DENSE, (drop 16 c). assert (hdr HLL_DENSE rest ++ drop 16 c = c) as Ec by (rewrite <- Hh; apply take_drop).
    assert (bytes rest) as Hbr. { assert (bytes (hdr HLL_DENSE rest)) as Hbh by (rewrite <- Hh; unfold bytes in *; by apply Forall_take). unfold hdr, bytes in *. apply Forall_app in Hbh as [_ Hbh]. by apply Forall_cons in Hbh as [_ Hbh]. }
    assert (zlen (drop 16 c) = HLL_DENSE_SIZE - 16) as Hzd by (rewrite <- Ec, zlen_app, zlen_hdr in Hz by done; lia).
    rewrite Ec. split; [done |]. split; [done |]. split; [done |]. split; [left; done |]. split; [intros o' Ro; left; by exists c |].
    intros o' rest' Hb' Hz' Ro. left. exists (hdr HLL_DENSE rest' ++ drop 16 c). split; [exact Ro |].
    pose proof (zlen_hdr HLL_DENSE rest' Hz') as Hh'. split; [| split; [rewrite zlen_app, Hh', Hzd; lia | split; [done | split; [by rewrite take_app_length' by (unfold zlen in Hh'; lia) | split; [done |]]]]].
    + unfold bytes in *. apply Forall_app. split; [| by apply Forall_drop]. unfold hdr. repeat (apply Forall_cons; split; [unfold byte; vm_compute; split; congruence |]). exact Hb'.
    + intros i Hi. rewrite HR by done. f_equal. unfold reg_of. destruct (dense_place i Hi) as (H0 & _). change registers with 16. rewrite <- Ec at 1 2. rewrite <- !app_assoc, <- !Z.add_assoc.
      pose proof (zlen_hdr HLL_DENSE rest Hrest) as Hh0. rewrite <- Hh0 at 1 2. rewrite !byte_at_app_r by lia. rewrite <- Hh'. rewrite !byte_at_app_r by lia. done.
  - exists HLL_SPARSE, (encs ops). split; [done |]. split; [done |]. split; [done |]. split; [by right |]. split; [intros o' Ro; right; by exists ops |].
    intros o' rest' Hb' Hz' Ro. right. by exists ops.
Qed.

Lemma is_hll_ok t o rest R : encoded_sds t = Some o -> hll_holds o rest R -> is_hll t = Some true.
Proof.
  intros Et HR. destruct (hll_holds_rep o rest R HR) as (e & X & Rs & _ & Hz & He & _). unfold is_hll. rewrite Et. pose proof Rs as ((sl & Eb) & El & _).
  rewrite zlen_app, zlen_hdr in El by done. pose proof (zlen_nonneg X). unfold sdslen. rewrite (proj2 (Z.ltb_ge _ _)) by (change HLL_HDR_SIZE with 16; lia).
  rewrite (rep_hdr_encoding o e rest X Rs). rewrite Eb. assert (rdn ((hdr e rest ++ X) ++ 0 :: sl) 0 4 = Some (chars "HYLL")) as -> by (unfold hdr; rewrite <- !app_assoc; by apply (rdn_app [])). cbn [mbind option_bind].
  rewrite bool_decide_eq_true_2 by done. cbn [negb]. destruct He as [[-> HX] | ->]; cbn; [| done]. rewrite El. by rewrite (proj2 (Z.eqb_eq _ _)) by (change HLL_DENSE_SIZE with 12304 in *; lia).
Qed.

(** * The header *)

Lemma valid_cache_ok o rest R : hll_holds o rest R -> HLL_VALID_CACHE o = Some (cache_valid rest).
Proof.
  intros HR. destruct (hll_holds_rep o rest R HR) as (e & X & Rs & _ & Hz & _). unfold HLL_VALID_CACHE, cache_valid. change (Z.shiftl 1 7) with 128.
  rewrite (rest_split rest Hz) in Rs. assert (zlen (take 10 rest) = 10) as Hl by (unfold zlen in *; rewrite length_take; lia). set (T := take 10 rest) in *.
  assert (hdr e (T ++ [nth 10 rest 0]) ++ X = (chars "HYLL" ++ e :: T) ++ [nth 10 rest 0] ++ X) as E by (unfold hdr; rewrite <- !app_assoc; cbn [app]; by rewrite <- app_assoc). rewrite E in Rs.
  apply view_rep, view_hd in Rs. replace (zlen (chars "HYLL" ++ e :: T)) with 15 in Rs by (rewrite zlen_app, zlen_cons, Hl; done). by rewrite Rs.
Qed.

Lemma hdr_card e rest : hdr e rest = (chars "HYLL" ++ e :: take 3 rest) ++ drop 3 rest.
Proof. unfold hdr. rewrite <- app_assoc. cbn [app]. by rewrite take_drop. Qed.
Lemma zlen_hdr_card e rest : zlen rest = 11 -> zlen (chars "HYLL" ++ e :: take 3 rest) = 8 /\ zlen (drop 3 rest) = 8.
Proof. intros Hz. rewrite zlen_app, zlen_cons. unfold zlen in *. rewrite length_take, length_drop. change (length (chars "HYLL")) with 4%nat. lia. Qed.

Lemma cached_card_ok o rest R : hll_holds o rest R -> cached_card o = Some (le_dec (drop 3 rest)).
Proof.
  intros HR. destruct (hll_holds_rep o rest R HR) as (e & X & ((sl & Eb) & _) & _ & Hz & _). destruct (zlen_hdr_card e rest Hz) as [H1 H2].
  unfold cached_card. rewrite Eb, (hdr_card e rest), <- !app_assoc. rewrite app_assoc. by rewrite (rdn_app _ _ _ 8 8 H1 H2).
Qed.

Lemma set_card_ok o rest R card : hll_holds o rest R -> exists o', sds_wr o 8 (le_enc 8 card) = Some o' /\ hll_holds o' (take 3 rest ++ le_enc 8 card) R.
Proof.
  intros HR. destruct (hll_holds_rep o rest R HR) as (e & X & Rs & Hb & Hz & _ & _ & Hall). destruct (zlen_hdr_card e rest Hz) as [H1 H2].
  rewrite (hdr_card e rest), <- app_assoc in Rs. destruct (wr_rep o _ _ _ (le_enc 8 card) Rs) as (o' & E & Rs' & _); [by rewrite H2, zlen_le_enc |]. rewrite H1 in E. exists o'. split; [exact E |].
  assert (length (take 3 rest) = 3%nat) as Hl by (unfold zlen in Hz; rewrite length_take; lia).
  apply Hall; [unfold bytes in *; apply Forall_app; split; [by apply Forall_take | apply le_enc_bytes] | rewrite zlen_app, zlen_le_enc; unfold zlen; rewrite Hl; done |].
  rewrite (hdr_card e), take_app_length', drop_app_length', <- app_assoc by done. exact Rs'.
Qed.

Lemma set_card_valid rest card : zlen rest = 11 -> 0 <= card < 2 ^ 64 -> cache_valid (take 3 rest ++ le_enc 8 card) = (card <? 2 ^ 63) /\ le_dec (drop 3 (take 3 rest ++ le_enc 8 card)) = card.
Proof.
  intros Hz Hc. assert (length (take 3 rest) = 3%nat) as Hl by (unfold zlen in Hz; rewrite length_take; lia). split.
  - unfold cache_valid. rewrite app_nth2, Hl by lia. change (10 - 3)%nat with 7%nat. cbn [le_enc nth]. rewrite !Z.div_div by lia. change (256 * (256 * (256 * (256 * (256 * (256 * 256)))))) with (2 ^ 56).
    set (b := card / 2 ^ 56). assert (0 <= b <= 255 /\ (b < 128 <-> card < 2 ^ 63)) as [Hb Hb'] by (unfold b; pose proof (Z.div_mod card (2 ^ 56) ltac:(lia)); pose proof (Z.mod_pos_bound card (2 ^ 56) ltac:(lia)); lia). rewrite (Z.mod_small b) by lia.
    pose proof (range_all (fun b => Bool.eqb (Z.land b 128 =? 0) (b <? 128)) 0 255 b ltac:(vm_compute; reflexivity) Hb) as E. apply eqb_prop in E. rewrite E. apply eq_true_iff_eq. by rewrite !Z.ltb_lt.
  - rewrite drop_app_length' by done. rewrite le_dec_enc. by apply Z.mod_small.
Qed.

Lemma invalidate_ok o rest R : hll_holds o rest R -> exists o', HLL_INVALIDATE_CACHE o = Some o' /\ hll_holds o' (inval rest) R /\ cache_valid (inval rest) = false.
Proof.
  intros HR. destruct (hll_holds_rep o rest R HR) as (e & X & Rs & Hb & Hz & _ & _ & Hall). destruct (inval_ok o e rest X Rs Hz) as (o' & E & Rs'). exists o'. split; [exact E |].
  split; [| by apply inval_invalid]. apply Hall; [by apply bytes_inval | by apply zlen_inval | exact Rs'].
Qed.

Lemma hll_card_ok o R c : str_rep (StrRaw o) (AHll c R) -> exists o', hll_card estimate o = Some (o', Some (card_of estimate R, negb c)) /\
  str_rep (StrRaw o') (AHll (if c then true else card_of estimate R <? 2 ^ 63) R).
Proof.
  intros (o0 & rest & [= <-] & HR & Hr & Hc & Hcard). unfold hll_card. rewrite (valid_cache_ok o rest R HR), Hc. cbn [mbind option_bind]. destruct c.
  - rewrite (cached_card_ok o rest R HR), Hcard by done. exists o. split; [done |]. by exists o, rest.
  - rewrite (hllCount_ok estimate o rest R HR). cbn [mbind option_bind]. fold (card_of estimate R). destruct (set_card_ok o rest R (card_of estimate R) HR) as (o' & -> & HR'). exists o'. split; [done |].
    assert (zlen rest = 11) as Hz by (by destruct (hll_holds_rep o rest R HR) as (? & ? & _ & _ & ? & _)).
    destruct (set_card_valid rest (card_of estimate R) Hz ltac:(apply Z.mod_pos_bound; done)) as [Hv Hd]. eexists o', _. split; [done |]. split; [exact HR' |]. done.
Qed.

(** * Registers *)

Lemma set_reg_ok R i count : Forall reg_ok R -> reg_ok count -> Forall reg_ok (set_reg R i count).1.
Proof. intros HR Hc. unfold set_reg. repeat case_match; cbn [fst]; [by apply Forall_insert | done..]. Qed.

Lemma max_regs_ok M R : Forall reg_ok M -> Forall reg_ok R -> Forall reg_ok (max_regs M R).
Proof.
  intros HM. revert R. induction HM as [| m M Hm _ IH]; intros R HR; [apply Forall_nil_2 |]. destruct HR as [| r R Hr HR]; [apply Forall_nil_2 |].
  apply Forall_cons. split; [unfold reg_ok in *; lia | by apply IH].
Qed.

Lemma max_regs_assoc A B C : max_regs A (max_regs B C) = max_regs (max_regs A B) C.
Proof. revert B C. induction A as [| a A IH]; intros [| b B] [| c C]; try done. cbn. by rewrite IH, Z.max_assoc. Qed.
Lemma max_regs_idem A : max_regs A A = A.
Proof. induction A as [| a A IH]; [done |]. cbn. by rewrite IH, Z.max_id. Qed.
Lemma max_regs_comm A B : max_regs A B = max_regs B A.
Proof. revert B. induction A as [| a A IH]; intros [| b B]; try done. cbn. by rewrite IH, Z.max_comm. Qed.
Lemma zlen_max_regs A B : zlen A = zlen B -> zlen (max_regs A B) = zlen B.
Proof. unfold zlen. rewrite length_zip_with. lia. Qed.

Lemma no_registers_replicate : no_registers = replicate (Z.to_nat HLL_REGISTERS) 0.
Proof. unfold no_registers. generalize (Z.to_nat HLL_REGISTERS). intros n. induction n as [| n IH]; cbn; by f_equal. Qed.
Lemma no_registers_len : zlen no_registers = HLL_REGISTERS.
Proof. rewrite no_registers_replicate. unfold zlen. by rewrite length_replicate, Z2Nat.id. Qed.
Lemma no_registers_ok : Forall reg_ok no_registers.
Proof. rewrite no_registers_replicate. apply Forall_replicate. unfold reg_ok. lia. Qed.
Lemma reg_ok_nonneg R : Forall reg_ok R -> Forall (fun y => 0 <= y) R.
Proof. intros HR. eapply Forall_impl; [exact HR |]. unfold reg_ok. lia. Qed.
Lemma max_no_registers M : zlen M = HLL_REGISTERS -> Forall reg_ok M -> max_regs M no_registers = M.
Proof. intros Hz Hr. rewrite no_registers_replicate. apply max_zero; [unfold zlen in Hz; lia | by apply reg_ok_nonneg]. Qed.
End rep.

(** The list is kept folded. *)
#[local] Opaque no_registers.

(** * Commands *)

(** The value at a key; a new one has no register set, and its cardinality 0 is
    cached. *)
Definition val_at (ad : pkeys) (key : list Z) : hllval := match ad !! key with Some (Typed x) => x | _ => AHll true no_registers end.

Section commands.
Context `{Host}.
Context (usable : Z -> Z) (junk : nat -> Z) (use_jemalloc : bool) (buf32 : list Z) (hll_sparse_max_bytes : Z).
Context (estimate : list Z -> Z).
Context (Hus : forall n, 0 <= n < 2 ^ 62 -> n <= usable n < 2 ^ 63).
Context (Hmax : 32 <= hll_sparse_max_bytes < 2 ^ 60).
Context (Hest : estimate (histo no_registers) = 0).
Notation str_rep := (str_rep estimate).
Notation db_rep := (db_rep (HllCmdThms.str_rep estimate)).
Notation state_rep := (state_rep (HllCmdThms.str_rep estimate)).
Implicit Types (s : str_srv) (ad : pkeys) (a : pstate).

Lemma on_raw_key {A} key (f : sds -> option (sds * A)) s o o' x : db s !! key = Some (Typed (StrRaw o)) -> f o = Some (o', x) ->
  on_key key (on_raw f) s = Some (set_value key (Typed (StrRaw o')) s, x).
Proof. intros E Ef. unfold on_key, get_typed. rewrite E. cbn [mbind option_bind on_raw]. by rewrite Ef. Qed.

Lemma set_value_at key (v : typed strobj) s : db (set_value key v s) !! key = Some v.
Proof. apply lookup_insert_eq. Qed.
Lemma set_value_twice key (v w : typed strobj) s : set_value key v (set_value key w s) = set_value key v s.
Proof. unfold set_value. cbn [db dirty modified replies]. by rewrite insert_insert_eq. Qed.

Lemma check_ok s ad key x : db_rep (db s) ad -> ad !! key = Some x ->
  isHLLObjectOrReply key s = Some (match perr ad key with Some e => (addReplyError e s, false) | None => (s, true) end).
Proof.
  intros Hd Ea. unfold isHLLObjectOrReply, get_typed, perr. destruct (db_at _ _ _ key Hd) as [Es Ea' | t X Es Ea' Hr | Es Ea']; [congruence | | done].
  cbn [checkTyped]. rewrite Es. cbn [mbind option_bind]. destruct X as [c R |].
  - destruct Hr as (o & rest & Et & HR & _). by rewrite (is_hll_ok t o rest R Et HR).
  - cbn in Hr. by rewrite Hr.
Qed.

Lemma unshare_ok t c R : str_rep t (AHll c R) -> exists o, unshare usable junk buf32 t = Some (StrRaw o) /\ str_rep (StrRaw o) (AHll c R).
Proof.
  intros (o & rest & Et & HR & Hx). destruct t as [o1 | o1 |]; cbn in Et; [injection Et as -> | injection Et as -> | discriminate].
  - exists o. split; [done |]. by exists o, rest.
  - destruct (hll_holds_rep o rest R HR) as (e & X & Rs & _ & Hz & _ & Hsame & _). pose proof Rs as ((sl & Eb) & El & Hal & Hab & Hty).
    assert (rdn (s_buf o) 0 (s_len o) = Some (hdr e rest ++ X)) as E by (rewrite Eb; by apply (rdn_app [])).
    assert (s_len o < 2 ^ 61) as Hlt.
    { rewrite El. destruct HR as [(c0 & Rs0 & _ & Hz0 & _) | (ops & Rs0 & _ & Hz0 & Hok & Hx0 & HzR)].
      - destruct Rs0 as (_ & El0 & _). rewrite <- El, El0, Hz0. done.
      - destruct Rs0 as (_ & El0 & _). rewrite <- El, El0, zlen_app, zlen_hdr by done. pose proof (length_encs ops). subst R. pose proof (ops_bound ops Hok HzR). lia. }
    destruct (newlen_rep usable junk Hus _ _ _ E Hlt) as (o' & En & Rs'). cbn [unshare]. unfold sdslen. rewrite En. cbn [mbind option_bind]. exists o'. split; [done |]. exists o', rest. by split; [| split; [apply Hsame |]].
Qed.

Lemma unshare_key_ok s ad key c R : db_rep (db s) ad -> ad !! key = Some (Typed (AHll c R)) ->
  exists o, dbUnshareStringValue usable junk buf32 key s = Some (set_value key (Typed (StrRaw o)) s) /\ str_rep (StrRaw o) (AHll c R).
Proof.
  intros Hd Ea. destruct (db_get _ _ _ _ _ Hd Ea) as (t & Es & Hr). destruct (unshare_ok t c R Hr) as (o & E & Ho). exists o. unfold dbUnshareStringValue, on_key, get_typed. rewrite Es.
  cbn [mbind option_bind]. rewrite E. done.
Qed.

Lemma hll_create_ok : exists o, createHLLObject usable junk = Some o /\ str_rep (StrRaw o) (AHll true no_registers).
Proof.
  destruct (createHLLObject_ok usable junk Hus) as (o & E & HR). exists o. split; [exact E |]. exists o, (repeat 0 11). split; [done |]. rewrite no_registers_replicate at 1. split; [exact HR |].
  split; [exact no_registers_ok |]. split; [done |]. intros _. unfold card_of. rewrite Hest. done.
Qed.

Lemma dbAdd_ok s ad key o : db_rep (db s) ad -> ad !! key = None -> dbAdd key (StrRaw o) s = Some (set_value key (Typed (StrRaw o)) s).
Proof. intros Hd Ea. unfold dbAdd. apply (db_none _ _ _ key Hd) in Ea. by rewrite bool_decide_eq_true_2. Qed.

Lemma hll_lookup_or_create_ok s ad key : db_rep (db s) ad ->
  match perr ad key with
  | Some e => hll_lookup_or_create usable junk buf32 key s = Some (addReplyError e s, None)
  | None => exists o c, hll_lookup_or_create usable junk buf32 key s = Some (set_value key (Typed (StrRaw o)) s, Some (Z.b2z (bool_decide (ad !! key = None)))) /\
      (ad !! key = None \/ ad !! key = Some (Typed (val_at ad key))) /\ val_at ad key = AHll c (regs_at ad key) /\ str_rep (StrRaw o) (val_at ad key)
  end.
Proof.
  intros Hd. unfold hll_lookup_or_create, val_at, regs_at, perr. destruct (ad !! key) as [x |] eqn:Ea.
  - assert (exists v, db s !! key = Some v) as [v Ev] by (destruct (db s !! key) eqn:Ev; [eauto | apply (db_none _ _ _ key Hd) in Ev; congruence]). rewrite Ev, (check_ok s ad key x Hd Ea). cbn [mbind option_bind].
    unfold perr. rewrite Ea. destruct x as [[c R |] |]; [| done..]. cbn [negb]. destruct (unshare_key_ok s ad key c R Hd Ea) as (o & -> & Ho). cbn [mbind option_bind]. exists o, c. rewrite bool_decide_eq_false_2 by done. do 3 (split; [by auto |]). exact Ho.
  - pose proof Ea as Es. apply (db_none _ _ _ key Hd) in Es. rewrite Es. destruct hll_create_ok as (o & -> & Ho). cbn [mbind option_bind]. rewrite (dbAdd_ok s ad key o Hd Ea). cbn [mbind option_bind]. exists o, true. rewrite bool_decide_eq_true_2 by done. do 3 (split; [by auto |]). exact Ho.
Qed.

(** ** PFADD *)

Lemma add_reg_same R ele : (add_reg R ele).2 = false -> (add_reg R ele).1 = R.
Proof. unfold add_reg, set_reg. repeat case_match; done. Qed.
Lemma add_count_nonneg els : forall R, 0 <= (add_count R els).2.
Proof. induction els as [| e els IH]; intros R; cbn [add_count]; [done |]. destruct (add_reg R e) as [R1 b]. specialize (IH R1). destruct (add_count R1 els). cbn [snd] in *. destruct b; cbn; lia. Qed.

Lemma pfadd_loop_ok key els : forall s o rest R u, Forall elem_ok els -> db s !! key = Some (Typed (StrRaw o)) -> hll_holds o rest R -> Forall reg_ok R ->
  exists o' rest', pfadd_loop usable junk use_jemalloc hll_sparse_max_bytes key els u s = Some (set_value key (Typed (StrRaw o')) s, Some (u + (add_count R els).2)) /\
    hll_holds o' rest' (add_count R els).1 /\ Forall reg_ok (add_count R els).1 /\ ((add_count R els).2 = 0 -> rest' = rest /\ (add_count R els).1 = R).
Proof.
  induction els as [| ele els IH]; intros s o rest R u Hels Es HR Hr; cbn [pfadd_loop add_count].
  - exists o, rest. rewrite Z.add_0_r. unfold set_value. rewrite insert_id by done. destruct s. done.
  - apply Forall_cons in Hels as [He Hels]. destruct (hllAdd_ok usable junk use_jemalloc hll_sparse_max_bytes Hus Hmax o rest R ele HR He) as (o1 & rest1 & E & Hrest & HR1).
    rewrite (on_raw_key key _ s o o1 _ Es E). cbn [mbind option_bind]. pose proof (add_reg_same R ele) as Hsame.
    assert (Forall reg_ok (add_reg R ele).1) as Hr1 by (destruct (pat_ok ele He) as (_ & Hc & _); apply set_reg_ok; [done | unfold reg_ok; lia]).
    destruct (add_reg R ele) as [R1 b]. cbn [fst snd] in *.
    destruct (IH (set_value key (Typed (StrRaw o1)) s) o1 rest1 R1 (u + Z.b2z b) Hels (set_value_at _ _ _) HR1 Hr1) as (o2 & rest2 & E2 & HR2 & Hr2 & H0). rewrite set_value_twice in E2.
    pose proof (add_count_nonneg els R1) as Hnn. exists o2, rest2. destruct (add_count R1 els) as [R2 n]. cbn [fst snd] in *. split; [| split; [exact HR2 | split; [exact Hr2 |]]].
    + destruct b; cbn [Z.b2z] in *; [change (1 =? 1) with true | change (0 =? 1) with false; change (0 =? -1) with false; rewrite Z.add_0_r in E2]; cbv iota; rewrite E2; do 3 f_equal; lia.
    + intros E0. destruct b; cbn [Z.b2z] in *; [lia |]. destruct (H0 ltac:(lia)) as [-> ->]. rewrite Hsame by done. destruct Hrest as [-> | [[=] _]]. done.
Qed.

Lemma pfadd_ok c s a key els : state_rep s a -> Forall elem_ok els ->
  exists s', pfaddCommand usable junk use_jemalloc buf32 hll_sparse_max_bytes (c :: key :: els) s = Some s' /\ state_rep s' (pspec estimate (Pfadd key els) a).
Proof.
  intros HR Hels. pose proof HR as (Hd & _). unfold pfaddCommand. cbn [lookup list_lookup mbind option_bind drop]. rewrite drop_0. cbn [pspec].
  pose proof (hll_lookup_or_create_ok s (adb a) key Hd) as Hl. destruct (perr (adb a) key) as [e |].
  { rewrite Hl. cbn [mbind option_bind]. eexists. split; [reflexivity | by apply state_err]. }
  destruct Hl as (o & cch & -> & Hkey & Ev & Hr). rewrite Ev in Hkey, Hr. destruct Hr as (o0 & rest & [= <-] & Ho & Hr & Hc & Hcard). cbn [mbind option_bind].
  destruct (pfadd_loop_ok key els (set_value key (Typed (StrRaw o)) s) o rest (regs_at (adb a) key) (Z.b2z (bool_decide (adb a !! key = None))) Hels (set_value_at _ _ _) Ho Hr) as (o1 & rest1 & -> & Ho1 & Hr1 & H0).
  pose proof (add_count_nonneg els (regs_at (adb a) key)) as Hnn. rewrite set_value_twice. cbn [mbind option_bind]. destruct (add_count (regs_at (adb a) key) els) as [R1 n]. cbn [fst snd] in *.
  destruct (Z.eqb_spec (Z.b2z (bool_decide (adb a !! key = None)) + n) 0) as [E0 | E0]; cbn [negb].
  - eexists. split; [reflexivity |]. destruct (bool_decide_reflect (adb a !! key = None)) as [| Hex]; cbn [Z.b2z] in E0; [lia |]. destruct (H0 ltac:(lia)) as [-> ->].
    destruct Hkey as [| Ea]; [done |]. apply state_send; [| constructor]. apply (state_db _ s a _ HR). eapply db_keep; [exact Hd | exact Ea |].
    exists o1, rest. done.
  - destruct (invalidate_ok o1 rest1 R1 Ho1) as (o2 & Ei & Ho2 & Hc2). unfold invalidate.
    erewrite (on_raw_key key _ _ o1 o2 tt); [| apply set_value_at | by rewrite Ei]. cbn [mbind option_bind]. eexists. split; [reflexivity |].
    apply state_send; [| constructor]. unfold set_value, add_dirty, signalModifiedKey. cbn [db dirty modified replies fst]. rewrite insert_insert_eq. apply state_change; [exact HR |].
    apply db_insert; [exact Hd |]. exists o2, (inval rest1). done.
Qed.

(** ** Merging keys *)

(** Every list of registers in the database is complete. *)
Lemma regs_at_ok s ad key : db_rep (db s) ad -> zlen (regs_at ad key) = HLL_REGISTERS /\ Forall reg_ok (regs_at ad key).
Proof.
  intros Hd. unfold regs_at. destruct (ad !! key) as [[[c R |] |] |] eqn:Ea; try (split; [exact no_registers_len | exact no_registers_ok]).
  destruct (db_get _ _ _ _ _ Hd Ea) as (t & _ & o & rest & _ & HR & Hr & _). split; [by eapply holds_zlen | done].
Qed.

Lemma union_ok s ad keys : db_rep (db s) ad -> forall M, zlen M = HLL_REGISTERS -> Forall reg_ok M -> zlen (union ad keys M) = HLL_REGISTERS /\ Forall reg_ok (union ad keys M).
Proof.
  intros Hd. induction keys as [| key keys IH]; intros M Hz Hr; cbn [union]; [done |]. destruct (regs_at_ok s ad key Hd) as [Hz' Hr']. apply IH; [by rewrite zlen_max_regs by congruence | by apply max_regs_ok].
Qed.

Lemma merge_keys_ok s ad keys : db_rep (db s) ad -> forall M dense, zlen M = HLL_REGISTERS -> Forall reg_ok M ->
  match first_err ad keys with
  | Some e => merge_keys keys M dense s = Some (addReplyError e s, None)
  | None => exists dense', merge_keys keys M dense s = Some (s, Some (union ad keys M, dense'))
  end.
Proof.
  intros Hd. induction keys as [| key keys IH]; intros M dense Hz Hr; cbn [first_err merge_keys union]; [by exists dense |].
  destruct (regs_at_ok s ad key Hd) as [Hz' Hr'].
  assert (zlen (max_regs M (regs_at ad key)) = HLL_REGISTERS /\ Forall reg_ok (max_regs M (regs_at ad key))) as [Hzm Hrm] by (split; [by rewrite zlen_max_regs by congruence | by apply max_regs_ok]).
  pose proof (fun dense => IH (max_regs M (regs_at ad key)) dense Hzm Hrm) as IH'. clear IH. unfold perr at 1.
  destruct (db_at _ _ _ key Hd) as [Es Ea | t X Es Ea HX | Es Ea].
  - assert (max_regs M (regs_at ad key) = M) as Em by (unfold regs_at; rewrite Ea; by apply max_no_registers). rewrite Em in *. apply IH'.
  - rewrite (check_ok s ad key _ Hd Ea). unfold perr. rewrite Ea. destruct X as [c R |]; cbn [mbind option_bind negb]; [| done]. destruct HX as (o & rest & Et & HR & _). unfold get_typed. rewrite Es. cbn [mbind option_bind].
    rewrite Et. cbn [mbind option_bind]. assert (exists e, hdr_encoding o = Some e) as [e ->] by (destruct (holds_encoding _ _ _ HR) as [[-> _] | [-> _]]; eauto). cbn [mbind option_bind].
    rewrite (hllMerge_ok o rest R M HR Hz (reg_ok_nonneg M Hr)). cbn [mbind option_bind negb]. assert (regs_at ad key = R) as ER by (unfold regs_at; by rewrite Ea). rewrite ER in *. apply IH'.
  - by rewrite (check_ok s ad key _ Hd Ea); unfold perr; rewrite Ea.
Qed.

(** ** PFCOUNT *)

Lemma pfcount_many_ok c s a keys : state_rep s a -> (2 <= length keys)%nat ->
  exists s', pfcountCommand usable junk buf32 estimate (c :: keys) s = Some s' /\
    state_rep s' (match first_err (adb a) keys with Some e => send (AErr e) a | None => send (AInt (i64 (card_of estimate (union (adb a) keys no_registers)))) a end).
Proof.
  intros HR Hl. pose proof HR as (Hd & _). unfold pfcountCommand. rewrite zlen_cons. rewrite (proj2 (Z.ltb_lt _ _)) by (unfold zlen; lia). cbn [drop]. rewrite drop_0.
  pose proof (merge_keys_ok s (adb a) keys Hd no_registers false no_registers_len no_registers_ok) as Hm. destruct (first_err (adb a) keys) as [e |].
  - rewrite Hm. cbn [mbind option_bind]. eexists. split; [reflexivity | by apply state_err].
  - destruct Hm as (dense & ->). cbn [mbind option_bind]. destruct (union_ok s (adb a) keys Hd no_registers no_registers_len no_registers_ok) as [Hz Hr].
    rewrite (hllCount_raw_ok estimate _ Hz Hr). cbn [mbind option_bind]. eexists. split; [reflexivity | by apply state_int].
Qed.

Lemma hll_card_empty : card_of estimate no_registers = 0.
Proof. unfold card_of. by rewrite Hest. Qed.

Lemma pfcount_one_ok c s a key : state_rep s a -> exists s', pfcountCommand usable junk buf32 estimate [c; key] s = Some s' /\ state_rep s' (pspec estimate (Pfcount key []) a).
Proof.
  intros HR. pose proof HR as (Hd & _). unfold pfcountCommand. change (2 <? zlen [c; key]) with false. cbv iota. cbn [lookup list_lookup mbind option_bind pspec]. unfold perr.
  destruct (adb a !! key) as [x |] eqn:Ea.
  - assert (exists v, db s !! key = Some v) as [v Ev] by (destruct (db s !! key) eqn:Ev; [eauto | apply (db_none _ _ _ key Hd) in Ev; congruence]). rewrite Ev, (check_ok s _ key x Hd Ea). cbn [mbind option_bind]. unfold perr. rewrite Ea.
    destruct x as [[cch R |] |]; [| eexists; split; [reflexivity | by apply state_err] ..]. cbn [negb].
    destruct (unshare_key_ok s _ key cch R Hd Ea) as (o & -> & Ho). cbn [mbind option_bind]. destruct (hll_card_ok estimate o R cch Ho) as (o' & Ec & Ho').
    rewrite (on_raw_key key _ _ o o' _ (set_value_at _ _ _) Ec), set_value_twice. cbn [mbind option_bind]. eexists. split; [reflexivity |]. destruct cch; cbn [negb].
    + assert (regs_at (adb a) key = R) as -> by (unfold regs_at; by rewrite Ea). apply state_int, (state_db _ s a _ HR). by eapply db_keep.
    + apply state_int. apply (state_change _ s a _ _ 1 [key] HR). by apply db_insert.
  - pose proof Ea as Es. apply (db_none _ _ _ key Hd) in Es. rewrite Es. eexists. split; [reflexivity |]. assert (regs_at (adb a) key = no_registers) as -> by (unfold regs_at; by rewrite Ea). rewrite hll_card_empty. by apply state_int.
Qed.

(** ** PFMERGE *)

Lemma to_dense_any o rest R : hll_holds o rest R -> exists o', hllSparseToDense usable junk o = Some (o', true) /\ hll_holds o' rest R.
Proof.
  intros HR. destruct (holds_encoding _ _ _ HR) as [[E Hd] | [E Hs]].
  - exists o. unfold hllSparseToDense. by rewrite E.
  - destruct (hllSparseToDense_ok usable junk Hus o rest R Hs) as (o' & E' & Hd). exists o'. split; [done | by left].
Qed.

Lemma set_any o rest R j m : hll_holds o rest R -> 0 <= j < HLL_REGISTERS -> 1 <= m < 64 ->
  exists encoding o' rest', hdr_encoding o = Some encoding /\
    (if encoding =? HLL_DENSE then r ← hllDenseSet o j m; Some r.1
     else if encoding =? HLL_SPARSE then r ← hllSparseSet usable junk use_jemalloc hll_sparse_max_bytes o j m; Some r.1 else Some o) = Some o' /\ hll_holds o' rest' (set_reg R j m).1.
Proof.
  intros HR Hj Hm. destruct (holds_encoding _ _ _ HR) as [[E Hd] | [E Hs]].
  - destruct (hllDenseSet_ok o rest R j m Hd Hj ltac:(lia)) as (o' & Es & Hd'). exists HLL_DENSE, o', rest. change (HLL_DENSE =? HLL_DENSE) with true. cbv iota. rewrite Es. split; [done |]. split; [done | by left].
  - destruct (hllSparseSet_ok usable junk use_jemalloc hll_sparse_max_bytes Hus Hmax o rest R j m Hs Hj Hm) as (o' & rest' & Es & _ & Hs'). exists HLL_SPARSE, o', rest'.
    change (HLL_SPARSE =? HLL_DENSE) with false. change (HLL_SPARSE =? HLL_SPARSE) with true. cbv iota. rewrite Es. done.
Qed.

Lemma store_registers_ok M : forall o rest X Y, hll_holds o rest (X ++ Y) -> zlen M = zlen Y -> Forall reg_ok M -> Forall reg_ok Y ->
  exists o' rest', store_registers usable junk use_jemalloc hll_sparse_max_bytes M (zlen X) o = Some o' /\ hll_holds o' rest' (X ++ max_regs Y M).
Proof.
  induction M as [| m M IH]; intros o rest X Y HR Hz HM HY.
  - destruct Y as [| y Y]; [| rewrite zlen_cons, zlen_nil in Hz; pose proof (zlen_nonneg Y); lia]. by exists o, rest.
  - destruct Y as [| y Y]; [rewrite zlen_cons, zlen_nil in Hz; pose proof (zlen_nonneg M); lia |]. rewrite !zlen_cons in Hz. apply Forall_cons in HM as [Hm HM]. apply Forall_cons in HY as [Hy HY]. cbn [store_registers].
    pose proof (holds_zlen _ _ _ HR) as HzR. rewrite zlen_app, zlen_cons in HzR. pose proof (zlen_nonneg X). pose proof (zlen_nonneg Y).
    assert (forall o1 rest1, hll_holds o1 rest1 ((X ++ [Z.max y m]) ++ Y) -> exists o' rest', store_registers usable junk use_jemalloc hll_sparse_max_bytes M (zlen X + 1) o1 = Some o' /\
      hll_holds o' rest' (X ++ max_regs (y :: Y) (m :: M))) as Hnext.
    { intros o1 rest1 Ho1. destruct (IH o1 rest1 (X ++ [Z.max y m]) Y Ho1 ltac:(lia) HM HY) as (o' & rest' & E & HR'). rewrite zlen_app in E. change (zlen [_]) with 1 in E. exists o', rest'. split; [done |]. by rewrite <- app_assoc in HR'. }
    unfold reg_ok in *. destruct (Z.eqb_spec m 0) as [-> | Hne].
    + apply (Hnext o rest). rewrite Z.max_l, <- app_assoc by lia. exact HR.
    + destruct (set_any o rest _ (zlen X) m HR ltac:(lia) ltac:(lia)) as (e & o1 & rest1 & -> & E & HR1). cbn [mbind option_bind]. unfold mbind, option_bind in E |- *. rewrite E. apply (Hnext o1 rest1).
      assert ((set_reg (X ++ y :: Y) (zlen X) m).1 = (X ++ [Z.max y m]) ++ Y) as Es; [| by rewrite Es in HR1].
      unfold set_reg, zlen. rewrite Nat2Z.id, lookup_app_r, Nat.sub_diag by lia. cbn [lookup list_lookup]. rewrite <- app_assoc. cbn [app].
      destruct (Z.ltb_spec y m); cbn [fst]; [rewrite Z.max_r by lia; by rewrite insert_app_r_alt, Nat.sub_diag by lia | by rewrite Z.max_l by lia].
Qed.

Lemma union_max ad keys : forall A M, max_regs A (union ad keys M) = union ad keys (max_regs A M).
Proof. induction keys as [| key keys IH]; intros A M; cbn [union]; [done |]. by rewrite IH, max_regs_assoc. Qed.

Lemma union_absorb ad key keys M : max_regs (regs_at ad key) M = regs_at ad key -> max_regs (regs_at ad key) (union ad (key :: keys) M) = union ad (key :: keys) M.
Proof. intros E. cbn [union]. by rewrite union_max, (max_regs_comm M), E, max_regs_idem. Qed.

Lemma pfmerge_ok c s a key keys : state_rep s a -> exists s', pfmergeCommand usable junk use_jemalloc buf32 hll_sparse_max_bytes (c :: key :: keys) s = Some s' /\ state_rep s' (pspec estimate (Pfmerge key keys) a).
Proof.
  intros HR. pose proof HR as (Hd & _). cbn [pspec]. remember (key :: keys) as ks eqn:Eks. assert (ks !! 0%nat = Some key) as Hk by (by rewrite Eks). unfold pfmergeCommand. cbn [drop]. rewrite drop_0.
  pose proof (merge_keys_ok s (adb a) ks Hd no_registers false no_registers_len no_registers_ok) as Hm. destruct (first_err (adb a) ks) as [e |] eqn:Ee.
  { rewrite Hm. cbn [mbind option_bind]. eexists. split; [reflexivity | by apply state_err]. }
  destruct Hm as (dense & ->). change ((c :: ks) !! 1%nat) with (ks !! 0%nat). rewrite Hk. cbn [mbind option_bind].
  destruct (union_ok s (adb a) ks Hd no_registers no_registers_len no_registers_ok) as [HzU HrU]. destruct (regs_at_ok s (adb a) key Hd) as [HzK HrK].
  assert (max_regs (regs_at (adb a) key) (union (adb a) ks no_registers) = union (adb a) ks no_registers) as HU.
  { rewrite Eks. apply union_absorb. by apply max_no_registers. }
  set (U := union (adb a) ks no_registers) in *. clearbody U.
  assert (exists o rest, match db s !! key with None => o ← createHLLObject usable junk; dbAdd key (StrRaw o) s | Some _ => dbUnshareStringValue usable junk buf32 key s end = Some (set_value key (Typed (StrRaw o)) s) /\
    hll_holds o rest (regs_at (adb a) key)) as (o & rest & -> & Ho).
  { rewrite Eks in Ee. cbn [first_err] in Ee. unfold perr in Ee. unfold regs_at. destruct (adb a !! key) as [x |] eqn:Ea.
    - destruct x as [[cch R |] |]; [| discriminate Ee ..]. destruct (db_get _ _ _ _ _ Hd Ea) as (t & -> & _). destruct (unshare_key_ok s _ key cch R Hd Ea) as (o & -> & o0 & rest & [= <-] & HRo & _). by exists o, rest.
    - pose proof Ea as Es. apply (db_none _ _ _ key Hd) in Es. rewrite Es. destruct hll_create_ok as (o & -> & o0 & rest & [= <-] & HRo & _). cbn [mbind option_bind]. rewrite (dbAdd_ok s _ key o Hd Ea). by exists o, rest. }
  cbn [mbind option_bind].
  assert (exists o1 rest1, (if dense then on_key key (on_raw (hllSparseToDense usable junk)) (set_value key (Typed (StrRaw o)) s) else Some (set_value key (Typed (StrRaw o)) s, true)) =
    Some (set_value key (Typed (StrRaw o1)) s, true) /\ hll_holds o1 rest1 (regs_at (adb a) key)) as (o1 & rest1 & -> & Ho1).
  { destruct dense; [| by exists o, rest]. destruct (to_dense_any o rest _ Ho) as (o1 & E1 & Ho1). exists o1, rest. by rewrite (on_raw_key key _ _ o o1 _ (set_value_at _ _ _) E1), set_value_twice. }
  cbn [mbind option_bind negb].
  destruct (store_registers_ok U o1 rest1 [] (regs_at (adb a) key) Ho1 ltac:(congruence) HrU HrK) as (o2 & rest2 & E2 & Ho2). cbn [app] in Ho2. rewrite HU in Ho2. change (zlen []) with 0 in E2.
  erewrite (on_raw_key key _ _ o1 o2 tt); [| apply set_value_at | by rewrite E2]. rewrite set_value_twice. cbn [mbind option_bind].
  destruct (invalidate_ok o2 rest2 U Ho2) as (o3 & Ei & Ho3 & Hc3). unfold invalidate.
  erewrite (on_raw_key key _ _ o2 o3 tt); [| apply set_value_at | by rewrite Ei]. rewrite set_value_twice. cbn [mbind option_bind fst]. eexists. split; [reflexivity |].
  apply (state_send _ (Srv (<[key := Typed (StrRaw o3)]> (db s)) (dirty s + 1) (modified s ++ [key]) (replies s))); [| constructor]. apply state_change; [exact HR |].
  apply db_insert; [exact Hd |]. by exists o3, (inval rest2).
Qed.
End commands.

(** * Sequences of commands *)

Definition run_pcmd `{Host} (usable : Z -> Z) (junk : nat -> Z) (use_jemalloc : bool) (buf32 : list Z) (hll_sparse_max_bytes : Z) (estimate : list Z -> Z) (c : pcmd) (s : str_srv) : option str_srv :=
  match c with
  | Pfadd key els => pfaddCommand usable junk use_jemalloc buf32 hll_sparse_max_bytes (chars "pfadd" :: key :: els) s
  | Pfcount key keys => pfcountCommand usable junk buf32 estimate (chars "pfcount" :: key :: keys) s
  | Pfmerge key keys => pfmergeCommand usable junk use_jemalloc buf32 hll_sparse_max_bytes (chars "pfmerge" :: key :: keys) s
  end.
Fixpoint run_pcmds `{Host} (usable : Z -> Z) (junk : nat -> Z) (use_jemalloc : bool) (buf32 : list Z) (hll_sparse_max_bytes : Z) (estimate : list Z -> Z) (cs : list pcmd) (s : str_srv) : option str_srv :=
  match cs with
  | [] => Some s
  | c :: cs => s ← run_pcmd usable junk use_jemalloc buf32 hll_sparse_max_bytes estimate c s; run_pcmds usable junk use_jemalloc buf32 hll_sparse_max_bytes estimate cs s
  end.

(** C20: Any sequence of PFADD, PFCOUNT and PFMERGE runs to its end and acts as
    its specification on a map from keys to lists of 16384 registers.  PFADD
    raises the registers of its elements and replies 1 exactly when a register
    grew or the key was created; PFCOUNT of a key is the estimate for its
    registers, cached or not, and of several keys that for the register by
    register maximum; PFMERGE stores that maximum.  A cached cardinality is
    always that of the registers, whatever representation (sparse, dense,
    embedded string) a value has; a key of another type or with a string that
    is no HyperLogLog gives the error and changes nothing.  The estimate is any
    function that maps the histogram of empty registers to 0, and
    hll-sparse-max-bytes is at least 32. *)
Theorem hll_commands_refine `{Host} (usable : Z -> Z) (junk : nat -> Z) (use_jemalloc : bool) (buf32 : list Z) (hll_sparse_max_bytes : Z) (estimate : list Z -> Z)
    (Hus : forall n, 0 <= n < 2 ^ 62 -> n <= usable n < 2 ^ 63) (Hmax : 32 <= hll_sparse_max_bytes < 2 ^ 60) (Hest : estimate (histo no_registers) = 0)
    (cs : list pcmd) (s : str_srv) (a : pstate) (HR : state_rep (str_rep estimate) s a) (Hok : Forall pcmd_ok cs) :
  exists s' : str_srv, run_pcmds usable junk use_jemalloc buf32 hll_sparse_max_bytes estimate cs s = Some s' /\ state_rep (str_rep estimate) s' (pspec_all estimate cs a).
Proof.
  revert s a HR. induction Hok as [| c cs Hc _ IH]; intros s a HR; cbn [run_pcmds pspec_all]; [by exists s |].
  assert (exists s1, run_pcmd usable junk use_jemalloc buf32 hll_sparse_max_bytes estimate c s = Some s1 /\ state_rep (str_rep estimate) s1 (pspec estimate c a)) as (s1 & -> & HR1).
  { destruct c as [key els | key keys | key keys]; cbn [run_pcmd pcmd_ok] in *; [by apply pfadd_ok | | by apply pfmerge_ok]. destruct keys as [| k keys]; [by apply pfcount_one_ok |].
    apply pfcount_many_ok; [done | cbn; lia]. }
  cbn [mbind option_bind]. by apply IH.
Qed.

(** From the empty database; the estimate counts the registers that are set. *)
Definition set_registers (h : list Z) : Z := 16384 - nth 0 h 0.
Definition ex_pcmds : list pcmd :=
  [Pfadd (chars "p") [chars "a"; chars "b"; chars "a"]; Pfcount (chars "p") []; Pfcount (chars "p") []; Pfadd (chars "p") [chars "b"];
   Pfadd (chars "q") [chars "b"; chars "c"]; Pfcount (chars "p") [chars "q"; chars "none"]; Pfmerge (chars "r") [chars "p"; chars "q"]; Pfcount (chars "r") []].

Example ex_pcmds_replies :
  replies <$> run_pcmds (H := false) (fun n => n) (fun _ => 0) true (replicate 32 0) 3000 set_registers ex_pcmds empty_srv = Some [RInt 1; RInt 2; RInt 2; RInt 0; RInt 1; RInt 3; ROk; RInt 3].
Proof. vm_compute. reflexivity. Qed.

Lemma hll_commands_refine_witness :
  Forall pcmd_ok ex_pcmds /\ exists s' : str_srv, run_pcmds (H := false) (fun n => n) (fun _ => 0) true (replicate 32 0) 3000 set_registers ex_pcmds empty_srv = Some s' /\
    state_rep (str_rep set_registers) s' (pspec_all (H := false) set_registers ex_pcmds empty_state).
Proof.
  assert (Forall pcmd_ok ex_pcmds) as Hok by (repeat constructor). split; [exact Hok |].
  exact (hll_commands_refine (H := false) (fun n => n) (fun _ => 0) true (replicate 32 0) 3000 set_registers ltac:(intros n Hn; lia) ltac:(lia) ltac:(vm_compute; reflexivity)
    ex_pcmds empty_srv empty_state (empty_state_rep _) Hok).
Defined.
