(* ===== verification/SetType.v ===== *)
(** t_set.c, the set data type: a set of strings kept as an integer set, a
    listpack or a hash table, and its conversions from one to another.

    An element is a string or an integer, as in the pairs [(str, len)] and
    [llval] of the code; whether a string is an sds (which only saves copies)
    is left out, and so are the release of memory and the reference counts.
    The hash function is a parameter, and so are the configuration, the content
    of fresh memory ([junk]), what the stack holds where the buffer for printed
    integers is ([llbuf]) and the addresses of the tables of a hash table. *)
From stdpp Require Import gmap.
From S2P Require Import Prelude Endian Strnum Intset Listpack Dict DictIter Element.

(** ** The hash table of a set (server.c) *)

Section dicttype.
Context (dictSdsHash : list Z -> Z).

Definition setDictType : dictType (list Z) unit :=
  DictType (list Z) unit dictSdsHash id id dictSdsKeyCompare (fun _ _ _ => true) true true (fun _ => true) 0.
End dicttype.

(** ** Sets *)

Inductive setobj := SIntset (iset : intset) | SListpack (lp : list Z) | SHash (ht : dict (list Z) unit).
Definition enc_of (set : setobj) : setenc :=
  match set with SIntset _ => OBJ_ENCODING_INTSET | SListpack _ => OBJ_ENCODING_LISTPACK | SHash _ => OBJ_ENCODING_HT end.

Inductive setTypeIterator := ItHash (di : dictIterator (list Z) unit) | ItIntset (ii : Z) | ItListpack (lpi : option Z).

Section set_type.
Context `{Host} (dictSdsHash : list Z -> Z) (resize : dictResizeEnable) (addr : bool -> Z) (junk : nat -> Z) (llbuf : list Z).
Context (set_max_intset_entries set_max_listpack_entries set_max_listpack_value : Z).
Notation t := (setDictType dictSdsHash).

Definition createSetObject : setobj := SHash dictCreate.
Definition createIntsetObject : setobj := SIntset intsetNew.
Definition createSetListpackObject : option setobj := lp ← lpNew junk 0; Some (SListpack lp).

(** [lpLength] may write the number of entries it has counted. *)
Definition setTypeSize (subject : setobj) : option (setobj * Z) :=
  match subject with
  | SHash d => Some (subject, dictSize d)
  | SIntset iset => Some (subject, intsetLen iset)
  | SListpack lp => '(n, lp) ← lpLength lp; Some (SListpack lp, n)
  end.

(** ** Iteration *)

Definition setTypeInitIterator (subject : setobj) : setTypeIterator :=
  match subject with
  | SHash _ => ItHash (dictGetIterator 0)
  | SIntset _ => ItIntset 0
  | SListpack _ => ItListpack None
  end.

Definition setTypeReleaseIterator (subject : setobj) (si : setTypeIterator) : option unit :=
  match subject, si with
  | SHash d, ItHash di => _ ← dictReleaseIterator addr di d; Some tt
  | _, _ => Some tt
  end.

(** The next element, or none at the end (-1).  An unsafe iterator does not
    change the dictionary. *)
Definition setTypeNext (subject : setobj) (si : setTypeIterator) : option (setTypeIterator * option setelem) :=
  match subject, si with
  | SHash d, ItHash di =>
      r ← dictNext addr d di;
      match r with
      | (_, di, None) => Some (ItHash di, None)
      | (_, di, Some de) => str ← dictGetKey de; Some (ItHash di, Some (ElStr str))
      end
  | SIntset iset, ItIntset ii =>
      v ← intsetGet iset (u32 ii);
      Some (ItIntset (i32 (ii + 1)), option_map ElInt v)
  | SListpack lp, ItListpack lpi =>
      lpi ← (match lpi with None => lpFirst lp | Some p => lpNext lp p end : option (option Z));
      match lpi with
      | None => Some (si, None)
      | Some p =>
          v ← lpGetValue lp p;
          e ← (match v with
               | LpInt val => Some (ElInt val)
               | LpStr off count => str ← rdn lp off count; Some (ElStr str)
               | LpBuf s => Some (ElStr s)
               end : option setelem);
          Some (ItListpack (Some p), Some e)
      end
  | _, _ => None
  end.

Definition setTypeNextObject (subject : setobj) (si : setTypeIterator) : option (setTypeIterator * option (list Z)) :=
  '(si, e) ← setTypeNext subject si;
  match e with
  | None => Some (si, None)
  | Some e => str ← elem_text llbuf e; Some (si, Some str)
  end.

(** [while (setTypeNext(si,...) != -1)] over a set that the body, which can
    stop the loop, leaves alone; [subject] gives the set in the current state. *)
Fixpoint set_each {S} (fuel : nat) (subject : S -> option setobj) (si : setTypeIterator)
  (body : setelem -> S -> option (S * bool)) (s : S) : option (setTypeIterator * S) :=
  match fuel with
  | O => None
  | Datatypes.S fuel =>
      set ← subject s;
      '(si, e) ← setTypeNext set si;
      match e with
      | None => Some (si, s)
      | Some e =>
          '(s, stop) ← body e s;
          if (stop : bool) then Some (si, s) else set_each fuel subject si body s
      end
  end.

(** A bound of the number of turns. *)
Definition set_turns (set : setobj) : nat :=
  match set with
  | SHash d => S (Z.to_nat (dictSize d))
  | SIntset iset => S (Z.to_nat (intsetLen iset))
  | SListpack lp => length lp
  end.

(** A whole iteration, from the iterator's creation to its release. *)
Definition set_iterate {S} (subject : S -> option setobj) (body : setelem -> S -> option (S * bool)) (s : S) : option S :=
  set ← subject s;
  '(si, s) ← set_each (set_turns set) subject (setTypeInitIterator set) body s;
  set ← subject s;
  _ ← setTypeReleaseIterator set si;
  Some s.

(** ** Conversion *)

(** [dictAdd] of a key that must be new. *)
Definition add_new (d : dict (list Z) unit) (key : list Z) : option (dict (list Z) unit) :=
  '(d, ok) ← dictAdd t resize d key tt;
  _ ← assert_ ok;
  Some d.

(** The boolean is C_OK; [malloc_ok] is the result of the allocation that
    [dictTryExpand] tries. *)
Definition setTypeConvertAndExpand (setobj_ : setobj) (enc : setenc) (cap : Z) (panic malloc_ok : bool) : option (setobj * bool) :=
  _ ← assert_ (negb (bool_decide (enc_of setobj_ = enc)));
  match enc with
  | OBJ_ENCODING_HT =>
      if negb panic && negb malloc_ok then Some (setobj_, false)
      else
        let d := (dictExpand dictCreate cap).1 in
        d ← set_iterate (fun _ => Some setobj_) (fun e d => element ← elem_text llbuf e; d ← add_new d element; Some (d, false)) d;
        Some (SHash d, true)
  | OBJ_ENCODING_LISTPACK =>
      estcap ← (match setobj_ with
                | SIntset iset =>
                    if 0 <? intsetLen iset then
                      v1 ← intsetMin iset; v2 ← intsetMax iset;
                      Some (Z.max (lpEstimateBytesRepeatedInteger v1 cap) (lpEstimateBytesRepeatedInteger v2 cap))
                    else Some (u64 (cap * 2))
                | _ => Some (u64 (cap * 2))
                end : option Z);
      lp ← lpNew junk estcap;
      lp ← set_iterate (fun _ => Some setobj_) (fun e lp => lp ← lp_append_elem junk e lp; Some (lp, false)) lp;
      Some (SListpack lp, true)
  | OBJ_ENCODING_INTSET => None
  end.

Definition setTypeConvert (set : setobj) (enc : setenc) : option setobj :=
  '(set, n) ← setTypeSize set;
  '(set, _) ← setTypeConvertAndExpand set enc n true true;
  Some set.

Definition setTypeMaybeConvert (set : setobj) (size_hint : Z) : option setobj :=
  if bool_decide (enc_of set = OBJ_ENCODING_LISTPACK) && (set_max_listpack_entries <? size_hint)
     || bool_decide (enc_of set = OBJ_ENCODING_INTSET) && (set_max_intset_entries <? size_hint)
  then '(set, _) ← setTypeConvertAndExpand set OBJ_ENCODING_HT size_hint true true; Some set
  else Some set.

(** A set that can hold the value. *)
Definition setTypeCreate (value : list Z) (size_hint : Z) : option setobj :=
  if bool_decide (is_Some (string2ll value)) && (size_hint <=? set_max_intset_entries) then Some createIntsetObject
  else if size_hint <=? set_max_listpack_entries then createSetListpackObject
  else Some (SHash (dictExpand dictCreate size_hint).1).

Definition intsetMaxEntries : Z :=
  if Z.shiftl 1 30 <=? set_max_intset_entries then Z.shiftl 1 30 else set_max_intset_entries.

Definition maybeConvertIntset (subject : setobj) : option setobj :=
  match subject with
  | SIntset iset => if intsetMaxEntries <? intsetLen iset then setTypeConvert subject OBJ_ENCODING_HT else Some subject
  | _ => None
  end.

Definition maybeConvertToIntset (set : setobj) : option setobj :=
  match set with
  | SIntset _ => Some set
  | _ =>
      '(set, n) ← setTypeSize set;
      if intsetMaxEntries <? n then Some set
      else
        iset ← set_iterate (fun _ => Some set)
          (fun e iset =>
             llval ← (match e with ElStr str => string2ll str | ElInt llval => Some llval end);
             '(iset, success) ← intsetAdd junk iset llval;
             _ ← assert_ success;
             Some (iset, false)) intsetNew;
        Some (SIntset iset)
  end.

(** ** Elements *)

Definition lp_find_first (lp str : list Z) : option (option Z) :=
  p ← lpFirst lp;
  match p with Some p => lpFind lp p str 0 | None => Some None end.

(** An intset to which a string that is no integer is added. *)
Definition intset_add_string (iset : intset) (str : list Z) : option setobj :=
  let n := intsetLen iset in
  '(maxelelen, totsize) ← (
    if n =? 0 then Some (0, 0)
    else
      v1 ← intsetMax iset; v2 ← intsetMin iset;
      Some (Z.max (sdigits10 v1) (sdigits10 v2),
            Z.max (lpEstimateBytesRepeatedInteger v1 n) (lpEstimateBytesRepeatedInteger v2 n)));
  safe ← lpSafeToAdd None (u64 (totsize + zlen str));
  if (n <? set_max_listpack_entries) && (zlen str <=? set_max_listpack_value) && (maxelelen <=? set_max_listpack_value) && safe then
    '(set, _) ← setTypeConvertAndExpand (SIntset iset) OBJ_ENCODING_LISTPACK (n + 1) true true;
    match set with
    | SListpack lp =>
        lp ← lp_append_elem junk (ElStr str) lp;
        lp ← lpShrinkToFit junk lp;
        Some (SListpack lp)
    | _ => None
    end
  else
    '(set, _) ← setTypeConvertAndExpand (SIntset iset) OBJ_ENCODING_HT (n + 1) true true;
    match set with SHash d => d ← add_new d str; Some (SHash d) | _ => None end.

Definition add_integer (iset : intset) (llval : Z) : option (setobj * bool) :=
  '(iset, success) ← intsetAdd junk iset llval;
  set ← (if (success : bool) then maybeConvertIntset (SIntset iset) else Some (SIntset iset));
  Some (set, success).

Definition setTypeAddAux (set : setobj) (e : setelem) : option (setobj * bool) :=
  match e, set with
  | ElInt llval, SIntset iset => add_integer iset llval
  | _, _ =>
      str ← elem_text llbuf e;
      match set with
      | SHash ht =>
          '(ht, position) ← dictFindPositionForInsert t resize ht str;
          match position with
          | PosNew table idx => '(ht, _) ← dictInsertAtPosition t ht str table idx; Some (SHash ht, true)
          | _ => Some (SHash ht, false)
          end
      | SListpack lp =>
          p ← lp_find_first lp str;
          match p with
          | Some _ => Some (set, false)
          | None =>
              '(n, lp) ← lpLength lp;
              safe ← lpSafeToAdd (Some lp) (zlen str);
              if (n <? set_max_listpack_entries) && (zlen str <=? set_max_listpack_value) && safe then
                lp ← lp_append_elem junk e lp; Some (SListpack lp, true)
              else
                '(set, _) ← setTypeConvertAndExpand (SListpack lp) OBJ_ENCODING_HT (n + 1) true true;
                match set with SHash d => d ← add_new d str; Some (SHash d, true) | _ => None end
          end
      | SIntset iset =>
          match string2ll str with
          | Some value => add_integer iset value
          | None => set ← intset_add_string iset str; Some (set, true)
          end
      end
  end.

Definition setTypeAdd (subject : setobj) (value : list Z) : option (setobj * bool) := setTypeAddAux subject (ElStr value).

Definition setTypeRemoveAux (set : setobj) (e : setelem) : option (setobj * bool) :=
  match e, set with
  | ElInt llval, SIntset iset => '(iset, success) ← intsetRemove junk iset llval; Some (SIntset iset, success)
  | _, _ =>
      str ← elem_text llbuf e;
      match set with
      | SHash d =>
          '(d, deleted) ← dictDelete t resize d str;
          Some (SHash (if deleted && htNeedsResize d then (dictResize resize d).1 else d), deleted)
      | SListpack lp =>
          p ← lp_find_first lp str;
          match p with
          | Some p => lp ← lp_not_null (lpDelete junk lp p); Some (SListpack lp, true)
          | None => Some (set, false)
          end
      | SIntset iset =>
          match string2ll str with
          | Some llval => '(iset, success) ← intsetRemove junk iset llval; Some (SIntset iset, success)
          | None => Some (set, false)
          end
      end
  end.

Definition setTypeRemove (set : setobj) (value : list Z) : option (setobj * bool) := setTypeRemoveAux set (ElStr value).

(** A lookup may move a bucket of a hash table that is being rehashed. *)
Definition setTypeIsMemberAux (set : setobj) (e : setelem) : option (setobj * bool) :=
  match e, set with
  | ElInt llval, SIntset iset => b ← intsetFind iset llval; Some (set, b)
  | _, _ =>
      str ← elem_text llbuf e;
      match set with
      | SListpack lp => p ← lp_find_first lp str; Some (set, bool_decide (is_Some p))
      | SIntset iset =>
          match string2ll str with
          | Some llval => b ← intsetFind iset llval; Some (set, b)
          | None => Some (set, false)
          end
      | SHash d => '(d, p) ← dictFind t resize d str; Some (SHash d, bool_decide (is_Some p))
      end
  end.

Definition setTypeIsMember (set : setobj) (value : list Z) : option (setobj * bool) := setTypeIsMemberAux set (ElStr value).

(** ** Copies *)

Definition setTypeDup (o : setobj) : option setobj :=
  match o with
  | SIntset iset =>
      c ← rdn (contents iset) 0 (intsetBlobLen iset - sizeof_intset);
      Some (SIntset (mk_intset (encoding iset) (length_ iset) c))
  | SListpack lp => lp ← lpDup lp; Some (SListpack lp)
  | SHash d =>
      set_iterate (fun _ => Some o) (fun e set => '(set, _) ← setTypeAddAux set e; Some (set, false))
        (SHash (dictExpand dictCreate (dictSize d)).1)
  end.
End set_type.
