(* ===== verification/SetTypeThms.v ===== *)
(** t_set.c, the set data type: in any of the encodings the operations act as
    on a mathematical set of strings. *)
From stdpp Require Import gmap.
From S2P Require Import Prelude Endian Strnum Intset Listpack ListpackCodec ListpackSpec ListpackOps ListpackQuery ListpackThms Dict DictInv DictOps DictRehash DictThms DictIter Element SetType.

(** The most elements an intset can have: the 32 bit size of what is moved
    does not wrap. *)
Definition INTSET_BOUND : Z := 536870910.

Section set_type.
Context `{Host} (dictSdsHash : list Z -> Z) (resize : dictResizeEnable) (addr : bool -> Z) (junk : nat -> Z) (llbuf : list Z).
Context (set_max_intset_entries set_max_listpack_entries set_max_listpack_value : Z).
(** The hash function does not tell apart keys that compare equal, which are
    equal when they are shorter than 2^31 bytes. *)
Context (hash_range : forall k, 0 <= dictSdsHash k < 2 ^ 64).
Context (hash_compare : forall k1 k2, dictSdsKeyCompare k1 k2 = true -> dictSdsHash k1 = dictSdsHash k2).
Context (Hll : zlen llbuf = LONG_STR_SIZE) (Hmax : 0 <= set_max_intset_entries < INTSET_BOUND).
Notation t := (setDictType dictSdsHash).

#[local] Instance setDictType_ok : StringDict t.
Proof using hash_range hash_compare. by apply string_dict. Qed.

(** * Representation *)

(** The set has the elements of [l], in the order of an iteration. *)
Definition holds (set : setobj) (l : list (list Z)) : Prop :=
  match set with
  | SIntset iset => exists s, intset_rep iset s /\ zlen s <= INTSET_BOUND /\ l = map sdec s
  | SListpack lp => exists es, lp_rep lp es /\ l = map entry_str es
  | SHash d => wf t d /\ l = map fst (elems d)
  end.
Definition rep_list (set : setobj) (l : list (list Z)) : Prop := holds set l /\ NoDup l /\ Forall member l.

(** An intset does not exceed the configured size. *)
Definition within (set : setobj) (l : list (list Z)) : Prop :=
  match set with SIntset _ => zlen l <= set_max_intset_entries | _ => True end.

Definition set_rep (set : setobj) (X : gset (list Z)) : Prop := exists l, rep_list set l /\ within set l /\ X = list_to_set l.

Lemma intset_i64 iset s : intset_rep iset s -> Forall is_i64 s.
Proof using.
  intros R. pose proof (rep_enc _ _ R) as He. eapply Forall_impl; [apply (rep_fits _ _ R) |].
  intros x Hx. unfold fits in Hx. unfold is_i64. destruct He as [E | [E | E]]; rewrite E in Hx; cbn in Hx; lia.
Qed.

Lemma intset_NoDup iset s : intset_rep iset s -> NoDup (map sdec s) /\ Forall member (map sdec s).
Proof using.
  intros R. pose proof (intset_i64 _ _ R) as Hi. pose proof (rep_NoDup _ _ R) as Hnd. split.
  - clear R. induction Hnd as [| x s Hx Hs IH]; [apply NoDup_nil_2 |]. inversion_clear Hi as [| ? ? Hix Hi']. cbn [map].
    apply NoDup_cons. split; [| by apply IH]. intros Hin. apply list_elem_of_fmap in Hin as (y & E & Hy). apply Hx.
    rewrite Forall_forall in Hi'. by rewrite (sdec_inj x y Hix (Hi' y Hy) E).
  - apply Forall_fmap. eapply Forall_impl; [exact Hi |]. intros x Hx. by apply sdec_member.
Qed.

Lemma rep_intset iset s : intset_rep iset s -> zlen s <= INTSET_BOUND -> rep_list (SIntset iset) (map sdec s).
Proof using. intros R Hs. split; [by exists s | by eapply intset_NoDup]. Qed.

(** * Iteration *)

(** The encodings whose elements come as strings, or as integers. *)
Definition from (set : setobj) (e : setelem) : Prop :=
  match set, e with SIntset _, ElStr _ | SHash _, ElInt _ => False | _, _ => True end.

(** The iterator is about to return the elements of [todo]. *)
Definition at_ (set : setobj) (si : setTypeIterator) (rest : list (list Z)) : Prop :=
  match set, si with
  | SHash d, ItHash di => iterating addr d di /\ rest = map fst (todo d di)
  | SIntset iset, ItIntset ii => exists s, intset_rep iset s /\ zlen s <= INTSET_BOUND /\ 0 <= ii <= zlen s /\ rest = map sdec (drop (Z.to_nat ii) s)
  | SListpack lp, ItListpack lpi => exists es1 es2, lp_rep lp (es1 ++ es2) /\ rest = map entry_str es2 /\
      match lpi with None => es1 = [] | Some p => exists es0 e, es1 = es0 ++ [e] /\ p = lp_off es0 end
  | _, _ => False
  end.

Definition finished (set : setobj) (si : setTypeIterator) : Prop :=
  match set, si with SHash d, ItHash di => releasable addr d di | _, _ => True end.

Lemma at_finished set si rest : at_ set si rest -> finished set si.
Proof. destruct set, si; try done. by intros [[? _] _]. Qed.

Lemma at_start set l : rep_list set l -> at_ set (setTypeInitIterator set) l.
Proof.
  intros [Hh _]. destruct set as [iset | lp | d]; cbn [holds at_ setTypeInitIterator] in *.
  - destruct Hh as (s & R & Hs & ->). exists s. pose proof (zlen_nonneg s). split_and!; (done || lia).
  - destruct Hh as (es & R & ->). by exists [], es.
  - destruct Hh as [Hwf ->]. destruct (iterating_start t addr d Hwf 0) as [Hi Ht]. split; [exact Hi |]. by rewrite <- Ht.
Qed.

Lemma finished_release set si : finished set si -> setTypeReleaseIterator addr set si = Some tt.
Proof.
  destruct set as [iset | lp | d], si as [di | ii | lpi]; try done. cbn [finished setTypeReleaseIterator].
  intros Hr. by rewrite dictReleaseIterator_ok.
Qed.

(** One call of [setTypeNext]. *)
Definition next_result (set : setobj) (rest : list (list Z)) (r : option (setTypeIterator * option setelem)) : Prop :=
  match rest with
  | x :: rest => exists si e, r = Some (si, Some e) /\ at_ set si rest /\ etext e = x /\ elem_in e /\ from set e
  | [] => exists si, r = Some (si, None) /\ finished set si
  end.

Lemma next_hash d l di rest : rep_list (SHash d) l -> at_ (SHash d) (ItHash di) rest -> Forall member rest ->
  next_result (SHash d) rest (setTypeNext addr (SHash d) (ItHash di)).
Proof.
  intros [[Hwf _] _] [Hit ->] Hm. cbn [setTypeNext]. destruct (dictNext_ok t addr d Hwf di Hit) as (it' & de & -> & Hr & Hde).
  cbn [mbind option_bind]. destruct de as [de |].
  - destruct Hde as (Hit' & kv & Et & Ek & _). rewrite Et in *. rewrite Ek. cbn [map next_result mbind option_bind] in *.
    apply Forall_cons in Hm as [Hm _]. by exists (ItHash it'), (ElStr kv.1).
  - rewrite Hde. by exists (ItHash it').
Qed.

Lemma next_intset iset ii rest : at_ (SIntset iset) (ItIntset ii) rest ->
  next_result (SIntset iset) rest (setTypeNext addr (SIntset iset) (ItIntset ii)).
Proof.
  intros (s & R & Hb & Hi & ->). cbn [setTypeNext]. unfold INTSET_BOUND in *. unfold intsetGet.
  rewrite (rep_len _ _ R), u32_id by lia. destruct (Z.ltb_spec ii (zlen s)) as [Hlt | Hge].
  - rewrite (i32_id ii), (intsetGet_repZ iset s ii R) by lia. cbn [mbind option_bind option_map].
    assert (s !! Z.to_nat ii = Some (s !!! Z.to_nat ii)) as Es by (apply list_lookup_lookup_total_lt; unfold zlen in *; lia).
    rewrite (drop_S _ _ _ Es). cbn [map next_result]. eexists _, _. split; [reflexivity |]. split.
    + exists s. unfold INTSET_BOUND. rewrite i32_id by lia. split_and!; try (done || lia).
      by replace (Z.to_nat (ii + 1)) with (S (Z.to_nat ii)) by lia.
    + split; [done |]. split; [| done]. cbn. eapply Forall_lookup_1; [exact (intset_i64 _ _ R) | exact Es].
  - cbn [mbind option_bind option_map]. rewrite drop_ge by (unfold zlen in *; lia). cbn [map next_result]. by eexists.
Qed.

Lemma next_listpack lp lpi rest : at_ (SListpack lp) (ItListpack lpi) rest -> Forall member rest ->
  next_result (SListpack lp) rest (setTypeNext addr (SListpack lp) (ItListpack lpi)).
Proof.
  intros (es1 & es2 & [n R] & -> & Hp) Hm. cbn [setTypeNext].
  assert (match lpi with None => lpFirst lp | Some p => lpNext lp p end = Some (lp_ptr es1 es2)) as ->.
  { destruct lpi as [p |]; [| subst es1; exact (first_entry _ _ _ R)]. destruct Hp as (es0 & e & -> & ->).
    rewrite <- app_assoc in R. exact (next_entry _ _ _ _ _ R). }
  cbn [mbind option_bind]. destruct es2 as [| e es2]; cbn [lp_ptr map next_result]; [by eexists |].
  destruct (get_value R false) as (v & Ev & Hs & Hv). unfold lpGetValue. rewrite Ev. cbn [mbind option_bind].
  pose proof (repn_entry_wf R) as Hwf. cbn [map] in Hm. apply Forall_cons in Hm as [Hm1 Hm].
  assert (at_ (SListpack lp) (ItListpack (Some (lp_off es1))) (map entry_str es2)) as Hat.
  { exists (es1 ++ [e]), es2. rewrite <- app_assoc. split; [by exists n |]. split; [done |]. by exists es1, e. }
  destruct v as [m | off count |]; [| | done].
  - destruct Hv as [_ ->]. cbn [mbind option_bind]. by eexists _, (ElInt m).
  - cbn [val_str] in Hs. assert (0 <= count < 4294967296) as Hc.
    { rewrite Hv in Hwf. destruct Hwf as [_ Hz]. rewrite (rdn_length _ _ _ _ Hs) in Hz.
      pose proof (rdn_bounds _ _ _ _ Hs). lia. }
    cbn [mbind option_bind]. rewrite (u32_id count), Hs by lia. cbn [mbind option_bind]. by eexists _, (ElStr (entry_str e)).
Qed.

Lemma setTypeNext_ok set l si rest : rep_list set l -> at_ set si rest -> Forall member rest -> next_result set rest (setTypeNext addr set si).
Proof.
  intros Hl Hat Hm. destruct set as [iset | lp | d], si as [di | ii | lpi]; try done.
  - by apply next_intset.
  - by apply next_listpack.
  - by eapply next_hash.
Qed.

(** The rule of a loop over a set: an invariant on the elements that are left,
    and what holds when the body stops the loop. *)
Section iterate.
Context {S : Type} (P : list (list Z) -> S -> Prop) (Q : S -> Prop) (set : setobj) (l : list (list Z)) (Hl : rep_list set l).
Context (subject : S -> option setobj) (body : setelem -> S -> option (S * bool)).
Context (HP : forall rest s, P rest s -> subject s = Some set) (HQ : forall s, Q s -> subject s = Some set).
Context (Hbody : forall e rest s, P (etext e :: rest) s -> elem_in e -> from set e ->
  exists s' stop, body e s = Some (s', stop) /\ if (stop : bool) then Q s' else P rest s').

Lemma set_each_ok fuel : forall rest si s, at_ set si rest -> Forall member rest -> P rest s -> (length rest < fuel)%nat ->
  exists si' s', set_each addr fuel subject si body s = Some (si', s') /\ finished set si' /\ (P [] s' \/ Q s').
Proof.
  induction fuel as [| fuel IH]; intros rest si s Hat Hm Hs Hf; [lia |]. cbn [set_each]. rewrite (HP _ _ Hs). cbn [mbind option_bind].
  pose proof (setTypeNext_ok set l si rest Hl Hat Hm) as Hn. destruct rest as [| x rest]; cbn [next_result] in Hn.
  - destruct Hn as (si' & -> & Hfin). cbn [mbind option_bind]. exists si', s. split; [done |]. split; [done | by left].
  - destruct Hn as (si' & e & -> & Hat' & <- & He & Hfrom). cbn [mbind option_bind].
    destruct (Hbody e rest s Hs He Hfrom) as (s' & stop & -> & Hs'). cbn [mbind option_bind]. destruct stop.
    + exists si', s'. split; [done |]. split; [by eapply at_finished | by right].
    + apply Forall_cons in Hm as [_ Hm]. apply (IH rest); [done | done | done |]. cbn [length] in Hf. lia.
Qed.

Lemma set_turns_enough : (length l < set_turns set)%nat.
Proof.
  destruct Hl as [Hh _]. destruct set as [iset | lp | d]; cbn [holds set_turns] in *.
  - destruct Hh as (s & R & _ & ->). unfold intsetLen. rewrite (rep_len _ _ R), length_map. unfold zlen. lia.
  - destruct Hh as (es & [n R] & ->). pose proof (repn_len R). pose proof (entries_len_ge es (repn_wf R)). rewrite length_map.
    unfold lp_off, LP_HDR_SIZE, zlen in *. lia.
  - destruct Hh as [Hwf ->]. rewrite (dictSize_ok t d (proj1 Hwf)) by apply Hwf. rewrite length_map. unfold zlen. lia.
Qed.

Lemma set_iterate_ok s : P l s -> exists s', set_iterate addr subject body s = Some s' /\ (P [] s' \/ Q s').
Proof.
  intros Hs. unfold set_iterate. rewrite (HP _ _ Hs). cbn [mbind option_bind].
  destruct (set_each_ok (set_turns set) l (setTypeInitIterator set) s) as (si' & s' & -> & Hfin & Hs');
    [by apply at_start | apply Hl | done | exact set_turns_enough |].
  cbn [mbind option_bind]. assert (subject s' = Some set) as -> by (destruct Hs' as [Hs' | Hs']; [exact (HP _ _ Hs') | exact (HQ _ Hs')]).
  cbn [mbind option_bind]. rewrite finished_release by done. by exists s'.
Qed.
End iterate.

(** * Hash tables of strings *)

Notation keys d := (map fst (elems d)).

Lemma add_new_ok d k : wf t d -> Forall member (keys d) -> member k -> k ∉ keys d -> zlen (elems d) < 2 ^ 58 ->
  exists d', add_new dictSdsHash resize d k = Some d' /\ wf t d' /\ keys d' ≡ₚ k :: keys d.
Proof.
  intros Hwf Hm Hk Hn Hl. unfold add_new. destruct (add_ok t resize d k tt Hwf Hl) as (d' & b & -> & Hwf' & P & E).
  cbn [mbind option_bind op_spec] in *. rewrite (has_key t), (bool_decide_eq_false_2 _ Hn) in * by done.
  cbn [fst snd] in *. injection E as ->. exists d'. split; [done |]. split; [done |]. by rewrite P.
Qed.

Lemma rep_hash d l : wf t d -> keys d ≡ₚ l -> NoDup l -> Forall member l -> rep_list (SHash d) (keys d).
Proof. intros Hwf P Hn Hm. split; [by split |]. by rewrite P. Qed.

(** * Conversions *)

(** To a hash table. *)
Lemma convert_hash set l cap panic malloc_ok : rep_list set l -> zlen l < 2 ^ 58 -> enc_of set <> OBJ_ENCODING_HT -> 0 <= cap < 2 ^ 64 ->
  panic || malloc_ok = true ->
  exists d, setTypeConvertAndExpand dictSdsHash resize addr junk llbuf set OBJ_ENCODING_HT cap panic malloc_ok = Some (SHash d, true) /\
    rep_list (SHash d) (keys d) /\ keys d ≡ₚ l.
Proof.
  intros Hl Hsz Henc Hcap Hp. pose proof Hl as (_ & Hnd & Hm). unfold setTypeConvertAndExpand. cbv zeta.
  rewrite bool_decide_eq_false_2 by done. cbn [negb assert_ mbind option_bind].
  rewrite <- negb_orb, Hp. cbn [negb]. destruct (expand_new t cap Hcap) as [Hwf0 E0].
  destruct (set_iterate_ok (fun rest d => wf t d /\ keys d ++ rest ≡ₚ l) (fun _ => False) set l Hl (fun _ => Some set)
    (fun e d => element ← elem_text llbuf e; d ← add_new dictSdsHash resize d element; Some (d, false)))
    with (s := (dictExpand (@dictCreate (list Z) unit) cap).1) as (d & E & [[Hwf P] | []]); [done | done | | by rewrite E0 |].
  - intros e rest d [Hwf P] He _. rewrite elem_text_ok by done. cbn [mbind option_bind].
    assert (NoDup (keys d ++ etext e :: rest)) as Hnd' by (by rewrite P).
    assert (Forall member (keys d ++ etext e :: rest)) as Hm' by (by rewrite P).
    destruct (add_new_ok d (etext e) Hwf) as (d' & -> & Hwf' & P').
    + apply Forall_app in Hm' as [Hm' _]. exact Hm'.
    + by apply etext_member.
    + apply NoDup_app in Hnd' as (_ & Hd & _). intros Hin. apply (Hd _ Hin). apply list_elem_of_here.
    + pose proof (Permutation_length P) as Hlen. rewrite length_app, length_map in Hlen.
      unfold zlen in *. cbn [length] in Hlen. lia.
    + cbn [mbind option_bind]. exists d', false. split; [done |]. split; [done |]. rewrite P'. cbn [app].
      by rewrite <- P, Permutation_middle.
  - rewrite E. cbn [mbind option_bind]. rewrite app_nil_r in P. exists d. split; [done |].
    split; [by eapply rep_hash | done].
Qed.

(** The size of the integers between two others. *)
Definition entry_size (v : Z) : Z := zlen (entry (EInt v)).

Lemma entry_size_range v : is_i64 v -> 2 <= entry_size v <= 14.
Proof.
  intros Hv. split; [apply (entry_len_bounds (EInt v) Hv) | apply (entry_small (EInt v) Hv)].
Qed.

Lemma entry_size_estimate v n : is_i64 v -> 0 <= n <= INTSET_BOUND + 1 -> lpEstimateBytesRepeatedInteger v n = entry_size v * n + 7.
Proof.
  intros Hv Hn. unfold INTSET_BOUND in Hn. pose proof (entry_size_range v Hv) as Hr. unfold lpEstimateBytesRepeatedInteger.
  unfold entry_size in *. rewrite entry_len in *. cbn [enc_entry] in *. unfold LP_HDR_SIZE.
  rewrite u64_id; [lia |]. unfold is_u64. nia.
Qed.

(** The number of bytes of an integer's encoding, and its growth away from 0. *)
Lemma int_enc_length v : zlen (lpEncodeIntegerGetType v) =
  if (0 <=? v) && (v <=? 127) then 1 else if (-4096 <=? v) && (v <=? 4095) then 2
  else if (-32768 <=? v) && (v <=? 32767) then 3 else if (-8388608 <=? v) && (v <=? 8388607) then 4
  else if (-2147483648 <=? v) && (v <=? 2147483647) then 5 else 9.
Proof.
  unfold lpEncodeIntegerGetType. cbv zeta.
  repeat (match goal with |- zlen (if ?b then _ else _) = _ => destruct b; [by rewrite ?zlen_cons, zlen_nil |] end).
  by rewrite !zlen_cons, zlen_nil.
Qed.

Lemma int_enc_mono v w : 0 <= v <= w \/ w <= v < 0 -> zlen (lpEncodeIntegerGetType v) <= zlen (lpEncodeIntegerGetType w).
Proof.
  intros Hvw. rewrite (int_enc_length w).
  repeat match goal with |- _ <= (if ?b then _ else _) => destruct b eqn:? end; rewrite int_enc_length;
  repeat match goal with |- (if ?b then _ else _) <= _ => destruct b eqn:?; [lia |] end; lia.
Qed.

Lemma entry_size_between lo v hi : is_i64 lo -> is_i64 hi -> lo <= v <= hi -> entry_size v <= Z.max (entry_size lo) (entry_size hi).
Proof.
  intros Hlo Hhi Hv. assert (forall x, is_i64 x -> entry_size x = 1 + zlen (lpEncodeIntegerGetType x)) as Hsz.
  { intros x Hx. unfold entry_size. rewrite entry_len. cbn [enc_entry].
    destruct (int_enc_shape x Hx) as [[? E] | [[? E] | [[? E] | [[? E] | [[? E] | E]]]]]; rewrite E, ?zlen_cons, ?zlen_le_enc, ?(@zlen_nil Z); done. }
  rewrite !Hsz by (unfold is_i64 in *; lia). destruct (Z.le_gt_cases 0 v).
  - pose proof (int_enc_mono v hi). lia.
  - pose proof (int_enc_mono v lo). lia.
Qed.

Lemma intset_ends iset s : intset_rep iset s -> zlen s <= INTSET_BOUND -> 0 < zlen s ->
  intsetMin iset = Some (s !!! 0%nat) /\ intsetMax iset = Some (s !!! Z.to_nat (zlen s - 1)) /\
  forall v, v ∈ s -> s !!! 0%nat <= v <= s !!! Z.to_nat (zlen s - 1).
Proof.
  intros R Hb Hl. unfold INTSET_BOUND in Hb. unfold intsetMin, intsetMax. rewrite (rep_len _ _ R), (i32_id (zlen s - 1)) by lia.
  rewrite (intsetGet_repZ iset s 0 R), (intsetGet_repZ iset s (zlen s - 1) R) by lia. split; [done |]. split; [done |].
  intros v [i Hi]%list_elem_of_lookup. pose proof (lookup_lt_Some _ _ _ Hi) as Hlt. apply list_lookup_total_correct in Hi as <-.
  pose proof (rep_sorted _ _ R) as Hs. unfold zlen in *.
  pose proof (increasing_total_le s 0 (Z.of_nat i) Hs). pose proof (increasing_total_le s (Z.of_nat i) (Z.of_nat (length s) - 1) Hs).
  unfold zlen in *. rewrite Nat2Z.id in *. change (Z.to_nat 0) with 0%nat in *. lia.
Qed.

Lemma intset_min_max iset s : intset_rep iset s -> zlen s <= INTSET_BOUND -> 0 < zlen s ->
  exists lo hi, intsetMin iset = Some lo /\ intsetMax iset = Some hi /\ lo ∈ s /\ hi ∈ s /\ (forall v, v ∈ s -> lo <= v <= hi).
Proof.
  intros R Hb Hl. destruct (intset_ends iset s R Hb Hl) as (-> & -> & Hbt). eexists _, _. split; [done |]. split; [done |].
  unfold zlen in *. split_and!; [| | exact Hbt].
  - apply (list_elem_of_lookup_2 _ 0). apply list_lookup_lookup_total_lt. lia.
  - apply (list_elem_of_lookup_2 _ (Z.to_nat (Z.of_nat (length s) - 1))). apply list_lookup_lookup_total_lt. lia.
Qed.

(** An intset to a listpack with room for it. *)
Lemma convert_listpack iset s cap M : intset_rep iset s -> zlen s <= INTSET_BOUND -> (forall v, v ∈ s -> entry_size v <= M) ->
  zlen s * M <= 2147483648 -> 0 <= M ->
  exists lp es, setTypeConvertAndExpand dictSdsHash resize addr junk llbuf (SIntset iset) OBJ_ENCODING_LISTPACK cap true true = Some (SListpack lp, true) /\
    lp_rep lp es /\ map entry_str es = map sdec s /\ lp_off es <= 6 + zlen s * M.
Proof.
  intros R Hb HM HsM HM0. pose proof (rep_intset iset s R Hb) as Hl. pose proof (intset_i64 _ _ R) as H64. rewrite Forall_forall in H64.
  unfold setTypeConvertAndExpand. cbv zeta. cbn [enc_of]. rewrite bool_decide_eq_false_2 by done. cbn [negb assert_ mbind option_bind].
  assert (exists estcap, (if 0 <? intsetLen iset then v1 ← intsetMin iset; v2 ← intsetMax iset;
     Some (Z.max (lpEstimateBytesRepeatedInteger v1 cap) (lpEstimateBytesRepeatedInteger v2 cap)) else Some (u64 (cap * 2))) = Some estcap) as [estcap ->].
  { unfold intsetLen. rewrite (rep_len _ _ R). destruct (Z.ltb_spec 0 (zlen s)) as [Hpos |]; [| by eexists].
    destruct (intset_min_max iset s R Hb Hpos) as (lo & hi & -> & -> & _). by eexists. }
  cbn [mbind option_bind]. destruct (new_rep junk estcap) as (lp0 & -> & R0). cbn [mbind option_bind].
  destruct (set_iterate_ok (fun rest lp => exists es, lp_rep lp es /\ map entry_str es ++ rest = map sdec s /\ lp_off es <= 6 + zlen es * M)
    (fun _ => False) (SIntset iset) (map sdec s) Hl (fun _ => Some (SIntset iset))
    (fun e lp => lp ← lp_append_elem junk e lp; Some (lp, false))) with (s := lp0) as (lp & E & [(es & R1 & Ees & Hoff) | []]); [done | done | | |].
  - intros e rest lp (es & Res & Ees & Hoff) He Hfrom. destruct e as [| v]; [done |]. cbn [etext elem_in] in *.
    assert (v ∈ s) as Hv.
    { assert (sdec v ∈ map sdec s) as Hin by (rewrite <- Ees; apply elem_of_app; right; apply list_elem_of_here).
      apply list_elem_of_fmap in Hin as (w & Ew & Hw). by rewrite (sdec_inj v w He (H64 w Hw) Ew). }
    assert (zlen es < zlen s) as Hlt.
    { apply (f_equal length) in Ees. rewrite length_app, !length_map in Ees. cbn [length] in Ees. unfold zlen. lia. }
    pose proof (zlen_sdec v He). pose proof (zlen_nonneg es).
    destruct (lp_append_ok junk (ElInt v) lp es Res He) as (lp' & -> & R').
    { cbn [etext]. nia. }
    cbn [mbind option_bind]. exists lp', false. split; [done |]. exists (es ++ [EInt v]). split; [exact R' |]. split.
    + rewrite map_app, <- app_assoc. exact Ees.
    + rewrite lp_off_snoc, zlen_app, zlen_cons, zlen_nil. pose proof (HM v Hv) as Hv'. unfold entry_size in Hv'. lia.
  - exists []. split; [done |]. split; [done |]. rewrite lp_off_nil. unfold zlen. cbn [length]. lia.
  - rewrite E. cbn [mbind option_bind]. rewrite app_nil_r in Ees. exists lp, es. split_and!; [done | done | done |].
    assert (zlen es = zlen s) as <-; [| done]. apply (f_equal length) in Ees. rewrite !length_map in Ees. unfold zlen. lia.
Qed.

(** * As a mathematical set *)

Lemma set_rep_intro (set : setobj) (l : list (list Z)) (X : gset (list Z)) : rep_list set l -> within set l -> (forall x, x ∈ l <-> x ∈ X) -> set_rep set X.
Proof. intros Hl Hw Hx. exists l. split; [exact Hl |]. split; [exact Hw |]. apply set_eq. intros x. rewrite elem_of_list_to_set. symmetry. apply Hx. Qed.

Lemma set_rep_elim set X : set_rep set X ->
  exists l, rep_list set l /\ within set l /\ (forall x, x ∈ l <-> x ∈ X) /\ zlen l = Z.of_nat (size X).
Proof.
  intros (l & Hl & Hw & ->). exists l. split; [exact Hl |]. split; [exact Hw |]. split; [intros x; by rewrite elem_of_list_to_set |].
  rewrite size_list_to_set by apply Hl. done.
Qed.

Lemma setTypeSize_list set l : rep_list set l -> exists set', setTypeSize set = Some (set', zlen l) /\ rep_list set' l /\ enc_of set' = enc_of set /\ (within set l -> within set' l).
Proof.
  intros Hl. pose proof Hl as [Hh Hrest]. destruct set as [iset | lp | d]; cbn [holds setTypeSize] in *.
  - destruct Hh as (s & R & Hb & ->). unfold intsetLen. rewrite (rep_len _ _ R). exists (SIntset iset).
    unfold zlen. rewrite length_map. split; [done |]. split; [| by split]. split; [by exists s | exact Hrest].
  - destruct Hh as (es & [n R] & ->). destruct (length_rep _ _ _ R) as (lp' & n' & -> & R' & _). cbn [mbind option_bind].
    exists (SListpack lp'). unfold zlen. rewrite length_map. split; [done |]. split; [| by split]. split; [| exact Hrest]. exists es. split; [by exists n' | done].
  - destruct Hh as [Hwf ->]. exists (SHash d). rewrite (dictSize_ok t d (proj1 Hwf)) by apply Hwf. unfold zlen. rewrite length_map. split; [done |]. split; [| by split]. by split.
Qed.

Lemma setTypeSize_ok set X : set_rep set X ->
  exists set', setTypeSize set = Some (set', Z.of_nat (size X)) /\ set_rep set' X.
Proof.
  intros (l & Hl & Hw & Hx & <-)%set_rep_elim. destruct (setTypeSize_list set l Hl) as (set' & E & Hl' & _ & Hw').
  exists set'. split; [exact E |]. eapply set_rep_intro; [exact Hl' | by apply Hw' | exact Hx].
Qed.

(** Conversions to a hash table keep the elements. *)
Lemma setTypeConvertAndExpand_ok set X cap panic malloc_ok : set_rep set X -> Z.of_nat (size X) < 2 ^ 58 ->
  enc_of set <> OBJ_ENCODING_HT -> 0 <= cap < 2 ^ 64 -> panic || malloc_ok = true ->
  exists d, setTypeConvertAndExpand dictSdsHash resize addr junk llbuf set OBJ_ENCODING_HT cap panic malloc_ok = Some (SHash d, true) /\
    set_rep (SHash d) X.
Proof.
  intros (l & Hl & Hw & Hx & El)%set_rep_elim Hsz Henc Hcap Hp.
  destruct (convert_hash set l cap panic malloc_ok Hl) as (d & E & Hd & P); [lia | done | done | done |].
  exists d. split; [exact E |]. eapply set_rep_intro; [exact Hd | done |]. intros x. by rewrite P.
Qed.

Lemma setTypeConvert_ok set X : set_rep set X -> Z.of_nat (size X) < 2 ^ 58 -> enc_of set <> OBJ_ENCODING_HT ->
  exists set', setTypeConvert dictSdsHash resize addr junk llbuf set OBJ_ENCODING_HT = Some set' /\ set_rep set' X.
Proof.
  intros (l & Hl & Hw & Hx & El)%set_rep_elim Hsz Henc. unfold setTypeConvert.
  destruct (setTypeSize_list set l Hl) as (set1 & -> & Hl1 & Ee & _). cbn [mbind option_bind]. pose proof (zlen_nonneg l).
  destruct (convert_hash set1 l (zlen l) true true Hl1) as (d & -> & Hd & P); [lia | congruence | lia | done |]. cbn [mbind option_bind].
  exists (SHash d). split; [done |]. eapply set_rep_intro; [exact Hd | done |]. intros x. by rewrite P.
Qed.

Lemma setTypeMaybeConvert_ok set X n : set_rep set X -> Z.of_nat (size X) < 2 ^ 58 -> 0 <= n < 2 ^ 64 ->
  exists set', setTypeMaybeConvert dictSdsHash resize addr junk llbuf set_max_intset_entries set_max_listpack_entries set n = Some set' /\
    set_rep set' X.
Proof.
  intros HX Hsz Hn. unfold setTypeMaybeConvert. destruct (_ || _) eqn:E; [| by exists set].
  destruct (setTypeConvertAndExpand_ok set X n true true HX Hsz) as (d & -> & Hd); [| done | done |].
  - intros Ee. rewrite Ee in E. by rewrite !bool_decide_eq_false_2 in E.
  - cbn [mbind option_bind]. by exists (SHash d).
Qed.

Lemma setTypeCreate_ok value n : 0 <= n < 2 ^ 64 ->
  exists set, setTypeCreate junk set_max_intset_entries set_max_listpack_entries value n = Some set /\ set_rep set ∅.
Proof.
  intros Hn. assert (forall set, holds set [] -> set_rep set ∅) as He.
  { intros set Hh. exists []. split; [| split; [destruct set; [| done..]; cbn; unfold zlen; cbn [length]; lia | done]]. split; [exact Hh |]. split; [apply NoDup_nil_2 | apply Forall_nil_2]. }
  unfold setTypeCreate. destruct (bool_decide _ && _); [| case_if].
  - exists createIntsetObject. split; [reflexivity |]. apply He. exists []. split; [apply intsetNew_rep | done].
  - unfold createSetListpackObject. destruct (new_rep junk 0) as (lp & -> & R). cbn [mbind option_bind].
    exists (SListpack lp). split; [reflexivity |]. apply He. by exists [].
  - eexists. split; [reflexivity |]. apply He. destruct (expand_new t n Hn) as [W E]. split; [exact W | by rewrite E].
Qed.

Lemma max_entries : intsetMaxEntries set_max_intset_entries = set_max_intset_entries.
Proof. unfold intsetMaxEntries, INTSET_BOUND in *. rewrite (proj2 (Z.leb_gt _ _)); [done |]. change (Z.shiftl 1 30) with 1073741824. lia. Qed.

Lemma maybeConvertIntset_ok iset s : intset_rep iset s -> zlen s <= set_max_intset_entries + 1 ->
  exists set', maybeConvertIntset dictSdsHash resize addr junk llbuf set_max_intset_entries (SIntset iset) = Some set' /\
    set_rep set' (list_to_set (map sdec s)).
Proof.
  intros R Hb. unfold maybeConvertIntset. rewrite max_entries. unfold intsetLen. rewrite (rep_len _ _ R).
  unfold INTSET_BOUND in *. assert (rep_list (SIntset iset) (map sdec s)) as Hl by (apply rep_intset; [done | unfold INTSET_BOUND; lia]).
  destruct (Z.ltb_spec set_max_intset_entries (zlen s)) as [Hgt | Hle].
  - unfold setTypeConvert, setTypeSize, intsetLen. rewrite (rep_len _ _ R). cbn [mbind option_bind]. pose proof (zlen_nonneg s).
    destruct (convert_hash (SIntset iset) (map sdec s) (zlen s) true true Hl) as (d & -> & Hd & P); [| done | lia | done |].
    + unfold zlen in *. rewrite length_map. lia.
    + cbn [mbind option_bind]. exists (SHash d). split; [done |]. eapply set_rep_intro; [exact Hd | done |].
      intros x. by rewrite P, elem_of_list_to_set.
  - exists (SIntset iset). split; [done |]. eapply set_rep_intro; [exact Hl | |].
    + cbn. unfold zlen in *. by rewrite length_map.
    + intros x. by rewrite elem_of_list_to_set.
Qed.

(** * Adding *)

Lemma NoDup_length_le (s s' : list Z) v : NoDup s' -> (forall x, x ∈ s' -> x = v \/ x ∈ s) -> zlen s' <= zlen s + 1.
Proof.
  intros Hn Hx. assert (s' ⊆+ v :: s) as Hs by (apply NoDup_submseteq; [exact Hn | intros x Hin; rewrite elem_of_cons; by apply Hx]).
  apply submseteq_length in Hs. cbn [length] in Hs. unfold zlen. lia.
Qed.

Lemma elem_sdec v s : is_i64 v -> Forall is_i64 s -> sdec v ∈ map sdec s <-> v ∈ s.
Proof.
  intros Hv Hs. rewrite Forall_forall in Hs. split.
  - intros (w & E & Hw)%list_elem_of_fmap. by rewrite (sdec_inj v w Hv (Hs w Hw) E).
  - intros Hin. apply list_elem_of_fmap. by exists v.
Qed.

Lemma add_integer_ok iset s v : intset_rep iset s -> zlen s <= set_max_intset_entries -> is_i64 v ->
  exists set', add_integer dictSdsHash resize addr junk llbuf set_max_intset_entries iset v = Some (set', bool_decide (sdec v ∉ map sdec s)) /\
    set_rep set' ({[sdec v]} ∪ list_to_set (map sdec s)).
Proof.
  intros R Hb Hv. unfold add_integer, INTSET_BOUND in *.
  destruct (intsetAdd_spec junk iset s v R) as (iset' & s' & -> & R' & Hin); [lia | done |]. cbn [mbind option_bind].
  assert ((list_to_set (map sdec s') : gset (list Z)) = {[sdec v]} ∪ list_to_set (map sdec s)) as Hset.
  { apply set_eq. intros x. rewrite elem_of_union, elem_of_singleton, !elem_of_list_to_set, !list_elem_of_fmap.
    split.
    - intros (w & -> & Hw). apply Hin in Hw as [-> | Hw]; [by left | right; by exists w].
    - intros [-> | (w & -> & Hw)]; [exists v | exists w]; (split; [done |]; apply Hin; auto). }
  rewrite (bool_decide_ext (sdec v ∉ map sdec s) (v ∉ s)) by (rewrite elem_sdec; [done | done | by eapply intset_i64]).
  pose proof (NoDup_length_le s s' v (rep_NoDup _ _ R') (fun x Hx => proj1 (Hin x) Hx)) as Hlen.
  rewrite <- Hset. destruct (bool_decide (v ∉ s)) eqn:Eb.
  - destruct (maybeConvertIntset_ok iset' s' R') as (set' & -> & HX); [lia |]. cbn [mbind option_bind]. by exists set'.
  - exists (SIntset iset'). split; [done |]. apply bool_decide_eq_false, dec_stable in Eb.
    assert (zlen s' <= zlen s) as Hle.
    { assert (s' ⊆+ s) as Hs by (apply NoDup_submseteq; [by eapply rep_NoDup | intros x Hx; apply Hin in Hx as [-> | Hx]; done]).
      apply submseteq_length in Hs. unfold zlen. lia. }
    eapply set_rep_intro; [apply rep_intset; [exact R' | unfold INTSET_BOUND; lia] | |].
    + cbn. unfold zlen in *. rewrite length_map. lia.
    + intros x. by rewrite elem_of_list_to_set.
Qed.

(** The search for a string in a listpack. *)
Lemma lp_find_first_ok lp es str : lp_rep lp es -> exists r, lp_find_first lp str = Some r /\
  match r with
  | Some p => exists es1 e es2, es = es1 ++ e :: es2 /\ entry_str e = str /\ p = lp_off es1
  | None => str ∉ map entry_str es
  end.
Proof.
  intros [n R]. unfold lp_find_first. rewrite (first_entry _ _ _ R). cbn [mbind option_bind].
  destruct es as [| e es]; cbn [lp_ptr]; [exists None; split; [done | apply not_elem_of_nil] |].
  rewrite (find_rep lp n [] e es str 0 R) by lia. eexists. split; [reflexivity |]. change (Z.to_nat 0) with 0%nat.
  pose proof (find_spec_pos (e :: es) [] str 0 0) as Hf. destruct (find_spec [] (e :: es) str 0 0) as [q |].
  - destruct Hf as (k & x & Ex & Es & -> & _). cbn [Nat.add] in *. replace (k * 1)%nat with k in * by lia.
    exists (take k (e :: es)), x, (drop (S k) (e :: es)). split; [by rewrite take_drop_middle | done].
  - intros (x & Es & [j Hj]%list_elem_of_lookup)%list_elem_of_fmap. apply (Hf j x); [| done].
    cbn [Nat.add]. by replace (j * 1)%nat with j by lia.
Qed.

Lemma rep_list_cons set l x set' l' : rep_list set l -> member x -> x ∉ l -> holds set' l' -> l' ≡ₚ x :: l -> rep_list set' l'.
Proof.
  intros (_ & Hnd & Hm) Hx Hn Hh P. split; [exact Hh |]. rewrite P. split; [by apply NoDup_cons | by apply Forall_cons].
Qed.

Definition adds (set : setobj) (x : list Z) (X : gset (list Z)) (r : option (setobj * bool)) : Prop :=
  exists set', r = Some (set', bool_decide (x ∉ X)) /\ set_rep set' ({[x]} ∪ X).

Lemma adds_new set l set' l' x X r : rep_list set l -> (forall y, y ∈ l <-> y ∈ X) -> member x -> x ∉ l ->
  r = Some (set', true) -> holds set' l' -> l' ≡ₚ x :: l -> within set' l' -> adds set x X r.
Proof.
  intros Hl Hx Hm Hn -> Hh P Hw. exists set'. rewrite bool_decide_eq_true_2 by (by rewrite <- Hx). split; [done |].
  eapply set_rep_intro; [eapply rep_list_cons; eauto | exact Hw |]. intros y. rewrite P, elem_of_cons, elem_of_union, elem_of_singleton, Hx. done.
Qed.

Lemma adds_old set l set' l' x X r : rep_list set l -> (forall y, y ∈ l <-> y ∈ X) -> x ∈ l ->
  r = Some (set', false) -> holds set' l' -> l' ≡ₚ l -> within set' l' -> adds set x X r.
Proof.
  intros Hl Hx Hin -> Hh P Hw. exists set'. rewrite bool_decide_eq_false_2 by (rewrite <- Hx; auto). split; [done |].
  destruct Hl as (_ & Hnd & Hm). eapply set_rep_intro; [split; [exact Hh | by rewrite P] | exact Hw |].
  intros y. rewrite P, elem_of_union, elem_of_singleton, Hx. split; [by right | intros [-> |]; [by apply Hx | done]].
Qed.

Lemma add_hash d l x X : rep_list (SHash d) l -> (forall y, y ∈ l <-> y ∈ X) -> zlen l < 2 ^ 58 -> member x ->
  adds (SHash d) x X
    ('(ht, position) ← dictFindPositionForInsert t resize d x;
     match position with
     | PosNew table idx => '(ht, _) ← dictInsertAtPosition t ht x table idx; Some (SHash ht, true)
     | _ => Some (SHash ht, false)
     end).
Proof.
  intros Hl Hx Hsz Hm. pose proof Hl as ([Hwf El] & Hnd & Hml). subst l.
  assert (zlen (elems d) < 2 ^ 58) as Hsz' by (unfold zlen in *; rewrite length_map in Hsz; exact Hsz).
  destruct (add_raw_ok t resize d x Hwf Hsz') as (d' & r & E & Hwf' & _ & Hr). unfold dictAddRaw in E.
  destruct (dictFindPositionForInsert t resize d x) as [[d1 pos] |]; [| done]. cbn [mbind option_bind] in *.
  pose proof (has_key t x (elems d) Hm Hml) as Hh. unfold has in Hh.
  destruct pos as [table idx | p |].
  - destruct (dictInsertAtPosition t d1 (keyDup t x) table idx) as [[d2 p] |] eqn:Ei; [| done]. cbn [mbind option_bind] in E. injection E as -> <-.
    cbn [keyDup setDictType] in Ei. unfold id in Ei. rewrite Ei. cbn [mbind option_bind]. destruct Hr as (Hmt & P & _).
    rewrite Hmt in Hh. symmetry in Hh. apply bool_decide_eq_false in Hh.
    eapply (adds_new (SHash d) _ (SHash d')); [exact Hl | exact Hx | exact Hm | exact Hh | reflexivity | by split | by rewrite P | done].
  - injection E as -> <-. destruct Hr as (P & tab & e & de & kv & he & Hf).
    eapply (adds_old (SHash d) _ (SHash d')); [exact Hl | exact Hx | | reflexivity | by split | by rewrite P | done].
    assert (matches t x (elems d) = [kv]) as Hk.
    { rewrite <- (matches_perm t x (elems d') (elems d)) by (done || apply Hwf'). by eapply found_matches. }
    rewrite Hk in Hh. symmetry in Hh. by apply bool_decide_eq_true in Hh.
  - injection E as <- <-. done.
Qed.

Lemma convert_add_hash set l n x : rep_list set l -> zlen l < 2 ^ 57 -> member x -> x ∉ l ->
  enc_of set <> OBJ_ENCODING_HT -> 0 <= n < 2 ^ 64 ->
  exists d, (
    '(set, _) ← setTypeConvertAndExpand dictSdsHash resize addr junk llbuf set OBJ_ENCODING_HT n true true;
    match set with SHash d => d ← add_new dictSdsHash resize d x; Some (SHash d) | _ => None end) = Some (SHash d) /\
    holds (SHash d) (keys d) /\ keys d ≡ₚ x :: l.
Proof.
  intros Hl Hsz Hm Hn Henc Hc. destruct (convert_hash set l n true true Hl) as (d & -> & Hd & P); [lia | done | done | done |].
  cbn [mbind option_bind]. destruct Hd as ([Hwf _] & Hnd & Hml). destruct (add_new_ok d x Hwf Hml Hm) as (d' & -> & Hwf' & P').
  - by rewrite P.
  - apply Permutation_length in P. rewrite length_map in P. unfold zlen in *. lia.
  - exists d'. split; [done |]. split; [by split |]. by rewrite P', P.
Qed.

Lemma safe_to_add lp es n : lp_rep lp es -> 0 <= n < 2147483648 -> lpSafeToAdd (Some lp) n = Some (lp_off es + 1 + n <=? 1073741824).
Proof.
  intros [k R] Hn. unfold lpSafeToAdd. rewrite (repn_total R). cbn [mbind option_bind]. pose proof (repn_max R). pose proof (lp_off_ge es).
  rewrite u64_id by (unfold is_u64; lia). unfold LISTPACK_MAX_SAFETY_SIZE. by rewrite Z.leb_antisym.
Qed.

Lemma add_listpack lp l e X : rep_list (SListpack lp) l -> (forall y, y ∈ l <-> y ∈ X) -> zlen l < 2 ^ 57 -> elem_in e ->
  adds (SListpack lp) (etext e) X
    (p ← lp_find_first lp (etext e);
     match p with
     | Some _ => Some (SListpack lp, false)
     | None =>
         '(n, lp) ← lpLength lp;
         safe ← lpSafeToAdd (Some lp) (zlen (etext e));
         if (n <? set_max_listpack_entries) && (zlen (etext e) <=? set_max_listpack_value) && safe then
           lp ← lp_append_elem junk e lp; Some (SListpack lp, true)
         else
           '(set, _) ← setTypeConvertAndExpand dictSdsHash resize addr junk llbuf (SListpack lp) OBJ_ENCODING_HT (n + 1) true true;
           match set with SHash d => d ← add_new dictSdsHash resize d (etext e); Some (SHash d, true) | _ => None end
     end).
Proof.
  intros Hl Hx Hsz He. pose proof (etext_member e He) as Hm. pose proof Hl as ((es & R & El) & Hrest).
  destruct (lp_find_first_ok lp es (etext e) R) as (r & -> & Hr). cbn [mbind option_bind]. destruct r as [p |].
  - destruct Hr as (es1 & x & es2 & -> & Ex & ->).
    eapply (adds_old _ _ (SListpack lp)); [exact Hl | exact Hx | | reflexivity | apply Hl | done | done].
    rewrite El, map_app, <- Ex. apply elem_of_app. right. apply list_elem_of_here.
  - rewrite <- El in Hr. destruct R as [k R]. destruct (length_rep _ _ _ R) as (lp1 & k1 & -> & R1 & _). cbn [mbind option_bind].
    assert (rep_list (SListpack lp1) l) as Hl1 by (split; [exists es; split; [by exists k1 | done] | exact Hrest]).
    assert (lp_rep lp1 es) as R1' by (by exists k1). destruct Hm as [Hb Hz] eqn:Em. pose proof (zlen_nonneg (etext e)).
    rewrite (safe_to_add lp1 es) by (done || lia). cbn [mbind option_bind].
    destruct (_ && _ && _) eqn:Esafe.
    + apply andb_true_iff in Esafe as [_ Esafe%Z.leb_le].
      destruct (lp_append_ok junk e lp1 es R1' He) as (lp2 & -> & R2); [lia |]. cbn [mbind option_bind].
      eapply (adds_new _ _ (SListpack lp2) (map entry_str (es ++ [elem_entry e]))); [exact Hl | exact Hx | by split | exact Hr | reflexivity | by eexists | | done].
      rewrite map_app, El. cbn [map]. rewrite elem_entry_str. by rewrite Permutation_app_comm.
    + assert (zlen es = zlen l) as Hes by (rewrite El; unfold zlen; by rewrite length_map).
      pose proof (zlen_nonneg l). destruct (convert_add_hash (SListpack lp1) l (zlen es + 1) (etext e) Hl1) as (d & E & Hd & P); [done | by split | done | done | lia |].
      eapply (adds_new _ _ (SHash d)); [exact Hl | exact Hx | by split | exact Hr | | exact Hd | exact P | done].
      destruct (setTypeConvertAndExpand dictSdsHash resize addr junk llbuf (SListpack lp1) OBJ_ENCODING_HT (zlen es + 1) true true) as [[[] b] |]; try done.
      cbn [mbind option_bind] in *. destruct (add_new dictSdsHash resize ht (etext e)); [| done]. cbn [mbind option_bind] in *. by injection E as ->.
Qed.

Lemma intset_add_string_ok iset s str X : intset_rep iset s -> zlen s <= set_max_intset_entries ->
  (forall y, y ∈ map sdec s <-> y ∈ X) -> member str -> string2ll str = None ->
  adds (SIntset iset) str X
    (set ← intset_add_string dictSdsHash resize addr junk llbuf set_max_listpack_entries set_max_listpack_value iset str; Some (set, true)).
Proof.
  intros R Hb Hx Hm Hstr. unfold INTSET_BOUND in *.
  assert (rep_list (SIntset iset) (map sdec s)) as Hl by (apply rep_intset; [done | unfold INTSET_BOUND; lia]).
  pose proof (zlen_nonneg s) as Hn0. pose proof (intset_i64 _ _ R) as H64. rewrite Forall_forall in H64.
  assert (str ∉ map sdec s) as Hn.
  { intros (v & E & Hv)%list_elem_of_fmap. rewrite E, string2ll_sdec in Hstr by (by apply H64). done. }
  assert (zlen (map sdec s) = zlen s) as Hml by (unfold zlen; by rewrite length_map).
  unfold intset_add_string, intsetLen. rewrite (rep_len _ _ R). cbv zeta.
  assert (exists maxelelen M, (if zlen s =? 0 then Some (0, 0) else v1 ← intsetMax iset; v2 ← intsetMin iset;
      Some (Z.max (sdigits10 v1) (sdigits10 v2), Z.max (lpEstimateBytesRepeatedInteger v1 (zlen s)) (lpEstimateBytesRepeatedInteger v2 (zlen s)))) =
      Some (maxelelen, if zlen s =? 0 then 0 else M * zlen s + 7) /\ 2 <= M <= 14 /\ forall v, v ∈ s -> entry_size v <= M) as (maxelelen & M & -> & HM & HsM).
  { destruct (Z.eqb_spec (zlen s) 0) as [E0 | E0].
    - exists 0, 2. split; [done |]. split; [lia |]. apply zlen_0 in E0. subst s. intros v Hv. by apply not_elem_of_nil in Hv.
    - destruct (intset_min_max iset s R) as (lo & hi & -> & -> & Hlo & Hhi & Hbt); [unfold INTSET_BOUND; lia | lia |]. cbn [mbind option_bind].
      pose proof (entry_size_range lo (H64 _ Hlo)). pose proof (entry_size_range hi (H64 _ Hhi)).
      exists (Z.max (sdigits10 hi) (sdigits10 lo)), (Z.max (entry_size lo) (entry_size hi)). split; [| split; [lia |]].
      + rewrite !entry_size_estimate by (try (by apply H64); unfold INTSET_BOUND; lia). do 2 f_equal. nia.
      + intros v Hv. apply entry_size_between; [by apply H64 | by apply H64 | by apply Hbt]. }
  cbn [mbind option_bind]. destruct Hm as [Hbs Hz]. pose proof (zlen_nonneg str).
  set (totsize := if zlen s =? 0 then 0 else M * zlen s + 7).
  assert (zlen s * M <= totsize /\ totsize < 2 ^ 40) as [Ht Ht'].
  { unfold totsize. destruct (Z.eqb_spec (zlen s) 0); [nia |]. nia. }
  unfold lpSafeToAdd. cbn [mbind option_bind]. rewrite !(u64_id (totsize + zlen str)) by (unfold is_u64; nia).
  rewrite Z.add_0_l, u64_id by (unfold is_u64; nia). unfold LISTPACK_MAX_SAFETY_SIZE.
  destruct (_ && _ && _ && _) eqn:Esafe.
  - apply andb_true_iff in Esafe as [_ Esafe]. apply negb_true_iff, Z.ltb_ge in Esafe.
    destruct (convert_listpack iset s (zlen s + 1) M R) as (lp & es & -> & R1 & Ees & Hoff); [unfold INTSET_BOUND; lia | exact HsM | lia | lia |].
    cbn [mbind option_bind]. destruct (lp_append_ok junk (ElStr str) lp es R1) as (lp2 & -> & [k R2]); [by split | cbn [etext]; lia |].
    cbn [mbind option_bind]. destruct (shrink_rep junk lp2 k _ R2) as (lp3 & -> & R3). cbn [mbind option_bind].
    eapply (adds_new _ _ (SListpack lp3) (map entry_str (es ++ [elem_entry (ElStr str)]))); [exact Hl | exact Hx | by split | exact Hn | reflexivity | | | done].
    + exists (es ++ [elem_entry (ElStr str)]). split; [by exists k | done].
    + rewrite map_app, Ees. cbn [map]. rewrite elem_entry_str. by rewrite Permutation_app_comm.
  - destruct (convert_add_hash (SIntset iset) (map sdec s) (zlen s + 1) str Hl) as (d & -> & Hd & P); [lia | by split | done | done | lia |].
    cbn [mbind option_bind]. eapply (adds_new _ _ (SHash d)); [exact Hl | exact Hx | by split | exact Hn | reflexivity | exact Hd | exact P | done].
Qed.

Lemma setTypeAddAux_ok set X e : set_rep set X -> Z.of_nat (size X) < 2 ^ 57 -> elem_in e ->
  adds set (etext e) X (setTypeAddAux dictSdsHash resize addr junk llbuf set_max_intset_entries set_max_listpack_entries set_max_listpack_value set e).
Proof.
  intros (l & Hl & Hw & Hx & El)%set_rep_elim Hsz He. rewrite <- El in Hsz.
  assert (forall iset v, set = SIntset iset -> is_i64 v -> sdec v = etext e ->
    adds set (etext e) X (add_integer dictSdsHash resize addr junk llbuf set_max_intset_entries iset v)) as Hint.
  { intros iset v -> Hv Ev. pose proof Hl as ((s & R & Hb & ->) & _). cbn [within] in Hw. unfold zlen in Hw. rewrite length_map in Hw.
    destruct (add_integer_ok iset s v R Hw Hv) as (set' & -> & HX). exists set'. rewrite Ev in *.
    assert (list_to_set (map sdec s) = X) as EX by (apply set_eq; intros x; by rewrite elem_of_list_to_set). rewrite EX in HX.
    split; [| exact HX]. do 2 f_equal. apply bool_decide_ext. by rewrite Hx. }
  destruct e as [str | v].
  - unfold setTypeAddAux. cbn [elem_text mbind option_bind etext] in *. destruct set as [iset | lp | d].
    + destruct (string2ll str) as [v |] eqn:Es.
      * destruct (string2ll_inv _ _ Es) as [Hv ->]. by apply Hint.
      * pose proof Hl as ((s & R & Hb & ->) & _). cbn [within] in Hw. unfold zlen in Hw. rewrite length_map in Hw.
        by eapply intset_add_string_ok.
    + exact (add_listpack lp l (ElStr str) X Hl Hx Hsz He).
    + apply (add_hash d l str X Hl Hx); [lia | exact He].
  - destruct set as [iset | lp | d].
    + by apply (Hint iset v).
    + unfold setTypeAddAux. rewrite elem_text_ok by done. exact (add_listpack lp l (ElInt v) X Hl Hx Hsz He).
    + unfold setTypeAddAux. rewrite elem_text_ok by done. cbn [mbind option_bind].
      apply (add_hash d l (etext (ElInt v)) X Hl Hx); [lia | by apply etext_member].
Qed.

(** * Removing *)

Definition removes (x : list Z) (X : gset (list Z)) (r : option (setobj * bool)) : Prop :=
  exists set', r = Some (set', bool_decide (x ∈ X)) /\ set_rep set' (X ∖ {[x]}).

Lemma removes_intro (set : setobj) (l : list (list Z)) (set' : setobj) (l' : list (list Z)) (x : list Z) (X : gset (list Z)) b : rep_list set l -> (forall y, y ∈ l <-> y ∈ X) ->
  holds set' l' -> NoDup l' -> (forall y, y ∈ l' <-> y ∈ l /\ y <> x) -> within set' l' -> (b = true <-> x ∈ X) ->
  removes x X (Some (set', b)).
Proof.
  intros (_ & _ & Hm) Hx Hh Hnd Hl' Hw Hb. exists set'. split.
  - do 2 f_equal. destruct b; symmetry; [apply bool_decide_eq_true; by apply Hb | apply bool_decide_eq_false]. intros Hin. by apply Hb in Hin.
  - eapply (set_rep_intro set' l'); [split; [exact Hh |]; split; [exact Hnd |] | exact Hw |].
    + rewrite Forall_forall in *. intros y Hy. apply Hl' in Hy as [Hy _]. by apply Hm.
    + intros y. rewrite Hl', Hx, elem_of_difference, elem_of_singleton. done.
Qed.

Lemma remove_integer iset s v X : intset_rep iset s -> zlen s <= set_max_intset_entries -> (forall y, y ∈ map sdec s <-> y ∈ X) -> is_i64 v ->
  removes (sdec v) X ('(iset, success) ← intsetRemove junk iset v; Some (SIntset iset, success)).
Proof.
  intros R Hb Hx Hv. unfold INTSET_BOUND in *. pose proof (intset_i64 _ _ R) as H64.
  assert (rep_list (SIntset iset) (map sdec s)) as Hl by (apply rep_intset; [done | unfold INTSET_BOUND; lia]).
  destruct (intsetRemove_spec junk iset s v R) as (iset' & s' & -> & R' & Hin); [lia | done |]. cbn [mbind option_bind].
  assert (zlen s' <= zlen s) as Hle.
  { assert (s' ⊆+ s) as Hs by (apply NoDup_submseteq; [by eapply rep_NoDup | intros x Hxs; by apply Hin]).
    apply submseteq_length in Hs. unfold zlen. lia. }
  eapply (removes_intro (SIntset iset) (map sdec s) (SIntset iset') (map sdec s')); [exact Hl | exact Hx | | | | |].
  - exists s'. split_and!; [done | unfold INTSET_BOUND; lia | done].
  - by eapply intset_NoDup.
  - intros y. rewrite !list_elem_of_fmap. rewrite Forall_forall in H64. split.
    + intros (w & -> & Hw). apply Hin in Hw as [Hw Hne]. split; [by exists w |]. intros E. apply Hne.
      by apply (sdec_inj w v (H64 w Hw) Hv).
    + intros ((w & -> & Hw) & Hne). exists w. split; [done |]. apply Hin. split; [done |]. by intros ->.
  - cbn. unfold zlen in *. rewrite length_map. lia.
  - rewrite bool_decide_eq_true, <- Hx. by rewrite elem_sdec.
Qed.

Lemma remove_hash d l x X : rep_list (SHash d) l -> (forall y, y ∈ l <-> y ∈ X) -> zlen l < 2 ^ 58 -> member x ->
  removes x X
    ('(d, deleted) ← dictDelete t resize d x;
     Some (SHash (if deleted && htNeedsResize d then (dictResize resize d).1 else d), deleted)).
Proof.
  intros Hl Hx Hsz Hm. pose proof Hl as ([Hwf El] & Hnd & Hml). subst l.
  destruct (delete_resize_ok t resize d x Hwf) as (d1 & -> & Hwf2 & P2); [unfold zlen in *; by rewrite length_map in Hsz |].
  cbn [mbind option_bind]. set (d2 := if _ && _ then _ else _) in *. rewrite (has_key t) by done.
  assert (keys d2 ≡ₚ filter (fun y => y <> x) (keys d)) as P by (rewrite P2; by rewrite (others_keys t)).
  eapply (removes_intro (SHash d) (keys d) (SHash d2) (keys d2)); [exact Hl | exact Hx | by split | | | done |].
  - rewrite P. by apply NoDup_filter.
  - intros y. rewrite P, list_elem_of_filter. tauto.
  - by rewrite bool_decide_eq_true, Hx.
Qed.

Lemma remove_listpack lp l x X : rep_list (SListpack lp) l -> (forall y, y ∈ l <-> y ∈ X) -> member x ->
  removes x X
    (p ← lp_find_first lp x;
     match p with
     | Some p => lp ← lp_not_null (lpDelete junk lp p); Some (SListpack lp, true)
     | None => Some (SListpack lp, false)
     end).
Proof.
  intros Hl Hx Hm. pose proof Hl as ((es & R & El) & Hnd & _).
  destruct (lp_find_first_ok lp es x R) as (r & -> & Hr). cbn [mbind option_bind]. destruct r as [p |].
  - destruct Hr as (es1 & e & es2 & -> & Ex & ->). destruct (delete_entry junk lp es1 e es2 R) as (lp' & E & R').
    unfold lp_not_null. rewrite E. cbn [mbind option_bind]. rewrite map_app in El. cbn [map] in El. rewrite Ex in El.
    assert (l ≡ₚ x :: map entry_str (es1 ++ es2)) as P by (by rewrite El, map_app, Permutation_middle).
    rewrite P in Hnd. apply NoDup_cons in Hnd as [Hn Hnd].
    eapply (removes_intro _ l (SListpack lp') (map entry_str (es1 ++ es2))); [exact Hl | exact Hx | by eexists | exact Hnd | | done |].
    + intros y. rewrite P, elem_of_cons. split; [intros Hy; split; [by right | intros ->; done] | intros [[-> | ?] ?]; done].
    + split; [| done]. intros _. apply Hx. rewrite P. apply list_elem_of_here.
  - rewrite <- El in Hr. eapply (removes_intro _ l (SListpack lp) l); [exact Hl | exact Hx | apply Hl | exact Hnd | | done |].
    + intros y. split; [intros Hy; split; [done | by intros ->] | tauto].
    + split; [done |]. intros Hin. by apply Hx in Hin.
Qed.

Lemma remove_nothing set l x X : rep_list set l -> within set l -> (forall y, y ∈ l <-> y ∈ X) -> x ∉ l -> removes x X (Some (set, false)).
Proof.
  intros Hl Hw Hx Hn. eapply (removes_intro _ l set l); [exact Hl | exact Hx | apply Hl | apply Hl | | exact Hw |].
  - intros y. split; [intros Hy; split; [done | by intros ->] | tauto].
  - split; [done |]. intros Hin. by apply Hx in Hin.
Qed.

Lemma not_integer_member s str : Forall is_i64 s -> string2ll str = None -> str ∉ map sdec s.
Proof.
  intros H64 Hs (v & -> & Hv)%list_elem_of_fmap. rewrite Forall_forall in H64. by rewrite string2ll_sdec in Hs by (by apply H64).
Qed.

Lemma setTypeRemoveAux_ok set X e : set_rep set X -> Z.of_nat (size X) < 2 ^ 58 -> elem_in e ->
  removes (etext e) X (setTypeRemoveAux dictSdsHash resize junk llbuf set e).
Proof.
  intros (l & Hl & Hw & Hx & El)%set_rep_elim Hsz He. rewrite <- El in Hsz.
  assert (forall iset v, set = SIntset iset -> is_i64 v -> sdec v = etext e ->
    removes (etext e) X ('(iset, success) ← intsetRemove junk iset v; Some (SIntset iset, success))) as Hint.
  { intros iset v -> Hv Ev. pose proof Hl as ((s & R & Hb & ->) & _). cbn [within] in Hw. unfold zlen in Hw. rewrite length_map in Hw.
    rewrite <- Ev. by eapply remove_integer. }
  destruct e as [str | v]; unfold setTypeRemoveAux.
  - cbn [elem_text mbind option_bind etext] in *. destruct set as [iset | lp | d].
    + destruct (string2ll str) as [v |] eqn:Es.
      * destruct (string2ll_inv _ _ Es) as [Hv ->]. by apply Hint.
      * eapply remove_nothing; [exact Hl | exact Hw | exact Hx |]. destruct Hl as ((s & R & Hb & ->) & _).
        apply not_integer_member; [by eapply intset_i64 | done].
    + by eapply remove_listpack.
    + by eapply remove_hash.
  - destruct set as [iset | lp | d]; [by apply Hint | |]; rewrite elem_text_ok by done; cbn [mbind option_bind].
    + eapply remove_listpack; [exact Hl | exact Hx | by apply etext_member].
    + eapply remove_hash; [exact Hl | exact Hx | exact Hsz | by apply etext_member].
Qed.

(** * Membership *)

Lemma find_hash (d : dict (list Z) unit) (l : list (list Z)) (x : list Z) (X : gset (list Z)) : rep_list (SHash d) l -> (forall y, y ∈ l <-> y ∈ X) -> member x ->
  exists set', ('(d, p) ← dictFind t resize d x; Some (SHash d, bool_decide (is_Some p))) = Some (set', bool_decide (x ∈ X)) /\ set_rep set' X.
Proof.
  intros Hl Hx Hm. pose proof Hl as ([Hwf El] & Hnd & Hml). subst l.
  assert (exists d1 r, dictFind t resize d x = Some (d1, r) /\ wf t d1 /\ elems d1 ≡ₚ elems d /\ bool_decide (is_Some r) = has t x (elems d)) as (d1 & r & -> & Hwf1 & P & Hr).
  { unfold dictFind. destruct (dictSize d =? 0) eqn:Ez.
    - apply (size_zero t d Hwf) in Ez. exists d, None. rewrite Ez. by split.
    - destruct (lookup_ok t resize d x Hwf (nonempty t d Hwf Ez)) as (d1 & r & -> & (Hwf1 & P & _) & _ & E & Hr).
      cbn [mbind option_bind]. rewrite E. exists d1, r. split; [done |]. split; [done |]. split; [done |].
      unfold has. rewrite <- (matches_perm t x (elems d1) (elems d)) by (done || apply Hwf1).
      destruct r as [p |]; cbn [find_result] in Hr; [| by rewrite Hr].
      destruct Hr as (tab & e & de & kv & he & Hf). by rewrite (found_matches t d1 x p tab e de kv he Hwf1 Hf). }
  cbn [mbind option_bind]. rewrite Hr, (has_key t) by done. exists (SHash d1). split; [do 2 f_equal; by apply bool_decide_ext |].
  eapply set_rep_intro; [eapply (rep_hash d1 (keys d)); [done | by rewrite P | done | done] | done |].
  intros y. rewrite P. apply Hx.
Qed.

Lemma setTypeIsMemberAux_ok set X e : set_rep set X -> Z.of_nat (size X) < 2 ^ 58 -> elem_in e ->
  exists set', setTypeIsMemberAux dictSdsHash resize llbuf set e = Some (set', bool_decide (etext e ∈ X)) /\ set_rep set' X.
Proof.
  intros HX Hsz He. pose proof HX as (l & Hl & Hw & Hx & El)%set_rep_elim. rewrite <- El in Hsz.
  pose proof (etext_member e He) as Hm.
  assert (forall iset v, set = SIntset iset -> is_i64 v -> sdec v = etext e -> intsetFind iset v = Some (bool_decide (etext e ∈ X))) as Hint.
  { intros iset v -> Hv Ev. pose proof Hl as ((s & R & Hb & ->) & _). unfold INTSET_BOUND in *. rewrite (intsetFind_spec iset s v R) by (unfold small; done || lia).
    f_equal. apply bool_decide_ext. rewrite <- Hx, <- Ev. symmetry. apply elem_sdec; [done | by eapply intset_i64]. }
  assert (forall lp, set = SListpack lp -> exists p, lp_find_first lp (etext e) = Some p /\ bool_decide (is_Some p) = bool_decide (etext e ∈ X)) as Hlp.
  { intros lp ->. destruct Hl as ((es & R & ->) & _). destruct (lp_find_first_ok lp es (etext e) R) as (r & -> & Hr). exists r. split; [done |].
    destruct r as [p |].
    - destruct Hr as (es1 & x & es2 & -> & Ex & ->). rewrite !bool_decide_eq_true_2; [done | | done].
      rewrite <- Hx, map_app, <- Ex. apply elem_of_app. right. apply list_elem_of_here.
    - rewrite !bool_decide_eq_false_2; [done | by rewrite <- Hx | by intros [? ?]]. }
  assert (forall d, set = SHash d -> exists set', ('(d, p) ← dictFind t resize d (etext e); Some (SHash d, bool_decide (is_Some p))) =
    Some (set', bool_decide (etext e ∈ X)) /\ set_rep set' X) as Hht by (intros d ->; by eapply find_hash).
  destruct e as [str | v]; unfold setTypeIsMemberAux.
  - cbn [elem_text mbind option_bind etext] in *. destruct set as [iset | lp | d].
    + exists (SIntset iset). split; [| done]. destruct (string2ll str) as [v |] eqn:Es.
      * destruct (string2ll_inv _ _ Es) as [Hv ->]. by rewrite (Hint iset v).
      * rewrite bool_decide_eq_false_2; [done |]. rewrite <- Hx. destruct Hl as ((s & R & Hb & ->) & _).
        apply not_integer_member; [by eapply intset_i64 | done].
    + destruct (Hlp lp eq_refl) as (p & -> & <-). by exists (SListpack lp).
    + exact (Hht d eq_refl).
  - destruct set as [iset | lp | d].
    + rewrite (Hint iset v) by done. by exists (SIntset iset).
    + rewrite elem_text_ok by done. cbn [mbind option_bind]. destruct (Hlp lp eq_refl) as (p & -> & <-). by exists (SListpack lp).
    + rewrite elem_text_ok by done. cbn [mbind option_bind]. exact (Hht d eq_refl).
Qed.

(** * Conversion to an intset, and copies *)

Lemma maybeConvertToIntset_ok set X : set_rep set X -> (forall x, x ∈ X -> is_Some (string2ll x)) ->
  exists set', maybeConvertToIntset addr junk set_max_intset_entries set = Some set' /\ set_rep set' X.
Proof.
  intros HX Hint. unfold maybeConvertToIntset. rewrite max_entries.
  assert (exists set', (
    '(set, n) ← setTypeSize set;
    if set_max_intset_entries <? n then Some set
    else
      iset ← set_iterate addr (fun _ => Some set)
        (fun e iset =>
           llval ← (match e with ElStr str => string2ll str | ElInt llval => Some llval end);
           '(iset, success) ← intsetAdd junk iset llval;
           _ ← assert_ success;
           Some (iset, false)) intsetNew;
      Some (SIntset iset)) = Some set' /\ set_rep set' X) as Hconv; [| by destruct set; [exists (SIntset iset) | exact Hconv | exact Hconv]].
  destruct (set_rep_elim set X HX) as (l & Hl & Hw & Hx & El). destruct (setTypeSize_list set l Hl) as (set1 & -> & Hl1 & _ & Hw1).
  cbn [mbind option_bind]. destruct (Z.ltb_spec set_max_intset_entries (zlen l)) as [Hgt | Hle].
  { exists set1. split; [done |]. eapply set_rep_intro; [exact Hl1 | by apply Hw1 | exact Hx]. }
  pose proof Hl1 as (_ & Hnd & _). unfold INTSET_BOUND in *.
  match goal with |- context [set_iterate addr _ ?f intsetNew] =>
    destruct (set_iterate_ok (fun rest iset => exists s, intset_rep iset s /\ map sdec s ++ rest ≡ₚ l) (fun _ => False) set1 l Hl1
      (fun _ => Some set1) f) with (s := intsetNew) as (iset & E & [(s & R & P) | []]); [done | done | | |] end.
  - intros e rest iset (s & R & P) He _.
    assert (exists v, match e with ElStr str => string2ll str | ElInt llval => Some llval end = Some v /\ is_i64 v /\ sdec v = etext e) as (v & -> & Hv & Ev).
    { destruct e as [str | v]; [| by exists v]. destruct (Hint str) as [v Ev].
      - apply Hx. rewrite <- P. apply elem_of_app. right. apply list_elem_of_here.
      - exists v. destruct (string2ll_inv _ _ Ev) as [Hv ->]. done. }
    cbn [mbind option_bind]. pose proof (Permutation_length P) as Hlen. rewrite length_app, length_map in Hlen. cbn [length] in Hlen.
    destruct (intsetAdd_spec junk iset s v R) as (iset' & s' & -> & R' & Hin); [unfold zlen in *; lia | done |]. cbn [mbind option_bind].
    assert (v ∉ s) as Hn.
    { rewrite <- P in Hnd. apply NoDup_app in Hnd as (_ & Hd & _). intros Hvs. apply (Hd (sdec v)).
      - apply list_elem_of_fmap. by exists v.
      - rewrite Ev. apply list_elem_of_here. }
    rewrite (bool_decide_eq_true_2 _ Hn). cbn [assert_ mbind option_bind]. exists iset', false. split; [done |]. exists s'. split; [done |].
    assert (s' ≡ₚ v :: s) as Ps.
    { apply NoDup_Permutation; [by eapply rep_NoDup | apply NoDup_cons; split; [done | by eapply rep_NoDup] |].
      intros x. by rewrite elem_of_cons, Hin. }
    rewrite Ps. cbn [map app]. by rewrite Ev, Permutation_middle.
  - exists []. split; [apply intsetNew_rep | done].
  - rewrite E. cbn [mbind option_bind]. rewrite app_nil_r in P. exists (SIntset iset). split; [done |].
    assert (zlen s = zlen l) as Hsl by (apply Permutation_length in P; rewrite length_map in P; unfold zlen; lia).
    eapply (set_rep_intro _ (map sdec s)); [apply rep_intset; [done | unfold INTSET_BOUND; lia] | |].
    + cbn. unfold zlen in *. rewrite length_map. lia.
    + intros x. by rewrite P.
Qed.

Notation add := (setTypeAddAux dictSdsHash resize addr junk llbuf set_max_intset_entries set_max_listpack_entries set_max_listpack_value).

Lemma setTypeDup_ok set X : set_rep set X -> Z.of_nat (size X) < 2 ^ 57 ->
  exists set', setTypeDup dictSdsHash resize addr junk llbuf set_max_intset_entries set_max_listpack_entries set_max_listpack_value set = Some set' /\
    set_rep set' X.
Proof.
  intros HX Hsz. pose proof HX as (l & Hl & Hw & Hx & El)%set_rep_elim. destruct set as [iset | lp | d]; cbn [setTypeDup].
  - destruct Hl as ((s & R & Hb & ->) & _). exists (SIntset iset). split; [| exact HX]. unfold INTSET_BOUND in *.
    pose proof (rep_size _ _ R) as Hc. pose proof (rep_enc _ _ R) as He. pose proof (zlen_nonneg s).
    unfold intsetBlobLen, sizeof_intset. rewrite (rep_len _ _ R), u64_id by (unfold is_u64, enc_ok in *; nia).
    replace (8 + zlen s * intrev32ifbe (encoding iset) - 8) with (zlen (contents iset)) by lia.
    pose proof (rdn_app [] (contents iset) [] 0 (zlen (contents iset)) eq_refl eq_refl) as E. cbn [app] in E. rewrite app_nil_r in E.
    rewrite E. cbn [mbind option_bind]. by destruct iset.
  - destruct Hl as ((es & [n R] & ->) & Hrest). rewrite (dup_rep _ _ _ R). cbn [mbind option_bind]. eexists. split; [reflexivity |].
    eapply set_rep_intro; [split; [exists es; split; [exists n | reflexivity] | exact Hrest] | done | exact Hx].
    destruct R as [_ R]. split; [exists []; by rewrite app_nil_r | exact R].
  - assert (0 <= dictSize d < 2 ^ 64) as Hds by (unfold dictSize, u64; apply Z.mod_pos_bound; lia).
    destruct (expand_new t (dictSize d) Hds) as [W E0].
    match goal with |- context [set_iterate addr _ ?f ?s0] =>
      destruct (set_iterate_ok (fun rest set => exists Y, set_rep set Y /\ Y ∪ list_to_set rest = X) (fun _ => False) (SHash d) l Hl
        (fun _ => Some (SHash d)) f) with (s := s0) as (set' & E & [(Y & HY & EY) | []]); [done | done | | |] end.
    + intros e rest set (Y & HY & EY) He _. assert (Z.of_nat (size Y) < 2 ^ 57) as HsY.
      { assert (size Y <= size X)%nat; [apply subseteq_size; set_solver | lia]. }
      destruct (setTypeAddAux_ok set Y e HY HsY He) as (set' & E & HY'). rewrite E. cbn [mbind option_bind].
      eexists _, false. split; [reflexivity |]. exists ({[etext e]} ∪ Y). split; [exact HY' |]. rewrite <- EY. set_solver.
    + exists ∅. split; [| apply set_eq; intros x; rewrite elem_of_union, elem_of_list_to_set, Hx; set_solver].
      eapply (set_rep_intro _ []); [split; [split; [exact W | by rewrite E0] | split; [apply NoDup_nil_2 | apply Forall_nil_2]] | done | set_solver].
    + rewrite E. exists set'. split; [done |]. replace X with Y; [done |]. rewrite <- EY. set_solver.
Qed.
End set_type.
