(* ===== verification/SetRun.v ===== *)
(** t_set.c: any use of a set through the operations of the data type, across
    its encodings and their conversions, is that of a mathematical set. *)
From stdpp Require Import strings gmap.
From S2P Require Import Prelude Endian Strnum Intset Listpack ListpackCodec ListpackSpec Dict DictInv DictIter Element SetType SetTypeThms.

Inductive set_op :=
| OAdd (e : setelem) | ORemove (e : setelem) | OIsMember (e : setelem) | OSize
| OMaybeConvert (size_hint : Z) | OMaybeToIntset | ODup.

Section run.
Context `{Host} (dictSdsHash : list Z -> Z) (resize : dictResizeEnable) (addr : bool -> Z) (junk : nat -> Z) (llbuf : list Z).
Context (set_max_intset_entries set_max_listpack_entries set_max_listpack_value : Z).

(** The result of an operation, a number or a boolean. *)
Definition run_set_op (op : set_op) (set : setobj) : option (setobj * Z) :=
  match op with
  | OAdd e =>
      '(set, b) ← setTypeAddAux dictSdsHash resize addr junk llbuf set_max_intset_entries set_max_listpack_entries set_max_listpack_value set e;
      Some (set, Z.b2z b)
  | ORemove e => '(set, b) ← setTypeRemoveAux dictSdsHash resize junk llbuf set e; Some (set, Z.b2z b)
  | OIsMember e => '(set, b) ← setTypeIsMemberAux dictSdsHash resize llbuf set e; Some (set, Z.b2z b)
  | OSize => setTypeSize set
  | OMaybeConvert n =>
      set ← setTypeMaybeConvert dictSdsHash resize addr junk llbuf set_max_intset_entries set_max_listpack_entries set n; Some (set, 0)
  | OMaybeToIntset => set ← maybeConvertToIntset addr junk set_max_intset_entries set; Some (set, 0)
  | ODup =>
      set ← setTypeDup dictSdsHash resize addr junk llbuf set_max_intset_entries set_max_listpack_entries set_max_listpack_value set;
      Some (set, 0)
  end.

Fixpoint run_set (ops : list set_op) (set : setobj) : option (setobj * list Z) :=
  match ops with
  | [] => Some (set, [])
  | op :: ops => '(set, n) ← run_set_op op set; '(set, ns) ← run_set ops set; Some (set, n :: ns)
  end.

(** The elements of a set, by an iteration. *)
Definition members (set : setobj) : option (list (list Z)) :=
  set_iterate addr (fun _ => Some set) (fun e l => str ← elem_text llbuf e; Some (l ++ [str], false)) [].
End run.

(** The same on a mathematical set. *)
Definition set_op_spec (op : set_op) (X : gset (list Z)) : gset (list Z) * Z :=
  match op with
  | OAdd e => ({[etext e]} ∪ X, Z.b2z (bool_decide (etext e ∉ X)))
  | ORemove e => (X ∖ {[etext e]}, Z.b2z (bool_decide (etext e ∈ X)))
  | OIsMember e => (X, Z.b2z (bool_decide (etext e ∈ X)))
  | OSize => (X, Z.of_nat (size X))
  | OMaybeConvert _ | OMaybeToIntset | ODup => (X, 0)
  end.
Fixpoint set_spec (ops : list set_op) (X : gset (list Z)) : gset (list Z) * list Z :=
  match ops with
  | [] => (X, [])
  | op :: ops => let r := set_op_spec op X in let rs := set_spec ops r.1 in (rs.1, r.2 :: rs.2)
  end.

(** Elements are strings of bytes shorter than 2^31, or 64 bit integers; the
    conversion to an intset is for sets of integers. *)
Definition set_op_ok (op : set_op) (X : gset (list Z)) : Prop :=
  match op with
  | OAdd e | ORemove e | OIsMember e => elem_in e
  | OMaybeConvert n => 0 <= n < 2 ^ 64
  | OMaybeToIntset => forall x, x ∈ X -> is_Some (string2ll x)
  | OSize | ODup => True
  end.
Fixpoint set_ops_ok (ops : list set_op) (X : gset (list Z)) : Prop :=
  match ops with
  | [] => True
  | op :: ops => Z.of_nat (size X) < 2 ^ 57 /\ set_op_ok op X /\ set_ops_ok ops (set_op_spec op X).1
  end.

Section refine.
Context `{Host} (dictSdsHash : list Z -> Z) (resize : dictResizeEnable) (addr : bool -> Z) (junk : nat -> Z) (llbuf : list Z).
Context (set_max_intset_entries set_max_listpack_entries set_max_listpack_value : Z).
Context (hash_range : forall k, 0 <= dictSdsHash k < 2 ^ 64).
Context (hash_compare : forall k1 k2, dictSdsKeyCompare k1 k2 = true -> dictSdsHash k1 = dictSdsHash k2).
Context (Hll : zlen llbuf = LONG_STR_SIZE) (Hmax : 0 <= set_max_intset_entries < INTSET_BOUND).
Notation run_set := (run_set dictSdsHash resize addr junk llbuf set_max_intset_entries set_max_listpack_entries set_max_listpack_value).
Notation run_set_op := (run_set_op dictSdsHash resize addr junk llbuf set_max_intset_entries set_max_listpack_entries set_max_listpack_value).
Notation set_rep := (set_rep dictSdsHash set_max_intset_entries).

Lemma run_set_op_ok op set X : set_rep set X -> Z.of_nat (size X) < 2 ^ 57 -> set_op_ok op X ->
  exists set', run_set_op op set = Some (set', (set_op_spec op X).2) /\ set_rep set' (set_op_spec op X).1.
Proof.
  intros HX Hsz Hop. destruct op as [e | e | e | | n | |]; cbn [set_op_ok SetRun.run_set_op set_op_spec fst snd] in *.
  - destruct (setTypeAddAux_ok dictSdsHash resize addr junk llbuf set_max_intset_entries set_max_listpack_entries set_max_listpack_value
      hash_range hash_compare Hll Hmax set X e HX Hsz Hop) as (set' & -> & H'). by exists set'.
  - edestruct (setTypeRemoveAux_ok dictSdsHash resize) as (set' & E & H'); [eassumption.. | | exact Hop |]; [lia |]. rewrite E. by exists set'.
  - edestruct (setTypeIsMemberAux_ok dictSdsHash resize) as (set' & E & H'); [eassumption.. | | exact Hop |]; [lia |]. rewrite E. by exists set'.
  - by eapply setTypeSize_ok.
  - edestruct (setTypeMaybeConvert_ok dictSdsHash resize) as (set' & E & H'); [eassumption.. | | exact Hop |]; [lia |]. rewrite E. by exists set'.
  - edestruct (maybeConvertToIntset_ok dictSdsHash addr) as (set' & E & H'); [eassumption.. |]. rewrite E. by exists set'.
  - edestruct (setTypeDup_ok dictSdsHash resize) as (set' & E & H'); [eassumption.. |]. rewrite E. by exists set'.
Qed.
Lemma run_set_ok ops : forall set (X : gset (list Z)), set_rep set X -> set_ops_ok ops X ->
  exists set', run_set ops set = Some (set', (set_spec ops X).2) /\ set_rep set' (set_spec ops X).1.
Proof.
  induction ops as [| op ops IH]; intros set X HX Hops; cbn [set_ops_ok SetRun.run_set set_spec fst snd] in *; [by exists set |].
  destruct Hops as (Hsz & Hop & Hops). destruct (run_set_op_ok op set X HX Hsz Hop) as (set1 & -> & H1). cbn [mbind option_bind].
  destruct (IH _ _ H1 Hops) as (set2 & -> & H2). cbn [mbind option_bind]. by exists set2.
Qed.

(** An iteration visits every element once. *)
Lemma members_ok (set : setobj) (X : gset (list Z)) : set_rep set X -> exists l : list (list Z), members addr llbuf set = Some l /\ l ≡ₚ elements X.
Proof.
  intros (l & Hl & _ & Hx & _)%set_rep_elim. unfold members.
  match goal with |- context [set_iterate addr _ ?f []] =>
    destruct (set_iterate_ok dictSdsHash addr llbuf (fun rest done_ => done_ ++ rest = l) (fun _ => False) set l Hl (fun _ => Some set) f)
      with (s := @nil (list Z)) as (r & E & [Hr | []]); [done | done | | done |] end.
  - intros e rest r Hr He _. rewrite (elem_text_ok llbuf e Hll He). cbn [mbind option_bind]. eexists _, false. split; [reflexivity |].
    cbn. by rewrite <- app_assoc.
  - rewrite app_nil_r in Hr. subst r. exists l. split; [exact E |]. apply NoDup_Permutation; [by apply Hl | apply NoDup_elements |].
    intros x. by rewrite elem_of_elements.
Qed.

End refine.

(** C22: Whatever sequence of insertions, removals, membership tests, sizes,
    conversions and copies is made on a set created for a value and a size
    hint, it runs to its end whichever of the three encodings the set goes
    through (an intset that gets a string becomes a listpack or a hash table,
    one that outgrows its limit a hash table, and so on), whatever the limits
    of the configuration, the hash function, the resizing policy and the
    content of fresh memory are; each operation returns what the mathematical
    set returns, and an iteration then gives exactly the elements of that set,
    each once. *)
Theorem setType_refines_set `{Host} (dictSdsHash : list Z -> Z) (resize : dictResizeEnable) (addr : bool -> Z) (junk : nat -> Z) (llbuf : list Z)
    (set_max_intset_entries set_max_listpack_entries set_max_listpack_value : Z)
    (hash_range : forall k, 0 <= dictSdsHash k < 2 ^ 64)
    (hash_compare : forall k1 k2, dictSdsKeyCompare k1 k2 = true -> dictSdsHash k1 = dictSdsHash k2)
    (Hll : zlen llbuf = LONG_STR_SIZE) (Hmax : 0 <= set_max_intset_entries < INTSET_BOUND)
    (value : list Z) (size_hint : Z) (Hn : 0 <= size_hint < 2 ^ 64) (ops : list set_op) (Hops : set_ops_ok ops ∅) :
  exists (set0 set' : setobj) (l : list (list Z)),
    setTypeCreate junk set_max_intset_entries set_max_listpack_entries value size_hint = Some set0 /\
    run_set dictSdsHash resize addr junk llbuf set_max_intset_entries set_max_listpack_entries set_max_listpack_value ops set0 =
      Some (set', (set_spec ops ∅).2) /\
    members addr llbuf set' = Some l /\ l ≡ₚ elements (set_spec ops ∅).1.
Proof.
  destruct (setTypeCreate_ok dictSdsHash junk set_max_intset_entries set_max_listpack_entries Hmax value size_hint Hn) as (set0 & E0 & H0).
  destruct (run_set_ok dictSdsHash resize addr junk llbuf set_max_intset_entries set_max_listpack_entries set_max_listpack_value
    hash_range hash_compare Hll Hmax ops set0 ∅ H0 Hops) as (set' & E & H').
  destruct (members_ok dictSdsHash addr llbuf set_max_intset_entries Hll set' _ H') as (l & El & P).
  by exists set0, set', l.
Qed.

Lemma setType_refines_set_witness :
  let H : Host := false in
  let ops := [OAdd (ElStr [53]); OAdd (ElInt 77); OAdd (ElStr [120]); OAdd (ElInt 5); OMaybeConvert 3; ORemove (ElStr [55; 55]); OSize;
              OAdd (ElStr [97; 98]); OAdd (ElStr [99]); OIsMember (ElStr [120]); ODup; OSize] in
  exists (set0 set' : setobj) (l : list (list Z)),
    setTypeCreate (fun _ => 0) 2 3 [53] 1 = Some set0 /\
    run_set sum_hash DICT_RESIZE_ENABLE (fun _ => 0) (fun _ => 0) (replicate 21 0) 2 3 8 ops set0 = Some (set', [1; 1; 1; 0; 0; 1; 2; 1; 1; 1; 0; 4]) /\
    members (fun _ => 0) (replicate 21 0) set' = Some l /\ l ≡ₚ elements (set_spec ops ∅).1.
Proof.
  exact (setType_refines_set (H := false) sum_hash DICT_RESIZE_ENABLE (fun _ => 0) (fun _ => 0) (replicate 21 0) 2 3 8
    (fun k => Z.mod_pos_bound _ (2 ^ 64) ltac:(lia)) sum_hash_compare eq_refl ltac:(unfold INTSET_BOUND; lia) [53] 1 ltac:(lia)
    [OAdd (ElStr [53]); OAdd (ElInt 77); OAdd (ElStr [120]); OAdd (ElInt 5); OMaybeConvert 3; ORemove (ElStr [55; 55]); OSize;
     OAdd (ElStr [97; 98]); OAdd (ElStr [99]); OIsMember (ElStr [120]); ODup; OSize]
    ltac:(repeat split; try (vm_compute; done); try (repeat constructor; unfold byte; lia))).
Defined.
