(* ===== verification/HashType.v ===== *)
(** t_hash.c, the hash data type: fields and their values kept as a listpack,
    where each field is followed by its value, or as a hash table.

    A value found is a string or an integer ([setelem]), as [(vstr, vlen)] and
    [vll] in the code.  Whether a string is copied or taken over ([flags]) is
    left out, and so are the release of memory and the reference counts.  The
    parameters are those of SetType.v. *)
From stdpp Require Import gmap.
From S2P Require Import Prelude Endian Strnum Listpack Dict DictIter Element.

Definition hashDictType (dictSdsHash : list Z -> Z) : dictType (list Z) (list Z) :=
  DictType (list Z) (list Z) dictSdsHash id id dictSdsKeyCompare (fun _ _ _ => true) false false (fun _ => false) 0.

Inductive hashobj := HListpack (lp : list Z) | HHash (ht : dict (list Z) (list Z)).
Definition hash_enc (o : hashobj) : setenc := match o with HListpack _ => OBJ_ENCODING_LISTPACK | HHash _ => OBJ_ENCODING_HT end.

(** The iterator has the pointers to a pair, or the iterator of the hash table
    and its entry. *)
Inductive hashTypeIterator :=
| HiListpack (fptr vptr : option Z)
| HiHash (di : dictIterator (list Z) (list Z)) (de : option (dictEntry (list Z) (list Z))).
Inductive hash_what := OBJ_HASH_KEY | OBJ_HASH_VALUE.

Section hash_type.
Context (dictSdsHash : list Z -> Z) (resize : dictResizeEnable) (addr : bool -> Z) (junk : nat -> Z) (llbuf : list Z).
Context (hash_max_listpack_entries hash_max_listpack_value : Z).
Notation t := (hashDictType dictSdsHash).

Definition createHashObject : option hashobj := zl ← lpNew junk 0; Some (HListpack zl).

(** [lpLength] may write the number of entries it has counted. *)
Definition hashTypeLength (o : hashobj) : option (hashobj * Z) :=
  match o with
  | HListpack lp => '(n, lp) ← lpLength lp; Some (HListpack lp, n / 2)
  | HHash d => Some (o, dictSize d)
  end.

(** ** Reading *)

(** [lpGetValue], with the bytes of a string. *)
Definition lp_value (lp : list Z) (p : Z) : option setelem :=
  v ← lpGetValue lp p;
  match v with
  | LpInt val => Some (ElInt val)
  | LpStr off count => str ← rdn lp off count; Some (ElStr str)
  | LpBuf s => Some (ElStr s)
  end.

(** [lpFind] from the first entry, over every other entry: the place of a
    field. *)
Definition lp_find_field (zl field : list Z) : option (option Z) :=
  fptr ← lpFirst zl;
  match fptr with Some fptr => lpFind zl fptr field 1 | None => Some None end.

(** The value after a field. *)
Definition lp_after (zl : list Z) (fptr : Z) : option Z := vptr ← lpNext zl fptr; vptr.

Definition hashTypeGetFromListpack (zl field : list Z) : option (option setelem) :=
  fptr ← lp_find_field zl field;
  match fptr with
  | Some fptr => vptr ← lp_after zl fptr; v ← lp_value zl vptr; Some (Some v)
  | None => Some None
  end.

Definition hashTypeGetFromHashTable (d : dict (list Z) (list Z)) (field : list Z) : option (dict (list Z) (list Z) * option (list Z)) :=
  '(d, de) ← dictFind t resize d field;
  match de with
  | None => Some (d, None)
  | Some de => he ← entry_at d de; v ← dictGetVal he; Some (d, v)
  end.

(** A lookup may move a bucket of a hash table that is being rehashed. *)
Definition hashTypeGetValue (o : hashobj) (field : list Z) : option (hashobj * option setelem) :=
  match o with
  | HListpack zl => v ← hashTypeGetFromListpack zl field; Some (o, v)
  | HHash d => '(d, v) ← hashTypeGetFromHashTable d field; Some (HHash d, option_map ElStr v)
  end.

Definition hashTypeGetValueLength (o : hashobj) (field : list Z) : option (hashobj * Z) :=
  '(o, v) ← hashTypeGetValue o field;
  Some (o, match v with Some (ElStr vstr) => zlen vstr | Some (ElInt vll) => sdigits10 vll | None => 0 end).

Definition hashTypeExists (o : hashobj) (field : list Z) : option (hashobj * bool) :=
  '(o, v) ← hashTypeGetValue o field; Some (o, bool_decide (is_Some v)).

(** ** Iteration *)

Definition hashTypeInitIterator (subject : hashobj) : hashTypeIterator :=
  match subject with HListpack _ => HiListpack None None | HHash _ => HiHash (dictGetIterator 0) None end.

Definition hashTypeReleaseIterator (subject : hashobj) (hi : hashTypeIterator) : option unit :=
  match subject, hi with
  | HHash d, HiHash di _ => _ ← dictReleaseIterator addr di d; Some tt
  | _, _ => Some tt
  end.

(** The boolean is C_OK: there is a next pair. *)
Definition hashTypeNext (subject : hashobj) (hi : hashTypeIterator) : option (hashTypeIterator * bool) :=
  match subject, hi with
  | HListpack zl, HiListpack fptr vptr =>
      fptr ← (match fptr with
              | None => _ ← assert_ (bool_decide (vptr = None)); lpFirst zl
              | Some _ => vptr ← vptr; lpNext zl vptr
              end : option (option Z));
      match fptr with
      | None => Some (hi, false)
      | Some fptr => vptr ← lp_after zl fptr; Some (HiListpack (Some fptr) (Some vptr), true)
      end
  | HHash d, HiHash di _ =>
      '(_, di, de) ← dictNext addr d di;
      Some (HiHash di de, bool_decide (is_Some de))
  | _, _ => None
  end.

Definition hashTypeCurrentFromListpack (zl : list Z) (fptr vptr : option Z) (what : hash_what) : option setelem :=
  p ← (match what with OBJ_HASH_KEY => fptr | OBJ_HASH_VALUE => vptr end);
  lp_value zl p.

Definition hashTypeCurrentFromHashTable (de : option (dictEntry (list Z) (list Z))) (what : hash_what) : option (list Z) :=
  de ← de;
  match what with OBJ_HASH_KEY => dictGetKey de | OBJ_HASH_VALUE => v ← dictGetVal de; v end.

Definition hashTypeCurrentObject (subject : hashobj) (hi : hashTypeIterator) (what : hash_what) : option setelem :=
  match subject, hi with
  | HListpack zl, HiListpack fptr vptr => hashTypeCurrentFromListpack zl fptr vptr what
  | HHash _, HiHash _ de => ele ← hashTypeCurrentFromHashTable de what; Some (ElStr ele)
  | _, _ => None
  end.

(** An integer is printed ([sdsfromlonglong]). *)
Definition hashTypeCurrentObjectNewSds (subject : hashobj) (hi : hashTypeIterator) (what : hash_what) : option (list Z) :=
  e ← hashTypeCurrentObject subject hi what; elem_text llbuf e.

(** [while (hashTypeNext(hi) != C_ERR)] *)
Fixpoint hash_each {S} (fuel : nat) (subject : hashobj) (hi : hashTypeIterator) (body : hashTypeIterator -> S -> option S) (s : S) :
    option (hashTypeIterator * S) :=
  match fuel with
  | O => None
  | Datatypes.S fuel =>
      '(hi, more) ← hashTypeNext subject hi;
      if (more : bool) then s ← body hi s; hash_each fuel subject hi body s else Some (hi, s)
  end.

(** A bound of the number of turns. *)
Definition hash_turns (o : hashobj) : nat := match o with HListpack lp => length lp | HHash d => S (Z.to_nat (dictSize d)) end.

Definition hash_iterate {S} (subject : hashobj) (body : hashTypeIterator -> S -> option S) (s : S) : option S :=
  '(hi, s) ← hash_each (hash_turns subject) subject (hashTypeInitIterator subject) body s;
  _ ← hashTypeReleaseIterator subject hi;
  Some s.

(** ** Conversion *)

Definition hashTypeConvertListpack (o : hashobj) (enc : setenc) : option hashobj :=
  match enc with
  | OBJ_ENCODING_LISTPACK => Some o
  | OBJ_ENCODING_HT =>
      '(o, n) ← hashTypeLength o;
      let d := (dictExpand dictCreate n).1 in
      d ← hash_iterate o
        (fun hi d =>
           key ← hashTypeCurrentObjectNewSds o hi OBJ_HASH_KEY;
           value ← hashTypeCurrentObjectNewSds o hi OBJ_HASH_VALUE;
           '(d, ret) ← dictAdd t resize d key value;
           _ ← assert_ ret;
           Some d) d;
      Some (HHash d)
  | OBJ_ENCODING_INTSET => None
  end.

Definition hashTypeConvert (o : hashobj) (enc : setenc) : option hashobj :=
  match o with HListpack _ => hashTypeConvertListpack o enc | HHash _ => None end.

(** Whether a string of the arguments is too long, and their total length up
    to the first one that is. *)
Fixpoint args_sum (args : list (list Z)) (sum : Z) : Z * bool :=
  match args with
  | [] => (sum, false)
  | arg :: args =>
      let len := zlen arg in
      if hash_max_listpack_value <? len then (sum, true) else args_sum args (u64 (sum + len))
  end.

(** [args] are the arguments from [start] to [end]. *)
Definition hashTypeTryConversion (o : hashobj) (args : list (list Z)) : option hashobj :=
  match o with
  | HHash _ => Some o
  | HListpack zl =>
      let new_fields := zlen args / 2 in
      if hash_max_listpack_entries <? new_fields then
        o ← hashTypeConvert o OBJ_ENCODING_HT;
        match o with HHash d => Some (HHash (dictExpand d new_fields).1) | HListpack _ => None end
      else
        let '(sum, too_long) := args_sum args 0 in
        if too_long then hashTypeConvert o OBJ_ENCODING_HT
        else
          safe ← lpSafeToAdd (Some zl) sum;
          if negb safe then hashTypeConvert o OBJ_ENCODING_HT else Some o
  end.

(** ** Writing *)

Definition set_listpack (zl field value : list Z) : option (list Z * bool) :=
  fptr ← lp_find_field zl field;
  match fptr with
  | Some fptr =>
      vptr ← lp_after zl fptr;
      zl ← lp_not_null (lpReplace junk zl vptr value);
      Some (zl, true)
  | None =>
      zl ← lp_not_null (lpAppend junk zl field);
      zl ← lp_not_null (lpAppend junk zl value);
      Some (zl, false)
  end.

(** The boolean is the result: an update, not an insertion. *)
Definition hashTypeSet (o : hashobj) (field value : list Z) : option (hashobj * bool) :=
  o ← (if bool_decide (hash_enc o = OBJ_ENCODING_LISTPACK) && ((hash_max_listpack_value <? zlen field) || (hash_max_listpack_value <? zlen value))
       then hashTypeConvert o OBJ_ENCODING_HT else Some o);
  match o with
  | HListpack zl =>
      '(zl, update) ← set_listpack zl field value;
      '(o, n) ← hashTypeLength (HListpack zl);
      o ← (if hash_max_listpack_entries <? n then hashTypeConvert o OBJ_ENCODING_HT else Some o);
      Some (o, update)
  | HHash ht =>
      '(ht, de) ← dictAddRaw t resize ht field;
      match de with
      | Added de => ht ← dictSetVal t ht de value; ht ← dictSetKey t ht de field; Some (HHash ht, false)
      | Existing existing => ht ← dictSetVal t ht existing value; Some (HHash ht, true)
      | AddError => None
      end
  end.

Definition hashTypeDelete (o : hashobj) (field : list Z) : option (hashobj * bool) :=
  match o with
  | HListpack zl =>
      fptr ← lp_find_field zl field;
      match fptr with
      | Some fptr => '(zl, _) ← lpDeleteRangeWithEntry junk zl fptr 2; Some (HListpack zl, true)
      | None => Some (o, false)
      end
  | HHash d =>
      '(d, deleted) ← dictDelete t resize d field;
      Some (HHash (if deleted && htNeedsResize d then (dictResize resize d).1 else d), deleted)
  end.

(** ** Copies *)

Definition hashTypeDup (o : hashobj) : option hashobj :=
  match o with
  | HListpack zl => new_zl ← lpDup zl; Some (HListpack new_zl)
  | HHash d =>
      d ← hash_iterate o
        (fun hi d =>
           match hi with
           | HiHash _ de =>
               field ← hashTypeCurrentFromHashTable de OBJ_HASH_KEY;
               value ← hashTypeCurrentFromHashTable de OBJ_HASH_VALUE;
               '(d, _) ← dictAdd t resize d field value;
               Some d
           | HiListpack _ _ => None
           end) (dictExpand dictCreate (dictSize d)).1;
      Some (HHash d)
  end.
End hash_type.
