(* ===== verification/HashTypeThms.v ===== *)
(** t_hash.c, the hash data type: in both encodings the operations act as on a
    finite map from fields to values. *)
From stdpp Require Import gmap.
From S2P Require Import Prelude Endian Strnum Listpack ListpackCodec ListpackSpec ListpackOps ListpackQuery ListpackThms Dict DictInv DictOps DictRehash DictThms DictIter Element HashType.

(** * Listpacks of pairs *)

Notation lpair := (lpentry * lpentry)%type.
Notation pair_of := (list Z * list Z)%type.

Definition flat (es : list lpair) : list lpentry := concat (map (fun q => [q.1; q.2]) es).
Definition pair_str (q : lpair) : pair_of := (entry_str q.1, entry_str q.2).

Lemma flat_app es1 es2 : flat (es1 ++ es2) = flat es1 ++ flat es2.
Proof. unfold flat. by rewrite map_app, concat_app. Qed.
Lemma flat_cons q es : flat (q :: es) = q.1 :: q.2 :: flat es.
Proof. done. Qed.
Lemma length_flat es : length (flat es) = (2 * length es)%nat.
Proof. induction es as [| q es IH]; [done |]. rewrite flat_cons. cbn [length]. lia. Qed.
Lemma flat_lookup es k : flat es !! (k * 2)%nat = fst <$> es !! k.
Proof. revert k. induction es as [| q es IH]; intros [| k]; [done.. |]. rewrite flat_cons. apply IH. Qed.
Lemma flat_take es k : take (k * 2) (flat es) = flat (take k es).
Proof. revert k. induction es as [| q es IH]; intros [| k]; [done.. |]. rewrite flat_cons. cbn [take Nat.mul Nat.add]. by rewrite IH. Qed.
Lemma flat_at es1 q es2 : flat (es1 ++ q :: es2) = flat es1 ++ q.1 :: q.2 :: flat es2.
Proof. by rewrite flat_app, flat_cons. Qed.
Lemma flat_at_value es1 q es2 : flat (es1 ++ q :: es2) = (flat es1 ++ [q.1]) ++ q.2 :: flat es2.
Proof. rewrite flat_at, <- app_assoc. done. Qed.

Lemma lp_find_field_ok lp es f : lp_rep lp (flat es) -> exists r, lp_find_field lp f = Some r /\
  match r with
  | Some p => exists es1 q es2, es = es1 ++ q :: es2 /\ entry_str q.1 = f /\ p = lp_off (flat es1)
  | None => f ∉ map fst (map pair_str es)
  end.
Proof.
  intros [n R]. unfold lp_find_field. rewrite (first_entry _ _ _ R). cbn [mbind option_bind].
  destruct es as [| q0 es]; [exists None; split; [done | apply not_elem_of_nil] |]. rewrite flat_cons. cbn [lp_ptr].
  rewrite flat_cons in R. rewrite (find_rep lp n [] q0.1 (q0.2 :: flat es) f 1 R) by lia. rewrite <- flat_cons in *. eexists. split; [reflexivity |].
  change (Z.to_nat 1) with 1%nat. pose proof (find_spec_pos (flat (q0 :: es)) [] f 1 0) as Hf. destruct (find_spec [] (flat (q0 :: es)) f 1 0) as [p |].
  - destruct Hf as (k & x & Ex & Es & -> & _). cbn [Nat.add app] in *. rewrite flat_lookup in Ex. rewrite flat_take.
    destruct ((q0 :: es) !! k) as [q |] eqn:Eq; [| done]. cbn in Ex. injection Ex as <-.
    exists (take k (q0 :: es)), q, (drop (S k) (q0 :: es)). split; [by rewrite take_drop_middle | done].
  - intros (x & Es & (q & -> & [j Hj]%list_elem_of_lookup)%list_elem_of_fmap)%list_elem_of_fmap. apply (Hf j q.1); [| done].
    cbn [Nat.add]. rewrite flat_lookup, Hj. done.
Qed.

Lemma lp_after_ok lp es1 q es2 : lp_rep lp (flat (es1 ++ q :: es2)) -> lp_after lp (lp_off (flat es1)) = Some (lp_off (flat es1 ++ [q.1])).
Proof. intros [n R]. unfold lp_after. rewrite flat_at in R. rewrite (next_entry _ _ _ _ _ R). done. Qed.

(** Reading an entry. *)
Lemma lp_value_ok lp es1 e es2 : lp_rep lp (es1 ++ e :: es2) -> member (entry_str e) ->
  exists el, lp_value lp (lp_off es1) = Some el /\ etext el = entry_str e /\ elem_in el.
Proof.
  intros [n R] Hm. destruct (get_value R false) as (v & Ev & Hs & Hv). unfold lp_value, lpGetValue. rewrite Ev. cbn [mbind option_bind].
  pose proof (repn_entry_wf R) as Hwf. destruct v as [m | off count |]; [| | done].
  - destruct Hv as [_ ->]. by eexists (ElInt m).
  - cbn [val_str] in Hs. assert (0 <= count < 4294967296) as Hc.
    { rewrite Hv in Hwf. destruct Hwf as [_ Hz]. rewrite (rdn_length _ _ _ _ Hs) in Hz.
      pose proof (rdn_bounds _ _ _ _ Hs). lia. }
    cbn [mbind option_bind]. rewrite (u32_id count), Hs by lia. cbn [mbind option_bind]. by eexists (ElStr (entry_str e)).
Qed.

(** * Dictionaries with values *)

Definition some_val (p : pair_of) : list Z * option (list Z) := (p.1, Some p.2).
Lemma map_some_fst l : map fst (map some_val l) = map fst l.
Proof. rewrite map_map. done. Qed.

Section set_key.
Context {K V : Type} (t : dictType K V).

Lemma chain_update_twice (f g : dictEntry K V -> option (dictEntry K V)) n : forall he he1 x, chain_at he n = Some x ->
  (forall y, f x = Some y -> g y = Some y) -> chain_update he n f = Some he1 -> chain_update he1 n g = Some he1.
Proof.
  induction n as [| n IH]; intros he he1 x Hx Hfg; cbn [chain_update chain_at] in *.
  - destruct (isNull he); [done |]. injection Hx as ->. apply Hfg.
  - destruct (chain_update (dictGetNext he) n f) as [next |] eqn:E; [| done]. cbn [mbind option_bind]. intros Hn.
    assert (dictGetNext he1 = next /\ dictSetNext he1 next = Some he1) as [-> Hs] by (destruct he; try done; by injection Hn as <-).
    assert (chain_at (dictGetNext he) n = Some x) as Hx' by (by destruct he).
    by rewrite (IH _ _ _ Hx' Hfg E).
Qed.

(** Writing the same key over the key of an entry just written. *)
Lemma set_key_same `{!DictTypeOk t} d k p tab e de kv he v key d' : no_value t = false -> found t d k p tab e de kv he -> kv.1 = keyDup t key ->
  dictSetVal t d p v = Some d' -> dictSetKey t d' p key = Some d'.
Proof.
  intros Hnv Hf Hk. unfold dictSetVal, dictSetKey. rewrite Hnv. cbn [negb assert_ mbind option_bind]. unfold update_at.
  pose proof (found_entry_at t _ _ _ _ _ _ _ _ Hf) as Hat. unfold entry_at in Hat.
  destruct (bucket (ht_of d (pl_table p)) (pl_idx p)) as [b |] eqn:Eb; [| done]. cbn [mbind option_bind] in *.
  match goal with |- context [chain_update b (pl_depth p) ?f] => set (fv := f) end.
  destruct (chain_update b (pl_depth p) fv) as [b1 |] eqn:Eu; [| done]. cbn [mbind option_bind].
  unfold set_bucket, bucket in *. destruct (ht_table (ht_of d (pl_table p))) as [tb |] eqn:Et; [| done]. cbn [mbind option_bind] in *. rewrite Eb.
  cbn [mbind option_bind]. intros Hd'. injection Hd' as <-.
  assert (forall h, ht_of (set_ht d (pl_table p) h) (pl_table p) = h) as Hh by (intros h; by destruct (pl_table p)).
  rewrite !Hh. cbn [ht_table mbind option_bind]. pose proof (lookup_lt_Some _ _ _ Eb) as Hlt.
  rewrite list_lookup_insert_eq by done. cbn [mbind option_bind].
  erewrite (chain_update_twice fv _ (pl_depth p) b b1 he Hat); [| | exact Eu].
  - cbn [mbind option_bind ht_size_exp ht_used]. rewrite list_insert_insert_eq. by destruct (pl_table p).
  - unfold fv. intros y. pose proof (fd_getkey _ _ _ _ _ _ _ _ _ Hf) as Hg. destruct he as [| k0 | k0 nx | k0 v0 nx]; try done.
    cbn in Hg. intros Hy. injection Hy as <-. injection Hg as ->. by rewrite Hk.
Qed.
End set_key.

(** * Representation *)

Section hash_type.
Context (dictSdsHash : list Z -> Z) (resize : dictResizeEnable) (addr : bool -> Z) (junk : nat -> Z) (llbuf : list Z).
Context (hash_max_listpack_entries hash_max_listpack_value : Z).
Context (hash_range : forall k, 0 <= dictSdsHash k < 2 ^ 64).
Context (hash_compare : forall k1 k2, dictSdsKeyCompare k1 k2 = true -> dictSdsHash k1 = dictSdsHash k2).
Notation t := (hashDictType dictSdsHash).
Implicit Types (o : hashobj) (l : list pair_of) (d : dict (list Z) (list Z)) (k v : list Z).

#[local] Instance hashDictType_ok : StringDict t.
Proof using hash_range hash_compare. by apply string_dict. Qed.

(** The hash has the pairs of [l], in the order of an iteration. *)
Definition hholds o l : Prop :=
  match o with
  | HListpack lp => exists es, lp_rep lp (flat es) /\ l = map pair_str es
  | HHash d => wf t d /\ elems d = map some_val l
  end.
Definition pairs_ok l : Prop := NoDup (map fst l) /\ Forall (fun p => member p.1 /\ member p.2) l.
Definition hrep_list o l : Prop := hholds o l /\ pairs_ok l.

(** A listpack does not exceed the configured sizes. *)
Definition hwithin o l : Prop :=
  match o with
  | HListpack _ => zlen l <= hash_max_listpack_entries /\ Forall (fun p => zlen p.1 <= hash_max_listpack_value /\ zlen p.2 <= hash_max_listpack_value) l
  | HHash _ => True
  end.

Definition hash_rep o (M : gmap (list Z) (list Z)) : Prop := exists l, hrep_list o l /\ hwithin o l /\ M = list_to_map l.

Lemma hash_rep_intro o l (M : gmap (list Z) (list Z)) : hrep_list o l -> hwithin o l -> (forall k v, (k, v) ∈ l <-> M !! k = Some v) -> hash_rep o M.
Proof.
  intros Hl Hw HM. exists l. split; [exact Hl |]. split; [exact Hw |]. apply map_eq. intros k. apply option_eq. intros v.
  rewrite <- HM. apply elem_of_list_to_map. apply Hl.
Qed.

Lemma hash_rep_elim o (M : gmap (list Z) (list Z)) : hash_rep o M ->
  exists l, hrep_list o l /\ hwithin o l /\ (forall k v, (k, v) ∈ l <-> M !! k = Some v) /\ zlen l = Z.of_nat (size M).
Proof.
  intros (l & Hl & Hw & ->). exists l. split; [exact Hl |]. split; [exact Hw |]. split.
  - intros k v. apply elem_of_list_to_map. apply Hl.
  - unfold zlen. f_equal. symmetry. apply map_size_list_to_map. apply Hl.
Qed.

Lemma pairs_ok_perm l1 l2 : l1 ≡ₚ l2 -> pairs_ok l1 -> pairs_ok l2.
Proof. intros P [Hn Hm]. split; by rewrite <- P. Qed.

Lemma key_in l k (M : gmap (list Z) (list Z)) : (forall k v, (k, v) ∈ l <-> M !! k = Some v) -> k ∈ map fst l <-> is_Some (M !! k).
Proof.
  intros HM. split.
  - intros ([k' v] & -> & Hin)%list_elem_of_fmap. exists v. by apply HM.
  - intros [v Hv]. apply HM in Hv. apply list_elem_of_fmap. by exists (k, v).
Qed.

Lemma pair_member l k v : pairs_ok l -> (k, v) ∈ l -> member k /\ member v.
Proof. intros [_ Hm] Hin. rewrite Forall_forall in Hm. exact (Hm _ Hin). Qed.

Lemma keys_member l : pairs_ok l -> Forall member (map fst l).
Proof. intros [_ Hm]. apply Forall_fmap. eapply Forall_impl; [exact Hm |]. by intros p [? _]. Qed.

(** A dictionary whose elements are those pairs in some order. *)
Lemma dict_holds d l : wf t d -> elems d ≡ₚ map some_val l -> exists l', hholds (HHash d) l' /\ l' ≡ₚ l.
Proof. intros Hwf (l' & E & P)%Permutation_map_inv. exists l'. split; [by split | by symmetry]. Qed.

Lemma dict_size_pairs d l : elems d ≡ₚ map some_val l -> zlen (elems d) = zlen l.
Proof. intros P. apply Permutation_length in P. unfold zlen. by rewrite P, length_map. Qed.

(** * Reading *)

Lemma found_one l k v : pairs_ok l -> (k, v) ∈ l -> filter (fun e => e.1 = k) (map some_val l) = [(k, Some v)].
Proof.
  intros [Hn _]. induction l as [| [k' v'] l IH]; [by intros ?%elem_of_nil |]. cbn [map] in *. apply NoDup_cons in Hn as [Hk Hn].
  rewrite filter_cons. cbn [some_val fst snd] in *. intros [E | Hin]%elem_of_cons.
  - injection E as -> ->. rewrite decide_True by done. f_equal. apply filter_none. apply Forall_fmap, Forall_forall. intros [k1 v1] H1 E1. cbn in E1. subst k1.
    apply Hk. apply list_elem_of_fmap. by exists (k', v1).
  - rewrite decide_False; [by apply IH |]. intros ->. apply Hk. apply list_elem_of_fmap. by exists (k, v).
Qed.

Lemma found_none l k : k ∉ map fst l -> filter (fun e => e.1 = k) (map some_val l) = [].
Proof.
  intros Hk. apply filter_none. apply Forall_fmap, Forall_forall. intros [k1 v1] H1 E1. cbn in E1. subst k1.
  apply Hk. apply list_elem_of_fmap. by exists (k, v1).
Qed.

Definition finds (r : option setelem) (v : option (list Z)) : Prop :=
  match v with Some v => exists e, r = Some e /\ etext e = v /\ elem_in e | None => r = None end.

Lemma get_listpack (lp : list Z) (es : list lpair) k l (M : gmap (list Z) (list Z)) : lp_rep lp (flat es) -> l = map pair_str es -> pairs_ok l -> (forall k v, (k, v) ∈ l <-> M !! k = Some v) ->
  exists r, hashTypeGetFromListpack lp k = Some r /\ finds r (M !! k).
Proof.
  intros R El Hok HM. unfold hashTypeGetFromListpack. destruct (lp_find_field_ok lp es k R) as (r & -> & Hr). cbn [mbind option_bind]. destruct r as [p |].
  - destruct Hr as (es1 & q & es2 & -> & Ek & ->). rewrite (lp_after_ok lp es1 q es2 R). cbn [mbind option_bind].
    assert ((k, entry_str q.2) ∈ l) as Hin by (rewrite <- Ek, El, map_app; apply elem_of_app; right; left).
    destruct (pair_member l _ _ Hok Hin) as [_ Hm].
    rewrite flat_at_value in R. destruct (lp_value_ok lp _ q.2 _ R Hm) as (e & -> & Ee & He). cbn [mbind option_bind]. exists (Some e). split; [done |].
    apply HM in Hin. rewrite Hin. by exists e.
  - exists None. split; [done |]. rewrite <- El, (key_in l k M HM) in Hr. apply eq_None_not_Some in Hr. by rewrite Hr.
Qed.

Lemma get_hash d l k (M : gmap (list Z) (list Z)) : hrep_list (HHash d) l -> member k -> (forall k v, (k, v) ∈ l <-> M !! k = Some v) ->
  exists d' l', hashTypeGetFromHashTable dictSdsHash resize d k = Some (d', M !! k) /\ hholds (HHash d') l' /\ l' ≡ₚ l.
Proof.
  intros [[Hwf El] Hok] Hk HM. destruct (fetch_ok t resize d k Hwf eq_refl) as (d' & E & Hwf' & P).
  assert (hashTypeGetFromHashTable dictSdsHash resize d k = ('(d, v) ← dictFetchValue t resize d k; Some (d, mjoin v))) as ->.
  { unfold hashTypeGetFromHashTable, dictFetchValue. destruct (dictFind t resize d k) as [[d1 [p |]] |]; [cbn [mbind option_bind] | done | done].
    destruct (entry_at d1 p) as [he |]; [cbn [mbind option_bind] | done]. by destruct (dictGetVal he). }
  rewrite E. cbn [mbind option_bind]. rewrite El in P. destruct (dict_holds d' l Hwf' P) as (l' & Hl' & P'). exists d', l'. split; [| by split].
  do 2 f_equal. rewrite El, (matches_key t) by (done || rewrite map_some_fst; by apply keys_member).
  destruct (M !! k) as [v |] eqn:Ev.
  - apply HM in Ev. by rewrite (found_one l k v Hok Ev).
  - rewrite found_none; [done |]. rewrite (key_in l k M HM), Ev. by intros [? ?].
Qed.

Lemma hashTypeGetValue_ok o (M : gmap (list Z) (list Z)) k : hash_rep o M -> member k ->
  exists o' r, hashTypeGetValue dictSdsHash resize o k = Some (o', r) /\ hash_rep o' M /\ finds r (M !! k).
Proof.
  intros HR Hk. destruct (hash_rep_elim o M HR) as (l & Hl & Hw & HM & _). destruct o as [lp | d]; cbn [hashTypeGetValue].
  - pose proof Hl as [(es & R & El) Hok]. destruct (get_listpack lp es k l M R El Hok HM) as (r & -> & Hr). cbn [mbind option_bind].
    by exists (HListpack lp), r.
  - destruct (get_hash d l k M Hl Hk HM) as (d' & l' & -> & Hl' & P). cbn [mbind option_bind]. eexists _, _. split; [reflexivity |].
    destruct Hl as [_ Hok]. symmetry in P. split.
    + eapply (hash_rep_intro _ l'); [split; [exact Hl' | by apply (pairs_ok_perm l)] | done |]. intros k0 v0. by rewrite <- P.
    + destruct (M !! k) as [v |] eqn:Ev; [| done]. apply HM in Ev. destruct (pair_member l k v Hok Ev) as [_ Hv]. by exists (ElStr v).
Qed.

Lemma hashTypeExists_ok o (M : gmap (list Z) (list Z)) k : hash_rep o M -> member k ->
  exists o', hashTypeExists dictSdsHash resize o k = Some (o', bool_decide (is_Some (M !! k))) /\ hash_rep o' M.
Proof.
  intros HR Hk. unfold hashTypeExists. destruct (hashTypeGetValue_ok o M k HR Hk) as (o' & r & -> & HR' & Hr). cbn [mbind option_bind].
  exists o'. split; [| done]. do 2 f_equal. apply bool_decide_ext. destruct (M !! k) as [v |]; cbn in Hr; [destruct Hr as (e & -> & _) | subst r]; by rewrite !is_Some_alt.
Qed.

Lemma hashTypeGetValueLength_ok o (M : gmap (list Z) (list Z)) k : hash_rep o M -> member k ->
  exists o', hashTypeGetValueLength dictSdsHash resize o k = Some (o', from_option zlen 0 (M !! k)) /\ hash_rep o' M.
Proof.
  intros HR Hk. unfold hashTypeGetValueLength. destruct (hashTypeGetValue_ok o M k HR Hk) as (o' & r & -> & HR' & Hr). cbn [mbind option_bind].
  exists o'. split; [| done]. do 2 f_equal. destruct (M !! k) as [v |]; cbn in *; [| by subst r]. destruct Hr as (e & -> & <- & He).
  destruct e as [s | n]; [done |]. cbn. by apply sdigits10_spec.
Qed.

Lemma hashTypeLength_list o l : hrep_list o l -> exists o', hashTypeLength o = Some (o', zlen l) /\ hrep_list o' l /\ hash_enc o' = hash_enc o /\ (hwithin o l -> hwithin o' l).
Proof.
  intros [Hh Hok]. destruct o as [lp | d]; cbn [hashTypeLength].
  - destruct Hh as (es & [n R] & El). destruct (length_rep _ _ _ R) as (lp' & n' & -> & R' & _). cbn [mbind option_bind].
    exists (HListpack lp'). split; [| split; [split; [by exists es; split; [exists n' |] | done] | by split]].
    do 2 f_equal. rewrite El. unfold zlen. rewrite length_flat, length_map, Nat2Z.inj_mul. rewrite Z.mul_comm. by apply Z.div_mul.
  - destruct Hh as [Hwf El]. exists (HHash d). rewrite (dictSize_ok t d (proj1 Hwf)) by apply Hwf. rewrite El. unfold zlen. rewrite length_map.
    split; [done |]. split; [| by split]. split; [by split | done].
Qed.

Lemma hashTypeLength_ok o (M : gmap (list Z) (list Z)) : hash_rep o M -> exists o', hashTypeLength o = Some (o', Z.of_nat (size M)) /\ hash_rep o' M.
Proof.
  intros (l & Hl & Hw & HM & <-)%hash_rep_elim. destruct (hashTypeLength_list o l Hl) as (o' & E & Hl' & _ & Hw'). exists o'. split; [exact E |].
  eapply hash_rep_intro; [exact Hl' | by apply Hw' | exact HM].
Qed.

(** * Iteration *)

(** The iterator is about to return the pairs of [rest]. *)
Definition hat o (hi : hashTypeIterator) (rest : list pair_of) : Prop :=
  match o, hi with
  | HListpack lp, HiListpack fptr vptr =>
      exists es1 es2, lp_rep lp (flat (es1 ++ es2)) /\ rest = map pair_str es2 /\
        match fptr with
        | None => vptr = None /\ es1 = []
        | Some _ => exists es0 q, es1 = es0 ++ [q] /\ vptr = Some (lp_off (flat es0 ++ [q.1]))
        end
  | HHash d, HiHash di _ => iterating addr d di /\ map some_val rest = todo d di
  | _, _ => False
  end.

(** The iterator is at this pair. *)
Definition current o (hi : hashTypeIterator) (p : pair_of) : Prop :=
  match o, hi with
  | HListpack lp, HiListpack (Some fptr) (Some vptr) =>
      exists e1 e2, lp_value lp fptr = Some e1 /\ lp_value lp vptr = Some e2 /\ etext e1 = p.1 /\ etext e2 = p.2 /\ elem_in e1 /\ elem_in e2
  | HHash _, HiHash _ (Some de) => dictGetKey de = Some p.1 /\ dictGetVal de = Some (Some p.2) /\ member p.1 /\ member p.2
  | _, _ => False
  end.

Definition hfinished o (hi : hashTypeIterator) : Prop :=
  match o, hi with HHash d, HiHash di _ => releasable addr d di | _, _ => True end.

Lemma hfinished_release o hi : hfinished o hi -> hashTypeReleaseIterator addr o hi = Some tt.
Proof.
  destruct o as [lp | d], hi as [f v | di de]; try done. cbn [hfinished hashTypeReleaseIterator]. intros Hr. by rewrite dictReleaseIterator_ok.
Qed.

Lemma hat_start o l : hrep_list o l -> hat o (hashTypeInitIterator o) l.
Proof.
  intros [Hh _]. destruct o as [lp | d]; cbn [hholds hat hashTypeInitIterator] in *.
  - destruct Hh as (es & R & ->). by exists [], es.
  - destruct Hh as [Hwf El]. destruct (iterating_start t addr d Hwf 0) as [Hi Ht]. split; [exact Hi |]. unfold dictGetIterator. by rewrite Ht.
Qed.

(** One call of [hashTypeNext]. *)
Definition hnext_result o (rest : list pair_of) (r : option (hashTypeIterator * bool)) : Prop :=
  match rest with
  | p :: rest => exists hi, r = Some (hi, true) /\ hat o hi rest /\ current o hi p
  | [] => exists hi, r = Some (hi, false) /\ hfinished o hi
  end.

Lemma hashTypeNext_ok o l hi rest : hrep_list o l -> hat o hi rest -> Forall (fun p => member p.1 /\ member p.2) rest ->
  hnext_result o rest (hashTypeNext addr o hi).
Proof.
  intros Hl Hat Hm. destruct o as [lp | d], hi as [fptr vptr | di de]; try done; cbn [hashTypeNext].
  - destruct Hat as (es1 & es2 & [n R] & -> & Hp).
    assert ((match fptr with None => _ ← assert_ (bool_decide (vptr = None)); lpFirst lp | Some _ => vptr ← vptr; lpNext lp vptr end : option (option Z)) =
      Some (lp_ptr (flat es1) (flat es2))) as ->.
    { rewrite flat_app in R. destruct fptr as [p |].
      - destruct Hp as (es0 & q & -> & ->). cbn [mbind option_bind]. rewrite flat_app in *. unfold flat in R at 2. cbn [map concat app] in R.
        replace ((flat es0 ++ [q.1; q.2]) ++ flat es2) with ((flat es0 ++ [q.1]) ++ q.2 :: flat es2) in R by (rewrite <- !app_assoc; done).
        rewrite (next_entry _ _ _ _ _ R). unfold flat at 4. cbn [map concat app]. by rewrite <- app_assoc.
      - destruct Hp as [-> ->]. cbn [bool_decide assert_ mbind option_bind]. exact (first_entry _ _ _ R). }
    cbn [mbind option_bind]. destruct es2 as [| q es2]; cbn [map hnext_result].
    + exists (HiListpack fptr vptr). by split.
    + rewrite flat_cons. cbn [lp_ptr]. assert (lp_rep lp (flat (es1 ++ q :: es2))) as R' by (by exists n).
      rewrite (lp_after_ok lp es1 q es2 R'). cbn [mbind option_bind]. eexists. split; [reflexivity |]. split.
      * exists (es1 ++ [q]), es2. rewrite <- app_assoc. split; [by exists n |]. split; [done |]. by exists es1, q.
      * cbn [map] in Hm. apply Forall_cons in Hm as [[Hm1 Hm2] _]. cbn [pair_str fst snd] in *.
        pose proof R' as R1. rewrite flat_at in R1. destruct (lp_value_ok lp _ _ _ R1 Hm1) as (e1 & E1 & T1 & I1).
        rewrite flat_at_value in R'. destruct (lp_value_ok lp _ _ _ R' Hm2) as (e2 & E2 & T2 & I2). by exists e1, e2.
  - destruct Hl as [[Hwf _] _]. destruct Hat as [Hit Et]. destruct (dictNext_ok t addr d Hwf di Hit) as (it' & de' & -> & Hr & Hde).
    cbn [mbind option_bind]. destruct de' as [de' |].
    + destruct Hde as (Hit' & kv & Ekv & Ek & Ev). rewrite Ekv in Et. destruct rest as [| p rest]; [done |]. cbn [map] in Et. injection Et as Ep Et.
      cbn [hnext_result]. exists (HiHash it' (Some de')). split; [done |]. split; [by split |].
      apply Forall_cons in Hm as [Hm _]. rewrite <- Ep in Ek, Ev. split; [exact Ek |]. split; [by apply Ev | exact Hm].
    + rewrite Hde in Et. destruct rest; [| done]. cbn [hnext_result]. by exists (HiHash it' None).
Qed.

(** The rule of a loop over a hash: an invariant on the pairs that are left. *)
Section iterate.
Context {S : Type} (P : list pair_of -> S -> Prop) o l (Hl : hrep_list o l) (body : hashTypeIterator -> S -> option S).
Context (Hbody : forall p rest s hi, P (p :: rest) s -> current o hi p -> exists s', body hi s = Some s' /\ P rest s').

Lemma hash_each_ok fuel : forall rest hi s, hat o hi rest -> Forall (fun p => member p.1 /\ member p.2) rest -> P rest s -> (length rest < fuel)%nat ->
  exists hi' s', hash_each addr fuel o hi body s = Some (hi', s') /\ hfinished o hi' /\ P [] s'.
Proof.
  induction fuel as [| fuel IH]; intros rest hi s Hat Hm Hs Hf; [lia |]. cbn [hash_each].
  pose proof (hashTypeNext_ok o l hi rest Hl Hat Hm) as Hn. destruct rest as [| p rest]; cbn [hnext_result] in Hn.
  - destruct Hn as (hi' & -> & Hfin). cbn [mbind option_bind]. by exists hi', s.
  - destruct Hn as (hi' & -> & Hat' & Hc). cbn [mbind option_bind]. destruct (Hbody p rest s hi' Hs Hc) as (s' & -> & Hs'). cbn [mbind option_bind].
    apply Forall_cons in Hm as [_ Hm]. apply (IH rest); [done | done | done |]. cbn [length] in Hf. lia.
Qed.

Lemma hash_turns_enough : (length l < hash_turns o)%nat.
Proof.
  destruct Hl as [Hh _]. destruct o as [lp | d]; cbn [hholds hash_turns] in *.
  - destruct Hh as (es & [n R] & ->). pose proof (repn_len R). pose proof (entries_len_ge (flat es) (repn_wf R)). rewrite length_map.
    unfold lp_off, LP_HDR_SIZE, zlen in *. rewrite length_flat in *. lia.
  - destruct Hh as [Hwf El]. rewrite (dictSize_ok t d (proj1 Hwf)) by apply Hwf. rewrite El. unfold zlen. rewrite length_map. lia.
Qed.

Lemma hash_iterate_ok s : P l s -> exists s', hash_iterate addr o body s = Some s' /\ P [] s'.
Proof.
  intros Hs. unfold hash_iterate. destruct (hash_each_ok (hash_turns o) l (hashTypeInitIterator o) s) as (hi' & s' & -> & Hfin & Hs');
    [by apply hat_start | apply Hl | done | exact hash_turns_enough |].
  cbn [mbind option_bind]. rewrite hfinished_release by done. by exists s'.
Qed.
End iterate.

Context (Hll : zlen llbuf = LONG_STR_SIZE).

Lemma current_sds o hi p : current o hi p ->
  hashTypeCurrentObjectNewSds llbuf o hi OBJ_HASH_KEY = Some p.1 /\ hashTypeCurrentObjectNewSds llbuf o hi OBJ_HASH_VALUE = Some p.2 /\ member p.1 /\ member p.2.
Proof.
  intros Hc. unfold hashTypeCurrentObjectNewSds. destruct o as [lp | d], hi as [fptr vptr | di de]; try done; cbn [current hashTypeCurrentObject] in *.
  - destruct fptr as [fptr |]; [| done]. destruct vptr as [vptr |]; [| done]. destruct Hc as (e1 & e2 & E1 & E2 & <- & <- & I1 & I2).
    cbn [hashTypeCurrentFromListpack mbind option_bind]. rewrite E1, E2. cbn [mbind option_bind]. rewrite !elem_text_ok by done.
    split; [done |]. split; [done |]. split; by apply etext_member.
  - destruct de as [de |]; [| done]. destruct Hc as (E1 & E2 & Hm). cbn [hashTypeCurrentFromHashTable mbind option_bind]. rewrite E1, E2. done.
Qed.

(** * Conversion *)

Lemma add_pair d l k v : wf t d -> elems d ≡ₚ map some_val l -> pairs_ok l -> member k -> k ∉ map fst l -> zlen l < 2 ^ 58 ->
  exists d', dictAdd t resize d k v = Some (d', true) /\ wf t d' /\ elems d' ≡ₚ map some_val ((k, v) :: l).
Proof.
  intros Hwf P Hok Hk Hn Hs. destruct (add_ok t resize d k v Hwf) as (d' & b & -> & Hwf' & P' & E); [by rewrite (dict_size_pairs d l P) |].
  cbn [op_spec] in *. assert (has t k (elems d) = false) as Hh.
  { assert (map fst (elems d) ≡ₚ map fst l) as Pk by (by rewrite P, map_some_fst). rewrite (has_key t) by (done || rewrite Pk; by apply keys_member).
    apply bool_decide_eq_false. by rewrite Pk. }
  rewrite Hh in *. cbn [fst snd] in *. injection E as ->. exists d'. split; [done |]. split; [done |]. rewrite P'. cbn [map]. by rewrite P.
Qed.

Lemma pairs_ok_mid l1 p l2 : pairs_ok (l1 ++ p :: l2) -> p.1 ∉ map fst l1.
Proof.
  intros [Hn _]. rewrite map_app in Hn. cbn [map] in Hn. apply NoDup_app in Hn as (_ & Hd & _). intros Hin. apply (Hd _ Hin). left.
Qed.

Lemma pairs_ok_app l1 l2 : pairs_ok (l1 ++ l2) -> pairs_ok l1.
Proof. intros [Hn Hm]. rewrite map_app in Hn. apply NoDup_app in Hn as (Hn & _). apply Forall_app in Hm as [Hm _]. by split. Qed.

(** A dictionary filled with the pairs of a hash. *)
Lemma fill_ok o l n (body : hashTypeIterator -> dict (list Z) (list Z) -> option (dict (list Z) (list Z))) : hrep_list o l -> zlen l < 2 ^ 58 -> 0 <= n < 2 ^ 64 ->
  (forall hi d p d', current o hi p -> dictAdd t resize d p.1 p.2 = Some (d', true) -> body hi d = Some d') ->
  exists d l', hash_iterate addr o body (dictExpand dictCreate n).1 = Some d /\ hrep_list (HHash d) l' /\ l' ≡ₚ l.
Proof.
  intros Hl Hs Hn Hb. destruct (expand_new t n Hn) as [Hwf0 E0]. pose proof Hl as [_ Hok].
  destruct (hash_iterate_ok (fun rest d => exists l1, wf t d /\ elems d ≡ₚ map some_val l1 /\ l1 ++ rest ≡ₚ l) o l Hl body) with (s := (dictExpand (@dictCreate (list Z) (list Z)) n).1)
    as (d & E & l1 & Hwf & P & Pl).
  - intros p rest d hi (l1 & Hwf & P & Pl) Hc. pose proof (pairs_ok_perm l _ (symmetry Pl) Hok) as Hok'.
    destruct (current_sds o hi p Hc) as (_ & _ & Hm & _).
    destruct (add_pair d l1 p.1 p.2 Hwf P) as (d' & E & Hwf' & P'); [by eapply pairs_ok_app | exact Hm | by eapply pairs_ok_mid | |].
    { apply Permutation_length in Pl. rewrite length_app in Pl. unfold zlen in *. lia. }
    exists d'. split; [by eapply Hb |]. exists (p :: l1). destruct p as [k v]. split; [done |]. split; [done |]. rewrite <- Pl. cbn [app]. apply Permutation_middle.
  - exists []. by rewrite E0.
  - rewrite app_nil_r in Pl. destruct (dict_holds d l1 Hwf P) as (l' & Hl' & P'). exists d, l'. split; [exact E |].
    assert (l' ≡ₚ l) as P2 by (by rewrite P'). split; [split; [exact Hl' | by apply (pairs_ok_perm l)] | exact P2].
Qed.

Lemma convert_ok (lp : list Z) l : hrep_list (HListpack lp) l -> zlen l < 2 ^ 58 ->
  exists d l', hashTypeConvert dictSdsHash resize addr llbuf (HListpack lp) OBJ_ENCODING_HT = Some (HHash d) /\ hrep_list (HHash d) l' /\ l' ≡ₚ l.
Proof.
  intros Hl Hs. cbn [hashTypeConvert hashTypeConvertListpack]. destruct (hashTypeLength_list _ l Hl) as (o' & -> & Hl' & _ & _). cbn [mbind option_bind].
  pose proof (zlen_nonneg l). match goal with |- context [hash_iterate addr o' ?b _] => destruct (fill_ok o' l (zlen l) b Hl' Hs ltac:(lia)) as (d & l' & -> & Hd & P) end.
  - intros hi d p d' Hc E. destruct (current_sds o' hi p Hc) as (-> & -> & _). cbn [mbind option_bind]. rewrite E. done.
  - cbn [mbind option_bind]. by exists d, l'.
Qed.

Lemma perm_rep l o' l' (M : gmap (list Z) (list Z)) : hrep_list o' l' -> l' ≡ₚ l -> hwithin o' l' -> (forall k v, (k, v) ∈ l <-> M !! k = Some v) -> hash_rep o' M.
Proof. intros Hl P Hw HM. eapply hash_rep_intro; [exact Hl | exact Hw |]. intros k v. by rewrite P. Qed.

Lemma hashTypeConvert_ok (lp : list Z) (M : gmap (list Z) (list Z)) : hash_rep (HListpack lp) M -> Z.of_nat (size M) < 2 ^ 58 ->
  exists d, hashTypeConvert dictSdsHash resize addr llbuf (HListpack lp) OBJ_ENCODING_HT = Some (HHash d) /\ hash_rep (HHash d) M.
Proof.
  intros (l & Hl & Hw & HM & El)%hash_rep_elim Hs. rewrite <- El in Hs. destruct (convert_ok lp l Hl Hs) as (d & l' & -> & Hd & P).
  exists d. split; [done |]. by eapply (perm_rep l _ l').
Qed.

Lemma args_sum_range args sum : 0 <= sum < 2 ^ 64 -> 0 <= (args_sum hash_max_listpack_value args sum).1 < 2 ^ 64.
Proof. revert sum. induction args as [| a args IH]; intros sum Hs; cbn [args_sum]; [done |]. case_if; [done |]. apply IH. unfold u64. apply Z.mod_pos_bound. lia. Qed.

Lemma hashTypeTryConversion_ok o (M : gmap (list Z) (list Z)) (args : list (list Z)) : hash_rep o M -> Z.of_nat (size M) < 2 ^ 58 -> zlen args < 2 ^ 32 ->
  exists o', hashTypeTryConversion dictSdsHash resize addr llbuf hash_max_listpack_entries hash_max_listpack_value o args = Some o' /\ hash_rep o' M.
Proof.
  intros HR Hs Ha. destruct o as [lp | d]; cbn [hashTypeTryConversion]; [| by exists (HHash d)].
  destruct (hashTypeConvert_ok lp M HR Hs) as (d & Ec & Hd). pose proof (zlen_nonneg args). case_if.
  - rewrite Ec. cbn [mbind option_bind]. eexists. split; [reflexivity |]. destruct (hash_rep_elim _ _ Hd) as (l & [[Hwf El] Hok] & _ & HM & _).
    destruct (expand_ok t d (zlen args / 2) Hwf) as (Hwf' & E' & _); [dm |]. eapply hash_rep_intro; [split; [split; [exact Hwf' | by rewrite E'] | exact Hok] | done | exact HM].
  - pose proof (args_sum_range args 0 ltac:(lia)) as Hsum. destruct (args_sum hash_max_listpack_value args 0) as [sum too_long]. destruct too_long; [by exists (HHash d) |].
    destruct (hash_rep_elim _ _ HR) as (l & [(es & [k R] & _) _] & _). unfold lpSafeToAdd. rewrite (repn_total R). cbn [mbind option_bind].
    case_if; [by exists (HHash d) | by exists (HListpack lp)].
Qed.

(** * Writing *)

Notation is_map l M := (forall k v, (k, v) ∈ l <-> (M : gmap (list Z) (list Z)) !! k = Some v).

Lemma insert_new l l' (M : gmap (list Z) (list Z)) k v : pairs_ok l -> is_map l M -> k ∉ map fst l -> member k -> member v -> l' ≡ₚ (k, v) :: l ->
  pairs_ok l' /\ is_map l' (<[k := v]> M).
Proof.
  intros [Hn Hm] HM Hk Hmk Hmv P. split.
  - apply (pairs_ok_perm ((k, v) :: l)); [by symmetry |]. split; [cbn [map]; by apply NoDup_cons | by apply Forall_cons].
  - intros k1 v1. rewrite P, elem_of_cons, lookup_insert_Some, HM. split.
    + intros [E | E]; [injection E as -> ->; by left |]. right. split; [| done]. intros ->. apply Hk. rewrite (key_in l k1 M HM). by exists v1.
    + intros [[-> ->] | [_ E]]; [by left | by right].
Qed.

Lemma insert_old l l0 l' (M : gmap (list Z) (list Z)) k w v : pairs_ok l -> is_map l M -> l ≡ₚ (k, w) :: l0 -> member v -> l' ≡ₚ (k, v) :: l0 ->
  pairs_ok l' /\ is_map l' (<[k := v]> M).
Proof.
  intros Hok HM P Hmv P'. pose proof (pairs_ok_perm _ _ P Hok) as [Hn Hm]. cbn [map] in Hn. apply NoDup_cons in Hn as [Hk Hn]. apply Forall_cons in Hm as [[Hmk _] Hm].
  cbn [fst] in *. assert (is_map l0 (delete k M)) as HM0.
  { intros k1 v1. rewrite lookup_delete_Some, <- HM, P, elem_of_cons. split.
    - intros Hin. split; [| by right]. intros ->. apply Hk. apply list_elem_of_fmap. by exists (k1, v1).
    - intros [Hne [E | Hin]]; [injection E as -> ->; done | done]. }
  destruct (insert_new l0 l' (delete k M) k v) as [Hok' HM']; [by split | exact HM0 | exact Hk | exact Hmk | exact Hmv | exact P' |].
  split; [exact Hok' |]. intros k1 v1. rewrite HM'. by rewrite insert_delete_eq.
Qed.

Lemma new_key l k (M : gmap (list Z) (list Z)) : is_map l M -> k ∉ map fst l -> bool_decide (is_Some (M !! k)) = false.
Proof. intros HM Hk. apply bool_decide_eq_false. by rewrite <- (key_in l k M HM). Qed.
Lemma old_key l k v (M : gmap (list Z) (list Z)) : is_map l M -> (k, v) ∈ l -> bool_decide (is_Some (M !! k)) = true.
Proof. intros HM Hk. apply bool_decide_eq_true. exists v. by apply HM. Qed.

Notation E := hash_max_listpack_entries.
Notation B := hash_max_listpack_value.
(** A listpack of the configured sizes has room for one pair more. *)
Context (Hcap : 0 <= E /\ 0 <= B /\ (2 * E + 2) * (B + 14) + 20 < 4294967296).
Definition fits l : Prop := Forall (fun p : pair_of => zlen p.1 <= B /\ zlen p.2 <= B) l.

Lemma entry_within e : entry_wf e -> zlen (entry_str e) <= B -> zlen (entry e) <= B + 14.
Proof using Hcap.
  intros He Hz. assert (elem_ok e) as Hok by (destruct e; [done | destruct He; split; [done | lia]]).
  pose proof (entry_small e Hok). destruct e; cbn [entry_str] in *; lia.
Qed.

Lemma str_entry_wf s : member s -> entry_wf (str_entry s).
Proof using.
  intros Hs. pose proof (str_entry_ok s Hs) as Hw. destruct Hs as [Hb Hz]. unfold str_entry in *. destruct (lpStringToInt64 s); [exact Hw |]. split; [exact Hb | lia].
Qed.

Lemma flat_size (es : list lpair) : Forall entry_wf (flat es) -> fits (map pair_str es) -> lp_off (flat es) <= 6 + 2 * zlen es * (B + 14).
Proof using Hcap.
  intros Hwf Hf. induction es as [| q es IH] using rev_ind; [done |].
  rewrite flat_app in *. unfold fits in Hf. rewrite map_app in Hf. apply Forall_app in Hf as [Hf Hq]. cbn [map] in Hq.
  apply Forall_cons in Hq as [[H1 H2] _]. apply Forall_app in Hwf as [Hwf Hw2]. unfold flat in Hw2. cbn [map concat app] in Hw2.
  apply Forall_cons in Hw2 as [W1 Hw2]. apply Forall_cons in Hw2 as [W2 _]. specialize (IH Hwf Hf).
  rewrite lp_off_app. unfold flat at 2. cbn [map concat app]. rewrite !entries_cons, entries_nil, app_nil_r, zlen_app, zlen_app, zlen_cons, zlen_nil.
  pose proof (entry_within q.1 W1 H1). pose proof (entry_within q.2 W2 H2). lia.
Qed.

Lemma append_string (lp : list Z) es (s : list Z) (n : Z) : lp_rep lp es -> member s -> zlen s <= B -> lp_off es <= n -> n + B + 20 < 4294967296 ->
  exists lp', lp_not_null (lpAppend junk lp s) = Some lp' /\ lp_rep lp' (es ++ [str_entry s]).
Proof using.
  intros R Hs Hb Ho HM. exact (lp_append_ok junk (ElStr s) lp es R Hs ltac:(cbn [etext]; lia)).
Qed.

Lemma replace_string (lp : list Z) es1 e es2 (s : list Z) : lp_rep lp (es1 ++ e :: es2) -> member s -> lp_off (es1 ++ str_entry s :: es2) < 4294967295 ->
  exists lp', lp_not_null (lpReplace junk lp (lp_off es1) s) = Some lp' /\ lp_rep lp' (es1 ++ str_entry s :: es2).
Proof using.
  intros R Hs Ho. pose proof (insert_replace junk (elem_str s None) (str_entry_ok s Hs) lp es1 e es2 R) as Hr. unfold insert_result, UINT32_MAX in Hr.
  rewrite (proj2 (Z.ltb_ge _ _)) in Hr by lia. destruct Hr as (lp' & Er & R'). exists lp'. split; [| done]. unfold lp_not_null, lpReplace. by rewrite Er.
Qed.

Lemma rep_wf (lp : list Z) es : lp_rep lp es -> Forall entry_wf es.
Proof using. intros [n R]. exact (repn_wf R). Qed.

(** The listpack after a write, which may have one pair too many. *)
Definition written l k v (M : gmap (list Z) (list Z)) (r : option (list Z * bool)) : Prop :=
  exists lp' l', r = Some (lp', bool_decide (is_Some (M !! k))) /\ hrep_list (HListpack lp') l' /\ is_map l' (<[k := v]> M) /\ zlen l' <= E + 1 /\ fits l'.

Lemma replace_value (lp : list Z) (es1 : list lpair) (q : lpair) (es2 : list lpair) k v (M : gmap (list Z) (list Z)) : let l := map pair_str (es1 ++ q :: es2) in
  lp_rep lp (flat (es1 ++ q :: es2)) -> pairs_ok l -> zlen l <= E -> fits l -> is_map l M ->
  entry_str q.1 = k -> member v -> zlen v <= B ->
  written l k v M (lp ← lp_not_null (lpReplace junk lp (lp_off (flat es1 ++ [q.1])) v); Some (lp, true)).
Proof using Hcap.
  intros l R Hok Hn Hf HM Ek Hv Hvb. set (es' := es1 ++ (q.1, str_entry v) :: es2).
  assert (l = map pair_str es1 ++ (k, entry_str q.2) :: map pair_str es2) as El by (unfold l; rewrite map_app; cbn [map]; unfold pair_str at 2; by rewrite Ek).
  assert (map pair_str es' = map pair_str es1 ++ (k, v) :: map pair_str es2) as El' by (unfold es'; rewrite map_app; cbn [map]; unfold pair_str at 2; cbn [fst snd]; by rewrite Ek, entry_str_str_entry).
  assert (fits (map pair_str es')) as Hf'.
  { rewrite El'. rewrite El in Hf. apply Forall_app in Hf as [H1 [[Hk _] H2]%Forall_cons]. apply Forall_app. split; [exact H1 |]. apply Forall_cons. by split. }
  assert (zlen (map pair_str es') = zlen l) as Hlen by (rewrite El, El', !zlen_app, !zlen_cons; lia).
  assert (zlen es' = zlen l) as Hes by (rewrite <- Hlen; unfold zlen; by rewrite length_map).
  pose proof (rep_wf _ _ R) as Hwf. rewrite flat_at_value in R, Hwf. apply Forall_app in Hwf as [Hwf1 [_ Hwf2]%Forall_cons].
  assert (flat es' = (flat es1 ++ [q.1]) ++ str_entry v :: flat es2) as Efl by (unfold es'; rewrite flat_at_value; done).
  assert (lp_off (flat es') < 4294967295) as Ho.
  { pose proof (flat_size es') as Hs. rewrite Hes in Hs. assert (Forall entry_wf (flat es')) as Hw by (rewrite Efl; apply Forall_app; split; [done |]; apply Forall_cons; split; [by apply str_entry_wf | done]).
    specialize (Hs Hw Hf'). nia. }
  rewrite Efl in Ho. destruct (replace_string lp _ _ _ v R Hv Ho) as (lp' & -> & R'). cbn [mbind option_bind]. rewrite <- Efl in R'.
  destruct (insert_old l (map pair_str (es1 ++ es2)) (map pair_str es') M k (entry_str q.2) v Hok HM) as [Hok' HM'];
    [rewrite El, map_app; symmetry; apply Permutation_middle | exact Hv | rewrite El', map_app; symmetry; apply Permutation_middle |].
  exists lp', (map pair_str es'). split; [| split; [split; [by exists es' | exact Hok'] | split; [exact HM' | split; [lia | exact Hf']]]].
  do 2 f_equal. symmetry. apply (old_key l k (entry_str q.2) M HM). rewrite El. apply elem_of_app. right. left.
Qed.

Lemma append_pair (lp : list Z) (es : list lpair) k v (M : gmap (list Z) (list Z)) : let l := map pair_str es in
  lp_rep lp (flat es) -> pairs_ok l -> zlen l <= E -> fits l -> is_map l M -> k ∉ map fst l -> member k -> member v -> zlen k <= B -> zlen v <= B ->
  written l k v M (lp ← lp_not_null (lpAppend junk lp k); lp ← lp_not_null (lpAppend junk lp v); Some (lp, false)).
Proof using Hcap.
  intros l R Hok Hn Hf HM Hk Hmk Hmv Hkb Hvb.
  assert (zlen es = zlen l) as Hes by (unfold l, zlen; by rewrite length_map). pose proof (flat_size es (rep_wf _ _ R) Hf) as Ho. rewrite Hes in Ho. pose proof (zlen_nonneg l).
  destruct (append_string lp _ k _ R Hmk Hkb Ho ltac:(nia)) as (lp1 & -> & R1). cbn [mbind option_bind].
  pose proof (entry_within (str_entry k) (str_entry_wf k Hmk) ltac:(by rewrite entry_str_str_entry)) as Hk1.
  destruct (append_string lp1 _ v (6 + 2 * zlen l * (B + 14) + (B + 14)) R1 Hmv Hvb ltac:(rewrite lp_off_snoc; lia) ltac:(nia)) as (lp2 & -> & R2). cbn [mbind option_bind].
  set (es' := es ++ [(str_entry k, str_entry v)]).
  assert (map pair_str es' = l ++ [(k, v)]) as El' by (unfold es'; rewrite map_app; cbn [map]; unfold pair_str at 2; cbn [fst snd]; by rewrite !entry_str_str_entry).
  destruct (insert_new l (map pair_str es') M k v Hok HM Hk Hmk Hmv) as [Hok' HM']; [rewrite El'; symmetry; apply Permutation_cons_append |].
  exists lp2, (map pair_str es'). split; [by rewrite (new_key l k M HM Hk) |]. split; [split; [| exact Hok'] |].
  - exists es'. split; [| done]. unfold es'. rewrite flat_app. rewrite <- app_assoc in R2. exact R2.
  - split; [exact HM' |]. rewrite El'. split; [rewrite zlen_app, zlen_cons, zlen_nil; lia |]. apply Forall_app. split; [exact Hf |]. by apply Forall_singleton.
Qed.

Lemma set_listpack_ok (lp : list Z) l k v (M : gmap (list Z) (list Z)) : hrep_list (HListpack lp) l -> hwithin (HListpack lp) l -> is_map l M ->
  member k -> member v -> zlen k <= B -> zlen v <= B -> written l k v M (set_listpack junk lp k v).
Proof using Hcap.
  intros [(es & R & ->) Hok] [Hn Hf] HM Hk Hv Hkb Hvb. unfold set_listpack. destruct (lp_find_field_ok lp es k R) as (r & -> & Hr). cbn [mbind option_bind]. destruct r as [p |].
  - destruct Hr as (es1 & q & es2 & -> & Ek & ->). rewrite (lp_after_ok lp es1 q es2 R). cbn [mbind option_bind]. by apply replace_value.
  - by apply append_pair.
Qed.

Lemma set_hash d l k v (M : gmap (list Z) (list Z)) : hrep_list (HHash d) l -> zlen l < 2 ^ 58 -> is_map l M -> member k -> member v ->
  exists d', ('(ht, de) ← dictAddRaw t resize d k;
    match de with
    | Added de => ht ← dictSetVal t ht de v; ht ← dictSetKey t ht de k; Some (HHash ht, false)
    | Existing existing => ht ← dictSetVal t ht existing v; Some (HHash ht, true)
    | AddError => None
    end) = Some (HHash d', bool_decide (is_Some (M !! k))) /\ hash_rep (HHash d') (<[k := v]> M).
Proof.
  intros [[Hwf El] Hok] Hs HM Hk Hv. destruct (add_raw_ok t resize d k Hwf) as (d1 & r & -> & Hwf1 & _ & Hr).
  { rewrite El. unfold zlen in *. by rewrite length_map. }
  cbn [mbind option_bind]. assert (matches t k (elems d) = filter (fun e => e.1 = k) (map some_val l)) as Em.
  { rewrite El. by rewrite (matches_key t) by (done || rewrite map_some_fst; by apply keys_member). }
  destruct r as [p | p |]; [| | done].
  - destruct Hr as (Hm & P1 & tab & e & de & he & Hf). destruct (set_val_ok t d1 k p tab e de _ he v Hwf1 eq_refl Hf) as (d2 & E2 & Hwf2 & P2 & _).
    rewrite E2. cbn [mbind option_bind]. rewrite (set_key_same t d1 k p tab e de _ he v k d2 eq_refl Hf eq_refl E2). cbn [mbind option_bind].
    assert (k ∉ map fst l) as Hn.
    { rewrite (key_in l k M HM). intros [w Hw]. apply HM in Hw. rewrite Em, (found_one l k w Hok Hw) in Hm. done. }
    exists d2. rewrite (new_key l k M HM Hn). split; [done |].
    assert (elems d2 ≡ₚ map some_val ((k, v) :: l)) as P3.
    { rewrite P2, P1. cbn [fst keyDup hashDictType valDup id map some_val snd]. constructor. rewrite El.
      rewrite (others_added t k); [done | by rewrite <- El | apply (compare_refl (t := t))]. }
    destruct (dict_holds d2 _ Hwf2 P3) as (l' & Hl' & P'). destruct (insert_new l l' M k v Hok HM Hn Hk Hv P') as [Hok' HM'].
    eapply hash_rep_intro; [by split | done | exact HM'].
  - destruct Hr as (P1 & tab & e & de & kv & he & Hf). destruct (set_val_ok t d1 k p tab e de _ he v Hwf1 eq_refl Hf) as (d2 & E2 & Hwf2 & P2 & _).
    rewrite E2. cbn [mbind option_bind]. assert (matches t k (elems d) = [kv]) as Ek.
    { rewrite <- (matches_perm t k (elems d1) (elems d)) by (done || apply Hwf1). by eapply found_matches. }
    assert (exists w l0, kv = (k, Some w) /\ l ≡ₚ (k, w) :: l0 /\ others t k (elems d) ≡ₚ map some_val l0) as (w & l0 & -> & Pl & Po).
    { destruct (M !! k) as [w |] eqn:Ew.
      - apply HM in Ew. pose proof (found_one l k w Hok Ew) as E1. rewrite <- Em, Ek in E1. injection E1 as ->. exists w.
        apply list_elem_of_split in Ew as (l1 & l2 & El2). exists (l1 ++ l2). split; [done |]. split; [rewrite El2; symmetry; apply Permutation_middle |].
        apply (Permutation_cons_inv (a := (k, Some w))). pose proof (split_match t k (elems d)) as Ps. rewrite Ek in Ps. cbn [app] in Ps. rewrite <- Ps, El, El2.
        rewrite !map_app. symmetry. apply (Permutation_middle (map some_val l1) (map some_val l2) (some_val (k, w))).
      - rewrite Em, found_none in Ek; [done |]. rewrite (key_in l k M HM), Ew. by intros [? ?]. }
    exists d2. rewrite (old_key l k w M HM) by (rewrite Pl; left). split; [done |].
    assert (elems d2 ≡ₚ map some_val ((k, v) :: l0)) as P3 by (rewrite P2, P1, Po; done).
    destruct (dict_holds d2 _ Hwf2 P3) as (l' & Hl' & P'). destruct (insert_old l l0 l' M k w v Hok HM Pl Hv P') as [Hok' HM'].
    eapply hash_rep_intro; [by split | done | exact HM'].
Qed.

Notation hset := (hashTypeSet dictSdsHash resize addr junk llbuf E B).

Definition sets k v (M : gmap (list Z) (list Z)) (r : option (hashobj * bool)) : Prop :=
  exists o', r = Some (o', bool_decide (is_Some (M !! k))) /\ hash_rep o' (<[k := v]> M).

Lemma hashTypeSet_ok o (M : gmap (list Z) (list Z)) k v : hash_rep o M -> Z.of_nat (size M) < 2 ^ 57 -> member k -> member v -> sets k v M (hset o k v).
Proof.
  intros HR Hs Hk Hv. unfold hashTypeSet.
  assert (forall d, hash_rep (HHash d) M -> sets k v M ('(ht, de) ← dictAddRaw t resize d k;
      match de with
      | Added de => ht ← dictSetVal t ht de v; ht ← dictSetKey t ht de k; Some (HHash ht, false)
      | Existing existing => ht ← dictSetVal t ht existing v; Some (HHash ht, true)
      | AddError => None
      end)) as Hht.
  { intros d (l & Hl & _ & HM & El)%hash_rep_elim. destruct (set_hash d l k v M Hl ltac:(lia) HM Hk Hv) as (d' & Ed & HR'). by exists (HHash d'). }
  destruct o as [lp | d]; cbn [hash_enc]; [| cbn [bool_decide andb mbind option_bind]; by apply Hht].
  rewrite bool_decide_eq_true_2 by done. cbn [andb]. destruct ((B <? zlen k) || (B <? zlen v)) eqn:Eb.
  { destruct (hashTypeConvert_ok lp M HR ltac:(lia)) as (d & -> & Hd). cbn [mbind option_bind]. by apply Hht. }
  apply orb_false_iff in Eb as [Hkb%Z.ltb_ge Hvb%Z.ltb_ge]. cbn [mbind option_bind].
  destruct (hash_rep_elim _ _ HR) as (l & Hl & Hw & HM & El).
  destruct (set_listpack_ok lp l k v M Hl Hw HM Hk Hv Hkb Hvb) as (lp' & l' & -> & Hl' & HM' & Hn' & Hf'). cbn [mbind option_bind].
  destruct (hashTypeLength_list _ l' Hl') as (o1 & -> & Hl1 & He1 & _). cbn [mbind option_bind]. destruct o1 as [lp1 | d1]; [| done].
  destruct (Z.ltb_spec E (zlen l')) as [Hgt | Hle].
  - destruct (convert_ok lp1 l' Hl1) as (d & l2 & -> & Hd & P); [lia |]. cbn [mbind option_bind]. eexists. split; [reflexivity |]. by eapply (perm_rep l' _ l2).
  - cbn [mbind option_bind]. eexists. split; [reflexivity |]. eapply hash_rep_intro; [exact Hl1 | by split | exact HM'].
Qed.

(** * Deleting *)

Lemma delete_old_key l l0 k (w : list Z) (M : gmap (list Z) (list Z)) : pairs_ok l -> is_map l M -> l ≡ₚ (k, w) :: l0 -> pairs_ok l0 /\ is_map l0 (delete k M).
Proof using.
  intros Hok HM P. pose proof (pairs_ok_perm _ _ P Hok) as [Hn Hm]. cbn [map] in Hn. apply NoDup_cons in Hn as [Hk Hn]. apply Forall_cons in Hm as [_ Hm].
  split; [by split |]. intros k1 v1. rewrite lookup_delete_Some, <- HM, P, elem_of_cons. split.
  - intros Hin. split; [| by right]. intros ->. apply Hk. apply list_elem_of_fmap. by exists (k1, v1).
  - intros [Hne [Ee | Hin]]; [injection Ee as -> ->; done | done].
Qed.

Definition deletes k (M : gmap (list Z) (list Z)) (r : option (hashobj * bool)) : Prop :=
  exists o', r = Some (o', bool_decide (is_Some (M !! k))) /\ hash_rep o' (delete k M).

Lemma deletes_none o l k (M : gmap (list Z) (list Z)) : hrep_list o l -> hwithin o l -> is_map l M -> k ∉ map fst l -> deletes k M (Some (o, false)).
Proof using.
  intros Hl Hw HM Hk. exists o. rewrite (new_key l k M HM Hk). split; [done |]. rewrite (key_in l k M HM) in Hk. rewrite delete_id by (by apply eq_None_not_Some).
  by eapply hash_rep_intro.
Qed.

Lemma hashTypeDelete_ok o (M : gmap (list Z) (list Z)) k : hash_rep o M -> Z.of_nat (size M) < 2 ^ 57 -> member k -> deletes k M (hashTypeDelete dictSdsHash resize junk o k).
Proof.
  intros HR Hs Hk. destruct (hash_rep_elim _ _ HR) as (l & Hl & Hw & HM & El). pose proof Hl as [Hh Hok]. destruct o as [lp | d]; cbn [hashTypeDelete].
  - destruct Hh as (es & R & E1). destruct (lp_find_field_ok lp es k R) as (r & -> & Hr). cbn [mbind option_bind]. destruct r as [p |].
    + destruct Hr as (es1 & q & es2 & -> & Ek & ->). rewrite flat_at in R. destruct (delete_range_with_entry junk lp _ _ _ 2 R ltac:(lia)) as (lp' & -> & R').
      cbn [mbind option_bind]. change (Z.to_nat 2) with 2%nat in R'. cbn [drop] in R'. rewrite drop_0, <- flat_app in R'.
      assert (l ≡ₚ (k, entry_str q.2) :: map pair_str (es1 ++ es2)) as P.
      { rewrite E1, !map_app. cbn [map]. unfold pair_str at 2. rewrite Ek. symmetry. apply Permutation_middle. }
      destruct (delete_old_key l _ k _ M Hok HM P) as [Hok' HM']. exists (HListpack lp'). split.
      * do 2 f_equal. symmetry. apply (old_key l k (entry_str q.2) M HM). rewrite P. left.
      * eapply hash_rep_intro; [split; [by exists (es1 ++ es2) | exact Hok'] | | exact HM']. destruct Hw as [Hn Hf]. split.
        -- apply Permutation_length in P. cbn [length] in P. unfold zlen in *. lia.
        -- rewrite P in Hf. by apply Forall_cons in Hf as [_ Hf].
    + rewrite <- E1 in Hr. by eapply deletes_none.
  - destruct Hh as [Hwf E1]. assert (zlen (elems d) = zlen l) as Hz by (rewrite E1; unfold zlen; by rewrite length_map).
    destruct (delete_resize_ok t resize d k Hwf) as (d1 & -> & Hwf2 & P2); [rewrite Hz; lia |]. cbn [mbind option_bind].
    assert (has t k (elems d) = bool_decide (is_Some (M !! k))) as Hhas.
    { rewrite E1, (has_key t) by (done || rewrite map_some_fst; by apply keys_member). apply bool_decide_ext. rewrite map_some_fst. by apply key_in. }
    rewrite Hhas in *. set (d2 := if _ && _ then _ else _) in *. eexists. split; [reflexivity |].
    assert (elems d2 ≡ₚ map some_val (filter (fun p => p.1 <> k) l)) as P3.
    { rewrite P2, E1, (others_key t) by (done || rewrite map_some_fst; by apply keys_member). by rewrite (filter_map some_val (fun e => e.1 <> k)). }
    destruct (dict_holds d2 _ Hwf2 P3) as (l' & Hl' & P'). eapply (perm_rep (filter (fun p => p.1 <> k) l) _ l'); [split; [exact Hl' |] | exact P' | done |].
    + apply (pairs_ok_perm (filter (fun p => p.1 <> k) l)); [by symmetry |]. destruct Hok as [Hn Hm]. split; [| rewrite Forall_forall in *; intros p [_ Hp]%list_elem_of_filter; by apply Hm].
      assert (map fst (filter (fun p => p.1 <> k) l) = filter (fun x => x <> k) (map fst l)) as -> by exact (eq_sym (filter_map fst (fun x => x <> k) l)).
      by apply NoDup_filter.
    + intros k1 v1. rewrite list_elem_of_filter, lookup_delete_Some, HM. cbn [fst]. naive_solver.
Qed.

(** * Copies and creation *)

Lemma createHashObject_ok : exists o, createHashObject junk = Some o /\ hash_rep o ∅.
Proof using Hcap.
  unfold createHashObject. destruct (new_rep junk 0) as (lp & -> & R). cbn [mbind option_bind]. eexists. split; [reflexivity |].
  eapply (hash_rep_intro _ []); [split; [by exists [] | split; [apply NoDup_nil_2 | apply Forall_nil_2]] | split; [rewrite zlen_nil; lia | apply Forall_nil_2] |].
  intros k v. rewrite lookup_empty, elem_of_nil. done.
Qed.

Lemma hashTypeDup_ok o (M : gmap (list Z) (list Z)) : hash_rep o M -> Z.of_nat (size M) < 2 ^ 57 ->
  exists o', hashTypeDup dictSdsHash resize addr o = Some o' /\ hash_rep o' M /\ hash_enc o' = hash_enc o.
Proof.
  intros HR Hs. destruct (hash_rep_elim _ _ HR) as (l & Hl & Hw & HM & El). destruct o as [lp | d]; cbn [hashTypeDup].
  - destruct Hl as [(es & [n R] & E1) Hok]. rewrite (dup_rep _ _ _ R). cbn [mbind option_bind]. eexists. split; [reflexivity |]. split; [| done].
    eapply hash_rep_intro; [split; [exists es; split; [exists n | exact E1] | exact Hok] | exact Hw | exact HM].
    destruct R as [_ R]. split; [exists []; by rewrite app_nil_r | exact R].
  - assert (0 <= dictSize d < 2 ^ 64) as Hds by (unfold dictSize, u64; apply Z.mod_pos_bound; lia).
    match goal with |- context [hash_iterate addr _ ?b _] => destruct (fill_ok (HHash d) l (dictSize d) b Hl ltac:(lia) Hds) as (d' & l' & -> & Hd & P) end.
    + intros hi d0 p d1 Hc Ea. destruct hi as [f w | di de]; [done |]. destruct de as [de |]; [| done]. destruct Hc as (Ek & Ev & _).
      cbn [hashTypeCurrentFromHashTable mbind option_bind]. rewrite Ek, Ev. cbn [mbind option_bind]. by rewrite Ea.
    + cbn [mbind option_bind]. eexists. split; [reflexivity |]. split; [| done]. by eapply (perm_rep l _ l').
Qed.
End hash_type.
