(* ===== verification/HashCmds.v ===== *)
(** t_hash.c, the commands: HSETNX, HSET and HMSET, HINCRBY, HGET, HMGET, HDEL,
    HLEN, HSTRLEN, HKEYS, HVALS, HGETALL and HEXISTS, on keys of Keyspace.v. *)
From stdpp Require Import strings gmap.
From S2P Require Import Prelude Endian Strnum Listpack Dict DictIter Server Element Keyspace HashType.

Notation hash_srv := (typed_srv hashobj).

Section commands.
Context (dictSdsHash : list Z -> Z) (resize : dictResizeEnable) (addr : bool -> Z) (junk : nat -> Z) (llbuf buf64 : list Z).
Context (hash_max_listpack_entries hash_max_listpack_value : Z).

Notation get_value := (hashTypeGetValue dictSdsHash resize).
Notation exists_ := (hashTypeExists dictSdsHash resize).
Notation try_conversion := (hashTypeTryConversion dictSdsHash resize addr llbuf hash_max_listpack_entries hash_max_listpack_value).
Notation set_field := (hashTypeSet dictSdsHash resize addr junk llbuf hash_max_listpack_entries hash_max_listpack_value).
Notation delete_field := (hashTypeDelete dictSdsHash resize junk).

(** The boolean is whether there is a hash at the key, not NULL. *)
Definition hashTypeLookupWriteOrCreate (key : list Z) (s : hash_srv) : option (hash_srv * bool) :=
  let '(s, wrong) := checkTyped (db s !! key) s in
  if wrong then Some (s, false)
  else
    match db s !! key with
    | None => o ← createHashObject junk; s ← dbAdd key o s; Some (s, true)
    | Some _ => Some (s, true)
    end.

(** * Changing *)

Definition hash_try_conversion (key : list Z) (args : list (list Z)) (s : hash_srv) : option hash_srv :=
  r ← on_key key (fun o => o ← try_conversion o args; Some (o, tt)) s; Some r.1.

Definition hsetnxCommand (argv : list (list Z)) (s : hash_srv) : option hash_srv :=
  key ← argv !! 1%nat; field ← argv !! 2%nat; value ← argv !! 3%nat;
  '(s, found) ← hashTypeLookupWriteOrCreate key s;
  if negb found then Some s
  else
    '(s, exists_already) ← on_key key (fun o => exists_ o field) s;
    if (exists_already : bool) then Some (addReplyLongLong 0 s)
    else
      s ← hash_try_conversion key [field; value] s;
      '(s, _) ← on_key key (fun o => set_field o field value) s;
      Some (add_dirty 1 (signalModifiedKey key (addReplyLongLong 1 s))).

(** Two arguments at each turn. *)
Fixpoint hset_loop (key : list Z) (args : list (list Z)) (created : Z) (s : hash_srv) : option (hash_srv * Z) :=
  match args with
  | [] => Some (s, created)
  | [_] => None
  | field :: value :: args =>
      '(s, update) ← on_key key (fun o => set_field o field value) s;
      hset_loop key args (created + Z.b2z (negb update)) s
  end.

(** [fullname] is the name of the command in the command table. *)
Definition hsetCommand (fullname : string) (argv : list (list Z)) (s : hash_srv) : option hash_srv :=
  let argc := zlen argv in
  if argc mod 2 =? 1 then Some (addReplyErrorArity fullname s)
  else
    key ← argv !! 1%nat;
    '(s, found) ← hashTypeLookupWriteOrCreate key s;
    if negb found then Some s
    else
      s ← hash_try_conversion key (drop 2 argv) s;
      '(s, created) ← hset_loop key (drop 2 argv) 0 s;
      cmdname ← argv !! 0%nat; c ← cmdname !! 1%nat;
      let s := if (c =? 115) || (c =? 83) then addReplyLongLong created s else addReply ROk s in
      Some (add_dirty ((argc - 2) / 2) (signalModifiedKey key s)).

(** The value of the field that HINCRBY changes, or none when it is not an
    integer. *)
Definition hincrby_value (v : option setelem) : option Z :=
  match v with Some (ElStr vstr) => string2ll vstr | Some (ElInt value) => Some value | None => Some 0 end.

Definition hincrbyCommand (argv : list (list Z)) (s : hash_srv) : option hash_srv :=
  key ← argv !! 1%nat; field ← argv !! 2%nat; arg ← argv !! 3%nat;
  let '(s, incr) := getLongLongFromObjectOrReply arg None s in
  match incr with
  | None => Some s
  | Some incr =>
      '(s, found) ← hashTypeLookupWriteOrCreate key s;
      if negb found then Some s
      else
        '(s, v) ← on_key key (fun o => get_value o field) s;
        match hincrby_value v with
        | None => Some (addReplyError "hash value is not an integer" s)
        | Some value =>
            let oldvalue := value in
            if ((incr <? 0) && (oldvalue <? 0) && (incr <? LLONG_MIN - oldvalue)) ||
               ((0 <? incr) && (0 <? oldvalue) && (LLONG_MAX - oldvalue <? incr))
            then Some (addReplyError "increment or decrement would overflow" s)
            else
              let value := value + incr in
              new ← elem_text llbuf (ElInt value);
              '(s, _) ← on_key key (fun o => set_field o field new) s;
              Some (add_dirty 1 (signalModifiedKey key (addReplyLongLong value s)))
        end
  end.

(** The loop stops when the hash is empty. *)
Fixpoint hdel_loop (key : list Z) (args : list (list Z)) (deleted : Z) (s : hash_srv) : option (hash_srv * Z) :=
  match args with
  | [] => Some (s, deleted)
  | arg :: args =>
      '(s, b) ← on_key key (fun o => delete_field o arg) s;
      if (b : bool) then
        '(s, n) ← on_key key hashTypeLength s;
        if n =? 0 then Some (dbDelete key s, deleted + 1)
        else hdel_loop key args (deleted + 1) s
      else hdel_loop key args deleted s
  end.

Definition hdelCommand (argv : list (list Z)) (s : hash_srv) : option hash_srv :=
  key ← argv !! 1%nat;
  match db s !! key with
  | None => Some (addReplyLongLong 0 s)
  | o =>
      let '(s, wrong) := checkTyped o s in
      if wrong then Some s
      else
        '(s, deleted) ← hdel_loop key (drop 2 argv) 0 s;
        let s := if deleted =? 0 then s else add_dirty deleted (signalModifiedKey key s) in
        Some (addReplyLongLong deleted s)
  end.

(** * Reading *)

(** [o] is whether there is a hash, not NULL. *)
Definition addHashFieldToReply (key : list Z) (o : bool) (field : list Z) (s : hash_srv) : option hash_srv :=
  if o then
    '(s, v) ← on_key key (fun o => get_value o field) s;
    match v with Some v => reply_elem buf64 v s | None => Some (addReply RNull s) end
  else Some (addReply RNull s).

Definition hgetCommand (argv : list (list Z)) (s : hash_srv) : option hash_srv :=
  key ← argv !! 1%nat; field ← argv !! 2%nat;
  match db s !! key with
  | None => Some (addReply RNull s)
  | o =>
      let '(s, wrong) := checkTyped o s in
      if wrong then Some s else addHashFieldToReply key true field s
  end.

Fixpoint hmget_loop (key : list Z) (o : bool) (args : list (list Z)) (s : hash_srv) : option hash_srv :=
  match args with
  | [] => Some s
  | arg :: args => s ← addHashFieldToReply key o arg s; hmget_loop key o args s
  end.

Definition hmgetCommand (argv : list (list Z)) (s : hash_srv) : option hash_srv :=
  key ← argv !! 1%nat;
  let '(s, wrong) := checkTyped (db s !! key) s in
  if wrong then Some s
  else hmget_loop key (bool_decide (is_Some (db s !! key))) (drop 2 argv) (addReply (RArrayLen (zlen argv - 2)) s).

(** The commands that reply a number about a hash, 0 without one. *)
Definition on_hash_or_zero (key : list Z) (f : hashobj -> option (hashobj * Z)) (s : hash_srv) : option hash_srv :=
  match db s !! key with
  | None => Some (addReplyLongLong 0 s)
  | o =>
      let '(s, wrong) := checkTyped o s in
      if wrong then Some s
      else '(s, n) ← on_key key f s; Some (addReplyLongLong n s)
  end.

Definition hlenCommand (argv : list (list Z)) (s : hash_srv) : option hash_srv :=
  key ← argv !! 1%nat; on_hash_or_zero key hashTypeLength s.

Definition hstrlenCommand (argv : list (list Z)) (s : hash_srv) : option hash_srv :=
  key ← argv !! 1%nat; field ← argv !! 2%nat;
  on_hash_or_zero key (fun o => hashTypeGetValueLength dictSdsHash resize o field) s.

Definition hexistsCommand (argv : list (list Z)) (s : hash_srv) : option hash_srv :=
  key ← argv !! 1%nat; field ← argv !! 2%nat;
  on_hash_or_zero key (fun o => '(o, b) ← exists_ o field; Some (o, Z.b2z b)) s.

Definition addHashIteratorCursorToReply (o : hashobj) (hi : hashTypeIterator) (what : hash_what) (s : hash_srv) : option hash_srv :=
  v ← hashTypeCurrentObject o hi what; reply_elem buf64 v s.

(** A turn of the loop, with the elements counted. *)
Definition hgetall_turn (keys values : bool) (o : hashobj) (hi : hashTypeIterator) (st : hash_srv * Z) : option (hash_srv * Z) :=
  st ← (if keys then s ← addHashIteratorCursorToReply o hi OBJ_HASH_KEY st.1; Some (s, st.2 + 1) else Some st);
  if values then s ← addHashIteratorCursorToReply o hi OBJ_HASH_VALUE st.1; Some (s, st.2 + 1) else Some st.

(** [flags] has OBJ_HASH_KEY or OBJ_HASH_VALUE.  The length is an [int]. *)
Definition genericHgetallCommand (keys values : bool) (argv : list (list Z)) (s : hash_srv) : option hash_srv :=
  key ← argv !! 1%nat;
  let header n := if keys && values then RMapLen n else RArrayLen n in
  match db s !! key with
  | None => Some (addReply (header 0) s)
  | o =>
      let '(s, wrong) := checkTyped o s in
      if wrong then Some s
      else
        '(s, n) ← on_key key hashTypeLength s;
        let length := i32 n in
        o ← get_typed key s;
        '(s, count) ← hash_iterate addr o (hgetall_turn keys values o) (addReply (header length) s, 0);
        let count := if keys && values then count / 2 else count in
        _ ← assert_ (count =? length);
        Some s
  end.

Definition hkeysCommand : list (list Z) -> hash_srv -> option hash_srv := genericHgetallCommand true false.
Definition hvalsCommand : list (list Z) -> hash_srv -> option hash_srv := genericHgetallCommand false true.
Definition hgetallCommand : list (list Z) -> hash_srv -> option hash_srv := genericHgetallCommand true true.
End commands.
