(* ===== verification/HashCmdThms.v ===== *)
(** The hash commands on a map from keys to maps from fields to values: the
    specification, and every command against it; any sequence of them acts as
    on a map from keys to maps. *)
From stdpp Require Import strings gmap.
From S2P Require Import Prelude Endian Strnum Server Element Keyspace Dict HashType HashTypeThms HashCmds.

Notation hkeys_of := (map_of (typed fields_of)).
Notation hstate := (astate_of fields_of).
Notation hash_at := (@value_at fields_of _).

Definition nfields (M : fields_of) : Z := Z.of_nat (size M).

(** [args] are fields, each followed by its value. *)
Fixpoint set_fields (args : list (list Z)) (M : fields_of) : fields_of :=
  match args with field :: value :: args => set_fields args (<[field := value]> M) | _ => M end.
Fixpoint delete_fields (args : list (list Z)) (M : fields_of) : fields_of :=
  match args with field :: args => delete_fields args (delete field M) | [] => M end.

Inductive hcmd :=
| Hsetnx (key field value : list Z) | Hset (key : list Z) (args : list (list Z)) | Hmset (key : list Z) (args : list (list Z)) | Hincrby (key field arg : list Z)
| Hget (key field : list Z) | Hmget (key : list Z) (args : list (list Z)) | Hdel (key : list Z) (args : list (list Z))
| Hlen (key : list Z) | Hstrlen (key field : list Z) | Hkeys (key : list Z) | Hvals (key : list Z) | Hgetall (key : list Z) | Hexists (key field : list Z).

(** Setting fields: the reply depends on the number of new ones. *)
Definition hset_spec (name : string) (answer : Z -> areply) (key : list Z) (args : list (list Z)) (a : hstate) : hstate :=
  if zlen args mod 2 =? 1 then send (AErr ("wrong number of arguments for '" ++ name ++ "' command")) a
  else
    unless_wrong [key] (fun a =>
      let M := hash_at (adb a) key in
      send (answer (nfields (set_fields args M) - nfields M)) (change (put key (set_fields args M) (adb a)) (zlen args / 2) [key] a)) a.

Definition in_i64 (n : Z) : bool := (LLONG_MIN <=? n) && (n <=? LLONG_MAX).

Definition hspec (c : hcmd) (a : hstate) : hstate :=
  let ad := adb a in
  match c with
  | Hsetnx key field value =>
      unless_wrong [key] (fun a =>
        let M := hash_at ad key in
        if bool_decide (is_Some (M !! field)) then send (AInt 0) a
        else send (AInt 1) (change (put key (<[field := value]> M) ad) 1 [key] a)) a
  | Hset key args => hset_spec "hset" AInt key args a
  | Hmset key args => hset_spec "hmset" (fun _ => AOk) key args a
  | Hincrby key field arg =>
      match string2ll arg with
      | None => send (AErr "value is not an integer or out of range") a
      | Some incr =>
          unless_wrong [key] (fun a =>
            let M := hash_at ad key in
            match from_option string2ll (Some 0) (M !! field) with
            | None => send (AErr "hash value is not an integer") a
            | Some value =>
                if in_i64 (value + incr) then send (AInt (value + incr)) (change (put key (<[field := sdec (value + incr)]> M) ad) 1 [key] a)
                else send (AErr "increment or decrement would overflow") a
            end) a
      end
  | Hget key field => unless_wrong [key] (send (ABulk (hash_at ad key !! field))) a
  | Hmget key args => unless_wrong [key] (send (ABulks (map (fun field => hash_at ad key !! field) args))) a
  | Hdel key args =>
      unless_wrong [key] (fun a =>
        let M := hash_at ad key in
        let deleted := nfields M - nfields (delete_fields args M) in
        send (AInt deleted) (if deleted =? 0 then a else change (put key (delete_fields args M) ad) deleted [key] a)) a
  | Hlen key => unless_wrong [key] (send (AInt (nfields (hash_at ad key)))) a
  | Hstrlen key field => unless_wrong [key] (send (AInt (from_option zlen 0 (hash_at ad key !! field)))) a
  | Hkeys key => unless_wrong [key] (send (AAny (map fst (map_to_list (hash_at ad key))))) a
  | Hvals key => unless_wrong [key] (send (AAny (map snd (map_to_list (hash_at ad key))))) a
  | Hgetall key => unless_wrong [key] (send (AMap (hash_at ad key))) a
  | Hexists key field => unless_wrong [key] (send (AInt (Z.b2z (bool_decide (is_Some (hash_at ad key !! field)))))) a
  end.

Fixpoint hspec_all (cs : list hcmd) (a : hstate) : hstate :=
  match cs with [] => a | c :: cs => hspec_all cs (hspec c a) end.

(** What a command needs: fields and values that are strings of bytes below
    2 GB, as many arguments as its arity asks for, and hashes whose number of
    fields fits the integers of the code. *)
Definition hcmd_ok (c : hcmd) (a : hstate) : Prop :=
  match c with
  | Hset key args | Hmset key args =>
      2 <= zlen args < 2147483646 /\ Forall member args /\ nfields (hash_at (adb a) key) < 2 ^ 56
  | Hsetnx key field value => member field /\ member value /\ nfields (hash_at (adb a) key) < 2 ^ 56
  | Hincrby key field _ => member field /\ nfields (hash_at (adb a) key) < 2 ^ 56
  | Hdel key args => Forall member args /\ nfields (hash_at (adb a) key) < 2 ^ 56
  | Hget key field | Hstrlen key field | Hexists key field => member field
  | Hmget key args => Forall member args
  | Hlen key => True
  | Hkeys key | Hvals key | Hgetall key => nfields (hash_at (adb a) key) < 2 ^ 30
  end.
Fixpoint hcmds_ok (cs : list hcmd) (a : hstate) : Prop :=
  match cs with [] => True | c :: cs => hcmd_ok c a /\ hcmds_ok cs (hspec c a) end.

#[export] Instance hcmd_ok_dec c a : Decision (hcmd_ok c a).
Proof. destruct c; cbn [hcmd_ok]; apply _. Defined.
#[export] Instance hcmds_ok_dec cs a : Decision (hcmds_ok cs a).
Proof. revert a. induction cs as [| c cs IH]; intros a; cbn [hcmds_ok]; apply _. Defined.

(** * No key has an empty hash *)

Lemma no_empty_hspec c a : no_empty a -> no_empty (hspec c a).
Proof.
  intros Ha. assert (forall key (M : fields_of) k, put key M (adb a) !! k <> Some (Typed ∅)) as Hp by (intros; by apply no_empty_put).
  destruct c; cbn [hspec]; unfold hset_spec, unless_wrong; repeat case_match; try exact Ha; intros k; cbn [adb send change]; apply Hp.
Qed.

Lemma no_empty_hspec_all cs : forall a, no_empty a -> no_empty (hspec_all cs a).
Proof. induction cs as [| c cs IH]; intros a Ha; cbn [hspec_all]; [done |]. by apply IH, no_empty_hspec. Qed.

(** * Fields *)

Lemma nfields_insert (M : fields_of) k v : nfields (<[k := v]> M) = nfields M + Z.b2z (negb (bool_decide (is_Some (M !! k)))).
Proof.
  unfold nfields. rewrite map_size_insert. destruct (M !! k) as [w |] eqn:E.
  - rewrite bool_decide_eq_true_2 by (by exists w). cbn. lia.
  - rewrite bool_decide_eq_false_2 by (by intros [? ?]). cbn. lia.
Qed.

Lemma nfields_delete (M : fields_of) k : nfields (delete k M) = nfields M - Z.b2z (bool_decide (is_Some (M !! k))).
Proof.
  unfold nfields. destruct (M !! k) as [w |] eqn:E.
  - rewrite bool_decide_eq_true_2 by (by exists w). rewrite <- (insert_delete_id M k w E) at 2. rewrite map_size_insert_None by apply lookup_delete_eq. cbn. lia.
  - rewrite bool_decide_eq_false_2 by (by intros [? ?]). rewrite delete_id by done. cbn. lia.
Qed.

Lemma nfields_nonneg (M : fields_of) : 0 <= nfields M.
Proof. unfold nfields. lia. Qed.

Lemma nfields_empty (M : fields_of) : nfields M = 0 <-> M = ∅.
Proof. unfold nfields. rewrite <- (map_size_empty_iff M). lia. Qed.

Lemma set_fields_ge args : forall M : fields_of, nfields M <= nfields (set_fields args M) <= nfields M + zlen args.
Proof.
  induction args as [| k | k v args IH] using pairs_ind; intros M; cbn [set_fields]; [rewrite zlen_nil; lia | rewrite zlen_cons, zlen_nil; lia |].
  specialize (IH (<[k := v]> M)). rewrite !zlen_cons, nfields_insert in *. destruct (bool_decide _); cbn [negb Z.b2z] in *; lia.
Qed.

Lemma delete_fields_le args : forall M : fields_of, 0 <= nfields (delete_fields args M) <= nfields M.
Proof.
  induction args as [| k args IH]; intros M; cbn [delete_fields]; [pose proof (nfields_nonneg M); lia |].
  specialize (IH (delete k M)). rewrite nfields_delete in IH. destruct (bool_decide _); cbn [Z.b2z] in *; lia.
Qed.

Lemma delete_fields_empty args : delete_fields args (∅ : fields_of) = ∅.
Proof. apply nfields_empty. pose proof (delete_fields_le args ∅) as Hle. change (nfields ∅) with 0 in Hle. lia. Qed.

Lemma delete_fields_same args : forall M : fields_of, nfields (delete_fields args M) = nfields M -> delete_fields args M = M.
Proof.
  induction args as [| k args IH]; intros M; cbn [delete_fields]; [done |]. intros E.
  pose proof (delete_fields_le args (delete k M)) as Hle. pose proof (nfields_delete M k) as Hd.
  destruct (bool_decide_reflect (is_Some (M !! k))) as [| Hn]; cbn [Z.b2z] in Hd; [lia |].
  rewrite delete_id in * by (by apply eq_None_not_Some). by apply IH.
Qed.

Lemma put_set_fields key args (M : fields_of) (ad : hkeys_of) : 2 <= zlen args -> put key (set_fields args M) ad = <[key := Typed (set_fields args M)]> ad.
Proof.
  intros Hz. unfold put. rewrite bool_decide_eq_false_2; [done |]. rewrite <- nfields_empty. destruct args as [| k [| v args]]; [by rewrite zlen_nil in Hz | by rewrite zlen_cons, zlen_nil in Hz |].
  cbn [set_fields]. pose proof (set_fields_ge args (<[k := v]> M)). pose proof (nfields_insert M k v). pose proof (nfields_nonneg M).
  assert (nfields (<[k := v]> M) <> 0) by (rewrite nfields_empty; apply insert_non_empty). pose proof (nfields_nonneg (<[k := v]> M)). lia.
Qed.

Lemma put_field key k v (M : fields_of) (ad : hkeys_of) : put key (<[k := v]> M) ad = <[key := Typed (<[k := v]> M)]> ad.
Proof. exact (put_set_fields key [k; v] M ad ltac:(done)). Qed.

Section commands.
Context (dictSdsHash : list Z -> Z) (resize : dictResizeEnable) (addr : bool -> Z) (junk : nat -> Z) (llbuf buf64 : list Z).
Context (hash_max_listpack_entries hash_max_listpack_value : Z).
Notation E := hash_max_listpack_entries.
Notation B := hash_max_listpack_value.
Context (hash_range : forall k, 0 <= dictSdsHash k < 2 ^ 64).
Context (hash_compare : forall k1 k2, dictSdsKeyCompare k1 k2 = true -> dictSdsHash k1 = dictSdsHash k2).
Context (Hll : zlen llbuf = LONG_STR_SIZE) (H64 : zlen buf64 = 64).
Context (Hcap : 0 <= E /\ 0 <= B /\ (2 * E + 2) * (B + 14) + 20 < 4294967296).
Notation hash_rep := (hash_rep dictSdsHash E B).
Notation db_rep := (db_rep (HashTypeThms.hash_rep dictSdsHash E B)).
Notation state_rep := (state_rep (HashTypeThms.hash_rep dictSdsHash E B)).
Implicit Types (s : hash_srv) (ad : hkeys_of) (a : hstate) (M : fields_of).

(** * Operations at a key *)

Lemma length_at s ad key M : db_rep (db s) ad -> ad !! key = Some (Typed M) ->
  exists d, on_key key hashTypeLength s = Some (with_db d s, nfields M) /\ db_rep d ad.
Proof.
  intros Hd Ea. destruct (on_key_same hash_rep key hashTypeLength s ad M (nfields M) Hd Ea) as (d & E' & Hd' & _); [| by exists d].
  intros o HR. by apply hashTypeLength_ok.
Qed.

Lemma exists_at s ad key M field : db_rep (db s) ad -> ad !! key = Some (Typed M) -> member field ->
  exists d, on_key key (fun o => hashTypeExists dictSdsHash resize o field) s = Some (with_db d s, bool_decide (is_Some (M !! field))) /\ db_rep d ad.
Proof.
  intros Hd Ea Hf. edestruct (on_key_same (B := bool) hash_rep key) as (d & E' & Hd' & _); [exact Hd | exact Ea | | by exists d].
  intros o HR. by apply (hashTypeExists_ok dictSdsHash resize E B).
Qed.

Lemma get_at s ad key M field : db_rep (db s) ad -> ad !! key = Some (Typed M) -> member field ->
  exists d r, on_key key (fun o => hashTypeGetValue dictSdsHash resize o field) s = Some (with_db d s, r) /\ db_rep d ad /\ finds r (M !! field).
Proof.
  intros Hd Ea Hf. destruct (db_get _ _ _ _ _ Hd Ea) as (o & Es & HR).
  destruct (hashTypeGetValue_ok dictSdsHash resize E B hash_range hash_compare o M field HR Hf) as (o' & r & Eo & HR' & Hr).
  unfold on_key, get_typed. rewrite Es. cbn [mbind option_bind]. rewrite Eo. cbn [mbind option_bind]. eexists _, r.
  split; [reflexivity |]. split; [by eapply db_keep | done].
Qed.

Lemma set_at s ad key M field value : db_rep (db s) ad -> ad !! key = Some (Typed M) -> nfields M < 2 ^ 57 -> member field -> member value ->
  exists d, on_key key (fun o => hashTypeSet dictSdsHash resize addr junk llbuf E B o field value) s = Some (with_db d s, bool_decide (is_Some (M !! field))) /\
    db_rep d (<[key := Typed (<[field := value]> M)]> ad).
Proof.
  intros Hd Ea Hs Hf Hv. edestruct (on_key_ok (B := bool) hash_rep key) as (o' & E' & HR'); [exact Hd | exact Ea | |].
  - intros o HR. exact (hashTypeSet_ok dictSdsHash resize addr junk llbuf E B hash_range hash_compare Hll Hcap o M field value HR Hs Hf Hv).
  - eexists. split; [exact E' |]. by apply db_insert.
Qed.

Lemma delete_at s ad key M field : db_rep (db s) ad -> ad !! key = Some (Typed M) -> nfields M < 2 ^ 57 -> member field ->
  exists d, on_key key (fun o => hashTypeDelete dictSdsHash resize junk o field) s = Some (with_db d s, bool_decide (is_Some (M !! field))) /\
    db_rep d (<[key := Typed (delete field M)]> ad).
Proof.
  intros Hd Ea Hs Hf. edestruct (on_key_ok (B := bool) hash_rep key) as (o' & E' & HR'); [exact Hd | exact Ea | |].
  - intros o HR. exact (hashTypeDelete_ok dictSdsHash resize junk llbuf E B hash_range hash_compare Hcap o M field HR Hs Hf).
  - eexists. split; [exact E' |]. by apply db_insert.
Qed.

Lemma try_conversion_at s ad key M args : db_rep (db s) ad -> ad !! key = Some (Typed M) -> nfields M < 2 ^ 57 -> zlen args < 2 ^ 32 ->
  exists d, hash_try_conversion dictSdsHash resize addr llbuf E B key args s = Some (with_db d s) /\ db_rep d ad.
Proof.
  intros Hd Ea Hs Hz. unfold hash_try_conversion. match goal with |- context [on_key key ?f s] =>
    destruct (on_key_same hash_rep key f s ad M tt Hd Ea) as (d & -> & Hd' & _) end; [| by exists d].
  intros o HR. destruct (hashTypeTryConversion_ok dictSdsHash resize addr llbuf E B hash_range hash_compare Hll o M args HR) as (o' & -> & HR');
    [unfold nfields in Hs; lia | done |]. by exists o'.
Qed.

Lemma lookup_or_create_ok s ad key : db_rep (db s) ad ->
  if wrong ad key then hashTypeLookupWriteOrCreate junk key s = Some (addReplyError wrongtypeerr s, false)
  else exists d, hashTypeLookupWriteOrCreate junk key s = Some (with_db d s, true) /\ db_rep d (<[key := Typed (hash_at ad key)]> ad).
Proof.
  intros Hd. unfold hashTypeLookupWriteOrCreate. rewrite (checkType_ok _ _ _ key s Hd). destruct (wrong ad key) eqn:Hw; [done |].
  destruct (not_wrong _ _ Hw) as [Ea | Ea].
  - pose proof Ea as Es. rewrite <- (db_none _ _ _ key Hd) in Es. rewrite Es.
    destruct (createHashObject_ok dictSdsHash junk E B Hcap) as (o & -> & HR). cbn [mbind option_bind]. unfold dbAdd. rewrite Es, bool_decide_eq_true_2 by done.
    cbn [assert_ mbind option_bind]. eexists. split; [reflexivity |]. rewrite (value_at_None _ _ Ea). by apply db_insert.
  - destruct (db_get _ _ _ _ _ Hd Ea) as (o & -> & _). exists (db s). rewrite with_db_id, insert_id by done. by split.
Qed.

(** * Commands that change a hash *)

Lemma added_ok s a d key M n : state_rep s a -> db_rep d (<[key := Typed M]> (adb a)) -> put key M (adb a) = <[key := Typed M]> (adb a) ->
  state_rep (add_dirty n (signalModifiedKey key (with_db d s))) (change (put key M (adb a)) n [key] a).
Proof. intros HR Hd Ep. rewrite Ep. exact (state_change _ s a d _ n [key] HR Hd). Qed.

Lemma present_key ad key field : is_Some (hash_at ad key !! field) -> ad !! key = Some (Typed (hash_at ad key)).
Proof. unfold value_at. destruct (ad !! key) as [[M |] |]; [done | |]; rewrite lookup_empty; by intros [? ?]. Qed.

Lemma hsetnx_ok c s a key field value : state_rep s a -> member field -> member value -> nfields (hash_at (adb a) key) < 2 ^ 56 ->
  exists s', hsetnxCommand dictSdsHash resize addr junk llbuf E B [c; key; field; value] s = Some s' /\ state_rep s' (hspec (Hsetnx key field value) a).
Proof.
  intros HR Hf Hv Hs. pose proof HR as (Hd & _). cbn [hspec]. rewrite unless_wrong_1. unfold hsetnxCommand. cbn [lookup list_lookup mbind option_bind].
  pose proof (lookup_or_create_ok s (adb a) key Hd) as Hl. destruct (wrong (adb a) key).
  { rewrite Hl. cbn [mbind option_bind negb]. eexists. split; [reflexivity | by apply state_err]. }
  destruct Hl as (d1 & -> & Hd1). cbn [mbind option_bind negb]. set (M := hash_at (adb a) key) in *. cbn zeta.
  destruct (exists_at (with_db d1 s) _ key M field Hd1 ltac:(by rewrite lookup_insert_eq) Hf) as (d2 & -> & Hd2). cbn [mbind option_bind].
  destruct (bool_decide_reflect (is_Some (M !! field))) as [Hin | Hn].
  - eexists. split; [reflexivity |]. apply state_int, (state_db _ s); [exact HR |]. by rewrite insert_id in Hd2 by (by eapply present_key).
  - destruct (try_conversion_at (with_db d2 (with_db d1 s)) _ key M [field; value] Hd2) as (d3 & -> & Hd3); [by rewrite lookup_insert_eq | lia | done |]. cbn [mbind option_bind].
    destruct (set_at (with_db d3 (with_db d2 (with_db d1 s))) _ key M field value Hd3) as (d4 & -> & Hd4); [by rewrite lookup_insert_eq | lia | done | done |]. cbn [mbind option_bind].
    eexists. split; [reflexivity |]. rewrite insert_insert_eq in Hd4.
    apply (state_int _ (add_dirty 1 (signalModifiedKey key (with_db d4 s)))). apply added_ok; [done | exact Hd4 | apply put_field].
Qed.
(** HSET and HMSET *)

Lemma hset_loop_ok key args : forall s ad M created, db_rep (db s) ad -> ad !! key = Some (Typed M) -> nfields M + zlen args < 2 ^ 57 ->
  zlen args mod 2 = 0 -> Forall member args ->
  exists d, hset_loop dictSdsHash resize addr junk llbuf E B key args created s = Some (with_db d s, created + (nfields (set_fields args M) - nfields M)) /\
    db_rep d (<[key := Typed (set_fields args M)]> ad).
Proof.
  induction args as [| x | k v args IH] using pairs_ind; intros s ad M created Hd Ea Hs Hmod Hm; cbn [hset_loop set_fields].
  - exists (db s). rewrite with_db_id, insert_id by done. split; [do 2 f_equal; lia | done].
  - by rewrite zlen_cons, zlen_nil in Hmod.
  - apply Forall_cons in Hm as [Hk Hm]. apply Forall_cons in Hm as [Hv Hm]. rewrite !zlen_cons in *. pose proof (zlen_nonneg args).
    destruct (set_at s ad key M k v Hd Ea ltac:(lia) Hk Hv) as (d & -> & Hd'). cbn [mbind option_bind]. pose proof (nfields_insert M k v) as Hn.
    destruct (IH (with_db d s) (<[key := Typed (<[k := v]> M)]> ad) (<[k := v]> M) (created + Z.b2z (negb (bool_decide (is_Some (M !! k))))) Hd') as (d2 & -> & Hd2);
      [by rewrite lookup_insert_eq | destruct (bool_decide _); cbn [negb Z.b2z] in Hn; lia | | done |].
    { replace (1 + (1 + zlen args)) with (zlen args + 1 * 2) in Hmod by lia. by rewrite Z.mod_add in Hmod by done. }
    exists d2. rewrite insert_insert_eq in Hd2. split; [| exact Hd2]. do 2 f_equal. lia.
Qed.

Lemma hset_command_ok fullname answer c name s a key args : state_rep s a -> 2 <= zlen args < 2147483646 -> Forall member args ->
  nfields (hash_at (adb a) key) < 2 ^ 56 -> name !! 1%nat = Some c ->
  (forall n, shows (answer n) [if (c =? 115) || (c =? 83) then RInt n else ROk]) ->
  exists s', hsetCommand dictSdsHash resize addr junk llbuf E B fullname (name :: key :: args) s = Some s' /\ state_rep s' (hset_spec fullname answer key args a).
Proof.
  intros HR Hz Hm Hs Hc Hans. pose proof HR as (Hd & _). unfold hset_spec, hsetCommand. rewrite !zlen_cons.
  replace (1 + (1 + zlen args)) with (zlen args + 1 * 2) by lia. rewrite Z.mod_add by done. cbn zeta. destruct (Z.eqb_spec (zlen args mod 2) 1) as [Eo | Eo].
  { eexists. split; [reflexivity | by apply state_err]. }
  assert (zlen args mod 2 = 0) as He by (pose proof (Z.mod_pos_bound (zlen args) 2); lia). rewrite unless_wrong_1. cbn [lookup list_lookup mbind option_bind drop]. rewrite drop_0.
  pose proof (lookup_or_create_ok s (adb a) key Hd) as Hl. destruct (wrong (adb a) key).
  { rewrite Hl. cbn [mbind option_bind negb]. eexists. split; [reflexivity | by apply state_err]. }
  destruct Hl as (d1 & -> & Hd1). cbn [mbind option_bind negb]. set (M := hash_at (adb a) key) in *.
  destruct (try_conversion_at (with_db d1 s) _ key M args Hd1) as (d2 & -> & Hd2); [by rewrite lookup_insert_eq | lia | lia |]. cbn [mbind option_bind].
  destruct (hset_loop_ok key args (with_db d2 (with_db d1 s)) _ M 0 Hd2) as (d3 & -> & Hd3); [by rewrite lookup_insert_eq | lia | done | done |].
  rewrite Hc. cbn [mbind option_bind]. eexists. split; [reflexivity |]. rewrite insert_insert_eq in Hd3. rewrite Z.add_0_l.
  replace ((zlen args + 1 * 2 - 2) / 2) with (zlen args / 2) by (f_equal; lia). set (n := nfields _ - nfields M).
  pose proof (added_ok s a d3 key _ (zlen args / 2) HR Hd3 (put_set_fields key args M (adb a) (proj1 Hz))) as Hst. specialize (Hans n).
  destruct (_ || _); exact (state_send _ _ _ _ _ Hst Hans).
Qed.
(** HINCRBY *)

Lemma hincrby_value_ok r v : finds r v -> hincrby_value r = from_option string2ll (Some 0) v.
Proof.
  destruct v as [v |]; cbn [finds from_option]; [| by intros ->]. intros (e & -> & <- & He). destruct e as [str | n]; [done |].
  cbn. symmetry. by apply string2ll_sdec.
Qed.

Lemma overflow_guard incr value : is_i64 incr -> is_i64 value ->
  ((incr <? 0) && (value <? 0) && (incr <? LLONG_MIN - value)) || ((0 <? incr) && (0 <? value) && (LLONG_MAX - value <? incr)) = negb (in_i64 (value + incr)).
Proof.
  unfold is_i64, in_i64, LLONG_MIN, LLONG_MAX. intros Hi Hv.
  destruct (Z.ltb_spec incr 0), (Z.ltb_spec value 0), (Z.ltb_spec 0 incr), (Z.ltb_spec 0 value); cbn [andb orb]; try lia;
    repeat match goal with |- context [Z.ltb ?x ?y] => destruct (Z.ltb_spec x y) | |- context [Z.leb ?x ?y] => destruct (Z.leb_spec x y) end; cbn; lia.
Qed.

Lemma field_value_range (M : fields_of) field value : from_option string2ll (Some 0) (M !! field) = Some value -> is_i64 value.
Proof. destruct (M !! field) as [v |]; cbn; [by intros [? _]%string2ll_inv |]. intros [= <-]. unfold is_i64. lia. Qed.

Lemma hincrby_ok c s a key field arg : state_rep s a -> member field -> nfields (hash_at (adb a) key) < 2 ^ 56 ->
  exists s', hincrbyCommand dictSdsHash resize addr junk llbuf E B [c; key; field; arg] s = Some s' /\ state_rep s' (hspec (Hincrby key field arg) a).
Proof.
  intros HR Hf Hs. pose proof HR as (Hd & _). cbn [hspec]. unfold hincrbyCommand. cbn [lookup list_lookup mbind option_bind].
  unfold getLongLongFromObjectOrReply. destruct (string2ll arg) as [incr |] eqn:Ei; [| eexists; split; [reflexivity | by apply state_err]].
  rewrite unless_wrong_1. pose proof (lookup_or_create_ok s (adb a) key Hd) as Hl. destruct (wrong (adb a) key).
  { rewrite Hl. cbn [mbind option_bind negb]. eexists. split; [reflexivity | by apply state_err]. }
  destruct Hl as (d1 & -> & Hd1). cbn [mbind option_bind negb]. set (M := hash_at (adb a) key) in *. cbn zeta.
  destruct (get_at (with_db d1 s) _ key M field Hd1 ltac:(by rewrite lookup_insert_eq) Hf) as (d2 & r & -> & Hd2 & Hr). cbn [mbind option_bind].
  rewrite (hincrby_value_ok _ _ Hr).
  assert (is_Some (M !! field) -> state_rep (with_db d2 s) a) as Hkeep.
  { intros Hin. apply (state_db _ s); [exact HR |]. by rewrite insert_id in Hd2 by (by eapply present_key). }
  destruct (from_option string2ll (Some 0) (M !! field)) as [value |] eqn:Ev.
  - rewrite (overflow_guard incr value (proj1 (string2ll_inv _ _ Ei)) (field_value_range M field value Ev)).
    destruct (in_i64 (value + incr)) eqn:Eo; cbn [negb].
    + assert (is_i64 (value + incr)) as Hi by (unfold in_i64, is_i64, LLONG_MIN, LLONG_MAX in *; lia).
      rewrite (elem_text_ok llbuf (ElInt (value + incr)) Hll Hi). cbn [mbind option_bind etext].
      destruct (set_at (with_db d2 (with_db d1 s)) _ key M field (sdec (value + incr)) Hd2) as (d3 & -> & Hd3);
        [by rewrite lookup_insert_eq | lia | done | by apply sdec_member |]. cbn [mbind option_bind]. rewrite insert_insert_eq in Hd3.
      eexists. split; [reflexivity |]. apply (state_int _ (add_dirty 1 (signalModifiedKey key (with_db d3 s)))).
      apply added_ok; [done | exact Hd3 | apply put_field].
    + eexists. split; [reflexivity |]. apply state_err, Hkeep. destruct (M !! field) as [v |]; [by exists v |]. exfalso. cbn in Ev. injection Ev as <-.
      apply string2ll_inv in Ei as [Ei _]. unfold in_i64, is_i64, LLONG_MIN, LLONG_MAX in *. lia.
  - eexists. split; [reflexivity |]. apply state_err, Hkeep. destruct (M !! field) as [v |]; [by exists v | done].
Qed.

(** HDEL *)

Lemma hdel_loop_ok key args : forall s ad M deleted, db_rep (db s) ad -> ad !! key = Some (Typed M) -> nfields M < 2 ^ 57 -> Forall member args ->
  let M' := delete_fields args M in
  exists d, hdel_loop dictSdsHash resize junk key args deleted s = Some (with_db d s, deleted + (nfields M - nfields M')) /\
    db_rep d (if nfields M' =? nfields M then ad else put key M' ad).
Proof.
  induction args as [| x args IH]; intros s ad M deleted Hd Ea Hs Hm; cbn [hdel_loop delete_fields]; cbv zeta.
  - exists (db s). rewrite with_db_id, Z.eqb_refl. split; [do 2 f_equal; lia | done].
  - apply Forall_cons in Hm as [Hx Hm]. pose proof (nfields_nonneg M).
    destruct (delete_at s ad key M x Hd Ea Hs Hx) as (d & -> & Hd'). cbn [mbind option_bind]. pose proof (nfields_delete M x) as Hc.
    pose proof (delete_fields_le args (delete x M)) as Hle.
    assert (<[key := Typed (delete x M)]> ad !! key = Some (Typed (delete x M))) as E1 by by rewrite lookup_insert_eq.
    destruct (bool_decide_reflect (is_Some (M !! x))) as [Hin | Hn]; cbn [Z.b2z] in Hc.
    + destruct (length_at (with_db d s) _ key _ Hd' E1) as (d1 & -> & Hd1). cbn [mbind option_bind].
      rewrite (proj2 (Z.eqb_neq _ (nfields M))) by lia.
      destruct (Z.eqb_spec (nfields (delete x M)) 0) as [E0 | E0].
      * rewrite E0 in Hle. assert (delete_fields args (delete x M) = ∅) as -> by (apply nfields_empty; lia). change (nfields ∅) with 0.
        exists (delete key d1). split; [unfold with_db, dbDelete; cbn [db dirty modified replies]; do 2 f_equal; lia |].
        unfold put. rewrite bool_decide_eq_true_2 by done. rewrite <- (delete_insert_eq ad key (Typed (delete x M))). by apply db_delete.
      * destruct (IH (with_db d1 (with_db d s)) _ (delete x M) (deleted + 1) Hd1 E1 ltac:(lia) Hm) as (d2 & -> & Hd2). exists d2.
        split; [do 2 f_equal; lia |]. destruct (Z.eqb_spec (nfields (delete_fields args (delete x M))) (nfields (delete x M))) as [Es | Es]; [| by rewrite put_insert in Hd2].
        rewrite (delete_fields_same _ _ Es). unfold put. rewrite bool_decide_eq_false_2; [exact Hd2 |]. by rewrite <- nfields_empty.
    + assert (delete x M = M) as EX by (apply delete_id; by apply eq_None_not_Some). rewrite EX, insert_id in Hd' by done. rewrite EX in *. by apply (IH (with_db d s)).
Qed.

Lemma hdel_ok c s a key args : state_rep s a -> Forall member args -> nfields (hash_at (adb a) key) < 2 ^ 56 ->
  exists s', hdelCommand dictSdsHash resize junk (c :: key :: args) s = Some s' /\ state_rep s' (hspec (Hdel key args) a).
Proof.
  intros HR Hm Hs. pose proof HR as (Hd & _). cbn [hspec]. rewrite unless_wrong_1. unfold hdelCommand.
  cbn [lookup list_lookup mbind option_bind drop]. rewrite drop_0. unfold wrong, value_at in *.
  destruct (db_at _ _ _ key Hd) as [E1 E2 | o M E1 E2 HX | E1 E2]; cbn [checkTyped].
  - eexists. split; [reflexivity |]. rewrite delete_fields_empty, Z.sub_diag, Z.eqb_refl. by apply state_int.
  - destruct (hdel_loop_ok key args s (adb a) M 0 Hd E2 ltac:(lia) Hm) as (d & -> & Hd'). cbn [mbind option_bind]. eexists. split; [reflexivity |].
    rewrite Z.add_0_l. apply state_int. set (M' := delete_fields args M) in *.
    destruct (Z.eqb_spec (nfields M - nfields M') 0) as [Ez | Ez].
    + rewrite (proj2 (Z.eqb_eq _ _)) in Hd' by lia. by apply state_db.
    + rewrite (proj2 (Z.eqb_neq _ _)) in Hd' by lia. exact (state_change _ s a d _ _ [key] HR Hd').
  - eexists. split; [reflexivity | by apply state_err].
Qed.
(** * Commands that read a hash *)

Lemma field_reply_ok s ad key field : db_rep (db s) ad -> wrong ad key = false -> member field ->
  exists d, addHashFieldToReply dictSdsHash resize buf64 key (bool_decide (is_Some (ad !! key))) field s =
    Some (addReply (opt_bulk (hash_at ad key !! field)) (with_db d s)) /\ db_rep d ad.
Proof.
  intros Hd Hw Hf. unfold addHashFieldToReply. destruct (not_wrong _ _ Hw) as [Ea | Ea].
  - rewrite Ea, (value_at_None _ _ Ea), lookup_empty. exists (db s). rewrite with_db_id. by split.
  - rewrite bool_decide_eq_true_2 by (rewrite Ea; by eexists). destruct (get_at s ad key _ field Hd Ea Hf) as (d & r & E' & Hd' & Hr).
    exists d. split; [| exact Hd']. rewrite E'. cbn [mbind option_bind].
    destruct (hash_at ad key !! field) as [v |]; cbn [finds] in Hr; [| by subst r]. destruct Hr as (e & -> & <- & He). by apply reply_elem_ok.
Qed.

Lemma hget_ok c s a key field : state_rep s a -> member field ->
  exists s', hgetCommand dictSdsHash resize buf64 [c; key; field] s = Some s' /\ state_rep s' (hspec (Hget key field) a).
Proof.
  intros HR Hf. pose proof HR as (Hd & _). cbn [hspec]. rewrite unless_wrong_1. unfold hgetCommand. cbn [lookup list_lookup mbind option_bind].
  destruct (wrong (adb a) key) eqn:Hw.
  - apply wrong_other in Hw. pose proof (db_at _ _ _ key Hd) as Ha. rewrite Hw in Ha. inversion Ha; subst. cbn [checkTyped].
    eexists. split; [reflexivity | by apply state_err].
  - destruct (field_reply_ok s (adb a) key field Hd Hw Hf) as (d & Ed & Hd'). destruct (not_wrong _ _ Hw) as [Ea | Ea].
    + rewrite (proj2 (db_none _ _ _ key Hd) Ea). eexists. split; [reflexivity |]. rewrite (value_at_None _ _ Ea), lookup_empty.
      apply (state_send _ s a); [done | constructor].
    + destruct (db_get _ _ _ _ _ Hd Ea) as (o & Es & _). rewrite Es. cbn [checkTyped]. rewrite bool_decide_eq_true_2 in Ed by (rewrite Ea; by eexists).
      rewrite Ed. eexists. split; [reflexivity |]. apply state_send; [by apply (state_db _ s) | constructor].
Qed.

Lemma hmget_loop_ok key args : forall s ad, db_rep (db s) ad -> wrong ad key = false -> Forall member args ->
  exists d, hmget_loop dictSdsHash resize buf64 key (bool_decide (is_Some (ad !! key))) args s =
    Some (Srv d (dirty s) (modified s) (replies s ++ map (fun field => opt_bulk (hash_at ad key !! field)) args)) /\ db_rep d ad.
Proof.
  induction args as [| x args IH]; intros s ad Hd Hw Hm; cbn [hmget_loop map].
  - rewrite app_nil_r. exists (db s). by destruct s.
  - apply Forall_cons in Hm as [Hx Hm]. destruct (field_reply_ok s ad key x Hd Hw Hx) as (d & -> & Hd'). cbn [mbind option_bind].
    destruct (IH (addReply (opt_bulk (hash_at ad key !! x)) (with_db d s)) ad Hd' Hw Hm) as (d2 & -> & Hd2). exists d2. split; [| exact Hd2].
    cbn. by rewrite <- app_assoc.
Qed.

Lemma hmget_ok c s a key args : state_rep s a -> Forall member args ->
  exists s', hmgetCommand dictSdsHash resize buf64 (c :: key :: args) s = Some s' /\ state_rep s' (hspec (Hmget key args) a).
Proof.
  intros HR Hm. pose proof HR as (Hd & _). cbn [hspec]. rewrite unless_wrong_1. unfold hmgetCommand.
  cbn [lookup list_lookup mbind option_bind]. rewrite (checkType_ok _ _ _ key s Hd). destruct (wrong (adb a) key) eqn:Hw.
  - eexists. split; [reflexivity | by apply state_err].
  - rewrite !zlen_cons. replace (1 + (1 + zlen args) - 2) with (zlen args) by lia.
    replace (bool_decide (is_Some (db s !! key))) with (bool_decide (is_Some (adb a !! key)))
      by (apply bool_decide_ext; rewrite <- !not_eq_None_Some; by rewrite (db_none _ _ _ key Hd)).
    destruct (hmget_loop_ok key args (addReply (RArrayLen (zlen args)) s) (adb a) Hd Hw Hm) as (d & Ed & Hd').
    cbn [drop]. rewrite drop_0, Ed. eexists. split; [reflexivity |]. cbn [dirty modified replies addReply]. rewrite <- app_assoc.
    apply (state_sends _ (with_db d s)); [by apply state_db |]. cbn [app]. pose proof (shows_bulks (map (fun field => hash_at (adb a) key !! field) args)) as Hb.
    rewrite map_map in Hb. unfold zlen in *. by rewrite length_map in Hb.
Qed.

(** HLEN, HSTRLEN and HEXISTS *)

Lemma on_hash_or_zero_ok s a key f (n : fields_of -> Z) : state_rep s a -> n ∅ = 0 ->
  (forall o M, M = hash_at (adb a) key -> hash_rep o M -> exists o', f o = Some (o', n M) /\ hash_rep o' M) ->
  exists s', on_hash_or_zero key f s = Some s' /\ state_rep s' (unless_wrong [key] (send (AInt (n (hash_at (adb a) key)))) a).
Proof.
  intros HR H0 Hf. pose proof HR as (Hd & _). rewrite unless_wrong_1. unfold on_hash_or_zero, wrong, value_at in *.
  destruct (db_at _ _ _ key Hd) as [E1 E2 | o M E1 E2 HX | E1 E2]; cbn [checkTyped].
  - eexists. split; [reflexivity |]. rewrite H0. by apply state_int.
  - edestruct (on_key_same (B := Z) hash_rep key f s (adb a) M (n M) Hd E2) as (d & -> & Hd' & _); [intros o' HR'; by apply Hf |].
    cbn [mbind option_bind]. eexists. split; [reflexivity |]. by apply state_int, state_db.
  - eexists. split; [reflexivity | by apply state_err].
Qed.

Lemma hlen_ok c s a key : state_rep s a ->
  exists s', hlenCommand [c; key] s = Some s' /\ state_rep s' (hspec (Hlen key) a).
Proof. intros HR. apply (on_hash_or_zero_ok s a key _ nfields); [done | done |]. intros o M _ Ho. by apply hashTypeLength_ok. Qed.

Lemma hstrlen_ok c s a key field : state_rep s a -> member field ->
  exists s', hstrlenCommand dictSdsHash resize [c; key; field] s = Some s' /\ state_rep s' (hspec (Hstrlen key field) a).
Proof.
  intros HR Hf. apply (on_hash_or_zero_ok s a key _ (fun M : fields_of => from_option zlen 0 (M !! field))); [done | by rewrite lookup_empty |].
  intros o M _ Ho. by apply hashTypeGetValueLength_ok.
Qed.

Lemma hexists_ok c s a key field : state_rep s a -> member field ->
  exists s', hexistsCommand dictSdsHash resize [c; key; field] s = Some s' /\ state_rep s' (hspec (Hexists key field) a).
Proof.
  intros HR Hf. refine (on_hash_or_zero_ok s a key _ (fun M : fields_of => Z.b2z (@bool_decide (is_Some (M !! field)) (is_Some_dec _))) HR _ _); [by rewrite lookup_empty |].
  intros o M _ Ho. destruct (hashTypeExists_ok dictSdsHash resize E B hash_range hash_compare o M field Ho Hf) as (o' & -> & HR'). by exists o'.
Qed.

(** HKEYS, HVALS and HGETALL *)

Definition turn_replies (keys values : bool) (p : list Z * list Z) : list reply :=
  (if keys then [RBulk p.1] else []) ++ (if values then [RBulk p.2] else []).
Definition per_turn (keys values : bool) : Z := Z.b2z keys + Z.b2z values.

Lemma cursor_reply o hi p s : current o hi p ->
  addHashIteratorCursorToReply buf64 o hi OBJ_HASH_KEY s = Some (addReply (RBulk p.1) s) /\
  addHashIteratorCursorToReply buf64 o hi OBJ_HASH_VALUE s = Some (addReply (RBulk p.2) s).
Proof.
  intros Hc. unfold addHashIteratorCursorToReply. destruct o as [lp | d], hi as [fptr vptr | di de]; try done; cbn [current hashTypeCurrentObject] in *.
  - destruct fptr as [fptr |]; [| done]. destruct vptr as [vptr |]; [| done]. destruct Hc as (e1 & e2 & E1 & E2 & <- & <- & I1 & I2).
    cbn [hashTypeCurrentFromListpack mbind option_bind]. rewrite E1, E2. cbn [mbind option_bind]. by rewrite !reply_elem_ok.
  - destruct de as [de |]; [| done]. destruct Hc as (E1 & E2 & _). cbn [hashTypeCurrentFromHashTable mbind option_bind]. rewrite E1, E2. done.
Qed.

Lemma turn_ok keys values o hi p s n : current o hi p ->
  hgetall_turn buf64 keys values o hi (s, n) =
    Some (Srv (db s) (dirty s) (modified s) (replies s ++ turn_replies keys values p), n + per_turn keys values).
Proof.
  intros Hc. unfold hgetall_turn, turn_replies, per_turn.
  destruct (cursor_reply o hi p s Hc) as [Hk Hv]. destruct (cursor_reply o hi p (addReply (RBulk p.1) s) Hc) as [_ Hv2]. cbn [fst snd].
  destruct keys, values; rewrite ?Hk; cbn [mbind option_bind fst snd]; rewrite ?Hv, ?Hv2; cbn [mbind option_bind Z.b2z app]; destruct s as [d0 n0 m0 r0]; unfold addReply; cbn [db dirty modified replies];
    rewrite <- ?app_assoc, ?app_nil_r; do 2 f_equal; lia.
Qed.

Lemma hgetall_iterate_ok keys values o M s : hash_rep o M ->
  exists l, l ≡ₚ map_to_list M /\
    hash_iterate addr o (hgetall_turn buf64 keys values o) (s, 0) =
      Some (Srv (db s) (dirty s) (modified s) (replies s ++ concat (map (turn_replies keys values) l)), nfields M * per_turn keys values).
Proof.
  intros (l & Hl & _ & HM & El)%hash_rep_elim. exists l. split.
  { apply NoDup_Permutation; [eapply NoDup_fmap_1; apply Hl | apply NoDup_map_to_list |]. intros [k v]. by rewrite HM, elem_of_map_to_list. }
  destruct (hash_iterate_ok dictSdsHash addr (fun rest st => exists done_, l = done_ ++ rest /\
      st = (Srv (db s) (dirty s) (modified s) (replies s ++ concat (map (turn_replies keys values) done_)), zlen done_ * per_turn keys values))
    o l Hl (hgetall_turn buf64 keys values o)) with (s := (s, 0)) as (st & -> & done_ & Ed & ->).
  - intros p rest st hi (done_ & Ed & ->) Hc. rewrite (turn_ok _ _ _ _ p) by done. eexists. split; [reflexivity |].
    exists (done_ ++ [p]). split; [by rewrite <- app_assoc |]. cbn [db dirty modified replies]. rewrite map_app, concat_app, <- app_assoc. cbn [map concat].
    rewrite app_nil_r, zlen_app, zlen_cons, zlen_nil. do 2 f_equal. lia.
  - exists []. split; [done |]. cbn. rewrite app_nil_r. by destruct s.
  - rewrite app_nil_r in Ed. rewrite <- Ed. unfold nfields. by rewrite El.
Qed.

(** What is sent for a hash, whatever the order of the pairs. *)
Definition all_replies (keys values : bool) (l : list (list Z * list Z)) : list reply :=
  (if keys && values then RMapLen (zlen l) else RArrayLen (zlen l)) :: concat (map (turn_replies keys values) l).

Lemma generic_hgetall_ok keys values c s a key ar : keys || values = true -> state_rep s a -> nfields (hash_at (adb a) key) < 2 ^ 30 ->
  (forall l, l ≡ₚ map_to_list (hash_at (adb a) key) -> shows ar (all_replies keys values l)) ->
  exists s', genericHgetallCommand addr buf64 keys values [c; key] s = Some s' /\ state_rep s' (unless_wrong [key] (send ar) a).
Proof.
  intros Hkv HR Hs Har. pose proof HR as (Hd & _). rewrite unless_wrong_1. unfold genericHgetallCommand. cbn [lookup list_lookup mbind option_bind]. cbv zeta.
  unfold wrong, value_at in *. destruct (db_at _ _ _ key Hd) as [E1 E2 | o M E1 E2 HX | E1 E2]; cbn [checkTyped].
  - eexists. split; [reflexivity |]. apply state_send; [exact HR |]. exact (Har [] ltac:(by rewrite map_to_list_empty)).
  - destruct (length_at s (adb a) key M Hd E2) as (d & -> & Hd'). cbn [mbind option_bind].
    destruct (db_get _ _ _ _ _ Hd' E2) as (o' & Eo & HX'). unfold get_typed. cbn [db with_db]. rewrite Eo. cbn [mbind option_bind].
    pose proof (nfields_nonneg M). rewrite i32_id by lia.
    match goal with |- context [hash_iterate addr o' _ (?s0, 0)] => destruct (hgetall_iterate_ok keys values o' M s0 HX') as (l & P & ->) end. cbn [mbind option_bind].
    assert (nfields M = zlen l) as En by (unfold nfields, zlen; by rewrite P, length_map_to_list).
    replace ((if keys && values then _ / 2 else _) =? nfields M) with true.
    2: { symmetry. apply Z.eqb_eq. unfold per_turn. destruct keys, values; cbn [andb Z.b2z] in *; [by rewrite Z.div_mul | lia | lia | done]. }
    cbn [assert_ mbind option_bind]. eexists. split; [reflexivity |]. cbn [db dirty modified replies addReply]. rewrite <- app_assoc.
    apply (state_sends _ (with_db d s) a); [by apply state_db |]. specialize (Har l P). unfold all_replies in Har. rewrite <- En in Har. by destruct (keys && values).
  - eexists. split; [reflexivity | by apply state_err].
Qed.

Lemma hkeys_ok c s a key : state_rep s a -> nfields (hash_at (adb a) key) < 2 ^ 30 ->
  exists s', hkeysCommand addr buf64 [c; key] s = Some s' /\ state_rep s' (hspec (Hkeys key) a).
Proof.
  intros HR Hs. apply generic_hgetall_ok; [done.. |]. intros l P. unfold all_replies, turn_replies. cbn [andb app].
  assert (concat (map (fun p : list Z * list Z => [RBulk p.1]) l) = map RBulk (map fst l)) as -> by (clear P; induction l as [| p l IH]; [done |]; cbn; by rewrite IH).
  replace (zlen l) with (zlen (map fst l)) by (unfold zlen; by rewrite length_map). constructor. by rewrite P.
Qed.

Lemma hvals_ok c s a key : state_rep s a -> nfields (hash_at (adb a) key) < 2 ^ 30 ->
  exists s', hvalsCommand addr buf64 [c; key] s = Some s' /\ state_rep s' (hspec (Hvals key) a).
Proof.
  intros HR Hs. apply generic_hgetall_ok; [done.. |]. intros l P. unfold all_replies, turn_replies. cbn [andb app].
  assert (concat (map (fun p : list Z * list Z => [RBulk p.2]) l) = map RBulk (map snd l)) as -> by (clear P; induction l as [| p l IH]; [done |]; cbn; by rewrite IH).
  replace (zlen l) with (zlen (map snd l)) by (unfold zlen; by rewrite length_map). constructor. by rewrite P.
Qed.

Lemma hgetall_ok c s a key : state_rep s a -> nfields (hash_at (adb a) key) < 2 ^ 30 ->
  exists s', hgetallCommand addr buf64 [c; key] s = Some s' /\ state_rep s' (hspec (Hgetall key) a).
Proof.
  intros HR Hs. apply generic_hgetall_ok; [done.. |]. intros l P. unfold all_replies. cbn [andb].
  replace (zlen l) with (nfields (hash_at (adb a) key)); [by constructor |]. unfold nfields, zlen. by rewrite P, length_map_to_list.
Qed.
End commands.

(** * Sequences of commands *)

Section run.
Context (dictSdsHash : list Z -> Z) (resize : dictResizeEnable) (addr : bool -> Z) (junk : nat -> Z) (llbuf buf64 : list Z).
Context (hash_max_listpack_entries hash_max_listpack_value : Z).
Notation E := hash_max_listpack_entries.
Notation B := hash_max_listpack_value.

Definition run_hcmd (c : hcmd) : hash_srv -> option hash_srv :=
  match c with
  | Hsetnx key field value => hsetnxCommand dictSdsHash resize addr junk llbuf E B [chars "hsetnx"; key; field; value]
  | Hset key args => hsetCommand dictSdsHash resize addr junk llbuf E B "hset" (chars "hset" :: key :: args)
  | Hmset key args => hsetCommand dictSdsHash resize addr junk llbuf E B "hmset" (chars "hmset" :: key :: args)
  | Hincrby key field arg => hincrbyCommand dictSdsHash resize addr junk llbuf E B [chars "hincrby"; key; field; arg]
  | Hget key field => hgetCommand dictSdsHash resize buf64 [chars "hget"; key; field]
  | Hmget key args => hmgetCommand dictSdsHash resize buf64 (chars "hmget" :: key :: args)
  | Hdel key args => hdelCommand dictSdsHash resize junk (chars "hdel" :: key :: args)
  | Hlen key => hlenCommand [chars "hlen"; key]
  | Hstrlen key field => hstrlenCommand dictSdsHash resize [chars "hstrlen"; key; field]
  | Hkeys key => hkeysCommand addr buf64 [chars "hkeys"; key]
  | Hvals key => hvalsCommand addr buf64 [chars "hvals"; key]
  | Hgetall key => hgetallCommand addr buf64 [chars "hgetall"; key]
  | Hexists key field => hexistsCommand dictSdsHash resize [chars "hexists"; key; field]
  end.

Fixpoint run_hcmds (cs : list hcmd) (s : hash_srv) : option hash_srv :=
  match cs with [] => Some s | c :: cs => s ← run_hcmd c s; run_hcmds cs s end.
End run.

Section refine.
Context (dictSdsHash : list Z -> Z) (resize : dictResizeEnable) (addr : bool -> Z) (junk : nat -> Z) (llbuf buf64 : list Z).
Context (hash_max_listpack_entries hash_max_listpack_value : Z).
Notation E := hash_max_listpack_entries.
Notation B := hash_max_listpack_value.
Context (hash_range : forall k, 0 <= dictSdsHash k < 2 ^ 64).
Context (hash_compare : forall k1 k2, dictSdsKeyCompare k1 k2 = true -> dictSdsHash k1 = dictSdsHash k2).
Context (Hll : zlen llbuf = LONG_STR_SIZE) (H64 : zlen buf64 = 64).
Context (Hcap : 0 <= E /\ 0 <= B /\ (2 * E + 2) * (B + 14) + 20 < 4294967296).
Notation state_rep := (state_rep (hash_rep dictSdsHash E B)).
Notation run_hcmd_ := (run_hcmd dictSdsHash resize addr junk llbuf buf64 E B).

Lemma run_hcmd_ok c s a : state_rep s a -> hcmd_ok c a -> exists s', run_hcmd_ c s = Some s' /\ state_rep s' (hspec c a).
Proof.
  intros HR Hok. destruct c; cbn [hcmd_ok run_hcmd] in *.
  - destruct Hok as (Hf & Hv & Hs). by apply hsetnx_ok.
  - destruct Hok as (Hz & Hm & Hs). apply (hset_command_ok dictSdsHash resize addr junk llbuf E B hash_range hash_compare Hll Hcap "hset" AInt 115); [done.. |]. constructor.
  - destruct Hok as (Hz & Hm & Hs). apply (hset_command_ok dictSdsHash resize addr junk llbuf E B hash_range hash_compare Hll Hcap "hmset" (fun _ => AOk) 109); [done.. |]. constructor.
  - destruct Hok as [Hf Hs]. by apply hincrby_ok.
  - by apply (hget_ok dictSdsHash resize buf64 E B).
  - by apply (hmget_ok dictSdsHash resize buf64 E B).
  - destruct Hok as [Hm Hs]. by apply (hdel_ok dictSdsHash resize junk llbuf E B).
  - by apply (hlen_ok dictSdsHash E B).
  - by apply (hstrlen_ok dictSdsHash resize E B).
  - by apply (hkeys_ok dictSdsHash addr buf64 E B).
  - by apply (hvals_ok dictSdsHash addr buf64 E B).
  - by apply (hgetall_ok dictSdsHash addr buf64 E B).
  - by apply (hexists_ok dictSdsHash resize E B).
Qed.

Lemma run_hcmds_ok cs : forall s a, state_rep s a -> hcmds_ok cs a ->
  exists s', run_hcmds dictSdsHash resize addr junk llbuf buf64 E B cs s = Some s' /\ state_rep s' (hspec_all cs a).
Proof.
  induction cs as [| c cs IH]; intros s a HR Hok; cbn [run_hcmds hspec_all hcmds_ok] in *; [by exists s |].
  destruct Hok as [Hc Hok]. destruct (run_hcmd_ok c s a HR Hc) as (s1 & -> & HR1). cbn [mbind option_bind]. by apply IH.
Qed.
End refine.

(** C19: Any sequence of hash commands runs to its end and acts as its
    specification on a map from keys to maps from fields to values: the replies
    and errors are those of the specification (HKEYS, HVALS and HGETALL may
    list the pairs in any order), the same changes are counted and the same
    keys signalled, whatever the encodings the hashes go through and the
    rehashing of their tables; HINCRBY is an error exactly when the sum leaves
    64 bits; and no key is left with an empty hash.  The configured sizes of a
    listpack are such that it stays below 4 GB. *)
Theorem hash_commands_refine (dictSdsHash : list Z -> Z) (resize : dictResizeEnable) (addr : bool -> Z) (junk : nat -> Z) (llbuf buf64 : list Z)
    (hash_max_listpack_entries hash_max_listpack_value : Z)
    (hash_range : forall k, 0 <= dictSdsHash k < 2 ^ 64)
    (hash_compare : forall k1 k2, dictSdsKeyCompare k1 k2 = true -> dictSdsHash k1 = dictSdsHash k2)
    (Hll : zlen llbuf = LONG_STR_SIZE) (H64 : zlen buf64 = 64)
    (Hcap : 0 <= hash_max_listpack_entries /\ 0 <= hash_max_listpack_value /\
      (2 * hash_max_listpack_entries + 2) * (hash_max_listpack_value + 14) + 20 < 4294967296)
    (cs : list hcmd) (s : hash_srv) (a : hstate)
    (HR : state_rep (hash_rep dictSdsHash hash_max_listpack_entries hash_max_listpack_value) s a) (Hne : no_empty a) (Hok : hcmds_ok cs a) :
  exists s' : hash_srv,
    run_hcmds dictSdsHash resize addr junk llbuf buf64 hash_max_listpack_entries hash_max_listpack_value cs s = Some s' /\
    state_rep (hash_rep dictSdsHash hash_max_listpack_entries hash_max_listpack_value) s' (hspec_all cs a) /\ no_empty (hspec_all cs a).
Proof.
  destruct (run_hcmds_ok dictSdsHash resize addr junk llbuf buf64 hash_max_listpack_entries hash_max_listpack_value hash_range hash_compare Hll H64 Hcap cs s a HR Hok) as (s' & Er & HR').
  exists s'. split; [exact Er |]. split; [exact HR' | by apply no_empty_hspec_all].
Qed.

(** From the empty database, with small limits so that a hash changes its
    encoding. *)
Definition ex_hcmds : list hcmd :=
  [Hset (chars "h") [chars "f"; chars "12"; chars "g"; chars "x"]; Hset (chars "h") [chars "f"; chars "13"; chars "odd"]; Hincrby (chars "h") (chars "f") (chars "30");
   Hget (chars "h") (chars "f"); Hincrby (chars "h") (chars "g") (chars "1"); Hincrby (chars "h") (chars "f") (chars "9223372036854775807");
   Hsetnx (chars "h") (chars "g") (chars "y"); Hsetnx (chars "h") (chars "a longer field") (chars "z"); Hmset (chars "h") [chars "1"; chars "one"; chars "g"; chars "w"];
   Hgetall (chars "h"); Hstrlen (chars "h") (chars "1"); Hmget (chars "h") [chars "f"; chars "none"]; Hdel (chars "h") [chars "g"; chars "none"; chars "f"];
   Hkeys (chars "h"); Hlen (chars "h"); Hdel (chars "h") [chars "1"; chars "a longer field"; chars "f"]; Hexists (chars "h") (chars "1"); Hvals (chars "h")].

Example ex_hcmds_replies :
  replies <$> run_hcmds sum_hash DICT_RESIZE_ENABLE (fun _ => 0) (fun _ => 0) (replicate 21 0) (replicate 64 0) 2 8 ex_hcmds empty_srv =
  Some [RInt 2; RErr "wrong number of arguments for 'hset' command"; RInt 42; RBulk (chars "42"); RErr "hash value is not an integer";
        RErr "increment or decrement would overflow"; RInt 0; RInt 1; ROk;
        RMapLen 4; RBulk (chars "a longer field"); RBulk (chars "z"); RBulk (chars "1"); RBulk (chars "one"); RBulk (chars "f"); RBulk (chars "42");
        RBulk (chars "g"); RBulk (chars "w"); RInt 3; RArrayLen 2; RBulk (chars "42"); RNull; RInt 2;
        RArrayLen 2; RBulk (chars "1"); RBulk (chars "a longer field"); RInt 2; RInt 2; RInt 0; RArrayLen 0].
Proof. vm_compute. reflexivity. Qed.

Lemma hash_commands_refine_witness :
  exists s' : hash_srv,
    run_hcmds sum_hash DICT_RESIZE_ENABLE (fun _ => 0) (fun _ => 0) (replicate 21 0) (replicate 64 0) 2 8 ex_hcmds empty_srv = Some s' /\
    state_rep (hash_rep sum_hash 2 8) s' (hspec_all ex_hcmds empty_state) /\ no_empty (hspec_all ex_hcmds empty_state).
Proof.
  exact (hash_commands_refine sum_hash DICT_RESIZE_ENABLE (fun _ => 0) (fun _ => 0) (replicate 21 0) (replicate 64 0) 2 8
    (fun k => Z.mod_pos_bound _ (2 ^ 64) ltac:(lia)) sum_hash_compare eq_refl eq_refl ltac:(lia)
    ex_hcmds empty_srv empty_state (empty_state_rep _) ltac:(intros key; cbn; by rewrite lookup_empty)
    (bool_decide_unpack (hcmds_ok ex_hcmds empty_state) ltac:(vm_compute; exact I))).
Defined.
