(* ===== verification/SetCmds.v ===== *)
(** t_set.c, the commands: SADD, SREM, SMOVE, SISMEMBER, SMISMEMBER, SCARD,
    SINTER, SINTERCARD, SINTERSTORE, SUNION, SUNIONSTORE, SDIFF and SDIFFSTORE,
    on the state of Server.v.

    A set is changed in place, through a pointer.  Two pointers to values of
    the database are equal exactly when they were found at the same key, so a
    pointer is represented by that key and an access reads or writes the value
    there ([on_key]); even a membership test can change a set, whose hash table
    may be moving its elements.  [qsort] is the C library's. *)
From stdpp Require Import strings gmap.
From S2P Require Import Prelude Endian Strnum Intset Listpack Dict DictIter Server Element Keyspace SetType.

Notation db_srv := (typed_srv setobj).

(** [if (dbDelete(c->db,dstkey)) { signalModifiedKey(...); server.dirty++; }] *)
Definition delete_dst (dstkey : list Z) (s : db_srv) : db_srv :=
  if bool_decide (is_Some (db s !! dstkey)) then add_dirty 1 (signalModifiedKey dstkey (dbDelete dstkey s)) else s.

Definition getRangeLongFromObjectOrReply (o : list Z) (min max : Z) (msg : string) (s : db_srv) : db_srv * option Z :=
  let '(s, v) := getLongFromObjectOrReply o (Some msg) s in
  match v with
  | None => (s, None)
  | Some target => if (target <? min) || (max <? target) then (addReplyError msg s, None) else (s, Some target)
  end.

Definition getPositiveLongFromObjectOrReply (o : list Z) (msg : option string) (s : db_srv) : db_srv * option Z :=
  getRangeLongFromObjectOrReply o 0 LLONG_MAX (default "value is out of range, must be positive"%string msg) s.

Definition setDeferredSetLen (pos : nat) (n : Z) (s : db_srv) : db_srv :=
  Srv (db s) (dirty s) (modified s) (<[pos := RSetLen n]> (replies s)).

Section commands.
Context `{Host} (dictSdsHash : list Z -> Z) (resize : dictResizeEnable) (addr : bool -> Z) (junk : nat -> Z) (llbuf buf64 : list Z).
Context (set_max_intset_entries set_max_listpack_entries set_max_listpack_value : Z).
(** The order of the sets that [qsort] gives by their sizes. *)
Context (qsort : (option (list Z) * Z -> option (list Z) * Z -> Z) -> list (option (list Z) * Z) -> list (option (list Z) * Z)).

Notation create := (setTypeCreate junk set_max_intset_entries set_max_listpack_entries).
Notation maybe_convert := (setTypeMaybeConvert dictSdsHash resize addr junk llbuf set_max_intset_entries set_max_listpack_entries).
Notation add_aux := (setTypeAddAux dictSdsHash resize addr junk llbuf set_max_intset_entries set_max_listpack_entries set_max_listpack_value).
Notation add := (setTypeAdd dictSdsHash resize addr junk llbuf set_max_intset_entries set_max_listpack_entries set_max_listpack_value).
Notation remove_aux := (setTypeRemoveAux dictSdsHash resize junk llbuf).
Notation remove := (setTypeRemove dictSdsHash resize junk llbuf).
Notation is_member := (setTypeIsMember dictSdsHash resize llbuf).
Notation is_member_aux := (setTypeIsMemberAux dictSdsHash resize llbuf).

(** * Changing and testing *)

Fixpoint sadd_loop (key : list Z) (args : list (list Z)) (added : Z) (s : db_srv) : option (db_srv * Z) :=
  match args with
  | [] => Some (s, added)
  | arg :: args =>
      '(s, b) ← on_key key (fun set => add set arg) s;
      sadd_loop key args (if (b : bool) then added + 1 else added) s
  end.

Definition saddCommand (argv : list (list Z)) (s : db_srv) : option db_srv :=
  key ← argv !! 1%nat;
  let argc := zlen argv in
  let '(s, wrong) := checkTyped (db s !! key) s in
  if wrong then Some s
  else
    s ← (match db s !! key with
         | None => value ← argv !! 2%nat; set ← create value (argc - 2); dbAdd key set s
         | Some _ => r ← on_key key (fun set => set ← maybe_convert set (argc - 2); Some (set, tt)) s; Some r.1
         end : option db_srv);
    '(s, added) ← sadd_loop key (drop 2 argv) 0 s;
    let s := if added =? 0 then s else signalModifiedKey key s in
    Some (addReplyLongLong added (add_dirty added s)).

(** The loop stops when the set is empty; the boolean is [keyremoved]. *)
Fixpoint srem_loop (key : list Z) (args : list (list Z)) (deleted : Z) (s : db_srv) : option (db_srv * Z) :=
  match args with
  | [] => Some (s, deleted)
  | arg :: args =>
      '(s, b) ← on_key key (fun set => remove set arg) s;
      if (b : bool) then
        '(s, n) ← on_key key setTypeSize s;
        if n =? 0 then Some (dbDelete key s, deleted + 1)
        else srem_loop key args (deleted + 1) s
      else srem_loop key args deleted s
  end.

Definition sremCommand (argv : list (list Z)) (s : db_srv) : option db_srv :=
  key ← argv !! 1%nat;
  match db s !! key with
  | None => Some (addReplyLongLong 0 s)
  | o =>
      let '(s, wrong) := checkTyped o s in
      if wrong then Some s
      else
        '(s, deleted) ← srem_loop key (drop 2 argv) 0 s;
        let s := if deleted =? 0 then s else add_dirty deleted (signalModifiedKey key s) in
        Some (addReplyLongLong deleted s)
  end.

Definition smoveCommand (argv : list (list Z)) (s : db_srv) : option db_srv :=
  key1 ← argv !! 1%nat; key2 ← argv !! 2%nat; ele ← argv !! 3%nat;
  let srcset := db s !! key1 in
  let dstset := db s !! key2 in
  if bool_decide (srcset = None) then Some (addReplyLongLong 0 s)
  else
    let '(s, wrong) := checkTyped srcset s in
    if wrong then Some s
    else
      let '(s, wrong) := checkTyped dstset s in
      if wrong then Some s
      else if bool_decide (key1 = key2) then
        '(s, b) ← on_key key1 (fun set => is_member set ele) s;
        Some (addReplyLongLong (Z.b2z b) s)
      else
        '(s, removed) ← on_key key1 (fun set => remove set ele) s;
        if negb removed then Some (addReplyLongLong 0 s)
        else
          '(s, n) ← on_key key1 setTypeSize s;
          let s := if n =? 0 then dbDelete key1 s else s in
          s ← (match dstset with Some _ => Some s | None => set ← create ele 1; dbAdd key2 set s end : option db_srv);
          let s := add_dirty 1 (signalModifiedKey key1 s) in
          '(s, added) ← on_key key2 (fun set => add set ele) s;
          let s := if (added : bool) then signalModifiedKey key2 (add_dirty 1 s) else s in
          Some (addReplyLongLong 1 s).

Definition sismemberCommand (argv : list (list Z)) (s : db_srv) : option db_srv :=
  key ← argv !! 1%nat; ele ← argv !! 2%nat;
  match db s !! key with
  | None => Some (addReplyLongLong 0 s)
  | o =>
      let '(s, wrong) := checkTyped o s in
      if wrong then Some s
      else
        '(s, b) ← on_key key (fun set => is_member set ele) s;
        Some (addReplyLongLong (Z.b2z b) s)
  end.

Fixpoint smismember_loop (key : list Z) (set : bool) (args : list (list Z)) (s : db_srv) : option db_srv :=
  match args with
  | [] => Some s
  | arg :: args =>
      '(s, b) ← (if set then on_key key (fun set => is_member set arg) s else Some (s, false));
      smismember_loop key set args (addReplyLongLong (Z.b2z b) s)
  end.

Definition smismemberCommand (argv : list (list Z)) (s : db_srv) : option db_srv :=
  key ← argv !! 1%nat;
  let '(s, wrong) := checkTyped (db s !! key) s in
  if wrong then Some s
  else smismember_loop key (bool_decide (is_Some (db s !! key))) (drop 2 argv) (addReply (RArrayLen (zlen argv - 2)) s).

Definition scardCommand (argv : list (list Z)) (s : db_srv) : option db_srv :=
  key ← argv !! 1%nat;
  match db s !! key with
  | None => Some (addReplyLongLong 0 s)
  | o =>
      let '(s, wrong) := checkTyped o s in
      if wrong then Some s
      else '(s, n) ← on_key key setTypeSize s; Some (addReplyLongLong n s)
  end.

(** * Intersections *)

(** The sets at the keys, with NULL for a key that does not exist, or none
    when a key has another type (an error is sent). *)
Fixpoint lookup_sets (setkeys : list (list Z)) (s : db_srv) : db_srv * option (list (option (list Z))) :=
  match setkeys with
  | [] => (s, Some [])
  | key :: setkeys =>
      match db s !! key with
      | None => let '(s, sets) := lookup_sets setkeys s in (s, option_map (cons None) sets)
      | o =>
          let '(s, wrong) := checkTyped o s in
          if wrong then (s, None)
          else let '(s, sets) := lookup_sets setkeys s in (s, option_map (cons (Some key)) sets)
      end
  end.

Definition qsortCompareSetsByCardinality (s1 s2 : option (list Z) * Z) : Z :=
  if s2.2 <? s1.2 then 1 else if s1.2 <? s2.2 then -1 else 0.
Definition qsortCompareSetsByRevCardinality (s1 s2 : option (list Z) * Z) : Z :=
  if s1.2 <? s2.2 then 1 else if s2.2 <? s1.2 then -1 else 0.

Definition size_at (set : option (list Z)) (s : db_srv) : option (db_srv * Z) :=
  match set with None => Some (s, 0) | Some key => on_key key setTypeSize s end.

Fixpoint sizes (sets : list (option (list Z))) (s : db_srv) : option (db_srv * list (option (list Z) * Z)) :=
  match sets with
  | [] => Some (s, [])
  | set :: sets => '(s, n) ← size_at set s; '(s, ns) ← sizes sets s; Some (s, (set, n) :: ns)
  end.

(** The comparisons of [qsort] take the size of every set, unless there is
    only one. *)
Definition sort_sets (compar : option (list Z) * Z -> option (list Z) * Z -> Z) (sets : list (option (list Z))) (s : db_srv) :
    option (db_srv * list (option (list Z))) :=
  match sets with
  | [] | [_] => Some (s, sets)
  | _ => '(s, l) ← sizes sets s; Some (s, map fst (qsort compar l))
  end.

(** Whether all sets but the first contain the element. *)
Fixpoint in_all (set0 : list Z) (sets : list (option (list Z))) (e : setelem) (s : db_srv) : option (db_srv * bool) :=
  match sets with
  | [] => Some (s, true)
  | set :: sets =>
      key ← set;
      if bool_decide (key = set0) then in_all set0 sets e s
      else
        '(s, b) ← on_key key (fun set => is_member_aux set e) s;
        if (b : bool) then in_all set0 sets e s else Some (s, false)
  end.

(** [dstset] is only used when there is a destination. *)
Record inter_state := InterState { in_srv : db_srv; dstset : setobj; cardinality : Z; only_integers : bool }.

(** What is added to the destination for an element of a set of the given
    encoding, and [only_integers] then. *)
Definition inter_elem (encoding dstenc : setenc) (e : setelem) (only_integers : bool) : setelem * bool :=
  match e with
  | ElStr str =>
      if only_integers then
        match (if bool_decide (encoding = OBJ_ENCODING_HT) then string2ll str else None) with
        | Some intobj => (if bool_decide (dstenc = OBJ_ENCODING_LISTPACK) || bool_decide (dstenc = OBJ_ENCODING_INTSET) then ElInt intobj else e, true)
        | None => (e, false)
        end
      else (e, false)
  | ElInt _ => (e, only_integers)
  end.

(** The body of the loop over the elements of the first set. *)
Definition inter_body (set0 : list Z) (sets : list (option (list Z))) (encoding : setenc) (store cardinality_only : bool) (limit : Z)
    (e : setelem) (st : inter_state) : option (inter_state * bool) :=
  '(s, all) ← in_all set0 sets e (in_srv st);
  let card := u64 (cardinality st + 1) in
  if negb all then Some (InterState s (dstset st) (cardinality st) (only_integers st), false)
  else if (cardinality_only : bool) then
    Some (InterState s (dstset st) card (only_integers st), negb (limit =? 0) && (limit <=? card))
  else if negb store then
    s ← reply_elem buf64 e s; Some (InterState s (dstset st) card (only_integers st), false)
  else
    let '(e, ints) := inter_elem encoding (enc_of (dstset st)) e (only_integers st) in
    r ← add_aux (dstset st) e;
    Some (InterState s r.1 (cardinality st) ints, false).

(** The destination, of an encoding that suits the first set. *)
Definition inter_dst (set0 : setobj) : option setobj :=
  match set0 with
  | SIntset _ => Some createIntsetObject
  | SListpack lp => n ← lpBytes lp; lp ← lpNew junk n; Some (SListpack lp)
  | SHash _ => createSetListpackObject junk
  end.

(** Storing the result. *)
Definition store_set (dstkey : list Z) (dst : setobj) (s : db_srv) : option db_srv :=
  let s := setKey dstkey (Typed dst) s in
  '(s, n) ← on_key dstkey setTypeSize s;
  Some (add_dirty 1 (addReplyLongLong n s)).

Definition inter_store (dstkey : list Z) (st : inter_state) : option db_srv :=
  '(dst, n) ← setTypeSize (dstset st);
  if 0 <? n then
    dst ← (if only_integers st then maybeConvertToIntset addr junk set_max_intset_entries dst else Some dst);
    dst ← (match dst with SListpack lp => lp ← lpShrinkToFit junk lp; Some (SListpack lp) | _ => Some dst end);
    store_set dstkey dst (in_srv st)
  else Some (delete_dst dstkey (addReplyLongLong 0 (in_srv st))).

Definition sinterGenericCommand (setkeys : list (list Z)) (dstkey : option (list Z)) (cardinality_only : bool) (limit : Z) (s : db_srv) : option db_srv :=
  let '(s, sets) := lookup_sets setkeys s in
  match sets with
  | None => Some s
  | Some sets =>
      if bool_decide (None ∈ sets) then
        match dstkey with
        | Some dstkey => Some (addReplyLongLong 0 (delete_dst dstkey s))
        | None => Some (if cardinality_only then addReplyLongLong 0 s else addReply (RSetLen 0) s)
        end
      else
        '(s, sets) ← sort_sets qsortCompareSetsByCardinality sets s;
        set0 ← sets !! 0%nat; key0 ← set0;
        obj0 ← get_typed key0 s;
        dst ← (match dstkey with Some _ => inter_dst obj0 | None => Some createIntsetObject end);
        let pos := length (replies s) in
        let deferred := bool_decide (dstkey = None) && negb cardinality_only in
        let s := if deferred then addReply (RSetLen 0) s else s in
        st ← set_iterate addr (fun st => get_typed key0 (in_srv st))
               (inter_body key0 (drop 1 sets) (enc_of obj0) (bool_decide (is_Some dstkey)) cardinality_only limit) (InterState s dst 0 true);
        if cardinality_only then Some (addReplyLongLong (cardinality st) (in_srv st))
        else
          match dstkey with
          | Some dstkey => inter_store dstkey st
          | None => Some (setDeferredSetLen pos (cardinality st) (in_srv st))
          end
  end.

Definition sinterCommand (argv : list (list Z)) : db_srv -> option db_srv := sinterGenericCommand (drop 1 argv) None false 0.

Fixpoint sintercard_options (args : list (list Z)) (limit : Z) (s : db_srv) : db_srv * option Z :=
  match args with
  | [] => (s, Some limit)
  | opt :: o :: args =>
      if strcasecmp_eq opt "LIMIT" then
        let '(s, limit) := getPositiveLongFromObjectOrReply o (Some "LIMIT can't be negative"%string) s in
        match limit with None => (s, None) | Some limit => sintercard_options args limit s end
      else (addReplyError syntaxerr s, None)
  | [_] => (addReplyError syntaxerr s, None)
  end.

Definition sinterCardCommand (argv : list (list Z)) (s : db_srv) : option db_srv :=
  arg1 ← argv !! 1%nat;
  let '(s, numkeys) := getRangeLongFromObjectOrReply arg1 1 LLONG_MAX "numkeys should be greater than 0" s in
  match numkeys with
  | None => Some s
  | Some numkeys =>
      if zlen argv - 2 <? numkeys then Some (addReplyError "Number of keys can't be greater than number of args" s)
      else
        let '(s, limit) := sintercard_options (drop (Z.to_nat (2 + numkeys)) argv) 0 s in
        match limit with
        | None => Some s
        | Some limit => sinterGenericCommand (take (Z.to_nat numkeys) (drop 2 argv)) None true limit s
        end
  end.

Definition sinterstoreCommand (argv : list (list Z)) (s : db_srv) : option db_srv :=
  dstkey ← argv !! 1%nat; sinterGenericCommand (drop 2 argv) (Some dstkey) false 0 s.

(** * Unions and differences *)

Inductive set_op_kind := SET_OP_UNION | SET_OP_DIFF.

(** The sizes that the two algorithms for a difference are compared by. *)
Fixpoint diff_work (key0 : list Z) (sets : list (option (list Z))) (one two : Z) (s : db_srv) : option (db_srv * (Z * Z)) :=
  match sets with
  | [] => Some (s, (one, two))
  | None :: sets => diff_work key0 sets one two s
  | Some key :: sets =>
      '(s, n0) ← on_key key0 setTypeSize s;
      '(s, n) ← on_key key setTypeSize s;
      diff_work key0 sets (i64 (one + n0)) (i64 (two + n)) s
  end.

(** The algorithm, and the sets in the order it takes them. *)
Definition choose_diff (sets : list (option (list Z))) (s : db_srv) : option (db_srv * (Z * list (option (list Z)))) :=
  match sets with
  | Some key0 :: others =>
      '(s, work) ← diff_work key0 sets 0 0 s;
      let diff_algo := if Z.quot work.1 2 <=? work.2 then 1 else 2 in
      if (diff_algo =? 1) && (1 <? zlen sets) then
        '(s, others) ← sort_sets qsortCompareSetsByRevCardinality others s;
        Some (s, (diff_algo, Some key0 :: others))
      else Some (s, (diff_algo, sets))
  | _ => Some (s, (1, sets))
  end.

(** [cardinality] is an [int]. *)
Definition add_to (e : setelem) (dc : setobj * Z) : option (setobj * Z) :=
  '(dst, b) ← add_aux dc.1 e; Some (dst, i32 (dc.2 + Z.b2z b)).
Definition remove_from (e : setelem) (dc : setobj * Z) : option (setobj * Z) :=
  '(dst, b) ← remove_aux dc.1 e; Some (dst, i32 (dc.2 - Z.b2z b)).

(** An operation for every element of a set that stays as it is. *)
Definition for_elements (set : setobj) (op : setelem -> setobj * Z -> option (setobj * Z)) (dc : setobj * Z) : option (setobj * Z) :=
  set_iterate addr (fun _ => Some set) (fun e dc => dc ← op e dc; Some (dc, false)) dc.

Fixpoint union_loop (sets : list (option (list Z))) (s : db_srv) (dc : setobj * Z) : option (setobj * Z) :=
  match sets with
  | [] => Some dc
  | None :: sets => union_loop sets s dc
  | Some key :: sets =>
      set ← get_typed key s;
      dc ← for_elements set add_to dc;
      union_loop sets s dc
  end.

(** Whether none of the other sets contains the element; the loop also breaks
    at the first set itself. *)
Fixpoint in_none (key0 : list Z) (sets : list (option (list Z))) (e : setelem) (s : db_srv) : option (db_srv * bool) :=
  match sets with
  | [] => Some (s, true)
  | None :: sets => in_none key0 sets e s
  | Some key :: sets =>
      if bool_decide (key = key0) then Some (s, false)
      else
        '(s, b) ← on_key key (fun set => is_member_aux set e) s;
        if (b : bool) then Some (s, false) else in_none key0 sets e s
  end.

Definition diff_body (key0 : list Z) (sets : list (option (list Z))) (e : setelem) (st : db_srv * (setobj * Z)) :
    option (db_srv * (setobj * Z) * bool) :=
  '(s, none) ← in_none key0 sets e st.1;
  dc ← (if (none : bool) then add_to e st.2 else Some st.2);
  Some (s, dc, false).

(** The sets after the first, whose elements are removed while some are left. *)
Fixpoint diff_loop (sets : list (option (list Z))) (s : db_srv) (dc : setobj * Z) : option (setobj * Z) :=
  match sets with
  | [] => Some dc
  | None :: sets => diff_loop sets s dc
  | Some key :: sets =>
      set ← get_typed key s;
      dc ← for_elements set remove_from dc;
      if dc.2 =? 0 then Some dc else diff_loop sets s dc
  end.

(** The elements of the result, its number of elements, and the sets of the
    database, which membership tests may have changed. *)
Definition union_diff (op : set_op_kind) (sameset : bool) (diff_algo : Z) (sets : list (option (list Z))) (s : db_srv) : option (db_srv * (setobj * Z)) :=
  let dc := (createIntsetObject, 0) in
  match op with
  | SET_OP_UNION => dc ← union_loop sets s dc; Some (s, dc)
  | SET_OP_DIFF =>
      if sameset then Some (s, dc)
      else
        match sets with
        | Some key0 :: others =>
            if diff_algo =? 1 then
              set_iterate addr (fun st => get_typed key0 st.1) (diff_body key0 others) (s, dc)
            else
              set0 ← get_typed key0 s;
              dc ← for_elements set0 add_to dc;
              dc ← (if dc.2 =? 0 then Some dc else diff_loop others s dc);
              Some (s, dc)
        | _ => Some (s, dc)
        end
  end.

(** Whether another of the sets is the first one. *)
Definition same_set (sets : list (option (list Z))) : bool :=
  match sets with Some key0 :: others => bool_decide (Some key0 ∈ others) | _ => false end.

Definition sunionDiffGenericCommand (setkeys : list (list Z)) (dstkey : option (list Z)) (op : set_op_kind) (s : db_srv) : option db_srv :=
  let '(s, sets) := lookup_sets setkeys s in
  match sets with
  | None => Some s
  | Some sets =>
      let sameset := same_set sets in
      r ← (match op with
           | SET_OP_DIFF => if sameset then Some (s, (1, sets)) else choose_diff sets s
           | SET_OP_UNION => Some (s, (1, sets))
           end : option (db_srv * (Z * list (option (list Z)))));
      '(s, dc) ← union_diff op sameset r.2.1 r.2.2 r.1;
      match dstkey with
      | None =>
          _ ← assert_ (0 <=? dc.2);
          set_iterate addr (fun _ => Some dc.1) (fun e s => s ← reply_elem buf64 e s; Some (s, false)) (addReply (RSetLen dc.2) s)
      | Some dstkey =>
          '(dst, n) ← setTypeSize dc.1;
          if 0 <? n then store_set dstkey dst s
          else Some (delete_dst dstkey (addReplyLongLong 0 s))
      end
  end.

Definition sunionCommand (argv : list (list Z)) : db_srv -> option db_srv := sunionDiffGenericCommand (drop 1 argv) None SET_OP_UNION.
Definition sunionstoreCommand (argv : list (list Z)) (s : db_srv) : option db_srv :=
  dstkey ← argv !! 1%nat; sunionDiffGenericCommand (drop 2 argv) (Some dstkey) SET_OP_UNION s.
Definition sdiffCommand (argv : list (list Z)) : db_srv -> option db_srv := sunionDiffGenericCommand (drop 1 argv) None SET_OP_DIFF.
Definition sdiffstoreCommand (argv : list (list Z)) (s : db_srv) : option db_srv :=
  dstkey ← argv !! 1%nat; sunionDiffGenericCommand (drop 2 argv) (Some dstkey) SET_OP_DIFF s.
End commands.
