(* ===== verification/SetCmdThms.v ===== *)
(** The set commands on a map from keys to mathematical sets of strings: the
    specification, and the commands that change or test one set against it. *)
From stdpp Require Import strings gmap.
From S2P Require Import Prelude Endian Strnum Dict Server Element Keyspace SetType SetTypeThms SetCmds.

(** * The specification *)

Notation akeys := (map_of (typed elems_of)).
Notation astate := (astate_of elems_of).
Notation set_at := (@value_at elems_of _).

Definition card (X : elems_of) : Z := Z.of_nat (size X).
Definition in_set (x : list Z) (X : elems_of) : Z := Z.b2z (bool_decide (x ∈ X)).

Definition inter_all (ad : akeys) (keys : list (list Z)) : elems_of :=
  match keys with [] => ∅ | key :: keys => foldr (fun k Y => set_at ad k ∩ Y) (set_at ad key) keys end.
Definition union_all (ad : akeys) (keys : list (list Z)) : elems_of := ⋃ map (set_at ad) keys.
Definition diff_all (ad : akeys) (keys : list (list Z)) : elems_of :=
  match keys with [] => ∅ | key :: keys => set_at ad key ∖ union_all ad keys end.

(** Storing a set replaces whatever is at the key, or deletes the key. *)
Definition store (dst : list Z) (X : elems_of) (a : astate) : astate :=
  send (AInt (card X))
    (if bool_decide (X = ∅) && bool_decide (adb a !! dst = None) then a else change (put dst X (adb a)) 1 [dst] a).

(** The number of keys and the limit of SINTERCARD, or its error. *)
Fixpoint limit_of (args : list (list Z)) (limit : Z) : string + Z :=
  match args with
  | [] => inr limit
  | opt :: o :: args =>
      if strcasecmp_eq opt "LIMIT" then
        match string2ll o with
        | Some n => if n <? 0 then inl "LIMIT can't be negative"%string else limit_of args n
        | None => inl "LIMIT can't be negative"%string
        end
      else inl syntaxerr
  | [_] => inl syntaxerr
  end.
Definition intercard_args (args : list (list Z)) : string + (list (list Z) * Z) :=
  match args with
  | [] => inl syntaxerr
  | arg1 :: args =>
      match string2ll arg1 with
      | Some n =>
          if n <? 1 then inl "numkeys should be greater than 0"%string
          else if zlen args <? n then inl "Number of keys can't be greater than number of args"%string
          else match limit_of (drop (Z.to_nat n) args) 0 with inl msg => inl msg | inr limit => inr (take (Z.to_nat n) args, limit) end
      | None => inl "numkeys should be greater than 0"%string
      end
  end.

Inductive cmd :=
| Sadd (key : list Z) (args : list (list Z)) | Srem (key : list Z) (args : list (list Z)) | Smove (key1 key2 ele : list Z)
| Sismember (key ele : list Z) | Smismember (key : list Z) (args : list (list Z)) | Scard (key : list Z)
| Sinter (keys : list (list Z)) | Sintercard (args : list (list Z)) | Sinterstore (dst : list Z) (keys : list (list Z))
| Sunion (keys : list (list Z)) | Sunionstore (dst : list Z) (keys : list (list Z))
| Sdiff (keys : list (list Z)) | Sdiffstore (dst : list Z) (keys : list (list Z)).

Definition spec (c : cmd) (a : astate) : astate :=
  let ad := adb a in
  match c with
  | Sadd key args =>
      unless_wrong [key] (fun a =>
        let X := list_to_set args ∪ set_at ad key in
        let added := card X - card (set_at ad key) in
        send (AInt added) (change (put key X ad) added (if added =? 0 then [] else [key]) a)) a
  | Srem key args =>
      unless_wrong [key] (fun a =>
        let X := set_at ad key ∖ list_to_set args in
        let deleted := card (set_at ad key) - card X in
        send (AInt deleted) (if deleted =? 0 then a else change (put key X ad) deleted [key] a)) a
  | Smove key1 key2 ele =>
      if bool_decide (ad !! key1 = None) then send (AInt 0) a
      else
        unless_wrong [key1; key2] (fun a =>
          if bool_decide (key1 = key2) || negb (bool_decide (ele ∈ set_at ad key1)) then send (AInt (in_set ele (set_at ad key1))) a
          else
            let X2 := set_at ad key2 in
            let new := bool_decide (ele ∉ X2) in
            send (AInt 1) (change (put key2 ({[ele]} ∪ X2) (put key1 (set_at ad key1 ∖ {[ele]}) ad)) (1 + Z.b2z new)
              (key1 :: if new then [key2] else []) a)) a
  | Sismember key ele => unless_wrong [key] (send (AInt (in_set ele (set_at ad key)))) a
  | Smismember key args => unless_wrong [key] (send (AInts (map (fun ele => in_set ele (set_at ad key)) args))) a
  | Scard key => unless_wrong [key] (send (AInt (card (set_at ad key)))) a
  | Sinter keys => unless_wrong keys (send (AElems (inter_all ad keys))) a
  | Sintercard args =>
      match intercard_args args with
      | inl msg => send (AErr msg) a
      | inr (keys, limit) =>
          let n := card (inter_all ad keys) in
          unless_wrong keys (send (AInt (if limit =? 0 then n else Z.min limit n))) a
      end
  | Sinterstore dst keys => unless_wrong keys (store dst (inter_all ad keys)) a
  | Sunion keys => unless_wrong keys (send (AElems (union_all ad keys))) a
  | Sunionstore dst keys => unless_wrong keys (store dst (union_all ad keys)) a
  | Sdiff keys => unless_wrong keys (send (AElems (diff_all ad keys))) a
  | Sdiffstore dst keys => unless_wrong keys (store dst (diff_all ad keys)) a
  end.

Fixpoint spec_all (cs : list cmd) (a : astate) : astate :=
  match cs with [] => a | c :: cs => spec_all cs (spec c a) end.

(** What a command needs: elements that are strings of bytes below 2 GB, as
    many arguments as its arity asks for, and sets whose total number of
    elements fits an [int]. *)
Definition total (ad : akeys) (keys : list (list Z)) : Z := foldr (fun k n => card (set_at ad k) + n) 0 keys.
Definition cmd_ok (c : cmd) (a : astate) : Prop :=
  match c with
  | Sadd key args => args <> [] /\ Forall member args /\ zlen args < 2147483646 /\ total (adb a) [key] + zlen args < 2 ^ 57
  | Srem key args | Smismember key args => Forall member args /\ total (adb a) [key] < 2 ^ 57
  | Smove key1 key2 ele => member ele /\ total (adb a) [key1; key2] < 2 ^ 56
  | Sismember key ele => member ele /\ total (adb a) [key] < 2 ^ 57
  | Scard key => True
  | Sinter keys | Sinterstore _ keys => keys <> [] /\ total (adb a) keys < 2 ^ 56
  | Sintercard args => match intercard_args args with inl _ => args <> [] | inr (keys, _) => total (adb a) keys < 2 ^ 56 end
  | Sunion keys | Sunionstore _ keys | Sdiff keys | Sdiffstore _ keys => keys <> [] /\ total (adb a) keys < 2147483648
  end.
Fixpoint cmds_ok (cs : list cmd) (a : astate) : Prop :=
  match cs with [] => True | c :: cs => cmd_ok c a /\ cmds_ok cs (spec c a) end.

#[export] Instance cmd_ok_dec c a : Decision (cmd_ok c a).
Proof. destruct c; cbn [cmd_ok]; try destruct (intercard_args _) as [| []]; apply _. Defined.
#[export] Instance cmds_ok_dec cs a : Decision (cmds_ok cs a).
Proof. revert a. induction cs as [| c cs IH]; intros a; cbn [cmds_ok]; apply _. Defined.

(** * No key has an empty set *)

Lemma no_empty_spec c a : no_empty a -> no_empty (spec c a).
Proof.
  intros H. assert (forall key (X : elems_of) k, put key X (adb a) !! k <> Some (Typed ∅)) as Hp by (intros; by apply no_empty_put).
  assert (forall dst (X : elems_of), no_empty (store dst X a)) as Hs.
  { intros dst X. unfold store. destruct (_ && _); [exact H | exact (Hp dst X)]. }
  destruct c; cbn [spec]; unfold unless_wrong; repeat case_match; try exact H; try apply Hs; intros k; cbn [adb send change];
    first [apply Hp | apply no_empty_put; intros k'; apply Hp].
Qed.

(** * Sets *)

Lemma card_nonneg (X : elems_of) : 0 <= card X.
Proof. unfold card. lia. Qed.

Lemma card_mono (X Y : elems_of) : X ⊆ Y -> card X <= card Y.
Proof. intros H%subseteq_size. unfold card. lia. Qed.

Lemma card_add (x : list Z) (X : elems_of) : card ({[x]} ∪ X) = card X + Z.b2z (bool_decide (x ∉ X)).
Proof.
  unfold card. destruct (bool_decide_reflect (x ∉ X)) as [Hn | Hin]; cbn [Z.b2z].
  - rewrite size_union by set_solver. rewrite size_singleton. lia.
  - replace ({[x]} ∪ X) with X by (apply dec_stable in Hin; set_solver). lia.
Qed.

Lemma card_remove (x : list Z) (X : elems_of) : card (X ∖ {[x]}) = card X - in_set x X.
Proof.
  unfold card, in_set. destruct (bool_decide_reflect (x ∈ X)) as [Hin | Hn]; cbn [Z.b2z].
  - rewrite size_difference, size_singleton by set_solver.
    assert (size ({[x]} : elems_of) <= size X)%nat as Hs by (apply subseteq_size; set_solver). rewrite size_singleton in Hs. lia.
  - replace (X ∖ {[x]}) with X by set_solver. lia.
Qed.

Lemma card_empty (X : elems_of) : card X = 0 <-> X = ∅.
Proof. unfold card. rewrite <- (leibniz_equiv_iff X). rewrite <- (size_empty_iff X). lia. Qed.

Lemma card_total (ad : akeys) (keys : list (list Z)) : (forall key, key ∈ keys -> card (set_at ad key) <= total ad keys) /\ 0 <= total ad keys.
Proof.
  induction keys as [| k keys [IH Hn]]; [split; [intros key H%elem_of_nil; done | done] |].
  change (total ad (k :: keys)) with (card (set_at ad k) + total ad keys). pose proof (card_nonneg (set_at ad k)). split; [| lia]. intros key [-> | H']%elem_of_cons; [lia |]. specialize (IH key H'). lia.
Qed.

Lemma put_nonempty key x (X : elems_of) (ad : akeys) : x ∈ X -> put key X ad = <[key := Typed X]> ad.
Proof. intros Hx. unfold put. rewrite bool_decide_eq_false_2; [done |]. intros ->. by apply elem_of_empty in Hx. Qed.

(** * The commands on one set *)

Section commands.
Context `{Host} (dictSdsHash : list Z -> Z) (resize : dictResizeEnable) (addr : bool -> Z) (junk : nat -> Z) (llbuf : list Z).
Context (set_max_intset_entries set_max_listpack_entries set_max_listpack_value : Z).
Context (hash_range : forall k, 0 <= dictSdsHash k < 2 ^ 64).
Context (hash_compare : forall k1 k2, dictSdsKeyCompare k1 k2 = true -> dictSdsHash k1 = dictSdsHash k2).
Context (Hll : zlen llbuf = LONG_STR_SIZE) (Hmax : 0 <= set_max_intset_entries < INTSET_BOUND).
Notation set_rep := (set_rep dictSdsHash set_max_intset_entries).
Notation db_rep := (db_rep (SetTypeThms.set_rep dictSdsHash set_max_intset_entries)).
Notation state_rep := (state_rep (SetTypeThms.set_rep dictSdsHash set_max_intset_entries)).

Lemma size_same s ad key (X : elems_of) : db_rep (db s) ad -> ad !! key = Some (Typed X) ->
  exists d, on_key key setTypeSize s = Some (with_db d s, card X) /\ db_rep d ad /\ forall k, k <> key -> d !! k = db s !! k.
Proof. intros Hd E. apply (on_key_same set_rep key setTypeSize s ad X); [exact Hd | exact E |]. intros set HX. by eapply setTypeSize_ok. Qed.

Lemma member_same s ad key (X : elems_of) e : db_rep (db s) ad -> ad !! key = Some (Typed X) -> card X < 2 ^ 57 -> elem_in e ->
  exists d, on_key key (fun set => setTypeIsMemberAux dictSdsHash resize llbuf set e) s = Some (with_db d s, bool_decide (etext e ∈ X)) /\
    db_rep d ad /\ forall k, k <> key -> d !! k = db s !! k.
Proof.
  intros Hd E Hs He. eapply (on_key_same set_rep key _ s ad X); [exact Hd | exact E |]. intros set HX.
  eapply setTypeIsMemberAux_ok; [eassumption.. | unfold card in Hs; lia | exact He].
Qed.

Lemma add_at s ad key (X : elems_of) x : db_rep (db s) ad -> ad !! key = Some (Typed X) -> card X < 2 ^ 57 -> member x ->
  exists d, on_key key (fun set => setTypeAdd dictSdsHash resize addr junk llbuf set_max_intset_entries set_max_listpack_entries set_max_listpack_value set x) s =
    Some (with_db d s, bool_decide (x ∉ X)) /\ db_rep d (<[key := Typed ({[x]} ∪ X)]> ad).
Proof.
  intros Hd E Hs Hx. edestruct (on_key_ok (B := bool) set_rep key) as (set' & E' & HX'); [exact Hd | exact E | |].
  - intros set HX. exact (setTypeAddAux_ok dictSdsHash resize addr junk llbuf set_max_intset_entries set_max_listpack_entries set_max_listpack_value
      hash_range hash_compare Hll Hmax set X (ElStr x) HX Hs Hx).
  - eexists. split; [exact E' |]. by apply db_insert.
Qed.

Lemma remove_at s ad key (X : elems_of) x : db_rep (db s) ad -> ad !! key = Some (Typed X) -> card X < 2 ^ 57 -> member x ->
  exists d, on_key key (fun set => setTypeRemove dictSdsHash resize junk llbuf set x) s =
    Some (with_db d s, bool_decide (x ∈ X)) /\ db_rep d (<[key := Typed (X ∖ {[x]})]> ad).
Proof.
  intros Hd E Hs Hx. edestruct (on_key_ok (B := bool) set_rep key) as (set' & E' & HX'); [exact Hd | exact E | |].
  - intros set HX. eapply (setTypeRemoveAux_ok dictSdsHash resize) with (e := ElStr x); [eassumption.. | unfold card in Hs; lia | exact Hx].
  - eexists. split; [exact E' |]. by apply db_insert.
Qed.

Lemma scard_ok c s a key : state_rep s a ->
  exists s', scardCommand [c; key] s = Some s' /\ state_rep s' (spec (Scard key) a).
Proof.
  intros HR. pose proof HR as (Hd & _). cbn [spec]. rewrite unless_wrong_1. unfold scardCommand, wrong, set_at. cbn [lookup list_lookup mbind option_bind].
  destruct (db_at _ _ _ key Hd) as [E1 E2 | set X E1 E2 HX | E1 E2]; cbn [checkTyped].
  - eexists. split; [reflexivity | by apply state_int].
  - destruct (size_same s (adb a) key X Hd E2) as (d & -> & Hd' & _). cbn [mbind option_bind]. eexists. split; [reflexivity |].
    by apply state_int, state_db.
  - eexists. split; [reflexivity | by apply state_err].
Qed.

Lemma sismember_ok c s a key ele : state_rep s a -> member ele -> card (set_at (adb a) key) < 2 ^ 57 ->
  exists s', sismemberCommand dictSdsHash resize llbuf [c; key; ele] s = Some s' /\ state_rep s' (spec (Sismember key ele) a).
Proof.
  intros HR He Hs. pose proof HR as (Hd & _). cbn [spec]. rewrite unless_wrong_1. unfold sismemberCommand, wrong, set_at in *.
  cbn [lookup list_lookup mbind option_bind].
  destruct (db_at _ _ _ key Hd) as [E1 E2 | set X E1 E2 HX | E1 E2]; cbn [checkTyped].
  - eexists. split; [reflexivity | by apply state_int].
  - destruct (member_same s (adb a) key X (ElStr ele) Hd E2 Hs He) as (d & E & Hd' & _). unfold setTypeIsMember. rewrite E. cbn [mbind option_bind].
    eexists. split; [reflexivity |]. by apply state_int, state_db.
  - eexists. split; [reflexivity | by apply state_err].
Qed.

Lemma smismember_loop_ok key args : forall s ad, db_rep (db s) ad -> wrong ad key = false -> Forall member args -> card (set_at ad key) < 2 ^ 57 ->
  exists d, smismember_loop dictSdsHash resize llbuf key (bool_decide (is_Some (ad !! key))) args s =
    Some (Srv d (dirty s) (modified s) (replies s ++ map RInt (map (fun ele => in_set ele (set_at ad key)) args))) /\ db_rep d ad.
Proof.
  induction args as [| x args IH]; intros s ad Hd Hw Hm Hs; cbn [smismember_loop map].
  - rewrite app_nil_r. exists (db s). by destruct s.
  - apply Forall_cons in Hm as [Hx Hm].
    assert (exists d, (if bool_decide (is_Some (ad !! key)) then on_key key (fun set => setTypeIsMember dictSdsHash resize llbuf set x) s else Some (s, false)) =
      Some (with_db d s, bool_decide (x ∈ set_at ad key)) /\ db_rep d ad) as (d & -> & Hd').
    { destruct (not_wrong ad key Hw) as [E | E].
      - rewrite E, (value_at_None _ _ E). exists (db s). rewrite with_db_id. by split.
      - destruct (member_same s ad key _ (ElStr x) Hd E Hs Hx) as (d & E' & Hd' & _). rewrite E. exists d. by split. }
    cbn [mbind option_bind]. destruct (IH (addReplyLongLong (Z.b2z (bool_decide (x ∈ set_at ad key))) (with_db d s)) ad Hd' Hw Hm Hs) as (d2 & -> & Hd2).
    exists d2. split; [| exact Hd2]. cbn. by rewrite <- app_assoc.
Qed.

Lemma smismember_ok c s a key args : state_rep s a -> Forall member args -> card (set_at (adb a) key) < 2 ^ 57 ->
  exists s', smismemberCommand dictSdsHash resize llbuf (c :: key :: args) s = Some s' /\ state_rep s' (spec (Smismember key args) a).
Proof.
  intros HR Hm Hs. pose proof HR as (Hd & Hn & Hmo & Hr). cbn [spec]. rewrite unless_wrong_1. unfold smismemberCommand.
  cbn [lookup list_lookup mbind option_bind]. rewrite (checkType_ok _ _ _ _ s Hd). destruct (wrong (adb a) key) eqn:Hw.
  - eexists. split; [reflexivity | by apply state_err].
  - rewrite !zlen_cons. replace (1 + (1 + zlen args) - 2) with (zlen args) by lia.
    replace (bool_decide (is_Some (db s !! key))) with (bool_decide (is_Some (adb a !! key)))
      by (apply bool_decide_ext; rewrite <- !not_eq_None_Some; by rewrite (db_none _ _ _ key Hd)).
    destruct (smismember_loop_ok key args (addReply (RArrayLen (zlen args)) s) (adb a) Hd Hw Hm Hs) as (d & E & Hd').
    cbn [drop]. rewrite drop_0, E. eexists. split; [reflexivity |]. split; [exact Hd' |]. split; [exact Hn |]. split; [exact Hmo |].
    cbn. rewrite <- app_assoc. constructor; [exact Hr |]. replace (zlen args) with (zlen (map (fun ele => in_set ele (set_at (adb a) key)) args)) by (unfold zlen; by rewrite length_map).
    constructor.
Qed.

(** SADD *)

Lemma sadd_loop_ok key args : forall s ad (X : elems_of) added, db_rep (db s) ad -> ad !! key = Some (Typed X) -> card X + zlen args < 2 ^ 57 ->
  Forall member args ->
  exists d, sadd_loop dictSdsHash resize addr junk llbuf set_max_intset_entries set_max_listpack_entries set_max_listpack_value key args added s =
    Some (with_db d s, added + (card (list_to_set args ∪ X) - card X)) /\ db_rep d (<[key := Typed (list_to_set args ∪ X)]> ad).
Proof.
  induction args as [| x args IH]; intros s ad X added Hd E Hs Hm; cbn [sadd_loop list_to_set].
  - exists (db s). rewrite with_db_id. change (list_to_set [] ∪ X) with (∅ ∪ X). rewrite union_empty_l_L, insert_id by done. split; [do 2 f_equal; lia | done].
  - apply Forall_cons in Hm as [Hx Hm]. rewrite zlen_cons in Hs. pose proof (zlen_nonneg args). pose proof (card_nonneg X).
    destruct (add_at s ad key X x Hd E ltac:(lia) Hx) as (d & -> & Hd'). cbn [mbind option_bind].
    pose proof (card_add x X) as Hc.
    destruct (IH (with_db d s) (<[key := Typed ({[x]} ∪ X)]> ad) ({[x]} ∪ X) (if bool_decide (x ∉ X) then added + 1 else added) Hd') as (d2 & -> & Hd2);
      [by rewrite lookup_insert_eq | destruct (bool_decide (x ∉ X)); cbn in Hc; lia | done |].
    exists d2. change (list_to_set (x :: args) ∪ X) with (({[x]} ∪ list_to_set args) ∪ X).
    replace (({[x]} ∪ list_to_set args) ∪ X) with (list_to_set args ∪ ({[x]} ∪ X)) by set_solver.
    rewrite insert_insert_eq in Hd2. split; [| exact Hd2].
    rewrite Hc. destruct (bool_decide (x ∉ X)); cbn [Z.b2z]; f_equal; f_equal; lia.
Qed.

Lemma sadd_ok c s a key args : state_rep s a -> args <> [] -> Forall member args -> zlen args < 2147483646 -> card (set_at (adb a) key) + zlen args < 2 ^ 57 ->
  exists s', saddCommand dictSdsHash resize addr junk llbuf set_max_intset_entries set_max_listpack_entries set_max_listpack_value (c :: key :: args) s = Some s' /\
    state_rep s' (spec (Sadd key args) a).
Proof.
  intros HR Ha Hm Hl Hs. pose proof HR as (Hd & Hn & Hmo & Hr). cbn [spec]. rewrite unless_wrong_1. unfold saddCommand.
  cbn [lookup list_lookup mbind option_bind]. rewrite (checkType_ok _ _ _ _ s Hd). destruct (wrong (adb a) key) eqn:Hw.
  { eexists. split; [reflexivity | by apply state_err]. }
  rewrite !zlen_cons. replace (1 + (1 + zlen args) - 2) with (zlen args) by lia. pose proof (zlen_nonneg args). pose proof (card_nonneg (set_at (adb a) key)).
  match goal with |- context [mbind _ ?m] => assert (exists d, m = Some (with_db d s) /\ db_rep d (<[key := Typed (set_at (adb a) key)]> (adb a))) as (d & -> & Hd') end.
  { destruct (not_wrong _ _ Hw) as [E | E].
    - pose proof E as E1. rewrite <- (db_none _ _ _ key Hd) in E1. rewrite E1, (value_at_None _ _ E).
      destruct args as [| v args]; [done |]. cbn [lookup list_lookup mbind option_bind].
      destruct (setTypeCreate_ok dictSdsHash junk set_max_intset_entries set_max_listpack_entries Hmax v (zlen (v :: args)) ltac:(lia)) as (set & -> & HX).
      cbn [mbind option_bind]. unfold dbAdd. rewrite E1, bool_decide_eq_true_2 by done. cbn [assert_ mbind option_bind]. eexists. split; [reflexivity |].
      by apply db_insert.
    - rewrite insert_id by done. destruct (db_get _ _ _ _ _ Hd E) as (set & Es & HX). rewrite Es.
      match goal with |- context [on_key key ?f s] =>
        destruct (on_key_same set_rep key f s (adb a) _ tt Hd E) as (d & Ed & Hd' & _) end.
      { intros set0 HX0. destruct (setTypeMaybeConvert_ok dictSdsHash resize addr junk llbuf set_max_intset_entries set_max_listpack_entries
          hash_range hash_compare Hll set0 _ (zlen args) HX0 ltac:(unfold card in Hs; lia) ltac:(lia)) as (set' & E' & H').
        exists set'. rewrite E'. cbn [mbind option_bind]. by split. }
      rewrite Ed. cbn [mbind option_bind fst]. by exists d. }
  cbn [mbind option_bind]. destruct (sadd_loop_ok key args (with_db d s) _ (set_at (adb a) key) 0 Hd') as (d2 & E & Hd2);
    [by rewrite lookup_insert_eq | done | done |].
  cbn [drop]. rewrite drop_0, E. cbn [mbind option_bind]. eexists. split; [reflexivity |].
  rewrite insert_insert_eq in Hd2. rewrite Z.add_0_l. set (n := card _ - card _). apply state_int.
  destruct args as [| x args]; [done |]. rewrite (put_nonempty _ x) by set_solver.
  pose proof (state_change _ s a d2 _ n (if n =? 0 then [] else [key]) HR Hd2) as Hst. destruct (n =? 0); [| exact Hst].
  cbn in *. by rewrite app_nil_r in Hst.
Qed.

(** SREM *)

Lemma srem_loop_ok key args : forall s ad (X : elems_of) deleted, db_rep (db s) ad -> ad !! key = Some (Typed X) -> card X < 2 ^ 57 -> Forall member args ->
  let X' := X ∖ list_to_set args in
  exists d, srem_loop dictSdsHash resize junk llbuf key args deleted s = Some (with_db d s, deleted + (card X - card X')) /\
    db_rep d (if card X' =? card X then ad else put key X' ad).
Proof.
  induction args as [| x args IH]; intros s ad X deleted Hd E Hs Hm; cbn [srem_loop]; cbv zeta.
  - exists (db s). rewrite with_db_id. change (list_to_set []) with (∅ : elems_of). rewrite difference_empty_L, Z.eqb_refl. split; [do 2 f_equal; lia | done].
  - apply Forall_cons in Hm as [Hx Hm]. pose proof (card_nonneg X).
    destruct (remove_at s ad key X x Hd E Hs Hx) as (d & -> & Hd'). cbn [mbind option_bind]. pose proof (card_remove x X) as Hc. unfold in_set in Hc.
    change (list_to_set (x :: args)) with ({[x]} ∪ list_to_set args : elems_of).
    replace (X ∖ ({[x]} ∪ list_to_set args)) with ((X ∖ {[x]}) ∖ list_to_set args) by set_solver.
    set (X1 := X ∖ {[x]}) in *. pose proof (card_mono (X1 ∖ list_to_set args) X1 ltac:(set_solver)) as Hle.
    pose proof (card_nonneg (X1 ∖ list_to_set args)).
    assert (<[key := Typed X1]> ad !! key = Some (Typed X1)) as E1 by by rewrite lookup_insert_eq.
    destruct (bool_decide_reflect (x ∈ X)) as [Hin | Hn]; cbn [Z.b2z] in Hc.
    + destruct (size_same (with_db d s) _ key X1 Hd' E1) as (d1 & -> & Hd1 & _). cbn [mbind option_bind].
      rewrite (proj2 (Z.eqb_neq _ (card X))) by lia.
      destruct (Z.eqb_spec (card X1) 0) as [E0 | E0].
      * replace (X1 ∖ list_to_set args) with (∅ : elems_of) by (apply card_empty in E0; set_solver).
        exists (delete key d1). change (card ∅) with 0. split; [unfold with_db, dbDelete; cbn [db dirty modified replies]; do 2 f_equal; lia |].
        unfold put. rewrite bool_decide_eq_true_2 by done. cbn. rewrite <- (delete_insert_eq ad key (Typed X1)). by apply db_delete.
      * destruct (IH (with_db d1 (with_db d s)) _ X1 (deleted + 1) Hd1 E1 ltac:(lia) Hm) as (d2 & -> & Hd2). exists d2.
        split; [do 2 f_equal; lia |]. destruct (Z.eqb_spec (card (X1 ∖ list_to_set args)) (card X1)) as [Es | Es]; [| by rewrite put_insert in Hd2].
        assert (X1 ∖ list_to_set args = X1) as -> by (apply set_subseteq_size_eq; [set_solver | unfold card in Es; lia]).
        unfold put. rewrite bool_decide_eq_false_2; [exact Hd2 |]. by rewrite <- card_empty.
    + assert (X1 = X) as EX by set_solver. rewrite EX, insert_id in Hd' by done. rewrite EX in *. by apply (IH (with_db d s)).
Qed.

Lemma srem_ok c s a key args : state_rep s a -> Forall member args -> card (set_at (adb a) key) < 2 ^ 57 ->
  exists s', sremCommand dictSdsHash resize junk llbuf (c :: key :: args) s = Some s' /\ state_rep s' (spec (Srem key args) a).
Proof.
  intros HR Hm Hs. pose proof HR as (Hd & _). cbn [spec]. rewrite unless_wrong_1. unfold sremCommand.
  cbn [lookup list_lookup mbind option_bind drop]. rewrite drop_0. unfold wrong, set_at in *.
  destruct (db_at _ _ _ key Hd) as [E1 E2 | set X E1 E2 HX | E1 E2]; cbn [checkTyped].
  - eexists. split; [reflexivity |]. replace (∅ ∖ list_to_set args) with (∅ : elems_of) by set_solver.
    rewrite Z.sub_diag, Z.eqb_refl. by apply state_int.
  - destruct (srem_loop_ok key args s (adb a) X 0 Hd E2 Hs Hm) as (d & -> & Hd'). cbn [mbind option_bind]. eexists. split; [reflexivity |].
    rewrite Z.add_0_l. apply state_int. set (X' := X ∖ list_to_set args) in *.
    destruct (Z.eqb_spec (card X - card X') 0) as [E | E].
    + rewrite (proj2 (Z.eqb_eq _ _)) in Hd' by lia. by apply state_db.
    + rewrite (proj2 (Z.eqb_neq _ _)) in Hd' by lia. exact (state_change _ s a d _ _ [key] HR Hd').
  - eexists. split; [reflexivity | by apply state_err].
Qed.

(** SMOVE *)

Lemma smove_ok c s a key1 key2 ele : state_rep s a -> member ele -> card (set_at (adb a) key1) < 2 ^ 57 -> card (set_at (adb a) key2) < 2 ^ 57 ->
  exists s', smoveCommand dictSdsHash resize addr junk llbuf set_max_intset_entries set_max_listpack_entries set_max_listpack_value [c; key1; key2; ele] s = Some s' /\
    state_rep s' (spec (Smove key1 key2 ele) a).
Proof.
  intros HR He Hs1 Hs2. pose proof HR as (Hd & _). cbn [spec]. unfold unless_wrong. cbn [existsb]. rewrite orb_false_r.
  unfold smoveCommand. cbn [lookup list_lookup mbind option_bind].
  rewrite (bool_decide_ext _ _ (db_none _ _ _ key1 Hd)). destruct (bool_decide_reflect (adb a !! key1 = None)) as [E1 | E1].
  { eexists. split; [reflexivity | by apply state_int]. }
  rewrite (checkType_ok _ _ _ key1 s Hd). destruct (wrong (adb a) key1) eqn:Hw1; cbn [orb].
  { eexists. split; [reflexivity | by apply state_err]. }
  rewrite (checkType_ok _ _ _ key2 s Hd). destruct (wrong (adb a) key2) eqn:Hw2.
  { eexists. split; [reflexivity | by apply state_err]. }
  destruct (not_wrong _ _ Hw1) as [? | E]; [done |]. set (X1 := set_at (adb a) key1) in *. set (X2 := set_at (adb a) key2) in *.
  destruct (bool_decide_reflect (key1 = key2)) as [<- | Hne]; cbn [orb].
  { destruct (member_same s (adb a) key1 X1 (ElStr ele) Hd E Hs1 He) as (d & E' & Hd' & _). unfold setTypeIsMember. rewrite E'. cbn [mbind option_bind].
    eexists. split; [reflexivity |]. by apply state_int, state_db. }
  destruct (remove_at s (adb a) key1 X1 ele Hd E Hs1 He) as (d & -> & Hd1). cbn [mbind option_bind]. unfold in_set.
  destruct (bool_decide_reflect (ele ∈ X1)) as [Hin | Hn]; cbn [negb orb Z.b2z]; cycle 1.
  { replace (X1 ∖ {[ele]}) with X1 in Hd1 by set_solver. rewrite insert_id in Hd1 by done. eexists. split; [reflexivity |]. by apply state_int, state_db. }
  destruct (size_same (with_db d s) _ key1 (X1 ∖ {[ele]}) Hd1 ltac:(by rewrite lookup_insert_eq)) as (d2 & -> & Hd2 & _). cbn [mbind option_bind].
  set (n := card (X1 ∖ {[ele]})).
  assert (exists d3, (if n =? 0 then dbDelete key1 (with_db d2 (with_db d s)) else with_db d2 (with_db d s)) = with_db d3 s /\
    db_rep d3 (put key1 (X1 ∖ {[ele]}) (adb a))) as (d3 & -> & Hd3).
  { unfold put. destruct (Z.eqb_spec n 0) as [En | En]; unfold n in En; rewrite card_empty in En.
    - exists (delete key1 d2). split; [reflexivity |]. rewrite bool_decide_eq_true_2 by done. rewrite <- (delete_insert_eq (adb a) key1 (Typed (X1 ∖ {[ele]}))).
      by apply db_delete.
    - exists d2. rewrite bool_decide_eq_false_2 by done. by split. }
  assert (put key1 (X1 ∖ {[ele]}) (adb a) !! key2 = adb a !! key2) as E2.
  { unfold put. case_bool_decide; [by rewrite lookup_delete_ne | by rewrite lookup_insert_ne]. }
  set (ad1 := put key1 (X1 ∖ {[ele]}) (adb a)) in *.
  match goal with |- context [mbind _ ?m] => assert (exists d4, m = Some (with_db d4 s) /\ db_rep d4 (<[key2 := Typed X2]> ad1)) as (d4 & -> & Hd4) end.
  { destruct (not_wrong _ _ Hw2) as [E3 | E3].
    - rewrite (proj2 (db_none _ _ _ key2 Hd) E3).
      destruct (setTypeCreate_ok dictSdsHash junk set_max_intset_entries set_max_listpack_entries Hmax ele 1 ltac:(lia)) as (set & -> & HX).
      cbn [mbind option_bind]. unfold dbAdd. rewrite E3 in E2. rewrite bool_decide_eq_true_2 by (by apply (db_none _ d3 ad1 key2 Hd3)).
      cbn [assert_ mbind option_bind]. eexists. split; [reflexivity |]. unfold X2. rewrite (value_at_None _ _ E3). by apply db_insert.
    - destruct (db_get _ _ _ _ _ Hd E3) as (set & -> & _). exists d3. split; [done |]. rewrite insert_id by (by rewrite E2). done. }
  cbn [mbind option_bind].
  destruct (add_at (add_dirty 1 (signalModifiedKey key1 (with_db d4 s))) _ key2 X2 ele Hd4 ltac:(by rewrite lookup_insert_eq) Hs2 He) as (d5 & -> & Hd5).
  cbn [mbind option_bind]. eexists. split; [reflexivity |]. apply state_int. rewrite insert_insert_eq in Hd5.
  rewrite (put_nonempty _ ele) by set_solver. clear n.
  destruct (bool_decide (ele ∉ X2)); cbn [Z.b2z].
  - pose proof (state_change _ s a d5 _ 2 [key1; key2] HR Hd5) as Hst. unfold with_db, signalModifiedKey, add_dirty in *. cbn in *.
    replace (dirty s + 1 + 1) with (dirty s + 2) by lia. by rewrite <- app_assoc.
  - exact (state_change _ s a d5 _ 1 [key1] HR Hd5).
Qed.
End commands.
