(* ===== verification/SetInterThms.v ===== *)
(** SINTER, SINTERCARD and SINTERSTORE against the intersection of sets. *)
From stdpp Require Import strings gmap.
From S2P Require Import Prelude Endian Strnum Listpack ListpackCodec ListpackSpec ListpackOps ListpackThms Dict Server Element Keyspace SetType SetTypeThms SetCmds SetCmdThms.

Lemma elem_of_inter_all (ad : akeys) (keys : list (list Z)) x : keys <> [] -> x ∈ inter_all ad keys <-> forall k, k ∈ keys -> x ∈ set_at ad k.
Proof.
  intros Hn. destruct keys as [| k0 keys]; [done |]. clear Hn. cbn [inter_all].
  induction keys as [| k keys IH]; cbn [foldr].
  - split; [intros Hx k ->%list_elem_of_singleton; done | intros Hx; apply Hx; by left].
  - rewrite elem_of_intersection, IH. split.
    + intros [Hx Hxs] k' [-> | [-> | Hk]%elem_of_cons]%elem_of_cons; [apply Hxs; by left | done | apply Hxs; by right].
    + intros Hx. split; [apply Hx; by right; left |]. intros k' [-> | Hk]%elem_of_cons; [apply Hx; by left | apply Hx; by right; right].
Qed.

(** What a pointer of the code stands for. *)
Definition is_set (ad : akeys) (key : list Z) : Prop := ad !! key = Some (Typed (set_at ad key)).
Definition ptr (ad : akeys) (key : list Z) : option (list Z) := match ad !! key with None => None | Some _ => Some key end.
Definition valid (ad : akeys) (p : option (list Z)) : Prop := match p with None => True | Some key => is_set ad key end.

Lemma ptr_valid (ad : akeys) keys : existsb (wrong ad) keys = false -> Forall (valid ad) (map (ptr ad) keys).
Proof.
  induction keys as [| k keys IH]; cbn [existsb map]; [intros; apply Forall_nil_2 |]. intros [Hw Hws]%orb_false_iff.
  apply Forall_cons_2; [| by apply IH]. unfold ptr, valid, is_set. destruct (not_wrong _ _ Hw) as [E | E]; by rewrite E.
Qed.

Section shared.
Context `{Host} (dictSdsHash : list Z -> Z) (resize : dictResizeEnable) (addr : bool -> Z) (junk : nat -> Z) (llbuf buf64 : list Z).
Context (set_max_intset_entries set_max_listpack_entries set_max_listpack_value : Z).
Context (hash_range : forall k, 0 <= dictSdsHash k < 2 ^ 64).
Context (hash_compare : forall k1 k2, dictSdsKeyCompare k1 k2 = true -> dictSdsHash k1 = dictSdsHash k2).
Context (Hll : zlen llbuf = LONG_STR_SIZE) (H64 : zlen buf64 = 64) (Hmax : 0 <= set_max_intset_entries < INTSET_BOUND).
Context (qsort : (option (list Z) * Z -> option (list Z) * Z -> Z) -> list (option (list Z) * Z) -> list (option (list Z) * Z)).
Context (qsort_perm : forall compar l, qsort compar l ≡ₚ l).
Notation set_rep := (set_rep dictSdsHash set_max_intset_entries).
Notation db_rep := (db_rep (SetTypeThms.set_rep dictSdsHash set_max_intset_entries)).
Notation state_rep := (state_rep (SetTypeThms.set_rep dictSdsHash set_max_intset_entries)).

Lemma lookup_sets_ok keys : forall s ad, db_rep (db s) ad ->
  lookup_sets keys s = if existsb (wrong ad) keys then (addReplyError wrongtypeerr s, None) else (s, Some (map (ptr ad) keys)).
Proof.
  induction keys as [| k keys IH]; intros s ad Hd; cbn [lookup_sets existsb map]; [done |].
  pose proof (db_at _ _ _ k Hd) as Ha. unfold wrong at 1, ptr at 1.
  destruct Ha as [E1 E2 | set X E1 E2 HX | E1 E2]; cbn [checkTyped orb]; [| | done]; rewrite (IH s ad Hd); by destruct (existsb _ _).
Qed.

Lemma sizes_ok sets : forall s ad, db_rep (db s) ad -> Forall (valid ad) sets ->
  exists d l, sizes sets s = Some (with_db d s, l) /\ map fst l = sets /\ db_rep d ad.
Proof.
  induction sets as [| p sets IH]; intros s ad Hd Hv; cbn [sizes].
  - exists (db s), []. by rewrite with_db_id.
  - apply Forall_cons in Hv as [Hp Hv]. assert (exists d n, size_at p s = Some (with_db d s, n) /\ db_rep d ad) as (d & n & -> & Hd').
    { destruct p as [key |]; cbn [size_at]; [| exists (db s), 0; by rewrite with_db_id].
      destruct (size_same dictSdsHash set_max_intset_entries s ad key _ Hd Hp) as (d & E & Hd' & _). by eexists _, _. }
    cbn [mbind option_bind]. destruct (IH (with_db d s) ad Hd' Hv) as (d2 & l & -> & <- & Hd2). cbn [mbind option_bind].
    by exists d2, ((p, n) :: l).
Qed.

Lemma sort_sets_ok compar sets s ad : db_rep (db s) ad -> Forall (valid ad) sets ->
  exists d sets', sort_sets qsort compar sets s = Some (with_db d s, sets') /\ sets' ≡ₚ sets /\ db_rep d ad.
Proof.
  intros Hd Hv. unfold sort_sets.
  destruct sets as [| p [| p' sets]]; [exists (db s); eexists; rewrite with_db_id; by repeat split.. |].
  destruct (sizes_ok (p :: p' :: sets) s ad Hd Hv) as (d & l & -> & El & Hd'). cbn [mbind option_bind].
  exists d, (map fst (qsort compar l)). split; [done |]. split; [| exact Hd']. rewrite <- El. by rewrite qsort_perm.
Qed.

(** * Storing *)

Lemma store_set_ok s a dstkey dst (X : elems_of) : state_rep s a -> set_rep dst X -> X <> ∅ ->
  exists s', store_set dstkey dst s = Some s' /\ state_rep s' (store dstkey X a).
Proof.
  intros HR HX Hne. pose proof HR as (Hd & _). unfold store_set.
  pose proof (db_insert _ _ _ dstkey _ _ Hd HX) as Hd1.
  destruct (size_same dictSdsHash set_max_intset_entries (setKey dstkey (Typed dst) s) _ dstkey X Hd1 ltac:(by rewrite lookup_insert_eq)) as (d & -> & Hd' & _).
  cbn [mbind option_bind]. eexists. split; [reflexivity |]. unfold store. rewrite (bool_decide_eq_false_2 _ Hne). cbn [andb].
  replace (put dstkey X (adb a)) with (<[dstkey := Typed X]> (adb a)) by (unfold put; by rewrite bool_decide_eq_false_2).
  exact (state_int _ _ _ (card X) (state_change _ s a d _ 1 [dstkey] HR Hd')).
Qed.

Lemma delete_dst_ok s a dstkey : state_rep s a -> state_rep (addReplyLongLong 0 (delete_dst dstkey s)) (store dstkey ∅ a).
Proof.
  intros HR. pose proof HR as (Hd & _). unfold delete_dst, store. rewrite (bool_decide_eq_true_2 (∅ = ∅)) by done. cbn [andb].
  change (card ∅) with 0. apply state_int. destruct (bool_decide_reflect (adb a !! dstkey = None)) as [E | E].
  - rewrite bool_decide_eq_false_2; [done |]. rewrite <- not_eq_None_Some, (db_none _ _ _ dstkey Hd). naive_solver.
  - rewrite bool_decide_eq_true_2 by (by rewrite <- not_eq_None_Some, (db_none _ _ _ dstkey Hd)).
    replace (put dstkey ∅ (adb a)) with (delete dstkey (adb a)) by (unfold put; by rewrite bool_decide_eq_true_2).
    exact (state_change _ s a _ _ 1 [dstkey] HR (db_delete _ _ _ dstkey Hd)).
Qed.

Lemma delete_dst_reply s dstkey n : delete_dst dstkey (addReplyLongLong n s) = addReplyLongLong n (delete_dst dstkey s).
Proof. unfold delete_dst. cbn [db addReplyLongLong addReply]. by case_match. Qed.

Lemma shrink_set lp (X : elems_of) : set_rep (SListpack lp) X -> exists lp', lpShrinkToFit junk lp = Some lp' /\ set_rep (SListpack lp') X.
Proof.
  intros (l & Hl & Hw & Hx & _)%set_rep_elim. destruct Hl as ((es & [n R] & ->) & Hrest).
  destruct (shrink_rep junk lp n es R) as (lp' & E & R'). exists lp'. split; [exact E |].
  eapply set_rep_intro; [split; [| exact Hrest] | done | exact Hx]. exists es. split; [by exists n | done].
Qed.
End shared.

(** * The loop over the first set *)

Section loop.
Context `{Host} (dictSdsHash : list Z -> Z) (resize : dictResizeEnable) (addr : bool -> Z) (junk : nat -> Z) (llbuf buf64 : list Z).
Context (set_max_intset_entries set_max_listpack_entries set_max_listpack_value : Z).
Context (hash_range : forall k, 0 <= dictSdsHash k < 2 ^ 64).
Context (hash_compare : forall k1 k2, dictSdsKeyCompare k1 k2 = true -> dictSdsHash k1 = dictSdsHash k2).
Context (Hll : zlen llbuf = LONG_STR_SIZE) (H64 : zlen buf64 = 64) (Hmax : 0 <= set_max_intset_entries < INTSET_BOUND).
Notation set_rep := (set_rep dictSdsHash set_max_intset_entries).
Notation db_rep := (db_rep (SetTypeThms.set_rep dictSdsHash set_max_intset_entries)).

(** The sets that are intersected, the first of which stays as it is. *)
Context (ad : akeys) (keys : list (list Z)) (key0 : list Z) (sets : list (option (list Z))) (set0 : setobj) (l : list (list Z)).
Context (Hkeys : Some key0 :: sets ≡ₚ map Some keys) (Hsets : Forall (is_set ad) keys).
Context (Hsize : forall k, k ∈ keys -> card (set_at ad k) < 2 ^ 57).
Context (Hl : rep_list dictSdsHash set0 l) (Hlx : forall x, x ∈ l <-> x ∈ set_at ad key0).
Notation I := (inter_all ad keys).
Notation hits := (filter (fun x : list Z => x ∈ I)).

Definition alive (d : gmap (list Z) (typed setobj)) : Prop := db_rep d ad /\ d !! key0 = Some (Typed set0).

Lemma alive_get d s : alive d -> get_typed key0 (with_db d s) = Some set0.
Proof. intros [_ E]. unfold get_typed, with_db. cbn [db]. by rewrite E. Qed.

Lemma key0_in : key0 ∈ keys.
Proof. assert (Some key0 ∈ map Some keys) as Hk by (rewrite <- Hkeys; by left). apply list_elem_of_fmap in Hk as (k & [= <-] & Hk). done. Qed.

Lemma keys_nonempty : keys <> [].
Proof. intros E. pose proof key0_in as Hk. rewrite E in Hk. by apply elem_of_nil in Hk. Qed.

Lemma in_all_ok e : elem_in e -> forall ps s, (forall k, Some k ∈ ps -> k ∈ keys) -> None ∉ ps -> alive (db s) ->
  exists d, in_all dictSdsHash resize llbuf key0 ps e s =
    Some (with_db d s, forallb (fun p => match p with Some k => bool_decide (k = key0) || bool_decide (etext e ∈ set_at ad k) | None => true end) ps) /\ alive d.
Proof.
  intros He. induction ps as [| p ps IH]; intros s Hps Hn Ha; cbn [in_all forallb].
  - exists (db s). by rewrite with_db_id.
  - destruct p as [k |]; [| destruct Hn; by left]. cbn [mbind option_bind].
    assert (forall k', Some k' ∈ ps -> k' ∈ keys) as Hps' by (intros; apply Hps; by right). assert (None ∉ ps) as Hn' by (intros ?; apply Hn; by right).
    destruct (bool_decide_reflect (k = key0)) as [-> | Hne]; cbn [orb andb]; [by apply IH |].
    assert (k ∈ keys) as Hk by (apply Hps; by left). pose proof Hsets as Hks. rewrite Forall_forall in Hks.
    destruct (member_same dictSdsHash resize llbuf set_max_intset_entries hash_range hash_compare Hll s ad k _ e (proj1 Ha) (Hks k Hk) (Hsize k Hk) He)
      as (d & -> & Hd & Hoth). cbn [mbind option_bind]. assert (alive d) as Ha' by (split; [exact Hd | rewrite Hoth by done; apply Ha]).
    destruct (bool_decide (etext e ∈ set_at ad k)); cbn [andb]; [| by exists d].
    by apply (IH (with_db d s)).
Qed.

Lemma in_all_inter e s : elem_in e -> etext e ∈ l -> alive (db s) ->
  exists d, in_all dictSdsHash resize llbuf key0 sets e s = Some (with_db d s, bool_decide (etext e ∈ I)) /\ alive d.
Proof.
  intros He Hel Ha. destruct (in_all_ok e He sets s) as (d & -> & Hd); [| | exact Ha |].
  - intros k Hk. assert (Some k ∈ map Some keys) as Hk' by (rewrite <- Hkeys; by right). apply list_elem_of_fmap in Hk' as (k' & [= <-] & Hk'). done.
  - intros Hn. assert (None ∈ map Some keys) as Hn' by (rewrite <- Hkeys; by right). by apply list_elem_of_fmap in Hn' as (? & ? & _).
  - exists d. split; [| exact Hd]. do 2 f_equal. apply eq_bool_prop_intro. rewrite bool_decide_spec, (elem_of_inter_all _ _ _ keys_nonempty), forallb_True, Forall_forall.
    split.
    + intros Hall k Hk. assert (Some k ∈ Some key0 :: sets) as [E | Hk']%elem_of_cons by (rewrite Hkeys; by apply list_elem_of_fmap_2).
      * injection E as E. rewrite E. by apply Hlx.
      * specialize (Hall _ Hk'). cbn in Hall. destruct (bool_decide_reflect (k = key0)) as [Ek | _]; [rewrite Ek; by apply Hlx |]. by apply bool_decide_spec in Hall.
    + intros Hall [k |] Hk; [| done]. destruct (bool_decide_reflect (k = key0)); [done |]. cbn [orb]. apply bool_decide_spec, Hall.
      assert (Some k ∈ map Some keys) as Hk' by (rewrite <- Hkeys; by right). apply list_elem_of_fmap in Hk' as (k' & [= <-] & Hk'). done.
Qed.

(** The elements found. *)
Lemma hits_snoc done_ x : hits (done_ ++ [x]) = hits done_ ++ if bool_decide (x ∈ I) then [x] else [].
Proof.
  rewrite filter_app. f_equal. destruct (bool_decide_reflect (x ∈ I)); [by rewrite filter_cons_True | by rewrite filter_cons_False].
Qed.

Lemma hits_all : hits l ≡ₚ elements I.
Proof.
  apply NoDup_Permutation; [apply NoDup_filter, Hl | apply NoDup_elements |]. intros x. rewrite elem_of_elements, list_elem_of_filter, Hlx.
  split; [by intros [Hx _] |]. intros Hx. split; [exact Hx |].
  rewrite (elem_of_inter_all _ _ _ keys_nonempty) in Hx. apply Hx, key0_in.
Qed.

Lemma zlen_hits_all : zlen (hits l) = card I.
Proof. unfold zlen, card. by rewrite hits_all. Qed.

Lemma zlen_hits (done_ rest : list (list Z)) : l = done_ ++ rest -> zlen (hits done_) <= card I /\ zlen (hits done_) <= zlen done_ /\ zlen l < 2 ^ 57.
Proof.
  intros E. rewrite <- zlen_hits_all. unfold zlen. rewrite E at 1. rewrite filter_app, length_app. pose proof (length_filter (fun x => x ∈ I) done_).
  split; [lia |]. split; [lia |]. pose proof (Hsize key0 key0_in) as Hs. assert (set_at ad key0 = list_to_set l) as El by (apply set_eq; intros x; by rewrite elem_of_list_to_set).
  rewrite El in Hs. unfold card in Hs. rewrite size_list_to_set in Hs by apply Hl. exact Hs.
Qed.

(** What a turn does once the other sets have been looked up. *)
Notation body := (inter_body dictSdsHash resize addr junk llbuf buf64 set_max_intset_entries set_max_listpack_entries set_max_listpack_value key0 sets).
Notation loop := (set_iterate addr (fun st => get_typed key0 (in_srv st))).

Lemma turn s done_ e rest d : l = done_ ++ etext e :: rest -> elem_in e -> alive d ->
  exists d', in_all dictSdsHash resize llbuf key0 sets e (with_db d s) = Some (with_db d' s, bool_decide (etext e ∈ I)) /\ alive d' /\
    l = (done_ ++ [etext e]) ++ rest /\ 0 <= zlen (hits done_) < 2 ^ 57 /\
    hits (done_ ++ [etext e]) = hits done_ ++ if bool_decide (etext e ∈ I) then [etext e] else [].
Proof.
  intros El He Hd. assert (etext e ∈ l) as Hel by (rewrite El; apply elem_of_app; right; by left).
  destruct (in_all_inter e (with_db d s) He Hel Hd) as (d' & E & Hd'). exists d'. split; [exact E |]. split; [exact Hd' |].
  destruct (zlen_hits done_ _ El) as (_ & Hc & Hs). split; [rewrite El; by rewrite <- app_assoc |]. rewrite El, zlen_app in Hs.
  pose proof (zlen_nonneg (etext e :: rest)). pose proof (zlen_nonneg (hits done_)). split; [lia | apply hits_snoc].
Qed.

Lemma count_loop s enc dst limit : alive (db s) -> 0 <= limit ->
  exists d, loop (body enc false true limit) (InterState s dst 0 true) =
    Some (InterState (with_db d s) dst (if limit =? 0 then card I else Z.min limit (card I)) true) /\ db_rep d ad.
Proof.
  intros Ha Hlim.
  destruct (set_iterate_ok dictSdsHash addr llbuf
    (fun rest st => exists done_ d, l = done_ ++ rest /\ alive d /\ st = InterState (with_db d s) dst (zlen (hits done_)) true /\ (limit = 0 \/ zlen (hits done_) < limit))
    (fun st => exists d, alive d /\ st = InterState (with_db d s) dst limit true /\ 0 < limit <= card I)
    set0 l Hl (fun st => get_typed key0 (in_srv st)) (body enc false true limit)) with (s := InterState s dst 0 true) as (st & E & Hst).
  - intros rest st (done_ & d & _ & Hd & -> & _). by apply alive_get.
  - intros st (d & Hd & -> & _). by apply alive_get.
  - intros e rest st (done_ & d & El & Hd & -> & Hc) He _. destruct (turn s done_ e rest d El He Hd) as (d' & E & Hd' & El' & Hc1 & Hsn). clear El. rename El' into El.
    destruct (zlen_hits _ _ El) as (Hc2 & _). unfold inter_body. cbn [in_srv dstset cardinality only_integers]. rewrite E. cbn [mbind option_bind].
    destruct (bool_decide (etext e ∈ I)); cbn [negb]; rewrite Hsn, ?app_nil_r, ?zlen_app in *.
    + change (zlen [etext e]) with 1 in *. rewrite u64_id by (unfold is_u64; lia).
      destruct (Z.eqb_spec limit 0) as [-> | Hz]; cbn [negb andb].
      * eexists _, false. split; [reflexivity |]. exists (done_ ++ [etext e]), d'. rewrite Hsn, zlen_app. refine (conj El (conj Hd' (conj eq_refl _))). by left.
      * destruct (Z.leb_spec limit (zlen (hits done_) + 1)) as [Hle | Hgt].
        -- eexists _, true. split; [reflexivity |]. exists d'. split; [exact Hd' |]. replace (zlen (hits done_) + 1) with limit by lia. split; [done | lia].
        -- eexists _, false. split; [reflexivity |]. exists (done_ ++ [etext e]), d'. rewrite Hsn, zlen_app. refine (conj El (conj Hd' (conj eq_refl _))). change (zlen [etext e]) with 1. right. lia.
    + eexists _, false. split; [reflexivity |]. exists (done_ ++ [etext e]), d'. rewrite Hsn. exact (conj El (conj Hd' (conj eq_refl Hc))).
  - exists [], (db s). rewrite with_db_id. refine (conj eq_refl (conj Ha (conj eq_refl _))). change (zlen (hits [])) with 0. lia.
  - rewrite E. destruct Hst as [(done_ & d & El & Hd & -> & Hc) | (d & Hd & -> & Hc)]; exists d; (split; [| apply Hd]); do 2 f_equal.
    + rewrite app_nil_r in El. rewrite <- El, zlen_hits_all in *. destruct (Z.eqb_spec limit 0); lia.
    + rewrite (proj2 (Z.eqb_neq limit 0)) by lia. lia.
Qed.

Lemma reply_loop s enc dst : alive (db s) ->
  exists d, loop (body enc false false 0) (InterState s dst 0 true) =
    Some (InterState (Srv d (dirty s) (modified s) (replies s ++ map RBulk (hits l))) dst (card I) true) /\ db_rep d ad.
Proof.
  intros Ha. set (said done_ := Srv (db s) (dirty s) (modified s) (replies s ++ map RBulk (hits done_))).
  destruct (set_iterate_ok dictSdsHash addr llbuf
    (fun rest st => exists done_ d, l = done_ ++ rest /\ alive d /\ st = InterState (with_db d (said done_)) dst (zlen (hits done_)) true) (fun _ => False)
    set0 l Hl (fun st => get_typed key0 (in_srv st)) (body enc false false 0)) with (s := InterState s dst 0 true) as (st & E & [(done_ & d & El & Hd & ->) | []]).
  - intros rest st (done_ & d & _ & Hd & ->). by apply alive_get.
  - done.
  - intros e rest st (done_ & d & El & Hd & ->) He _.
    destruct (turn (said done_) done_ e rest d El He Hd) as (d' & E & Hd' & El' & Hc & Hsn).
    unfold inter_body. cbn [in_srv dstset cardinality only_integers]. rewrite E. cbn [mbind option_bind].
    destruct (bool_decide (etext e ∈ I)); cbn [negb]; eexists _, false.
    + rewrite reply_elem_ok, u64_id by (done || unfold is_u64; lia). cbn [mbind option_bind]. split; [reflexivity |].
      exists (done_ ++ [etext e]), d'. refine (conj El' (conj Hd' _)). unfold said. rewrite Hsn, map_app, zlen_app, app_assoc. done.
    + split; [reflexivity |]. exists (done_ ++ [etext e]), d'. refine (conj El' (conj Hd' _)). unfold said. by rewrite Hsn, app_nil_r.
  - exists [], (db s). refine (conj eq_refl (conj Ha _)). unfold said, with_db. change (hits []) with (@nil (list Z)). cbn. rewrite app_nil_r. by destruct s.
  - exists d. rewrite E. split; [| apply Hd]. rewrite app_nil_r in El. by rewrite <- El, zlen_hits_all.
Qed.

Lemma inter_elem_ok enc dstenc e ints : elem_in e ->
  let r := inter_elem enc dstenc e ints in elem_in r.1 /\ etext r.1 = etext e /\ (r.2 = true -> ints = true /\ is_Some (string2ll (etext e))).
Proof.
  intros He. destruct e as [str | v]; cbn [inter_elem]; cbv zeta.
  - destruct ints; [| done]. destruct (bool_decide (enc = OBJ_ENCODING_HT)); [| done].
    destruct (string2ll str) as [v |] eqn:Es; [| done]. destruct (string2ll_inv _ _ Es) as [Hv Ev]. cbn [fst snd etext].
    rewrite Es. destruct (_ || _); cbn [etext elem_in]; by rewrite <- ?Ev.
  - cbn [fst snd etext]. split; [done |]. split; [done |]. intros ->. split; [done |]. rewrite string2ll_sdec by done. by eexists.
Qed.

Lemma store_loop s enc dst : alive (db s) -> set_rep dst ∅ ->
  exists d dst' ints, loop (body enc true false 0) (InterState s dst 0 true) = Some (InterState (with_db d s) dst' 0 ints) /\ db_rep d ad /\
    set_rep dst' I /\ (ints = true -> forall x, x ∈ I -> is_Some (string2ll x)).
Proof.
  intros Ha Hdst.
  destruct (set_iterate_ok dictSdsHash addr llbuf
    (fun rest st => exists done_ d dst ints, l = done_ ++ rest /\ alive d /\ st = InterState (with_db d s) dst 0 ints /\ set_rep dst (list_to_set (hits done_)) /\
       (ints = true -> forall x, x ∈ hits done_ -> is_Some (string2ll x))) (fun _ => False)
    set0 l Hl (fun st => get_typed key0 (in_srv st)) (body enc true false 0)) with (s := InterState s dst 0 true)
    as (st & E & [(done_ & d & dst' & ints & El & Hd & -> & HX & Hi) | []]).
  - intros rest st (done_ & d & dst' & ints & _ & Hd & -> & _). by apply alive_get.
  - done.
  - intros e rest st (done_ & d & dst' & ints & El & Hd & -> & HX & Hi) He _.
    destruct (turn s done_ e rest d El He Hd) as (d' & E & Hd' & El' & Hc & Hsn).
    unfold inter_body. cbn [in_srv dstset cardinality only_integers]. rewrite E. cbn [mbind option_bind].
    destruct (bool_decide (etext e ∈ I)); cbn [negb].
    + destruct (inter_elem_ok enc (enc_of dst') e ints He) as (He' & Ee & Hi'). destruct (inter_elem enc (enc_of dst') e ints) as [e' ints']. cbn [fst snd] in *.
      destruct (setTypeAddAux_ok dictSdsHash resize addr junk llbuf set_max_intset_entries set_max_listpack_entries set_max_listpack_value
        hash_range hash_compare Hll Hmax dst' _ e' HX) as (dst2 & -> & HX2); [| exact He' |].
      { assert (NoDup (hits l)) as Hnd by apply NoDup_filter, Hl. rewrite El, filter_app in Hnd. apply NoDup_app in Hnd as (Hnd & _).
        rewrite size_list_to_set by done. unfold zlen in Hc. lia. }
      cbn [mbind option_bind fst]. eexists _, false. split; [reflexivity |]. exists (done_ ++ [etext e]), d', dst2, ints'. refine (conj El' (conj Hd' (conj eq_refl _))). rewrite Hsn. split.
      * rewrite list_to_set_app_L, Ee in *. replace (list_to_set [etext e]) with ({[etext e]} : elems_of) by set_solver.
        replace (list_to_set (hits done_) ∪ {[etext e]}) with ({[etext e]} ∪ list_to_set (hits done_) : elems_of) by set_solver. exact HX2.
      * intros [-> Hx]%Hi' x [Hin | ->%list_elem_of_singleton]%elem_of_app; [by apply Hi | exact Hx].
    + eexists _, false. split; [reflexivity |]. exists (done_ ++ [etext e]), d', dst', ints. refine (conj El' (conj Hd' (conj eq_refl _))). by rewrite Hsn, app_nil_r.
  - exists [], (db s), dst, true. rewrite with_db_id. refine (conj eq_refl (conj Ha (conj eq_refl (conj Hdst _)))). intros _ x Hx. by apply elem_of_nil in Hx.
  - exists d, dst', ints. rewrite E. split; [done |]. split; [apply Hd |]. rewrite app_nil_r in El. rewrite <- El in *.
    assert (list_to_set (hits l) = I) as EI by (apply set_eq; intros x; by rewrite elem_of_list_to_set, hits_all, elem_of_elements).
    rewrite EI in HX. split; [exact HX |]. intros Hints x Hx. apply (Hi Hints). by rewrite hits_all, elem_of_elements.
Qed.
End loop.

(** * The commands *)

Section commands.
Context `{Host} (dictSdsHash : list Z -> Z) (resize : dictResizeEnable) (addr : bool -> Z) (junk : nat -> Z) (llbuf buf64 : list Z).
Context (set_max_intset_entries set_max_listpack_entries set_max_listpack_value : Z).
Context (hash_range : forall k, 0 <= dictSdsHash k < 2 ^ 64).
Context (hash_compare : forall k1 k2, dictSdsKeyCompare k1 k2 = true -> dictSdsHash k1 = dictSdsHash k2).
Context (Hll : zlen llbuf = LONG_STR_SIZE) (H64 : zlen buf64 = 64) (Hmax : 0 <= set_max_intset_entries < INTSET_BOUND).
Context (qsort : (option (list Z) * Z -> option (list Z) * Z -> Z) -> list (option (list Z) * Z) -> list (option (list Z) * Z)).
Context (qsort_perm : forall compar l, qsort compar l ≡ₚ l).
Notation set_rep := (set_rep dictSdsHash set_max_intset_entries).
Notation db_rep := (db_rep (SetTypeThms.set_rep dictSdsHash set_max_intset_entries)).
Notation state_rep := (state_rep (SetTypeThms.set_rep dictSdsHash set_max_intset_entries)).
Notation generic := (sinterGenericCommand dictSdsHash resize addr junk llbuf buf64 set_max_intset_entries set_max_listpack_entries set_max_listpack_value qsort).

Lemma some_none (ad : akeys) keys : None ∈ map (ptr ad) keys -> inter_all ad keys = ∅.
Proof.
  intros (k & Hp & Hk)%list_elem_of_fmap. apply set_eq. intros x. split; [| intros Hx; by apply elem_of_empty in Hx].
  rewrite elem_of_inter_all by (intros ->; by apply elem_of_nil in Hk). intros Hx. specialize (Hx k Hk). unfold ptr in Hp.
  destruct (ad !! k) eqn:E; [done |]. by rewrite value_at_None in Hx.
Qed.

Lemma none_none (ad : akeys) keys : existsb (wrong ad) keys = false -> None ∉ map (ptr ad) keys ->
  map (ptr ad) keys = map Some keys /\ Forall (is_set ad) keys.
Proof.
  induction keys as [| k keys IH]; cbn [existsb map]; [split; [done | apply Forall_nil_2] |]. intros [Hw Hws]%orb_false_iff Hn.
  destruct (IH Hws) as [E Hs]; [intros ?; apply Hn; by right |]. destruct (not_wrong _ _ Hw) as [E1 | E1].
  - destruct Hn. unfold ptr. rewrite E1. by left.
  - unfold ptr at 1. rewrite E, E1. split; [done | by apply Forall_cons_2].
Qed.

(** The sets, the smallest first. *)
Lemma inter_start s ad keys : db_rep (db s) ad -> existsb (wrong ad) keys = false -> None ∉ map (ptr ad) keys -> keys <> [] ->
  exists d key0 sets set0 l, sort_sets qsort qsortCompareSetsByCardinality (map (ptr ad) keys) s = Some (with_db d s, Some key0 :: sets) /\
    Some key0 :: sets ≡ₚ map Some keys /\ Forall (is_set ad) keys /\ rep_list dictSdsHash set0 l /\ (forall x, x ∈ l <-> x ∈ set_at ad key0) /\
    alive dictSdsHash set_max_intset_entries ad key0 set0 d.
Proof.
  intros Hd Hw Hn Hne. destruct (none_none ad keys Hw Hn) as [E Hs].
  destruct (sort_sets_ok dictSdsHash set_max_intset_entries qsort qsort_perm qsortCompareSetsByCardinality _ s ad Hd (ptr_valid ad keys Hw)) as (d & sets & Es & P & Hd').
  rewrite E in P. destruct sets as [| [key0 |] sets].
  - apply Permutation_length in P. destruct keys; [done | discriminate].
  - assert (Some key0 ∈ map Some keys) as Hk by (rewrite <- P; by left). apply list_elem_of_fmap in Hk as (k & [= <-] & Hk).
    pose proof Hs as Hs'. rewrite Forall_forall in Hs'. destruct (db_get _ _ _ _ _ Hd' (Hs' key0 Hk)) as (set0 & Eg & HX).
    pose proof HX as (l & Hl & _ & Hx & _)%set_rep_elim. exists d, key0, sets, set0, l. exact (conj Es (conj P (conj Hs (conj Hl (conj Hx (conj Hd' Eg)))))).
  - assert (None ∈ map Some keys) as Hk by (rewrite <- P; by left). by apply list_elem_of_fmap in Hk as (? & ? & _).
Qed.

Lemma sinter_ok s a keys : state_rep s a -> keys <> [] -> (forall k, k ∈ keys -> card (set_at (adb a) k) < 2 ^ 57) ->
  exists s', generic keys None false 0 s = Some s' /\ state_rep s' (unless_wrong keys (send (AElems (inter_all (adb a) keys))) a).
Proof.
  intros HR Hne Hs. pose proof HR as (Hd & Hdi & Hm & Hr). unfold sinterGenericCommand, unless_wrong.
  rewrite (lookup_sets_ok dictSdsHash set_max_intset_entries keys s (adb a) Hd). destruct (existsb _ keys) eqn:Hw; [eexists; split; [reflexivity | by apply state_err] |].
  destruct (bool_decide_reflect (None ∈ map (ptr (adb a)) keys)) as [Hn | Hn].
  { eexists. split; [reflexivity |]. rewrite some_none by done. apply state_send; [exact HR |]. exact (shows_elems ∅ [] (Permutation_refl _)). }
  destruct (inter_start s (adb a) keys Hd Hw Hn Hne) as (d & key0 & sets & set0 & l & -> & HP & His & Hl & Hx & Ha).
  cbn [mbind option_bind lookup list_lookup]. rewrite (alive_get _ _ _ _ _ d s Ha). cbn [mbind option_bind drop].
  rewrite (bool_decide_eq_true_2 (@None (list Z) = None)) by done. cbn [andb negb].
  destruct (reply_loop dictSdsHash resize addr junk llbuf buf64 set_max_intset_entries set_max_listpack_entries set_max_listpack_value
    hash_range hash_compare Hll H64 (adb a) keys key0 sets set0 l HP His Hs Hl Hx (addReply (RSetLen 0) (with_db d s)) (enc_of set0) createIntsetObject Ha) as (d2 & E & Hd2).
  change (bool_decide (is_Some (@None (list Z)))) with false. rewrite drop_0, E. cbn [mbind option_bind]. eexists. split; [reflexivity |].
  split; [exact Hd2 |]. split; [exact Hdi |]. split; [exact Hm |]. unfold setDeferredSetLen. cbn [replies addReply with_db cardinality in_srv areplies send].
  rewrite <- app_assoc. cbn [app]. rewrite insert_app_r_alt by done. rewrite Nat.sub_diag. cbn [insert list_insert]. constructor; [exact Hr |]. constructor.
  by apply hits_all with (key0 := key0) (sets := sets) (set0 := set0) (dictSdsHash := dictSdsHash).
Qed.

(** SINTERCARD *)

Lemma range_ok o min msg s : getRangeLongFromObjectOrReply o min LLONG_MAX msg s =
  match string2ll o with Some n => if n <? min then (addReplyError msg s, None) else (s, Some n) | None => (addReplyError msg s, None) end.
Proof.
  unfold getRangeLongFromObjectOrReply, getLongFromObjectOrReply, getLongLongFromObjectOrReply. cbn [default].
  destruct (string2ll o) as [n |] eqn:E; [| done]. destruct (string2ll_inv _ _ E) as [Hn _]. unfold is_i64, LLONG_MIN, LLONG_MAX in *.
  rewrite (proj2 (Z.ltb_ge n _)), (proj2 (Z.ltb_ge _ n)) by lia. cbn [orb]. rewrite (proj2 (Z.ltb_ge _ n)) by lia. by rewrite orb_false_r.
Qed.

Lemma options_ok s : forall args limit, 0 <= limit ->
  match limit_of args limit with
  | inl msg => sintercard_options args limit s = (addReplyError msg s, None)
  | inr limit' => sintercard_options args limit s = (s, Some limit') /\ 0 <= limit'
  end.
Proof.
  fix IH 1. intros [| opt [| o args]] limit Hlim; cbn [limit_of sintercard_options]; [done | done |].
  destruct (strcasecmp_eq opt "LIMIT"); [| done]. unfold getPositiveLongFromObjectOrReply. cbn [default]. rewrite range_ok.
  destruct (string2ll o) as [n |]; [| done]. destruct (Z.ltb_spec n 0) as [Hn | Hn]; [done | by apply IH].
Qed.

Lemma intercard_ok s a keys limit : state_rep s a -> keys <> [] -> (forall k, k ∈ keys -> card (set_at (adb a) k) < 2 ^ 57) -> 0 <= limit ->
  exists s', generic keys None true limit s = Some s' /\
    state_rep s' (unless_wrong keys (send (AInt (let n := card (inter_all (adb a) keys) in if limit =? 0 then n else Z.min limit n))) a).
Proof.
  intros HR Hne Hs Hlim. pose proof HR as (Hd & _). unfold sinterGenericCommand, unless_wrong.
  rewrite (lookup_sets_ok dictSdsHash set_max_intset_entries keys s (adb a) Hd). destruct (existsb _ keys) eqn:Hw; [eexists; split; [reflexivity | by apply state_err] |].
  destruct (bool_decide_reflect (None ∈ map (ptr (adb a)) keys)) as [Hn | Hn].
  { eexists. split; [reflexivity |]. rewrite some_none by done. change (card ∅) with 0. replace (if limit =? 0 then 0 else _) with 0; [by apply state_int |].
    cbv zeta. destruct (Z.eqb_spec limit 0); lia. }
  destruct (inter_start s (adb a) keys Hd Hw Hn Hne) as (d & key0 & sets & set0 & l & -> & HP & His & Hl & Hx & Ha).
  cbn [mbind option_bind lookup list_lookup]. rewrite (alive_get _ _ _ _ _ d s Ha). cbn [mbind option_bind drop].
  rewrite (bool_decide_eq_true_2 (@None (list Z) = None)) by done. cbn [andb negb].
  destruct (count_loop dictSdsHash resize addr junk llbuf buf64 set_max_intset_entries set_max_listpack_entries set_max_listpack_value
    hash_range hash_compare Hll (adb a) keys key0 sets set0 l HP His Hs Hl Hx (with_db d s) (enc_of set0) createIntsetObject limit Ha Hlim) as (d2 & E & Hd2).
  change (bool_decide (is_Some (@None (list Z)))) with false. rewrite drop_0, E. cbn [mbind option_bind]. eexists. split; [reflexivity |].
  apply state_int. by apply (state_db _ s a d2).
Qed.

Lemma sintercard_ok c s a args : state_rep s a -> cmd_ok (Sintercard args) a ->
  exists s', sinterCardCommand dictSdsHash resize addr junk llbuf buf64 set_max_intset_entries set_max_listpack_entries set_max_listpack_value qsort (c :: args) s = Some s' /\
    state_rep s' (spec (Sintercard args) a).
Proof.
  intros HR Hok. unfold sinterCardCommand. cbn [spec cmd_ok] in *. destruct args as [| arg1 args]; [by destruct Hok |].
  cbn [lookup list_lookup mbind option_bind intercard_args] in *. rewrite range_ok. destruct (string2ll arg1) as [n |]; [| eexists; split; [reflexivity | by apply state_err]].
  destruct (Z.ltb_spec n 1) as [Hn | Hn]; [eexists; split; [reflexivity | by apply state_err] |].
  rewrite !zlen_cons. replace (1 + (1 + zlen args) - 2) with (zlen args) by lia.
  destruct (Z.ltb_spec (zlen args) n) as [Hgt | Hle]; [eexists; split; [reflexivity | by apply state_err] |].
  replace (Z.to_nat (2 + n)) with (S (S (Z.to_nat n))) by lia. cbn [drop]. rewrite drop_0.
  pose proof (options_ok s (drop (Z.to_nat n) args) 0 ltac:(lia)) as Ho. destruct (limit_of (drop (Z.to_nat n) args) 0) as [msg | limit].
  - rewrite Ho. eexists. split; [reflexivity | by apply state_err].
  - destruct Ho as [-> Hlim]. apply intercard_ok; [exact HR | | | exact Hlim].
    + intros E. apply (f_equal length) in E. rewrite length_take in E. cbn [length] in E. unfold zlen in Hle. lia.
    + intros k Hk. pose proof (proj1 (card_total (adb a) (take (Z.to_nat n) args)) k Hk). lia.
Qed.

(** SINTERSTORE *)

Lemma inter_dst_ok set l : rep_list dictSdsHash set l -> exists dst, inter_dst junk set = Some dst /\ set_rep dst ∅.
Proof.
  assert (forall dst, holds dictSdsHash dst [] -> set_rep dst ∅) as He.
  { intros dst Hh. exists []. split; [split; [exact Hh | split; [apply NoDup_nil_2 | apply Forall_nil_2]] |]. split; [| done].
    destruct dst; [| done..]. cbn. change (zlen (@nil (list Z))) with 0. lia. }
  assert (forall n, exists dst, (lp ← lpNew junk n; Some (SListpack lp)) = Some dst /\ set_rep dst ∅) as Hlp.
  { intros n. destruct (new_rep junk n) as (lp & -> & R). cbn [mbind option_bind]. eexists. split; [reflexivity |]. apply He. by exists []. }
  intros [Hh _]. destruct set as [iset | lp | d]; cbn [inter_dst].
  - eexists. split; [reflexivity |]. apply He. exists []. split; [apply Intset.intsetNew_rep | done].
  - destruct Hh as (es & [n R] & _). unfold lpBytes. rewrite (repn_total R). cbn [mbind option_bind]. apply Hlp.
  - apply Hlp.
Qed.

Lemma sinterstore_ok s a dstkey keys : state_rep s a -> keys <> [] -> (forall k, k ∈ keys -> card (set_at (adb a) k) < 2 ^ 57) ->
  exists s', generic keys (Some dstkey) false 0 s = Some s' /\ state_rep s' (unless_wrong keys (store dstkey (inter_all (adb a) keys)) a).
Proof.
  intros HR Hne Hs. pose proof HR as (Hd & _). unfold sinterGenericCommand, unless_wrong.
  rewrite (lookup_sets_ok dictSdsHash set_max_intset_entries keys s (adb a) Hd). destruct (existsb _ keys) eqn:Hw; [eexists; split; [reflexivity | by apply state_err] |].
  destruct (bool_decide_reflect (None ∈ map (ptr (adb a)) keys)) as [Hn | Hn].
  { eexists. split; [reflexivity |]. rewrite some_none by done. by apply delete_dst_ok. }
  destruct (inter_start s (adb a) keys Hd Hw Hn Hne) as (d & key0 & sets & set0 & l & -> & HP & His & Hl & Hx & Ha).
  cbn [mbind option_bind lookup list_lookup]. rewrite (alive_get _ _ _ _ _ d s Ha). cbn [mbind option_bind drop].
  destruct (inter_dst_ok set0 l Hl) as (dst & -> & Hdst). cbn [mbind option_bind].
  rewrite (bool_decide_eq_false_2 (Some dstkey = None)) by done. cbn [andb negb].
  destruct (store_loop dictSdsHash resize addr junk llbuf buf64 set_max_intset_entries set_max_listpack_entries set_max_listpack_value
    hash_range hash_compare Hll H64 Hmax (adb a) keys key0 sets set0 l HP His Hs Hl Hx (with_db d s) (enc_of set0) dst Ha Hdst) as (d2 & dst' & ints & E & Hd2 & HX & Hi).
  rewrite (bool_decide_eq_true_2 (is_Some (Some dstkey))) by by eexists. rewrite drop_0, E. cbn [mbind option_bind].
  unfold inter_store. cbn [dstset only_integers in_srv]. destruct (setTypeSize_ok dictSdsHash set_max_intset_entries dst' _ HX) as (dst2 & -> & HX2).
  cbn [mbind option_bind]. assert (state_rep (with_db d2 (with_db d s)) a) as HR2 by (by apply (state_db _ s a d2)).
  set (X := inter_all (adb a) keys) in *. change (Z.of_nat (size X)) with (card X). pose proof (card_nonneg X). destruct (Z.ltb_spec 0 (card X)) as [Hpos | Hz].
  - assert (X <> ∅) as HXne by (rewrite <- card_empty; lia).
    assert (exists dst3, (if ints then maybeConvertToIntset addr junk set_max_intset_entries dst2 else Some dst2) = Some dst3 /\ set_rep dst3 X) as (dst3 & -> & HX3).
    { destruct ints; [| by exists dst2]. edestruct (maybeConvertToIntset_ok dictSdsHash addr) as (dst3 & E3 & HX3); [eassumption.. | exact (Hi eq_refl) |]. by exists dst3. }
    cbn [mbind option_bind].
    assert (exists dst4, match dst3 with SListpack lp => lp ← lpShrinkToFit junk lp; Some (SListpack lp) | _ => Some dst3 end = Some dst4 /\ set_rep dst4 X) as (dst4 & -> & HX4).
    { destruct dst3 as [| lp |]; [by eexists | | by eexists]. destruct (shrink_set dictSdsHash junk set_max_intset_entries lp X HX3) as (lp' & -> & HX4).
      cbn [mbind option_bind]. by eexists. }
    cbn [mbind option_bind]. by eapply store_set_ok.
  - assert (X = ∅) as -> by (apply card_empty; lia). eexists. split; [reflexivity |]. rewrite delete_dst_reply. by apply delete_dst_ok.
Qed.
End commands.
