(* ===== verification/SetUnionThms.v ===== *)
(** SUNION, SDIFF and their STORE forms against unions and differences of sets:
    both algorithms for a difference give the same set. *)
From stdpp Require Import strings gmap.
From S2P Require Import Prelude Endian Strnum Intset Dict Server Element Keyspace SetType SetTypeThms SetCmds SetCmdThms SetInterThms.

Lemma elem_of_union_all (ad : akeys) (keys : list (list Z)) x : x ∈ union_all ad keys <-> exists k, k ∈ keys /\ x ∈ set_at ad k.
Proof.
  unfold union_all. rewrite elem_of_union_list. split.
  - intros (X & (k & -> & Hk)%list_elem_of_fmap & Hx). by exists k.
  - intros (k & Hk & Hx). exists (set_at ad k). split; [by apply list_elem_of_fmap_2 | done].
Qed.

Lemma card_union (X Y : elems_of) : card (X ∪ Y) <= card X + card Y.
Proof. unfold card. rewrite size_union_alt. pose proof (subseteq_size (Y ∖ X) Y ltac:(set_solver)). lia. Qed.

(** The union of the sets that pointers lead to. *)
Definition at_ptr (ad : akeys) (p : option (list Z)) : elems_of := from_option (set_at ad) ∅ p.
Definition union_ptrs (ad : akeys) (ps : list (option (list Z))) : elems_of := ⋃ map (at_ptr ad) ps.

Lemma at_ptr_ptr (ad : akeys) key : at_ptr ad (ptr ad key) = set_at ad key.
Proof. unfold at_ptr, ptr. destruct (ad !! key) eqn:E; cbn [from_option]; [done | by rewrite value_at_None]. Qed.

Lemma union_ptrs_all (ad : akeys) (ps : list (option (list Z))) keys : ps ≡ₚ map (ptr ad) keys -> union_ptrs ad ps = union_all ad keys.
Proof.
  intros P. apply set_eq. intros x. rewrite elem_of_union_all. unfold union_ptrs. rewrite elem_of_union_list. split.
  - intros (X & (p & -> & Hp)%list_elem_of_fmap & Hx). rewrite P in Hp. apply list_elem_of_fmap in Hp as (k & -> & Hk). rewrite at_ptr_ptr in Hx. by exists k.
  - intros (k & Hk & Hx). exists (set_at ad k). split; [| done]. rewrite <- at_ptr_ptr. apply list_elem_of_fmap_2. rewrite P. by apply list_elem_of_fmap_2.
Qed.

Section loops.
Context `{Host} (dictSdsHash : list Z -> Z) (resize : dictResizeEnable) (addr : bool -> Z) (junk : nat -> Z) (llbuf : list Z).
Context (set_max_intset_entries set_max_listpack_entries set_max_listpack_value : Z).
Context (hash_range : forall k, 0 <= dictSdsHash k < 2 ^ 64).
Context (hash_compare : forall k1 k2, dictSdsKeyCompare k1 k2 = true -> dictSdsHash k1 = dictSdsHash k2).
Context (Hll : zlen llbuf = LONG_STR_SIZE) (Hmax : 0 <= set_max_intset_entries < INTSET_BOUND).
Notation set_rep := (set_rep dictSdsHash set_max_intset_entries).
Notation db_rep := (db_rep (SetTypeThms.set_rep dictSdsHash set_max_intset_entries)).
Notation alive := (alive dictSdsHash set_max_intset_entries).
Notation add := (add_to dictSdsHash resize addr junk llbuf set_max_intset_entries set_max_listpack_entries set_max_listpack_value).
Notation remove := (remove_from dictSdsHash resize junk llbuf).

(** The temporary set and its number of elements. *)
Definition counted (dc : setobj * Z) (Y : elems_of) : Prop := set_rep dc.1 Y /\ dc.2 = card Y.

Lemma counted_empty : counted (createIntsetObject, 0) ∅.
Proof.
  split; [| done]. exists []. split; [| split; [cbn; change (zlen (@nil (list Z))) with 0; lia | done]].
  split; [exists []; split; [apply intsetNew_rep | done] | split; [apply NoDup_nil_2 | apply Forall_nil_2]].
Qed.

Lemma add_to_ok e dc (Y : elems_of) : counted dc Y -> card Y < 2147483647 -> elem_in e -> exists dc', add e dc = Some dc' /\ counted dc' ({[etext e]} ∪ Y).
Proof.
  intros [HY Hc] Hs He. unfold add_to. pose proof (card_nonneg Y) as Hnn. pose proof (card_add (etext e) Y) as Ha.
  destruct (setTypeAddAux_ok dictSdsHash resize addr junk llbuf set_max_intset_entries set_max_listpack_entries set_max_listpack_value
    hash_range hash_compare Hll Hmax dc.1 Y e HY ltac:(unfold card in Hs; lia) He) as (dst & -> & HX). cbn [mbind option_bind].
  eexists. split; [reflexivity |]. split; [exact HX |]. cbn [snd]. rewrite Hc, i32_id; [by rewrite Ha |]. clear -Hs Hnn. destruct (bool_decide _); cbn [Z.b2z]; lia.
Qed.

Lemma remove_from_ok e dc (Y : elems_of) : counted dc Y -> card Y < 2147483648 -> elem_in e -> exists dc', remove e dc = Some dc' /\ counted dc' (Y ∖ {[etext e]}).
Proof.
  intros [HY Hc] Hs He. unfold remove_from. pose proof (card_remove (etext e) Y) as Ha. unfold in_set in Ha.
  pose proof (card_nonneg (Y ∖ {[etext e]})). pose proof (card_nonneg Y).
  edestruct (setTypeRemoveAux_ok dictSdsHash resize) as (dst & E & HX); [eassumption.. | unfold card in Hs; lia | exact He |].
  rewrite E. cbn [mbind option_bind]. eexists. split; [reflexivity |]. split; [exact HX |]. cbn [snd]. rewrite Hc, i32_id; [by rewrite Ha |]. pose proof (card_mono (Y ∖ {[etext e]}) Y ltac:(set_solver)). lia.
Qed.

(** A whole set. *)
Lemma for_elements_add set (X Y : elems_of) dc : set_rep set X -> counted dc Y -> card X + card Y < 2147483648 ->
  exists dc', for_elements addr set add dc = Some dc' /\ counted dc' (X ∪ Y).
Proof.
  intros (l & Hl & _ & Hx & El)%set_rep_elim HY Hs. unfold for_elements. fold (card X) in El.
  destruct (set_iterate_ok dictSdsHash addr llbuf (fun rest dc => exists done_, l = done_ ++ rest /\ counted dc (list_to_set done_ ∪ Y)) (fun _ => False)
    set l Hl (fun _ => Some set) (fun e dc => dc ← add e dc; Some (dc, false))) with (s := dc) as (dc' & E & [(done_ & Ed & Hc) | []]); [done | done | | |].
  - intros e rest dc1 (done_ & Ed & Hc) He _.
    assert (card (list_to_set done_ ∪ Y) < 2147483647) as Hlt.
    { pose proof (card_union (list_to_set done_) Y). assert (card (list_to_set done_) < card X); [| lia]. rewrite <- El. unfold card.
      pose proof (proj1 (proj2 Hl)) as Hnd. rewrite Ed in Hnd. apply NoDup_app in Hnd as (Hnd & _). rewrite size_list_to_set by done. rewrite Ed, zlen_app, zlen_cons.
      pose proof (zlen_nonneg rest). unfold zlen. lia. }
    destruct (add_to_ok e dc1 _ Hc Hlt He) as (dc2 & -> & Hc2). cbn [mbind option_bind]. eexists _, false. split; [reflexivity |].
    exists (done_ ++ [etext e]). split; [by rewrite <- app_assoc |]. rewrite list_to_set_app_L.
    replace (list_to_set done_ ∪ list_to_set [etext e] ∪ Y) with ({[etext e]} ∪ (list_to_set done_ ∪ Y) : elems_of) by set_solver. exact Hc2.
  - exists []. split; [done |]. change (list_to_set []) with (∅ : elems_of). by rewrite union_empty_l_L.
  - exists dc'. split; [exact E |]. rewrite app_nil_r in Ed. rewrite <- Ed in Hc. replace (list_to_set l) with X in Hc; [exact Hc |].
    apply set_eq. intros x. by rewrite elem_of_list_to_set, Hx.
Qed.

Lemma for_elements_remove set (X Y : elems_of) dc : set_rep set X -> counted dc Y -> card Y < 2147483648 ->
  exists dc', for_elements addr set remove dc = Some dc' /\ counted dc' (Y ∖ X).
Proof.
  intros (l & Hl & _ & Hx & El)%set_rep_elim HY Hs. unfold for_elements.
  destruct (set_iterate_ok dictSdsHash addr llbuf (fun rest dc => exists done_, l = done_ ++ rest /\ counted dc (Y ∖ list_to_set done_)) (fun _ => False)
    set l Hl (fun _ => Some set) (fun e dc => dc ← remove e dc; Some (dc, false))) with (s := dc) as (dc' & E & [(done_ & Ed & Hc) | []]); [done | done | | |].
  - intros e rest dc1 (done_ & Ed & Hc) He _. pose proof (card_mono (Y ∖ list_to_set done_) Y ltac:(set_solver)).
    destruct (remove_from_ok e dc1 _ Hc ltac:(lia) He) as (dc2 & -> & Hc2). cbn [mbind option_bind]. eexists _, false. split; [reflexivity |].
    exists (done_ ++ [etext e]). split; [by rewrite <- app_assoc |]. rewrite list_to_set_app_L.
    replace (Y ∖ (list_to_set done_ ∪ list_to_set [etext e])) with (Y ∖ list_to_set done_ ∖ {[etext e]} : elems_of) by set_solver. exact Hc2.
  - exists []. split; [done |]. change (list_to_set []) with (∅ : elems_of). by rewrite difference_empty_L.
  - exists dc'. split; [exact E |]. rewrite app_nil_r in Ed. rewrite <- Ed in Hc. replace (list_to_set l) with X in Hc; [exact Hc |].
    apply set_eq. intros x. by rewrite elem_of_list_to_set, Hx.
Qed.

(** * Unions *)

Lemma union_loop_ok keys : forall s ad dc (Y : elems_of), db_rep (db s) ad -> existsb (wrong ad) keys = false -> counted dc Y ->
  total ad keys + card Y < 2147483648 ->
  exists dc', union_loop dictSdsHash resize addr junk llbuf set_max_intset_entries set_max_listpack_entries set_max_listpack_value (map (ptr ad) keys) s dc = Some dc' /\
    counted dc' (union_all ad keys ∪ Y).
Proof.
  induction keys as [| k keys IH]; intros s ad dc Y Hd Hw HY Hs; cbn [map union_loop].
  - exists dc. split; [done |]. change (union_all ad []) with (∅ : elems_of). by rewrite union_empty_l_L.
  - cbn [existsb] in Hw. apply orb_false_iff in Hw as [Hw Hws]. change (total ad (k :: keys)) with (card (set_at ad k) + total ad keys) in Hs.
    pose proof (proj2 (card_total ad keys)). change (union_all ad (k :: keys)) with (set_at ad k ∪ union_all ad keys).
    replace (set_at ad k ∪ union_all ad keys ∪ Y) with (union_all ad keys ∪ (set_at ad k ∪ Y)) by set_solver.
    destruct (not_wrong ad k Hw) as [E | E]; unfold ptr; rewrite E.
    + rewrite (value_at_None _ _ E) in *. change (card ∅) with 0 in Hs. rewrite union_empty_l_L. apply (IH s ad dc Y Hd Hws HY). lia.
    + destruct (db_get _ _ _ _ _ Hd E) as (set & Eg & HX). unfold get_typed. rewrite Eg. cbn [mbind option_bind].
      destruct (for_elements_add set _ Y dc HX HY ltac:(lia)) as (dc2 & -> & HY2). cbn [mbind option_bind].
      apply (IH s ad dc2 _ Hd Hws HY2). pose proof (card_union (set_at ad k) Y). lia.
Qed.

(** * Differences *)

Lemma diff_loop_ok ps : forall s ad dc (Y : elems_of), db_rep (db s) ad -> Forall (valid ad) ps -> counted dc Y -> card Y < 2147483648 ->
  exists dc', diff_loop dictSdsHash resize addr junk llbuf ps s dc = Some dc' /\ counted dc' (Y ∖ union_ptrs ad ps).
Proof.
  induction ps as [| p ps IH]; intros s ad dc Y Hd Hv HY Hs; cbn [diff_loop].
  - exists dc. split; [done |]. change (union_ptrs ad []) with (∅ : elems_of). by rewrite difference_empty_L.
  - apply Forall_cons in Hv as [Hp Hv]. change (union_ptrs ad (p :: ps)) with (at_ptr ad p ∪ union_ptrs ad ps).
    replace (Y ∖ (at_ptr ad p ∪ union_ptrs ad ps)) with (Y ∖ at_ptr ad p ∖ union_ptrs ad ps) by set_solver.
    destruct p as [k |]; cbn [at_ptr from_option valid] in *.
    + destruct (db_get _ _ _ _ _ Hd Hp) as (set & Eg & HX). unfold get_typed. rewrite Eg. cbn [mbind option_bind].
      destruct (for_elements_remove set _ Y dc HX HY Hs) as (dc2 & -> & HY2). cbn [mbind option_bind].
      pose proof (card_mono (Y ∖ set_at ad k) Y ltac:(set_solver)). pose proof HY2 as [_ Hc]. rewrite Hc. destruct (Z.eqb_spec (card (Y ∖ set_at ad k)) 0) as [E0 | E0].
      * exists dc2. split; [done |]. apply card_empty in E0. rewrite E0 in *. replace (∅ ∖ union_ptrs ad ps) with (∅ : elems_of) by set_solver. exact HY2.
      * apply (IH s ad dc2 _ Hd Hv HY2). lia.
    + change (at_ptr ad None) with (∅ : elems_of). rewrite difference_empty_L. by apply IH.
Qed.

Section first.
Context (ad : akeys) (key0 : list Z) (set0 : setobj) (l : list (list Z)) (ps : list (option (list Z))).
Context (Hv : Forall (valid ad) ps) (Hn0 : Some key0 ∉ ps) (Hsize : forall k, Some k ∈ ps -> card (set_at ad k) < 2 ^ 57).
Context (Hl : rep_list dictSdsHash set0 l) (Hlx : forall x, x ∈ l <-> x ∈ set_at ad key0) (Hsize0 : card (set_at ad key0) < 2147483648).
Notation alive0 := (alive ad key0 set0).

Lemma in_none_ok e : elem_in e -> forall qs s, (forall p, p ∈ qs -> p ∈ ps) -> alive0 (db s) ->
  exists d, in_none dictSdsHash resize llbuf key0 qs e s = Some (with_db d s, bool_decide (etext e ∉ union_ptrs ad qs)) /\ alive0 d.
Proof.
  intros He. induction qs as [| p qs IH]; intros s Hqs Ha; cbn [in_none].
  - exists (db s). rewrite with_db_id. split; [| done]. rewrite bool_decide_eq_true_2; [done |]. unfold union_ptrs. cbn. set_solver.
  - assert (p ∈ ps) as Hp by (apply Hqs; by left). assert (forall p', p' ∈ qs -> p' ∈ ps) as Hqs' by (intros; apply Hqs; by right).
    change (union_ptrs ad (p :: qs)) with (at_ptr ad p ∪ union_ptrs ad qs). destruct p as [k |]; cbn [at_ptr from_option]; cycle 1.
    { change (at_ptr ad None) with (∅ : elems_of). rewrite union_empty_l_L. by apply IH. }
    rewrite bool_decide_eq_false_2 by (intros ->; done). pose proof Hv as Hv'. rewrite Forall_forall in Hv'.
    destruct (member_same dictSdsHash resize llbuf set_max_intset_entries hash_range hash_compare Hll s ad k _ e (proj1 Ha) (Hv' _ Hp) (Hsize k Hp) He)
      as (d & -> & Hd & Hoth). cbn [mbind option_bind].
    assert (alive0 d) as Ha' by (split; [exact Hd | rewrite Hoth by (intros E; by rewrite E in Hp || by rewrite <- E in Hp); apply Ha]).
    destruct (bool_decide_reflect (etext e ∈ set_at ad k)) as [Hin | Hnin].
    + exists d. split; [| exact Ha']. rewrite bool_decide_eq_false_2; [done |]. set_solver.
    + destruct (IH (with_db d s) Hqs' Ha') as (d2 & -> & Hd2). exists d2. split; [| exact Hd2]. do 2 f_equal. apply bool_decide_ext. set_solver.
Qed.

Lemma diff_one s : alive0 (db s) ->
  exists d dc, set_iterate addr (fun st => get_typed key0 st.1) (diff_body dictSdsHash resize addr junk llbuf set_max_intset_entries set_max_listpack_entries
      set_max_listpack_value key0 ps) (s, (createIntsetObject, 0)) = Some (with_db d s, dc) /\ db_rep d ad /\ counted dc (set_at ad key0 ∖ union_ptrs ad ps).
Proof.
  intros Ha.
  destruct (set_iterate_ok dictSdsHash addr llbuf
    (fun rest st => exists done_ d dc, l = done_ ++ rest /\ alive0 d /\ st = (with_db d s, dc) /\ counted dc (list_to_set done_ ∖ union_ptrs ad ps)) (fun _ => False)
    set0 l Hl (fun st => get_typed key0 st.1) (diff_body dictSdsHash resize addr junk llbuf set_max_intset_entries set_max_listpack_entries
      set_max_listpack_value key0 ps)) with (s := (s, (createIntsetObject, 0))) as (st & E & [(done_ & d & dc & El & Hd & -> & Hc) | []]).
  - intros rest st (done_ & d & dc & _ & Hd & -> & _). by apply (alive_get dictSdsHash set_max_intset_entries ad).
  - done.
  - intros e rest st (done_ & d & dc & El & Hd & -> & Hc) He _. unfold diff_body. cbn [fst snd].
    destruct (in_none_ok e He ps (with_db d s) (fun p Hp => Hp) Hd) as (d' & -> & Hd'). cbn [mbind option_bind].
    assert (l = (done_ ++ [etext e]) ++ rest) as El' by (by rewrite El, <- app_assoc).
    assert (card (list_to_set done_ ∖ union_ptrs ad ps) < 2147483647) as Hlt.
    { pose proof (card_mono ({[etext e]} ∪ list_to_set done_) (set_at ad key0)) as Hm.
      assert (etext e ∉ (list_to_set done_ : elems_of)) as Hnin.
      { pose proof (proj1 (proj2 Hl)) as Hnd. rewrite El in Hnd. apply NoDup_app in Hnd as (_ & Hdis & _). rewrite elem_of_list_to_set. intros Hin.
        apply (Hdis _ Hin). by left. }
      rewrite card_add, bool_decide_eq_true_2 in Hm by done. cbn [Z.b2z] in Hm.
      pose proof (card_mono (list_to_set done_ ∖ union_ptrs ad ps) (list_to_set done_) ltac:(set_solver)).
      enough (card (list_to_set done_) + 1 <= card (set_at ad key0)) by lia. apply Hm. intros x Hx. apply Hlx. rewrite El'.
      apply elem_of_union in Hx as [->%elem_of_singleton | Hx%elem_of_list_to_set]; rewrite !elem_of_app; left; [right; by left | by left]. }
    destruct (bool_decide_reflect (etext e ∉ union_ptrs ad ps)) as [Hn | Hy].
    + destruct (add_to_ok e dc _ Hc Hlt He) as (dc2 & -> & Hc2). cbn [mbind option_bind]. eexists _, false. split; [reflexivity |].
      exists (done_ ++ [etext e]), d', dc2. refine (conj El' (conj Hd' (conj eq_refl _))). rewrite list_to_set_app_L.
      replace ((list_to_set done_ ∪ list_to_set [etext e]) ∖ union_ptrs ad ps) with ({[etext e]} ∪ list_to_set done_ ∖ union_ptrs ad ps : elems_of) by set_solver. exact Hc2.
    + cbn [mbind option_bind]. eexists _, false. split; [reflexivity |].
      exists (done_ ++ [etext e]), d', dc. refine (conj El' (conj Hd' (conj eq_refl _))). rewrite list_to_set_app_L. apply dec_stable in Hy.
      replace ((list_to_set done_ ∪ list_to_set [etext e]) ∖ union_ptrs ad ps) with (list_to_set done_ ∖ union_ptrs ad ps : elems_of) by set_solver. exact Hc.
  - exists [], (db s), (createIntsetObject, 0). rewrite with_db_id. refine (conj eq_refl (conj Ha (conj eq_refl _))).
    replace (list_to_set [] ∖ union_ptrs ad ps) with (∅ : elems_of) by set_solver. apply counted_empty.
  - exists d, dc. split; [exact E |]. split; [apply Hd |]. rewrite app_nil_r in El. rewrite <- El in Hc.
    replace (list_to_set l) with (set_at ad key0) in Hc; [exact Hc |]. apply set_eq. intros x. by rewrite elem_of_list_to_set, Hlx.
Qed.
End first.
End loops.

(** * The commands *)

Section commands.
Context `{Host} (dictSdsHash : list Z -> Z) (resize : dictResizeEnable) (addr : bool -> Z) (junk : nat -> Z) (llbuf buf64 : list Z).
Context (set_max_intset_entries set_max_listpack_entries set_max_listpack_value : Z).
Context (hash_range : forall k, 0 <= dictSdsHash k < 2 ^ 64).
Context (hash_compare : forall k1 k2, dictSdsKeyCompare k1 k2 = true -> dictSdsHash k1 = dictSdsHash k2).
Context (Hll : zlen llbuf = LONG_STR_SIZE) (H64 : zlen buf64 = 64) (Hmax : 0 <= set_max_intset_entries < INTSET_BOUND).
Context (qsort : (option (list Z) * Z -> option (list Z) * Z -> Z) -> list (option (list Z) * Z) -> list (option (list Z) * Z)).
Context (qsort_perm : forall compar l, qsort compar l ≡ₚ l).
Notation set_rep := (set_rep dictSdsHash set_max_intset_entries).
Notation db_rep := (db_rep (SetTypeThms.set_rep dictSdsHash set_max_intset_entries)).
Notation state_rep := (state_rep (SetTypeThms.set_rep dictSdsHash set_max_intset_entries)).
Notation counted := (counted dictSdsHash set_max_intset_entries).
Notation generic := (sunionDiffGenericCommand dictSdsHash resize addr junk llbuf buf64 set_max_intset_entries set_max_listpack_entries set_max_listpack_value qsort).
Notation union_diff := (union_diff dictSdsHash resize addr junk llbuf set_max_intset_entries set_max_listpack_entries set_max_listpack_value).

Lemma diff_work_ok key0 ps : forall one two s ad, db_rep (db s) ad -> is_set ad key0 -> Forall (valid ad) ps ->
  exists d work, diff_work key0 ps one two s = Some (with_db d s, work) /\ db_rep d ad.
Proof.
  induction ps as [| p ps IH]; intros one two s ad Hd H0 Hv; cbn [diff_work].
  - exists (db s), (one, two). by rewrite with_db_id.
  - apply Forall_cons in Hv as [Hp Hv]. destruct p as [k |]; [| by apply IH].
    destruct (size_same dictSdsHash set_max_intset_entries s ad key0 _ Hd H0) as (d & -> & Hd' & _). cbn [mbind option_bind].
    destruct (size_same dictSdsHash set_max_intset_entries (with_db d s) ad k _ Hd' Hp) as (d2 & -> & Hd2 & _). cbn [mbind option_bind].
    apply (IH _ _ (with_db d2 (with_db d s)) ad Hd2 H0 Hv).
Qed.

Lemma choose_diff_ok key0 ps s ad : db_rep (db s) ad -> is_set ad key0 -> Forall (valid ad) ps ->
  exists d algo ps', choose_diff qsort (Some key0 :: ps) s = Some (with_db d s, (algo, Some key0 :: ps')) /\ ps' ≡ₚ ps /\ db_rep d ad.
Proof.
  intros Hd H0 Hv. cbn [choose_diff]. destruct (diff_work_ok key0 (Some key0 :: ps) 0 0 s ad Hd H0) as (d & work & -> & Hd'); [by apply Forall_cons_2 |].
  cbn [mbind option_bind]. destruct (_ && _).
  - destruct (sort_sets_ok dictSdsHash set_max_intset_entries qsort qsort_perm qsortCompareSetsByRevCardinality ps (with_db d s) ad Hd' Hv) as (d2 & ps' & -> & P & Hd2).
    cbn [mbind option_bind]. by eexists d2, _, ps'.
  - by eexists d, _, ps.
Qed.

(** Both algorithms. *)
Lemma diff_ok algo key0 ps s ad : db_rep (db s) ad -> is_set ad key0 -> Forall (valid ad) ps -> Some key0 ∉ ps ->
  (forall k, Some k ∈ ps -> card (set_at ad k) < 2 ^ 57) -> card (set_at ad key0) < 2147483648 ->
  exists d dc, union_diff SET_OP_DIFF false algo (Some key0 :: ps) s = Some (with_db d s, dc) /\ db_rep d ad /\
    counted dc (set_at ad key0 ∖ union_ptrs ad ps).
Proof.
  intros Hd H0 Hv Hn Hs Hs0. cbn [SetCmds.union_diff]. destruct (db_get _ _ _ _ _ Hd H0) as (set0 & Eg & HX).
  pose proof HX as (l & Hl & _ & Hx & _)%set_rep_elim. destruct (algo =? 1).
  - by apply (diff_one dictSdsHash resize addr junk llbuf set_max_intset_entries set_max_listpack_entries set_max_listpack_value
      hash_range hash_compare Hll Hmax ad key0 set0 l ps).
  - unfold get_typed. rewrite Eg. cbn [mbind option_bind].
    destruct (for_elements_add dictSdsHash resize addr junk llbuf set_max_intset_entries set_max_listpack_entries set_max_listpack_value
      hash_range hash_compare Hll Hmax set0 _ ∅ (createIntsetObject, 0) HX) as (dc & -> & Hc); [by apply counted_empty | change (card ∅) with 0; lia |].
    cbn [mbind option_bind]. rewrite union_empty_r_L in Hc. pose proof Hc as [_ Ec]. rewrite Ec. exists (db s). rewrite with_db_id.
    destruct (Z.eqb_spec (card (set_at ad key0)) 0) as [E0 | E0].
    + exists dc. cbn [mbind option_bind]. split; [done |]. split; [done |]. apply card_empty in E0. rewrite E0 in *.
      replace (∅ ∖ union_ptrs ad ps) with (∅ : elems_of) by set_solver. exact Hc.
    + destruct (diff_loop_ok dictSdsHash resize addr junk llbuf set_max_intset_entries
        hash_range hash_compare Hll Hmax ps s ad dc _ Hd Hv Hc Hs0) as (dc2 & -> & Hc2). cbn [mbind option_bind]. by exists dc2.
Qed.

(** The result as a reply, or stored. *)
Lemma send_set (s : db_srv) dst (X : elems_of) : set_rep dst X ->
  exists l, set_iterate addr (fun _ => Some dst) (fun e s => s ← reply_elem buf64 e s; Some (s, false)) s =
    Some (Srv (db s) (dirty s) (modified s) (replies s ++ map RBulk l)) /\ l ≡ₚ elements X.
Proof.
  intros (l & Hl & _ & Hx & _)%set_rep_elim. exists l. split.
  - destruct (set_iterate_ok dictSdsHash addr llbuf
      (fun rest s' => exists done_, l = done_ ++ rest /\ s' = Srv (db s) (dirty s) (modified s) (replies s ++ map RBulk done_)) (fun _ => False)
      dst l Hl (fun _ => Some dst) (fun e s => s ← reply_elem buf64 e s; Some (s, false))) with (s := s) as (s' & E & [(done_ & Ed & ->) | []]); [done | done | | |].
    + intros e rest s' (done_ & Ed & ->) He _. rewrite reply_elem_ok by done. cbn [mbind option_bind]. eexists _, false. split; [reflexivity |].
      exists (done_ ++ [etext e]). split; [by rewrite <- app_assoc |]. rewrite map_app, app_assoc. done.
    + exists []. split; [done |]. cbn. rewrite app_nil_r. by destruct s.
    + rewrite app_nil_r in Ed. by rewrite Ed.
  - apply NoDup_Permutation; [apply Hl | apply NoDup_elements |]. intros x. by rewrite elem_of_elements.
Qed.

Lemma finish_ok s a dc (X : elems_of) dstkey : state_rep s a -> counted dc X ->
  exists s', (match dstkey with
    | None => _ ← assert_ (0 <=? dc.2); set_iterate addr (fun _ => Some dc.1) (fun e s => s ← reply_elem buf64 e s; Some (s, false)) (addReply (RSetLen dc.2) s)
    | Some dstkey => '(dst, n) ← setTypeSize dc.1; if 0 <? n then store_set dstkey dst s else Some (delete_dst dstkey (addReplyLongLong 0 s))
    end) = Some s' /\ state_rep s' (match dstkey with None => send (AElems X) a | Some dst => store dst X a end).
Proof.
  intros HR [HX Hc]. pose proof (card_nonneg X) as Hnn. destruct dstkey as [dstkey |].
  - destruct (setTypeSize_ok dictSdsHash set_max_intset_entries dc.1 X HX) as (dst & -> & HX'). cbn [mbind option_bind].
    change (Z.of_nat (size X)) with (card X). destruct (Z.ltb_spec 0 (card X)) as [Hpos | Hz].
    + eapply store_set_ok; [exact HR | exact HX' |]. rewrite <- card_empty. lia.
    + assert (X = ∅) as -> by (apply card_empty; lia). eexists. split; [reflexivity |]. rewrite delete_dst_reply. by apply delete_dst_ok.
  - rewrite Hc, (proj2 (Z.leb_le 0 (card X)) Hnn). cbn [assert_ mbind option_bind].
    destruct (send_set (addReply (RSetLen (card X)) s) dc.1 X HX) as (l & -> & P). eexists. split; [reflexivity |].
    destruct HR as (Hd & Hn & Hm & Hr). split; [exact Hd |]. split; [exact Hn |]. split; [exact Hm |]. cbn. rewrite <- app_assoc.
    constructor; [exact Hr | by constructor].
Qed.

Lemma sunion_diff_ok s a dstkey op keys : state_rep s a -> keys <> [] -> total (adb a) keys < 2147483648 ->
  exists s', generic keys dstkey op s = Some s' /\
    state_rep s' (unless_wrong keys (fun a =>
      let X := match op with SET_OP_UNION => union_all (adb a) keys | SET_OP_DIFF => diff_all (adb a) keys end in
      match dstkey with None => send (AElems X) a | Some dst => store dst X a end) a).
Proof.
  intros HR Hne Hs. pose proof HR as (Hd & _). unfold sunionDiffGenericCommand, unless_wrong.
  rewrite (lookup_sets_ok dictSdsHash set_max_intset_entries keys s (adb a) Hd). destruct (existsb _ keys) eqn:Hw; [eexists; split; [reflexivity | by apply state_err] |].
  cbv zeta. set (ad := adb a) in *. pose proof (ptr_valid ad keys Hw) as Hv. destruct op.
  - cbn [mbind option_bind fst snd SetCmds.union_diff].
    destruct (union_loop_ok dictSdsHash resize addr junk llbuf set_max_intset_entries set_max_listpack_entries set_max_listpack_value
      hash_range hash_compare Hll Hmax keys s ad (createIntsetObject, 0) ∅ Hd Hw) as (dc & -> & Hc); [by apply counted_empty | change (card ∅) with 0; lia |].
    cbn [mbind option_bind]. rewrite union_empty_r_L in Hc. by apply finish_ok.
  - destruct keys as [| k0 keys]; [done |]. cbn [map same_set] in *. apply Forall_cons in Hv as [Hv0 Hv].
    change (total ad (k0 :: keys)) with (card (set_at ad k0) + total ad keys) in Hs. destruct (card_total ad keys) as [Hct Htn].
    cbn [existsb] in Hw. apply orb_false_iff in Hw as [Hw0 Hw]. cbn [diff_all].
    destruct (not_wrong ad k0 Hw0) as [E0 | E0].
    + assert (ptr ad k0 = None) as -> by (unfold ptr; by rewrite E0). cbn [choose_diff SetCmds.union_diff mbind option_bind fst snd]. rewrite (value_at_None _ _ E0).
      replace (∅ ∖ union_all ad keys) with (∅ : elems_of) by set_solver. exact (finish_ok s a (createIntsetObject, 0) ∅ dstkey HR (counted_empty dictSdsHash set_max_intset_entries Hmax)).
    + assert (ptr ad k0 = Some k0) as -> by (unfold ptr; by rewrite E0). destruct (bool_decide_reflect (Some k0 ∈ map (ptr ad) keys)) as [Hin | Hnin].
      * cbn [SetCmds.union_diff mbind option_bind fst snd]. replace (set_at ad k0 ∖ union_all ad keys) with (∅ : elems_of).
        { exact (finish_ok s a (createIntsetObject, 0) ∅ dstkey HR (counted_empty dictSdsHash set_max_intset_entries Hmax)). }
        apply set_eq. intros x. rewrite elem_of_difference, elem_of_union_all. split; [intros Hx; by apply elem_of_empty in Hx |]. intros [Hx Hnx]. destruct Hnx.
        apply list_elem_of_fmap in Hin as (k & Ek & Hk). unfold ptr in Ek. destruct (ad !! k); [| done]. injection Ek as <-. by exists k0.
      * destruct (choose_diff_ok k0 (map (ptr ad) keys) s ad Hd E0 Hv) as (d & algo & ps & -> & P & Hd'). cbn [mbind option_bind fst snd].
        destruct (diff_ok algo k0 ps (with_db d s) ad Hd' E0) as (d2 & dc & -> & Hd2 & Hc); [by rewrite P | by rewrite P | | lia |].
        { intros k Hk. rewrite P in Hk. apply list_elem_of_fmap in Hk as (k' & Ek & Hk). unfold ptr in Ek. destruct (ad !! k'); [| done]. injection Ek as <-.
          specialize (Hct k Hk). pose proof (card_nonneg (set_at ad k0)). lia. }
        cbn [mbind option_bind]. rewrite (union_ptrs_all ad ps keys P) in Hc. apply finish_ok; [| exact Hc]. by apply (state_db _ s a d2).
Qed.
End commands.
