(* ===== verification/SetCmdRun.v ===== *)
(** Any sequence of set commands acts as on a map from keys to sets. *)
From stdpp Require Import strings gmap.
From S2P Require Import Prelude Endian Strnum Dict Server Element Keyspace SetType SetTypeThms SetRun SetCmds SetCmdThms SetInterThms SetUnionThms.

Section run.
Context `{Host} (dictSdsHash : list Z -> Z) (resize : dictResizeEnable) (addr : bool -> Z) (junk : nat -> Z) (llbuf buf64 : list Z).
Context (set_max_intset_entries set_max_listpack_entries set_max_listpack_value : Z).
Context (qsort : (option (list Z) * Z -> option (list Z) * Z -> Z) -> list (option (list Z) * Z) -> list (option (list Z) * Z)).

Definition run_cmd (c : cmd) : db_srv -> option db_srv :=
  match c with
  | Sadd key args =>
      saddCommand dictSdsHash resize addr junk llbuf set_max_intset_entries set_max_listpack_entries set_max_listpack_value (chars "sadd" :: key :: args)
  | Srem key args => sremCommand dictSdsHash resize junk llbuf (chars "srem" :: key :: args)
  | Smove key1 key2 ele =>
      smoveCommand dictSdsHash resize addr junk llbuf set_max_intset_entries set_max_listpack_entries set_max_listpack_value [chars "smove"; key1; key2; ele]
  | Sismember key ele => sismemberCommand dictSdsHash resize llbuf [chars "sismember"; key; ele]
  | Smismember key args => smismemberCommand dictSdsHash resize llbuf (chars "smismember" :: key :: args)
  | Scard key => scardCommand [chars "scard"; key]
  | Sinter keys =>
      sinterCommand dictSdsHash resize addr junk llbuf buf64 set_max_intset_entries set_max_listpack_entries set_max_listpack_value qsort (chars "sinter" :: keys)
  | Sintercard args =>
      sinterCardCommand dictSdsHash resize addr junk llbuf buf64 set_max_intset_entries set_max_listpack_entries set_max_listpack_value qsort (chars "sintercard" :: args)
  | Sinterstore dst keys =>
      sinterstoreCommand dictSdsHash resize addr junk llbuf buf64 set_max_intset_entries set_max_listpack_entries set_max_listpack_value qsort (chars "sinterstore" :: dst :: keys)
  | Sunion keys =>
      sunionCommand dictSdsHash resize addr junk llbuf buf64 set_max_intset_entries set_max_listpack_entries set_max_listpack_value qsort (chars "sunion" :: keys)
  | Sunionstore dst keys =>
      sunionstoreCommand dictSdsHash resize addr junk llbuf buf64 set_max_intset_entries set_max_listpack_entries set_max_listpack_value qsort (chars "sunionstore" :: dst :: keys)
  | Sdiff keys =>
      sdiffCommand dictSdsHash resize addr junk llbuf buf64 set_max_intset_entries set_max_listpack_entries set_max_listpack_value qsort (chars "sdiff" :: keys)
  | Sdiffstore dst keys =>
      sdiffstoreCommand dictSdsHash resize addr junk llbuf buf64 set_max_intset_entries set_max_listpack_entries set_max_listpack_value qsort (chars "sdiffstore" :: dst :: keys)
  end.

Fixpoint run_cmds (cs : list cmd) (s : db_srv) : option db_srv :=
  match cs with [] => Some s | c :: cs => s ← run_cmd c s; run_cmds cs s end.
End run.

Section refine.
Context `{Host} (dictSdsHash : list Z -> Z) (resize : dictResizeEnable) (addr : bool -> Z) (junk : nat -> Z) (llbuf buf64 : list Z).
Context (set_max_intset_entries set_max_listpack_entries set_max_listpack_value : Z).
Context (qsort : (option (list Z) * Z -> option (list Z) * Z -> Z) -> list (option (list Z) * Z) -> list (option (list Z) * Z)).
Context (hash_range : forall k, 0 <= dictSdsHash k < 2 ^ 64).
Context (hash_compare : forall k1 k2, dictSdsKeyCompare k1 k2 = true -> dictSdsHash k1 = dictSdsHash k2).
Context (qsort_perm : forall compar l, qsort compar l ≡ₚ l).
Context (Hll : zlen llbuf = LONG_STR_SIZE) (H64 : zlen buf64 = 64) (Hmax : 0 <= set_max_intset_entries < INTSET_BOUND).
Notation state_rep := (state_rep (SetTypeThms.set_rep dictSdsHash set_max_intset_entries)).
Notation run_cmd := (run_cmd dictSdsHash resize addr junk llbuf buf64 set_max_intset_entries set_max_listpack_entries set_max_listpack_value qsort).
Notation run_cmds := (run_cmds dictSdsHash resize addr junk llbuf buf64 set_max_intset_entries set_max_listpack_entries set_max_listpack_value qsort).

Lemma total_1 (ad : akeys) key : total ad [key] = card (set_at ad key).
Proof. unfold total. cbn. lia. Qed.

Lemma total_bound (ad : akeys) (keys : list (list Z)) : total ad keys < 2 ^ 56 -> forall k, k ∈ keys -> card (set_at ad k) < 2 ^ 57.
Proof. intros Ht k Hk. pose proof (proj1 (card_total ad keys) k Hk). lia. Qed.

Lemma run_cmd_ok c s a : state_rep s a -> cmd_ok c a -> exists s', run_cmd c s = Some s' /\ state_rep s' (spec c a).
Proof.
  intros HR Hok. destruct c as [key args | key args | key1 key2 ele | key ele | key args | key | keys | args | dst keys | keys | dst keys | keys | dst keys];
    cbn [SetCmdRun.run_cmd cmd_ok] in *; rewrite ?total_1 in *.
  - destruct Hok as (Hne & Hm & Hl & Hs). by eapply sadd_ok.
  - destruct Hok as [Hm Hs]. by eapply srem_ok.
  - destruct Hok as [He Hs]. eapply smove_ok; eauto; apply (total_bound _ _ Hs); [by left | by right; left].
  - destruct Hok as [He Hs]. by eapply sismember_ok.
  - destruct Hok as [Hm Hs]. by eapply smismember_ok.
  - by eapply scard_ok.
  - destruct Hok as [Hne Hs]. unfold sinterCommand. cbn [drop]. rewrite drop_0. by eapply sinter_ok; [.. | exact (total_bound _ _ Hs)].
  - by eapply sintercard_ok.
  - destruct Hok as [Hne Hs]. unfold sinterstoreCommand. cbn [lookup list_lookup mbind option_bind drop]. rewrite drop_0.
    by eapply sinterstore_ok; [.. | exact (total_bound _ _ Hs)].
  - destruct Hok as [Hne Hs]. unfold sunionCommand. cbn [drop]. rewrite drop_0. by apply (sunion_diff_ok dictSdsHash resize addr junk llbuf buf64) with (dstkey := None) (op := SET_OP_UNION).
  - destruct Hok as [Hne Hs]. unfold sunionstoreCommand. cbn [lookup list_lookup mbind option_bind drop]. rewrite drop_0.
    by apply (sunion_diff_ok dictSdsHash resize addr junk llbuf buf64) with (dstkey := Some dst) (op := SET_OP_UNION).
  - destruct Hok as [Hne Hs]. unfold sdiffCommand. cbn [drop]. rewrite drop_0. by apply (sunion_diff_ok dictSdsHash resize addr junk llbuf buf64) with (dstkey := None) (op := SET_OP_DIFF).
  - destruct Hok as [Hne Hs]. unfold sdiffstoreCommand. cbn [lookup list_lookup mbind option_bind drop]. rewrite drop_0.
    by apply (sunion_diff_ok dictSdsHash resize addr junk llbuf buf64) with (dstkey := Some dst) (op := SET_OP_DIFF).
Qed.

Lemma run_cmds_ok cs : forall s a, state_rep s a -> cmds_ok cs a -> exists s', run_cmds cs s = Some s' /\ state_rep s' (spec_all cs a).
Proof.
  induction cs as [| c cs IH]; intros s a HR Hok; cbn [SetCmdRun.run_cmds spec_all cmds_ok] in *; [by exists s |].
  destruct Hok as [Hc Hok]. destruct (run_cmd_ok c s a HR Hc) as (s1 & -> & HR1). cbn [mbind option_bind]. by apply IH.
Qed.
End refine.

Lemma no_empty_all cs : forall a, no_empty a -> no_empty (spec_all cs a).
Proof. induction cs as [| c cs IH]; intros a Ha; cbn [spec_all]; [done |]. by apply IH, no_empty_spec. Qed.

(** C18: Any sequence of SADD, SREM, SMOVE, SISMEMBER, SMISMEMBER, SCARD,
    SINTER, SINTERCARD, SINTERSTORE, SUNION, SUNIONSTORE, SDIFF and SDIFFSTORE
    runs to its end, from any state whose sets (in whatever encodings, at
    whatever stage of rehashing) represent a map from keys to sets of strings,
    and acts as its specification on that map says: the same sets, the same
    replies and errors (the elements of a set in some order), the same count of
    changes and signalled keys.  So the order in which the C library sorts the
    sets, the algorithm chosen for a difference, the conversions and the keys
    that are both source and destination cannot be observed; and no key is left
    with an empty set. *)
Theorem set_commands_refine `{Host} (dictSdsHash : list Z -> Z) (resize : dictResizeEnable) (addr : bool -> Z) (junk : nat -> Z) (llbuf buf64 : list Z)
    (set_max_intset_entries set_max_listpack_entries set_max_listpack_value : Z)
    (qsort : (option (list Z) * Z -> option (list Z) * Z -> Z) -> list (option (list Z) * Z) -> list (option (list Z) * Z))
    (hash_range : forall k, 0 <= dictSdsHash k < 2 ^ 64)
    (hash_compare : forall k1 k2, dictSdsKeyCompare k1 k2 = true -> dictSdsHash k1 = dictSdsHash k2)
    (qsort_perm : forall compar l, qsort compar l ≡ₚ l)
    (Hll : zlen llbuf = LONG_STR_SIZE) (H64 : zlen buf64 = 64) (Hmax : 0 <= set_max_intset_entries < INTSET_BOUND)
    (cs : list cmd) (s : db_srv) (a : astate)
    (HR : state_rep (set_rep dictSdsHash set_max_intset_entries) s a) (Hne : no_empty a) (Hok : cmds_ok cs a) :
  exists s' : db_srv,
    run_cmds dictSdsHash resize addr junk llbuf buf64 set_max_intset_entries set_max_listpack_entries set_max_listpack_value qsort cs s = Some s' /\
    state_rep (set_rep dictSdsHash set_max_intset_entries) s' (spec_all cs a) /\ no_empty (spec_all cs a).
Proof.
  edestruct (run_cmds_ok dictSdsHash resize addr junk llbuf buf64) as (s' & E & HR'); [eassumption.. |].
  exists s'. split; [exact E |]. split; [exact HR' | by apply no_empty_all].
Qed.

(** From the empty database, with small limits so that the sets change their
    encodings. *)
Definition ex_cmds : list cmd :=
  [Sadd (chars "a") [chars "1"; chars "2"; chars "x"]; Sadd (chars "b") [chars "2"; chars "7"; chars "9"]; Sadd (chars "a") [chars "2"; chars "long element"];
   Sinter [chars "a"; chars "b"]; Sdiffstore (chars "c") [chars "a"; chars "b"; chars "none"]; Smove (chars "b") (chars "d") (chars "7");
   Sinterstore (chars "c") [chars "c"; chars "d"]; Sintercard [chars "2"; chars "a"; chars "b"; chars "LIMIT"; chars "5"]; Srem (chars "b") [chars "2"; chars "9"; chars "0"];
   Sunion [chars "a"; chars "d"]; Smismember (chars "a") [chars "x"; chars "y"]; Scard (chars "b")].

Example ex_cmds_replies :
  replies <$> run_cmds (H := false) sum_hash DICT_RESIZE_ENABLE (fun _ => 0) (fun _ => 0) (replicate 21 0) (replicate 64 0) 2 3 8 (fun _ l => l) ex_cmds empty_srv =
  Some [RInt 3; RInt 3; RInt 1; RSetLen 1; RBulk (chars "2"); RInt 3; RInt 1; RInt 0; RInt 1; RInt 2;
        RSetLen 5; RBulk (chars "x"); RBulk (chars "1"); RBulk (chars "2"); RBulk (chars "long element"); RBulk (chars "7");
        RArrayLen 2; RInt 1; RInt 0; RInt 0].
Proof. vm_compute. reflexivity. Qed.

Lemma set_commands_refine_witness :
  let H : Host := false in
  exists s' : db_srv,
    run_cmds sum_hash DICT_RESIZE_ENABLE (fun _ => 0) (fun _ => 0) (replicate 21 0) (replicate 64 0) 2 3 8 (fun _ l => l) ex_cmds empty_srv = Some s' /\
    state_rep (set_rep sum_hash 2) s' (spec_all ex_cmds empty_state) /\ no_empty (spec_all ex_cmds empty_state).
Proof.
  exact (set_commands_refine (H := false) sum_hash DICT_RESIZE_ENABLE (fun _ => 0) (fun _ => 0) (replicate 21 0) (replicate 64 0) 2 3 8 (fun _ l => l)
    (fun k => Z.mod_pos_bound _ (2 ^ 64) ltac:(lia)) sum_hash_compare (fun _ l => Permutation_refl l) eq_refl eq_refl ltac:(unfold INTSET_BOUND; lia)
    ex_cmds empty_srv empty_state (empty_state_rep _) ltac:(intros key; cbn; by rewrite lookup_empty)
    (bool_decide_unpack (cmds_ok ex_cmds empty_state) ltac:(vm_compute; exact I))).
Defined.

(** * Types *)

(** The keys that a command takes as sets, and the key it replaces. *)
Definition operands (c : cmd) (d : gmap (list Z) (typed setobj)) : list (list Z) :=
  match c with
  | Sadd key _ | Srem key _ | Sismember key _ | Smismember key _ | Scard key => [key]
  | Smove key1 key2 _ => if bool_decide (d !! key1 = None) then [] else [key1; key2]
  | Sintercard args => match intercard_args args with inl _ => [] | inr (keys, _) => keys end
  | Sinter keys | Sinterstore _ keys | Sunion keys | Sunionstore _ keys | Sdiff keys | Sdiffstore _ keys => keys
  end.
Definition replaced (c : cmd) : list (list Z) := match c with Sinterstore dst _ | Sunionstore dst _ | Sdiffstore dst _ => [dst] | _ => [] end.

Lemma spec_operand c a d key : adb a !! key = Some OtherType -> (forall k, d !! k = None <-> adb a !! k = None) -> key ∈ operands c d ->
  spec c a = send (AErr wrongtypeerr) a.
Proof.
  intros E Hd Hk. destruct c; cbn [spec operands] in *; try (by eapply unless_wrong_in).
  - rewrite (bool_decide_ext _ _ (Hd key1)) in Hk. destruct (bool_decide (adb a !! key1 = None)); [by apply elem_of_nil in Hk | by eapply unless_wrong_in].
  - destruct (intercard_args args) as [msg | [keys limit]]; [by apply elem_of_nil in Hk | by eapply unless_wrong_in].
Qed.

Lemma spec_other c a key : adb a !! key = Some OtherType -> key ∉ replaced c -> adb (spec c a) !! key = Some OtherType.
Proof.
  intros E Hn. assert (forall dst (X : elems_of), key ∉ [dst] -> adb (store dst X a) !! key = Some OtherType) as Hs.
  { intros dst X Hd. unfold store. case_match; [exact E |]. apply put_other; [exact E |]. intros ->. apply Hd. by left. }
  assert (forall k, wrong (adb a) k = false -> k <> key) as Hw by (intros k Hk ->; apply wrong_other in E; congruence).
  destruct c; cbn [spec replaced] in *; unfold unless_wrong; repeat case_match; try exact E; try (by apply Hs);
    repeat match goal with H : existsb _ _ = false |- _ => cbn [existsb] in H; rewrite ?orb_false_iff in H end;
    cbn [adb send change]; repeat apply put_other; try exact E; apply Hw; tauto.
Qed.

(** C25: A value of another type is never taken for a set.  When a key that a
    command takes as a set holds such a value, the command answers WRONGTYPE
    and nothing else happens: no change is counted, no key signalled, every key
    keeps its set or its value.  And whatever a command does, such a value
    stays where it is unless the command is a STORE to its key. *)
Theorem set_commands_type_safe `{Host} (dictSdsHash : list Z -> Z) (resize : dictResizeEnable) (addr : bool -> Z) (junk : nat -> Z) (llbuf buf64 : list Z)
    (set_max_intset_entries set_max_listpack_entries set_max_listpack_value : Z)
    (qsort : (option (list Z) * Z -> option (list Z) * Z -> Z) -> list (option (list Z) * Z) -> list (option (list Z) * Z))
    (hash_range : forall k, 0 <= dictSdsHash k < 2 ^ 64)
    (hash_compare : forall k1 k2, dictSdsKeyCompare k1 k2 = true -> dictSdsHash k1 = dictSdsHash k2)
    (qsort_perm : forall compar l, qsort compar l ≡ₚ l)
    (Hll : zlen llbuf = LONG_STR_SIZE) (H64 : zlen buf64 = 64) (Hmax : 0 <= set_max_intset_entries < INTSET_BOUND)
    (c : cmd) (s : db_srv) (a : astate) (key : list Z)
    (HR : state_rep (set_rep dictSdsHash set_max_intset_entries) s a) (Hok : cmd_ok c a) (Hkey : db s !! key = Some OtherType) :
  exists s' : db_srv,
    run_cmd dictSdsHash resize addr junk llbuf buf64 set_max_intset_entries set_max_listpack_entries set_max_listpack_value qsort c s = Some s' /\
    (key ∈ operands c (db s) ->
      db_rep (set_rep dictSdsHash set_max_intset_entries) (db s') (adb a) /\ dirty s' = dirty s /\ modified s' = modified s /\
      replies_rep (areplies a ++ [AErr wrongtypeerr]) (replies s')) /\
    (key ∉ replaced c -> db s' !! key = Some OtherType).
Proof.
  edestruct (run_cmd_ok dictSdsHash resize addr junk llbuf buf64) as (s' & E & HR'); [eassumption.. |]. exists s'. split; [exact E |].
  assert (forall (d : gmap (list Z) (typed setobj)) (ad : akeys), db_rep (set_rep dictSdsHash set_max_intset_entries) d ad -> d !! key = Some OtherType <-> ad !! key = Some OtherType) as Hother.
  { intros d ad Hd. destruct (db_at _ _ _ key Hd); naive_solver. }
  pose proof HR as (Hd & Hn & Hm & _). pose proof HR' as (Hd' & _). pose proof Hkey as Ha. rewrite (Hother _ _ Hd) in Ha. split.
  - intros Hk. rewrite (spec_operand c a (db s) key Ha (fun k => db_none _ _ _ k Hd) Hk) in HR'. destruct HR' as (Hd2 & Hn2 & Hm2 & Hr2).
    split; [exact Hd2 |]. cbn in Hn2, Hm2. split; [congruence |]. split; [congruence | exact Hr2].
  - intros Hk. apply (Hother _ _ Hd'). by apply spec_other.
Qed.

Lemma set_commands_type_safe_witness :
  let H : Host := false in
  let s := Srv {[chars "s" := OtherType]} 0 [] [] in
  exists s' : db_srv,
    run_cmd sum_hash DICT_RESIZE_ENABLE (fun _ => 0) (fun _ => 0) (replicate 21 0) (replicate 64 0) 2 3 8 (fun _ l => l) (Sunionstore (chars "t") [chars "u"; chars "s"]) s = Some s' /\
    (chars "s" ∈ [chars "u"; chars "s"] ->
      db_rep (set_rep sum_hash 2) (db s') {[chars "s" := OtherType]} /\ dirty s' = 0 /\ modified s' = [] /\ replies_rep [AErr wrongtypeerr] (replies s')) /\
    (chars "s" ∉ [chars "t"] -> db s' !! chars "s" = Some OtherType).
Proof.
  refine (set_commands_type_safe (H := false) sum_hash DICT_RESIZE_ENABLE (fun _ => 0) (fun _ => 0) (replicate 21 0) (replicate 64 0) 2 3 8 (fun _ l => l)
    (fun k => Z.mod_pos_bound _ (2 ^ 64) ltac:(lia)) sum_hash_compare (fun _ l => Permutation_refl l) eq_refl eq_refl ltac:(unfold INTSET_BOUND; lia)
    (Sunionstore (chars "t") [chars "u"; chars "s"]) (Srv {[chars "s" := OtherType]} 0 [] []) (AState {[chars "s" := OtherType]} 0 [] []) (chars "s")
    _ (bool_decide_unpack (cmd_ok (Sunionstore (chars "t") [chars "u"; chars "s"]) (AState {[chars "s" := OtherType]} 0 [] [])) ltac:(vm_compute; exact I)) eq_refl).
  split; [| by repeat constructor]. intros key. cbn [db adb]. destruct (decide (chars "s" = key)) as [<- | Hn].
  - rewrite !lookup_singleton_eq. by constructor.
  - rewrite !lookup_singleton_ne by done. constructor.
Defined.
