(* ===== verification/DictScan.v ===== *)
(** dict.c: [dictScan], the incremental iteration whose cursor the caller
    keeps between calls while the dictionary is resized and rehashed.

    The callback is modelled by the list of entries it is called with, in
    order; it does not change the dictionary.  The cursor counts in bit
    reversed order, so the proofs read it through [rev]: a call on a table of
    [2^e] buckets visits the keys whose reversed hash lies in the interval of
    length [2^(64-e)] around the reversed cursor, and the new reversed cursor is
    the end of that interval. *)
From S2P Require Import Prelude Dict DictInv DictOps DictThms.

(** [~x] on an unsigned long. *)
Definition not64 (x : Z) : Z := Z.lxor x ULLONG_MAX.

Definition rev_stage (s mask v : Z) : Z :=
  Z.lor (Z.land (Z.shiftr v s) mask) (Z.land (u64 (Z.shiftl v s)) (not64 mask)).
Fixpoint rev_loop (fuel : nat) (s mask v : Z) : Z :=
  match fuel with
  | O => v
  | S fuel =>
      let s := Z.shiftr s 1 in
      if 0 <? s then
        let mask := Z.lxor mask (u64 (Z.shiftl mask s)) in
        rev_loop fuel s mask (rev_stage s mask v)
      else v
  end.
Definition rev (v : Z) : Z := rev_loop 7 64 ULLONG_MAX v.

(** Set the unmasked bits and increment the reversed cursor. *)
Definition next_cursor (v m : Z) : Z :=
  let v := Z.lor v (not64 m) in
  let v := rev v in
  let v := u64 (v + 1) in
  rev v.

Section scan.
Context {K V : Type}.

(** The calls of the callback on a bucket. *)
Fixpoint emit (de : dictEntry K V) : list (dictEntry K V) :=
  match de with
  | Null => []
  | EKey _ => [de]
  | ENoValue _ next | ENormal _ _ next => de :: emit next
  end.

(** The do while loop over the larger table. *)
Fixpoint scan_larger (fuel : nat) (h1 : ht K V) (v m0 m1 : Z) : option (list (dictEntry K V) * Z) :=
  match fuel with
  | O => None
  | S fuel =>
      de ← bucket h1 (Z.land v m1);
      let v := next_cursor v m1 in
      if negb (Z.land v (Z.lxor m0 m1) =? 0)
      then '(out, v) ← scan_larger fuel h1 v m0 m1; Some (emit de ++ out, v)
      else Some (emit de, v)
  end.

Definition dictScan (d : dict K V) (v : Z) : option (dict K V * list (dictEntry K V) * Z) :=
  if dictSize d =? 0 then Some (d, [], 0)
  else
    let d := dictPauseRehashing d in
    if negb (dictIsRehashing d) then
      let m0 := DICTHT_SIZE_MASK (ht_size_exp (ht0 d)) in
      de ← bucket (ht0 d) (Z.land v m0);
      Some (dictResumeRehashing d, emit de, next_cursor v m0)
    else
      let swap := DICTHT_SIZE (ht_size_exp (ht1 d)) <? DICTHT_SIZE (ht_size_exp (ht0 d)) in
      let h0 := ht_of d swap in
      let h1 := ht_of d (negb swap) in
      let m0 := DICTHT_SIZE_MASK (ht_size_exp h0) in
      let m1 := DICTHT_SIZE_MASK (ht_size_exp h1) in
      de ← bucket h0 (Z.land v m0);
      '(out, v) ← scan_larger (S (Z.to_nat m1)) h1 v m0 m1;
      Some (dictResumeRehashing d, emit de ++ out, v).

(** The calls of one iteration, each on the state the dictionary has then. *)
Fixpoint scan_run (ds : list (dict K V)) (v : Z) : option (list (dictEntry K V) * Z) :=
  match ds with
  | [] => Some ([], v)
  | d :: ds =>
      '(_, out, v) ← dictScan d v;
      '(outs, v) ← scan_run ds v;
      Some (out ++ outs, v)
  end.
End scan.

(** ** Bit reversal *)

Lemma ones64 i : 0 <= i < 64 -> Z.testbit ULLONG_MAX i = true.
Proof. intros H. change ULLONG_MAX with (Z.ones 64). by apply Z.ones_spec_low. Qed.

Lemma not64_testbit x i : 0 <= i < 64 -> Z.testbit (not64 x) i = negb (Z.testbit x i).
Proof. intros H. unfold not64. rewrite Z.lxor_spec, ones64 by done. by destruct (Z.testbit x i). Qed.

Lemma testbit_high v i n : 0 <= v < 2 ^ n -> n <= i -> Z.testbit v i = false.
Proof.
  intros Hv Hi. destruct (Z.eq_dec v 0) as [-> |]; [apply Z.bits_0 |]. apply Z.bits_above_log2; [lia |].
  apply Z.log2_lt_pow2; [lia |]. assert (2 ^ n <= 2 ^ i); [| lia]. apply Z.pow_le_mono_r; lia.
Qed.

Lemma u64_testbit v i : 0 <= i < 64 -> Z.testbit (u64 v) i = Z.testbit v i.
Proof. intros H. unfold u64. change 18446744073709551616 with (2 ^ 64). apply Z.mod_pow2_bits_low. lia. Qed.

Lemma bits_range v : 0 <= v -> (forall i, 64 <= i -> Z.testbit v i = false) -> v < 2 ^ 64.
Proof.
  intros Hv H. destruct (Z_lt_le_dec v (2 ^ 64)) as [| Hge]; [done |]. exfalso.
  assert (0 < v) as Hpos by lia. pose proof (Z.bit_log2 v Hpos) as Hb.
  rewrite H in Hb; [done |]. apply Z.log2_le_pow2; lia.
Qed.

Lemma bits_eq64 a b : 0 <= a < 2 ^ 64 -> 0 <= b < 2 ^ 64 -> (forall i, 0 <= i < 64 -> Z.testbit a i = Z.testbit b i) -> a = b.
Proof.
  intros Ha Hb H. apply Z.bits_inj'. intros i Hi. destruct (Z_lt_le_dec i 64); [by apply H |].
  by rewrite !(testbit_high _ i 64).
Qed.

(** Where a bit comes from. *)
Definition stage_src (s mask i : Z) : Z := if Z.testbit mask i then i + s else i - s.

Lemma rev_stage_ok s mask v : 0 <= s -> 0 <= mask < 2 ^ 64 -> 0 <= v < 2 ^ 64 ->
  0 <= rev_stage s mask v < 2 ^ 64 /\
  forall i, 0 <= i < 64 -> Z.testbit (rev_stage s mask v) i = Z.testbit v (stage_src s mask i).
Proof.
  intros Hs Hm Hv. unfold rev_stage. split.
  - assert (0 <= u64 (Z.shiftl v s) < 2 ^ 64) as Hu by (apply Z.mod_pos_bound; lia).
    assert (0 <= Z.lor (Z.land (Z.shiftr v s) mask) (Z.land (u64 (Z.shiftl v s)) (not64 mask))) as Hpos.
    { apply Z.lor_nonneg. split; apply Z.land_nonneg; [right; lia | left; lia]. }
    split; [done |]. apply bits_range; [done |]. intros i Hi. rewrite Z.lor_spec, !Z.land_spec.
    rewrite (testbit_high mask i 64), (testbit_high (u64 _) i 64) by done. by rewrite andb_false_r.
  - intros i Hi. rewrite Z.lor_spec, !Z.land_spec, not64_testbit, u64_testbit by done.
    rewrite Z.shiftr_spec, Z.shiftl_spec by lia. unfold stage_src.
    destruct (Z.testbit mask i); cbn [negb]; by rewrite ?andb_true_r, ?andb_false_r, ?orb_false_r.
Qed.

(** The six stages with their masks. *)
Lemma rev_stages v : rev v =
  rev_stage 1 0x5555555555555555 (rev_stage 2 0x3333333333333333 (rev_stage 4 0x0F0F0F0F0F0F0F0F
    (rev_stage 8 0x00FF00FF00FF00FF (rev_stage 16 0x0000FFFF0000FFFF (rev_stage 32 0x00000000FFFFFFFF v))))).
Proof. reflexivity. Qed.

Definition stage_path (i : Z) : list Z :=
  let a := stage_src 1 0x5555555555555555 i in let b := stage_src 2 0x3333333333333333 a in
  let c := stage_src 4 0x0F0F0F0F0F0F0F0F b in let d := stage_src 8 0x00FF00FF00FF00FF c in
  let e := stage_src 16 0x0000FFFF0000FFFF d in [a; b; c; d; e; stage_src 32 0x00000000FFFFFFFF e].

Lemma stage_paths i : 0 <= i < 64 -> Forall (fun j => 0 <= j < 64) (stage_path i) /\ last (stage_path i) = Some (63 - i).
Proof.
  intros Hi. assert (forallb (fun n => let i := Z.of_nat n in
    forallb (fun j => (0 <=? j) && (j <? 64)) (stage_path i) && bool_decide (last (stage_path i) = Some (63 - i))) (seq 0 64) = true) as H
    by (vm_compute; reflexivity).
  rewrite forallb_forall in H. specialize (H (Z.to_nat i)). cbv zeta in H. rewrite Z2Nat.id in H by lia.
  assert (In (Z.to_nat i) (seq 0 64)) as Hin by (apply in_seq; lia). specialize (H Hin).
  apply andb_true_iff in H as [H1 H2]. apply bool_decide_eq_true in H2. split; [| done].
  rewrite forallb_forall in H1. apply Forall_forall. intros j Hj. apply list_elem_of_In, H1 in Hj. lia.
Qed.

Lemma rev_ok v : 0 <= v < 2 ^ 64 ->
  0 <= rev v < 2 ^ 64 /\ forall i, 0 <= i < 64 -> Z.testbit (rev v) i = Z.testbit v (63 - i).
Proof.
  intros Hv. rewrite rev_stages.
  destruct (rev_stage_ok 32 0x00000000FFFFFFFF v) as [R1 T1]; [done.. |].
  destruct (rev_stage_ok 16 0x0000FFFF0000FFFF _ ltac:(done) ltac:(done) R1) as [R2 T2].
  destruct (rev_stage_ok 8 0x00FF00FF00FF00FF _ ltac:(done) ltac:(done) R2) as [R3 T3].
  destruct (rev_stage_ok 4 0x0F0F0F0F0F0F0F0F _ ltac:(done) ltac:(done) R3) as [R4 T4].
  destruct (rev_stage_ok 2 0x3333333333333333 _ ltac:(done) ltac:(done) R4) as [R5 T5].
  destruct (rev_stage_ok 1 0x5555555555555555 _ ltac:(done) ltac:(done) R5) as [R6 T6].
  split; [exact R6 |]. intros i Hi. destruct (stage_paths i Hi) as [Hp Hl].
  unfold stage_path in Hp, Hl. cbv zeta in Hp, Hl.
  repeat match type of Hp with Forall _ (_ :: _) => apply Forall_cons in Hp as [? Hp] end.
  rewrite T6, T5, T4, T3, T2, T1 by done. cbn [last] in Hl. injection Hl as ->. done.
Qed.

Lemma rev_range v : 0 <= v < 2 ^ 64 -> 0 <= rev v < 2 ^ 64.
Proof. intros H. by apply rev_ok. Qed.
Lemma rev_testbit v i : 0 <= v < 2 ^ 64 -> 0 <= i < 64 -> Z.testbit (rev v) i = Z.testbit v (63 - i).
Proof. intros H. by apply rev_ok. Qed.

Lemma rev_rev v : 0 <= v < 2 ^ 64 -> rev (rev v) = v.
Proof.
  intros H. pose proof (rev_range v H) as H1. apply bits_eq64; [by apply rev_range | done |].
  intros i Hi. rewrite !rev_testbit by (done || lia). f_equal. lia.
Qed.

(** ** The reversed cursor *)

Definition up (B r : Z) : Z := r / B * B + B.

Lemma mask_ones e : 0 <= e <= 60 -> DICTHT_SIZE_MASK e = Z.ones e.
Proof.
  intros He. unfold DICTHT_SIZE_MASK. rewrite (proj2 (Z.eqb_neq e (-1))), size_pow by lia. rewrite Z.ones_equiv. lia.
Qed.

Lemma ones_testbit n i : 0 <= n -> 0 <= i -> Z.testbit (Z.ones n) i = (i <? n).
Proof.
  intros Hn Hi. destruct (Z.ltb_spec i n); [by apply Z.ones_spec_low | apply Z.ones_spec_high; lia].
Qed.

(** Setting the low bits reaches the end of the interval. *)
Lemma lor_ones r k : 0 <= k -> 0 <= r -> Z.lor r (Z.ones k) = up (2 ^ k) r - 1.
Proof.
  intros Hk Hr. assert (up (2 ^ k) r - 1 = Z.ones k + r / 2 ^ k * 2 ^ k) as -> by (unfold up; rewrite Z.ones_equiv; lia).
  rewrite <- lor_add_shift; [| done | rewrite Z.ones_equiv; lia].
  apply Z.bits_inj'. intros i Hi. rewrite !Z.lor_spec, ones_testbit by done.
  destruct (Z.ltb_spec i k); [by rewrite orb_true_r |].
  rewrite Z.mul_pow2_bits, Z.div_pow2_bits by lia. cbn [orb]. rewrite orb_false_r. f_equal. lia.
Qed.

Lemma lor_range v w : 0 <= v < 2 ^ 64 -> 0 <= w < 2 ^ 64 -> 0 <= Z.lor v w < 2 ^ 64.
Proof.
  intros Hv Hw. assert (0 <= Z.lor v w) by (apply Z.lor_nonneg; lia). split; [done |]. apply bits_range; [done |].
  intros i Hi. by rewrite Z.lor_spec, !(testbit_high _ i 64).
Qed.

Lemma not64_range x : 0 <= x < 2 ^ 64 -> 0 <= not64 x < 2 ^ 64.
Proof.
  intros Hx. unfold not64. assert (0 <= Z.lxor x ULLONG_MAX) by (apply Z.lxor_nonneg; unfold ULLONG_MAX; lia).
  split; [done |]. apply bits_range; [done |]. intros i Hi. rewrite Z.lxor_spec, !(testbit_high _ i 64); done.
Qed.

Lemma next_cursor_ok v e : 0 <= e <= 60 -> 0 <= v < 2 ^ 64 ->
  0 <= next_cursor v (Z.ones e) < 2 ^ 64 /\ rev (next_cursor v (Z.ones e)) = u64 (up (2 ^ (64 - e)) (rev v)).
Proof.
  intros He Hv. unfold next_cursor. cbv zeta. pose proof (rev_range v Hv) as Hr.
  assert (0 <= Z.ones e < 2 ^ 64) as Ho.
  { rewrite Z.ones_equiv. pose proof (pow_exp_bounds e He). assert (2 ^ 61 < 2 ^ 64) by done. lia. }
  pose proof (not64_range _ Ho) as Hn. pose proof (lor_range v _ Hv Hn) as Hl. set (w := Z.lor v (not64 (Z.ones e))) in *.
  assert (rev w = up (2 ^ (64 - e)) (rev v) - 1) as ->.
  { rewrite <- lor_ones by lia. apply bits_eq64; [by apply rev_range | |].
    - apply lor_range; [done |]. rewrite Z.ones_equiv. assert (2 ^ (64 - e) <= 2 ^ 64) by (apply Z.pow_le_mono_r; lia).
      pose proof (Z.pow_pos_nonneg 2 (64 - e)). lia.
    - intros i Hi. unfold w. rewrite rev_testbit, !Z.lor_spec, not64_testbit, rev_testbit, !ones_testbit by (done || lia).
      f_equal. destruct (Z.ltb_spec i (64 - e)), (Z.ltb_spec (63 - i) e); cbn; done || lia. }
  rewrite Z.sub_add. assert (0 <= u64 (up (2 ^ (64 - e)) (rev v)) < 2 ^ 64) as Hu by (apply Z.mod_pos_bound; lia).
  split; [by apply rev_range | by apply rev_rev].
Qed.

(** A hash in the interval selects the bucket of the cursor. *)
Lemma same_bucket e v h : 0 <= e <= 60 -> 0 <= v < 2 ^ 64 -> 0 <= h < 2 ^ 64 ->
  rev h / 2 ^ (64 - e) = rev v / 2 ^ (64 - e) -> h mod 2 ^ e = v mod 2 ^ e.
Proof.
  intros He Hv Hh E. apply Z.bits_inj'. intros i Hi.
  destruct (Z_lt_le_dec i e) as [Hlt | Hge]; [| by rewrite !Z.mod_pow2_bits_high by lia].
  rewrite !Z.mod_pow2_bits_low by lia.
  assert (Z.testbit (rev h / 2 ^ (64 - e)) (e - 1 - i) = Z.testbit (rev v / 2 ^ (64 - e)) (e - 1 - i)) as Hb by (by rewrite E).
  rewrite !Z.div_pow2_bits in Hb by lia. replace (e - 1 - i + (64 - e)) with (63 - i) in Hb by lia.
  rewrite !rev_testbit in Hb by (done || lia). by replace (63 - (63 - i)) with i in Hb by lia.
Qed.

(** The loop over the larger table goes on inside the interval of the smaller. *)
Lemma land_masks e0 e1 v : 0 <= e0 -> e0 < e1 <= 60 -> 0 <= v < 2 ^ 64 -> rev v mod 2 ^ (64 - e1) = 0 ->
  Z.land v (Z.lxor (Z.ones e0) (Z.ones e1)) = 0 <-> rev v mod 2 ^ (64 - e0) = 0.
Proof.
  intros H0 H1 Hv Hlow. split; intros H.
  - apply Z.bits_inj'. intros i Hi. rewrite Z.bits_0.
    destruct (Z_lt_le_dec i (64 - e0)); [| by rewrite Z.mod_pow2_bits_high by lia].
    rewrite Z.mod_pow2_bits_low by lia. destruct (Z_lt_le_dec i (64 - e1)) as [Hlt | Hge].
    + rewrite <- (Z.mod_pow2_bits_low (rev v) (64 - e1)) by lia. by rewrite Hlow, Z.bits_0.
    + assert (Z.testbit (Z.land v (Z.lxor (Z.ones e0) (Z.ones e1))) (63 - i) = false) as Hb by (by rewrite H, Z.bits_0).
      rewrite Z.land_spec, Z.lxor_spec, !ones_testbit in Hb by lia.
      rewrite (proj2 (Z.ltb_ge (63 - i) e0)), (proj2 (Z.ltb_lt (63 - i) e1)) in Hb by lia.
      rewrite rev_testbit by (done || lia). by rewrite andb_true_r in Hb.
  - apply Z.bits_inj'. intros i Hi. rewrite Z.bits_0, Z.land_spec, Z.lxor_spec, !ones_testbit by lia.
    destruct (Z.ltb_spec i e0), (Z.ltb_spec i e1); cbn [xorb]; rewrite ?andb_false_r; try done; [lia |].
    rewrite andb_true_r. assert (Z.testbit (rev v mod 2 ^ (64 - e0)) (63 - i) = false) as Hb by (by rewrite H, Z.bits_0).
    rewrite Z.mod_pow2_bits_low, rev_testbit in Hb by (done || lia). by replace (63 - (63 - i)) with i in Hb by lia.
Qed.

Lemma up_bounds B r : 0 < B -> r < up B r <= r + B /\ up B r mod B = 0.
Proof.
  intros HB. unfold up. pose proof (Z.mul_div_le r B HB). pose proof (Z.mod_pos_bound r B HB).
  pose proof (Z.div_mod r B ltac:(lia)). split; [lia |]. rewrite <- Z.mul_succ_l. apply Z.mod_mul. lia.
Qed.

Lemma div_interval B r x : 0 < B -> r <= x < up B r -> x / B = r / B.
Proof.
  intros HB H. unfold up in H. pose proof (Z.mul_div_le r B HB). symmetry.
  apply (Z.div_unique_pos x B _ (x - B * (r / B))); lia.
Qed.

(** Stepping by the small interval stays in the big one. *)
Lemma up_nested B1 c r : 0 < B1 -> 0 < c -> up B1 r <= up (B1 * c) r.
Proof.
  intros H1 Hc. unfold up. rewrite <- Z.div_div by lia. set (q := r / B1).
  pose proof (Z.div_mod q c ltac:(lia)). pose proof (Z.mod_pos_bound q c Hc). nia.
Qed.

Lemma up_step B1 c r : 0 < B1 -> 0 < c -> up B1 r mod (B1 * c) <> 0 -> up (B1 * c) (up B1 r) = up (B1 * c) r.
Proof.
  intros H1 Hc Hne. pose proof (up_nested B1 c r H1 Hc) as Hle. destruct (up_bounds B1 r H1) as [[Hlt _] _].
  assert (up B1 r <> up (B1 * c) r) as Hneq.
  { intros E. apply Hne. rewrite E. apply up_bounds. nia. }
  unfold up at 1. rewrite (div_interval (B1 * c) r (up B1 r)); [done | nia | lia].
Qed.

Lemma up_last B1 c r : 0 < B1 -> 0 < c -> up B1 r mod (B1 * c) = 0 -> up B1 r = up (B1 * c) r.
Proof.
  intros H1 Hc E. pose proof (up_nested B1 c r H1 Hc) as Hle. destruct (up_bounds B1 r H1) as [[Hlt _] _].
  assert (0 < B1 * c) as HB by nia. destruct (up_bounds (B1 * c) r HB) as [_ E2].
  apply Z.mod_divide in E as [x Ex]; [| lia]. apply Z.mod_divide in E2 as [y Ey]; [| lia].
  pose proof (Z.mul_div_le r (B1 * c) HB). pose proof (Z.div_mod r (B1 * c) ltac:(lia)). pose proof (Z.mod_pos_bound r (B1 * c) HB).
  assert (y = r / (B1 * c) + 1) by (unfold up in Ey; nia). assert (r / (B1 * c) < x) by nia. nia.
Qed.

(** ** A call *)

Section calls.
Context {K V : Type} (t : dictType K V) {Ht : DictTypeOk t}.
Implicit Types (k : K) (d : dict K V) (h : ht K V) (out : list (dictEntry K V)) (l : list (K * option V)).

(** The elements whose reversed hash is in the interval are among the entries
    the callback was given; the entries given are elements. *)
Definition emits out l lo hi : Prop :=
  forall kv, kv ∈ l -> lo <= rev (hashFunction t kv.1) < hi -> exists de, de ∈ out /\ dictGetKey de = Some kv.1.
Definition emits_only out l : Prop := forall de, de ∈ out -> exists kv, kv ∈ l /\ dictGetKey de = Some kv.1.

Lemma emit_entries (de : dictEntry K V) : Forall2 (fun x (kv : K * option V) => dictGetKey x = Some kv.1) (emit de) (entries de).
Proof. induction de; cbn [emit entries]; repeat constructor; done. Qed.

Lemma emit_entry (de : dictEntry K V) kv : kv ∈ entries de -> exists x, x ∈ emit de /\ dictGetKey x = Some kv.1.
Proof.
  intros H. apply list_elem_of_lookup in H as [i Hi]. destruct (Forall2_lookup_r _ _ _ _ _ (emit_entries de) Hi) as (x & Hx & E).
  exists x. split; [by eapply list_elem_of_lookup_2 | done].
Qed.

Lemma emit_entry_only (de : dictEntry K V) x : x ∈ emit de -> exists kv, kv ∈ entries de /\ dictGetKey x = Some kv.1.
Proof.
  intros H. apply list_elem_of_lookup in H as [i Hi]. destruct (Forall2_lookup_l _ _ _ _ _ (emit_entries de) Hi) as (kv & Hx & E).
  exists kv. split; [by eapply list_elem_of_lookup_2 | done].
Qed.

Lemma entries_in_tab (tab : list (dictEntry K V)) i de kv : tab !! i = Some de -> kv ∈ entries de -> kv ∈ tab_elems tab.
Proof.
  intros Hi Hkv. unfold tab_elems. apply list_elem_of_In, in_concat. exists (entries de).
  split; [apply in_map, list_elem_of_In; by eapply list_elem_of_lookup_2 | by apply list_elem_of_In].
Qed.

Lemma tab_in_entries (tab : list (dictEntry K V)) kv : kv ∈ tab_elems tab -> exists i de, tab !! i = Some de /\ kv ∈ entries de.
Proof.
  intros H. apply list_elem_of_In, in_concat in H as (l & Hl & Hkv). apply in_map_iff in Hl as (de & <- & Hde).
  apply list_elem_of_In, list_elem_of_lookup in Hde as [i Hi]. exists i, de. split; [done | by apply list_elem_of_In].
Qed.

(** The bucket of the cursor holds what the interval selects. *)
Lemma visit_ok h tab e v : ht_ok t h tab e -> 0 <= v < 2 ^ 64 ->
  exists de, bucket h (Z.land v (DICTHT_SIZE_MASK e)) = Some de /\
    emits (emit de) (tab_elems tab) (rev v) (up (2 ^ (64 - e)) (rev v)) /\ emits_only (emit de) (tab_elems tab).
Proof.
  intros Hht Hv. destruct Hht as [Eh Hok] eqn:Eht. clear Eht. pose proof Hok as (He & Hl & Hb). rewrite (land_mask e) by done.
  destruct (bucket_ok t h tab e v Hht) as (de & Eb & Ei & _). exists de. split; [done |]. split.
  - intros kv Hkv Hrev. apply tab_in_entries in Hkv as (j & de' & Ej & Hkv). destruct (Hb j de' Ej) as [_ Hin].
    rewrite Forall_forall in Hin. specialize (Hin kv Hkv). unfold in_bucket in Hin.
    rewrite (same_bucket e v (hashFunction t kv.1)) in Hin; [| done | done | apply hash_range |].
    + assert (j = Z.to_nat (v mod 2 ^ e)) as -> by lia. rewrite Ei in Ej. injection Ej as <-. by apply emit_entry.
    + apply div_interval; [apply Z.pow_pos_nonneg; lia | done].
  - intros x Hx. apply emit_entry_only in Hx as (kv & Hkv & E). exists kv. split; [by eapply entries_in_tab | done].
Qed.

Lemma emits_app out1 out2 l lo mid hi : emits out1 l lo mid -> emits out2 l mid hi -> emits (out1 ++ out2) l lo hi.
Proof.
  intros H1 H2 kv Hkv Hr. destruct (Z_lt_le_dec (rev (hashFunction t kv.1)) mid).
  - destruct (H1 kv Hkv) as (de & Hde & E); [lia |]. exists de. split; [apply elem_of_app; by left | done].
  - destruct (H2 kv Hkv) as (de & Hde & E); [lia |]. exists de. split; [apply elem_of_app; by right | done].
Qed.

Lemma emits_both out1 out2 l1 l2 lo hi : emits out1 l1 lo hi -> emits out2 l2 lo hi -> emits (out1 ++ out2) (l1 ++ l2) lo hi.
Proof.
  intros H1 H2 kv Hkv Hr. apply elem_of_app in Hkv as [Hkv | Hkv]; [destruct (H1 kv Hkv Hr) as (de & ? & E) | destruct (H2 kv Hkv Hr) as (de & ? & E)];
    exists de; (split; [apply elem_of_app; tauto | done]).
Qed.

Lemma emits_only_app out1 out2 l : emits_only out1 l -> emits_only out2 l -> emits_only (out1 ++ out2) l.
Proof. intros H1 H2 de Hde. apply elem_of_app in Hde as [Hde | Hde]; [by apply H1 | by apply H2]. Qed.

Lemma emits_only_mono out l l' : emits_only out l -> (forall x, x ∈ l -> x ∈ l') -> emits_only out l'.
Proof. intros H Hl de Hde. destruct (H de Hde) as (kv & Hkv & E). eauto. Qed.

Lemma emits_perm out l l' lo hi : (forall x, x ∈ l' -> x ∈ l) -> emits out l lo hi -> emits out l' lo hi.
Proof. intros Hl H kv Hkv. apply H. by apply Hl. Qed.

Lemma u64_up B r : 0 <= r < 2 ^ 64 -> 0 < B -> (B | 2 ^ 64) ->
  (u64 (up B r) = up B r /\ up B r < 2 ^ 64) \/ (u64 (up B r) = 0 /\ up B r = 2 ^ 64).
Proof.
  intros Hr HB [c Hc]. assert (up B r <= 2 ^ 64) as Hle.
  { unfold up. assert (r / B < c) by (apply Z.div_lt_upper_bound; lia). nia. }
  destruct (up_bounds B r HB) as [[Hlt _] _]. destruct (Z.eq_dec (up B r) (2 ^ 64)) as [E | E].
  - right. rewrite E. done.
  - left. split; [apply u64_id; unfold is_u64; lia | lia].
Qed.

Lemma pow_divide e : 0 <= e <= 64 -> (2 ^ (64 - e) | 2 ^ 64).
Proof. intros He. exists (2 ^ e). rewrite <- Z.pow_add_r by lia. f_equal. lia. Qed.

Lemma scan_larger_ok h tab e0 e1 : ht_ok t h tab e1 -> 0 <= e0 < e1 -> forall fuel v, 0 <= v < 2 ^ 64 ->
  up (2 ^ (64 - e0)) (rev v) - rev v / 2 ^ (64 - e1) * 2 ^ (64 - e1) <= Z.of_nat fuel * 2 ^ (64 - e1) ->
  exists out v', scan_larger fuel h v (DICTHT_SIZE_MASK e0) (DICTHT_SIZE_MASK e1) = Some (out, v') /\
    0 <= v' < 2 ^ 64 /\ rev v' = u64 (up (2 ^ (64 - e0)) (rev v)) /\
    emits out (tab_elems tab) (rev v) (up (2 ^ (64 - e0)) (rev v)) /\ emits_only out (tab_elems tab).
Proof.
  intros Hht He. pose proof (proj1 (proj2 Hht)) as He1.
  set (B1 := 2 ^ (64 - e1)). set (c := 2 ^ (e1 - e0)). assert (2 ^ (64 - e0) = B1 * c) as EB by (unfold B1, c; rewrite <- Z.pow_add_r by lia; f_equal; lia).
  assert (0 < B1) as HB1 by (apply Z.pow_pos_nonneg; lia). assert (0 < c) as Hc by (apply Z.pow_pos_nonneg; lia).
  rewrite EB. induction fuel as [| fuel IH]; intros v Hv Hfuel.
  { exfalso. destruct (up_bounds (B1 * c) (rev v) ltac:(nia)) as [[? _] _]. pose proof (Z.mul_div_le (rev v) B1 HB1). fold B1 in Hfuel. lia. }
  cbn [scan_larger]. destruct (visit_ok h tab e1 v Hht Hv) as (de & -> & Hem & Hon). cbn [mbind option_bind]. fold B1 in Hem.
  rewrite (mask_ones e1), (mask_ones e0) by lia. destruct (next_cursor_ok v e1 He1 Hv) as [Hv1 Er]. fold B1 in Er.
  set (v1 := next_cursor v (Z.ones e1)) in *. pose proof (rev_range v Hv) as Hr.
  assert (rev v1 mod B1 = 0) as Hlow.
  { rewrite Er. destruct (u64_up B1 (rev v) Hr HB1 (pow_divide e1 ltac:(lia))) as [[-> _] | [-> _]]; [by apply up_bounds | done]. }
  pose proof (land_masks e0 e1 v1 ltac:(lia) ltac:(lia) Hv1 Hlow) as Hland. rewrite EB in Hland.
  destruct (Z.eqb_spec (Z.land v1 (Z.lxor (Z.ones e0) (Z.ones e1))) 0) as [E0 | E0]; cbn [negb].
  - apply Hland in E0. assert (up B1 (rev v) = up (B1 * c) (rev v)) as Eup.
    { apply up_last; [done | done |]. destruct (u64_up B1 (rev v) Hr HB1 (pow_divide e1 ltac:(lia))) as [[E _] | [_ ->]].
      - by rewrite <- E, <- Er.
      - apply Z.mod_divide; [nia |]. rewrite <- EB. apply pow_divide. lia. }
    exists (emit de), v1. rewrite <- Eup. done.
  - rewrite Hland in E0. destruct (u64_up B1 (rev v) Hr HB1 (pow_divide e1 ltac:(lia))) as [[E Hlt] | [E _]]; rewrite E in Er; rewrite Er in E0; [| done].
    pose proof (up_step B1 c (rev v) HB1 Hc E0) as Eup. rewrite <- (mask_ones e1), <- (mask_ones e0) by lia.
    destruct (IH v1 Hv1) as (out & v' & -> & Hv' & Er' & Hem' & Hon').
    { rewrite Er, Eup. fold B1 in Hfuel |- *. destruct (up_bounds B1 (rev v) HB1) as [_ Em]. apply Z.mod_divide in Em as [q Eq]; [| lia].
      rewrite Eq, Z.div_mul, <- Eq by lia. unfold up at 2. lia. }
    cbn [mbind option_bind]. exists (emit de ++ out), v'. rewrite Er, Eup in *. split; [done |]. split; [done |]. split; [done |].
    split; [by eapply emits_app | by apply emits_only_app].
Qed.
Lemma resume_pause d : dictResumeRehashing (dictPauseRehashing d) = d.
Proof. destruct d. unfold dictResumeRehashing, dictPauseRehashing. cbn. f_equal. lia. Qed.

Lemma dictScan_ok d v : wf t d -> 0 <= v < 2 ^ 64 ->
  exists out v', dictScan d v = Some (d, out, v') /\ 0 <= v' < 2 ^ 64 /\ emits_only out (elems d) /\
    ((elems d = [] /\ v' = 0) \/
     exists e, 0 <= e <= ht_size_exp (ht0 d) /\ e <= 60 /\ rev v' = u64 (up (2 ^ (64 - e)) (rev v)) /\
       emits out (elems d) (rev v) (up (2 ^ (64 - e)) (rev v))).
Proof.
  intros (Hd & _ & Hlen) Hv. unfold dictScan. pose proof (dictSize_ok t d Hd Hlen) as Esz.
  destruct (Z.eqb_spec (dictSize d) 0) as [E0 | E0].
  { rewrite E0 in Esz. symmetry in Esz. apply zlen_0 in Esz. exists [], 0. split; [done |]. split; [done |].
    split; [intros ? H; by apply not_elem_of_nil in H |]. by left. }
  cbv zeta. rewrite !resume_pause. cbn [dictPauseRehashing ht0 ht1]. change (dictIsRehashing (dictPauseRehashing d)) with (dictIsRehashing d).
  destruct Hd as [(Eri & E1 & [Er | (tab & e & Hht)]) | (tab0 & e0 & tab1 & e1 & H0 & H1 & Hne & Hi & _)].
  - exfalso. apply E0. rewrite Esz. unfold elems. by rewrite Er, E1.
  - assert (dictIsRehashing d = false) as -> by (unfold dictIsRehashing; by rewrite Eri). cbn [negb].
    pose proof Hht as [Eh (He & _)]. assert (ht_size_exp (ht0 d) = e) as Ee by (by rewrite Eh). rewrite Ee.
    assert (elems d = tab_elems tab) as Eel by (unfold elems; rewrite (proj1 (ht_elems_ok _ _ _ _ Hht)), E1; apply app_nil_r).
    destruct (visit_ok (ht0 d) tab e v Hht Hv) as (de & -> & Hem & Hon). cbn [mbind option_bind]. rewrite mask_ones by done.
    destruct (next_cursor_ok v e He Hv) as [Hv' Er']. eexists _, _. split; [reflexivity |]. split; [done |].
    rewrite Eel. split; [done |]. right. exists e. split; [lia |]. split; [lia |]. by split.
  - assert (dictIsRehashing d = true) as -> by (apply is_rehashing; lia). cbn [negb].
    pose proof H0 as [Eh0 (He0 & _)]. pose proof H1 as [Eh1 (He1 & _)].
    assert (ht_size_exp (ht0 d) = e0) as Ee0 by (by rewrite Eh0). assert (ht_size_exp (ht1 d) = e1) as Ee1 by (by rewrite Eh1).
    rewrite Ee0, Ee1, !size_pow by done. set (swap := 2 ^ e1 <? 2 ^ e0).
    assert (exists ta ea tb eb, ht_ok t (ht_of d swap) ta ea /\ ht_ok t (ht_of d (negb swap)) tb eb /\ ea < eb /\ 0 <= ea <= e0 /\
      ht_size_exp (ht_of d swap) = ea /\ ht_size_exp (ht_of d (negb swap)) = eb /\ eb <= 60 /\
      forall x, x ∈ elems d <-> x ∈ tab_elems ta ++ tab_elems tb) as (ta & ea & tb & eb & Ha & Hb & Hlt & Hea & Exa & Exb & Heb & Hel).
    { pose proof (proj1 (ht_elems_ok _ _ _ _ H0)) as El0. pose proof (proj1 (ht_elems_ok _ _ _ _ H1)) as El1.
      unfold elems. rewrite El0, El1. unfold swap. destruct (Z.ltb_spec (2 ^ e1) (2 ^ e0)) as [Hlt | Hge].
      - apply Z.pow_lt_mono_r_iff in Hlt; [| lia | lia]. exists tab1, e1, tab0, e0. cbn [negb ht_of].
        split; [done |]. split; [done |]. split; [lia |]. split; [lia |]. split; [done |]. split; [done |]. split; [lia |].
        intros x. rewrite !elem_of_app. tauto.
      - apply Z.pow_le_mono_r_iff in Hge; [| lia | lia]. exists tab0, e0, tab1, e1. cbn [negb ht_of].
        split; [done |]. split; [done |]. split; [lia |]. split; [lia |]. split; [done |]. split; [done |]. split; [lia | done]. }
    change (ht_of (dictPauseRehashing d)) with (ht_of d). rewrite Exa, Exb.
    destruct (visit_ok _ ta ea v Ha Hv) as (de & -> & Hem & Hon). cbn [mbind option_bind].
    destruct (scan_larger_ok _ tb ea eb Hb ltac:(lia) (S (Z.to_nat (DICTHT_SIZE_MASK eb))) v Hv) as (out & v' & -> & Hv' & Er' & Hem' & Hon').
    { rewrite mask_ones, Nat2Z.inj_succ, Z2Nat.id, Z.ones_equiv by (rewrite ?Z.ones_equiv; pose proof (pow_exp_bounds eb); lia).
      set (B1 := 2 ^ (64 - eb)). assert (0 < B1) by (apply Z.pow_pos_nonneg; lia).
      assert (2 ^ (64 - ea) = B1 * 2 ^ (eb - ea)) as EB by (unfold B1; rewrite <- Z.pow_add_r by lia; f_equal; lia).
      assert (2 ^ (eb - ea) <= 2 ^ eb) as Hle by (apply Z.pow_le_mono_r; lia).
      pose proof (Z.pow_pos_nonneg 2 (eb - ea) ltac:(lia) ltac:(lia)).
      assert (rev v / 2 ^ (64 - ea) * 2 ^ (64 - ea) <= rev v / B1 * B1).
      { rewrite EB, <- Z.div_div by lia. set (q := rev v / B1). pose proof (Z.mul_div_le q (2 ^ (eb - ea)) ltac:(lia)). nia. }
      unfold up. rewrite EB in *. nia. }
    cbn [mbind option_bind]. exists (emit de ++ out), v'. split; [done |]. split; [done |]. split.
    + apply emits_only_app; [apply (emits_only_mono _ _ _ Hon) | apply (emits_only_mono _ _ _ Hon')]; intros x Hx; apply Hel, elem_of_app; tauto.
    + right. exists ea. split; [lia |]. split; [lia |]. split; [done |].
      eapply emits_perm; [intros x; apply Hel |]. by apply emits_both.
Qed.
End calls.

(** ** A whole iteration *)

Section iteration.
Context {K V : Type} (t : dictType K V) {Ht : DictTypeOk t}.
Implicit Types (k : K) (d : dict K V) (out : list (dictEntry K V)).

Definition present k d : Prop := exists kv, kv ∈ elems d /\ keyCompare t k kv.1 = true.
Definition returned k out : Prop := exists de k', de ∈ out /\ dictGetKey de = Some k' /\ keyCompare t k k' = true.

Lemma emits_returned out d lo hi k : emits t out (elems d) lo hi -> present k d -> lo <= rev (hashFunction t k) < hi -> returned k out.
Proof.
  intros H (kv & Hkv & Hc) Hr. rewrite (compare_hash k kv.1 Hc) in Hr. destruct (H kv Hkv Hr) as (de & Hde & E). by exists de, kv.1.
Qed.

Lemma rev_zero_inv v : 0 <= v < 2 ^ 64 -> rev v = 0 -> v = 0.
Proof. intros Hv E. rewrite <- (rev_rev v Hv), E. reflexivity. Qed.

(** Each call advances the reversed cursor by at least one bucket of the
    finest table. *)
Lemma up_progress e E r : 0 <= e <= E -> E <= 60 -> r / 2 ^ (64 - E) + 1 <= up (2 ^ (64 - e)) r / 2 ^ (64 - E).
Proof.
  intros He HE. set (B := 2 ^ (64 - E)). assert (0 < B) by (apply Z.pow_pos_nonneg; lia).
  assert (2 ^ (64 - e) = B * 2 ^ (E - e)) as EB by (unfold B; rewrite <- Z.pow_add_r by lia; f_equal; lia).
  pose proof (Z.pow_pos_nonneg 2 (E - e) ltac:(lia) ltac:(lia)).
  apply Z.div_le_lower_bound; [done |]. rewrite EB. pose proof (up_nested B (2 ^ (E - e)) r ltac:(done) ltac:(done)) as Hn.
  unfold up in Hn at 1. lia.
Qed.

Lemma scan_from (f : nat -> dict K V) (E : Z) : (forall i, wf t (f i)) -> (forall i, ht_size_exp (ht0 (f i)) <= E) -> 0 <= E <= 60 ->
  forall m i v, 0 <= v < 2 ^ 64 -> 2 ^ E - rev v / 2 ^ (64 - E) <= Z.of_nat m ->
  exists n out, (1 <= n <= m)%nat /\ scan_run (map f (seq i n)) v = Some (out, 0) /\
    (forall k, (forall j, (i <= j < i + n)%nat -> present k (f j)) -> rev v <= rev (hashFunction t k) -> returned k out) /\
    (forall de, de ∈ out -> exists j kv, (i <= j < i + n)%nat /\ kv ∈ elems (f j) /\ dictGetKey de = Some kv.1).
Proof.
  intros Hwf Hexp HE. assert (2 ^ 64 = 2 ^ E * 2 ^ (64 - E)) as E64 by (rewrite <- Z.pow_add_r by lia; f_equal; lia).
  assert (0 < 2 ^ (64 - E)) as HB by (apply Z.pow_pos_nonneg; lia).
  induction m as [| m IH]; intros i v Hv Hm.
  { exfalso. pose proof (rev_range v Hv). assert (rev v / 2 ^ (64 - E) < 2 ^ E); [apply Z.div_lt_upper_bound; lia | lia]. }
  destruct (dictScan_ok t (f i) v (Hwf i) Hv) as (out & v' & Es & Hv' & Hon & [[Eel ->] | (e & He & He60 & Er & Hem)]).
  { exists 1%nat, out. split; [lia |]. cbn [map seq scan_run]. rewrite Es. cbn [mbind option_bind]. rewrite app_nil_r. split; [done |]. split.
    - intros k Hk _. destruct (Hk i ltac:(lia)) as (kv & Hkv & _). rewrite Eel in Hkv. by apply not_elem_of_nil in Hkv.
    - intros de Hde. destruct (Hon de Hde) as (kv & Hkv & _). rewrite Eel in Hkv. by apply not_elem_of_nil in Hkv. }
  pose proof (rev_range v Hv) as Hr. specialize (Hexp i) as Hei.
  destruct (u64_up (2 ^ (64 - e)) (rev v) Hr) as [[Eu Hlt] | [Eu Eup]]; [apply Z.pow_pos_nonneg; lia | apply pow_divide; lia | |]; rewrite Eu in Er.
  - destruct (IH (S i) v' Hv') as (n & outs & Hn & Erun & Hret & Honly).
    { rewrite Er. pose proof (up_progress e E (rev v) ltac:(lia) ltac:(lia)). lia. }
    exists (S n), (out ++ outs). split; [lia |]. cbn [map seq scan_run]. rewrite Es. cbn [mbind option_bind]. rewrite Erun. split; [done |]. split.
    + intros k Hk Hge. destruct (Z_lt_le_dec (rev (hashFunction t k)) (up (2 ^ (64 - e)) (rev v))) as [Hin | Hout].
      * destruct (emits_returned _ _ _ _ k Hem (Hk i ltac:(lia)) ltac:(lia)) as (de & k' & Hde & E1 & E2).
        exists de, k'. split; [apply elem_of_app; by left | by split].
      * destruct (Hret k) as (de & k' & Hde & E1 & E2); [intros j Hj; apply Hk; lia | lia |].
        exists de, k'. split; [apply elem_of_app; by right | by split].
    + intros de Hde. apply elem_of_app in Hde as [Hde | Hde].
      * destruct (Hon de Hde) as (kv & Hkv & Ek). exists i, kv. split; [lia | by split].
      * destruct (Honly de Hde) as (j & kv & Hj & Hkv & Ek). exists j, kv. split; [lia | by split].
  - exists 1%nat, out. split; [lia |]. cbn [map seq scan_run]. rewrite Es, (rev_zero_inv v' Hv' Er). cbn [mbind option_bind]. rewrite app_nil_r.
    split; [done |]. split.
    + intros k Hk Hge. apply (emits_returned _ _ _ _ k Hem (Hk i ltac:(lia))). rewrite Eup.
      pose proof (rev_range (hashFunction t k) (hash_range k)). lia.
    + intros de Hde. destruct (Hon de Hde) as (kv & Hkv & Ek). exists i, kv. split; [lia | by split].
Qed.

(** C10: an iteration by [dictScan] ends and misses nothing.  Whatever well
    formed states the dictionary goes through between the calls (insertions,
    deletions, growth, shrinking, rehashing in any state) and whatever cursor the
    caller starts from, if no first table has more than 2^E buckets then
    after at most 2^E calls the cursor is 0 again; an iteration from 0 has then returned
    every key that was present in all those states, and it returned only
    elements of the states it visited. *)
Theorem dictScan_completes (f : nat -> dict K V) (E v : Z) :
  (forall i, wf t (f i)) -> (forall i, ht_size_exp (ht0 (f i)) <= E) -> 0 <= E <= 60 -> 0 <= v < 2 ^ 64 ->
  exists n out, (1 <= n)%nat /\ Z.of_nat n <= 2 ^ E /\ scan_run (map f (seq 0 n)) v = Some (out, 0) /\
    (forall k, (forall i, (i < n)%nat -> present k (f i)) -> v = 0 \/ rev v <= rev (hashFunction t k) -> returned k out) /\
    (forall de, de ∈ out -> exists i kv, (i < n)%nat /\ kv ∈ elems (f i) /\ dictGetKey de = Some kv.1).
Proof.
  intros Hwf Hexp HE Hv. pose proof (rev_range v Hv) as Hr.
  assert (0 <= rev v / 2 ^ (64 - E)) by (apply Z.div_pos; [lia | apply Z.pow_pos_nonneg; lia]).
  destruct (scan_from f E Hwf Hexp HE (Z.to_nat (2 ^ E)) 0 v Hv) as (n & out & Hn & E1 & Hret & Honly).
  { rewrite Z2Nat.id by (apply Z.pow_nonneg; lia). lia. }
  exists n, out. split; [lia |]. split; [lia |]. split; [done |]. split.
  - intros k Hk Hv0. apply Hret; [intros j Hj; apply Hk; lia |]. destruct Hv0 as [-> | ?]; [| done].
    change (rev 0) with 0. by apply rev_range, hash_range.
  - intros de Hde. destruct (Honly de Hde) as (j & kv & Hj & ?). exists j, kv. split; [lia | done].
Qed.
End iteration.

(** ** A concrete iteration *)

(** Rehashing goes on between the first and the second call. *)
Definition rehashed_dict : dict Z Z :=
  match run_ops (int_type false) DICT_RESIZE_ENABLE rehashing_dict [DRehash 100] with Some (d, _) => d | None => dictCreate end.
Definition growing (i : nat) : dict Z Z := match i with O => rehashing_dict | _ => rehashed_dict end.

Example growing_scan :
  match scan_run (map growing (seq 0 7)) 0 with Some (out, v) => Some (map dictGetKey out, v) | None => None end =
  Some ([Some 1; Some 9; Some 17; Some 5; Some 13], 0).
Proof. vm_compute. reflexivity. Qed.

Lemma rehashed_wf : wf (int_type false) rehashed_dict.
Proof.
  destruct (run_ops_ok (int_type false) DICT_RESIZE_ENABLE rehashing_dict (elems rehashing_dict) [DRehash 100]) as (d' & E & Hwf & _).
  - apply rehashing_wf.
  - done.
  - vm_compute. repeat (split; try reflexivity; try discriminate).
  - unfold rehashed_dict. by rewrite E.
Qed.

Lemma dictScan_completes_witness :
  exists n out, (1 <= n)%nat /\ Z.of_nat n <= 2 ^ 3 /\ scan_run (map growing (seq 0 n)) 0 = Some (out, 0) /\
    (forall k, (forall i, (i < n)%nat -> present (int_type false) k (growing i)) -> 0 = 0 \/ rev 0 <= rev (hashFunction (int_type false) k) ->
       returned (int_type false) k out) /\
    (forall de, de ∈ out -> exists i kv, (i < n)%nat /\ kv ∈ elems (growing i) /\ dictGetKey de = Some kv.1).
Proof.
  apply (dictScan_completes (int_type false) growing 3 0).
  - intros [| i]; [apply rehashing_wf | apply rehashed_wf].
  - intros [| i]; by vm_compute.
  - by split.
  - by split.
Defined.
