(* ===== verification/Rio.v ===== *)
(** rio.h, rio.c: the stream abstraction the RDB code reads and writes through.

    A back end (the function pointers of [struct _rio]) is a typeclass; what it
    promises is [BackendOk], against which the theorems about the
    RDB code are proved, and which the in-memory buffer back end satisfies. *)
From S2P Require Import Prelude.

Class Backend (B : Type) := {
  bk_read : B -> Z -> B * option (list Z);
  bk_write : B -> list Z -> B * bool }.

(** [update_cksum] is NULL or maps the checksum and a block to the new checksum. *)
Record rio (B : Type) := Rio {
  io : B;
  cksum : Z;
  read_error : bool;
  write_error : bool;
  processed_bytes : Z;
  max_processing_chunk : Z;
  update_cksum : option (Z -> list Z -> Z) }.
Arguments Rio {B}. Arguments io {B}. Arguments cksum {B}. Arguments read_error {B}. Arguments write_error {B}.
Arguments processed_bytes {B}. Arguments max_processing_chunk {B}. Arguments update_cksum {B}.

Section rio.
Context {B : Type} `{Backend B}.
Implicit Types (r : rio B).

Definition new_cksum r (bs : list Z) : Z :=
  match update_cksum r with Some f => f (cksum r) bs | None => cksum r end.

Definition chunk r (len : Z) : Z :=
  if negb (max_processing_chunk r =? 0) && (max_processing_chunk r <? len) then max_processing_chunk r else len.

(** Each turn handles at least one byte, so the length of the buffer is
    enough fuel. *)
Fixpoint rioWrite_loop (fuel : nat) (buf : list Z) : st (rio B) bool :=
  fun r =>
  if zlen buf =? 0 then Some (r, true)
  else
    match fuel with
    | O => None
    | S fuel =>
        let n := Z.to_nat (chunk r (zlen buf)) in
        let ck := new_cksum r (take n buf) in
        let '(b, ok) := bk_write (io r) (take n buf) in
        if negb ok then Some (Rio b ck (read_error r) true (processed_bytes r) (max_processing_chunk r) (update_cksum r), false)
        else
          rioWrite_loop fuel (drop n buf)
            (Rio b ck (read_error r) (write_error r) (processed_bytes r + Z.of_nat n) (max_processing_chunk r) (update_cksum r))
    end.
Definition rioWrite (buf : list Z) : st (rio B) bool :=
  fun r => if write_error r then Some (r, false) else rioWrite_loop (length buf) buf r.

(** The bytes read, or [None] for a failure. *)
Fixpoint rioRead_loop (fuel : nat) (len : Z) (buf : list Z) : st (rio B) (option (list Z)) :=
  fun r =>
  if len =? 0 then Some (r, Some buf)
  else
    match fuel with
    | O => None
    | S fuel =>
        let n := chunk r len in
        match bk_read (io r) n with
        | (b, None) => Some (Rio b (cksum r) true (write_error r) (processed_bytes r) (max_processing_chunk r) (update_cksum r), None)
        | (b, Some bs) =>
            rioRead_loop fuel (len - n) (buf ++ bs)
              (Rio b (new_cksum r bs) (read_error r) (write_error r) (processed_bytes r + n) (max_processing_chunk r) (update_cksum r))
        end
    end.
Definition rioRead (len : Z) : st (rio B) (option (list Z)) :=
  fun r => if read_error r then Some (r, None) else rioRead_loop (Z.to_nat len) len [] r.
End rio.

(** ** The in-memory buffer *)

(** The bytes of [io.buffer.ptr] and [io.buffer.pos]. *)
Record rio_buffer := RioBuffer { buf_ptr : list Z; buf_pos : Z }.

Definition rioBufferWrite (b : rio_buffer) (buf : list Z) : rio_buffer * bool :=
  (RioBuffer (buf_ptr b ++ buf) (buf_pos b + zlen buf), true).
Definition rioBufferRead (b : rio_buffer) (len : Z) : rio_buffer * option (list Z) :=
  if u64 (zlen (buf_ptr b) - buf_pos b) <? len then (b, None)
  else (RioBuffer (buf_ptr b) (buf_pos b + len), rdn (buf_ptr b) (buf_pos b) len).
#[export] Instance rioBufferIO : Backend rio_buffer := { bk_read := rioBufferRead; bk_write := rioBufferWrite }.
Definition rioInitWithBuffer (s : list Z) : rio rio_buffer := Rio (RioBuffer s 0) 0 false false 0 0 None.

(** ** What a back end promises *)

(** [bk_pending] are the bytes left to read in a state that [bk_ok] allows,
    [bk_sunk] those written so far. *)
Class BackendOk (B : Type) `{Backend B} := {
  bk_ok : B -> Prop;
  bk_pending : B -> list Z;
  bk_sunk : B -> list Z;
  bk_read_enough b n : bk_ok b -> 0 <= n <= zlen (bk_pending b) ->
    exists b', bk_read b n = (b', Some (take (Z.to_nat n) (bk_pending b))) /\ bk_ok b' /\ bk_pending b' = drop (Z.to_nat n) (bk_pending b);
  bk_read_short b n : bk_ok b -> zlen (bk_pending b) < n -> exists b', bk_read b n = (b', None);
  bk_write_sunk b bs b' : bk_write b bs = (b', true) -> bk_sunk b' = bk_sunk b ++ bs }.

Section laws.
Context {B : Type} `{BackendOk B}.
Implicit Types (r : rio B).

(** A stream that can be read: the bytes left. *)
Definition readable r (bs : list Z) : Prop :=
  read_error r = false /\ bk_ok (io r) /\ bk_pending (io r) = bs /\ 0 <= max_processing_chunk r.

Lemma chunk_bounds r len : 0 < len -> 0 <= max_processing_chunk r -> 0 < chunk r len <= len.
Proof.
  intros Hl Hm. unfold chunk. destruct (negb _ && _) eqn:E; [| lia].
  apply andb_true_iff in E as [E1 E2]. apply negb_true_iff, Z.eqb_neq in E1. apply Z.ltb_lt in E2. lia.
Qed.

Lemma rioRead_loop_enough fuel : forall len buf r bs, (Z.to_nat len <= fuel)%nat -> 0 <= len <= zlen bs -> readable r bs ->
  exists r', rioRead_loop fuel len buf r = Some (r', Some (buf ++ take (Z.to_nat len) bs)) /\ readable r' (drop (Z.to_nat len) bs).
Proof.
  induction fuel as [| fuel IH]; intros len buf r bs Hf Hlen Hr; cbn [rioRead_loop]; destruct (Z.eqb_spec len 0) as [-> | Hne]; try lia.
  - exists r. change (Z.to_nat 0) with O. rewrite take_0, drop_0, app_nil_r. done.
  - exists r. change (Z.to_nat 0) with O. rewrite take_0, drop_0, app_nil_r. done.
  - destruct Hr as (He & Hok & Hp & Hm). destruct (chunk_bounds r len ltac:(lia) Hm) as [Hc1 Hc2]. set (n := chunk r len) in *.
    destruct (bk_read_enough (io r) n Hok) as (b' & -> & Hok' & Hp'); [rewrite Hp; lia |]. rewrite Hp in *.
    destruct (IH (len - n) (buf ++ take (Z.to_nat n) bs)
      (Rio b' (new_cksum r (take (Z.to_nat n) bs)) (read_error r) (write_error r) (processed_bytes r + n) (max_processing_chunk r) (update_cksum r))
      (drop (Z.to_nat n) bs)) as (r' & -> & Hr'); [lia | rewrite zlen_drop by lia; lia | by repeat split |].
    exists r'. split.
    + rewrite <- app_assoc. do 3 f_equal. replace (Z.to_nat len) with (Z.to_nat n + Z.to_nat (len - n))%nat by lia.
      by rewrite take_take_drop.
    + rewrite drop_drop in Hr'. by replace (Z.to_nat n + Z.to_nat (len - n))%nat with (Z.to_nat len) in Hr' by lia.
Qed.

Lemma rioRead_loop_short fuel : forall len buf r bs, (Z.to_nat len <= fuel)%nat -> zlen bs < len -> readable r bs ->
  exists r', rioRead_loop fuel len buf r = Some (r', None) /\ read_error r' = true.
Proof.
  induction fuel as [| fuel IH]; intros len buf r bs Hf Hlen Hr; cbn [rioRead_loop]; destruct (Z.eqb_spec len 0) as [-> | Hne];
    pose proof (zlen_nonneg bs); try lia.
  destruct Hr as (He & Hok & Hp & Hm). destruct (chunk_bounds r len ltac:(lia) Hm) as [Hc1 Hc2]. set (n := chunk r len) in *.
  destruct (Z_lt_le_dec (zlen bs) n) as [Hlt | Hge].
  - destruct (bk_read_short (io r) n Hok) as (b' & ->); [by rewrite Hp |]. eexists. split; [reflexivity | done].
  - destruct (bk_read_enough (io r) n Hok) as (b' & -> & Hok' & Hp'); [rewrite Hp; lia |]. rewrite Hp in *.
    apply (IH (len - n) _ _ (drop (Z.to_nat n) bs)); [lia | rewrite zlen_drop by lia; lia | by repeat split].
Qed.

(** A read returns the next bytes, or fails and marks the stream. *)
Lemma rioRead_ok len r bs : 0 <= len -> readable r bs ->
  exists r' res, rioRead len r = Some (r', res) /\
    if len <=? zlen bs then res = Some (take (Z.to_nat len) bs) /\ readable r' (drop (Z.to_nat len) bs)
    else res = None /\ read_error r' = true.
Proof.
  intros Hl Hr. unfold rioRead. rewrite (proj1 Hr). destruct (Z.leb_spec len (zlen bs)).
  - destruct (rioRead_loop_enough (Z.to_nat len) len [] r bs) as (r' & -> & Hr'); [lia | lia | done |]. by eauto.
  - destruct (rioRead_loop_short (Z.to_nat len) len [] r bs) as (r' & -> & Hr'); [lia | lia | done |]. by eauto.
Qed.

Lemma rioRead_error len r : read_error r = true -> rioRead len r = Some (r, None).
Proof. intros E. unfold rioRead. by rewrite E. Qed.

Lemma rioWrite_loop_ok fuel : forall buf r, (length buf <= fuel)%nat -> write_error r = false -> 0 <= max_processing_chunk r ->
  exists r' ok, rioWrite_loop fuel buf r = Some (r', ok) /\
    if ok : bool then write_error r' = false /\ 0 <= max_processing_chunk r' /\ bk_sunk (io r') = bk_sunk (io r) ++ buf else write_error r' = true.
Proof.
  induction fuel as [| fuel IH]; intros buf r Hf Hw Hm; cbn [rioWrite_loop]; destruct (Z.eqb_spec (zlen buf) 0) as [E | Hne].
  - apply zlen_0 in E as ->. exists r, true. by rewrite app_nil_r.
  - exfalso. apply Hne. unfold zlen. lia.
  - apply zlen_0 in E as ->. exists r, true. by rewrite app_nil_r.
  - pose proof (zlen_nonneg buf). destruct (chunk_bounds r (zlen buf) ltac:(lia) Hm) as [Hc1 Hc2]. set (n := Z.to_nat (chunk r (zlen buf))) in *.
    destruct (bk_write (io r) (take n buf)) as [b' [|]] eqn:Ew; cbn [negb].
    + apply bk_write_sunk in Ew.
      destruct (IH (drop n buf) (Rio b' (new_cksum r (take n buf)) (read_error r) (write_error r) (processed_bytes r + Z.of_nat n) (max_processing_chunk r) (update_cksum r)))
        as (r' & ok & -> & Hok); [rewrite length_drop; lia | done | done |].
      exists r', ok. split; [done |]. destruct ok; [| done]. cbn [io] in Hok. rewrite Ew, <- app_assoc, take_drop in Hok. done.
    + eexists _, false. split; [reflexivity | done].
Qed.

Lemma rioWrite_ok buf r : write_error r = false -> 0 <= max_processing_chunk r ->
  exists r' ok, rioWrite buf r = Some (r', ok) /\
    if ok : bool then write_error r' = false /\ 0 <= max_processing_chunk r' /\ bk_sunk (io r') = bk_sunk (io r) ++ buf else write_error r' = true.
Proof. intros Hw Hm. unfold rioWrite. rewrite Hw. by apply rioWrite_loop_ok. Qed.
End laws.

#[export] Program Instance rioBufferIO_ok : BackendOk rio_buffer := {
  bk_ok b := 0 <= buf_pos b <= zlen (buf_ptr b) /\ zlen (buf_ptr b) < 2 ^ 64;
  bk_pending b := drop (Z.to_nat (buf_pos b)) (buf_ptr b);
  bk_sunk b := buf_ptr b }.
Next Obligation.
  intros b n [Hp Hl] Hn. rewrite zlen_drop in Hn by done. cbn. unfold rioBufferRead. rewrite u64_id by (unfold is_u64; lia).
  rewrite (proj2 (Z.ltb_ge _ _)) by lia. unfold rdn. rewrite !(proj2 (Z.leb_le _ _)) by lia. cbn [andb].
  eexists. split; [reflexivity |]. cbn [buf_pos buf_ptr]. split; [lia |]. rewrite drop_drop. f_equal. lia.
Qed.
Next Obligation.
  intros b n [Hp Hl] Hn. rewrite zlen_drop in Hn by done. cbn. unfold rioBufferRead. rewrite u64_id by (unfold is_u64; lia).
  rewrite (proj2 (Z.ltb_lt _ _)) by lia. by eexists.
Qed.
Next Obligation.
  intros b bs b' E. cbn in E. injection E as <-. done.
Qed.
