(* ===== verification/Rdb.v ===== *)
(** rdb.c: the primitives of the dump format: lengths, integer encoded and LZF
    compressed strings, times, binary floating point numbers.

    A save function writes to a stream or, when the stream is NULL, only counts;
    it returns the number of bytes or -1.  A load function returns [None] for
    NULL (or -1); the log messages and the exit of the process that
    [rdbReportCorruptRDB] may add are not modelled.  The server's configuration,
    the allocator's answers and the contents of uninitialised
    memory are arguments. *)
From S2P Require Import Prelude Endian Strnum Lzf Rio.

Definition RDB_6BITLEN : Z := 0.
Definition RDB_14BITLEN : Z := 1.
Definition RDB_32BITLEN : Z := 0x80.
Definition RDB_64BITLEN : Z := 0x81.
Definition RDB_ENCVAL : Z := 3.
Definition RDB_LENERR : Z := 18446744073709551615.
Definition RDB_ENC_INT8 : Z := 0.
Definition RDB_ENC_INT16 : Z := 1.
Definition RDB_ENC_INT32 : Z := 2.
Definition RDB_ENC_LZF : Z := 3.
Definition RDB_LOAD_ENC : Z := Z.shiftl 1 0.
Definition RDB_LOAD_PLAIN : Z := Z.shiftl 1 1.
Definition RDB_LOAD_SDS : Z := Z.shiftl 1 2.
Definition OBJ_ENCODING_EMBSTR_SIZE_LIMIT : Z := 44.
Definition OBJ_SHARED_INTEGERS : Z := 10000.
Definition UINT32_MAX : Z := 4294967295.

(** String objects (object.c), and what the string loader returns. *)
Inductive robj := OBJ_INT (shared : bool) (value : Z) | OBJ_EMBSTR (ptr : list Z) | OBJ_RAW (ptr : list Z).
Inductive loaded := LoadedPlain (bs : list Z) | LoadedSds (bs : list Z) | LoadedObj (o : robj).

Inductive ll2strobj := LL2STROBJ_AUTO | LL2STROBJ_NO_SHARED | LL2STROBJ_NO_INT_ENC.

(** htonl of the C library. *)
Definition htonl `{Host} (v : Z) : Z := if big_endian then v else intrev32 v.
Definition ntohl `{Host} (v : Z) : Z := if big_endian then v else intrev32 v.

Section objects.
(** [server.maxmemory] and its policy forbid shared integers. *)
Context (no_shared_integers : bool) (junk : nat -> Z).

Definition createStringObject (bs : list Z) : robj :=
  if zlen bs <=? OBJ_ENCODING_EMBSTR_SIZE_LIMIT then OBJ_EMBSTR bs else OBJ_RAW bs.

(** The characters [ll2string] leaves in a buffer of [size] bytes. *)
Definition ll2string_chars (size value : Z) : option (list Z) :=
  '(buf, len) ← ll2string (fresh_bytes junk size) size value;
  rdn buf 0 len.

Definition createStringObjectFromLongLongWithOptions (value : Z) (flag : ll2strobj) : option robj :=
  if (0 <=? value) && (value <? OBJ_SHARED_INTEGERS) && match flag with LL2STROBJ_AUTO => true | _ => false end
  then Some (OBJ_INT true value)
  else if ((LLONG_MIN <=? value) && (value <=? LLONG_MAX)) && match flag with LL2STROBJ_NO_INT_ENC => false | _ => true end
  then Some (OBJ_INT false value)
  else bs ← ll2string_chars LONG_STR_SIZE value; Some (createStringObject bs).

Definition createStringObjectFromLongLongForValue (value : Z) : option robj :=
  createStringObjectFromLongLongWithOptions value (if no_shared_integers then LL2STROBJ_NO_SHARED else LL2STROBJ_AUTO).
Definition createStringObjectFromLongLongWithSds (value : Z) : option robj :=
  createStringObjectFromLongLongWithOptions value LL2STROBJ_NO_INT_ENC.
End objects.

(** [rdbEncodeInteger]: the bytes of [enc], empty for the result 0. *)
Definition rdbEncodeInteger (value : Z) : list Z :=
  let byte k := Z.land (Z.shiftr value k) 0xFF in
  let head enc := Z.lor (Z.shiftl RDB_ENCVAL 6) enc in
  if (- 2 ^ 7 <=? value) && (value <=? 2 ^ 7 - 1) then [head RDB_ENC_INT8; byte 0]
  else if (- 2 ^ 15 <=? value) && (value <=? 2 ^ 15 - 1) then [head RDB_ENC_INT16; byte 0; byte 8]
  else if (- 2 ^ 31 <=? value) && (value <=? 2 ^ 31 - 1) then [head RDB_ENC_INT32; byte 0; byte 8; byte 16; byte 24]
  else [].

Definition rdbTryIntegerEncoding (s : list Z) : list Z :=
  match string2ll s with Some value => rdbEncodeInteger value | None => [] end.

(** ** Saving *)

(** Give up with -1 when [m] returns -1. *)
Definition or_error {S} (m : st S Z) (f : Z -> st S Z) : st S Z :=
  st_bind m (fun n => if n =? -1 then st_ret (-1) else f n).
Notation "n <-? m ;; k" := (or_error m (fun n => k)) (at level 100, m at next level, right associativity).

Section save.
Context `{Host} {B : Type} `{Backend B}.
(** [server.rdb_compression]; the hash table of the compressor, uninitialised
    memory. *)
Context (rdb_compression : bool) (htab : lzf_htab) (junk : nat -> Z).

Definition rdbWriteRaw (p : list Z) : st (option (rio B)) Z :=
  fun rdb =>
  match rdb with
  | None => Some (None, zlen p)
  | Some r => '(r, ok) ← rioWrite p r; Some (Some r, if (ok : bool) then zlen p else -1)
  end.

Definition rdbSaveType (type : Z) : st (option (rio B)) Z := rdbWriteRaw [u8 type].
Definition rdbSaveMillisecondTime (t : Z) : st (option (rio B)) Z := rdbWriteRaw (memrev64ifbe (native_enc 8 (u64 t))).
Definition rdbSaveBinaryDoubleValue (val : list Z) : st (option (rio B)) Z := rdbWriteRaw (memrev64ifbe val).
Definition rdbSaveBinaryFloatValue (val : list Z) : st (option (rio B)) Z := rdbWriteRaw (memrev32ifbe val).

Definition rdbSaveLen (len : Z) : st (option (rio B)) Z :=
  if len <? Z.shiftl 1 6 then
    _ <-? rdbWriteRaw [u8 (Z.lor (Z.land len 0xFF) (Z.shiftl RDB_6BITLEN 6))] ;; st_ret 1
  else if len <? Z.shiftl 1 14 then
    _ <-? rdbWriteRaw [u8 (Z.lor (Z.land (Z.shiftr len 8) 0xFF) (Z.shiftl RDB_14BITLEN 6)); Z.land len 0xFF] ;; st_ret 2
  else if len <=? UINT32_MAX then
    _ <-? rdbWriteRaw [RDB_32BITLEN] ;;
    _ <-? rdbWriteRaw (native_enc 4 (htonl (u32 len))) ;; st_ret (1 + 4)
  else
    _ <-? rdbWriteRaw [RDB_64BITLEN] ;;
    _ <-? rdbWriteRaw (native_enc 8 (htonu64 len)) ;; st_ret (1 + 8).

Definition rdbSaveLzfBlob (data : list Z) (compress_len original_len : Z) : st (option (rio B)) Z :=
  n1 <-? rdbWriteRaw [Z.lor (Z.shiftl RDB_ENCVAL 6) RDB_ENC_LZF] ;;
  n2 <-? rdbSaveLen compress_len ;;
  n3 <-? rdbSaveLen original_len ;;
  bs <-- st_lift (rdn data 0 compress_len) ;;
  n4 <-? rdbWriteRaw bs ;;
  st_ret (n1 + n2 + n3 + n4).

Definition rdbSaveLzfStringObject (s : list Z) : st (option (rio B)) Z :=
  if zlen s <=? 4 then st_ret 0
  else
    r <-- st_lift (lzf_compress s (fresh_bytes junk (zlen s - 4)) htab) ;;
    let '(comprlen, out) := r in
    if comprlen =? 0 then st_ret 0 else rdbSaveLzfBlob out comprlen (zlen s).

Definition save_verbatim (s : list Z) : st (option (rio B)) Z :=
  n <-? rdbSaveLen (zlen s) ;;
  if 0 <? zlen s then _ <-? rdbWriteRaw s ;; st_ret (n + zlen s) else st_ret n.

Definition rdbSaveRawString (s : list Z) : st (option (rio B)) Z :=
  let enc := if zlen s <=? 11 then rdbTryIntegerEncoding s else [] in
  if 0 <? zlen enc then _ <-? rdbWriteRaw enc ;; st_ret (zlen enc)
  else if rdb_compression && (20 <? zlen s) then
    n <-? rdbSaveLzfStringObject s ;;
    if 0 <? n then st_ret n else save_verbatim s
  else save_verbatim s.

Definition rdbSaveLongLongAsStringObject (value : Z) : st (option (rio B)) Z :=
  let enc := rdbEncodeInteger value in
  if 0 <? zlen enc then rdbWriteRaw enc
  else
    r <-- st_lift (ll2string (fresh_bytes junk 32) 32 value) ;;
    let '(buf, enclen) := r in
    _ <-- st_lift (assert_ (enclen <? 32)) ;;
    n1 <-? rdbSaveLen enclen ;;
    bs <-- st_lift (rdn buf 0 enclen) ;;
    n2 <-? rdbWriteRaw bs ;;
    st_ret (n1 + n2).

Definition rdbSaveStringObject (obj : robj) : st (option (rio B)) Z :=
  match obj with
  | OBJ_INT _ value => rdbSaveLongLongAsStringObject value
  | OBJ_EMBSTR ptr | OBJ_RAW ptr => rdbSaveRawString ptr
  end.
End save.

(** ** Loading *)

(** Give up with NULL when [m] returns NULL. *)
Definition or_null {S A A'} (m : st S (option A)) (f : A -> st S (option A')) : st S (option A') :=
  st_bind m (fun y => match y with Some x => f x | None => st_ret None end).
Notation "x <-! m ;; k" := (or_null m (fun x => k)) (at level 100, m at next level, right associativity).

Section load.
Context `{Host} {B : Type} `{Backend B}.
Context (can_alloc : Z -> bool) (no_shared_integers : bool) (junk : nat -> Z).


Definition rdbLoadType : st (rio B) (option Z) := bs <-! rioRead 1 ;; st_lift (rd bs 0 ≫= fun b => Some (Some b)).

(** [LLONG_MAX] stands for an error. *)
Definition rdbLoadMillisecondTime (rdbver : Z) : st (rio B) Z :=
  o <-- rioRead 8 ;;
  match o with
  | None => st_ret LLONG_MAX
  | Some t64 => st_ret (i64 (native_dec (if 9 <=? rdbver then memrev64ifbe t64 else t64)))
  end.
Definition rdbLoadBinaryDoubleValue : st (rio B) (option (list Z)) := val <-! rioRead 8 ;; st_ret (Some (memrev64ifbe val)).
Definition rdbLoadBinaryFloatValue : st (rio B) (option (list Z)) := val <-! rioRead 4 ;; st_ret (Some (memrev32ifbe val)).

(** [isencoded] and the length, or an error. *)
Definition rdbLoadLenByRef : st (rio B) (option (bool * Z)) :=
  buf <-! rioRead 1 ;;
  b0 <-- st_lift (rd buf 0) ;;
  let type := Z.shiftr (Z.land b0 0xC0) 6 in
  if type =? RDB_ENCVAL then st_ret (Some (true, Z.land b0 0x3F))
  else if type =? RDB_6BITLEN then st_ret (Some (false, Z.land b0 0x3F))
  else if type =? RDB_14BITLEN then
    buf <-! rioRead 1 ;;
    b1 <-- st_lift (rd buf 0) ;;
    st_ret (Some (false, Z.lor (Z.shiftl (Z.land b0 0x3F) 8) b1))
  else if b0 =? RDB_32BITLEN then
    len <-! rioRead 4 ;; st_ret (Some (false, ntohl (native_dec len)))
  else if b0 =? RDB_64BITLEN then
    len <-! rioRead 8 ;; st_ret (Some (false, ntohu64 (native_dec len)))
  else st_ret None.

(** The error value is [RDB_LENERR]. *)
Definition rdbLoadLen : st (rio B) (bool * Z) :=
  r <-- rdbLoadLenByRef ;; st_ret (match r with Some p => p | None => (false, RDB_LENERR) end).

Definition rdbLoadIntegerObject (enctype flags : Z) : st (rio B) (option loaded) :=
  let plain := negb (Z.land flags RDB_LOAD_PLAIN =? 0) in
  let sds := negb (Z.land flags RDB_LOAD_SDS =? 0) in
  let encode := negb (Z.land flags RDB_LOAD_ENC =? 0) in
  val <-! (if enctype =? RDB_ENC_INT8 then
             enc <-! rioRead 1 ;;
             st_lift (b0 ← rd enc 0; Some (Some (wraps 8 b0)))
           else if enctype =? RDB_ENC_INT16 then
             enc <-! rioRead 2 ;;
             st_lift (b0 ← rd enc 0; b1 ← rd enc 1; Some (Some (i16 (Z.lor b0 (Z.shiftl b1 8)))))
           else if enctype =? RDB_ENC_INT32 then
             enc <-! rioRead 4 ;;
             st_lift (b0 ← rd enc 0; b1 ← rd enc 1; b2 ← rd enc 2; b3 ← rd enc 3;
               Some (Some (i32 (Z.lor (Z.lor (Z.lor b0 (Z.shiftl b1 8)) (Z.shiftl b2 16)) (Z.shiftl b3 24)))))
           else st_ret None) ;;
  st_lift (if plain || sds then
             bs ← ll2string_chars junk LONG_STR_SIZE val;
             Some (Some (if plain then LoadedPlain bs else LoadedSds bs))
           else if encode then o ← createStringObjectFromLongLongForValue no_shared_integers junk val; Some (Some (LoadedObj o))
           else o ← createStringObjectFromLongLongWithSds junk val; Some (Some (LoadedObj o))).

Definition rdbLoadLzfStringObject (flags : Z) : st (rio B) (option loaded) :=
  let plain := negb (Z.land flags RDB_LOAD_PLAIN =? 0) in
  let sds := negb (Z.land flags RDB_LOAD_SDS =? 0) in
  r <-- rdbLoadLen ;;
  let clen := snd r in
  if clen =? RDB_LENERR then st_ret None
  else
    r <-- rdbLoadLen ;;
    let len := snd r in
    if len =? RDB_LENERR then st_ret None
    else if negb (can_alloc clen) then st_ret None
    else if negb (can_alloc len) then st_ret None
    else
      c <-! rioRead clen ;;
      r <-- st_lift (lzf_decompress c (fresh_bytes junk len)) ;;
      let '(res, val) := r in
      if negb ((match res with LzfSize n => n | _ => 0 end) =? len) then st_ret None
      else st_ret (Some (if plain then LoadedPlain val else if sds then LoadedSds val else LoadedObj (OBJ_RAW val))).

Definition rdbGenericLoadStringObject (flags : Z) : st (rio B) (option loaded) :=
  let plain := negb (Z.land flags RDB_LOAD_PLAIN =? 0) in
  let sds := negb (Z.land flags RDB_LOAD_SDS =? 0) in
  r <-- rdbLoadLen ;;
  let '(isencoded, len) := r in
  if len =? RDB_LENERR then st_ret None
  else if (isencoded : bool) then
    if (len =? RDB_ENC_INT8) || (len =? RDB_ENC_INT16) || (len =? RDB_ENC_INT32) then rdbLoadIntegerObject len flags
    else if len =? RDB_ENC_LZF then rdbLoadLzfStringObject flags
    else st_ret None
  else
    let small_obj := negb (plain || sds) && (len <=? OBJ_ENCODING_EMBSTR_SIZE_LIMIT) in
    if negb (small_obj || can_alloc len) then st_ret None
    else
      bs <-! (if len =? 0 then st_ret (Some []) else rioRead len) ;;
      st_ret (Some (if plain then LoadedPlain bs else if sds then LoadedSds bs else LoadedObj (createStringObject bs))).

Definition rdbLoadStringObject : st (rio B) (option loaded) := rdbGenericLoadStringObject 0.
Definition rdbLoadEncodedStringObject : st (rio B) (option loaded) := rdbGenericLoadStringObject RDB_LOAD_ENC.
End load.
