(* ===== verification/RdbThms.v ===== *)
(** rdb.c: what is saved is what is loaded, through any stream back end, and
    loading arbitrary (corrupt) bytes stays inside its buffers. *)
From S2P Require Import Prelude Endian Strnum Lzf Rio Rdb.

(** ** Composing writers and readers *)

Section codec.
Context {B : Type} `{BackendOk B}.
Implicit Types (bs : list Z).

(** [m] writes [bs] and returns [v], or returns -1 with the stream marked. *)
Definition writes (m : st (option (rio B)) Z) bs (v : Z) : Prop :=
  m None = Some (None, v) /\
  forall r, write_error r = false -> 0 <= max_processing_chunk r ->
    exists r' n, m (Some r) = Some (Some r', n) /\
      ((n = -1 /\ write_error r' = true) \/
       (n = v /\ write_error r' = false /\ 0 <= max_processing_chunk r' /\ bk_sunk (io r') = bk_sunk (io r) ++ bs)).

Lemma writes_raw p : writes (rdbWriteRaw p) p (zlen p).
Proof.
  split; [done |]. intros r Hw Hm. destruct (rioWrite_ok p r Hw Hm) as (r' & ok & E & Hok). unfold rdbWriteRaw.
  rewrite E. cbn [mbind option_bind]. exists r', (if ok then zlen p else -1). split; [done |].
  destruct ok; [right | by left]. destruct Hok as (? & ? & ?). done.
Qed.

Lemma writes_ret v : writes (st_ret v) [] v.
Proof. split; [done |]. intros r Hw Hm. exists r, v. split; [done |]. right. by rewrite app_nil_r. Qed.

Lemma writes_seq m bs v f bs' v' : writes m bs v -> v <> -1 -> writes (f v) bs' v' -> writes (n <-? m ;; f n) (bs ++ bs') v'.
Proof.
  intros [Hn Hr] Hv [Hn' Hr']. apply Z.eqb_neq in Hv. unfold or_error, st_bind. split; [by rewrite Hn, Hv |].
  intros r Hw Hm. destruct (Hr r Hw Hm) as (r1 & n & -> & [[-> Hw1] | (-> & Hw1 & Hm1 & E1)]).
  - exists r1, (-1). split; [done | by left].
  - rewrite Hv. destruct (Hr' r1 Hw1 Hm1) as (r2 & n & -> & [Herr | (-> & Hw2 & Hm2 & E2)]).
    + exists r2, n. split; [done | by left].
    + exists r2, v'. split; [done |]. right. split; [done |]. split; [done |]. split; [done |]. by rewrite E2, E1, app_assoc.
Qed.

Lemma writes_lift {A} (o : option A) a f bs v : o = Some a -> writes (f a) bs v -> writes (st_bind (st_lift o) f) bs v.
Proof. intros ->. done. Qed.

(** [m] reads [bs] and returns [a], whatever follows; on a proper prefix of
    [bs] it returns [e]. *)
Definition reads {A} (m : st (rio B) A) bs (a e : A) : Prop :=
  (forall r rest, readable r (bs ++ rest) -> exists r', m r = Some (r', a) /\ readable r' rest) /\
  (forall r p q, bs = p ++ q -> q <> [] -> readable r p -> exists r', m r = Some (r', e) /\ read_error r' = true).

Lemma reads_ret {A} (a e : A) : reads (st_ret a) [] a e.
Proof.
  split; [intros r rest Hr; exists r; by split |]. intros r p q E Hq. symmetry in E. apply app_eq_nil in E as [_ ->]. done.
Qed.

Lemma reads_raw n bs : zlen bs = n -> reads (rioRead n) bs (Some bs) None.
Proof.
  intros <-. pose proof (zlen_nonneg bs). split.
  - intros r rest Hr. destruct (rioRead_ok (zlen bs) r _ ltac:(lia) Hr) as (r' & res & -> & Hres).
    pose proof (zlen_nonneg rest). rewrite (proj2 (Z.leb_le _ _)) in Hres by (rewrite zlen_app; lia).
    unfold zlen in Hres. rewrite Nat2Z.id, take_app_length, drop_app_length in Hres. destruct Hres as [-> Hr']. by exists r'.
  - intros r p q -> Hq Hr. destruct (rioRead_ok (zlen (p ++ q)) r _ ltac:(lia) Hr) as (r' & res & -> & Hres).
    assert (zlen q <> 0) by (intros E; by apply zlen_0 in E). pose proof (zlen_nonneg q).
    rewrite (proj2 (Z.leb_gt _ _)) in Hres by (rewrite zlen_app; lia). destruct Hres as [-> Hr']. by exists r'.
Qed.

Lemma reads_bind {A A'} (m : st (rio B) A) bs a e (f : A -> st (rio B) A') bs' a' e' :
  reads m bs a e -> reads (f a) bs' a' e' -> (forall r, read_error r = true -> exists r', f e r = Some (r', e') /\ read_error r' = true) ->
  reads (st_bind m f) (bs ++ bs') a' e'.
Proof.
  intros [H1 H2] [H3 H4] He. unfold st_bind. split.
  - intros r rest Hr. rewrite <- app_assoc in Hr. destruct (H1 r _ Hr) as (r' & -> & Hr'). by apply H3.
  - intros r p q E Hq Hr. apply app_eq_app in E as (k & [(-> & ->) | (-> & ->)]).
    + destruct k as [| x k].
      * rewrite app_nil_r in *. destruct (H1 r [] ltac:(by rewrite app_nil_r)) as (r' & -> & Hr'). by apply (H4 r' [] bs').
      * destruct (H2 r p (x :: k) eq_refl ltac:(done) Hr) as (r' & -> & Hr'). by apply He.
    + destruct (H1 r k Hr) as (r' & -> & Hr'). by apply (H4 r' k q).
Qed.

Lemma reads_or_null {A A'} (m : st (rio B) (option A)) bs a (f : A -> st (rio B) (option A')) bs' a' :
  reads m bs (Some a) None -> reads (f a) bs' a' None -> reads (x <-! m ;; f x) (bs ++ bs') a' None.
Proof. intros H1 H2. unfold or_null. eapply reads_bind; [exact H1 | exact H2 |]. intros r Hr. by exists r. Qed.

Lemma reads_lift {A A'} (o : option A) a (f : A -> st (rio B) A') bs a' e' :
  o = Some a -> reads (f a) bs a' e' -> reads (st_bind (st_lift o) f) bs a' e'.
Proof. intros ->. done. Qed.

Lemma reads_lift_ret {A} (o : option A) a e : o = Some a -> reads (st_lift (S := rio B) o) [] a e.
Proof. intros ->. apply reads_ret. Qed.

Lemma reads_app_nil {A} (m : st (rio B) A) bs a e : reads m (bs ++ []) a e -> reads m bs a e.
Proof. by rewrite app_nil_r. Qed.
Lemma writes_app_nil m bs v : writes m (bs ++ []) v -> writes m bs v.
Proof. by rewrite app_nil_r. Qed.
End codec.

(** ** Lengths *)

Lemma host_net32 `{Host} v : 0 <= v < 2 ^ 32 -> native_enc 4 (htonl v) = rev (le_enc 4 v).
Proof.
  intros Hv. unfold htonl, native_enc. destruct big_endian; [done |]. autorewrite with endian. apply le_enc_byteswap.
Qed.
Lemma host_net64 `{Host} v : 0 <= v < 2 ^ 64 -> native_enc 8 (htonu64 v) = rev (le_enc 8 v).
Proof.
  intros Hv. unfold htonu64, native_enc. destruct big_endian; [done |]. autorewrite with endian. apply le_enc_byteswap.
Qed.
Lemma net_host32 `{Host} v : 0 <= v < 2 ^ 32 -> ntohl (native_dec (rev (le_enc 4 v))) = v.
Proof.
  intros Hv. rewrite <- (host_net32 v Hv), native_dec_enc. unfold ntohl, htonl. destruct big_endian; autorewrite with endian.
  - by apply Z.mod_small.
  - rewrite Z.mod_small by apply byteswap_bound. rewrite byteswap_involutive. by apply Z.mod_small.
Qed.
Lemma net_host64 `{Host} v : 0 <= v < 2 ^ 64 -> ntohu64 (native_dec (rev (le_enc 8 v))) = v.
Proof.
  intros Hv. rewrite <- (host_net64 v Hv), native_dec_enc. unfold ntohu64, htonu64. destruct big_endian; autorewrite with endian.
  - by apply Z.mod_small.
  - rewrite Z.mod_small by apply byteswap_bound. rewrite byteswap_involutive. by apply Z.mod_small.
Qed.

(** The bytes of a length. *)
Definition enc_len (n : Z) : list Z :=
  if n <? 64 then [n]
  else if n <? 16384 then [n / 256 + 64; n mod 256]
  else if n <=? UINT32_MAX then RDB_32BITLEN :: rev (le_enc 4 n)
  else RDB_64BITLEN :: rev (le_enc 8 n).

Lemma zlen_rev_le_enc k n : zlen (rev (le_enc k n)) = Z.of_nat k.
Proof. unfold zlen. by rewrite length_rev, length_le_enc. Qed.

Section lengths.
Context `{Host} {B : Type} `{BackendOk B}.

Lemma save_len_ok n : 0 <= n < 2 ^ 64 -> writes (rdbSaveLen n) (enc_len n) (zlen (enc_len n)).
Proof.
  intros Hn. unfold rdbSaveLen, enc_len. change (Z.shiftl 1 6) with 64. change (Z.shiftl 1 14) with 16384.
  destruct (Z.ltb_spec n 64); [| destruct (Z.ltb_spec n 16384); [| unfold UINT32_MAX; destruct (Z.leb_spec n 4294967295)]].
  - assert (u8 (Z.lor (Z.land n 255) (Z.shiftl RDB_6BITLEN 6)) = n) as ->.
    { change (Z.shiftl RDB_6BITLEN 6) with 0. rewrite Z.lor_0_r. bits_to_arith. unfold u8. dm. }
    apply writes_app_nil. eapply writes_seq; [apply writes_raw | done | apply writes_ret].
  - assert (u8 (Z.lor (Z.land (Z.shiftr n 8) 255) (Z.shiftl RDB_14BITLEN 6)) = n / 256 + 64) as ->.
    { change (Z.shiftl RDB_14BITLEN 6) with 64. bits_to_arith. change 64 with (1 * 2 ^ 6) at 1.
      rewrite lor_add_shift by (try lia; change (2 ^ 6) with 64; dm). unfold u8. change (1 * 2 ^ 6) with 64. dm. }
    assert (Z.land n 255 = n mod 256) as -> by (bits_to_arith; done).
    apply writes_app_nil. eapply writes_seq; [apply writes_raw | done | apply writes_ret].
  - unfold u32. rewrite Z.mod_small, host_net32 by lia.
    change (RDB_32BITLEN :: rev (le_enc 4 n)) with ([RDB_32BITLEN] ++ rev (le_enc 4 n)).
    eapply writes_seq; [apply writes_raw | done |]. apply writes_app_nil.
    eapply writes_seq; [apply writes_raw | by rewrite zlen_rev_le_enc | ]. rewrite zlen_app, zlen_rev_le_enc. apply writes_ret.
  - rewrite host_net64 by lia.
    change (RDB_64BITLEN :: rev (le_enc 8 n)) with ([RDB_64BITLEN] ++ rev (le_enc 8 n)).
    eapply writes_seq; [apply writes_raw | done |]. apply writes_app_nil.
    eapply writes_seq; [apply writes_raw | by rewrite zlen_rev_le_enc | ]. rewrite zlen_app, zlen_rev_le_enc. apply writes_ret.
Qed.

(** The three kinds of first byte. *)
Lemma head_facts b : 0 <= b < 256 ->
  Z.shiftr (Z.land b 0xC0) 6 = b / 64 /\ Z.land b 0x3F = b mod 64.
Proof.
  intros Hb. pose proof (byte_all (fun b => (Z.shiftr (Z.land b 0xC0) 6 =? b / 64) && (Z.land b 0x3F =? b mod 64)) ltac:(vm_compute; reflexivity) b Hb) as E.
  cbv beta in E. apply andb_true_iff in E as [E1 E2]. apply Z.eqb_eq in E1, E2. done.
Qed.

Lemma load_len_ok n : 0 <= n < 2 ^ 64 -> reads rdbLoadLenByRef (enc_len n) (Some (false, n)) None.
Proof.
  intros Hn. unfold rdbLoadLenByRef, enc_len.
  destruct (Z.ltb_spec n 64); [| destruct (Z.ltb_spec n 16384); [| unfold UINT32_MAX; destruct (Z.leb_spec n 4294967295)]].
  - apply reads_app_nil, reads_or_null with (a := [n]); [by apply reads_raw |].
    eapply reads_lift; [reflexivity |]. destruct (head_facts n ltac:(lia)) as [-> ->].
    rewrite Z.div_small, Z.mod_small by lia. apply reads_ret.
  - change [n / 256 + 64; n mod 256] with ([n / 256 + 64] ++ [n mod 256]).
    apply reads_or_null with (a := [n / 256 + 64]); [by apply reads_raw |].
    eapply reads_lift; [reflexivity |]. assert (0 <= n / 256 < 64) by dm. destruct (head_facts (n / 256 + 64) ltac:(lia)) as [-> ->].
    assert ((n / 256 + 64) / 64 = 1) as -> by dm. assert ((n / 256 + 64) mod 64 = n / 256) as -> by dm.
    change (1 =? RDB_ENCVAL) with false. change (1 =? RDB_6BITLEN) with false. change (1 =? RDB_14BITLEN) with true. cbv iota.
    apply reads_app_nil, reads_or_null with (a := [n mod 256]); [by apply reads_raw |].
    eapply reads_lift; [reflexivity |].
    assert (Z.lor (Z.shiftl (n / 256) 8) (n mod 256) = n) as ->; [| apply reads_ret].
    bits_to_arith. rewrite Z.lor_comm. change 256 with (2 ^ 8) at 3. rewrite lor_add_shift by (try lia; change (2 ^ 8) with 256; dm).
    change (2 ^ 8) with 256. dm.
  - change (RDB_32BITLEN :: rev (le_enc 4 n)) with ([RDB_32BITLEN] ++ rev (le_enc 4 n)).
    apply reads_or_null with (a := [RDB_32BITLEN]); [by apply reads_raw |]. eapply reads_lift; [reflexivity |]. cbn -[rioRead rev ntohl native_dec le_enc].
    apply reads_app_nil, reads_or_null with (a := rev (le_enc 4 n)); [apply reads_raw, zlen_rev_le_enc |].
    rewrite net_host32 by lia. apply reads_ret.
  - change (RDB_64BITLEN :: rev (le_enc 8 n)) with ([RDB_64BITLEN] ++ rev (le_enc 8 n)).
    apply reads_or_null with (a := [RDB_64BITLEN]); [by apply reads_raw |]. eapply reads_lift; [reflexivity |]. cbn -[rioRead rev ntohu64 native_dec le_enc].
    apply reads_app_nil, reads_or_null with (a := rev (le_enc 8 n)); [apply reads_raw, zlen_rev_le_enc |].
    rewrite net_host64 by lia. apply reads_ret.
Qed.

Lemma load_len_value n : 0 <= n < 2 ^ 64 -> reads rdbLoadLen (enc_len n) (false, n) (false, RDB_LENERR).
Proof.
  intros Hn. unfold rdbLoadLen. apply reads_app_nil. eapply reads_bind; [by apply load_len_ok | apply reads_ret |].
  intros r Hr. by exists r.
Qed.

Lemma load_len_enc e : 0 <= e < 64 -> reads rdbLoadLen [e + 192] (true, e) (false, RDB_LENERR).
Proof.
  intros He. unfold rdbLoadLen. apply reads_app_nil. eapply reads_bind with (a := Some (true, e)) (e := None); [| apply reads_ret | intros r Hr; by exists r].
  unfold rdbLoadLenByRef. apply reads_app_nil, reads_or_null with (a := [e + 192]); [by apply reads_raw |].
  eapply reads_lift; [reflexivity |]. destruct (head_facts (e + 192) ltac:(lia)) as [-> ->].
  assert ((e + 192) / 64 = 3) as -> by dm. assert ((e + 192) mod 64 = e) as -> by dm. apply reads_ret.
Qed.
End lengths.

(** ** Strings *)

Definition robj_chars (o : robj) : list Z :=
  match o with OBJ_INT _ v => sdec v | OBJ_EMBSTR bs | OBJ_RAW bs => bs end.
Definition loaded_chars (l : loaded) : list Z :=
  match l with LoadedPlain bs | LoadedSds bs => bs | LoadedObj o => robj_chars o end.

(** The kind of result the flags ask for. *)
Definition loaded_kind (flags : Z) (l : loaded) : Prop :=
  match l with
  | LoadedPlain _ => Z.land flags RDB_LOAD_PLAIN <> 0
  | LoadedSds _ => Z.land flags RDB_LOAD_PLAIN = 0 /\ Z.land flags RDB_LOAD_SDS <> 0
  | LoadedObj _ => Z.land flags RDB_LOAD_PLAIN = 0 /\ Z.land flags RDB_LOAD_SDS = 0
  end.

Lemma chars_ok junk size v : is_i64 v -> 21 <= size -> ll2string_chars junk size v = Some (sdec v).
Proof.
  intros Hv Hs. unfold ll2string_chars. pose proof (ll2string_spec (fresh_bytes junk size) size v Hv) as Hspec.
  rewrite zlen_fresh_bytes in Hspec. specialize (Hspec ltac:(lia)). rewrite sdigits10_spec in Hspec by done.
  pose proof (zlen_sdec v Hv). rewrite (proj2 (Z.ltb_lt _ _)) in Hspec by lia. destruct Hspec as (r & -> & _).
  cbn [mbind option_bind]. apply rdn_Some. exists [], (0 :: r). done.
Qed.

(** The compressed sizes the format can hold. *)
Section strings.
Context `{Host} {B : Type} `{BackendOk B}.
Context (rdb_compression : bool) (htab : lzf_htab) (junk : nat -> Z) (can_alloc : Z -> bool) (no_shared : bool) (flags : Z).
Context (Hhtab : htab_ok htab).

Lemma byte_at v k : 0 <= k -> Z.land (Z.shiftr v k) 0xFF = (v / 2 ^ k) mod 256.
Proof. intros Hk. rewrite Z.shiftr_div_pow2 by done. exact (Z.land_ones (v / 2 ^ k) 8 ltac:(lia)). Qed.

(** The end of [rdbLoadIntegerObject]: the value as the flags ask. *)
Lemma int_result_ok v : is_i64 v -> exists l, loaded_chars l = sdec v /\ loaded_kind flags l /\
  (if negb (Z.land flags RDB_LOAD_PLAIN =? 0) || negb (Z.land flags RDB_LOAD_SDS =? 0) then
     bs ← ll2string_chars junk LONG_STR_SIZE v;
     Some (Some (if negb (Z.land flags RDB_LOAD_PLAIN =? 0) then LoadedPlain bs else LoadedSds bs))
   else if negb (Z.land flags RDB_LOAD_ENC =? 0) then o ← createStringObjectFromLongLongForValue no_shared junk v; Some (Some (LoadedObj o))
   else o ← createStringObjectFromLongLongWithSds junk v; Some (Some (LoadedObj o))) = Some (Some l).
Proof.
  intros Hv. pose proof (chars_ok junk LONG_STR_SIZE v Hv ltac:(done)) as Ec.
  assert ((LLONG_MIN <=? v) && (v <=? LLONG_MAX) = true) as Eb by (unfold is_i64, LLONG_MIN, LLONG_MAX in *; lia).
  unfold loaded_kind. destruct (Z.eqb_spec (Z.land flags RDB_LOAD_PLAIN) 0) as [Ep | Ep], (Z.eqb_spec (Z.land flags RDB_LOAD_SDS) 0) as [Es | Es]; cbn [negb orb].
  2-4: rewrite Ec; cbn [mbind option_bind]; eexists; split; [| split; [| reflexivity]]; done.
  unfold createStringObjectFromLongLongForValue, createStringObjectFromLongLongWithSds, createStringObjectFromLongLongWithOptions.
  rewrite Eb, Ec, !andb_true_l, andb_false_r. cbn [mbind option_bind].
  destruct (negb (Z.land flags RDB_LOAD_ENC =? 0)).
  - destruct no_shared; rewrite ?andb_false_r, ?andb_true_r; [eexists; split; [| split; [| reflexivity]]; done |].
    destruct ((0 <=? v) && (v <? OBJ_SHARED_INTEGERS)); eexists; (split; [| split; [| reflexivity]]; done).
  - exists (LoadedObj (createStringObject (sdec v))). split; [| done]. cbn [loaded_chars]. unfold createStringObject.
    by destruct (zlen (sdec v) <=? OBJ_ENCODING_EMBSTR_SIZE_LIMIT).
Qed.

Lemma rdn_0 (bs : list Z) n : zlen bs = n -> rdn bs 0 n = Some bs.
Proof. intros <-. apply rdn_Some. exists [], []. by rewrite app_nil_r. Qed.

(** An integer that has a short encoding is read back. *)
Lemma load_int_ok v : is_i64 v -> rdbEncodeInteger v <> [] ->
  exists l, loaded_chars l = sdec v /\ loaded_kind flags l /\
    reads (rdbGenericLoadStringObject can_alloc no_shared junk flags) (rdbEncodeInteger v) (Some l) None.
Proof.
  intros Hv Hne. destruct (int_result_ok v Hv) as (l & Hl & Hk & El). exists l. split; [done |]. split; [done |].
  unfold rdbEncodeInteger in *. rewrite !byte_at in * by lia.
  destruct ((- 2 ^ 7 <=? v) && (v <=? 2 ^ 7 - 1)) eqn:E1; [| destruct ((- 2 ^ 15 <=? v) && (v <=? 2 ^ 15 - 1)) eqn:E2;
    [| destruct ((- 2 ^ 31 <=? v) && (v <=? 2 ^ 31 - 1)) eqn:E3; [| done]]].
  - apply andb_true_iff in E1 as [L1 L2]. apply Z.leb_le in L1, L2. change (2 ^ 0) with 1. rewrite Z.div_1_r.
    change [Z.lor (Z.shiftl RDB_ENCVAL 6) RDB_ENC_INT8; v mod 256] with ([RDB_ENC_INT8 + 192] ++ [v mod 256]).
    unfold rdbGenericLoadStringObject. eapply reads_bind; [by apply load_len_enc | | intros r Hr; by exists r].
    cbn -[rdbLoadIntegerObject]. unfold rdbLoadIntegerObject. change (RDB_ENC_INT8 =? RDB_ENC_INT8) with true. cbv iota.
    apply reads_app_nil. apply reads_or_null with (a := v).
    + apply reads_app_nil, reads_or_null with (a := [v mod 256]); [by apply reads_raw |].
      apply reads_lift_ret. transitivity (Some (Some (wraps 8 (v mod 256)))); [reflexivity | do 2 f_equal]. change 256 with (2 ^ 8). rewrite wraps_mod by lia. apply wraps_small; lia.
    + unfold st_lift. rewrite El. apply reads_ret.
  - apply andb_true_iff in E2 as [L1 L2]. apply Z.leb_le in L1, L2. change (2 ^ 0) with 1. rewrite Z.div_1_r.
    change [Z.lor (Z.shiftl RDB_ENCVAL 6) RDB_ENC_INT16; v mod 256; (v / 2 ^ 8) mod 256] with ([RDB_ENC_INT16 + 192] ++ [v mod 256; (v / 2 ^ 8) mod 256]).
    unfold rdbGenericLoadStringObject. eapply reads_bind; [by apply load_len_enc | | intros r Hr; by exists r].
    cbn -[rdbLoadIntegerObject]. unfold rdbLoadIntegerObject. change (RDB_ENC_INT16 =? RDB_ENC_INT8) with false. change (RDB_ENC_INT16 =? RDB_ENC_INT16) with true. cbv iota.
    apply reads_app_nil. apply reads_or_null with (a := v).
    + apply reads_app_nil, reads_or_null with (a := [v mod 256; (v / 2 ^ 8) mod 256]); [by apply reads_raw |].
      apply reads_lift_ret. transitivity (Some (Some (i16 (Z.lor (v mod 256) (Z.shiftl ((v / 2 ^ 8) mod 256) 8))))); [reflexivity | do 2 f_equal].
      rewrite Z.shiftl_mul_pow2, lor_add_shift by (try lia; change (2 ^ 8) with 256; dm). change (2 ^ 8) with 256. unfold i16. dm.
    + unfold st_lift. rewrite El. apply reads_ret.
  - apply andb_true_iff in E3 as [L1 L2]. apply Z.leb_le in L1, L2. change (2 ^ 0) with 1. rewrite Z.div_1_r.
    change [Z.lor (Z.shiftl RDB_ENCVAL 6) RDB_ENC_INT32; v mod 256; (v / 2 ^ 8) mod 256; (v / 2 ^ 16) mod 256; (v / 2 ^ 24) mod 256]
      with ([RDB_ENC_INT32 + 192] ++ [v mod 256; (v / 2 ^ 8) mod 256; (v / 2 ^ 16) mod 256; (v / 2 ^ 24) mod 256]).
    unfold rdbGenericLoadStringObject. eapply reads_bind; [by apply load_len_enc | | intros r Hr; by exists r].
    cbn -[rdbLoadIntegerObject]. unfold rdbLoadIntegerObject. change (RDB_ENC_INT32 =? RDB_ENC_INT8) with false.
    change (RDB_ENC_INT32 =? RDB_ENC_INT16) with false. change (RDB_ENC_INT32 =? RDB_ENC_INT32) with true. cbv iota.
    apply reads_app_nil. apply reads_or_null with (a := v).
    + eapply reads_app_nil, reads_or_null with (a := [v mod 256; (v / 2 ^ 8) mod 256; (v / 2 ^ 16) mod 256; (v / 2 ^ 24) mod 256]); [by apply reads_raw |].
      apply reads_lift_ret. transitivity (Some (Some (i32 (Z.lor (Z.lor (Z.lor (v mod 256) (Z.shiftl ((v / 2 ^ 8) mod 256) 8))
        (Z.shiftl ((v / 2 ^ 16) mod 256) 16)) (Z.shiftl ((v / 2 ^ 24) mod 256) 24))))); [reflexivity | do 2 f_equal].
      rewrite !Z.shiftl_mul_pow2 by lia. pose proof (Z.mod_pos_bound v 256). pose proof (Z.mod_pos_bound (v / 2 ^ 8) 256). pose proof (Z.mod_pos_bound (v / 2 ^ 16) 256).
      rewrite (lor_add_shift _ _ 8), (lor_add_shift _ _ 16), (lor_add_shift _ _ 24) by lia.
      change (2 ^ 8) with 256. change (2 ^ 16) with 65536. change (2 ^ 24) with 16777216. unfold i32. dm.
    + unfold st_lift. rewrite El. apply reads_ret.
Qed.
Lemma enc_len_length n : 1 <= zlen (enc_len n).
Proof. unfold enc_len. repeat case_if; rewrite zlen_cons; pose proof (zlen_nonneg (@nil Z)); zl_pose; lia. Qed.

(** What the flags make of the characters of a string that is not encoded. *)
Definition as_loaded (raw : bool) (bs : list Z) : loaded :=
  if negb (Z.land flags RDB_LOAD_PLAIN =? 0) then LoadedPlain bs
  else if negb (Z.land flags RDB_LOAD_SDS =? 0) then LoadedSds bs
  else LoadedObj (if raw then OBJ_RAW bs else createStringObject bs).

Lemma as_loaded_ok raw bs : loaded_chars (as_loaded raw bs) = bs /\ loaded_kind flags (as_loaded raw bs).
Proof.
  unfold as_loaded, createStringObject, loaded_kind.
  destruct (Z.eqb_spec (Z.land flags RDB_LOAD_PLAIN) 0), (Z.eqb_spec (Z.land flags RDB_LOAD_SDS) 0), raw; cbn; try done.
  by destruct (zlen bs <=? OBJ_ENCODING_EMBSTR_SIZE_LIMIT).
Qed.

Lemma verbatim_ok s : zlen s < 2 ^ 62 -> can_alloc (zlen s) = true ->
  writes (save_verbatim s) (enc_len (zlen s) ++ s) (zlen (enc_len (zlen s) ++ s)) /\
  reads (rdbGenericLoadStringObject can_alloc no_shared junk flags) (enc_len (zlen s) ++ s) (Some (as_loaded false s)) None.
Proof.
  intros Hl Ha. pose proof (zlen_nonneg s). pose proof (enc_len_length (zlen s)). rewrite zlen_app. split.
  - unfold save_verbatim. eapply writes_seq; [apply save_len_ok; lia | lia |]. destruct (Z.ltb_spec 0 (zlen s)).
    + apply writes_app_nil. eapply writes_seq; [apply writes_raw | lia | apply writes_ret].
    + rewrite (zlen_0 s) by lia. rewrite (@zlen_nil Z), Z.add_0_r. apply writes_ret.
  - unfold rdbGenericLoadStringObject. eapply reads_bind; [apply load_len_value; lia | | intros r Hr; by exists r].
    cbv beta iota zeta. rewrite (proj2 (Z.eqb_neq (zlen s) RDB_LENERR)) by (unfold RDB_LENERR; lia). rewrite Ha, orb_true_r. cbn [negb].
    apply reads_app_nil, reads_or_null with (a := s); [| apply reads_ret].
    destruct (Z.eqb_spec (zlen s) 0) as [E | E]; [apply zlen_0 in E as ->; apply reads_ret | by apply reads_raw].
Qed.

Lemma lzf_string_ok s : 20 < zlen s < 2 ^ 62 -> (forall n, 0 <= n <= zlen s -> can_alloc n = true) ->
  writes (rdbSaveLzfStringObject htab junk s) [] 0 \/
  exists enc, writes (rdbSaveLzfStringObject htab junk s) enc (zlen enc) /\ 0 < zlen enc /\
    reads (rdbGenericLoadStringObject can_alloc no_shared junk flags) enc (Some (as_loaded true s)) None.
Proof.
  intros Hl Ha. unfold rdbSaveLzfStringObject. rewrite (proj2 (Z.leb_gt (zlen s) 4)) by lia.
  destruct (lzf_inverse s (fresh_bytes junk (zlen s - 4)) htab ltac:(lia) Hhtab) as (n & out & Ec & El & Hn & Hdec).
  rewrite zlen_fresh_bytes in El, Hn. destruct (Z.eqb_spec n 0) as [-> | Hnz].
  { left. eapply writes_lift; [exact Ec |]. cbv beta iota. rewrite Z.eqb_refl. apply writes_ret. }
  right. destruct (Hdec Hnz (fresh_bytes junk (zlen s))) as (rest & Ed & Er); [rewrite zlen_fresh_bytes; lia |].
  rewrite zlen_app, zlen_fresh_bytes in Er. pose proof (zlen_nonneg rest). rewrite (zlen_0 rest) in Ed by lia. rewrite app_nil_r in Ed.
  set (data := take (Z.to_nat n) out) in *. assert (zlen data = n) as Edl by (apply zlen_take; lia).
  pose proof (enc_len_length n). pose proof (enc_len_length (zlen s)).
  exists ([RDB_ENC_LZF + 192] ++ enc_len n ++ enc_len (zlen s) ++ data). rewrite !zlen_app. change (zlen [RDB_ENC_LZF + 192]) with 1.
  split; [| split; [lia |]].
  - eapply writes_lift; [exact Ec |]. cbv beta iota. rewrite (proj2 (Z.eqb_neq n 0) Hnz). unfold rdbSaveLzfBlob.
    eapply writes_seq; [apply writes_raw | done |]. eapply writes_seq; [apply save_len_ok; lia | lia |].
    eapply writes_seq; [apply save_len_ok; lia | lia |].
    eapply writes_lift; [unfold rdn; rewrite !(proj2 (Z.leb_le _ _)) by lia; reflexivity |]. change (drop (Z.to_nat 0) out) with out. fold data.
    apply writes_app_nil. eapply writes_seq; [apply writes_raw | lia |]. rewrite Edl.
    change (zlen [Z.lor (Z.shiftl RDB_ENCVAL 6) RDB_ENC_LZF]) with 1. rewrite !Z.add_assoc. apply writes_ret.
  - unfold rdbGenericLoadStringObject. eapply reads_bind; [by apply load_len_enc | | intros r Hr; by exists r].
    cbn -[rdbLoadLzfStringObject]. unfold rdbLoadLzfStringObject.
    eapply reads_bind; [apply load_len_value; lia | | intros r Hr; by exists r]. cbn [snd]. rewrite (proj2 (Z.eqb_neq n RDB_LENERR)) by (unfold RDB_LENERR; lia).
    eapply reads_bind; [apply load_len_value; lia | | intros r Hr; by exists r]. cbn [snd].
    rewrite (proj2 (Z.eqb_neq (zlen s) RDB_LENERR)) by (unfold RDB_LENERR; lia). rewrite !Ha by lia. cbn [negb].
    apply reads_app_nil, reads_or_null with (a := data); [by apply reads_raw |].
    eapply reads_lift; [exact Ed |]. cbv beta iota. rewrite Z.eqb_refl. apply reads_ret.
Qed.

(** Raw strings, in whichever of the three encodings. *)
Lemma raw_string_ok s : zlen s < 2 ^ 62 -> (forall n, 0 <= n <= zlen s -> can_alloc n = true) ->
  exists enc l, loaded_chars l = s /\ loaded_kind flags l /\
    writes (rdbSaveRawString rdb_compression htab junk s) enc (zlen enc) /\
    reads (rdbGenericLoadStringObject can_alloc no_shared junk flags) enc (Some l) None.
Proof.
  intros Hl Ha. pose proof (zlen_nonneg s). unfold rdbSaveRawString. destruct (verbatim_ok s Hl (Ha (zlen s) ltac:(lia))) as [Hw Hr].
  assert (exists enc l, loaded_chars l = s /\ loaded_kind flags l /\ writes (save_verbatim s) enc (zlen enc) /\
    reads (rdbGenericLoadStringObject can_alloc no_shared junk flags) enc (Some l) None) as Hverb.
  { destruct (as_loaded_ok false s). by exists (enc_len (zlen s) ++ s), (as_loaded false s). }
  set (enc := if zlen s <=? 11 then rdbTryIntegerEncoding s else []). destruct (Z.ltb_spec 0 (zlen enc)) as [Hp | Hp].
  - unfold enc in Hp. destruct (zlen s <=? 11) eqn:E11; [| done]. unfold enc. rewrite ?E11. unfold rdbTryIntegerEncoding in *.
    destruct (string2ll s) as [v |] eqn:Ev; [| done]. apply string2ll_inv in Ev as [Hv ->].
    destruct (load_int_ok v Hv) as (l & Hl1 & Hl2 & Hr1); [by intros E; rewrite E in Hp |].
    exists (rdbEncodeInteger v), l. split; [done |]. split; [done |]. split; [| done].
    apply writes_app_nil. eapply writes_seq; [apply writes_raw | lia | apply writes_ret].
  - destruct (rdb_compression && (20 <? zlen s)) eqn:E20; [| exact Hverb]. apply andb_true_iff in E20 as [_ E20]. apply Z.ltb_lt in E20.
    destruct (lzf_string_ok s ltac:(lia) Ha) as [H0' | (e & He & Hpos & Hre)].
    + destruct Hverb as (e & l & H1' & H2' & H3' & H4'). exists e, l. split; [done |]. split; [done |]. split; [| done].
      change e with ([] ++ e). eapply writes_seq; [exact H0' | done | exact H3'].
    + destruct (as_loaded_ok true s). exists e, (as_loaded true s). split; [done |]. split; [done |]. split; [| done].
      apply writes_app_nil. eapply writes_seq; [exact He | lia |]. rewrite (proj2 (Z.ltb_lt 0 (zlen e)) Hpos). apply writes_ret.
Qed.

Lemma string_object_ok o : (match o with OBJ_INT _ v => is_i64 v | _ => zlen (robj_chars o) < 2 ^ 62 end) ->
  (forall n, 0 <= n <= zlen (robj_chars o) -> can_alloc n = true) ->
  exists enc l, loaded_chars l = robj_chars o /\ loaded_kind flags l /\
    writes (rdbSaveStringObject rdb_compression htab junk o) enc (zlen enc) /\
    reads (rdbGenericLoadStringObject can_alloc no_shared junk flags) enc (Some l) None.
Proof.
  intros Ho Ha. destruct o as [shared v | s | s]; [| by apply raw_string_ok ..]. cbn [rdbSaveStringObject robj_chars] in *.
  unfold rdbSaveLongLongAsStringObject. destruct (Z.ltb_spec 0 (zlen (rdbEncodeInteger v))) as [Hp | Hp].
  - destruct (load_int_ok v Ho) as (l & Hl1 & Hl2 & Hr1); [by intros E; rewrite E in Hp |].
    exists (rdbEncodeInteger v), l. split; [done |]. split; [done |]. split; [apply writes_raw | done].
  - pose proof (zlen_sdec v Ho) as Hs. pose proof (zlen_nonneg (sdec v)).
    destruct (verbatim_ok (sdec v) ltac:(lia) (Ha (zlen (sdec v)) ltac:(lia))) as [_ Hr].
    exists (enc_len (zlen (sdec v)) ++ sdec v), (as_loaded false (sdec v)). destruct (as_loaded_ok false (sdec v)) as [H1' H2'].
    split; [done |]. split; [done |]. split; [| done].
    pose proof (ll2string_spec (fresh_bytes junk 32) 32 v Ho) as Hspec. rewrite zlen_fresh_bytes in Hspec. specialize (Hspec ltac:(lia)).
    rewrite sdigits10_spec in Hspec by done. rewrite (proj2 (Z.ltb_lt _ _)) in Hspec by lia. destruct Hspec as (rest & E & _).
    eapply writes_lift; [exact E |]. cbv beta iota. eapply writes_lift; [unfold assert_; rewrite (proj2 (Z.ltb_lt _ _)) by lia; reflexivity |].
    pose proof (enc_len_length (zlen (sdec v))). eapply writes_seq; [apply save_len_ok; lia | lia |].
    eapply writes_lift; [apply rdn_Some; by exists [], (0 :: rest) |]. apply writes_app_nil.
    rewrite zlen_app. eapply writes_seq; [apply writes_raw | lia | apply writes_ret].
Qed.
End strings.

(** ** Sequences of fields *)

(** What the records of a dump are made of: types and opcodes, lengths, string
    objects, expire times, scores. *)
Inductive field := FType (type : Z) | FLen (n : Z) | FString (o : robj) | FTime (t : Z) | FDouble (val : list Z) | FFloat (val : list Z).
Inductive item := IType (type : Z) | ILen (n : Z) | IChars (bs : list Z) | ITime (t : Z) | IDouble (val : list Z) | IFloat (val : list Z).

Definition field_item (f : field) : item :=
  match f with
  | FType t => IType t | FLen n => ILen n | FString o => IChars (robj_chars o) | FTime t => ITime t
  | FDouble v => IDouble v | FFloat v => IFloat v
  end.

Section fields.
Context `{Host} {B : Type} `{BackendOk B}.
Context (rdb_compression : bool) (htab : lzf_htab) (junk : nat -> Z) (can_alloc : Z -> bool) (no_shared : bool) (flags rdbver : Z).

Definition save_field (f : field) : st (option (rio B)) Z :=
  match f with
  | FType t => rdbSaveType t
  | FLen n => rdbSaveLen n
  | FString o => rdbSaveStringObject rdb_compression htab junk o
  | FTime t => rdbSaveMillisecondTime t
  | FDouble v => rdbSaveBinaryDoubleValue v
  | FFloat v => rdbSaveBinaryFloatValue v
  end.
Fixpoint save_fields (fs : list field) : st (option (rio B)) Z :=
  match fs with
  | [] => st_ret 0
  | f :: fs => n1 <-? save_field f ;; n2 <-? save_fields fs ;; st_ret (n1 + n2)
  end.

(** Load an item of the kind of [f]; after a time the stream's error flag is tested. *)
Definition load_item (f : field) : st (rio B) (option item) :=
  match f with
  | FType _ => t <-! rdbLoadType ;; st_ret (Some (IType t))
  | FLen _ => r <-- rdbLoadLen ;; st_ret (if fst r || (snd r =? RDB_LENERR) then None else Some (ILen (snd r)))
  | FString _ => l <-! rdbGenericLoadStringObject can_alloc no_shared junk flags ;; st_ret (Some (IChars (loaded_chars l)))
  | FTime _ => t <-- rdbLoadMillisecondTime rdbver ;; fun r => Some (r, if read_error r then None else Some (ITime t))
  | FDouble _ => v <-! rdbLoadBinaryDoubleValue ;; st_ret (Some (IDouble v))
  | FFloat _ => v <-! rdbLoadBinaryFloatValue ;; st_ret (Some (IFloat v))
  end.
Fixpoint load_items (fs : list field) : st (rio B) (option (list item)) :=
  match fs with
  | [] => st_ret (Some [])
  | f :: fs => i <-! load_item f ;; tl <-! load_items fs ;; st_ret (Some (i :: tl))
  end.

Definition field_ok (f : field) : Prop :=
  match f with
  | FType t => byte t
  | FLen n => 0 <= n < 2 ^ 64 - 1
  | FString (OBJ_INT _ v) => is_i64 v /\ forall n, 0 <= n <= 20 -> can_alloc n = true
  | FString o => zlen (robj_chars o) < 2 ^ 62 /\ forall n, 0 <= n <= zlen (robj_chars o) -> can_alloc n = true
  | FTime t => is_i64 t
  | FDouble v => length v = 8%nat
  | FFloat v => length v = 4%nat
  end.

Lemma memrev64ifbe_inv v : length v = 8%nat -> memrev64ifbe (memrev64ifbe v) = v /\ zlen (memrev64ifbe v) = 8.
Proof.
  intros E. unfold memrev64ifbe, zlen. destruct big_endian; [| by rewrite E].
  rewrite (memrev64_rev v E), memrev64_rev by (by rewrite length_rev). by rewrite rev_involutive, length_rev, E.
Qed.
Lemma memrev32ifbe_inv v : length v = 4%nat -> memrev32ifbe (memrev32ifbe v) = v /\ zlen (memrev32ifbe v) = 4.
Proof.
  intros E. unfold memrev32ifbe, zlen. destruct big_endian; [| by rewrite E].
  rewrite (memrev32_rev v E), memrev32_rev by (by rewrite length_rev). by rewrite rev_involutive, length_rev, E.
Qed.

Lemma time_ok t : is_i64 t -> 9 <= rdbver ->
  exists enc, writes (B := B) (rdbSaveMillisecondTime t) enc (zlen enc) /\ reads (load_item (FTime t)) enc (Some (ITime t)) None.
Proof.
  intros Ht Hv. exists (memrev64ifbe (native_enc 8 (u64 t))). split; [apply writes_raw |].
  destruct (memrev64ifbe_inv (native_enc 8 (u64 t)) (length_native_enc 8 _)) as [Ei El]. set (enc := memrev64ifbe (native_enc 8 (u64 t))) in *.
  unfold load_item, rdbLoadMillisecondTime. rewrite (proj2 (Z.leb_le 9 rdbver) Hv).
  destruct (reads_raw (B := B) 8 enc El) as [R1 R2]. unfold st_bind, st_ret. split.
  - intros r rest Hr. destruct (R1 r rest Hr) as (r' & -> & Hr'). exists r'. split; [| done]. rewrite (proj1 Hr'), Ei, native_dec_enc.
    do 3 f_equal. f_equal. change (256 ^ Z.of_nat 8) with 18446744073709551616. fold (u64 (u64 t)). rewrite i64_u64, i64_u64. by apply i64_id.
  - intros r p q E Hq Hr. destruct (R2 r p q E Hq Hr) as (r' & -> & Hr'). exists r'. by rewrite Hr'.
Qed.

Lemma field_codec f : htab_ok htab -> 9 <= rdbver -> field_ok f ->
  exists enc, writes (save_field f) enc (zlen enc) /\ reads (load_item f) enc (Some (field_item f)) None.
Proof.
  intros Hh Hv Hf. destruct f as [t | n | o | t | v | v]; cbn [save_field field_item field_ok] in *.
  - exists [t]. split; [unfold rdbSaveType; rewrite u8_id by done; apply writes_raw |].
    unfold load_item. apply reads_app_nil, reads_or_null with (a := t); [| apply reads_ret].
    unfold rdbLoadType. apply reads_app_nil, reads_or_null with (a := [t]); [by apply reads_raw |]. by apply reads_lift_ret.
  - exists (enc_len n). split; [apply save_len_ok; lia |]. unfold load_item. apply reads_app_nil.
    eapply reads_bind; [apply load_len_value; lia | | intros r Hr; by exists r].
    cbn [fst snd orb]. rewrite (proj2 (Z.eqb_neq n RDB_LENERR)) by (unfold RDB_LENERR; lia). apply reads_ret.
  - assert ((match o with OBJ_INT _ v => is_i64 v | _ => zlen (robj_chars o) < 2 ^ 62 end) /\
      (forall n, 0 <= n <= zlen (robj_chars o) -> can_alloc n = true)) as [Ho Ha].
    { destruct o; [| done ..]. destruct Hf as [Hi Hf]. split; [done |]. intros m Hm. apply Hf. cbn [robj_chars] in Hm. pose proof (zlen_sdec _ Hi). lia. }
    destruct (string_object_ok rdb_compression htab junk can_alloc no_shared flags Hh o Ho Ha) as (enc & l & El & _ & Hw & Hr).
    exists enc. split; [exact Hw |]. unfold load_item. apply reads_app_nil, reads_or_null with (a := l); [exact Hr |]. rewrite El. apply reads_ret.
  - by apply time_ok.
  - destruct (memrev64ifbe_inv v Hf) as [E1 E2]. exists (memrev64ifbe v). split; [apply writes_raw |]. unfold load_item.
    apply reads_app_nil, reads_or_null with (a := v); [| apply reads_ret]. unfold rdbLoadBinaryDoubleValue.
    apply reads_app_nil, reads_or_null with (a := memrev64ifbe v); [by apply reads_raw |]. rewrite E1. apply reads_ret.
  - destruct (memrev32ifbe_inv v Hf) as [E1 E2]. exists (memrev32ifbe v). split; [apply writes_raw |]. unfold load_item.
    apply reads_app_nil, reads_or_null with (a := v); [| apply reads_ret]. unfold rdbLoadBinaryFloatValue.
    apply reads_app_nil, reads_or_null with (a := memrev32ifbe v); [by apply reads_raw |]. rewrite E1. apply reads_ret.
Qed.

Lemma fields_codec fs : htab_ok htab -> 9 <= rdbver -> Forall field_ok fs ->
  exists enc, writes (save_fields fs) enc (zlen enc) /\ reads (load_items fs) enc (Some (map field_item fs)) None.
Proof.
  intros Hh Hv. induction 1 as [| f fs Hf Hfs (enc2 & W2 & R2)]; cbn [save_fields load_items map].
  - exists []. split; [apply writes_ret | apply reads_ret].
  - destruct (field_codec f Hh Hv Hf) as (enc1 & W1 & R1). exists (enc1 ++ enc2). pose proof (zlen_nonneg enc1). pose proof (zlen_nonneg enc2). split.
    + eapply writes_seq; [exact W1 | lia |]. apply writes_app_nil. eapply writes_seq; [exact W2 | lia |]. rewrite zlen_app. apply writes_ret.
    + eapply reads_or_null; [exact R1 |]. apply reads_app_nil. eapply reads_or_null; [exact R2 | apply reads_ret].
Qed.

(** C11: the dump format round trips and detects truncation, on hosts of either
    byte order, with compression on or off and whatever the compressor's hash table
    and the fresh buffers hold.  For every sequence of types, lengths, string
    objects (raw, embedded or integer), times and floating point numbers there is one encoding such that:
    saving to the NULL stream counts its bytes; saving to a
    stream appends exactly it and returns its length, or returns -1 with the stream marked;
    loading it from a stream of any back end and chunk size gives the
    same fields, whatever the flags and whatever follows, and leaves the rest
    unread; and loading from any proper prefix of it returns NULL with the read error set. *)
Theorem rdb_fields_roundtrip fs : htab_ok htab -> 9 <= rdbver -> Forall field_ok fs ->
  exists enc,
    save_fields fs None = Some (None, zlen enc) /\
    (forall r, write_error r = false -> 0 <= max_processing_chunk r ->
       exists r' n, save_fields fs (Some r) = Some (Some r', n) /\
         ((n = -1 /\ write_error r' = true) \/ (n = zlen enc /\ write_error r' = false /\ bk_sunk (io r') = bk_sunk (io r) ++ enc))) /\
    (forall r rest, readable r (enc ++ rest) -> exists r', load_items fs r = Some (r', Some (map field_item fs)) /\ readable r' rest) /\
    (forall r p q, enc = p ++ q -> q <> [] -> readable r p -> exists r', load_items fs r = Some (r', None) /\ read_error r' = true).
Proof.
  intros Hh Hv Hfs. destruct (fields_codec fs Hh Hv Hfs) as (enc & [Wn Wr] & [R1 R2]). exists enc. split; [done |].
  split; [| by split]. intros r Hw Hm. destruct (Wr r Hw Hm) as (r' & n & E & [Hn | (-> & H1' & _ & H2')]); exists r'; eauto 10.
Qed.
End fields.

Section safe.
Context {B : Type} `{BackendOk B}.

(** A stream that may have failed, or still holds bytes. *)
Definition stream_ok (r : rio B) : Prop := read_error r = true \/ exists bs, readable r bs /\ bytes bs.

(** [m] returns a value with [P], without an access outside a buffer. *)
Definition safe {A} (m : st (rio B) A) (P : A -> Prop) : Prop :=
  forall r, stream_ok r -> exists r' a, m r = Some (r', a) /\ stream_ok r' /\ P a.

Lemma safe_ret {A} (a : A) (P : A -> Prop) : P a -> safe (st_ret a) P.
Proof. intros Ha r Hr. by exists r, a. Qed.

Lemma safe_lift {A} (o : option A) (P : A -> Prop) : (exists a, o = Some a /\ P a) -> safe (st_lift o) P.
Proof. intros (a & -> & Ha) r Hr. by exists r, a. Qed.

Lemma safe_bind {A A'} (m : st (rio B) A) (P : A -> Prop) (f : A -> st (rio B) A') (Q : A' -> Prop) :
  safe m P -> (forall a, P a -> safe (f a) Q) -> safe (st_bind m f) Q.
Proof. intros Hm Hf r Hr. destruct (Hm r Hr) as (r' & a & E & Hr' & Ha). unfold st_bind. rewrite E. by apply (Hf a Ha). Qed.

(** A result that is NULL or has [P]. *)
Definition null_or {A} (P : A -> Prop) (o : option A) : Prop := match o with Some a => P a | None => True end.

Lemma safe_or_null {A A'} (m : st (rio B) (option A)) (P : A -> Prop) (f : A -> st (rio B) (option A')) (Q : A' -> Prop) :
  safe m (null_or P) -> (forall a, P a -> safe (f a) (null_or Q)) -> safe (x <-! m ;; f x) (null_or Q).
Proof. intros Hm Hf. unfold or_null. eapply safe_bind; [exact Hm |]. intros [a |] Ha; [by apply Hf | by apply safe_ret]. Qed.

Lemma safe_read n : 0 <= n -> safe (rioRead n) (null_or (fun bs => bytes bs /\ zlen bs = n)).
Proof.
  intros Hn r [He | (bs & Hr & Hb)].
  - exists r, None. split; [by apply rioRead_error |]. split; [by left | done].
  - destruct (rioRead_ok n r bs Hn Hr) as (r' & res & E & Hres). exists r', res. split; [done |].
    destruct (Z.leb_spec n (zlen bs)); destruct Hres as [-> Hr']; [| by split; [left |]].
    split; [right; eexists; split; [exact Hr' | by apply Forall_drop] |]. split; [by apply Forall_take | by apply zlen_take].
Qed.

Lemma rd_bytes bs i : bytes bs -> 0 <= i < zlen bs -> exists b, rd bs i = Some b /\ byte b.
Proof.
  intros Hb Hi. unfold rd. rewrite (proj2 (Z.leb_le 0 i)) by lia.
  destruct (lookup_lt_is_Some_2 bs (Z.to_nat i)) as [b Hlk]; [unfold zlen in Hi; lia |]. exists b. split; [done |].
  by eapply Forall_lookup_1.
Qed.

Context `{Host}.
Context (can_alloc : Z -> bool) (no_shared : bool) (junk : nat -> Z) (flags rdbver : Z).

Lemma native_dec_bounds bs n : bytes bs -> zlen bs = n -> 0 <= native_dec bs < 256 ^ n.
Proof.
  intros Hb <-. unfold native_dec. destruct big_endian; [| by apply le_dec_bound].
  pose proof (le_dec_bound (rev bs) (Forall_rev Hb)) as Hd. unfold zlen in *. by rewrite length_rev in Hd.
Qed.

Lemma safe_load_len : safe rdbLoadLen (fun p => 0 <= p.2).
Proof.
  unfold rdbLoadLen, rdbLoadLenByRef. eapply (safe_bind _ (null_or (fun p => 0 <= p.2))).
  2: { intros [p |] Hp; apply safe_ret; [exact Hp | done]. }
  eapply safe_or_null; [by apply safe_read |]. intros buf [Hb Hl]. destruct (rd_bytes buf 0 Hb ltac:(lia)) as (b0 & E0 & Hb0).
  eapply (safe_bind _ (fun b => b = b0)); [apply safe_lift; by exists b0 |]. intros _ ->. destruct (head_facts b0 Hb0) as [-> ->].
  assert (0 <= b0 mod 64) by (apply Z.mod_pos_bound; lia). cbv zeta.
  repeat (case_if; [try (by apply safe_ret) |]); [| | | by apply safe_ret].
  - eapply safe_or_null; [by apply safe_read |]. intros buf1 [Hb1 Hl1]. destruct (rd_bytes buf1 0 Hb1 ltac:(lia)) as (b1 & E1 & Hb1').
    eapply (safe_bind _ (fun b => b = b1)); [apply safe_lift; by exists b1 |]. intros _ ->. apply safe_ret. cbn [null_or snd].
    unfold byte in Hb1'. apply Z.lor_nonneg. split; [apply Z.shiftl_nonneg; lia | lia].
  - eapply safe_or_null; [by apply safe_read |]. intros len [Hb1 Hl1]. apply safe_ret. cbn [null_or snd].
    pose proof (native_dec_bounds len 4 Hb1 Hl1). unfold ntohl. destruct big_endian; [lia |]. autorewrite with endian. apply byteswap_bound.
  - eapply safe_or_null; [by apply safe_read |]. intros len [Hb1 Hl1]. apply safe_ret. cbn [null_or snd].
    pose proof (native_dec_bounds len 8 Hb1 Hl1). unfold ntohu64. destruct big_endian; [lia |]. autorewrite with endian. apply byteswap_bound.
Qed.

Lemma wraps8_range b : is_i64 (wraps 8 b).
Proof. unfold is_i64, wraps. change (2 ^ 8) with 256. change (2 ^ (8 - 1)) with 128. dm. Qed.
Lemma i16_range z : is_i64 (i16 z).
Proof. unfold is_i64, i16. dm. Qed.
Lemma i32_range z : is_i64 (i32 z).
Proof. unfold is_i64, i32. dm. Qed.

Lemma safe_load_int enctype : safe (rdbLoadIntegerObject no_shared junk enctype flags) (null_or (fun _ => True)).
Proof.
  unfold rdbLoadIntegerObject. cbv zeta. eapply (safe_or_null _ is_i64).
  - repeat case_if; [| | | by apply safe_ret].
    + eapply safe_or_null; [by apply safe_read |]. intros buf [Hb Hl]. destruct (rd_bytes buf 0 Hb ltac:(lia)) as (b0 & E0 & _).
      apply safe_lift. rewrite E0. cbn [mbind option_bind]. eexists. split; [reflexivity | apply wraps8_range].
    + eapply safe_or_null; [by apply safe_read |]. intros buf [Hb Hl].
      destruct (rd_bytes buf 0 Hb ltac:(lia)) as (b0 & E0 & _), (rd_bytes buf 1 Hb ltac:(lia)) as (b1 & E1 & _).
      apply safe_lift. rewrite E0, E1. cbn [mbind option_bind]. eexists. split; [reflexivity | apply i16_range].
    + eapply safe_or_null; [by apply safe_read |]. intros buf [Hb Hl].
      destruct (rd_bytes buf 0 Hb ltac:(lia)) as (b0 & E0 & _), (rd_bytes buf 1 Hb ltac:(lia)) as (b1 & E1 & _),
        (rd_bytes buf 2 Hb ltac:(lia)) as (b2 & E2 & _), (rd_bytes buf 3 Hb ltac:(lia)) as (b3 & E3 & _).
      apply safe_lift. rewrite E0, E1, E2, E3. cbn [mbind option_bind]. eexists. split; [reflexivity | apply i32_range].
  - intros v Hv. destruct (int_result_ok junk no_shared flags v Hv) as (l & _ & _ & E). apply safe_lift. by rewrite E; eexists.
Qed.

Lemma safe_load_lzf : safe (rdbLoadLzfStringObject can_alloc junk flags) (null_or (fun _ => True)).
Proof.
  unfold rdbLoadLzfStringObject. cbv zeta. eapply safe_bind; [apply safe_load_len |]. intros [b clen] Hc. cbn [snd] in *.
  case_if; [by apply safe_ret |]. eapply safe_bind; [apply safe_load_len |]. intros [b' len] Hl. cbn [snd] in *.
  case_if; [by apply safe_ret |]. case_if; [by apply safe_ret |]. case_if; [by apply safe_ret |].
  eapply safe_or_null; [by apply safe_read |]. intros c [Hb _].
  destruct (lzf_decompress_total c (fresh_bytes junk len) Hb) as (res & out & Ed & _).
  eapply (safe_bind _ (fun _ => True)); [apply safe_lift; rewrite Ed; by eexists |]. intros [r' v] _. case_if; by apply safe_ret.
Qed.

Lemma safe_load_string : safe (rdbGenericLoadStringObject can_alloc no_shared junk flags) (null_or (fun _ => True)).
Proof.
  unfold rdbGenericLoadStringObject. cbv zeta. eapply safe_bind; [apply safe_load_len |]. intros [enc len] Hl. cbn [snd] in *.
  case_if; [by apply safe_ret |]. destruct enc.
  - destruct ((len =? RDB_ENC_INT8) || (len =? RDB_ENC_INT16) || (len =? RDB_ENC_INT32)); [apply safe_load_int |].
    case_if; [apply safe_load_lzf | by apply safe_ret].
  - destruct (negb (_ || can_alloc len)); [by apply safe_ret |]. eapply (safe_or_null _ (fun _ => True)); [| intros bs _; by apply safe_ret].
    destruct (len =? 0); [by apply safe_ret |]. intros r Hr. destruct (safe_read len Hl r Hr) as (r' & o & E & Hr' & _). exists r', o. by destruct o.
Qed.

Lemma safe_load_item f : safe (load_item junk can_alloc no_shared flags rdbver f) (null_or (fun _ => True)).
Proof.
  destruct f; cbn [load_item].
  - eapply (safe_or_null _ (fun _ => True)); [| intros t _; by apply safe_ret]. unfold rdbLoadType.
    eapply safe_or_null; [by apply safe_read |]. intros bs [Hb Hl]. destruct (rd_bytes bs 0 Hb ltac:(lia)) as (b & E & _).
    apply safe_lift. rewrite E. by eexists.
  - eapply safe_bind; [apply safe_load_len |]. intros p _. apply safe_ret. by case_if.
  - eapply safe_or_null; [apply safe_load_string |]. intros l _. by apply safe_ret.
  - eapply (safe_bind _ (fun _ => True)).
    + unfold rdbLoadMillisecondTime. eapply safe_bind; [by apply safe_read |]. intros [bs |] _; by apply safe_ret.
    + intros t' _ r Hr. eexists r, _. split; [reflexivity |]. split; [done |]. by destruct (read_error r).
  - eapply (safe_or_null _ (fun _ => True)); [| intros v _; by apply safe_ret]. unfold rdbLoadBinaryDoubleValue.
    eapply safe_or_null; [by apply safe_read |]. intros bs _. by apply safe_ret.
  - eapply (safe_or_null _ (fun _ => True)); [| intros v _; by apply safe_ret]. unfold rdbLoadBinaryFloatValue.
    eapply safe_or_null; [by apply safe_read |]. intros bs _. by apply safe_ret.
Qed.

(** C12: loading any bytes as any sequence of fields returns: a value or NULL
    (unknown encodings, lengths that cannot be allocated, compressed data
    that does not decompress to its announced length, truncated data), never
    an access outside a buffer. *)
Theorem rdb_load_safe fs r bs : readable r bs -> bytes bs ->
  exists r' res, load_items junk can_alloc no_shared flags rdbver fs r = Some (r', res).
Proof.
  intros Hr Hb. assert (safe (load_items junk can_alloc no_shared flags rdbver fs) (null_or (fun _ => True))) as Hs.
  { clear. induction fs as [| f fs IH]; cbn [load_items]; [by apply safe_ret |].
    eapply safe_or_null; [apply safe_load_item |]. intros i _. eapply safe_or_null; [exact IH |]. intros tl _. by apply safe_ret. }
  destruct (Hs r) as (r' & res & E & _); [right; eauto | eauto].
Qed.
End safe.

(** ** A concrete dump *)

Definition little_endian : Host := false.
#[local] Existing Instance little_endian.

Definition example_fields : list field :=
  [FType 0; FString (OBJ_EMBSTR [45; 49; 50; 51]); FString (OBJ_RAW (repeat 97 40 ++ [98; 99])); FString (OBJ_INT false 1234567890123);
   FString (OBJ_EMBSTR []); FLen 70000; FTime 1700000000123; FDouble [1; 2; 3; 4; 5; 6; 7; 8]].

Definition example_dump : list Z :=
  [0; 192; 133; 195; 9; 42; 1; 97; 97; 224; 29; 0; 1; 98; 99; 13; 49; 50;
   51; 52; 53; 54; 55; 56; 57; 48; 49; 50; 51; 0; 128; 0; 1; 17; 112; 123].

Example dump_bytes : (fun r => match r with Some (Some r, n) => Some (take 36 (buf_ptr (io r)), n) | _ => None end)
  (save_fields true (fun _ => 0) (fun _ => 0) example_fields (Some (rioInitWithBuffer []))) = Some (example_dump, 51).
Proof. vm_compute. reflexivity. Qed.

Lemma example_fields_ok : Forall (field_ok (fun n => n <? 100)) example_fields.
Proof.
  repeat (apply Forall_cons; split); try apply Forall_nil; try done; cbn [field_ok robj_chars];
    (split; [done |]); intros n Hn; apply Z.ltb_lt; revert Hn; vm_compute zlen; lia.
Qed.

Lemma rdb_fields_roundtrip_witness : exists enc,
  save_fields true (fun _ => 0) (fun _ => 0) example_fields (B := rio_buffer) None = Some (None, zlen enc) /\
  (forall r : rio rio_buffer, write_error r = false -> 0 <= max_processing_chunk r ->
     exists r' n, save_fields true (fun _ => 0) (fun _ => 0) example_fields (Some r) = Some (Some r', n) /\
       ((n = -1 /\ write_error r' = true) \/ (n = zlen enc /\ write_error r' = false /\ bk_sunk (io r') = bk_sunk (io r) ++ enc))) /\
  (forall (r : rio rio_buffer) rest, readable r (enc ++ rest) ->
     exists r', load_items (fun _ => 0) (fun n => n <? 100) false 0 11 example_fields r = Some (r', Some (map field_item example_fields)) /\ readable r' rest) /\
  (forall (r : rio rio_buffer) p q, enc = p ++ q -> q <> [] -> readable r p ->
     exists r', load_items (fun _ => 0) (fun n => n <? 100) false 0 11 example_fields r = Some (r', None) /\ read_error r' = true).
Proof.
  apply rdb_fields_roundtrip; [intros i; lia | lia | apply example_fields_ok].
Defined.

Lemma rdb_load_safe_witness : exists r' res,
  load_items (fun _ => 0) (fun n => n <? 100) false 0 11 example_fields (rioInitWithBuffer example_dump) = Some (r', res).
Proof.
  apply (rdb_load_safe (fun n => n <? 100) false (fun _ => 0) 0 11 example_fields (rioInitWithBuffer example_dump) example_dump).
  - unfold readable. split; [done |]. split; [split; vm_compute; split; congruence |]. split; [done | cbn; lia].
  - unfold example_dump, bytes. forall_lit ltac:(unfold byte; lia).
Defined.
