(* ===== verification/Resp.v ===== *)
(** networking.c: the request parser, a state machine that turns the bytes
    received from a client into commands.

    [client] holds the fields of [struct client] the parser uses; the query
    buffer is represented by the content of its sds string, so [c->querybuf] as
    a C string is that content and a terminator.  The bookkeeping of peak memory
    ([querybuf_peak]) and the reservation of room are not represented.
    [processCommand] is a parameter: what executing a command does to
    the client and to the rest of the server; its two booleans are the C result
    being C_OK, and the client having been freed.  [None] is a failed assertion or an
    access outside a buffer. *)
From S2P Require Import Prelude Strnum Sds SdsText.

Definition PROTO_INLINE_MAX_SIZE : Z := 1024 * 64.
Definition PROTO_MBULK_BIG_ARG : Z := 1024 * 32.
Definition INT_MAX : Z := 2147483647.
Definition PROTO_REQ_INLINE : Z := 1.
Definition PROTO_REQ_MULTIBULK : Z := 2.

(** The flags of a client the parser tests or sets. *)
Record client_flags := Flags {
  CLIENT_MASTER : bool; CLIENT_SLAVE : bool; CLIENT_MONITOR : bool; CLIENT_MULTI : bool; CLIENT_BLOCKED : bool; CLIENT_PENDING_COMMAND : bool;
  CLIENT_CLOSE_AFTER_REPLY : bool; CLIENT_CLOSE_ASAP : bool; CLIENT_PROTOCOL_ERROR : bool }.

(** [getClientType(c) == CLIENT_TYPE_SLAVE]: the type of a master is another
    one, and MONITOR clients, which are marked as replicas, are normal clients. *)
Definition is_replica (f : client_flags) : bool := negb (CLIENT_MASTER f) && CLIENT_SLAVE f && negb (CLIENT_MONITOR f).

Inductive protocol_error :=
| too_big_inline | unbalanced_quotes | inline_from_master | too_big_mbulk_count | invalid_mbulk_count
| unauth_mbulk_count | too_big_bulk_count | expected_dollar (got : Z) | invalid_bulk_length | unauth_bulk_length.

(** The command being read: [argc] is the length of [argv], [argv_len] the
    number of slots allocated. *)
Record request := Request {
  reqtype : Z; argv : list (list Z); argv_len : Z; argv_len_sum : Z; multibulklen : Z; bulklen : Z }.

Record client := Client {
  querybuf : list Z; qb_pos : Z; req : request; flags : client_flags;
  repl_ack_time : Z; reploff : Z; read_reploff : Z; repl_applied : Z; errors : list protocol_error }.

Definition argc (r : request) : Z := zlen (argv r).

Definition set_buffer (c : client) (q : list Z) (p : Z) : client :=
  Client q p (req c) (flags c) (repl_ack_time c) (reploff c) (read_reploff c) (repl_applied c) (errors c).
Definition set_req (c : client) (r : request) : client :=
  Client (querybuf c) (qb_pos c) r (flags c) (repl_ack_time c) (reploff c) (read_reploff c) (repl_applied c) (errors c).
Definition set_flags (c : client) (f : client_flags) : client :=
  Client (querybuf c) (qb_pos c) (req c) f (repl_ack_time c) (reploff c) (read_reploff c) (repl_applied c) (errors c).
Definition set_repl (c : client) (off applied : Z) : client :=
  Client (querybuf c) (qb_pos c) (req c) (flags c) (repl_ack_time c) off (read_reploff c) applied (errors c).
Definition set_bulklen (c : client) (n : Z) : client :=
  let r := req c in set_req c (Request (reqtype r) (argv r) (argv_len r) (argv_len_sum r) (multibulklen r) n).

(** [setProtocolError]; [errors] collects the errors, which but for the one
    about a master's inline command are also sent as replies. *)
Definition setProtocolError (e : protocol_error) (c : client) : client :=
  let f := flags c in
  Client (querybuf c) (qb_pos c) (req c)
    (Flags (CLIENT_MASTER f) (CLIENT_SLAVE f) (CLIENT_MONITOR f) (CLIENT_MULTI f) (CLIENT_BLOCKED f) (CLIENT_PENDING_COMMAND f) true (CLIENT_CLOSE_ASAP f) true)
    (repl_ack_time c) (reploff c) (read_reploff c) (repl_applied c) (errors c ++ [e]).
Definition set_pending (b : bool) (c : client) : client :=
  let f := flags c in
  set_flags c (Flags (CLIENT_MASTER f) (CLIENT_SLAVE f) (CLIENT_MONITOR f) (CLIENT_MULTI f) (CLIENT_BLOCKED f) b (CLIENT_CLOSE_AFTER_REPLY f) (CLIENT_CLOSE_ASAP f) (CLIENT_PROTOCOL_ERROR f)).
Definition set_close_asap (c : client) : client :=
  let f := flags c in
  set_flags c (Flags (CLIENT_MASTER f) (CLIENT_SLAVE f) (CLIENT_MONITOR f) (CLIENT_MULTI f) (CLIENT_BLOCKED f) (CLIENT_PENDING_COMMAND f) (CLIENT_CLOSE_AFTER_REPLY f) true (CLIENT_PROTOCOL_ERROR f)).

(** The part of [resetClient] that concerns the request. *)
Definition resetClient (c : client) : client := set_req c (Request 0 [] 0 0 0 (-1)).

(** [strchr(c->querybuf+c->qb_pos, ch)] *)
Definition find_newline (c : client) (ch : Z) : option (option Z) := strchr (querybuf c ++ [0]) (qb_pos c) ch.

(** Bytes of the buffer not parsed yet. *)
Definition unparsed (c : client) : Z := zlen (querybuf c) - qb_pos c.

(** [C_OK], [C_ERR], or go on with the next statement. *)
Inductive status := C_OK | C_ERR | Continue.

Section parser.
Context (usable : Z -> Z) (junk : nat -> Z).
(** [authRequired(c)], [server.proto_max_bulk_len], [server.unixtime],
    [server.client_max_querybuf_len]. *)
Context (authRequired : bool) (proto_max_bulk_len unixtime client_max_querybuf_len : Z).

(** ** The inline protocol *)

Definition processInlineBuffer (c : client) : option (client * status) :=
  newline ← find_newline c 10;
  match newline with
  | None =>
      if PROTO_INLINE_MAX_SIZE <? unparsed c then Some (setProtocolError too_big_inline c, C_ERR) else Some (c, C_ERR)
  | Some newline =>
      prev ← (if newline =? qb_pos c then Some 0 else rd (querybuf c) (newline - 1));
      let cr := negb (newline =? qb_pos c) && (prev =? 13) in
      let linefeed_chars := if cr then 2 else 1 in
      let newline := if cr then newline - 1 else newline in
      let querylen := newline - qb_pos c in
      line ← rdn (querybuf c) (qb_pos c) querylen;
      r ← sdssplitargs usable junk (line ++ [0]);
      match r with
      | None => Some (setProtocolError unbalanced_quotes c, C_ERR)
      | Some toks =>
          let c := if (querylen =? 0) && is_replica (flags c)
                   then Client (querybuf c) (qb_pos c) (req c) (flags c) unixtime (reploff c) (read_reploff c) (repl_applied c) (errors c)
                   else c in
          if negb (querylen =? 0) && CLIENT_MASTER (flags c) then Some (setProtocolError inline_from_master c, C_ERR)
          else
            args ← mapM (fun t => rdn (s_buf t) 0 (sdslen t)) toks;
            let c := set_buffer c (querybuf c) (qb_pos c + querylen + linefeed_chars) in
            let r := req c in
            let alloc := if zlen args =? 0 then argv_len r else zlen args in
            let sum := (if zlen args =? 0 then argv_len_sum r else 0) + foldr Z.add 0 (map zlen args) in
            Some (set_req c (Request (reqtype r) args alloc sum (multibulklen r) (bulklen r)), C_OK)
      end
  end.

(** ** The RESP protocol *)

(** The header line [*<count>\r\n]. *)
Definition mbulk_header (c : client) : option (client * status) :=
  _ ← assert_ (argc (req c) =? 0);
  newline ← find_newline c 13;
  match newline with
  | None =>
      if PROTO_INLINE_MAX_SIZE <? unparsed c then Some (setProtocolError too_big_mbulk_count c, C_ERR) else Some (c, C_ERR)
  | Some newline =>
      if unparsed c - 2 <? newline - qb_pos c then Some (c, C_ERR)
      else
        star ← rd (querybuf c) (qb_pos c);
        _ ← assert_ (star =? 42);
        line ← rdn (querybuf c) (qb_pos c + 1) (newline - (qb_pos c + 1));
        match string2ll line with
        | None => Some (setProtocolError invalid_mbulk_count c, C_ERR)
        | Some ll =>
            if INT_MAX <? ll then Some (setProtocolError invalid_mbulk_count c, C_ERR)
            else if (10 <? ll) && authRequired then Some (setProtocolError unauth_mbulk_count c, C_ERR)
            else
              let c := set_buffer c (querybuf c) (newline + 2) in
              if ll <=? 0 then Some (c, C_OK)
              else
                let r := req c in
                Some (set_req c (Request (reqtype r) (argv r) (Z.min ll 1024) 0 ll (bulklen r)), Continue)
        end
  end.

(** The line [$<length>\r\n] before an argument; [C_OK] here is a [break]. *)
Definition mbulk_length (c : client) : option (client * status) :=
  newline ← find_newline c 13;
  match newline with
  | None =>
      if PROTO_INLINE_MAX_SIZE <? unparsed c then Some (setProtocolError too_big_bulk_count c, C_ERR) else Some (c, C_OK)
  | Some newline =>
      if unparsed c - 2 <? newline - qb_pos c then Some (c, C_OK)
      else
        dollar ← rd (querybuf c) (qb_pos c);
        if negb (dollar =? 36) then Some (setProtocolError (expected_dollar dollar) c, C_ERR)
        else
          line ← rdn (querybuf c) (qb_pos c + 1) (newline - (qb_pos c + 1));
          match string2ll line with
          | None => Some (setProtocolError invalid_bulk_length c, C_ERR)
          | Some ll =>
              if (ll <? 0) || (negb (CLIENT_MASTER (flags c)) && (proto_max_bulk_len <? ll))
              then Some (setProtocolError invalid_bulk_length c, C_ERR)
              else if (16384 <? ll) && authRequired then Some (setProtocolError unauth_bulk_length c, C_ERR)
              else
                let c := set_buffer c (querybuf c) (newline + 2) in
                let c := if negb (CLIENT_MASTER (flags c)) && (PROTO_MBULK_BIG_ARG <=? ll) && (unparsed c <=? ll + 2)
                         then set_buffer c (drop (Z.to_nat (qb_pos c)) (querybuf c)) 0 else c in
                Some (set_bulklen c ll, Continue)
          end
  end.

(** The argument itself; [C_OK] here is a [break].  The slot written is
    checked against the allocation. *)
Definition mbulk_arg (c : client) : option (client * status) :=
  let r := req c in
  if unparsed c <? u64 (bulklen r + 2) then Some (c, C_OK)
  else
    let slots := if argv_len r <=? argc r
                 then Z.min (if argv_len r <? INT_MAX / 2 then argv_len r * 2 else INT_MAX) (argc r + multibulklen r)
                 else argv_len r in
    _ ← assert_ (argc r <? slots);
    '(arg, c) ← (if negb (CLIENT_MASTER (flags c)) && (qb_pos c =? 0) && (PROTO_MBULK_BIG_ARG <=? bulklen r) && (zlen (querybuf c) =? bulklen r + 2)
                 then Some (take (Z.to_nat (zlen (querybuf c) - 2)) (querybuf c), set_buffer c [] (qb_pos c))
                 else arg ← rdn (querybuf c) (qb_pos c) (bulklen r);
                      Some (arg, set_buffer c (querybuf c) (qb_pos c + bulklen r + 2)));
    Some (set_req c (Request (reqtype r) (argv r ++ [arg]) slots (argv_len_sum r + bulklen r) (multibulklen r - 1) (-1)), Continue).

(** [while(c->multibulklen)]; every turn that does not leave consumes at least two bytes. *)
Fixpoint mbulk_loop (fuel : nat) (c : client) : option (client * status) :=
  if multibulklen (req c) =? 0 then Some (c, C_OK)
  else
    match fuel with
    | O => None
    | S fuel =>
        '(c, s) ← (if bulklen (req c) =? -1 then mbulk_length c else Some (c, Continue));
        match s with
        | C_ERR => Some (c, C_ERR)
        | C_OK => Some (c, if multibulklen (req c) =? 0 then C_OK else C_ERR)
        | Continue =>
            '(c, s) ← mbulk_arg c;
            match s with
            | Continue => mbulk_loop fuel c
            | _ => Some (c, if multibulklen (req c) =? 0 then C_OK else C_ERR)
            end
        end
    end.

Definition processMultibulkBuffer (c : client) : option (client * status) :=
  '(c, s) ← (if multibulklen (req c) =? 0 then mbulk_header c else Some (c, Continue));
  match s with
  | Continue =>
      _ ← assert_ (0 <? multibulklen (req c));
      mbulk_loop (S (length (querybuf c))) c
  | _ => Some (c, s)
  end.

(** ** The input loop *)

Section commands.
Context {X : Type} (processCommand : client -> X -> client * X * bool * bool).
(** [io_threads_op != IO_THREADS_OP_IDLE]; [isInsideYieldingLongCommand()]. *)
Context (io_thread yielding : bool).

Definition commandProcessed (c : client) : client :=
  if CLIENT_BLOCKED (flags c) then c
  else
    let c := resetClient c in
    let prev_offset := reploff c in
    let off := if CLIENT_MASTER (flags c) && negb (CLIENT_MULTI (flags c)) then read_reploff c - zlen (querybuf c) + qb_pos c else reploff c in
    if CLIENT_MASTER (flags c) then set_repl c off (repl_applied c + (off - prev_offset)) else c.

(** The boolean is C_OK. *)
Definition processCommandAndResetClient (c : client) (x : X) : client * X * bool :=
  let '(c, x, ok, dead) := processCommand c x in
  let c := if (ok : bool) then commandProcessed c else c in
  (c, x, negb dead).

Definition parse_request (c : client) : option (client * status) :=
  ch ← rd (querybuf c) (qb_pos c);
  let r := req c in
  let c := if reqtype r =? 0
           then set_req c (Request (if ch =? 42 then PROTO_REQ_MULTIBULK else PROTO_REQ_INLINE) (argv r) (argv_len r) (argv_len_sum r) (multibulklen r) (bulklen r))
           else c in
  if reqtype (req c) =? PROTO_REQ_INLINE then processInlineBuffer c
  else if reqtype (req c) =? PROTO_REQ_MULTIBULK then processMultibulkBuffer c
  else None.

(** The loop of [processInputBuffer]; the boolean is false when the client was freed. *)
Fixpoint input_loop (fuel : nat) (c : client) (x : X) : option (client * X * bool) :=
  if qb_pos c <? zlen (querybuf c) then
    match fuel with
    | O => None
    | S fuel =>
        let f := flags c in
        if CLIENT_BLOCKED f || CLIENT_PENDING_COMMAND f || (yielding && CLIENT_MASTER f) || CLIENT_CLOSE_AFTER_REPLY f || CLIENT_CLOSE_ASAP f
        then Some (c, x, true)
        else
          '(c, s) ← parse_request c;
          match s with
          | C_OK =>
              if argc (req c) =? 0 then input_loop fuel (resetClient c) x
              else if io_thread then Some (set_pending true c, x, true)
              else
                let '(c, x, ok) := processCommandAndResetClient c x in
                if negb ok then Some (c, x, false) else input_loop fuel c x
          | _ => Some (c, x, true)
          end
    end
  else Some (c, x, true).

Definition trim_buffer (c : client) : client :=
  if CLIENT_MASTER (flags c) then
    if negb (repl_applied c =? 0)
    then set_repl (set_buffer c (drop (Z.to_nat (repl_applied c)) (querybuf c)) (qb_pos c - repl_applied c)) (reploff c) 0
    else c
  else if negb (qb_pos c =? 0) then set_buffer c (drop (Z.to_nat (qb_pos c)) (querybuf c)) 0
  else c.

Definition processInputBuffer (c : client) (x : X) : option (client * X * bool) :=
  '(c, x, ok) ← input_loop (S (length (querybuf c))) c x;
  if (ok : bool) then Some (trim_buffer c, x, true) else Some (c, x, false).

Definition processPendingCommandAndInputBuffer (c : client) (x : X) : option (client * X * bool) :=
  let '(c, x, ok) :=
    if CLIENT_PENDING_COMMAND (flags c) then processCommandAndResetClient (set_pending false c) x else (c, x, true) in
  if negb ok then Some (c, x, false)
  else if 0 <? zlen (querybuf c) then processInputBuffer c x
  else Some (c, x, true).

(** What [connRead] returns: an error, the end of the stream, or bytes. *)
Inductive received := ReadError (connected : bool) | ReadEof | ReadBytes (bs : list Z).

(** From the read on. *)
Definition readQueryFromClient (recv : received) (c : client) (x : X) : option (client * X * bool) :=
  match recv with
  | ReadError connected => Some (if connected then c else set_close_asap c, x, true)
  | ReadEof => Some (set_close_asap c, x, true)
  | ReadBytes bs =>
      let master := CLIENT_MASTER (flags c) in
      let c := Client (querybuf c ++ bs) (qb_pos c) (req c) (flags c) (repl_ack_time c) (reploff c)
                 (if master then read_reploff c + zlen bs else read_reploff c) (repl_applied c) (errors c) in
      if negb master && (client_max_querybuf_len <? zlen (querybuf c)) then Some (set_close_asap c, x, true)
      else processInputBuffer c x
  end.
End commands.
End parser.
