(* ===== verification/RespThms.v ===== *)
(** networking.c: requests are parsed and executed the same however the bytes are
    cut into reads. *)
From S2P Require Import Prelude Strnum Sds SdsThms SdsText SdsTextThms SdsFmt Resp.

(** ** Lines *)

(** The buffer holds [u] from the parsing position on. *)
Definition at_buf (c : client) (u : list Z) : Prop := exists a, querybuf c = a ++ u /\ qb_pos c = zlen a.

Lemma at_buf_unparsed c u : at_buf c u -> unparsed c = zlen u.
Proof. intros (a & E & Ep). unfold unparsed. rewrite E, Ep, zlen_app. lia. Qed.

Lemma at_buf_rd c u i : at_buf c u -> 0 <= i -> rd (querybuf c) (qb_pos c + i) = rd u i.
Proof. intros (a & E & Ep) Hi. rewrite E, Ep. by apply rd_app_r. Qed.

Lemma at_buf_rdn c x y z : at_buf c (x ++ y ++ z) -> rdn (querybuf c) (qb_pos c + zlen x) (zlen y) = Some y.
Proof. intros (a & E & Ep). rewrite E, Ep. apply rdn_Some. exists (a ++ x), z. by rewrite zlen_app, <- app_assoc. Qed.

(** After parsing [x]. *)
Lemma at_buf_skip c x u n : at_buf c (x ++ u) -> n = qb_pos c + zlen x -> at_buf (set_buffer c (querybuf c) n) u.
Proof. intros (a & E & Ep) ->. exists (a ++ x). cbn. rewrite E, Ep, zlen_app, <- app_assoc. done. Qed.

Lemma at_buf_trim c u : at_buf c u -> at_buf (set_buffer c (drop (Z.to_nat (qb_pos c)) (querybuf c)) 0) u.
Proof. intros (a & E & Ep). exists []. cbn. rewrite E, Ep. unfold zlen. by rewrite Nat2Z.id, drop_app_length. Qed.

Lemma find_at c u ch : at_buf c u -> find_newline c ch = strchr_from (u ++ [0]) ch (qb_pos c).
Proof.
  intros (a & E & Ep). unfold find_newline, strchr. rewrite E, Ep, <- app_assoc. unfold zlen. by rewrite Nat2Z.id, drop_app_length.
Qed.

Lemma find_found c x ch y : at_buf c (x ++ ch :: y) -> no_char ch x -> no_char 0 x -> find_newline c ch = Some (Some (qb_pos c + zlen x)).
Proof. intros H Hx H0. rewrite (find_at _ _ _ H), <- app_assoc. by apply strchr_from_found. Qed.

Lemma find_none c u ch : at_buf c u -> ch <> 0 -> no_char ch u -> no_char 0 u -> find_newline c ch = Some None.
Proof. intros H Hc Hx H0. rewrite (find_at _ _ _ H). by apply strchr_from_none. Qed.

Definition CRLF : list Z := [13; 10].

(** A count line. *)
Definition enc_line (ch n : Z) : list Z := ch :: udec n ++ CRLF.

Lemma digits_no_char s c : all_digits s -> c < 48 \/ 57 < c -> no_char c s.
Proof. intros H Hc. eapply Forall_impl; [exact H |]. cbn. intros x Hx. lia. Qed.

Lemma udec_short n : 0 <= n < 2 ^ 63 -> zlen (udec n) <= 19.
Proof. intros H. apply udec_length_le; lia. Qed.

Lemma enc_line_length ch n : 0 <= n < 2 ^ 63 -> zlen (enc_line ch n) <= 22.
Proof. intros H. unfold enc_line. rewrite zlen_cons, zlen_app. change (zlen CRLF) with 2. pose proof (udec_short n H). lia. Qed.

Lemma string2ll_udec n : 0 <= n < 2 ^ 63 -> string2ll (udec n) = Some n.
Proof.
  intros H. assert (sdec n = udec n) as <- by (unfold sdec; rewrite (proj2 (Z.ltb_ge n 0)); [done | lia]).
  apply string2ll_sdec. unfold is_i64. lia.
Qed.

(** The parts of a stream: what is in the buffer either holds [x] or is a
    proper prefix of it. *)
Lemma prefix_cases (u fut x rest : list Z) : u ++ fut = x ++ rest ->
  (exists v, u = x ++ v /\ v ++ fut = rest) \/ (exists w, x = u ++ w /\ fut = w ++ rest /\ w <> []).
Proof.
  intros E. apply app_eq_app in E as (k & [(-> & ->) | (-> & ->)]).
  - left. by exists k.
  - destruct k as [| z k]; [left; exists []; by rewrite !app_nil_r | right; exists (z :: k); done].
Qed.

(** A line that is not complete has no usable end. *)
Lemma partial_line c u w ch n : at_buf c u -> enc_line ch n = u ++ w -> w <> [] -> 0 <= n < 2 ^ 63 -> 32 < ch < 48 ->
  find_newline c 13 = Some None /\ zlen u <= 22 \/ exists nl, find_newline c 13 = Some (Some nl) /\ unparsed c - 2 < nl - qb_pos c.
Proof.
  intros Hu E Hw Hn Hch. pose proof (enc_line_length ch n Hn) as Hlen. rewrite E, zlen_app in Hlen. pose proof (zlen_nonneg w).
  unfold enc_line in E. pose proof (udec_digits n ltac:(lia)) as Hd. change (ch :: udec n ++ CRLF) with ((ch :: udec n) ++ [13; 10]) in E.
  assert (no_char 13 (ch :: udec n)) as H13 by (apply Forall_cons; split; [lia | apply digits_no_char; [done | lia]]).
  assert (no_char 0 (ch :: udec n)) as H0 by (apply Forall_cons; split; [lia | apply digits_no_char; [done | lia]]).
  apply app_eq_app in E as (k & [(E1 & ->) | (-> & E2)]).
  - left. rewrite E1 in H13, H0. apply Forall_app in H13 as [? _]. apply Forall_app in H0 as [? _].
    split; [by apply (find_none c u) | lia].
  - destruct k as [| x [| y k]]; cbn in E2.
    + left. rewrite app_nil_r in *. split; [by apply (find_none c (ch :: udec n)) | lia].
    + right. injection E2 as <- _. exists (qb_pos c + zlen (ch :: udec n)). split; [by apply (find_found c _ 13 [])|].
      rewrite (at_buf_unparsed _ _ Hu), zlen_app. change (zlen [13]) with 1. lia.
    + injection E2 as _ _ E2. symmetry in E2. apply app_eq_nil in E2 as [_ ->]. done.
Qed.

(** A complete line. *)
Lemma whole_line c v ch n : at_buf c (enc_line ch n ++ v) -> 0 <= n < 2 ^ 63 -> 32 < ch < 48 ->
  exists nl, find_newline c 13 = Some (Some nl) /\ (unparsed c - 2 <? nl - qb_pos c) = false /\
    rd (querybuf c) (qb_pos c) = Some ch /\ rdn (querybuf c) (qb_pos c + 1) (nl - (qb_pos c + 1)) = Some (udec n) /\
    at_buf (set_buffer c (querybuf c) (nl + 2)) v.
Proof.
  intros Hu Hn Hch. unfold enc_line in Hu. change (ch :: udec n ++ CRLF) with ((ch :: udec n) ++ [13; 10]) in Hu. rewrite <- app_assoc in Hu.
  pose proof (udec_digits n ltac:(lia)) as Hd. exists (qb_pos c + zlen (ch :: udec n)). split; [| split; [| split; [| split]]].
  - apply (find_found c (ch :: udec n) 13 (10 :: v)); [done | |]; apply Forall_cons; (split; [lia | apply digits_no_char; [done | lia]]).
  - apply Z.ltb_ge. rewrite (at_buf_unparsed _ _ Hu), !zlen_app. pose proof (zlen_nonneg v). change (zlen [13; 10]) with 2. lia.
  - rewrite <- (Z.add_0_r (qb_pos c)), (at_buf_rd c _ 0 Hu) by lia. done.
  - rewrite zlen_cons. replace (qb_pos c + (1 + zlen (udec n)) - (qb_pos c + 1)) with (zlen (udec n)) by lia.
    apply (at_buf_rdn c [ch] (udec n) ([13; 10] ++ v)). by rewrite app_assoc.
  - apply (at_buf_skip c ((ch :: udec n) ++ [13; 10])); [by rewrite <- app_assoc |]. rewrite zlen_app. change (zlen [13; 10]) with 2. lia.
Qed.

(** ** Arguments *)

Definition enc_arg (a : list Z) : list Z := enc_line 36 (zlen a) ++ a ++ CRLF.
Definition enc_args (args : list (list Z)) : list Z := concat (map enc_arg args).

Section parser.
Context (usable : Z -> Z) (junk : nat -> Z) (authRequired : bool) (proto_max_bulk_len unixtime client_max_querybuf_len : Z).

(** What the parser does not touch. *)
Definition frame (c c' : client) : Prop := flags c' = flags c /\ errors c' = errors c.

Definition arg_ok (a : list Z) : Prop :=
  zlen a <= proto_max_bulk_len /\ zlen a < 2 ^ 62 /\ (authRequired = true -> zlen a <= 16384).

Lemma mbulk_length_ok c a u fut rest : at_buf c u -> u ++ fut = enc_line 36 (zlen a) ++ rest -> arg_ok a ->
  (exists w, enc_line 36 (zlen a) = u ++ w /\ w <> [] /\ mbulk_length authRequired proto_max_bulk_len c = Some (c, C_OK)) \/
  (exists v c', u = enc_line 36 (zlen a) ++ v /\ mbulk_length authRequired proto_max_bulk_len c = Some (c', Continue) /\
     at_buf c' v /\ req c' = req (set_bulklen c (zlen a)) /\ frame c c').
Proof.
  intros Hu E (Hmax & Hlen & Hauth). pose proof (zlen_nonneg a). assert (0 <= zlen a < 2 ^ 63) as Hn by lia. unfold mbulk_length.
  destruct (prefix_cases _ _ _ _ E) as [(v & -> & Ev) | (w & Ew & _ & Hw)].
  - right. destruct (whole_line c v 36 (zlen a) Hu Hn ltac:(lia)) as (nl & -> & E1 & E2 & E3 & Hv). cbn [mbind option_bind].
    rewrite E1, E2. cbn [mbind option_bind]. change (36 =? 36) with true. cbn [negb]. rewrite E3. cbn [mbind option_bind].
    rewrite string2ll_udec by done. rewrite (proj2 (Z.ltb_ge (zlen a) 0)), (proj2 (Z.ltb_ge proto_max_bulk_len (zlen a))), andb_false_r by lia. cbn [orb].
    assert ((16384 <? zlen a) && authRequired = false) as -> by (destruct authRequired; [specialize (Hauth eq_refl); lia | apply andb_false_r]).
    cbv zeta. set (c1 := set_buffer c (querybuf c) (nl + 2)) in *.
    destruct (negb (CLIENT_MASTER (flags c1)) && (PROTO_MBULK_BIG_ARG <=? zlen a) && (unparsed c1 <=? zlen a + 2)).
    + pose proof (at_buf_trim c1 v Hv). eexists v, _. split; [done |]. split; [reflexivity |]. by repeat split.
    + eexists v, _. split; [done |]. split; [reflexivity |]. by repeat split.
  - left. exists w. split; [done |]. split; [done |].
    destruct (partial_line c u w 36 (zlen a) Hu Ew Hw Hn ltac:(lia)) as [[-> Hs] | (nl & -> & Hnl)]; cbn [mbind option_bind].
    + rewrite (at_buf_unparsed _ _ Hu), (proj2 (Z.ltb_ge _ _)); [done |]. change PROTO_INLINE_MAX_SIZE with 65536. lia.
    + by rewrite (proj2 (Z.ltb_lt _ _)).
Qed.

(** The request being read: [todo] arguments to come; slots are available. *)
Definition slots_ok (r : request) : Prop := argc r <= argv_len r /\ 0 < argv_len r /\ argc r + multibulklen r <= INT_MAX.

Definition add_arg (r : request) (a : list Z) (r' : request) : Prop :=
  reqtype r' = reqtype r /\ argv r' = argv r ++ [a] /\ multibulklen r' = multibulklen r - 1 /\ bulklen r' = -1 /\ slots_ok r'.

Lemma mbulk_arg_ok c a u fut rest : at_buf c u -> u ++ fut = a ++ CRLF ++ rest -> bulklen (req c) = zlen a -> zlen a < 2 ^ 62 ->
  slots_ok (req c) -> 0 < multibulklen (req c) ->
  (exists w, a ++ CRLF = u ++ w /\ w <> [] /\ mbulk_arg c = Some (c, C_OK)) \/
  (exists v c', u = a ++ CRLF ++ v /\ mbulk_arg c = Some (c', Continue) /\ at_buf c' v /\ add_arg (req c) a (req c') /\ frame c c').
Proof.
  intros Hu E Hb Hlen (S1 & S2 & S3) Hm. pose proof (zlen_nonneg a). unfold mbulk_arg. cbv zeta. rewrite Hb, (at_buf_unparsed _ _ Hu).
  rewrite u64_id by (unfold is_u64; lia). rewrite app_assoc in E.
  destruct (prefix_cases _ _ _ _ E) as [(v & -> & Ev) | (w & Ew & _ & Hw)].
  - right. rewrite <- app_assoc in Hu. pose proof (zlen_nonneg v). rewrite !zlen_app. change (zlen CRLF) with 2. rewrite (proj2 (Z.ltb_ge (zlen a + 2 + zlen v) (zlen a + 2))) by lia.
    set (slots := if argv_len (req c) <=? argc (req c) then _ else _).
    assert (argc (req c) + 1 <= slots /\ 0 < slots) as [Hs1 Hs2].
    { unfold slots. change (INT_MAX / 2) with 1073741823. unfold INT_MAX in *. pose proof (zlen_nonneg (argv (req c))). unfold argc in *. boolp; lia. }
    unfold assert_. rewrite (proj2 (Z.ltb_lt (argc (req c)) slots)) by lia. cbn [mbind option_bind].
    assert (slots_ok (Request (reqtype (req c)) (argv (req c) ++ [a]) slots (argv_len_sum (req c) + zlen a) (multibulklen (req c) - 1) (-1))) as Hslots.
    { unfold slots_ok, argc in *. cbn [argv argv_len multibulklen]. rewrite zlen_app. change (zlen [a]) with 1. lia. }
    destruct (negb (CLIENT_MASTER (flags c)) && (qb_pos c =? 0) && (PROTO_MBULK_BIG_ARG <=? zlen a) && (zlen (querybuf c) =? zlen a + 2)) eqn:Ebig.
    + rewrite !andb_true_iff, !Z.eqb_eq in Ebig. destruct Ebig as (((_ & E0) & _) & El). destruct Hu as (p & Eq & Ep).
      rewrite E0 in Ep. symmetry in Ep. apply zlen_0 in Ep as ->. rewrite app_nil_l in Eq. rewrite Eq, !zlen_app in El. change (zlen CRLF) with 2 in El.
      assert (v = []) as -> by (apply zlen_0; lia). rewrite Eq, !zlen_app. change (zlen CRLF + zlen []) with 2.
      assert (take (Z.to_nat (zlen a + 2 - 2)) (a ++ CRLF ++ []) = a) as ->.
      { replace (zlen a + 2 - 2) with (zlen a) by lia. unfold zlen. by rewrite Nat2Z.id, take_app_length. }
      cbn [mbind option_bind].
      eexists [], _. split; [by rewrite app_nil_r |]. split; [reflexivity |]. split; [exists []; cbn; by rewrite E0 |]. split; [| done].
      split; [done |]. split; [done |]. split; [done |]. by split.
    + pose proof (at_buf_rdn c [] a (CRLF ++ v) Hu) as Er. change (zlen []) with 0 in Er. rewrite Z.add_0_r in Er. rewrite Er. cbn [mbind option_bind].
      eexists v, _. split; [by rewrite <- app_assoc |]. split; [reflexivity |]. split; [| split; [split; [done |]; split; [done |]; split; [done |]; by split | done]].
      apply (at_buf_skip c (a ++ CRLF)); [by rewrite <- app_assoc |]. rewrite zlen_app. change (zlen CRLF) with 2. lia.
  - left. exists w. split; [done |]. split; [done |].
    assert (zlen (a ++ CRLF) = zlen (u ++ w)) as El by (by rewrite Ew). rewrite !zlen_app in El. change (zlen CRLF) with 2 in El.
    assert (zlen w <> 0) by (intros Ez; by apply zlen_0 in Ez). pose proof (zlen_nonneg w). by rewrite (proj2 (Z.ltb_lt _ _)) by lia.
Qed.
(** Bytes to come before the request is complete. *)
Definition arg_rem (r : request) (todo : list (list Z)) : list Z :=
  if bulklen r =? -1 then enc_args todo
  else match todo with [] => [] | a :: todo => a ++ CRLF ++ enc_args todo end.

Definition in_args (r : request) (args todo : list (list Z)) : Prop :=
  reqtype r = PROTO_REQ_MULTIBULK /\ args = argv r ++ todo /\ multibulklen r = zlen todo /\ todo <> [] /\
  (bulklen r = -1 \/ exists a t, todo = a :: t /\ bulklen r = zlen a) /\ slots_ok r.

(** The request is complete and the rest of the buffer is [v]; or it is not,
    and the parser waits inside it. *)
Definition complete (c c' : client) (args : list (list Z)) (v : list Z) : Prop :=
  at_buf c' v /\ reqtype (req c') = PROTO_REQ_MULTIBULK /\ argv (req c') = args /\ multibulklen (req c') = 0 /\ bulklen (req c') = -1 /\ frame c c'.
Definition waiting (c c' : client) (args : list (list Z)) (fut rest : list Z) : Prop :=
  exists u' todo', at_buf c' u' /\ in_args (req c') args todo' /\ u' ++ fut = arg_rem (req c') todo' ++ rest /\
    zlen u' < zlen (arg_rem (req c') todo') /\ frame c c'.

Lemma frame_trans c1 c2 c3 : frame c1 c2 -> frame c2 c3 -> frame c1 c3.
Proof. unfold frame. intros [E1 E2] [E3 E4]. split; congruence. Qed.

Lemma zlen_prefix_lt (x u w y : list Z) : x = u ++ w -> w <> [] -> zlen u < zlen (x ++ y).
Proof.
  intros -> Hw. rewrite !zlen_app. pose proof (zlen_nonneg y). pose proof (zlen_nonneg w).
  assert (zlen w <> 0) by (intros E; by apply zlen_0 in E). lia.
Qed.

Lemma mbulk_loop_ok fut rest args : Forall arg_ok args -> forall fuel c u todo,
  at_buf c u -> in_args (req c) args todo -> u ++ fut = arg_rem (req c) todo ++ rest -> zlen u < Z.of_nat fuel ->
  exists c' s, mbulk_loop authRequired proto_max_bulk_len fuel c = Some (c', s) /\
    ((s = C_OK /\ exists v, u = arg_rem (req c) todo ++ v /\ complete c c' args v) \/ (s = C_ERR /\ waiting c c' args fut rest)).
Proof.
  intros Hargs. induction fuel as [| fuel IH]; intros c u todo Hu Hin E Hf; [pose proof (zlen_nonneg u); lia |].
  pose proof Hin as (Hty & Ea & Hm & Hne & Hb & Hs). destruct todo as [| a t]; [done |]. clear Hne.
  rewrite zlen_cons in Hm. pose proof (zlen_nonneg t). cbn [mbulk_loop]. rewrite (proj2 (Z.eqb_neq (multibulklen (req c)) 0)) by lia.
  assert (arg_ok a) as Ha by (rewrite Ea in Hargs; apply Forall_app in Hargs as [_ Hargs]; by apply Forall_cons in Hargs as [? _]).
  (* the argument, once its length is known *)
  assert (forall c1 u1, at_buf c1 u1 -> bulklen (req c1) = zlen a -> reqtype (req c1) = PROTO_REQ_MULTIBULK -> argv (req c1) = argv (req c) ->
    multibulklen (req c1) = multibulklen (req c) -> slots_ok (req c1) -> u1 ++ fut = a ++ CRLF ++ enc_args t ++ rest -> zlen u1 <= zlen u -> frame c c1 ->
    exists c' s, match mbulk_arg c1 with
      | Some (c2, Continue) => mbulk_loop authRequired proto_max_bulk_len fuel c2
      | Some (c2, _) => Some (c2, if multibulklen (req c2) =? 0 then C_OK else C_ERR)
      | None => None end = Some (c', s) /\
      ((s = C_OK /\ exists v, u1 = a ++ CRLF ++ enc_args t ++ v /\ complete c c' args v) \/ (s = C_ERR /\ waiting c c' args fut rest))) as Harg.
  { intros c1 u1 Hu1 Hb1 Hty1 Ea1 Hm1 Hs1 E1 Hlen Hfr.
    assert (bulklen (req c1) <> -1) as Hnb by (rewrite Hb1; pose proof (zlen_nonneg a); lia).
    destruct (mbulk_arg_ok c1 a u1 fut (enc_args t ++ rest) Hu1 E1 Hb1) as [(w & Ew & Hw & ->) | (v & c2 & Eu & -> & Hv & (T1 & T2 & T3 & T4 & T5) & Hfr2)];
      [apply Ha | done | lia | |].
    - rewrite (proj2 (Z.eqb_neq (multibulklen (req c1)) 0)) by lia. eexists _, _. split; [reflexivity |]. right. split; [done |].
      exists u1, (a :: t). unfold arg_rem. rewrite (proj2 (Z.eqb_neq (bulklen (req c1)) (-1)) Hnb). split; [done |]. split.
      + split; [done |]. split; [by rewrite Ea1 |]. split; [by rewrite Hm1, zlen_cons |]. split; [done |]. split; [right; by exists a, t | done].
      + split; [by rewrite E1, <- !app_assoc |]. split; [| done]. rewrite app_assoc. by eapply zlen_prefix_lt.
    - subst u1. rewrite <- !app_assoc in E1. apply app_inv_head in E1. apply app_inv_head in E1.
      destruct t as [| a' t'].
      + rewrite Hm1, Hm, (@zlen_nil (list Z)) in T3. destruct fuel as [| fuel']; [rewrite !zlen_app in Hlen; change (zlen CRLF) with 2 in Hlen; pose proof (zlen_nonneg v); pose proof (zlen_nonneg a); lia |].
        cbn [mbulk_loop]. rewrite T3, Z.eqb_refl. eexists _, _. split; [reflexivity |]. left. split; [done |].
        exists v. split; [done |]. split; [done |]. split; [by rewrite T1 |]. split; [by rewrite T2, Ea1, Ea |]. split; [done |]. split; [done | by eapply frame_trans].
      + destruct (IH c2 v (a' :: t') Hv) as (c' & s & -> & Hres).
        * split; [by rewrite T1 |]. split; [by rewrite T2, Ea1, Ea, <- app_assoc |]. split; [rewrite T3, Hm1, Hm; lia |]. split; [done |]. split; [by left | done].
        * unfold arg_rem. rewrite T4, Z.eqb_refl. done.
        * rewrite !zlen_app in Hlen. change (zlen CRLF) with 2 in Hlen. pose proof (zlen_nonneg a). lia.
        * exists c', s. split; [done |]. destruct Hres as [(-> & v' & Ev & (C1 & C2 & C3 & C4 & C5 & C6)) | (-> & u' & todo' & W1 & W2 & W3 & W4 & W5)].
          { left. split; [done |]. exists v'. unfold arg_rem in Ev. rewrite T4, Z.eqb_refl in Ev. split; [by rewrite Ev |].
            split; [done |]. split; [done |]. split; [done |]. split; [done |]. split; [done |]. eapply frame_trans; [eapply frame_trans; [exact Hfr | exact Hfr2] | exact C6]. }
          { right. split; [done |]. exists u', todo'. split; [done |]. split; [done |]. split; [done |]. split; [done |].
            eapply frame_trans; [eapply frame_trans; [exact Hfr | exact Hfr2] | exact W5]. } }
  destruct (Z.eqb_spec (bulklen (req c)) (-1)) as [Eb | Eb].
  - unfold arg_rem in E |- *. rewrite Eb, Z.eqb_refl in E |- *. unfold enc_args in E. cbn [map concat] in E. unfold enc_arg at 1 in E. rewrite <- !app_assoc in E.
    destruct (mbulk_length_ok c a u fut _ Hu E Ha) as [(w & Ew & Hw & ->) | (v & c1 & -> & -> & Hv & Er & Hfr)]; cbn [mbind option_bind].
    + rewrite (proj2 (Z.eqb_neq (multibulklen (req c)) 0)) by lia. eexists _, _. split; [reflexivity |]. right. split; [done |].
      exists u, (a :: t). split; [done |]. split; [done |]. unfold arg_rem. rewrite Eb, Z.eqb_refl. unfold enc_args. cbn [map concat]. unfold enc_arg at 1 3. rewrite <- !app_assoc.
      split; [done |]. split; [by eapply zlen_prefix_lt | done].
    + rewrite <- app_assoc in E. apply app_inv_head in E.
      destruct (Harg c1 v Hv) as (c' & s & Hc & Hres); try (by rewrite Er); [exact E | rewrite zlen_app; pose proof (zlen_nonneg (enc_line 36 (zlen a))); lia | done |].
      exists c', s. split; [destruct (mbulk_arg c1) as [[c2 []] |]; exact Hc |]. destruct Hres as [(-> & v' & -> & Hcm) | Hw]; [left | by right].
      split; [done |]. exists v'. split; [| done]. unfold enc_args. cbn [map concat]. unfold enc_arg at 2. by rewrite <- !app_assoc.
  - cbn [mbind option_bind]. destruct Hb as [? | (a' & t' & Eat & Hb)]; [done |]. injection Eat as <- <-.
    unfold arg_rem in E |- *. rewrite (proj2 (Z.eqb_neq (bulklen (req c)) (-1)) Eb) in E |- *. rewrite <- !app_assoc in E.
    destruct (Harg c u Hu Hb Hty eq_refl eq_refl Hs E ltac:(lia) ltac:(done)) as (c' & s & Hc & Hres).
    exists c', s. split; [destruct (mbulk_arg c) as [[c2 []] |]; exact Hc |]. destruct Hres as [(-> & v' & -> & Hcm) | Hw]; [left | by right].
    split; [done |]. exists v'. split; [by rewrite <- !app_assoc | done].
Qed.
(** ** Requests *)

(** A request on the wire: RESP, or a line. *)
Inductive wire := WMulti (args : list (list Z)) | WInline (line : list Z) (crlf : bool) (args : list (list Z)).

Definition enc_wire (w : wire) : list Z :=
  match w with
  | WMulti args => enc_line 42 (zlen args) ++ enc_args args
  | WInline line crlf _ => line ++ (if crlf then CRLF else [10])
  end.
Definition wire_args (w : wire) : list (list Z) := match w with WMulti args | WInline _ _ args => args end.

Definition wire_ok (w : wire) : Prop :=
  match w with
  | WMulti args => Forall arg_ok args /\ zlen args <= INT_MAX /\ (authRequired = true -> zlen args <= 10)
  | WInline line crlf args =>
      no_char 10 line /\ no_char 0 line /\ zlen line < PROTO_INLINE_MAX_SIZE /\
      (crlf = false -> last line <> Some 13) /\ head line <> Some 42 /\
      exists toks, sdssplitargs usable junk (line ++ [0]) = Some (Some toks) /\ mapM (fun t => rdn (s_buf t) 0 (sdslen t)) toks = Some args
  end.

Definition fresh (ty : Z) : request := Request ty [] 0 0 0 (-1).

(** [rem] is what remains to be read of the request [w]. *)
Inductive reading (r : request) : wire -> list Z -> Prop :=
| R_start w : r = fresh 0 -> reading r w (enc_wire w)
| R_header args : r = fresh PROTO_REQ_MULTIBULK -> reading r (WMulti args) (enc_wire (WMulti args))
| R_args args todo : in_args r args todo -> reading r (WMulti args) (arg_rem r todo)
| R_inline line crlf args : r = fresh PROTO_REQ_INLINE -> reading r (WInline line crlf args) (enc_wire (WInline line crlf args)).

Definition finished (c c' : client) (w : wire) (v : list Z) : Prop :=
  at_buf c' v /\ argv (req c') = wire_args w /\ frame c c'.
Definition suspended (c c' : client) (w : wire) (fut rest : list Z) : Prop :=
  exists u' rem', at_buf c' u' /\ reading (req c') w rem' /\ u' ++ fut = rem' ++ rest /\ zlen u' < zlen rem' /\ frame c c'.

(** What a parsing function does with [u] when [rem] is expected. *)
Definition parses (c : client) (w : wire) (u rem fut rest : list Z) (res : option (client * status)) : Prop :=
  exists c' s, res = Some (c', s) /\
    ((s = C_OK /\ exists v, u = rem ++ v /\ finished c c' w v) \/ (s = C_ERR /\ suspended c c' w fut rest)).

Lemma at_buf_length c u : at_buf c u -> zlen u <= zlen (querybuf c).
Proof. intros (a & -> & _). rewrite zlen_app. pose proof (zlen_nonneg a). lia. Qed.

Lemma run_args c u args todo fut rest : Forall arg_ok args -> at_buf c u -> in_args (req c) args todo -> u ++ fut = arg_rem (req c) todo ++ rest ->
  parses c (WMulti args) u (arg_rem (req c) todo) fut rest (mbulk_loop authRequired proto_max_bulk_len (S (length (querybuf c))) c).
Proof.
  intros Ha Hu Hin E. destruct (mbulk_loop_ok fut rest args Ha (S (length (querybuf c))) c u todo Hu Hin E) as (c' & s & -> & Hres).
  { pose proof (at_buf_length c u Hu). unfold zlen at 2 in H. lia. }
  exists c', s. split; [done |]. destruct Hres as [(-> & v & -> & (C1 & _ & C3 & _ & _ & C6)) | (-> & u' & todo' & W1 & W2 & W3 & W4 & W5)].
  - left. split; [done |]. exists v. split; [done |]. by split.
  - right. split; [done |]. exists u', (arg_rem (req c') todo'). split; [done |]. split; [by apply R_args |]. by split.
Qed.

Lemma in_args_multibulklen r args todo : in_args r args todo -> 0 < multibulklen r.
Proof. intros (_ & _ & -> & Hne & _). pose proof (zlen_nonneg todo). assert (zlen todo <> 0) by (intros E; by apply zlen_0 in E). lia. Qed.

Lemma multibulk_resume c u args todo fut rest : wire_ok (WMulti args) -> at_buf c u -> in_args (req c) args todo -> u ++ fut = arg_rem (req c) todo ++ rest ->
  parses c (WMulti args) u (arg_rem (req c) todo) fut rest (processMultibulkBuffer authRequired proto_max_bulk_len c).
Proof.
  intros [Ha _] Hu Hin E. pose proof (in_args_multibulklen _ _ _ Hin). unfold processMultibulkBuffer.
  rewrite (proj2 (Z.eqb_neq (multibulklen (req c)) 0)) by lia. cbn [mbind option_bind]. unfold assert_. rewrite (proj2 (Z.ltb_lt 0 _)) by lia.
  cbn [mbind option_bind]. by apply run_args.
Qed.

Lemma multibulk_start c u args fut rest : wire_ok (WMulti args) -> at_buf c u -> req c = fresh PROTO_REQ_MULTIBULK -> u ++ fut = enc_wire (WMulti args) ++ rest ->
  parses c (WMulti args) u (enc_wire (WMulti args)) fut rest (processMultibulkBuffer authRequired proto_max_bulk_len c).
Proof.
  intros (Ha & Hmax & Hauth) Hu Er E. pose proof (zlen_nonneg args). unfold INT_MAX in Hmax. assert (0 <= zlen args < 2 ^ 63) as Hn by lia.
  unfold processMultibulkBuffer, mbulk_header. rewrite Er. cbn [fresh multibulklen]. change (argc (fresh PROTO_REQ_MULTIBULK)) with 0. change (0 =? 0) with true. cbn [assert_ mbind option_bind].
  cbn [enc_wire] in E |- *. rewrite <- app_assoc in E. destruct (prefix_cases _ _ _ _ E) as [(v & -> & Ev) | (w & Ew & _ & Hw)].
  - destruct (whole_line c v 42 (zlen args) Hu Hn ltac:(lia)) as (nl & -> & E1 & E2 & E3 & Hv). cbn [mbind option_bind].
    rewrite E1, E2. cbn [mbind option_bind]. change (42 =? 42) with true. cbn [assert_ mbind option_bind]. rewrite E3. cbn [mbind option_bind].
    rewrite string2ll_udec by done. rewrite (proj2 (Z.ltb_ge INT_MAX (zlen args))) by (unfold INT_MAX; lia).
    assert ((10 <? zlen args) && authRequired = false) as -> by (destruct authRequired; [specialize (Hauth eq_refl); lia | apply andb_false_r]).
    cbv zeta. set (c1 := set_buffer c (querybuf c) (nl + 2)) in *. destruct (Z.leb_spec (zlen args) 0) as [Hz | Hz].
    + cbn [mbind option_bind]. assert (args = []) as -> by (apply zlen_0; lia). eexists _, _. split; [reflexivity |]. left. split; [done |].
      exists v. split; [by rewrite app_nil_r |]. split; [done |]. split; [| done]. unfold c1. cbn [req set_buffer wire_args]. by rewrite Er.
    + cbn [mbind option_bind multibulklen req set_req]. unfold assert_. rewrite (proj2 (Z.ltb_lt 0 (zlen args))) by lia. cbn [mbind option_bind].
      set (c2 := set_req c1 _). assert (at_buf c2 v) as Hv2 by exact Hv.
      assert (arg_rem (req c2) args = enc_args args) as Erem by (unfold arg_rem, c2, c1; cbn [req set_req set_buffer bulklen]; by rewrite Er).
      destruct (run_args c2 v args args fut rest Ha Hv2) as (c' & s & -> & Hres).
      * unfold c2, c1. cbn [req set_req set_buffer]. rewrite Er. split; [done |]. split; [done |]. split; [done |]. split; [by intros -> |]. split; [by left |].
        unfold slots_ok, argc, fresh. cbn [argv argv_len multibulklen]. unfold INT_MAX. rewrite (@zlen_nil (list Z)). lia.
      * by rewrite Erem.
      * rewrite Erem in Hres. exists c', s. split; [done |]. destruct Hres as [(-> & v' & -> & Hfin) | (-> & Hsus)]; [left | by right].
        split; [done |]. exists v'. split; [by rewrite <- app_assoc | done].
  - exists c, C_ERR. split.
    + destruct (partial_line c u w 42 (zlen args) Hu Ew Hw Hn ltac:(lia)) as [[-> Hs] | (nl & -> & Hnl)]; cbn [mbind option_bind].
      * rewrite (at_buf_unparsed _ _ Hu), (proj2 (Z.ltb_ge _ _)); [done |]. change PROTO_INLINE_MAX_SIZE with 65536. lia.
      * by rewrite (proj2 (Z.ltb_lt _ _)).
    + right. split; [done |]. exists u, (enc_wire (WMulti args)). split; [done |]. split; [by apply R_header |].
      cbn [enc_wire]. split; [by rewrite <- app_assoc |]. split; [by eapply zlen_prefix_lt | done].
Qed.
(** The end of a line and what precedes it. *)
Lemma line_end c line (crlf : bool) v : at_buf c (line ++ (if crlf then CRLF else [10]) ++ v) -> no_char 10 line -> no_char 0 line ->
  (crlf = false -> last line <> Some 13) ->
  exists nl prev, find_newline c 10 = Some (Some nl) /\
    (if nl =? qb_pos c then Some 0 else rd (querybuf c) (nl - 1)) = Some prev /\
    negb (nl =? qb_pos c) && (prev =? 13) = crlf /\ nl = qb_pos c + zlen line + (if crlf then 1 else 0).
Proof.
  intros Hu H10 H0 Hlast. pose proof (zlen_nonneg line). destruct crlf.
  - change (line ++ CRLF ++ v) with (line ++ [13] ++ 10 :: v) in Hu. rewrite app_assoc in Hu.
    exists (qb_pos c + zlen (line ++ [13])), 13. rewrite zlen_app. change (zlen [13]) with 1. split; [| split; [| split; [| lia]]].
    + rewrite (find_found c (line ++ [13]) 10 v Hu), zlen_app by (by apply Forall_app; split; [| by apply Forall_singleton]). done.
    + rewrite (proj2 (Z.eqb_neq _ (qb_pos c))) by lia. replace (qb_pos c + (zlen line + 1) - 1) with (qb_pos c + zlen line) by lia.
      rewrite (at_buf_rd c _ _ Hu) by lia. rewrite <- app_assoc. by apply rd_app.
    + by rewrite (proj2 (Z.eqb_neq _ (qb_pos c))) by lia.
  - exists (qb_pos c + zlen line). destruct line as [| z l _] using rev_ind.
    + exists 0. rewrite (@zlen_nil Z), !Z.add_0_r, Z.eqb_refl. split; [| done]. rewrite (find_found c [] 10 v Hu) by done. by rewrite (@zlen_nil Z), Z.add_0_r.
    + exists z. rewrite zlen_app in *. change (zlen [z]) with 1 in *. pose proof (zlen_nonneg l). rewrite (proj2 (Z.eqb_neq _ (qb_pos c))) by lia.
      split; [by rewrite (find_found c (l ++ [z]) 10 v Hu), zlen_app by done |]. split; [| split; [| lia]].
      * replace (qb_pos c + (zlen l + 1) - 1) with (qb_pos c + zlen l) by lia. rewrite (at_buf_rd c _ _ Hu) by lia. rewrite <- app_assoc. by apply rd_app.
      * specialize (Hlast eq_refl). rewrite last_snoc in Hlast. cbn [negb andb]. apply Z.eqb_neq. congruence.
Qed.

Lemma partial_inline c u w line (crlf : bool) : at_buf c u -> line ++ (if crlf then CRLF else [10]) = u ++ w -> w <> [] -> no_char 10 line -> no_char 0 line ->
  find_newline c 10 = Some None /\ zlen u <= zlen line + 1.
Proof.
  intros Hu E Hw H10 H0. assert (exists t, line ++ (if crlf then [13] else []) = u ++ t) as (t & Et).
  { assert (line ++ (if crlf then CRLF else [10]) = (line ++ (if crlf then [13] else [])) ++ [10]) as E' by (rewrite <- app_assoc; by destruct crlf).
    rewrite E' in E. destruct w as [| z w' _] using rev_ind; [done |]. rewrite app_assoc in E. apply app_inj_tail in E as [-> _]. by exists w'. }
  assert (no_char 10 (u ++ t) /\ no_char 0 (u ++ t)) as [N10 N0].
  { rewrite <- Et. destruct crlf; split; apply Forall_app; split; try done; by apply Forall_singleton. }
  apply Forall_app in N10 as [N10 _]. apply Forall_app in N0 as [N0 _]. split; [by apply (find_none c u) |].
  assert (zlen (line ++ (if crlf then [13] else [])) = zlen (u ++ t)) as El by (by rewrite Et). rewrite !zlen_app in El.
  pose proof (zlen_nonneg t). destruct crlf; [change (zlen [13]) with 1 in El | change (zlen []) with 0 in El]; lia.
Qed.

Lemma inline_ok c u line crlf args fut rest : wire_ok (WInline line crlf args) -> at_buf c u -> req c = fresh PROTO_REQ_INLINE ->
  CLIENT_MASTER (flags c) = false -> u ++ fut = enc_wire (WInline line crlf args) ++ rest ->
  parses c (WInline line crlf args) u (enc_wire (WInline line crlf args)) fut rest (processInlineBuffer usable junk unixtime c).
Proof.
  intros (H10 & H0 & Hlen & Hlast & _ & toks & Etoks & Eargs) Hu Er Hma E. unfold processInlineBuffer. cbn [enc_wire] in *.
  destruct (prefix_cases _ _ _ _ E) as [(v & -> & Ev) | (w & Ew & _ & Hw)].
  - rewrite <- app_assoc in Hu. destruct (line_end c line crlf v Hu H10 H0 Hlast) as (nl & prev & -> & Eprev & Ecr & Enl). cbn [mbind option_bind].
    rewrite Eprev. cbn [mbind option_bind]. rewrite Ecr. cbv zeta. assert ((if crlf then nl - 1 else nl) = qb_pos c + zlen line) as -> by (destruct crlf; lia).
    replace (qb_pos c + zlen line - qb_pos c) with (zlen line) by lia.
    pose proof (at_buf_rdn c [] line _ Hu) as Erd. change (zlen []) with 0 in Erd. rewrite Z.add_0_r in Erd. rewrite Erd. cbn [mbind option_bind].
    rewrite Etoks. cbn [mbind option_bind]. set (c1 := if (zlen line =? 0) && is_replica (flags c) then _ else c).
    assert (querybuf c1 = querybuf c /\ qb_pos c1 = qb_pos c /\ req c1 = req c /\ frame c c1) as (B1 & B2 & B3 & B4) by (unfold c1; destruct ((zlen line =? 0) && is_replica (flags c)); by repeat split).
    rewrite (proj1 B4), Hma, andb_false_r, Eargs. cbn [mbind option_bind]. eexists _, _. split; [reflexivity |]. left. split; [done |]. exists v.
    split; [by rewrite <- app_assoc |]. split; [| split; [done | exact B4]].
    assert (at_buf c1 ((line ++ (if crlf then CRLF else [10])) ++ v)) as Hu1.
    { destruct Hu as (a & Ea & Ep). exists a. rewrite B1, B2, <- app_assoc. by split. }
    apply (at_buf_skip c1 _ v (qb_pos c1 + zlen line + (if crlf then 2 else 1)) Hu1). rewrite zlen_app. destruct crlf; [change (zlen CRLF) with 2 | change (zlen [10]) with 1]; lia.
  - destruct (partial_inline c u w line crlf Hu Ew Hw H10 H0) as [-> Hs]. cbn [mbind option_bind].
    rewrite (at_buf_unparsed _ _ Hu), (proj2 (Z.ltb_ge PROTO_INLINE_MAX_SIZE (zlen u))) by lia. eexists _, _. split; [reflexivity |]. right. split; [done |].
    exists u, (enc_wire (WInline line crlf args)). split; [done |]. split; [by apply R_inline |]. split; [done |]. cbn [enc_wire].
    split; [| done]. rewrite <- (app_nil_r (line ++ _)). by eapply zlen_prefix_lt.
Qed.

(** ** One request *)

Lemma wire_head w : wire_ok w -> exists ch t, enc_wire w = ch :: t /\ (ch = 42 <-> exists args, w = WMulti args).
Proof.
  destruct w as [args | line crlf args]; intros Hok.
  - eexists 42, _. split; [reflexivity |]. split; [eauto | done].
  - destruct Hok as (_ & _ & _ & _ & Hh & _). destruct line as [| ch t].
    + destruct crlf; eexists _, _; (split; [reflexivity |]); split; [done | by intros (? & ?) | done | by intros (? & ?)].
    + eexists ch, _. split; [reflexivity |]. cbn in Hh. split; [congruence | by intros (? & ?)].
Qed.

Lemma reading_nonempty r w rem : wire_ok w -> reading r w rem -> rem <> [].
Proof.
  intros Hok Hr. destruct Hr as [w | args | args todo Hin | line crlf args];
    try (destruct (wire_head _ Hok) as (ch & t & -> & _); done).
  destruct Hin as (_ & _ & _ & Hne & _). unfold arg_rem. destruct todo as [| a t]; [done |]. destruct (_ =? _); [done |].
  intros E. apply app_eq_nil in E as [_ E]. done.
Qed.

(** [parse_request] completes the request, or waits inside it. *)
Lemma parse_request_ok c u w rem fut rest : wire_ok w -> CLIENT_MASTER (flags c) = false -> at_buf c u -> u <> [] -> reading (req c) w rem ->
  u ++ fut = rem ++ rest ->
  parses c w u rem fut rest (parse_request usable junk authRequired proto_max_bulk_len unixtime c).
Proof.
  intros Hok Hma Hu Hne Hr E. unfold parse_request. destruct u as [| ch u']; [done |].
  pose proof (at_buf_rd c _ 0 Hu ltac:(lia)) as Erd. rewrite Z.add_0_r in Erd. rewrite Erd.
  change (rd (ch :: u') 0) with (Some ch). cbn [mbind option_bind]. cbv zeta.
  destruct Hr as [w Er | args Er | args todo Hin | line crlf args Er].
  - destruct (wire_head w Hok) as (ch' & t & Ew & Hch). pose proof E as E0. rewrite Ew in E. injection E as <- E. rewrite Er. change (reqtype (fresh 0) =? 0) with true. cbv iota.
    cbn [fresh argv argv_len argv_len_sum multibulklen bulklen]. destruct (Z.eqb_spec ch 42) as [E42 | E42].
    + apply Hch in E42 as (args & ->). change (Request PROTO_REQ_MULTIBULK [] 0 0 0 (-1)) with (fresh PROTO_REQ_MULTIBULK).
      destruct (multibulk_start (set_req c (fresh PROTO_REQ_MULTIBULK)) (ch :: u') args fut rest Hok Hu eq_refl E0) as (c' & s & Ec & Hres).
      exists c', s. split; [exact Ec | exact Hres].
    + destruct w as [args | line crlf args]; [exfalso; apply E42, Hch; eauto |].
      destruct (inline_ok (set_req c (fresh PROTO_REQ_INLINE)) (ch :: u') line crlf args fut rest Hok Hu eq_refl Hma E0) as (c' & s & Ec & Hres).
      exists c', s. split; [exact Ec | exact Hres].
  - rewrite Er. change (reqtype (fresh PROTO_REQ_MULTIBULK) =? 0) with false. cbv iota. rewrite Er.
    destruct (multibulk_start c (ch :: u') args fut rest Hok Hu Er E) as (c' & s & Ec & Hres). exists c', s. split; [exact Ec | exact Hres].
  - destruct Hin as (Hty & Hin). rewrite Hty. change (PROTO_REQ_MULTIBULK =? 0) with false. cbv iota. rewrite Hty.
    destruct (multibulk_resume c (ch :: u') args todo fut rest Hok Hu (conj Hty Hin) E) as (c' & s & Ec & Hres). exists c', s. split; [exact Ec | exact Hres].
  - rewrite Er. change (reqtype (fresh PROTO_REQ_INLINE) =? 0) with false. cbv iota. rewrite Er.
    destruct (inline_ok c (ch :: u') line crlf args fut rest Hok Hu Er Hma E) as (c' & s & Ec & Hres). exists c', s. split; [exact Ec | exact Hres].
Qed.
(** ** The input loop *)

Definition enc_wires (ws : list wire) : list Z := concat (map enc_wire ws).

Lemma enc_wires_app ws1 ws2 : enc_wires (ws1 ++ ws2) = enc_wires ws1 ++ enc_wires ws2.
Proof. unfold enc_wires. by rewrite map_app, concat_app. Qed.

(** The requests [ws] are still to be read, from the buffer and then from
    [fut]; [settled] when the buffer does not complete the first of them. *)
Definition expects (c : client) (u : list Z) (ws : list wire) (fut : list Z) : Prop :=
  match ws with
  | [] => req c = fresh 0 /\ u ++ fut = []
  | w :: ws => exists rem, reading (req c) w rem /\ u ++ fut = rem ++ enc_wires ws
  end.
Definition settled (c : client) (u : list Z) (ws : list wire) (fut : list Z) : Prop :=
  at_buf c u /\
  match ws with
  | [] => req c = fresh 0 /\ u ++ fut = []
  | w :: ws => exists rem, reading (req c) w rem /\ u ++ fut = rem ++ enc_wires ws /\ zlen u < zlen rem
  end.

(** A client whose commands are executed as they come. *)
Definition normal (f : client_flags) : Prop :=
  CLIENT_MASTER f = false /\ CLIENT_BLOCKED f = false /\ CLIENT_PENDING_COMMAND f = false /\
  CLIENT_CLOSE_AFTER_REPLY f = false /\ CLIENT_CLOSE_ASAP f = false.

Context {X : Type} (processCommand : client -> X -> client * X * bool * bool) (exec : X -> list (list Z) -> X) (yielding : bool).
(** Commands that neither block, close nor free the client. *)
Hypothesis Hplain : forall c x, exists c', processCommand c x = (c', exec x (argv (req c)), true, false) /\
  querybuf c' = querybuf c /\ qb_pos c' = qb_pos c /\ frame c c'.

Definition exec_wire (x : X) (w : wire) : X := match wire_args w with [] => x | args => exec x args end.
Definition exec_all (x : X) (ws : list wire) : X := fold_left exec_wire ws x.

Notation parse_request := (parse_request usable junk authRequired proto_max_bulk_len unixtime).
Notation input_loop := (input_loop usable junk authRequired proto_max_bulk_len unixtime processCommand false yielding).
Notation processInputBuffer := (processInputBuffer usable junk authRequired proto_max_bulk_len unixtime processCommand false yielding).
Notation readQueryFromClient := (readQueryFromClient usable junk authRequired proto_max_bulk_len unixtime client_max_querybuf_len processCommand false yielding).

Lemma execute_ok c x u : normal (flags c) -> at_buf c u ->
  exists c', processCommandAndResetClient processCommand c x = (c', exec x (argv (req c)), true) /\ at_buf c' u /\ req c' = fresh 0 /\ frame c c'.
Proof.
  intros (Hma & Hb & _) Hu. unfold processCommandAndResetClient. destruct (Hplain c x) as (c1 & -> & E1 & E2 & E3 & E4).
  unfold commandProcessed. rewrite E3, Hb. cbn [resetClient set_req flags]. rewrite E3, Hma. eexists. split; [reflexivity |].
  split; [| split; [done | by split]]. destruct Hu as (a & Ea & Ep). exists a. cbn. by rewrite E1, E2.
Qed.

Lemma expects_next c ws u fut : req c = fresh 0 -> u ++ fut = enc_wires ws -> expects c u ws fut.
Proof.
  intros Er E. destruct ws as [| w ws]; [by split |]. exists (enc_wire w). split; [by apply R_start |]. exact E.
Qed.

Lemma input_loop_ok fut : forall fuel c x u ws, Forall wire_ok ws -> normal (flags c) -> at_buf c u -> expects c u ws fut -> zlen u < Z.of_nat fuel ->
  exists c' dn todo u', input_loop fuel c x = Some (c', exec_all x dn, true) /\ ws = dn ++ todo /\ settled c' u' todo fut /\ frame c c'.
Proof.
  induction fuel as [| fuel IH]; intros c x u ws Hws Hn Hu He Hf; [pose proof (zlen_nonneg u); lia |]. cbn [Resp.input_loop].
  pose proof (at_buf_unparsed c u Hu) as Eun. unfold unparsed in Eun. destruct (Z.ltb_spec (qb_pos c) (zlen (querybuf c))) as [Hlt | Hge].
  2: { assert (u = []) as -> by (apply zlen_0; pose proof (zlen_nonneg u); lia). exists c, [], ws, []. split; [done |]. split; [done |]. split; [| done].
       split; [done |]. destruct ws as [| w ws]; [done |]. destruct He as (rem & Hr & E). exists rem. split; [done |]. split; [done |].
       apply Forall_cons in Hws as [Hw _]. pose proof (reading_nonempty _ _ _ Hw Hr). change (zlen []) with 0. pose proof (zlen_nonneg rem).
       assert (zlen rem <> 0) by (intros Ez; by apply zlen_0 in Ez). lia. }
  destruct Hn as (N1 & N2 & N3 & N4 & N5) eqn:EHn. clear EHn. cbv zeta. rewrite N1, N2, N3, N4, N5, andb_false_r. cbn [orb].
  destruct ws as [| w ws]; [destruct He as [_ He]; apply app_eq_nil in He as [-> _]; change (zlen []) with 0 in Eun; lia |].
  apply Forall_cons in Hws as [Hw Hws]. destruct He as (rem & Hr & E). assert (u <> []) as Hne by (intros ->; change (zlen []) with 0 in Eun; lia).
  destruct (parse_request_ok c u w rem fut (enc_wires ws) Hw N1 Hu Hne Hr E) as (c1 & s & -> & Hres). cbn [mbind option_bind].
  destruct Hres as [(-> & v & -> & Hv & Eargs & Hfr) | (-> & u' & rem' & S1 & S2 & S3 & S4 & S5)].
  2: { exists c1, [], (w :: ws), u'. split; [done |]. split; [done |]. split; [| done]. split; [done |]. eauto. }
  pose proof (reading_nonempty _ _ _ Hw Hr) as Hrem. assert (zlen rem <> 0) by (intros Ez; by apply zlen_0 in Ez). pose proof (zlen_nonneg rem).
  rewrite <- app_assoc in E. apply app_inv_head in E. rewrite zlen_app in Hf. assert (normal (flags c1)) as Hn1 by (rewrite (proj1 Hfr); by repeat split).
  unfold argc. rewrite Eargs. destruct (Z.eqb_spec (zlen (wire_args w)) 0) as [Ez | Ez].
  - apply zlen_0 in Ez. destruct (IH (resetClient c1) x v ws Hws Hn1) as (c' & dn & todo & u' & E1 & E2 & E3 & E4); [exact Hv | by apply expects_next | lia |].
    exists c', (w :: dn), todo, u'. split; [| split; [by rewrite E2 | split; [done | by eapply frame_trans]]].
    rewrite E1. unfold exec_all. cbn [fold_left]. unfold exec_wire at 3. by rewrite Ez.
  - destruct (execute_ok c1 x v Hn1 Hv) as (c2 & -> & Hv2 & Er2 & Hfr2). cbn [negb].
    destruct (IH c2 (exec x (argv (req c1))) v ws Hws) as (c' & dn & todo & u' & E1 & E2 & E3 & E4);
      [by rewrite (proj1 Hfr2) | done | by apply expects_next | lia |].
    exists c', (w :: dn), todo, u'. split; [| split; [by rewrite E2 | split; [done |]]].
    + rewrite E1, Eargs. unfold exec_all. cbn [fold_left]. unfold exec_wire at 3. by destruct (wire_args w).
    + eapply frame_trans; [exact Hfr | by eapply frame_trans].
Qed.

Lemma process_input_ok fut c x u ws : Forall wire_ok ws -> normal (flags c) -> at_buf c u -> expects c u ws fut ->
  exists c' dn todo u', processInputBuffer c x = Some (c', exec_all x dn, true) /\ ws = dn ++ todo /\ settled c' u' todo fut /\ frame c c' /\ qb_pos c' = 0.
Proof.
  intros Hws Hn Hu He. unfold Resp.processInputBuffer.
  destruct (input_loop_ok fut (S (length (querybuf c))) c x u ws Hws Hn Hu He) as (c1 & dn & todo & u' & -> & E & [Hu' Hset] & Hfr).
  { pose proof (at_buf_length c u Hu) as Hl. unfold zlen at 2 in Hl. lia. }
  cbn [mbind option_bind]. exists (trim_buffer c1), dn, todo, u'. split; [done |]. split; [done |].
  unfold trim_buffer. rewrite (proj1 Hfr), (proj1 Hn). destruct (Z.eqb_spec (qb_pos c1) 0) as [E0 | E0]; cbn [negb].
  - split; [by split |]. by split.
  - split; [split; [by apply at_buf_trim | exact Hset] |]. by split.
Qed.

Lemma arg_rem_le r args todo : in_args r args todo -> zlen (arg_rem r todo) <= zlen (enc_args args).
Proof.
  intros (_ & -> & _ & _ & _ & _). unfold enc_args. rewrite map_app, concat_app, zlen_app. pose proof (zlen_nonneg (concat (map enc_arg (argv r)))).
  pose proof (zlen_nonneg (concat (map enc_arg todo))). unfold arg_rem, enc_args. destruct (bulklen r =? -1); [lia |].
  destruct todo as [| a t]; [rewrite (@zlen_nil Z); lia |]. cbn [map concat].
  assert (zlen (enc_arg a) = zlen (enc_line 36 (zlen a)) + (zlen a + zlen CRLF)) as Ea by (unfold enc_arg; by rewrite !zlen_app).
  rewrite !zlen_app. pose proof (zlen_nonneg (enc_line 36 (zlen a))). lia.
Qed.

Lemma reading_le r w rem : reading r w rem -> zlen rem <= zlen (enc_wire w).
Proof.
  intros [| | args todo Hin |]; try lia. cbn [enc_wire]. rewrite zlen_app. pose proof (arg_rem_le _ _ _ Hin).
  pose proof (zlen_nonneg (enc_line 42 (zlen args))). lia.
Qed.

(** Reads one after the other. *)
Fixpoint feed (chunks : list (list Z)) (c : client) (x : X) : option (client * X * bool) :=
  match chunks with
  | [] => Some (c, x, true)
  | bs :: chunks => '(c, x, ok) ← readQueryFromClient (ReadBytes bs) c x; if (ok : bool) then feed chunks c x else Some (c, x, false)
  end.

Lemma feed_ok (ws0 : list wire) fut : forall chunks c x u ws, Forall wire_ok ws -> normal (flags c) -> settled c u ws (concat chunks ++ fut) -> qb_pos c = 0 ->
  (forall w, w ∈ ws -> w ∈ ws0) -> (forall w bs, w ∈ ws0 -> bs ∈ chunks -> zlen (enc_wire w) + zlen bs <= client_max_querybuf_len) ->
  0 <= client_max_querybuf_len ->
  exists c' dn todo u', feed chunks c x = Some (c', exec_all x dn, true) /\ ws = dn ++ todo /\ settled c' u' todo fut /\ frame c c' /\ qb_pos c' = 0.
Proof.
  induction chunks as [| bs chunks IH]; intros c x u ws Hws Hn Hset Hq Hsub Hfit Hmax; cbn [feed concat] in *.
  { exists c, [], ws, u. by rewrite app_nil_l in Hset. }
  destruct Hset as [Hu Hset]. unfold Resp.readQueryFromClient. rewrite (proj1 Hn). cbv zeta. cbn [negb andb querybuf].
  destruct Hu as (a & Ea & Ep). rewrite Hq in Ep. symmetry in Ep. apply zlen_0 in Ep as ->. cbn [app] in Ea.
  assert ((client_max_querybuf_len <? zlen (querybuf c ++ bs)) = false) as ->.
  { apply Z.ltb_ge. rewrite Ea, zlen_app. destruct ws as [| w ws].
    - destruct Hset as [_ E]. apply app_eq_nil in E as [-> E]. rewrite <- app_assoc in E. apply app_eq_nil in E as [-> _]. rewrite (@zlen_nil Z). lia.
    - destruct Hset as (rem & Hr & _ & Hlt). pose proof (reading_le _ _ _ Hr). specialize (Hfit w bs (Hsub w ltac:(left)) ltac:(left)). lia. }
  set (c1 := Client (querybuf c ++ bs) _ _ _ _ _ _ _ _).
  destruct (process_input_ok (concat chunks ++ fut) c1 x (u ++ bs) ws Hws Hn) as (c2 & dn & todo & u2 & -> & E2 & Hset2 & Hfr2 & Hq2).
  - exists []. unfold c1. cbn. by rewrite Ea, Hq.
  - destruct ws as [| w ws].
    + destruct Hset as [Er E]. split; [exact Er |]. by rewrite <- !app_assoc in *.
    + destruct Hset as (rem & Hr & E & _). exists rem. split; [exact Hr |]. by rewrite <- !app_assoc in *.
  - cbn [mbind option_bind]. subst ws. apply Forall_app in Hws as [_ Hws].
    destruct (IH c2 (exec_all x dn) u2 todo Hws) as (c' & dn' & todo' & u' & E1 & -> & Hset' & Hfr' & Hq'); [by rewrite (proj1 Hfr2) | done | done | | | done |].
    + intros w Hw. apply Hsub, elem_of_app. by right.
    + intros w bs' Hw Hb. apply Hfit; [done | by right].
    + exists c', (dn ++ dn'), todo', u'. split; [rewrite E1; unfold exec_all; by rewrite fold_left_app |]. split; [by rewrite app_assoc |].
      split; [done |]. split; [| done]. eapply frame_trans; [| exact Hfr']. exact Hfr2.
Qed.

(** C13: the request parser is independent of how the stream is cut.  Take any
    stream of valid requests, RESP arrays of any bytes or lines of plain
    text, delivered in any pieces: after each prefix of the stream, exactly the
    commands whose last byte has arrived have been executed, each once, in
    order and with the arguments that were encoded, no error was replied, and
    when the stream is complete the client is back in its initial state with
    an empty buffer. *)
Theorem resp_chunking ws chunks fut c x :
  Forall wire_ok ws -> querybuf c = [] -> qb_pos c = 0 -> req c = fresh 0 -> normal (flags c) -> 0 <= client_max_querybuf_len ->
  (forall w bs, w ∈ ws -> bs ∈ chunks -> zlen (enc_wire w) + zlen bs <= client_max_querybuf_len) ->
  concat chunks ++ fut = enc_wires ws ->
  exists c' dn todo, feed chunks c x = Some (c', exec_all x dn, true) /\ ws = dn ++ todo /\
    zlen (enc_wires dn) <= zlen (concat chunks) /\
    (forall w, head todo = Some w -> zlen (concat chunks) < zlen (enc_wires (dn ++ [w]))) /\
    flags c' = flags c /\ errors c' = errors c /\
    (fut = [] -> todo = [] /\ querybuf c' = [] /\ qb_pos c' = 0 /\ req c' = fresh 0).
Proof.
  intros Hws Eq Ep Er Hn Hmax Hfit E.
  assert (settled c [] ws (concat chunks ++ fut)) as Hset.
  { split; [exists []; by rewrite Eq, Ep |]. destruct ws as [| w ws]; [by split |]. exists (enc_wire w). split; [by apply R_start |]. split; [exact E |].
    apply Forall_cons in Hws as [Hw _]. destruct (wire_head w Hw) as (ch & t & -> & _). rewrite zlen_cons, (@zlen_nil Z). pose proof (zlen_nonneg t). lia. }
  destruct (feed_ok ws fut chunks c x [] ws Hws Hn Hset Ep ltac:(done) Hfit Hmax) as (c' & dn & todo & u & Ef & Ew & [Hu Hs] & [Hfl Herr] & Hq).
  exists c', dn, todo. split; [done |]. split; [done |].
  assert (zlen (concat chunks) + zlen fut = zlen (enc_wires dn) + zlen (enc_wires todo)) as El by (by rewrite <- !zlen_app, <- enc_wires_app, <- Ew, E).
  destruct todo as [| w todo].
  - destruct Hs as [Er' Es]. apply app_eq_nil in Es as [-> ->]. change (enc_wires []) with ([] : list Z) in El. rewrite (@zlen_nil Z) in El.
    split; [lia |]. split; [done |]. split; [done |]. split; [done |]. intros _. split; [done |].
    destruct Hu as (a & Ea & Ea'). rewrite Hq in Ea'. symmetry in Ea'. apply zlen_0 in Ea' as ->. by rewrite Ea.
  - destruct Hs as (rem & Hr & Es & Hlt). pose proof (reading_le _ _ _ Hr). assert (zlen (u ++ fut) = zlen (rem ++ enc_wires todo)) as El2 by (by rewrite Es).
    change (enc_wires (w :: todo)) with (enc_wire w ++ enc_wires todo) in El. rewrite !zlen_app in *. pose proof (zlen_nonneg u).
    split; [lia |]. split.
    + intros w' [= <-]. rewrite enc_wires_app, zlen_app. change (enc_wires [w]) with (enc_wire w ++ []). rewrite app_nil_r. lia.
    + split; [done |]. split; [done |]. intros ->. exfalso. rewrite (@zlen_nil Z) in *. pose proof (zlen_nonneg (enc_wires todo)). lia.
Qed.
End parser.
