(* ===== verification/RespSafe.v ===== *)
(** networking.c: the request parser on arbitrary bytes. *)
From S2P Require Import Prelude Strnum Sds SdsThms SdsText SdsTextThms SdsFmt Resp RespThms.

(** [strchr] on the rest of the query buffer, whatever it holds. *)
Lemma strchr_cases l ch n : ch <> 0 ->
  strchr_from (l ++ [0]) ch n = Some None \/
  exists x y, l = x ++ ch :: y /\ no_char ch x /\ no_char 0 x /\ strchr_from (l ++ [0]) ch n = Some (Some (n + zlen x)).
Proof.
  intros Hc. revert n. induction l as [| b l IH]; intros n; cbn [app strchr_from].
  - left. by rewrite (proj2 (Z.eqb_neq 0 ch)) by lia.
  - destruct (Z.eqb_spec b ch) as [-> | Hb].
    + right. exists [], l. split; [done |]. split; [apply Forall_nil_2 |]. split; [apply Forall_nil_2 |]. rewrite (@zlen_nil Z). by rewrite Z.add_0_r.
    + destruct (Z.eqb_spec b 0) as [-> | H0]; [by left |]. destruct (IH (n + 1)) as [E | (x & y & -> & H1 & H2 & E)]; [by left |].
      right. exists (b :: x), y. split; [done |]. split; [by apply Forall_cons |]. split; [by apply Forall_cons |].
      rewrite E, zlen_cons. do 2 f_equal. lia.
Qed.

Lemma newline_cases c u ch : at_buf c u -> ch <> 0 ->
  find_newline c ch = Some None \/
  exists x y, u = x ++ ch :: y /\ no_char ch x /\ no_char 0 x /\ find_newline c ch = Some (Some (qb_pos c + zlen x)).
Proof. intros Hu Hc. rewrite (find_at c u ch Hu). by apply strchr_cases. Qed.

Section safe.
Context (usable : Z -> Z) (junk : nat -> Z) (Hus : alloc_ok usable).
Context (authRequired : bool) (proto_max_bulk_len unixtime client_max_querybuf_len : Z).

(** Clients that get no more commands executed. *)
Definition stopped (f : client_flags) : bool :=
  CLIENT_BLOCKED f || CLIENT_PENDING_COMMAND f || CLIENT_CLOSE_AFTER_REPLY f || CLIENT_CLOSE_ASAP f.

(** Where the parser can wait for more bytes. *)
Definition waits (r : request) (u : list Z) : Prop :=
  r = fresh 0 \/ r = fresh PROTO_REQ_INLINE \/ (r = fresh PROTO_REQ_MULTIBULK /\ head u = Some 42) \/
  (reqtype r = PROTO_REQ_MULTIBULK /\ 0 < multibulklen r /\ -1 <= bulklen r < 2 ^ 63 /\ slots_ok r).

Definition client_ok (c : client) : Prop :=
  CLIENT_MASTER (flags c) = false /\ exists u, at_buf c u /\ (CLIENT_CLOSE_ASAP (flags c) = true \/ zlen u <= client_max_querybuf_len) /\
    (stopped (flags c) = true \/ waits (req c) u).

(** After a parsing function: a request, or no request and [client_ok]. *)
Definition parsed (c : client) (u : list Z) (res : option (client * status)) : Prop :=
  exists c' s, res = Some (c', s) /\ CLIENT_MASTER (flags c') = false /\
    ((s = C_OK /\ stopped (flags c') = stopped (flags c) /\ exists v, at_buf c' v /\ zlen v < zlen u) \/
     (s = C_ERR /\ exists v, at_buf c' v /\ zlen v <= zlen u /\ (stopped (flags c') = true \/ waits (req c') v))).

Lemma protocol_error_stops e c u : CLIENT_MASTER (flags c) = false -> at_buf c u -> parsed c u (Some (setProtocolError e c, C_ERR)).
Proof.
  intros Hm Hu. eexists _, _. split; [reflexivity |]. split; [done |]. right. split; [done |]. exists u. split; [done |]. split; [lia |].
  left. unfold stopped. cbn. by rewrite !orb_true_r.
Qed.

Lemma inline_safe c u : CLIENT_MASTER (flags c) = false -> at_buf c u -> req c = fresh PROTO_REQ_INLINE -> zlen u < 2 ^ 57 ->
  parsed c u (processInlineBuffer usable junk unixtime c).
Proof.
  intros Hm Hu Er Hlen. unfold processInlineBuffer. destruct (newline_cases c u 10 Hu ltac:(done)) as [-> | (x & y & -> & H10 & H0 & ->)]; cbn [mbind option_bind].
  { destruct (PROTO_INLINE_MAX_SIZE <? unparsed c); [by apply protocol_error_stops |]. eexists _, _. split; [reflexivity |]. split; [done |].
    right. split; [done |]. exists u. split; [done |]. split; [lia |]. right. right. by left. }
  assert (exists line (crlf : bool), x ++ 10 :: y = line ++ (if crlf then CRLF else [10]) ++ y /\ no_char 10 line /\ no_char 0 line /\ (crlf = false -> last line <> Some 13)) as (line & crlf & Ex & L10 & L0 & Hlast).
  { destruct x as [| z l _] using rev_ind; [by exists [], false |]. pose proof H10 as H10'. pose proof H0 as H0'.
    apply Forall_app in H10' as [? _]. apply Forall_app in H0' as [? _]. destruct (Z.eq_dec z 13) as [-> | Hz13].
    - exists l, true. by rewrite <- app_assoc.
    - exists (l ++ [z]), false. split; [done |]. split; [done |]. split; [done |]. rewrite last_snoc. congruence. }
  assert (qb_pos c + zlen x = qb_pos c + zlen line + (if crlf then 1 else 0)) as Enl.
  { assert (zlen (x ++ 10 :: y) = zlen (line ++ (if crlf then CRLF else [10]) ++ y)) as El by (by rewrite Ex). rewrite !zlen_app, zlen_cons in El.
    destruct crlf; [change (zlen CRLF) with 2 in El | change (zlen [10]) with 1 in El]; lia. }
  rewrite Ex in Hu, Hlen |- *. destruct (line_end c line crlf y Hu L10 L0 Hlast) as (nl & prev & _ & Eprev & Ecr & Enl2).
  rewrite <- Enl2 in Enl. rewrite Enl, Eprev. cbn [mbind option_bind]. rewrite Ecr. cbv zeta.
  assert ((if crlf then nl - 1 else nl) = qb_pos c + zlen line) as -> by (destruct crlf; lia).
  replace (qb_pos c + zlen line - qb_pos c) with (zlen line) by lia.
  pose proof (at_buf_rdn c [] line _ Hu) as Erd. change (zlen []) with 0 in Erd. rewrite Z.add_0_r in Erd. rewrite Erd. cbn [mbind option_bind].
  rewrite zlen_app in Hlen. pose proof (zlen_nonneg ((if crlf then CRLF else [10]) ++ y)).
  destruct (split_safe usable junk Hus (line ++ [0]) (zlen line)) as (r & -> & Hr); [by exists line, [] | lia |]. cbn [mbind option_bind].
  destruct r as [toks |]; [| by apply protocol_error_stops].
  set (c1 := if (zlen line =? 0) && is_replica (flags c) then _ else c).
  assert (querybuf c1 = querybuf c /\ qb_pos c1 = qb_pos c /\ req c1 = req c /\ flags c1 = flags c) as (B1 & B2 & B3 & B4) by (unfold c1; by destruct ((zlen line =? 0) && is_replica (flags c))).
  rewrite B4, Hm, andb_false_r.
  assert (exists args, mapM (fun t => rdn (s_buf t) 0 (sdslen t)) toks = Some args) as (args & ->).
  { clear - Hr. induction Hr as [| t toks (x & Hx) Hr (args & IH)]; [by exists [] |]. exists (x :: args). cbn [mapM]. rewrite (rep_rdn t x Hx). cbn [mbind option_bind]. by rewrite IH. }
  cbn [mbind option_bind]. eexists _, _. split; [reflexivity |]. cbn [set_req set_buffer flags]. rewrite B4. split; [done |]. left. split; [done |].
  split; [done |]. exists y. split.
  - assert (at_buf c1 ((line ++ (if crlf then CRLF else [10])) ++ y)) as Hu1.
    { destruct Hu as (a & Ea & Ep). exists a. rewrite B1, B2, <- app_assoc. by split. }
    apply (at_buf_skip c1 _ y (qb_pos c1 + zlen line + (if crlf then 2 else 1)) Hu1). rewrite zlen_app. destruct crlf; [change (zlen CRLF) with 2 | change (zlen [10]) with 1]; lia.
  - rewrite !zlen_app. pose proof (zlen_nonneg line). destruct crlf; [change (zlen CRLF) with 2 | change (zlen [10]) with 1]; lia.
Qed.
(** A line found in the buffer: its first byte, its text, what follows. *)
Lemma line_parts c x y k : at_buf c (k :: x ++ 13 :: y) -> (unparsed c - 2 <? qb_pos c + zlen (k :: x) - qb_pos c) = false ->
  rd (querybuf c) (qb_pos c) = Some k /\ rdn (querybuf c) (qb_pos c + 1) (qb_pos c + zlen (k :: x) - (qb_pos c + 1)) = Some x /\
  exists z v, y = z :: v /\ at_buf (set_buffer c (querybuf c) (qb_pos c + zlen (k :: x) + 2)) v.
Proof.
  intros Hu Hlt. apply Z.ltb_ge in Hlt. rewrite (at_buf_unparsed _ _ Hu) in Hlt. rewrite !zlen_cons, zlen_app, zlen_cons in Hlt. pose proof (zlen_nonneg x). split; [| split].
  - rewrite <- (Z.add_0_r (qb_pos c)), (at_buf_rd c _ 0 Hu) by lia. done.
  - rewrite zlen_cons. replace (qb_pos c + (1 + zlen x) - (qb_pos c + 1)) with (zlen x) by lia. by apply (at_buf_rdn c [k] x (13 :: y)).
  - destruct y as [| z v]; [rewrite (@zlen_nil Z) in Hlt; lia |]. exists z, v. split; [done |].
    apply (at_buf_skip c (k :: x ++ [13; z]) v); [by rewrite <- app_comm_cons, <- app_assoc |]. rewrite !zlen_cons, zlen_app. change (zlen [13; z]) with 2. lia.
Qed.

Lemma string2ll_range s v : string2ll s = Some v -> is_i64 v.
Proof. intros E. by apply string2ll_inv in E as [? _]. Qed.

(** The header: an error or a wait, an empty request, or arguments to read. *)
Lemma header_safe c u : CLIENT_MASTER (flags c) = false -> stopped (flags c) = false -> at_buf c u -> req c = fresh PROTO_REQ_MULTIBULK -> head u = Some 42 ->
  exists c' s, mbulk_header authRequired c = Some (c', s) /\
    (s <> Continue /\ parsed c u (Some (c', s)) \/
     s = Continue /\ flags c' = flags c /\ (exists v, at_buf c' v /\ zlen v < zlen u) /\ reqtype (req c') = PROTO_REQ_MULTIBULK /\
       0 < multibulklen (req c') /\ bulklen (req c') = -1 /\ slots_ok (req c')).
Proof.
  intros Hm Hst Hu Er Hh. unfold mbulk_header. rewrite Er. change (argc (fresh PROTO_REQ_MULTIBULK)) with 0. change (0 =? 0) with true. cbn [assert_ mbind option_bind].
  destruct u as [| k u]; [done |]. injection Hh as ->.
  assert (parsed c (42 :: u) (Some (c, C_ERR))) as Hwait.
  { eexists _, _. split; [reflexivity |]. split; [done |]. right. split; [done |]. exists (42 :: u). split; [done |]. split; [lia |]. right. right. right. left. done. }
  destruct (newline_cases c _ 13 Hu ltac:(done)) as [-> | (x & y & Eu & _ & _ & ->)]; cbn [mbind option_bind].
  { destruct (PROTO_INLINE_MAX_SIZE <? unparsed c); eexists _, _; (split; [reflexivity |]); left; (split; [done |]); [by apply protocol_error_stops | done]. }
  destruct x as [| k x]; [done |]. injection Eu as <- ->. destruct (unparsed c - 2 <? _) eqn:Elt.
  { eexists _, _. split; [reflexivity |]. by left. }
  destruct (line_parts c x y 42 Hu Elt) as (E1 & E2 & z & v & -> & Hv). rewrite E1. cbn [mbind option_bind]. change (42 =? 42) with true. cbn [assert_ mbind option_bind].
  rewrite E2. cbn [mbind option_bind].
  destruct (string2ll x) as [ll |]; [| eexists _, _; split; [reflexivity |]; left; split; [done |]; by apply protocol_error_stops].
  destruct (Z.ltb_spec INT_MAX ll); [eexists _, _; split; [reflexivity |]; left; split; [done |]; by apply protocol_error_stops |].
  destruct ((10 <? ll) && authRequired); [eexists _, _; split; [reflexivity |]; left; split; [done |]; by apply protocol_error_stops |].
  cbv zeta. assert (zlen v < zlen (42 :: x ++ 13 :: z :: v)) as Hlen by (rewrite zlen_cons, zlen_app, !zlen_cons; pose proof (zlen_nonneg x); lia).
  destruct (Z.leb_spec ll 0); eexists _, _; (split; [reflexivity |]).
  - left. split; [done |]. eexists _, _. split; [reflexivity |]. split; [done |]. left. split; [done |]. split; [done |]. by exists v.
  - right. split; [done |]. split; [done |]. split; [by exists v |]. cbn [req set_req set_buffer]. rewrite Er. split; [done |]. split; [done |]. split; [done |].
    unfold slots_ok, argc, INT_MAX in *. cbn [fresh argv argv_len multibulklen]. rewrite (@zlen_nil (list Z)). lia.
Qed.

Lemma length_safe c u : CLIENT_MASTER (flags c) = false -> at_buf c u -> bulklen (req c) = -1 ->
  exists c' s, mbulk_length authRequired proto_max_bulk_len c = Some (c', s) /\
    (s = C_ERR /\ parsed c u (Some (c', C_ERR)) \/ s = C_OK /\ c' = c \/
     s = Continue /\ flags c' = flags c /\ (exists v, at_buf c' v /\ zlen v < zlen u) /\ exists n, 0 <= n < 2 ^ 63 /\ req c' = req (set_bulklen c n)).
Proof.
  intros Hm Hu Eb. unfold mbulk_length. destruct (newline_cases c _ 13 Hu ltac:(done)) as [-> | (x & y & -> & H13 & _ & ->)]; cbn [mbind option_bind].
  { destruct (PROTO_INLINE_MAX_SIZE <? unparsed c); eexists _, _; (split; [reflexivity |]); [left | right; by left]. split; [done | by apply protocol_error_stops]. }
  destruct (unparsed c - 2 <? _) eqn:Elt; [eexists _, _; split; [reflexivity |]; right; by left |].
  destruct x as [| k x].
  { (* the line is empty: its first byte is the carriage return *)
    pose proof (at_buf_rd c _ 0 Hu ltac:(lia)) as E1. rewrite Z.add_0_r in E1. rewrite E1. cbn [app]. change (rd (13 :: y) 0) with (Some 13). cbn [mbind option_bind].
    change (negb (13 =? 36)) with true. cbv iota. eexists _, _. split; [reflexivity |]. left. split; [done | by apply protocol_error_stops]. }
  destruct (line_parts c x y k Hu Elt) as (E1 & E2 & z & v & -> & Hv). rewrite E1. cbn [mbind option_bind].
  destruct (negb (k =? 36)); [eexists _, _; split; [reflexivity |]; left; split; [done | by apply protocol_error_stops] |].
  rewrite E2. cbn [mbind option_bind]. destruct (string2ll x) as [ll |] eqn:Ell; [| eexists _, _; split; [reflexivity |]; left; split; [done |]; by apply protocol_error_stops].
  destruct (Z.ltb_spec ll 0); cbn [orb]; [eexists _, _; split; [reflexivity |]; left; split; [done |]; by apply protocol_error_stops |].
  destruct (negb (CLIENT_MASTER (flags c)) && (proto_max_bulk_len <? ll)); [eexists _, _; split; [reflexivity |]; left; split; [done |]; by apply protocol_error_stops |].
  destruct ((16384 <? ll) && authRequired); [eexists _, _; split; [reflexivity |]; left; split; [done |]; by apply protocol_error_stops |].
  apply string2ll_range in Ell. unfold is_i64 in Ell. cbv zeta. set (c1 := set_buffer c _ _) in *.
  assert (zlen v < zlen ((k :: x) ++ 13 :: z :: v)) as Hlen by (rewrite zlen_app, !zlen_cons; pose proof (zlen_nonneg x); lia).
  eexists _, _. split; [reflexivity |]. right. right. split; [done |].
  destruct (negb (CLIENT_MASTER (flags c1)) && (PROTO_MBULK_BIG_ARG <=? ll) && (unparsed c1 <=? ll + 2)).
  - split; [done |]. split; [exists v; split; [by apply (at_buf_trim c1) | done] |]. exists ll. split; [lia | done].
  - split; [done |]. split; [by exists v |]. exists ll. split; [lia | done].
Qed.

Lemma arg_safe c u : at_buf c u -> 0 <= bulklen (req c) < 2 ^ 63 -> slots_ok (req c) -> 0 < multibulklen (req c) ->
  mbulk_arg c = Some (c, C_OK) \/
  exists c' v arg, mbulk_arg c = Some (c', Continue) /\ flags c' = flags c /\ at_buf c' v /\ zlen v + 2 <= zlen u /\ add_arg (req c) arg (req c').
Proof.
  intros Hu Hb Hs Hm. unfold mbulk_arg. cbv zeta. destruct (Z.ltb_spec (unparsed c) (u64 (bulklen (req c) + 2))) as [Hlt | Hge]; [by left |].
  right. rewrite (at_buf_unparsed _ _ Hu), u64_id in Hge by (unfold is_u64; lia).
  set (a := take (Z.to_nat (bulklen (req c))) u). set (w := drop (Z.to_nat (bulklen (req c))) u).
  assert (u = a ++ w) as Eu by (symmetry; apply take_drop). assert (zlen a = bulklen (req c)) as Ea by (apply zlen_take; lia).
  assert (2 <= zlen w) as Hw by (unfold w; rewrite zlen_drop by lia; lia). destruct w as [| c1 [| c2 v]]; [rewrite (@zlen_nil Z) in Hw; lia | change (zlen [c1]) with 1 in Hw; lia |].
  set (slots := if argv_len (req c) <=? argc (req c) then _ else _).
  destruct Hs as (S1 & S2 & S3). assert (argc (req c) + 1 <= slots /\ 0 < slots) as [Hs1 Hs2].
  { unfold slots. change (INT_MAX / 2) with 1073741823. unfold INT_MAX in *. pose proof (zlen_nonneg (argv (req c))). unfold argc in *. boolp; lia. }
  unfold assert_. rewrite (proj2 (Z.ltb_lt (argc (req c)) slots)) by lia. cbn [mbind option_bind].
  assert (forall arg, slots_ok (Request (reqtype (req c)) (argv (req c) ++ [arg]) slots (argv_len_sum (req c) + bulklen (req c)) (multibulklen (req c) - 1) (-1))) as Hslots.
  { intros arg. unfold slots_ok, argc in *. cbn [argv argv_len multibulklen]. rewrite zlen_app. change (zlen [arg]) with 1. lia. }
  clearbody a. subst u. rewrite zlen_app, !zlen_cons in *. pose proof (zlen_nonneg v). pose proof (zlen_nonneg a).
  destruct (negb (CLIENT_MASTER (flags c)) && (qb_pos c =? 0) && (PROTO_MBULK_BIG_ARG <=? bulklen (req c)) && (zlen (querybuf c) =? bulklen (req c) + 2)) eqn:Ebig.
  - cbn [mbind option_bind]. rewrite !andb_true_iff, !Z.eqb_eq in Ebig. destruct Ebig as (((_ & E0) & _) & _).
    eexists _, [], _. split; [reflexivity |]. split; [done |]. split; [exists []; cbn; by rewrite E0 |]. split; [rewrite (@zlen_nil Z); lia |].
    split; [done |]. split; [reflexivity |]. split; [done |]. split; [done | apply Hslots].
  - pose proof (at_buf_rdn c [] a _ Hu) as Er. change (zlen []) with 0 in Er. rewrite Z.add_0_r, Ea in Er. rewrite Er. cbn [mbind option_bind].
    eexists _, v, _. split; [reflexivity |]. split; [done |]. split.
    + apply (at_buf_skip c (a ++ [c1; c2])); [by rewrite <- app_assoc |]. rewrite zlen_app. change (zlen [c1; c2]) with 2. lia.
    + split; [lia |]. split; [done |]. split; [reflexivity |]. split; [done |]. split; [done | apply Hslots].
Qed.
Lemma parsed_weaken c c1 u v res : parsed c1 v res -> flags c1 = flags c -> zlen v <= zlen u -> parsed c u res.
Proof.
  intros (c' & s & -> & Hm & Hres) Ef Hle. exists c', s. split; [done |]. split; [done |]. rewrite Ef in Hres.
  destruct Hres as [(-> & Hst & w & Hw & Hlt) | (-> & w & Hw & Hlt & Hor)]; [left | right]; (split; [done |]).
  - split; [done |]. exists w. split; [done | lia].
  - exists w. split; [done |]. split; [lia | done].
Qed.

Lemma args_wait c u : CLIENT_MASTER (flags c) = false -> at_buf c u -> reqtype (req c) = PROTO_REQ_MULTIBULK -> 0 < multibulklen (req c) ->
  -1 <= bulklen (req c) < 2 ^ 63 -> slots_ok (req c) -> parsed c u (Some (c, C_ERR)).
Proof.
  intros Hm Hu Hty Hmb Hb Hs. eexists _, _. split; [reflexivity |]. split; [done |]. right. split; [done |]. exists u. split; [done |]. split; [lia |].
  right. right. right. right. done.
Qed.

Lemma loop_safe : forall fuel c u, CLIENT_MASTER (flags c) = false -> at_buf c u -> reqtype (req c) = PROTO_REQ_MULTIBULK -> 0 < multibulklen (req c) ->
  -1 <= bulklen (req c) < 2 ^ 63 -> slots_ok (req c) -> zlen u < Z.of_nat fuel ->
  parsed c u (mbulk_loop authRequired proto_max_bulk_len fuel c).
Proof.
  induction fuel as [| fuel IH]; intros c u Hm Hu Hty Hmb Hb Hs Hf; [pose proof (zlen_nonneg u); lia |].
  cbn [mbulk_loop]. rewrite (proj2 (Z.eqb_neq (multibulklen (req c)) 0)) by lia.
  (* the argument, once its length is known *)
  assert (forall c1 u1, flags c1 = flags c -> at_buf c1 u1 -> reqtype (req c1) = PROTO_REQ_MULTIBULK -> 0 < multibulklen (req c1) ->
    0 <= bulklen (req c1) < 2 ^ 63 -> slots_ok (req c1) -> zlen u1 <= zlen u ->
    parsed c u (match mbulk_arg c1 with
      | Some (c2, Continue) => mbulk_loop authRequired proto_max_bulk_len fuel c2
      | Some (c2, _) => Some (c2, if multibulklen (req c2) =? 0 then C_OK else C_ERR)
      | None => None end)) as Harg.
  { intros c1 u1 Ef Hu1 Hty1 Hmb1 Hb1 Hs1 Hle. destruct (arg_safe c1 u1 Hu1 Hb1 Hs1 Hmb1) as [-> | (c2 & v & arg & -> & Ef2 & Hv & Hlen & (T1 & T2 & T3 & T4 & T5))].
    - rewrite (proj2 (Z.eqb_neq (multibulklen (req c1)) 0)) by lia. apply (parsed_weaken c c1 u u1); [| done | done]. apply args_wait; try done; [by rewrite Ef | lia].
    - destruct (Z.eq_dec (multibulklen (req c2)) 0) as [E0 | E0].
      + pose proof (zlen_nonneg v). destruct fuel as [| fuel']; [lia |]. cbn [mbulk_loop]. rewrite E0, Z.eqb_refl. eexists _, _. split; [reflexivity |].
        rewrite Ef2, Ef. split; [done |]. left. split; [done |]. split; [done |]. exists v. split; [done | lia].
      + apply (parsed_weaken c c2 u v); [| congruence | lia]. apply IH; try done; rewrite ?Ef2, ?Ef, ?T1, ?T4; try done; lia. }
  destruct (Z.eqb_spec (bulklen (req c)) (-1)) as [Eb | Eb].
  - destruct (length_safe c u Hm Hu Eb) as (c1 & s & -> & [(-> & Hp) | [(-> & ->) | (-> & Ef & (v & Hv & Hlt) & n & Hn & Er)]]); cbn [mbind option_bind].
    + done.
    + rewrite (proj2 (Z.eqb_neq (multibulklen (req c)) 0)) by lia. by apply args_wait.
    + specialize (Harg c1 v Ef Hv). rewrite Er in Harg. specialize (Harg Hty Hmb Hn Hs ltac:(lia)).
      destruct (mbulk_arg c1) as [[c2 []] |]; exact Harg.
  - cbn [mbind option_bind]. specialize (Harg c u eq_refl Hu Hty Hmb ltac:(lia) Hs ltac:(lia)). destruct (mbulk_arg c) as [[c2 []] |]; exact Harg.
Qed.

Lemma multibulk_safe c u : CLIENT_MASTER (flags c) = false -> stopped (flags c) = false -> at_buf c u ->
  (req c = fresh PROTO_REQ_MULTIBULK /\ head u = Some 42) \/
  (reqtype (req c) = PROTO_REQ_MULTIBULK /\ 0 < multibulklen (req c) /\ -1 <= bulklen (req c) < 2 ^ 63 /\ slots_ok (req c)) ->
  parsed c u (processMultibulkBuffer authRequired proto_max_bulk_len c).
Proof.
  intros Hm Hst Hu Hor. unfold processMultibulkBuffer. destruct Hor as [(Er & Hh) | (Hty & Hmb & Hb & Hs)].
  - rewrite Er. cbn [fresh multibulklen]. change (0 =? 0) with true. cbv iota.
    destruct (header_safe c u Hm Hst Hu Er Hh) as (c1 & s & -> & [(Hs & Hp) | (-> & Ef & (v & Hv & Hlt) & Hty & Hmb & Hb & Hs)]); cbn [mbind option_bind].
    + by destruct s.
    + unfold assert_. rewrite (proj2 (Z.ltb_lt 0 _)) by done. cbn [mbind option_bind]. apply (parsed_weaken c c1 u v); [| done | lia].
      apply loop_safe; try done; [by rewrite Ef | lia |]. pose proof (at_buf_length c1 v Hv) as Hl. unfold zlen at 2 in Hl. lia.
  - rewrite (proj2 (Z.eqb_neq (multibulklen (req c)) 0)) by lia. cbn [mbind option_bind]. unfold assert_. rewrite (proj2 (Z.ltb_lt 0 _)) by done.
    cbn [mbind option_bind]. apply loop_safe; try done. pose proof (at_buf_length c u Hu) as Hl. unfold zlen at 2 in Hl. lia.
Qed.

Lemma request_safe c u : CLIENT_MASTER (flags c) = false -> stopped (flags c) = false -> at_buf c u -> u <> [] -> waits (req c) u -> zlen u < 2 ^ 57 ->
  parsed c u (parse_request usable junk authRequired proto_max_bulk_len unixtime c).
Proof.
  intros Hm Hst Hu Hne Hw Hlen. unfold parse_request. destruct u as [| ch u]; [done |].
  pose proof (at_buf_rd c _ 0 Hu ltac:(lia)) as Erd. rewrite Z.add_0_r in Erd. rewrite Erd. change (rd (ch :: u) 0) with (Some ch). cbn [mbind option_bind]. cbv zeta.
  destruct Hw as [Er | [Er | [(Er & Hh) | (Hty & Hmb)]]].
  - rewrite Er. change (reqtype (fresh 0) =? 0) with true. cbv iota. cbn [fresh argv argv_len argv_len_sum multibulklen bulklen].
    set (ty := if ch =? 42 then _ else _). assert (parsed (set_req c (fresh ty)) (ch :: u)
      (if ty =? PROTO_REQ_INLINE then processInlineBuffer usable junk unixtime (set_req c (fresh ty))
       else if ty =? PROTO_REQ_MULTIBULK then processMultibulkBuffer authRequired proto_max_bulk_len (set_req c (fresh ty)) else None)) as Hp.
    { unfold ty. destruct (Z.eqb_spec ch 42) as [-> |].
      - change (PROTO_REQ_MULTIBULK =? PROTO_REQ_INLINE) with false. change (PROTO_REQ_MULTIBULK =? PROTO_REQ_MULTIBULK) with true. cbv iota.
        apply multibulk_safe; try done. left. done.
      - change (PROTO_REQ_INLINE =? PROTO_REQ_INLINE) with true. cbv iota. by apply inline_safe. }
    eapply parsed_weaken; [exact Hp | done | lia].
  - rewrite Er. change (reqtype (fresh PROTO_REQ_INLINE) =? 0) with false. cbv iota. rewrite Er. by apply inline_safe.
  - rewrite Er. change (reqtype (fresh PROTO_REQ_MULTIBULK) =? 0) with false. cbv iota. rewrite Er. apply multibulk_safe; try done. left. done.
  - rewrite Hty. change (PROTO_REQ_MULTIBULK =? 0) with false. cbv iota. rewrite Hty. apply multibulk_safe; try done. right. done.
Qed.
(** ** The input loop and the events of a client *)

Context {X : Type} (processCommand : client -> X -> client * X * bool * bool) (io_thread yielding : bool).
Context (Hmax : client_max_querybuf_len < 2 ^ 57).
(** Executing a command may block, close or free the client, or change its
    arguments; it does not touch the query buffer. *)
Context (Hcommand : forall c x c' x' ok dead, processCommand c x = (c', x', ok, dead) -> dead = true \/
  (ok = true /\ querybuf c' = querybuf c /\ qb_pos c' = qb_pos c /\ CLIENT_MASTER (flags c') = CLIENT_MASTER (flags c) /\
   (CLIENT_CLOSE_ASAP (flags c) = true -> CLIENT_CLOSE_ASAP (flags c') = true))).

(** The kinds of events: a read, or (with threaded reads) the main thread
    running the command that was parsed. *)
Inductive client_event := Readable (r : received) | RunPending.
Definition handle (e : client_event) (c : client) (x : X) : option (client * X * bool) :=
  match e with
  | Readable r => readQueryFromClient usable junk authRequired proto_max_bulk_len unixtime client_max_querybuf_len processCommand io_thread yielding r c x
  | RunPending => processPendingCommandAndInputBuffer usable junk authRequired proto_max_bulk_len unixtime processCommand io_thread yielding c x
  end.
Fixpoint handle_all (es : list client_event) (c : client) (x : X) : option (client * X * bool) :=
  match es with
  | [] => Some (c, x, true)
  | e :: es => '(c, x, ok) ← handle e c x; if (ok : bool) then handle_all es c x else Some (c, x, false)
  end.

(** An outcome that leaves a client that is still there in order. *)
Definition fine (res : option (client * X * bool)) : Prop :=
  exists c x ok, res = Some (c, x, ok) /\ (ok = true -> client_ok c).

Lemma run_command_safe c x u : CLIENT_MASTER (flags c) = false -> at_buf c u -> (CLIENT_CLOSE_ASAP (flags c) = true \/ zlen u <= client_max_querybuf_len) ->
  exists c' x' ok, processCommandAndResetClient processCommand c x = (c', x', ok) /\
    (ok = true -> CLIENT_MASTER (flags c') = false /\ at_buf c' u /\ (CLIENT_CLOSE_ASAP (flags c') = true \/ zlen u <= client_max_querybuf_len) /\
       (stopped (flags c') = true \/ req c' = fresh 0)).
Proof.
  intros Hm Hu Hlen. unfold processCommandAndResetClient. destruct (processCommand c x) as [[[c1 x1] ok] dead] eqn:Ep.
  destruct (Hcommand _ _ _ _ _ _ Ep) as [-> | (-> & E1 & E2 & E3 & E4)]; [eexists _, _, _; split; [reflexivity | done] |].
  eexists _, _, _. split; [reflexivity |]. intros _. assert (at_buf c1 u) as Hu1 by (destruct Hu as (a & Ea & Eq); exists a; by rewrite E1, E2).
  unfold commandProcessed. rewrite Hm in E3. destruct (CLIENT_BLOCKED (flags c1)) eqn:Eb.
  - split; [done |]. split; [done |]. split; [tauto |]. left. unfold stopped. by rewrite Eb.
  - cbn [resetClient set_req flags]. rewrite E3. split; [done |]. split; [exact Hu1 |]. split; [tauto |]. by right.
Qed.

Lemma input_loop_safe : forall fuel c x u, CLIENT_MASTER (flags c) = false -> at_buf c u ->
  (CLIENT_CLOSE_ASAP (flags c) = true \/ zlen u <= client_max_querybuf_len) -> (stopped (flags c) = true \/ waits (req c) u) -> zlen u < Z.of_nat fuel ->
  fine (input_loop usable junk authRequired proto_max_bulk_len unixtime processCommand io_thread yielding fuel c x).
Proof.
  induction fuel as [| fuel IH]; intros c x u Hm Hu Hlen Hw Hf; [pose proof (zlen_nonneg u); lia |]. cbn [input_loop].
  pose proof (at_buf_unparsed c u Hu) as Eun. unfold unparsed in Eun. destruct (Z.ltb_spec (qb_pos c) (zlen (querybuf c))) as [Hlt | Hge].
  2: { eexists _, _, _. split; [reflexivity |]. intros _. split; [done |]. by exists u. }
  cbv zeta. rewrite Hm, andb_false_r, orb_false_r. fold (stopped (flags c)). destruct (stopped (flags c)) eqn:Est.
  { eexists _, _, _. split; [reflexivity |]. intros _. split; [done |]. exists u. split; [done |]. split; [done | by left]. }
  destruct Hw as [? | Hw]; [done |]. assert (CLIENT_CLOSE_ASAP (flags c) = false) as Ecl by (unfold stopped in Est; by destruct (CLIENT_CLOSE_ASAP (flags c)); rewrite ?orb_true_r in Est).
  destruct Hlen as [? | Hlen]; [congruence |]. assert (u <> []) as Hne by (intros ->; rewrite (@zlen_nil Z) in Eun; lia).
  destruct (request_safe c u Hm Est Hu Hne Hw ltac:(lia)) as (c1 & s & -> & Hm1 & Hres). cbn [mbind option_bind].
  destruct Hres as [(-> & Hst1 & v & Hv & Hlt') | (-> & v & Hv & Hle & Hor)].
  2: { eexists _, _, _. split; [reflexivity |]. intros _. split; [done |]. exists v. split; [done |]. split; [right; lia | done]. }
  destruct (argc (req c1) =? 0).
  - apply (IH (resetClient c1) x v); [done | exact Hv | right; lia | right; by left | lia].
  - destruct io_thread.
    + eexists _, _, _. split; [reflexivity |]. intros _. split; [exact Hm1 |]. exists v. split; [exact Hv |]. split; [right; lia |].
      left. unfold stopped. cbn. by rewrite orb_true_r.
    + destruct (run_command_safe c1 x v Hm1 Hv ltac:(right; lia)) as (c2 & x2 & ok & -> & Hok). destruct ok; cbn [negb].
      * destruct (Hok eq_refl) as (Hm2 & Hv2 & Hl2 & Hor2). apply (IH c2 x2 v); try done; [| lia]. destruct Hor2 as [? | ?]; [by left | right; by left].
      * eexists _, _, _. split; [reflexivity | done].
Qed.

Lemma process_safe c x : client_ok c -> fine (processInputBuffer usable junk authRequired proto_max_bulk_len unixtime processCommand io_thread yielding c x).
Proof.
  intros (Hm & u & Hu & Hlen & Hw). unfold processInputBuffer.
  destruct (input_loop_safe (S (length (querybuf c))) c x u Hm Hu Hlen Hw) as (c1 & x1 & ok & -> & Hok).
  { pose proof (at_buf_length c u Hu) as Hl. unfold zlen at 2 in Hl. lia. }
  cbn [mbind option_bind]. destruct ok; [| by eexists _, _, _]. eexists _, _, _. split; [reflexivity |]. intros _.
  destruct (Hok eq_refl) as (Hm1 & v & Hv & Hlen1 & Hw1). unfold trim_buffer. rewrite Hm1. destruct (negb (qb_pos c1 =? 0)); [| split; [done | by exists v]].
  split; [done |]. exists v. split; [by apply at_buf_trim | done].
Qed.

Lemma handle_safe e c x : client_ok c -> fine (handle e c x).
Proof.
  intros Hc. pose proof Hc as (Hm & u & Hu & Hlen & Hw). destruct e as [r |]; cbn [handle].
  - unfold readQueryFromClient. destruct r as [connected | | bs].
    + eexists _, _, _. split; [reflexivity |]. intros _. destruct connected; [done |]. split; [done |]. exists u. split; [done |]. split; [by left |]. left. unfold stopped. cbn. by rewrite orb_true_r.
    + eexists _, _, _. split; [reflexivity |]. intros _. split; [done |]. exists u. split; [done |]. split; [by left |]. left. unfold stopped. cbn. by rewrite orb_true_r.
    + rewrite Hm. cbv zeta. cbn [negb andb querybuf].
      assert (forall f, at_buf (Client (querybuf c ++ bs) (qb_pos c) (req c) f (repl_ack_time c) (reploff c) (read_reploff c) (repl_applied c) (errors c)) (u ++ bs)) as Hu1.
      { intros f. destruct Hu as (a & Ea & Ep). exists a. cbn. by rewrite Ea, <- app_assoc. }
      destruct (Z.ltb_spec client_max_querybuf_len (zlen (querybuf c ++ bs))) as [Hbig | Hsmall].
      * eexists _, _, _. split; [reflexivity |]. intros _. split; [done |]. exists (u ++ bs). split; [apply Hu1 |]. split; [by left |].
        left. unfold stopped. cbn. by rewrite orb_true_r.
      * apply process_safe. split; [done |]. exists (u ++ bs). split; [apply Hu1 |]. split.
        { right. pose proof (at_buf_length _ _ (Hu1 (flags c))) as Hl. cbn in Hl. lia. }
        destruct Hw as [? | [? | [? | [(Er & Hh) | ?]]]]; [by left | right; by left | right; right; by left | | right; right; right; by right].
        right; right; right; left. split; [done |]. by destruct u.
  - unfold processPendingCommandAndInputBuffer. destruct (CLIENT_PENDING_COMMAND (flags c)) eqn:Epd.
    + destruct (run_command_safe (set_pending false c) x u Hm Hu Hlen) as (c2 & x2 & ok & -> & Hok). destruct ok; cbn [negb]; [| by eexists _, _, _].
      destruct (Hok eq_refl) as (Hm2 & Hv2 & Hl2 & Hor2).
      assert (client_ok c2) as Hc2 by (split; [done |]; exists u; split; [done |]; split; [done |]; destruct Hor2; [by left | right; by left]).
      destruct (0 <? zlen (querybuf c2)); [by apply process_safe | by eexists _, _, _].
    + cbn [negb]. destruct (0 <? zlen (querybuf c)); [by apply process_safe | by eexists _, _, _].
Qed.

Lemma handle_all_safe es : forall c x, client_ok c -> fine (handle_all es c x).
Proof.
  induction es as [| e es IH]; intros c x Hc; cbn [handle_all]; [by eexists _, _, _ |].
  destruct (handle_safe e c x Hc) as (c1 & x1 & ok & -> & Hok). cbn [mbind option_bind].
  destruct ok; [apply IH; by apply Hok | by eexists _, _, _].
Qed.

(** A stopped client: its buffer may grow, nothing is parsed or executed. *)
Lemma stopped_loop fuel c x : stopped (flags c) = true -> (0 < fuel)%nat ->
  input_loop usable junk authRequired proto_max_bulk_len unixtime processCommand io_thread yielding fuel c x = Some (c, x, true).
Proof.
  intros Hs Hf. destruct fuel as [| fuel]; [lia |]. cbn [input_loop]. destruct (qb_pos c <? zlen (querybuf c)); [| done]. cbv zeta.
  unfold stopped in Hs. destruct (CLIENT_BLOCKED (flags c)); [done |]. destruct (CLIENT_PENDING_COMMAND (flags c)); [done |].
  destruct (yielding && CLIENT_MASTER (flags c)); [done |]. cbn [orb] in *. by rewrite Hs.
Qed.

Lemma stopped_step r c x : stopped (flags c) = true -> exists c', handle (Readable r) c x = Some (c', x, true) /\ stopped (flags c') = true /\
  req c' = req c /\ errors c' = errors c.
Proof.
  intros Hs. assert (stopped (flags (set_close_asap c)) = true) as Hca by (unfold stopped; cbn; by rewrite orb_true_r).
  cbn [handle]. unfold readQueryFromClient. destruct r as [[] | | bs]; [by exists c | by eexists | by eexists |]. cbv zeta.
  destruct (_ && _); [eexists; split; [reflexivity |]; split; [unfold stopped; cbn; by rewrite orb_true_r | done] |].
  unfold processInputBuffer. rewrite stopped_loop by (done || lia). cbn [mbind option_bind]. eexists. split; [reflexivity |].
  unfold trim_buffer. cbn [flags]. destruct (CLIENT_MASTER (flags c)); [by destruct (negb _) | by destruct (negb _)].
Qed.

Lemma stopped_all rs : forall c x, stopped (flags c) = true -> exists c', handle_all (map Readable rs) c x = Some (c', x, true) /\ req c' = req c /\ errors c' = errors c.
Proof.
  induction rs as [| r rs IH]; intros c x Hs; cbn [map handle_all]; [by exists c |].
  destruct (stopped_step r c x Hs) as (c1 & -> & Hs1 & Er & Ee). cbn [mbind option_bind].
  destruct (IH c1 x Hs1) as (c2 & -> & Er2 & Ee2). exists c2. split; [done |]. split; congruence.
Qed.

(** C14: whatever bytes clients send and whatever the reads return, the parser
    neither fails an assertion nor accesses memory outside the query buffer or
    the argument vector, it terminates, and as long as the client is there its
    state stays well formed: the parsing position lies in the buffer, the
    buffer within the configured limit unless the client is about to be closed,
    and the fields of the request describe one of the parser's waiting points.
    A client that is blocked, closed after a protocol error or above the limit
    gets nothing more executed, whatever else it sends. *)
Theorem resp_safe es c x : client_ok c ->
  (exists c' x' ok, handle_all es c x = Some (c', x', ok) /\ (ok = true -> client_ok c')) /\
  (forall rs, stopped (flags c) = true -> exists c', handle_all (map Readable rs) c x = Some (c', x, true) /\ req c' = req c /\ errors c' = errors c).
Proof. intros Hc. split; [by apply handle_all_safe | intros rs; apply stopped_all]. Qed.
End safe.

(** ** Instances *)

Definition ex_flags : client_flags := Flags false false false false false false false false false.
Definition ex_client : client := Client [] 0 (fresh 0) ex_flags 0 0 0 0 [].
(** Commands that are only recorded. *)
Definition ex_record (c : client) (x : list (list (list Z))) : client * list (list (list Z)) * bool * bool := (c, x ++ [argv (req c)], true, false).
Definition ex_exec (x : list (list (list Z))) (args : list (list Z)) : list (list (list Z)) := x ++ [args].

(** [SET k <CR LF>] in RESP, an empty array, and an inline [PING x]. *)
Definition ex_wires : list wire :=
  [WMulti [[83; 69; 84]; [107]; [13; 10]]; WMulti []; WInline [80; 73; 78; 71; 32; 120] true [[80; 73; 78; 71]; [120]]].
(** The stream cut into three-byte reads. *)
Fixpoint cut3 (l : list Z) : list (list Z) :=
  match l with a :: b :: d :: l => [a; b; d] :: cut3 l | [] => [] | l => [l] end.

Lemma cut3_short l : Forall (fun bs => zlen bs <= 3) (cut3 l).
Proof.
  induction l as [l IH] using (induction_ltof1 _ (@length Z)). unfold ltof in IH.
  destruct l as [| a [| b [| d l]]]; cbn [cut3]; try apply Forall_nil_2; apply Forall_cons; (split; [unfold zlen; cbn; lia |]); try apply Forall_nil_2.
  apply IH. cbn. lia.
Qed.

Example ex_feed : exists c', feed round16 ex_junk false 512 0 1024 ex_record false (cut3 (enc_wires ex_wires)) ex_client [] =
  Some (c', [[[83; 69; 84]; [107]; [13; 10]]; [[80; 73; 78; 71]; [120]]], true).
Proof. eexists. vm_compute. reflexivity. Qed.

Lemma ex_client_ok : client_ok 1024 ex_client.
Proof. split; [done |]. exists []. split; [by exists [] |]. split; [right; done |]. right. by left. Qed.

Lemma resp_safe_witness : exists c' x' ok, handle_all round16 ex_junk true 512 0 1024 ex_record false false
    [Readable (ReadBytes (chars "*2")); Readable (ReadBytes [13; 10; 36; 45; 49; 13; 10]); RunPending; Readable (ReadBytes (chars "PING"))] ex_client [] = Some (c', x', ok) /\
    (ok = true -> client_ok 1024 c').
Proof.
  eapply (proj1 (resp_safe round16 ex_junk round16_ok true 512 0 1024 ex_record false false ltac:(lia) ltac:(intros c x c' x' ok dead [= <- <- <- <-]; right; done) _ ex_client [] ex_client_ok)).
Defined.

Lemma small_args args : forallb (fun a => zlen a <=? 512) args = true -> Forall (arg_ok true 512) args.
Proof. intros H. apply Forall_forall. intros a Ha%list_elem_of_In. apply (proj1 (forallb_forall _ _) H) in Ha. unfold arg_ok. lia. Qed.

Lemma ex_wires_ok : Forall (wire_ok round16 ex_junk true 512) ex_wires.
Proof.
  apply Forall_cons. split; [split; [by apply small_args | split; [done | intros _; by apply Z.leb_le]] |].
  apply Forall_cons. split; [split; [by apply small_args | split; [done | intros _; by apply Z.leb_le]] |].
  apply Forall_cons. split; [| apply Forall_nil_2].
  split; [forall_lit ltac:(lia) |]. split; [forall_lit ltac:(lia) |]. split; [done |]. split; [done |]. split; [done |].
  eexists. split; vm_compute; reflexivity.
Qed.

Lemma ex_wires_short : Forall (fun w => zlen (enc_wire w) <= 100) ex_wires.
Proof. forall_lit ltac:(apply Z.leb_le; reflexivity). Qed.

Lemma resp_chunking_witness : exists c' dn todo, feed round16 ex_junk true 512 0 1024 ex_record false (cut3 (enc_wires ex_wires)) ex_client [] =
    Some (c', exec_all ex_exec [] dn, true) /\ ex_wires = dn ++ todo /\ todo = [].
Proof.
  destruct (resp_chunking round16 ex_junk true 512 0 1024 ex_record ex_exec false
    ltac:(intros c x; exists c; done) ex_wires (cut3 (enc_wires ex_wires)) [] ex_client []) as (c' & dn & todo & E & Ew & _ & _ & _ & _ & H); try reflexivity.
  - exact ex_wires_ok.
  - repeat split.
  - lia.
  - intros w bs Hw Hb. apply (proj1 (Forall_forall _ _) ex_wires_short) in Hw. apply (proj1 (Forall_forall _ _) (cut3_short (enc_wires ex_wires))) in Hb. lia.
  - destruct (H eq_refl) as (H1 & _). exists c', dn, todo. split; [exact E | split; [exact Ew | exact H1]].
Defined.
