(* ===== verification/Skiplist.v ===== *)
(** t_zset.c: the skip list of sorted sets, and the doubles that are its
    scores.

    C's [double] is the Standard Library's executable model of binary64
    ([spec_float] at precision 53), with C's comparisons and the laws of their
    order.  The nodes live in a memory of their own, a map from addresses to
    nodes; a read or write through a pointer that leads to no node, or at a
    level the node does not have, has no result ([None]), like a failed
    assertion.  Elements are represented by the bytes of their sds strings. *)
From Stdlib Require Export SpecFloat.
From stdpp Require Import gmap.
From S2P Require Import Prelude Sds.

Definition double : Type := spec_float.
Definition dprec : Z := 53.
Definition demax : Z := 1024.

Definition isnan (d : double) : bool := match d with S754_nan => true | _ => false end.
Definition d_lt (a b : double) : bool := SFltb a b.
Definition d_eq (a b : double) : bool := SFeqb a b.
Definition d_le (a b : double) : bool := SFleb a b.
Definition d_add (a b : double) : double := SFadd dprec demax a b.
(** The conversion of a [long long]. *)
Definition d_of_ll (z : Z) : double := binary_normalize dprec demax z 0 false.

Declare Scope double_scope.
Delimit Scope double_scope with D.
Infix "<?" := d_lt : double_scope.
Infix "=?" := d_eq : double_scope.
Infix "<=?" := d_le : double_scope.

(** ** The order

    A number's place in the order: class, exponent and mantissa. *)
Definition dkey (d : double) : Z * Z * Z :=
  match d with
  | S754_zero _ | S754_nan => (0, 0, 0)
  | S754_infinity s => (if s then -2 else 2, 0, 0)
  | S754_finite s m e => if s then (-1, - e, Z.neg m) else (1, e, Z.pos m)
  end.

Definition klt (a b : Z * Z * Z) : Prop :=
  let '(a1, a2, a3) := a in let '(b1, b2, b3) := b in
  a1 < b1 \/ (a1 = b1 /\ (a2 < b2 \/ (a2 = b2 /\ a3 < b3))).

Lemma klt_irrefl a : ~ klt a a.
Proof. destruct a as [[? ?] ?]. cbn. lia. Qed.
Lemma klt_trans a b c : klt a b -> klt b c -> klt a c.
Proof. destruct a as [[? ?] ?], b as [[? ?] ?], c as [[? ?] ?]. cbn. lia. Qed.
Lemma klt_total a b : klt a b \/ a = b \/ klt b a.
Proof.
  destruct a as [[a1 a2] a3], b as [[b1 b2] b3]. cbn.
  assert (a1 < b1 \/ a1 = b1 \/ b1 < a1) as [? | [-> | ?]] by lia; [by left; left | | by right; right; left].
  assert (a2 < b2 \/ a2 = b2 \/ b2 < a2) as [? | [-> | ?]] by lia; [left; lia | | right; right; lia].
  assert (a3 < b3 \/ a3 = b3 \/ b3 < a3) as [? | [-> | ?]] by lia; [left; lia | right; left; done | right; right; lia].
Qed.

(** Comparison of numbers is comparison of places. *)
Lemma SFcompare_key a b : isnan a = false -> isnan b = false ->
  match SFcompare a b with
  | Some Lt => klt (dkey a) (dkey b)
  | Some Eq => dkey a = dkey b
  | Some Gt => klt (dkey b) (dkey a)
  | None => False
  end.
Proof.
  intros Ha Hb. destruct a as [sa | sa | | sa ma ea], b as [sb | sb | | sb mb eb]; try discriminate; try destruct sa; try destruct sb; cbn [SFcompare];
    try (cbn; lia || done).
  all: change (Pos.compare_cont Eq ma mb) with (ma ?= mb)%positive.
  all: destruct (Z.compare_spec ea eb) as [-> | |]; [| cbn; lia | cbn; lia]; destruct (Pos.compare_spec ma mb) as [-> | |]; cbn; [done | lia | lia].
Qed.

Section order.
Context (a b : double) (Ha : isnan a = false) (Hb : isnan b = false).

Lemma d_lt_key : (a <? b)%D = true <-> klt (dkey a) (dkey b).
Proof.
  unfold d_lt, SFltb. pose proof (SFcompare_key a b Ha Hb) as H. destruct (SFcompare a b) as [[] |]; [| done | | done].
  - rewrite H. split; [done |]. intros Hk. by apply klt_irrefl in Hk.
  - split; [done |]. intros Hk. destruct (klt_irrefl (dkey a)). by eapply klt_trans.
Qed.

Lemma d_eq_key : (a =? b)%D = true <-> dkey a = dkey b.
Proof.
  unfold d_eq, SFeqb. pose proof (SFcompare_key a b Ha Hb) as H. destruct (SFcompare a b) as [[] |]; [done | | | done];
    (split; [done |]; intros E; rewrite E in H; by apply klt_irrefl in H).
Qed.

Lemma d_le_key : (a <=? b)%D = true <-> ~ klt (dkey b) (dkey a).
Proof.
  unfold d_le, SFleb. pose proof (SFcompare_key a b Ha Hb) as H. destruct (SFcompare a b) as [[] |]; [| | | done].
  - split; [intros _; rewrite H; apply klt_irrefl | done].
  - split; [| done]. intros _ Hk. destruct (klt_irrefl (dkey a)). by eapply klt_trans.
  - split; [done |]. intros Hk. by destruct Hk.
Qed.
End order.

Definition addr : Type := positive.

Record zskiplistLevel := Level { forward : option addr; span : Z }.
Record zskiplistNode := Node { ele : option (list Z); score : double; backward : option addr; levels : list zskiplistLevel }.
Record zskiplist := Zsl { nodes : gmap addr zskiplistNode; header : addr; tail : option addr; zsl_length : Z; zsl_level : nat }.

Definition ZSKIPLIST_MAXLEVEL : nat := 32.

(** [sdscmp] on the bytes of two strings. *)
Definition sdscmp_bytes (c1 c2 : list Z) : Z :=
  let l1 := zlen c1 in
  let l2 := zlen c2 in
  let minlen := Z.to_nat (if l1 <? l2 then l1 else l2) in
  let cmp := memcmp (take minlen c1) (take minlen c2) in
  if cmp =? 0 then if l2 <? l1 then 1 else if l1 <? l2 then -1 else 0 else cmp.

(** ** Memory *)

Definition get_level (z : zskiplist) (a : addr) (i : nat) : option zskiplistLevel := n ← nodes z !! a; levels n !! i.
Definition put_node (z : zskiplist) (a : addr) (n : zskiplistNode) : zskiplist :=
  Zsl (<[a := n]> (nodes z)) (header z) (tail z) (zsl_length z) (zsl_level z).
Definition set_level (z : zskiplist) (a : addr) (i : nat) (l : zskiplistLevel) : option zskiplist :=
  n ← nodes z !! a; _ ← levels n !! i;
  Some (put_node z a (Node (ele n) (score n) (backward n) (<[i := l]> (levels n)))).
Definition set_forward (z : zskiplist) (a : addr) (i : nat) (p : option addr) : option zskiplist :=
  l ← get_level z a i; set_level z a i (Level p (span l)).
Definition set_span (z : zskiplist) (a : addr) (i : nat) (s : Z) : option zskiplist :=
  l ← get_level z a i; set_level z a i (Level (forward l) s).
Definition set_backward (z : zskiplist) (a : addr) (b : option addr) : option zskiplist :=
  n ← nodes z !! a; Some (put_node z a (Node (ele n) (score n) b (levels n))).
Definition set_score (z : zskiplist) (a : addr) (s : double) : option zskiplist :=
  n ← nodes z !! a; Some (put_node z a (Node (ele n) s (backward n) (levels n))).
Definition set_tail (z : zskiplist) (t : option addr) : zskiplist := Zsl (nodes z) (header z) t (zsl_length z) (zsl_level z).
Definition set_zsl_length (z : zskiplist) (n : Z) : zskiplist := Zsl (nodes z) (header z) (tail z) n (zsl_level z).
Definition set_zsl_level (z : zskiplist) (n : nat) : zskiplist := Zsl (nodes z) (header z) (tail z) (zsl_length z) n.

(** A loop over levels. *)
Fixpoint for_levels (f : nat -> zskiplist -> option zskiplist) (js : list nat) (z : zskiplist) : option zskiplist :=
  match js with [] => Some z | i :: js => z ← f i z; for_levels f js z end.

(** ** Searching *)

(** The inner loop of the searches: go forward on level [i] from [x] while
    [go] accepts the next node and the rank reached, starting from rank [acc]. *)
Fixpoint walk (fuel : nat) (go : Z -> zskiplistNode -> option bool) (z : zskiplist) (i : nat) (x : addr) (acc : Z) : option (addr * Z) :=
  l ← get_level z x i;
  match forward l with
  | None => Some (x, acc)
  | Some y =>
      n ← nodes z !! y;
      let acc' := u64 (acc + span l) in
      b ← go acc' n;
      if (b : bool) then match fuel with O => None | S fuel => walk fuel go z i y acc' end else Some (x, acc)
  end.

(** The outer loop, from level [i - 1] down: [update[j]] and [rank[j]] for every [j < i]. *)
Fixpoint descend (go : Z -> zskiplistNode -> option bool) (z : zskiplist) (i : nat) (x : addr) (acc : Z) : option (list (addr * Z)) :=
  match i with
  | O => Some []
  | S i =>
      '(x, acc) ← walk (size (nodes z)) go z i x acc;
      upd ← descend go z i x acc;
      Some (upd ++ [(x, acc)])
  end.

(** Is the node before the given score and element? *)
Definition node_before (s : double) (e : list Z) (n : zskiplistNode) : option bool :=
  if (score n <? s)%D then Some true
  else if (score n =? s)%D then e' ← ele n; Some (sdscmp_bytes e' e <? 0)
  else Some false.

(** ** Insertion *)

(** [zslRandomLevel], on the results of [random()]: ZSKIPLIST_P*RAND_MAX as an int. *)
Definition threshold : Z := 536870911.
Fixpoint random_level (draws : list Z) (level : nat) : option nat :=
  match draws with
  | [] => None
  | r :: draws => if r <? threshold then random_level draws (S level) else Some level
  end.
Definition zslRandomLevel (draws : list Z) : option nat :=
  level ← random_level draws 1;
  Some (if (level <? ZSKIPLIST_MAXLEVEL)%nat then level else ZSKIPLIST_MAXLEVEL).

Section alloc.
(** Where [zmalloc] puts a new node, and what the memory it returns holds. *)
Context (alloc : gmap addr zskiplistNode -> addr) (uninit : zskiplistLevel) (uninit_backward : option addr).

Definition zslCreateNode (z : zskiplist) (level : nat) (s : double) (e : option (list Z)) : zskiplist * addr :=
  let a := alloc (nodes z) in
  (put_node z a (Node e s uninit_backward (repeat uninit level)), a).

Definition zslCreate : option zskiplist :=
  let '(z, h) := zslCreateNode (Zsl ∅ 1%positive None 0 1) ZSKIPLIST_MAXLEVEL (S754_zero false) None in
  let z := Zsl (nodes z) h (tail z) (zsl_length z) (zsl_level z) in
  z ← for_levels (fun j z => z ← set_forward z h j None; set_span z h j 0) (seq 0 ZSKIPLIST_MAXLEVEL) z;
  z ← set_backward z h None;
  Some (set_tail z None).

Definition raise_level (z : zskiplist) (level : nat) : option zskiplist :=
  z ← for_levels (fun i z => set_span z (header z) i (zsl_length z)) (seq (zsl_level z) (level - zsl_level z)) z;
  Some (set_zsl_level z level).

Definition link_level (x : addr) (upd : list (addr * Z)) (rank0 : Z) (i : nat) (z : zskiplist) : option zskiplist :=
  '(u, rank) ← upd !! i;
  lu ← get_level z u i;
  z ← set_forward z x i (forward lu);
  z ← set_forward z u i (Some x);
  z ← set_span z x i (u64 (span lu - u64 (rank0 - rank)));
  set_span z u i (u64 (u64 (rank0 - rank) + 1)).

Definition bump_level (upd : list (addr * Z)) (i : nat) (z : zskiplist) : option zskiplist :=
  '(u, _) ← upd !! i;
  lu ← get_level z u i;
  set_span z u i (u64 (span lu + 1)).

Definition zslInsert (z : zskiplist) (draws : list Z) (s : double) (e : list Z) : option (zskiplist * addr) :=
  _ ← assert_ (negb (isnan s));
  upd ← descend (fun _ => node_before s e) z (zsl_level z) (header z) 0;
  level ← zslRandomLevel draws;
  let upd := upd ++ repeat (header z, 0) (level - zsl_level z) in
  z ← (if (zsl_level z <? level)%nat then raise_level z level else Some z);
  let '(z, x) := zslCreateNode z level s (Some e) in
  '(u0, rank0) ← upd !! 0%nat;
  z ← for_levels (link_level x upd rank0) (seq 0 level) z;
  z ← for_levels (bump_level upd) (seq level (zsl_level z - level)) z;
  z ← set_backward z x (if decide (u0 = header z) then None else Some u0);
  lx ← get_level z x 0;
  z ← match forward lx with
      | Some y => set_backward z y (Some x)
      | None => Some (set_tail z (Some x))
      end;
  Some (set_zsl_length z (u64 (zsl_length z + 1)), x).

(** ** Deletion *)

Definition unlink_level (x : addr) (upd : list (addr * Z)) (i : nat) (z : zskiplist) : option zskiplist :=
  '(u, _) ← upd !! i;
  lu ← get_level z u i;
  if decide (forward lu = Some x) then
    lx ← get_level z x i;
    z ← set_span z u i (u64 (span lu + u64 (span lx - 1)));
    set_forward z u i (forward lx)
  else set_span z u i (u64 (span lu - 1)).

(** [while(zsl->level > 1 && ...) zsl->level--] *)
Fixpoint lower_level (z : zskiplist) (level : nat) : option nat :=
  match level with
  | S (S _ as l) =>
      lh ← get_level z (header z) l;
      match forward lh with None => lower_level z l | Some _ => Some level end
  | _ => Some level
  end.

Definition zslDeleteNode (z : zskiplist) (x : addr) (upd : list (addr * Z)) : option zskiplist :=
  z ← for_levels (unlink_level x upd) (seq 0 (zsl_level z)) z;
  lx ← get_level z x 0;
  n ← nodes z !! x;
  z ← match forward lx with
      | Some y => set_backward z y (backward n)
      | None => Some (set_tail z (backward n))
      end;
  level ← lower_level z (zsl_level z);
  Some (set_zsl_length (set_zsl_level z level) (u64 (zsl_length z - 1))).

Definition zslFreeNode (z : zskiplist) (x : addr) : zskiplist :=
  Zsl (delete x (nodes z)) (header z) (tail z) (zsl_length z) (zsl_level z).

(** Is the node the one with this score and element? *)
Definition node_is (s : double) (e : list Z) (n : zskiplistNode) : option bool :=
  if (s =? score n)%D then e' ← ele n; Some (sdscmp_bytes e' e =? 0) else Some false.

(** [free] is the caller passing NULL for [node]; the result is what [*node] is set to. *)
Definition zslDelete (z : zskiplist) (s : double) (e : list Z) (free : bool) : option (zskiplist * bool * option addr) :=
  upd ← descend (fun _ => node_before s e) z (zsl_level z) (header z) 0;
  '(u0, _) ← upd !! 0%nat;
  l0 ← get_level z u0 0;
  match forward l0 with
  | None => Some (z, false, None)
  | Some x =>
      n ← nodes z !! x;
      found ← node_is s e n;
      if (found : bool) then
        z ← zslDeleteNode z x upd;
        Some (if free then (zslFreeNode z x, true, None) else (z, true, Some x))
      else Some (z, false, None)
  end.

Definition zslUpdateScore (z : zskiplist) (draws : list Z) (curscore : double) (e : list Z) (newscore : double) : option (zskiplist * addr) :=
  upd ← descend (fun _ => node_before curscore e) z (zsl_level z) (header z) 0;
  '(u0, _) ← upd !! 0%nat;
  l0 ← get_level z u0 0;
  match forward l0 with
  | None => None
  | Some x =>
      n ← nodes z !! x;
      found ← node_is curscore e n;
      _ ← assert_ found;
      lx ← get_level z x 0;
      after ← match backward n with None => Some true | Some b => nb ← nodes z !! b; Some (score nb <? newscore)%D end;
      before ← match forward lx with None => Some true | Some f => nf ← nodes z !! f; Some (newscore <? score nf)%D end;
      if (after : bool) && (before : bool) then z ← set_score z x newscore; Some (z, x)
      else
        z ← zslDeleteNode z x upd;
        e' ← ele n;
        '(z, newnode) ← zslInsert z draws newscore e';
        Some (zslFreeNode z x, newnode)
  end.
End alloc.

(** ** Ranks *)

Definition node_upto (s : double) (e : list Z) (n : zskiplistNode) : option bool :=
  if (score n <? s)%D then Some true
  else if (score n =? s)%D then e' ← ele n; Some (sdscmp_bytes e' e <=? 0)
  else Some false.

(** x->ele && x->score == score && sdscmp(x->ele,ele) == 0 *)
Definition node_found (s : double) (e : list Z) (n : zskiplistNode) : bool :=
  match ele n with Some e' => (score n =? s)%D && (sdscmp_bytes e' e =? 0) | None => false end.

Fixpoint rank_loop (s : double) (e : list Z) (z : zskiplist) (i : nat) (x : addr) (rank : Z) : option Z :=
  match i with
  | O => Some 0
  | S i =>
      '(x, rank) ← walk (size (nodes z)) (fun _ => node_upto s e) z i x rank;
      n ← nodes z !! x;
      if node_found s e n then Some rank else rank_loop s e z i x rank
  end.
Definition zslGetRank (z : zskiplist) (s : double) (e : list Z) : option Z := rank_loop s e z (zsl_level z) (header z) 0.

Fixpoint by_rank_loop (rank : Z) (z : zskiplist) (i : nat) (x : addr) (traversed : Z) : option (option addr) :=
  match i with
  | O => Some None
  | S i =>
      '(x, traversed) ← walk (size (nodes z)) (fun t _ => Some (t <=? rank)) z i x traversed;
      if traversed =? rank then Some (Some x) else by_rank_loop rank z i x traversed
  end.
Definition zslGetElementByRank (z : zskiplist) (rank : Z) : option (option addr) := by_rank_loop rank z (zsl_level z) (header z) 0.

(** ** Ranges *)

Record zrangespec := Range { r_min : double; r_max : double; r_minex : bool; r_maxex : bool }.

Definition zslValueGteMin (v : double) (r : zrangespec) : bool := if r_minex r then (r_min r <? v)%D else (r_min r <=? v)%D.
Definition zslValueLteMax (v : double) (r : zrangespec) : bool := if r_maxex r then (v <? r_max r)%D else (v <=? r_max r)%D.

(** The bounds of lexicographic ranges: [shared.minstring], [shared.maxstring] or a string. *)
Inductive lexbound := minstring | maxstring | LexStr (s : list Z).
Record zlexrangespec := LexRange { l_min : lexbound; l_max : lexbound; l_minex : bool; l_maxex : bool }.

Definition sdscmplex (a b : lexbound) : Z :=
  match a, b with
  | minstring, minstring | maxstring, maxstring => 0
  | minstring, _ | _, maxstring => -1
  | maxstring, _ | _, minstring => 1
  | LexStr a, LexStr b => sdscmp_bytes a b
  end.
Definition zslLexValueGteMin (v : list Z) (r : zlexrangespec) : bool :=
  if l_minex r then 0 <? sdscmplex (LexStr v) (l_min r) else 0 <=? sdscmplex (LexStr v) (l_min r).
Definition zslLexValueLteMax (v : list Z) (r : zlexrangespec) : bool :=
  if l_maxex r then sdscmplex (LexStr v) (l_max r) <? 0 else sdscmplex (LexStr v) (l_max r) <=? 0.

(** The item of a ZRANGEBYLEX argument: the bound and whether it is exclusive.
    The argument is an sds string: a terminator follows its bytes. *)
Definition zslParseLexRangeItem (item : list Z) : option (lexbound * bool) :=
  match item ++ [0] with
  | 43 :: c :: _ => if c =? 0 then Some (maxstring, true) else None
  | 45 :: c :: _ => if c =? 0 then Some (minstring, true) else None
  | 40 :: _ => Some (LexStr (tl item), true)
  | 91 :: _ => Some (LexStr (tl item), false)
  | _ => None
  end.
Definition zslParseLexRange (min max : list Z) : option zlexrangespec :=
  '(lo, minex) ← zslParseLexRangeItem min;
  '(hi, maxex) ← zslParseLexRangeItem max;
  Some (LexRange lo hi minex maxex).

(** The two kinds of ranges at once: tests on a node and the test for ranges
    that are always empty. *)
Section range.
Context (gte_min lte_max : zskiplistNode -> option bool) (never : bool).

Definition in_range (z : zskiplist) : option bool :=
  if never then Some false
  else
    match tail z with
    | None => Some false
    | Some t =>
        nt ← nodes z !! t;
        gt ← gte_min nt;
        if negb gt then Some false
        else
          lh ← get_level z (header z) 0;
          match forward lh with
          | None => Some false
          | Some x => n ← nodes z !! x; lte_max n
          end
    end.

Definition option_negb (b : option bool) : option bool := b ← b; Some (negb b).

Definition first_in_range (z : zskiplist) : option (option addr) :=
  ok ← in_range z;
  if negb ok then Some None
  else
    upd ← descend (fun _ n => option_negb (gte_min n)) z (zsl_level z) (header z) 0;
    '(u, _) ← upd !! 0%nat;
    l ← get_level z u 0;
    match forward l with
    | None => None
    | Some x => n ← nodes z !! x; lt ← lte_max n; Some (if negb lt then None else Some x)
    end.

Definition last_in_range (z : zskiplist) : option (option addr) :=
  ok ← in_range z;
  if negb ok then Some None
  else
    upd ← descend (fun _ n => lte_max n) z (zsl_level z) (header z) 0;
    '(u, _) ← upd !! 0%nat;
    n ← nodes z !! u;
    gt ← gte_min n;
    Some (if negb gt then None else Some u).
End range.

Definition score_gte (r : zrangespec) (n : zskiplistNode) : option bool := Some (zslValueGteMin (score n) r).
Definition score_lte (r : zrangespec) (n : zskiplistNode) : option bool := Some (zslValueLteMax (score n) r).
Definition lex_gte (r : zlexrangespec) (n : zskiplistNode) : option bool := e ← ele n; Some (zslLexValueGteMin e r).
Definition lex_lte (r : zlexrangespec) (n : zskiplistNode) : option bool := e ← ele n; Some (zslLexValueLteMax e r).

Definition score_never (r : zrangespec) : bool := (r_max r <? r_min r)%D || ((r_min r =? r_max r)%D && (r_minex r || r_maxex r)).
Definition lex_never (r : zlexrangespec) : bool :=
  let cmp := sdscmplex (l_min r) (l_max r) in (0 <? cmp) || ((cmp =? 0) && (l_minex r || l_maxex r)).

Definition zslIsInRange (z : zskiplist) (r : zrangespec) : option bool := in_range (score_gte r) (score_lte r) (score_never r) z.
Definition zslFirstInRange (z : zskiplist) (r : zrangespec) : option (option addr) := first_in_range (score_gte r) (score_lte r) (score_never r) z.
Definition zslLastInRange (z : zskiplist) (r : zrangespec) : option (option addr) := last_in_range (score_gte r) (score_lte r) (score_never r) z.
Definition zslIsInLexRange (z : zskiplist) (r : zlexrangespec) : option bool := in_range (lex_gte r) (lex_lte r) (lex_never r) z.
Definition zslFirstInLexRange (z : zskiplist) (r : zlexrangespec) : option (option addr) := first_in_range (lex_gte r) (lex_lte r) (lex_never r) z.
Definition zslLastInLexRange (z : zskiplist) (r : zlexrangespec) : option (option addr) := last_in_range (lex_gte r) (lex_lte r) (lex_never r) z.

(** ** Deleting ranges *)

Section delete_range.
(** The dictionary of the sorted set, and [dictDelete]. *)
Context {D : Type} (dictDelete : D -> list Z -> D).

(** The loop of the range deletions, while [more] accepts the counter [t] and the node. *)
Fixpoint delete_loop (fuel : nat) (more : Z -> zskiplistNode -> option bool) (upd : list (addr * Z)) (z : zskiplist) (d : D)
    (x : option addr) (t removed : Z) : option (zskiplist * D * Z) :=
  match x with
  | None => Some (z, d, removed)
  | Some x =>
      n ← nodes z !! x;
      b ← more t n;
      if negb b then Some (z, d, removed)
      else
        match fuel with
        | O => None
        | S fuel =>
            lx ← get_level z x 0;
            z ← zslDeleteNode z x upd;
            e ← ele n;
            delete_loop fuel more upd (zslFreeNode z x) (dictDelete d e) (forward lx) (u64 (t + 1)) (u64 (removed + 1))
        end
  end.

Definition delete_range (go more : Z -> zskiplistNode -> option bool) (z : zskiplist) (d : D) : option (zskiplist * D * Z) :=
  upd ← descend go z (zsl_level z) (header z) 0;
  '(u, t) ← upd !! 0%nat;
  l ← get_level z u 0;
  delete_loop (size (nodes z)) more upd z d (forward l) (u64 (t + 1)) 0.

Definition zslDeleteRangeByScore (z : zskiplist) (r : zrangespec) (d : D) : option (zskiplist * D * Z) :=
  delete_range (fun _ n => option_negb (score_gte r n)) (fun _ n => score_lte r n) z d.
Definition zslDeleteRangeByLex (z : zskiplist) (r : zlexrangespec) (d : D) : option (zskiplist * D * Z) :=
  delete_range (fun _ n => option_negb (lex_gte r n)) (fun _ n => lex_lte r n) z d.
Definition zslDeleteRangeByRank (z : zskiplist) (start stop : Z) (d : D) : option (zskiplist * D * Z) :=
  delete_range (fun t _ => Some (t <? start)) (fun t _ => Some (t <=? stop)) z d.
End delete_range.
