(* ===== verification/SkiplistInv.v ===== *)
(** The representation invariant of skip lists, and searching. *)
From stdpp Require Import gmap.
From S2P Require Import Prelude Sds Skiplist.

(** ** The abstract view

    The nodes in order, with their addresses and heights. *)
Record gnode := G { g_addr : addr; g_score : double; g_ele : list Z; g_height : nat }.

Definition short (i : nat) (g : gnode) : Prop := (g_height g <= i)%nat.

(** What level [i] of a node holds when the nodes [l] follow it: the next node
    that is tall enough, and how far away it is (or the end of the list). *)
Fixpoint fwd (i : nat) (l : list gnode) : option addr :=
  match l with [] => None | g :: l => if (i <? g_height g)%nat then Some (g_addr g) else fwd i l end.
Fixpoint dst (i : nat) (l : list gnode) : Z :=
  match l with [] => 0 | g :: l => 1 + if (i <? g_height g)%nat then 0 else dst i l end.
Definition lv (i : nat) (l : list gnode) : zskiplistLevel := Level (fwd i l) (dst i l).

(** The node at the end of a prefix of the list; the header stands before the first. *)
Definition cur (z : zskiplist) (pre : list gnode) : addr := from_option g_addr (header z) (last pre).
Definition tall (z : zskiplist) (i : nat) (pre : list gnode) : Prop := (i < from_option g_height (zsl_level z) (last pre))%nat.

(** The fields of a node but for its levels, of which there is the number. *)
Definition shape (z : zskiplist) (a : addr) : option (option (list Z) * double * option addr * nat) :=
  n ← nodes z !! a; Some (ele n, score n, backward n, length (levels n)).

(** The levels are as the list says. *)
Definition linked (z : zskiplist) (ns : list gnode) : Prop :=
  forall pre post i, ns = pre ++ post -> tall z i pre -> get_level z (cur z pre) i = Some (lv i post).

(** [z] represents the nodes [ns]; the nodes at [ex] are in memory but not in the list. *)
Record rep (z : zskiplist) (ns : list gnode) (ex : list addr) : Prop := Rep {
  rep_level : linked z ns;
  rep_header : exists s, shape z (header z) = Some (None, s, None, ZSKIPLIST_MAXLEVEL);
  rep_unused : forall i, (zsl_level z <= i < ZSKIPLIST_MAXLEVEL)%nat -> exists s, get_level z (header z) i = Some (Level None s);
  rep_node : forall pre g post, ns = pre ++ g :: post -> shape z (g_addr g) = Some (Some (g_ele g), g_score g, g_addr <$> last pre, g_height g);
  rep_tail : tail z = g_addr <$> last ns;
  rep_length : zsl_length z = zlen ns;
  rep_bound : zlen ns < 2 ^ 64;
  rep_max : zsl_level z = foldr Nat.max 1%nat (map g_height ns);
  rep_heights : Forall (fun g => 1 <= g_height g <= ZSKIPLIST_MAXLEVEL)%nat ns;
  rep_scores : Forall (fun g => isnan (g_score g) = false) ns;
  rep_nodup : NoDup (header z :: map g_addr ns ++ ex);
  rep_dom : forall a, is_Some (nodes z !! a) <-> a ∈ header z :: map g_addr ns ++ ex }.

(** ** Levels *)

Lemma find_tall i l :
  (Forall (short i) l /\ fwd i l = None /\ dst i l = zlen l) \/
  exists l1 g l2, l = l1 ++ g :: l2 /\ Forall (short i) l1 /\ (i < g_height g)%nat /\ fwd i l = Some (g_addr g) /\ dst i l = zlen l1 + 1.
Proof.
  induction l as [| g l IH]; [left; repeat split; by apply Forall_nil_2 |]. cbn [fwd dst]. destruct (Nat.ltb_spec i (g_height g)) as [Ht | Ht].
  - right. exists [], g, l. split; [done |]. split; [apply Forall_nil_2 |]. done.
  - destruct IH as [(Hs & E1 & E2) | (l1 & g' & l2 & -> & Hs & Ht' & E1 & E2)].
    + left. split; [by apply Forall_cons |]. split; [done |]. rewrite zlen_cons. lia.
    + right. exists (g :: l1), g', l2. split; [done |]. split; [by apply Forall_cons |]. split; [done |]. split; [done |]. rewrite zlen_cons. lia.
Qed.

Lemma fwd_short i E B : Forall (short i) E -> fwd i (E ++ B) = fwd i B.
Proof. induction 1 as [| g E Hg _ IH]; [done |]. cbn [app fwd]. unfold short in Hg. by rewrite (proj2 (Nat.ltb_ge _ _) Hg). Qed.
Lemma dst_short i E B : Forall (short i) E -> dst i (E ++ B) = zlen E + dst i B.
Proof.
  induction 1 as [| g E Hg _ IH]; [done |]. cbn [app dst]. unfold short in Hg. rewrite (proj2 (Nat.ltb_ge _ _) Hg), IH, zlen_cons. lia.
Qed.
Lemma lv_short i E B : Forall (short i) E -> lv i (E ++ B) = Level (fwd i B) (zlen E + dst i B).
Proof. intros H. unfold lv. by rewrite fwd_short, dst_short. Qed.

Lemma lv_tall i g B : (i < g_height g)%nat -> lv i (g :: B) = Level (Some (g_addr g)) 1.
Proof. intros H. unfold lv. cbn [fwd dst]. by rewrite (proj2 (Nat.ltb_lt _ _) H). Qed.

Lemma lv_found i E g B : Forall (short i) E -> (i < g_height g)%nat -> lv i (E ++ g :: B) = Level (Some (g_addr g)) (zlen E + 1).
Proof. intros H Hg. rewrite lv_short by done. cbn [fwd dst]. by rewrite (proj2 (Nat.ltb_lt _ _) Hg). Qed.

(** A tall node in [E] hides what follows. *)
Lemma lv_hidden i E B C : ~ Forall (short i) E -> lv i (E ++ B) = lv i (E ++ C).
Proof.
  intros H. unfold lv. destruct (find_tall i E) as [(? & _) | (l1 & g & l2 & -> & Hs & Ht & _)]; [done |].
  rewrite <- !app_assoc. cbn [app]. pose proof (lv_found i l1 g (l2 ++ B) Hs Ht) as E1. pose proof (lv_found i l1 g (l2 ++ C) Hs Ht) as E2. unfold lv in *. congruence.
Qed.

Lemma dst_bounds i l : 0 <= dst i l <= zlen l.
Proof. induction l as [| g l IH]; cbn [dst]; [done |]. rewrite zlen_cons. destruct (i <? g_height g)%nat; [pose proof (zlen_nonneg l) |]; lia. Qed.

Lemma dst_end i l : fwd i l = None -> dst i l = zlen l.
Proof. intros H. destruct (find_tall i l) as [(_ & _ & ?) | (l1 & g & l2 & _ & _ & _ & E & _)]; [done | congruence]. Qed.

Global Instance short_dec i g : Decision (short i g).
Proof. unfold short. apply _. Defined.

(** ** Prefixes *)

Lemma cur_nil z : cur z [] = header z.
Proof. done. Qed.
Lemma cur_snoc z pre g : cur z (pre ++ [g]) = g_addr g.
Proof. unfold cur. by rewrite last_snoc. Qed.
Lemma tall_snoc z i pre g : tall z i (pre ++ [g]) <-> (i < g_height g)%nat.
Proof. unfold tall. by rewrite last_snoc. Qed.

Lemma app_cons_eq {A} (a b : list A) x c y d : a ++ x :: c = b ++ y :: d -> length a = length b -> a = b /\ x = y /\ c = d.
Proof. intros E Hl. apply app_inj_1 in E as [-> [= -> ->]]; done. Qed.

(** The nodes of [l] up to the last one that is on level [i]. *)
Fixpoint keep (i : nat) (l : list gnode) : list gnode :=
  match l with
  | [] => []
  | g :: l => match keep i l with [] => if (i <? g_height g)%nat then [g] else [] | r => g :: r end
  end.

Lemma keep_short i E : Forall (short i) E -> keep i E = [].
Proof. induction 1 as [| g E Hg _ IH]; [done |]. cbn [keep]. rewrite IH. unfold short in Hg. by rewrite (proj2 (Nat.ltb_ge _ _) Hg). Qed.

Lemma keep_tall i D g E : (i < g_height g)%nat -> Forall (short i) E -> keep i (D ++ g :: E) = D ++ [g].
Proof.
  intros Hg HE. induction D as [| d D IH]; cbn [app keep].
  - by rewrite keep_short, (proj2 (Nat.ltb_lt _ _) Hg) by done.
  - rewrite IH. by destruct D.
Qed.

Lemma keep_split i l : exists E, l = keep i l ++ E /\ Forall (short i) E /\ (keep i l = [] \/ exists D g, keep i l = D ++ [g] /\ (i < g_height g)%nat).
Proof.
  induction l as [| g l (E & El & HE & Hk)]; [exists []; split; [done |]; split; [apply Forall_nil_2 | by left] |]. cbn [keep].
  destruct (keep i l) as [| k r] eqn:Ek.
  - cbn [app] in El. subst l. destruct (Nat.ltb_spec i (g_height g)) as [Hg | Hg].
    + exists E. split; [done |]. split; [done |]. right. by exists [], g.
    + exists (g :: E). split; [done |]. split; [by apply Forall_cons | by left].
  - exists E. split; [by rewrite El |]. split; [done |]. right. destruct Hk as [? | (D & g' & -> & Hg')]; [done |]. by exists (g :: D), g'.
Qed.

Lemma keep_0 l : Forall (fun g => 1 <= g_height g)%nat l -> keep 0 l = l.
Proof.
  intros H. destruct (keep_split 0 l) as (E & El & HE & _). destruct E as [| g E]; [by rewrite app_nil_r in El |]. exfalso.
  rewrite El in H. apply Forall_app in H as [_ H]. apply Forall_cons in H as [H _]. apply Forall_cons in HE as [HE _]. unfold short in HE. lia.
Qed.

Lemma keep_le i l : zlen (keep i l) <= zlen l.
Proof. destruct (keep_split i l) as (E & El & _). rewrite El at 2. rewrite zlen_app. pose proof (zlen_nonneg E). lia. Qed.

(** Two prefixes of one list of which the first is not longer. *)
Lemma prefix_le {A} (a b c d : list A) : a ++ b = c ++ d -> (length a <= length c)%nat -> exists m, c = a ++ m /\ b = m ++ d.
Proof.
  intros E Hl. apply app_eq_app in E as (k & [(-> & ->) | (-> & ->)]); [| by exists k].
  destruct k as [| x k]; [exists []; by rewrite !app_nil_r | rewrite length_app in Hl; cbn in Hl; lia].
Qed.

Lemma cur_elem z ns pre post : ns = pre ++ post -> cur z pre ∈ header z :: map g_addr ns.
Proof.
  intros ->. destruct pre as [| g pre _] using rev_ind; [left |]. right. rewrite cur_snoc, !map_app. cbn. apply elem_of_app. left. apply elem_of_app. right. left.
Qed.

(** A prefix is determined by its last node. *)
Lemma cur_lookup z ns pre post : ns = pre ++ post -> (header z :: map g_addr ns) !! length pre = Some (cur z pre).
Proof.
  intros ->. destruct pre as [| g pre _] using rev_ind; [done |]. rewrite cur_snoc, length_app, Nat.add_comm. cbn.
  rewrite !map_app, <- app_assoc, <- (length_map g_addr pre). by apply list_lookup_middle.
Qed.
Lemma cur_inj z ns pre post pre' post' : NoDup (header z :: map g_addr ns) ->
  ns = pre ++ post -> ns = pre' ++ post' -> cur z pre = cur z pre' -> pre = pre'.
Proof.
  intros Hn E E' Hc. pose proof (cur_lookup z _ _ _ E) as H1. pose proof (cur_lookup z _ _ _ E') as H2. rewrite Hc in H1.
  pose proof (NoDup_lookup _ _ _ _ Hn H1 H2) as Hl. rewrite E in E'. by apply app_inj_1 in E' as [? _].
Qed.

(** [D] ends with the last node of [A] that is on level [i]. *)
Definition last_at (z : zskiplist) (A : list gnode) (i : nat) (D : list gnode) : Prop :=
  exists E, A = D ++ E /\ tall z i D /\ Forall (short i) E.

Lemma last_at_keep z A i D : last_at z A i D -> D = keep i A.
Proof.
  intros (E & -> & Ht & HE). destruct D as [| g D _] using rev_ind; [by rewrite keep_short |].
  rewrite <- app_assoc. cbn [app]. apply tall_snoc in Ht. by rewrite keep_tall.
Qed.

Section rep.
Context (z : zskiplist) (ns : list gnode) (ex : list addr) (R : rep z ns ex).

Lemma rep_addrs : NoDup (header z :: map g_addr ns).
Proof. pose proof (rep_nodup _ _ _ R) as H. change (NoDup ((header z :: map g_addr ns) ++ ex)) in H. by apply NoDup_app in H as (? & _). Qed.

Lemma node_at pre g post : ns = pre ++ g :: post -> exists n, nodes z !! g_addr g = Some n /\
  ele n = Some (g_ele g) /\ score n = g_score g /\ backward n = g_addr <$> last pre /\ length (levels n) = g_height g.
Proof.
  intros E. pose proof (rep_node _ _ _ R _ _ _ E) as H. unfold shape in H. destruct (nodes z !! g_addr g) as [n |]; [| done].
  cbn in H. injection H as E1 E2 E3 E4. exists n. by repeat split.
Qed.

Lemma fuel_enough : (length ns < size (nodes z))%nat.
Proof.
  pose proof (rep_addrs) as Hn. pose proof (size_list_to_set (C := gset addr) _ Hn) as Hs. cbn [length] in Hs. rewrite length_map in Hs.
  rewrite <- size_dom. apply Nat.lt_le_trans with (S (length ns)); [lia |]. rewrite <- Hs. apply subseteq_size. intros a Ha. apply elem_of_dom, (rep_dom _ _ _ R).
  apply elem_of_list_to_set, elem_of_cons in Ha as [-> | Ha]; [left |]. right. apply elem_of_app. by left.
Qed.

Lemma short_level i : (zsl_level z <= i)%nat -> Forall (short i) ns.
Proof.
  rewrite (rep_max _ _ _ R). clear. intros H. induction ns as [| g l IH]; [apply Forall_nil_2 |]. cbn in H. apply Forall_cons. split; [unfold short; lia | apply IH; lia].
Qed.

Lemma level_pos : (1 <= zsl_level z)%nat.
Proof. rewrite (rep_max _ _ _ R). clear. induction ns as [| g l IH]; cbn; lia. Qed.

Lemma level_max : (zsl_level z <= ZSKIPLIST_MAXLEVEL)%nat.
Proof.
  rewrite (rep_max _ _ _ R). pose proof (rep_heights _ _ _ R) as H. clear R. induction H as [| g l Hg _ IH]; cbn in *; unfold ZSKIPLIST_MAXLEVEL in *; lia.
Qed.

Lemma tall_0 pre post : ns = pre ++ post -> tall z 0 pre.
Proof.
  intros E. destruct pre as [| g pre _] using rev_ind; [exact level_pos |]. apply tall_snoc.
  pose proof (rep_heights _ _ _ R) as H. rewrite E, <- app_assoc in H. apply Forall_app in H as [_ H]. apply Forall_cons in H as [? _]. lia.
Qed.

Lemma tall_le i j pre : tall z i pre -> (j <= i)%nat -> tall z j pre.
Proof. unfold tall. lia. Qed.

(** ** Searching

    [go] accepts the nodes of [A] and refuses those of [B]. *)
Definition cut (go : Z -> zskiplistNode -> option bool) (A B : list gnode) : Prop :=
  forall pre g post n, A ++ B = pre ++ g :: post -> nodes z !! g_addr g = Some n -> go (zlen pre + 1) n = Some (length pre <? length A)%nat.

Context (go : Z -> zskiplistNode -> option bool) (A B : list gnode) (EAB : ns = A ++ B) (Hcut : cut go A B).

Lemma walk_ok i : forall fuel pre E, A = pre ++ E -> tall z i pre -> (length E <= fuel)%nat ->
  exists D, walk fuel go z i (cur z pre) (zlen pre) = Some (cur z D, zlen D) /\ last_at z A i D /\ (length pre <= length D)%nat.
Proof.
  induction fuel as [| fuel IH]; intros pre E EA Ht Hf.
  all: assert (ns = pre ++ (E ++ B)) as Ens by (by rewrite EAB, EA, app_assoc).
  all: pose proof (rep_level _ _ _ R _ _ _ Ens Ht) as El; cbn [walk]; rewrite El; cbn [mbind option_bind lv forward span].
  all: assert (Forall (short i) E -> last_at z A i pre) as Hstop by (intros Hs; exists E; done).
  all: destruct (find_tall i (E ++ B)) as [(Hs & -> & _) | (l1 & g & l2 & Es & Hs & Hg & -> & ->)];
    [exists pre; split; [done |]; split; [apply Hstop; by apply Forall_app in Hs as [? _] | done] |].
  all: assert (ns = (pre ++ l1) ++ g :: l2) as Eg by (by rewrite Ens, Es, <- app_assoc).
  all: destruct (node_at _ _ _ Eg) as (n & En & _); rewrite En; cbn [mbind option_bind].
  all: pose proof (rep_bound _ _ _ R) as Hb; rewrite Eg, zlen_app, zlen_app, zlen_cons in Hb; pose proof (zlen_nonneg pre); pose proof (zlen_nonneg l1); pose proof (zlen_nonneg l2).
  all: rewrite u64_id by (unfold is_u64; lia); replace (zlen pre + (zlen l1 + 1)) with (zlen (pre ++ l1) + 1) by (rewrite zlen_app; lia).
  all: rewrite EAB in Eg; rewrite (Hcut _ _ _ _ Eg En); cbn [mbind option_bind].
  all: assert (length (pre ++ l1) < length A -> exists E2, E = l1 ++ g :: E2)%nat as Hin by
    (rewrite EA, !length_app; intros Hlt; destruct (prefix_le l1 (g :: l2) E B) as (m & -> & Em); [done | lia |]; destruct m as [| g' m]; [rewrite app_nil_r in Hlt; lia |]; injection Em as <- _; by exists m).
  all: destruct (Nat.ltb_spec (length (pre ++ l1)) (length A)) as [Hlt | Hge].
  - destruct (Hin Hlt) as (E2 & ->). rewrite length_app in Hf. cbn in Hf. lia.
  - exists pre. split; [done |]. split; [apply Hstop | done]. rewrite EA, !length_app in Hge. destruct (prefix_le E B l1 (g :: l2)) as (m & -> & _); [done | lia |].
    by apply Forall_app in Hs as [? _].
  - destruct (Hin Hlt) as (E2 & ->). destruct (IH (pre ++ l1 ++ [g]) E2) as (D & ED & HD & Hl).
    + rewrite EA, <- !app_assoc. done.
    + rewrite app_assoc. by apply tall_snoc.
    + rewrite length_app in Hf. cbn in Hf. lia.
    + exists D. rewrite app_assoc, cur_snoc, <- app_assoc in ED. rewrite app_assoc, zlen_app in ED. change (zlen [g]) with 1 in ED. split; [exact ED |]. split; [done |].
      rewrite length_app in Hl. lia.
  - exists pre. split; [done |]. split; [apply Hstop | done]. rewrite EA, !length_app in Hge. destruct (prefix_le E B l1 (g :: l2)) as (m & -> & _); [done | lia |].
    by apply Forall_app in Hs as [? _].
Qed.

Lemma walk_full i pre E : A = pre ++ E -> tall z i pre ->
  exists D, walk (size (nodes z)) go z i (cur z pre) (zlen pre) = Some (cur z D, zlen D) /\ last_at z A i D /\ (length pre <= length D)%nat.
Proof.
  intros EA Ht. apply (walk_ok i _ pre E EA Ht). pose proof fuel_enough as Hf. rewrite EAB, EA, !length_app in Hf. lia.
Qed.

(** The arrays [update] and [rank]. *)
Definition updates (upd : list (addr * Z)) (n : nat) : Prop :=
  forall j, (j < n)%nat -> upd !! j = Some (cur z (keep j A), zlen (keep j A)).

Lemma descend_ok i : forall pre E, A = pre ++ E -> (forall j, (j < i)%nat -> tall z j pre) ->
  exists upd, descend go z i (cur z pre) (zlen pre) = Some upd /\ length upd = i /\ updates upd i.
Proof.
  induction i as [| i IH]; intros pre E EA Ht; cbn [descend]; [exists []; split; [done |]; split; [done |]; intros j Hj; lia |].
  destruct (walk_full i pre E EA (Ht i ltac:(lia))) as (D & -> & HD & _). cbn [mbind option_bind]. destruct HD as (E' & EA' & HtD & Hs).
  destruct (IH D E' EA') as (upd & -> & Hl & Hu); [intros j Hj; apply (tall_le i); [done | lia] |]. cbn [mbind option_bind].
  eexists. split; [reflexivity |]. split; [rewrite length_app; cbn; lia |]. intros j Hj. destruct (decide (j = i)) as [-> | Hne].
  - rewrite lookup_app_r by lia. rewrite Hl, Nat.sub_diag. rewrite <- (last_at_keep z A i D); [done | by exists E'].
  - rewrite lookup_app_l by lia. apply Hu. lia.
Qed.

Lemma descend_all : exists upd, descend go z (zsl_level z) (header z) 0 = Some upd /\ length upd = zsl_level z /\ updates upd (zsl_level z).
Proof. apply (descend_ok (zsl_level z) [] A); [done |]. intros j Hj. exact Hj. Qed.

Lemma heights_pos : Forall (fun g => 1 <= g_height g)%nat ns.
Proof. eapply Forall_impl; [exact (rep_heights _ _ _ R) |]. cbn. lia. Qed.

Lemma updates_0 upd n : updates upd n -> (0 < n)%nat -> upd !! 0%nat = Some (cur z A, zlen A).
Proof.
  intros Hu Hn. rewrite (Hu 0%nat Hn), keep_0; [done |]. pose proof heights_pos as Hh. rewrite EAB in Hh. by apply Forall_app in Hh as [Hh _].
Qed.
End rep.
