(* ===== verification/SkiplistOps.v ===== *)
(** Insertion and deletion of nodes preserve the representation. *)
From stdpp Require Import gmap.
From S2P Require Import Prelude Sds Skiplist SkiplistInv.

(** ** Writes *)

(** A step that only writes levels. *)
Record same_shape (z z' : zskiplist) : Prop := SameShape {
  ss_shape : forall a, shape z' a = shape z a;
  ss_header : header z' = header z;
  ss_tail : tail z' = tail z;
  ss_length : zsl_length z' = zsl_length z;
  ss_level : zsl_level z' = zsl_level z }.

#[export] Instance same_shape_preorder : PreOrder same_shape.
Proof. split; [by intros z |]. intros z1 z2 z3 [] []. split; congruence. Qed.

Lemma set_level_ok z a i l l0 : get_level z a i = Some l0 ->
  exists z', set_level z a i l = Some z' /\ same_shape z z' /\
    forall b j, get_level z' b j = if decide (b = a /\ j = i) then Some l else get_level z b j.
Proof.
  unfold get_level, set_level. intros E. destruct (nodes z !! a) as [n |] eqn:En; [| done]. cbn in E |- *. rewrite E. cbn.
  eexists. split; [reflexivity |]. pose proof (lookup_lt_Some _ _ _ E) as Hi. split; [split; try done |].
  - intros b. unfold shape, put_node. cbn [nodes]. destruct (decide (b = a)) as [-> | Hb]; [| by rewrite lookup_insert_ne].
    rewrite lookup_insert_eq, En. cbn. by rewrite length_insert.
  - intros b j. unfold put_node. cbn [nodes]. destruct (decide (b = a)) as [-> | Hb].
    + rewrite lookup_insert_eq, En. cbn. destruct (decide (j = i)) as [-> | Hj].
      * rewrite decide_True by done. by rewrite list_lookup_insert_eq.
      * rewrite decide_False by tauto. by rewrite list_lookup_insert_ne.
    + rewrite decide_False by tauto. by rewrite lookup_insert_ne.
Qed.

Lemma set_forward_eq z a i p l0 : get_level z a i = Some l0 -> set_forward z a i p = set_level z a i (Level p (span l0)).
Proof. unfold set_forward. by intros ->. Qed.
Lemma set_span_eq z a i s l0 : get_level z a i = Some l0 -> set_span z a i s = set_level z a i (Level (forward l0) s).
Proof. unfold set_span. by intros ->. Qed.

(** A loop whose turn [i] rewrites level [i] of the nodes to [F i]. *)
Lemma for_levels_map (f : nat -> zskiplist -> option zskiplist) (F : nat -> addr -> option zskiplistLevel) z0 : forall n lo z,
  same_shape z0 z -> (forall b j, (lo <= j < lo + n)%nat -> get_level z b j = get_level z0 b j) ->
  (forall i z1, (lo <= i < lo + n)%nat -> same_shape z0 z1 -> (forall b, get_level z1 b i = get_level z0 b i) ->
     exists z2, f i z1 = Some z2 /\ same_shape z1 z2 /\ forall b j, get_level z2 b j = if decide (j = i) then F i b else get_level z1 b j) ->
  exists z', for_levels f (seq lo n) z = Some z' /\ same_shape z z' /\
    forall b j, get_level z' b j = if decide (lo <= j < lo + n)%nat then F j b else get_level z b j.
Proof.
  induction n as [| n IH]; intros lo z Hss Hz Hf; cbn [seq for_levels].
  - exists z. split; [done |]. split; [done |]. intros b j. by rewrite decide_False by lia.
  - destruct (Hf lo z) as (z1 & -> & Hss1 & H1); [lia | done | intros b; apply Hz; lia |]. cbn [mbind option_bind].
    destruct (IH (S lo) z1) as (z' & -> & Hss' & H').
    + by transitivity z.
    + intros b j Hj. rewrite H1, decide_False by lia. apply Hz. lia.
    + intros i z2 Hi. apply Hf. lia.
    + exists z'. split; [done |]. split; [by transitivity z1 |]. intros b j. rewrite H', H1.
      repeat case_decide; try lia; subst; done || (f_equal; lia).
Qed.

Lemma for_levels_seq f F z lo n :
  (forall i z1, (lo <= i < lo + n)%nat -> same_shape z z1 -> (forall b, get_level z1 b i = get_level z b i) ->
     exists z2, f i z1 = Some z2 /\ same_shape z1 z2 /\ forall b j, get_level z2 b j = if decide (j = i) then F i b else get_level z1 b j) ->
  exists z', for_levels f (seq lo n) z = Some z' /\ same_shape z z' /\
    forall b j, get_level z' b j = if decide (lo <= j < lo + n)%nat then F j b else get_level z b j.
Proof. intros Hf. by apply (for_levels_map f F z n lo z). Qed.

Lemma set_backward_ok z a b e s b0 n : shape z a = Some (e, s, b0, n) ->
  exists z', set_backward z a b = Some z' /\ (forall c, shape z' c = if decide (c = a) then Some (e, s, b, n) else shape z c) /\
    (forall c j, get_level z' c j = get_level z c j) /\
    header z' = header z /\ tail z' = tail z /\ zsl_length z' = zsl_length z /\ zsl_level z' = zsl_level z.
Proof.
  unfold shape at 1, set_backward. destruct (nodes z !! a) as [nd |] eqn:En; [| done]. cbn. intros [= <- <- <- <-].
  eexists. split; [reflexivity |]. split; [| split; [| done]].
  - intros c. unfold shape, put_node. cbn [nodes]. destruct (decide (c = a)) as [-> | Hc]; [by rewrite lookup_insert_eq | by rewrite lookup_insert_ne].
  - intros c j. unfold get_level, put_node. cbn [nodes]. destruct (decide (c = a)) as [-> | Hc]; [by rewrite lookup_insert_eq, En | by rewrite lookup_insert_ne].
Qed.

Lemma shape_some z a : is_Some (nodes z !! a) <-> is_Some (shape z a).
Proof. unfold shape. destruct (nodes z !! a); cbn; split; intros [? ?]; eauto; discriminate. Qed.

(** ** The body of the insertion loops *)

Section insert.
Context (z : zskiplist) (A B : list gnode) (g : gnode) (upd : list (addr * Z)).
Notation x := (g_addr g).
Notation U i := (cur z (keep i A)).

(** The levels that [update] leads to. *)
Definition at_update (lo n : nat) : Prop :=
  forall j, (lo <= j < lo + n)%nat -> upd !! j = Some (U j, zlen (keep j A)) /\ get_level z (U j) j = Some (lv j (drop (length (keep j A)) A ++ B)) /\ U j <> x.

Lemma keep_drop j l : Forall (short j) (drop (length (keep j l)) l) /\ zlen (drop (length (keep j l)) l) = zlen l - zlen (keep j l).
Proof.
  destruct (keep_split j l) as (E & El & HE & _). assert (drop (length (keep j l)) l = E) as -> by (rewrite El at 2; apply drop_app_length).
  split; [done |]. assert (zlen l = zlen (keep j l ++ E)) as -> by (f_equal; exact El). rewrite zlen_app. lia.
Qed.

Lemma link_level_ok n (Hbound : zlen (A ++ B) + 1 < 2 ^ 64) : at_update 0 n -> (forall j, (j < n)%nat -> is_Some (get_level z x j)) ->
  exists z', for_levels (link_level x upd (zlen A)) (seq 0 n) z = Some z' /\ same_shape z z' /\
    forall b j, get_level z' b j =
      if decide (j < n)%nat then
        if decide (b = x) then Some (lv j B)
        else if decide (b = U j) then Some (Level (Some x) (zlen A - zlen (keep j A) + 1)) else get_level z b j
      else get_level z b j.
Proof.
  intros Hu Hx.
  destruct (for_levels_seq (link_level x upd (zlen A)) (fun j b => if decide (b = x) then Some (lv j B)
      else if decide (b = U j) then Some (Level (Some x) (zlen A - zlen (keep j A) + 1)) else get_level z b j) z 0 n) as (z' & E & Hss & H').
  2: { exists z'. split; [done |]. split; [done |]. intros b j. rewrite H'. repeat case_decide; done || lia. }
  intros i z1 Hi Hss H1. destruct (Hu i ltac:(lia)) as (Eu & El & Hne). destruct (Hx i ltac:(lia)) as (lx & Ex).
  unfold link_level. rewrite Eu. cbn [mbind option_bind]. rewrite (H1 (U i)), El. cbn [mbind option_bind lv forward span].
  destruct (keep_drop i A) as [Hs Hl]. set (E := drop (length (keep i A)) A) in *. rewrite dst_short, fwd_short by done. rewrite Hl.
  pose proof (dst_bounds i B) as Hd. pose proof (keep_le i A). rewrite zlen_app in Hbound. pose proof (zlen_nonneg (keep i A)).
  assert (u64 (zlen A - zlen (keep i A)) = zlen A - zlen (keep i A)) as -> by (apply u64_id; unfold is_u64; lia).
  assert (u64 (zlen A - zlen (keep i A) + 1) = zlen A - zlen (keep i A) + 1) as -> by (apply u64_id; unfold is_u64; lia).
  replace (zlen A - zlen (keep i A) + dst i B - (zlen A - zlen (keep i A))) with (dst i B) by lia.
  rewrite u64_id by (unfold is_u64; lia).
  assert (get_level z1 x i = Some lx) as Ex1 by (by rewrite H1). assert (get_level z1 (U i) i = Some (lv i (E ++ B))) as El1 by (by rewrite H1).
  rewrite (set_forward_eq _ _ _ _ _ Ex1). destruct (set_level_ok _ _ _ (Level (fwd i B) (span lx)) _ Ex1) as (z2 & -> & S2 & H2). cbn [mbind option_bind].
  assert (get_level z2 (U i) i = Some (lv i (E ++ B))) as El2 by (rewrite H2, decide_False by tauto; done).
  rewrite (set_forward_eq _ _ _ _ _ El2). destruct (set_level_ok _ _ _ (Level (Some x) (span (lv i (E ++ B)))) _ El2) as (z3 & -> & S3 & H3). cbn [mbind option_bind].
  assert (get_level z3 x i = Some (Level (fwd i B) (span lx))) as Ex3 by (rewrite H3, decide_False by (intros [? _]; congruence); rewrite H2, decide_True by done; done).
  rewrite (set_span_eq _ _ _ _ _ Ex3). cbn [forward]. destruct (set_level_ok _ _ _ (Level (fwd i B) (dst i B)) _ Ex3) as (z4 & -> & S4 & H4). cbn [mbind option_bind forward].
  assert (get_level z4 (U i) i = Some (Level (Some x) (span (lv i (E ++ B))))) as El4 by (rewrite H4, decide_False by tauto; rewrite H3, decide_True by done; done).
  rewrite (set_span_eq _ _ _ _ _ El4). cbn [forward]. destruct (set_level_ok _ _ _ (Level (Some x) (zlen A - zlen (keep i A) + 1)) _ El4) as (z5 & -> & S5 & H5).
  exists z5. split; [done |]. split; [by transitivity z2; [| transitivity z3; [| transitivity z4]] |].
  intros b j. rewrite H5, H4, H3, H2, <- H1. repeat case_decide; naive_solver.
Qed.

Lemma bump_level_ok lo n (Hbound : zlen (A ++ B) + 1 < 2 ^ 64) : at_update lo n ->
  exists z', for_levels (bump_level upd) (seq lo n) z = Some z' /\ same_shape z z' /\
    forall b j, get_level z' b j =
      if decide (lo <= j < lo + n)%nat then
        if decide (b = U j) then Some (Level (fwd j B) (zlen A - zlen (keep j A) + dst j B + 1)) else get_level z b j
      else get_level z b j.
Proof.
  intros Hu. apply for_levels_seq. intros i z1 Hi Hss H1. destruct (Hu i ltac:(lia)) as (Eu & El & _).
  unfold bump_level. rewrite Eu. cbn [mbind option_bind]. rewrite (H1 (U i)), El. cbn [mbind option_bind lv forward span].
  destruct (keep_drop i A) as [Hs Hl]. set (E := drop (length (keep i A)) A) in *. rewrite dst_short by done. rewrite Hl.
  pose proof (dst_bounds i B) as Hd. pose proof (keep_le i A). rewrite zlen_app in Hbound. pose proof (zlen_nonneg (keep i A)).
  rewrite u64_id by (unfold is_u64; lia).
  assert (get_level z1 (U i) i = Some (lv i (E ++ B))) as El1 by (by rewrite H1). rewrite (set_span_eq _ _ _ _ _ El1). cbn [lv forward].
  rewrite fwd_short by done. destruct (set_level_ok _ _ _ (Level (fwd i B) (zlen A - zlen (keep i A) + dst i B + 1)) _ El1) as (z2 & -> & S2 & H2).
  exists z2. split; [done |]. split; [done |]. intros b j. rewrite H2, <- H1. repeat case_decide; naive_solver.
Qed.
End insert.

(** The last node of a prefix determines it, also for [keep]. *)
Lemma cur_keep z A B i pre post : NoDup (header z :: map g_addr (A ++ B)) -> A ++ B = pre ++ post -> cur z pre = cur z (keep i A) -> pre = keep i A.
Proof.
  intros Hn E Hc. destruct (keep_split i A) as (E' & EA & _). eapply cur_inj; [exact Hn | exact E | | exact Hc]. rewrite EA at 1. by rewrite <- app_assoc.
Qed.

(** The levels after the two loops of the insertion. *)
Definition inserted (z : zskiplist) (A B : list gnode) (g : gnode) (L : nat) (b : addr) (j : nat) : option zskiplistLevel :=
  if decide (j < g_height g)%nat then
    if decide (b = g_addr g) then Some (lv j B)
    else if decide (b = cur z (keep j A)) then Some (Level (Some (g_addr g)) (zlen A - zlen (keep j A) + 1)) else get_level z b j
  else if decide (j < L)%nat then
    if decide (b = cur z (keep j A)) then Some (Level (fwd j B) (zlen A - zlen (keep j A) + dst j B + 1)) else get_level z b j
  else get_level z b j.

Lemma cur_header z z' pre : header z' = header z -> cur z' pre = cur z pre.
Proof. unfold cur. by intros ->. Qed.
Lemma tall_level z z' i pre : zsl_level z' = zsl_level z -> tall z' i pre <-> tall z i pre.
Proof. unfold tall. by intros ->. Qed.

Lemma tall_bound z i pre post : tall z i pre -> Forall (fun g => g_height g <= zsl_level z)%nat (pre ++ post) -> (i < zsl_level z)%nat.
Proof.
  intros Ht H. destruct pre as [| g pre _] using rev_ind; [done |]. apply tall_snoc in Ht. rewrite <- app_assoc in H.
  apply Forall_app in H as [_ H]. apply Forall_cons in H as [H _]. lia.
Qed.

Lemma nodup_remove (h : addr) A g B : NoDup (h :: map g_addr (A ++ g :: B)) -> NoDup (h :: map g_addr (A ++ B)) /\ g_addr g ∉ h :: map g_addr (A ++ B).
Proof.
  intros H. assert (h :: map g_addr (A ++ g :: B) ≡ₚ g_addr g :: h :: map g_addr (A ++ B)) as E.
  { rewrite !map_app. cbn. rewrite <- Permutation_middle. apply perm_swap. }
  rewrite E in H. apply NoDup_cons in H as [? ?]. done.
Qed.

Lemma cur_ne z ns pre post pre' post' : NoDup (header z :: map g_addr ns) ->
  ns = pre ++ post -> ns = pre' ++ post' -> length pre <> length pre' -> cur z pre <> cur z pre'.
Proof. intros Hn E E' Hl Hc. apply Hl. f_equal. by eapply cur_inj. Qed.

Lemma insert_linked z z' A B g : linked z (A ++ B) -> header z' = header z -> zsl_level z' = zsl_level z ->
  NoDup (header z :: map g_addr (A ++ g :: B)) -> Forall (fun g => g_height g <= zsl_level z)%nat (A ++ g :: B) ->
  (forall b j, get_level z' b j = inserted z A B g (zsl_level z) b j) -> linked z' (A ++ g :: B).
Proof.
  intros HL Eh El Hn Hh H' pre post i E Ht. rewrite (cur_header z z') by done. apply (tall_level z z') in Ht; [| done].
  assert (i < zsl_level z)%nat as Hi by (rewrite E in Hh; by eapply tall_bound). rewrite H'. unfold inserted.
  assert (NoDup (header z :: map g_addr (A ++ B))) as Hn'.
  { by apply nodup_remove in Hn as [? _]. }
  destruct (keep_split i A) as (E' & EA & HE' & Hk). apply app_eq_app in E as (k & [(EA2 & ->) | (-> & Ek)]).
  - (* [pre] is in [A] *)
    assert (cur z pre <> g_addr g) as Hx.
    { rewrite <- (cur_snoc z A g). apply (cur_ne z (A ++ g :: B) _ (k ++ g :: B) _ B Hn); [by rewrite EA2, <- app_assoc | by rewrite <- app_assoc |].
      rewrite EA2, !length_app. cbn. lia. }
    rewrite (decide_False (P := cur z pre = g_addr g)) by done. destruct (decide (cur z pre = cur z (keep i A))) as [Ec | Ec].
    + assert (pre = keep i A) as Ep by (apply (cur_keep z A B i pre (k ++ B)); [done | by rewrite EA2, <- app_assoc | done]).
      assert (k = E') as -> by (rewrite EA, <- Ep in EA2; by apply app_inv_head in EA2). rewrite EA2, zlen_app, <- EA2, <- Ep.
      replace (zlen pre + zlen E' - zlen pre) with (zlen E') by lia. destruct (decide (i < g_height g)%nat) as [Hg | Hg].
      * by rewrite lv_found.
      * rewrite decide_True by done. rewrite lv_short by done. cbn [fwd dst]. rewrite (proj2 (Nat.ltb_ge _ _)) by lia. do 2 f_equal. lia.
    + assert (get_level z (cur z pre) i = Some (lv i (k ++ g :: B))) as ->.
      { rewrite (HL pre (k ++ B) i) by (done || by rewrite EA2, <- app_assoc). f_equal. apply lv_hidden. intros Hk2. apply Ec. f_equal.
        apply (last_at_keep z A i). by exists k. }
      by repeat case_decide.
  - (* after it *)
    destruct k as [| g' k].
    { rewrite app_nil_r in *. cbn in Ek. subst post. destruct (decide (cur z A = g_addr g)) as [Ec | Ec].
      - exfalso. revert Ec. rewrite <- (cur_snoc z A g). apply (cur_ne z (A ++ g :: B) _ (g :: B) _ B Hn); [done | by rewrite <- app_assoc |].
        rewrite length_app. cbn. lia.
      - destruct (decide (cur z A = cur z (keep i A))) as [Ec2 | Ec2].
        + assert (A = keep i A) as Ep by (eapply (cur_keep z A B i A B); done). rewrite <- Ep. replace (zlen A - zlen A) with 0 by lia.
          destruct (decide (i < g_height g)%nat) as [Hg | Hg]; [by rewrite lv_tall |]. rewrite decide_True by done.
          change (lv i (g :: B)) with (lv i ([g] ++ B)). rewrite lv_short by (apply Forall_cons; split; [unfold short; lia | apply Forall_nil_2]).
          change (zlen [g]) with 1. do 2 f_equal. lia.
        + exfalso. apply Ec2. f_equal. apply (last_at_keep z A i). exists []. rewrite app_nil_r. split; [done |]. split; [done | apply Forall_nil_2]. }
    injection Ek as <- ->. destruct k as [| k0 k _] using rev_ind.
    + rewrite cur_snoc. apply tall_snoc in Ht. by rewrite !decide_True.
    + change (A ++ g :: k ++ [k0]) with (A ++ (g :: k) ++ [k0]) in *. rewrite app_assoc, cur_snoc in *. apply tall_snoc in Ht.
      assert (get_level z (g_addr k0) i = Some (lv i post)) as ->.
      { pose proof (HL ((A ++ k) ++ [k0]) post i) as HL2. rewrite cur_snoc in HL2. apply HL2; [by rewrite <- !app_assoc | by apply tall_snoc]. }
      assert (g_addr k0 <> g_addr g) as Hne.
      { rewrite <- (cur_snoc z (A ++ g :: k) k0), <- (cur_snoc z A g).
        apply (cur_ne z (((A ++ g :: k) ++ [k0]) ++ post) _ post _ (k ++ [k0] ++ post)); [by rewrite <- !app_assoc in * | done | by rewrite <- !app_assoc |].
        rewrite !length_app. cbn. lia. }
      assert (g_addr k0 <> cur z (keep i A)) as Hnu.
      { intros Ex. assert ((A ++ k) ++ [k0] = keep i A) as Ek.
        { eapply (cur_keep z A ((k ++ [k0]) ++ post) i _ post); [by rewrite <- app_assoc in Hn' | by rewrite <- !app_assoc | by rewrite cur_snoc]. }
        pose proof (keep_le i A) as Hle. rewrite <- Ek, !zlen_app in Hle. change (zlen [k0]) with 1 in Hle. pose proof (zlen_nonneg k). lia. }
      by rewrite !(decide_False (P := _ = _)) by done; repeat case_decide.
Qed.

(** Raising the level of the list. *)
Lemma raise_ok z ns ex n : rep z ns ex -> (n <= ZSKIPLIST_MAXLEVEL)%nat ->
  exists z', (if (zsl_level z <? n)%nat then raise_level z n else Some z) = Some z' /\
    (forall a, shape z' a = shape z a) /\ header z' = header z /\ tail z' = tail z /\ zsl_length z' = zsl_length z /\
    zsl_level z' = Nat.max (zsl_level z) n /\ linked z' ns /\
    (forall i, (zsl_level z' <= i < ZSKIPLIST_MAXLEVEL)%nat -> exists s, get_level z' (header z) i = Some (Level None s)).
Proof.
  intros R Hn. pose proof (rep_level _ _ _ R) as HL. pose proof (rep_unused _ _ _ R) as Hu. destruct (Nat.ltb_spec (zsl_level z) n) as [Hlt | Hge].
  2: { exists z. repeat (split; [done |]). split; [lia | done]. }
  unfold raise_level.
  destruct (for_levels_seq (fun i z => set_span z (header z) i (zsl_length z))
    (fun j b => if decide (b = header z) then Some (Level None (zlen ns)) else get_level z b j) z (zsl_level z) (n - zsl_level z)) as (z' & -> & S & H').
  { intros i z1 Hi S1 H1. destruct (Hu i ltac:(lia)) as (s & Es). pose proof (H1 (header z)) as Es1. rewrite Es in Es1.
    rewrite (ss_header _ _ S1), (ss_length _ _ S1), (rep_length _ _ _ R), (set_span_eq _ _ _ _ _ Es1). cbn [forward].
    destruct (set_level_ok _ _ _ (Level None (zlen ns)) _ Es1) as (z2 & -> & S2 & H2). exists z2. split; [done |]. split; [done |].
    intros b j. rewrite H2. repeat case_decide; try tauto. subst. symmetry. by rewrite <- H1. }
  cbn [mbind option_bind]. eexists. split; [reflexivity |]. destruct S as [S1 S2 S3 S4 S5].
  split; [exact S1 |]. split; [exact S2 |]. split; [exact S3 |]. split; [exact S4 |]. split; [cbn; lia |]. split.
  - intros pre post i E Ht. unfold cur. cbn [header set_zsl_level]. rewrite S2. fold (cur z pre). change (get_level (set_zsl_level z' n)) with (get_level z').
    rewrite H'. destruct pre as [| g pre _] using rev_ind.
    + cbn in E. subst post. rewrite cur_nil. rewrite (decide_True (P := header z = header z)) by done. case_decide as Hd.
      * pose proof (short_level z ns ex R i ltac:(lia)) as Hs. destruct (find_tall i ns) as [(_ & E1 & E2) | (l1 & g & l2 & El & _ & Hg & _)]; [unfold lv; congruence |].
        rewrite El in Hs. apply Forall_app in Hs as [_ Hs]. apply Forall_cons in Hs as [Hs _]. unfold short in Hs. lia.
      * apply (HL [] ns); [done |]. change (i < n)%nat in Ht. change (i < zsl_level z)%nat. lia.
    + apply tall_snoc in Ht. rewrite cur_snoc. assert (g_addr g <> header z) as Hne.
      { rewrite <- (cur_snoc z pre g), <- (cur_nil z). apply (cur_ne z ns _ post _ ns (rep_addrs _ _ _ R)); [done | done |]. rewrite length_app. cbn. lia. }
      rewrite (decide_False (P := g_addr g = header z)) by done.
      assert (get_level z (g_addr g) i = Some (lv i post)) as ->; [| by case_decide].
      rewrite <- (cur_snoc z pre g). apply HL; [done | by apply tall_snoc].
  - intros i Hi. change (n <= i < ZSKIPLIST_MAXLEVEL)%nat in Hi. destruct (Hu i ltac:(lia)) as (s & Es). exists s.
    change (get_level (set_zsl_level z' n)) with (get_level z'). rewrite H', decide_False by lia. done.
Qed.

Lemma repeat_lookup {T} (a : T) n j : (j < n)%nat -> repeat a n !! j = Some a.
Proof. revert j. induction n as [| n IH]; intros [| j] H; [lia | lia | done | apply IH; lia]. Qed.

Lemma create_ok alloc uninit ub z h s e : let '(z', x) := zslCreateNode alloc uninit ub z h s e in
  x = alloc (nodes z) /\ (forall a, shape z' a = if decide (a = x) then Some (e, s, ub, h) else shape z a) /\
  (forall b j, get_level z' b j = if decide (b = x) then if decide (j < h)%nat then Some uninit else None else get_level z b j) /\
  header z' = header z /\ tail z' = tail z /\ zsl_length z' = zsl_length z /\ zsl_level z' = zsl_level z.
Proof.
  cbn. split; [done |]. split; [| split; [| done]].
  - intros a. unfold shape, put_node. cbn [nodes]. destruct (decide (a = alloc (nodes z))) as [-> | Ha]; [| by rewrite lookup_insert_ne].
    rewrite lookup_insert_eq. cbn. by rewrite repeat_length.
  - intros b j. unfold get_level, put_node. cbn [nodes]. destruct (decide (b = alloc (nodes z))) as [-> | Hb]; [| by rewrite lookup_insert_ne].
    rewrite lookup_insert_eq. cbn. case_decide as Hj; [by apply repeat_lookup | apply lookup_ge_None; rewrite repeat_length; lia].
Qed.

Lemma random_level_range draws n : zslRandomLevel draws = Some n -> (1 <= n <= ZSKIPLIST_MAXLEVEL)%nat.
Proof.
  unfold zslRandomLevel. assert (forall l k m, random_level l k = Some m -> k <= m)%nat as H.
  { induction l as [| r l IH]; intros k m; cbn [random_level]; [done |]. destruct (r <? threshold); [intros E; apply IH in E; lia | intros [= ->]; lia]. }
  destruct (random_level draws 1) as [k |] eqn:E; cbn [mbind option_bind]; [| done]. apply H in E.
  destruct (Nat.ltb_spec k ZSKIPLIST_MAXLEVEL); intros [= <-]; unfold ZSKIPLIST_MAXLEVEL in *; lia.
Qed.

Notation maxh l := (foldr Nat.max 1%nat (map g_height l)).
Lemma maxh_pos (l : list gnode) : (1 <= maxh l)%nat.
Proof. induction l as [| g l IH]; [done |]. cbn [map foldr]. lia. Qed.
Lemma maxh_app (A B : list gnode) : maxh (A ++ B) = Nat.max (maxh A) (maxh B).
Proof. induction A as [| g A IH]; cbn [app map foldr]; [pose proof (maxh_pos B) | rewrite IH]; lia. Qed.

Lemma heights_max (l : list gnode) n : (foldr Nat.max 1 (map g_height l) <= n)%nat -> Forall (fun g => g_height g <= n)%nat l.
Proof. induction l as [| g l IH]; [intros; apply Forall_nil_2 |]. cbn [map foldr]. intros H. apply Forall_cons. split; [lia | apply IH; lia]. Qed.

(** ** Backward pointers *)

Lemma linked_ext z z' ns : (forall b j, get_level z' b j = get_level z b j) -> header z' = header z -> zsl_level z' = zsl_level z -> linked z ns -> linked z' ns.
Proof. intros H Eh El HL pre post i E Ht. rewrite H, (cur_header z z') by done. apply HL; [done |]. by apply (tall_level z z'). Qed.

Lemma fwd_0 B : Forall (fun g => 1 <= g_height g)%nat B -> fwd 0 B = g_addr <$> head B.
Proof. destruct B as [| g B]; [done |]. intros H. apply Forall_cons in H as [H _]. cbn [fwd]. by rewrite (proj2 (Nat.ltb_lt 0 (g_height g)) H). Qed.

Lemma cur_backward z ns A B : NoDup (header z :: map g_addr ns) -> ns = A ++ B -> (if decide (cur z A = header z) then None else Some (cur z A)) = g_addr <$> last A.
Proof.
  intros Hn E. destruct A as [| g A _] using rev_ind; [by rewrite decide_True |]. rewrite cur_snoc, last_snoc. rewrite decide_False; [done |].
  rewrite <- (cur_snoc z A g), <- (cur_nil z). apply (cur_ne z ns _ B _ ns Hn); [done | done |]. rewrite length_app. cbn. lia.
Qed.

Definition rebase (b : option addr) (o : option (option (list Z) * double * option addr * nat)) := '(e, s, _, n) ← o; Some (e, s, b, n).

(** The node after the place of a change gets its new backward pointer, or the list its new tail. *)
Lemma relink_ok z B b t : Forall (fun g => 1 <= g_height g)%nat B -> (forall g, head B = Some g -> is_Some (shape z (g_addr g))) ->
  exists z', match fwd 0 B with Some y => set_backward z y b | None => Some (set_tail z t) end = Some z' /\
    (forall a, shape z' a = if decide (Some a = fwd 0 B) then rebase b (shape z a) else shape z a) /\
    (forall c j, get_level z' c j = get_level z c j) /\ header z' = header z /\ zsl_length z' = zsl_length z /\ zsl_level z' = zsl_level z /\
    tail z' = match B with [] => t | _ => tail z end.
Proof.
  intros Hp Hs. rewrite (fwd_0 B Hp). destruct B as [| y B]; cbn [head fmap option_fmap option_map].
  { exists (set_tail z t). split; [done |]. split; [intros a; by rewrite decide_False | done]. }
  destruct (Hs y eq_refl) as [[[[e s] b0] n] Es]. destruct (set_backward_ok z (g_addr y) b e s b0 n Es) as (z' & E & S' & H' & E1 & E2 & E3 & E4).
  exists z'. split; [exact E |]. split; [| by repeat split]. intros a. rewrite S'. destruct (decide (a = g_addr y)) as [-> | Hne].
  - rewrite decide_True by done. by rewrite Es.
  - by rewrite decide_False by congruence.
Qed.

Lemma nodup_ne (l : list gnode) p1 a q1 p2 b q2 : NoDup (map g_addr l) -> l = p1 ++ a :: q1 -> l = p2 ++ b :: q2 -> length p1 <> length p2 -> g_addr a <> g_addr b.
Proof.
  intros Hn E1 E2 Hl Ec. apply Hl. apply (NoDup_lookup _ _ _ (g_addr a) Hn).
  - rewrite E1, map_app, <- (length_map g_addr p1). by apply list_lookup_middle.
  - rewrite Ec, E2, map_app, <- (length_map g_addr p2). by apply list_lookup_middle.
Qed.

Section zslInsert.
Context (alloc : gmap addr zskiplistNode -> addr) (uninit : zskiplistLevel) (ub : option addr).
Hypothesis Halloc : forall m, m !! alloc m = None.

(** The insertion up to the loops: the levels are as they should be. *)
Lemma insert_levels z A B ex upd s e h : rep z (A ++ B) ex -> updates z A upd (zsl_level z) -> length upd = zsl_level z ->
  (1 <= h <= ZSKIPLIST_MAXLEVEL)%nat -> zlen (A ++ B) + 1 < 2 ^ 64 ->
  exists z1 z2 z3 z4, let x := alloc (nodes z1) in let upd' := upd ++ repeat (header z, 0) (h - zsl_level z) in
    (if (zsl_level z <? h)%nat then raise_level z h else Some z) = Some z1 /\
    zslCreateNode alloc uninit ub z1 h s (Some e) = (z2, x) /\
    upd' !! 0%nat = Some (cur z A, zlen A) /\
    for_levels (link_level x upd' (zlen A)) (seq 0 h) z2 = Some z3 /\
    for_levels (bump_level upd') (seq h (zsl_level z3 - h)) z3 = Some z4 /\
    (x ∉ header z :: map g_addr (A ++ B) ++ ex) /\
    (forall a, shape z4 a = if decide (a = x) then Some (Some e, s, ub, h) else shape z a) /\
    header z4 = header z /\ tail z4 = tail z /\ zsl_length z4 = zsl_length z /\ zsl_level z4 = Nat.max (zsl_level z) h /\
    linked z4 (A ++ G x s e h :: B) /\
    (forall i, (zsl_level z4 <= i < ZSKIPLIST_MAXLEVEL)%nat -> exists s, get_level z4 (header z) i = Some (Level None s)).
Proof.
  intros R Hu Hlen Hh Hb. destruct (raise_ok z (A ++ B) ex h R ltac:(lia)) as (z1 & Er & S1 & Eh1 & Et1 & Ez1 & El1 & HL1 & Hun1).
  pose proof (create_ok alloc uninit ub z1 h s (Some e)) as Hc. destruct (zslCreateNode alloc uninit ub z1 h s (Some e)) as [z2 x] eqn:Ec.
  destruct Hc as (Ex & S2 & H2 & Eh2 & Et2 & Ez2 & El2).
  assert (x ∉ header z :: map g_addr (A ++ B) ++ ex) as Hx.
  { intros Hx. apply (rep_dom _ _ _ R), shape_some in Hx. rewrite <- S1 in Hx. apply shape_some in Hx as [n Hn]. by rewrite Ex, Halloc in Hn. }
  assert (NoDup (header z1 :: map g_addr (A ++ G x s e h :: B))) as Hn.
  { rewrite Eh1. assert (header z :: map g_addr (A ++ G x s e h :: B) ≡ₚ x :: header z :: map g_addr (A ++ B)) as Ep.
    { rewrite !map_app. cbn. rewrite <- Permutation_middle. apply perm_swap. }
    rewrite Ep. apply NoDup_cons. split; [| exact (rep_addrs _ _ _ R)]. intros Hin. apply Hx. set_solver. }
  assert (forall j, (j < zsl_level z1)%nat -> (upd ++ repeat (header z, 0) (h - zsl_level z)) !! j = Some (cur z (keep j A), zlen (keep j A))) as Hup.
  { intros j Hj. destruct (decide (j < zsl_level z)%nat) as [Hlt | Hge]; [rewrite lookup_app_l by lia; by apply Hu |].
    rewrite lookup_app_r by lia. rewrite keep_short; [apply repeat_lookup; lia |].
    pose proof (short_level _ _ _ R j ltac:(lia)) as Hs. by apply Forall_app in Hs as [? _]. }
  assert (forall b j, b <> x -> get_level z2 b j = get_level z1 b j) as H2'. { intros b j Hb2. by rewrite H2, decide_False. }
  assert (forall j, cur z (keep j A) <> x) as Hcx.
  { intros j Hcx. apply Hx. destruct (keep_split j A) as (E' & EA & _). rewrite <- Hcx.
    pose proof (cur_elem z (A ++ B) (keep j A) (E' ++ B) ltac:(rewrite EA at 1; by rewrite <- app_assoc)). set_solver. }
  assert (forall j, (j < zsl_level z1)%nat -> get_level z2 (cur z (keep j A)) j = Some (lv j (drop (length (keep j A)) A ++ B))) as Hold.
  { intros j Hj. rewrite H2' by apply Hcx. rewrite <- (cur_header z z1) by done. destruct (keep_split j A) as (E' & EA & _ & Hk).
    assert (drop (length (keep j A)) A = E') as -> by (rewrite EA at 2; apply drop_app_length). apply HL1; [rewrite EA at 1; by rewrite <- app_assoc |].
    destruct Hk as [-> | (D & g & -> & Hg)]; [exact Hj | by apply tall_snoc]. }
  assert (forall lo n, (lo + n <= zsl_level z1)%nat -> at_update z2 A B (G x s e h) (upd ++ repeat (header z, 0) (h - zsl_level z)) lo n) as Hat.
  { intros lo n Hlo j Hj. rewrite (cur_header z z2) by congruence. split; [apply Hup; lia |]. split; [apply Hold; lia | apply Hcx]. }
  destruct (link_level_ok z2 A B (G x s e h) _ h Hb (Hat 0%nat h ltac:(lia))) as (z3 & E3 & S3 & H3).
  { intros j Hj. rewrite H2, decide_True by done. rewrite decide_True by done. by eexists. }
  destruct (bump_level_ok z3 A B (G x s e h) (upd ++ repeat (header z, 0) (h - zsl_level z)) h (zsl_level z3 - h) Hb) as (z4 & E4 & S4 & H4).
  { rewrite (ss_level _ _ S3), El2. intros j Hj. rewrite (cur_header z2 z3) by apply S3. rewrite H3, decide_False by lia. apply (Hat h (zsl_level z1 - h)%nat); [lia | done]. }
  pose proof (ss_level _ _ S3) as Elv3. pose proof (ss_level _ _ S4) as Elv4.
  exists z1, z2, z3, z4. cbn zeta. rewrite <- Ex. split; [done |]. split; [done |]. split.
  { rewrite (Hup 0%nat) by lia. rewrite keep_0; [done |]. pose proof (heights_pos _ _ _ R) as Hp. by apply Forall_app in Hp as [? _]. }
  split; [exact E3 |]. split; [exact E4 |]. split; [done |]. split.
  { intros a. rewrite (ss_shape _ _ S4), (ss_shape _ _ S3), S2. case_decide; [done | apply S1]. }
  split; [rewrite (ss_header _ _ S4), (ss_header _ _ S3); congruence |]. split; [rewrite (ss_tail _ _ S4), (ss_tail _ _ S3); congruence |].
  split; [rewrite (ss_length _ _ S4), (ss_length _ _ S3); congruence |]. split; [congruence |].
  assert (forall b j, get_level z1 b j = get_level z2 b j \/ (b = x /\ (j < h)%nat)) as H12.
  { intros b j. destruct (decide (b = x)) as [-> | Hbx]; [| left; by rewrite H2']. destruct (decide (j < h)%nat); [by right |]. left.
    rewrite H2, decide_True by done. rewrite decide_False by done. unfold get_level. by rewrite Ex, Halloc. }
  split.
  - apply (insert_linked z1 z4); try done.
    + rewrite (ss_header _ _ S4), (ss_header _ _ S3); congruence.
    + congruence.
    + assert (Forall (fun g => g_height g <= zsl_level z)%nat (A ++ B)) as HAB by (apply heights_max; rewrite <- (rep_max _ _ _ R); lia).
      apply Forall_app in HAB as [HA HB]. apply Forall_app. split; [| apply Forall_cons; split; [cbn; lia |]]; (eapply Forall_impl; [done |]; cbn; lia).
    + intros b j. rewrite H4, H3. unfold inserted. cbn [g_height g_addr]. rewrite (cur_header z2 z3) by apply S3. rewrite (cur_header z1 z2) by done.
      destruct (H12 b j) as [E12 | [-> Hj]]; [rewrite E12 |
        rewrite (decide_False (P := (h <= j < _)%nat)) by lia; by rewrite !(decide_True (P := (j < h)%nat)), !(decide_True (P := x = x)) by done].
      replace (h + (zsl_level z3 - h))%nat with (zsl_level z1) by lia.
      destruct (decide (j < h)%nat); [rewrite (decide_False (P := (h <= j < _)%nat)) by lia; done |].
      destruct (decide (j < zsl_level z1)%nat); [rewrite (decide_True (P := (h <= j < _)%nat)) by lia; done | by rewrite decide_False by lia].
  - intros i Hi. destruct (Hun1 i ltac:(lia)) as (s0 & Es0). exists s0. rewrite H4, decide_False by lia. rewrite H3, decide_False by lia.
    rewrite H2'; [done |]. intros Exh. apply Hx. rewrite <- Exh. left.
Qed.

Lemma last_app_snoc {T} (l k : list T) y : last (l ++ k ++ [y]) = Some y.
Proof. by rewrite app_assoc, last_snoc. Qed.

Lemma zslInsert_ok z A B ex draws s e h : rep z (A ++ B) ex -> isnan s = false -> cut z (fun _ => node_before s e) A B ->
  zslRandomLevel draws = Some h -> zlen (A ++ B) + 1 < 2 ^ 64 ->
  exists z' x, zslInsert alloc uninit ub z draws s e = Some (z', x) /\ rep z' (A ++ G x s e h :: B) ex /\ header z' = header z.
Proof.
  intros R Hnan Hcut Hdraws Hb. pose proof (random_level_range _ _ Hdraws) as Hh. unfold zslInsert. rewrite Hnan. cbn [negb assert_ mbind option_bind].
  destruct (descend_all z (A ++ B) ex R _ A B eq_refl Hcut) as (upd & -> & Hlen & Hu). cbn [mbind option_bind]. rewrite Hdraws. cbn [mbind option_bind].
  destruct (insert_levels z A B ex upd s e h R Hu Hlen Hh Hb) as (z1 & z2 & z3 & z4 & E1 & E2 & E0 & E3 & E4 & Hx & S4 & Eh4 & Et4 & Ez4 & El4 & HL4 & Hun4).
  set (x := alloc (nodes z1)) in *. rewrite E1. cbn [mbind option_bind]. rewrite E2, E0. cbn [mbind option_bind]. rewrite E3. cbn [mbind option_bind]. rewrite E4. cbn [mbind option_bind].
  rewrite <- Eh4, <- (cur_header z z4), (cur_backward z4 (A ++ B) A B) by ((rewrite ?Eh4; exact (rep_addrs _ _ _ R)) || done).
  pose proof (S4 x) as Sx. rewrite decide_True in Sx by done.
  destruct (set_backward_ok z4 x (g_addr <$> last A) _ _ _ _ Sx) as (z5 & -> & S5 & H5 & Eh5 & Et5 & Ez5 & El5). cbn [mbind option_bind].
  set (g := G x s e h) in *. assert (linked z5 (A ++ g :: B)) as HL5 by (by apply (linked_ext z4)).
  assert (get_level z5 x 0 = Some (lv 0 B)) as ->.
  { change x with (g_addr g). rewrite <- (cur_snoc z5 A g). apply HL5; [by rewrite <- app_assoc | apply tall_snoc; cbn; lia]. }
  cbn [mbind option_bind lv forward].
  pose proof (heights_pos _ _ _ R) as Hp. apply Forall_app in Hp as [HpA HpB].
  assert (forall y, head B = Some y -> g_addr y <> x /\ shape z (g_addr y) = Some (Some (g_ele y), g_score y, g_addr <$> last A, g_height y)) as Hy.
  { intros y Ey. destruct B as [| y' B]; [done |]. injection Ey as ->. split; [| by apply (rep_node _ _ _ R A y B)].
    intros Exy. apply Hx. rewrite <- Exy, map_app. right. apply elem_of_app. left. apply elem_of_app. right. left. }
  destruct (relink_ok z5 B (Some x) (Some x) HpB) as (z6 & -> & S6 & H6 & Eh6 & Ez6 & El6 & Et6).
  { intros y Ey. destruct (Hy y Ey) as [Hne Es]. rewrite S5, decide_False, S4, decide_False by done. rewrite Es. by eexists. }
  cbn [mbind option_bind]. eexists _, x. split; [reflexivity |]. split; [| cbn; congruence].
  assert (forall a, shape z6 a = if decide (Some a = fwd 0 B) then rebase (Some x) (shape z a) else if decide (a = x) then Some (Some e, s, g_addr <$> last A, h) else shape z a) as Sf.
  { intros a. rewrite S6, S5, S4. destruct (decide (Some a = fwd 0 B)) as [Ea | Ea]; [| repeat case_decide; done].
    rewrite (fwd_0 B HpB) in Ea. destruct (head B) as [y |] eqn:Ey; [| done]. injection Ea as ->. destruct (Hy y eq_refl) as [Hne _].
    by rewrite !(decide_False (P := g_addr y = x)) by done. }
  assert (header z :: map g_addr (A ++ g :: B) ++ ex ≡ₚ x :: header z :: map g_addr (A ++ B) ++ ex) as Ep.
  { rewrite !map_app. cbn. rewrite <- !app_assoc. cbn. rewrite <- Permutation_middle. apply perm_swap. }
  assert (NoDup (header z :: map g_addr (A ++ g :: B) ++ ex)) as Hn.
  { rewrite Ep. apply NoDup_cons. split; [exact Hx | exact (rep_nodup _ _ _ R)]. }
  assert (header z6 = header z) as Eh6' by congruence. pose proof (rep_length _ _ _ R) as Elen. pose proof (rep_bound _ _ _ R) as Hbd. pose proof (zlen_nonneg (A ++ B)).
  split; cbn [header tail zsl_length zsl_level set_zsl_length].
  - apply (linked_ext z5); [| cbn; congruence | cbn; congruence | done]. intros b j. apply (H6 b j).
  - destruct (rep_header _ _ _ R) as (s0 & Es0). exists s0. change (shape (set_zsl_length z6 _)) with (shape z6). rewrite Eh6', Sf, decide_False, decide_False; [done | |].
    + intros Ex. apply Hx. rewrite <- Ex. left.
    + rewrite (fwd_0 B HpB). intros Ea. destruct (head B) as [y |] eqn:Ey; [| done]. injection Ea as Ea. destruct B as [| y' B]; [done |]. injection Ey as ->.
      apply NoDup_cons in Hn as [Hn _]. apply Hn. rewrite Ea, map_app. apply elem_of_app. left. apply elem_of_app. right. right. left.
  - intros i Hi. rewrite Eh6'. destruct (Hun4 i ltac:(lia)) as (s0 & Es0). exists s0. change (get_level (set_zsl_length z6 _)) with (get_level z6). by rewrite H6, H5.
  - intros pre g' post E. change (shape (set_zsl_length z6 _)) with (shape z6). rewrite Sf.
    apply NoDup_cons in Hn as [_ Hn]. apply NoDup_app in Hn as (Hn & _).
    assert (forall y, head B = Some y -> length pre <> S (length A) -> g_addr g' <> g_addr y) as Hny.
    { intros y Ey Hl. destruct B as [| y' B]; [done |]. injection Ey as ->. apply (nodup_ne _ pre g' post (A ++ [g]) y B Hn E); [by rewrite <- app_assoc |].
      rewrite length_app. cbn. lia. }
    assert (length pre <> length A -> g_addr g' <> x) as Hnx by (intros Hl; by apply (nodup_ne _ pre g' post A g B Hn E)).
    rewrite (fwd_0 B HpB). assert (length pre <> S (length A) -> Some (g_addr g') <> g_addr <$> head B) as Hnf.
    { intros Hl Ea. destruct (head B) as [y |] eqn:Ey; [| done]. injection Ea as Ea. by apply (Hny y eq_refl Hl). }
    apply app_eq_app in E as (k & [(EA & Ek) | (-> & Ek)]).
    + destruct k as [| g'' k]; cbn in Ek.
      * rewrite app_nil_r in EA. subst pre. injection Ek as -> _. rewrite decide_False by (apply Hnf; lia). by rewrite decide_True.
      * injection Ek as <- ->. rewrite decide_False by (apply Hnf; rewrite EA, length_app; cbn; lia). rewrite decide_False by (apply Hnx; rewrite EA, length_app; cbn; lia).
        apply (rep_node _ _ _ R pre g' (k ++ B)). by rewrite EA, <- app_assoc.
    + destruct k as [| g'' k]; cbn in Ek.
      * injection Ek as <- _. rewrite app_nil_r in *. rewrite decide_False by (apply Hnf; lia). by rewrite decide_True.
      * injection Ek as <- EB. destruct k as [| k0 k _] using rev_ind.
        -- cbn in EB. subst B. rewrite decide_True by done. destruct (Hy g' eq_refl) as [_ ->]. cbn. by rewrite last_snoc.
        -- rewrite decide_False by (apply Hnf; rewrite !length_app; cbn; rewrite length_app; cbn; lia). rewrite decide_False by (apply Hnx; rewrite !length_app; cbn; lia).
           rewrite (rep_node _ _ _ R (A ++ k ++ [k0]) g' post) by (by rewrite EB, <- !app_assoc).
           rewrite (last_app_snoc A k). pose proof (last_app_snoc A (g :: k) k0) as Hl2. unfold g in Hl2. cbn [app] in Hl2. by rewrite Hl2.
  - rewrite Et6, Et5, Et4, (rep_tail _ _ _ R). destruct B as [| y B _] using rev_ind; [by rewrite last_snoc |].
    rewrite (last_app_snoc A B). pose proof (last_app_snoc A (g :: B) y) as Hl2. unfold g in Hl2. cbn [app] in Hl2. rewrite Hl2. by destruct B.
  - rewrite Ez6, Ez5, Ez4, Elen, u64_id by (unfold is_u64; lia). rewrite !zlen_app, zlen_cons. lia.
  - rewrite zlen_app, zlen_cons in *. lia.
  - rewrite El6, El5, El4, (rep_max _ _ _ R), !maxh_app. cbn [map foldr g_height g]. lia.
  - pose proof (rep_heights _ _ _ R) as HH. apply Forall_app in HH as [? ?]. apply Forall_app. split; [done |]. by apply Forall_cons.
  - pose proof (rep_scores _ _ _ R) as HH. apply Forall_app in HH as [? ?]. apply Forall_app. split; [done |]. by apply Forall_cons.
  - by rewrite Eh6'.
  - intros a. fold g. rewrite Eh6', Ep, elem_of_cons, <- (rep_dom _ _ _ R), !shape_some. change (shape (set_zsl_length z6 _)) with (shape z6). rewrite Sf.
    destruct (decide (Some a = fwd 0 B)) as [Ea | Ea].
    + rewrite (fwd_0 B HpB) in Ea. destruct (head B) as [y |] eqn:Ey; [| done]. injection Ea as ->. destruct (Hy y eq_refl) as [_ ->]. cbn. split; eauto.
    + destruct (decide (a = x)) as [-> | Hne]; [split; eauto |]. split; [tauto | by intros [? | ?]].
Qed.
End zslInsert.
