(* ===== verification/SkiplistDel.v ===== *)
(** Unlinking and freeing nodes preserves the representation of skip lists. *)
From stdpp Require Import gmap.
From S2P Require Import Prelude Sds Skiplist SkiplistInv SkiplistOps.

Lemma u64_add_r a b : u64 (a + u64 b) = u64 (a + b).
Proof. unfold u64. by rewrite Zplus_mod_idemp_r. Qed.

Lemma rep_split_nodup z A g B ex : rep z (A ++ g :: B) ex -> NoDup (header z :: map g_addr (A ++ B)) /\ g_addr g ∉ header z :: map g_addr (A ++ B).
Proof. intros R. exact (nodup_remove _ _ _ _ (rep_addrs _ _ _ R)). Qed.

Section unlink.
Context (z : zskiplist) (A B : list gnode) (g : gnode) (ex : list addr) (upd : list (addr * Z)) (n : nat).
Hypothesis R : rep z (A ++ g :: B) ex.
Hypothesis Hupd : updates z A upd n.
Hypothesis Hn : (zsl_level z <= n)%nat.
Notation x := (g_addr g).
Notation U i := (cur z (keep i A)).

Lemma old_update i : (i < zsl_level z)%nat -> get_level z (U i) i = Some (lv i (drop (length (keep i A)) A ++ g :: B)) /\ U i <> x.
Proof.
  intros Hi. destruct (keep_split i A) as (E & EA & _ & Hk). assert (drop (length (keep i A)) A = E) as -> by (rewrite EA at 2; apply drop_app_length).
  assert (A ++ g :: B = keep i A ++ (E ++ g :: B)) as Es by (rewrite EA at 1; by rewrite <- app_assoc). split.
  - apply (rep_level _ _ _ R); [exact Es |]. destruct Hk as [-> | (D & g' & -> & Hg)]; [exact Hi | by apply tall_snoc].
  - intros Ex. destruct (rep_split_nodup _ _ _ _ _ R) as [_ Hx]. apply Hx. rewrite <- Ex. apply (cur_elem z (A ++ B) _ (E ++ B)). rewrite EA at 1. by rewrite <- app_assoc.
Qed.

Lemma fwd_fresh i : fwd i B <> Some x.
Proof.
  intros Ef. destruct (find_tall i B) as [(_ & E & _) | (l1 & g' & l2 & -> & _ & _ & E & _)]; [congruence |]. rewrite E in Ef. injection Ef as Ex.
  destruct (rep_split_nodup _ _ _ _ _ R) as [_ Hx]. apply Hx. rewrite <- Ex, !map_app. right. apply elem_of_app. right. apply elem_of_app. right. left.
Qed.

Lemma unlink_loop_ok : exists z', for_levels (unlink_level x upd) (seq 0 (zsl_level z)) z = Some z' /\ same_shape z z' /\
  forall b j, get_level z' b j =
    if decide (j < zsl_level z)%nat then
      if decide (b = U j) then Some (lv j (drop (length (keep j A)) A ++ B)) else get_level z b j
    else get_level z b j.
Proof.
  destruct (for_levels_seq (unlink_level x upd) (fun j b => if decide (b = U j) then Some (lv j (drop (length (keep j A)) A ++ B)) else get_level z b j)
    z 0 (zsl_level z)) as (z' & E & Hss & H').
  2: { exists z'. split; [done |]. split; [done |]. intros b j. rewrite H'. repeat case_decide; done || lia. }
  intros i z1 Hi Hss H1. destruct (old_update i ltac:(lia)) as (El & Hne). unfold unlink_level. rewrite (Hupd i) by lia. cbn [mbind option_bind].
  rewrite (H1 (U i)), El. cbn [mbind option_bind lv forward span]. destruct (keep_drop i A) as [Hs Hl]. set (E := drop (length (keep i A)) A) in *.
  rewrite fwd_short, dst_short by done. pose proof (dst_bounds i B) as Hd. pose proof (rep_bound _ _ _ R) as Hb. rewrite zlen_app, zlen_cons in Hb.
  pose proof (zlen_nonneg E). pose proof (keep_le i A). pose proof (zlen_nonneg (keep i A)).
  assert (get_level z1 (U i) i = Some (lv i (E ++ g :: B))) as El1 by (by rewrite H1). rewrite (lv_short i E B Hs). cbn [fwd dst].
  destruct (Nat.ltb_spec i (g_height g)) as [Hg | Hg].
  - rewrite decide_True by done. assert (get_level z1 x i = Some (lv i B)) as Ex1.
    { rewrite H1, <- (cur_snoc z A g). apply (rep_level _ _ _ R); [by rewrite <- app_assoc | by apply tall_snoc]. }
    rewrite Ex1. cbn [mbind option_bind lv forward span]. rewrite u64_add_r, u64_id by (unfold is_u64; lia).
    rewrite (set_span_eq _ _ _ _ _ El1). destruct (set_level_ok _ _ _ (Level (forward (lv i (E ++ g :: B))) (zlen E + (1 + 0) + (dst i B - 1))) _ El1) as (z2 & -> & S2 & G2). cbn [mbind option_bind].
    pose proof (G2 (U i) i) as Eu2. rewrite decide_True in Eu2 by done. rewrite (set_forward_eq _ _ _ _ _ Eu2). cbn [span].
    destruct (set_level_ok _ _ _ (Level (fwd i B) (zlen E + (1 + 0) + (dst i B - 1))) _ Eu2) as (z3 & -> & S3 & G3).
    exists z3. split; [done |]. split; [by transitivity z2 |]. intros b j. rewrite G3, G2.
    destruct (decide (j = i)) as [-> | Hj]; [| by rewrite !decide_False by tauto].
    destruct (decide (b = U i)) as [-> | Hb2]; [| rewrite !decide_False by tauto; apply H1]. rewrite decide_True by done. do 2 f_equal. lia.
  - rewrite decide_False by apply fwd_fresh. rewrite u64_id by (unfold is_u64; lia). rewrite (set_span_eq _ _ _ _ _ El1).
    destruct (set_level_ok _ _ _ (Level (forward (lv i (E ++ g :: B))) (zlen E + (1 + dst i B) - 1)) _ El1) as (z2 & -> & S2 & G2).
    exists z2. split; [done |]. split; [done |]. intros b j. rewrite G2.
    destruct (decide (j = i)) as [-> | Hj]; [| by rewrite !decide_False by tauto].
    destruct (decide (b = U i)) as [-> | Hb2]; [| rewrite !decide_False by tauto; apply H1]. rewrite decide_True by done.
    unfold lv. cbn [forward]. rewrite fwd_short by done. cbn [fwd]. rewrite (proj2 (Nat.ltb_ge _ _)) by lia. do 2 f_equal. lia.
Qed.

Lemma unlink_linked z' : header z' = header z -> zsl_level z' = zsl_level z ->
  (forall b j, get_level z' b j =
    if decide (j < zsl_level z)%nat then
      if decide (b = U j) then Some (lv j (drop (length (keep j A)) A ++ B)) else get_level z b j
    else get_level z b j) -> linked z' (A ++ B).
Proof.
  intros Eh El H' pre post i E Ht. rewrite (cur_header z z') by done. apply (tall_level z z') in Ht; [| done]. destruct (rep_split_nodup _ _ _ _ _ R) as [Hnd Hx].
  assert (Forall (fun g => g_height g <= zsl_level z)%nat (A ++ B)) as Hh.
  { assert (Forall (fun g => g_height g <= zsl_level z)%nat (A ++ g :: B)) as Hh by (apply heights_max; rewrite (rep_max _ _ _ R); lia).
    apply Forall_app in Hh as [? Hh]. apply Forall_cons in Hh as [_ ?]. by apply Forall_app. }
  assert (i < zsl_level z)%nat as Hi by (rewrite E in Hh; by eapply tall_bound). rewrite H', (decide_True (P := (i < _)%nat)) by done.
  destruct (keep_split i A) as (E' & EA & HE' & Hk). assert (drop (length (keep i A)) A = E') as Ed by (rewrite EA at 2; apply drop_app_length). rewrite Ed.
  apply app_eq_app in E as (k & [(EA2 & ->) | (-> & Ek)]).
  - destruct (decide (cur z pre = U i)) as [Ec | Ec].
    + assert (pre = keep i A) as Ep by (apply (cur_keep z A B i pre (k ++ B)); [done | by rewrite EA2, <- app_assoc | done]).
      assert (k = E') as -> by (rewrite EA, <- Ep in EA2; by apply app_inv_head in EA2). done.
    + rewrite (rep_level _ _ _ R pre (k ++ g :: B) i) by (done || by rewrite EA2, <- app_assoc). f_equal. apply lv_hidden. intros Hk2. apply Ec. f_equal.
      apply (last_at_keep z A i). by exists k.
  - destruct k as [| k0 k _] using rev_ind.
    { rewrite app_nil_r in *. cbn in Ek. subst post. rewrite decide_True.
      - do 2 f_equal. assert (A = keep i A) as Ep; [| rewrite <- Ep in Ed; by rewrite drop_all in Ed; subst E'].
        apply (last_at_keep z A i). exists []. rewrite app_nil_r. split; [done |]. split; [done | apply Forall_nil_2].
      - f_equal. apply (last_at_keep z A i). exists []. rewrite app_nil_r. split; [done |]. split; [done | apply Forall_nil_2]. }
    rewrite app_assoc, cur_snoc in *. apply tall_snoc in Ht. rewrite decide_False.
    + rewrite <- (cur_snoc z (A ++ g :: k) k0). apply (rep_level _ _ _ R); [by rewrite Ek, <- !app_assoc | by apply tall_snoc].
    + rewrite <- (cur_snoc z (A ++ k) k0). apply (cur_ne z (A ++ B) _ post _ (E' ++ B) Hnd); [by rewrite Ek, <- !app_assoc | rewrite EA at 1; by rewrite <- app_assoc |].
      rewrite EA at 1. rewrite !length_app. cbn. lia.
Qed.
End unlink.

Lemma lower_level_ok z ns : linked z ns -> forall level, (1 <= level <= zsl_level z)%nat -> (maxh ns <= level)%nat -> lower_level z level = Some (maxh ns).
Proof.
  intros HL. induction level as [| [| l] IH]; intros Hl Hm; [lia | pose proof (maxh_pos ns); cbn [lower_level]; f_equal; lia |].
  cbn [lower_level]. pose proof (HL [] ns (S l) eq_refl ltac:(exact (proj2 Hl))) as Eh. rewrite cur_nil in Eh. rewrite Eh. cbn [mbind option_bind lv forward].
  destruct (find_tall (S l) ns) as [(Hs & -> & _) | (l1 & g & l2 & E & _ & Hg & -> & _)].
  - apply IH; [lia |]. clear -Hs. induction Hs as [| g ns Hg _ IH]; cbn [map foldr]; [lia |]. unfold short in Hg. lia.
  - f_equal. rewrite E, maxh_app in *. cbn [map foldr] in *. lia.
Qed.

(** Unlinking a node whose predecessors [upd] holds. *)
Lemma zslDeleteNode_ok z A B g ex upd n : rep z (A ++ g :: B) ex -> updates z A upd n -> (zsl_level z <= n)%nat ->
  exists z', zslDeleteNode z (g_addr g) upd = Some z' /\ rep z' (A ++ B) (g_addr g :: ex) /\ header z' = header z /\ (zsl_level z' <= zsl_level z)%nat.
Proof.
  intros R Hu Hn. destruct (rep_split_nodup _ _ _ _ _ R) as [Hnd Hx]. unfold zslDeleteNode.
  destruct (unlink_loop_ok z A B g ex upd n R Hu Hn) as (z1 & -> & S1 & G1). cbn [mbind option_bind].
  pose proof (unlink_linked z A B g ex n R Hn z1 (ss_header _ _ S1) (ss_level _ _ S1) G1) as HL1.
  pose proof (heights_pos _ _ _ R) as Hp. pose proof Hp as Hp'. apply Forall_app in Hp' as [HpA HpB]. apply Forall_cons in HpB as [Hg HpB].
  pose proof (level_pos _ _ _ R) as Hlp. pose proof (level_max _ _ _ R) as Hlm.
  assert (get_level z1 (g_addr g) 0 = Some (lv 0 B)) as ->.
  { rewrite G1, decide_True by lia. rewrite decide_False.
    - rewrite <- (cur_snoc z A g). apply (rep_level _ _ _ R); [by rewrite <- app_assoc | by apply tall_snoc].
    - rewrite keep_0 by done. intros Ex. apply Hx. rewrite Ex. by apply (cur_elem z (A ++ B) A B). }
  cbn [mbind option_bind lv forward]. assert (shape z1 (g_addr g) = Some (Some (g_ele g), g_score g, g_addr <$> last A, g_height g)) as Sg.
  { rewrite (ss_shape _ _ S1). by apply (rep_node _ _ _ R A g B). }
  assert (exists nd, nodes z1 !! g_addr g = Some nd /\ backward nd = g_addr <$> last A) as (nd & -> & Ebk).
  { unfold shape in Sg. destruct (nodes z1 !! g_addr g) as [nd |]; [| done]. cbn in Sg. injection Sg as _ _ Sg _. by exists nd. }
  cbn [mbind option_bind]. rewrite Ebk.
  assert (forall y, head B = Some y -> shape z (g_addr y) = Some (Some (g_ele y), g_score y, g_addr <$> last (A ++ [g]), g_height y)) as Hy.
  { intros y Ey. destruct B as [| y' B']; [done |]. injection Ey as ->. apply (rep_node _ _ _ R (A ++ [g]) y B'). by rewrite <- app_assoc. }
  destruct (relink_ok z1 B (g_addr <$> last A) (g_addr <$> last A) HpB) as (z2 & -> & S2 & G2 & Eh2 & Ez2 & El2 & Et2).
  { intros y Ey. rewrite (ss_shape _ _ S1), (Hy y Ey). by eexists. }
  cbn [mbind option_bind]. assert (linked z2 (A ++ B)) as HL2 by (by apply (linked_ext z1)).
  assert (maxh (A ++ B) <= zsl_level z)%nat as Hmax by (rewrite (rep_max _ _ _ R), !maxh_app; cbn [map foldr]; lia).
  pose proof (ss_level _ _ S1) as El1. rewrite (lower_level_ok z2 (A ++ B) HL2) by lia. cbn [mbind option_bind].
  eexists. split; [reflexivity |]. pose proof (ss_header _ _ S1) as Eh1. split; [| split; [cbn; congruence | cbn; lia]].
  assert (forall a, shape z2 a = if decide (Some a = fwd 0 B) then rebase (g_addr <$> last A) (shape z a) else shape z a) as Sf.
  { intros a. by rewrite S2, (ss_shape _ _ S1). }
  pose proof (rep_length _ _ _ R) as Elen. pose proof (rep_bound _ _ _ R) as Hb. pose proof (ss_length _ _ S1) as Ez1. rewrite zlen_app, zlen_cons in Elen, Hb.
  pose proof (zlen_nonneg A). pose proof (zlen_nonneg B).
  assert (header z :: map g_addr (A ++ g :: B) ++ ex ≡ₚ header z :: map g_addr (A ++ B) ++ g_addr g :: ex) as Ep.
  { rewrite !map_app, <- !app_assoc. cbn. by rewrite <- !Permutation_middle. }
  split; cbn [header tail zsl_length zsl_level set_zsl_length set_zsl_level].
  - intros pre post i E Ht. change (get_level (set_zsl_length _ _)) with (get_level z2). unfold cur. cbn [header set_zsl_length set_zsl_level]. fold (cur z2 pre). apply HL2; [done |].
    destruct pre as [| g' pre _] using rev_ind; [| by apply tall_snoc in Ht; apply tall_snoc].
    change (i < maxh (A ++ B))%nat in Ht. change (i < zsl_level z2)%nat. lia.
  - destruct (rep_header _ _ _ R) as (s0 & Es0). exists s0. change (shape (set_zsl_length _ _)) with (shape z2). rewrite Eh2, Eh1, Sf, decide_False; [done |].
    rewrite (fwd_0 B HpB). intros Ea. destruct B as [| y B']; [done |]. injection Ea as Ea. apply NoDup_cons in Hnd as [Hnd _]. apply Hnd. rewrite Ea, map_app.
    apply elem_of_app. right. left.
  - intros i Hi. change (get_level (set_zsl_length _ _)) with (get_level z2). rewrite Eh2, Eh1. destruct (decide (i < zsl_level z)%nat) as [Hlt | Hge].
    + pose proof (HL2 [] (A ++ B) i eq_refl) as Hl. rewrite cur_nil, Eh2, Eh1 in Hl. rewrite Hl by (change (i < zsl_level z2)%nat; lia). unfold lv.
      destruct (find_tall i (A ++ B)) as [(_ & -> & _) | (l1 & g' & l2 & E & _ & Hg' & _)]; [by eexists |]. exfalso. rewrite E, maxh_app in Hi. cbn [map foldr] in Hi. lia.
    + destruct (rep_unused _ _ _ R i) as (s0 & Es0); [lia |]. exists s0. by rewrite G2, G1, decide_False by lia.
  - intros pre g' post E. change (shape (set_zsl_length _ _)) with (shape z2). rewrite Sf, (fwd_0 B HpB). pose proof (proj2 (proj1 (NoDup_cons _ _) Hnd)) as Hnd'.
    apply app_eq_app in E as (k & [(EA & Ek) | (-> & Ek)]).
    + destruct k as [| g'' k]; cbn in Ek.
      * rewrite app_nil_r in EA. subst pre. destruct B as [| y B']; [done |]. injection Ek as <- _. rewrite decide_True by done. by rewrite (Hy g' eq_refl).
      * injection Ek as <- ->. rewrite decide_False.
        -- apply (rep_node _ _ _ R pre g' (k ++ g :: B)). by rewrite EA, <- app_assoc.
        -- intros Ea. destruct B as [| y B']; [done |]. injection Ea as Ea. revert Ea.
           apply (nodup_ne _ pre g' (k ++ y :: B') A y B' Hnd'); [by rewrite EA, <- app_assoc | done |]. rewrite EA, length_app. cbn. lia.
    + destruct k as [| k0 k _] using rev_ind; cbn in Ek.
      * rewrite app_nil_r. destruct B as [| y B']; [done |]. injection Ek as -> _. rewrite decide_True by done. by rewrite (Hy g' eq_refl).
      * rewrite decide_False.
        -- rewrite (rep_node _ _ _ R (A ++ (g :: k) ++ [k0]) g' post) by (by rewrite Ek, <- !app_assoc). by rewrite !last_app_snoc.
        -- intros Ea. destruct B as [| y B']; [done |]. injection Ea as Ea. revert Ea.
           apply (nodup_ne _ (A ++ k ++ [k0]) g' post A y B' Hnd'); [by rewrite Ek, <- !app_assoc | done |]. rewrite !length_app. cbn. lia.
  - rewrite Et2, (ss_tail _ _ S1), (rep_tail _ _ _ R). destruct B as [| y B' _] using rev_ind; [by rewrite app_nil_r |].
    pose proof (last_app_snoc A (g :: B') y) as Hl2. cbn [app] in Hl2. rewrite Hl2, last_app_snoc. by destruct B'.
  - rewrite Ez2, Ez1, Elen, zlen_app, u64_id by (unfold is_u64; lia). lia.
  - rewrite zlen_app. lia.
  - done.
  - pose proof (rep_heights _ _ _ R) as HH. apply Forall_app in HH as [? HH]. apply Forall_cons in HH as [_ ?]. by apply Forall_app.
  - pose proof (rep_scores _ _ _ R) as HH. apply Forall_app in HH as [? HH]. apply Forall_cons in HH as [_ ?]. by apply Forall_app.
  - rewrite Eh2, Eh1, <- Ep. exact (rep_nodup _ _ _ R).
  - intros a. rewrite Eh2, Eh1, <- Ep, <- (rep_dom _ _ _ R), !shape_some. change (shape (set_zsl_length _ _)) with (shape z2). rewrite Sf.
    case_decide as Ea; [| done]. rewrite (fwd_0 B HpB) in Ea. destruct (head B) as [y |] eqn:Ey; [| done]. injection Ea as ->. rewrite (Hy y eq_refl). cbn. split; eauto.
Qed.

(** A node that is not in the list any more can be freed. *)
Lemma zslFreeNode_ok z ns a ex : rep z ns (a :: ex) -> rep (zslFreeNode z a) ns ex.
Proof.
  intros R. assert (header z :: map g_addr ns ++ a :: ex ≡ₚ a :: header z :: map g_addr ns ++ ex) as Ep.
  { rewrite <- Permutation_middle. apply perm_swap. }
  pose proof (rep_nodup _ _ _ R) as Hn. rewrite Ep in Hn. apply NoDup_cons in Hn as [Ha Hn].
  assert (forall b, b <> a -> nodes (zslFreeNode z a) !! b = nodes z !! b) as Hd by (intros b Hb; by apply lookup_delete_ne).
  assert (forall b, b ∈ header z :: map g_addr ns -> b <> a) as Hne by (intros b Hb ->; apply Ha; rewrite app_comm_cons; apply elem_of_app; by left).
  split; try apply R.
  - intros pre post i E Ht. unfold get_level. rewrite Hd; [by apply (rep_level _ _ _ R) |]. apply Hne. change (cur (zslFreeNode z a) pre) with (cur z pre). by eapply cur_elem.
  - destruct (rep_header _ _ _ R) as (s & Es). exists s. unfold shape in *. rewrite Hd; [done |]. apply Hne. left.
  - intros i Hi. destruct (rep_unused _ _ _ R i Hi) as (s & Es). exists s. unfold get_level. rewrite Hd; [done |]. apply Hne. left.
  - intros pre g post E. unfold shape. rewrite Hd; [by apply (rep_node _ _ _ R pre g post) |]. apply Hne. rewrite E, map_app. right. apply elem_of_app. right. left.
  - done.
  - intros b. change (header (zslFreeNode z a)) with (header z). destruct (decide (b = a)) as [-> | Hb].
    + cbn [nodes zslFreeNode]. rewrite lookup_delete_eq. split; [by intros [? ?] | intros Hin; by apply Ha in Hin].
    + rewrite Hd, (rep_dom _ _ _ R), Ep, elem_of_cons by done. tauto.
Qed.
