(* ===== verification/SkiplistSpec.v ===== *)
(** The order of sorted sets (by score, then by the bytes of the element), how
    it cuts a sorted list of nodes, and what the operations of skip lists do to
    the sorted list of entries. *)
From Stdlib Require Import Sorted.
From stdpp Require Import gmap sorting.
From S2P Require Import Prelude Sds Skiplist SkiplistInv SkiplistOps SkiplistDel.

(** ** Elements *)

Lemma sdscmp_bytes_cons x a y b : sdscmp_bytes (x :: a) (y :: b) = if x <? y then -1 else if y <? x then 1 else sdscmp_bytes a b.
Proof.
  unfold sdscmp_bytes. rewrite !zlen_cons. pose proof (zlen_nonneg a). pose proof (zlen_nonneg b).
  assert (Z.to_nat (if 1 + zlen a <? 1 + zlen b then 1 + zlen a else 1 + zlen b) = S (Z.to_nat (if zlen a <? zlen b then zlen a else zlen b))) as ->.
  { destruct (Z.ltb_spec (zlen a) (zlen b)), (Z.ltb_spec (1 + zlen a) (1 + zlen b)); lia. }
  cbn [take memcmp]. destruct (x <? y); [done |]. destruct (y <? x); [done |].
  assert ((1 + zlen b <? 1 + zlen a) = (zlen b <? zlen a)) as -> by (destruct (Z.ltb_spec (zlen b) (zlen a)), (Z.ltb_spec (1 + zlen b) (1 + zlen a)); lia || done).
  assert ((1 + zlen a <? 1 + zlen b) = (zlen a <? zlen b)) as -> by (destruct (Z.ltb_spec (zlen a) (zlen b)), (Z.ltb_spec (1 + zlen a) (1 + zlen b)); lia || done).
  done.
Qed.
Lemma sdscmp_bytes_nil_cons y b : sdscmp_bytes [] (y :: b) = -1.
Proof.
  unfold sdscmp_bytes. rewrite zlen_cons, (@zlen_nil Z). pose proof (zlen_nonneg b). destruct (Z.ltb_spec 0 (1 + zlen b)); [| lia].
  change (Z.to_nat 0) with 0%nat. cbn [take memcmp]. rewrite Z.eqb_refl. destruct (Z.ltb_spec (1 + zlen b) 0); [lia | done].
Qed.
Lemma sdscmp_bytes_cons_nil x a : sdscmp_bytes (x :: a) [] = 1.
Proof.
  unfold sdscmp_bytes. rewrite zlen_cons, (@zlen_nil Z). pose proof (zlen_nonneg a). destruct (Z.ltb_spec (1 + zlen a) 0); [lia |].
  change (Z.to_nat 0) with 0%nat. cbn [take memcmp]. rewrite Z.eqb_refl. destruct (Z.ltb_spec 0 (1 + zlen a)); [done | lia].
Qed.

Lemma sdscmp_bytes_eq a b : sdscmp_bytes a b = 0 <-> a = b.
Proof.
  revert b. induction a as [| x a IH]; intros [| y b].
  - done.
  - by rewrite sdscmp_bytes_nil_cons.
  - by rewrite sdscmp_bytes_cons_nil.
  - rewrite sdscmp_bytes_cons. destruct (Z.ltb_spec x y); [split; [done | intros [= -> _]; lia] |]. destruct (Z.ltb_spec y x); [split; [done | intros [= -> _]; lia] |].
    rewrite IH. split; [intros ->; f_equal; lia | by intros [= _ ->]].
Qed.
Lemma sdscmp_bytes_sym a b : sdscmp_bytes a b < 0 <-> 0 < sdscmp_bytes b a.
Proof.
  revert b. induction a as [| x a IH]; intros [| y b].
  - change (sdscmp_bytes [] []) with 0. lia.
  - rewrite sdscmp_bytes_nil_cons, sdscmp_bytes_cons_nil. lia.
  - rewrite sdscmp_bytes_nil_cons, sdscmp_bytes_cons_nil. lia.
  - rewrite !sdscmp_bytes_cons. destruct (Z.ltb_spec x y), (Z.ltb_spec y x); try lia. apply IH.
Qed.
Lemma sdscmp_bytes_trans a b c : sdscmp_bytes a b < 0 -> sdscmp_bytes b c < 0 -> sdscmp_bytes a c < 0.
Proof.
  revert b c. induction a as [| x a IH]; intros [| y b] [| w c]; rewrite ?sdscmp_bytes_nil_cons, ?sdscmp_bytes_cons_nil, ?sdscmp_bytes_cons; try done; try lia.
  destruct (Z.ltb_spec x y), (Z.ltb_spec y w), (Z.ltb_spec x w), (Z.ltb_spec y x), (Z.ltb_spec w y), (Z.ltb_spec w x); try lia. apply IH.
Qed.

(** It is what [sdscmp] computes. *)
Lemma sdscmp_bytes_rep s1 s2 c1 c2 : sds_rep s1 c1 -> sds_rep s2 c2 -> sdscmp s1 s2 = Some (sdscmp_bytes c1 c2).
Proof.
  intros ((sl1 & E1) & L1 & _) ((sl2 & E2) & L2 & _). unfold sdscmp, sdslen, sdscmp_bytes. rewrite L1, L2, E1, E2.
  set (n := if zlen c1 <? zlen c2 then zlen c1 else zlen c2). pose proof (zlen_nonneg c1). pose proof (zlen_nonneg c2).
  assert (0 <= n <= zlen c1 /\ n <= zlen c2) as Hn by (subst n; destruct (Z.ltb_spec (zlen c1) (zlen c2)); lia).
  assert (forall c sl, n <= zlen c -> rdn (c ++ 0 :: sl) 0 n = Some (take (Z.to_nat n) c)) as Hr.
  { intros c sl Hc. apply rdn_Some. exists [], (drop (Z.to_nat n) c ++ 0 :: sl). cbn [app]. rewrite app_assoc, take_drop. split; [done |]. split; [done |]. by apply zlen_take; lia. }
  rewrite !Hr by lia. done.
Qed.

(** ** Entries *)

Definition entry : Type := double * list Z.
Definition ent (g : gnode) : entry := (g_score g, g_ele g).

Definition elt (x y : entry) : Prop := klt (dkey x.1) (dkey y.1) \/ (dkey x.1 = dkey y.1 /\ sdscmp_bytes x.2 y.2 < 0).
(** The same score (0 and -0 are) and the same element. *)
Definition same (x y : entry) : bool := (x.1 =? y.1)%D && (sdscmp_bytes x.2 y.2 =? 0).
Definition before (x y : entry) : bool := (x.1 <? y.1)%D || ((x.1 =? y.1)%D && (sdscmp_bytes x.2 y.2 <? 0)).

Lemma elt_irrefl x : ~ elt x x.
Proof. unfold elt. intros [H | [_ H]]; [by apply klt_irrefl in H |]. pose proof (proj2 (sdscmp_bytes_eq x.2 x.2) eq_refl). lia. Qed.
Lemma elt_trans x y w : elt x y -> elt y w -> elt x w.
Proof.
  unfold elt. intros [H1 | [H1 H1']] [H2 | [H2 H2']].
  - left. by eapply klt_trans.
  - left. by rewrite <- H2.
  - left. by rewrite H1.
  - right. split; [congruence |]. by eapply sdscmp_bytes_trans.
Qed.

Section entries.
Context (x y : entry) (Hx : isnan x.1 = false) (Hy : isnan y.1 = false).

Lemma before_elt : before x y = true <-> elt x y.
Proof.
  unfold before, elt. rewrite orb_true_iff, andb_true_iff, d_lt_key, d_eq_key, Z.ltb_lt by done. done.
Qed.
Lemma same_key : same x y = true <-> dkey x.1 = dkey y.1 /\ x.2 = y.2.
Proof. unfold same. by rewrite andb_true_iff, d_eq_key, Z.eqb_eq, sdscmp_bytes_eq by done. Qed.
Lemma elt_total : elt x y \/ same x y = true \/ elt y x.
Proof.
  rewrite same_key. unfold elt. destruct (klt_total (dkey x.1) (dkey y.1)) as [? | [E | ?]]; [by left; left | | by right; right; left].
  pose proof (sdscmp_bytes_sym y.2 x.2). destruct (Z.lt_trichotomy (sdscmp_bytes x.2 y.2) 0) as [? | [E0 | ?]]; [left; by right | right; left | right; right; right].
  - split; [done |]. by apply sdscmp_bytes_eq.
  - split; [done |]. lia.
Qed.
End entries.

Lemma same_elt_l x y w : isnan x.1 = false -> isnan y.1 = false -> same x y = true -> elt x w <-> elt y w.
Proof. intros Hx Hy H. apply same_key in H as [E1 E2]; [| done | done]. unfold elt. by rewrite E1, E2. Qed.
Lemma same_elt_r x y w : isnan x.1 = false -> isnan y.1 = false -> same x y = true -> elt w x <-> elt w y.
Proof. intros Hx Hy H. apply same_key in H as [E1 E2]; [| done | done]. unfold elt. by rewrite E1, E2. Qed.

(** ** Sorted lists *)

Definition numbers (l : list entry) : Prop := Forall (fun x => isnan x.1 = false) l.
Definition sorted (l : list entry) : Prop := StronglySorted elt l.

(** A test that is downward closed in the order cuts a sorted list in two. *)
Definition closed_on (l : list entry) (P : entry -> bool) : Prop := forall x y, x ∈ l -> y ∈ l -> elt x y -> P y = true -> P x = true.

Lemma sorted_cut P ns : closed_on (map ent ns) P -> sorted (map ent ns) ->
  exists A B, ns = A ++ B /\ Forall (fun g => P (ent g) = true) A /\ Forall (fun g => P (ent g) = false) B.
Proof.
  induction ns as [| g ns IH]; intros HP Hs; [exists [], []; split; [done |]; split; apply Forall_nil_2 |].
  cbn [map] in HP, Hs. apply StronglySorted_inv in Hs as [Hs Hlt].
  destruct IH as (A & B & -> & HA & HB); [intros x y Hx Hy; apply HP; by right | done |]. destruct (P (ent g)) eqn:Eg.
  - exists (g :: A), B. split; [done |]. split; [by apply Forall_cons | done].
  - exists [], (g :: A ++ B). split; [done |]. split; [apply Forall_nil_2 |]. destruct A as [| a A]; [by apply Forall_cons |]. exfalso.
    apply Forall_cons in HA as [HA _]. cbn [app map] in Hlt, HP. apply Forall_cons in Hlt as [Hlt _].
    rewrite (HP (ent g) (ent a)) in Eg; [done | left | right; left | done | done].
Qed.

Lemma cut_filter (P : entry -> bool) A B : Forall (fun g => P (ent g) = true) A -> Forall (fun g => P (ent g) = false) B ->
  filter (fun x => P x = true) (map ent (A ++ B)) = map ent A /\ filter (fun x => P x = false) (map ent (A ++ B)) = map ent B.
Proof.
  intros HA HB. rewrite map_app, !filter_app. split.
  - rewrite (filter_all _ (map ent A)) by (by apply Forall_map). rewrite (filter_none _ (map ent B)); [by rewrite app_nil_r |].
    apply Forall_map. eapply Forall_impl; [exact HB |]. cbn. congruence.
  - rewrite (filter_all _ (map ent B)) by (by apply Forall_map). rewrite (filter_none _ (map ent A)); [done |].
    apply Forall_map. eapply Forall_impl; [exact HA |]. cbn. congruence.
Qed.

(** The tests of the searches, on nodes. *)
Definition node_of (g : gnode) (n : zskiplistNode) : Prop := ele n = Some (g_ele g) /\ score n = g_score g.

Lemma node_before_eq s e g n : node_of g n -> node_before s e n = Some (before (ent g) (s, e)).
Proof. intros [E1 E2]. unfold node_before, before. rewrite E1, E2. cbn. destruct (_ <? _)%D; [done |]. by destruct (_ =? _)%D. Qed.

(** [go] accepts exactly the first [m] nodes of [l], which stand after [k] others. *)
Definition accepts (go : Z -> zskiplistNode -> option bool) (k : Z) (l : list gnode) (m : nat) : Prop :=
  forall j g n, l !! j = Some g -> node_of g n -> go (k + Z.of_nat j + 1) n = Some (j <? m)%nat.

Lemma accepts_cut z ns ex go A B : rep z ns ex -> ns = A ++ B -> accepts go 0 ns (length A) -> cut z go A B.
Proof.
  intros R -> H pre g post n E En. destruct (node_at z _ ex R pre g post E) as (n' & En' & E1 & E2 & _). rewrite En in En'. injection En' as <-.
  specialize (H (length pre) g n). rewrite E in H. apply H; [by apply list_lookup_middle | by split].
Qed.

Lemma accepts_test (go : Z -> zskiplistNode -> option bool) (P : entry -> bool) k A B :
  (forall t g n, node_of g n -> go t n = Some (P (ent g))) -> Forall (fun g => P (ent g) = true) A -> Forall (fun g => P (ent g) = false) B ->
  accepts go k (A ++ B) (length A).
Proof.
  intros Hgo HA HB j g n Ej Hn. rewrite (Hgo _ g n Hn). f_equal. destruct (Nat.ltb_spec j (length A)) as [Hl | Hl].
  - rewrite lookup_app_l in Ej by done. by apply (Forall_lookup_1 _ _ _ _ HA Ej).
  - rewrite lookup_app_r in Ej by done. by apply (Forall_lookup_1 _ _ _ _ HB Ej).
Qed.

(** ** Representation *)

(** A skip list that represents the entries [l]. *)
Definition zsl_rep (z : zskiplist) (l : list entry) (ex : list addr) : Prop := exists ns, rep z ns ex /\ map ent ns = l /\ sorted l.
Definition zsl_ok (z : zskiplist) (l : list entry) : Prop := zsl_rep z l [].

Lemma rep_numbers z ns ex : rep z ns ex -> numbers (map ent ns).
Proof. intros R. apply Forall_map. exact (rep_scores _ _ _ R). Qed.

(** ** The place of an entry *)

Lemma lt_not_same x y : isnan x.1 = false -> isnan y.1 = false -> elt x y -> same x y = false /\ same y x = false.
Proof.
  intros Hx Hy H. split.
  - destruct (same x y) eqn:E; [| done]. apply (same_elt_l x y y Hx Hy E) in H. by apply elt_irrefl in H.
  - destruct (same y x) eqn:E; [| done]. apply (same_elt_r y x x Hy Hx E) in H. by apply elt_irrefl in H.
Qed.

Lemma lt_before x y : isnan x.1 = false -> isnan y.1 = false -> elt x y -> before x y = true /\ before y x = false.
Proof.
  intros Hx Hy H. split; [by apply before_elt |]. destruct (before y x) eqn:E; [| done]. apply before_elt in E; [| done | done].
  destruct (elt_irrefl x). by eapply elt_trans.
Qed.

(** Insertion, deletion. *)
Definition sp_insert (x : entry) (l : list entry) : list entry :=
  filter (fun y => before y x = true) l ++ x :: filter (fun y => before y x = false) l.
Definition sp_delete (x : entry) (l : list entry) : list entry := filter (fun y => same x y = false) l.
Definition sp_mem (x : entry) (l : list entry) : bool := existsb (same x) l.

Section around.
Context (x : entry) (Hx : isnan x.1 = false).

Lemma sorted_around l : numbers l -> sorted l ->
  exists A B, l = A ++ B /\ Forall (fun y => elt y x) A /\
    (Forall (elt x) B \/ exists y B', B = y :: B' /\ same x y = true /\ Forall (elt x) B').
Proof.
  induction l as [| y l IH]; intros Hn Hs; [exists [], []; split; [done |]; split; [apply Forall_nil_2 |]; left; apply Forall_nil_2 |].
  apply Forall_cons in Hn as [Hy Hn]. apply StronglySorted_inv in Hs as [Hs Hlt]. destruct (elt_total x y Hx Hy) as [H | [H | H]].
  - exists [], (y :: l). split; [done |]. split; [apply Forall_nil_2 |]. left. apply Forall_cons. split; [done |].
    eapply Forall_impl; [exact Hlt |]. intros w Hw. by eapply elt_trans.
  - exists [], (y :: l). split; [done |]. split; [apply Forall_nil_2 |]. right. exists y, l. split; [done |]. split; [done |].
    eapply Forall_impl; [exact Hlt |]. intros w Hw. by apply (same_elt_l x y w Hx Hy H).
  - destruct (IH Hn Hs) as (A & B & -> & HA & HB). exists (y :: A), B. split; [done |]. split; [by apply Forall_cons | done].
Qed.

Context (A B : list entry) (HnA : numbers A) (HnB : numbers B) (HA : Forall (fun y => elt y x) A) (HB : Forall (elt x) B).

Lemma below_tests : Forall (fun y => before y x = true) A /\ Forall (fun y => same x y = false) A.
Proof.
  split; apply Forall_forall; intros y Hy; apply (Forall_forall _ _) with (2 := Hy) in HA; apply (Forall_forall _ _) with (2 := Hy) in HnA; cbn in HA, HnA.
  - by destruct (lt_before y x HnA Hx HA).
  - by destruct (lt_not_same y x HnA Hx HA).
Qed.
Lemma above_tests : Forall (fun y => before y x = false) B /\ Forall (fun y => same x y = false) B.
Proof.
  split; apply Forall_forall; intros y Hy; apply (Forall_forall _ _) with (2 := Hy) in HB; apply (Forall_forall _ _) with (2 := Hy) in HnB; cbn in HB, HnB.
  - by destruct (lt_before x y Hx HnB HB).
  - by destruct (lt_not_same x y Hx HnB HB).
Qed.

Lemma around_insert : sp_insert x (A ++ B) = A ++ x :: B.
Proof.
  unfold sp_insert. destruct below_tests as [H1 _]. destruct above_tests as [H2 _]. rewrite !filter_app.
  rewrite (filter_all (fun y => before y x = true) A H1), (filter_all (fun y => before y x = false) B H2).
  rewrite (filter_none (fun y => before y x = true) B), (filter_none (fun y => before y x = false) A); [by rewrite app_nil_r | |].
  - eapply Forall_impl; [exact H1 |]. cbn. congruence.
  - eapply Forall_impl; [exact H2 |]. cbn. congruence.
Qed.
Lemma around_delete_none : sp_delete x (A ++ B) = A ++ B /\ sp_mem x (A ++ B) = false.
Proof.
  destruct below_tests as [_ H1]. destruct above_tests as [_ H2]. assert (Forall (fun y => same x y = false) (A ++ B)) as H by (by apply Forall_app).
  split; [by apply filter_all |]. unfold sp_mem. induction H as [| y l Hy _ IH]; [done |]. cbn [existsb]. by rewrite Hy, IH.
Qed.
Lemma around_delete y : same x y = true -> sp_delete x (A ++ y :: B) = A ++ B /\ sp_mem x (A ++ y :: B) = true.
Proof.
  intros Hy. destruct around_delete_none as [H1 H2]. split.
  - rewrite <- H1. unfold sp_delete. rewrite !filter_app. f_equal. rewrite filter_cons_False by congruence. done.
  - unfold sp_mem. rewrite existsb_app. cbn [existsb]. rewrite Hy. cbn. apply orb_true_r.
Qed.
Lemma around_sorted : sorted A -> sorted B -> sorted (A ++ x :: B).
Proof.
  intros SA SB. apply StronglySorted_app. split; [| split; [done |]].
  - intros y w Hy Hw. apply (Forall_forall _ _) with (2 := Hy) in HA. apply elem_of_cons in Hw as [-> | Hw]; [done |].
    apply (Forall_forall _ _) with (2 := Hw) in HB. by eapply elt_trans.
  - by constructor.
Qed.
End around.

Lemma sorted_remove A (y : entry) B : sorted (A ++ y :: B) -> sorted (A ++ B).
Proof.
  intros H. apply StronglySorted_app in H as (H1 & HA & HB). apply StronglySorted_inv in HB as [HB _]. apply StronglySorted_app.
  split; [| done]. intros u w Hu Hw. apply H1; [done |]. by right.
Qed.

(** ** Insertion and deletion of an entry *)

Lemma map_app_inv ns (LA LB : list entry) : map ent ns = LA ++ LB -> exists A B, ns = A ++ B /\ map ent A = LA /\ map ent B = LB.
Proof. intros H. apply map_eq_app in H as (A & B & -> & <- & <-). by exists A, B. Qed.
Lemma map_cons_inv ns (y : entry) L : map ent ns = y :: L -> exists g B, ns = g :: B /\ ent g = y /\ map ent B = L.
Proof. destruct ns as [| g B]; [done |]. intros [= <- <-]. by exists g, B. Qed.

Lemma Forall_ent (P : entry -> Prop) ns : Forall P (map ent ns) <-> Forall (fun g => P (ent g)) ns.
Proof. exact (Forall_map ent P ns). Qed.

(** The nodes around the place of an entry. *)
Lemma rep_around z ns ex x : rep z ns ex -> sorted (map ent ns) -> isnan x.1 = false ->
  exists A B, ns = A ++ B /\ cut z (fun _ => node_before x.1 x.2) A B /\
    numbers (map ent A) /\ numbers (map ent B) /\ sorted (map ent A) /\ sorted (map ent B) /\ Forall (fun y => elt y x) (map ent A) /\
    (Forall (elt x) (map ent B) \/ exists g B', B = g :: B' /\ same x (ent g) = true /\ Forall (elt x) (map ent B')).
Proof.
  intros R Hs Hx. pose proof (rep_numbers _ _ _ R) as Hn. destruct (sorted_around x Hx _ Hn Hs) as (LA & LB & E & HA & HB).
  rewrite E in Hn, Hs. apply map_app_inv in E as (A & B & -> & <- & <-). apply Forall_app in Hn as [HnA HnB].
  apply StronglySorted_app in Hs as (_ & SA & SB). exists A, B. split; [done |].
  assert (Forall (fun g => before (ent g) x = true) A) as FA by (apply (Forall_ent (fun y => before y x = true)), (below_tests x Hx _ HnA HA)).
  assert (Forall (fun g => before (ent g) x = false) B) as FB.
  { destruct HB as [HB | (y & LB' & E & Hy & HB)]; [apply (Forall_ent (fun y => before y x = false)), (above_tests x Hx _ HnB HB) |].
    apply map_cons_inv in E as (g & B' & -> & <- & <-). cbn [map] in HnB. apply Forall_cons in HnB as [Hg HnB]. apply Forall_cons. split.
    - destruct (before (ent g) x) eqn:Eb; [| done]. apply before_elt in Eb; [| done | done]. 
      exfalso. apply (same_elt_r x (ent g) (ent g) Hx Hg Hy) in Eb. by apply elt_irrefl in Eb.
    - apply (Forall_ent (fun y => before y x = false)), (above_tests x Hx _ HnB HB). }
  split.
  { apply (accepts_cut z _ ex _ A B R eq_refl), (accepts_test _ (fun y => before y x)); [| done | done].
    intros t g n Hg. rewrite (node_before_eq _ _ g n Hg). by destruct x. }
  split; [done |]. split; [done |]. split; [done |]. split; [done |]. split; [done |].
  destruct HB as [HB | (y & LB' & E & Hy & HB)]; [by left | right]. apply map_cons_inv in E as (g & B' & -> & <- & <-). by exists g, B'.
Qed.

Section ops.
Context (alloc : gmap addr zskiplistNode -> addr) (uninit : zskiplistLevel) (ub : option addr).
Hypothesis Halloc : forall m, m !! alloc m = None.

Lemma insert_spec z l ex draws s e h : zsl_rep z l ex -> isnan s = false -> sp_mem (s, e) l = false -> zslRandomLevel draws = Some h -> zlen l + 1 < 2 ^ 64 ->
  exists z' x, zslInsert alloc uninit ub z draws s e = Some (z', x) /\ zsl_rep z' (sp_insert (s, e) l) ex /\ header z' = header z.
Proof.
  intros (ns & R & <- & Hs) Hnan Hmem Hd Hb. destruct (rep_around z ns ex (s, e) R Hs Hnan) as (A & B & -> & Hcut & HnA & HnB & SA & SB & HA & HB).
  destruct HB as [HB | (g & B' & -> & Hg & HB)].
  2: { exfalso. rewrite map_app in Hmem. unfold sp_mem in Hmem. rewrite existsb_app in Hmem. cbn [map existsb] in Hmem. rewrite Hg in Hmem. cbn in Hmem.
       by rewrite orb_true_r in Hmem. }
  unfold zlen in Hb. rewrite length_map in Hb. destruct (zslInsert_ok alloc uninit ub Halloc z A B ex draws s e h R Hnan Hcut Hd Hb) as (z' & x & E & R' & Eh).
  exists z', x. split; [done |]. split; [| done]. exists (A ++ G x s e h :: B). split; [done |]. rewrite !map_app, (around_insert (s, e) Hnan) by done.
  split; [done |]. by apply around_sorted.
Qed.

Lemma node_is_eq s e g n : node_of g n -> node_is s e n = Some (same (s, e) (ent g)).
Proof.
  intros [E1 E2]. unfold node_is, same. rewrite E1, E2. cbn. destruct (s =? g_score g)%D; [| done]. cbn. f_equal. apply eq_bool_prop_intro. rewrite !Is_true_true, !Z.eqb_eq, !sdscmp_bytes_eq. by split.
Qed.

(** What stands after [A]. *)
Lemma next_of z A B ex i : rep z (A ++ B) ex -> tall z i A -> get_level z (cur z A) i = Some (lv i B).
Proof. intros R Ht. by apply (rep_level _ _ _ R). Qed.

Lemma head_of z A B ex : rep z (A ++ B) ex -> get_level z (cur z A) 0 = Some (Level (g_addr <$> head B) (dst 0 B)).
Proof.
  intros R. rewrite (next_of z A B ex 0 R) by (by eapply tall_0). unfold lv. rewrite fwd_0; [done |].
  pose proof (heights_pos _ _ _ R) as H. by apply Forall_app in H as [_ H].
Qed.

Lemma delete_spec z l ex s e free : zsl_rep z l ex -> isnan s = false ->
  exists z' p, zslDelete z s e free = Some (z', sp_mem (s, e) l, p) /\ zsl_rep z' (sp_delete (s, e) l) (option_list p ++ ex) /\ header z' = header z /\ (free = true -> p = None).
Proof.
  intros (ns & R & <- & Hs) Hnan. destruct (rep_around z ns ex (s, e) R Hs Hnan) as (A & B & -> & Hcut & HnA & HnB & SA & SB & HA & HB). cbn [fst snd] in Hcut. unfold zslDelete.
  destruct (descend_all z _ ex R _ A B eq_refl Hcut) as (upd & -> & Hlen & Hu). cbn [mbind option_bind].
  rewrite (updates_0 z _ ex R A B eq_refl upd _ Hu) by (eapply level_pos; exact R). cbn [mbind option_bind].
  rewrite (head_of z A B ex R). cbn [mbind option_bind forward]. rewrite map_app.
  destruct B as [| g B]; cbn [head fmap option_fmap option_map].
  { destruct (around_delete_none (s, e) Hnan (map ent A) (map ent []) HnA HnB HA ltac:(apply Forall_nil_2)) as [-> ->].
    exists z, None. split; [done |]. split; [| done]. exists A. rewrite app_nil_r in R. cbn [map]. by rewrite app_nil_r. }
  destruct (node_at z _ ex R A g B eq_refl) as (n & -> & E1 & E2 & _). cbn [mbind option_bind]. rewrite (node_is_eq s e g n) by (by split). cbn [mbind option_bind].
  destruct HB as [HB | (g' & B' & [= <- <-] & Hg & HB)].
  - destruct (around_delete_none (s, e) Hnan (map ent A) (map ent (g :: B)) HnA HnB HA HB) as [-> ->].
    assert (same (s, e) (ent g) = false) as -> by (cbn [map] in HB, HnB; apply Forall_cons in HB as [HB _]; apply Forall_cons in HnB as [Hgn _]; by apply (lt_not_same (s, e) (ent g))).
    exists z, None. split; [done |]. split; [| done]. exists (A ++ g :: B). split; [done |]. rewrite <- map_app. done.
  - rewrite Hg. cbn [map] in HnB, Hs |- *. apply Forall_cons in HnB as [Hgn HnB]. rewrite map_app in Hs. cbn [map] in Hs.
    destruct (around_delete (s, e) Hnan (map ent A) (map ent B) HnA HnB HA HB (ent g) Hg) as [-> ->].
    destruct (zslDeleteNode_ok z A B g ex upd _ R Hu ltac:(done)) as (z' & -> & R' & Eh & _). cbn [mbind option_bind].
    assert (sorted (map ent (A ++ B))) as Hs' by (rewrite map_app; by eapply sorted_remove). rewrite <- map_app. destruct free.
    + exists (zslFreeNode z' (g_addr g)), None. split; [done |]. split; [| done]. exists (A ++ B). split; [by apply zslFreeNode_ok | done].
    + exists z', (Some (g_addr g)). split; [done |]. split; [| done]. exists (A ++ B). split; [exact R' | done].
Qed.

(** ** Updating a score *)

(** Giving another score to the node at [x] changes no link. *)
Definition rescore (x : addr) (s : double) (g : gnode) : gnode := if decide (g_addr g = x) then G x s (g_ele g) (g_height g) else g.

Lemma rescore_addr x s g : g_addr (rescore x s g) = g_addr g.
Proof. unfold rescore. by case_decide. Qed.
Lemma rescore_height x s g : g_height (rescore x s g) = g_height g.
Proof. unfold rescore. by case_decide. Qed.
Lemma rescore_lv x s i l : lv i (map (rescore x s) l) = lv i l.
Proof.
  unfold lv. f_equal; (induction l as [| g l IH]; [done |]; cbn [map fwd dst]; by rewrite rescore_height, ?rescore_addr, IH).
Qed.
Lemma rescore_last x s l : last (map (rescore x s) l) = rescore x s <$> last l.
Proof. destruct l as [| g l _] using rev_ind; [done |]. rewrite map_app. cbn [map]. by rewrite !last_snoc. Qed.
Lemma rescore_maxh x s l : maxh (map (rescore x s) l) = maxh l.
Proof. induction l as [| g l IH]; [done |]. cbn [map foldr] in *. by rewrite rescore_height, IH. Qed.
Lemma rescore_addrs x s l : map g_addr (map (rescore x s) l) = map g_addr l.
Proof. induction l as [| g l IH]; [done |]. cbn [map]. by rewrite rescore_addr, IH. Qed.
Lemma rescore_none x s l : x ∉ map g_addr l -> map (rescore x s) l = l.
Proof.
  induction l as [| g l IH]; [done |]. cbn [map]. intros H. apply not_elem_of_cons in H as [H1 H2]. rewrite IH by done. f_equal. unfold rescore. by rewrite decide_False.
Qed.

Lemma set_score_ok z ns ex x s : rep z ns ex -> isnan s = false -> x ∈ map g_addr ns ->
  exists z', set_score z x s = Some z' /\ rep z' (map (rescore x s) ns) ex /\ header z' = header z.
Proof.
  intros R Hs Hx. unfold set_score. assert (is_Some (nodes z !! x)) as [n En].
  { apply (rep_dom _ _ _ R). right. apply elem_of_app. by left. }
  rewrite En. cbn [mbind option_bind]. eexists. split; [reflexivity |]. split; [| done]. set (z' := put_node z x _).
  assert (forall b j, get_level z' b j = get_level z b j) as HL.
  { intros b j. unfold get_level, z', put_node. cbn [nodes]. destruct (decide (b = x)) as [-> | Hb]; [by rewrite lookup_insert_eq, En | by rewrite lookup_insert_ne]. }
  assert (forall b, b <> x -> shape z' b = shape z b) as HS.
  { intros b Hb. unfold shape, z', put_node. cbn [nodes]. by rewrite lookup_insert_ne. }
  assert (forall l, cur z' (map (rescore x s) l) = cur z l) as Hc.
  { intros l. unfold cur. rewrite rescore_last. destruct (last l); [cbn; apply rescore_addr | done]. }
  split.
  - intros pre post i E Ht. apply map_eq_app in E as (pre' & post' & Ens & <- & <-). rewrite HL, Hc, rescore_lv. apply (rep_level _ _ _ R); [done |].
    unfold tall in *. rewrite rescore_last in Ht. destruct (last pre') as [g |]; cbn in *; [by rewrite rescore_height in Ht | done].
  - destruct (rep_header _ _ _ R) as (s0 & Es). exists s0. rewrite HS; [done |]. change (header z <> x). intros <-.
    pose proof (rep_addrs _ _ _ R) as Hn. by apply NoDup_cons in Hn as [? _].
  - intros i Hi. destruct (rep_unused _ _ _ R i Hi) as (s0 & Es). exists s0. by rewrite HL.
  - intros pre g post E. apply map_eq_app in E as (pre' & post' & Ens & <- & E). destruct post' as [| g' post']; [done |]. injection E as <- <-.
    pose proof (rep_node _ _ _ R pre' g' post' Ens) as Hg. rewrite rescore_addr, rescore_height, rescore_last.
    assert (g_addr <$> (rescore x s <$> last pre') = g_addr <$> last pre') as -> by (destruct (last pre'); cbn; [by rewrite rescore_addr | done]).
    destruct (decide (g_addr g' = x)) as [Ea | Ea].
    + unfold rescore. rewrite decide_True by done. cbn [g_ele g_score]. revert Hg. unfold shape, z', put_node. cbn [nodes]. rewrite Ea, lookup_insert_eq, En. cbn. by intros [= -> _ -> ->].
    + rewrite HS by done. unfold rescore. by rewrite decide_False.
  - rewrite rescore_last. change (tail z') with (tail z). rewrite (rep_tail _ _ _ R). destruct (last ns); cbn; [by rewrite rescore_addr | done].
  - change (zsl_length z') with (zsl_length z). rewrite (rep_length _ _ _ R). unfold zlen. by rewrite length_map.
  - unfold zlen. rewrite length_map. exact (rep_bound _ _ _ R).
  - rewrite rescore_maxh. exact (rep_max _ _ _ R).
  - apply Forall_map. eapply Forall_impl; [exact (rep_heights _ _ _ R) |]. intros g. cbn. by rewrite rescore_height.
  - apply Forall_map. eapply Forall_impl; [exact (rep_scores _ _ _ R) |]. intros g. cbn. unfold rescore. by case_decide.
  - rewrite rescore_addrs. exact (rep_nodup _ _ _ R).
  - intros a. change (header z') with (header z). rewrite rescore_addrs, <- (rep_dom _ _ _ R a). unfold z', put_node. cbn [nodes]. destruct (decide (a = x)) as [-> | Ha]; [| by rewrite lookup_insert_ne].
    rewrite lookup_insert_eq, En. split; eauto.
Qed.

(** Strictly between the neighbours there is room for the new score. *)
Lemma between_neighbours (A B : list gnode) s e : isnan s = false -> numbers (map ent A) -> numbers (map ent B) -> sorted (map ent A) -> sorted (map ent B) ->
  (forall g, last A = Some g -> (g_score g <? s)%D = true) -> (forall g, head B = Some g -> (s <? g_score g)%D = true) ->
  Forall (fun y => elt y (s, e)) (map ent A) /\ Forall (elt (s, e)) (map ent B).
Proof.
  intros Hs HnA HnB SA SB Hl Hh. split.
  - destruct A as [| g A _] using rev_ind; [apply Forall_nil_2 |]. specialize (Hl g ltac:(by rewrite last_snoc)). rewrite map_app in *. cbn [map] in *.
    apply Forall_app in HnA as [HnA Hg]. apply Forall_cons in Hg as [Hg _]. apply d_lt_key in Hl; [| done | done].
    apply StronglySorted_app in SA as (SA & _ & _). assert (elt (ent g) (s, e)) as Hge by (by left). apply Forall_app. split; [| by apply Forall_cons; split; [| apply Forall_nil_2]].
    apply Forall_forall. intros y Hy. eapply elt_trans; [apply SA; [done | left] | done].
  - destruct B as [| g B]; [apply Forall_nil_2 |]. specialize (Hh g eq_refl). cbn [map] in *. apply Forall_cons in HnB as [Hg HnB]. apply d_lt_key in Hh; [| done | done].
    apply StronglySorted_inv in SB as [_ SB]. assert (elt (s, e) (ent g)) as Hge by (by left). apply Forall_cons. split; [done |].
    eapply Forall_impl; [exact SB |]. intros y Hy. by eapply elt_trans.
Qed.

Lemma update_spec z l draws cs s e h : zsl_ok z l -> isnan cs = false -> isnan s = false -> sp_mem (cs, e) l = true ->
  sp_mem (s, e) (sp_delete (cs, e) l) = false -> zslRandomLevel draws = Some h ->
  exists z' x, zslUpdateScore alloc uninit ub z draws cs e s = Some (z', x) /\ zsl_ok z' (sp_insert (s, e) (sp_delete (cs, e) l)).
Proof.
  intros (ns & R & <- & Hs) Hcs Hns Hmem Hfree Hd. destruct (rep_around z ns [] (cs, e) R Hs Hcs) as (A & B & -> & Hcut & HnA & HnB & SA & SB & HA & HB).
  cbn [fst snd] in Hcut. unfold zslUpdateScore. destruct (descend_all z _ [] R _ A B eq_refl Hcut) as (upd & -> & Hlen & Hu). cbn [mbind option_bind].
  rewrite (updates_0 z _ [] R A B eq_refl upd _ Hu) by (eapply level_pos; exact R). cbn [mbind option_bind]. rewrite (head_of z A B [] R). cbn [mbind option_bind forward].
  destruct HB as [HB | (g & B' & -> & Hg & HB)].
  { rewrite map_app in Hmem. by rewrite (proj2 (around_delete_none (cs, e) Hcs _ _ HnA HnB HA HB)) in Hmem. }
  cbn [head fmap option_fmap option_map]. destruct (node_at z _ [] R A g B' eq_refl) as (n & En & E1 & E2 & E3 & _). rewrite En. cbn [mbind option_bind].
  rewrite (node_is_eq cs e g n) by (by split). rewrite Hg. cbn [assert_ mbind option_bind].
  assert (rep z ((A ++ [g]) ++ B') []) as R2 by (by rewrite <- app_assoc). pose proof (head_of z (A ++ [g]) B' [] R2) as El. rewrite cur_snoc in El. rewrite El. cbn [mbind option_bind forward].
  cbn [map] in HnB, SB. apply Forall_cons in HnB as [Hgn HnB]. apply StronglySorted_inv in SB as [SB _]. apply same_key in Hg as Hgk; [| done | done]. destruct Hgk as [_ Ege]. cbn in Ege.
  rewrite map_app in Hfree. cbn [map] in Hfree. destruct (around_delete (cs, e) Hcs _ _ HnA HnB HA HB (ent g) Hg) as [Edel _]. rewrite Edel in Hfree. rewrite map_app. cbn [map]. rewrite Edel, E3.
  assert (exists after, match g_addr <$> last A with None => Some true | Some b => nb ← nodes z !! b; Some (score nb <? s)%D end = Some after /\
    (after = true -> forall g', last A = Some g' -> (g_score g' <? s)%D = true)) as (after & -> & Hafter).
  { destruct A as [| g' A' _] using rev_ind; [by exists true |]. rewrite last_snoc. cbn. destruct (node_at z _ [] R A' g' (g :: B') ltac:(by rewrite <- app_assoc)) as (nb & -> & _ & Es & _).
    cbn. rewrite Es. eexists. split; [reflexivity |]. by intros E g0 [= <-]. }
  cbn [mbind option_bind].
  assert (exists bef, match g_addr <$> head B' with None => Some true | Some f => nf ← nodes z !! f; Some (s <? score nf)%D end = Some bef /\
    (bef = true -> forall g', head B' = Some g' -> (s <? g_score g')%D = true)) as (bef & -> & Hbef).
  { destruct B' as [| g' B']; [by exists true |]. cbn. destruct (node_at z _ [] R (A ++ [g]) g' B' ltac:(by rewrite <- app_assoc)) as (nf & -> & _ & Es & _).
    cbn. rewrite Es. eexists. split; [reflexivity |]. by intros E g0 [= <-]. }
  cbn [mbind option_bind]. destruct (after && bef) eqn:Eab.
  - apply andb_true_iff in Eab as [-> ->]. destruct (between_neighbours A B' s e Hns HnA HnB SA SB (Hafter eq_refl) (Hbef eq_refl)) as [FA FB].
    destruct (set_score_ok z _ [] (g_addr g) s R Hns) as (z' & -> & R' & _); [rewrite map_app; apply elem_of_app; right; left |]. cbn [mbind option_bind].
    exists z', (g_addr g). split; [done |]. eexists. split; [exact R' |]. rewrite (around_insert (s, e) Hns _ _ HnA HnB FA FB). split; [| by apply around_sorted].
    pose proof (rep_addrs _ _ _ R) as Hnd. apply NoDup_cons in Hnd as [_ Hnd]. rewrite map_app in Hnd. cbn [map] in Hnd. apply NoDup_app in Hnd as (_ & Hd1 & Hd2). apply NoDup_cons in Hd2 as [Hd2 _].
    rewrite map_app. cbn [map]. rewrite !rescore_none; [| done | intros Hin; apply (Hd1 _ Hin); left]. rewrite map_app. cbn [map]. do 2 f_equal. unfold rescore. rewrite decide_True by done. unfold ent. cbn. by rewrite Ege.
  - destruct (zslDeleteNode_ok z A B' g [] upd _ R Hu ltac:(done)) as (z1 & -> & R1 & Eh1 & _). cbn [mbind option_bind]. rewrite E1, <- Ege. cbn [mbind option_bind].
    destruct (insert_spec z1 (map ent (A ++ B')) [g_addr g] draws s e h) as (z2 & x & -> & (ns2 & R2' & Ens2 & Hs2) & Eh2); try done.
    + exists (A ++ B'). split; [done |]. split; [done |]. rewrite map_app. eapply sorted_remove. rewrite map_app in Hs. exact Hs.
    + by rewrite map_app.
    + unfold zlen. rewrite length_map. pose proof (rep_bound _ _ _ R) as Hb. unfold zlen in Hb. rewrite !length_app in *. cbn in Hb. lia.
    + cbn [mbind option_bind]. exists (zslFreeNode z2 (g_addr g)), x. split; [done |]. exists ns2. split; [by apply zslFreeNode_ok |]. by rewrite <- map_app.
Qed.
End ops.
