(* ===== verification/SkiplistThms.v ===== *)
(** Ranks, ranges and deletions of ranges on skip lists; the theorems. *)
From Stdlib Require Import Sorted.
From stdpp Require Import gmap sorting.
From S2P Require Import Prelude Sds Skiplist SkiplistInv SkiplistOps SkiplistDel SkiplistSpec.

(** The entry that a pointer leads to. *)
Definition node_entry (z : zskiplist) (p : option addr) : option entry := a ← p; n ← nodes z !! a; e ← ele n; Some (score n, e).

Lemma node_entry_at z ns ex pre g post : rep z ns ex -> ns = pre ++ g :: post -> node_entry z (Some (g_addr g)) = Some (ent g).
Proof. intros R E. destruct (node_at z ns ex R pre g post E) as (n & En & E1 & E2 & _). unfold node_entry. cbn. by rewrite En; cbn; rewrite E1, E2. Qed.

Lemma node_entry_head z A B ex : rep z (A ++ B) ex -> node_entry z (g_addr <$> head B) = head (map ent B).
Proof. intros R. destruct B as [| g B]; [done |]. by apply (node_entry_at z _ ex A g B R). Qed.

Lemma node_entry_cur z A B ex : rep z (A ++ B) ex -> A <> [] -> node_entry z (Some (cur z A)) = last (map ent A).
Proof.
  intros R Hne. destruct A as [| g A _] using rev_ind; [done |]. rewrite cur_snoc, map_app. cbn [map]. rewrite last_snoc.
  apply (node_entry_at z _ ex A g B R). by rewrite <- app_assoc.
Qed.

Lemma cut_unique {T} (P : T -> bool) (A B C D : list T) : A ++ B = C ++ D -> Forall (fun x => P x = true) A -> Forall (fun x => P x = false) B ->
  Forall (fun x => P x = true) C -> Forall (fun x => P x = false) D -> A = C /\ B = D.
Proof.
  intros E HA HB HC HD. apply app_eq_app in E as ([| x k] & [(-> & ->) | (-> & ->)]); try by rewrite app_nil_r.
  - exfalso. apply Forall_app in HA as [_ HA]. apply Forall_cons in HA as [HA _]. apply Forall_cons in HD as [HD _]. congruence.
  - exfalso. apply Forall_app in HC as [_ HC]. apply Forall_cons in HC as [HC _]. apply Forall_cons in HB as [HB _]. congruence.
Qed.

(** ** Ranges *)

Section range.
Context (gte lte : entry -> bool) (never : bool) (gte_min lte_max : zskiplistNode -> option bool).
Hypothesis Hgte : forall g n, node_of g n -> gte_min n = Some (gte (ent g)).
Hypothesis Hlte : forall g n, node_of g n -> lte_max n = Some (lte (ent g)).

Definition sp_in (y : entry) : bool := gte y && lte y.
Definition sp_range (l : list entry) : list entry := filter (fun y => sp_in y = true) l.
Definition sp_outside (l : list entry) : list entry := filter (fun y => sp_in y = false) l.

(** The tests are those of an interval of the list. *)
Definition interval (l : list entry) : Prop :=
  closed_on l (fun y => negb (gte y)) /\ closed_on l lte /\ (never = true -> forall y, y ∈ l -> sp_in y = false).

Context (z : zskiplist) (ns : list gnode) (ex : list addr) (R : rep z ns ex) (Hs : sorted (map ent ns)) (Hi : interval (map ent ns)).

(** Below the range, in the range, above it. *)
Lemma range_split : exists A M C, ns = A ++ M ++ C /\ Forall (fun g => gte (ent g) = false) A /\ Forall (fun g => gte (ent g) = true) (M ++ C) /\
  Forall (fun g => lte (ent g) = true) M /\ Forall (fun g => lte (ent g) = false) C /\
  sp_range (map ent ns) = map ent M /\ sp_outside (map ent ns) = map ent (A ++ C).
Proof.
  destruct Hi as (H1 & H2 & _). destruct (sorted_cut _ ns H1 Hs) as (A & B & E & HA & HB). rewrite E in Hs, H2.
  assert (closed_on (map ent B) lte) as H2' by (intros x y Hx Hy; apply H2; rewrite map_app; apply elem_of_app; by right).
  rewrite map_app in Hs. apply StronglySorted_app in Hs as (_ & _ & SB). destruct (sorted_cut lte B H2' SB) as (M & C & -> & HM & HC).
  assert (Forall (fun g => gte (ent g) = false) A) as HA' by (eapply Forall_impl; [exact HA |]; intros g; cbn; by destruct (gte (ent g))).
  assert (Forall (fun g => gte (ent g) = true) (M ++ C)) as HB' by (eapply Forall_impl; [exact HB |]; intros g; cbn; by destruct (gte (ent g))).
  exists A, M, C. split; [done |]. split; [done |]. split; [done |]. split; [done |]. split; [done |].
  apply Forall_app in HB' as [HBM HBC].
  assert (Forall (fun y => sp_in y = false) (map ent A)) as FA by (apply Forall_ent; eapply Forall_impl; [exact HA' |]; intros g Hg; cbn in *; unfold sp_in; by rewrite Hg).
  assert (Forall (fun y => sp_in y = false) (map ent C)) as FC by (apply Forall_ent; eapply Forall_impl; [exact HC |]; intros g Hg; cbn in *; unfold sp_in; by rewrite Hg, andb_false_r).
  assert (Forall (fun y => sp_in y = true) (map ent M)) as FM.
  { apply Forall_ent, Forall_forall. intros g Hg. unfold sp_in. apply (Forall_forall _ _) with (2 := Hg) in HM. apply (Forall_forall _ _) with (2 := Hg) in HBM. cbn in *. by rewrite HM, HBM. }
  rewrite E, !map_app. unfold sp_range, sp_outside. rewrite !filter_app. split.
  - rewrite (filter_all _ _ FM), (filter_none _ (map ent A)), (filter_none _ (map ent C)); [by rewrite app_nil_r | |]; (eapply Forall_impl; [done |]; cbn; congruence).
  - rewrite (filter_all _ _ FA), (filter_all _ _ FC), (filter_none _ (map ent M)); [done |]. eapply Forall_impl; [exact FM |]. cbn. congruence.
Qed.

Lemma accepts_below A M C : Forall (fun g => gte (ent g) = false) A -> Forall (fun g => gte (ent g) = true) (M ++ C) ->
  accepts (fun _ n => option_negb (gte_min n)) 0 (A ++ M ++ C) (length A).
Proof.
  intros HA HB. apply (accepts_test _ (fun y => negb (gte y))).
  - intros t g n Hg. by rewrite (Hgte g n Hg).
  - eapply Forall_impl; [exact HA |]. cbn. by intros g ->.
  - eapply Forall_impl; [exact HB |]. cbn. by intros g ->.
Qed.

Lemma node_of_at A g B : ns = A ++ g :: B -> exists n, nodes z !! g_addr g = Some n /\ node_of g n.
Proof. intros E. destruct (node_at z ns ex R A g B E) as (n & En & E1 & E2 & _). by exists n. Qed.

Lemma in_range_ok : exists b, in_range gte_min lte_max never z = Some b /\
  (if b then (exists g, last ns = Some g /\ gte (ent g) = true) /\ (exists g, head ns = Some g /\ lte (ent g) = true) else sp_range (map ent ns) = []).
Proof.
  destruct range_split as (A & M & C & E & HA & HB & HM & HC & -> & _). unfold in_range. destruct (bool_dec never true) as [En | En%not_true_is_false]; rewrite En.
  { exists false. split; [done |]. destruct M as [| g M]; [done |]. exfalso. destruct Hi as (_ & _ & H3).
    apply Forall_cons in HM as [HM _]. apply Forall_cons in HB as [HB _].
    specialize (H3 En (ent g)). unfold sp_in in H3. rewrite HM, HB in H3. discriminate H3. rewrite E, !map_app. apply elem_of_app. right. left. }
  rewrite (rep_tail _ _ _ R). destruct (last ns) as [t |] eqn:El; cbn [fmap option_fmap option_map].
  2: { exists false. split; [done |]. apply last_None in El. rewrite El in E. symmetry in E. apply app_eq_nil in E as [_ E]. by apply app_eq_nil in E as [-> _]. }
  apply last_Some in El as (l & El). destruct (node_of_at l t [] El) as (nt & -> & Hnt). cbn [mbind option_bind]. rewrite (Hgte t nt Hnt). cbn [mbind option_bind].
  destruct (gte (ent t)) eqn:Et; cbn [negb].
  2: { exists false. split; [done |]. destruct (M ++ C) as [| b k _] eqn:EMC using rev_ind; [by apply app_eq_nil in EMC as [-> _] |]. exfalso.
       rewrite El, app_assoc in E. apply app_inj_tail in E as [_ ->]. apply Forall_app in HB as [_ HB]. apply Forall_cons in HB as [HB _]. congruence. }
  pose proof (head_of z [] ns ex R) as Eh. rewrite cur_nil in Eh. rewrite Eh. cbn [mbind option_bind forward].
  destruct ns as [| x ns'] eqn:Ens; [by destruct l |]. cbn [head fmap option_fmap option_map].
  destruct (node_at z _ ex R [] x ns' eq_refl) as (nx & -> & E1 & E2 & _). cbn [mbind option_bind]. rewrite (Hlte x nx) by (by split).
  exists (lte (ent x)). split; [done |]. destruct (lte (ent x)) eqn:Ex; [split; [by exists t | by exists x] |].
  destruct M as [| g M]; [done |]. exfalso. destruct A as [| a A].
  - injection E as <- _. apply Forall_cons in HM as [HM _]. congruence.
  - injection E as <- E. destruct Hi as (_ & H2 & _). apply Forall_cons in HM as [HM _]. cbn [map] in Hs. apply StronglySorted_inv in Hs as [_ Hlt].
    assert (ent g ∈ map ent ns') as Hg by (rewrite E, !map_app; apply elem_of_app; right; left).
    rewrite (H2 (ent x) (ent g)) in Ex; [done | left | by right | by apply (Forall_forall _ _) with (2 := Hg) in Hlt | done].
Qed.

Lemma first_in_range_ok : exists p, first_in_range gte_min lte_max never z = Some p /\ node_entry z p = head (sp_range (map ent ns)).
Proof.
  destruct in_range_ok as (b & Eb & Hb). unfold first_in_range. rewrite Eb. cbn [mbind option_bind]. destruct b; cbn [negb]; [| exists None; by rewrite Hb].
  destruct range_split as (A & M & C & E & HA & HB & HM & HC & -> & _).
  pose proof (accepts_below A M C HA HB) as Hacc. pose proof E as E'. rewrite <- E in Hacc. pose proof (accepts_cut z ns ex _ A (M ++ C) R E Hacc) as Hcut.
  destruct (descend_all z ns ex R _ A (M ++ C) E Hcut) as (upd & -> & _ & Hu). cbn [mbind option_bind].
  rewrite (updates_0 z ns ex R A _ E upd _ Hu) by (eapply level_pos; exact R). cbn [mbind option_bind].
  assert (rep z (A ++ M ++ C) ex) as R' by (by rewrite <- E). rewrite (head_of z A (M ++ C) ex R'). cbn [mbind option_bind forward].
  destruct Hb as [(t & Et & Hgt) _]. destruct (M ++ C) as [| x k] eqn:EMC.
  { exfalso. rewrite E, app_nil_r in Et. destruct A as [| a A _] using rev_ind; [done |]. rewrite last_snoc in Et. injection Et as ->.
    apply Forall_app in HA as [_ HA]. apply Forall_cons in HA as [HA _]. cbn in HA. congruence. }
  cbn [head fmap option_fmap option_map]. destruct (node_of_at A x k E) as (n & -> & Hn). cbn [mbind option_bind]. rewrite (Hlte x n Hn). cbn [mbind option_bind].
  destruct M as [| g M].
  - cbn in EMC. subst C. apply Forall_cons in HC as [HC _]. rewrite HC. by exists None.
  - injection EMC as <- _. apply Forall_cons in HM as [HM _]. rewrite HM. cbn [negb]. exists (Some (g_addr g)). split; [done |]. by apply (node_entry_at z ns ex A g k R).
Qed.

Lemma last_in_range_ok : exists p, last_in_range gte_min lte_max never z = Some p /\ node_entry z p = last (sp_range (map ent ns)).
Proof.
  destruct in_range_ok as (b & Eb & Hb). unfold last_in_range. rewrite Eb. cbn [mbind option_bind]. destruct b; cbn [negb]; [| exists None; by rewrite Hb].
  destruct range_split as (A & M & C & E & HA & HB & HM & HC & -> & _). destruct Hb as [_ (t & Et & Hlt)]. destruct Hi as (_ & H2 & _).
  destruct (sorted_cut lte ns H2 Hs) as (P & Q & EPQ & HP & HQ).
  assert (accepts (fun _ n => lte_max n) 0 ns (length P)) as Hacc by (rewrite EPQ; by apply (accepts_test _ lte); [intros ? g n; apply Hlte | |]).
  pose proof (accepts_cut z ns ex _ P Q R EPQ Hacc) as Hcut. destruct (descend_all z ns ex R _ P Q EPQ Hcut) as (upd & -> & _ & Hu). cbn [mbind option_bind].
  rewrite (updates_0 z ns ex R P Q EPQ upd _ Hu) by (eapply level_pos; exact R). cbn [mbind option_bind].
  assert (P <> []) as HneP by (intros ->; cbn in EPQ; subst Q; destruct ns as [| x k]; [done |]; injection Et as ->; apply Forall_cons in HQ as [HQ _]; congruence).
  destruct P as [| u P' _] using rev_ind; [done |]. rewrite cur_snoc. rewrite <- app_assoc in EPQ. cbn [app] in EPQ.
  destruct (node_of_at P' u Q EPQ) as (n & -> & Hn). cbn [mbind option_bind]. rewrite (Hgte u n Hn). cbn [mbind option_bind].
  assert (lte (ent u) = true) as Hu1 by (apply Forall_app in HP as [_ HP]; by apply Forall_cons in HP as [HP _]).
  destruct M as [| m M' _] using rev_ind.
  - exists None. split; [| done]. assert (u ∈ A ++ C) as Hin by (cbn in E; rewrite <- E, EPQ; apply elem_of_app; right; left).
    apply elem_of_app in Hin as [Hin | Hin]; [apply (Forall_forall _ _) with (2 := Hin) in HA; cbn in HA; by rewrite HA |].
    apply (Forall_forall _ _) with (2 := Hin) in HC. cbn in HC. congruence.
  - apply Forall_app in HM as [HM Hm]. apply Forall_cons in Hm as [Hm _]. apply Forall_app in HB as [HB _]. apply Forall_app in HB as [_ Hgm]. apply Forall_cons in Hgm as [Hgm _].
    assert (A ++ M' = P' /\ m = u /\ C = Q) as (_ & <- & _).
    { assert (Forall (fun g => lte (ent g) = true) (A ++ M' ++ [m])) as HAM.
      { apply Forall_app. split; [| apply Forall_app; split; [done |]; by apply Forall_cons; split; [| apply Forall_nil_2]]. apply Forall_forall. intros a Ha.
        rewrite E, map_app in Hs. apply StronglySorted_app in Hs as (Hlt' & _ & _). apply (H2 (ent a) (ent m)); [| | apply Hlt' | done].
        - rewrite E, map_app. apply elem_of_app. left. by apply list_elem_of_fmap_2.
        - rewrite E, !map_app. apply elem_of_app. right. apply elem_of_app. left. apply elem_of_app. right. left.
        - by apply list_elem_of_fmap_2.
        - rewrite !map_app. apply elem_of_app. left. apply elem_of_app. right. left. }
      destruct (cut_unique (fun g => lte (ent g)) (A ++ M' ++ [m]) C (P' ++ [u]) Q) as [E1 ->]; [| done | done | done | done |].
      { rewrite <- !app_assoc. rewrite <- app_assoc in E. by rewrite <- E, EPQ. }
      rewrite app_assoc in E1. by apply app_inj_tail in E1 as [-> ->]. }
    rewrite Hgm. cbn [negb]. exists (Some (g_addr m)). split; [done |]. rewrite (node_entry_at z ns ex P' m Q R EPQ), map_app. cbn [map]. by rewrite last_snoc.
Qed.
End range.

(** ** Deleting ranges *)

Section delete.
Context {D : Type} (dictDelete : D -> list Z -> D).

Lemma delete_loop_ok A C n upd more : forall M fuel z d t removed, rep z (A ++ M ++ C) [] -> updates z A upd n -> (zsl_level z <= n)%nat ->
  (length M <= fuel)%nat -> accepts more (t - 1) (M ++ C) (length M) -> 0 <= t -> t + zlen M < 2 ^ 64 -> 0 <= removed -> removed + zlen M < 2 ^ 64 ->
  exists z', delete_loop dictDelete fuel more upd z d (g_addr <$> head (M ++ C)) t removed = Some (z', foldl dictDelete d (map g_ele M), removed + zlen M) /\
    rep z' (A ++ C) [].
Proof.
  induction M as [| g M IH]; intros fuel z d t removed R Hu Hn Hf Hm Ht Htb Hr Hrb.
  - cbn [app map foldl] in *. rewrite (@zlen_nil gnode), Z.add_0_r. exists z. split; [| done]. destruct C as [| c C]; [by destruct fuel |].
    destruct (node_at z _ [] R A c C eq_refl) as (nd & En & E1 & E2 & _). cbn [head fmap option_fmap option_map].
    pose proof (Hm 0%nat c nd eq_refl (conj E1 E2)) as Hc. replace (t - 1 + Z.of_nat 0 + 1) with t in Hc by lia. cbn [length] in Hc.
    destruct fuel; cbn [delete_loop]; rewrite En; cbn [mbind option_bind]; by rewrite Hc.
  - cbn [app head fmap option_fmap option_map] in *. destruct (node_at z _ [] R A g (M ++ C) eq_refl) as (nd & En & E1 & E2 & _).
    pose proof (Hm 0%nat g nd eq_refl (conj E1 E2)) as Hg. replace (t - 1 + Z.of_nat 0 + 1) with t in Hg by lia. cbn [length] in Hg, Hf.
    destruct fuel as [| fuel]; [lia |]. cbn [delete_loop]. rewrite En. cbn [mbind option_bind]. rewrite Hg. cbn [Nat.ltb Nat.leb negb].
    rewrite zlen_cons in Htb, Hrb |- *. pose proof (zlen_nonneg M).
    assert (rep z ((A ++ [g]) ++ M ++ C) []) as R1 by (by rewrite <- app_assoc). pose proof (head_of z (A ++ [g]) (M ++ C) [] R1) as El. rewrite cur_snoc in El.
    rewrite El. cbn [mbind option_bind forward]. destruct (zslDeleteNode_ok z A (M ++ C) g [] upd n R Hu Hn) as (z1 & -> & R2 & Eh & Elv). cbn [mbind option_bind].
    rewrite E1. cbn [mbind option_bind]. rewrite !u64_id by (unfold is_u64; lia).
    destruct (IH fuel (zslFreeNode z1 (g_addr g)) (dictDelete d (g_ele g)) (t + 1) (removed + 1)) as (z' & -> & R'); try lia.
    + by apply zslFreeNode_ok.
    + intros j Hj. rewrite (Hu j Hj). do 2 f_equal. symmetry. by apply cur_header.
    + cbn [zslFreeNode zsl_level]. lia.
    + intros j g' nd' Ej Hnd. specialize (Hm (S j) g' nd' Ej Hnd). cbn [length] in Hm. replace (t + 1 - 1 + Z.of_nat j + 1) with (t - 1 + Z.of_nat (S j) + 1) by lia. exact Hm.
    + exists z'. cbn [map foldl]. split; [do 2 f_equal; lia | done].
Qed.

Lemma delete_range_ok go more z A M C d : rep z (A ++ M ++ C) [] -> sorted (map ent (A ++ M ++ C)) ->
  accepts go 0 (A ++ M ++ C) (length A) -> accepts more (zlen A) (M ++ C) (length M) -> zlen (A ++ M ++ C) + 1 < 2 ^ 64 ->
  exists z', delete_range dictDelete go more z d = Some (z', foldl dictDelete d (map snd (map ent M)), zlen (map ent M)) /\ zsl_ok z' (map ent (A ++ C)).
Proof.
  intros R Hs Hgo Hmore Hb. unfold delete_range. pose proof (accepts_cut z _ [] go A (M ++ C) R eq_refl Hgo) as Hcut.
  destruct (descend_all z _ [] R _ A (M ++ C) eq_refl Hcut) as (upd & -> & _ & Hu). cbn [mbind option_bind].
  rewrite (updates_0 z _ [] R A _ eq_refl upd _ Hu) by (eapply level_pos; exact R). cbn [mbind option_bind].
  rewrite (head_of z A (M ++ C) [] R). cbn [mbind option_bind forward]. rewrite !zlen_app in Hb. pose proof (zlen_nonneg A). pose proof (zlen_nonneg M). pose proof (zlen_nonneg C).
  rewrite u64_id by (unfold is_u64; lia). pose proof (fuel_enough z _ [] R) as Hf. rewrite !length_app in Hf.
  destruct (delete_loop_ok A C (zsl_level z) upd more M (size (nodes z)) z d (zlen A + 1) 0 R Hu) as (z' & -> & R'); try lia.
  - by replace (zlen A + 1 - 1) with (zlen A) by lia.
  - exists z'. split.
    + rewrite map_map. unfold zlen. rewrite length_map. cbn. done.
    + exists (A ++ C). split; [done |]. split; [done |]. rewrite !map_app in *. apply StronglySorted_app in Hs as (HAC & HA & HC). apply StronglySorted_app in HC as (_ & _ & HC).
      apply StronglySorted_app. split; [| done]. intros x y Hx Hy. apply HAC; [done |]. apply elem_of_app. by right.
Qed.

(** A range given by tests. *)
Lemma delete_tests_ok gte lte gte_min lte_max z l d : (forall g n, node_of g n -> gte_min n = Some (gte (ent g))) -> (forall g n, node_of g n -> lte_max n = Some (lte (ent g))) ->
  zsl_ok z l -> interval gte lte false l -> zlen l + 1 < 2 ^ 64 ->
  exists z', delete_range dictDelete (fun _ n => option_negb (gte_min n)) (fun _ n => lte_max n) z d =
      Some (z', foldl dictDelete d (map snd (sp_range gte lte l)), zlen (sp_range gte lte l)) /\ zsl_ok z' (sp_outside gte lte l).
Proof.
  intros Hgte Hlte (ns & R & <- & Hs) Hi Hb. destruct (range_split gte lte false ns Hs Hi) as (A & M & C & -> & HA & HB & HM & HC & -> & ->).
  apply delete_range_ok; try done.
  - by apply (accepts_below gte gte_min Hgte).
  - apply (accepts_test _ lte); [intros ? g n; apply Hlte | done | done].
  - unfold zlen in *. by rewrite length_map in Hb.
Qed.
End delete.

(** ** Score ranges and lexicographic ranges are intervals *)

Definition range_ok (r : zrangespec) : Prop := isnan (r_min r) = false /\ isnan (r_max r) = false.
Definition score_gte_e (r : zrangespec) (y : entry) : bool := zslValueGteMin y.1 r.
Definition score_lte_e (r : zrangespec) (y : entry) : bool := zslValueLteMax y.1 r.

Lemma gte_min_key v r : isnan v = false -> range_ok r -> zslValueGteMin v r = true <-> (if r_minex r then klt (dkey (r_min r)) (dkey v) else ~ klt (dkey v) (dkey (r_min r))).
Proof. intros Hv [H1 _]. unfold zslValueGteMin. destruct (r_minex r); [by apply d_lt_key | by apply d_le_key]. Qed.
Lemma lte_max_key v r : isnan v = false -> range_ok r -> zslValueLteMax v r = true <-> (if r_maxex r then klt (dkey v) (dkey (r_max r)) else ~ klt (dkey (r_max r)) (dkey v)).
Proof. intros Hv [_ H1]. unfold zslValueLteMax. destruct (r_maxex r); [by apply d_lt_key | by apply d_le_key]. Qed.

Lemma elt_score x y : elt x y -> ~ klt (dkey y.1) (dkey x.1).
Proof. intros [H | [-> _]] H2; [| by apply klt_irrefl in H2]. destruct (klt_irrefl (dkey x.1)). by eapply klt_trans. Qed.
Lemma klt_nlt a b c : klt a b -> ~ klt c b -> klt a c.
Proof. intros H1 H2. destruct (klt_total b c) as [? | [-> | ?]]; [by eapply klt_trans | done | done]. Qed.
Lemma nlt_klt a b c : ~ klt b a -> klt b c -> klt a c.
Proof. intros H1 H2. destruct (klt_total a b) as [? | [-> | ?]]; [by eapply klt_trans | done | done]. Qed.

Lemma score_interval r l : range_ok r -> numbers l -> interval (score_gte_e r) (score_lte_e r) (score_never r) l.
Proof.
  intros Hr Hn. assert (forall y, y ∈ l -> isnan y.1 = false) as Hnum by (intros y Hy; by apply (Forall_forall _ _) with (2 := Hy) in Hn). split; [| split].
  - intros x y Hx Hy Hlt. unfold score_gte_e. rewrite !negb_true_iff, <- !not_true_iff_false, !gte_min_key by auto. apply elt_score in Hlt.
    destruct (r_minex r); intros H1 H2; apply H1.
    + by eapply klt_nlt.
    + intros H3. apply H2. by eapply nlt_klt.
  - intros x y Hx Hy Hlt. unfold score_lte_e. rewrite !lte_max_key by auto. apply elt_score in Hlt. destruct (r_maxex r); intros H1.
    + by eapply nlt_klt.
    + intros H2. apply H1. by eapply klt_nlt.
  - intros Hnever y Hy. unfold sp_in, score_gte_e, score_lte_e. apply andb_false_iff. destruct (zslValueGteMin y.1 r) eqn:E1; [| by left]. destruct (zslValueLteMax y.1 r) eqn:E2; [| by right].
    exfalso. apply gte_min_key in E1; [| by auto | done]. apply lte_max_key in E2; [| by auto | done]. destruct Hr as [Hr1 Hr2].
    unfold score_never in Hnever. rewrite orb_true_iff, andb_true_iff, orb_true_iff, d_lt_key, d_eq_key in Hnever by done.
    destruct Hnever as [Hnever | [Hnever Hor]].
    + destruct (r_minex r).
      * pose proof (klt_trans _ _ _ Hnever E1) as H. destruct (r_maxex r); [| done]. destruct (klt_irrefl (dkey (r_max r))). by eapply klt_trans.
      * destruct (r_maxex r); [apply E1; by eapply klt_trans |]. apply E2. by eapply klt_nlt.
    + rewrite Hnever in E1. destruct (r_minex r), (r_maxex r); [| done | done | by destruct Hor].
      destruct (klt_irrefl (dkey y.1)). by eapply klt_trans.
Qed.

(** Lexicographic ranges are for entries of one score. *)
Definition one_score (l : list entry) : Prop := forall x y, x ∈ l -> y ∈ l -> dkey x.1 = dkey y.1.
Definition lex_gte_e (r : zlexrangespec) (y : entry) : bool := zslLexValueGteMin y.2 r.
Definition lex_lte_e (r : zlexrangespec) (y : entry) : bool := zslLexValueLteMax y.2 r.

Lemma sdscmplex_lt a b m : sdscmp_bytes a b < 0 -> (sdscmplex (LexStr b) m <= 0 -> sdscmplex (LexStr a) m < 0) /\ (0 <= sdscmplex (LexStr a) m -> 0 < sdscmplex (LexStr b) m).
Proof.
  intros H. destruct m as [| | s]; cbn; [lia | lia |]. pose proof (sdscmp_bytes_sym b s). pose proof (sdscmp_bytes_sym s b). pose proof (sdscmp_bytes_sym a s). pose proof (sdscmp_bytes_sym s a).
  pose proof (sdscmp_bytes_trans a b s H). pose proof (sdscmp_bytes_trans s a b). pose proof (proj1 (sdscmp_bytes_eq b s)) as Eb. pose proof (proj1 (sdscmp_bytes_eq a s)) as Ea. split; intros G1.
  - destruct (Z.eq_dec (sdscmp_bytes b s) 0) as [E | E]; [rewrite <- (Eb E); done | lia].
  - destruct (Z.eq_dec (sdscmp_bytes a s) 0) as [E | E]; [rewrite <- (Ea E); pose proof (sdscmp_bytes_sym a b); lia | lia].
Qed.

Lemma lex_interval r l : one_score l -> interval (lex_gte_e r) (lex_lte_e r) (lex_never r) l.
Proof.
  intros H1. assert (forall x y, x ∈ l -> y ∈ l -> elt x y -> sdscmp_bytes x.2 y.2 < 0) as Hlt.
  { intros x y Hx Hy [H | [_ H]]; [| done]. rewrite (H1 x y Hx Hy) in H. by apply klt_irrefl in H. }
  split; [| split].
  - intros x y Hx Hy Hxy. apply Hlt in Hxy; [| done | done]. unfold lex_gte_e, zslLexValueGteMin. destruct (sdscmplex_lt x.2 y.2 (l_min r) Hxy) as [L1 L2].
    rewrite !negb_true_iff. destruct (l_minex r); rewrite ?Z.ltb_ge, ?Z.leb_gt; lia.
  - intros x y Hx Hy Hxy. apply Hlt in Hxy; [| done | done]. unfold lex_lte_e, zslLexValueLteMax. destruct (sdscmplex_lt x.2 y.2 (l_max r) Hxy) as [L1 L2].
    destruct (l_maxex r); rewrite ?Z.ltb_lt, ?Z.leb_le; lia.
  - intros Hnever y _. unfold sp_in. destruct (lex_gte_e r y) eqn:E1; [| done]. destruct (lex_lte_e r y) eqn:E2; [| done]. exfalso.
    unfold lex_never in Hnever. unfold lex_gte_e, zslLexValueGteMin in E1. unfold lex_lte_e, zslLexValueLteMax in E2. rewrite orb_true_iff, andb_true_iff, orb_true_iff, Z.ltb_lt, Z.eqb_eq in Hnever.
    destruct (l_min r) as [| | a], (l_max r) as [| | b]; cbn in *; try (destruct (l_minex r), (l_maxex r); cbn in *; lia || (destruct Hnever as [? | [? [? | ?]]]; done)).
    pose proof (sdscmp_bytes_sym b a). pose proof (sdscmp_bytes_trans y.2 b a). pose proof (proj1 (sdscmp_bytes_eq y.2 b)) as Eb. pose proof (proj1 (sdscmp_bytes_eq a b)) as Ea.
    assert (0 <= sdscmp_bytes y.2 a /\ (l_minex r = true -> 0 < sdscmp_bytes y.2 a)) as [G1 G1'] by (destruct (l_minex r); split; lia).
    assert (sdscmp_bytes y.2 b <= 0 /\ (l_maxex r = true -> sdscmp_bytes y.2 b < 0)) as [G2 G2'] by (destruct (l_maxex r); split; lia).
    destruct Hnever as [Hab | [Hab Hor]].
    + destruct (Z.eq_dec (sdscmp_bytes y.2 b) 0) as [E0 | E0]; [| lia]. rewrite (Eb E0) in G1. lia.
    + rewrite (Ea Hab) in *. destruct Hor as [Hor | Hor]; [specialize (G1' Hor) | specialize (G2' Hor)]; lia.
Qed.

(** ** Ranks *)

(** The rank of an entry: one more than the number of entries before it, or 0. *)
Definition sp_rank (x : entry) (l : list entry) : Z := if sp_mem x l then 1 + zlen (filter (fun y => before y x = true) l) else 0.

Section rank.
Context (z : zskiplist) (ns : list gnode) (ex : list addr) (R : rep z ns ex) (A B : list gnode) (E : ns = A ++ B).

Lemma level_heights pre E' i : A = pre ++ E' -> (forall j, (j < S i)%nat -> tall z j pre) -> forall D, last_at z A i D -> forall j, (j < i)%nat -> tall z j D.
Proof. intros _ _ D (E2 & _ & Ht & _) j Hj. apply (tall_le z i); [done | lia]. Qed.

Lemma rank_found s e g A0 : A = A0 ++ [g] -> cut z (fun _ => node_upto s e) A B -> node_found s e <$> nodes z !! g_addr g = Some true ->
  Forall (fun g' => forall n, nodes z !! g_addr g' = Some n -> node_found s e n = false) A0 ->
  forall i pre E', A = pre ++ E' -> (0 < i)%nat -> (forall j, (j < i)%nat -> tall z j pre) -> rank_loop s e z i (cur z pre) (zlen pre) = Some (zlen A).
Proof.
  intros EA Hcut Hg HA0. induction i as [| i IH]; intros pre E' EA' Hi Ht; [lia |]. cbn [rank_loop].
  destruct (walk_full z ns ex R _ A B E Hcut i pre E' EA' (Ht i ltac:(lia))) as (D & -> & HD & _). cbn [mbind option_bind].
  pose proof HD as (E2 & ED & HtD & HsD). destruct E2 as [| g2 E2 _] using rev_ind.
  - rewrite app_nil_r in ED. rewrite <- ED, EA, cur_snoc. destruct (nodes z !! g_addr g) as [n |]; [| done]. cbn in Hg |- *. injection Hg as ->. done.
  - rewrite EA, app_assoc in ED. apply app_inj_tail in ED as [ED ->].
    assert (exists n, nodes z !! cur z D = Some n /\ node_found s e n = false) as (n & -> & Enf).
    { destruct D as [| d D _] using rev_ind.
      - rewrite cur_nil. destruct (rep_header _ _ _ R) as (s0 & Es). unfold shape in Es. destruct (nodes z !! header z) as [n |]; [| done]. cbn in Es. injection Es as En _ _ _.
        exists n. split; [done |]. unfold node_found. by rewrite En.
      - rewrite cur_snoc. assert (ns = D ++ d :: (E2 ++ [g2]) ++ B) as Ed by (by rewrite E, EA, ED, <- !app_assoc).
        destruct (node_at z ns ex R D d _ Ed) as (n & En & _). exists n. split; [done |]. rewrite ED in HA0. apply Forall_app in HA0 as [HA0 _].
        apply Forall_app in HA0 as [_ HA0]. apply Forall_cons in HA0 as [HA0 _]. by apply HA0. }
    cbn [mbind option_bind]. rewrite Enf. destruct i as [| i].
    + exfalso. apply last_at_keep in HD. rewrite keep_0 in HD.
      * rewrite EA, ED in HD. apply (f_equal length) in HD. rewrite !length_app in HD. cbn in HD. lia.
      * pose proof (heights_pos _ _ _ R) as Hp. rewrite E in Hp. by apply Forall_app in Hp as [? _].
    + apply (IH D (E2 ++ [g2])); [by rewrite EA, ED, <- app_assoc | lia |]. intros j Hj. apply (tall_le z (S i)); [done | lia].
Qed.

Lemma rank_absent s e : cut z (fun _ => node_upto s e) A B -> Forall (fun g' => forall n, nodes z !! g_addr g' = Some n -> node_found s e n = false) A ->
  forall i pre E', A = pre ++ E' -> (forall j, (j < i)%nat -> tall z j pre) -> rank_loop s e z i (cur z pre) (zlen pre) = Some 0.
Proof.
  intros Hcut HA. induction i as [| i IH]; intros pre E' EA' Ht; [done |]. cbn [rank_loop].
  destruct (walk_full z ns ex R _ A B E Hcut i pre E' EA' (Ht i ltac:(lia))) as (D & -> & (E2 & ED & HtD & HsD) & _). cbn [mbind option_bind].
  assert (exists n, nodes z !! cur z D = Some n /\ node_found s e n = false) as (n & -> & Enf).
  { destruct D as [| d D _] using rev_ind.
    - rewrite cur_nil. destruct (rep_header _ _ _ R) as (s0 & Es). unfold shape in Es. destruct (nodes z !! header z) as [n |]; [| done]. cbn in Es. injection Es as En _ _ _.
      exists n. split; [done |]. unfold node_found. by rewrite En.
    - rewrite cur_snoc. assert (ns = D ++ d :: E2 ++ B) as Ed by (by rewrite E, ED, <- !app_assoc).
      destruct (node_at z ns ex R D d _ Ed) as (n & En & _). exists n. split; [done |]. rewrite ED in HA. apply Forall_app in HA as [HA _].
      apply Forall_app in HA as [_ HA]. apply Forall_cons in HA as [HA _]. by apply HA. }
  cbn [mbind option_bind]. rewrite Enf. apply (IH D E2 ED). intros j Hj. apply (tall_le z i); [done | lia].
Qed.

Lemma by_rank_ok rank : cut z (fun t _ => Some (t <=? rank)) A B -> (B <> [] -> rank = zlen A) -> zlen A <= rank ->
  forall i pre E', A = pre ++ E' -> (forall j, (j < i)%nat -> tall z j pre) -> (0 < i)%nat ->
  by_rank_loop rank z i (cur z pre) (zlen pre) = Some (if rank =? zlen A then Some (cur z A) else None).
Proof.
  intros Hcut HB Hle. induction i as [| i IH]; intros pre E' EA' Ht Hi; [lia |]. cbn [by_rank_loop].
  destruct (walk_full z ns ex R _ A B E Hcut i pre E' EA' (Ht i ltac:(lia))) as (D & -> & HD & _). cbn [mbind option_bind]. pose proof HD as (E2 & ED & HtD & HsD).
  assert (zlen A = zlen D + zlen E2) as Hl by (by rewrite ED, zlen_app). pose proof (zlen_nonneg E2). destruct (Z.eqb_spec (zlen D) rank) as [Er | Er].
  - assert (E2 = []) as -> by (apply zlen_0; lia). rewrite app_nil_r in ED. subst D. by rewrite (proj2 (Z.eqb_eq _ _)).
  - destruct i as [| i].
    + cbn [by_rank_loop]. apply last_at_keep in HD. rewrite keep_0 in HD; [| pose proof (heights_pos _ _ _ R) as Hp; rewrite E in Hp; by apply Forall_app in Hp as [? _]].
      subst D. by rewrite (proj2 (Z.eqb_neq rank (zlen A))) by lia.
    + apply (IH D E2 ED); [| lia]. intros j Hj. apply (tall_le z (S i)); [done | lia].
Qed.
End rank.

Lemma node_upto_eq s e g n : node_of g n -> node_upto s e n = Some (before (ent g) (s, e) || same (ent g) (s, e)).
Proof.
  intros [E1 E2]. unfold node_upto, before, same. rewrite E1, E2. cbn. destruct (g_score g <? s)%D; [done |]. cbn. destruct (g_score g =? s)%D; [| done]. cbn.
  f_equal. destruct (Z.leb_spec (sdscmp_bytes (g_ele g) e) 0), (Z.ltb_spec (sdscmp_bytes (g_ele g) e) 0), (Z.eqb_spec (sdscmp_bytes (g_ele g) e) 0); lia || done.
Qed.
Lemma node_found_eq s e g n : node_of g n -> node_found s e n = same (ent g) (s, e).
Proof. intros [E1 E2]. unfold node_found, same. by rewrite E1, E2. Qed.
Lemma same_sym x y : isnan x.1 = false -> isnan y.1 = false -> same x y = same y x.
Proof. intros Hx Hy. apply eq_bool_prop_intro. rewrite !Is_true_true, !same_key by done. split; intros [? ?]; done. Qed.

Lemma rank_spec z l s e : zsl_ok z l -> isnan s = false -> zslGetRank z s e = Some (sp_rank (s, e) l).
Proof.
  intros (ns & R & <- & Hs) Hnan. destruct (rep_around z ns [] (s, e) R Hs Hnan) as (A & B & -> & _ & HnA & HnB & SA & SB & HA & HB). unfold zslGetRank, sp_rank.
  rewrite map_app. destruct (below_tests (s, e) Hnan _ HnA HA) as [FA1 FA2].
  assert (forall X Y, A ++ B = X ++ Y -> Forall (fun y => before y (s, e) || same y (s, e) = true) (map ent X) -> Forall (fun y => before y (s, e) || same y (s, e) = false) (map ent Y) ->
    cut z (fun _ => node_upto s e) X Y) as Hcut.
  { intros X Y EXY HX HY. apply (accepts_cut z _ [] _ X Y R EXY). rewrite EXY.
    apply (accepts_test _ (fun y => before y (s, e) || same y (s, e))); [intros ? g n; apply node_upto_eq | by apply Forall_ent in HX | by apply Forall_ent in HY]. }
  assert (Forall (fun y => before y (s, e) || same y (s, e) = true) (map ent A)) as FA by (eapply Forall_impl; [exact FA1 |]; by intros y ->).
  assert (forall K, numbers (map ent K) -> Forall (elt (s, e)) (map ent K) -> Forall (fun y => before y (s, e) || same y (s, e) = false) (map ent K)) as Habove.
  { intros K HnK HK. destruct (above_tests (s, e) Hnan _ HnK HK) as [F1 F2]. apply Forall_forall. intros y Hy. apply (Forall_forall _ _) with (2 := Hy) in F1.
    apply (Forall_forall _ _) with (2 := Hy) in F2. apply (Forall_forall _ _) with (2 := Hy) in HnK. cbn in *. rewrite F1, same_sym by done. by rewrite F2. }
  assert (Forall (fun g' => forall n, nodes z !! g_addr g' = Some n -> node_found s e n = false) A) as FnA.
  { apply Forall_forall. intros g Hg n En. apply list_elem_of_split in Hg as (X & Y & EA). assert (A ++ B = X ++ g :: Y ++ B) as Eg by (by rewrite EA, <- app_assoc).
    destruct (node_at z _ [] R X g _ Eg) as (n' & En' & E1 & E2 & _). rewrite En in En'. injection En' as <-. rewrite (node_found_eq s e g n) by (by split).
    apply Forall_ent in FA2, HnA. rewrite EA in FA2, HnA. apply Forall_app in FA2 as [_ FA2]. apply Forall_cons in FA2 as [FA2 _]. apply Forall_app in HnA as [_ HnA]. apply Forall_cons in HnA as [HnA _].
    rewrite same_sym by done. exact FA2. }
  destruct HB as [HB | (g & B' & -> & Hg & HB)].
  - rewrite (proj2 (around_delete_none (s, e) Hnan _ _ HnA HnB HA HB)).
    apply (rank_absent z _ [] R A B eq_refl s e (Hcut A B eq_refl FA (Habove B HnB HB)) FnA (zsl_level z) [] A eq_refl). intros j Hj. exact Hj.
  - cbn [map] in HnB, SB |- *. apply Forall_cons in HnB as [Hgn HnB]. rewrite (proj2 (around_delete (s, e) Hnan _ _ HnA HnB HA HB (ent g) Hg)).
    assert (A ++ g :: B' = (A ++ [g]) ++ B') as Eg by (by rewrite <- app_assoc).
    assert (cut z (fun _ => node_upto s e) (A ++ [g]) B') as Hc.
    { apply Hcut; [done | | by apply Habove]. rewrite map_app. apply Forall_app. split; [done |]. cbn [map]. apply Forall_cons. split; [| apply Forall_nil_2].
      rewrite same_sym by done. rewrite Hg. apply orb_true_r. }
    destruct (node_at z _ [] R A g B' eq_refl) as (n & En & E1 & E2 & _).
    assert (node_found s e <$> nodes z !! g_addr g = Some true) as Hfound by (rewrite En; cbn; rewrite (node_found_eq s e g n), same_sym by (done || by split); by rewrite Hg).
    pose proof (rank_found z _ [] R (A ++ [g]) B' Eg s e g A eq_refl Hc Hfound FnA (zsl_level z) [] (A ++ [g]) eq_refl (level_pos _ _ _ R)) as Hr.
    change (cur z []) with (header z) in Hr. rewrite (@zlen_nil gnode) in Hr. rewrite Hr by (intros j Hj; exact Hj). f_equal. rewrite zlen_app. change (zlen [g]) with 1.
    rewrite filter_app, (filter_all _ _ FA1), filter_cons_False, filter_none.
    + rewrite app_nil_r. unfold zlen. rewrite length_map. lia.
    + destruct (above_tests (s, e) Hnan _ HnB HB) as [F1 _]. eapply Forall_impl; [exact F1 |]. cbn. congruence.
    + intros Hb. apply before_elt in Hb; [| done | done]. apply (same_elt_r (s, e) (ent g) (ent g) Hnan Hgn Hg) in Hb. by apply elt_irrefl in Hb.
Qed.

Lemma by_rank_spec z l rank : zsl_ok z l -> 1 <= rank -> exists p, zslGetElementByRank z rank = Some p /\ node_entry z p = l !! Z.to_nat (rank - 1).
Proof.
  intros (ns & R & <- & Hs) Hr. set (A := take (Z.to_nat rank) ns). set (B := drop (Z.to_nat rank) ns). assert (ns = A ++ B) as E by (symmetry; apply take_drop).
  assert (length A = Nat.min (Z.to_nat rank) (length ns)) as HlA by apply length_take. assert (length B = length ns - Z.to_nat rank)%nat as HlB by apply length_drop.
  assert (cut z (fun t _ => Some (t <=? rank)) A B) as Hcut.
  { apply (accepts_cut z ns [] _ A B R E). intros j g n Ej _. apply lookup_lt_Some in Ej. f_equal.
    destruct (Z.leb_spec (0 + Z.of_nat j + 1) rank), (Nat.ltb_spec j (length A)); lia || done. }
  pose proof (level_pos _ _ _ R) as Hlp. unfold zslGetElementByRank.
  pose proof (by_rank_ok z ns [] R A B E rank Hcut) as Hb. unfold zlen in Hb.
  rewrite <- (cur_nil z). change 0 with (Z.of_nat (length (@nil gnode))). rewrite (Hb ltac:(destruct B; [done | cbn in HlB; lia]) ltac:(lia) (zsl_level z) [] A eq_refl ltac:(intros j Hj; exact Hj) ltac:(lia)).
  eexists. split; [reflexivity |]. destruct (Z.eqb_spec rank (Z.of_nat (length A))) as [Er | Er].
  - assert (A <> []) as HneA by (intros EA; rewrite EA in Er; cbn in Er; lia). assert (rep z (A ++ B) []) as R' by (by rewrite <- E). rewrite (node_entry_cur z A B [] R' HneA).
    rewrite last_lookup. rewrite length_map. assert (map ent ns = map ent A ++ map ent B) as -> by (by rewrite E at 1; rewrite map_app).
    rewrite lookup_app_l by (rewrite length_map; lia). f_equal. lia.
  - cbn. symmetry. apply lookup_ge_None. rewrite length_map. lia.
Qed.
