(* ===== verification/SkiplistRun.v ===== *)
(** The skip list of a sorted set as a sorted list: the theorems. *)
From Stdlib Require Import Sorted.
From stdpp Require Import gmap sorting.
From S2P Require Import Prelude Sds Skiplist SkiplistInv SkiplistOps SkiplistDel SkiplistSpec SkiplistThms.

(** ** Sequences of updates *)

Inductive zop :=
| ZInsert (draws : list Z) (s : double) (e : list Z)
| ZDelete (s : double) (e : list Z)
| ZUpdateScore (draws : list Z) (cs : double) (e : list Z) (s : double)
| ZDeleteRangeByScore (r : zrangespec)
| ZDeleteRangeByLex (r : zlexrangespec)
| ZDeleteRangeByRank (start stop : Z).

Section run.
Context (alloc : gmap addr zskiplistNode -> addr) (uninit : zskiplistLevel) (ub : option addr).
Context {D : Type} (dictDelete : D -> list Z -> D).

Definition run_zop (z : zskiplist) (d : D) (op : zop) : option (zskiplist * D * Z) :=
  match op with
  | ZInsert draws s e => '(z, _) ← zslInsert alloc uninit ub z draws s e; Some (z, d, 0)
  | ZDelete s e => '(z, found, _) ← zslDelete z s e true; Some (z, d, if (found : bool) then 1 else 0)
  | ZUpdateScore draws cs e s => '(z, _) ← zslUpdateScore alloc uninit ub z draws cs e s; Some (z, d, 0)
  | ZDeleteRangeByScore r => zslDeleteRangeByScore dictDelete z r d
  | ZDeleteRangeByLex r => zslDeleteRangeByLex dictDelete z r d
  | ZDeleteRangeByRank start stop => zslDeleteRangeByRank dictDelete z start stop d
  end.
Fixpoint run_zops (z : zskiplist) (d : D) (ops : list zop) : option (zskiplist * D * list Z) :=
  match ops with
  | [] => Some (z, d, [])
  | op :: ops => '(z, d, r) ← run_zop z d op; '(z, d, rs) ← run_zops z d ops; Some (z, d, r :: rs)
  end.

(** The same on a list of entries.  What the callers ensure: scores are
    numbers, an inserted entry is new, an updated one is there, ranges by
    element are used when all scores are equal, the length does not overflow. *)
Definition one_score_b (l : list entry) : bool := match l with [] => true | x :: l => forallb (fun y => (x.1 =? y.1)%D) l end.

Definition sp_op (l : list entry) (d : D) (op : zop) : option (list entry * D * Z) :=
  _ ← assert_ (zlen l + 1 <? 2 ^ 64);
  match op with
  | ZInsert draws s e =>
      _ ← zslRandomLevel draws; _ ← assert_ (negb (isnan s) && negb (sp_mem (s, e) l)); Some (sp_insert (s, e) l, d, 0)
  | ZDelete s e => _ ← assert_ (negb (isnan s)); Some (sp_delete (s, e) l, d, if sp_mem (s, e) l then 1 else 0)
  | ZUpdateScore draws cs e s =>
      _ ← zslRandomLevel draws; _ ← assert_ (negb (isnan cs) && negb (isnan s) && sp_mem (cs, e) l && negb (sp_mem (s, e) (sp_delete (cs, e) l)));
      Some (sp_insert (s, e) (sp_delete (cs, e) l), d, 0)
  | ZDeleteRangeByScore r =>
      _ ← assert_ (negb (isnan (r_min r)) && negb (isnan (r_max r)));
      let gone := sp_range (score_gte_e r) (score_lte_e r) l in
      Some (sp_outside (score_gte_e r) (score_lte_e r) l, foldl dictDelete d (map snd gone), zlen gone)
  | ZDeleteRangeByLex r =>
      _ ← assert_ (one_score_b l);
      let gone := sp_range (lex_gte_e r) (lex_lte_e r) l in
      Some (sp_outside (lex_gte_e r) (lex_lte_e r) l, foldl dictDelete d (map snd gone), zlen gone)
  | ZDeleteRangeByRank start stop =>
      _ ← assert_ (0 <=? stop);
      let a := Z.to_nat (start - 1) in
      let n := (Z.to_nat stop - a)%nat in
      let gone := take n (drop a l) in
      Some (take a l ++ drop n (drop a l), foldl dictDelete d (map snd gone), zlen gone)
  end.
Fixpoint sp_ops (l : list entry) (d : D) (ops : list zop) : option (list entry * D * list Z) :=
  match ops with
  | [] => Some (l, d, [])
  | op :: ops => '(l, d, r) ← sp_op l d op; '(l, d, rs) ← sp_ops l d ops; Some (l, d, r :: rs)
  end.

Lemma zsl_ok_numbers z l : zsl_ok z l -> numbers l.
Proof. intros (ns & R & <- & _). by eapply rep_numbers. Qed.

Lemma one_score_ok l : numbers l -> one_score_b l = true -> one_score l.
Proof.
  destruct l as [| x l]; intros Hn H; [by intros y w Hy; apply elem_of_nil in Hy |]. apply Forall_cons in Hn as [Hx Hn].
  assert (forall y, y ∈ x :: l -> dkey y.1 = dkey x.1) as Hk; [| intros y w Hy Hw; by rewrite (Hk y Hy), (Hk w Hw)].
  intros y Hy. apply elem_of_cons in Hy as [-> | Hy]; [done |]. cbn in H. rewrite forallb_forall in H. symmetry.
  apply d_eq_key; [done | by apply (Forall_forall _ _) with (2 := Hy) in Hn |]. apply H. by apply list_elem_of_In.
Qed.

Hypothesis Halloc : forall m, m !! alloc m = None.

Lemma zslCreate_ok : exists z, zslCreate alloc uninit ub = Some z /\ zsl_ok z [].
Proof.
  unfold zslCreate, zslCreateNode. set (h := alloc _). set (z0 := Zsl (nodes (put_node _ h _)) h _ _ _).
  assert (forall j, (j < ZSKIPLIST_MAXLEVEL)%nat -> get_level z0 h j = Some uninit) as H0.
  { intros j Hj. unfold get_level, z0. cbn [nodes put_node]. rewrite lookup_insert_eq. cbn [mbind option_bind levels]. by apply repeat_lookup. }
  destruct (for_levels_seq (fun j z => z ← set_forward z h j None; set_span z h j 0) (fun j b => if decide (b = h) then Some (Level None 0) else get_level z0 b j) z0 0 ZSKIPLIST_MAXLEVEL) as (z1 & -> & S1 & H1).
  { intros i z1 Hi Hss Hz. pose proof (H0 i ltac:(lia)) as Hu. rewrite <- Hz in Hu. rewrite (set_forward_eq _ _ _ _ _ Hu).
    destruct (set_level_ok _ _ _ (Level None (span uninit)) _ Hu) as (z2 & -> & S2 & H2). cbn [mbind option_bind].
    pose proof (H2 h i) as Hu2. rewrite decide_True in Hu2 by done. rewrite (set_span_eq _ _ _ _ _ Hu2). cbn [forward].
    destruct (set_level_ok _ _ _ (Level None 0) _ Hu2) as (z3 & -> & S3 & H3). exists z3. split; [done |]. split; [by transitivity z2 |].
    intros b j. rewrite H3, H2. destruct (decide (j = i)) as [-> | Hj]; [| by rewrite !decide_False by tauto].
    destruct (decide (b = h)) as [-> | Hb]; [by rewrite decide_True | by rewrite !decide_False by tauto]. }
  cbn [mbind option_bind]. assert (shape z1 h = Some (None, S754_zero false, ub, ZSKIPLIST_MAXLEVEL)) as Sh.
  { rewrite (ss_shape _ _ S1). unfold shape, z0. cbn [nodes put_node]. rewrite lookup_insert_eq. cbn [mbind option_bind ele score backward levels]. by rewrite repeat_length. }
  destruct (set_backward_ok z1 h None _ _ _ _ Sh) as (z2 & -> & S2 & H2 & Eh & Et & Ez & El). cbn [mbind option_bind].
  eexists. split; [reflexivity |]. exists []. split; [| split; [done | constructor]].
  assert (header z2 = h) as Eh' by (rewrite Eh; apply S1). assert (zsl_level z2 = 1%nat) as El' by (rewrite El; apply S1).
  split; cbn [set_tail header tail zsl_length zsl_level].
  - intros pre post i E Ht. symmetry in E. apply app_eq_nil in E as [-> ->]. change (i < zsl_level z2)%nat in Ht. change (get_level z2 (header z2) i = Some (lv i [])).
    rewrite Eh', H2, H1, decide_True, decide_True; [done | done |]. unfold ZSKIPLIST_MAXLEVEL. lia.
  - exists (S754_zero false). change (shape z2 (header z2) = Some (None, S754_zero false, None, ZSKIPLIST_MAXLEVEL)). by rewrite Eh', S2, decide_True.
  - intros i Hi. exists 0. change (get_level z2 (header z2) i = Some (Level None 0)). by rewrite Eh', H2, H1, decide_True, decide_True by lia.
  - intros pre g post E. by destruct pre.
  - done.
  - rewrite Ez, (ss_length _ _ S1). done.
  - done.
  - done.
  - apply Forall_nil_2.
  - apply Forall_nil_2.
  - apply NoDup_singleton.
  - intros a. cbn. rewrite list_elem_of_singleton, shape_some. change (is_Some (shape z2 a) <-> a = header z2). rewrite Eh', S2. case_decide as Ha; [split; eauto |].
    rewrite (ss_shape _ _ S1). split; [| done]. intros [x Hx]. exfalso. revert Hx. unfold shape, z0. cbn [nodes put_node]. rewrite lookup_insert_ne by done. by rewrite lookup_empty.
Qed.

Lemma run_zop_ok z l d op l' d' r : zsl_ok z l -> sp_op l d op = Some (l', d', r) -> exists z', run_zop z d op = Some (z', d', r) /\ zsl_ok z' l'.
Proof.
  intros Hz. pose proof (zsl_ok_numbers z l Hz) as Hn. unfold sp_op. destruct (Z.ltb_spec (zlen l + 1) (2 ^ 64)) as [Hb |]; [| done]. cbn [assert_ mbind option_bind]. destruct op as [draws s e | s e | draws cs e s | r0 | r0 | start stop].
  - destruct (zslRandomLevel draws) as [h |] eqn:Ed; [| done]. cbn [mbind option_bind]. destruct (isnan s) eqn:Hs; [done |]. destruct (sp_mem (s, e) l) eqn:Hm; [done |].
    intros [= <- <- <-]. destruct (insert_spec alloc uninit ub Halloc z l [] draws s e h Hz Hs Hm Ed Hb) as (z' & x & E & Hz' & _). exists z'. unfold run_zop. by rewrite E.
  - destruct (isnan s) eqn:Hs; [done |]. intros [= <- <- <-]. destruct (delete_spec z l [] s e true Hz Hs) as (z' & p & E & Hz' & _ & Hp). rewrite Hp in Hz' by done.
    exists z'. unfold run_zop. by rewrite E.
  - destruct (zslRandomLevel draws) as [h |] eqn:Ed; [| done]. cbn [mbind option_bind]. destruct (isnan cs) eqn:Hcs; [done |]. destruct (isnan s) eqn:Hs; [done |].
    destruct (sp_mem (cs, e) l) eqn:Hm; [| done]. destruct (sp_mem (s, e) (sp_delete (cs, e) l)) eqn:Hm2; [done |]. intros [= <- <- <-].
    destruct (update_spec alloc uninit ub Halloc z l draws cs s e h Hz Hcs Hs Hm Hm2 Ed) as (z' & x & E & Hz'). exists z'. unfold run_zop. by rewrite E.
  - destruct (isnan (r_min r0)) eqn:H1; [done |]. destruct (isnan (r_max r0)) eqn:H2; [done |]. intros [= <- <- <-].
    destruct (score_interval r0 l (conj H1 H2) Hn) as (I1 & I2 & _).
    apply (delete_tests_ok dictDelete (score_gte_e r0) (score_lte_e r0)); try done; intros g n [E1 E2]; unfold score_gte, score_lte; by rewrite E2.
  - destruct (one_score_b l) eqn:H1; [| done]. intros [= <- <- <-]. destruct (lex_interval r0 l (one_score_ok l Hn H1)) as (I1 & I2 & _).
    apply (delete_tests_ok dictDelete (lex_gte_e r0) (lex_lte_e r0)); try done; intros g n [E1 E2]; unfold lex_gte, lex_lte; by rewrite E1.
  - destruct (Z.leb_spec 0 stop) as [Hst |]; [| done]. intros [= <- <- <-]. destruct Hz as (ns & R & <- & Hs). set (a := Z.to_nat (start - 1)). set (n := (Z.to_nat stop - a)%nat).
    assert (ns = take a ns ++ take n (drop a ns) ++ drop n (drop a ns)) as E by (by rewrite !take_drop).
    pose proof (length_take ns a) as La. pose proof (length_take (drop a ns) n) as LM. pose proof (length_drop ns a) as Ld.
    unfold run_zop, zslDeleteRangeByRank. rewrite !skipn_map, !firstn_map, <- !map_app.
    destruct (delete_range_ok dictDelete (fun t _ => Some (t <? start)) (fun t _ => Some (t <=? stop)) z (take a ns) (take n (drop a ns)) (drop n (drop a ns)) d) as (z' & E1 & E2).
    + by rewrite <- E.
    + by rewrite <- E.
    + rewrite <- E. intros j g nd Ej _. apply lookup_lt_Some in Ej. f_equal. destruct (Z.ltb_spec (0 + Z.of_nat j + 1) start), (Nat.ltb_spec j (length (take a ns))); lia || done.
    + rewrite take_drop. intros j g nd Ej _. apply lookup_lt_Some in Ej. f_equal. unfold zlen. destruct (Z.leb_spec (Z.of_nat (length (take a ns)) + Z.of_nat j + 1) stop), (Nat.ltb_spec j (length (take n (drop a ns)))); lia || done.
    + rewrite <- E. unfold zlen in *. by rewrite length_map in Hb.
    + by exists z'.
Qed.

Lemma run_zops_ok ops : forall z l d l' d' rs, zsl_ok z l -> sp_ops l d ops = Some (l', d', rs) -> exists z', run_zops z d ops = Some (z', d', rs) /\ zsl_ok z' l'.
Proof.
  induction ops as [| op ops IH]; intros z l d l' d' rs Hz; cbn [sp_ops run_zops]; [intros [= <- <- <-]; by exists z |].
  destruct (sp_op l d op) as [[[l1 d1] r] |] eqn:E1; [| done]. cbn [mbind option_bind]. destruct (sp_ops l1 d1 ops) as [[[l2 d2] rs2] |] eqn:E2; [| done]. cbn [mbind option_bind].
  intros [= <- <- <-]. destruct (run_zop_ok z l d op l1 d1 r Hz E1) as (z1 & -> & Hz1). cbn [mbind option_bind].
  destruct (IH z1 l1 d1 l2 d2 rs2 Hz1 E2) as (z2 & -> & Hz2). by exists z2.
Qed.

(** C5: the skip list refines a strictly sorted list.  From a new skip list,
    any sequence of insertions (at any random heights and any addresses),
    deletions, score updates and deletions of ranges by score, by element or
    by rank runs without failure, gives the results and the changes of the
    companion dictionary that the list operations give, and ends in a skip
    list that represents the resulting list: every level links, with the right
    spans, the nodes tall enough for it, backward pointers, tail, length and
    level agree, all other nodes have been freed. *)
Theorem zsl_refines_sorted ops d l' d' rs : sp_ops [] d ops = Some (l', d', rs) ->
  exists z0 z', zslCreate alloc uninit ub = Some z0 /\ run_zops z0 d ops = Some (z', d', rs) /\ zsl_ok z' l'.
Proof.
  intros H. destruct zslCreate_ok as (z0 & E0 & Hz0). destruct (run_zops_ok ops z0 [] d l' d' rs Hz0 H) as (z' & E & Hz'). by exists z0, z'.
Qed.
End run.

(** ** Queries *)

Lemma sp_rank_lookup l k x : numbers l -> sorted l -> l !! k = Some x -> sp_rank x l = Z.of_nat k + 1.
Proof.
  intros Hn Hs Hk. assert (l = take k l ++ x :: drop (S k) l) as E by (by rewrite take_drop_middle). assert (k < length l)%nat as Hlt by (by apply lookup_lt_Some in Hk).
  pose proof (length_take l k) as Hl. set (A := take k l) in *. set (B := drop (S k) l) in *. rewrite E in Hn, Hs |- *.
  apply Forall_app in Hn as [HnA Hn]. apply Forall_cons in Hn as [Hx HnB]. apply StronglySorted_app in Hs as (HAx & _ & Hs). apply StronglySorted_inv in Hs as [_ HB].
  assert (Forall (fun y => elt y x) A) as HA by (apply Forall_forall; intros y Hy; apply HAx; [done | left]).
  assert (same x x = true) as Hxx by (by apply same_key). unfold sp_rank. rewrite (proj2 (around_delete x Hx A B HnA HnB HA HB x Hxx)).
  destruct (below_tests x Hx A HnA HA) as [F1 _]. destruct (above_tests x Hx B HnB HB) as [F2 _].
  rewrite filter_app, (filter_all _ _ F1), filter_cons_False, filter_none.
  - rewrite app_nil_r. unfold zlen. lia.
  - eapply Forall_impl; [exact F2 |]. cbn. congruence.
  - intros Hb. apply before_elt in Hb; [| done | done]. by apply elt_irrefl in Hb.
Qed.

(** C6: ranks.  [zslGetRank] gives the 1-based position of an entry in the
    sorted list and 0 for one that is not there, [zslGetElementByRank] leads to
    the entry at a position or is NULL beyond the end, and each inverts the
    other. *)
Theorem zsl_rank_correct z l : zsl_ok z l ->
  (forall s e, isnan s = false -> zslGetRank z s e = Some (sp_rank (s, e) l)) /\
  (forall rank, 1 <= rank -> exists p, zslGetElementByRank z rank = Some p /\ node_entry z p = l !! Z.to_nat (rank - 1)) /\
  (forall rank s e, 1 <= rank -> (exists p, zslGetElementByRank z rank = Some p /\ node_entry z p = Some (s, e)) -> zslGetRank z s e = Some rank).
Proof.
  intros Hz. split; [intros s e Hs; by apply rank_spec |]. split; [intros rank Hr; by apply by_rank_spec |].
  intros rank s e Hr (p & Ep & Ee). destruct (by_rank_spec z l rank Hz Hr) as (p' & Ep' & Ee'). rewrite Ep in Ep'. injection Ep' as <-. rewrite Ee in Ee'. symmetry in Ee'.
  pose proof (zsl_ok_numbers z l Hz) as Hn. assert (isnan s = false) as Hs by (by apply (Forall_lookup_1 _ _ _ _ Hn Ee')).
  rewrite (rank_spec z l s e Hz Hs). destruct Hz as (ns & _ & _ & Hsorted). rewrite (sp_rank_lookup l _ _ Hn Hsorted Ee'). f_equal. lia.
Qed.

(** C7: range queries.  For ranges of scores, and for ranges of elements when
    all scores are equal, with inclusive or exclusive bounds, the first and the last node
    in range are those of the entries that satisfy both bounds, NULL when there are none;
    and when [zslIsInRange] or [zslIsInLexRange] says no, there are none. *)
Theorem zsl_range_correct z l : zsl_ok z l ->
  (forall r, range_ok r -> let inside := sp_range (score_gte_e r) (score_lte_e r) l in
    (exists p, zslFirstInRange z r = Some p /\ node_entry z p = head inside) /\
    (exists p, zslLastInRange z r = Some p /\ node_entry z p = last inside) /\
    (exists b, zslIsInRange z r = Some b /\ (b = false -> inside = []))) /\
  (forall r, one_score l -> let inside := sp_range (lex_gte_e r) (lex_lte_e r) l in
    (exists p, zslFirstInLexRange z r = Some p /\ node_entry z p = head inside) /\
    (exists p, zslLastInLexRange z r = Some p /\ node_entry z p = last inside) /\
    (exists b, zslIsInLexRange z r = Some b /\ (b = false -> inside = []))).
Proof.
  intros Hz. pose proof (zsl_ok_numbers z l Hz) as Hn. destruct Hz as (ns & R & <- & Hs). split; intros r Hr inside.
  - pose proof (score_interval r _ Hr Hn) as Hi.
    assert (forall g n, node_of g n -> score_gte r n = Some (score_gte_e r (ent g))) as G1 by (intros g n [_ E]; unfold score_gte; by rewrite E).
    assert (forall g n, node_of g n -> score_lte r n = Some (score_lte_e r (ent g))) as G2 by (intros g n [_ E]; unfold score_lte; by rewrite E).
    split; [by apply (first_in_range_ok _ _ _ _ _ G1 G2 z ns [] R Hs Hi) |]. split; [by apply (last_in_range_ok _ _ _ _ _ G1 G2 z ns [] R Hs Hi) |].
    destruct (in_range_ok _ _ _ _ _ G1 G2 z ns [] R Hs Hi) as (b & E & Hb). exists b. split; [done | by intros ->].
  - pose proof (lex_interval r _ Hr) as Hi.
    assert (forall g n, node_of g n -> lex_gte r n = Some (lex_gte_e r (ent g))) as G1 by (intros g n [E _]; unfold lex_gte; by rewrite E).
    assert (forall g n, node_of g n -> lex_lte r n = Some (lex_lte_e r (ent g))) as G2 by (intros g n [E _]; unfold lex_lte; by rewrite E).
    split; [by apply (first_in_range_ok _ _ _ _ _ G1 G2 z ns [] R Hs Hi) |]. split; [by apply (last_in_range_ok _ _ _ _ _ G1 G2 z ns [] R Hs Hi) |].
    destruct (in_range_ok _ _ _ _ _ G1 G2 z ns [] R Hs Hi) as (b & E & Hb). exists b. split; [done | by intros ->].
Qed.

(** ** Instances *)

Definition ex_alloc (m : gmap addr zskiplistNode) : addr := fresh (dom m : gset addr).
Lemma ex_alloc_fresh m : m !! ex_alloc m = None.
Proof. apply (not_elem_of_dom (D := gset addr)). exact (is_fresh (dom m : gset addr)). Qed.
Definition ex_uninit : zskiplistLevel := Level (Some 7%positive) 99.

(** Heights 1 to 4; two equal scores, one zero of each sign. *)
Definition ex_zops : list zop :=
  [ZInsert [threshold] (d_of_ll 3) [98]; ZInsert [0; 0; threshold] (d_of_ll 1) [97]; ZInsert [0; threshold] (d_of_ll 3) [97; 98]; ZInsert [0; 0; 0; threshold] (S754_infinity true) [];
   ZInsert [threshold] (S754_zero true) [122]; ZInsert [0; threshold] (S754_zero false) [121]; ZDelete (d_of_ll 3) [98]; ZDelete (d_of_ll 3) [99];
   ZUpdateScore [threshold] (d_of_ll 1) [97] (d_of_ll 2); ZUpdateScore [0; threshold] (S754_zero false) [121] (d_of_ll 9)].
Definition ex_zl : list entry := [(S754_infinity true, []); (S754_zero true, [122]); (d_of_ll 2, [97]); (d_of_ll 3, [97; 98]); (d_of_ll 9, [121])].
Definition ex_more : list zop := [ZDeleteRangeByScore (Range (d_of_ll 0) (d_of_ll 3) false true); ZDeleteRangeByRank 2 7].

Lemma zsl_refines_sorted_witness : exists z0 z', zslCreate ex_alloc ex_uninit None = Some z0 /\
  run_zops ex_alloc ex_uninit None (fun d e => d ++ [e]) z0 [] (ex_zops ++ ex_more) = Some (z', [[122]; [97]; [97; 98]; [121]], [0; 0; 0; 0; 0; 0; 1; 0; 0; 0; 2; 2]) /\
  zsl_ok z' [(S754_infinity true, [])].
Proof. apply (zsl_refines_sorted ex_alloc ex_uninit None (fun d e => d ++ [e]) ex_alloc_fresh). vm_compute. reflexivity. Defined.

(** The list after the first operations. *)
Lemma ex_zsl : exists z, zsl_ok z ex_zl.
Proof.
  destruct (zslCreate_ok ex_alloc ex_uninit None) as (z0 & _ & Hz0).
  destruct (run_zops_ok ex_alloc ex_uninit None (fun d e => d ++ [e]) ex_alloc_fresh ex_zops z0 [] [] ex_zl [] [0; 0; 0; 0; 0; 0; 1; 0; 0; 0] Hz0) as (z & _ & Hz); [by vm_compute | by exists z].
Qed.

Lemma zsl_rank_correct_witness : exists z, zslGetRank z (d_of_ll 2) [97] = Some 3 /\ (exists p, zslGetElementByRank z 5 = Some p /\ node_entry z p = Some (d_of_ll 9, [121])).
Proof.
  destruct ex_zsl as (z & Hz). exists z. destruct (zsl_rank_correct z ex_zl Hz) as (H1 & H2 & _). split; [exact (H1 (d_of_ll 2) [97] eq_refl) | exact (H2 5 ltac:(lia))].
Defined.

Lemma zsl_range_correct_witness : exists z p q, zslFirstInRange z (Range (d_of_ll 0) (d_of_ll 3) true false) = Some p /\ node_entry z p = Some (d_of_ll 2, [97]) /\
  zslLastInRange z (Range (d_of_ll 0) (d_of_ll 3) true true) = Some q /\ node_entry z q = Some (d_of_ll 2, [97]).
Proof.
  destruct ex_zsl as (z & Hz). destruct (zsl_range_correct z ex_zl Hz) as (H & _).
  destruct (H (Range (d_of_ll 0) (d_of_ll 3) true false) ltac:(by split)) as ((p & E1 & E2) & _). destruct (H (Range (d_of_ll 0) (d_of_ll 3) true true) ltac:(by split)) as (_ & (q & E3 & E4) & _).
  exists z, p, q. split; [exact E1 |]. split; [exact E2 |]. split; [exact E3 | exact E4].
Defined.
